(* ===== verification/_CoqProject ===== *)
-Q . S2P
Prelude.v
LayoutSizes.v
LayoutTree.v
LayoutFacts.v
LayoutEdit.v
LayoutTiling.v
LayoutProps.v
WindowState.v
Ultra.v
WindowOps.v
WindowResize.v
WindowFacts.v
WindowMoves.v
WindowSizing.v
WindowSteps.v
WindowProps.v
UltraFacts.v
UltraSteps.v
UltraProps.v
GoText.v
Scanner.v
Undo.v
Session.v
SessionFacts.v
SessionSteps.v
SessionProps.v
GoCodec.v
Mailbox.v
MailboxFacts.v
MailboxInv.v
MailboxReach.v
MailboxDrain.v
MailboxSnapshot.v
MailboxProps.v
Mouse.v
MouseProps.v
GoWire.v
PaneHistory.v
PaneHistoryFacts.v
Wire.v
WireFacts.v
HistoryChunks.v
HistoryFacts.v
WireProps.v
HistoryProps.v
PaneMeta.v
PaneMetaFacts.v
PaneMetaProps.v
LayoutSnapshot.v
SnapshotProps.v
GoRunes.v
CopyMode.v
CopyMotion.v
CopyInput.v
CopyOverlay.v
CopyFacts.v
CopySearch.v
CopySteps.v
CopyInputFacts.v
CopyProps.v
CopySearchProps.v
CopyTextProps.v
ScreenGrid.v
ScreenEmit.v
ScreenTerm.v
ScreenFacts.v
ScreenHeap.v
ScreenFrame.v
ScreenProps.v
PaneRows.v
PaneRowFacts.v
PaneComposeProps.v
BorderMap.v
BorderProps.v
FrameGrid.v
FrameFacts.v
FrameProps.v
ClientUI.v
ClientUIProps.v
