(* ===== verification/Prelude.v ===== *)
(** * amux: verification development (root file)

    amux is a terminal multiplexer for coding agents.  A server keeps sessions
    of windows; a window arranges panes (a PTY with a terminal emulator) on the
    screen.  This development models the server's state: where panes are (the
    layout tree, the windows that own one, the paginated "ultra" grid, all under
    src/internal/mux/), the session that owns windows and panes and can restore
    a closed pane (src/internal/server/), the mailbox through which agents send
    each other messages (src/internal/mailbox/), the scanners that pick
    escape sequences out of the output of a pane (src/internal/mux/), the parser
    of mouse input (src/internal/mouse/), the messages between server and
    client with the binary encoding of a pane's history (src/internal/proto/),
    the metadata of a pane and the commands on it, the snapshots of windows
    and sessions that clients and restarted servers read (src/internal/mux/,
    src/internal/server/), copy mode, in which a user moves through the text of a
    pane, searches, selects and copies (src/internal/copymode/), the screen of the
    client: the cells of panes, borders and overlays, whole frames and frames
    in which some panes are drawn again, and the output that brings a terminal from
    one frame to the next (src/internal/render/), and the client's interface state
    with the loop that draws it (src/internal/client/).

    ** The parts and where they are modelled

    - [LayoutSizes]: the size arithmetic of layout.go (equalSplitSizes,
      frontLoadedSplitSizes, raiseSizesToMinimums, proportionalChildSizes).
    - [LayoutTree]: LayoutCell and its methods (layout.go): resizing, lookup,
      hit tests, Split and Close.
    - [WindowState]: the Window record, the panes, PTY resizing, focus recency,
      Unzoom, the lead predicates (window.go, window_navigate.go,
      window_resize.go, lead.go, and Pane.Resize of pane_emulator.go).
    - [Ultra]: the slot table and its operations (ultra.go).
    - [WindowOps]: splitting, closing, swapping, rotating and moving panes
      (window.go, window_spiral.go).
    - [WindowResize]: terminal and border resizes, equalizing, zoom, directional
      focus, lead, columns, column fill, splicing (window_resize.go,
      window_navigate.go, lead.go, window_spiral.go, column_fill.go, window.go).

    - [GoText], [GoCodec]: what the code uses of Go's standard library: bytes,
      the order of strings, decimal numbers, UTF-8, white space, the validity
      and the encoded size of JSON, SHA-256.
    - [Scanner]: OSC52Scanner and AmuxMetaScanner (osc52.go, meta_scanner.go).
    - [Undo]: the UndoManager (server/undo_manager.go).
    - [Session]: the session's windows, panes, closed panes, timers and queued
      events (server/session_window.go, session_pane.go,
      session_events_pane.go, session_broadcast.go, and the parts of
      session_events_layout.go and commands_layout.go that create windows).
    - [Mailbox]: the mailbox store (mailbox/store.go).
    - [Mouse]: the parser of mouse sequences (mouse/mouse.go) and the queue that
      coalesces drag motion (dispatchQueuedMouseInputChunks of client/attach.go).
    - [GoWire]: varints, big-endian integers and readers of Go's standard library.
    - [PaneHistory]: the payload of a history message (proto/wire_pane_history.go).
    - [Wire]: frames, writers and readers (proto/wire.go), the cache of payloads
      (proto/wire_pane_history.go).  [HistoryChunks]: the chunks a history is sent
      in (server/pane_history_chunk.go).
    - [PaneMeta]: a pane's metadata fields and keys (mux/pane_meta_kv.go,
      meta_kv.go), the commands on them (server/commands/meta/meta.go) and the
      events that change them (session_events_pane.go, session_mirror_meta.go,
      runRename and cmdRespawn of commands_layout.go, restored panes of
      checkpoint.go, ApplyCwdBranch, Respawn and Replacement of mux/pane.go).
    - [LayoutSnapshot]: snapshots of cells, windows and sessions, and what is
      rebuilt from them (mux/snapshot.go, server/session_broadcast.go,
      server/checkpoint.go).
    - [GoRunes]: runes of a text, and the classes of runes as an interface.
    - [CopyMode]: the state of copy mode, sizes, scrolling, selections and the
      copied text (copymode/copymode.go, motions.go; the buffer it works on is
      that of client/renderer_queries.go).  [CopyMotion]: motions, character
      searches, paragraphs, brackets and the search (motions.go, charsearch.go,
      structural_motions.go, copymode_motions.go).  [CopyInput]: keys, prompts and
      the text field (copymode.go, copymode_motions.go, bubblesutil/textinput.go).
      [CopyOverlay]: what is drawn over the pane (overlay.go, render.go,
      proto/copymode_overlay.go).
    - [ScreenGrid]: cells, grids, copies that share rows, and the difference of
      two grids (render/screen.go).  [ScreenEmit]: the output of a difference and
      the compositor's memory of the terminal (screen.go, color_profile.go,
      compositor.go).  [ScreenTerm] is the specification of the terminal.
    - [PaneRows]: the content of a pane, its highlights and its composition
      (screen.go, copymode_overlay.go, attention.go).  [BorderMap]: the cells
      between panes, their characters and colors (border.go, screen.go).
      [FrameGrid]: the grid of a frame, whole or in part, with the labels of empty
      slots, pane labels, drop indicators, the bars and the tint of every other pane
      (screen.go, compositor.go, attention.go, ultra.go, dragoverlay.go,
      paneoverlay.go, helpbar.go, window_drag_overlay.go, overlay.go).
    - [ClientUI]: what the client shows besides panes, the actions that change it
      and the events they emit (client/ui_state.go), the labels of panes, drags,
      prompts and the chooser's modes (display_panes.go, pane_drag.go,
      window_tab_drag.go, pane_rename_prompt.go, window_rename_prompt.go, chooser.go),
      and the render loop: messages, effects, timers, copy mode and the frame it asks
      for (client.go, client_state.go, local_render.go, attach.go).

    A Window's operations call the tree's; in the ultra layout the same
    operations change the slot table and rebuild the tree from it.  A session
    calls its windows' operations and the undo manager's; [Session] is built on
    the definitions of the parts before it.  The scanners, the mailbox, and the
    mouse parser stand on their own.  [HistoryChunks] measures chunks with the
    writer of [Wire], which encodes with [PaneHistory].  The four files of copy
    mode are one component; [PaneRows] draws the overlay of [CopyOverlay] on the
    cells of [ScreenGrid], at the rectangles of [LayoutTree], and [BorderMap]
    walks the same tree; [FrameGrid] puts both and the overlays into one grid, and
    [ScreenEmit] writes what [ScreenGrid] found changed.  [ClientUI] keeps the copy
    modes, decides which panes [FrameGrid] draws again, and turns what the renderer
    shows and its own state into the input of a frame.

    ** How the code is represented

    - [int] is [Z].  Go's [/] and [%] truncate towards zero and are [Z.quot] and
      [Z.rem].  Sizes are terminal cells, far from the bounds of [int]; the one
      place that multiplies two of them at 64 bits is proportionalChildSizes, and
      [proportionalNumerators] with its theorem bounds those products.  The
      focus counter is a uint64 and wraps ([setActive]).
    - A [*LayoutCell] is the path from the root to the cell.  The tree owns its
      nodes and every cell has one parent, so two pointers are equal when their
      paths are; [Parent] is the path without its last index and IndexInParent
      that index ([parentOf]).  A [Leaf] and a [Node] are the two values of
      [isLeaf].  Nodes are updated in place with [updAt].
    - A [*Pane] is the pane's ID.  What the code reads and writes of a pane (its
      size, its recency, whether it is a proxy and for which host) is in the
      store [panes], shared by everything that holds the ID.  [ptyFails] says
      whether the terminal driver refuses a resize of the pane: the outcome of
      Pane.Resize is an input of the model, for every pane separately.
    - A method that returns an error is a state-passing function with a
      [result]; the state changes made before an error are kept, as in Go.
    - The panes' store is one map that all windows of a session share: calling a
      window loads it into the window and saves it afterwards ([onWindow]).
    - A timer of the Go runtime is a number; [armed] is the timers that have
      neither fired nor been stopped, with the event each will enqueue, and
      [fire] is the runtime firing one.  The event loop is one step per queued
      event ([handleNext]); commands run between events, one at a time.
    - What a session tells its other parts (waiters, idle tracker, mirror,
      processes) is the trace [calls]; what it asks of them, such as the size of
      the effective client, is an input.
    - The maps of the mailbox are finite maps.  Only the store keeps pointers to
      its messages and deliveries, so a write through one is a write at its key;
      its queries return copies.  The clock's reading is an argument, a range
      over a map is a list in any order, and errors are the constructors of
      [MailboxErr], one per message of the source, with a panic for a nil
      pointer that is shown not to happen.
    - A Go slice whose array is shared is an index into a list of arrays
      ([slice] in [Mouse]); the parser is proved to do the same with it as with a
      list of its own, except for the look ahead on a copy.
    - A bytes.Buffer that is only appended to is the bytes appended; a connection
      is the bytes that are still to be read.  encoding/gob is the class [Gob] with
      [GobLaws]: a decoder given what an encoder wrote returns what it was given.
      What a bufio.Reader has taken from a connection when a history is refused is
      an input.  A message's pointer to a cache and its version is [cacheRef], and
      the cache a state; its mutex makes each call of it one step.
    - encoding/json on tracked references is the class [JSONValues] with [JSONLaws]:
      what is written is read back with invalid UTF-8 replaced.  A nil metadata map
      is the empty one.
    - A snapshot whose cells are no tree of the model (a leaf with children, a
      third direction) has no tree.  [paneMap] sends the ID of a snapshot to a
      pane's ID, the same one after a reload and another one in a mirror.
    - In copy mode [None] is a panic of Go (an index out of range), and text is a
      list of runes where the code has one, bytes where it slices bytes.  The
      tables of Unicode and the Bubbles text field are the classes [Unicode] and
      [TextInput].  [loop] runs a step with fuel; the fuel given is shown to be
      enough where it is used.
    - The cells of a grid are in arrays of a heap, rows are slices of them, and
      a copy of a grid shares the rows it does not change; writing copies a row
      first, as rowForWrite does.  The styles and sequences of the packages uv and
      ansi are the classes [Colors], [UV] and [Glyphs], the output is a list of
      pieces, and the terminal that reads them is the class [Terminal] with its
      laws [TerminalLaws] (what it does with the sequences the code writes) and
      [GlyphLaws] (a space is one column wide).  Goroutines that compose panes are
      interleavings of the steps of each.  The border map holds the cells of the
      layout as they are when it is built.  The compositor caches it, and which panes
      get the other tint, by the layout's address; a layout is not changed after it
      is given to the compositor, so here both are computed for every frame.
    - A frame is a list of steps, each changing one cell.  The cells of a pane's
      status line, of the bar and of the boxes of chooser and prompts are inputs.
    - The client's loop handles one message at a time.  A message carries what
      the renderer made of it (the new view, what the output of a pane changed); times
      are integers and the timers of the loop their deadlines.  A [CopyMode] that
      Go changes through a pointer is replaced in the map that holds it.
    - Root is never nil: no constructor or operation makes it nil.
      assertOwner is a debugging check and is left out.

    Two functions recurse into trees they rebuild and have fuel:
    [equalizeAxisRecursive_fuel] (fuel: the height of the tree, which resizing
    keeps; [equalizeAxisRecursive_total]) and [equalizeLeafHeightsWithTargets].
    [trimLoop] drops a page per round, so the number of slots is enough;
    [scanLoop] drops a prefix per round and [runesFrom] at least a byte, so the
    length of the data is; the interval of [searchLoop] shrinks
    ([searchLoop_spec]), and so does that of [bisectChunkEnd], while [chunkLoop]
    takes a line per round ([chunkRanges_spec]); a uint64 has 20 digits ([formatDecimal]).  All other
    recursion is structural.

    ** What is shown

    - [LayoutFacts], [LayoutEdit], [LayoutTiling]: [wf] (minimum sizes, a
      child spans its parent across the split, and the sizes of the children
      with their separators add up to the parent's) and [positioned] (the
      offsets are up to date) are kept or established by every tree operation;
      resizes keep the [skeleton]; a positioned tree tiles its rectangle.
      [LayoutProps] states the consequences.
    - [WindowFacts], [WindowMoves], [WindowSizing], [WindowSteps]: each window
      operation keeps [WindowInv] and its exact effect on the panes, the focus,
      the zoom and the lead; [WindowSteps] composes them to a step relation and
      its reachable states.  A step is taken where its caller's duties hold and
      where there is the room that the code does not check for (the constructors
      of [wstep] say which: for resizes, columns beside a lead, a dragged border,
      a pane moved next to another one or to an edge); all operations are steps
      but MovePaneToColumn, splicing and the ultra layout, and terminals accept
      every resize.  [WindowProps] states the properties, among them the
      refinement of the steps to moves of an abstract [View], and ends with
      inputs without that room for which an operation leaves a tree that is not
      well-formed, or loses a pane: ResizeBorder, MovePaneIntoSplit,
      MovePaneToColumn, SetLead, ClosePane and the re-division of the columns
      beside an anchored lead.
    - [UltraFacts], [UltraSteps]: the same for the ultra layout with [UltraInv];
      [UltraProps] has its step relation and properties, and entering and leaving
      the layout.
    - [Scanner]: scanning a stream in any chunks finds what scanning it at once
      finds, the buffered part is bounded, metadata written is metadata read; a
      chunk longer than the limit can hide a sequence.
    - [SessionFacts], [SessionSteps]: the invariants of the panes and of the
      windows and that every operation keeps them, where the windows are in the
      classic layout and have that room; [SessionProps]: where panes
      can be in a reachable session, that a soft-closed pane comes back or goes
      away in boundedly many events, what undoing and moving do on success and
      on failure, and the runs that lose a pane or its grace period.
    - [MailboxFacts]: what each validation accepts, and [Send] as one check and
      one update.  [MailboxInv]: the invariant of any store and its operations;
      [MailboxReach]: the stronger one of a store that started empty;
      [MailboxDrain], [MailboxSnapshot]: the drain status, snapshots.
      [MailboxProps]: the life of a delivery, and the properties.
    - [MouseProps]: the parser does the same with any buffer; input that is no
      mouse sequence comes out unchanged, written events are read, merged motion
      keeps order and distance, and a look ahead can damage a sequence that is
      being read.
    - [PaneHistoryFacts]: every part of a payload is read back; [WireFacts]: the
      cache's invariant and single messages; [HistoryFacts]: sizes grow with the
      lines, so the bisection finds the largest chunk.  [WireProps]: the round trips
      of payloads and connections, the errors, the bounds on what a decoder accepts;
      [HistoryProps]: a history sent in chunks, within the limits of the reader,
      arrives whole.

    - [PaneMetaFacts], [PaneMetaProps]: fields and keys agree in every reachable
      state, the commands act as on a plain map, what is printed can be set again,
      a mirror shows its remote's metadata, a rename keeps names distinct; a
      detected branch can come back, and a respawn can lose a rename.
    - [SnapshotProps]: a session read back from its snapshot is the
      session, in the ultra layout too, and a client's layout answers as the
      server's; mirroring an ultra window duplicates its panes.
    - [CopyFacts], [CopySearch], [CopySteps], [CopyInputFacts]: the invariant of
      copy mode and that every key keeps it, the leftmost occurrences the search
      finds, matching brackets, which chunks panic.  [CopyProps]: reachable
      states, the exact inputs that panic, when a redraw is asked for, batched
      input, and inputs on which copy mode does what it should not;
      [CopySearchProps]: the search and brackets; [CopyTextProps]: the overlay
      shows the selection and the hits, and what is copied is what is highlighted.
    - [ScreenFacts], [ScreenHeap], [ScreenFrame]: painting a difference, writing
      to grids that share rows, one frame after the other.  [ScreenProps]: in
      every reachable state the terminal shows the last frame, if it is one a
      terminal can show (no wide cell in the last column), and a published
      frame does not change.  [PaneRowFacts], [PaneComposeProps]: packed rows are
      rows a terminal can show where no cluster has width 0, the same on both paths, and panes can be composed
      in any order.  [BorderProps]: the border cells are the cells in no pane,
      and a straight one has the color of the panes it touches.
    - [FrameFacts]: every part of a frame decides a cell whatever was there or
      leaves it alone, so frames can be compared cell by cell.  [FrameProps]: a
      frame that draws only the panes that changed equals a whole one, and so do
      all frames of a run that mixes both.  [ClientUIProps]: the events of the
      interface tell what it shows (the mode of the chooser is changed by Tab
      without them), labels pick the panes they are on, and in
      every state the loop reaches drawing shows all there is, but for copy mode
      entered while another pane waits; and the two runs that break what they
      should keep (a missed change of copy mode, a chooser whose hiding is not heard).

    ** What is not modelled

    ResolvePane and resolveWindow (they search names and metadata), the pane
    itself (the PTY, the process and the terminal emulator of a library), the
    server's event loop, connections and command parsers, checkpoint files,
    remote hosts, configuration.  Of the client: the input loop, key bindings, the
    rows and the filter of the chooser, the text of the help bar, local echo, the
    history it keeps, captures, and the mode that redraws everything as text.  A
    client draws nothing before its first layout; [ClientUI] begins there.  Of the
    screen: the text of status lines and bars, of the boxes drawn over panes, and the
    redraw of a whole frame as text; the cells they draw are inputs.  In copy mode the cells and styles behind the overlay and the check
    of the owning goroutine are left out.  The mailbox's methods on a nil store,
    and its commands in the server, are left out; so are nil writers, readers and
    messages, and a write that fails because the connection does. *)

From stdpp Require Export base gmap strings list list_numbers sorting fin_maps.
From Stdlib Require Export ZArith Lia.

#[global] Open Scope Z_scope.
#[export] Set Warnings "-register-all,-clear-no-such-hyp".

Declare Scope amux_scope.
Delimit Scope amux_scope with amux.
#[global] Open Scope amux_scope.

Create HintDb amux.
Create Rewrite HintDb lsum.

(** ** Results: Go's [(T, error)] pairs *)

Inductive result (E A : Type) : Type :=
| Ok (a : A)
| Err (e : E).
Arguments Ok {E A} a.
Arguments Err {E A} e.

Definition is_ok {E A} (r : result E A) : bool :=
  match r with Ok _ => true | Err _ => false end.

(** ** A state-and-error monad

    A Go method that mutates its receiver and may return an error keeps the
    mutations made before the error, so the state is returned on both
    branches. *)

Definition M (St E A : Type) : Type := St -> St * result E A.

Definition ret {St E A} (a : A) : M St E A := fun s => (s, Ok a).
Definition throw {St E A} (e : E) : M St E A := fun s => (s, Err e).
Definition bindM {St E A B} (m : M St E A) (k : A -> M St E B) : M St E B :=
  fun s => match m s with
           | (s', Ok a) => k a s'
           | (s', Err e) => (s', Err e)
           end.
Definition get {St E} : M St E St := fun s => (s, Ok s).
Definition modify {St E} (f : St -> St) : M St E unit := fun s => (f s, Ok tt).
Definition lift {St E A} (r : result E A) : M St E A := fun s => (s, r).

Notation "'do' x <- m ; k" := (bindM m (fun x => k))
  (at level 60, x binder, m at next level, right associativity) : amux_scope.
Notation "'do' ' p <- m ; k" := (bindM m (fun x => match x with p => k end))
  (at level 60, p pattern, m at next level, right associativity) : amux_scope.
Notation "'run' m ; k" := (bindM m (fun _ => k))
  (at level 60, m at next level, right associativity) : amux_scope.

(** Sequencing for pure fallible code. *)
Definition bindR {E A B} (m : result E A) (k : A -> result E B) : result E B :=
  match m with Ok a => k a | Err e => Err e end.

Notation "'try' x <- m ; k" := (bindR m (fun x => k))
  (at level 60, x binder, m at next level, right associativity) : amux_scope.

(** ** Integer sums *)

Definition sumZ (l : list Z) : Z := foldr Z.add 0 l.
Definition lenZ {A} (l : list A) : Z := Z.of_nat (length l).
Arguments sumZ : simpl never.
Arguments lenZ {A} : simpl never.

Lemma sumZ_nil : sumZ [] = 0.
Proof. reflexivity. Qed.
Lemma sumZ_cons x l : sumZ (x :: l) = x + sumZ l.
Proof. reflexivity. Qed.
Lemma sumZ_app l1 l2 : sumZ (l1 ++ l2) = sumZ l1 + sumZ l2.
Proof. induction l1 as [|x l1 IH]; simpl; [done|]. rewrite !sumZ_cons, IH. lia. Qed.
Lemma sumZ_replicate n x : sumZ (replicate n x) = Z.of_nat n * x.
Proof. induction n as [|n IH]; [done|]. simpl replicate. rewrite sumZ_cons, IH. lia. Qed.
Lemma lenZ_nil A : lenZ (@nil A) = 0.
Proof. reflexivity. Qed.
Lemma lenZ_cons {A} (x : A) l : lenZ (x :: l) = 1 + lenZ l.
Proof. unfold lenZ. simpl. lia. Qed.
Lemma lenZ_app {A} (l1 l2 : list A) : lenZ (l1 ++ l2) = lenZ l1 + lenZ l2.
Proof. unfold lenZ. rewrite length_app. lia. Qed.
Lemma lenZ_nonneg {A} (l : list A) : 0 <= lenZ l.
Proof. unfold lenZ. lia. Qed.
Lemma lenZ_map {A B} (f : A -> B) l : lenZ (map f l) = lenZ l.
Proof. unfold lenZ. by rewrite length_map. Qed.
Lemma lenZ_pos {A} (l : list A) : l <> [] -> 0 < lenZ l.
Proof. destruct l; [done|]. rewrite lenZ_cons. pose proof (lenZ_nonneg l). lia. Qed.

#[export] Hint Rewrite sumZ_nil sumZ_cons sumZ_app sumZ_replicate
  @lenZ_nil @lenZ_cons @lenZ_app @lenZ_map : lsum.
#[export] Hint Resolve lenZ_nonneg : amux.

(** Pointwise order of two sequences of sizes. *)
Lemma Forall2_le_sum (l1 l2 : list Z) : Forall2 Z.le l1 l2 -> sumZ l1 <= sumZ l2.
Proof. induction 1; autorewrite with lsum; lia. Qed.

Lemma sumZ_map_add {A} (f : A -> Z) (l : list A) (k : Z) :
  sumZ (map (fun x => f x + k) l) = sumZ (map f l) + lenZ l * k.
Proof. induction l as [|a l IH]; simpl; autorewrite with lsum; [lia|]. rewrite IH. lia. Qed.

Lemma sumZ_lower (l : list Z) (k : Z) : Forall (fun x => k <= x) l -> lenZ l * k <= sumZ l.
Proof. induction 1; autorewrite with lsum; lia. Qed.

Lemma sumZ_in_le (l : list Z) (x : Z) :
  Forall (fun y => 0 <= y) l -> x ∈ l -> x <= sumZ l.
Proof.
  induction 1 as [|y l Hy Hl IH]; intros Hx; [by apply elem_of_nil in Hx|].
  rewrite sumZ_cons. apply elem_of_cons in Hx as [->|Hx].
  - pose proof (sumZ_lower l 0 Hl). lia.
  - specialize (IH Hx). lia.
Qed.

(** sort.SliceStable: insertion keeps the order of equal elements. *)
Section StableSort.
Context {A : Type} (le : A -> A -> bool).
Fixpoint insertSorted (x : A) (l : list A) : list A :=
  match l with
  | [] => [x]
  | y :: rest => if le x y then x :: y :: rest else y :: insertSorted x rest
  end.
Definition stableSort (l : list A) : list A := foldr insertSorted [] l.

Lemma insertSorted_Permutation x l : insertSorted x l ≡ₚ x :: l.
Proof.
  induction l as [|y l IH]; simpl; [done|]. destruct (le x y); [done|].
  rewrite IH. apply Permutation_swap.
Qed.
Lemma stableSort_Permutation l : stableSort l ≡ₚ l.
Proof. induction l as [|x l IH]; simpl; [done|]. by rewrite insertSorted_Permutation, IH. Qed.

Context (le_total : forall x y, le x y = true \/ le y x = true).
Context (le_trans : forall x y z, le x y = true -> le y z = true -> le x z = true).
Let R x y := le x y = true.

Lemma insertSorted_sorted x l : StronglySorted R l -> StronglySorted R (insertSorted x l).
Proof.
  induction 1 as [|y l Hl IH Hy]; simpl; [by repeat constructor|].
  destruct (le x y) eqn:E.
  - constructor; [by constructor|]. constructor; [done|].
    eapply Forall_impl; [exact Hy|]. intros z Hz. by eapply le_trans.
  - constructor; [done|]. rewrite insertSorted_Permutation. constructor; [|done].
    unfold R. destruct (le_total x y); congruence.
Qed.
Lemma stableSort_sorted l : StronglySorted R (stableSort l).
Proof. induction l as [|x l IH]; simpl; [constructor|]. by apply insertSorted_sorted. Qed.
End StableSort.

(** [map2 f xs ys] is the loop [for i := range xs { f(xs[i], ys[i]) }] over two
    slices of one length. *)
Section Map2.
Context {A B C : Type} (f : A -> B -> C).
Fixpoint map2 (l1 : list A) (l2 : list B) : list C :=
  match l1, l2 with
  | x :: r1, y :: r2 => f x y :: map2 r1 r2
  | _, _ => []
  end.
End Map2.

Lemma length_map2 {A B C} (f : A -> B -> C) l1 l2 :
  length l1 = length l2 -> length (map2 f l1 l2) = length l1.
Proof. revert l2. induction l1 as [|x l1 IH]; intros [|y l2] E; simpl in *; auto. Qed.

Lemma map2_map_r {A B C} (f : A -> B -> C) (g : A -> B) l :
  map2 f l (map g l) = map (fun x => f x (g x)) l.
Proof. induction l as [|x l IH]; simpl; congruence. Qed.

Lemma Forall_map2 {A B C} (f : A -> B -> C) (P : C -> Prop) l1 l2 :
  Forall2 (fun x y => P (f x y)) l1 l2 -> Forall P (map2 f l1 l2).
Proof. induction 1; simpl; auto. Qed.

Lemma map_map2_r {A B C} (f : A -> B -> C) (g : C -> B) l1 l2 :
  Forall2 (fun x y => g (f x y) = y) l1 l2 -> map g (map2 f l1 l2) = l2.
Proof. induction 1; simpl; congruence. Qed.

Lemma map_map2_l {A B C D} (f : A -> B -> C) (g : C -> D) (h : A -> D) l1 l2 :
  Forall2 (fun x y => g (f x y) = h x) l1 l2 -> map g (map2 f l1 l2) = map h l1.
Proof. induction 1; simpl; congruence. Qed.

Lemma Forall_Forall2_and {A B} (P : A -> Prop) (R Q : A -> B -> Prop) l1 l2 :
  Forall P l1 -> Forall2 R l1 l2 -> (forall x y, P x -> R x y -> Q x y) -> Forall2 Q l1 l2.
Proof. intros HP HR HQ. induction HR; inversion_clear HP; constructor; auto. Qed.

Lemma lenZ_map2 {A B C} (f : A -> B -> C) l1 l2 :
  length l1 = length l2 -> lenZ (map2 f l1 l2) = lenZ l1.
Proof. intros H. unfold lenZ. by rewrite length_map2. Qed.

(** ** Case analysis on boolean tests and on the results of operations *)

Ltac zb :=
  repeat match goal with
  | H : context [Z.ltb ?a ?b] |- _ => destruct (Z.ltb_spec a b)
  | H : context [Z.leb ?a ?b] |- _ => destruct (Z.leb_spec a b)
  | H : context [Z.eqb ?a ?b] |- _ => destruct (Z.eqb_spec a b)
  | |- context [Z.ltb ?a ?b] => destruct (Z.ltb_spec a b)
  | |- context [Z.leb ?a ?b] => destruct (Z.leb_spec a b)
  | |- context [Z.eqb ?a ?b] => destruct (Z.eqb_spec a b)
  end; simpl in *.

Ltac lsum := autorewrite with lsum in *; try lia.
