(* ===== verification/LayoutSizes.v ===== *)
(** * Size distribution (internal/mux/layout.go)

    The integer arithmetic that shares a row or a column of cells among
    siblings: equal splits, splits whose remainder goes to the front, the
    repair that raises sizes to their minimums, and the largest-remainder
    distribution used when a subtree is resized.  Go's [/] and [%] truncate
    towards zero: they are [Z.quot] and [Z.rem]. *)

From S2P Require Import Prelude.

(** PaneMinSize is the minimum pane dimension (width or height). *)
Definition PaneMinSize : Z := 2.

(** ** Operations *)

Definition equalSplitSizes (total count : Z) : list Z :=
  if count <=? 0 then []
  else
    let seps := count - 1 in
    let each := Z.quot (total - seps) count in
    replicate (Z.to_nat (count - 1)) each ++ [total - seps - each * (count - 1)].

Definition frontLoadedSplitSizes (total count : Z) : list Z :=
  if count <=? 0 then []
  else
    let seps := count - 1 in
    let available := total - seps in
    let each := Z.quot available count in
    imap (fun i s => if Z.of_nat i <? available - each * count then s + 1 else s)
         (replicate (Z.to_nat count) each).

(** First loop of raiseSizesToMinimums: raise every size below its minimum and
    add up what that took. *)
Fixpoint raiseLoop (sizes minimums : list Z) : list Z * Z :=
  match sizes, minimums with
  | s :: ss, m :: ms =>
      let '(ss', deficit) := raiseLoop ss ms in
      if s <? m then (m :: ss', deficit + (m - s)) else (s :: ss', deficit)
  | _, _ => (sizes, 0)
  end.

(** Second loop: take the deficit back from the last size to the first, from
    each no more than its surplus over its minimum. *)
Fixpoint drainLoop (sizes minimums : list Z) (deficit : Z) : list Z * Z :=
  match sizes, minimums with
  | s :: ss, m :: ms =>
      let '(ss', deficit) := drainLoop ss ms deficit in
      let available := s - m in
      if (0 <? deficit) && (0 <? available) then
        let available := if deficit <? available then deficit else available in
        (s - available :: ss', deficit - available)
      else (s :: ss', deficit)
  | _, _ => (sizes, deficit)
  end.

Definition raiseSizesToMinimums (sizes minimums : list Z) : list Z * bool :=
  let '(sizes, deficit) := raiseLoop sizes minimums in
  if deficit =? 0 then (sizes, true)
  else
    let '(sizes, deficit) := drainLoop sizes minimums deficit in
    (sizes, deficit =? 0).

(** The comparison of the stable sort: larger remainders first, and the later
    child first among equal remainders. *)
Definition remainderLe (a b : nat * Z) : Prop :=
  b.2 < a.2 \/ (a.2 = b.2 /\ (b.1 <= a.1)%nat).

#[export] Instance remainderLe_dec a b : Decision (remainderLe a b).
Proof. unfold remainderLe. apply _. Defined.

Definition childWeight (size : Z) : Z :=
  let weight := size - PaneMinSize in if weight <? 0 then 0 else weight.

(** sizes[remainders[i].idx]++ over a list of indices. *)
Definition bump (sizes : list Z) (idxs : list nat) : list Z :=
  fold_left (fun sizes i => alter (Z.add 1) i sizes) idxs sizes.

(** proportionalChildSizes, over the children's current sizes along the axis. *)
Definition proportionalSizes (children : list Z) (target : Z) : list Z :=
  let n := lenZ children in
  if n =? 0 then []
  else
    let available := target - (n - 1) in
    let minimumTotal := PaneMinSize * n in
    let available := if available <? minimumTotal then minimumTotal else available in
    let extra := available - minimumTotal in
    if extra =? 0 then replicate (length children) PaneMinSize
    else
      let weights := map childWeight children in
      let totalWeight := sumZ weights in
      if totalWeight =? 0 then
        let base := Z.quot extra n in
        let leftover := Z.rem extra n in
        imap (fun i s => if n - leftover <=? Z.of_nat i then s + 1 else s)
             (replicate (length children) (PaneMinSize + base))
      else
        let numerators := map (fun weight => extra * weight) weights in
        let shares := map (fun numerator => Z.quot numerator totalWeight) numerators in
        let remainders :=
          imap (fun i numerator => (i, Z.rem numerator totalWeight)) numerators in
        let leftover := extra - sumZ shares in
        bump (map (fun share => PaneMinSize + share) shares)
             (map fst (take (Z.to_nat leftover) (merge_sort remainderLe remainders))).

(** ** Equal and front-loaded splits *)

Lemma length_equalSplitSizes total count :
  0 < count -> lenZ (equalSplitSizes total count) = count.
Proof.
  intros Hc. unfold equalSplitSizes. zb; [lia|].
  unfold lenZ. rewrite length_app, length_replicate. simpl. lia.
Qed.

Lemma sum_equalSplitSizes total count :
  0 < count -> sumZ (equalSplitSizes total count) = total - (count - 1).
Proof.
  intros Hc. unfold equalSplitSizes. zb; [lia|]. lsum. rewrite Z2Nat.id by lia. lia.
Qed.

(** Equal shares hold a pane each when the total has room for them. *)
Lemma equalSplitSizes_min total count :
  0 < count -> PaneMinSize * count + (count - 1) <= total ->
  Forall (fun s => PaneMinSize <= s) (equalSplitSizes total count).
Proof.
  intros Hc Ht. unfold PaneMinSize in *. unfold equalSplitSizes. destruct (Z.leb_spec count 0); [lia|].
  set (q := Z.quot (total - (count - 1)) count).
  assert (2 <= q) as Hq.
  { unfold q. rewrite Z.quot_div_nonneg by lia. apply Z.div_le_lower_bound; lia. }
  assert (q * count <= total - (count - 1)) as Hqn.
  { unfold q. rewrite Z.quot_div_nonneg by lia. rewrite Z.mul_comm. apply Z.mul_div_le. lia. }
  apply Forall_app. split; [|repeat constructor; lia]. rewrite Forall_forall.
  by intros x [-> _]%elem_of_replicate.
Qed.

Lemma sum_imap_bump (n k : nat) (b e : Z) :
  sumZ (imap (fun i s => if Z.of_nat (k + i) <? e then s + 1 else s) (replicate n b))
  = Z.of_nat n * b + Z.max 0 (Z.min (Z.of_nat n) (e - Z.of_nat k)).
Proof.
  revert k. induction n as [|n IH]; intros k; simpl; [rewrite sumZ_nil; lia|].
  rewrite sumZ_cons.
  rewrite (imap_ext _ (fun i s => if Z.of_nat (S k + i) <? e then s + 1 else s)).
  2:{ intros i x _. simpl. by rewrite Nat.add_succ_r. }
  rewrite IH. zb; lia.
Qed.

Lemma sum_imap_top (n k : nat) (b e : Z) :
  sumZ (imap (fun i s => if e <=? Z.of_nat (k + i) then s + 1 else s) (replicate n b))
  = Z.of_nat n * b + Z.max 0 (Z.min (Z.of_nat n) (Z.of_nat n + Z.of_nat k - e)).
Proof.
  revert k. induction n as [|n IH]; intros k; simpl; [rewrite sumZ_nil; lia|].
  rewrite sumZ_cons.
  rewrite (imap_ext _ (fun i s => if e <=? Z.of_nat (S k + i) then s + 1 else s)).
  2:{ intros i x _. simpl. by rewrite Nat.add_succ_r. }
  rewrite IH. zb; lia.
Qed.

Lemma imap_replicate_len {A B} (f : nat -> A -> B) n a :
  lenZ (imap f (replicate n a)) = Z.of_nat n.
Proof. unfold lenZ. rewrite length_imap, length_replicate. done. Qed.

Lemma length_frontLoadedSplitSizes total count :
  0 < count -> lenZ (frontLoadedSplitSizes total count) = count.
Proof.
  intros Hc. unfold frontLoadedSplitSizes. zb; [lia|].
  rewrite imap_replicate_len. lia.
Qed.

Lemma sum_frontLoadedSplitSizes total count :
  0 < count -> count - 1 <= total ->
  sumZ (frontLoadedSplitSizes total count) = total - (count - 1).
Proof.
  intros Hc Ht. unfold frontLoadedSplitSizes.
  destruct (Z.leb_spec count 0); [lia|].
  rewrite (sum_imap_bump _ 0).
  pose proof (Z.quot_rem' (total - (count - 1)) count).
  pose proof (Z.rem_bound_pos (total - (count - 1)) count).
  lia.
Qed.

(** ** Raising to minimums *)

Lemma raiseLoop_spec sizes minimums :
  length sizes = length minimums ->
  let '(out, deficit) := raiseLoop sizes minimums in
  length out = length sizes /\ Forall2 Z.le minimums out /\ 0 <= deficit /\
  sumZ out = sumZ sizes + deficit /\ (deficit = 0 -> out = sizes).
Proof.
  revert minimums. induction sizes as [|s sizes IH]; intros [|m minimums] Hl; simpl in *; try lia.
  { repeat split; auto; lia. }
  specialize (IH minimums ltac:(lia)). destruct (raiseLoop sizes minimums) as [out d].
  destruct IH as (? & ? & ? & ? & Hid). zb; rewrite !sumZ_cons; repeat split;
    try (constructor; auto; lia); try lia.
  intros. rewrite Hid by lia. done.
Qed.

Lemma drainLoop_spec sizes minimums deficit :
  Forall2 Z.le minimums sizes -> 0 <= deficit ->
  let '(out, rest) := drainLoop sizes minimums deficit in
  length out = length sizes /\ Forall2 Z.le minimums out /\
  sumZ out + deficit = sumZ sizes + rest /\ 0 <= rest /\
  rest = Z.max 0 (deficit - (sumZ sizes - sumZ minimums)).
Proof.
  intros HF. revert deficit.
  induction HF as [|m s minimums sizes Hms HF IH]; intros deficit Hd; simpl.
  { rewrite !sumZ_nil. repeat split; auto; lia. }
  specialize (IH deficit Hd). destruct (drainLoop sizes minimums deficit) as [out l].
  destruct IH as (? & HF2 & ? & ? & ?). pose proof (Forall2_le_sum _ _ HF).
  zb; rewrite ?sumZ_cons; repeat split; simpl; try lia; try (constructor; [lia|done]).
Qed.

(** What the repair achieves: it succeeds exactly when the sizes add up to at
    least the minimums, and then keeps the total. *)
Lemma raiseSizesToMinimums_spec sizes minimums :
  length sizes = length minimums ->
  let '(out, ok) := raiseSizesToMinimums sizes minimums in
  length out = length sizes /\ Forall2 Z.le minimums out /\
  (ok = true <-> sumZ minimums <= sumZ sizes) /\
  (ok = true -> sumZ out = sumZ sizes).
Proof.
  intros Hl. unfold raiseSizesToMinimums. pose proof (raiseLoop_spec _ _ Hl) as HR.
  destruct (raiseLoop sizes minimums) as [out d].
  destruct HR as (HL & HF & Hd & Hs & Hid). pose proof (Forall2_le_sum _ _ HF).
  destruct (Z.eqb_spec d 0) as [->|Hd0].
  { repeat split; auto; lia. }
  pose proof (drainLoop_spec _ _ d HF Hd) as HD.
  destruct (drainLoop out minimums d) as [out' l].
  destruct HD as (? & ? & ? & ? & ?).
  destruct (Z.eqb_spec l 0); repeat split; auto; try done; try lia.
Qed.

Lemma raise_ok sizes minimums :
  length sizes = length minimums -> sumZ minimums <= sumZ sizes ->
  exists out, raiseSizesToMinimums sizes minimums = (out, true) /\
    length out = length sizes /\ Forall2 Z.le minimums out /\ sumZ out = sumZ sizes.
Proof.
  intros Hl Hs. pose proof (raiseSizesToMinimums_spec _ _ Hl) as HR.
  destruct (raiseSizesToMinimums sizes minimums) as [out ok].
  destruct HR as (? & ? & [_ Hok] & Hsum). specialize (Hok Hs). subst ok.
  eexists. repeat split; eauto.
Qed.

(** Sizes that already respect their minimums are left alone. *)
Lemma raise_id sizes minimums :
  Forall2 Z.le minimums sizes -> raiseSizesToMinimums sizes minimums = (sizes, true).
Proof.
  intros HF. unfold raiseSizesToMinimums.
  assert (raiseLoop sizes minimums = (sizes, 0)) as ->; [|done].
  induction HF as [|m s ms ss Hle HF IH]; simpl; [done|].
  rewrite IH. zb; [lia|done].
Qed.

(** ** The largest-remainder distribution *)

Lemma length_bump sizes idxs : length (bump sizes idxs) = length sizes.
Proof.
  unfold bump. revert sizes. induction idxs as [|i idxs IH]; intros sizes; simpl; [done|].
  by rewrite IH, length_alter.
Qed.

Lemma sum_alter_succ l i : (i < length l)%nat -> sumZ (alter (Z.add 1) i l) = sumZ l + 1.
Proof.
  revert i. induction l as [|x l IH]; intros [|i] Hi; simpl length in Hi; try lia.
  - change (alter (Z.add 1) 0%nat (x :: l)) with (1 + x :: l). rewrite !sumZ_cons. lia.
  - change (alter (Z.add 1) (S i) (x :: l)) with (x :: alter (Z.add 1) i l).
    rewrite !sumZ_cons, IH; lia.
Qed.

Lemma sum_bump sizes idxs :
  Forall (fun i => (i < length sizes)%nat) idxs ->
  sumZ (bump sizes idxs) = sumZ sizes + lenZ idxs.
Proof.
  unfold bump. revert sizes. induction idxs as [|i idxs IH]; intros sizes HF; simpl.
  { lsum. }
  inversion_clear HF. rewrite IH.
  - rewrite sum_alter_succ by done. lsum.
  - eapply Forall_impl; [eassumption|]. intros j. by rewrite length_alter.
Qed.

Lemma bump_lookup sizes idxs i :
  NoDup idxs ->
  bump sizes idxs !! i = (fun s => if decide (i ∈ idxs) then 1 + s else s) <$> sizes !! i.
Proof.
  unfold bump. revert sizes. induction idxs as [|j idxs IH]; intros sizes HN; simpl.
  { destruct (sizes !! i); [|done]. done.
  }
  inversion_clear HN as [|? ? Hj HN']. rewrite IH by done.
  destruct (decide (i = j)) as [->|Hne].
  - rewrite list_lookup_alter_eq. destruct (sizes !! j); [|done].
    unfold fmap, option_fmap, option_map. f_equal. repeat case_decide; set_solver.
  - rewrite list_lookup_alter_ne by done. destruct (sizes !! i); [|done].
    unfold fmap, option_fmap, option_map. f_equal. repeat case_decide; set_solver.
Qed.

Definition childExtra (children : list Z) (target : Z) : Z :=
  Z.max 0 (target - (lenZ children - 1) - PaneMinSize * lenZ children).

Lemma childWeight_nonneg s : 0 <= childWeight s.
Proof. unfold childWeight. zb; lia. Qed.

Lemma sum_childWeight_nonneg l : 0 <= sumZ (map childWeight l).
Proof.
  pose proof (sumZ_lower (map childWeight l) 0) as HL. rewrite lenZ_map in HL.
  specialize (HL ltac:(apply Forall_map, Forall_true; intros; apply childWeight_nonneg)). lia.
Qed.

(** Floor shares of [extra] by weights that add up to [tw] lose less than one
    cell per child. *)
Lemma floor_shares (ws : list Z) (extra tw : Z) :
  0 < tw -> 0 <= extra -> Forall (fun w => 0 <= w) ws ->
  tw * sumZ (map (fun w => Z.quot (extra * w) tw) ws) <= extra * sumZ ws /\
  extra * sumZ ws <= tw * sumZ (map (fun w => Z.quot (extra * w) tw) ws) + lenZ ws * (tw - 1).
Proof.
  intros Htw He HF. induction HF as [|w ws Hw HF IH]; cbn [map]; autorewrite with lsum; [lia|].
  pose proof (Z.quot_rem' (extra * w) tw).
  pose proof (Z.rem_bound_pos (extra * w) tw (Z.mul_nonneg_nonneg _ _ He Hw) Htw). lia.
Qed.

Section Proportional.
Context (children : list Z) (target : Z).
Context (Hne : children <> []).
Let extra := childExtra children target.
Let tw := sumZ (map childWeight children).
Let shares :=
  map (fun numerator => Z.quot numerator tw)
      (map (fun weight => extra * weight) (map childWeight children)).
Let remainders :=
  imap (fun i numerator => (i, Z.rem numerator tw))
       (map (fun weight => extra * weight) (map childWeight children)).
Let leftover := extra - sumZ shares.
Let winners := map fst (take (Z.to_nat leftover) (merge_sort remainderLe remainders)).

Lemma extra_nonneg : 0 <= extra.
Proof. unfold extra, childExtra. lia. Qed.

Lemma proportionalSizes_cases :
  proportionalSizes children target =
  if extra =? 0 then replicate (length children) PaneMinSize
  else if tw =? 0 then
    imap (fun i s => if lenZ children - Z.rem extra (lenZ children) <=? Z.of_nat i
                     then s + 1 else s)
         (replicate (length children) (PaneMinSize + Z.quot extra (lenZ children)))
  else bump (map (fun share => PaneMinSize + share) shares) winners.
Proof.
  unfold proportionalSizes, winners, remainders, leftover, shares, tw, extra, childExtra.
  pose proof (lenZ_pos children Hne).
  destruct (Z.eqb_spec (lenZ children) 0); [lia|].
  destruct (Z.ltb_spec (target - (lenZ children - 1)) (PaneMinSize * lenZ children)).
  - rewrite Z.sub_diag, Z.max_l by lia. done.
  - rewrite Z.max_r by lia. done.
Qed.

Lemma leftover_bounds : 0 < tw -> 0 <= leftover < lenZ children.
Proof.
  intros Htw. unfold leftover, shares. rewrite !map_map.
  pose proof extra_nonneg as He. pose proof (lenZ_pos children Hne).
  destruct (floor_shares (map childWeight children) extra tw) as [H1 H2]; auto.
  { apply Forall_map, Forall_true. intros; apply childWeight_nonneg. }
  rewrite map_map, lenZ_map in *. fold tw in H1, H2. nia.
Qed.

Lemma winners_spec : 0 < tw ->
  lenZ winners = leftover /\ NoDup winners /\
  Forall (fun i => (i < length children)%nat) winners.
Proof.
  intros Htw. pose proof (leftover_bounds Htw) as Hlo.
  assert (map fst remainders = seq 0 (length children)) as Hfst.
  { unfold remainders. apply list_eq. intros i.
    rewrite list_lookup_fmap, list_lookup_imap, !map_map, list_lookup_fmap.
    destruct (children !! i) eqn:E; simpl.
    - rewrite lookup_seq_lt; [done|]. by apply lookup_lt_Some in E.
    - rewrite lookup_seq_ge; [done|]. by apply lookup_ge_None. }
  pose proof (merge_sort_Permutation remainderLe remainders) as HP.
  pose proof (Permutation_map fst HP) as HPf. rewrite Hfst in HPf.
  assert (length (merge_sort remainderLe remainders) = length children) as Hlen.
  { rewrite HP. unfold remainders. by rewrite length_imap, !length_map. }
  assert (winners = take (Z.to_nat leftover) (map fst (merge_sort remainderLe remainders))) as Hw.
  { unfold winners. symmetry. apply firstn_map. }
  split_and!.
  - unfold winners, lenZ. rewrite length_map, length_take, Hlen. unfold lenZ in Hlo. lia.
  - rewrite Hw. eapply sublist_NoDup; [|apply sublist_take]. rewrite HPf. apply NoDup_seq.
  - rewrite Hw. apply Forall_take. rewrite HPf. apply Forall_seq. lia.
Qed.

Lemma sum_shares_base :
  sumZ (map (fun share => PaneMinSize + share) shares)
  = PaneMinSize * lenZ children + sumZ shares.
Proof.
  rewrite (map_ext _ (fun x => x + PaneMinSize)) by (intros; lia).
  rewrite (sumZ_map_add (fun x => x)), map_id. unfold shares. rewrite !lenZ_map. lia.
Qed.

Lemma sum_proportionalSizes :
  sumZ (proportionalSizes children target) = PaneMinSize * lenZ children + extra.
Proof.
  rewrite proportionalSizes_cases. pose proof extra_nonneg. pose proof (lenZ_pos children Hne).
  destruct (Z.eqb_spec extra 0) as [He|He].
  { rewrite sumZ_replicate, He. unfold lenZ. lia. }
  destruct (Z.eqb_spec tw 0) as [Htw|Htw].
  - rewrite (sum_imap_top _ 0). fold (lenZ children).
    pose proof (Z.quot_rem' extra (lenZ children)).
    pose proof (Z.rem_bound_pos extra (lenZ children)). lia.
  - pose proof (sum_childWeight_nonneg children) as Hnn. fold tw in Hnn.
    destruct winners_spec as (Hwl & _ & HF); [lia|].
    rewrite sum_bump, sum_shares_base, Hwl; [unfold leftover; lia|].
    unfold shares. by rewrite !length_map.
Qed.

Lemma length_shares_base :
  length (map (fun share => PaneMinSize + share) shares) = length children.
Proof. unfold shares. by rewrite !length_map. Qed.

Lemma length_proportionalSizes_ne :
  length (proportionalSizes children target) = length children.
Proof.
  rewrite proportionalSizes_cases. repeat case_match;
    by rewrite ?length_bump, ?length_shares_base, ?length_imap, ?length_replicate.
Qed.

Lemma share_base_lookup i s :
  children !! i = Some s ->
  map (fun share => PaneMinSize + share) shares !! i
  = Some (PaneMinSize + Z.quot (extra * childWeight s) tw).
Proof. intros Hi. unfold shares. by rewrite !map_map, list_lookup_fmap, Hi. Qed.

(** The quota rule: every child gets its exact proportional share of the
    surplus, rounded down or up. *)
Lemma proportionalSizes_quota i s out :
  children !! i = Some s -> proportionalSizes children target !! i = Some out ->
  0 < tw ->
  PaneMinSize + Z.quot (extra * childWeight s) tw <= out
    <= PaneMinSize + Z.quot (extra * childWeight s) tw + 1.
Proof.
  intros Hs Hout Htw. rewrite proportionalSizes_cases in Hout.
  pose proof extra_nonneg. pose proof (childWeight_nonneg s).
  pose proof (Z.quot_pos (extra * childWeight s) tw).
  destruct (Z.eqb_spec extra 0) as [He|He].
  { apply lookup_replicate in Hout as [-> _]. rewrite He, Z.mul_0_l, Z.quot_0_l by lia. lia. }
  destruct (Z.eqb_spec tw 0); [lia|].
  destruct winners_spec as (_ & HN & _); [done|].
  rewrite bump_lookup, (share_base_lookup _ _ Hs) in Hout by done. simpl in Hout.
  case_decide; simplify_eq; lia.
Qed.

Lemma proportionalSizes_min : Forall (fun s => PaneMinSize <= s) (proportionalSizes children target).
Proof.
  rewrite proportionalSizes_cases. pose proof extra_nonneg. pose proof (lenZ_pos children Hne).
  pose proof (sum_childWeight_nonneg children) as Hnn. fold tw in Hnn.
  destruct (Z.eqb_spec extra 0); [by apply Forall_replicate|].
  destruct (Z.eqb_spec tw 0).
  - apply Forall_lookup. intros i x Hx. rewrite list_lookup_imap in Hx.
    destruct (replicate _ _ !! i) eqn:E; simplify_eq/=.
    apply lookup_replicate in E as [-> _].
    pose proof (Z.quot_pos extra (lenZ children)). zb; lia.
  - apply Forall_lookup. intros i x Hx.
    destruct winners_spec as (_ & HN & _); [lia|].
    rewrite bump_lookup in Hx by done.
    destruct (children !! i) as [s|] eqn:Es.
    + rewrite (share_base_lookup _ _ Es) in Hx. simpl in Hx.
      pose proof (childWeight_nonneg s).
      pose proof (Z.quot_pos (extra * childWeight s) tw).
      case_decide; simplify_eq; lia.
    + apply lookup_ge_None in Es.
      rewrite (proj2 (lookup_ge_None _ _)) in Hx; [done|].
      by rewrite length_shares_base.
Qed.
End Proportional.

Lemma length_proportionalSizes children target :
  length (proportionalSizes children target) = length children.
Proof.
  destruct children; [done|]. by apply length_proportionalSizes_ne.
Qed.

Lemma sum_childWeight_wf l :
  Forall (fun s => PaneMinSize <= s) l -> sumZ (map childWeight l) = sumZ l - PaneMinSize * lenZ l.
Proof.
  induction 1 as [|s l Hs HF IH]; cbn [map]; [done|]. lsum.
  rewrite IH. unfold childWeight. zb; lia.
Qed.

(** Resizing to the space the children already fill changes nothing. *)
Lemma proportionalSizes_stable children :
  Forall (fun s => PaneMinSize <= s) children ->
  proportionalSizes children (sumZ children + (lenZ children - 1)) = children.
Proof.
  intros HF. destruct (decide (children = [])) as [->|Hne]; [done|].
  pose proof (sum_childWeight_wf _ HF) as Hw.
  pose proof (sumZ_lower _ _ HF) as Hlow.
  assert (childExtra children (sumZ children + (lenZ children - 1))
          = sumZ (map childWeight children)) as He by (unfold childExtra; lia).
  rewrite proportionalSizes_cases by done. rewrite He.
  destruct (Z.eqb_spec (sumZ (map childWeight children)) 0) as [H0|H0].
  - clear He Hne. rewrite H0 in Hw. clear H0.
    induction HF as [|s l Hs HF IH]; [done|]. simpl. lsum.
    pose proof (sumZ_lower _ _ HF). f_equal; [lia|]. apply IH; lia.
  - set (tw := sumZ (map childWeight children)) in *.
    assert (map (fun numerator => Z.quot numerator tw)
              (map (fun weight => tw * weight) (map childWeight children))
            = map childWeight children) as ->.
    { rewrite !map_map. apply map_ext. intros a. rewrite Z.mul_comm. by apply Z.quot_mul. }
    fold tw. rewrite Z.sub_diag. simpl.
    rewrite map_map. rewrite <- (map_id children) at 2. apply map_ext_in.
    intros a Ha. rewrite Forall_forall in HF. specialize (HF a (proj2 (list_elem_of_In _ _) Ha)).
    unfold childWeight. zb; lia.
Qed.

(** ** Machine width

    [int] is 64 bits on every platform the program is built for; the only
    products of the distribution are the int64 numerators. *)

Definition maxInt64 : Z := 2 ^ 63 - 1.

(** The numerators of the distribution, in the order they are computed. *)
Definition proportionalNumerators (children : list Z) (target : Z) : list Z :=
  map (fun weight => childExtra children target * weight) (map childWeight children).
