(* ===== verification/LayoutTree.v ===== *)
(** * The layout tree (internal/mux/layout.go): data and operations

    A window's panes are the leaves of a tree whose internal nodes are split
    vertically (children left to right) or horizontally (top to bottom).  The
    tree owns its nodes, so a [*LayoutCell] is a path from the root (the index
    of the child taken at each level), its [Parent] is the path without its
    last index, and a method that mutates a cell returns the new tree. *)

From S2P Require Import Prelude LayoutSizes.

(** SplitDir indicates horizontal or vertical split direction. *)
Inductive SplitDir : Set := SplitVertical | SplitHorizontal.
#[export] Instance SplitDir_eq_dec : EqDecision SplitDir.
Proof. solve_decision. Defined.

Definition other (axis : SplitDir) : SplitDir :=
  match axis with SplitVertical => SplitHorizontal | SplitHorizontal => SplitVertical end.

(** Position and size in terminal cells; separators are not included. *)
Record Rect : Set := mkRect { rX : Z; rY : Z; rW : Z; rH : Z }.

(** What a leaf holds.  A pane pointer is the pane's ID: the panes of a session
    have distinct IDs. *)
Record LeafData : Set := mkLeafData {
  Pane : option Z; PaneID : Z; Slot : Z; LeadSlot : bool }.

Inductive LayoutCell : Set :=
| Leaf (r : Rect) (d : LeafData)
| Node (r : Rect) (dir : SplitDir) (children : list LayoutCell).

Inductive resizeEdge : Set := resizeFromStart | resizeFromEnd.

Section LayoutCellInd.
Context (P : LayoutCell -> Prop).
Context (HLeaf : forall r d, P (Leaf r d)).
Context (HNode : forall r dir ch, Forall P ch -> P (Node r dir ch)).
Fixpoint LayoutCell_tree_ind (c : LayoutCell) : P c :=
  match c with
  | Leaf r d => HLeaf r d
  | Node r dir ch =>
      HNode r dir ch
        ((fix go l : Forall P l :=
            match l with
            | [] => List.Forall_nil P
            | x :: l' => List.Forall_cons P x l' (LayoutCell_tree_ind x) (go l')
            end) ch)
  end.
End LayoutCellInd.

(** ** Accessors and constructors *)

Definition emptyLeaf : LeafData := mkLeafData None 0 0 false.
Definition paneLeaf (pane : option Z) : LeafData := mkLeafData pane 0 0 false.

Definition NewLeaf (pane : option Z) (x y w h : Z) : LayoutCell :=
  Leaf (mkRect x y w h) (paneLeaf pane).
Definition NewLeafByID (paneID x y w h : Z) : LayoutCell :=
  Leaf (mkRect x y w h) (mkLeafData None paneID 0 false).

Definition IsLeaf (c : LayoutCell) : bool :=
  match c with Leaf _ _ => true | Node _ _ _ => false end.
Definition cellRect (c : LayoutCell) : Rect :=
  match c with Leaf r _ => r | Node r _ _ => r end.
Definition withRect (r : Rect) (c : LayoutCell) : LayoutCell :=
  match c with Leaf _ d => Leaf r d | Node _ dir ch => Node r dir ch end.
Definition Children (c : LayoutCell) : list LayoutCell :=
  match c with Leaf _ _ => [] | Node _ _ ch => ch end.
Definition withChildren (ch : list LayoutCell) (c : LayoutCell) : LayoutCell :=
  match c with Leaf r d => Leaf r d | Node r dir _ => Node r dir ch end.
(** Dir is -1 on leaves. *)
Definition Dir (c : LayoutCell) : option SplitDir :=
  match c with Leaf _ _ => None | Node _ dir _ => Some dir end.
Definition cX c := rX (cellRect c).
Definition cY c := rY (cellRect c).
Definition cW c := rW (cellRect c).
Definition cH c := rH (cellRect c).
Definition leafPane (c : LayoutCell) : option Z :=
  match c with Leaf _ d => Pane d | Node _ _ _ => None end.

Definition rAxis (axis : SplitDir) (r : Rect) : Z :=
  match axis with SplitVertical => rW r | SplitHorizontal => rH r end.
Definition setRAxis (axis : SplitDir) (size : Z) (r : Rect) : Rect :=
  match axis with
  | SplitVertical => mkRect (rX r) (rY r) size (rH r)
  | SplitHorizontal => mkRect (rX r) (rY r) (rW r) size
  end.
Definition setWH (w h : Z) (r : Rect) : Rect := mkRect (rX r) (rY r) w h.
Definition setXY (x y : Z) (r : Rect) : Rect := mkRect x y (rW r) (rH r).

Definition axisSize (axis : SplitDir) (c : LayoutCell) : Z := rAxis axis (cellRect c).
Definition setAxisSize (axis : SplitDir) (size : Z) (c : LayoutCell) : LayoutCell :=
  withRect (setRAxis axis size (cellRect c)) c.

(** ** Positions *)

(** [placeAt x y c] is [c.X, c.Y = x, y; c.FixOffsets()]. *)
Fixpoint placeAt (x y : Z) (c : LayoutCell) : LayoutCell :=
  match c with
  | Leaf r d => Leaf (setXY x y r) d
  | Node r SplitVertical ch =>
      Node (setXY x y r) SplitVertical
        ((fix go (xoff : Z) (l : list LayoutCell) :=
            match l with
            | [] => []
            | child :: rest => placeAt xoff y child :: go (xoff + cW child + 1) rest
            end) x ch)
  | Node r SplitHorizontal ch =>
      Node (setXY x y r) SplitHorizontal
        ((fix go (yoff : Z) (l : list LayoutCell) :=
            match l with
            | [] => []
            | child :: rest => placeAt x yoff child :: go (yoff + cH child + 1) rest
            end) y ch)
  end.

Definition FixOffsets (c : LayoutCell) : LayoutCell := placeAt (cX c) (cY c) c.

(** ** Minimum sizes and shrink margins *)

(** The loop that keeps the largest size seen, starting from 0. *)
Definition maxFold (l : list Z) : Z :=
  fold_left (fun minimum size => if minimum <? size then size else minimum) l 0.

(** The loop of resizeCheck that keeps the smallest value seen; -1 means none. *)
Definition minFold (l : list Z) : Z :=
  fold_left (fun minimum available =>
    if (minimum =? -1) || (available <? minimum) then available else minimum) l (-1).

Fixpoint minSubtreeSize (axis : SplitDir) (c : LayoutCell) : Z :=
  match c with
  | Leaf _ _ => PaneMinSize
  | Node r dir [] => rAxis axis r
  | Node r dir ch =>
      if decide (dir = axis) then
        lenZ ch - 1 + sumZ (map (minSubtreeSize axis) ch)
      else maxFold (map (minSubtreeSize axis) ch)
  end.

Fixpoint resizeCheck (axis : SplitDir) (c : LayoutCell) : Z :=
  match c with
  | Leaf r _ =>
      let size := rAxis axis r in
      if PaneMinSize <? size then size - PaneMinSize else 0
  | Node r dir ch =>
      if decide (dir = axis) then sumZ (map (resizeCheck axis) ch)
      else
        let minimum := minFold (map (resizeCheck axis) ch) in
        if minimum <? 0 then 0 else minimum
  end.

(** ** Sizes for the children of a split *)

Definition proportionalChildSizes (children : list LayoutCell) (axis : SplitDir) (target : Z)
  : list Z := proportionalSizes (map (axisSize axis) children) target.

Definition proportionalSubtreeChildSizes
    (children : list LayoutCell) (axis : SplitDir) (target : Z) : list Z :=
  let n := lenZ children in
  if n =? 0 then []
  else
    let minimums := map (minSubtreeSize axis) children in
    let minimumTotal := sumZ minimums in
    let target := if target <? minimumTotal then minimumTotal else target in
    let sizes := proportionalChildSizes children axis (target + n - 1) in
    fst (raiseSizesToMinimums sizes minimums).

Definition equalSubtreeSplitSizes
    (children : list LayoutCell) (axis : SplitDir) (total : Z) : option (list Z) :=
  let sizes := equalSplitSizes total (lenZ children) in
  if lenZ sizes =? 0 then None
  else
    let '(sizes, ok) := raiseSizesToMinimums sizes (map (minSubtreeSize axis) children) in
    if ok then Some sizes else None.

Definition frontLoadedSubtreeSplitSizes
    (children : list LayoutCell) (axis : SplitDir) (total : Z) : option (list Z) :=
  let sizes := frontLoadedSplitSizes total (lenZ children) in
  if lenZ sizes =? 0 then None
  else
    let '(sizes, ok) := raiseSizesToMinimums sizes (map (minSubtreeSize axis) children) in
    if ok then Some sizes else None.

(** ** Resizing *)

Definition atLeast (m x : Z) : Z := if x <? m then m else x.

Fixpoint ResizeSubtree (c : LayoutCell) (newW newH : Z) : LayoutCell :=
  match c with
  | Leaf r d => Leaf (setWH (atLeast PaneMinSize newW) (atLeast PaneMinSize newH) r) d
  | Node r dir [] => c
  | Node r dir ch =>
      let newW := atLeast (minSubtreeSize SplitVertical c) newW in
      let newH := atLeast (minSubtreeSize SplitHorizontal c) newH in
      let r := setWH newW newH r in
      match dir with
      | SplitVertical =>
          let childWidths :=
            proportionalSubtreeChildSizes ch SplitVertical (newW - (lenZ ch - 1)) in
          FixOffsets (Node r dir (map2 (fun child w => ResizeSubtree child w newH) ch childWidths))
      | SplitHorizontal =>
          let childHeights :=
            proportionalSubtreeChildSizes ch SplitHorizontal (newH - (lenZ ch - 1)) in
          FixOffsets (Node r dir (map2 (fun child h => ResizeSubtree child newW h) ch childHeights))
      end
  end.

Fixpoint resizeAxis (axis : SplitDir) (c : LayoutCell) (target : Z) : LayoutCell :=
  match c with
  | Leaf r d => Leaf (setRAxis axis target r) d
  | Node r dir ch =>
      let r := setRAxis axis target r in
      if decide (dir = axis) then
        let sizes := proportionalSubtreeChildSizes ch axis (target - (lenZ ch - 1)) in
        Node r dir (map2 (resizeAxis axis) ch sizes)
      else Node r dir (map (fun child => resizeAxis axis child target) ch)
  end.

(** The clamp shared by resizeToAxis and resizeToAxisFromEdge. *)
Definition clampTarget (axis : SplitDir) (c : LayoutCell) (target : Z) : Z :=
  let current := axisSize axis c in
  if target <? current then
    let maxShrink := resizeCheck axis c in
    let minTarget := current - maxShrink in
    if target <? minTarget then minTarget else target
  else target.

Definition resizeToAxis (axis : SplitDir) (target : Z) (c : LayoutCell) : LayoutCell :=
  if target =? axisSize axis c then c else resizeAxis axis c (clampTarget axis c target).

Definition ResizeAll (newW newH : Z) (c : LayoutCell) : LayoutCell :=
  FixOffsets (resizeToAxis SplitHorizontal newH (resizeToAxis SplitVertical newW c)).

Section EdgeLoops.
Context (check : LayoutCell -> Z) (resizeTo : LayoutCell -> Z -> LayoutCell).

(** One round of the shrink loops: take what the child can give. *)
Definition shrinkChild (child : LayoutCell) (remaining : Z) : LayoutCell * Z :=
  if 0 <? remaining then
    let shrink := check child in
    let shrink := if remaining <? shrink then remaining else shrink in
    if shrink =? 0 then (child, remaining)
    else (resizeTo child shrink, remaining - shrink)
  else (child, remaining).

Fixpoint shrinkFromStart (l : list LayoutCell) (remaining : Z) : list LayoutCell * Z :=
  match l with
  | [] => ([], remaining)
  | child :: rest =>
      let '(child', remaining) := shrinkChild child remaining in
      let '(rest', remaining) := shrinkFromStart rest remaining in
      (child' :: rest', remaining)
  end.

Fixpoint shrinkFromEnd (l : list LayoutCell) (remaining : Z) : list LayoutCell * Z :=
  match l with
  | [] => ([], remaining)
  | child :: rest =>
      let '(rest', remaining) := shrinkFromEnd rest remaining in
      let '(child', remaining) := shrinkChild child remaining in
      (child' :: rest', remaining)
  end.
End EdgeLoops.

(** [updNth f i l] is [f(l[i])] for a method that mutates [l[i]]. *)
Section UpdNth.
Context {A : Type} (f : A -> A).
Fixpoint updNth (i : nat) (l : list A) {struct l} : list A :=
  match l with
  | [] => []
  | x :: rest => match i with O => f x :: rest | S i => x :: updNth i rest end
  end.
End UpdNth.

Fixpoint resizeAxisFromEdge (axis : SplitDir) (edge : resizeEdge) (c : LayoutCell) (target : Z) {struct c}
  : LayoutCell :=
  if target =? axisSize axis c then c
  else
    match c with
    | Leaf r d => Leaf (setRAxis axis (atLeast PaneMinSize target) r) d
    | Node r dir [] => Node (setRAxis axis target r) dir []
    | Node r dir ch =>
        let delta := target - rAxis axis r in
        let r := setRAxis axis target r in
        if decide (dir = axis) then
          if 0 <? delta then
            let childIdx :=
              match edge with resizeFromStart => 0%nat | resizeFromEnd => (length ch - 1)%nat end in
            Node r dir
              (updNth (fun child =>
                 resizeAxisFromEdge axis edge child (axisSize axis child + delta)) childIdx ch)
          else
            match edge with
            | resizeFromStart =>
                Node r dir (fst (shrinkFromStart (resizeCheck axis)
                  (fun child shrink =>
                     resizeAxisFromEdge axis edge child (axisSize axis child - shrink))
                  ch (- delta)))
            | resizeFromEnd =>
                Node r dir (fst (shrinkFromEnd (resizeCheck axis)
                  (fun child shrink =>
                     resizeAxisFromEdge axis edge child (axisSize axis child - shrink))
                  ch (- delta)))
            end
        else Node r dir (map (fun child => resizeAxisFromEdge axis edge child target) ch)
    end.

Definition resizeToAxisFromEdge (axis : SplitDir) (target : Z) (edge : resizeEdge)
    (c : LayoutCell) : LayoutCell :=
  if target =? axisSize axis c then c
  else resizeAxisFromEdge axis edge c (clampTarget axis c target).

(** ** Walking and finding *)

(** A pointer to a cell: the child index taken at each level from the root. *)
Abbreviation path := (list nat).

(** Walk visits every leaf, depth first. *)
Fixpoint Walk (c : LayoutCell) : list (path * (Rect * LeafData)) :=
  match c with
  | Leaf r d => [([], (r, d))]
  | Node _ _ ch =>
      (fix go (i : nat) (l : list LayoutCell) :=
         match l with
         | [] => []
         | child :: rest => map (fun e => (i :: e.1, e.2)) (Walk child) ++ go (S i) rest
         end) O ch
  end.

(** The callback [if test(leaf) { found = leaf }]: the last match wins. *)
Definition findLast (test : LeafData -> bool) (c : LayoutCell) : option path :=
  fold_left (fun found e => if test e.2.2 then Some e.1 else found) (Walk c) None.

Definition CellPaneID (d : LeafData) : Z :=
  match Pane d with Some id => id | None => PaneID d end.

Definition FindPane (paneID : Z) (c : LayoutCell) : option path :=
  findLast (fun d => bool_decide (Pane d = Some paneID)) c.
Definition FindByPaneID (paneID : Z) (c : LayoutCell) : option path :=
  findLast (fun d => CellPaneID d =? paneID) c.

Definition inRect (x y : Z) (r : Rect) : bool :=
  (rX r <=? x) && (x <? rX r + rW r) && (rY r <=? y) && (y <? rY r + rH r).

Fixpoint FindLeafAt (x y : Z) (c : LayoutCell) : option path :=
  match c with
  | Leaf r _ => if inRect x y r then Some [] else None
  | Node _ _ ch =>
      (fix go (i : nat) (l : list LayoutCell) :=
         match l with
         | [] => None
         | child :: rest =>
             match FindLeafAt x y child with
             | Some p => Some (i :: p)
             | None => go (S i) rest
             end
         end) O ch
  end.

(** BorderHit: the parent cell, the index of the child left of (above) the
    border, and the direction of the split. *)
Record BorderHit : Set := mkBorderHit {
  hitParent : path; hitLeft : nat; hitDir : SplitDir }.

Definition onBorder (dir : SplitDir) (r : Rect) (x y : Z) (before : LayoutCell) : bool :=
  match dir with
  | SplitVertical =>
      (x =? cX before + cW before) && (rY r <=? y) && (y <? rY r + rH r)
  | SplitHorizontal =>
      (y =? cY before + cH before) && (rX r <=? x) && (x <? rX r + rW r)
  end.

(** The loop over adjacent pairs of children. *)
Fixpoint borderBetween (dir : SplitDir) (r : Rect) (x y : Z) (i : nat) (l : list LayoutCell)
  : option nat :=
  match l with
  | before :: ((_ :: _) as rest) =>
      if onBorder dir r x y before then Some i else borderBetween dir r x y (S i) rest
  | _ => None
  end.

Definition pushHit (i : nat) (h : BorderHit) : BorderHit :=
  mkBorderHit (i :: hitParent h) (hitLeft h) (hitDir h).

Fixpoint FindBorderAt (x y : Z) (c : LayoutCell) : option BorderHit :=
  match c with
  | Leaf _ _ => None
  | Node r dir ch =>
      match borderBetween dir r x y 0 ch with
      | Some i => Some (mkBorderHit [] i dir)
      | None =>
          (fix go (i : nat) (l : list LayoutCell) :=
             match l with
             | [] => None
             | child :: rest =>
                 match FindBorderAt x y child with
                 | Some h => Some (pushHit i h)
                 | None => go (S i) rest
                 end
             end) O ch
      end
  end.

Definition borderOffsets : list (Z * Z) := [(0, 0); (0, 1); (1, 0); (0, -1); (-1, 0)].

(** The first border found in the one-cell cardinal neighbourhood. *)
Definition FindBorderNear (x y : Z) (c : LayoutCell) : option BorderHit :=
  fold_right (fun off next =>
    match FindBorderAt (x + off.1) (y + off.2) c with Some h => Some h | None => next end)
    None borderOffsets.

(** ** Equalizing *)

Definition resizeChildTo (dir : SplitDir) (r : Rect) (child : LayoutCell) (size : Z) : LayoutCell :=
  match dir with
  | SplitVertical => ResizeSubtree child size (rH r)
  | SplitHorizontal => ResizeSubtree child (rW r) size
  end.

Definition equalizeChildren (c : LayoutCell) : LayoutCell :=
  match c with
  | Leaf _ _ => c
  | Node r dir ch =>
      match equalSubtreeSplitSizes ch dir (rAxis dir r) with
      | None => c
      | Some sizes => Node r dir (map2 (resizeChildTo dir r) ch sizes)
      end
  end.
Definition rebalanceChildren (c : LayoutCell) : LayoutCell := equalizeChildren c.
Definition distributeEqual (c : LayoutCell) : LayoutCell := rebalanceChildren c.

Definition equalizeChildrenNeeded (c : LayoutCell) : bool :=
  match c with
  | Leaf _ _ => false
  | Node r dir ch =>
      match equalSubtreeSplitSizes ch dir (rAxis dir r) with
      | None => false
      | Some sizes =>
          existsb id (map2 (fun child size => negb (axisSize dir child =? size)) ch sizes)
      end
  end.

Fixpoint equalizeAxisNeeded (axis : SplitDir) (c : LayoutCell) : bool :=
  match c with
  | Leaf _ _ => false
  | Node _ dir ch =>
      (bool_decide (dir = axis) && equalizeChildrenNeeded c)
      || existsb (equalizeAxisNeeded axis) ch
  end.

Fixpoint height (c : LayoutCell) : nat :=
  match c with
  | Leaf _ _ => O
  | Node _ _ ch => S (fold_right Nat.max O (map height ch))
  end.

(** The recursion visits the children distributeEqual has just resized; its
    fuel is the height of the tree, which resizing keeps. *)
Fixpoint equalizeAxisRecursive_fuel (fuel : nat) (axis : SplitDir) (c : LayoutCell) : LayoutCell :=
  match fuel with
  | O => c
  | S fuel =>
      let c := if decide (Dir c = Some axis) then distributeEqual c else c in
      withChildren (map (equalizeAxisRecursive_fuel fuel axis) (Children c)) c
  end.
Definition equalizeAxisRecursive (axis : SplitDir) (c : LayoutCell) : LayoutCell :=
  equalizeAxisRecursive_fuel (height c) axis c.

(** ** Editing at a pointer *)

Fixpoint cellAt (p : path) (c : LayoutCell) : option LayoutCell :=
  match p with
  | [] => Some c
  | i :: p => match Children c !! i with Some child => cellAt p child | None => None end
  end.

Fixpoint updAt (f : LayoutCell -> LayoutCell) (p : path) (c : LayoutCell) : LayoutCell :=
  match p with
  | [] => f c
  | i :: p => withChildren (updNth (updAt f p) i (Children c)) c
  end.

(** c.Parent and c.IndexInParent() of the cell at [p]; None at the root. *)
Definition parentOf (p : path) : option (path * nat) :=
  match last p with
  | Some i => Some (removelast p, i)
  | None => None
  end.

Inductive LayoutError : Set :=
| errNotLeaf                                   (* can only split leaf cells *)
| errNoSpace (available required : Z).         (* not enough space to split *)

Definition insertAt {A} (i : nat) (x : A) (l : list A) : list A := take i l ++ x :: drop i l.

(** Case B of splitWithOrder: the leaf becomes an internal node with two leaves. *)
Definition splitLeaf (r : Rect) (oldPane : option Z) (dir : SplitDir) (newPane : Z)
    (insertFirst : bool) : LayoutCell :=
  let available := rAxis dir r in
  let size2 := Z.quot (available - 1) 2 in
  let size1 := available - 1 - size2 in
  let first := if insertFirst then Some newPane else oldPane in
  let second := if insertFirst then oldPane else Some newPane in
  match dir with
  | SplitVertical =>
      Node r dir [NewLeaf first (rX r) (rY r) size1 (rH r);
                  NewLeaf second (rX r + size1 + 1) (rY r) size2 (rH r)]
  | SplitHorizontal =>
      Node r dir [NewLeaf first (rX r) (rY r) (rW r) size1;
                  NewLeaf second (rX r) (rY r + size1 + 1) (rW r) size2]
  end.

(** Case A of splitWithOrder: the new leaf becomes a sibling and the space of
    the parent is shared out equally. *)
Definition insertSibling (insertIdx : nat) (newPane : Z) (parent : LayoutCell) : LayoutCell :=
  distributeEqual
    (withChildren (insertAt insertIdx (NewLeaf (Some newPane) 0 0 0 0) (Children parent)) parent).

Definition splitWithOrder (root : LayoutCell) (p : path) (dir : SplitDir) (newPane : Z)
    (insertFirst : bool) : result LayoutError (LayoutCell * path) :=
  match cellAt p root with
  | Some (Leaf r d) =>
      let available := rAxis dir r in
      if available <? 2 * PaneMinSize + 1 then Err (errNoSpace available (2 * PaneMinSize + 1))
      else
        let caseB :=
          Ok (updAt (fun _ => splitLeaf r (Pane d) dir newPane insertFirst) p root,
              p ++ [if insertFirst then 0%nat else 1%nat]) in
        match parentOf p with
        | Some (pp, idx) =>
            if decide ((cellAt pp root ≫= Dir) = Some dir) then
              let insertIdx := if insertFirst then idx else S idx in
              Ok (updAt (insertSibling insertIdx newPane) pp root, pp ++ [insertIdx])
            else caseB
        | None => caseB
        end
  | _ => Err errNotLeaf
  end.

Definition Split root p dir newPane := splitWithOrder root p dir newPane false.

(** Close removes the leaf at [p] and returns the tree and the cell that
    received the space.  A parent left with one child is replaced by it; at the
    root the returned pointer is then [[]], the cell whose Parent is nil. *)
Definition Close (root : LayoutCell) (p : path) : LayoutCell * option path :=
  match parentOf p with
  | None => (root, None)
  | Some (pp, idx) =>
      match cellAt pp root with
      | Some (Node r dir ch) =>
          let ch := delete idx ch in
          let recipient :=
            if (idx <? length ch)%nat then Some idx
            else if (0 <? length ch)%nat then Some (length ch - 1)%nat else None in
          let parent :=
            if (0 <? length ch)%nat then rebalanceChildren (Node r dir ch) else Node r dir ch in
          match Children parent with
          | [only] => (updAt (fun _ => withRect r only) pp root, Some pp)
          | _ => (updAt (fun _ => parent) pp root, (fun i => pp ++ [i]) <$> recipient)
          end
      | _ => (root, None)
      end
  end.
