(* ===== verification/LayoutFacts.v ===== *)
(** * The layout tree: well-formedness and the resize operations

    The invariant of a layout tree and the proofs that every resize operation
    establishes or keeps it.  [skeleton] is what no resize may change: the
    splits, the leaves, their panes and their order. *)

From S2P Require Import Prelude LayoutSizes LayoutTree.

(** ** Invariants *)

(** Every internal node splits its space between at least two children. *)
Inductive shaped : LayoutCell -> Prop :=
| shaped_leaf r d : shaped (Leaf r d)
| shaped_node r dir ch : (2 <= length ch)%nat -> Forall shaped ch -> shaped (Node r dir ch).

(** The sizes fit: leaves have room for a pane, the children of a split span
    their parent across the split and fill it along the split, with one cell
    of separator between neighbours. *)
Inductive wf : LayoutCell -> Prop :=
| wf_leaf r d : PaneMinSize <= rW r -> PaneMinSize <= rH r -> wf (Leaf r d)
| wf_node r dir ch :
    (2 <= length ch)%nat -> Forall wf ch ->
    Forall (fun c => axisSize (other dir) c = rAxis (other dir) r) ch ->
    sumZ (map (axisSize dir) ch) + (lenZ ch - 1) = rAxis dir r ->
    wf (Node r dir ch).

(** The executable form of [wf]. *)
Fixpoint wfb (c : LayoutCell) : bool :=
  match c with
  | Leaf r _ => (PaneMinSize <=? rW r) && (PaneMinSize <=? rH r)
  | Node r dir ch =>
      (2 <=? lenZ ch) && forallb wfb ch
      && forallb (fun c => axisSize (other dir) c =? rAxis (other dir) r) ch
      && (sumZ (map (axisSize dir) ch) + (lenZ ch - 1) =? rAxis dir r)
  end.

(** The positions are those FixOffsets computes. *)
Definition positioned (c : LayoutCell) : Prop := FixOffsets c = c.

Definition zeroRect : Rect := mkRect 0 0 0 0.
Fixpoint skeleton (c : LayoutCell) : LayoutCell :=
  match c with
  | Leaf _ d => Leaf zeroRect d
  | Node _ dir ch => Node zeroRect dir (map skeleton ch)
  end.

Lemma forallb_Forall {A} (f : A -> bool) l : forallb f l = true <-> Forall (fun x => f x = true) l.
Proof. rewrite forallb_forall, Forall_forall. setoid_rewrite list_elem_of_In. done. Qed.

Lemma two_ne {A} (l : list A) : (2 <= length l)%nat -> l <> [].
Proof. destruct l; simpl; [lia|done]. Qed.

Lemma wfb_sound c : wfb c = true -> wf c.
Proof.
  induction c as [r d|r dir ch IH] using LayoutCell_tree_ind; simpl; intros Hb.
  - apply andb_prop in Hb as [? ?]. constructor; lia.
  - apply andb_prop in Hb as [Hb Hsum]. apply andb_prop in Hb as [Hb Hcross].
    apply andb_prop in Hb as [Hne Hch]. rewrite forallb_Forall in Hcross, Hch.
    constructor.
    + unfold lenZ in Hne. lia.
    + rewrite Forall_forall in *. auto.
    + eapply Forall_impl; [exact Hcross|]. intros c Hc. simpl in Hc. lia.
    + lia.
Qed.

Lemma wf_shaped c : wf c -> shaped c.
Proof.
  induction c as [r d|r dir ch IH] using LayoutCell_tree_ind; inversion_clear 1; constructor; auto.
  rewrite Forall_forall in *. auto.
Qed.

Lemma Forall_map_iff {A B} (f : A -> B) (P : B -> Prop) l :
  Forall P (map f l) <-> Forall (fun x => P (f x)) l.
Proof. apply Forall_map. Qed.

Lemma Forall_map_eq {A B} (f g : A -> B) l : Forall (fun x => f x = g x) l -> map f l = map g l.
Proof. induction 1; simpl; congruence. Qed.

(** ** Skeletons *)

Lemma skeleton_shaped c : shaped (skeleton c) <-> shaped c.
Proof.
  induction c as [r d|r dir ch IH] using LayoutCell_tree_ind; simpl.
  { split; intros; constructor. }
  split; inversion_clear 1 as [|? ? ? Hne HF]; constructor.
  - by rewrite length_map in Hne.
  - rewrite Forall_map_iff in HF. rewrite Forall_forall in *. naive_solver.
  - by rewrite length_map.
  - rewrite Forall_map_iff. rewrite Forall_forall in *. naive_solver.
Qed.

Lemma skeleton_min axis c : shaped c -> minSubtreeSize axis (skeleton c) = minSubtreeSize axis c.
Proof.
  induction c as [r d|r dir ch IH] using LayoutCell_tree_ind; inversion_clear 1 as [|? ? ? Hne%two_ne HF];
    [done|].
  assert (map (minSubtreeSize axis) (map skeleton ch) = map (minSubtreeSize axis) ch) as Hm.
  { rewrite map_map. apply Forall_map_eq. rewrite Forall_forall in *. auto. }
  destruct ch as [|c ch]; [done|]. cbn [skeleton map minSubtreeSize].
  change (skeleton c :: map skeleton ch) with (map skeleton (c :: ch)).
  change (minSubtreeSize axis (skeleton c) :: map (minSubtreeSize axis) (map skeleton ch))
    with (map (minSubtreeSize axis) (map skeleton (c :: ch))).
  rewrite Hm, lenZ_map. done.
Qed.

Lemma same_skeleton_min axis c1 c2 :
  skeleton c1 = skeleton c2 -> shaped c1 -> minSubtreeSize axis c1 = minSubtreeSize axis c2.
Proof.
  intros He Hs. rewrite <- (skeleton_min axis c1), He by done. apply skeleton_min.
  by rewrite <- skeleton_shaped, <- He, skeleton_shaped.
Qed.

(** ** Unfolding and bounds of the minimum size *)

Lemma minSubtreeSize_node axis r dir ch :
  ch <> [] ->
  minSubtreeSize axis (Node r dir ch) =
  if decide (dir = axis) then lenZ ch - 1 + sumZ (map (minSubtreeSize axis) ch)
  else maxFold (map (minSubtreeSize axis) ch).
Proof. by destruct ch. Qed.

Lemma maxFold_spec_acc l a :
  let m := fold_left (fun minimum size => if minimum <? size then size else minimum) l a in
  a <= m /\ Forall (fun x => x <= m) l /\ (m = a \/ m ∈ l).
Proof.
  revert a. induction l as [|x l IH]; intros a; simpl.
  { split_and!; [lia|constructor|by left]. }
  destruct (IH (if a <? x then x else a)) as (Ha & HF & Hm). zb.
  - split_and!; [lia|constructor; [lia|done]|]. right. set_solver.
  - split_and!; [lia|constructor; [lia|done]|]. set_solver.
Qed.

Lemma maxFold_ub l : Forall (fun x => x <= maxFold l) l.
Proof. apply (maxFold_spec_acc l 0). Qed.

Lemma maxFold_in l : l <> [] -> Forall (fun x => 0 <= x) l -> maxFold l ∈ l.
Proof.
  intros Hne HF. destruct (maxFold_spec_acc l 0) as (H0 & Hub & [He|Hin]); [|done].
  fold (maxFold l) in *. destruct l as [|x l]; [done|].
  apply Forall_cons in HF as [Hx _]. apply Forall_cons in Hub as [Hxu _].
  assert (x = maxFold (x :: l)) as <- by lia. set_solver.
Qed.

Lemma minFold_spec_acc l a :
  0 <= a -> Forall (fun x => 0 <= x) l ->
  let m := fold_left (fun minimum available =>
    if (minimum =? -1) || (available <? minimum) then available else minimum) l a in
  0 <= m <= a /\ Forall (fun x => m <= x) l /\ (m = a \/ m ∈ l).
Proof.
  intros Ha HF. revert a Ha. induction HF as [|x l Hx HF IH]; intros a Ha; simpl.
  { split; [lia|split; [constructor|by left]]. }
  destruct (IH (if (a =? -1) || (x <? a) then x else a)) as (Hm & Hlb & Hin).
  { zb; lia. }
  zb; try lia; (split; [lia|split; [constructor; [lia|done]|set_solver]]).
Qed.

Lemma minFold_spec l :
  l <> [] -> Forall (fun x => 0 <= x) l ->
  0 <= minFold l /\ Forall (fun x => minFold l <= x) l /\ minFold l ∈ l.
Proof.
  intros Hne HF. destruct HF as [|x l Hx HF]; [done|]. unfold minFold. simpl.
  destruct (minFold_spec_acc l x Hx HF) as (Hm & Hlb & Hin).
  split; [lia|split; [constructor; [lia|done]|set_solver]].
Qed.

Lemma minSubtreeSize_ge axis c : shaped c -> PaneMinSize <= minSubtreeSize axis c.
Proof.
  induction c as [r d|r dir ch IH] using LayoutCell_tree_ind; inversion_clear 1 as [|? ? ? Hne%two_ne HF].
  { simpl. lia. }
  assert (Forall (fun x => PaneMinSize <= x) (map (minSubtreeSize axis) ch)) as Hm.
  { rewrite Forall_map_iff. rewrite Forall_forall in *. auto. }
  rewrite minSubtreeSize_node by done. case_decide.
  - pose proof (sumZ_lower _ _ Hm). rewrite lenZ_map in *. pose proof (lenZ_pos ch Hne).
    unfold PaneMinSize in *. lia.
  - assert (maxFold (map (minSubtreeSize axis) ch) ∈ map (minSubtreeSize axis) ch) as Hin.
    { apply maxFold_in; [by destruct ch|]. eapply Forall_impl; [exact Hm|].
      unfold PaneMinSize. simpl. lia. }
    rewrite Forall_forall in Hm. auto.
Qed.

Lemma mins_ge axis ch :
  Forall shaped ch -> Forall (fun x => PaneMinSize <= x) (map (minSubtreeSize axis) ch).
Proof.
  intros HF. rewrite Forall_map_iff. eapply Forall_impl; [exact HF|].
  intros c. apply minSubtreeSize_ge.
Qed.

(** ** What the size distributions deliver *)

Lemma proportionalSubtree_spec ch axis target :
  ch <> [] -> Forall shaped ch ->
  let mins := map (minSubtreeSize axis) ch in
  let out := proportionalSubtreeChildSizes ch axis target in
  length out = length ch /\ Forall2 Z.le mins out /\ sumZ out = Z.max target (sumZ mins).
Proof.
  intros Hne HF mins out. unfold out, proportionalSubtreeChildSizes, proportionalChildSizes.
  fold mins. pose proof (lenZ_pos ch Hne). destruct (Z.eqb_spec (lenZ ch) 0); [lia|].
  pose proof (sumZ_lower _ _ (mins_ge axis ch HF)) as Hlow. fold mins in Hlow.
  unfold mins in Hlow at 1. rewrite lenZ_map in Hlow.
  set (t := if target <? sumZ mins then sumZ mins else target).
  assert (t = Z.max target (sumZ mins)) as Ht by (unfold t; zb; lia).
  set (sizes := proportionalSizes (map (axisSize axis) ch) (t + lenZ ch - 1)).
  assert (sumZ sizes = t) as Hs.
  { unfold sizes. rewrite sum_proportionalSizes by (by destruct ch).
    unfold childExtra. rewrite lenZ_map. lia. }
  destruct (raise_ok sizes mins) as (o & -> & Hl & HF2 & Hsum).
  { unfold sizes, mins. by rewrite length_proportionalSizes, !length_map. }
  { lia. }
  simpl. split_and!; [|done|lia].
  rewrite Hl. unfold sizes. by rewrite length_proportionalSizes, length_map.
Qed.

Lemma equalSubtree_spec ch axis total :
  ch <> [] -> sumZ (map (minSubtreeSize axis) ch) + (lenZ ch - 1) <= total ->
  exists sizes, equalSubtreeSplitSizes ch axis total = Some sizes /\
    length sizes = length ch /\ Forall2 Z.le (map (minSubtreeSize axis) ch) sizes /\
    sumZ sizes + (lenZ ch - 1) = total.
Proof.
  intros Hne Ht. unfold equalSubtreeSplitSizes. pose proof (lenZ_pos ch Hne).
  rewrite length_equalSplitSizes by done. destruct (Z.eqb_spec (lenZ ch) 0); [lia|].
  pose proof (length_equalSplitSizes total (lenZ ch) ltac:(done)) as Hl.
  destruct (raise_ok (equalSplitSizes total (lenZ ch)) (map (minSubtreeSize axis) ch))
    as (o & -> & Hlo & HF2 & Hsum).
  { rewrite length_map. unfold lenZ in *. lia. }
  { rewrite sum_equalSplitSizes by done. lia. }
  eexists. split_and!; [done| |done|].
  - rewrite Hlo. unfold lenZ in *. lia.
  - rewrite Hsum, sum_equalSplitSizes by done. lia.
Qed.

Lemma frontLoaded_spec ch axis total :
  ch <> [] -> 0 <= lenZ ch - 1 <= total ->
  sumZ (map (minSubtreeSize axis) ch) + (lenZ ch - 1) <= total ->
  exists sizes, frontLoadedSubtreeSplitSizes ch axis total = Some sizes /\
    length sizes = length ch /\ Forall2 Z.le (map (minSubtreeSize axis) ch) sizes /\
    sumZ sizes + (lenZ ch - 1) = total.
Proof.
  intros Hne Hn Ht. unfold frontLoadedSubtreeSplitSizes. pose proof (lenZ_pos ch Hne).
  rewrite length_frontLoadedSplitSizes by done. destruct (Z.eqb_spec (lenZ ch) 0); [lia|].
  pose proof (length_frontLoadedSplitSizes total (lenZ ch) ltac:(done)) as Hl.
  destruct (raise_ok (frontLoadedSplitSizes total (lenZ ch)) (map (minSubtreeSize axis) ch))
    as (o & -> & Hlo & HF2 & Hsum).
  { rewrite length_map. unfold lenZ in *. lia. }
  { rewrite sum_frontLoadedSplitSizes by lia. lia. }
  eexists. split_and!; [done| |done|].
  - rewrite Hlo. unfold lenZ in *. lia.
  - rewrite Hsum, sum_frontLoadedSplitSizes by lia. lia.
Qed.

(** ** Positions change nothing but positions *)

Section PlaceLoops.
Context (fixed : Z).
Fixpoint placeRow (xoff : Z) (l : list LayoutCell) : list LayoutCell :=
  match l with
  | [] => []
  | child :: rest => placeAt xoff fixed child :: placeRow (xoff + cW child + 1) rest
  end.
Fixpoint placeCol (yoff : Z) (l : list LayoutCell) : list LayoutCell :=
  match l with
  | [] => []
  | child :: rest => placeAt fixed yoff child :: placeCol (yoff + cH child + 1) rest
  end.
End PlaceLoops.
Definition placeChildren (dir : SplitDir) (x y : Z) (l : list LayoutCell) : list LayoutCell :=
  match dir with SplitVertical => placeRow y x l | SplitHorizontal => placeCol x y l end.

Lemma placeAt_node x y r dir ch :
  placeAt x y (Node r dir ch) = Node (setXY x y r) dir (placeChildren dir x y ch).
Proof. by destruct dir. Qed.

Lemma map_placeChildren {B} (f : LayoutCell -> B) dir x y l :
  Forall (fun c => forall x y, f (placeAt x y c) = f c) l ->
  map f (placeChildren dir x y l) = map f l.
Proof.
  intros HF. destruct dir; simpl; revert x y; induction HF as [|c l Hc HF IH]; intros x y; simpl;
    [done| |done|]; by rewrite Hc, IH.
Qed.

Lemma Forall_placeChildren (P : LayoutCell -> Prop) dir x y l :
  Forall (fun c => forall x y, P (placeAt x y c)) l -> Forall P (placeChildren dir x y l).
Proof.
  intros HF. destruct dir; simpl; revert x y; induction HF; intros x' y'; simpl; constructor; auto.
Qed.

Lemma length_placeChildren dir x y l : length (placeChildren dir x y l) = length l.
Proof.
  destruct dir; simpl; revert x y; induction l as [|c l IH]; intros x y; simpl; auto.
Qed.

Lemma placeAt_axisSize axis x y c : axisSize axis (placeAt x y c) = axisSize axis c.
Proof. destruct c as [r d|r dir ch]; [|rewrite placeAt_node]; by destruct axis. Qed.
Lemma placeAt_cW x y c : cW (placeAt x y c) = cW c.
Proof. apply (placeAt_axisSize SplitVertical). Qed.
Lemma placeAt_cH x y c : cH (placeAt x y c) = cH c.
Proof. apply (placeAt_axisSize SplitHorizontal). Qed.
Lemma placeAt_cX x y c : cX (placeAt x y c) = x.
Proof. destruct c; [|rewrite placeAt_node]; done. Qed.
Lemma placeAt_cY x y c : cY (placeAt x y c) = y.
Proof. destruct c; [|rewrite placeAt_node]; done. Qed.
Create Rewrite HintDb place.
#[export] Hint Rewrite placeAt_axisSize placeAt_cW placeAt_cH placeAt_cX placeAt_cY : place.

Lemma placeAt_skeleton x y c : skeleton (placeAt x y c) = skeleton c.
Proof.
  revert x y. induction c as [r d|r dir ch IH] using LayoutCell_tree_ind; intros x y; [done|].
  rewrite placeAt_node. simpl. by rewrite map_placeChildren.
Qed.

Lemma placeChildren_twice dir x y x' y' l :
  Forall (fun c => forall x y x' y', placeAt x y (placeAt x' y' c) = placeAt x y c) l ->
  placeChildren dir x y (placeChildren dir x' y' l) = placeChildren dir x y l.
Proof.
  intros HF. destruct dir; simpl; revert x y x' y'; induction HF as [|c l Hc HF IH];
    intros x y x' y'; simpl; try done; autorewrite with place; by rewrite Hc, IH.
Qed.

Lemma placeAt_twice x y x' y' c : placeAt x y (placeAt x' y' c) = placeAt x y c.
Proof.
  revert x y x' y'. induction c as [r d|r dir ch IH] using LayoutCell_tree_ind; intros x y x' y'; [done|].
  rewrite !placeAt_node. f_equal. by apply placeChildren_twice.
Qed.

Lemma FixOffsets_idem c : positioned (FixOffsets c).
Proof. unfold positioned, FixOffsets. autorewrite with place. apply placeAt_twice. Qed.

Lemma placeAt_positioned x y c : positioned (placeAt x y c).
Proof. unfold positioned, FixOffsets. autorewrite with place. apply placeAt_twice. Qed.

Lemma placeAt_wf x y c : wf c -> wf (placeAt x y c).
Proof.
  revert x y. induction c as [r d|r dir ch IH] using LayoutCell_tree_ind; intros x y;
    inversion_clear 1 as [? ? ? ?|? ? ? Hne HF Hcross Hsum]; [by constructor|].
  rewrite placeAt_node. constructor.
  - by rewrite length_placeChildren.
  - apply Forall_placeChildren. rewrite Forall_forall in *. auto.
  - apply Forall_placeChildren. eapply Forall_impl; [exact Hcross|]. intros c Hc x0 y0.
    rewrite placeAt_axisSize, Hc. by destruct dir.
  - rewrite map_placeChildren.
    2:{ apply Forall_true. intros; apply placeAt_axisSize. }
    unfold lenZ. rewrite length_placeChildren. destruct dir; done.
Qed.

Lemma FixOffsets_wf c : wf c -> wf (FixOffsets c).
Proof. apply placeAt_wf. Qed.
Lemma FixOffsets_axisSize axis c : axisSize axis (FixOffsets c) = axisSize axis c.
Proof. apply placeAt_axisSize. Qed.
Lemma FixOffsets_skeleton c : skeleton (FixOffsets c) = skeleton c.
Proof. apply placeAt_skeleton. Qed.
#[export] Hint Resolve FixOffsets_wf placeAt_wf FixOffsets_idem placeAt_positioned wf_shaped : amux.
#[export] Hint Rewrite FixOffsets_axisSize FixOffsets_skeleton placeAt_skeleton : place.

(** ** ResizeSubtree *)

Lemma max_atLeast m x : atLeast m x = Z.max m x.
Proof. unfold atLeast. zb; lia. Qed.

(** What resizing the children of a split to the sizes [sizes] gives. *)
Lemma resized_split r dir ch (f : LayoutCell -> Z -> LayoutCell) sizes :
  (2 <= length ch)%nat ->
  Forall2 (fun c s => wf (f c s) /\ axisSize dir (f c s) = s /\
     axisSize (other dir) (f c s) = rAxis (other dir) r /\ skeleton (f c s) = skeleton c) ch sizes ->
  sumZ sizes + (lenZ ch - 1) = rAxis dir r ->
  wf (Node r dir (map2 f ch sizes)) /\ map skeleton (map2 f ch sizes) = map skeleton ch.
Proof.
  intros Hne HF Hsum. split.
  - constructor.
    + rewrite length_map2; [done|by eapply Forall2_length].
    + apply Forall_map2. eapply Forall2_impl; [exact HF|]. naive_solver.
    + apply Forall_map2. eapply Forall2_impl; [exact HF|]. naive_solver.
    + rewrite (map_map2_r f (axisSize dir)).
      2:{ eapply Forall2_impl; [exact HF|]. naive_solver. }
      rewrite lenZ_map2; [done|]. by eapply Forall2_length.
  - apply map_map2_l. eapply Forall2_impl; [exact HF|]. naive_solver.
Qed.

Lemma Forall2_mins axis ch sizes :
  Forall2 Z.le (map (minSubtreeSize axis) ch) sizes ->
  Forall2 (fun c s => minSubtreeSize axis c <= s) ch sizes.
Proof. apply Forall2_fmap_l. Qed.

Lemma minSubtreeSize_cross axis r ch c :
  ch <> [] -> c ∈ ch -> minSubtreeSize axis c <= minSubtreeSize axis (Node r (other axis) ch).
Proof.
  intros Hne Hc. rewrite minSubtreeSize_node by done. rewrite decide_False by (by destruct axis).
  pose proof (maxFold_ub (map (minSubtreeSize axis) ch)) as Hub.
  rewrite Forall_map_iff, Forall_forall in Hub. auto.
Qed.

Lemma minSubtreeSize_along axis r ch :
  ch <> [] ->
  minSubtreeSize axis (Node r axis ch) = lenZ ch - 1 + sumZ (map (minSubtreeSize axis) ch).
Proof. intros Hne. rewrite minSubtreeSize_node by done. by rewrite decide_True. Qed.

Definition resizedTo (c c' : LayoutCell) (w h : Z) : Prop :=
  wf c' /\ positioned c' /\ skeleton c' = skeleton c /\
  cX c' = cX c /\ cY c' = cY c /\
  cW c' = Z.max w (minSubtreeSize SplitVertical c) /\
  cH c' = Z.max h (minSubtreeSize SplitHorizontal c).

Lemma ResizeSubtree_spec c w h : shaped c -> resizedTo c (ResizeSubtree c w h) w h.
Proof.
  revert w h. induction c as [r d|r dir ch IH] using LayoutCell_tree_ind; intros w h;
    inversion_clear 1 as [|? ? ? Hlen HF].
  { cbn. rewrite !max_atLeast. unfold resizedTo, cW, cH, PaneMinSize; simpl.
    split_and!; try done; try (apply Z.max_comm). constructor; simpl; unfold PaneMinSize; lia. }
  assert (Forall (fun c => shaped c /\ forall w h, resizedTo c (ResizeSubtree c w h) w h) ch) as IH'.
  { rewrite Forall_forall in *. auto. }
  pose proof (two_ne _ Hlen) as Hne.
  destruct ch as [|c0 ch0]; [done|]. cbn [ResizeSubtree]. set (ch := c0 :: ch0) in *.
  clearbody ch. clear c0 ch0.
  set (W := atLeast (minSubtreeSize SplitVertical (Node r dir ch)) w).
  set (Hh := atLeast (minSubtreeSize SplitHorizontal (Node r dir ch)) h).
  assert (W = Z.max w (minSubtreeSize SplitVertical (Node r dir ch))) as HW.
  { unfold W. rewrite max_atLeast. lia. }
  assert (Hh = Z.max h (minSubtreeSize SplitHorizontal (Node r dir ch))) as HH.
  { unfold Hh. rewrite max_atLeast. lia. }
  clearbody W Hh. destruct dir.
  - destruct (proportionalSubtree_spec ch SplitVertical (W - (lenZ ch - 1)) Hne HF) as (Hl & Hle & Hs).
    set (ws := proportionalSubtreeChildSizes ch SplitVertical (W - (lenZ ch - 1))) in *.
    rewrite minSubtreeSize_along in HW by done.
    destruct (resized_split (setWH W Hh r) SplitVertical ch
                (fun child w => ResizeSubtree child w Hh) ws) as [Hwf Hsk]; auto.
    { eapply (Forall_Forall2_and _ _ _ ch ws);
        [apply Forall_and; split; [exact IH'|apply (Forall_forall (fun c => c ∈ ch) ch); auto]|
         apply Forall2_mins; exact Hle|].
      intros c s [[Hsh Hc] Hin] Hmin. destruct (Hc s Hh) as (? & ? & ? & ? & ? & HcW & HcH).
      pose proof (minSubtreeSize_cross SplitHorizontal r ch c Hne Hin) as Hcr. simpl in *.
      unfold axisSize; cbn. fold (cW (ResizeSubtree c s Hh)) (cH (ResizeSubtree c s Hh)).
      split_and!; auto; lia. }
    { simpl. lia. }
    unfold resizedTo. autorewrite with place. split_and!; auto with amux.
    + simpl. by rewrite Hsk.
    + unfold FixOffsets. autorewrite with place. rewrite minSubtreeSize_along by done. done.
  - destruct (proportionalSubtree_spec ch SplitHorizontal (Hh - (lenZ ch - 1)) Hne HF) as (Hl & Hle & Hs).
    set (hs := proportionalSubtreeChildSizes ch SplitHorizontal (Hh - (lenZ ch - 1))) in *.
    rewrite minSubtreeSize_along in HH by done.
    destruct (resized_split (setWH W Hh r) SplitHorizontal ch
                (fun child h => ResizeSubtree child W h) hs) as [Hwf Hsk]; auto.
    { eapply (Forall_Forall2_and _ _ _ ch hs);
        [apply Forall_and; split; [exact IH'|apply (Forall_forall (fun c => c ∈ ch) ch); auto]|
         apply Forall2_mins; exact Hle|].
      intros c s [[Hsh Hc] Hin] Hmin. destruct (Hc W s) as (? & ? & ? & ? & ? & HcW & HcH).
      pose proof (minSubtreeSize_cross SplitVertical r ch c Hne Hin) as Hcr. simpl in *.
      unfold axisSize; cbn. fold (cW (ResizeSubtree c W s)) (cH (ResizeSubtree c W s)).
      split_and!; auto; lia. }
    { simpl. lia. }
    unfold resizedTo. autorewrite with place. split_and!; auto with amux.
    + simpl. by rewrite Hsk.
    + unfold FixOffsets. autorewrite with place. rewrite minSubtreeSize_along by done. done.
Qed.

(** ** Resizing along one axis *)

Lemma other_other axis : other (other axis) = axis.
Proof. by destruct axis. Qed.
Lemma other_ne axis : other axis <> axis.
Proof. by destruct axis. Qed.
Lemma dir_cases (dir axis : SplitDir) : dir = axis \/ dir = other axis.
Proof. destruct dir, axis; auto. Qed.

Lemma wf_min_le axis c : wf c -> minSubtreeSize axis c <= axisSize axis c.
Proof.
  induction c as [r d|r dir ch IH] using LayoutCell_tree_ind; intros Hwf.
  { inversion_clear Hwf. simpl. destruct axis; simpl; done. }
  inversion_clear Hwf as [|? ? ? Hne%two_ne HF Hcross Hsum].
  destruct (dir_cases dir axis) as [->| ->].
  - rewrite minSubtreeSize_along by done.
    change (axisSize axis (Node r axis ch)) with (rAxis axis r). rewrite <- Hsum.
    enough (sumZ (map (minSubtreeSize axis) ch) <= sumZ (map (axisSize axis) ch)) by lia.
    clear Hne Hcross Hsum. induction ch as [|c ch IHl]; simpl; lsum.
    inversion_clear IH; inversion_clear HF. specialize (IHl ltac:(done) ltac:(done)).
    specialize (H ltac:(done)). lia.
  - rewrite minSubtreeSize_node, decide_False by (done || apply other_ne).
    assert (maxFold (map (minSubtreeSize axis) ch) ∈ map (minSubtreeSize axis) ch) as Hin.
    { apply maxFold_in; [by destruct ch|].
      eapply Forall_impl; [apply mins_ge|]; [|unfold PaneMinSize; intros x Hx; simpl in Hx; lia].
      eapply Forall_impl; [exact HF|]. apply wf_shaped. }
    apply list_elem_of_fmap in Hin as (c & Heq & Hc). rewrite Heq.
    rewrite Forall_forall in *. specialize (IH c Hc (HF c Hc)). specialize (Hcross c Hc).
    rewrite other_other in Hcross.
    change (axisSize axis (Node r (other axis) ch)) with (rAxis axis r). lia.
Qed.

(** The shrink margin is exactly the room above the minimum size. *)
Lemma resizeCheck_wf axis c : wf c -> resizeCheck axis c = axisSize axis c - minSubtreeSize axis c.
Proof.
  induction c as [r d|r dir ch IH] using LayoutCell_tree_ind; intros Hwf.
  { pose proof (wf_min_le axis _ Hwf). simpl in *. unfold axisSize in *; simpl in *. zb; lia. }
  inversion_clear Hwf as [|? ? ? Hne%two_ne HF Hcross Hsum].
  assert (map (resizeCheck axis) ch = map (fun c => axisSize axis c - minSubtreeSize axis c) ch) as Hm.
  { apply Forall_map_eq. rewrite Forall_forall in *. auto. }
  destruct (dir_cases dir axis) as [->| ->].
  - rewrite minSubtreeSize_along by done. cbn [resizeCheck]. rewrite decide_True, Hm by done.
    change (axisSize axis (Node r axis ch)) with (rAxis axis r). rewrite <- Hsum. clear. induction ch as [|c ch IHl]; simpl; lsum.
  - rewrite minSubtreeSize_node, decide_False by (done || apply other_ne). cbn [resizeCheck].
    rewrite decide_False, Hm by apply other_ne.
    change (axisSize axis (Node r (other axis) ch)) with (rAxis axis r).
    rewrite other_other in Hcross.
    set (S := rAxis axis r) in *.
    assert (map (fun c => axisSize axis c - minSubtreeSize axis c) ch
            = map (fun m => S - m) (map (minSubtreeSize axis) ch)) as ->.
    { rewrite map_map. apply Forall_map_eq. eapply Forall_impl; [exact Hcross|]. intros c; simpl. lia. }
    assert (Forall (fun m => 0 <= m <= S) (map (minSubtreeSize axis) ch)) as Hb.
    { rewrite Forall_map_iff, Forall_forall. rewrite Forall_forall in *. intros c Hc.
      pose proof (wf_min_le axis c (HF c Hc)). rewrite (Hcross c Hc) in *.
      pose proof (minSubtreeSize_ge axis c (wf_shaped _ (HF c Hc))). unfold PaneMinSize in *. lia. }
    set (ms := map (minSubtreeSize axis) ch) in *.
    assert (ms <> []) as Hne' by (by destruct ch).
    destruct (minFold_spec (map (fun m => S - m) ms)) as (Hpos & Hlb & Hin).
    { by destruct ms. }
    { rewrite Forall_map_iff. eapply Forall_impl; [exact Hb|]. simpl. lia. }
    pose proof (maxFold_ub ms) as Hub.
    assert (maxFold ms ∈ ms) as HinM.
    { apply maxFold_in; [done|]. eapply Forall_impl; [exact Hb|]. simpl. lia. }
    apply list_elem_of_fmap in Hin as (m & Heq & Hm0).
    rewrite Forall_map_iff, Forall_forall in Hlb. rewrite Forall_forall in Hub.
    specialize (Hlb _ HinM). specialize (Hub _ Hm0). simpl in *. zb; lia.
Qed.

(** [c'] is a well-formed version of [c] that differs only along [axis]. *)
Definition keeps (axis : SplitDir) (c c' : LayoutCell) : Prop :=
  wf c' /\ axisSize (other axis) c' = axisSize (other axis) c /\ skeleton c' = skeleton c /\
  cX c' = cX c /\ cY c' = cY c.

Definition resizedAlong (axis : SplitDir) (c c' : LayoutCell) (target : Z) : Prop :=
  keeps axis c c' /\ axisSize axis c' = target.

Lemma rAxis_set axis size r : rAxis axis (setRAxis axis size r) = size.
Proof. by destruct axis. Qed.
Lemma rAxis_set_other axis size r : rAxis (other axis) (setRAxis axis size r) = rAxis (other axis) r.
Proof. by destruct axis. Qed.
Lemma rAxis_set_other' axis size r : rAxis axis (setRAxis (other axis) size r) = rAxis axis r.
Proof. by destruct axis. Qed.
Create Rewrite HintDb axis.
#[export] Hint Rewrite rAxis_set rAxis_set_other rAxis_set_other' other_other : axis.

Lemma keeps_refl axis c : wf c -> keeps axis c c.
Proof. unfold keeps. auto. Qed.

(** A node whose children were changed along its own axis. *)
Lemma keeps_along axis r ch ch' target :
  wf (Node r axis ch) -> Forall2 (keeps axis) ch ch' ->
  sumZ (map (axisSize axis) ch') + (lenZ ch - 1) = target ->
  resizedAlong axis (Node r axis ch) (Node (setRAxis axis target r) axis ch') target.
Proof.
  intros Hwf HF Hsum. inversion_clear Hwf as [|? ? ? Hlen _ Hcross _].
  assert (Forall wf ch' /\ Forall (fun c => axisSize (other axis) c = rAxis (other axis) r) ch'
    /\ map skeleton ch' = map skeleton ch /\ length ch' = length ch) as (? & ? & Hsk & Hl).
  { clear Hlen Hsum. induction HF as [|c c' l l' (? & E & Hs & _) HF IH]; [by repeat constructor|].
    inversion_clear Hcross as [|? ? Hc Hcl]. destruct (IH Hcl) as (? & ? & ? & ?).
    split_and!; try constructor; auto; simpl; congruence. }
  unfold resizedAlong, keeps, axisSize. simpl. autorewrite with axis.
  split_and!; try done; try (by destruct axis); [|by rewrite Hsk].
  constructor; auto.
  - congruence.
  - by autorewrite with axis.
  - unfold lenZ in *. autorewrite with axis. rewrite Hl. done.
Qed.

(** A node whose children were all set to one size across its split. *)
Lemma keeps_across axis r ch f target :
  wf (Node r (other axis) ch) -> Forall (fun c => resizedAlong axis c (f c) target) ch ->
  resizedAlong axis (Node r (other axis) ch) (Node (setRAxis axis target r) (other axis) (map f ch)) target.
Proof.
  intros Hwf HF. inversion_clear Hwf as [|? ? ? Hne _ _ Hsum].
  assert (map (axisSize (other axis)) (map f ch) = map (axisSize (other axis)) ch) as Hax.
  { rewrite map_map. apply Forall_map_eq. eapply Forall_impl; [exact HF|].
    intros c [(_ & E & _) _]. done. }
  assert (map skeleton (map f ch) = map skeleton ch) as Hsk.
  { rewrite map_map. apply Forall_map_eq. eapply Forall_impl; [exact HF|].
    intros c [(_ & _ & E & _) _]. done. }
  unfold resizedAlong, keeps, axisSize. simpl. autorewrite with axis.
  split_and!; try done; try (by destruct axis); [|by rewrite Hsk].
  constructor.
  - by rewrite length_map.
  - rewrite Forall_map_iff. eapply Forall_impl; [exact HF|]. intros c [(? & _) _]. done.
  - rewrite Forall_map_iff. eapply Forall_impl; [exact HF|]. intros c [_ E]. simpl.
    autorewrite with axis. done.
  - rewrite Hax, lenZ_map. autorewrite with axis. done.
Qed.

Lemma resizeAxis_spec axis c target :
  wf c -> minSubtreeSize axis c <= target -> resizedAlong axis c (resizeAxis axis c target) target.
Proof.
  revert target. induction c as [r d|r dir ch IH] using LayoutCell_tree_ind; intros target Hwf Hmin.
  { inversion_clear Hwf. simpl in *. unfold resizedAlong, keeps, axisSize. simpl.
    autorewrite with axis. split_and!; try done; try (by destruct axis).
    constructor; destruct axis; simpl; done. }
  pose proof Hwf as Hwf'. inversion_clear Hwf' as [|? ? ? Hne%two_ne HF _ _].
  assert (Forall shaped ch) as Hsh by (eapply Forall_impl; [exact HF|]; apply wf_shaped).
  cbn [resizeAxis]. destruct (dir_cases dir axis) as [->| ->].
  - rewrite decide_True by done. rewrite minSubtreeSize_along in Hmin by done.
    destruct (proportionalSubtree_spec ch axis (target - (lenZ ch - 1)) Hne Hsh) as (Hl & Hle & Hs).
    set (sizes := proportionalSubtreeChildSizes ch axis (target - (lenZ ch - 1))) in *.
    assert (Forall2 (fun c s => resizedAlong axis c (resizeAxis axis c s) s) ch sizes) as HR.
    { eapply (Forall_Forall2_and _ _ _ ch sizes);
        [apply Forall_and; split; [exact IH|exact HF]|apply Forall2_mins; exact Hle|].
      intros c s [Hc Hw] Hm. simpl in *. auto. }
    apply keeps_along; [done| |].
    + clear -HR. induction HR as [|c s l l' [? _] HR IH]; simpl; constructor; auto.
    + rewrite map_map2_r; [lia|]. eapply Forall2_impl; [exact HR|]. intros c s [_ E]. done.
  - rewrite decide_False by apply other_ne. apply keeps_across; [done|].
    rewrite Forall_forall in *. intros c Hc. apply IH; auto.
    pose proof (minSubtreeSize_cross axis r ch c Hne Hc). lia.
Qed.

Lemma clampTarget_wf axis c target :
  wf c -> clampTarget axis c target = Z.max target (minSubtreeSize axis c) \/
          (clampTarget axis c target = target /\ minSubtreeSize axis c <= target).
Proof.
  intros Hwf. unfold clampTarget. rewrite resizeCheck_wf by done.
  pose proof (wf_min_le axis c Hwf). zb; lia.
Qed.

Lemma clampTarget_max axis c target :
  wf c -> clampTarget axis c target = Z.max target (minSubtreeSize axis c).
Proof. intros Hwf. destruct (clampTarget_wf axis c target Hwf); lia. Qed.

Lemma resizeToAxis_spec axis target c :
  wf c -> resizedAlong axis c (resizeToAxis axis target c) (Z.max target (minSubtreeSize axis c)).
Proof.
  intros Hwf. unfold resizeToAxis. pose proof (wf_min_le axis c Hwf).
  destruct (Z.eqb_spec target (axisSize axis c)) as [->|].
  - split; [by apply keeps_refl|]. lia.
  - rewrite clampTarget_max by done. apply resizeAxis_spec; [done|lia].
Qed.

(** ResizeAll fits the tree to the new terminal size, or to its minimum size
    where the terminal is too small. *)
Lemma ResizeAll_resizedTo w h c : wf c -> resizedTo c (ResizeAll w h c) w h.
Proof.
  intros Hwf. unfold ResizeAll.
  destruct (resizeToAxis_spec SplitVertical w c Hwf) as [(Hw1 & Ho1 & Hs1 & HX1 & HY1) HA1].
  destruct (resizeToAxis_spec SplitHorizontal h _ Hw1) as [(Hw2 & Ho2 & Hs2 & HX2 & HY2) HA2].
  set (c2 := resizeToAxis SplitHorizontal h _) in *.
  rewrite (same_skeleton_min _ _ _ Hs1) in HA2 by auto with amux.
  unfold resizedTo. split_and!; auto with amux.
  - rewrite FixOffsets_skeleton. congruence.
  - unfold FixOffsets. rewrite placeAt_cX. congruence.
  - unfold FixOffsets. rewrite placeAt_cY. congruence.
  - unfold FixOffsets. rewrite placeAt_cW. simpl in Ho2. unfold axisSize in *. simpl in *.
    unfold cW. congruence.
  - unfold FixOffsets. rewrite placeAt_cH. done.
Qed.

(** ** Moving one outer edge *)

Lemma resizeCheck_nonneg axis c : wf c -> 0 <= resizeCheck axis c.
Proof. intros Hwf. rewrite resizeCheck_wf by done. pose proof (wf_min_le axis c Hwf). lia. Qed.

Lemma Forall2_keeps_refl axis l : Forall wf l -> Forall2 (keeps axis) l l.
Proof. induction 1; constructor; auto using keeps_refl. Qed.

Section ShrinkLoops.
Context (axis : SplitDir) (resizeTo : LayoutCell -> Z -> LayoutCell).

Definition shrinkable (c : LayoutCell) : Prop :=
  wf c /\ forall s, 0 < s <= resizeCheck axis c ->
    resizedAlong axis c (resizeTo c s) (axisSize axis c - s).

Lemma shrinkChild_spec c remaining :
  shrinkable c -> 0 <= remaining ->
  let '(c', rest) := shrinkChild (resizeCheck axis) resizeTo c remaining in
  keeps axis c c' /\ axisSize axis c' + remaining = axisSize axis c + rest /\
  rest = Z.max 0 (remaining - resizeCheck axis c).
Proof.
  intros [Hwf Hs] Hr. unfold shrinkChild. pose proof (resizeCheck_nonneg axis c Hwf).
  zb; try (destruct (Hs _ ltac:(split; [|reflexivity]; lia)) as [? ?]);
    try (destruct (Hs remaining ltac:(lia)) as [? ?]); split_and!; auto using keeps_refl; lia.
Qed.

Definition shrunk (l : list LayoutCell) (remaining : Z) (out : list LayoutCell * Z) : Prop :=
  Forall2 (keeps axis) l out.1 /\
  sumZ (map (axisSize axis) out.1) + remaining = sumZ (map (axisSize axis) l) + out.2 /\
  out.2 = Z.max 0 (remaining - sumZ (map (resizeCheck axis) l)).

Lemma sum_resizeCheck_nonneg l : Forall shrinkable l -> 0 <= sumZ (map (resizeCheck axis) l).
Proof.
  induction 1 as [|c l [Hwf _] HF IH]; simpl; lsum.
  pose proof (resizeCheck_nonneg axis c Hwf). lia.
Qed.

Lemma shrinkFromStart_spec l remaining :
  Forall shrinkable l -> 0 <= remaining ->
  shrunk l remaining (shrinkFromStart (resizeCheck axis) resizeTo l remaining).
Proof.
  intros HF. revert remaining. induction HF as [|c l Hc HF IH]; intros remaining Hr; simpl.
  { unfold shrunk; simpl. split_and!; [constructor|lia|lsum]. }
  pose proof (shrinkChild_spec c remaining Hc Hr) as HC.
  destruct (shrinkChild _ _ c remaining) as [c' rest]. destruct HC as (Hk & Hsz & Hrest).
  specialize (IH rest ltac:(lia)).
  destruct (shrinkFromStart _ _ l rest) as [l' rest']. destruct IH as (HK & HS & HR).
  unfold shrunk in *; simpl in *. pose proof (sum_resizeCheck_nonneg _ HF).
  pose proof (resizeCheck_nonneg axis c (proj1 Hc)). split_and!; [by constructor| |]; lsum.
Qed.

Lemma shrinkFromEnd_spec l remaining :
  Forall shrinkable l -> 0 <= remaining ->
  shrunk l remaining (shrinkFromEnd (resizeCheck axis) resizeTo l remaining).
Proof.
  intros HF. revert remaining. induction HF as [|c l Hc HF IH]; intros remaining Hr; simpl.
  { unfold shrunk; simpl. split_and!; [constructor|lia|lsum]. }
  specialize (IH remaining Hr).
  destruct (shrinkFromEnd _ _ l remaining) as [l' rest]. destruct IH as (HK & HS & HR).
  simpl in *. pose proof (shrinkChild_spec c rest Hc ltac:(lia)) as HC.
  destruct (shrinkChild _ _ c rest) as [c' rest']. destruct HC as (Hk & Hsz & Hrest).
  unfold shrunk in *; simpl in *. pose proof (sum_resizeCheck_nonneg _ HF).
  pose proof (resizeCheck_nonneg axis c (proj1 Hc)). split_and!; [by constructor| |]; lsum.
Qed.
End ShrinkLoops.

Lemma updNth_keeps axis f l i delta :
  Forall wf l -> (i < length l)%nat ->
  (forall c, c ∈ l -> resizedAlong axis c (f c) (axisSize axis c + delta)) ->
  Forall2 (keeps axis) l (updNth f i l) /\
  sumZ (map (axisSize axis) (updNth f i l)) = sumZ (map (axisSize axis) l) + delta.
Proof.
  intros HF. revert i. induction HF as [|c l Hc HF IH]; intros i Hi Hf; [simpl in Hi; lia|].
  destruct i as [|i]; simpl.
  - destruct (Hf c ltac:(set_solver)) as [Hk E]. split.
    + constructor; [done|]. by apply Forall2_keeps_refl.
    + rewrite !sumZ_cons, E. lia.
  - destruct (IH i) as [HK HS]; [simpl in Hi; lia|set_solver|]. split.
    + constructor; auto using keeps_refl.
    + rewrite !sumZ_cons, HS. lia.
Qed.

Lemma shrinkable_children axis edge r ch :
  Forall (fun c => forall target, wf c -> minSubtreeSize axis c <= target ->
    resizedAlong axis c (resizeAxisFromEdge axis edge c target) target) ch ->
  wf (Node r axis ch) ->
  Forall (shrinkable axis (fun child shrink =>
    resizeAxisFromEdge axis edge child (axisSize axis child - shrink))) ch.
Proof.
  intros IH Hwf. inversion_clear Hwf as [|? ? ? _ HF _ _]. rewrite Forall_forall in *.
  intros c Hc. split; [auto|]. intros s Hs. rewrite resizeCheck_wf in Hs by auto.
  apply IH; auto. lia.
Qed.

Lemma resizeAxisFromEdge_unfold axis edge r dir ch target :
  ch <> [] -> target <> rAxis axis r ->
  resizeAxisFromEdge axis edge (Node r dir ch) target =
  let delta := target - rAxis axis r in
  let r' := setRAxis axis target r in
  if decide (dir = axis) then
    if 0 <? delta then
      Node r' dir (updNth (fun child =>
        resizeAxisFromEdge axis edge child (axisSize axis child + delta))
        (match edge with resizeFromStart => 0%nat | resizeFromEnd => (length ch - 1)%nat end) ch)
    else
      let loop := match edge with
        | resizeFromStart => shrinkFromStart | resizeFromEnd => shrinkFromEnd end in
      Node r' dir (fst (loop (resizeCheck axis) (fun child shrink =>
        resizeAxisFromEdge axis edge child (axisSize axis child - shrink)) ch (- delta)))
  else Node r' dir (map (fun child => resizeAxisFromEdge axis edge child target) ch).
Proof.
  intros Hne Ht. destruct ch as [|c ch]; [done|]. cbn [resizeAxisFromEdge].
  unfold axisSize at 1. cbn [cellRect]. rewrite (proj2 (Z.eqb_neq _ _)) by done.
  destruct (decide (dir = axis)); [|done]. destruct (0 <? _); [done|]. by destruct edge.
Qed.

Lemma resizeAxisFromEdge_spec axis edge c target :
  wf c -> minSubtreeSize axis c <= target ->
  resizedAlong axis c (resizeAxisFromEdge axis edge c target) target.
Proof.
  revert target. induction c as [r d|r dir ch IH] using LayoutCell_tree_ind; intros target Hwf Hmin.
  { cbn [resizeAxisFromEdge]. destruct (Z.eqb_spec target (axisSize axis (Leaf r d))) as [->|Hne].
    { split; [by apply keeps_refl|done]. }
    simpl in Hmin. rewrite max_atLeast, Z.max_r by done. inversion_clear Hwf.
    unfold resizedAlong, keeps, axisSize. simpl.
    autorewrite with axis. split_and!; try done; try (by destruct axis).
    constructor; destruct axis; simpl; done. }
  destruct (decide (target = rAxis axis r)) as [->|Ht].
  { replace (resizeAxisFromEdge axis edge (Node r dir ch) (rAxis axis r)) with (Node r dir ch).
    - split; [by apply keeps_refl|done].
    - cbn [resizeAxisFromEdge]. unfold axisSize. cbn [cellRect]. by rewrite Z.eqb_refl. }
  pose proof Hwf as Hwf'. inversion_clear Hwf' as [|? ? ? Hne%two_ne HF _ Hsum].
  rewrite resizeAxisFromEdge_unfold by done. cbn zeta.
  destruct (dir_cases dir axis) as [->| ->].
  - rewrite decide_True by done. destruct (Z.ltb_spec 0 (target - rAxis axis r)).
    + set (idx := match edge with resizeFromStart => _ | resizeFromEnd => _ end).
      destruct (updNth_keeps axis (fun child => resizeAxisFromEdge axis edge child
                  (axisSize axis child + (target - rAxis axis r))) ch idx (target - rAxis axis r))
        as [HK HS]; auto.
      { unfold idx. destruct ch, edge; simpl in *; try done; lia. }
      { intros c Hc. rewrite Forall_forall in *. apply IH; auto.
        pose proof (wf_min_le axis c (HF c Hc)). lia. }
      apply keeps_along; [done|done|]. rewrite HS. lia.
    + pose proof (shrinkable_children axis edge r ch IH Hwf) as Hsh.
      pose proof (resizeCheck_wf axis _ Hwf) as HC. cbn [resizeCheck] in HC.
      rewrite decide_True in HC by done.
      change (axisSize axis (Node r axis ch)) with (rAxis axis r) in HC.
      destruct edge;
        [destruct (shrinkFromStart_spec axis _ ch (- (target - rAxis axis r)) Hsh ltac:(lia)) as (HK & HS & HR)
        |destruct (shrinkFromEnd_spec axis _ ch (- (target - rAxis axis r)) Hsh ltac:(lia)) as (HK & HS & HR)];
        (apply keeps_along; [done|done|]); lia.
  - rewrite decide_False by apply other_ne. apply keeps_across; [done|].
    rewrite Forall_forall in *. intros c Hc. apply IH; auto.
    pose proof (minSubtreeSize_cross axis r ch c Hne Hc). lia.
Qed.

Lemma resizeToAxisFromEdge_spec axis target edge c :
  wf c ->
  resizedAlong axis c (resizeToAxisFromEdge axis target edge c) (Z.max target (minSubtreeSize axis c)).
Proof.
  intros Hwf. unfold resizeToAxisFromEdge. pose proof (wf_min_le axis c Hwf).
  destruct (Z.eqb_spec target (axisSize axis c)) as [->|].
  - split; [by apply keeps_refl|]. lia.
  - rewrite clampTarget_max by done. apply resizeAxisFromEdge_spec; [done|lia].
Qed.
