(* ===== verification/LayoutEdit.v ===== *)
(** * The layout tree: splitting, closing and equalizing

    The operations that change the shape of the tree keep it well-formed and
    change its panes by exactly the pane that is added or removed. *)

From S2P Require Import Prelude LayoutSizes LayoutTree LayoutFacts.

(** ** Subtrees and replacement *)

Lemma wf_Children c : wf c -> Forall wf (Children c).
Proof. inversion_clear 1; simpl; auto. Qed.

Lemma Forall_lookup_1' {A} (P : A -> Prop) l i x : Forall P l -> l !! i = Some x -> P x.
Proof. apply Forall_lookup_1. Qed.

Lemma wf_cellAt p root c : wf root -> cellAt p root = Some c -> wf c.
Proof.
  revert root. induction p as [|i p IH]; intros root Hwf; simpl; [by intros [= ->]|].
  destruct (Children root !! i) as [child|] eqn:E; [|done].
  apply IH. eapply Forall_lookup_1; [by apply wf_Children|done].
Qed.

Lemma cellAt_app p q root : cellAt (p ++ q) root = cellAt p root ≫= cellAt q.
Proof.
  revert root. induction p as [|i p IH]; intros root; simpl; [done|].
  destruct (Children root !! i); simpl; auto.
Qed.

Lemma lookup_updNth {A} (f : A -> A) i j l :
  updNth f i l !! j = if decide (i = j) then f <$> l !! j else l !! j.
Proof.
  revert i j. induction l as [|x l IH]; intros [|i] [|j]; simpl; try done;
    try (by case_decide).
  rewrite IH. repeat case_decide; try done; lia.
Qed.

Lemma updNth_alter {A} (f : A -> A) i l : updNth f i l = alter f i l.
Proof.
  revert i. induction l as [|x l IH]; intros [|i]; simpl; try done; by rewrite ?IH.
Qed.

Lemma length_updNth {A} (f : A -> A) i l : length (updNth f i l) = length l.
Proof. by rewrite updNth_alter, length_alter. Qed.

Lemma Children_withChildren c ch : IsLeaf c = false -> Children (withChildren ch c) = ch.
Proof. by destruct c. Qed.

Lemma cellAt_updAt f p root c :
  cellAt p root = Some c -> cellAt p (updAt f p root) = Some (f c).
Proof.
  revert root. induction p as [|i p IH]; intros root; simpl; [by intros [= ->]|].
  destruct (Children root !! i) as [child|] eqn:E; [|done]. intros Hc.
  destruct root as [r d|r dir ch]; [done|]. simpl in *.
  rewrite lookup_updNth, decide_True, E by done. simpl. auto.
Qed.

(** Same outer size. *)
Definition sameSize (c c' : LayoutCell) : Prop := cW c' = cW c /\ cH c' = cH c.

Lemma sameSize_axis axis c c' : sameSize c c' -> axisSize axis c' = axisSize axis c.
Proof. intros [? ?]. by destruct axis. Qed.

(** Replacing a subtree by a well-formed one of the same size. *)
Lemma wf_updAt f p root c :
  wf root -> cellAt p root = Some c -> wf (f c) -> sameSize c (f c) ->
  wf (updAt f p root) /\ sameSize root (updAt f p root).
Proof.
  intros Hwf. revert root Hwf. induction p as [|i p IH]; intros root Hwf; simpl; [by intros [= ->]|].
  destruct (Children root !! i) as [child|] eqn:E; [|done]. intros Hc Hwf' Hsz.
  destruct root as [r d|r dir ch]; [done|]. simpl in *.
  inversion_clear Hwf as [|? ? ? Hne HF Hcross Hsum].
  pose proof (Forall_lookup_1 _ _ _ _ HF E) as Hchild.
  destruct (IH child Hchild Hc Hwf' Hsz) as [Hw Hs]. split; [|done].
  assert (forall axis, map (axisSize axis) (updNth (updAt f p) i ch) = map (axisSize axis) ch) as Hax.
  { intros axis. apply list_eq. intros j. rewrite !list_lookup_fmap, lookup_updNth.
    case_decide; [subst j|done]. rewrite E. simpl. by rewrite (sameSize_axis axis _ _ Hs). }
  constructor.
  - by rewrite length_updNth.
  - apply Forall_lookup. intros j c' Hj. rewrite lookup_updNth in Hj. case_decide; [subst j|].
    + rewrite E in Hj. by simplify_eq/=.
    + by eapply Forall_lookup_1.
  - rewrite <- (Forall_map (axisSize (other dir)) (fun s => s = rAxis (other dir) r)).
    rewrite Hax. by rewrite Forall_map.
  - rewrite Hax. unfold lenZ in *. by rewrite length_updNth.
Qed.

Lemma cellRect_updAt f p root c :
  cellAt p root = Some c -> cellRect (f c) = cellRect c -> cellRect (updAt f p root) = cellRect root.
Proof. destruct p as [|i p]; simpl; [by intros [= ->]|]. intros _ _. by destruct root. Qed.

(** ** Leaves and panes *)

Fixpoint leaves (c : LayoutCell) : list LeafData :=
  match c with
  | Leaf _ d => [d]
  | Node _ _ ch => concat (map leaves ch)
  end.

(** The pane pointers of the leaves in walk order, nil included, and the panes. *)
Definition cellPanes (c : LayoutCell) : list (option Z) := map Pane (leaves c).
Definition treePanes (c : LayoutCell) : list Z := omap Pane (leaves c).

Lemma treePanes_cellPanes c : treePanes c = omap id (cellPanes c).
Proof.
  unfold treePanes, cellPanes. induction (leaves c) as [|d l IH]; [done|].
  simpl map. change (omap Pane (d :: l)) with (match Pane d with Some y => y :: omap Pane l | None => omap Pane l end).
  rewrite IH. by destruct (Pane d).
Qed.

Lemma leaves_skeleton c : leaves (skeleton c) = leaves c.
Proof.
  induction c as [r d|r dir ch IH] using LayoutCell_tree_ind; simpl; [done|].
  f_equal. rewrite map_map. by apply Forall_map_eq.
Qed.

Lemma same_skeleton_leaves c c' : skeleton c' = skeleton c -> leaves c' = leaves c.
Proof. intros E. by rewrite <- (leaves_skeleton c'), E, leaves_skeleton. Qed.

Lemma same_skeleton_panes c c' : skeleton c' = skeleton c -> treePanes c' = treePanes c.
Proof. intros E. unfold treePanes. by rewrite (same_skeleton_leaves _ _ E). Qed.

Lemma same_skeleton_cellPanes c c' : skeleton c' = skeleton c -> cellPanes c' = cellPanes c.
Proof. intros E. unfold cellPanes. by rewrite (same_skeleton_leaves _ _ E). Qed.

Fixpoint walkFrom (i : nat) (l : list LayoutCell) : list (path * (Rect * LeafData)) :=
  match l with
  | [] => []
  | child :: rest => map (fun e => (i :: e.1, e.2)) (Walk child) ++ walkFrom (S i) rest
  end.

Lemma Walk_node r dir ch : Walk (Node r dir ch) = walkFrom 0 ch.
Proof. reflexivity. Qed.

Lemma Walk_leaves c : map (fun e => e.2.2) (Walk c) = leaves c.
Proof.
  induction c as [r d|r dir ch IH] using LayoutCell_tree_ind; [done|].
  rewrite Walk_node. cbn [leaves]. generalize 0%nat.
  induction IH as [|c ch Hc HF IH]; intros i; simpl; [done|].
  rewrite map_app, map_map, IH. simpl. by rewrite Hc.
Qed.

Lemma elem_of_walkFrom i l q e :
  Forall (fun c => forall p e, (p, e) ∈ Walk c <-> cellAt p c = Some (Leaf e.1 e.2)) l ->
  (q, e) ∈ walkFrom i l <->
  exists j p c, q = (i + j)%nat :: p /\ l !! j = Some c /\ cellAt p c = Some (Leaf e.1 e.2).
Proof.
  intros HF. revert i. induction HF as [|c l Hc HF IH]; intros i; simpl.
  { split; [by intros ?%elem_of_nil|]. intros (j & p & c & _ & H & _). done. }
  rewrite elem_of_app, IH, list_elem_of_fmap. split.
  - intros [([p e'] & [= -> ->] & Hin)|(j & p & c' & -> & Hj & Hp)].
    + exists 0%nat, p, c. rewrite Nat.add_0_r. simpl. split_and!; [done|done|]. by apply Hc.
    + exists (S j), p, c'. split_and!; [f_equal; lia|done|done].
  - intros ([|j] & p & c' & -> & Hj & Hp); simpl in Hj.
    + left. simplify_eq. exists (p, e). rewrite Nat.add_0_r. split; [done|]. by apply Hc.
    + right. exists j, p, c'. split_and!; [f_equal; lia|done|done].
Qed.

(** Walk visits exactly the leaves, each with its own pointer. *)
Lemma elem_of_Walk c p e : (p, e) ∈ Walk c <-> cellAt p c = Some (Leaf e.1 e.2).
Proof.
  revert p e. induction c as [r d|r dir ch IH] using LayoutCell_tree_ind; intros p e.
  - simpl. rewrite list_elem_of_singleton. destruct p as [|i p]; simpl; destruct e; naive_solver.
  - rewrite Walk_node, elem_of_walkFrom by done. destruct p as [|i p]; simpl.
    + split; [|done]. naive_solver.
    + split.
      * intros (j & p' & c & [= -> ->] & -> & Hp). done.
      * destruct (ch !! i) as [c|] eqn:E; [|done]. intros Hp. exists i, p, c. done.
Qed.

Lemma fold_findLast (test : LeafData -> bool) (l : list (path * (Rect * LeafData)))
    (acc : option path) :
  match fold_left (fun found e => if test e.2.2 then Some e.1 else found) l acc with
  | Some p => acc = Some p \/ exists e : Rect * LeafData, (p, e) ∈ l /\ test e.2 = true
  | None => acc = None /\ Forall (fun e => test e.2.2 = false) l
  end.
Proof.
  revert acc. induction l as [|[q e] l IH]; intros acc; simpl.
  { destruct acc; auto. }
  specialize (IH (if test e.2 then Some q else acc)).
  destruct (fold_left _ l _) as [p|].
  - destruct IH as [Hp|(e' & Hin & Ht)].
    + destruct (test e.2) eqn:E; [|by left]. simplify_eq. right. exists e. split; [set_solver|done].
    + right. exists e'. split; [set_solver|done].
  - destruct IH as [Hn HF]. destruct (test e.2) eqn:E; [done|]. split; [done|]. by constructor.
Qed.

Lemma findLast_Some test c p :
  findLast test c = Some p -> exists r d, cellAt p c = Some (Leaf r d) /\ test d = true.
Proof.
  intros Hf. pose proof (fold_findLast test (Walk c) None) as H.
  unfold findLast in Hf. rewrite Hf in H. destruct H as [|(e & Hin & Ht)]; [done|].
  apply elem_of_Walk in Hin. eauto.
Qed.

Lemma findLast_None test c : findLast test c = None <-> Forall (fun d => test d = false) (leaves c).
Proof.
  rewrite <- Walk_leaves, Forall_map.
  pose proof (fold_findLast test (Walk c) None) as H. unfold findLast.
  destruct (fold_left _ _ _) as [p|].
  - destruct H as [|(e & Hin & Ht)]; [done|]. split; [done|]. rewrite Forall_forall.
    intros HF. specialize (HF _ Hin). simpl in HF. congruence.
  - destruct H. naive_solver.
Qed.

Lemma elem_of_treePanes id c : id ∈ treePanes c <-> exists d, d ∈ leaves c /\ Pane d = Some id.
Proof. apply list_elem_of_omap. Qed.

Lemma FindPane_Some id c p :
  FindPane id c = Some p -> exists r d, cellAt p c = Some (Leaf r d) /\ Pane d = Some id.
Proof.
  intros (r & d & ? & Ht)%findLast_Some. exists r, d. split; [done|]. by apply bool_decide_eq_true in Ht.
Qed.

Lemma FindPane_None id c : FindPane id c = None <-> id ∉ treePanes c.
Proof.
  unfold FindPane. rewrite findLast_None, elem_of_treePanes, Forall_forall. split.
  - intros HF (d & Hd & Hp). specialize (HF d Hd). by apply bool_decide_eq_false in HF.
  - intros Hn d Hd. apply bool_decide_eq_false. naive_solver.
Qed.

Lemma FindPane_is_Some id c : id ∈ treePanes c -> exists p, FindPane id c = Some p.
Proof.
  intros Hin. destruct (FindPane id c) eqn:E; [eauto|]. by apply FindPane_None in E.
Qed.

Lemma cellAt_leaf_pane p c r d : cellAt p c = Some (Leaf r d) -> d ∈ leaves c.
Proof.
  intros H. apply (elem_of_Walk c p (r, d)) in H. rewrite <- Walk_leaves.
  apply list_elem_of_fmap. by exists (p, (r, d)).
Qed.

(** A replacement changes the leaves only where it happens. *)
Lemma leaves_updAt p root c :
  cellAt p root = Some c ->
  exists l1 l2, leaves root = l1 ++ leaves c ++ l2 /\
    forall f, leaves (updAt f p root) = l1 ++ leaves (f c) ++ l2.
Proof.
  revert root. induction p as [|i p IH]; intros root; simpl.
  { intros [= ->]. exists [], []. split; [|intros f]; by rewrite app_nil_r. }
  destruct (Children root !! i) as [child|] eqn:E; [|done]. intros Hc.
  destruct root as [r d|r dir ch]; [done|]. simpl in *.
  destruct (IH child Hc) as (l1 & l2 & E1 & E2).
  apply list_elem_of_split_length in E as (ch1 & ch2 & -> & ->).
  exists (concat (map leaves ch1) ++ l1), (l2 ++ concat (map leaves ch2)). split.
  - rewrite map_app, concat_app. simpl. rewrite E1, <- !app_assoc. done.
  - intros f. rewrite updNth_alter, alter_app_r_alt, Nat.sub_diag by lia. simpl.
    rewrite map_app, concat_app. simpl. rewrite E2, <- !app_assoc. done.
Qed.

(** ** Equal distribution *)

(** The children of a split fit into the rectangle [r] at their minimum sizes. *)
Definition fits (r : Rect) (dir : SplitDir) (ch : list LayoutCell) : Prop :=
  ch <> [] /\ Forall shaped ch /\
  sumZ (map (minSubtreeSize dir) ch) + (lenZ ch - 1) <= rAxis dir r /\
  Forall (fun c => minSubtreeSize (other dir) c <= rAxis (other dir) r) ch.

Lemma resizeChildTo_spec dir r c s :
  shaped c -> minSubtreeSize dir c <= s -> minSubtreeSize (other dir) c <= rAxis (other dir) r ->
  let c' := resizeChildTo dir r c s in
  wf c' /\ axisSize dir c' = s /\ axisSize (other dir) c' = rAxis (other dir) r /\
  skeleton c' = skeleton c.
Proof.
  intros Hs Hm Ho. destruct dir; simpl in *; unfold axisSize; simpl.
  - destruct (ResizeSubtree_spec c s (rH r) Hs) as (? & _ & ? & _ & _ & HW & HH).
    unfold cW, cH in *. split_and!; auto; lia.
  - destruct (ResizeSubtree_spec c (rW r) s Hs) as (? & _ & ? & _ & _ & HW & HH).
    unfold cW, cH in *. split_and!; auto; lia.
Qed.

Lemma fits_resized r dir ch sizes :
  fits r dir ch -> Forall2 Z.le (map (minSubtreeSize dir) ch) sizes ->
  Forall2 (fun c s => wf (resizeChildTo dir r c s) /\ axisSize dir (resizeChildTo dir r c s) = s /\
     axisSize (other dir) (resizeChildTo dir r c s) = rAxis (other dir) r /\
     skeleton (resizeChildTo dir r c s) = skeleton c) ch sizes.
Proof.
  intros (Hne & Hsh & _ & Hcross) Hle%Forall2_mins.
  eapply (Forall_Forall2_and _ _ _ ch sizes);
    [apply Forall_and; split; [exact Hsh|exact Hcross]|exact Hle|].
  intros c s [Hs Hc] Hm. simpl in *. by apply resizeChildTo_spec.
Qed.

(** Equalizing succeeds whenever the children fit at all, and the result fills
    the rectangle exactly. *)
Lemma equalizeChildren_fits r dir ch :
  fits r dir ch ->
  exists ch', equalizeChildren (Node r dir ch) = Node r dir ch' /\
    length ch' = length ch /\ map skeleton ch' = map skeleton ch /\ Forall wf ch' /\
    Forall (fun c => axisSize (other dir) c = rAxis (other dir) r) ch' /\
    sumZ (map (axisSize dir) ch') + (lenZ ch - 1) = rAxis dir r.
Proof.
  intros Hf. pose proof Hf as (Hne & Hsh & Hsum & Hcross).
  destruct (equalSubtree_spec ch dir (rAxis dir r) Hne ltac:(lia)) as (sizes & E & Hl & Hle & Hs).
  pose proof (fits_resized r dir ch sizes Hf Hle) as HR.
  exists (map2 (resizeChildTo dir r) ch sizes). simpl. rewrite E. split_and!; [done|..].
  - by rewrite length_map2.
  - apply map_map2_l. eapply Forall2_impl; [exact HR|]. naive_solver.
  - apply Forall_map2. eapply Forall2_impl; [exact HR|]. naive_solver.
  - apply Forall_map2. eapply Forall2_impl; [exact HR|]. naive_solver.
  - rewrite (map_map2_r _ (axisSize dir)); [done|].
    eapply Forall2_impl; [exact HR|]. naive_solver.
Qed.

Lemma equalizeChildren_wf r dir ch :
  (2 <= length ch)%nat -> fits r dir ch ->
  wf (equalizeChildren (Node r dir ch)) /\
  cellRect (equalizeChildren (Node r dir ch)) = r /\
  skeleton (equalizeChildren (Node r dir ch)) = skeleton (Node r dir ch).
Proof.
  intros Hl Hf. destruct (equalizeChildren_fits r dir ch Hf) as (ch' & -> & Hlen & Hsk & ? & ? & ?).
  simpl. rewrite Hsk. split_and!; try done. constructor; auto.
  - by rewrite Hlen.
  - unfold lenZ in *. by rewrite Hlen.
Qed.

Lemma wf_fits r dir ch : wf (Node r dir ch) -> fits r dir ch.
Proof.
  intros Hwf. pose proof (wf_min_le dir _ Hwf) as Hm.
  inversion_clear Hwf as [|? ? ? Hlen HF Hcross Hsum]. pose proof (two_ne _ Hlen) as Hne.
  rewrite minSubtreeSize_along in Hm by done.
  change (axisSize dir (Node r dir ch)) with (rAxis dir r) in Hm.
  unfold fits. split_and!; [done| |lia|].
  - eapply Forall_impl; [exact HF|]. apply wf_shaped.
  - rewrite Forall_forall in *. intros c Hc. rewrite <- (Hcross c Hc). apply wf_min_le. auto.
Qed.

Lemma distributeEqual_wf c :
  wf c -> wf (distributeEqual c) /\ sameSize c (distributeEqual c) /\
  skeleton (distributeEqual c) = skeleton c.
Proof.
  intros Hwf. destruct c as [r d|r dir ch]; [done|]. pose proof (wf_fits _ _ _ Hwf) as Hf.
  inversion Hwf; subst.
  destruct (equalizeChildren_wf r dir ch) as (? & Hr & ?); auto.
  unfold distributeEqual, rebalanceChildren, sameSize, cW, cH. by rewrite Hr.
Qed.

Lemma map_same_size_wf r dir ch f :
  wf (Node r dir ch) ->
  Forall (fun c => wf (f c) /\ sameSize c (f c) /\ skeleton (f c) = skeleton c) ch ->
  wf (Node r dir (map f ch)) /\ skeleton (Node r dir (map f ch)) = skeleton (Node r dir ch).
Proof.
  intros Hwf HF. inversion_clear Hwf as [|? ? ? Hlen _ Hcross Hsum].
  assert (forall axis, map (axisSize axis) (map f ch) = map (axisSize axis) ch) as Hax.
  { intros axis. rewrite map_map. apply Forall_map_eq. eapply Forall_impl; [exact HF|].
    intros c (_ & Hs & _). by apply sameSize_axis. }
  split; [constructor|].
  - by rewrite length_map.
  - rewrite Forall_map_iff. eapply Forall_impl; [exact HF|]. naive_solver.
  - rewrite <- (Forall_map (axisSize (other dir)) (fun s => s = rAxis (other dir) r)).
    rewrite Hax. by rewrite Forall_map.
  - by rewrite Hax, lenZ_map.
  - simpl. f_equal. rewrite map_map. apply Forall_map_eq. eapply Forall_impl; [exact HF|]. naive_solver.
Qed.

Lemma equalizeAxisRecursive_fuel_wf fuel axis c :
  wf c -> wf (equalizeAxisRecursive_fuel fuel axis c) /\
  sameSize c (equalizeAxisRecursive_fuel fuel axis c) /\
  skeleton (equalizeAxisRecursive_fuel fuel axis c) = skeleton c.
Proof.
  revert c. induction fuel as [|fuel IH]; intros c Hwf; simpl; [done|].
  set (c' := if decide _ then distributeEqual c else c).
  assert (wf c' /\ sameSize c c' /\ skeleton c' = skeleton c) as (Hwf' & Hs & Hsk).
  { unfold c'. case_decide; [by apply distributeEqual_wf|done]. }
  clearbody c'. destruct c' as [r d|r dir ch]; [done|]. simpl.
  assert (Forall (fun c => wf (equalizeAxisRecursive_fuel fuel axis c) /\
    sameSize c (equalizeAxisRecursive_fuel fuel axis c) /\
    skeleton (equalizeAxisRecursive_fuel fuel axis c) = skeleton c) ch) as HF.
  { eapply Forall_impl; [by apply (wf_Children (Node r dir ch))|]. auto. }
  destruct (map_same_size_wf r dir ch _ Hwf' HF) as [? Hsk']. split_and!; try done; try apply Hs.
  simpl in *. congruence.
Qed.

Lemma equalizeAxisRecursive_wf axis c :
  wf c -> wf (equalizeAxisRecursive axis c) /\ sameSize c (equalizeAxisRecursive axis c) /\
  skeleton (equalizeAxisRecursive axis c) = skeleton c.
Proof. apply equalizeAxisRecursive_fuel_wf. Qed.

(** The fuel is enough: with any larger amount the result is the same. *)
Lemma height_skeleton c : height (skeleton c) = height c.
Proof.
  induction c as [r d|r dir ch IH] using LayoutCell_tree_ind; simpl; [done|].
  do 2 f_equal. rewrite map_map. by apply Forall_map_eq.
Qed.

Lemma height_child c ch r dir : c ∈ ch -> (height c < height (Node r dir ch))%nat.
Proof.
  intros Hc. simpl. apply le_n_S. induction ch as [|c' ch IH]; [by apply elem_of_nil in Hc|].
  simpl. apply elem_of_cons in Hc as [->|Hc]; [lia|]. specialize (IH Hc). lia.
Qed.

Lemma equalizeAxisRecursive_fuel_enough fuel axis c :
  wf c -> (height c <= fuel)%nat ->
  equalizeAxisRecursive_fuel fuel axis c = equalizeAxisRecursive axis c.
Proof.
  unfold equalizeAxisRecursive. remember (height c) as h eqn:Hh. revert fuel c Hh.
  induction h as [h IH] using lt_wf_ind; intros fuel c Hh Hwf Hf.
  destruct fuel as [|fuel], h as [|h]; try lia; [done| |].
  - by destruct c.
  - simpl. set (c' := if decide _ then distributeEqual c else c).
    assert (wf c' /\ height c' = S h) as (Hwf' & Hh').
    { unfold c'. case_decide; [|done]. destruct (distributeEqual_wf c Hwf) as (? & _ & Hsk).
      split; [done|]. by rewrite <- height_skeleton, Hsk, height_skeleton. }
    clearbody c'. destruct c' as [r d|r dir ch]; [done|]. simpl Children. f_equal.
    apply map_ext_in. intros c0 Hc0%list_elem_of_In.
    pose proof (height_child c0 ch r dir Hc0).
    pose proof (wf_Children _ Hwf') as HF. simpl in HF. rewrite Forall_forall in HF.
    rewrite (IH (height c0)), (IH (height c0) ltac:(lia) h); auto; lia.
Qed.

(** ** Splitting *)

Lemma cellPanes_updAt p root c :
  cellAt p root = Some c ->
  exists l1 l2, cellPanes root = l1 ++ cellPanes c ++ l2 /\
    forall f, cellPanes (updAt f p root) = l1 ++ cellPanes (f c) ++ l2.
Proof.
  intros (l1 & l2 & E1 & E2)%leaves_updAt. exists (map Pane l1), (map Pane l2).
  unfold cellPanes. split; [|intros f; rewrite E2]; rewrite ?E1; by rewrite !map_app.
Qed.

Lemma cellPanes_node r dir ch : cellPanes (Node r dir ch) = concat (map cellPanes ch).
Proof.
  unfold cellPanes. simpl. induction ch as [|c ch IH]; simpl; [done|]. by rewrite map_app, IH.
Qed.

Lemma splitLeaf_wf r d dir newPane first :
  wf (Leaf r d) -> 2 * PaneMinSize + 1 <= rAxis dir r ->
  wf (splitLeaf r (Pane d) dir newPane first) /\
  cellRect (splitLeaf r (Pane d) dir newPane first) = r /\
  cellPanes (splitLeaf r (Pane d) dir newPane first) ≡ₚ Some newPane :: cellPanes (Leaf r d).
Proof.
  intros Hwf Ha. inversion_clear Hwf. unfold PaneMinSize in *.
  assert (0 <= rAxis dir r - 1) as Hp by lia.
  assert (2 <= Z.quot (rAxis dir r - 1) 2) as Hq2.
  { rewrite Z.quot_div_nonneg by lia. apply Z.div_le_lower_bound; lia. }
  assert (2 * Z.quot (rAxis dir r - 1) 2 <= rAxis dir r - 1) as Hq.
  { pose proof (Z.quot_rem' (rAxis dir r - 1) 2). pose proof (Z.rem_bound_pos (rAxis dir r - 1) 2). lia. }
  unfold splitLeaf. destruct dir; simpl in *; (split; [|split; [done|]]).
  1,3: constructor; simpl; [lia|repeat constructor; simpl; unfold PaneMinSize; lia|
         repeat constructor; done|unfold axisSize; simpl; lsum].
  all: destruct first; unfold cellPanes; simpl; destruct (Pane d); simpl; try done; apply Permutation_swap.
Qed.

Lemma insertAt_fits r dir ch idx i rl d newPane :
  wf (Node r dir ch) -> ch !! idx = Some (Leaf rl d) -> 2 * PaneMinSize + 1 <= rAxis dir rl ->
  fits r dir (insertAt i (NewLeaf (Some newPane) 0 0 0 0) ch).
Proof.
  intros Hwf Hidx Ha. pose proof (wf_fits _ _ _ Hwf) as (Hne & Hsh & _ & Hcr).
  inversion_clear Hwf as [|? ? ? Hlen HF Hcross Hsum].
  assert (sumZ (map (minSubtreeSize dir) ch) + 3 <= sumZ (map (axisSize dir) ch)) as Hroom.
  { apply list_elem_of_split_length in Hidx as (ch1 & ch2 & -> & _).
    rewrite Forall_app, Forall_cons in HF. destruct HF as (HF1 & _ & HF2).
    assert (forall l, Forall wf l ->
      sumZ (map (minSubtreeSize dir) l) <= sumZ (map (axisSize dir) l)) as Hle.
    { clear. induction 1 as [|c l Hc HF IH]; simpl; lsum. pose proof (wf_min_le dir c Hc). lia. }
    pose proof (Hle _ HF1). pose proof (Hle _ HF2). rewrite !map_app. simpl. lsum.
    unfold axisSize at 2. simpl. unfold PaneMinSize in *. lia. }
  unfold insertAt, fits. split_and!.
  - by destruct (take i ch).
  - apply Forall_app; split; [by apply Forall_take|]. constructor; [constructor|by apply Forall_drop].
  - rewrite map_app. simpl. rewrite sumZ_app, sumZ_cons.
    assert (sumZ (map (minSubtreeSize dir) (take i ch)) + sumZ (map (minSubtreeSize dir) (drop i ch))
            = sumZ (map (minSubtreeSize dir) ch)) as Htd.
    { rewrite <- sumZ_app, <- map_app. by rewrite take_drop. }
    assert (lenZ (take i ch ++ NewLeaf (Some newPane) 0 0 0 0 :: drop i ch) = lenZ ch + 1) as ->.
    { unfold lenZ. rewrite length_app. simpl. rewrite length_take, length_drop. lia. }
    unfold PaneMinSize in *. lia.
  - apply Forall_app; split; [by apply Forall_take|]. constructor; [|by apply Forall_drop].
    destruct ch as [|c ch]; [done|]. apply Forall_cons in Hcr as [Hc _].
    apply Forall_cons in Hsh as [Hs _]. pose proof (minSubtreeSize_ge (other dir) c Hs). simpl. lia.
Qed.

Lemma insertAt_lookup {A} i (x : A) l : (i <= length l)%nat -> insertAt i x l !! i = Some x.
Proof.
  intros Hi. unfold insertAt. rewrite lookup_app_r; rewrite length_take; [|lia].
  by replace (i - i `min` length l)%nat with 0%nat by lia.
Qed.

Lemma length_insertAt {A} i (x : A) l : length (insertAt i x l) = S (length l).
Proof. unfold insertAt. rewrite length_app. simpl. rewrite length_take, length_drop. lia. Qed.

Lemma insertAt_Permutation {A} i (x : A) l : insertAt i x l ≡ₚ x :: l.
Proof. unfold insertAt. rewrite <- Permutation_middle. by rewrite take_drop. Qed.

Lemma parentOf_app pp idx : parentOf (pp ++ [idx]) = Some (pp, idx).
Proof. unfold parentOf. by rewrite last_snoc, removelast_last. Qed.

Lemma parentOf_Some p pp idx : parentOf p = Some (pp, idx) -> p = pp ++ [idx].
Proof.
  unfold parentOf. destruct p as [|x p _] using rev_ind; [done|].
  rewrite last_snoc, removelast_last. by intros [= -> ->].
Qed.

Lemma parentOf_None p : parentOf p = None -> p = [].
Proof. unfold parentOf. destruct p as [|x p _] using rev_ind; [done|]. by rewrite last_snoc. Qed.

(** The parent of a cell and its place among the children. *)
Lemma cellAt_parent pp idx root c :
  cellAt (pp ++ [idx]) root = Some c ->
  exists r dir ch, cellAt pp root = Some (Node r dir ch) /\ ch !! idx = Some c.
Proof.
  rewrite cellAt_app. destruct (cellAt pp root) as [[r d|r dir ch]|]; simpl; [done| |done].
  destruct (ch !! idx) eqn:E; [|done]. intros [= ->]. eauto 6.
Qed.

Lemma concat_Permutation {A} (l1 l2 : list (list A)) : l1 ≡ₚ l2 -> concat l1 ≡ₚ concat l2.
Proof.
  induction 1; simpl; [done| | |by etrans].
  - by apply Permutation_app.
  - rewrite !app_assoc. by apply Permutation_app_tail, Permutation_app_comm.
Qed.

Lemma cellPanes_insertAt r dir ch i c :
  cellPanes (Node r dir (insertAt i c ch)) ≡ₚ cellPanes c ++ cellPanes (Node r dir ch).
Proof.
  rewrite !cellPanes_node. change (cellPanes c ++ concat (map cellPanes ch))
    with (concat (map cellPanes (c :: ch))).
  apply concat_Permutation. apply Permutation_map, insertAt_Permutation.
Qed.

(** Case A: the parent with the new sibling. *)
Lemma insertSibling_spec r dir ch idx i rl d newPane :
  wf (Node r dir ch) -> ch !! idx = Some (Leaf rl d) -> 2 * PaneMinSize + 1 <= rAxis dir rl ->
  (i <= length ch)%nat ->
  let c' := insertSibling i newPane (Node r dir ch) in
  wf c' /\ cellRect c' = r /\ cellPanes c' ≡ₚ Some newPane :: cellPanes (Node r dir ch) /\
  exists rn, cellAt [i] c' = Some (Leaf rn (paneLeaf (Some newPane))).
Proof.
  intros Hwf Hidx Ha Hi. set (nl := NewLeaf (Some newPane) 0 0 0 0).
  pose proof (insertAt_fits r dir ch idx i rl d newPane Hwf Hidx Ha) as Hf. fold nl in Hf.
  destruct (equalizeChildren_fits _ _ _ Hf) as (ch' & Heq & Hlen & Hsk & _ & _ & _).
  destruct (equalizeChildren_wf r dir (insertAt i nl ch)) as (Hwf' & Hr & Hsk'); [|done|].
  { rewrite length_insertAt. inversion Hwf; subst. lia. }
  unfold insertSibling, distributeEqual, rebalanceChildren. simpl Children. simpl withChildren.
  fold nl. split_and!; [done|done| |].
  - rewrite (same_skeleton_cellPanes _ _ Hsk'), cellPanes_insertAt. done.
  - rewrite Heq. simpl. assert (map skeleton ch' !! i = Some (skeleton nl)) as Hl.
    { rewrite Hsk, list_lookup_fmap, insertAt_lookup by done. done. }
    rewrite list_lookup_fmap in Hl. destruct (ch' !! i) as [[rn dn|? ? ?]|]; simplify_eq/=. eauto.
Qed.

Lemma cellAt_updAt_app f p q root c :
  cellAt p root = Some c -> cellAt (p ++ q) (updAt f p root) = cellAt q (f c).
Proof. intros Hc. rewrite cellAt_app, (cellAt_updAt f p root c Hc). done. Qed.

(** What a successful split does. *)
Definition splitResult (root : LayoutCell) (newPane : Z) (root' : LayoutCell) (q : path) : Prop :=
  wf root' /\ cellRect root' = cellRect root /\ cellPanes root' ≡ₚ Some newPane :: cellPanes root /\
  exists r d, cellAt q root' = Some (Leaf r d) /\ Pane d = Some newPane.

Lemma splitResult_intro p root c f newPane q' :
  wf root -> cellAt p root = Some c -> wf (f c) -> cellRect (f c) = cellRect c ->
  cellPanes (f c) ≡ₚ Some newPane :: cellPanes c ->
  (exists r d, cellAt q' (f c) = Some (Leaf r d) /\ Pane d = Some newPane) ->
  splitResult root newPane (updAt f p root) (p ++ q').
Proof.
  intros Hwf Hc Hwf' Hr Hp (r & d & Hq & Hd).
  destruct (wf_updAt f p root c) as [? ?]; auto.
  { unfold sameSize, cW, cH. by rewrite Hr. }
  destruct (cellPanes_updAt p root c Hc) as (l1 & l2 & E1 & E2).
  unfold splitResult. split_and!; [done|by eapply cellRect_updAt| |].
  - rewrite E1, E2, Hp. simpl. symmetry. apply Permutation_middle.
  - exists r, d. by rewrite (cellAt_updAt_app _ _ _ _ _ Hc).
Qed.

Lemma splitWithOrder_correct root p dir newPane first rl d :
  wf root -> cellAt p root = Some (Leaf rl d) -> 2 * PaneMinSize + 1 <= rAxis dir rl ->
  exists root' q, splitWithOrder root p dir newPane first = Ok (root', q) /\
    splitResult root newPane root' q.
Proof.
  intros Hwf Hc Ha. unfold splitWithOrder. rewrite Hc.
  destruct (Z.ltb_spec (rAxis dir rl) (2 * PaneMinSize + 1)); [lia|].
  assert (splitResult root newPane (updAt (fun _ => splitLeaf rl (Pane d) dir newPane first) p root)
            (p ++ [if first then 0%nat else 1%nat])) as HB.
  { destruct (splitLeaf_wf rl d dir newPane first (wf_cellAt _ _ _ Hwf Hc) Ha) as (? & Hr & ?).
    eapply (splitResult_intro p root (Leaf rl d)); eauto.
    unfold splitLeaf. destruct dir, first; simpl; eauto. }
  destruct (parentOf p) as [[pp idx]|] eqn:Hp; [|by eauto].
  case_decide as Hdir; [|by eauto]. apply parentOf_Some in Hp as ->.
  destruct (cellAt_parent _ _ _ _ Hc) as (r & dir' & ch & Hpp & Hidx).
  rewrite Hpp in Hdir. simpl in Hdir. simplify_eq.
  eexists _, _. split; [done|].
  pose proof (wf_cellAt _ _ _ Hwf Hpp) as Hwfp. pose proof (lookup_lt_Some _ _ _ Hidx).
  destruct (insertSibling_spec r dir ch idx (if first then idx else S idx) rl d newPane)
    as (? & ? & ? & rn & Hn); auto.
  { destruct first; lia. }
  eapply (splitResult_intro pp root (Node r dir ch)); eauto.
Qed.

(** ** Closing *)

Lemma wf_withRect r c : wf c -> rW r = cW c -> rH r = cH c -> wf (withRect r c).
Proof.
  intros Hwf HW HH. destruct c as [r0 d|r0 dir ch]; inversion_clear Hwf; unfold cW, cH in *; simpl in *.
  - constructor; lia.
  - assert (forall axis, rAxis axis r = rAxis axis r0) as E by (by intros []).
    constructor; auto; by rewrite E.
Qed.

Lemma delete_fits r dir ch idx c :
  wf (Node r dir ch) -> ch !! idx = Some c -> fits r dir (delete idx ch).
Proof.
  intros Hwf Hidx. pose proof (wf_fits _ _ _ Hwf) as (Hne & Hsh & Hsum & Hcr).
  inversion_clear Hwf as [|? ? ? Hlen _ _ _].
  apply list_elem_of_split_length in Hidx as (ch1 & ch2 & -> & ->).
  rewrite delete_middle. rewrite Forall_app, Forall_cons in Hsh, Hcr.
  destruct Hsh as (Hs1 & Hs & Hs2), Hcr as (Hc1 & _ & Hc2).
  pose proof (minSubtreeSize_ge dir c Hs). rewrite map_app in Hsum. simpl in Hsum.
  unfold fits. split_and!.
  - rewrite length_app in Hlen. simpl in Hlen. destruct ch1, ch2; simpl in *; try done; lia.
  - by apply Forall_app.
  - rewrite map_app. lsum. unfold PaneMinSize in *. lia.
  - by apply Forall_app.
Qed.

Lemma cellPanes_delete r dir ch idx c :
  ch !! idx = Some c ->
  cellPanes (Node r dir ch) ≡ₚ cellPanes c ++ cellPanes (Node r dir (delete idx ch)).
Proof.
  intros (ch1 & ch2 & -> & ->)%list_elem_of_split_length. rewrite delete_middle, !cellPanes_node.
  change (cellPanes c ++ concat (map cellPanes (ch1 ++ ch2)))
    with (concat (map cellPanes (c :: (ch1 ++ ch2)))).
  apply concat_Permutation, Permutation_map. by rewrite Permutation_middle.
Qed.

Definition closeResult (root : LayoutCell) (closed : list (option Z)) (root' : LayoutCell) (q : path) : Prop :=
  wf root' /\ cellRect root' = cellRect root /\ cellPanes root ≡ₚ closed ++ cellPanes root' /\
  is_Some (cellAt q root').

Lemma closeResult_intro p root c c' closed q' :
  wf root -> cellAt p root = Some c -> wf c' -> cellRect c' = cellRect c ->
  cellPanes c ≡ₚ closed ++ cellPanes c' -> is_Some (cellAt q' c') ->
  closeResult root closed (updAt (fun _ => c') p root) (p ++ q').
Proof.
  intros Hwf Hc Hwf' Hr Hp Hq.
  destruct (wf_updAt (fun _ => c') p root c) as [? ?]; auto.
  { unfold sameSize, cW, cH. by rewrite Hr. }
  destruct (cellPanes_updAt p root c Hc) as (l1 & l2 & E1 & E2).
  unfold closeResult. split_and!; [done|by apply (cellRect_updAt _ p root c)| |].
  - rewrite E1, E2, Hp. rewrite <- app_assoc, (app_assoc l1 closed), (Permutation_app_comm l1 closed).
    by rewrite <- app_assoc.
  - by rewrite (cellAt_updAt_app _ _ _ _ _ Hc).
Qed.

Lemma Close_correct root p c :
  wf root -> p <> [] -> cellAt p root = Some c ->
  exists root' q, Close root p = (root', Some q) /\ closeResult root (cellPanes c) root' q.
Proof.
  intros Hwf Hp Hc. unfold Close. destruct (parentOf p) as [[pp idx]|] eqn:E.
  2:{ by apply parentOf_None in E. }
  apply parentOf_Some in E as ->. destruct (cellAt_parent _ _ _ _ Hc) as (r & dir & ch & Hpp & Hidx).
  rewrite Hpp. pose proof (wf_cellAt _ _ _ Hwf Hpp) as Hwfp.
  pose proof (delete_fits _ _ _ _ _ Hwfp Hidx) as Hf.
  pose proof (cellPanes_delete r dir ch idx c Hidx) as HP. set (ch' := delete idx ch) in *.
  destruct (equalizeChildren_fits _ _ _ Hf) as (che & Heq & Hlen & Hsk & HFw & HFc & Hsum).
  assert (0 < length ch')%nat as Hpos.
  { destruct Hf as [Hne _]. destruct ch'; simpl; [done|lia]. }
  destruct (Nat.ltb_spec 0 (length ch')); [|lia]. unfold rebalanceChildren. rewrite Heq. simpl Children.
  assert (cellPanes (Node r dir che) = cellPanes (Node r dir ch')) as Hpe.
  { rewrite <- Heq. apply same_skeleton_cellPanes. rewrite Heq. simpl. by rewrite Hsk. }
  destruct che as [|only [|c2 che]]; [simpl in Hlen; lia|..].
  - eexists _, _. split; [done|]. rewrite <- (app_nil_r pp) at 2.
    eapply closeResult_intro; eauto; try (by destruct only).
    + apply Forall_inv in HFw, HFc. simpl in Hlen. unfold lenZ in Hsum. rewrite <- Hlen in Hsum.
      simpl in Hsum. rewrite sumZ_cons, sumZ_nil in Hsum. simpl in HFc.
      apply wf_withRect; [done| |]; destruct dir; simpl in *; unfold cW, cH, axisSize in *; simpl in *; lia.
    + rewrite HP, <- Hpe, cellPanes_node. simpl. rewrite app_nil_r. by destruct only.
  - eexists _, _. split; [|eapply (closeResult_intro pp root _ (Node r dir (only :: c2 :: che)) _
                             [if (idx <? length ch')%nat then idx else (length ch' - 1)%nat]); eauto].
    + destruct (idx <? length ch')%nat; done.
    + constructor; auto; [simpl; lia|]. unfold lenZ in *. by rewrite Hlen.
    + by rewrite HP, Hpe.
    + simpl. destruct ((only :: c2 :: che) !! _) eqn:El; [done|]. apply lookup_ge_None in El.
      rewrite Hlen in El. destruct (Nat.ltb_spec idx (length ch')); lia.
Qed.
