(* ===== verification/LayoutTiling.v ===== *)
(** * The layout tree tiles the window

    In a well-formed tree whose positions are up to date, every cell of the
    root rectangle lies in exactly one leaf or on exactly one border, and the
    hit tests FindLeafAt and FindBorderAt report it. *)

From S2P Require Import Prelude LayoutSizes LayoutTree LayoutFacts LayoutEdit.

(** ** Coordinates along and across a split *)

Definition along (dir : SplitDir) (x y : Z) : Z :=
  match dir with SplitVertical => x | SplitHorizontal => y end.
Definition rPos (dir : SplitDir) (r : Rect) : Z :=
  match dir with SplitVertical => rX r | SplitHorizontal => rY r end.
Definition cPos (dir : SplitDir) (c : LayoutCell) : Z := rPos dir (cellRect c).

Definition inSpan (dir : SplitDir) (x y : Z) (r : Rect) : Prop :=
  rPos dir r <= along dir x y < rPos dir r + rAxis dir r.

Lemma inRect_spans dir x y r :
  inRect x y r = true <-> inSpan dir x y r /\ inSpan (other dir) x y r.
Proof. unfold inRect, inSpan. destruct dir; simpl; zb; lia. Qed.

Lemma inRect_false dir x y r :
  inRect x y r = false <-> ~ (inSpan dir x y r /\ inSpan (other dir) x y r).
Proof. rewrite <- inRect_spans. by destruct (inRect x y r). Qed.

Lemma onBorder_spec dir r x y c :
  onBorder dir r x y c = true <->
  along dir x y = cPos dir c + axisSize dir c /\ inSpan (other dir) x y r.
Proof. unfold onBorder, inSpan. destruct dir; simpl; unfold cX, cY, cW, cH; zb; lia. Qed.

(** ** Positions of the children *)

(** The children follow each other from [m] on, one separator apart, all at
    [k] across the split. *)
Fixpoint stacked (dir : SplitDir) (m k : Z) (l : list LayoutCell) : Prop :=
  match l with
  | [] => True
  | c :: rest =>
      cPos dir c = m /\ cPos (other dir) c = k /\ positioned c /\
      stacked dir (m + axisSize dir c + 1) k rest
  end.

Lemma placed_stacked dir x y l :
  placeChildren dir x y l = l -> stacked dir (along dir x y) (along (other dir) x y) l.
Proof.
  destruct dir; simpl; revert x y; induction l as [|c l IH]; intros x y; simpl; try done;
    intros [= Hc Hl]; rewrite <- Hc at 1 2 3; unfold cPos; simpl;
    fold (cX (placeAt x y c)) (cY (placeAt x y c)); autorewrite with place;
    (split_and!; try done; [apply placeAt_positioned|]).
  - apply IH in Hl. exact Hl.
  - apply IH in Hl. exact Hl.
Qed.

Lemma positioned_node r dir ch :
  positioned (Node r dir ch) -> stacked dir (rPos dir r) (rPos (other dir) r) ch.
Proof.
  unfold positioned, FixOffsets. rewrite placeAt_node. intros [= _ Hch].
  apply placed_stacked in Hch. unfold cX, cY in Hch. by destruct dir.
Qed.

Lemma stacked_positioned dir m k l : stacked dir m k l -> Forall positioned l.
Proof.
  revert m. induction l as [|c l IH]; intros m; simpl; [constructor|].
  intros (_ & _ & Hc & Hl). constructor; eauto.
Qed.

(** ** The hit tests *)

Section Loops.
Context (x y : Z).
Fixpoint leafLoop (i : nat) (l : list LayoutCell) : option path :=
  match l with
  | [] => None
  | child :: rest =>
      match FindLeafAt x y child with Some p => Some (i :: p) | None => leafLoop (S i) rest end
  end.
Fixpoint borderLoop (i : nat) (l : list LayoutCell) : option BorderHit :=
  match l with
  | [] => None
  | child :: rest =>
      match FindBorderAt x y child with
      | Some h => Some (pushHit i h) | None => borderLoop (S i) rest end
  end.

Lemma FindLeafAt_node r dir ch : FindLeafAt x y (Node r dir ch) = leafLoop 0 ch.
Proof. reflexivity. Qed.
Lemma FindBorderAt_node r dir ch :
  FindBorderAt x y (Node r dir ch) =
  match borderBetween dir r x y 0 ch with
  | Some i => Some (mkBorderHit [] i dir)
  | None => borderLoop 0 ch
  end.
Proof. reflexivity. Qed.

(** Exactly one of the two tests hits inside the rectangle, none outside. *)
Definition tiled (c : LayoutCell) : Prop :=
  if inRect x y (cellRect c)
  then (is_Some (FindLeafAt x y c) /\ FindBorderAt x y c = None) \/
       (FindLeafAt x y c = None /\ is_Some (FindBorderAt x y c))
  else FindLeafAt x y c = None /\ FindBorderAt x y c = None.

Definition extent (dir : SplitDir) (l : list LayoutCell) : Z :=
  sumZ (map (axisSize dir) l) + (lenZ l - 1).

Lemma extent_cons dir c c' l :
  extent dir (c :: c' :: l) = axisSize dir c + 1 + extent dir (c' :: l).
Proof. unfold extent. simpl. lsum. Qed.

(** No test of a list of children hits. *)
Definition noHit (dir : SplitDir) (r : Rect) (i : nat) (l : list LayoutCell) : Prop :=
  leafLoop i l = None /\ borderBetween dir r x y i l = None /\ borderLoop i l = None.

Lemma outside_child dir c :
  tiled c -> ~ inSpan dir x y (cellRect c) \/ ~ inSpan (other dir) x y (cellRect c) ->
  FindLeafAt x y c = None /\ FindBorderAt x y c = None.
Proof.
  unfold tiled. intros Ht Ho. rewrite (proj2 (inRect_false dir x y _)) in Ht; [done|]. tauto.
Qed.

Section Split.
Context (dir : SplitDir) (r : Rect).

Definition spans (l : list LayoutCell) : Prop :=
  Forall (fun c => tiled c /\ 0 <= axisSize dir c /\
    axisSize (other dir) c = rAxis (other dir) r) l.

Lemma noHit_before l i m :
  spans l -> stacked dir m (rPos (other dir) r) l ->
  along dir x y < m \/ ~ inSpan (other dir) x y r -> noHit dir r i l.
Proof.
  intros HF. revert i m. induction HF as [|c l (Ht & Hpos & Hc) HF IH]; intros i m Hst Ho;
    [done|]. destruct Hst as (Hm & Hk & _ & Hst).
  destruct (outside_child dir c Ht) as [H1 H2].
  { unfold inSpan, cPos, axisSize in *. rewrite Hk, Hc. destruct Ho; [left; lia|by right]. }
  destruct (IH (S i) _ Hst) as (H3 & H4 & H5); [destruct Ho; [left; lia|by right]|].
  unfold noHit. simpl. rewrite H1, H2, H3. split_and!; [done| |done].
  destruct l as [|c' l]; [done|].
  destruct (onBorder dir r x y c) eqn:E; [|done]. apply onBorder_spec in E as [E1 E2].
  rewrite Hm in E1. destruct Ho; [lia|done].
Qed.

Lemma noHit_after l i m :
  spans l -> stacked dir m (rPos (other dir) r) l ->
  m + extent dir l <= along dir x y -> noHit dir r i l.
Proof.
  intros HF. revert i m. induction HF as [|c l (Ht & Hpos & Hc) HF IH]; intros i m Hst Ho;
    [done|]. destruct Hst as (Hm & Hk & _ & Hst).
  assert (m + axisSize dir c <= along dir x y /\ (l <> [] ->
    m + axisSize dir c + 1 + extent dir l <= along dir x y)) as [Ha Hl].
  { destruct l as [|c' l].
    - unfold extent in Ho. simpl in Ho. autorewrite with lsum in Ho. split; [lia|done].
    - rewrite extent_cons in Ho. split; [|intros _; lia].
      assert (0 <= extent dir (c' :: l)); [|lia].
      unfold extent. pose proof (sumZ_lower (map (axisSize dir) (c' :: l)) 0) as Hs.
      rewrite lenZ_map, lenZ_cons in *. pose proof (lenZ_nonneg l).
      specialize (Hs ltac:(rewrite Forall_map_iff; eapply Forall_impl; [exact HF|]; naive_solver)).
      lia. }
  destruct (outside_child dir c Ht) as [H1 H2].
  { left. unfold inSpan, cPos, axisSize in *. lia. }
  destruct l as [|c' l].
  { unfold noHit. simpl. by rewrite H1, H2. }
  destruct (IH (S i) _ Hst) as (H3 & H4 & H5); [specialize (Hl ltac:(done)); lia|].
  unfold noHit. simpl in *. rewrite H1, H2, H3. split_and!; [done| |done].
  destruct (onBorder dir r x y c) eqn:E; [|done]. apply onBorder_spec in E as [E1 _].
  specialize (Hl ltac:(done)).
  assert (0 <= extent dir (c' :: l)); [|lia].
  unfold extent. pose proof (sumZ_lower (map (axisSize dir) (c' :: l)) 0) as Hs.
  rewrite lenZ_map, lenZ_cons in *. pose proof (lenZ_nonneg l).
  specialize (Hs ltac:(rewrite Forall_map_iff; eapply Forall_impl; [exact HF|]; naive_solver)).
  lia.
Qed.

Lemma oneHit l i m :
  l <> [] -> spans l -> stacked dir m (rPos (other dir) r) l ->
  m <= along dir x y < m + extent dir l -> inSpan (other dir) x y r ->
  (is_Some (leafLoop i l) /\ borderBetween dir r x y i l = None /\ borderLoop i l = None) \/
  (leafLoop i l = None /\
     (is_Some (borderBetween dir r x y i l) \/ is_Some (borderLoop i l))).
Proof.
  intros _ HF. revert i m. induction HF as [|c l (Ht & Hpos & Hc) HF IH]; intros i m Hst Hin Hcr.
  { unfold extent in Hin. simpl in Hin. autorewrite with lsum in Hin. lia. }
  destruct Hst as (Hm & Hk & _ & Hst).
  assert (inSpan (other dir) x y (cellRect c)) as Hcr'.
  { unfold inSpan, cPos, axisSize in *. by rewrite Hk, Hc. }
  destruct (Z.lt_trichotomy (along dir x y) (m + axisSize dir c)) as [Hlt|[Heq|Hgt]].
  - assert (inRect x y (cellRect c) = true) as Hir.
    { apply (inRect_spans dir). split; [|done]. unfold inSpan, cPos, axisSize in *. lia. }
    unfold tiled in Ht. rewrite Hir in Ht.
    destruct (noHit_before l (S i) _ HF Hst) as (H3 & H4 & H5); [left; lia|].
    assert (borderBetween dir r x y i (c :: l) = None) as Hb.
    { simpl. destruct l; [done|]. destruct (onBorder dir r x y c) eqn:E; [|done].
      apply onBorder_spec in E as [E1 _]. lia. }
    rewrite Hb. simpl. destruct Ht as [[[p ->] ->]|[-> [h ->]]]; [left|right]; rewrite ?H3, ?H5; eauto.
  - destruct (outside_child dir c Ht) as [H1 H2].
    { left. unfold inSpan, cPos, axisSize in *. lia. }
    destruct l as [|c' l].
    { unfold extent in Hin. simpl in Hin. autorewrite with lsum in Hin. lia. }
    destruct (noHit_before (c' :: l) (S i) _ HF Hst) as (H3 & _ & _); [left; lia|].
    right. simpl in *. rewrite H1, H3. split; [done|]. left.
    rewrite (proj2 (onBorder_spec dir r x y c)); [by eexists|]. split; [lia|done].
  - destruct (outside_child dir c Ht) as [H1 H2].
    { left. unfold inSpan, cPos, axisSize in *. lia. }
    destruct l as [|c' l].
    { unfold extent in Hin. simpl in Hin. autorewrite with lsum in Hin. lia. }
    rewrite extent_cons in Hin.
    specialize (IH (S i) _ Hst ltac:(lia) Hcr).
    assert (borderBetween dir r x y i (c :: c' :: l) = borderBetween dir r x y (S i) (c' :: l)) as Hb.
    { simpl. destruct (onBorder dir r x y c) eqn:E; [|done].
      apply onBorder_spec in E as [E1 _]. lia. }
    rewrite Hb. cbn [leafLoop borderLoop]. rewrite H1, H2. exact IH.
Qed.
End Split.

Lemma wf_axis_nonneg axis c : wf c -> 0 <= axisSize axis c.
Proof.
  intros Hwf. pose proof (wf_min_le axis c Hwf).
  pose proof (minSubtreeSize_ge axis c (wf_shaped _ Hwf)). unfold PaneMinSize in *. lia.
Qed.

Lemma children_spans r dir ch :
  wf (Node r dir ch) -> Forall tiled ch -> spans dir r ch.
Proof.
  intros Hwf Ht. inversion_clear Hwf as [|? ? ? _ HF Hcross _]. unfold spans.
  rewrite Forall_forall in *. intros c Hc. split_and!; auto. by apply wf_axis_nonneg, HF.
Qed.

Lemma wf_tiled c : wf c -> positioned c -> tiled c.
Proof.
  induction c as [r d|r dir ch IH] using LayoutCell_tree_ind; intros Hwf Hpos.
  { unfold tiled. simpl. destruct (inRect x y r); [left|]; split; try done; by eexists. }
  assert (Forall tiled ch) as Ht.
  { apply positioned_node, stacked_positioned in Hpos. apply wf_Children in Hwf. simpl in Hwf.
    rewrite Forall_forall in *. auto. }
  pose proof (children_spans _ _ _ Hwf Ht) as Hsp. pose proof (positioned_node _ _ _ Hpos) as Hst.
  inversion_clear Hwf as [|? ? ? Hlen HF _ Hsum]. fold (extent dir ch) in Hsum.
  unfold tiled. rewrite FindLeafAt_node, FindBorderAt_node. cbn [cellRect].
  destruct (inRect x y r) eqn:E.
  - apply (inRect_spans dir) in E as [Ha Hc]. unfold inSpan in Ha.
    destruct (oneHit dir r ch 0 _ (two_ne _ Hlen) Hsp Hst ltac:(lia) Hc) as [(H1 & H2 & H3)|(H1 & H2)].
    + left. by rewrite H2, H3.
    + right. split; [done|]. destruct H2 as [[i ->]|[h Hh]]; [by eexists|].
      destruct (borderBetween _ _ _ _ _ _); [by eexists|]. rewrite Hh. by eexists.
  - apply (inRect_false dir) in E.
    assert (noHit dir r 0 ch) as (H1 & H2 & H3).
    { destruct (Z.lt_ge_cases (along dir x y) (rPos dir r)); [eapply noHit_before; eauto|].
      destruct (Z.le_gt_cases (rPos dir r + extent dir ch) (along dir x y));
        [eapply noHit_after; eauto|].
      eapply noHit_before; eauto. right. intros Hc. apply E. split; [|done].
      unfold inSpan. lia. }
    by rewrite H1, H2, H3.
Qed.
End Loops.

(** ** The leaf that is found contains the point, and is the only one *)

Lemma leafLoop_Some x y i l p :
  leafLoop x y i l = Some p ->
  exists j q c, p = (i + j)%nat :: q /\ l !! j = Some c /\ FindLeafAt x y c = Some q.
Proof.
  revert i. induction l as [|c l IH]; intros i; simpl; [done|].
  destruct (FindLeafAt x y c) as [q|] eqn:E.
  - intros [= <-]. exists 0%nat, q, c. by rewrite Nat.add_0_r.
  - intros (j & q & c' & -> & ? & ?)%IH. exists (S j), q, c'. split; [f_equal; lia|done].
Qed.

Lemma FindLeafAt_sound x y c p :
  FindLeafAt x y c = Some p -> exists r d, cellAt p c = Some (Leaf r d) /\ inRect x y r = true.
Proof.
  revert p. induction c as [r d|r dir ch IH] using LayoutCell_tree_ind; intros p.
  - simpl. destruct (inRect x y r) eqn:E; [|done]. intros [= <-]. simpl. eauto.
  - rewrite FindLeafAt_node. intros (j & q & c & -> & Hj & Hq)%leafLoop_Some. simpl.
    rewrite Hj. eapply (Forall_lookup_1 _ _ _ _ IH Hj). done.
Qed.

Lemma leafLoop_prefix x y i j l :
  Forall (fun c => FindLeafAt x y c = None) (take j l) ->
  leafLoop x y i l = leafLoop x y (i + j) (drop j l).
Proof.
  revert i j. induction l as [|c l IH]; intros i [|j]; simpl; intros HF';
    try (by rewrite Nat.add_0_r); try done.
  revert HF'. inversion_clear 1 as [|? ? Hc HF]. rewrite Hc, (IH (S i) j HF). f_equal. lia.
Qed.

(** Siblings before a child end before it starts. *)
Lemma stacked_before dir m k l j c :
  stacked dir m k l -> Forall wf l -> l !! j = Some c ->
  Forall (fun c' => cPos dir c' + axisSize dir c' < cPos dir c) (take j l) /\ m <= cPos dir c.
Proof.
  revert m j. induction l as [|c0 l IH]; intros m [|j]; simpl; try done.
  - intros (<- & _) _ [= ->]. split; [constructor|lia].
  - intros (Hm & _ & _ & Hst) HF Hj. inversion_clear HF as [|? ? Hw HF'].
    destruct (IH _ _ Hst HF' Hj) as [HFt Hle]. pose proof (wf_axis_nonneg dir c0 Hw).
    split; [constructor; [lia|done]|lia].
Qed.

Lemma extent_nonneg dir l : Forall wf l -> -1 <= extent dir l.
Proof.
  intros HF. unfold extent. pose proof (sumZ_lower (map (axisSize dir) l) 0) as Hs. rewrite lenZ_map in Hs.
  pose proof (lenZ_nonneg l).
  specialize (Hs ltac:(rewrite Forall_map_iff; eapply Forall_impl; [exact HF|]; apply wf_axis_nonneg)). lia.
Qed.

(** A child lies within the span of its siblings. *)
Lemma stacked_inside dir m k l j c :
  stacked dir m k l -> Forall wf l -> l !! j = Some c ->
  m <= cPos dir c /\ cPos dir c + axisSize dir c <= m + extent dir l /\ cPos (other dir) c = k.
Proof.
  revert m j. induction l as [|c0 l IH]; intros m [|j]; simpl; try done.
  - intros (<- & Hk & _ & Hst) HF [= ->]. inversion_clear HF as [|? ? Hw HF'].
    pose proof (extent_nonneg dir l HF'). unfold extent in *. split_and!; [lia| |done]. simpl. lsum.
  - intros (Hm & _ & _ & Hst) HF Hj. inversion_clear HF as [|? ? Hw HF'].
    destruct (IH _ _ Hst HF' Hj) as (? & ? & ?). pose proof (wf_axis_nonneg dir c0 Hw).
    split_and!; [lia| |done]. unfold extent in *. simpl. lsum.
Qed.

Lemma leafLoop_None x y i l j c : leafLoop x y i l = None -> l !! j = Some c -> FindLeafAt x y c = None.
Proof.
  revert i j. induction l as [|c0 l IH]; intros i [|j]; simpl; try done.
  - intros Hn [= ->]. by destruct (FindLeafAt x y c).
  - destruct (FindLeafAt x y c0); [done|]. apply IH.
Qed.

(** The rectangle of a child lies inside its parent's. *)
Lemma child_inside x y r dir ch j c :
  wf (Node r dir ch) -> positioned (Node r dir ch) -> ch !! j = Some c ->
  inRect x y (cellRect c) = true -> inRect x y r = true.
Proof.
  intros Hwf Hpos Ej Hc. pose proof (positioned_node _ _ _ Hpos) as Hst.
  inversion_clear Hwf as [|? ? ? _ HF Hcross Hsum].
  pose proof (Forall_lookup_1 _ _ _ _ Hcross Ej) as Hcr. simpl in Hcr.
  apply (inRect_spans dir) in Hc as [Ha Hc]. apply (inRect_spans dir).
  destruct (stacked_inside _ _ _ _ _ _ Hst HF Ej) as (H1 & H2 & H3). unfold extent in H2.
  unfold inSpan, cPos, axisSize in *. rewrite H3, Hcr in Hc. split; lia.
Qed.

(** The rectangle of a leaf lies inside that of the tree. *)
Lemma leaf_inside x y c p r d :
  wf c -> positioned c -> cellAt p c = Some (Leaf r d) -> inRect x y r = true ->
  inRect x y (cellRect c) = true.
Proof.
  revert p. induction c as [r0 d0|r0 dir ch IH] using LayoutCell_tree_ind; intros p Hwf Hpos Hp Hin.
  { destruct p; simpl in Hp; [|by destruct n]. by simplify_eq/=. }
  destruct p as [|j p]; [done|]. simpl in Hp. destruct (ch !! j) as [c|] eqn:Ej; [|done].
  apply (child_inside x y r0 dir ch j c Hwf Hpos Ej).
  eapply (Forall_lookup_1 _ _ _ _ IH Ej); eauto.
  - eapply Forall_lookup_1; [exact (wf_Children _ Hwf)|done].
  - eapply Forall_lookup_1; [|exact Ej].
    exact (stacked_positioned _ _ _ _ (positioned_node _ _ _ Hpos)).
Qed.

Lemma FindLeafAt_complete x y c p r d :
  wf c -> positioned c -> cellAt p c = Some (Leaf r d) -> inRect x y r = true ->
  FindLeafAt x y c = Some p.
Proof.
  revert p. induction c as [r0 d0|r0 dir ch IH] using LayoutCell_tree_ind; intros p Hwf Hpos Hp Hin.
  { destruct p; simpl in Hp; [|by destruct n]. simplify_eq/=. by rewrite Hin. }
  destruct p as [|j p]; [done|]. simpl in Hp. destruct (ch !! j) as [c|] eqn:Ej; [|done].
  pose proof (positioned_node _ _ _ Hpos) as Hst. pose proof (stacked_positioned _ _ _ _ Hst) as HP.
  pose proof (wf_Children _ Hwf) as HW. simpl in HW.
  pose proof (Forall_lookup_1 _ _ _ _ HW Ej) as Hwc. pose proof (Forall_lookup_1 _ _ _ _ HP Ej) as Hpc.
  pose proof (Forall_lookup_1 _ _ _ _ IH Ej p Hwc Hpc Hp Hin) as Hf. simpl in Hf.
  pose proof (leaf_inside x y c p r d Hwc Hpc Hp Hin) as Hic.
  apply (inRect_spans dir) in Hic as [Ha _]. unfold inSpan in Ha.
  destruct (stacked_before _ _ _ _ _ _ Hst HW Ej) as [HB _].
  rewrite FindLeafAt_node, (leafLoop_prefix _ _ _ j).
  - rewrite (drop_S _ _ _ Ej). simpl. by rewrite Hf.
  - assert (Forall (fun c' => wf c' /\ positioned c') (take j ch)) as HWP.
    { apply Forall_take, Forall_and. done. }
    eapply Forall_impl; [apply Forall_and; split; [exact HB|exact HWP]|].
    intros c' [Hlt [Hw' Hp']]. simpl in Hlt.
    pose proof (wf_tiled x y c' Hw' Hp') as Ht. unfold tiled in Ht.
    rewrite (proj2 (inRect_false dir x y _)) in Ht; [tauto|].
    intros [Hs _]. unfold inSpan, cPos, axisSize in *. lia.
Qed.

(** A border hit names two neighbouring children with the point between them. *)
Definition hitBetween (x y : Z) (c : LayoutCell) (h : BorderHit) : Prop :=
  exists r ch left right,
    cellAt (hitParent h) c = Some (Node r (hitDir h) ch) /\
    ch !! hitLeft h = Some left /\ ch !! S (hitLeft h) = Some right /\
    along (hitDir h) x y = cPos (hitDir h) left + axisSize (hitDir h) left /\
    inSpan (other (hitDir h)) x y r.

Lemma borderBetween_Some dir r x y i l j :
  borderBetween dir r x y i l = Some j ->
  exists k left right, j = (i + k)%nat /\ l !! k = Some left /\ l !! S k = Some right /\
    onBorder dir r x y left = true.
Proof.
  revert i. induction l as [|c l IH]; intros i; simpl; [done|]. destruct l as [|c' l]; [done|].
  destruct (onBorder dir r x y c) eqn:E.
  - intros [= <-]. exists 0%nat, c, c'. by rewrite Nat.add_0_r.
  - intros (k & a & b & -> & ? & ? & ?)%IH. exists (S k), a, b. split; [lia|done].
Qed.

Lemma FindBorderAt_sound x y c h : FindBorderAt x y c = Some h -> hitBetween x y c h.
Proof.
  revert h. induction c as [r d|r dir ch IH] using LayoutCell_tree_ind; intros h; [done|].
  rewrite FindBorderAt_node. destruct (borderBetween dir r x y 0 ch) as [j|] eqn:E.
  - intros [= <-]. apply borderBetween_Some in E as (k & a & b & -> & Ha & Hb & Ho).
    apply onBorder_spec in Ho as [? ?]. exists r, ch, a, b. done.
  - clear E. assert (forall i l, Forall (fun c => forall h, FindBorderAt x y c = Some h -> hitBetween x y c h) l ->
      borderLoop x y i l = Some h -> exists k c h', hitParent h = (i + k)%nat :: hitParent h' /\
        hitLeft h = hitLeft h' /\ hitDir h = hitDir h' /\ l !! k = Some c /\ hitBetween x y c h') as Hl.
    { clear. intros i l HF. revert i. induction HF as [|c l Hc HF IH]; intros i; simpl; [done|].
      destruct (FindBorderAt x y c) as [h0|] eqn:E.
      - intros [= <-]. exists 0%nat, c, h0. simpl. rewrite Nat.add_0_r. split_and!; auto.
      - intros (k & c' & h' & Hp & ? & ? & ? & ?)%IH. exists (S k), c', h'.
        rewrite Hp. split; [f_equal; lia|done]. }
    intros Hb. destruct (Hl _ _ IH Hb) as (k & c & h' & Hp & HL & HD & Hk & r' & ch' & a & b & Hc & Hrest).
    exists r', ch', a, b. rewrite Hp, HL, HD. simpl. by rewrite Hk.
Qed.
