(* ===== verification/LayoutProps.v ===== *)
(** * Properties of the layout tree

    What the size distributions, the resize operations, the hit tests and the
    structural edits of internal/mux/layout.go guarantee.  Each property that
    has hypotheses is followed by an instance on a concrete tree. *)

From S2P Require Import Prelude LayoutSizes LayoutTree LayoutFacts LayoutEdit LayoutTiling.

(** A window of 20 by 9 cells: pane 1 beside a column of panes 2 and 3. *)
Definition sampleTree : LayoutCell :=
  FixOffsets (Node (mkRect 0 0 20 9) SplitVertical
    [NewLeaf (Some 1) 0 0 9 9;
     Node (mkRect 10 0 10 9) SplitHorizontal [NewLeaf (Some 2) 0 0 10 4; NewLeaf (Some 3) 0 0 10 4]]).

Lemma sampleTree_wf : wf sampleTree.
Proof. by apply wfb_sound. Defined.

(** The two halves of a split leaf; removing the new one leaves the old pane. *)
Lemma splitLeaf_node r pane dir new first :
  exists c1 c2 ro, splitLeaf r (Pane (paneLeaf pane)) dir new first = Node r dir [c1; c2] /\
    delete (if first then 0%nat else 1%nat) [c1; c2] = [Leaf ro (paneLeaf pane)].
Proof. unfold splitLeaf, NewLeaf. destruct dir, first; simpl; eexists _, _, _; done. Qed.

(** A single leaf takes the whole parent. *)
Lemma equalize_single r dir ro d :
  PaneMinSize <= rAxis dir r ->
  rebalanceChildren (Node r dir [Leaf ro d]) = Node r dir [resizeChildTo dir r (Leaf ro d) (rAxis dir r)].
Proof.
  intros Hr. unfold rebalanceChildren, equalizeChildren, equalSubtreeSplitSizes.
  change (lenZ [Leaf ro d]) with 1.
  assert (equalSplitSizes (rAxis dir r) 1 = [rAxis dir r]) as ->.
  { unfold equalSplitSizes. change (1 <=? 0) with false. cbn iota.
    rewrite Z.quot_1_r. change (Z.to_nat (1 - 1)) with 0%nat. cbn [replicate app]. f_equal. lia. }
  change (lenZ [rAxis dir r] =? 0) with false. cbn iota.
  rewrite raise_id; [done|]. by repeat constructor.
Qed.

(** ** The screen *)

(** Every screen cell inside the rectangle of a well-formed, positioned
    layout belongs to exactly one thing: either to a single leaf, and then to no
    border, or to a border, and then to no leaf; cells outside belong to
    neither. *)
Theorem screen_partition x y c :
  wf c -> positioned c ->
  if inRect x y (cellRect c) then
    (exists p r d, cellAt p c = Some (Leaf r d) /\ inRect x y r = true /\ FindBorderAt x y c = None /\
       forall p' r' d', cellAt p' c = Some (Leaf r' d') -> inRect x y r' = true -> p' = p) \/
    (is_Some (FindBorderAt x y c) /\
       forall p r d, cellAt p c = Some (Leaf r d) -> inRect x y r = false)
  else
    FindBorderAt x y c = None /\ forall p r d, cellAt p c = Some (Leaf r d) -> inRect x y r = false.
Proof.
  intros Hwf Hpos. pose proof (wf_tiled x y c Hwf Hpos) as Ht. unfold tiled in Ht.
  assert (Hnone : FindLeafAt x y c = None ->
    forall p r d, cellAt p c = Some (Leaf r d) -> inRect x y r = false).
  { intros Hn p r d Hc. destruct (inRect x y r) eqn:E; [|done].
    rewrite (FindLeafAt_complete x y c p r d) in Hn; done. }
  destruct (inRect x y (cellRect c)); [|destruct Ht as [Hn Hb]; split; [done|by apply Hnone]].
  destruct Ht as [[[p Hp] Hb]|[Hn Hb]]; [left|right; split; [done|by apply Hnone]].
  destruct (FindLeafAt_sound _ _ _ _ Hp) as (r & d & Hc & Hin). exists p, r, d. split_and!; auto.
  intros p' r' d' Hc' Hin'. pose proof (FindLeafAt_complete x y c p' r' d' Hwf Hpos Hc' Hin'). congruence.
Qed.

Lemma screen_partition_witness :
  if inRect 9 4 (cellRect sampleTree) then
    (exists p r d, cellAt p sampleTree = Some (Leaf r d) /\ inRect 9 4 r = true /\ FindBorderAt 9 4 sampleTree = None /\
       forall p' r' d', cellAt p' sampleTree = Some (Leaf r' d') -> inRect 9 4 r' = true -> p' = p) \/
    (is_Some (FindBorderAt 9 4 sampleTree) /\
       forall p r d, cellAt p sampleTree = Some (Leaf r d) -> inRect 9 4 r = false)
  else
    FindBorderAt 9 4 sampleTree = None /\ forall p r d, cellAt p sampleTree = Some (Leaf r d) -> inRect 9 4 r = false.
Proof. apply screen_partition; [apply sampleTree_wf|reflexivity]. Defined.

(** FindLeafAt finds a leaf exactly when the point lies in it. *)
Theorem FindLeafAt_correct x y c p :
  wf c -> positioned c ->
  FindLeafAt x y c = Some p <-> exists r d, cellAt p c = Some (Leaf r d) /\ inRect x y r = true.
Proof.
  intros Hwf Hpos. split; [apply FindLeafAt_sound|]. intros (r & d & ? & ?).
  by eapply FindLeafAt_complete.
Qed.

Lemma FindLeafAt_correct_witness :
  FindLeafAt 12 7 sampleTree = Some [1%nat; 1%nat] <->
  exists r d, cellAt [1%nat; 1%nat] sampleTree = Some (Leaf r d) /\ inRect 12 7 r = true.
Proof. apply (FindLeafAt_correct 12 7 sampleTree); [apply sampleTree_wf|reflexivity]. Defined.

(** FindBorderAt reports a border exactly on the cells of the layout that
    are in no leaf, and names the two neighbours the cell separates. *)
Theorem FindBorderAt_correct x y c :
  wf c -> positioned c ->
  (is_Some (FindBorderAt x y c) <-> inRect x y (cellRect c) = true /\ FindLeafAt x y c = None) /\
  forall h, FindBorderAt x y c = Some h -> hitBetween x y c h.
Proof.
  intros Hwf Hpos. split; [|apply FindBorderAt_sound]. pose proof (wf_tiled x y c Hwf Hpos) as Ht.
  unfold tiled in Ht. destruct (inRect x y (cellRect c)).
  - destruct Ht as [[[p Hp] Hb]|[Hn Hb]]; [|tauto]. rewrite Hp, Hb. split; [by intros []|by intros [_ ?]].
  - destruct Ht as [_ Hb]. rewrite Hb. split; [by intros []|by intros [? _]].
Qed.

Lemma FindBorderAt_correct_witness :
  (is_Some (FindBorderAt 15 4 sampleTree) <->
     inRect 15 4 (cellRect sampleTree) = true /\ FindLeafAt 15 4 sampleTree = None) /\
  forall h, FindBorderAt 15 4 sampleTree = Some h -> hitBetween 15 4 sampleTree h.
Proof. apply FindBorderAt_correct; [apply sampleTree_wf|reflexivity]. Defined.

(** ** Structural edits *)

(** C35. Splitting a leaf whose parent splits the other way (or that is the
    root) and closing the new pane gives back the very tree: sizes, positions
    and structure. *)
Theorem split_close_roundtrip root p dir new first r pane :
  wf root -> cellAt p root = Some (Leaf r (paneLeaf pane)) -> 2 * PaneMinSize + 1 <= rAxis dir r ->
  (forall pp idx, parentOf p = Some (pp, idx) -> (cellAt pp root ≫= Dir) <> Some dir) ->
  exists root' q, splitWithOrder root p dir new first = Ok (root', q) /\ Close root' q = (root, Some p).
Proof.
  intros Hwf Hc Hroom Hpar. unfold splitWithOrder. rewrite Hc.
  rewrite (proj2 (Z.ltb_ge _ _) Hroom).
  set (sp := splitLeaf r (Pane (paneLeaf pane)) dir new first). set (k := if first then 0%nat else 1%nat).
  exists (updAt (fun _ => sp) p root), (p ++ [k]). split.
  { destruct (parentOf p) as [[pp idx]|] eqn:E; [|done]. specialize (Hpar pp idx eq_refl).
    by rewrite decide_False. }
  unfold Close. rewrite parentOf_app, (cellAt_updAt _ _ _ _ Hc).
  pose proof (wf_cellAt _ _ _ Hwf Hc) as Hwl. inversion_clear Hwl as [? ? HW HH|].
  destruct (splitLeaf_node r pane dir new first) as (c1 & c2 & ro & Esp & Hdel). fold sp k in Esp, Hdel.
  rewrite Esp. rewrite Hdel. simpl (0 <? length [_])%nat. cbn iota.
  assert (rebalanceChildren (Node r dir [Leaf ro (paneLeaf pane)]) =
          Node r dir [resizeChildTo dir r (Leaf ro (paneLeaf pane)) (rAxis dir r)]) as ->
    by (apply equalize_single; unfold PaneMinSize in *; lia).
  cbn [Children]. f_equal.
  assert (withRect r (resizeChildTo dir r (Leaf ro (paneLeaf pane)) (rAxis dir r)) = Leaf r (paneLeaf pane)) as ->
    by (destruct dir; reflexivity).
  clear -Hc. revert root Hc. induction p as [|i p IH]; intros root; simpl; [by intros [= ->]|].
  destruct (Children root !! i) as [child|] eqn:E; [|done]. intros Hc.
  destruct root as [r0 d0|r0 dir0 ch]; [done|]. simpl in *. f_equal. apply list_eq. intros j.
  rewrite !lookup_updNth. repeat case_decide; try done. subst j. rewrite E. simpl. f_equal. by apply IH.
Qed.

Lemma split_close_roundtrip_witness :
  exists root' q, splitWithOrder sampleTree [0%nat] SplitHorizontal 9 false = Ok (root', q) /\
    Close root' q = (sampleTree, Some [0%nat]).
Proof.
  apply (split_close_roundtrip sampleTree [0%nat] SplitHorizontal 9 false (mkRect 0 0 9 9) (Some 1)).
  - apply sampleTree_wf.
  - reflexivity.
  - vm_compute. discriminate.
  - intros pp idx [= <- <-]. discriminate.
Defined.

(** A split that has room succeeds: the tree stays well-formed in the same
    rectangle, the leaves hold the old panes and the new one, and the returned
    cell is the new pane's leaf; without room it fails and says how much there
    was. *)
Theorem split_correct root p dir new first r d :
  wf root -> cellAt p root = Some (Leaf r d) ->
  if 2 * PaneMinSize + 1 <=? rAxis dir r then
    exists root' q, splitWithOrder root p dir new first = Ok (root', q) /\
      wf root' /\ cellRect root' = cellRect root /\ cellPanes root' ≡ₚ Some new :: cellPanes root /\
      exists r' d', cellAt q root' = Some (Leaf r' d') /\ Pane d' = Some new
  else splitWithOrder root p dir new first = Err (errNoSpace (rAxis dir r) (2 * PaneMinSize + 1)).
Proof.
  intros Hwf Hc. destruct (Z.leb_spec (2 * PaneMinSize + 1) (rAxis dir r)).
  - exact (splitWithOrder_correct root p dir new first r d Hwf Hc H).
  - unfold splitWithOrder. rewrite Hc. by rewrite (proj2 (Z.ltb_lt _ _) H).
Qed.

Lemma split_correct_witness :
  exists root' q, splitWithOrder sampleTree [1%nat; 0%nat] SplitVertical 9 true = Ok (root', q) /\
      wf root' /\ cellRect root' = cellRect sampleTree /\
      cellPanes root' ≡ₚ Some 9 :: cellPanes sampleTree /\
      exists r' d', cellAt q root' = Some (Leaf r' d') /\ Pane d' = Some 9.
Proof.
  exact (split_correct sampleTree [1%nat; 0%nat] SplitVertical 9 true _ _ sampleTree_wf eq_refl).
Defined.

(** Closing a cell below the root leaves a well-formed tree in the same
    rectangle without that cell's panes, and returns a cell of the new tree. *)
Theorem close_correct root p c :
  wf root -> p <> [] -> cellAt p root = Some c ->
  exists root' q, Close root p = (root', Some q) /\
    wf root' /\ cellRect root' = cellRect root /\ cellPanes root ≡ₚ cellPanes c ++ cellPanes root' /\
    is_Some (cellAt q root').
Proof. apply Close_correct. Qed.

Lemma close_correct_witness :
  exists root' q, Close sampleTree [1%nat; 1%nat] = (root', Some q) /\
    wf root' /\ cellRect root' = cellRect sampleTree /\
    cellPanes sampleTree ≡ₚ cellPanes (NewLeaf (Some 3) 10 5 10 4) ++ cellPanes root' /\
    is_Some (cellAt q root').
Proof. apply close_correct; [apply sampleTree_wf|discriminate|reflexivity]. Defined.

(** ** Resizing *)

(** ResizeAll gives a well-formed tree the new terminal size, or its minimum
    size where the terminal is smaller, and changes nothing but sizes and
    positions; at the tree's own size it changes nothing at all. *)
Theorem ResizeAll_correct w h c :
  wf c -> positioned c ->
  let c' := ResizeAll w h c in
  wf c' /\ positioned c' /\ skeleton c' = skeleton c /\ cX c' = cX c /\ cY c' = cY c /\
  cW c' = Z.max w (minSubtreeSize SplitVertical c) /\
  cH c' = Z.max h (minSubtreeSize SplitHorizontal c) /\
  ResizeAll (cW c) (cH c) c = c.
Proof.
  intros Hwf Hpos c'. destruct (ResizeAll_resizedTo w h c Hwf) as (? & ? & ? & ? & ? & ? & ?).
  split_and!; try done. unfold ResizeAll, resizeToAxis.
  change (axisSize SplitVertical c) with (cW c). rewrite Z.eqb_refl.
  change (axisSize SplitHorizontal c) with (cH c). rewrite Z.eqb_refl. exact Hpos.
Qed.

Lemma ResizeAll_correct_witness :
  let c' := ResizeAll 31 4 sampleTree in
  wf c' /\ positioned c' /\ skeleton c' = skeleton sampleTree /\ cX c' = cX sampleTree /\ cY c' = cY sampleTree /\
  cW c' = Z.max 31 (minSubtreeSize SplitVertical sampleTree) /\
  cH c' = Z.max 4 (minSubtreeSize SplitHorizontal sampleTree) /\
  ResizeAll (cW sampleTree) (cH sampleTree) sampleTree = sampleTree.
Proof. apply ResizeAll_correct; [apply sampleTree_wf|reflexivity]. Defined.

(** ResizeSubtree repairs any tree of at least two children per split,
    whatever its sizes: the result is well-formed, positioned, of the requested
    size or of the minimum size, with the same panes and splits. *)
Theorem ResizeSubtree_correct c w h :
  shaped c ->
  let c' := ResizeSubtree c w h in
  wf c' /\ positioned c' /\ skeleton c' = skeleton c /\ cX c' = cX c /\ cY c' = cY c /\
  cW c' = Z.max w (minSubtreeSize SplitVertical c) /\
  cH c' = Z.max h (minSubtreeSize SplitHorizontal c).
Proof. apply ResizeSubtree_spec. Qed.

Lemma ResizeSubtree_correct_witness :
  let c := Node zeroRect SplitVertical [NewLeaf (Some 1) 0 0 0 0; NewLeaf (Some 2) 0 0 40 1] in
  let c' := ResizeSubtree c 7 3 in
  wf c' /\ positioned c' /\ skeleton c' = skeleton c /\ cX c' = cX c /\ cY c' = cY c /\
  cW c' = Z.max 7 (minSubtreeSize SplitVertical c) /\
  cH c' = Z.max 3 (minSubtreeSize SplitHorizontal c).
Proof. apply ResizeSubtree_correct. repeat constructor. Defined.

(** Moving one outer edge of a subtree sets its size along that axis to the
    target, or to the minimum where the target is less, and changes neither its
    size across, nor its splits and panes, nor its position. *)
Theorem resizeToAxisFromEdge_correct axis target edge c :
  wf c ->
  let c' := resizeToAxisFromEdge axis target edge c in
  wf c' /\ axisSize axis c' = Z.max target (minSubtreeSize axis c) /\
  axisSize (other axis) c' = axisSize (other axis) c /\ skeleton c' = skeleton c /\
  cX c' = cX c /\ cY c' = cY c.
Proof.
  intros Hwf. destruct (resizeToAxisFromEdge_spec axis target edge c Hwf) as [(? & ? & ? & ? & ?) ?].
  by split_and!.
Qed.

Lemma resizeToAxisFromEdge_correct_witness :
  let c' := resizeToAxisFromEdge SplitHorizontal 6 resizeFromEnd sampleTree in
  wf c' /\ axisSize SplitHorizontal c' = Z.max 6 (minSubtreeSize SplitHorizontal sampleTree) /\
  axisSize (other SplitHorizontal) c' = axisSize (other SplitHorizontal) sampleTree /\
  skeleton c' = skeleton sampleTree /\ cX c' = cX sampleTree /\ cY c' = cY sampleTree.
Proof. apply resizeToAxisFromEdge_correct. apply sampleTree_wf. Defined.

(** resizeCheck is exact: it is the distance of a subtree to its minimum
    size, shrinking by any amount up to it is carried out in full, and no resize
    goes below. *)
Theorem resizeCheck_exact axis c k :
  wf c ->
  resizeCheck axis c = axisSize axis c - minSubtreeSize axis c /\
  (0 <= k <= resizeCheck axis c ->
     axisSize axis (resizeToAxis axis (axisSize axis c - k) c) = axisSize axis c - k) /\
  (resizeCheck axis c <= k ->
     axisSize axis (resizeToAxis axis (axisSize axis c - k) c) = minSubtreeSize axis c).
Proof.
  intros Hwf. pose proof (resizeCheck_wf axis c Hwf) as Hc.
  destruct (resizeToAxis_spec axis (axisSize axis c - k) c Hwf) as [_ Hs].
  split_and!; [done|intros; lia|intros; lia].
Qed.

Lemma resizeCheck_exact_witness :
  resizeCheck SplitHorizontal sampleTree
    = axisSize SplitHorizontal sampleTree - minSubtreeSize SplitHorizontal sampleTree /\
  (0 <= 3 <= resizeCheck SplitHorizontal sampleTree ->
     axisSize SplitHorizontal (resizeToAxis SplitHorizontal (axisSize SplitHorizontal sampleTree - 3) sampleTree)
       = axisSize SplitHorizontal sampleTree - 3) /\
  (resizeCheck SplitHorizontal sampleTree <= 3 ->
     axisSize SplitHorizontal (resizeToAxis SplitHorizontal (axisSize SplitHorizontal sampleTree - 3) sampleTree)
       = minSubtreeSize SplitHorizontal sampleTree).
Proof. apply resizeCheck_exact. apply sampleTree_wf. Defined.

(** ** Dividing space *)

(** The proportional distribution is a fair one: it has one size per child,
    hands out exactly the space there is (or the minimum for all), gives no
    child less than a pane, and each child its exact share of the surplus
    rounded down or up. *)
Theorem proportional_distribution children target :
  children <> [] ->
  let out := proportionalSizes children target in
  let extra := childExtra children target in
  let total := sumZ (map childWeight children) in
  length out = length children /\
  sumZ out = Z.max (target - (lenZ children - 1)) (PaneMinSize * lenZ children) /\
  Forall (fun s => PaneMinSize <= s) out /\
  (0 < total -> forall i s o, children !! i = Some s -> out !! i = Some o ->
     PaneMinSize + Z.quot (extra * childWeight s) total <= o
       <= PaneMinSize + Z.quot (extra * childWeight s) total + 1).
Proof.
  intros Hne out extra total. split_and!.
  - apply length_proportionalSizes.
  - unfold out. rewrite sum_proportionalSizes by done. unfold childExtra. lia.
  - by apply proportionalSizes_min.
  - intros Ht i s o Hs Ho. by apply (proportionalSizes_quota children target Hne i s o).
Qed.

Lemma proportional_distribution_witness :
  let out := proportionalSizes [7; 3; 9] 30 in
  let extra := childExtra [7; 3; 9] 30 in
  let total := sumZ (map childWeight [7; 3; 9]) in
  length out = length [7; 3; 9] /\
  sumZ out = Z.max (30 - (lenZ [7; 3; 9] - 1)) (PaneMinSize * lenZ [7; 3; 9]) /\
  Forall (fun s => PaneMinSize <= s) out /\
  (0 < total -> forall i s o, [7; 3; 9] !! i = Some s -> out !! i = Some o ->
     PaneMinSize + Z.quot (extra * childWeight s) total <= o
       <= PaneMinSize + Z.quot (extra * childWeight s) total + 1).
Proof. apply proportional_distribution. discriminate. Defined.

(** The distribution is stable: dividing the space the children already
    fill among them gives every child the size it has. *)
Theorem proportional_stable children :
  Forall (fun s => PaneMinSize <= s) children ->
  proportionalSizes children (sumZ children + (lenZ children - 1)) = children.
Proof. apply proportionalSizes_stable. Qed.

Lemma proportional_stable_witness :
  proportionalSizes [7; 3; 9] (sumZ [7; 3; 9] + (lenZ [7; 3; 9] - 1)) = [7; 3; 9].
Proof. apply proportional_stable. repeat constructor; discriminate. Defined.

(** The 64-bit products of the distribution do not overflow for sizes below
    2^31. *)
Theorem proportional_no_overflow children target :
  Forall (fun s => s < 2 ^ 31) children -> target < 2 ^ 31 ->
  Forall (fun numerator => 0 <= numerator <= maxInt64) (proportionalNumerators children target).
Proof.
  intros HF Ht. unfold proportionalNumerators. rewrite map_map, Forall_map_iff.
  eapply Forall_impl; [exact HF|]. intros s Hs. simpl in Hs.
  pose proof (childWeight_nonneg s). pose proof (lenZ_nonneg children).
  assert (childWeight s < 2 ^ 31) by (unfold childWeight, PaneMinSize in *; zb; lia).
  assert (0 <= childExtra children target <= 2 ^ 31) by (unfold childExtra, PaneMinSize; lia).
  unfold maxInt64. nia.
Qed.

Lemma proportional_no_overflow_witness :
  Forall (fun numerator => 0 <= numerator <= maxInt64)
    (proportionalNumerators [2147483647; 80; 120] 2147483647).
Proof. apply proportional_no_overflow; [repeat (constructor; [vm_compute; reflexivity|]); constructor|reflexivity]. Defined.

(** Raising sizes to minimums succeeds exactly when the minimums fit in the
    total, and then keeps the total; sizes already large enough are untouched. *)
Theorem raise_correct sizes minimums :
  length sizes = length minimums ->
  let '(out, ok) := raiseSizesToMinimums sizes minimums in
  length out = length sizes /\ Forall2 Z.le minimums out /\
  (ok = true <-> sumZ minimums <= sumZ sizes) /\ (ok = true -> sumZ out = sumZ sizes) /\
  (Forall2 Z.le minimums sizes -> out = sizes).
Proof.
  intros Hl. pose proof (raiseSizesToMinimums_spec sizes minimums Hl) as H.
  pose proof (raise_id sizes minimums) as Hid. destruct (raiseSizesToMinimums sizes minimums) as [out ok].
  destruct H as (? & ? & ? & ?). split_and!; auto. intros HF. specialize (Hid HF). congruence.
Qed.

Lemma raise_correct_witness :
  let '(out, ok) := raiseSizesToMinimums [3; 3; 9] [2; 5; 5] in
  length out = length [3; 3; 9] /\ Forall2 Z.le [2; 5; 5] out /\
  (ok = true <-> sumZ [2; 5; 5] <= sumZ [3; 3; 9]) /\ (ok = true -> sumZ out = sumZ [3; 3; 9]) /\
  (Forall2 Z.le [2; 5; 5] [3; 3; 9] -> out = [3; 3; 9]).
Proof. exact (raise_correct [3; 3; 9] [2; 5; 5] eq_refl). Defined.

(** Equalizing along an axis visits the whole tree: the recursion depth the
    model allows is enough (more changes nothing), and the result is
    well-formed, of the same outer size, with the same splits and panes. *)
Theorem equalizeAxisRecursive_total axis c fuel :
  wf c -> (height c <= fuel)%nat ->
  equalizeAxisRecursive_fuel fuel axis c = equalizeAxisRecursive axis c /\
  wf (equalizeAxisRecursive axis c) /\ sameSize c (equalizeAxisRecursive axis c) /\
  skeleton (equalizeAxisRecursive axis c) = skeleton c.
Proof.
  intros Hwf Hf. split; [by apply equalizeAxisRecursive_fuel_enough|by apply equalizeAxisRecursive_wf].
Qed.

Lemma equalizeAxisRecursive_total_witness :
  equalizeAxisRecursive_fuel 8 SplitHorizontal sampleTree = equalizeAxisRecursive SplitHorizontal sampleTree /\
  wf (equalizeAxisRecursive SplitHorizontal sampleTree) /\
  sameSize sampleTree (equalizeAxisRecursive SplitHorizontal sampleTree) /\
  skeleton (equalizeAxisRecursive SplitHorizontal sampleTree) = skeleton sampleTree.
Proof. apply equalizeAxisRecursive_total; [apply sampleTree_wf|vm_compute; lia]. Defined.
