(* ===== verification/WindowState.v ===== *)
(** * Windows: state, pane sizes, focus, zoom and lead
    (internal/mux/window.go, window_resize.go, window_navigate.go, lead.go)

    A [Window] is the layout tree with the focus, zoom, lead and ultra state.
    The panes the tree points to live in a store keyed by pane ID; the package
    counter of window_navigate.go is a field of the state.  Methods are state
    transformers, and those that can fail are in the monad [M Window]. *)

From S2P Require Import Prelude LayoutSizes LayoutTree.

(** ** State *)

(** What a window reads and writes of a pane: the emulator size, the focus
    recency, whether the pane is a proxy and for which host, and whether the
    operating system refuses to resize its PTY. *)
Record PaneState : Set := mkPaneState {
  paneCols : Z; paneRows : Z; ActivePoint : Z;
  isProxy : bool; paneHost : string; ptyFails : bool }.

(** UltraLayout is the fixed-slot paginated grid; an empty slot is None. *)
Record UltraLayout : Set := mkUltraLayout {
  uRows : Z; uCols : Z; uPage : Z; uSlots : list (option Z); AutoPromote : bool }.

Record Window : Type := mkWindow {
  Root : LayoutCell;
  ActivePane : option Z;
  Width : Z; Height : Z;
  ZoomedPaneID : Z;
  LeadPaneID : Z;
  Ultra : option UltraLayout;
  ultraLead : option Z;
  panes : gmap Z PaneState;
  activePointCounter : Z }.

Definition setRoot (c : LayoutCell) (w : Window) : Window :=
  mkWindow c (ActivePane w) (Width w) (Height w) (ZoomedPaneID w) (LeadPaneID w) (Ultra w)
    (ultraLead w) (panes w) (activePointCounter w).
Definition setActivePane (p : option Z) (w : Window) : Window :=
  mkWindow (Root w) p (Width w) (Height w) (ZoomedPaneID w) (LeadPaneID w) (Ultra w)
    (ultraLead w) (panes w) (activePointCounter w).
Definition setSize (width height : Z) (w : Window) : Window :=
  mkWindow (Root w) (ActivePane w) width height (ZoomedPaneID w) (LeadPaneID w) (Ultra w)
    (ultraLead w) (panes w) (activePointCounter w).
Definition setZoomed (id : Z) (w : Window) : Window :=
  mkWindow (Root w) (ActivePane w) (Width w) (Height w) id (LeadPaneID w) (Ultra w)
    (ultraLead w) (panes w) (activePointCounter w).
Definition setLeadID (id : Z) (w : Window) : Window :=
  mkWindow (Root w) (ActivePane w) (Width w) (Height w) (ZoomedPaneID w) id (Ultra w)
    (ultraLead w) (panes w) (activePointCounter w).
Definition setUltra (u : option UltraLayout) (w : Window) : Window :=
  mkWindow (Root w) (ActivePane w) (Width w) (Height w) (ZoomedPaneID w) (LeadPaneID w) u
    (ultraLead w) (panes w) (activePointCounter w).
Definition setUltraLead (p : option Z) (w : Window) : Window :=
  mkWindow (Root w) (ActivePane w) (Width w) (Height w) (ZoomedPaneID w) (LeadPaneID w) (Ultra w)
    p (panes w) (activePointCounter w).
Definition setPanes (ps : gmap Z PaneState) (w : Window) : Window :=
  mkWindow (Root w) (ActivePane w) (Width w) (Height w) (ZoomedPaneID w) (LeadPaneID w) (Ultra w)
    (ultraLead w) ps (activePointCounter w).
Definition setCounter (n : Z) (w : Window) : Window :=
  mkWindow (Root w) (ActivePane w) (Width w) (Height w) (ZoomedPaneID w) (LeadPaneID w) (Ultra w)
    (ultraLead w) (panes w) n.

(** SplitOptions controls pane-splitting behavior. *)
Record SplitOptions : Set := mkSplitOptions {
  KeepFocus : bool; TreatLeadPaneAsWindowRef : bool }.
Definition defaultSplitOptions : SplitOptions := mkSplitOptions false false.

(** The errors the methods return, one constructor per message. *)
Inductive WindowError : Set :=
| errLayout (e : LayoutError)
| errResizePTY
| errNoRoot                             (* window has no layout root *)
| errNotZoomed                          (* no pane is zoomed *)
| errPaneNotFound (id : Z)              (* pane %d not found in layout *)
| errRootNoSpace (available required : Z)
| errLeadPane                           (* cannot operate on lead pane *)
| errUltraLayout                        (* not supported in ultra layout *)
| errLastPane                           (* cannot close last pane *)
| errZoomSingle                         (* cannot zoom with only one pane *)
| errNoRootSplit                        (* window has no root-level split *)
| errSameGroup (id1 id2 : Z)            (* panes are in the same root-level group *)
| errNotInSplitGroup (id : Z)
| errAlreadyFirst (id : Z)
| errAlreadyLast (id : Z)
| errActiveNotFound                     (* active pane not found in layout *)
| errCrossLead                          (* cannot move panes across lead column *)
| errColumnNoSpace (available required : Z)
| errNoLead                             (* no lead pane set *)
| errNoSplicePanes                      (* no panes to splice *)
| errSpliceNoSpace (n totalW : Z)
| errNoSpliced (host : string)          (* no spliced panes found for host *)
| errNoPanes                            (* window has no panes *)
| errNotUltra                           (* window is not in ultra layout *)
| errPageRange (page pages : Z)
| errUltraRows (rows : Z)
| errUltraCols (cols : Z)
| errUltraCells.

Abbreviation MW := (M Window WindowError).

(** ** Pane sizes *)

Definition StatusLineRows : Z := 1.

Definition PaneContentHeight (cellH : Z) : Z :=
  let h := cellH - StatusLineRows in if h <? 1 then 1 else h.

(** Pane.Resize: the emulator takes the new size; the PTY is resized only when
    the size changes, and that system call may fail. *)
Definition paneResize (id cols rows : Z) : MW unit := fun w =>
  match panes w !! id with
  | None => (w, Ok tt)
  | Some p =>
      let sizeChanged := negb (paneCols p =? cols) || negb (paneRows p =? rows) in
      let p' := mkPaneState cols rows (ActivePoint p) (isProxy p) (paneHost p) (ptyFails p) in
      let w := setPanes (<[id := p']> (panes w)) w in
      if sizeChanged && ptyFails p then (w, Err errResizePTY) else (w, Ok tt)
  end.

(** [_ = p.Resize(cols, rows)] *)
Definition paneResize_ (id cols rows : Z) (w : Window) : Window := fst (paneResize id cols rows w).

(** [p.Resize(c.W, PaneContentHeight(c.H))] for the pane of a cell, if any. *)
Definition resizeCellPane (r : Rect) (pane : option Z) : MW unit :=
  match pane with
  | Some id => paneResize id (rW r) (PaneContentHeight (rH r))
  | None => ret tt
  end.

Definition resizePTYsExcept (excluded : Z) (w : Window) : Window :=
  fold_left (fun w e =>
    match Pane e.2.2 with
    | None => w
    | Some id =>
        if negb (excluded =? 0) && (id =? excluded) then w
        else paneResize_ id (rW e.2.1) (PaneContentHeight (rH e.2.1)) w
    end) (Walk (Root w)) w.

Definition resizePTYs (w : Window) : Window := resizePTYsExcept 0 w.

Definition restoreZoomedPaneSize (w : Window) : Window :=
  if ZoomedPaneID w =? 0 then w
  else
    match FindPane (ZoomedPaneID w) (Root w) with
    | None => w
    | Some _ =>
        let targetRows := PaneContentHeight (Height w) in
        match panes w !! ZoomedPaneID w with
        | Some p =>
            if (paneCols p =? Width w) && (paneRows p =? targetRows) then w
            else paneResize_ (ZoomedPaneID w) (Width w) targetRows w
        | None => w
        end
    end.

Definition resizePTYsPreservingZoomedPaneSize (w : Window) : Window :=
  if ZoomedPaneID w =? 0 then resizePTYs w
  else restoreZoomedPaneSize (resizePTYsExcept (ZoomedPaneID w) w).

Definition finishTreeMutation (w : Window) : Window :=
  resizePTYs (setRoot (FixOffsets (Root w)) w).
Definition finishTreeMutationPreservingZoomedPaneSize (w : Window) : Window :=
  resizePTYsPreservingZoomedPaneSize (setRoot (FixOffsets (Root w)) w).

(** ** Focus *)

(** setActive updates the active pane and its recency (a uint64 counter). *)
Definition setActive (id : Z) (w : Window) : Window :=
  let n := (activePointCounter w + 1) mod 2 ^ 64 in
  let w := setCounter n (setActivePane (Some id) w) in
  match panes w !! id with
  | Some p =>
      setPanes (<[id := mkPaneState (paneCols p) (paneRows p) n (isProxy p) (paneHost p) (ptyFails p)]>
                 (panes w)) w
  | None => w
  end.

(** [w.ActivePane != nil && w.ActivePane.ID == id] *)
Definition isActive (id : Z) (w : Window) : bool := bool_decide (ActivePane w = Some id).

(** The ID of the active pane, 0 when there is none. *)
Definition activeID (w : Window) : Z := default 0 (ActivePane w).

(** ** Looking panes up *)

Definition mustFindPane (paneID : Z) : MW path := fun w =>
  match FindPane paneID (Root w) with
  | Some p => (w, Ok p)
  | None => (w, Err (errPaneNotFound paneID))
  end.

Definition rectAt (p : path) (w : Window) : Rect :=
  match cellAt p (Root w) with Some c => cellRect c | None => mkRect 0 0 0 0 end.
Definition paneAt (p : path) (w : Window) : option Z := cellAt p (Root w) ≫= leafPane.

(** The panes of the leaves below a cell, in walk order (nil panes left out). *)
Definition panesOf (c : LayoutCell) : list Z := omap (fun e => Pane e.2.2) (Walk c).

(** The first pane of a subtree: the callback keeps the first it sees. *)
Definition firstPaneInSubtree (c : LayoutCell) : option Z := head (panesOf c).

(** The number of leaves, with or without a pane. *)
Definition leafCount (c : LayoutCell) : Z := lenZ (Walk c).

(** ** Zoom *)

Definition Unzoom : MW unit := fun w =>
  if ZoomedPaneID w =? 0 then (w, Err errNotZoomed)
  else
    let paneID := ZoomedPaneID w in
    let w := setZoomed 0 w in
    match FindPane paneID (Root w) with
    | Some p => resizeCellPane (rectAt p w) (paneAt p w) w
    | None => (w, Ok tt)
    end.

(** [if w.ZoomedPaneID != 0 && cond { if err := w.Unzoom(); err != nil ... }] *)
Definition unzoomIf (cond : bool) : MW unit := fun w =>
  if negb (ZoomedPaneID w =? 0) && cond then Unzoom w else (w, Ok tt).

(** ** Lead *)

Definition IsLeadPane (paneID : Z) (w : Window) : bool :=
  negb (LeadPaneID w =? 0) && (LeadPaneID w =? paneID).

(** The anchored lead form: a vertical root with exactly two children and the
    lead pane in child 0. *)
Definition hasAnchoredLead (w : Window) : bool :=
  negb (LeadPaneID w =? 0) &&
  match Root w with
  | Node _ SplitVertical [Leaf _ d; _] => bool_decide (Pane d = Some (LeadPaneID w))
  | _ => false
  end.

(** logicalRoot and logicalRootTarget, as the pointer to the cell. *)
Definition logicalRoot (w : Window) : path := if hasAnchoredLead w then [1%nat] else [].
Definition logicalRootCell (w : Window) : LayoutCell :=
  match cellAt (logicalRoot w) (Root w) with Some c => c | None => Root w end.
Definition leadColumn (w : Window) : option path :=
  if hasAnchoredLead w then Some [0%nat] else None.

Definition hasPendingLead (w : Window) : bool :=
  negb (LeadPaneID w =? 0) &&
  match Root w with
  | Leaf _ d => bool_decide (Pane d = Some (LeadPaneID w))
  | Node _ _ _ => false
  end.

(** ** A new window *)

(** The package-level state a window starts from: the panes that exist and the
    focus counter. *)
Definition NewWindow (pane width height : Z) (ps : gmap Z PaneState) (counter : Z) : Window :=
  mkWindow (NewLeaf (Some pane) 0 0 width height) (Some pane) width height 0 0 None None ps counter.
