(* ===== verification/Ultra.v ===== *)
(** * The ultra layout (internal/mux/ultra.go)

    A fixed grid of slots with pages: cell 0 is the lead pane on every page,
    the other cells show agent slots.  The visible page is rebuilt into the
    layout tree after every change of the slot table. *)

From S2P Require Import Prelude LayoutSizes LayoutTree WindowState.

Definition DefaultUltraRows : Z := 2.
Definition DefaultUltraCols : Z := 3.
Definition MaxUltraRows : Z := 8.
Definition MaxUltraCols : Z := 8.

(** ** The slot table *)

Definition withSlots (slots : list (option Z)) (u : UltraLayout) : UltraLayout :=
  mkUltraLayout (uRows u) (uCols u) (uPage u) slots (AutoPromote u).
Definition withPage (page : Z) (u : UltraLayout) : UltraLayout :=
  mkUltraLayout (uRows u) (uCols u) page (uSlots u) (AutoPromote u).

(** AgentSlotsPerPage returns the number of agent cells on one page. *)
Definition AgentSlotsPerPage (u : UltraLayout) : Z :=
  let n := uRows u * uCols u - 1 in if n <? 1 then 1 else n.

(** PageCount returns the number of pages (always >= 1). *)
Definition PageCount (u : UltraLayout) : Z :=
  let per := AgentSlotsPerPage u in
  let pages := Z.quot (lenZ (uSlots u) + per - 1) per in
  if pages <? 1 then 1 else pages.

(** SlotOf returns the agent slot index holding paneID; None is -1. *)
Fixpoint slotIndex (paneID : Z) (i : nat) (slots : list (option Z)) : option nat :=
  match slots with
  | [] => None
  | s :: rest => if bool_decide (s = Some paneID) then Some i else slotIndex paneID (S i) rest
  end.
Definition SlotOf (paneID : Z) (u : UltraLayout) : option nat := slotIndex paneID 0 (uSlots u).

Definition PageOfSlot (slot : Z) (u : UltraLayout) : Z := Z.quot slot (AgentSlotsPerPage u).

(** SlotIDs returns the slot table as pane IDs (0 = empty). *)
Definition SlotIDs (u : UltraLayout) : list Z := map (default 0) (uSlots u).

Definition clampPage (u : UltraLayout) : UltraLayout :=
  let u := if uPage u <? 0 then withPage 0 u else u in
  let last := PageCount u - 1 in
  if last <? uPage u then withPage last u else u.

(** The loop of trimEmptyPages; each round drops a whole page, so the number of
    slots is enough fuel. *)
Fixpoint trimLoop (fuel : nat) (per : Z) (slots : list (option Z)) : list (option Z) :=
  match fuel with
  | O => slots
  | S fuel =>
      if per <? lenZ slots then
        let start := Z.quot (lenZ slots - 1) per * per in
        if forallb (fun p => bool_decide (p = None)) (drop (Z.to_nat start) slots)
        then trimLoop fuel per (take (Z.to_nat start) slots)
        else slots
      else slots
  end.
Definition trimEmptyPages (u : UltraLayout) : UltraLayout :=
  clampPage (withSlots (trimLoop (length (uSlots u)) (AgentSlotsPerPage u) (uSlots u)) u).

(** insert places the pane in the lowest empty slot (appending when full). *)
Fixpoint insertSlot (pane : Z) (i : nat) (slots : list (option Z)) : list (option Z) * nat :=
  match slots with
  | [] => ([Some pane], i)
  | None :: rest => (Some pane :: rest, i)
  | Some p :: rest => let '(rest, j) := insertSlot pane (S i) rest in (Some p :: rest, j)
  end.
Definition ultraSlotInsert (pane : Z) (u : UltraLayout) : UltraLayout * nat :=
  let '(slots, i) := insertSlot pane 0 (uSlots u) in (withSlots slots u, i).

Definition ValidateUltraGrid (rows cols : Z) : result WindowError unit :=
  if (rows <? 1) || (MaxUltraRows <? rows) then Err (errUltraRows rows)
  else if (cols <? 1) || (MaxUltraCols <? cols) then Err (errUltraCols cols)
  else if rows * cols <? 2 then Err errUltraCells
  else Ok tt.

(** ** Visibility *)

Definition IsUltra (w : Window) : bool := match Ultra w with Some _ => true | None => false end.

Definition ultraVisible (paneID : Z) (w : Window) : bool :=
  match Ultra w with
  | None => true
  | Some u =>
      if negb (LeadPaneID w =? 0) && (paneID =? LeadPaneID w) then true
      else match SlotOf paneID u with
           | None => false
           | Some idx => PageOfSlot (Z.of_nat idx) u =? uPage u
           end
  end.

Definition UltraPaneHidden (paneID : Z) (w : Window) : bool :=
  match Ultra w with
  | None => false
  | Some u => bool_decide (is_Some (SlotOf paneID u)) && negb (ultraVisible paneID w)
  end.

(** ultraPanes returns lead + all slot panes (visible and hidden) in order. *)
Definition ultraPanes (u : UltraLayout) (w : Window) : list Z :=
  (if LeadPaneID w =? 0 then [] else option_list (ultraLead w)) ++ omap id (uSlots u).

(** ** Rebuilding the tree *)

(** The pane and the slot number of cell [k] of the visible page. *)
Definition gridPane (u : UltraLayout) (lead : option Z) (start k : Z) : option Z :=
  if k =? 0 then lead
  else match uSlots u !! Z.to_nat (start + k - 1) with Some p => p | None => None end.
Definition gridSlotNum (start k : Z) : Z := if k =? 0 then -1 else start + k.

Definition gridLeaf (u : UltraLayout) (lead : option Z) (start k x y w h : Z) : LayoutCell :=
  Leaf (mkRect x y w h)
    (mkLeafData (gridPane u lead start k) 0 (gridSlotNum start k) (k =? 0)).

Fixpoint gridRow (u : UltraLayout) (lead : option Z) (start k xoff yoff h : Z) (colW : list Z)
  : list LayoutCell :=
  match colW with
  | [] => []
  | cw :: rest =>
      gridLeaf u lead start k xoff yoff cw h
        :: gridRow u lead start (k + 1) (xoff + cw + 1) yoff h rest
  end.

Fixpoint gridRows (u : UltraLayout) (lead : option Z) (start width r yoff : Z) (colW rowH : list Z)
  : list LayoutCell :=
  match rowH with
  | [] => []
  | h :: rest =>
      (if uCols u =? 1 then gridLeaf u lead start r 0 yoff width h
       else Node (mkRect 0 yoff width h) SplitVertical
              (gridRow u lead start (r * uCols u) 0 yoff h colW))
        :: gridRows u lead start width (r + 1) (yoff + h + 1) colW rest
  end.

Definition gridRoot (u : UltraLayout) (lead : option Z) (width height : Z) : LayoutCell :=
  let start := uPage u * AgentSlotsPerPage u in
  let rowH := map (atLeast PaneMinSize) (equalSplitSizes height (uRows u)) in
  let colW := map (atLeast PaneMinSize) (equalSplitSizes width (uCols u)) in
  let rows := gridRows u lead start width 0 0 colW rowH in
  let root := match rows with
              | [row] => row
              | _ => Node (mkRect 0 0 width height) SplitHorizontal rows
              end in
  FixOffsets root.

(** The lead pane as rebuildUltraTree sees it. *)
Definition visibleLead (w : Window) : option Z :=
  if LeadPaneID w =? 0 then None else ultraLead w.

(** Keep the active pane on the visible page. *)
Definition ultraRefocus (u : UltraLayout) (w : Window) : Window :=
  let visible := match ActivePane w with Some id => ultraVisible id w | None => false end in
  if visible then w
  else match visibleLead w with
       | Some lead => setActive lead w
       | None =>
           match firstPaneInSubtree (Root w) with
           | Some p => setActive p w
           | None => match omap id (uSlots u) with p :: _ => setActive p w | [] => w end
           end
       end.

Definition nthZ (l : list Z) (i : nat) : Z := default 0 (l !! i).

(** Size hidden panes like an agent cell. *)
Definition ultraSizeHidden (u : UltraLayout) (w : Window) : Window :=
  let per := AgentSlotsPerPage u in
  let start := uPage u * per in
  if uRows u * uCols u <=? 1 then w
  else
    let rowH := map (atLeast PaneMinSize) (equalSplitSizes (Height w) (uRows u)) in
    let colW := map (atLeast PaneMinSize) (equalSplitSizes (Width w) (uCols u)) in
    let agent :=
      if 1 <? uCols u then FindLeafAt (nthZ colW 0 + 1) 0 (Root w)
      else if 1 <? uRows u then FindLeafAt 0 (nthZ rowH 0 + 1) (Root w)
      else FindLeafAt 0 0 (Root w) in
    match agent with
    | None => w
    | Some p =>
        let r := rectAt p w in
        fold_left (fun w e =>
          match e.2 with
          | None => w
          | Some id =>
              if (start <=? Z.of_nat e.1) && (Z.of_nat e.1 <? start + per) then w
              else paneResize_ id (rW r) (PaneContentHeight (rH r)) w
          end) (imap pair (uSlots u)) w
    end.

Definition rebuildUltraTree (w : Window) : Window :=
  match Ultra w with
  | None => w
  | Some u =>
      let u := clampPage u in
      let w := setUltra (Some u) w in
      let w := setRoot (gridRoot u (visibleLead w) (Width w) (Height w)) w in
      let w := ultraRefocus u w in
      ultraSizeHidden u (resizePTYsPreservingZoomedPaneSize w)
  end.

(** ** Paging *)

(** ultraShowPane switches to the page holding paneID. *)
Definition ultraShowPane (paneID : Z) (w : Window) : Window * bool :=
  match Ultra w with
  | None => (w, false)
  | Some u =>
      if ultraVisible paneID w then (w, false)
      else match SlotOf paneID u with
           | None => (w, false)
           | Some idx =>
               (rebuildUltraTree (setUltra (Some (withPage (PageOfSlot (Z.of_nat idx) u) u)) w), true)
           end
  end.

Definition ultraShowPaneIfActive (w : Window) : Window :=
  match Ultra w, ActivePane w with
  | Some u, Some id =>
      match SlotOf id u with
      | Some idx => setUltra (Some (withPage (PageOfSlot (Z.of_nat idx) u) u)) w
      | None => w
      end
  | _, _ => w
  end.

Definition UltraSetPage (page : Z) : MW unit :=
  do w <- get;
  match Ultra w with
  | None => throw errNotUltra
  | Some u =>
      if (page <? 0) || (PageCount u <=? page) then throw (errPageRange (page + 1) (PageCount u))
      else
        run unzoomIf true;
        modify (fun w =>
          match Ultra w with
          | Some u => rebuildUltraTree (setUltra (Some (withPage page u)) w)
          | None => w
          end)
  end.

(** UltraStepPage moves delta pages, wrapping around. *)
Definition UltraStepPage (delta : Z) : MW unit :=
  do w <- get;
  match Ultra w with
  | None => throw errNotUltra
  | Some u =>
      let n := PageCount u in
      UltraSetPage (Z.rem (Z.rem (uPage u + delta) n + n) n)
  end.

(** ** Entering and leaving *)

Definition EnableUltra (rows cols : Z) (autoPromote : bool) : MW unit :=
  run lift (ValidateUltraGrid rows cols);
  run unzoomIf true;
  do w <- get;
  match Ultra w with
  | Some u =>
      modify (fun w =>
        rebuildUltraTree (ultraShowPaneIfActive (setUltra
          (Some (trimEmptyPages (mkUltraLayout rows cols (uPage u) (uSlots u) autoPromote))) w)))
  | None =>
      modify (fun w =>
        let w := setUltraLead None w in
        let w :=
          if LeadPaneID w =? 0 then w
          else match FindPane (LeadPaneID w) (Root w) with
               | Some p => setUltraLead (paneAt p w) w
               | None => setLeadID 0 w
               end in
        let agents :=
          filter (fun p => negb (LeadPaneID w =? 0) && (p =? LeadPaneID w) = false) (panesOf (Root w)) in
        let slots := stableSort Z.leb agents in
        rebuildUltraTree (ultraShowPaneIfActive (setUltra
          (Some (mkUltraLayout rows cols 0 (map Some slots) autoPromote)) w)))
  end.

Fixpoint buildGridRow (panes : list (option Z)) (colW : list Z) (xoff yoff h : Z) : list LayoutCell :=
  match panes, colW with
  | p :: panes, cw :: colW =>
      NewLeaf p xoff yoff cw h :: buildGridRow panes colW (xoff + cw + 1) yoff h
  | _, _ => []
  end.

(** One row of buildGridTree. *)
Definition buildGridRowCell (rowPanes : list (option Z)) (x yoff width h : Z) : LayoutCell :=
  match rowPanes with
  | [p] => NewLeaf p x yoff width h
  | _ => Node (mkRect x yoff width h) SplitVertical
           (buildGridRow rowPanes (equalSplitSizes width (lenZ rowPanes)) x yoff h)
  end.

Fixpoint buildGridRows (panes : list (option Z)) (cols x yoff width : Z) (rowH : list Z)
  : list LayoutCell :=
  match rowH with
  | [] => []
  | h :: rest =>
      buildGridRowCell (take (Z.to_nat cols) panes) x yoff width h
        :: buildGridRows (drop (Z.to_nat cols) panes) cols x (yoff + h + 1) width rest
  end.

Definition buildGridTree (panes : list (option Z)) (cols x y width height : Z) : LayoutCell :=
  let cols := if cols <? 1 then 1 else cols in
  let rows := Z.quot (lenZ panes + cols - 1) cols in
  let rows := if rows <? 1 then 1 else rows in
  match panes with
  | [p] => NewLeaf p x y width height
  | _ =>
      if rows =? 1 then buildGridRowCell (take (Z.to_nat cols) panes) x y width height
      else Node (mkRect x y width height) SplitHorizontal
             (buildGridRows panes cols x y width (equalSplitSizes height rows))
  end.

Definition leadPane (w : Window) : option Z :=
  if LeadPaneID w =? 0 then None
  else match Ultra w with
       | Some _ => ultraLead w
       | None => FindPane (LeadPaneID w) (Root w) ≫= fun p => paneAt p w
       end.

Definition DisableUltra : MW unit := fun w =>
  match Ultra w with
  | None => (w, Err errNotUltra)
  | Some u =>
      let agents := filter (fun p => p <> None) (uSlots u) in
      let lead := leadPane w in
      let w := setUltra None w in
      let install root :=
        let w := setRoot (FixOffsets root) w in
        let lost := match ActivePane w with
                    | None => true
                    | Some id => bool_decide (FindPane id (Root w) = None)
                    end in
        let w := if lost then match firstPaneInSubtree (Root w) with
                              | Some p => setActive p w | None => w end
                 else w in
        (resizePTYs w, Ok tt) in
      match lead, agents with
      | None, [] => (w, Err errNoPanes)
      | None, _ => install (buildGridTree agents (uCols u) 0 0 (Width w) (Height w))
      | Some l, [] => install (NewLeaf (Some l) 0 0 (Width w) (Height w))
      | Some l, _ =>
          let leadW := Z.max 20 (Z.quot (Width w) 3) in
          let leadW := if Z.quot (Width w * 4) 5 <? leadW then Z.quot (Width w * 4) 5 else leadW in
          let rightW := Width w - leadW - 1 in
          let leadLeaf := NewLeaf (Some l) 0 0 leadW (Height w) in
          let grid := buildGridTree agents (uCols u) (leadW + 1) 0 rightW (Height w) in
          install (Node (mkRect 0 0 (Width w) (Height w)) SplitVertical [leadLeaf; grid])
      end
  end.

(** ** Slot operations *)

(** ultraInsert assigns a new pane to the lowest empty slot. *)
Definition ultraInsert (pane : Z) (opts : SplitOptions) (w : Window) : Window :=
  match Ultra w with
  | None => w
  | Some u =>
      let '(u, idx) := ultraSlotInsert pane u in
      let u := if KeepFocus opts then u else withPage (PageOfSlot (Z.of_nat idx) u) u in
      let w := rebuildUltraTree (setUltra (Some u) w) in
      if KeepFocus opts then w else setActive pane w
  end.

Definition ultraPaneCount (u : UltraLayout) (w : Window) : Z := lenZ (ultraPanes u w).

Definition ultraClose (paneID : Z) : MW unit := fun w =>
  match Ultra w with
  | None => (w, Ok tt)
  | Some u =>
      if ultraPaneCount u w <=? 1 then (w, Err errLastPane)
      else
        let w := if ZoomedPaneID w =? paneID then setZoomed 0 w else w in
        let wasActive := isActive paneID w in
        let finish w :=
          (rebuildUltraTree (if wasActive then setActivePane None w else w), Ok tt) in
        if LeadPaneID w =? paneID then finish (setUltraLead None (setLeadID 0 w))
        else match SlotOf paneID u with
             | None => (w, Err (errPaneNotFound paneID))
             | Some idx =>
                 finish (setUltra (Some (trimEmptyPages (withSlots (<[idx := None]> (uSlots u)) u))) w)
             end
  end.

Definition ultraSetLead (paneID : Z) : MW unit := fun w =>
  match Ultra w with
  | None => (w, Ok tt)
  | Some u =>
      if LeadPaneID w =? paneID then (w, Ok tt)
      else match SlotOf paneID u with
           | None => (w, Err (errPaneNotFound paneID))
           | Some idx =>
               let pane := uSlots u !! idx ≫= id in
               let u := withSlots (<[idx := None]> (uSlots u)) u in
               let u := match ultraLead w with
                        | Some prev => if LeadPaneID w =? 0 then u else fst (ultraSlotInsert prev u)
                        | None => u
                        end in
               (rebuildUltraTree (setUltra (Some (trimEmptyPages u))
                  (setUltraLead pane (setLeadID paneID w))), Ok tt)
           end
  end.

Definition ultraUnsetLead : MW unit := fun w =>
  match Ultra w with
  | None => (w, Ok tt)
  | Some u =>
      if LeadPaneID w =? 0 then (w, Err errNoLead)
      else
        let u := match ultraLead w with Some l => fst (ultraSlotInsert l u) | None => u end in
        (rebuildUltraTree (setUltra (Some u) (setUltraLead None (setLeadID 0 w))), Ok tt)
  end.

(** ultraSwap exchanges two agent slots. *)
Definition ultraSwap (id1 id2 : Z) : MW unit := fun w =>
  match Ultra w with
  | None => (w, Ok tt)
  | Some u =>
      match SlotOf id1 u, SlotOf id2 u with
      | None, _ => (w, Err (errPaneNotFound id1))
      | _, None => (w, Err (errPaneNotFound id2))
      | Some i, Some j =>
          let slots := <[j := uSlots u !! i ≫= id]> (<[i := uSlots u !! j ≫= id]> (uSlots u)) in
          (rebuildUltraTree (setUltra (Some (withSlots slots u)) w), Ok tt)
      end
  end.

(** The recency of a pane. *)
Definition activePointOf (id : Z) (w : Window) : Z :=
  match panes w !! id with Some p => ActivePoint p | None => 0 end.

(** The visible slots with their indices. *)
Definition visibleSlots (u : UltraLayout) : list (nat * option Z) :=
  let per := AgentSlotsPerPage u in
  let start := uPage u * per in
  filter (fun e => (start <=? Z.of_nat e.1) && (Z.of_nat e.1 <? start + per) = true)
    (imap pair (uSlots u)).

(** UltraPromote brings a hidden pane onto the visible page; [busy = None] is
    the nil function. *)
Definition UltraPromote (paneID : Z) (busy : option (Z -> bool)) (w : Window) : Window * bool :=
  match Ultra w with
  | None => (w, false)
  | Some u =>
      if negb (UltraPaneHidden paneID w) then (w, false)
      else match SlotOf paneID u with
      | None => (w, false)
      | Some from =>
          match filter (fun e => e.2 = None) (visibleSlots u) with
          | (i, _) :: _ =>
              let slots := <[from := None]> (<[i := uSlots u !! from ≫= id]> (uSlots u)) in
              (rebuildUltraTree (setUltra (Some (trimEmptyPages (withSlots slots u))) w), true)
          | [] =>
              let candidates :=
                omap (fun e => match e.2 with
                  | None => None
                  | Some id =>
                      if (id =? activeID w) ||
                         match busy with Some busy => negb (busy id) | None => false end
                      then None else Some (e.1, id)
                  end) (visibleSlots u) in
              match stableSort (fun a b => activePointOf a.2 w <=? activePointOf b.2 w) candidates with
              | [] => (w, false)
              | (to, _) :: _ =>
                  let slots :=
                    <[from := uSlots u !! to ≫= id]> (<[to := uSlots u !! from ≫= id]> (uSlots u)) in
                  (rebuildUltraTree (setUltra (Some (withSlots slots u)) w), true)
              end
          end
      end
  end.

(** ultraReplacePane swaps pane pointers in the slot table / lead cell. *)
Definition ultraReplacePane (oldPaneID replacement : Z) (w : Window) : Window * bool :=
  match Ultra w with
  | None => (w, false)
  | Some u =>
      if (LeadPaneID w =? oldPaneID) && bool_decide (ultraLead w <> None) then
        (setLeadID replacement (setUltraLead (Some replacement) w), true)
      else match SlotOf oldPaneID u with
           | Some idx => (setUltra (Some (withSlots (<[idx := Some replacement]> (uSlots u)) u)) w, true)
           | None => (w, false)
           end
  end.

(** ** Membership and sizes *)

(** HasPane: includes panes on hidden ultra pages. *)
Definition HasPane (paneID : Z) (w : Window) : bool :=
  match Ultra w with
  | Some u =>
      (negb (LeadPaneID w =? 0) && (paneID =? LeadPaneID w) && bool_decide (ultraLead w <> None))
      || bool_decide (is_Some (SlotOf paneID u))
  | None => bool_decide (is_Some (FindPane paneID (Root w)))
  end.

(** PaneContentSize returns the PTY size a pane is laid out at. *)
Definition PaneContentSize (paneID : Z) (w : Window) : option (Z * Z) :=
  match FindPane paneID (Root w) with
  | Some p => let r := rectAt p w in Some (rW r, PaneContentHeight (rH r))
  | None =>
      match Ultra w with
      | Some u =>
          if bool_decide (is_Some (SlotOf paneID u)) then
            match filter (fun e => LeadSlot e.2.2 = false) (Walk (Root w)) with
            | (_, (r, _)) :: _ => Some (rW r, PaneContentHeight (rH r))
            | [] => None
            end
          else None
      | None => None
      end
  end.

Definition isProxyFor (host : string) (id : Z) (w : Window) : bool :=
  match panes w !! id with Some p => isProxy p && bool_decide (paneHost p = host) | None => false end.
Definition hostOf (id : Z) (w : Window) : string :=
  match panes w !! id with Some p => paneHost p | None => ""%string end.

(** The slot loop of ultraUnsplice. *)
Fixpoint unspliceSlots (isProxyFor : Z -> bool) (replacement : Z) (replaced : bool)
    (slots : list (option Z)) : list (option Z) * bool :=
  match slots with
  | [] => ([], replaced)
  | s :: rest =>
      let hit := match s with Some id => isProxyFor id | None => false end in
      let s' := if hit then (if replaced then None else Some replacement) else s in
      let '(rest, replaced) := unspliceSlots isProxyFor replacement (replaced || hit) rest in
      (s' :: rest, replaced)
  end.

Definition ultraUnsplice (host : string) (replacement : Z) : MW unit := fun w =>
  match Ultra w with
  | None => (w, Ok tt)
  | Some u =>
      let leadHit := match ultraLead w with Some l => isProxyFor host l w | None => false end in
      let w := if leadHit then setLeadID replacement (setUltraLead (Some replacement) w) else w in
      let '(slots, replaced) :=
        unspliceSlots (fun id => isProxyFor host id w) replacement leadHit (uSlots u) in
      let w := setUltra (Some (withSlots slots u)) w in
      if negb replaced then (w, Err (errNoSpliced host))
      else
        let lost := match ActivePane w with
                    | None => true
                    | Some id => bool_decide (hostOf id w = host) || negb (HasPane id w)
                    end in
        let w := if lost then setActivePane (Some replacement) w else w in
        (rebuildUltraTree (setUltra (Some (trimEmptyPages (withSlots slots u))) w), Ok tt)
  end.
