(* ===== verification/WindowOps.v ===== *)
(** * Window operations: splitting, closing, moving
    (internal/mux/window.go, window_spiral.go, lead.go) *)

From S2P Require Import Prelude LayoutSizes LayoutTree WindowState Ultra.

(** ** Pane lists *)

Definition Panes (w : Window) : list Z :=
  match Ultra w with Some u => ultraPanes u w | None => panesOf (Root w) end.
Definition PaneCount (w : Window) : Z := lenZ (Panes w).

(** ** Anchored lead columns (window_resize.go) *)

Definition anchoredLeadWidthColumns (w : Window) : list LayoutCell :=
  if hasAnchoredLead w then
    match Children (Root w) with
    | [lead; Node r SplitVertical ch] => lead :: ch
    | [lead; logical] => [lead; logical]
    | _ => []
    end
  else [].

Definition anchoredLeadWidthTargets (w : Window) : list LayoutCell * list Z :=
  let columns := anchoredLeadWidthColumns w in
  if lenZ columns <? 2 then (columns, [])
  else (columns, equalSplitSizes (Width w) (lenZ columns)).

Definition anchoredLeadColumnsWidthChanged (w : Window) : bool :=
  let '(columns, sizes) := anchoredLeadWidthTargets w in
  if lenZ columns <? 2 then false
  else existsb id (map2 (fun column size => negb (cW column =? size)) columns sizes).

(** The widths of a group of columns with their separators. *)
Definition equalizedColumnGroupWidth (sizes : list Z) : Z :=
  match sizes with [] => 0 | _ => sumZ sizes + (lenZ sizes - 1) end.

Definition equalizeAnchoredLeadColumns (w : Window) : Window :=
  let '(columns, sizes) := anchoredLeadWidthTargets w in
  if lenZ columns <? 2 then w
  else
    match Root w, sizes with
    | Node r dir [lead; logical], leadSize :: rest =>
        let lead := ResizeSubtree lead leadSize (rH r) in
        let logical :=
          match rest with
          | [size] => ResizeSubtree logical size (rH r)
          | _ =>
              FixOffsets
                (withRect (setWH (equalizedColumnGroupWidth rest) (rH r) (cellRect logical))
                  (withChildren
                    (map2 (fun column size => ResizeSubtree column size (rH r)) (Children logical) rest)
                    logical))
          end in
        setRoot (Node r dir [lead; logical]) w
    | _, _ => w
    end.

Definition shouldEqualizeAnchoredLeadAfterRootSplit (t : path) (dir : SplitDir) (w : Window) : bool :=
  bool_decide (dir = SplitVertical) && hasAnchoredLead w && bool_decide (t = [1%nat]).

Definition shouldEqualizeAnchoredLeadAfterClose (prevAnchoredEqual : bool) (w : Window) : bool :=
  prevAnchoredEqual && hasAnchoredLead w && anchoredLeadColumnsWidthChanged w.

(** ** Splitting *)

Definition splitAvailable (c : LayoutCell) (dir : SplitDir) : Z := axisSize dir c.
Definition splitRootRequiredSize (c : LayoutCell) (dir : SplitDir) : Z :=
  minSubtreeSize dir c + 1 + PaneMinSize.
Definition canSplitCell (c : LayoutCell) (dir : SplitDir) : bool :=
  2 * PaneMinSize + 1 <=? axisSize dir c.

(** The new subtree after a split at the root of [target]: the new pane becomes
    a last (or first) child of a root with the same direction, or root and new
    pane are wrapped in a new node.  None is "not enough space". *)
Definition splitRootCell (target : LayoutCell) (dir : SplitDir) (newPane : Z) (insertFirst : bool)
  : option LayoutCell :=
  let newLeaf := NewLeaf (Some newPane) 0 0 0 0 in
  let wrap :=
    let children := if insertFirst then [newLeaf; target] else [target; newLeaf] in
    match frontLoadedSubtreeSplitSizes children dir (axisSize dir target) with
    | Some [size0; size1] =>
        let '(oldSize, newSize) := if insertFirst then (size1, size0) else (size0, size1) in
        let r := cellRect target in
        let newLeaf :=
          match dir with
          | SplitVertical => NewLeaf (Some newPane) 0 0 newSize (rH r)
          | SplitHorizontal => NewLeaf (Some newPane) 0 0 (rW r) newSize
          end in
        let old := resizeChildTo dir r target oldSize in
        Some (Node r dir (if insertFirst then [newLeaf; old] else [old; newLeaf]))
    | _ => None
    end in
  match target with
  | Node r dir' ch =>
      if decide (dir' = dir) then
        let children := if insertFirst then newLeaf :: ch else ch ++ [newLeaf] in
        match equalSubtreeSplitSizes children dir (rAxis dir r) with
        | Some sizes => Some (Node r dir (map2 (resizeChildTo dir r) children sizes))
        | None => None
        end
      else wrap
  | Leaf _ _ => wrap
  end.

(** The part splitRootTargetWithOptions and splitSubtreeRootWithOptions share:
    [t] points to the root that is split. *)
Definition splitRootAt (t : path) (dir : SplitDir) (newPane : Z) (insertFirst : bool)
    (opts : SplitOptions) : MW Z := fun w =>
  match cellAt t (Root w) with
  | None => (w, Err errNoRoot)
  | Some target =>
      let required := splitRootRequiredSize target dir in
      let available := splitAvailable target dir in
      if available <? required then (w, Err (errRootNoSpace available required))
      else match splitRootCell target dir newPane insertFirst with
      | None => (w, Err (errRootNoSpace available required))
      | Some cell =>
          let equalize := shouldEqualizeAnchoredLeadAfterRootSplit t dir w in
          let w := setRoot (updAt (fun _ => cell) t (Root w)) w in
          let w := if equalize then equalizeAnchoredLeadColumns w else w in
          let w := setRoot (FixOffsets (Root w)) w in
          let w := resizePTYsPreservingZoomedPaneSize w in
          (if KeepFocus opts then w else setActive newPane w, Ok newPane)
      end
  end.

Definition splitRootTargetWithOptions (t : path) (dir : SplitDir) (newPane : Z) (opts : SplitOptions)
  : MW Z := splitRootAt t dir newPane false opts.

Definition splitSubtreeRootWithOptions (t : path) (dir : SplitDir) (newPane : Z)
    (insertFirst : bool) (opts : SplitOptions) : MW Z :=
  run unzoomIf (negb (KeepFocus opts));
  splitRootAt t dir newPane insertFirst opts.

(** A lead role on a single-pane window becomes the anchored left column. *)
Definition materializePendingLead (newPane : Z) (opts : SplitOptions) : MW Z :=
  splitRootTargetWithOptions [] SplitVertical newPane opts.

Definition SplitRootWithOptions (dir : SplitDir) (newPane : Z) (opts : SplitOptions) : MW Z :=
  run unzoomIf (negb (KeepFocus opts));
  do w <- get;
  if IsUltra w then run modify (ultraInsert newPane opts); ret newPane
  else if hasPendingLead w then materializePendingLead newPane opts
  else splitRootTargetWithOptions (logicalRoot w) dir newPane opts.

Definition SplitRoot (dir : SplitDir) (newPane : Z) : MW Z :=
  SplitRootWithOptions dir newPane defaultSplitOptions.

(** Where the cell that was split ends up holding its old pane: itself next to
    a new sibling, or a child of the node it became. *)
Definition existingCell (p q : path) (insertFirst : bool) : path :=
  if (length q =? length p)%nat then
    match parentOf p with
    | Some (pp, idx) => pp ++ [if insertFirst then S idx else idx]
    | None => p
    end
  else p ++ [if insertFirst then 1%nat else 0%nat].

Definition shouldKeepZoomedPaneSize (paneID : Z) (opts : SplitOptions) (w : Window) : bool :=
  KeepFocus opts && negb (ZoomedPaneID w =? 0) && (paneID =? ZoomedPaneID w).

(** Split a leaf, resize the two PTYs, then fix offsets and all PTYs. *)
Definition splitCellCore (p : path) (dir : SplitDir) (newPane : Z) (insertFirst : bool)
    (keepSize : Z -> Window -> bool) : MW unit :=
  do w <- get;
  match splitWithOrder (Root w) p dir newPane insertFirst with
  | Err e => throw (errLayout e)
  | Ok (root, q) =>
      run modify (setRoot root);
      do w <- get;
      run resizeCellPane (rectAt q w) (Some newPane);
      do w <- get;
      let e := existingCell p q insertFirst in
      run (match paneAt e w with
           | Some id => if keepSize id w then ret tt else resizeCellPane (rectAt e w) (Some id)
           | None => ret tt
           end);
      modify (fun w => resizePTYsPreservingZoomedPaneSize (setRoot (FixOffsets (Root w)) w))
  end.

Definition splitCellWithOptions (p : path) (dir : SplitDir) (newPane : Z) (opts : SplitOptions)
  : MW Z :=
  run splitCellCore p dir newPane false (fun id w => shouldKeepZoomedPaneSize id opts w);
  run modify (fun w => if KeepFocus opts then w else setActive newPane w);
  ret newPane.

Definition SplitPaneWithOptions (targetPaneID : Z) (dir : SplitDir) (newPane : Z)
    (opts : SplitOptions) : MW Z :=
  run unzoomIf (negb (KeepFocus opts));
  do w <- get;
  if IsUltra w then run modify (ultraInsert newPane opts); ret newPane
  else if hasPendingLead w && (targetPaneID =? LeadPaneID w) then materializePendingLead newPane opts
  else if IsLeadPane targetPaneID w then
    if TreatLeadPaneAsWindowRef opts
    then splitRootTargetWithOptions (logicalRoot w) dir newPane opts
    else throw errLeadPane
  else
    do p <- mustFindPane targetPaneID;
    splitCellWithOptions p dir newPane opts.

Definition SplitWithOptions (dir : SplitDir) (newPane : Z) (opts : SplitOptions) : MW Z :=
  do w <- get;
  SplitPaneWithOptions (activeID w) dir newPane opts.
Definition SplitActive (dir : SplitDir) (newPane : Z) : MW Z :=
  SplitWithOptions dir newPane defaultSplitOptions.

(** ** Closing *)

(** The caller's half of Close: a collapsed root takes the window's size. *)
Definition closeCell (p : path) (w : Window) : Window * option path :=
  let '(root, result) := Close (Root w) p in
  let root := match result with
              | Some [] => withRect (mkRect 0 0 (Width w) (Height w)) root
              | _ => root
              end in
  (setRoot (ResizeAll (Width w) (Height w) root) w, result).

(** The new focus after the active pane was closed. *)
Definition focusAfterClose (result : option path) (w : Window) : Window :=
  match result ≫= fun q => paneAt q w with
  | Some id => setActive id w
  | None => match firstPaneInSubtree (Root w) with Some id => setActive id w | None => w end
  end.

Definition ClosePane (paneID : Z) : MW unit :=
  do w <- get;
  if IsUltra w then ultraClose paneID
  else
    do p <- mustFindPane paneID;
    let prevAnchoredColumnCount := lenZ (anchoredLeadWidthColumns w) in
    let prevAnchoredEqual :=
      (0 <? prevAnchoredColumnCount) && negb (anchoredLeadColumnsWidthChanged w) in
    if leafCount (Root w) <=? 1 then throw errLastPane
    else modify (fun w =>
      let w := if LeadPaneID w =? paneID then setLeadID 0 w else w in
      let w := if ZoomedPaneID w =? paneID then setZoomed 0 w else w in
      let '(w, result) := closeCell p w in
      let w :=
        if (lenZ (anchoredLeadWidthColumns w) <? prevAnchoredColumnCount)
           && shouldEqualizeAnchoredLeadAfterClose prevAnchoredEqual w
        then equalizeAnchoredLeadColumns w else w in
      let w := if isActive paneID w then focusAfterClose result w else w in
      resizePTYs (setRoot (FixOffsets (Root w)) w)).

(** ** Moving panes *)

Definition restoreActivePaneByID (activePaneID preferred : Z) (w : Window) : Window :=
  if activePaneID =? preferred then setActive preferred w
  else if negb (activePaneID =? 0) && bool_decide (is_Some (FindPane activePaneID (Root w)))
  then setActive activePaneID w
  else setActive preferred w.

Definition MovePaneIntoSplit (paneID targetPaneID : Z) (dir : SplitDir) (insertFirst : bool) : MW unit :=
  do w <- get;
  if paneID =? targetPaneID then ret tt
  else if IsUltra w then throw errUltraLayout
  else if IsLeadPane paneID w || IsLeadPane targetPaneID w then throw errLeadPane
  else
    do _ <- mustFindPane paneID;
    do tp <- mustFindPane targetPaneID;
    match cellAt tp (Root w) with
    | None => ret tt
    | Some target =>
        if negb (canSplitCell target dir) then
          throw (errRootNoSpace (splitAvailable target dir) (2 * PaneMinSize + 1))
        else
          run unzoomIf true;
          run ClosePane paneID;
          do tp <- mustFindPane targetPaneID;
          run splitCellCore tp dir paneID insertFirst (fun _ _ => false);
          modify (restoreActivePaneByID (activeID w) paneID)
    end.

Definition MovePaneToRootEdge (paneID : Z) (dir : SplitDir) (insertFirst : bool) : MW unit :=
  do w <- get;
  if IsUltra w then throw errUltraLayout
  else if IsLeadPane paneID w then throw errLeadPane
  else
    let root := logicalRootCell w in
    let required := splitRootRequiredSize root dir in
    let available := splitAvailable root dir in
    if available <? required then throw (errRootNoSpace available required)
    else
      do _ <- mustFindPane paneID;
      run unzoomIf true;
      run ClosePane paneID;
      do w' <- get;
      run splitSubtreeRootWithOptions (logicalRoot w') dir paneID insertFirst defaultSplitOptions;
      modify (restoreActivePaneByID (activeID w) paneID).

(** ** Swapping and rotating *)

Definition withPane (pane : option Z) (c : LayoutCell) : LayoutCell :=
  match c with
  | Leaf r d => Leaf r (mkLeafData pane (PaneID d) (Slot d) (LeadSlot d))
  | Node _ _ _ => c
  end.
Definition setPaneAt (p : path) (pane : option Z) (c : LayoutCell) : LayoutCell :=
  updAt (withPane pane) p c.

Definition SwapPanes (id1 id2 : Z) : MW unit :=
  do w <- get;
  if id1 =? id2 then ret tt
  else if IsLeadPane id1 w || IsLeadPane id2 w then throw errLeadPane
  else if IsUltra w then ultraSwap id1 id2
  else
    do p1 <- mustFindPane id1;
    do p2 <- mustFindPane id2;
    modify (fun w =>
      resizePTYs (setRoot (setPaneAt p2 (paneAt p1 w) (setPaneAt p1 (paneAt p2 w) (Root w))) w)).

(** The pointers to the leaves with a pane below [t], and their panes. *)
Definition paneLeavesIn (t : path) (w : Window) : list (path * Z) :=
  match cellAt t (Root w) with
  | None => []
  | Some c =>
      omap (fun e => match Pane e.2.2 with Some id => Some (t ++ e.1, id) | None => None end) (Walk c)
  end.

Fixpoint indexOfPane (id : Z) (i : nat) (cells : list (path * Z)) : option nat :=
  match cells with
  | [] => None
  | (_, id') :: rest => if id' =? id then Some i else indexOfPane id (S i) rest
  end.
Definition activeCellIndex (cells : list (path * Z)) (w : Window) : option nat :=
  indexOfPane (activeID w) 0 cells.

Definition paneOfCell (cells : list (path * Z)) (i : nat) : Z := default 0 (snd <$> cells !! i).

Definition swapPaneStep (forward : bool) : MW unit :=
  do w <- get;
  if match ActivePane w with Some id => IsLeadPane id w | None => false end then throw errLeadPane
  else
    let cells := paneLeavesIn (logicalRoot w) w in
    if (length cells <=? 1)%nat then ret tt
    else match activeCellIndex cells w with
    | None => throw errActiveNotFound
    | Some idx =>
        let n := length cells in
        let j := if forward then ((idx + 1) mod n)%nat else ((idx + n - 1) mod n)%nat in
        SwapPanes (paneOfCell cells idx) (paneOfCell cells j)
    end.
Definition SwapPaneForward : MW unit := swapPaneStep true.
Definition SwapPaneBackward : MW unit := swapPaneStep false.

(** The panes after one rotation, in the order of the cells. *)
Definition rotated (forward : bool) (ids : list Z) : list Z :=
  if forward then
    match last ids with Some l => l :: removelast ids | None => [] end
  else
    match ids with first :: rest => rest ++ [first] | [] => [] end.

Definition RotatePanes (forward : bool) : MW unit :=
  do w <- get;
  if IsUltra w then throw errUltraLayout
  else
    let cells := paneLeavesIn (logicalRoot w) w in
    if (length cells <=? 1)%nat then ret tt
    else modify (fun w =>
      resizePTYs (setRoot
        (fold_left (fun c e => setPaneAt e.1 (Some e.2) c)
          (combine (map fst cells) (rotated forward (map snd cells))) (Root w)) w)).

(** ** Reordering groups (window_spiral.go) *)

(** The child of [t] on the way to [p]. *)
Fixpoint childTowards (t p : path) : option nat :=
  match t, p with
  | [], i :: _ => Some i
  | a :: t, b :: p => if (a =? b)%nat then childTowards t p else None
  | _, [] => None
  end.

Definition rootChildForPaneID (paneID : Z) : MW (path * nat) :=
  do w <- get;
  if IsLeadPane paneID w then throw errLeadPane
  else if IsLeaf (logicalRootCell w) then throw errNoRootSplit
  else
    do p <- mustFindPane paneID;
    match childTowards (logicalRoot w) p with
    | Some i => ret (logicalRoot w ++ [i], i)
    | None => throw (errPaneNotFound paneID)
    end.

(** ColumnIndexForPaneID: which top-level vertical split column holds the pane;
    the anchored lead is column 0. *)
Definition ColumnIndexForPaneID (paneID : Z) : MW Z :=
  do w <- get;
  do _ <- mustFindPane paneID;
  if IsLeadPane paneID w then ret 0
  else
    let columnBase := if hasAnchoredLead w then 1 else 0 in
    match Dir (logicalRootCell w) with
    | Some SplitVertical => do ci <- rootChildForPaneID paneID; ret (columnBase + Z.of_nat ci.2)
    | _ => ret columnBase
    end.

Definition columnContainerForPaneID (paneID : Z) : MW path :=
  do w <- get;
  do _ <- mustFindPane paneID;
  match Dir (Root w) with
  | Some SplitVertical => do ci <- rootChildForPaneID paneID; ret ci.1
  | _ => ret []
  end.

Definition reorderLayoutChildren (children : list LayoutCell) (fromIdx targetIdx : nat)
    (before : bool) : list LayoutCell :=
  if (fromIdx =? targetIdx)%nat then children
  else match children !! fromIdx with
  | None => children
  | Some moving =>
      let children := delete fromIdx children in
      let insertIdx := if before then targetIdx else S targetIdx in
      let insertIdx := if (fromIdx <? targetIdx)%nat then (insertIdx - 1)%nat else insertIdx in
      insertAt insertIdx moving children
  end.

Definition reorderAt (p : path) (fromIdx targetIdx : nat) (before : bool) (w : Window) : Window :=
  finishTreeMutation (setRoot (updAt (fun c =>
    withChildren (reorderLayoutChildren (Children c) fromIdx targetIdx before) c) p (Root w)) w).

Definition swapChildren (i j : nat) (ch : list LayoutCell) : list LayoutCell :=
  match ch !! i, ch !! j with
  | Some a, Some b => <[j := a]> (<[i := b]> ch)
  | _, _ => ch
  end.

(** SwapTree swaps the root-level groups containing the given panes. *)
Definition SwapTree (id1 id2 : Z) : MW unit :=
  do w <- get;
  if IsUltra w then throw errUltraLayout
  else
    do ci1 <- rootChildForPaneID id1;
    do ci2 <- rootChildForPaneID id2;
    if (ci1.2 =? ci2.2)%nat then throw (errSameGroup id1 id2)
    else
      run unzoomIf true;
      modify (fun w => finishTreeMutation (setRoot
        (updAt (fun c => withChildren (swapChildren ci1.2 ci2.2 (Children c)) c)
          (logicalRoot w) (Root w)) w)).

Definition MovePane (paneID targetPaneID : Z) (before : bool) : MW unit :=
  do w <- get;
  if paneID =? targetPaneID then ret tt
  else if IsUltra w then throw errUltraLayout
  else if IsLeadPane paneID w || IsLeadPane targetPaneID w then throw errLeadPane
  else
    do sp <- mustFindPane paneID;
    do tp <- mustFindPane targetPaneID;
    match parentOf sp, parentOf tp with
    | Some (spp, si), Some (tpp, ti) =>
        if decide (spp = tpp) then
          run unzoomIf true;
          modify (reorderAt spp si ti before)
        else
          do ci1 <- rootChildForPaneID paneID;
          do ci2 <- rootChildForPaneID targetPaneID;
          if (ci1.2 =? ci2.2)%nat then throw (errSameGroup paneID targetPaneID)
          else
            run unzoomIf true;
            modify (fun w => reorderAt (logicalRoot w) ci1.2 ci2.2 before w)
    | _, _ => throw errNoRootSplit
    end.

(** The direct split group of a pane: the pointer to the parent and the index. *)
Definition splitGroupForPaneID (paneID : Z) : MW (path * nat) :=
  do w <- get;
  if IsLeadPane paneID w then throw errLeadPane
  else
    do p <- mustFindPane paneID;
    match parentOf p with
    | Some g => ret g
    | None => throw (errNotInSplitGroup paneID)
    end.

(** MovePaneUp ([up = true]) and MovePaneDown. *)
Definition movePaneWithinSplitGroup (paneID : Z) (up : bool) : MW unit :=
  do w <- get;
  if IsUltra w then throw errUltraLayout
  else
    do g <- splitGroupForPaneID paneID;
    let '(pp, idx) := g in
    let n := length (match cellAt pp (Root w) with Some c => Children c | None => [] end) in
    if up && (idx =? 0)%nat then throw (errAlreadyFirst paneID)
    else if negb up && (idx =? n - 1)%nat then throw (errAlreadyLast paneID)
    else
      run unzoomIf true;
      modify (reorderAt pp idx (if up then idx - 1 else idx + 1)%nat up).
Definition MovePaneUp (paneID : Z) : MW unit := movePaneWithinSplitGroup paneID true.
Definition MovePaneDown (paneID : Z) : MW unit := movePaneWithinSplitGroup paneID false.
