(* ===== verification/WindowResize.v ===== *)
(** * Window operations: resizing, equalizing, columns, lead, zoom, splicing
    (internal/mux/window_resize.go, window_spiral.go, lead.go, window.go) *)

From S2P Require Import Prelude LayoutSizes LayoutTree WindowState Ultra WindowOps.

(** ** Terminal resize *)

Definition Resize (width height : Z) (w : Window) : Window :=
  let w := setSize width height w in
  match Ultra w with
  | Some _ => rebuildUltraTree w
  | None => resizePTYsPreservingZoomedPaneSize (setRoot (ResizeAll width height (Root w)) w)
  end.

(** ** Dragging a border *)

Definition resizeInner (c : LayoutCell) : LayoutCell :=
  if IsLeaf c then c else ResizeSubtree c (cW c) (cH c).

(** The clamp of the delta: neither side goes below PaneMinSize. *)
Definition clampDelta (leftSize rightSize delta : Z) : Z :=
  let delta :=
    if (0 <? delta) && (rightSize - delta <? PaneMinSize) then rightSize - PaneMinSize else delta in
  if (delta <? 0) && (leftSize + delta <? PaneMinSize) then - (leftSize - PaneMinSize) else delta.

(** Move the border after child [i] of a node by [delta]. *)
Definition moveBorder (dir : SplitDir) (i : nat) (delta : Z) (ch : list LayoutCell) : list LayoutCell :=
  updNth (fun right => resizeInner (setAxisSize dir (axisSize dir right - delta) right)) (S i)
    (updNth (fun left => resizeInner (setAxisSize dir (axisSize dir left + delta) left)) i ch).

Definition ResizeBorder (x y delta : Z) (w : Window) : Window * bool :=
  if IsUltra w then (w, false)
  else match FindBorderNear x y (Root w) with
  | None => (w, false)
  | Some hit =>
      if delta =? 0 then (w, false)
      else
        let dir := hitDir hit in
        let child i := match cellAt (hitParent hit ++ [i]) (Root w) with
                       | Some c => axisSize dir c | None => 0 end in
        let delta := clampDelta (child (hitLeft hit)) (child (S (hitLeft hit))) delta in
        if delta =? 0 then (w, false)
        else
          let root := updAt (fun c => withChildren (moveBorder dir (hitLeft hit) delta (Children c)) c)
                        (hitParent hit) (Root w) in
          (resizePTYs (setRoot (FixOffsets root) w), true)
  end.

(** ** Resizing a pane: transfers between siblings *)

Definition transferEdges (growerIdx donorIdx : nat) : resizeEdge * resizeEdge :=
  if (donorIdx <? growerIdx)%nat then (resizeFromStart, resizeFromEnd)
  else (resizeFromEnd, resizeFromStart).

Definition transferAxisSize (growerIdx donorIdx : nat) (axis : SplitDir) (needed : Z)
    (siblings : list LayoutCell) : list LayoutCell * Z :=
  match siblings !! growerIdx, siblings !! donorIdx with
  | Some grower, Some donor =>
      let '(growerEdge, donorEdge) := transferEdges growerIdx donorIdx in
      let available := resizeCheck axis donor in
      if available =? 0 then (siblings, 0)
      else
        let available := if needed <? available then needed else available in
        let grower := resizeToAxisFromEdge axis (axisSize axis grower + available) growerEdge grower in
        let donor := resizeToAxisFromEdge axis (axisSize axis donor - available) donorEdge donor in
        (<[donorIdx := donor]> (<[growerIdx := grower]> siblings), available)
  | _, _ => (siblings, 0)
  end.

(** The loop over the donors, in the order given; it returns what is left. *)
Fixpoint transferSiblingRange (growerIdx : nat) (axis : SplitDir) (remaining : Z)
    (donors : list nat) (siblings : list LayoutCell) : list LayoutCell * Z :=
  match donors with
  | [] => (siblings, remaining)
  | donorIdx :: rest =>
      if 0 <? remaining then
        let '(siblings, moved) := transferAxisSize growerIdx donorIdx axis remaining siblings in
        transferSiblingRange growerIdx axis (remaining - moved) rest siblings
      else (siblings, remaining)
  end.

(** Indices from [i] up to the end, and from [i] down to 0. *)
Definition tailward (i n : nat) : list nat := seq i (n - i).
Definition headward (i : nat) : list nat := rev (seq 0 i).

Definition resizePaneGrow (idx : nat) (axis : SplitDir) (needed : Z) (siblings : list LayoutCell)
  : list LayoutCell * Z :=
  let '(siblings, remaining) :=
    transferSiblingRange idx axis needed (tailward (S idx) (length siblings)) siblings in
  if remaining =? 0 then (siblings, needed)
  else
    let '(siblings, remaining) :=
      transferSiblingRange idx axis remaining (headward idx) siblings in
    (siblings, needed - remaining).

Definition resizePaneShrink (idx : nat) (axis : SplitDir) (needed : Z) (siblings : list LayoutCell)
  : list LayoutCell * Z :=
  let '(siblings, remaining) :=
    transferSiblingRange (S idx) axis needed (headward (S idx)) siblings in
  (siblings, needed - remaining).

(** The nearest ancestor split along [axis] above the cell at [p]: its pointer
    and the index of the child towards the cell.  The pointer is given with its
    last index first. *)
Fixpoint nearestSplit (axis : SplitDir) (root : LayoutCell) (rp : path) : option (path * nat) :=
  match rp with
  | [] => None
  | idx :: rest =>
      if decide ((cellAt (rev rest) root ≫= Dir) = Some axis) then Some (rev rest, idx)
      else nearestSplit axis root rest
  end.

Definition directionChange (direction : string) (delta : Z) : option (SplitDir * Z) :=
  if String.eqb direction "left" then Some (SplitVertical, - delta)
  else if String.eqb direction "right" then Some (SplitVertical, delta)
  else if String.eqb direction "up" then Some (SplitHorizontal, - delta)
  else if String.eqb direction "down" then Some (SplitHorizontal, delta)
  else None.

(** Resize around the border next to child [idx]: the new siblings and how far
    the border moved. *)
Definition resizeSiblings (axis : SplitDir) (idx : nat) (change : Z) (siblings : list LayoutCell)
  : list LayoutCell * Z :=
  if (length siblings <? 2)%nat then (siblings, 0)
  else
    let idx := if (idx =? length siblings - 1)%nat then (idx - 1)%nat else idx in
    if 0 <? change then resizePaneGrow idx axis change siblings
    else resizePaneShrink idx axis (- change) siblings.

Definition ResizePane (paneID : Z) (direction : string) (delta : Z) (w : Window) : Window * bool :=
  if (delta <=? 0) || IsUltra w then (w, false)
  else if IsLeadPane paneID w then (w, false)
  else
    let '(w, unzoomed) := unzoomIf true w in
    if negb (is_ok unzoomed) then (w, false)
    else match directionChange direction delta with
    | None => (w, false)
    | Some (axis, change) =>
        match FindPane paneID (Root w) with
        | None => (w, false)
        | Some p =>
            match nearestSplit axis (Root w) (rev p) with
            | None => (w, false)
            | Some (pp, idx) =>
                let siblings :=
                  match cellAt pp (Root w) with Some c => Children c | None => [] end in
                let '(siblings, moved) := resizeSiblings axis idx change siblings in
                if moved =? 0 then (w, false)
                else
                  let root := updAt (withChildren siblings) pp (Root w) in
                  (resizePTYs (setRoot (FixOffsets root) w), true)
            end
        end
    end.

Definition ResizeActive (direction : string) (delta : Z) (w : Window) : Window * bool :=
  match ActivePane w with
  | None => (w, false)
  | Some id => ResizePane id direction delta w
  end.

(** ** Equalize *)

Fixpoint horizontalLeafCount (c : LayoutCell) : Z :=
  match c with
  | Leaf _ _ => 1
  | Node _ SplitVertical _ => 0
  | Node _ SplitHorizontal ch =>
      let counts := map horizontalLeafCount ch in
      if existsb (Z.eqb 0) counts then 0 else sumZ counts
  end.

Definition equalizeLeafHeightTargets (c : LayoutCell) : list Z :=
  let leafCount := horizontalLeafCount c in
  if leafCount <? 2 then [] else equalSplitSizes (cH c) leafCount.

Definition equalizeLeafHeightsNeeded (c : LayoutCell) : bool :=
  existsb id (map2 (fun e target => negb (rH e.2.1 =? target)) (Walk c) (equalizeLeafHeightTargets c)).

(** Each child takes its share of the targets; the recursion visits children
    that have just been resized, with the height of the tree as fuel. *)
Fixpoint equalizeLeafHeightsWithTargets (fuel : nat) (targets : list Z) (c : LayoutCell) : LayoutCell :=
  match fuel with
  | O => c
  | S fuel =>
      match targets, c with
      | [], _ => c
      | t :: _, Leaf r d => ResizeSubtree c (rW r) t
      | _, Node r dir ch =>
          Node r dir
            ((fix go (targets : list Z) (l : list LayoutCell) :=
                match l with
                | [] => []
                | child :: rest =>
                    let leafCount := horizontalLeafCount child in
                    let childTargets := take (Z.to_nat leafCount) targets in
                    let targetHeight := leafCount - 1 + sumZ childTargets in
                    let child := ResizeSubtree child (rW r) targetHeight in
                    equalizeLeafHeightsWithTargets fuel childTargets child
                      :: go (drop (Z.to_nat leafCount) targets) rest
                end) targets ch)
      end
  end.

Definition equalizeLeafHeights (c : LayoutCell) : LayoutCell :=
  equalizeLeafHeightsWithTargets (S (height c)) (equalizeLeafHeightTargets c) c.

(** collectEqualizeColumns, as pointers relative to the root it is given. *)
Fixpoint collectEqualizeColumns (c : LayoutCell) : list path :=
  if 1 <? horizontalLeafCount c then [[]]
  else
    match c with
    | Leaf _ _ => []
    | Node _ _ ch =>
        (fix go (i : nat) (l : list LayoutCell) :=
           match l with
           | [] => []
           | child :: rest => map (cons i) (collectEqualizeColumns child) ++ go (S i) rest
           end) O ch
    end.

Definition equalizeWidthsNeeded (w : Window) : bool :=
  (hasAnchoredLead w && anchoredLeadColumnsWidthChanged w)
  || equalizeAxisNeeded SplitVertical (logicalRootCell w).

Definition equalizeWidths (w : Window) : Window :=
  let t := logicalRoot w in
  let w := if hasAnchoredLead w then equalizeAnchoredLeadColumns w else w in
  setRoot (updAt (equalizeAxisRecursive SplitVertical) t (Root w)) w.

Definition equalizeColumnAt (p : path) (w : Window) : Window :=
  match cellAt p (Root w) with
  | Some c =>
      if equalizeLeafHeightsNeeded c then setRoot (updAt equalizeLeafHeights p (Root w)) w else w
  | None => w
  end.

Definition EqualizeWithOptions (widths heights : bool) (opts : SplitOptions) (w : Window)
  : Window * bool :=
  if (negb widths && negb heights) || IsUltra w then (w, false)
  else
    let t := logicalRoot w in
    let widthChanged := widths && equalizeWidthsNeeded w in
    let columns := if heights then map (app t) (collectEqualizeColumns (logicalRootCell w)) else [] in
    let heightChanged :=
      existsb (fun p => match cellAt p (Root w) with
                        | Some c => equalizeLeafHeightsNeeded c | None => false end) columns in
    if negb widthChanged && negb heightChanged then (w, false)
    else
      let '(w, unzoomed) := unzoomIf (negb (KeepFocus opts)) w in
      if negb (is_ok unzoomed) then (w, false)
      else
        let w := if widthChanged then equalizeWidths w else w in
        let w := if heightChanged then fold_left (fun w p => equalizeColumnAt p w) columns w else w in
        let w := setRoot (FixOffsets (Root w)) w in
        (if KeepFocus opts then resizePTYsPreservingZoomedPaneSize w else resizePTYs w, true).
Definition Equalize (widths heights : bool) (w : Window) : Window * bool :=
  EqualizeWithOptions widths heights defaultSplitOptions w.

(** ** Zoom *)

Definition Zoom (paneID : Z) : MW unit :=
  do w <- get;
  if ZoomedPaneID w =? paneID then Unzoom
  else
    run unzoomIf true;
    run modify (fun w => fst (ultraShowPane paneID w));
    do p <- mustFindPane paneID;
    do w <- get;
    if leafCount (Root w) <=? 1 then throw errZoomSingle
    else
      run modify (fun w =>
        let w := setZoomed paneID w in
        match paneAt p w with Some id => setActive id w | None => w end);
      paneResize paneID (Width w) (PaneContentHeight (Height w)).

(** ** Focus (window_navigate.go) *)

Definition FocusPane (id : Z) (w : Window) : Window :=
  let '(w, unzoomed) := unzoomIf (negb (id =? ZoomedPaneID w)) w in
  if negb (is_ok unzoomed) then w else setActive id (fst (ultraShowPane id w)).

Definition isVertical (direction : string) : bool :=
  String.eqb direction "up" || String.eqb direction "down".
Definition checkNear (direction : string) : bool :=
  String.eqb direction "down" || String.eqb direction "right".

(** The edge a candidate must touch. *)
Definition searchEdge (r : Rect) (direction : string) (wrap : bool) (w : Window) : Z :=
  if String.eqb direction "up" then if wrap then Height w + 1 else rY r
  else if String.eqb direction "down" then if wrap then 0 else rY r + rH r + 1
  else if String.eqb direction "left" then if wrap then Width w + 1 else rX r
  else if String.eqb direction "right" then if wrap then 0 else rX r + rW r + 1
  else 0.

Definition isCandidate (r cand : Rect) (direction : string) (wrap : bool) (w : Window) : bool :=
  let '(rangeStart, rangeEnd, candStart, candEnd, near, far) :=
    if isVertical direction
    then (rX r, rX r + rW r, rX cand, rX cand + rW cand, rY cand, rY cand + rH cand + 1)
    else (rY r, rY r + rH r, rY cand, rY cand + rH cand, rX cand, rX cand + rW cand + 1) in
  let candEdge := if checkNear direction then near else far in
  (candEdge =? searchEdge r direction wrap w)
  && negb ((rangeEnd <=? candStart) || (candEnd <=? rangeStart)).

(** findDirectional: among the candidates the most recently active pane, the
    first in walk order among equals. *)
Definition findDirectional (r : Rect) (direction : string) (wrap : bool) (w : Window) : option Z :=
  fst <$> fold_left (fun best e =>
    match Pane e.2.2 with
    | None => best
    | Some id =>
        if isActive id w then best
        else if isCandidate r e.2.1 direction wrap w then
          match best with
          | None => Some (id, activePointOf id w)
          | Some (_, point) =>
              if point <? activePointOf id w then Some (id, activePointOf id w) else best
          end
        else best
    end) (Walk (Root w)) None.

Fixpoint indexOfZ (id : Z) (i : nat) (l : list Z) : option nat :=
  match l with
  | [] => None
  | id' :: rest => if id' =? id then Some i else indexOfZ id (S i) rest
  end.

Definition Focus (direction : string) (w : Window) : Window :=
  let '(w, unzoomed) := unzoomIf true w in
  if negb (is_ok unzoomed) then w
  else
    let ps := Panes w in
    if (length ps <=? 1)%nat then w
    else if String.eqb direction "next" then
      match indexOfZ (activeID w) 0 ps with
      | None => w
      | Some i =>
          let next := default 0 (ps !! ((i + 1) mod length ps)%nat) in
          setActive next (fst (ultraShowPane next w))
      end
    else match FindPane (activeID w) (Root w) with
    | None => w
    | Some p =>
        let r := rectAt p w in
        let best := match findDirectional r direction false w with
                    | Some id => Some id
                    | None => findDirectional r direction true w
                    end in
        match best with Some id => setActive id w | None => w end
    end.

(** ** Lead (lead.go) *)

(** The lead column takes its width; the rest of the tree is resized beside it. *)
Definition anchorLead (paneID savedW : Z) (w : Window) : Window :=
  let minW := Z.max 20 (Z.quot (Width w) 5) in
  let maxW := Z.quot (Width w * 4) 5 in
  let leadW := Z.max (Z.min savedW maxW) minW in
  let rightW := Width w - leadW - 1 in
  let '(leadW, rightW) := if rightW <? 1 then (Width w - 1 - 1, 1) else (leadW, rightW) in
  let leadLeaf := NewLeaf (Some paneID) 0 0 leadW (Height w) in
  let right := ResizeSubtree (Root w) rightW (Height w) in
  let root := Node (mkRect 0 0 (Width w) (Height w)) SplitVertical [leadLeaf; right] in
  setRoot (FixOffsets root) w.

Definition SetLead (paneID : Z) : MW unit :=
  do w <- get;
  if LeadPaneID w =? paneID then ret tt
  else
    run unzoomIf true;
    do w <- get;
    if IsUltra w then ultraSetLead paneID
    else match FindPane paneID (Root w) with
    | None => throw (errPaneNotFound paneID)
    | Some p =>
        match Root w with
        | Leaf _ _ => modify (setLeadID paneID)
        | Node _ dir ch =>
            let anchored :=
              match dir, ch with
              | SplitVertical, [Leaf _ d; _] => bool_decide (Pane d = Some paneID)
              | _, _ => false
              end in
            if anchored then modify (setLeadID paneID)
            else
              let savedW := rW (rectAt p w) in
              modify (fun w =>
                let w := setLeadID 0 w in
                let w := fst (closeCell p w) in
                setLeadID paneID (resizePTYs (anchorLead paneID savedW w)))
        end
    end.

Definition UnsetLead : MW unit :=
  do w <- get;
  if LeadPaneID w =? 0 then throw errNoLead
  else if IsUltra w then ultraUnsetLead
  else modify (setLeadID 0).

(** ** Columns (window_spiral.go) *)

Definition firstOtherPaneID (c : LayoutCell) (exclude : Z) : option Z :=
  match head (filter (fun id => id <> exclude) (panesOf c)) with
  | Some id => if id =? 0 then None else Some id
  | None => None
  end.

(** The pointer a cell other than the closed one has after Close. *)
Fixpoint pathAfterClose (pp : path) (idx n : nat) (d : path) : path :=
  match pp, d with
  | [], j :: rest =>
      if (n <=? 2)%nat then rest
      else (if (idx <? j)%nat then (j - 1)%nat else j) :: rest
  | a :: pp', b :: d' => if (a =? b)%nat then b :: pathAfterClose pp' idx n d' else d
  | _, [] => []
  end.

Definition wrapColumnWithBottomPane (pane : Z) (column : LayoutCell) : LayoutCell :=
  let r := cellRect column in
  let size2 := Z.quot (rH r - 1) 2 in
  let size1 := rH r - 1 - size2 in
  let column := ResizeSubtree column (rW r) size1 in
  Node r SplitHorizontal [column; NewLeaf (Some pane) (rX r) (rY r + size1 + 1) (rW r) size2].

Definition appendPaneToColumn (pane : Z) (column : LayoutCell) : LayoutCell :=
  match column with
  | Node r SplitHorizontal ch =>
      distributeEqual (Node r SplitHorizontal (ch ++ [NewLeaf (Some pane) 0 0 0 0]))
  | _ => wrapColumnWithBottomPane pane column
  end.

(** Whether a pointer leads to the leaf of the pane below the lead column. *)
Definition inLeadColumn (paneID : Z) (w : Window) : bool :=
  match cellAt [0%nat] (Root w) with
  | Some c => bool_decide (is_Some (FindPane paneID c))
  | None => false
  end.

Definition columnTooSmall (sameColumn : bool) (dest : LayoutCell) : bool :=
  (sameColumn || bool_decide (Dir dest <> Some SplitHorizontal)) && (cH dest <? 2 * PaneMinSize + 1).

Definition MovePaneToColumn (paneID targetPaneID : Z) : MW unit :=
  do w <- get;
  if IsUltra w then throw errUltraLayout
  else if bool_decide (is_Some (leadColumn w))
          && negb (eqb (inLeadColumn paneID w) (inLeadColumn targetPaneID w)) then throw errCrossLead
  else
    do sp <- mustFindPane paneID;
    do sc <- columnContainerForPaneID paneID;
    do dc <- columnContainerForPaneID targetPaneID;
    match cellAt dc (Root w) with
    | None => ret tt
    | Some dest =>
        let sameColumn := bool_decide (sc = dc) in
        let destWasRoot := bool_decide (dc = []) in
        let anchor := if sameColumn && (paneID =? targetPaneID)
                      then firstOtherPaneID dest paneID else Some targetPaneID in
        match anchor with
        | None => ret tt
        | Some anchorPaneID =>
            if columnTooSmall sameColumn dest then
              throw (errColumnNoSpace (cH dest) (2 * PaneMinSize + 1))
            else
              run unzoomIf true;
              run ClosePane paneID;
              do post <-
                (if sameColumn then
                   if destWasRoot then ret [] else columnContainerForPaneID anchorPaneID
                 else match parentOf sp with
                      | Some (pp, idx) =>
                          let n := match cellAt pp (Root w) with
                                   | Some c => length (Children c) | None => 0%nat end in
                          ret (pathAfterClose pp idx n dc)
                      | None => ret dc
                      end);
              modify (fun w' =>
                let w' := finishTreeMutation
                            (setRoot (updAt (appendPaneToColumn paneID) post (Root w')) w') in
                if isActive paneID w then setActive paneID w' else w')
        end
    end.

(** ** Column-fill placement (column_fill.go) *)

Record ColumnFillSpawnPlan : Set := mkColumnFillSpawnPlan {
  InheritPaneID : Z; SplitTargetPaneID : Z; RootSplit : bool }.

Definition fillLeaf : Set := Rect * Z.

(** The order of the leaves: by X, then W, then Y, then pane ID. *)
Definition fillLeafLe (a b : fillLeaf) : bool :=
  if negb (rX a.1 =? rX b.1) then rX a.1 <? rX b.1
  else if negb (rW a.1 =? rW b.1) then rW a.1 <? rW b.1
  else if negb (rY a.1 =? rY b.1) then rY a.1 <? rY b.1
  else a.2 <=? b.2.

(** Consecutive leaves with the same X and W form a column. *)
Fixpoint groupColumns (l : list fillLeaf) : list (list fillLeaf) :=
  match l with
  | [] => []
  | a :: rest =>
      match groupColumns rest with
      | (b :: col) :: cols =>
          if (rX a.1 =? rX b.1) && (rW a.1 =? rW b.1) then (a :: b :: col) :: cols
          else [a] :: (b :: col) :: cols
      | cols => [a] :: cols
      end
  end.

Definition collectColumnFillColumns (c : LayoutCell) : list (list fillLeaf) :=
  groupColumns (stableSort fillLeafLe
    (omap (fun e => match Pane e.2.2 with Some id => Some (e.2.1, id) | None => None end) (Walk c))).

(** The first of the shortest columns that still have room. *)
Definition shortestColumn (columns : list (list fillLeaf)) : option (list fillLeaf) :=
  let maxPanesPerColumn := S (length columns) in
  fold_left (fun best column =>
    if (maxPanesPerColumn <=? length column)%nat then best
    else match best with
         | None => Some column
         | Some b => if (length column <? length b)%nat then Some column else best
         end) columns None.

Definition bottomPane (column : list fillLeaf) : Z := default 0 (snd <$> last column).

Definition PlanColumnFillSpawn : MW ColumnFillSpawnPlan :=
  do w <- get;
  if IsUltra w then
    match ActivePane w with
    | Some id => ret (mkColumnFillSpawnPlan id 0 true)
    | None => match Panes w with
              | id :: _ => ret (mkColumnFillSpawnPlan id 0 true)
              | [] => throw errNoPanes
              end
    end
  else
    let columns := collectColumnFillColumns (logicalRootCell w) in
    match last columns with
    | None => throw errNoPanes
    | Some lastColumn =>
        match shortestColumn columns with
        | Some column => ret (mkColumnFillSpawnPlan (bottomPane column) (bottomPane column) false)
        | None => ret (mkColumnFillSpawnPlan (bottomPane lastColumn) 0 true)
        end
    end.

(** ** Replacing and splicing *)

Definition ReplacePane (oldPaneID replacement : Z) : MW unit :=
  do w <- get;
  if IsUltra w then
    let '(w', ok) := ultraReplacePane oldPaneID replacement w in
    if negb ok then throw (errPaneNotFound oldPaneID)
    else modify (fun _ =>
      rebuildUltraTree (if isActive oldPaneID w' then setActivePane (Some replacement) w' else w'))
  else
    do p <- mustFindPane oldPaneID;
    modify (fun w =>
      let w := finishTreeMutationPreservingZoomedPaneSize
                 (setRoot (setPaneAt p (Some replacement) (Root w)) w) in
      if isActive oldPaneID w then setActive replacement w else w).

(** The leaves of a leaf spliced into several panes, with their sizes. *)
Fixpoint spliceLeaves (r : Rect) (xoff each lastW : Z) (ids : list Z) : list LayoutCell :=
  match ids with
  | [] => []
  | [id] => [NewLeaf (Some id) xoff (rY r) lastW (rH r)]
  | id :: rest =>
      NewLeaf (Some id) xoff (rY r) each (rH r) :: spliceLeaves r (xoff + each + 1) each lastW rest
  end.

(** The pane resizes of the splice loop; the first failure ends it. *)
Fixpoint resizeAllPanes (cells : list LayoutCell) : MW unit :=
  match cells with
  | [] => ret tt
  | c :: rest => run resizeCellPane (cellRect c) (leafPane c); resizeAllPanes rest
  end.

Definition SplicePane (oldPaneID : Z) (newPanes : list Z) : MW (list path) :=
  do w <- get;
  match newPanes with
  | [] => throw errNoSplicePanes
  | first :: others =>
      if IsUltra w then
        match others with
        | _ :: _ => throw errUltraLayout
        | [] =>
            run ReplacePane oldPaneID first;
            do w <- get;
            ret (option_list (FindPane first (Root w)))
        end
      else
        do p <- mustFindPane oldPaneID;
        run modify (fun w => if ZoomedPaneID w =? oldPaneID then setZoomed 0 w else w);
        let refocus w := if isActive oldPaneID w then setActive first w else w in
        let r := rectAt p w in
        match others with
        | [] =>
            run modify (fun w => setRoot (setPaneAt p (Some first) (Root w)) w);
            run resizeCellPane r (Some first);
            run modify refocus;
            ret [p]
        | _ =>
            let n := lenZ newPanes in
            let available := rW r - (n - 1) in
            if available <? n * PaneMinSize then throw (errSpliceNoSpace n (rW r))
            else
              let each := Z.quot available n in
              let cells := spliceLeaves r (rX r) each (available - each * (n - 1)) newPanes in
              run modify (fun w =>
                setRoot (updAt (fun _ => Node r SplitVertical cells) p (Root w)) w);
              run resizeAllPanes cells;
              run modify refocus;
              run modify (fun w => setRoot (FixOffsets (Root w)) w);
              ret (map (fun i => p ++ [i]) (seq 0 (length newPanes)))
        end
  end.

(** allProxyLeavesForHost: some pane, and every pane is a proxy for the host. *)
Definition allProxyLeavesForHost (host : string) (c : LayoutCell) (w : Window) : bool :=
  negb (lenZ (panesOf c) =? 0) && forallb (fun id => isProxyFor host id w) (panesOf c).

(** The cell UnsplicePane turns back into a leaf. *)
Definition unspliceTarget (host : string) (w : Window) : option path :=
  match filter (fun e => match Pane e.2.2 with
                         | Some id => isProxyFor host id w | None => false end = true)
               (Walk (Root w)) with
  | [] => None
  | (p, _) :: _ =>
      match parentOf p with
      | Some (pp, _) =>
          match cellAt pp (Root w) with
          | Some parent => if allProxyLeavesForHost host parent w then Some pp else Some p
          | None => Some p
          end
      | None => Some p
      end
  end.

Definition unspliceCell (replacement : Z) (c : LayoutCell) : LayoutCell :=
  match c with
  | Leaf _ _ => withPane (Some replacement) c
  | Node r _ _ => Leaf r (paneLeaf (Some replacement))
  end.

Definition UnsplicePane (host : string) (replacement : Z) : MW unit :=
  do w <- get;
  if IsUltra w then ultraUnsplice host replacement
  else match unspliceTarget host w with
  | None => throw (errNoSpliced host)
  | Some p =>
      run modify (fun w => setRoot (updAt (unspliceCell replacement) p (Root w)) w);
      run resizeCellPane (rectAt p w) (Some replacement);
      modify (fun w =>
        let lost := match ActivePane w with
                    | None => true
                    | Some id => bool_decide (hostOf id w = host)
                                 || bool_decide (FindPane id (Root w) = None)
                    end in
        let w := if lost then setActive replacement w else w in
        resizePTYs (setRoot (FixOffsets (Root w)) w))
  end.

(** ApplyLayout replaces the root and the metadata with a rebuilt tree. *)
Definition ApplyLayout (root : LayoutCell) (active : option Z) (width height zoomed lead : Z)
    (w : Window) : Window :=
  let width := if width <=? 0 then cW root else width in
  let height := if height <=? 0 then cH root else height in
  let root := ResizeAll width height (withRect (setXY 0 0 (cellRect root)) root) in
  let active := match active with Some id => Some id | None => firstPaneInSubtree root end in
  let w := setUltraLead None (setUltra None w) in
  resizePTYs (setActivePane active (setLeadID lead (setZoomed zoomed
    (setSize width height (setRoot root w))))).

(** SplicePaneWithLayout replaces a leaf pane with an arbitrary subtree. *)
Definition SplicePaneWithLayout (oldPaneID : Z) (subtree : LayoutCell) (active : option Z) : MW unit :=
  do w <- get;
  if IsUltra w then throw errUltraLayout
  else
    do p <- mustFindPane oldPaneID;
    modify (fun w =>
      let w := if ZoomedPaneID w =? oldPaneID then setZoomed 0 w else w in
      let r := rectAt p w in
      let subtree := withRect (setXY (rX r) (rY r) (cellRect subtree)) subtree in
      let subtree := FixOffsets (ResizeSubtree subtree (rW r) (rH r)) in
      let w := setRoot (updAt (fun _ => subtree) p (Root w)) w in
      let active := match active with Some id => Some id | None => firstPaneInSubtree subtree end in
      let w := match active with Some id => setActive id w | None => w end in
      resizePTYs (setRoot (FixOffsets (Root w)) w)).
