(* ===== verification/WindowFacts.v ===== *)
(** * Windows: the invariant and the operations that keep it

    [WindowInv] is the invariant of a window outside the ultra layout.  PTY
    resizes touch only the pane store ([ptyOnly]), so each operation is
    followed through its effect on the tree, the focus, the zoom and the lead. *)

From S2P Require Import Prelude LayoutSizes LayoutTree LayoutFacts LayoutEdit.
From S2P Require Import WindowState Ultra WindowOps WindowResize.

(** ** PTY resizes *)

(** No PTY refuses a resize. *)
Definition working (ps : gmap Z PaneState) : Prop := map_Forall (fun _ p => ptyFails p = false) ps.

(** Only the pane store differs, and no PTY starts to fail. *)
Definition ptyOnly (w w' : Window) : Prop :=
  w' = setPanes (panes w') w /\ (working (panes w) -> working (panes w')).

Lemma setPanes_id w : setPanes (panes w) w = w.
Proof. by destruct w. Qed.
#[export] Instance ptyOnly_refl : Reflexive ptyOnly.
Proof. intros w. unfold ptyOnly. by rewrite setPanes_id. Qed.
#[export] Instance ptyOnly_trans : Transitive ptyOnly.
Proof. intros w1 w2 w3 [H1 F1] [H2 F2]. split; [|auto]. rewrite H2, H1. done. Qed.

Lemma working_insert id cols rows n p ps :
  ps !! id = Some p -> working ps ->
  working (<[id := mkPaneState cols rows n (isProxy p) (paneHost p) (ptyFails p)]> ps).
Proof.
  intros Hp Hw. apply map_Forall_insert_2; [|done]. simpl. by apply (Hw id).
Qed.

Lemma paneResize_pty id cols rows w : ptyOnly w (fst (paneResize id cols rows w)).
Proof.
  unfold paneResize. destruct (panes w !! id) as [p|] eqn:E; [|done].
  destruct (_ && _); (split; [done|]); simpl; intros; by apply working_insert.
Qed.
Lemma paneResize_ok id cols rows w :
  working (panes w) -> snd (paneResize id cols rows w) = Ok tt.
Proof.
  intros Hw. unfold paneResize. destruct (panes w !! id) as [p|] eqn:E; [|done].
  rewrite (Hw id p E), andb_false_r. done.
Qed.
#[export] Hint Resolve ptyOnly_refl paneResize_pty : amux.

Lemma resizeCellPane_pty r pane w : ptyOnly w (fst (resizeCellPane r pane w)).
Proof. destruct pane; simpl; auto with amux. Qed.

Lemma resizeCellPane_ok r pane w :
  working (panes w) -> exists ps, resizeCellPane r pane w = (setPanes ps w, Ok tt) /\ working ps.
Proof.
  intros Hw. destruct pane as [id|]; simpl.
  - pose proof (paneResize_ok id (rW r) (PaneContentHeight (rH r)) w Hw) as Hok.
    destruct (paneResize_pty id (rW r) (PaneContentHeight (rH r)) w) as [Hs Hp].
    destruct (paneResize _ _ _ _) as [w' res]. simpl in *. subst res. exists (panes w').
    split; [by f_equal|auto].
  - exists (panes w). by rewrite setPanes_id.
Qed.

Lemma fold_pty {A} (f : Window -> A -> Window) l w :
  (forall w a, ptyOnly w (f w a)) -> ptyOnly w (fold_left f l w).
Proof. intros Hf. revert w. induction l as [|a l IH]; intros w; simpl; [done|].
  etrans; [apply Hf|apply IH].
Qed.

Lemma resizePTYsExcept_pty excluded w : ptyOnly w (resizePTYsExcept excluded w).
Proof.
  apply fold_pty. intros w' e. repeat case_match; auto with amux. apply paneResize_pty.
Qed.
Lemma resizePTYs_pty w : ptyOnly w (resizePTYs w).
Proof. apply resizePTYsExcept_pty. Qed.

Lemma restoreZoomedPaneSize_pty w : ptyOnly w (restoreZoomedPaneSize w).
Proof.
  unfold restoreZoomedPaneSize. repeat case_match; auto with amux. apply paneResize_pty.
Qed.
Lemma resizePTYsPreserving_pty w : ptyOnly w (resizePTYsPreservingZoomedPaneSize w).
Proof.
  unfold resizePTYsPreservingZoomedPaneSize. case_match; [apply resizePTYs_pty|].
  etrans; [apply resizePTYsExcept_pty|apply restoreZoomedPaneSize_pty].
Qed.
#[export] Hint Resolve resizeCellPane_pty resizePTYs_pty resizePTYsPreserving_pty : amux.

(** ** The invariant *)

(** The tree of a window of a given size: well-formed, positioned from the top
    left corner, as large as the window, one pane in every leaf and no pane twice. *)
Definition treeOk (width height : Z) (root : LayoutCell) : Prop :=
  wf root /\ positioned root /\ cellRect root = mkRect 0 0 width height /\
  cellPanes root = map Some (treePanes root) /\ NoDup (treePanes root) /\
  Forall (fun id => 0 < id) (treePanes root).

(** An ID field: 0 or the ID of a pane of the tree. *)
Definition refers (id : Z) (root : LayoutCell) : Prop := id = 0 \/ id ∈ treePanes root.

Record WindowInv (w : Window) : Prop := mkWindowInv {
  inv_noUltra : Ultra w = None;
  inv_treeOk : treeOk (Width w) (Height w) (Root w);
  inv_active : exists id, ActivePane w = Some id /\ id ∈ treePanes (Root w);
  inv_zoom : refers (ZoomedPaneID w) (Root w);
  inv_lead : refers (LeadPaneID w) (Root w) }.

Lemma ptyOnly_inv w w' : ptyOnly w w' -> WindowInv w -> WindowInv w'.
Proof. intros [-> _] []. by constructor. Qed.

(** A tree obtained by edits is in order once its offsets are fixed. *)
Lemma treeOk_fix width height root root' ids :
  wf root' -> cellRect root' = mkRect 0 0 width height ->
  cellPanes root' ≡ₚ map Some ids -> NoDup ids -> Forall (fun id => 0 < id) ids ->
  root = FixOffsets root' -> treeOk width height root /\ treePanes root ≡ₚ ids.
Proof.
  intros Hwf Hr HP Hnd Hpos ->.
  assert (cellPanes (FixOffsets root') = cellPanes root') as Hc
    by apply same_skeleton_cellPanes, FixOffsets_skeleton.
  assert (treePanes (FixOffsets root') ≡ₚ ids) as Ht.
  { rewrite treePanes_cellPanes, Hc, HP. clear. induction ids; simpl; auto. }
  split; [|done]. unfold treeOk. split_and!; auto with amux.
  - destruct root' as [r d|r dir ch]; [|unfold FixOffsets; rewrite placeAt_node];
      simpl in Hr; rewrite Hr; done.
  - rewrite treePanes_cellPanes, Hc. assert (Forall is_Some (cellPanes root')) as HF.
    { rewrite HP. apply Forall_map, Forall_true. done. }
    clear -HF. induction HF as [|o l [x ->] _ IH]; simpl; [done|]. by f_equal.
  - by rewrite Ht.
  - by rewrite Ht.
Qed.

Lemma treeOk_ids width height root :
  treeOk width height root -> cellPanes root ≡ₚ map Some (treePanes root).
Proof. by intros (_ & _ & _ & -> & _). Qed.

(** ** Focus and zoom *)

Lemma setActive_eq id w :
  exists ps n, setActive id w = setPanes ps (setCounter n (setActivePane (Some id) w)) /\
    (working (panes w) -> working ps).
Proof.
  unfold setActive. simpl. destruct (panes w !! id) as [p|] eqn:E.
  - eexists _, _. split; [reflexivity|]. intros Hw. exact (working_insert id _ _ _ p _ E Hw).
  - exists (panes w), ((activePointCounter w + 1) mod 2 ^ 64). split; [reflexivity|done].
Qed.

Lemma unzoomIf_ok b w :
  working (panes w) ->
  exists ps z, unzoomIf b w = (setPanes ps (setZoomed z w), Ok tt) /\ working ps /\
    (z = 0 \/ z = ZoomedPaneID w) /\ (b = true -> z = 0).
Proof.
  intros Hw. unfold unzoomIf, Unzoom. destruct (Z.eqb_spec (ZoomedPaneID w) 0) as [E|E]; simpl.
  - exists (panes w), (ZoomedPaneID w). split_and!; auto. by destruct w.
  - destruct b; simpl.
    + destruct (FindPane _ (Root w)) as [p|].
      * destruct (resizeCellPane_ok (rectAt p (setZoomed 0 w)) (paneAt p (setZoomed 0 w)) (setZoomed 0 w) Hw)
          as (ps & -> & ?). eauto 10.
      * exists (panes w), 0. split_and!; auto.
    + exists (panes w), (ZoomedPaneID w). split_and!; auto; [by destruct w|done].
Qed.

Lemma mustFindPane_in id w :
  id ∈ treePanes (Root w) ->
  exists p r d, mustFindPane id w = (w, Ok p) /\ FindPane id (Root w) = Some p /\
    cellAt p (Root w) = Some (Leaf r d) /\ Pane d = Some id.
Proof.
  intros (p & E)%FindPane_is_Some. destruct (FindPane_Some _ _ _ E) as (r & d & ? & ?).
  exists p, r, d. unfold mustFindPane. by rewrite E.
Qed.

(** The state the tree-changing operations end in: the tree after an edit, with
    its offsets fixed, whatever the PTY sizes. *)
Lemma finish_inv w w' root' ids :
  Root w' = FixOffsets root' -> wf root' ->
  cellRect root' = mkRect 0 0 (Width w') (Height w') ->
  cellPanes root' ≡ₚ map Some ids -> NoDup ids -> Forall (fun id => 0 < id) ids ->
  Ultra w' = None ->
  (exists id, ActivePane w' = Some id /\ id ∈ ids) ->
  (ZoomedPaneID w' = 0 \/ ZoomedPaneID w' ∈ ids) -> (LeadPaneID w' = 0 \/ LeadPaneID w' ∈ ids) ->
  ptyOnly w' w -> WindowInv w /\ treePanes (Root w) ≡ₚ ids.
Proof.
  intros HR Hwf Hr HP Hnd Hpos HU (a & Ha & Hin) HZ HL Hpty.
  destruct (treeOk_fix _ _ _ _ _ Hwf Hr HP Hnd Hpos HR) as [Hok Ht].
  assert (WindowInv w') as Hinv.
  { constructor; auto; unfold refers; [exists a| |]; by rewrite ?Ht. }
  split; [by eapply ptyOnly_inv|]. destruct Hpty as [-> _]. done.
Qed.

(** ** Splitting a pane *)

Lemma pty_state w w' : ptyOnly w w' -> working (panes w) ->
  exists ps, w' = setPanes ps w /\ working ps.
Proof. intros [E Hp] Hw. exists (panes w'). auto. Qed.

Lemma splitCellCore_ok w p dir new first keep root' q :
  working (panes w) -> splitWithOrder (Root w) p dir new first = Ok (root', q) ->
  exists ps, splitCellCore p dir new first keep w =
    (setPanes ps (setRoot (FixOffsets root') w), Ok tt) /\ working ps.
Proof.
  intros Hw Hs. unfold splitCellCore, bindM, get, modify. rewrite Hs. cbn -[resizeCellPane].
  destruct (resizeCellPane_ok (rectAt q (setRoot root' w)) (Some new) (setRoot root' w) Hw)
    as (ps1 & -> & Hw1). cbn -[resizeCellPane].
  set (w1 := setPanes ps1 (setRoot root' w)).
  set (e := existingCell p q first). set (pane := paneAt e w1).
  assert (exists ps2, (match pane with
      | Some id => if keep id w1 then ret tt else resizeCellPane (rectAt e w1) (Some id)
      | None => ret tt end) w1 = (setPanes ps2 w1, Ok tt) /\ working ps2) as (ps2 & E2 & Hw2).
  { assert (ret (E := WindowError) tt w1 = (setPanes ps1 w1, Ok tt)) by done.
    destruct pane as [id|]; [destruct (keep id w1)|]; eauto.
    by apply resizeCellPane_ok. }
  rewrite E2. cbv beta iota.
  destruct (pty_state _ _ (resizePTYsPreserving_pty
    (setRoot (FixOffsets (Root (setPanes ps2 w1))) (setPanes ps2 w1))) Hw2) as (ps3 & -> & Hw3).
  by exists ps3.
Qed.

(** The rectangle of a pane. *)
Definition paneRect (id : Z) (w : Window) : option Rect :=
  (fun p => rectAt p w) <$> FindPane id (Root w).

Lemma unzoomed_inv w ps z :
  WindowInv w -> z = 0 \/ z = ZoomedPaneID w -> WindowInv (setPanes ps (setZoomed z w)).
Proof. intros [] [->| ->]; constructor; simpl; auto. by left. Qed.

(** What the split of a pane that is not the lead does. *)
Definition splitOutcome (id : Z) (dir : SplitDir) (new : Z) (opts : SplitOptions) (w w' : Window)
    (res : result WindowError Z) : Prop :=
  WindowInv w' /\ working (panes w') /\
  exists r, paneRect id w = Some r /\
    if 2 * PaneMinSize + 1 <=? rAxis dir r then
      res = Ok new /\ treePanes (Root w') ≡ₚ new :: treePanes (Root w) /\
      ActivePane w' = (if KeepFocus opts then ActivePane w else Some new)
    else res = Err (errLayout (errNoSpace (rAxis dir r) (2 * PaneMinSize + 1))) /\ Root w' = Root w /\
      ActivePane w' = ActivePane w.

Lemma splitCellCore_none w p dir new first keep r d :
  cellAt p (Root w) = Some (Leaf r d) -> rAxis dir r < 2 * PaneMinSize + 1 ->
  splitCellCore p dir new first keep w =
    (w, Err (errLayout (errNoSpace (rAxis dir r) (2 * PaneMinSize + 1)))).
Proof.
  intros Hc Hr. unfold splitCellCore, bindM, get, splitWithOrder. rewrite Hc.
  by rewrite (proj2 (Z.ltb_lt _ _) Hr).
Qed.

(** The window after a split: the new tree, with the new pane focused or not. *)
Lemma split_finish w root' new (keep : bool) w' :
  WindowInv w -> 0 < new -> new ∉ treePanes (Root w) ->
  wf root' -> cellRect root' = cellRect (Root w) ->
  cellPanes root' ≡ₚ Some new :: cellPanes (Root w) ->
  w' = (if keep then setRoot (FixOffsets root') w
        else setActivePane (Some new) (setRoot (FixOffsets root') w)) ->
  forall w'', ptyOnly w' w'' -> WindowInv w'' /\ treePanes (Root w'') ≡ₚ new :: treePanes (Root w).
Proof.
  intros [HU (Hwf & Hpos & Hr & HP & Hnd & Hp) (a & Ha & Hin) HZ HL] Hn Hni Hwf' Hr' HP' -> w''.
  rewrite HP in HP'. rewrite Hr in Hr'.
  assert (NoDup (new :: treePanes (Root w))) by (by constructor).
  assert (Forall (fun id => 0 < id) (new :: treePanes (Root w))) by (by constructor).
  assert (forall id, refers id (Root w) -> id = 0 \/ id ∈ new :: treePanes (Root w)) as Hrefs.
  { intros id [->|Hid]; [by left|right]. by apply list_elem_of_further. }
  destruct keep; apply (finish_inv w'' _ root'); simpl; auto.
  - exists a. split; [done|]. by apply list_elem_of_further.
  - exists new. split; [done|]. apply list_elem_of_here.
Qed.

Lemma setActive_state id w :
  working (panes w) ->
  exists ps n, setActive id w = setPanes ps (setCounter n (setActivePane (Some id) w)) /\ working ps.
Proof. intros Hw. destruct (setActive_eq id w) as (ps & n & E & H). eauto. Qed.

Lemma counter_inv n w : WindowInv w -> WindowInv (setCounter n w).
Proof. intros []. by constructor. Qed.

Lemma SplitPaneWithOptions_ok id dir new opts w :
  WindowInv w -> working (panes w) -> id ∈ treePanes (Root w) -> IsLeadPane id w = false ->
  0 < new -> new ∉ treePanes (Root w) ->
  let '(w', res) := SplitPaneWithOptions id dir new opts w in splitOutcome id dir new opts w w' res.
Proof.
  intros Hinv Hw Hid Hlead Hn Hni. unfold SplitPaneWithOptions, bindM, get.
  destruct (unzoomIf_ok (negb (KeepFocus opts)) w Hw) as (ps & z & -> & Hps & Hz & _).
  set (w1 := setPanes ps (setZoomed z w)).
  assert (WindowInv w1) as Hinv1 by (by apply unzoomed_inv).
  assert (IsUltra w1 = false) as -> by (unfold IsUltra; simpl; by rewrite (inv_noUltra w Hinv)).
  assert (hasPendingLead w1 && (id =? LeadPaneID w1) = false) as ->.
  { unfold hasPendingLead, IsLeadPane in *. simpl. zb; simpl; try done; try lia; by rewrite andb_false_r. }
  change (IsLeadPane id w1) with (IsLeadPane id w). rewrite Hlead.
  destruct (mustFindPane_in id w1 Hid) as (p & r & d & -> & HF & Hc & Hd).
  assert (paneRect id w = Some r) as Hr.
  { unfold paneRect. change (Root w) with (Root w1). rewrite HF. simpl. unfold rectAt.
    change (Root w) with (Root w1). by rewrite Hc. }
  unfold splitCellWithOptions, bindM, splitOutcome, modify, ret.
  pose proof Hinv as [_ (Hwf & _) _ _ _].
  destruct (Z.leb_spec (2 * PaneMinSize + 1) (rAxis dir r)) as [Hle|Hlt].
  - destruct (splitWithOrder_correct (Root w1) p dir new false r d Hwf Hc Hle)
      as (root' & q & Hs & Hwf' & Hr' & HP & _).
    destruct (splitCellCore_ok w1 p dir new false (fun id w => shouldKeepZoomedPaneSize id opts w)
                root' q Hps Hs) as (ps2 & -> & Hps2).
    cbv beta iota.
    set (w2 := setPanes ps2 (setRoot (FixOffsets root') w1)).
    destruct (setActive_state new w2 Hps2) as (ps3 & n & -> & Hps3).
    pose proof (split_finish w1 root' new (KeepFocus opts) _ Hinv1 Hn Hni Hwf' Hr' HP eq_refl) as Hfin.
    destruct (KeepFocus opts).
    + destruct (Hfin w2) as [? ?]; [done|]. split_and!; try done. exists r.
      rewrite (proj2 (Z.leb_le _ _) Hle). done.
    + destruct (Hfin (setPanes ps3 (setActivePane (Some new) (setRoot (FixOffsets root') w1))))
        as [Hi ?]; [done|].
      split_and!; [by apply (counter_inv n) in Hi|done|]. exists r.
      rewrite (proj2 (Z.leb_le _ _) Hle). done.
  - rewrite (splitCellCore_none w1 p dir new false _ r d Hc Hlt).
    split_and!; [done|done|]. exists r. split; [done|].
    by rewrite (proj2 (Z.leb_gt _ _) Hlt).
Qed.

(** ** The columns beside an anchored lead *)

(** A tree with other sizes inside the same outline. *)
Definition reshaped (c c' : LayoutCell) : Prop :=
  wf c' /\ cellRect c' = cellRect c /\ skeleton c' = skeleton c.

Lemma reshaped_refl c : wf c -> reshaped c c.
Proof. done. Qed.

Lemma reshaped_trans c1 c2 c3 : reshaped c1 c2 -> reshaped c2 c3 -> reshaped c1 c3.
Proof. unfold reshaped. intros (? & ? & ?) (? & ? & ?). split_and!; congruence. Qed.

(** Columns of equal width are wide enough for what they hold. *)
Definition leadColumnsFit (w : Window) : Prop :=
  let '(columns, sizes) := anchoredLeadWidthTargets w in
  Forall2 (fun c size => minSubtreeSize SplitVertical c <= size) columns sizes.

Lemma leadColumnsFit_none w : hasAnchoredLead w = false -> leadColumnsFit w.
Proof. intros H. unfold leadColumnsFit, anchoredLeadWidthTargets, anchoredLeadWidthColumns. rewrite H. constructor. Qed.

Lemma anchored_shape w : hasAnchoredLead w = true ->
  exists r lr d logical, Root w = Node r SplitVertical [Leaf lr d; logical] /\ Pane d = Some (LeadPaneID w).
Proof.
  unfold hasAnchoredLead. intros [_ E]%andb_prop.
  destruct (Root w) as [|r [] [|[lr d|] [|c2 [|]]]]; try done. apply bool_decide_eq_true in E. by exists r, lr, d, c2.
Qed.

Lemma resized_fit c w h : wf c ->
  minSubtreeSize SplitVertical c <= w -> minSubtreeSize SplitHorizontal c <= h ->
  let c' := ResizeSubtree c w h in wf c' /\ cW c' = w /\ cH c' = h /\ skeleton c' = skeleton c.
Proof.
  intros Hwf HW HH. cbv zeta. destruct (ResizeSubtree_spec c w h (wf_shaped _ Hwf)) as (? & _ & ? & _ & _ & -> & ->).
  split_and!; [done|lia|lia|done].
Qed.

Lemma columns_fit ch sizes h : Forall wf ch -> Forall (fun c => cH c = h) ch ->
  Forall2 (fun c size => minSubtreeSize SplitVertical c <= size) ch sizes ->
  let ch' := map2 (fun c size => ResizeSubtree c size h) ch sizes in
  Forall wf ch' /\ Forall (fun c => cH c = h) ch' /\ map cW ch' = sizes /\ map skeleton ch' = map skeleton ch.
Proof.
  intros Hwf HH HF. induction HF as [|c s ch sizes Hs HF IH]; [done|].
  apply Forall_cons in Hwf as [Hc Hwf], HH as [Hch HH]. destruct (IH Hwf HH) as (? & ? & Ew & Es).
  pose proof (wf_min_le SplitHorizontal c Hc) as Hm. unfold axisSize in Hm. simpl in Hm.
  destruct (resized_fit c s h Hc Hs ltac:(unfold cH in Hch; lia)) as (? & ? & ? & Esc).
  simpl. split_and!; [by constructor|by constructor|by f_equal|f_equal; [exact Esc|exact Es]].
Qed.

(** A lead column and what is beside it, resized. *)
Lemma lead_reshaped r lead logical lead' logical' :
  wf (Node r SplitVertical [lead; logical]) -> wf lead' -> wf logical' ->
  skeleton lead' = skeleton lead -> skeleton logical' = skeleton logical ->
  cH lead' = rH r -> cH logical' = rH r -> cW lead' + 1 + cW logical' = rW r ->
  reshaped (Node r SplitVertical [lead; logical]) (Node r SplitVertical [lead'; logical']).
Proof.
  intros Hwf H1 H2 E1 E2 HH1 HH2 HW. split_and!; [|done|simpl; by rewrite E1, E2].
  constructor; [simpl; lia|by repeat constructor|by repeat constructor|].
  unfold axisSize, cW in *. simpl. lsum.
Qed.

Lemma wf_column r c1 c2 : wf (Node r SplitVertical [c1; c2]) ->
  wf c1 /\ wf c2 /\ cH c1 = rH r /\ cH c2 = rH r /\ cW c1 + 1 + cW c2 = rW r.
Proof.
  inversion_clear 1 as [|? ? ? _ HF HC HS]. apply Forall_cons in HF as [? [? _]%Forall_cons].
  apply Forall_cons in HC as [? [? _]%Forall_cons]. unfold axisSize, cW, cH in *. simpl in *. split_and!; try done.
  revert HS. lsum.
Qed.

Lemma wf_leafHeight r d h : wf (Leaf r d) -> cH (Leaf r d) = h -> minSubtreeSize SplitHorizontal (Leaf r d) <= h.
Proof. intros Hwf <-. exact (wf_min_le SplitHorizontal _ Hwf). Qed.

(** One group of columns beside the lead. *)
Lemma equalizeGroup_ok r lead logical s0 s1 :
  wf (Node r SplitVertical [lead; logical]) -> s0 + 1 + s1 = rW r ->
  minSubtreeSize SplitVertical lead <= s0 -> minSubtreeSize SplitVertical logical <= s1 ->
  reshaped (Node r SplitVertical [lead; logical])
    (Node r SplitVertical [ResizeSubtree lead s0 (rH r); ResizeSubtree logical s1 (rH r)]).
Proof.
  intros Hwf Hs H0 H1. destruct (wf_column _ _ _ Hwf) as (Hl & Hg & HHl & HHg & _).
  pose proof (wf_min_le SplitHorizontal _ Hl) as Ml. pose proof (wf_min_le SplitHorizontal _ Hg) as Mg.
  unfold axisSize in Ml, Mg. unfold cH in HHl, HHg. simpl in Ml, Mg.
  destruct (resized_fit lead s0 (rH r) Hl H0 ltac:(lia)) as (? & ? & ? & ?).
  destruct (resized_fit logical s1 (rH r) Hg H1 ltac:(lia)) as (? & ? & ? & ?).
  apply lead_reshaped; (done || lia).
Qed.

(** Several columns beside the lead. *)
Lemma equalizeColumns_ok r lead r2 ch s0 rest :
  wf (Node r SplitVertical [lead; Node r2 SplitVertical ch]) ->
  s0 + 1 + equalizedColumnGroupWidth rest = rW r ->
  Forall2 (fun c size => minSubtreeSize SplitVertical c <= size) (lead :: ch) (s0 :: rest) ->
  reshaped (Node r SplitVertical [lead; Node r2 SplitVertical ch])
    (Node r SplitVertical [ResizeSubtree lead s0 (rH r);
       FixOffsets (Node (setWH (equalizedColumnGroupWidth rest) (rH r) r2) SplitVertical
         (map2 (fun column size => ResizeSubtree column size (rH r)) ch rest))]).
Proof.
  intros Hwf Hs [H0 HF]%Forall2_cons. destruct (wf_column _ _ _ Hwf) as (Hl & Hg & HHl & HHg & _).
  pose proof (wf_min_le SplitHorizontal _ Hl) as Ml. unfold axisSize in Ml. unfold cH in HHl, HHg. simpl in Ml, HHg.
  destruct (resized_fit lead s0 (rH r) Hl H0 ltac:(lia)) as (? & ? & ? & ?).
  inversion Hg as [|? ? ? Hlen HFw HC _]; subst.
  assert (Forall (fun c => cH c = rH r) ch) as HCh.
  { eapply Forall_impl; [exact HC|]. intros c. unfold axisSize, cH. simpl. lia. }
  destruct (columns_fit ch rest (rH r) HFw HCh HF) as (Hw' & HH' & EW & ES).
  set (ch' := map2 _ ch rest) in *. pose proof (Forall2_length _ _ _ HF) as Elen.
  assert (length ch' = length ch) as Elen' by (rewrite <- (length_map cW ch'), EW; done).
  assert (wf (Node (setWH (equalizedColumnGroupWidth rest) (rH r) r2) SplitVertical ch')) as Hwg.
  { constructor; [lia|done|exact HH'|]. change (map (axisSize SplitVertical) ch') with (map cW ch'). rewrite EW.
    simpl. unfold lenZ. rewrite Elen'. destruct rest as [|x rest]; [destruct ch; simpl in *; lia|].
    unfold equalizedColumnGroupWidth, lenZ. simpl in *. lia. }
  pose proof (FixOffsets_axisSize SplitVertical (Node (setWH (equalizedColumnGroupWidth rest) (rH r) r2) SplitVertical ch')) as FW.
  pose proof (FixOffsets_axisSize SplitHorizontal (Node (setWH (equalizedColumnGroupWidth rest) (rH r) r2) SplitVertical ch')) as FH.
  unfold axisSize in FW, FH. apply lead_reshaped; [done|done|by apply FixOffsets_wf|done| |done|exact FH|unfold cW in *; simpl in *; lia].
  rewrite FixOffsets_skeleton. simpl. by rewrite ES.
Qed.

(** Where the columns fit, equalizing them only changes sizes. *)
Lemma equalizeAnchored_spec w :
  wf (Root w) -> rW (cellRect (Root w)) = Width w -> leadColumnsFit w ->
  exists root', equalizeAnchoredLeadColumns w = setRoot root' w /\ reshaped (Root w) root'.
Proof.
  intros Hwf HW Hfit. destruct (hasAnchoredLead w) eqn:Ha.
  2: { exists (Root w). split; [|done]. unfold equalizeAnchoredLeadColumns, anchoredLeadWidthTargets, anchoredLeadWidthColumns.
       rewrite Ha. simpl. by destruct w. }
  destruct (anchored_shape w Ha) as (r & lr & d & logical & ER & _).
  unfold leadColumnsFit, equalizeAnchoredLeadColumns, anchoredLeadWidthTargets in *.
  set (columns := anchoredLeadWidthColumns w) in *.
  assert (exists c ch, columns = Leaf lr d :: c :: ch /\
    ((ch = [] /\ logical = c) \/ (ch <> [] /\ exists r2, logical = Node r2 SplitVertical (c :: ch)))) as (c & ch & EC & Hcase).
  { unfold columns, anchoredLeadWidthColumns. rewrite Ha, ER in *. simpl. destruct (wf_column _ _ _ Hwf) as (_ & Hg & _).
    destruct logical as [|r2 [] ch]; [by eexists _, []; auto| |by eexists _, []; auto].
    inversion Hg as [|? ? ? Hl]; subst. destruct ch as [|c [|c2 ch]]; simpl in Hl; [lia|lia|].
    exists c, (c2 :: ch). split; [done|]. right. split; [done|]. by eexists. }
  assert (2 <= lenZ columns) as Hn by (rewrite EC; unfold lenZ; simpl; lia).
  rewrite (proj2 (Z.ltb_ge _ _) Hn) in *.
  pose proof (sum_equalSplitSizes (Width w) (lenZ columns) ltac:(lia)) as Hsum.
  pose proof (length_equalSplitSizes (Width w) (lenZ columns) ltac:(lia)) as Hlen.
  set (sizes := equalSplitSizes _ _) in *. clearbody sizes. rewrite EC in Hfit.
  pose proof (Forall2_length _ _ _ Hfit) as Hl. destruct sizes as [|s0 [|s1 rest]]; [done..|].
  rewrite (proj2 (Z.ltb_ge _ _) Hn), ER in *. simpl in HW.
  destruct Hcase as [[-> ->]|[Hne (r2 & ->)]].
  - apply Forall2_cons in Hfit as [H0 [H1 HF]%Forall2_cons]. apply Forall2_nil_inv_l in HF as ->.
    eexists. split; [done|]. rewrite EC in Hsum. apply equalizeGroup_ok; [done| |done|done].
    revert Hsum. unfold lenZ. simpl. lsum.
  - pose proof Hfit as HF. apply Forall2_cons in HF as [_ HF]. destruct rest as [|s2 rest].
    { apply Forall2_cons in HF as [_ HF]. by apply Forall2_nil_inv_r in HF. }
    eexists. split; [done|]. apply (equalizeColumns_ok r (Leaf lr d) r2 (c :: ch)); [done| |done].
    unfold equalizedColumnGroupWidth. revert Hsum Hlen. unfold lenZ. simpl. lsum.
Qed.

(** ** Splitting at the root *)

(** Giving the children of a split sizes that fit makes a well-formed cell. *)
Lemma fits_node_wf r dir ch sizes :
  (2 <= length ch)%nat -> fits r dir ch ->
  Forall2 Z.le (map (minSubtreeSize dir) ch) sizes -> sumZ sizes + (lenZ ch - 1) = rAxis dir r ->
  wf (Node r dir (map2 (resizeChildTo dir r) ch sizes)) /\
  cellPanes (Node r dir (map2 (resizeChildTo dir r) ch sizes)) = cellPanes (Node r dir ch).
Proof.
  intros Hl Hf Hle Hs. pose proof (fits_resized r dir ch sizes Hf Hle) as HR.
  assert (length ch = length sizes) as Hls by (by apply Forall2_length in HR).
  split.
  - constructor.
    + by rewrite length_map2.
    + apply Forall_map2. eapply Forall2_impl; [exact HR|]. naive_solver.
    + apply Forall_map2. eapply Forall2_impl; [exact HR|]. naive_solver.
    + rewrite (map_map2_r _ (axisSize dir)), lenZ_map2 by
        (done || (eapply Forall2_impl; [exact HR|]; naive_solver)). done.
  - apply same_skeleton_cellPanes. simpl. f_equal. apply map_map2_l.
    eapply Forall2_impl; [exact HR|]. naive_solver.
Qed.

Lemma resizeChildTo_newLeaf dir r new size :
  PaneMinSize <= size -> PaneMinSize <= rAxis (other dir) r ->
  resizeChildTo dir r (NewLeaf (Some new) 0 0 0 0) size =
    match dir with
    | SplitVertical => NewLeaf (Some new) 0 0 size (rH r)
    | SplitHorizontal => NewLeaf (Some new) 0 0 (rW r) size
    end.
Proof.
  intros Hs Ho. unfold NewLeaf, setWH, atLeast. destruct dir; simpl in *; unfold setWH, atLeast; simpl;
    zb; done || lia.
Qed.

(** A tree and a new leaf next to it. *)
Lemma root_fits target dir new (first : bool) :
  wf target -> splitRootRequiredSize target dir <= axisSize dir target ->
  let nl := NewLeaf (Some new) 0 0 0 0 in
  fits (cellRect target) dir (if first then [nl; target] else [target; nl]).
Proof.
  intros Hwf Hreq nl. pose proof (wf_min_le (other dir) _ Hwf) as Ho.
  pose proof (minSubtreeSize_ge (other dir) _ (wf_shaped _ Hwf)).
  unfold splitRootRequiredSize, axisSize, PaneMinSize in *. unfold fits.
  destruct first; (split_and!; [done|repeat constructor; auto with amux| |]); simpl; lsum;
    repeat constructor; simpl; unfold PaneMinSize; lia.
Qed.

Lemma siblings_fit r dir ch new (first : bool) :
  wf (Node r dir ch) -> splitRootRequiredSize (Node r dir ch) dir <= rAxis dir r ->
  let nl := NewLeaf (Some new) 0 0 0 0 in
  fits r dir (if first then nl :: ch else ch ++ [nl]).
Proof.
  intros Hwf Hreq nl. pose proof (wf_fits _ _ _ Hwf) as (Hne & Hsh & Hsum & Hcr).
  unfold splitRootRequiredSize in Hreq. rewrite minSubtreeSize_along in Hreq by done.
  assert (minSubtreeSize (other dir) nl <= rAxis (other dir) r) as Hnl.
  { destruct ch as [|c ch]; [done|]. apply Forall_cons in Hcr as [Hc _]. apply Forall_cons in Hsh as [Hs _].
    pose proof (minSubtreeSize_ge (other dir) c Hs). simpl. lia. }
  assert (shaped nl) by constructor. unfold PaneMinSize in *.
  unfold fits. destruct first; split_and!; try done; rewrite ?map_app; simpl; lsum;
    try (by destruct ch); try (by constructor); unfold PaneMinSize; try lia;
    by apply Forall_app; split; [|repeat constructor].
Qed.

Definition rootSplit (target : LayoutCell) (new : Z) (cell : LayoutCell) : Prop :=
  wf cell /\ cellRect cell = cellRect target /\ cellPanes cell ≡ₚ Some new :: cellPanes target.

Lemma wrapRoot_spec target dir new (first : bool) :
  wf target -> splitRootRequiredSize target dir <= axisSize dir target ->
  let nl := NewLeaf (Some new) 0 0 0 0 in
  let children := if first then [nl; target] else [target; nl] in
  let r := cellRect target in
  exists size0 size1,
    frontLoadedSubtreeSplitSizes children dir (axisSize dir target) = Some [size0; size1] /\
    PaneMinSize <= (if first then size0 else size1) /\
    rootSplit target new (Node r dir (map2 (resizeChildTo dir r) children [size0; size1])).
Proof.
  intros Hwf Hreq nl children r. pose proof (root_fits target dir new first Hwf Hreq) as Hf.
  cbv zeta in Hf. fold nl in Hf. fold children in Hf. pose proof Hf as (Hne & _ & Hsum & _).
  assert (length children = 2%nat) as Hl2 by (by unfold children; destruct first).
  assert (lenZ children = 2) as Hl by (unfold lenZ; by rewrite Hl2).
  change (rAxis dir (cellRect target)) with (axisSize dir target) in Hsum.
  assert (0 <= sumZ (map (minSubtreeSize dir) children)) as Hnn.
  { pose proof (minSubtreeSize_ge dir _ (wf_shaped _ Hwf)). unfold children, PaneMinSize in *.
    destruct first; simpl; lsum; unfold PaneMinSize; lia. }
  destruct (frontLoaded_spec children dir (axisSize dir target)) as (sizes & E & Hls & Hle & Hs);
    [done|lia|lia|].
  rewrite Hl2 in Hls. destruct sizes as [|s0 [|s1 [|? ?]]]; try done. exists s0, s1.
  split; [done|]. split.
  { unfold children in Hle. destruct first; simpl in Hle; by inversion_clear Hle as [|? ? ? ? ? Hle2];
      try inversion_clear Hle2. }
  destruct (fits_node_wf r dir children [s0; s1]) as [Hw Hc]; [lia|done|done|by rewrite Hs|].
  unfold rootSplit. split_and!; [done|done|]. rewrite Hc, cellPanes_node. unfold children.
  destruct first; simpl; [by rewrite app_nil_r|]. symmetry. apply Permutation_cons_append.
Qed.

Lemma splitRootCell_spec target dir new first :
  wf target -> splitRootRequiredSize target dir <= axisSize dir target ->
  exists cell, splitRootCell target dir new first = Some cell /\ rootSplit target new cell.
Proof.
  intros Hwf Hreq. destruct (wrapRoot_spec target dir new first Hwf Hreq)
    as (s0 & s1 & E & Hmin & Hw).
  assert (PaneMinSize <= rAxis (other dir) (cellRect target)) as Hcross.
  { pose proof (wf_min_le (other dir) _ Hwf). pose proof (minSubtreeSize_ge (other dir) _ (wf_shaped _ Hwf)).
    unfold axisSize in *. lia. }
  assert (forall r dir' ch, target = Node r dir' ch -> dir' = dir ->
    exists cell, splitRootCell target dir new first = Some cell /\ rootSplit target new cell) as Hsame.
  { intros r dir' ch -> ->. unfold splitRootCell. rewrite decide_True by done.
    pose proof (siblings_fit r dir ch new first Hwf Hreq) as Hf. cbv zeta in Hf |- *.
    set (nl := NewLeaf (Some new) 0 0 0 0) in *.
    set (children := if first then nl :: ch else ch ++ [nl]) in *.
    pose proof Hf as (Hne & _ & Hsum & _).
    destruct (equalSubtree_spec children dir (rAxis dir r) Hne Hsum) as (sizes & -> & _ & Hle & Hs).
    eexists. split; [done|]. inversion Hwf as [|? ? ? Hlen]; subst.
    destruct (fits_node_wf r dir children sizes) as [Hw' Hc]; [|done..|].
    { unfold children. destruct first; rewrite ?length_app; simpl; lia. }
    unfold rootSplit. split_and!; [done|done|]. rewrite Hc, !cellPanes_node. unfold children.
    destruct first; [done|]. rewrite map_app, concat_app. symmetry. apply Permutation_cons_append. }
  destruct target as [r d|r dir' ch]; [|destruct (decide (dir' = dir)) as [->|Hd]; [by eapply Hsame|]];
    unfold splitRootCell; rewrite ?(decide_False (P := dir' = dir)) by done; cbv zeta; rewrite E;
    destruct first; (eexists; split; [reflexivity|]);
    cbn [map2] in Hw; rewrite resizeChildTo_newLeaf in Hw by done; exact Hw.
Qed.

Lemma splitResult_intro_root p root c c' new :
  wf root -> cellAt p root = Some c -> wf c' -> cellRect c' = cellRect c ->
  cellPanes c' ≡ₚ Some new :: cellPanes c -> rootSplit root new (updAt (fun _ => c') p root).
Proof.
  intros Hwf Hc Hwf' Hr HP. destruct (wf_updAt (fun _ => c') p root c) as [? _]; auto.
  { unfold sameSize, cW, cH. by rewrite Hr. }
  destruct (cellPanes_updAt p root c Hc) as (l1 & l2 & E1 & E2).
  unfold rootSplit. split_and!; [done|by apply (cellRect_updAt _ p root c)|].
  rewrite E1, E2, HP. simpl. symmetry. apply Permutation_middle.
Qed.

Definition rootSplitOutcome (t : path) (dir : SplitDir) (new : Z) (keep : bool) (w w' : Window)
    (res : result WindowError Z) : Prop :=
  WindowInv w' /\ working (panes w') /\
  exists target, cellAt t (Root w) = Some target /\
    let required := minSubtreeSize dir target + 1 + PaneMinSize in
    if required <=? axisSize dir target then
      res = Ok new /\ treePanes (Root w') ≡ₚ new :: treePanes (Root w) /\
      ActivePane w' = (if keep then ActivePane w else Some new)
    else res = Err (errRootNoSpace (axisSize dir target) required) /\ Root w' = Root w /\
      ActivePane w' = ActivePane w.

(** A vertical split at the root beside an anchored lead divides the columns
    equally again: they fit. *)
Definition splitAtFits (t : path) (dir : SplitDir) (new : Z) (first : bool) (w : Window) : Prop :=
  shouldEqualizeAnchoredLeadAfterRootSplit t dir w = true ->
  forall target cell, cellAt t (Root w) = Some target -> splitRootCell target dir new first = Some cell ->
    leadColumnsFit (setRoot (updAt (fun _ => cell) t (Root w)) w).

Lemma splitAtFits_tree t dir new first target cell w :
  WindowInv w -> cellAt t (Root w) = Some target -> splitRootCell target dir new first = Some cell ->
  rootSplit target new cell -> splitAtFits t dir new first w ->
  let w1 := setRoot (updAt (fun _ => cell) t (Root w)) w in
  exists root', (if shouldEqualizeAnchoredLeadAfterRootSplit t dir w then equalizeAnchoredLeadColumns w1 else w1)
      = setRoot root' w /\ rootSplit (Root w) new root'.
Proof.
  intros [_ (Hwf & _ & Hr & _) _ _ _] Ht Hs (Hcw & Hcr & HcP) Hfit w1.
  pose proof (splitResult_intro_root t (Root w) target cell new Hwf Ht Hcw Hcr HcP) as H1.
  destruct (shouldEqualizeAnchoredLeadAfterRootSplit t dir w) eqn:E; [|by eexists].
  destruct H1 as (Hw1 & Hr1 & HP1).
  destruct (equalizeAnchored_spec w1) as (root' & -> & Hwf' & Hr' & Hsk); [done| |by eapply Hfit|].
  { simpl. by rewrite Hr1, Hr. }
  exists root'. split; [done|]. split_and!; [done|by rewrite Hr'|].
  by rewrite (same_skeleton_cellPanes _ _ Hsk).
Qed.

Lemma splitRootAt_ok t dir new first opts target w :
  WindowInv w -> working (panes w) -> cellAt t (Root w) = Some target ->
  0 < new -> new ∉ treePanes (Root w) -> splitAtFits t dir new first w ->
  let '(w', res) := splitRootAt t dir new first opts w in
  rootSplitOutcome t dir new (KeepFocus opts) w w' res.
Proof.
  intros Hinv Hw Ht Hn Hni Hfit. unfold splitRootAt, rootSplitOutcome. rewrite Ht.
  change (splitRootRequiredSize target dir) with (minSubtreeSize dir target + 1 + PaneMinSize).
  change (splitAvailable target dir) with (axisSize dir target).
  set (required := minSubtreeSize dir target + 1 + PaneMinSize).
  pose proof Hinv as [_ (Hwf & _) _ _ _]. pose proof (wf_cellAt _ _ _ Hwf Ht) as Hwft.
  destruct (Z.ltb_spec (axisSize dir target) required) as [Hlt|Hge].
  { split_and!; [done|done|]. exists target. cbv zeta. fold required.
    by rewrite (proj2 (Z.leb_gt _ _) Hlt). }
  destruct (splitRootCell_spec target dir new first Hwft) as (cell & Es & Hcell).
  { unfold splitRootRequiredSize. fold required. lia. }
  rewrite Es. cbv zeta.
  destruct (splitAtFits_tree t dir new first target cell w Hinv Ht Es Hcell Hfit) as (root' & -> & Hwf' & Hr' & HP').
  destruct (pty_state _ _ (resizePTYsPreserving_pty (setRoot (FixOffsets root') w)) Hw) as (ps & E & Hps).
  change (setRoot (FixOffsets (Root (setRoot root' w))) (setRoot root' w))
    with (setRoot (FixOffsets root') w).
  rewrite E. set (w2 := setPanes ps (setRoot (FixOffsets root') w)).
  destruct (setActive_state new w2 Hps) as (ps3 & n & -> & Hps3).
  pose proof (split_finish w root' new (KeepFocus opts) _ Hinv Hn Hni Hwf' Hr' HP' eq_refl) as Hfin.
  assert ((required <=? axisSize dir target) = true) as Hle by (by apply Z.leb_le).
  destruct (KeepFocus opts).
  - destruct (Hfin w2) as [? ?]; [done|]. split_and!; try done. exists target. cbv zeta.
    fold required. by rewrite Hle.
  - destruct (Hfin (setPanes ps3 (setActivePane (Some new) (setRoot (FixOffsets root') w)))) as [Hi ?]; [done|].
    split_and!; [by apply (counter_inv n) in Hi|done|]. exists target. cbv zeta.
    fold required. by rewrite Hle.
Qed.

(** The root a split starts from: the whole tree, or the tree beside the lead. *)
Definition splitRootPath (w : Window) : path := if hasPendingLead w then [] else logicalRoot w.

Lemma logicalRoot_cell w : exists target, cellAt (logicalRoot w) (Root w) = Some target.
Proof.
  unfold logicalRoot. destruct (hasAnchoredLead w) eqn:E; [|by eexists].
  unfold hasAnchoredLead in E. apply andb_prop in E as [_ E].
  destruct (Root w) as [|? [] [|[] [|c2 [|]]]]; try done. by exists c2.
Qed.

(** The split of the root [SplitRootWithOptions] makes fits the columns beside an
    anchored lead. *)
Definition rootSplitFits (dir : SplitDir) (new : Z) (w : Window) : Prop :=
  splitAtFits (logicalRoot w) dir new false w.

Lemma splitAtFits_intro t dir new first w :
  dir = SplitHorizontal \/ hasAnchoredLead w = false -> splitAtFits t dir new first w.
Proof.
  unfold splitAtFits, shouldEqualizeAnchoredLeadAfterRootSplit. by intros [->| ->]; rewrite ?andb_false_r.
Qed.

Lemma hasPendingLead_anchored w : hasPendingLead w = true -> hasAnchoredLead w = false.
Proof.
  unfold hasPendingLead, hasAnchoredLead. destruct (Root w); [by rewrite andb_false_r|].
  by rewrite andb_false_r.
Qed.

Lemma SplitRootWithOptions_ok dir new opts w :
  WindowInv w -> working (panes w) -> 0 < new -> new ∉ treePanes (Root w) -> rootSplitFits dir new w ->
  let '(w', res) := SplitRootWithOptions dir new opts w in
  rootSplitOutcome (splitRootPath w) (if hasPendingLead w then SplitVertical else dir) new
    (KeepFocus opts) w w' res.
Proof.
  intros Hinv Hw Hn Hni Hfit. unfold SplitRootWithOptions, bindM, get.
  destruct (unzoomIf_ok (negb (KeepFocus opts)) w Hw) as (ps & z & -> & Hps & Hz & _).
  set (w1 := setPanes ps (setZoomed z w)).
  assert (WindowInv w1) as Hinv1 by (by apply unzoomed_inv).
  assert (IsUltra w1 = false) as -> by (unfold IsUltra; simpl; by rewrite (inv_noUltra w Hinv)).
  change (hasPendingLead w1) with (hasPendingLead w). change (logicalRoot w1) with (logicalRoot w).
  unfold splitRootPath. destruct (hasPendingLead w) eqn:Hp.
  - apply (splitRootAt_ok [] SplitVertical new false opts (Root w) w1); try done.
    apply splitAtFits_intro. right. by apply hasPendingLead_anchored.
  - destruct (logicalRoot_cell w) as (target & Ht).
    by apply (splitRootAt_ok (logicalRoot w) dir new false opts target w1).
Qed.

(** ** Closing a pane *)

Lemma panesOf_treePanes c : panesOf c = treePanes c.
Proof.
  unfold panesOf, treePanes. rewrite <- Walk_leaves. induction (Walk c) as [|[p [r d]] l IH]; [done|].
  cbn. destruct (Pane d); [f_equal|]; exact IH.
Qed.

Lemma leaves_ne c : shaped c -> leaves c <> [].
Proof.
  induction c as [r d|r dir ch IH] using LayoutCell_tree_ind; [done|].
  inversion_clear 1 as [|? ? ? Hl HF]. destruct ch as [|c ch]; simpl in *; [lia|].
  apply Forall_cons in HF as [Hc _]. apply Forall_cons in IH as [IH _].
  intros [E _]%app_eq_nil. by apply IH.
Qed.

Lemma leafCount_leaves c : leafCount c = lenZ (cellPanes c).
Proof. unfold leafCount, cellPanes. rewrite lenZ_map, <- Walk_leaves. by rewrite lenZ_map. Qed.

Lemma leafCount_ok width height root : treeOk width height root -> leafCount root = lenZ (treePanes root).
Proof. intros (_ & _ & _ & HP & _). rewrite leafCount_leaves, HP. apply lenZ_map. Qed.

Lemma some_pane root :
  wf root -> cellPanes root = map Some (treePanes root) ->
  exists a, head (treePanes root) = Some a /\ a ∈ treePanes root.
Proof.
  intros Hwf HP. destruct (treePanes root) as [|a l] eqn:E.
  - unfold cellPanes in HP. simpl in HP. apply map_eq_nil in HP. by apply leaves_ne in HP; auto with amux.
  - exists a. split; [done|]. apply list_elem_of_here.
Qed.

Lemma paneAt_in p w id : paneAt p w = Some id -> id ∈ treePanes (Root w).
Proof.
  unfold paneAt. destruct (cellAt p (Root w)) as [c|] eqn:E; [|done]. simpl.
  destruct c as [r d|]; [|done]. simpl. intros Hd. apply elem_of_treePanes.
  exists d. split; [by eapply cellAt_leaf_pane|done].
Qed.

Lemma withRect_id r c : cellRect c = r -> withRect r c = c.
Proof. intros <-. by destruct c. Qed.

(** closeCell on a window in order. *)
Lemma closeCell_ok p w id r d :
  treeOk (Width w) (Height w) (Root w) -> p <> [] ->
  cellAt p (Root w) = Some (Leaf r d) -> Pane d = Some id ->
  exists root q, closeCell p w = (setRoot root w, Some q) /\
    treeOk (Width w) (Height w) root /\ treePanes (Root w) ≡ₚ id :: treePanes root.
Proof.
  intros (Hwf & Hpos & Hr & HP & Hnd & Hp) Hne Hc Hd. unfold closeCell.
  destruct (Close_correct (Root w) p _ Hwf Hne Hc) as (root' & q & -> & Hwf' & Hr' & HPc & _).
  rewrite Hr in Hr'.
  assert ((match q with [] => withRect (mkRect 0 0 (Width w) (Height w)) root' | _ => root' end) = root')
    as Hq by (destruct q; [by apply withRect_id|done]).
  exists (ResizeAll (Width w) (Height w) root'), q. split.
  { destruct q; [|done]. by rewrite withRect_id. }
  destruct (ResizeAll_resizedTo (Width w) (Height w) root' Hwf') as (Hw2 & Hp2 & Hs2 & HX & HY & HW & HH).
  pose proof (wf_min_le SplitVertical _ Hwf'). pose proof (wf_min_le SplitHorizontal _ Hwf').
  unfold axisSize, cX, cY, cW, cH in *. rewrite Hr' in *. simpl in *.
  change (cellPanes (Leaf r d)) with [Pane d] in HPc. rewrite Hd, HP in HPc.
  assert (treePanes (Root w) ≡ₚ id :: treePanes root') as Ht.
  { rewrite (treePanes_cellPanes root'). change (id :: omap Datatypes.id (cellPanes root'))
      with (omap Datatypes.id ([Some id] ++ cellPanes root')). rewrite <- HPc.
    clear. induction (treePanes (Root w)); simpl; auto. }
  pose proof (same_skeleton_panes _ _ Hs2) as HtP. pose proof (same_skeleton_cellPanes _ _ Hs2) as HcP.
  rewrite Ht in Hnd, Hp. apply NoDup_cons in Hnd as [_ Hnd]. apply Forall_cons in Hp as [_ Hp].
  unfold treeOk. rewrite HtP, HcP. split_and!; try done.
  - destruct (cellRect (ResizeAll _ _ _)). simpl in *. f_equal; lia.
  - assert (Forall is_Some (cellPanes root')) as HF.
    { assert (Forall is_Some (map Some (treePanes (Root w)))) as HF by (apply Forall_map, Forall_true; done).
      rewrite HPc in HF. by apply Forall_cons in HF as [_ HF]. }
    rewrite treePanes_cellPanes. clear -HF.
    induction HF as [|o l [x ->] _ IH]; simpl; [done|]. by f_equal.
Qed.

(** Where the focus goes when the closed pane had it. *)
Lemma focusAfterClose_ok q w :
  wf (Root w) -> cellPanes (Root w) = map Some (treePanes (Root w)) -> working (panes w) ->
  exists a ps n, a ∈ treePanes (Root w) /\ working ps /\
    focusAfterClose q w = setPanes ps (setCounter n (setActivePane (Some a) w)).
Proof.
  intros Hwf HP Hw. unfold focusAfterClose.
  destruct (q ≫= fun q => paneAt q w) as [a|] eqn:E.
  - destruct q as [q|]; [|done]. destruct (setActive_state a w Hw) as (ps & n & -> & ?).
    exists a, ps, n. split_and!; auto. by eapply paneAt_in.
  - destruct (some_pane _ Hwf HP) as (a & Hh & Ha). unfold firstPaneInSubtree.
    rewrite panesOf_treePanes, Hh. destruct (setActive_state a w Hw) as (ps & n & -> & ?).
    exists a, ps, n. auto.
Qed.

(** No equalization of the columns beside the lead is due after the close. *)
Definition noLeadEqualize (w : Window) : Prop :=
  hasAnchoredLead w = false \/ anchoredLeadColumnsWidthChanged w = true.

Lemma noLeadEqualize_prev w :
  noLeadEqualize w ->
  (0 <? lenZ (anchoredLeadWidthColumns w)) && negb (anchoredLeadColumnsWidthChanged w) = false.
Proof.
  intros [H|H]; [|by rewrite H, andb_false_r]. unfold anchoredLeadWidthColumns. by rewrite H.
Qed.

(** Where closing the pane makes the columns beside an anchored lead equal
    again, they fit. *)
Definition closeFits (id : Z) (w : Window) : Prop :=
  noLeadEqualize w \/
  forall p, FindPane id (Root w) = Some p ->
    leadColumnsFit (closeCell p (setLeadID (if LeadPaneID w =? id then 0 else LeadPaneID w) w)).1.

Lemma closeFits_same id w w' :
  Root w' = Root w -> LeadPaneID w' = LeadPaneID w -> Width w' = Width w -> Height w' = Height w ->
  closeFits id w -> closeFits id w'.
Proof.
  destruct w as [root a W H z l u o ps n], w' as [root' a' W' H' z' l' u' o' ps' n']. simpl. intros -> -> -> ->.
  unfold closeFits, noLeadEqualize. intros [?|Hf]; [by left|right]. intros p Hp. specialize (Hf p Hp). simpl in *.
  unfold closeCell in *. simpl in *. by destruct (Close root p).
Qed.

Lemma closeEqualize_ok p w id r d prevEqual n :
  treeOk (Width w) (Height w) (Root w) -> p <> [] ->
  cellAt p (Root w) = Some (Leaf r d) -> Pane d = Some id ->
  prevEqual = false \/ leadColumnsFit (closeCell p w).1 ->
  exists root q, closeCell p w = (setRoot root w, Some q) /\
    exists root', wf root' /\ cellRect root' = mkRect 0 0 (Width w) (Height w) /\
      cellPanes root' = map Some (treePanes root') /\ NoDup (treePanes root') /\
      Forall (fun id => 0 < id) (treePanes root') /\ treePanes (Root w) ≡ₚ id :: treePanes root' /\
      (if (lenZ (anchoredLeadWidthColumns (setRoot root w)) <? n)
           && shouldEqualizeAnchoredLeadAfterClose prevEqual (setRoot root w)
       then equalizeAnchoredLeadColumns (setRoot root w) else setRoot root w) = setRoot root' w.
Proof.
  intros Hok Hne Hc Hd Hfit. destruct (closeCell_ok p w id r d Hok Hne Hc Hd) as (root & q & E & Hok' & HP).
  rewrite E in *. exists root, q. split; [done|]. destruct Hok' as (Hwf & _ & Hr & HPc & Hnd & Hpos).
  destruct (_ && _) eqn:Eq; [|by exists root].
  apply andb_prop in Eq as [_ Eq]. unfold shouldEqualizeAnchoredLeadAfterClose in Eq.
  destruct Hfit as [->|Hfit]; [done|].
  destruct (equalizeAnchored_spec (setRoot root w)) as (root' & -> & Hwf' & Hr' & Hsk); [done|simpl; by rewrite Hr|done|].
  simpl in Hr', Hsk. exists root'. rewrite (same_skeleton_panes _ _ Hsk), (same_skeleton_cellPanes _ _ Hsk), Hr', Hr. done.
Qed.

Definition closeOutcome (id : Z) (w w' : Window) (res : result WindowError unit) : Prop :=
  WindowInv w' /\ working (panes w') /\
  if lenZ (treePanes (Root w)) <=? 1 then res = Err errLastPane /\ w' = w
  else
    res = Ok tt /\ treePanes (Root w) ≡ₚ id :: treePanes (Root w') /\
    (ActivePane w <> Some id -> ActivePane w' = ActivePane w) /\
    ZoomedPaneID w' = (if ZoomedPaneID w =? id then 0 else ZoomedPaneID w) /\
    LeadPaneID w' = (if LeadPaneID w =? id then 0 else LeadPaneID w).

Lemma refers_closed fld id root ids :
  refers fld root -> treePanes root ≡ₚ id :: ids ->
  (if fld =? id then 0 else fld) = 0 \/ (if fld =? id then 0 else fld) ∈ ids.
Proof.
  intros [->|Hin] HP; [left; by destruct (0 =? id)|].
  destruct (Z.eqb_spec fld id); [by left|right]. rewrite HP in Hin.
  apply elem_of_cons in Hin as [|]; done.
Qed.

Lemma not_single_path p w id r d :
  cellAt p (Root w) = Some (Leaf r d) -> treeOk (Width w) (Height w) (Root w) -> Pane d = Some id ->
  1 < lenZ (treePanes (Root w)) -> p <> [].
Proof.
  intros Hc _ Hd Hl ->. simpl in Hc. injection Hc as Hc. rewrite Hc in Hl.
  unfold treePanes in Hl. simpl in Hl. rewrite Hd in Hl. by unfold lenZ in Hl.
Qed.

Lemma ClosePane_ok id w :
  WindowInv w -> working (panes w) -> id ∈ treePanes (Root w) -> closeFits id w ->
  let '(w', res) := ClosePane id w in closeOutcome id w w' res.
Proof.
  intros Hinv Hw Hid Hl. pose proof Hinv as [HU Hok (a & Ha & Hain) HZ HL].
  unfold ClosePane, bindM, get. unfold IsUltra. rewrite HU.
  destruct (mustFindPane_in id w Hid) as (p & r & d & -> & HF & Hc & Hd).
  rewrite (leafCount_ok _ _ _ Hok). unfold closeOutcome. set (prevEqual := (0 <? _) && _).
  destruct (Z.leb_spec (lenZ (treePanes (Root w))) 1) as [H1|H1]; [done|].
  unfold modify. cbv zeta.
  set (w1 := if LeadPaneID w =? id then setLeadID 0 w else w).
  set (w2 := if ZoomedPaneID w1 =? id then setZoomed 0 w1 else w1).
  assert (w2 = setZoomed (if ZoomedPaneID w =? id then 0 else ZoomedPaneID w)
                 (setLeadID (if LeadPaneID w =? id then 0 else LeadPaneID w) w)) as ->.
  { unfold w2, w1. destruct (LeadPaneID w =? id); simpl; destruct (ZoomedPaneID w =? id); by destruct w. }
  set (z := if ZoomedPaneID w =? id then 0 else _). set (l := if LeadPaneID w =? id then 0 else _) in *.
  pose proof (not_single_path p w id r d Hc Hok Hd H1) as Hne.
  assert (prevEqual = false \/ leadColumnsFit (closeCell p (setZoomed z (setLeadID l w))).1) as Hfit.
  { destruct Hl as [Hl|Hl]; [left; by apply noLeadEqualize_prev|right]. specialize (Hl p HF). fold l in Hl.
    unfold closeCell in *. simpl in *. by destruct (Close (Root w) p). }
  destruct (closeEqualize_ok p (setZoomed z (setLeadID l w)) id r d prevEqual
              (lenZ (anchoredLeadWidthColumns w)) Hok Hne Hc Hd Hfit)
    as (root0 & q & -> & root & Hwf' & Hr' & HP' & Hnd' & Hp' & HP & ->).
  set (w3 := setRoot root (setZoomed z (setLeadID l w))).
  change (isActive id w3) with (isActive id w). unfold isActive.
  assert (exists a' ps n, a' ∈ treePanes root /\ working ps /\
    (ActivePane w <> Some id -> Some a' = ActivePane w) /\
    (if bool_decide (ActivePane w = Some id) then focusAfterClose (Some q) w3 else w3)
      = setPanes ps (setCounter n (setActivePane (Some a') w3))) as (a' & ps & n & Ha' & Hps & Hact & ->).
  { case_bool_decide as Hact.
    - destruct (focusAfterClose_ok (Some q) w3 Hwf' HP' Hw) as (a' & ps & n & ? & ? & ->).
      exists a', ps, n. by split_and!.
    - exists a, (panes w), (activePointCounter w). split_and!; auto.
      + simpl in HP. rewrite HP in Hain. apply elem_of_cons in Hain as [->|]; done.
      + unfold w3, setRoot, setZoomed, setLeadID, setPanes, setCounter, setActivePane. simpl. by rewrite Ha. }
  set (w4 := setPanes ps _).
  destruct (pty_state _ _ (resizePTYs_pty (setRoot (FixOffsets (Root w4)) w4)) Hps) as (ps5 & -> & Hps5).
  destruct (finish_inv (setPanes ps5 (setRoot (FixOffsets root) w4)) (setRoot (FixOffsets root) w4)
              root (treePanes root)) as [Hfin Ht]; simpl; auto.
  - by rewrite HP'.
  - by exists a'.
  - by eapply refers_closed.
  - by eapply refers_closed.
  - done.
  - split_and!; [done|done|done| |done|done|done]. simpl. simpl in Ht. by rewrite Ht.
Qed.
