(* ===== verification/WindowMoves.v ===== *)
(** * Windows: rearranging panes

    Swapping, rotating, reordering and moving panes permute the panes of the
    tree and keep the window invariant. *)

From S2P Require Import Prelude LayoutSizes LayoutTree LayoutFacts LayoutEdit.
From S2P Require Import WindowState Ultra WindowOps WindowResize WindowFacts.

(** ** Permutations of lists *)

Lemma insert_Permutation {A} i (x : A) l :
  (i < length l)%nat -> <[i := x]> l ≡ₚ x :: delete i l.
Proof.
  intros Hi. rewrite insert_take_drop, delete_take_drop by done. symmetry. apply Permutation_middle.
Qed.

Lemma swap_Permutation {A} i j (a b : A) l :
  l !! i = Some a -> l !! j = Some b -> <[j := a]> (<[i := b]> l) ≡ₚ l.
Proof.
  intros Hi Hj. pose proof (lookup_lt_Some _ _ _ Hi). pose proof (lookup_lt_Some _ _ _ Hj).
  assert ((<[i := b]> l) !! j = Some b) as Hj2.
  { destruct (decide (i = j)) as [->|]; [by rewrite list_lookup_insert_eq|].
    by rewrite list_lookup_insert_ne. }
  rewrite insert_Permutation by (by rewrite length_insert).
  assert (delete j (<[i := b]> l) ≡ₚ delete i l) as Hd.
  { apply (Permutation_cons_inv (a := b)). rewrite <- delete_Permutation by done.
    by rewrite insert_Permutation. }
  rewrite Hd. symmetry. by apply delete_Permutation.
Qed.

Lemma swapChildren_Permutation i j ch : swapChildren i j ch ≡ₚ ch.
Proof.
  unfold swapChildren. destruct (ch !! i) eqn:Hi; [|done]. destruct (ch !! j) eqn:Hj; [|done].
  by apply swap_Permutation.
Qed.

Lemma reorder_Permutation ch i j before : reorderLayoutChildren ch i j before ≡ₚ ch.
Proof.
  unfold reorderLayoutChildren. destruct (i =? j)%nat; [done|].
  destruct (ch !! i) as [m|] eqn:Hi; [|done]. rewrite insertAt_Permutation. symmetry.
  by apply delete_Permutation.
Qed.

(** ** Edits that permute *)

(** A tree with the same outline and the same panes in another order. *)
Definition permuted (c c' : LayoutCell) : Prop :=
  wf c' /\ cellRect c' = cellRect c /\ cellPanes c' ≡ₚ cellPanes c.

Lemma permuted_refl c : wf c -> permuted c c.
Proof. done. Qed.

Lemma permuted_trans c1 c2 c3 : permuted c1 c2 -> permuted c2 c3 -> permuted c1 c3.
Proof. intros (? & ? & ?) (? & ? & HP). unfold permuted. split_and!; [done|congruence|by rewrite HP]. Qed.

Lemma updAt_None f p root : cellAt p root = None -> updAt f p root = root.
Proof.
  revert root. induction p as [|i p IH]; intros root; simpl; [done|].
  destruct root as [r d|r dir ch]; simpl; [done|]. intros H. f_equal.
  apply list_eq. intros j. rewrite lookup_updNth. case_decide; [subst j|done].
  destruct (ch !! i) eqn:E; simpl; [|done]. by rewrite IH.
Qed.

Lemma permuted_updAt f p root :
  wf root -> (forall c, cellAt p root = Some c -> permuted c (f c)) -> permuted root (updAt f p root).
Proof.
  intros Hwf Hf. destruct (cellAt p root) as [c|] eqn:Hc; [|by rewrite updAt_None].
  destruct (Hf c eq_refl) as (Hwf' & Hr & HP).
  destruct (wf_updAt f p root c) as [? _]; auto.
  { unfold sameSize, cW, cH. by rewrite Hr. }
  destruct (cellPanes_updAt p root c Hc) as (l1 & l2 & E1 & E2).
  unfold permuted. split_and!; [done|by apply (cellRect_updAt _ p root c)|]. by rewrite E1, E2, HP.
Qed.

Lemma permuted_children c ch' :
  wf c -> ch' ≡ₚ Children c -> permuted c (withChildren ch' c).
Proof.
  destruct c as [r d|r dir ch]; simpl; [done|]. intros Hwf HP.
  inversion_clear Hwf as [|? ? ? Hl HF Hcross Hsum]. unfold permuted. split_and!; [|done|].
  - constructor; [by rewrite HP|by rewrite HP|by rewrite HP|].
    assert (sumZ (map (axisSize dir) ch') = sumZ (map (axisSize dir) ch)) as ->.
    { clear -HP. induction HP; simpl; lsum. }
    unfold lenZ in *. by rewrite HP.
  - rewrite !cellPanes_node. by apply concat_Permutation, Permutation_map.
Qed.

(** Where such an edit leaves the window. *)
Definition rearranged (w w' : Window) : Prop :=
  WindowInv w' /\ working (panes w') /\ treePanes (Root w') ≡ₚ treePanes (Root w) /\
  ActivePane w' = ActivePane w.

Lemma permuted_inv w root' w' :
  WindowInv w -> working (panes w) -> permuted (Root w) root' ->
  ptyOnly (setRoot (FixOffsets root') w) w' -> rearranged w w'.
Proof.
  intros [HU (Hwf & _ & Hr & HP & Hnd & Hp) (a & Ha & Hin) HZ HL] Hw (Hwf' & Hr' & HP') Hpty.
  destruct (finish_inv w' (setRoot (FixOffsets root') w) root' (treePanes (Root w)))
    as [Hinv Ht]; simpl; auto.
  - by rewrite Hr', Hr.
  - by rewrite HP', HP.
  - by exists a.
  - destruct Hpty as [E Hps]. unfold rearranged. split_and!; auto. by rewrite E.
Qed.

Lemma finish_permuted w root' :
  WindowInv w -> working (panes w) -> permuted (Root w) root' ->
  rearranged w (finishTreeMutation (setRoot root' w)).
Proof.
  intros Hinv Hw Hp. apply (permuted_inv w root'); [done..|].
  apply (resizePTYs_pty (setRoot (FixOffsets root') w)).
Qed.

Lemma reorderAt_ok p i j before w :
  WindowInv w -> working (panes w) -> rearranged w (reorderAt p i j before w).
Proof.
  intros Hinv Hw. apply finish_permuted; [done..|].
  pose proof Hinv as [_ (Hwf & _) _ _ _]. apply permuted_updAt; [done|]. intros c Hc.
  apply permuted_children; [by eapply wf_cellAt|apply reorder_Permutation].
Qed.

Lemma rearranged_unzoom w ps z w' :
  rearranged (setPanes ps (setZoomed z w)) w' -> rearranged w w'.
Proof. done. Qed.

Lemma rearranged_refl w : WindowInv w -> working (panes w) -> rearranged w w.
Proof. by intros. Qed.

(** The body of the reordering operations: unzoom, then edit. *)
Lemma unzoom_then_ok w (f : Window -> Window) :
  WindowInv w -> working (panes w) ->
  (forall w1, WindowInv w1 -> working (panes w1) -> rearranged w1 (f w1)) ->
  exists w', bindM (unzoomIf true) (fun _ => modify f) w = (w', Ok tt) /\ rearranged w w'.
Proof.
  intros Hinv Hw Hf. unfold bindM, modify.
  destruct (unzoomIf_ok true w Hw) as (ps & z & -> & Hps & Hz & _).
  eexists. split; [done|]. eapply rearranged_unzoom, Hf; [by apply unzoomed_inv|done].
Qed.

Definition resultOf (r : result WindowError unit) (w w' : Window) : Prop :=
  match r with Ok _ => rearranged w w' | Err _ => w' = w end.

Lemma rootChild_state id w w' r : rootChildForPaneID id w = (w', r) -> w' = w.
Proof.
  unfold rootChildForPaneID, bindM, get, mustFindPane, throw, ret.
  intros H. repeat case_match; simplify_eq; done.
Qed.

Lemma mustFindPane_state id w w' r : mustFindPane id w = (w', r) -> w' = w.
Proof. unfold mustFindPane. case_match; congruence. Qed.

(** Reordering operations: a refused move changes nothing, a move rearranges. *)
Lemma MovePane_ok id target before w :
  WindowInv w -> working (panes w) ->
  let '(w', res) := MovePane id target before w in resultOf res w w'.
Proof.
  intros Hinv Hw. unfold MovePane, bindM, get, throw, ret.
  destruct (id =? target); [by apply rearranged_refl|].
  destruct (IsUltra w); [done|]. destruct (IsLeadPane id w || IsLeadPane target w); [done|].
  destruct (mustFindPane id w) as [w1 [sp|e]] eqn:E1; apply mustFindPane_state in E1 as ->; [|done].
  destruct (mustFindPane target w) as [w1 [tp|e]] eqn:E2; apply mustFindPane_state in E2 as ->; [|done].
  destruct (parentOf sp) as [[spp si]|]; [|done]. destruct (parentOf tp) as [[tpp ti]|]; [|done].
  destruct (decide (spp = tpp)).
  - destruct (unzoom_then_ok w (reorderAt spp si ti before) Hinv Hw) as (w' & E & Hr).
    { intros. by apply reorderAt_ok. }
    unfold bindM in E. rewrite E. done.
  - destruct (rootChildForPaneID id w) as [w1 [ci1|e]] eqn:E3; apply rootChild_state in E3 as ->; [|done].
    destruct (rootChildForPaneID target w) as [w1 [ci2|e]] eqn:E4; apply rootChild_state in E4 as ->; [|done].
    destruct (ci1.2 =? ci2.2)%nat; [done|].
    destruct (unzoom_then_ok w (fun w => reorderAt (logicalRoot w) ci1.2 ci2.2 before w) Hinv Hw)
      as (w' & E & Hr).
    { intros. by apply reorderAt_ok. }
    unfold bindM in E. rewrite E. done.
Qed.

Lemma SwapTree_ok id1 id2 w :
  WindowInv w -> working (panes w) ->
  let '(w', res) := SwapTree id1 id2 w in resultOf res w w'.
Proof.
  intros Hinv Hw. unfold SwapTree, bindM, get, throw. destruct (IsUltra w); [done|].
  destruct (rootChildForPaneID id1 w) as [w1 [ci1|e]] eqn:E3; apply rootChild_state in E3 as ->; [|done].
  destruct (rootChildForPaneID id2 w) as [w1 [ci2|e]] eqn:E4; apply rootChild_state in E4 as ->; [|done].
  destruct (ci1.2 =? ci2.2)%nat; [done|].
  destruct (unzoom_then_ok w (fun w => finishTreeMutation (setRoot
    (updAt (fun c => withChildren (swapChildren ci1.2 ci2.2 (Children c)) c) (logicalRoot w) (Root w)) w))
    Hinv Hw) as (w' & E & Hr).
  { intros w1 Hinv1 Hw1. apply finish_permuted; [done..|].
    pose proof Hinv1 as [_ (Hwf & _) _ _ _]. apply permuted_updAt; [done|]. intros c Hc.
    apply permuted_children; [by eapply wf_cellAt|apply swapChildren_Permutation]. }
  unfold bindM in E. rewrite E. done.
Qed.

Lemma movePaneWithinSplitGroup_ok id up w :
  WindowInv w -> working (panes w) ->
  let '(w', res) := movePaneWithinSplitGroup id up w in resultOf res w w'.
Proof.
  intros Hinv Hw. unfold movePaneWithinSplitGroup, splitGroupForPaneID, bindM, get, throw, ret.
  destruct (IsUltra w); [done|]. destruct (IsLeadPane id w); [done|].
  destruct (mustFindPane id w) as [w1 [p|e]] eqn:E1; apply mustFindPane_state in E1 as ->; [|done].
  destruct (parentOf p) as [[pp idx]|]; [|done].
  repeat (match goal with |- context [if ?b then _ else _] => destruct b; [done|] end).
  destruct (unzoom_then_ok w (reorderAt pp idx (if up then idx - 1 else idx + 1)%nat up) Hinv Hw)
    as (w' & E & Hr).
  { intros. by apply reorderAt_ok. }
  unfold bindM in E. rewrite E. done.
Qed.

(** ** Storing panes into leaves *)

Definition putPane (p : path) (pane : option Z) (e : path * (Rect * LeafData)) : path * (Rect * LeafData) :=
  if decide (e.1 = p) then
    (e.1, (e.2.1, mkLeafData pane (PaneID e.2.2) (Slot e.2.2) (LeadSlot e.2.2)))
  else e.

Lemma map_id_on {A} (f : A -> A) l : Forall (fun x => f x = x) l -> map f l = l.
Proof. induction 1; simpl; congruence. Qed.

Lemma walkFrom_head i l e :
  e ∈ walkFrom i l -> exists j q, e.1 = j :: q /\ (i <= j)%nat.
Proof.
  revert i. induction l as [|c l IH]; intros i; simpl; [by intros ?%elem_of_nil|].
  intros [Hin|Hin]%elem_of_app.
  - apply list_elem_of_fmap in Hin as (e' & -> & _). exists i, e'.1. auto.
  - destruct (IH _ Hin) as (j & q & ? & ?). exists j, q. split; [done|lia].
Qed.

Lemma walkFrom_put g i p pane k l :
  (forall c, Walk (g c) = map (putPane p pane) (Walk c)) ->
  walkFrom k (updNth g i l) = map (putPane ((k + i)%nat :: p) pane) (walkFrom k l).
Proof.
  intros Hg. revert i k. induction l as [|c l IH]; intros i k; [done|].
  assert (forall j, j <> k -> map (putPane (j :: p) pane) (map (fun e => (k :: e.1, e.2)) (Walk c))
            = map (fun e => (k :: e.1, e.2)) (Walk c)) as Hother.
  { intros j Hj. apply map_id_on, Forall_map, Forall_true. intros e. unfold putPane. simpl.
    by rewrite decide_False by congruence. }
  destruct i as [|i]; simpl; rewrite map_app.
  - rewrite Nat.add_0_r, Hg, !map_map. f_equal.
    + apply map_ext. intros e. unfold putPane. simpl.
      destruct (decide (e.1 = p)) as [->|]; [by rewrite decide_True|by rewrite decide_False by congruence].
    + symmetry. apply map_id_on. rewrite Forall_forall. intros e Hin.
      apply walkFrom_head in Hin as (j & q & E & ?). unfold putPane.
      rewrite decide_False; [done|]. rewrite E. intros [= ? ?]. lia.
  - rewrite IH, Hother by lia. by rewrite Nat.add_succ_comm.
Qed.

Lemma Walk_setPaneAt p pane c : Walk (setPaneAt p pane c) = map (putPane p pane) (Walk c).
Proof.
  revert c. induction p as [|i p IH]; intros c.
  - destruct c as [r d|r dir ch]; [done|]. unfold setPaneAt. simpl updAt. symmetry.
    apply map_id_on. rewrite Forall_forall, Walk_node. intros e Hin.
    apply walkFrom_head in Hin as (j & q & E & _). unfold putPane.
    rewrite decide_False; [done|]. by rewrite E.
  - destruct c as [r d|r dir ch]; [done|]. unfold setPaneAt. simpl updAt. rewrite !Walk_node.
    by apply (walkFrom_put (updAt (withPane pane) p) i p pane 0).
Qed.

Lemma cellPanes_Walk c : cellPanes c = map (fun e => Pane e.2.2) (Walk c).
Proof. unfold cellPanes. rewrite <- Walk_leaves. by rewrite map_map. Qed.

Lemma NoDup_omap_inj {A B} (f : A -> option B) l x y v :
  NoDup (omap f l) -> x ∈ l -> y ∈ l -> f x = Some v -> f y = Some v -> x = y.
Proof.
  intros Hnd Hx Hy Hfx Hfy. induction l as [|a l IH]; [by apply elem_of_nil in Hx|].
  change (omap f (a :: l)) with (match f a with Some b => b :: omap f l | None => omap f l end) in Hnd.
  assert (forall z, z ∈ l -> f z = Some v -> v ∈ omap f l) as Hin.
  { intros z Hz Hfz. apply list_elem_of_omap. eauto. }
  apply elem_of_cons in Hx, Hy.
  destruct (f a) as [b|] eqn:Ha; [apply NoDup_cons in Hnd as [Hn Hnd]|];
    destruct Hx as [->|Hx], Hy as [->|Hy]; try done; try (simplify_eq; naive_solver); auto.
Qed.

Lemma treePanes_Walk c : treePanes c = omap (fun e => Pane e.2.2) (Walk c).
Proof. symmetry. apply (panesOf_treePanes c). Qed.

Lemma Walk_unique c p e q e' id :
  NoDup (treePanes c) -> (p, e) ∈ Walk c -> (q, e') ∈ Walk c -> Pane e.2 = Some id -> Pane e'.2 = Some id ->
  p = q.
Proof.
  rewrite treePanes_Walk. intros Hnd Hp Hq He He'.
  by pose proof (NoDup_omap_inj (fun e : path * (Rect * LeafData) => Pane e.2.2) _ _ _ id Hnd Hp Hq He He')
    as [= -> ->].
Qed.

(** Storing panes keeps the outline. *)
Definition sameOutline (c c' : LayoutCell) : Prop := wf c' /\ cellRect c' = cellRect c.

Lemma setPaneAt_outline p pane c : wf c -> sameOutline c (setPaneAt p pane c).
Proof.
  intros Hwf. unfold setPaneAt. destruct (cellAt p c) as [c'|] eqn:Hc; [|by rewrite updAt_None].
  assert (wf (withPane pane c') /\ cellRect (withPane pane c') = cellRect c') as [Hw Hr].
  { pose proof (wf_cellAt _ _ _ Hwf Hc) as Hw. destruct c' as [r d|]; [|done].
    split; [|done]. inversion_clear Hw. by constructor. }
  destruct (wf_updAt (withPane pane) p c c') as [? _]; auto.
  { unfold sameSize, cW, cH. by rewrite Hr. }
  split; [done|by apply (cellRect_updAt _ p c c')].
Qed.

Definition swapIds (a b x : Z) : Z := if x =? a then b else if x =? b then a else x.

Lemma swapIds_Permutation a b l : NoDup l -> a ∈ l -> b ∈ l -> map (swapIds a b) l ≡ₚ l.
Proof.
  intros Hnd Ha Hb. apply NoDup_Permutation; [|done|].
  - apply NoDup_fmap_2_strong; [|done]. intros x y _ _. unfold swapIds. zb; congruence.
  - intros x. rewrite list_elem_of_fmap. split.
    + intros (y & -> & Hy). unfold swapIds. zb; congruence.
    + intros Hx. exists (swapIds a b x). unfold swapIds. split; zb; congruence.
Qed.

Lemma cellPanes_swap root p1 p2 id1 id2 d1 d2 r1 r2 :
  cellPanes root = map Some (treePanes root) -> NoDup (treePanes root) ->
  cellAt p1 root = Some (Leaf r1 d1) -> Pane d1 = Some id1 ->
  cellAt p2 root = Some (Leaf r2 d2) -> Pane d2 = Some id2 ->
  cellPanes (setPaneAt p2 (Some id1) (setPaneAt p1 (Some id2) root))
    = map Some (map (swapIds id1 id2) (treePanes root)).
Proof.
  intros HP Hnd Hc1 Hd1 Hc2 Hd2. transitivity (map (fmap (swapIds id1 id2)) (cellPanes root)).
  2:{ rewrite HP, !map_map. by apply map_ext. }
  rewrite !cellPanes_Walk, !Walk_setPaneAt, !map_map. apply Forall_map_eq. rewrite Forall_forall.
  intros [q e] Hin. apply (elem_of_Walk _ p1 (r1, d1)) in Hc1. apply (elem_of_Walk _ p2 (r2, d2)) in Hc2.
  assert (is_Some (Pane e.2)) as [x Hx].
  { assert (Pane e.2 ∈ map Some (treePanes root)) as Hm.
    { rewrite <- HP, cellPanes_Walk. apply list_elem_of_fmap. by exists (q, e). }
    apply list_elem_of_fmap in Hm as (x & -> & _). done. }
  assert (q = p1 <-> x = id1) as H1.
  { split; [intros ->|intros ->; by eapply (Walk_unique root)].
    pose proof (proj1 (elem_of_Walk _ _ _) Hin). pose proof (proj1 (elem_of_Walk _ _ _) Hc1).
    destruct e. simplify_eq/=. done. }
  assert (q = p2 <-> x = id2) as H2.
  { split; [intros ->|intros ->; by eapply (Walk_unique root)].
    pose proof (proj1 (elem_of_Walk _ _ _) Hin). pose proof (proj1 (elem_of_Walk _ _ _) Hc2).
    destruct e. simplify_eq/=. done. }
  unfold putPane, swapIds. simpl. rewrite Hx. simpl.
  destruct (decide (q = p1)); simpl; destruct (decide (q = p2)); simpl; rewrite ?Hx; zb; naive_solver.
Qed.

Lemma placeChildren_updNth g dir x y i l :
  (forall x y c, placeAt x y (g c) = g (placeAt x y c)) -> (forall c, cellRect (g c) = cellRect c) ->
  placeChildren dir x y (updNth g i l) = updNth g i (placeChildren dir x y l).
Proof.
  intros Hg Hr. destruct dir; simpl; revert x y i; induction l as [|c l IH]; intros x y [|i]; simpl;
    try done; rewrite ?Hg; unfold cW, cH; rewrite ?Hr; try done; f_equal; apply IH.
Qed.

Lemma cellRect_setPaneAt p pane c : cellRect (setPaneAt p pane c) = cellRect c.
Proof. unfold setPaneAt. destruct p, c; done. Qed.

Lemma placeAt_setPaneAt x y p pane c :
  placeAt x y (setPaneAt p pane c) = setPaneAt p pane (placeAt x y c).
Proof.
  unfold setPaneAt. revert x y c. induction p as [|i p IH]; intros x y [r d|r dir ch]; try done.
  - by destruct dir.
  - cbn [updAt Children withChildren]. rewrite !placeAt_node. cbn [Children withChildren].
    f_equal. apply placeChildren_updNth; [apply IH|].
    intros c. apply (cellRect_setPaneAt p pane c).
Qed.

Lemma positioned_setPaneAt p pane c : positioned c -> positioned (setPaneAt p pane c).
Proof.
  unfold positioned, FixOffsets, cX, cY. rewrite cellRect_setPaneAt, placeAt_setPaneAt. by intros ->.
Qed.

(** ** Swapping *)

(** Panes stored into the leaves of a tree in order. *)
Lemma restored_inv w root' w' :
  WindowInv w -> working (panes w) -> wf root' -> positioned root' -> cellRect root' = cellRect (Root w) ->
  cellPanes root' = map Some (treePanes root') -> treePanes root' ≡ₚ treePanes (Root w) ->
  ptyOnly (setRoot root' w) w' -> rearranged w w' /\ treePanes (Root w') = treePanes root'.
Proof.
  intros [HU (Hwf & _ & Hr & HP & Hnd & Hp) (a & Ha & Hin) HZ HL] Hw Hwf' Hpos' Hr' HP' Ht Hpty.
  assert (WindowInv (setRoot root' w)) as Hinv.
  { constructor; simpl; unfold refers; [done| |exists a; by rewrite Ht|by rewrite Ht..].
    unfold treeOk. split_and!; auto; [congruence|by rewrite Ht|by rewrite Ht]. }
  pose proof (ptyOnly_inv _ _ Hpty Hinv). destruct Hpty as [E Hps]. unfold rearranged.
  rewrite E in *. split_and!; auto.
Qed.

Lemma omap_map_Some (l : list Z) : omap id (map Some l) = l.
Proof. induction l as [|x l IH]; [done|]. cbn. by f_equal. Qed.

Lemma SwapPanes_ok id1 id2 w :
  WindowInv w -> working (panes w) -> id1 ∈ treePanes (Root w) -> id2 ∈ treePanes (Root w) ->
  id1 <> id2 -> IsLeadPane id1 w = false -> IsLeadPane id2 w = false ->
  exists w', SwapPanes id1 id2 w = (w', Ok tt) /\ rearranged w w' /\
    treePanes (Root w') = map (swapIds id1 id2) (treePanes (Root w)).
Proof.
  intros Hinv Hw H1 H2 Hne Hl1 Hl2. unfold SwapPanes, bindM, get, ret. rewrite Hl1, Hl2.
  destruct (Z.eqb_spec id1 id2); [done|]. simpl.
  pose proof Hinv as [HU (Hwf & Hpos & Hr & HP & Hnd & Hp) _ _ _]. unfold IsUltra. rewrite HU.
  destruct (mustFindPane_in id1 w H1) as (p1 & r1 & d1 & -> & _ & Hc1 & Hd1).
  destruct (mustFindPane_in id2 w H2) as (p2 & r2 & d2 & -> & _ & Hc2 & Hd2).
  assert (paneAt p1 w = Some id1) as E1 by (unfold paneAt; by rewrite Hc1).
  assert (paneAt p2 w = Some id2) as E2 by (unfold paneAt; by rewrite Hc2).
  unfold modify. rewrite E1, E2. eexists. split; [done|].
  set (root' := setPaneAt p2 (Some id1) (setPaneAt p1 (Some id2) (Root w))).
  pose proof (cellPanes_swap (Root w) p1 p2 id1 id2 d1 d2 r1 r2 HP Hnd Hc1 Hd1 Hc2 Hd2) as HC.
  fold root' in HC.
  assert (treePanes root' = map (swapIds id1 id2) (treePanes (Root w))) as HT.
  { rewrite treePanes_cellPanes, HC. apply omap_map_Some. }
  destruct (setPaneAt_outline p1 (Some id2) (Root w) Hwf) as [Hwf1 Hr1].
  destruct (setPaneAt_outline p2 (Some id1) _ Hwf1) as [Hwf2 Hr2].
  destruct (restored_inv w root' (resizePTYs (setRoot root' w))) as [Hrr Ht]; auto with amux.
  - by apply positioned_setPaneAt, positioned_setPaneAt.
  - unfold root'. congruence.
  - by rewrite HT.
  - rewrite HT. by apply swapIds_Permutation.
  - split; [done|]. congruence.
Qed.

(** ** Rotating *)

Lemma NoDup_Walk_paths c :
  cellPanes c = map Some (treePanes c) -> NoDup (treePanes c) -> NoDup (map fst (Walk c)).
Proof.
  intros HP Hnd. apply NoDup_fmap_2_strong.
  - intros [p [r d]] [q [r' d']] Hp Hq E. simpl in E. subst q.
    apply elem_of_Walk in Hp, Hq. simpl in *. by simplify_eq.
  - assert (NoDup (cellPanes c)) as H.
    { rewrite HP. apply NoDup_fmap_2; [|done]. by intros ? ? [= ->]. }
    rewrite cellPanes_Walk in H. by apply NoDup_fmap_1 in H.
Qed.

Lemma walkFrom_split k i l c :
  l !! i = Some c ->
  exists W1 W3, walkFrom k l = W1 ++ map (fun e => ((k + i)%nat :: e.1, e.2)) (Walk c) ++ W3.
Proof.
  revert k i. induction l as [|x l IH]; intros k i; [done|]. destruct i as [|i]; simpl.
  - intros [= ->]. exists [], (walkFrom (S k) l). by rewrite Nat.add_0_r.
  - intros Hi. destruct (IH (S k) i Hi) as (W1 & W3 & ->).
    exists (map (fun e => (k :: e.1, e.2)) (Walk x) ++ W1), W3.
    by rewrite <- Nat.add_succ_comm, <- app_assoc.
Qed.

Lemma Walk_split t root c :
  cellAt t root = Some c ->
  exists W1 W3, Walk root = W1 ++ map (fun e => (t ++ e.1, e.2)) (Walk c) ++ W3.
Proof.
  revert root. induction t as [|i t IH]; intros root; simpl.
  - intros [= ->]. exists [], []. rewrite app_nil_r. simpl. rewrite (map_ext _ id), map_id; [done|].
    by intros [].
  - destruct (Children root !! i) as [child|] eqn:E; [|done]. intros Hc.
    destruct root as [r d|r dir ch]; [done|]. simpl in E. rewrite Walk_node.
    destruct (walkFrom_split 0 i ch child E) as (W1 & W3 & ->). destruct (IH child Hc) as (V1 & V3 & ->).
    rewrite !map_app, map_map. simpl.
    exists (W1 ++ map (fun e => (i :: e.1, e.2)) V1), (map (fun e => (i :: e.1, e.2)) V3 ++ W3).
    by rewrite <- !app_assoc.
Qed.

Lemma Walk_fold_put kvs c :
  Walk (fold_left (fun c e => setPaneAt e.1 (Some e.2) c) kvs c)
    = fold_left (fun W e => map (putPane e.1 (Some e.2)) W) kvs (Walk c).
Proof.
  revert c. induction kvs as [|[p v] kvs IH]; intros c; simpl; [done|]. by rewrite IH, Walk_setPaneAt.
Qed.

(** Storing values one leaf after the other stores each where it belongs. *)
Lemma fold_put_segment (L : list (path * (Rect * LeafData))) vs W1 W3 :
  NoDup (map fst (W1 ++ L ++ W3)) -> length vs = length L ->
  fold_left (fun W (e : path * Z) => map (putPane e.1 (Some e.2)) W) (combine (map fst L) vs)
    (W1 ++ L ++ W3)
  = W1 ++ map2 (fun e v => putPane e.1 (Some v) e) L vs ++ W3.
Proof.
  revert W1 vs. induction L as [|e L IH]; intros W1 [|v vs] Hnd Hl; simplify_eq/=; [done|].
  assert (map (putPane e.1 (Some v)) (W1 ++ e :: L ++ W3)
          = (W1 ++ [putPane e.1 (Some v) e]) ++ L ++ W3) as ->.
  { assert (forall l, e.1 ∉ map fst l -> map (putPane e.1 (Some v)) l = l) as Hid.
    { intros l Hl'. apply map_id_on. rewrite Forall_forall. intros x Hx. unfold putPane.
      rewrite decide_False; [done|]. intros E. apply Hl'. rewrite <- E. apply list_elem_of_fmap. eauto. }
    rewrite map_app in Hnd. simpl in Hnd. apply NoDup_app in Hnd as (_ & Hd1 & Hnd).
    apply NoDup_cons in Hnd as [Hn _].
    rewrite map_app. simpl. rewrite (Hid W1), (Hid (L ++ W3)); [by rewrite <- app_assoc|done|].
    intros Hin. apply (Hd1 e.1 Hin). apply list_elem_of_here. }
  rewrite IH; [by rewrite <- app_assoc| |done].
  rewrite <- app_assoc. rewrite !map_app in *. simpl in *.
  assert ((putPane e.1 (Some v) e).1 = e.1) as -> by (unfold putPane; by case_decide).
  by rewrite map_app in Hnd.
Qed.

Lemma paneLeavesIn_fst t w c :
  cellAt t (Root w) = Some c -> cellPanes c = map Some (treePanes c) ->
  map fst (paneLeavesIn t w) = map (fun e => t ++ e.1) (Walk c) /\
  map snd (paneLeavesIn t w) = treePanes c.
Proof.
  intros Hc HP. unfold paneLeavesIn. rewrite Hc. rewrite treePanes_Walk in *. rewrite cellPanes_Walk in HP.
  induction (Walk c) as [|[p [r d]] l IH]; [done|]. cbn in *.
  destruct (Pane d) as [id|].
  - simpl in HP. injection HP as HP. destruct (IH HP) as [IH1 IH2]. split; simpl; by f_equal.
  - match type of HP with _ = map Some ?x => destruct x end; done.
Qed.

Lemma cellPanes_fold_outline kvs c :
  wf c -> positioned c ->
  let c' := fold_left (fun c (e : path * Z) => setPaneAt e.1 (Some e.2) c) kvs c in
  wf c' /\ positioned c' /\ cellRect c' = cellRect c.
Proof.
  revert c. induction kvs as [|[p v] kvs IH]; intros c Hwf Hpos; simpl; [done|].
  destruct (setPaneAt_outline p (Some v) c Hwf) as [Hwf' Hr].
  destruct (IH _ Hwf' (positioned_setPaneAt p (Some v) c Hpos)) as (? & ? & ?).
  split_and!; [done|done|congruence].
Qed.

Lemma rotated_Permutation forward l : rotated forward l ≡ₚ l.
Proof.
  unfold rotated. destruct forward.
  - destruct (last l) as [x|] eqn:E.
    + apply last_Some in E as [l' ->]. rewrite removelast_last. apply Permutation_cons_append.
    + apply last_None in E as ->. done.
  - destruct l as [|x l]; [done|]. symmetry. apply Permutation_cons_append.
Qed.

Lemma full_Some (l : list (option Z)) : Forall is_Some l <-> l = map Some (omap id l).
Proof.
  split.
  - induction 1 as [|o l [x ->] _ IH]; [done|]. cbn. by f_equal.
  - intros ->. by apply Forall_map, Forall_true.
Qed.

Lemma full_cellAt t root c :
  cellAt t root = Some c -> cellPanes root = map Some (treePanes root) ->
  cellPanes c = map Some (treePanes c).
Proof.
  intros Hc. rewrite !treePanes_cellPanes, <- !full_Some.
  destruct (cellPanes_updAt t root c Hc) as (l1 & l2 & -> & _). rewrite !Forall_app.
  by intros (_ & ? & _).
Qed.

Lemma map2_putPane_panes L vs :
  length vs = length L ->
  map (fun e => Pane e.2.2) (map2 (fun e v => putPane e.1 (Some v) e) L vs) = map Some vs.
Proof.
  revert vs. induction L as [|e L IH]; intros [|v vs] Hl; simplify_eq/=; [done|].
  f_equal; [|by apply IH]. unfold putPane. by rewrite decide_True.
Qed.

Lemma rotated_short forward (l : list Z) : (length l <= 1)%nat -> rotated forward l = l.
Proof. destruct l as [|x [|y l]]; simpl; [by destruct forward|by destruct forward|lia]. Qed.

Lemma length_rotated forward l : length (rotated forward l) = length l.
Proof. apply Permutation_length, rotated_Permutation. Qed.

(** The tree after storing new panes into the leaves below [t]. *)
Lemma rotate_tree t w c vs :
  WindowInv w -> cellAt t (Root w) = Some c -> length vs = length (treePanes c) ->
  let root' := fold_left (fun c (e : path * Z) => setPaneAt e.1 (Some e.2) c)
                 (combine (map fst (paneLeavesIn t w)) vs) (Root w) in
  exists l1 l3, treePanes (Root w) = l1 ++ treePanes c ++ l3 /\
    treePanes root' = l1 ++ vs ++ l3 /\ cellPanes root' = map Some (treePanes root').
Proof.
  intros [_ (_ & _ & _ & HP & Hnd & _) _ _ _] Hc Hl root'.
  pose proof (full_cellAt _ _ _ Hc HP) as HPc.
  destruct (paneLeavesIn_fst t w c Hc HPc) as [Hfst _].
  destruct (Walk_split t (Root w) c Hc) as (W1 & W3 & HW).
  set (L := map (fun e => (t ++ e.1, e.2)) (Walk c)) in *.
  assert (map fst (paneLeavesIn t w) = map fst L) as HL by (rewrite Hfst; unfold L; by rewrite map_map).
  assert (map (fun e => Pane e.2.2) L = cellPanes c) as HLp
    by (unfold L; rewrite map_map, cellPanes_Walk; done).
  assert (length vs = length L) as Hlen.
  { rewrite Hl. apply (f_equal length) in HLp. by rewrite HPc, !length_map in HLp. }
  assert (Walk root' = W1 ++ map2 (fun e v => putPane e.1 (Some v) e) L vs ++ W3) as HW'.
  { unfold root'. rewrite Walk_fold_put, HL, HW. apply fold_put_segment; [|done].
    rewrite <- HW. by apply NoDup_Walk_paths. }
  set (g := fun e : path * (Rect * LeafData) => Pane e.2.2) in *.
  exists (omap id (map g W1)), (omap id (map g W3)).
  assert (cellPanes root' = map g W1 ++ map Some vs ++ map g W3) as HC'.
  { rewrite cellPanes_Walk. fold g. rewrite HW', !map_app. f_equal. f_equal.
    exact (map2_putPane_panes L vs Hlen). }
  assert (cellPanes (Root w) = map g W1 ++ cellPanes c ++ map g W3) as HC.
  { rewrite cellPanes_Walk. fold g. by rewrite HW, !map_app, HLp. }
  split_and!.
  - rewrite !treePanes_cellPanes, HC. by rewrite !omap_app.
  - rewrite !treePanes_cellPanes, HC', !omap_app. by rewrite omap_map_Some.
  - rewrite treePanes_cellPanes. apply full_Some. rewrite HC'.
    rewrite treePanes_cellPanes, <- full_Some, HC, !Forall_app in HP.
    rewrite !Forall_app. split_and!; try apply HP. by apply Forall_map, Forall_true.
Qed.

Lemma RotatePanes_ok forward w :
  WindowInv w -> working (panes w) ->
  exists w' l1 l3, RotatePanes forward w = (w', Ok tt) /\ rearranged w w' /\
    treePanes (Root w) = l1 ++ treePanes (logicalRootCell w) ++ l3 /\
    treePanes (Root w') = l1 ++ rotated forward (treePanes (logicalRootCell w)) ++ l3.
Proof.
  intros Hinv Hw. unfold RotatePanes, bindM, get, ret, modify. pose proof Hinv as [HU (Hwf & Hpos & Hr & HP & Hnd & Hp) _ _ _].
  unfold IsUltra. rewrite HU. destruct (logicalRoot_cell w) as (c & Hc).
  unfold logicalRootCell. rewrite Hc.
  pose proof (full_cellAt _ _ _ Hc HP) as HPc.
  destruct (paneLeavesIn_fst (logicalRoot w) w c Hc HPc) as [_ Hsnd].
  destruct (rotate_tree (logicalRoot w) w c (rotated forward (treePanes c)) Hinv Hc) as (l1 & l3 & H1 & H2 & H3).
  { apply length_rotated. }
  rewrite <- Hsnd in H2 at 1.
  destruct (Nat.leb_spec (length (paneLeavesIn (logicalRoot w) w)) 1) as [Hle|_].
  - exists w, l1, l3. split_and!; try done. rewrite rotated_short; [done|].
    rewrite <- Hsnd. by rewrite length_map.
  - eexists _, l1, l3. split; [done|].
    destruct (cellPanes_fold_outline (combine (map fst (paneLeavesIn (logicalRoot w) w))
      (rotated forward (map snd (paneLeavesIn (logicalRoot w) w)))) (Root w) Hwf Hpos) as (Hwf' & Hpos' & Hr').
    rewrite Hsnd in *.
    eassert (rearranged w _ /\ _) as [Hrr Ht].
    { eapply (restored_inv w _ _ Hinv Hw Hwf' Hpos' Hr' H3); [|apply resizePTYs_pty].
      rewrite H2, H1. by rewrite rotated_Permutation. }
    split_and!; [exact Hrr|done|]. rewrite Ht. done.
Qed.
