(* ===== verification/WindowSizing.v ===== *)
(** * Windows: resizing, zooming, focusing *)

From S2P Require Import Prelude LayoutSizes LayoutTree LayoutFacts LayoutEdit.
From S2P Require Import WindowState Ultra WindowOps WindowResize WindowFacts WindowMoves.

(** ** Transfers between siblings *)

Lemma sum_insert (f : LayoutCell -> Z) i c c' l :
  l !! i = Some c -> sumZ (map f (<[i := c']> l)) = sumZ (map f l) + f c' - f c.
Proof.
  intros (l1 & l2 & -> & ->)%list_elem_of_split_length.
  rewrite insert_app_r_alt, Nat.sub_diag by lia. simpl. rewrite !map_app. simpl. lsum.
Qed.

Lemma keeps_trans axis c1 c2 c3 : keeps axis c1 c2 -> keeps axis c2 c3 -> keeps axis c1 c3.
Proof. unfold keeps. intros (? & ? & ? & ? & ?) (? & ? & ? & ? & ?). split_and!; congruence. Qed.

Lemma Forall2_keeps_insert axis l l' i c c' :
  Forall2 (keeps axis) l l' -> l' !! i = Some c -> keeps axis c c' ->
  Forall2 (keeps axis) l (<[i := c']> l').
Proof.
  intros HF Hi Hk. apply Forall2_lookup. intros j.
  destruct (decide (i = j)) as [->|Hne].
  - rewrite list_lookup_insert_eq by (by eapply lookup_lt_Some).
    pose proof (proj1 (Forall2_lookup _ _ _) HF j) as Hj. rewrite Hi in Hj. inversion Hj; subst.
    constructor. by eapply keeps_trans.
  - rewrite list_lookup_insert_ne by done. by apply Forall2_lookup.
Qed.

Lemma Forall2_keeps_trans axis l1 l2 l3 :
  Forall2 (keeps axis) l1 l2 -> Forall2 (keeps axis) l2 l3 -> Forall2 (keeps axis) l1 l3.
Proof.
  intros H. revert l3. induction H; inversion_clear 1; constructor; [by eapply keeps_trans|auto].
Qed.

(** One transfer: the siblings keep everything but their size along the axis,
    what the grower gains the donor loses. *)
Definition transferred (axis : SplitDir) (g : nat) (l l' : list LayoutCell) (moved : Z) : Prop :=
  Forall2 (keeps axis) l l' /\ sumZ (map (axisSize axis) l') = sumZ (map (axisSize axis) l) /\
  forall c, l !! g = Some c -> exists c', l' !! g = Some c' /\ axisSize axis c' = axisSize axis c + moved.

Lemma transferred_refl axis g l : Forall wf l -> transferred axis g l l 0.
Proof.
  intros HF. split_and!; [by apply Forall2_keeps_refl|done|]. intros c Hc. exists c. split; [done|lia].
Qed.

Lemma transferred_trans axis g l1 l2 l3 m1 m2 :
  transferred axis g l1 l2 m1 -> transferred axis g l2 l3 m2 -> transferred axis g l1 l3 (m1 + m2).
Proof.
  intros (HF1 & HS1 & HG1) (HF2 & HS2 & HG2). split_and!; [|congruence|].
  - by eapply Forall2_keeps_trans.
  - intros c Hc. destruct (HG1 c Hc) as (c2 & Hc2 & ?). destruct (HG2 c2 Hc2) as (c3 & ? & ?).
    exists c3. split; [done|lia].
Qed.

Lemma transferred_wf axis g l l' m : transferred axis g l l' m -> Forall wf l'.
Proof. intros (HF & _). clear -HF. induction HF as [|c c' l l' Hk]; constructor; auto. apply Hk. Qed.

Lemma transferAxisSize_spec g d axis needed l :
  Forall wf l -> g <> d -> 0 <= needed ->
  let '(l', moved) := transferAxisSize g d axis needed l in
  0 <= moved <= needed /\ transferred axis g l l' moved.
Proof.
  intros HF Hne Hn. unfold transferAxisSize.
  destruct (l !! g) as [grower|] eqn:Hg; [|split; [lia|by apply transferred_refl]].
  destruct (l !! d) as [donor|] eqn:Hd; [|split; [lia|by apply transferred_refl]].
  destruct (transferEdges g d) as [ge de].
  pose proof (Forall_lookup_1 _ _ _ _ HF Hg) as Hwg. pose proof (Forall_lookup_1 _ _ _ _ HF Hd) as Hwd.
  destruct (Z.eqb_spec (resizeCheck axis donor) 0) as [_|Hnz]; [split; [lia|by apply transferred_refl]|].
  pose proof (resizeCheck_nonneg axis donor Hwd). pose proof (resizeCheck_wf axis donor Hwd).
  set (av := if needed <? resizeCheck axis donor then needed else resizeCheck axis donor).
  assert (0 <= av <= needed /\ av <= resizeCheck axis donor) as [Hav Hav2] by (unfold av; zb; lia).
  split; [done|].
  destruct (resizeToAxisFromEdge_spec axis (axisSize axis grower + av) ge grower Hwg) as [Hkg Hag].
  destruct (resizeToAxisFromEdge_spec axis (axisSize axis donor - av) de donor Hwd) as [Hkd Had].
  pose proof (wf_min_le axis _ Hwg).
  set (g' := resizeToAxisFromEdge axis _ ge grower) in *.
  set (d' := resizeToAxisFromEdge axis _ de donor) in *.
  assert ((<[g := g']> l) !! d = Some donor) as Hd' by (by rewrite list_lookup_insert_ne).
  split_and!.
  - eapply Forall2_keeps_insert; [|done|done].
    eapply Forall2_keeps_insert; [by apply Forall2_keeps_refl|done|done].
  - rewrite (sum_insert _ _ donor) by done. rewrite (sum_insert _ _ grower) by done. lia.
  - intros c Hc. simplify_eq. exists g'. split; [|lia].
    rewrite list_lookup_insert_ne by done. apply list_lookup_insert_eq. by eapply lookup_lt_Some.
Qed.

Lemma transferSiblingRange_spec g axis donors l remaining :
  Forall wf l -> g ∉ donors -> 0 <= remaining ->
  let '(l', rest) := transferSiblingRange g axis remaining donors l in
  0 <= rest <= remaining /\ transferred axis g l l' (remaining - rest).
Proof.
  revert l remaining. induction donors as [|d donors IH]; intros l remaining HF Hg Hr; simpl.
  { rewrite Z.sub_diag. split; [lia|by apply transferred_refl]. }
  apply not_elem_of_cons in Hg as [Hgd Hg].
  destruct (Z.ltb_spec 0 remaining); [|rewrite Z.sub_diag; split; [lia|by apply transferred_refl]].
  pose proof (transferAxisSize_spec g d axis remaining l HF Hgd Hr) as H1.
  destruct (transferAxisSize g d axis remaining l) as [l1 moved]. destruct H1 as [Hm Ht].
  pose proof (IH l1 (remaining - moved) (transferred_wf _ _ _ _ _ Ht) Hg ltac:(lia)) as H2.
  destruct (transferSiblingRange g axis (remaining - moved) donors l1) as [l2 rest].
  destruct H2 as [Hl Ht2]. split; [lia|].
  replace (remaining - rest) with (moved + (remaining - moved - rest)) by lia.
  by eapply transferred_trans.
Qed.

(** ** ResizePane *)

Lemma tailward_ne i n : i ∉ tailward (S i) n.
Proof. unfold tailward. rewrite list_elem_of_In, in_seq. lia. Qed.
Lemma headward_ne i j : (j <= i)%nat -> i ∉ headward j.
Proof. unfold headward. rewrite list_elem_of_In, <- in_rev, in_seq. lia. Qed.

(** The border of a child moves towards the end of its group, the child grows. *)
Lemma resizePaneGrow_spec i axis needed l :
  Forall wf l -> 0 <= needed ->
  let '(l', moved) := resizePaneGrow i axis needed l in
  transferred axis i l l' moved /\ 0 <= moved <= needed.
Proof.
  intros HF Hn. unfold resizePaneGrow.
  pose proof (transferSiblingRange_spec i axis (tailward (S i) (length l)) l needed HF (tailward_ne _ _) ltac:(lia)) as H1.
  destruct (transferSiblingRange i axis needed _ l) as [l1 rem]. destruct H1 as [Hr1 Ht1].
  destruct (Z.eqb_spec rem 0) as [->|].
  { rewrite Z.sub_0_r in Ht1. split; [done|lia]. }
  pose proof (transferSiblingRange_spec i axis (headward i) l1 rem (transferred_wf _ _ _ _ _ Ht1)
    (headward_ne i i ltac:(lia)) ltac:(lia)) as H2.
  destruct (transferSiblingRange i axis rem (headward i) l1) as [l2 rem2]. destruct H2 as [Hr2 Ht2].
  split; [|lia]. replace (needed - rem2) with (needed - rem + (rem - rem2)) by lia.
  by eapply transferred_trans.
Qed.

Lemma resizePaneShrink_spec i axis needed l :
  Forall wf l -> 0 <= needed ->
  let '(l', moved) := resizePaneShrink i axis needed l in
  transferred axis (S i) l l' moved /\ 0 <= moved <= needed.
Proof.
  intros HF Hn. unfold resizePaneShrink.
  pose proof (transferSiblingRange_spec (S i) axis (headward (S i)) l needed HF
    (headward_ne (S i) (S i) ltac:(lia)) ltac:(lia)) as H1.
  destruct (transferSiblingRange (S i) axis needed _ l) as [l1 rem]. destruct H1 as [Hr1 H1].
  split; [done|lia].
Qed.

(** The siblings after a resize: nothing changes but sizes along the axis, and
    the border moves by at most what was asked. *)
Lemma resizeSiblings_spec axis idx change l :
  Forall wf l ->
  let '(l', moved) := resizeSiblings axis idx change l in
  Forall2 (keeps axis) l l' /\ sumZ (map (axisSize axis) l') = sumZ (map (axisSize axis) l) /\
  0 <= moved <= Z.abs change.
Proof.
  intros HF. unfold resizeSiblings.
  destruct (Nat.ltb_spec (length l) 2); [split_and!; [by apply Forall2_keeps_refl|done|lia|lia]|].
  set (i := if (idx =? length l - 1)%nat then _ else _). destruct (Z.ltb_spec 0 change) as [Hc|Hc].
  - pose proof (resizePaneGrow_spec i axis change l HF ltac:(lia)) as H1.
    destruct (resizePaneGrow _ _ _ _). destruct H1 as [(? & ? & _) ?]. split_and!; (done || lia).
  - pose proof (resizePaneShrink_spec i axis (- change) l HF ltac:(lia)) as H1.
    destruct (resizePaneShrink _ _ _ _). destruct H1 as [(? & ? & _) ?]. split_and!; (done || lia).
Qed.

(** Siblings resized along their axis put back under their parent. *)
Lemma resized_siblings r axis ch ch' :
  wf (Node r axis ch) -> Forall2 (keeps axis) ch ch' ->
  sumZ (map (axisSize axis) ch') = sumZ (map (axisSize axis) ch) ->
  wf (Node r axis ch') /\ skeleton (Node r axis ch') = skeleton (Node r axis ch).
Proof.
  intros Hwf HF Hs. inversion Hwf as [|? ? ? _ _ _ Hsum]; subst.
  destruct (keeps_along axis r ch ch' (rAxis axis r) Hwf HF ltac:(lia)) as [(Hw & _ & Hsk & _) _].
  assert (setRAxis axis (rAxis axis r) r = r) as E by (by destruct axis, r). rewrite E in *. done.
Qed.

Lemma nearestSplit_spec axis root rp pp idx :
  nearestSplit axis root rp = Some (pp, idx) ->
  exists r ch, cellAt pp root = Some (Node r axis ch).
Proof.
  induction rp as [|i rp IH]; simpl; [done|]. case_decide as Hd; [|done]. intros [= <- <-].
  destruct (cellAt _ root) as [[|r dir ch]|] eqn:E; simplify_eq/=. by exists r, ch.
Qed.

(** Sizes change, panes and splits do not. *)
Definition resized (w w' : Window) : Prop :=
  WindowInv w' /\ working (panes w') /\ skeleton (Root w') = skeleton (Root w) /\
  ActivePane w' = ActivePane w.

Lemma sameSkeleton_updAt f p root c :
  cellAt p root = Some c -> skeleton (f c) = skeleton c -> skeleton (updAt f p root) = skeleton root.
Proof.
  revert root. induction p as [|i p IH]; intros root; simpl; [by intros [= ->]|].
  destruct (Children root !! i) as [child|] eqn:E; [|done]. intros Hc Hs.
  destruct root as [r d|r dir ch]; [done|]. simpl in *. f_equal.
  apply list_eq. intros j. rewrite !list_lookup_fmap, lookup_updNth.
  case_decide; [subst j|done]. rewrite E. simpl. by rewrite (IH child).
Qed.

Lemma skeleton_inv w root' w' :
  WindowInv w -> working (panes w) -> wf root' -> cellRect root' = cellRect (Root w) ->
  skeleton root' = skeleton (Root w) -> ptyOnly (setRoot (FixOffsets root') w) w' -> resized w w'.
Proof.
  intros Hinv Hw Hwf' Hr' Hs Hpty.
  destruct (permuted_inv w root' w') as (? & ? & _ & ?); auto.
  { unfold permuted. split_and!; [done|done|]. by rewrite (same_skeleton_cellPanes _ _ Hs). }
  unfold resized. split_and!; auto. destruct Hpty as [-> _]. simpl. by rewrite FixOffsets_skeleton.
Qed.

Lemma ResizePane_ok id direction delta w :
  WindowInv w -> working (panes w) ->
  let '(w', ok) := ResizePane id direction delta w in resized w w'.
Proof.
  intros Hinv Hw. unfold ResizePane. pose proof Hinv as [HU _ _ _ _]. unfold IsUltra. rewrite HU.
  rewrite orb_false_r. destruct (delta <=? 0); [done|]. destruct (IsLeadPane id w); [done|].
  destruct (unzoomIf_ok true w Hw) as (ps & z & -> & Hps & Hz & _). simpl.
  set (w1 := setPanes ps (setZoomed z w)).
  assert (WindowInv w1) as Hinv1 by (by apply unzoomed_inv).
  assert (resized w w1) as Hun by done.
  destruct (directionChange direction delta) as [[axis change]|]; [|done].
  destruct (FindPane id (Root w)) as [p|]; [|done].
  destruct (nearestSplit axis (Root w) (rev p)) as [[pp idx]|] eqn:En; [|done].
  destruct (nearestSplit_spec _ _ _ _ _ En) as (r & ch & Hpp). rewrite Hpp. simpl Children.
  pose proof Hinv1 as [_ (Hwf & _) _ _ _]. simpl in Hwf. pose proof (wf_cellAt _ _ _ Hwf Hpp) as Hwfp.
  pose proof (resizeSiblings_spec axis idx change ch (wf_Children _ Hwfp)) as Hsib. simpl in Hsib.
  destruct (resizeSiblings axis idx change ch) as [ch' moved]. destruct Hsib as (HF & Hs & _).
  destruct (moved =? 0); [done|].
  destruct (resized_siblings r axis ch ch' Hwfp HF Hs) as [Hw' Hsk].
  destruct (wf_updAt (withChildren ch') pp (Root w) _ Hwf Hpp) as [Hwf' _]; [done|done|].
  assert (resized w1 (resizePTYs (setRoot (FixOffsets (updAt (withChildren ch') pp (Root w))) w1)))
    as Hrs; [|exact Hrs].
  eapply skeleton_inv; [done|done|exact Hwf'| | |apply resizePTYs_pty].
  - by eapply cellRect_updAt.
  - by eapply sameSkeleton_updAt.
Qed.

(** What ResizePane leaves alone, and when it reports a change. *)
Lemma ResizePane_frame id direction delta w :
  WindowInv w -> working (panes w) ->
  let '(w', ok) := ResizePane id direction delta w in
  Width w' = Width w /\ Height w' = Height w /\ (ok = false -> Root w' = Root w) /\
  (ok = true -> 0 < delta /\ IsLeadPane id w = false /\ is_Some (directionChange direction delta)).
Proof.
  intros Hinv Hw. unfold ResizePane. pose proof Hinv as [HU _ _ _ _]. unfold IsUltra. rewrite HU.
  rewrite orb_false_r. destruct (Z.leb_spec delta 0); [done|]. destruct (IsLeadPane id w) eqn:El; [done|].
  destruct (unzoomIf_ok true w Hw) as (ps & z & -> & Hps & Hz & _). simpl.
  destruct (directionChange direction delta) as [[axis change]|]; [|done].
  destruct (FindPane id (Root w)) as [p|]; [|done].
  destruct (nearestSplit axis (Root w) (rev p)) as [[pp idx]|]; [|done].
  destruct (resizeSiblings axis idx change _) as [ch' moved]. destruct (moved =? 0); [done|].
  destruct (resizePTYs_pty (setRoot (FixOffsets (updAt (withChildren ch') pp (Root w)))
    (setPanes ps (setZoomed z w)))) as [-> _]. simpl. split_and!; auto. done.
Qed.

(** ** Terminal resize *)

Lemma Resize_ok width height w :
  WindowInv w -> working (panes w) ->
  minSubtreeSize SplitVertical (Root w) <= width -> minSubtreeSize SplitHorizontal (Root w) <= height ->
  resized w (Resize width height w) /\
  Width (Resize width height w) = width /\ Height (Resize width height w) = height.
Proof.
  intros [HU (Hwf & Hpos & Hr & HP & Hnd & Hp) (a & Ha & Hin) HZ HL] Hw HW HH.
  unfold Resize. simpl. rewrite HU.
  destruct (ResizeAll_resizedTo width height (Root w) Hwf) as (Hwf' & Hpos' & Hs & HX & HY & HW' & HH').
  set (root' := ResizeAll width height (Root w)) in *.
  pose proof (same_skeleton_panes _ _ Hs) as HtP. pose proof (same_skeleton_cellPanes _ _ Hs) as HcP.
  assert (WindowInv (setRoot root' (setSize width height w))) as Hinv.
  { constructor; simpl; unfold refers; rewrite ?HtP; eauto. unfold treeOk. rewrite HtP, HcP.
    split_and!; auto. unfold cX, cY, cW, cH in *. rewrite Hr in *. destruct (cellRect root').
    simpl in *. f_equal; lia. }
  destruct (resizePTYsPreserving_pty (setRoot root' (setSize width height w))) as [E Hps].
  pose proof (ptyOnly_inv _ _ (conj E Hps) Hinv) as Hinv'. unfold resized.
  set (w' := resizePTYsPreservingZoomedPaneSize _) in *. split_and!; try done; [by auto|..]; by rewrite E.
Qed.

(** ** Zoom and focus *)

(** Only the focus and the zoom may differ. *)
Definition refocused (w w' : Window) : Prop :=
  WindowInv w' /\ working (panes w') /\ Root w' = Root w.

Lemma setActive_ok id w :
  WindowInv w -> working (panes w) -> id ∈ treePanes (Root w) ->
  refocused w (setActive id w) /\ ActivePane (setActive id w) = Some id /\
  ZoomedPaneID (setActive id w) = ZoomedPaneID w.
Proof.
  intros [] Hw Hid. destruct (setActive_state id w Hw) as (ps & n & -> & Hps).
  split; [|done]. split_and!; [|done|done]. constructor; simpl; eauto.
Qed.

Lemma refocused_refl w : WindowInv w -> working (panes w) -> refocused w w.
Proof. done. Qed.

Lemma Zoom_ok id w :
  WindowInv w -> working (panes w) ->
  let '(w', res) := Zoom id w in
  refocused w w' /\
  match res with
  | Ok _ =>
      if ZoomedPaneID w =? id then ZoomedPaneID w' = 0 /\ ActivePane w' = ActivePane w
      else ZoomedPaneID w' = id /\ ActivePane w' = Some id
  | Err _ => ActivePane w' = ActivePane w /\ (ZoomedPaneID w' = 0 \/ w' = w)
  end.
Proof.
  intros Hinv Hw. unfold Zoom, bindM, get. destruct (Z.eqb_spec (ZoomedPaneID w) id) as [Hz|Hz].
  - pose proof (unzoomIf_ok true w Hw) as (ps & z & E & Hps & Hzz & Hz0). specialize (Hz0 eq_refl).
    subst z. unfold unzoomIf in E. rewrite andb_true_r in E. unfold Unzoom in *.
    destruct (Z.eqb_spec (ZoomedPaneID w) 0) as [H0|H0]; cbv beta iota delta [negb] in E; [split; [done|]; auto|].
    rewrite E. split; [|done]. split_and!; [|done|done]. apply unzoomed_inv; auto.
  - destruct (unzoomIf_ok true w Hw) as (ps & z & -> & Hps & Hzz & Hz0). specialize (Hz0 eq_refl). subst z.
    set (w1 := setPanes ps (setZoomed 0 w)).
    assert (WindowInv w1) as Hinv1 by (apply unzoomed_inv; auto).
    unfold modify, ultraShowPane. simpl. rewrite (inv_noUltra w Hinv). simpl. fold w1.
    destruct (decide (id ∈ treePanes (Root w))) as [Hin|Hin].
    2:{ unfold mustFindPane. simpl. rewrite (proj2 (FindPane_None id (Root w)) Hin). split; [done|]. auto. }
    destruct (mustFindPane_in id w1 Hin) as (p & r & d & -> & _ & Hc & Hd).
    destruct (leafCount (Root w1) <=? 1); [split; [done|]; auto|].
    assert (paneAt p (setZoomed id w1) = Some id) as -> by (unfold paneAt; simpl; simpl in Hc; by rewrite Hc).
    assert (WindowInv (setZoomed id w1)) as Hinv2.
    { destruct Hinv1. constructor; simpl; auto. by right. }
    destruct (setActive_ok id _ Hinv2 Hps Hin) as ((Hi3 & Hw3 & HR3) & HA3 & HZ3).
    set (w3 := setActive id (setZoomed id w1)) in *.
    pose proof (paneResize_ok id (Width w1) (PaneContentHeight (Height w1)) w3 Hw3) as Hok.
    pose proof (paneResize_pty id (Width w1) (PaneContentHeight (Height w1)) w3) as Hpty.
    destruct (paneResize _ _ _ w3) as [w4 res]. simpl in Hok, Hpty. subst res.
    pose proof (ptyOnly_inv _ _ Hpty Hi3). destruct Hpty as [E4 Hp4]. unfold refocused.
    rewrite E4 in *. simpl. split_and!; auto.
Qed.

Lemma FocusPane_ok id w :
  WindowInv w -> working (panes w) -> id ∈ treePanes (Root w) ->
  let w' := FocusPane id w in
  refocused w w' /\ ActivePane w' = Some id /\
  ZoomedPaneID w' = (if ZoomedPaneID w =? id then id else 0).
Proof.
  intros Hinv Hw Hid. unfold FocusPane.
  destruct (unzoomIf_ok (negb (id =? ZoomedPaneID w)) w Hw) as (ps & z & E & Hps & Hzz & Hz0).
  rewrite E. simpl. unfold ultraShowPane. simpl. rewrite (inv_noUltra w Hinv). simpl.
  set (w1 := setPanes ps (setZoomed z w)).
  assert (WindowInv w1) as Hinv1 by (by apply unzoomed_inv).
  destruct (setActive_ok id w1 Hinv1 Hps Hid) as (Hr & HA & HZ). split_and!; [exact Hr|done|].
  rewrite HZ. simpl. rewrite Z.eqb_sym in Hz0, E.
  destruct (Z.eqb_spec (ZoomedPaneID w) id) as [Hz|]; [|by apply Hz0].
  unfold unzoomIf in E. simpl in E. rewrite andb_false_r in E.
  injection E as E. apply (f_equal ZoomedPaneID) in E. simpl in E. congruence.
Qed.

(** The candidates of a search: the other panes of the layout that touch the
    search edge, in walk order. *)
Definition candidates (r : Rect) (direction : string) (wrap : bool) (w : Window) : list Z :=
  omap (fun e => match Pane e.2.2 with
    | Some id => if isActive id w then None
                 else if isCandidate r e.2.1 direction wrap w then Some id else None
    | None => None
    end) (Walk (Root w)).

Lemma candidates_in r direction wrap w id :
  id ∈ candidates r direction wrap w <->
  ActivePane w <> Some id /\
  exists p r' d, (p, (r', d)) ∈ Walk (Root w) /\ Pane d = Some id /\ isCandidate r r' direction wrap w = true.
Proof.
  unfold candidates. rewrite list_elem_of_omap. split.
  - intros ([p [r' d]] & He & H). simpl in H. unfold isActive in H. destruct (Pane d) as [x|] eqn:Ep; [|done].
    case_bool_decide; [done|]. destruct (isCandidate r r' direction wrap w) eqn:Ec; [|done].
    injection H as ->. split; [done|]. by exists p, r', d.
  - intros [Ha (p & r' & d & He & Hd & Hc)]. exists (p, (r', d)). split; [done|]. simpl.
    rewrite Hd, Hc. unfold isActive. by rewrite bool_decide_false.
Qed.

(** The choice among the candidates. *)
Definition laterActive (w : Window) (best : option (Z * Z)) (id : Z) : option (Z * Z) :=
  match best with
  | None => Some (id, activePointOf id w)
  | Some (_, point) => if point <? activePointOf id w then Some (id, activePointOf id w) else best
  end.

Lemma findDirectional_candidates r direction wrap w :
  findDirectional r direction wrap w =
    fst <$> fold_left (laterActive w) (candidates r direction wrap w) None.
Proof.
  unfold findDirectional, candidates. f_equal. generalize (@None (Z * Z)) as best.
  induction (Walk (Root w)) as [|e l IH]; intros best; simpl; [done|]. rewrite IH.
  destruct (Pane e.2.2) as [id|]; [|done]. destruct (isActive id w); [done|].
  by destruct (isCandidate _ _ _ _ _).
Qed.

Lemma laterActive_some w l b : is_Some (fold_left (laterActive w) l (Some b)).
Proof.
  revert b. induction l as [|z l IH]; intros [y n]; simpl; [done|]. destruct (_ <? _); apply IH.
Qed.
Lemma laterActive_none w l : fold_left (laterActive w) l None = None -> l = [].
Proof.
  destruct l as [|y l]; [done|]. simpl. intros H.
  destruct (laterActive_some w l (y, activePointOf y w)) as [b Hb]. congruence.
Qed.

(** The first of the most recently active candidates. *)
Lemma laterActive_first w l id point :
  fold_left (laterActive w) l None = Some (id, point) ->
  point = activePointOf id w /\ exists l1 l2, l = l1 ++ id :: l2 /\
    Forall (fun x => activePointOf x w < activePointOf id w) l1 /\
    Forall (fun x => activePointOf x w <= activePointOf id w) l2.
Proof.
  revert id point. induction l as [|x l IH] using rev_ind; intros id point; [done|].
  rewrite fold_left_app. simpl. destruct (fold_left _ l None) as [[b n]|] eqn:E; simpl.
  - destruct (IH b n eq_refl) as (-> & l1 & l2 & -> & H1 & H2).
    destruct (Z.ltb_spec (activePointOf b w) (activePointOf x w)) as [Hlt|Hge]; intros [= <- <-];
      (split; [done|]).
    + exists (l1 ++ b :: l2), []. split_and!; [done| |done].
      rewrite Forall_app, Forall_cons. split_and!.
      * eapply Forall_impl; [exact H1|]. simpl. lia.
      * done.
      * eapply Forall_impl; [exact H2|]. simpl. lia.
    + exists l1, (l2 ++ [x]). rewrite <- app_assoc. split_and!; [done|done|].
      rewrite Forall_app, Forall_singleton. done.
  - intros [= <- <-]. split; [done|]. exists [], []. by rewrite (laterActive_none w l E).
Qed.

Lemma findDirectional_in r direction wrap w id :
  findDirectional r direction wrap w = Some id -> id ∈ candidates r direction wrap w.
Proof.
  rewrite findDirectional_candidates. intros ([x n] & H & ->)%fmap_Some.
  apply laterActive_first in H as (_ & l1 & l2 & -> & _). simpl. apply elem_of_app. right. by left.
Qed.

Lemma candidates_panes r direction wrap w id :
  id ∈ candidates r direction wrap w -> id ∈ treePanes (Root w).
Proof.
  intros [_ (p & r' & d & He & Hd & _)]%candidates_in. rewrite treePanes_Walk.
  apply list_elem_of_omap. by exists (p, (r', d)).
Qed.

Lemma Focus_ok direction w :
  WindowInv w -> working (panes w) -> refocused w (Focus direction w).
Proof.
  intros Hinv Hw. unfold Focus. destruct (unzoomIf_ok true w Hw) as (ps & z & -> & Hps & Hzz & _). simpl.
  set (w1 := setPanes ps (setZoomed z w)).
  assert (WindowInv w1) as Hinv1 by (by apply unzoomed_inv).
  assert (refocused w w1) as Hr1 by done.
  assert (forall id, id ∈ treePanes (Root w) -> refocused w (setActive id w1)) as Hset.
  { intros id Hid. destruct (setActive_ok id w1 Hinv1 Hps Hid) as (Hr & _). exact Hr. }
  unfold Panes, ultraShowPane. simpl. rewrite (inv_noUltra w Hinv). rewrite panesOf_treePanes.
  destruct (Nat.leb_spec (length (treePanes (Root w))) 1) as [|Hlen]; [done|].
  destruct (String.eqb direction "next").
  - destruct (indexOfZ _ 0 _) as [i|]; [|done]. simpl. apply Hset.
    destruct (lookup_lt_is_Some_2 (treePanes (Root w))
      ((i + 1) mod length (treePanes (Root w)))%nat) as [x Hx].
    { apply Nat.mod_upper_bound. lia. }
    rewrite Hx. simpl. by eapply list_elem_of_lookup_2.
  - destruct (FindPane _ (Root w)) as [p|]; [|done].
    destruct (findDirectional _ _ false _) as [id|] eqn:E1; [by apply findDirectional_in, candidates_panes in E1; auto|].
    destruct (findDirectional _ _ true _) as [id|] eqn:E2; [by apply findDirectional_in, candidates_panes in E2; auto|].
    done.
Qed.

Lemma UnsetLead_ok w :
  WindowInv w ->
  let '(w', res) := UnsetLead w in
  if LeadPaneID w =? 0 then res = Err errNoLead /\ w' = w
  else res = Ok tt /\ w' = setLeadID 0 w /\ WindowInv w'.
Proof.
  intros Hinv. unfold UnsetLead, bindM, get, modify. destruct (LeadPaneID w =? 0); [done|].
  unfold IsUltra. rewrite (inv_noUltra w Hinv). split_and!; [done|done|].
  destruct Hinv. constructor; simpl; auto. by left.
Qed.

(** ** How far a resize goes *)

(** What a sibling can give up along the axis. *)
Definition slackAt (axis : SplitDir) (l : list LayoutCell) (i : nat) : Z :=
  match l !! i with Some c => resizeCheck axis c | None => 0 end.
Definition slack (axis : SplitDir) (l : list LayoutCell) (ix : list nat) : Z := sumZ (map (slackAt axis l) ix).

Lemma slackAt_nonneg axis l i : Forall wf l -> 0 <= slackAt axis l i.
Proof.
  intros HF. unfold slackAt. destruct (l !! i) eqn:E; [|done].
  apply resizeCheck_nonneg. by eapply Forall_lookup_1.
Qed.

Lemma slack_nonneg axis l ix : Forall wf l -> 0 <= slack axis l ix.
Proof.
  intros HF. unfold slack. pose proof (sumZ_lower (map (slackAt axis l) ix) 0) as H.
  rewrite Forall_map_iff in H. specialize (H ltac:(apply Forall_true; intros; by apply slackAt_nonneg)). lia.
Qed.

Lemma transferAxisSize_exact g d axis needed l :
  Forall wf l -> (g < length l)%nat -> 0 <= needed ->
  let '(l', moved) := transferAxisSize g d axis needed l in
  moved = Z.min needed (slackAt axis l d) /\
  (forall i, i <> g -> i <> d -> l' !! i = l !! i) /\ length l' = length l.
Proof.
  intros HF Hg Hn. unfold transferAxisSize, slackAt. apply lookup_lt_is_Some in Hg as [grower ->].
  destruct (l !! d) as [donor|] eqn:Hd; [|split_and!; [lia|done|done]].
  destruct (transferEdges g d) as [ge de].
  pose proof (resizeCheck_nonneg axis donor (Forall_lookup_1 _ _ _ _ HF Hd)).
  destruct (Z.eqb_spec (resizeCheck axis donor) 0) as [->|Hnz]; [split_and!; [lia|done|done]|].
  split_and!; [zb; lia| |by rewrite !length_insert].
  intros i Hig Hid. by rewrite !list_lookup_insert_ne by done.
Qed.

(** A chain of transfers moves all that was asked, or all the donors have. *)
Lemma transferSiblingRange_exact g axis donors l remaining :
  Forall wf l -> (g < length l)%nat -> g ∉ donors -> NoDup donors -> 0 <= remaining ->
  let '(l', rest) := transferSiblingRange g axis remaining donors l in
  remaining - rest = Z.min remaining (slack axis l donors) /\
  (forall i, i <> g -> i ∉ donors -> l' !! i = l !! i) /\ length l' = length l.
Proof.
  revert l remaining. induction donors as [|d donors IH]; intros l remaining HF Hg Hgd Hnd Hr; simpl.
  { unfold slack. simpl. rewrite sumZ_nil. split_and!; [lia|done|done]. }
  apply not_elem_of_cons in Hgd as [Hgd Hgds]. apply NoDup_cons in Hnd as [Hd Hnd].
  pose proof (slack_nonneg axis l donors HF) as Hsn. pose proof (slackAt_nonneg axis l d HF) as Hdn.
  unfold slack. simpl. rewrite sumZ_cons. fold (slack axis l donors).
  destruct (Z.ltb_spec 0 remaining); [|split_and!; [lia|done|done]].
  pose proof (transferAxisSize_exact g d axis remaining l HF Hg Hr) as H1.
  pose proof (transferAxisSize_spec g d axis remaining l HF Hgd Hr) as H1'.
  destruct (transferAxisSize g d axis remaining l) as [l1 moved].
  destruct H1 as (Hm & Hsame & Hlen). destruct H1' as [Hm2 Ht].
  pose proof (IH l1 (remaining - moved) (transferred_wf _ _ _ _ _ Ht) ltac:(lia) Hgds Hnd ltac:(lia)) as H2.
  destruct (transferSiblingRange g axis (remaining - moved) donors l1) as [l2 rest].
  destruct H2 as (Hrest & Hsame2 & Hlen2).
  assert (slack axis l1 donors = slack axis l donors) as Hs.
  { unfold slack. f_equal. apply map_ext_in. intros i Hi. apply list_elem_of_In in Hi. unfold slackAt.
    rewrite Hsame; [done|by intros ->|by intros ->]. }
  rewrite Hs in Hrest. split_and!; [lia| |lia].
  intros i Hig Hi. apply not_elem_of_cons in Hi as [Hid Hi]. rewrite Hsame2 by done. by apply Hsame.
Qed.

Lemma NoDup_tailward i n : NoDup (tailward i n).
Proof. apply NoDup_seq. Qed.
Lemma NoDup_headward i : NoDup (headward i).
Proof. unfold headward. apply NoDup_ListNoDup, List.NoDup_rev, NoDup_ListNoDup, NoDup_seq. Qed.

Lemma slack_app axis l ix jx : slack axis l (ix ++ jx) = slack axis l ix + slack axis l jx.
Proof. unfold slack. rewrite map_app. apply sumZ_app. Qed.

Lemma resizePaneGrow_exact idx axis needed l :
  Forall wf l -> (idx < length l)%nat -> 0 <= needed ->
  (resizePaneGrow idx axis needed l).2
    = Z.min needed (slack axis l (tailward (S idx) (length l) ++ headward idx)).
Proof.
  intros HF Hi Hn. unfold resizePaneGrow. rewrite slack_app.
  pose proof (slack_nonneg axis l (tailward (S idx) (length l)) HF).
  pose proof (slack_nonneg axis l (headward idx) HF).
  pose proof (transferSiblingRange_exact idx axis (tailward (S idx) (length l)) l needed HF Hi
    (tailward_ne _ _) (NoDup_tailward _ _) Hn) as H1.
  pose proof (transferSiblingRange_spec idx axis (tailward (S idx) (length l)) l needed HF (tailward_ne _ _) Hn) as H1'.
  destruct (transferSiblingRange idx axis needed _ l) as [l1 rem]. destruct H1 as (Hr & Hsame & Hlen).
  destruct H1' as [Hb Ht].
  destruct (Z.eqb_spec rem 0); [simpl; lia|].
  pose proof (transferSiblingRange_exact idx axis (headward idx) l1 rem (transferred_wf _ _ _ _ _ Ht)
    ltac:(lia) (headward_ne idx idx ltac:(lia)) (NoDup_headward _) ltac:(lia)) as H2.
  destruct (transferSiblingRange idx axis rem _ l1) as [l2 rem2]. destruct H2 as (Hr2 & _).
  assert (slack axis l1 (headward idx) = slack axis l (headward idx)) as Hs.
  { unfold slack. f_equal. apply map_ext_in. intros i Hin. apply list_elem_of_In in Hin. unfold slackAt.
    assert (i < idx)%nat as Hlt.
    { unfold headward in Hin. rewrite list_elem_of_In, <- in_rev, in_seq in Hin. lia. }
    rewrite Hsame; [done|lia|]. unfold tailward. rewrite list_elem_of_In, in_seq. lia. }
  rewrite Hs in Hr2. simpl. lia.
Qed.

Lemma resizePaneShrink_exact idx axis needed l :
  Forall wf l -> (S idx < length l)%nat -> 0 <= needed ->
  (resizePaneShrink idx axis needed l).2 = Z.min needed (slack axis l (headward (S idx))).
Proof.
  intros HF Hi Hn. unfold resizePaneShrink.
  pose proof (transferSiblingRange_exact (S idx) axis (headward (S idx)) l needed HF Hi
    (headward_ne (S idx) (S idx) ltac:(lia)) (NoDup_headward _) Hn) as H1.
  destruct (transferSiblingRange (S idx) axis needed _ l) as [l1 rem]. destruct H1 as (Hr & _). simpl. lia.
Qed.
