(* ===== verification/WindowSteps.v ===== *)
(** * Windows: equalizing, and reachable states

    Equalizing columns and rows; the operations on a window outside the ultra layout as a step relation,
    and the invariant of every state they reach from a new window. *)

From S2P Require Import Prelude LayoutSizes LayoutTree LayoutFacts LayoutEdit WindowState Ultra WindowOps WindowResize WindowFacts WindowMoves.
From S2P Require Import WindowSizing LayoutTiling.

(** ** Windows: equalizing columns and rows *)

(** ** Columns of stacked leaves *)

Lemma horizontalLeafCount_nonneg c : 0 <= horizontalLeafCount c.
Proof.
  induction c as [r d|r dir ch IH] using LayoutCell_tree_ind; simpl; [lia|].
  destruct dir; [lia|]. case_match; [lia|].
  pose proof (sumZ_lower (map horizontalLeafCount ch) 0) as H0. rewrite Forall_map_iff in H0.
  specialize (H0 IH). lia.
Qed.

Lemma horizontal_node r dir ch :
  horizontalLeafCount (Node r dir ch) <> 0 ->
  dir = SplitHorizontal /\ Forall (fun c => horizontalLeafCount c <> 0) ch /\
  horizontalLeafCount (Node r dir ch) = sumZ (map horizontalLeafCount ch).
Proof.
  simpl. destruct dir; [done|].
  destruct (existsb (Z.eqb 0) (map horizontalLeafCount ch)) eqn:E; [done|]. intros _.
  split_and!; [done| |done]. rewrite Forall_forall. intros c Hc H0.
  assert (existsb (Z.eqb 0) (map horizontalLeafCount ch) = true); [|congruence].
  apply existsb_exists. exists 0. split; [|done]. rewrite <- H0. apply in_map. by apply list_elem_of_In.
Qed.

Lemma horizontal_skeleton c : horizontalLeafCount (skeleton c) = horizontalLeafCount c.
Proof.
  induction c as [r d|r dir ch IH] using LayoutCell_tree_ind; simpl; [done|].
  destruct dir; [done|]. by rewrite map_map, (Forall_map_eq _ horizontalLeafCount ch IH).
Qed.

Lemma same_skeleton_horizontal c c' :
  skeleton c' = skeleton c -> horizontalLeafCount c' = horizontalLeafCount c.
Proof. intros E. by rewrite <- horizontal_skeleton, E, horizontal_skeleton. Qed.

Lemma same_skeleton_height c c' : skeleton c' = skeleton c -> height c' = height c.
Proof. intros E. by rewrite <- height_skeleton, E, height_skeleton. Qed.

Lemma horizontal_min c :
  shaped c -> horizontalLeafCount c <> 0 ->
  minSubtreeSize SplitHorizontal c = PaneMinSize * horizontalLeafCount c + (horizontalLeafCount c - 1).
Proof.
  induction c as [r d|r dir ch IH] using LayoutCell_tree_ind; intros Hs Hn; [reflexivity|].
  inversion_clear Hs as [|? ? ? Hl HF]. destruct (horizontal_node _ _ _ Hn) as (-> & Hch & E).
  rewrite E, minSubtreeSize_along by (by apply two_ne). clear E Hn.
  assert (map (minSubtreeSize SplitHorizontal) ch
          = map (fun c => 3 * horizontalLeafCount c + -1) ch) as ->.
  { apply Forall_map_eq. rewrite Forall_forall in *. intros c Hc. rewrite (IH c Hc); auto.
    unfold PaneMinSize. lia. }
  rewrite (sumZ_map_add (fun c => 3 * horizontalLeafCount c) ch (-1)).
  assert (forall l, sumZ (map (fun c => 3 * horizontalLeafCount c) l)
          = 3 * sumZ (map horizontalLeafCount l)) as ->; [|unfold PaneMinSize; lia].
  induction l as [|c l IHl]; simpl; lsum.
Qed.

Definition leafHeights (c : LayoutCell) : list Z := map (fun e => rH e.2.1) (Walk c).

Lemma leafHeights_node r dir ch : leafHeights (Node r dir ch) = concat (map leafHeights ch).
Proof.
  unfold leafHeights. rewrite Walk_node. generalize 0%nat.
  induction ch as [|c ch IH]; intros i; simpl; [done|]. by rewrite map_app, map_map, IH.
Qed.

(** The loop over the children. *)
Fixpoint heightsLoop (fuel : nat) (r : Rect) (targets : list Z) (l : list LayoutCell) : list LayoutCell :=
  match l with
  | [] => []
  | child :: rest =>
      let leafCount := horizontalLeafCount child in
      let childTargets := take (Z.to_nat leafCount) targets in
      equalizeLeafHeightsWithTargets fuel childTargets
        (ResizeSubtree child (rW r) (leafCount - 1 + sumZ childTargets))
        :: heightsLoop fuel r (drop (Z.to_nat leafCount) targets) rest
  end.

Lemma heights_node fuel t targets r dir ch :
  equalizeLeafHeightsWithTargets (S fuel) (t :: targets) (Node r dir ch)
    = Node r dir (heightsLoop fuel r (t :: targets) ch).
Proof.
  cbn [equalizeLeafHeightsWithTargets]. f_equal. generalize (t :: targets).
  induction ch as [|c ch IH]; intros ts; [done|]. cbn [heightsLoop]. f_equal. apply IH.
Qed.

(** Targets that fit a column. *)
Definition targetsFit (targets : list Z) (c : LayoutCell) : Prop :=
  lenZ targets = horizontalLeafCount c /\ Forall (fun t => PaneMinSize <= t) targets.

Definition leveled (targets : list Z) (c c' : LayoutCell) : Prop :=
  wf c' /\ cW c' = cW c /\ cH c' = cH c /\ skeleton c' = skeleton c /\ leafHeights c' = targets.

(** What the loop does, given what it does to each child. *)
Lemma heightsLoop_spec fuel r targets ch :
  (forall c targets, wf c -> horizontalLeafCount c <> 0 -> (height c < fuel)%nat -> targetsFit targets c ->
     cH c = sumZ targets + (lenZ targets - 1) ->
     leveled targets c (equalizeLeafHeightsWithTargets fuel targets c)) ->
  Forall wf ch -> Forall (fun c => cW c = rW r) ch -> Forall (fun c => horizontalLeafCount c <> 0) ch ->
  Forall (fun c => (height c < fuel)%nat) ch ->
  lenZ targets = sumZ (map horizontalLeafCount ch) -> Forall (fun t => PaneMinSize <= t) targets ->
  let ch' := heightsLoop fuel r targets ch in
  length ch' = length ch /\ Forall wf ch' /\ Forall (fun c => cW c = rW r) ch' /\
  map skeleton ch' = map skeleton ch /\ concat (map leafHeights ch') = targets /\
  sumZ (map cH ch') + lenZ ch = sumZ targets + lenZ targets.
Proof.
  intros Hrec. revert targets. induction ch as [|c ch IH]; intros targets Hwf HW Hn Hh Hlen HF; simpl.
  { simpl in Hlen. destruct targets; [done|]. rewrite lenZ_cons, sumZ_nil in Hlen.
    pose proof (lenZ_nonneg targets). lia. }
  apply Forall_cons in Hwf as [Hc Hwf], HW as [HWc HW], Hn as [Hnc Hn], Hh as [Hhc Hh].
  set (k := Z.to_nat (horizontalLeafCount c)). set (ts := take k targets).
  pose proof (horizontalLeafCount_nonneg c) as Hnn. simpl in Hlen. rewrite sumZ_cons in Hlen.
  assert (0 <= sumZ (map horizontalLeafCount ch)) as Hsn.
  { pose proof (sumZ_lower (map horizontalLeafCount ch) 0) as H0. rewrite Forall_map_iff in H0.
    assert (Forall (fun c => 0 <= horizontalLeafCount c) ch) as HFn
      by (apply Forall_true; apply horizontalLeafCount_nonneg). specialize (H0 HFn). lia. }
  assert (length ts = k) as Hlt by (unfold ts; rewrite length_take; unfold lenZ in Hlen; lia).
  assert (Forall (fun t => PaneMinSize <= t) ts) as HFt by (by apply Forall_take).
  assert (lenZ ts = horizontalLeafCount c) as Hlz by (unfold lenZ; lia).
  set (h := horizontalLeafCount c - 1 + sumZ ts).
  destruct (ResizeSubtree_spec c (rW r) h (wf_shaped _ Hc)) as (Hw1 & _ & Hs1 & _ & _ & HW1 & HH1).
  set (c1 := ResizeSubtree c (rW r) h) in *.
  assert (cW c1 = rW r) as HW1'.
  { rewrite HW1. pose proof (wf_min_le SplitVertical c Hc). unfold axisSize in *. simpl in *. unfold cW in *. lia. }
  assert (cH c1 = h) as HH1'.
  { rewrite HH1, horizontal_min by auto with amux. pose proof (sumZ_lower ts PaneMinSize HFt).
    unfold h, PaneMinSize in *. lia. }
  pose proof (same_skeleton_horizontal _ _ Hs1) as Hn1.
  destruct (Hrec c1 ts) as (Hw2 & HW2 & HH2 & Hs2 & HL2); auto.
  { by rewrite Hn1. } { by rewrite (same_skeleton_height _ _ Hs1). } { split; [by rewrite Hn1|done]. }
  { unfold h in HH1'. lia. }
  destruct (IH (drop k targets)) as (Hl3 & Hw3 & HW3 & Hs3 & HL3 & HS3); auto.
  { unfold lenZ in *. rewrite length_drop. lia. } { by apply Forall_drop. }
  assert (sumZ targets = sumZ ts + sumZ (drop k targets)) as Hst
    by (rewrite <- sumZ_app; unfold ts; by rewrite take_drop).
  assert (lenZ targets = lenZ ts + lenZ (drop k targets)) as Hlt2
    by (rewrite <- lenZ_app; unfold ts; by rewrite take_drop).
  split_and!.
  - by rewrite Hl3.
  - by constructor.
  - constructor; [congruence|done].
  - f_equal; [congruence|done].
  - rewrite HL2, HL3. unfold ts. apply take_drop.
  - rewrite sumZ_cons, HH2, HH1', lenZ_cons. unfold h. lia.
Qed.

Lemma leveled_spec fuel targets c :
  wf c -> horizontalLeafCount c <> 0 -> (height c < fuel)%nat -> targetsFit targets c ->
  cH c = sumZ targets + (lenZ targets - 1) ->
  leveled targets c (equalizeLeafHeightsWithTargets fuel targets c).
Proof.
  revert targets c. induction fuel as [|fuel IH]; intros targets c Hwf Hn Hh [Hlen HF] HH; [lia|].
  destruct targets as [|t targets].
  { rewrite lenZ_nil in Hlen. done. }
  destruct c as [r d|r dir ch].
  - simpl in Hlen. destruct targets as [|t2 targets].
    2:{ rewrite !lenZ_cons in Hlen. pose proof (lenZ_nonneg targets). lia. }
    inversion_clear Hwf. simpl. unfold sumZ, lenZ in HH. simpl in HH. unfold cH in HH. simpl in HH.
    unfold leveled, cW, cH, leafHeights, setWH, atLeast. simpl. unfold PaneMinSize in *. simpl.
    zb; try lia; (split_and!; [constructor; simpl; unfold PaneMinSize; lia|done|simpl; lia|done|
      simpl; f_equal; lia]).
  - rewrite heights_node. set (ts := t :: targets) in *. destruct (horizontal_node _ _ _ Hn) as (-> & Hch & E).
    inversion_clear Hwf as [|? ? ? Hl HFw Hcross Hsum].
    destruct (heightsLoop_spec fuel r ts ch) as (Hl3 & Hw3 & HW3 & Hs3 & HL3 & HS3); auto.
    { rewrite Forall_forall. intros c Hc. pose proof (height_child c ch r SplitHorizontal Hc). lia. }
    { by rewrite <- E. }
    unfold leveled. split_and!; [|done|done| |].
    + constructor; [by rewrite Hl3|done|exact HW3|]. unfold cH in HH. simpl in HH |- *.
      change (map (axisSize SplitHorizontal)) with (map cH). unfold lenZ in *. rewrite Hl3. lia.
    + simpl. by rewrite Hs3.
    + by rewrite leafHeights_node.
Qed.

(** The heights equalize gives a column of at least two leaves. *)
Lemma equalSplit_fit c :
  wf c -> 1 < horizontalLeafCount c ->
  targetsFit (equalizeLeafHeightTargets c) c /\
  cH c = sumZ (equalizeLeafHeightTargets c) + (lenZ (equalizeLeafHeightTargets c) - 1).
Proof.
  intros Hwf Hn. unfold equalizeLeafHeightTargets.
  destruct (Z.ltb_spec (horizontalLeafCount c) 2); [lia|]. set (n := horizontalLeafCount c) in *.
  pose proof (wf_min_le SplitHorizontal c Hwf) as Hm. unfold axisSize in Hm. simpl in Hm.
  change (rH (cellRect c)) with (cH c) in Hm.
  rewrite horizontal_min in Hm by (auto with amux; lia). fold n in Hm.
  assert (lenZ (equalSplitSizes (cH c) n) = n) as Hl by (apply length_equalSplitSizes; lia).
  rewrite Hl, sum_equalSplitSizes by lia. split; [|lia]. split; [done|].
  by apply equalSplitSizes_min; lia.
Qed.

Lemma equalizeLeafHeights_spec c :
  wf c -> 1 < horizontalLeafCount c ->
  leveled (equalSplitSizes (cH c) (horizontalLeafCount c)) c (equalizeLeafHeights c).
Proof.
  intros Hwf Hn. destruct (equalSplit_fit c Hwf Hn) as [Hfit HH]. unfold equalizeLeafHeights.
  assert (equalizeLeafHeightTargets c = equalSplitSizes (cH c) (horizontalLeafCount c)) as E.
  { unfold equalizeLeafHeightTargets. destruct (Z.ltb_spec (horizontalLeafCount c) 2); [lia|done]. }
  rewrite <- E. apply leveled_spec; [done|lia|lia|done|done].
Qed.

(** ** Equalize without an anchored lead *)

Lemma heights_needed_count c : equalizeLeafHeightsNeeded c = true -> 1 < horizontalLeafCount c.
Proof.
  unfold equalizeLeafHeightsNeeded, equalizeLeafHeightTargets.
  destruct (Z.ltb_spec (horizontalLeafCount c) 2); [|lia]. by destruct (Walk c).
Qed.

Lemma reshaped_updAt f p root c :
  wf root -> cellAt p root = Some c -> reshaped c (f c) -> reshaped root (updAt f p root).
Proof.
  intros Hwf Hc (Hw & Hr & Hs). destruct (wf_updAt f p root c) as [? _]; auto.
  { unfold sameSize, cW, cH. by rewrite Hr. }
  split_and!; [done|by eapply cellRect_updAt|by eapply sameSkeleton_updAt].
Qed.

Lemma equalizeLeafHeights_rect c : cellRect (equalizeLeafHeights c) = cellRect c \/ horizontalLeafCount c <= 1 \/
  exists r d, c = Leaf r d.
Proof.
  destruct c as [r d|r dir ch]; [right; right; eauto|]. destruct (Z.le_gt_cases (horizontalLeafCount (Node r dir ch)) 1);
    [auto|]. left. unfold equalizeLeafHeights. cbn [equalizeLeafHeightsWithTargets].
  by destruct (equalizeLeafHeightTargets _).
Qed.

Lemma equalizeColumnAt_spec p w :
  wf (Root w) ->
  exists root', equalizeColumnAt p w = setRoot root' w /\ reshaped (Root w) root'.
Proof.
  intros Hwf. assert (w = setRoot (Root w) w) as Hid by (by destruct w). unfold equalizeColumnAt.
  destruct (cellAt p (Root w)) as [c|] eqn:Hc; [|by exists (Root w)].
  destruct (equalizeLeafHeightsNeeded c) eqn:En; [|by exists (Root w)].
  apply heights_needed_count in En. eexists. split; [done|].
  eapply reshaped_updAt; [done|exact Hc|]. pose proof (wf_cellAt _ _ _ Hwf Hc) as Hwc.
  destruct (equalizeLeafHeights_spec c Hwc En) as (Hw & _ & _ & Hs & _). split_and!; [done| |done].
  destruct (equalizeLeafHeights_rect c) as [?|[?|(r & d & ->)]]; [done|lia|simpl in En; lia].
Qed.

Lemma equalizeColumns_spec columns w :
  wf (Root w) ->
  exists root', fold_left (fun w p => equalizeColumnAt p w) columns w = setRoot root' w /\
    reshaped (Root w) root'.
Proof.
  revert w. induction columns as [|p columns IH]; intros w Hwf; simpl.
  { exists (Root w). split; [by destruct w|done]. }
  destruct (equalizeColumnAt_spec p w Hwf) as (root1 & -> & H1).
  destruct (IH (setRoot root1 w)) as (root2 & -> & H2); [apply H1|].
  exists root2. split; [done|]. by eapply reshaped_trans.
Qed.

Lemma equalizeAxis_reshaped axis c : wf c -> reshaped c (equalizeAxisRecursive axis c).
Proof.
  intros Hwf. destruct (equalizeAxisRecursive_wf axis c Hwf) as (? & ? & ?). split_and!; [done| |done].
  unfold equalizeAxisRecursive. destruct c as [r d|r dir ch]; simpl; [done|].
  case_decide; [|done]. unfold distributeEqual, rebalanceChildren, equalizeChildren.
  by destruct (equalSubtreeSplitSizes ch dir (rAxis dir r)).
Qed.

Lemma equalizeWidths_spec w :
  wf (Root w) -> rW (cellRect (Root w)) = Width w -> leadColumnsFit w ->
  exists root', equalizeWidths w = setRoot root' w /\ reshaped (Root w) root'.
Proof.
  intros Hwf HW Hl. unfold equalizeWidths. cbv zeta.
  assert (exists root1, (if hasAnchoredLead w then equalizeAnchoredLeadColumns w else w) = setRoot root1 w /\
    reshaped (Root w) root1) as (root1 & -> & H1).
  { destruct (hasAnchoredLead w); [by apply equalizeAnchored_spec|]. exists (Root w). by destruct w. }
  eexists. split; [done|]. eapply reshaped_trans; [done|]. destruct H1 as [Hwf1 _]. simpl.
  destruct (cellAt (logicalRoot w) root1) as [c|] eqn:Ec; [|by rewrite updAt_None].
  eapply reshaped_updAt; [done|done|]. apply equalizeAxis_reshaped. by eapply wf_cellAt.
Qed.

Lemma EqualizeWithOptions_ok widths heights opts w :
  WindowInv w -> working (panes w) -> (widths = true -> leadColumnsFit w) ->
  let '(w', changed) := EqualizeWithOptions widths heights opts w in
  resized w w' /\ (changed = false -> w' = w).
Proof.
  intros Hinv Hw Hl. unfold EqualizeWithOptions. pose proof Hinv as [HU _ _ _ _]. unfold IsUltra. rewrite HU.
  rewrite orb_false_r. destruct (negb widths && negb heights); [done|].
  set (wc := widths && equalizeWidthsNeeded w).
  set (columns := if heights then _ else _). set (hc := existsb _ columns).
  destruct (negb wc && negb hc); [done|].
  destruct (unzoomIf_ok (negb (KeepFocus opts)) w Hw) as (ps & z & -> & Hps & Hz & _). simpl is_ok. simpl negb.
  set (w1 := setPanes ps (setZoomed z w)).
  assert (WindowInv w1) as Hinv1 by (by apply unzoomed_inv).
  pose proof Hinv1 as [_ (Hwf & _ & Hr & _) _ _ _].
  assert (exists root1, (if wc then equalizeWidths w1 else w1) = setRoot root1 w1 /\ reshaped (Root w1) root1)
    as (root1 & -> & H1).
  { destruct wc eqn:Ewc; [|by exists (Root w1)]. apply andb_prop in Ewc as [-> _].
    apply equalizeWidths_spec; [done|by rewrite Hr|]. by apply Hl. }
  assert (exists root2, (if hc then fold_left (fun w p => equalizeColumnAt p w) columns (setRoot root1 w1)
      else setRoot root1 w1) = setRoot root2 w1 /\ reshaped (Root w1) root2) as (root2 & -> & H2).
  { destruct hc; [|by exists root1]. destruct (equalizeColumns_spec columns (setRoot root1 w1)) as (root2 & -> & ?).
    { apply H1. } exists root2. split; [done|]. by eapply reshaped_trans. }
  cbv zeta. split; [|done]. destruct H2 as (Hwf2 & Hr2 & Hs2).
  assert (resized w1 (if KeepFocus opts then resizePTYsPreservingZoomedPaneSize (setRoot (FixOffsets root2) w1)
            else resizePTYs (setRoot (FixOffsets root2) w1))) as Hres; [|exact Hres].
  eapply skeleton_inv; [done|done|exact Hwf2|done|done|].
  destruct (KeepFocus opts); [apply resizePTYsPreserving_pty|apply resizePTYs_pty].
Qed.

(** ** The operations on any pane *)

Lemma mustFindPane_out id w : id ∉ treePanes (Root w) -> mustFindPane id w = (w, Err (errPaneNotFound id)).
Proof. intros H. unfold mustFindPane. by rewrite (proj2 (FindPane_None _ _) H). Qed.

Lemma SwapPanes_any id1 id2 w : WindowInv w -> working (panes w) -> rearranged w (SwapPanes id1 id2 w).1.
Proof.
  intros Hi Hw. destruct (decide (id1 = id2)) as [->|Hne].
  { unfold SwapPanes, bindM, get. by rewrite Z.eqb_refl. }
  destruct (IsLeadPane id1 w || IsLeadPane id2 w) eqn:El.
  { unfold SwapPanes, bindM, get. by rewrite (proj2 (Z.eqb_neq _ _) Hne), El. }
  apply orb_false_iff in El as [El1 El2].
  destruct (decide (id1 ∈ treePanes (Root w))) as [H1|H1]; [destruct (decide (id2 ∈ treePanes (Root w))) as [H2|H2]|].
  - by destruct (SwapPanes_ok id1 id2 w Hi Hw H1 H2 Hne El1 El2) as (w' & -> & Hr & _).
  - unfold SwapPanes, bindM, get. rewrite (proj2 (Z.eqb_neq _ _) Hne), El1, El2. simpl. unfold IsUltra.
    rewrite (inv_noUltra w Hi). destruct (mustFindPane_in id1 w H1) as (p & _ & _ & -> & _). by rewrite mustFindPane_out.
  - unfold SwapPanes, bindM, get. rewrite (proj2 (Z.eqb_neq _ _) Hne), El1, El2. simpl. unfold IsUltra.
    rewrite (inv_noUltra w Hi). by rewrite mustFindPane_out.
Qed.

(** A pane opens, or nothing that is counted changes. *)
Definition mayOpen (new : Z) (keep : bool) (w w' : Window) : Prop :=
  WindowInv w' /\ working (panes w') /\
  ((treePanes (Root w') ≡ₚ new :: treePanes (Root w) /\ ActivePane w' = (if keep then ActivePane w else Some new)) \/
   (treePanes (Root w') = treePanes (Root w) /\ ActivePane w' = ActivePane w)).

Lemma rootSplitOutcome_opens t dir new keep w w' res : rootSplitOutcome t dir new keep w w' res -> mayOpen new keep w w'.
Proof.
  intros (Hi & Hw & target & _ & H). cbv zeta in H. split_and!; [done..|].
  destruct (_ <=? _); [left|right]; [by destruct H as (_ & ? & ?)|by destruct H as (_ & -> & ?)].
Qed.

Lemma SplitRoot_opens dir new opts w :
  WindowInv w -> working (panes w) -> 0 < new -> new ∉ treePanes (Root w) -> rootSplitFits dir new w ->
  mayOpen new (KeepFocus opts) w (SplitRootWithOptions dir new opts w).1.
Proof.
  intros Hi Hw Hn Hni Hf. pose proof (SplitRootWithOptions_ok dir new opts w Hi Hw Hn Hni Hf) as H.
  destruct (SplitRootWithOptions dir new opts w). by eapply rootSplitOutcome_opens.
Qed.

(** Splitting at any pane: the lead pane of a window of one pane becomes the lead
    column, an anchored one stands for the columns beside it or is refused. *)
Lemma SplitPane_opens id dir new opts w :
  WindowInv w -> working (panes w) -> 0 < new -> new ∉ treePanes (Root w) ->
  (IsLeadPane id w = true -> TreatLeadPaneAsWindowRef opts = true -> rootSplitFits dir new w) ->
  mayOpen new (KeepFocus opts) w (SplitPaneWithOptions id dir new opts w).1.
Proof.
  intros Hi Hw Hn Hni Hf. unfold SplitPaneWithOptions, bindM, get.
  destruct (unzoomIf_ok (negb (KeepFocus opts)) w Hw) as (ps & z & E & Hps & Hz & _). rewrite E.
  set (w1 := setPanes ps (setZoomed z w)).
  assert (WindowInv w1) as Hi1 by (by apply unzoomed_inv).
  assert (mayOpen new (KeepFocus opts) w w1) as Hsame by (split_and!; [done|done|by right]).
  assert (IsUltra w1 = false) as EU by (unfold IsUltra; simpl; by rewrite (inv_noUltra w Hi)). rewrite EU.
  destruct (hasPendingLead w1 && (id =? LeadPaneID w1)) eqn:Ep.
  { apply andb_prop in Ep as [Ep _]. apply (rootSplitOutcome_opens [] SplitVertical _ _ _ _ (materializePendingLead new opts w1).2).
    pose proof (splitRootAt_ok [] SplitVertical new false opts (Root w1) w1 Hi1 Hps eq_refl Hn Hni) as H.
    change (materializePendingLead new opts) with (splitRootAt [] SplitVertical new false opts).
    destruct (splitRootAt _ _ _ _ _ w1). apply H. apply splitAtFits_intro. right. by apply hasPendingLead_anchored. }
  destruct (IsLeadPane id w1) eqn:El.
  - destruct (TreatLeadPaneAsWindowRef opts); [|done]. destruct (logicalRoot_cell w1) as (target & Ht).
    pose proof (splitRootAt_ok (logicalRoot w1) dir new false opts target w1 Hi1 Hps Ht Hn Hni) as H.
    change (splitRootTargetWithOptions (logicalRoot w1) dir new opts) with (splitRootAt (logicalRoot w1) dir new false opts).
    destruct (splitRootAt _ _ _ _ _ w1) as [w' res]. eapply rootSplitOutcome_opens, H. by apply Hf.
  - destruct (decide (id ∈ treePanes (Root w))) as [Hid|Hid]; [|by rewrite mustFindPane_out].
    pose proof (SplitPaneWithOptions_ok id dir new opts w Hi Hw Hid El Hn Hni) as H.
    unfold SplitPaneWithOptions, bindM, get in H. rewrite E in H. fold w1 in H. rewrite EU, Ep, El in H.
    destruct (mustFindPane_in id w1 Hid) as (p & _ & _ & Em & _). rewrite Em in H |- *.
    destruct (splitCellWithOptions p dir new opts w1) as [w3 res]. cbn [fst]. destruct H as (? & ? & r & _ & H). split_and!; [done..|].
    destruct (_ <=? _); [left|right]; [by destruct H as (_ & ? & ?)|by destruct H as (_ & -> & ?)].
Qed.

(** Closing any pane. *)
Lemma ClosePane_any id w : WindowInv w -> working (panes w) -> closeFits id w ->
  let w' := (ClosePane id w).1 in
  w' = w \/ closeOutcome id w w' (Ok tt) /\ 1 < lenZ (treePanes (Root w)).
Proof.
  intros Hi Hw Hf. destruct (decide (id ∈ treePanes (Root w))) as [Hid|Hid].
  - pose proof (ClosePane_ok id w Hi Hw Hid Hf) as H. destruct (ClosePane id w) as [w' res]. simpl.
    unfold closeOutcome in *. destruct (Z.leb_spec (lenZ (treePanes (Root w))) 1) as [?|Hl].
    + left. by destruct H as (_ & _ & _ & ->).
    + right. split; [|done]. destruct H as (? & ? & _ & ? & ? & ? & ?). by split_and!.
  - left. unfold ClosePane, bindM, get, IsUltra. rewrite (inv_noUltra w Hi). by rewrite mustFindPane_out.
Qed.

(** ** Dragging a border *)

Lemma skeleton_withRect r c : skeleton (withRect r c) = skeleton c.
Proof. by destruct c. Qed.

Lemma resizeInner_keeps axis c size : wf c -> minSubtreeSize axis c <= size ->
  resizedAlong axis c (resizeInner (setAxisSize axis size c)) size.
Proof.
  intros Hwf Hm. set (c1 := setAxisSize axis size c).
  assert (skeleton c1 = skeleton c) as Hs by apply skeleton_withRect.
  assert (shaped c1) as Hsh by (apply skeleton_shaped; rewrite Hs; by apply skeleton_shaped, wf_shaped).
  assert (axisSize axis c1 = size /\ axisSize (other axis) c1 = axisSize (other axis) c) as [E1 E2]
    by (destruct axis, c; done).
  assert (cX c1 = cX c /\ cY c1 = cY c) as [EX EY] by (destruct axis, c; done).
  unfold resizeInner. destruct (IsLeaf c1) eqn:El.
  - split; [|done]. split_and!; [|done..]. destruct c as [r d|]; [|by destruct axis].
    inversion_clear Hwf. unfold c1, setAxisSize. simpl in *. destruct axis; constructor; simpl; done.
  - destruct (ResizeSubtree_spec c1 (cW c1) (cH c1) Hsh) as (? & _ & Hs2 & HX & HY & HW & HH).
    pose proof (wf_min_le (other axis) c Hwf) as Ho. rewrite <- E2 in Ho.
    rewrite (same_skeleton_min SplitVertical c1 c) in HW by auto with amux.
    rewrite (same_skeleton_min SplitHorizontal c1 c) in HH by auto with amux.
    unfold resizedAlong, keeps, axisSize, cW, cH in *.
    destruct axis; simpl in *; split_and!; (done || congruence || lia).
Qed.

Lemma updNth_insert {A} (f : A -> A) i l x : l !! i = Some x -> updNth f i l = <[i := f x]> l.
Proof.
  intros H. apply list_eq. intros j. rewrite lookup_updNth. case_decide; [subst j|].
  - rewrite list_lookup_insert_eq by (by eapply lookup_lt_Some). by rewrite H.
  - by rewrite list_lookup_insert_ne.
Qed.

(** The border moves as far as the panes on its two sides allow. *)
Definition borderFits (x y delta : Z) (w : Window) : Prop :=
  forall hit r dir ch left right,
    FindBorderNear x y (Root w) = Some hit -> cellAt (hitParent hit) (Root w) = Some (Node r dir ch) ->
    ch !! hitLeft hit = Some left -> ch !! S (hitLeft hit) = Some right ->
    let d := clampDelta (axisSize dir left) (axisSize dir right) delta in
    minSubtreeSize dir left <= axisSize dir left + d /\ minSubtreeSize dir right <= axisSize dir right - d.

Lemma moveBorder_spec dir i d ch left right :
  Forall wf ch -> ch !! i = Some left -> ch !! S i = Some right ->
  minSubtreeSize dir left <= axisSize dir left + d -> minSubtreeSize dir right <= axisSize dir right - d ->
  Forall2 (keeps dir) ch (moveBorder dir i d ch) /\
  sumZ (map (axisSize dir) (moveBorder dir i d ch)) = sumZ (map (axisSize dir) ch).
Proof.
  intros HF Hl Hr Ml Mr. unfold moveBorder. rewrite (updNth_insert _ i ch left) by done.
  destruct (resizeInner_keeps dir left (axisSize dir left + d)) as [Kl El]; [by eapply Forall_lookup_1|done|].
  destruct (resizeInner_keeps dir right (axisSize dir right - d)) as [Kr Er]; [by eapply Forall_lookup_1|done|].
  set (left' := resizeInner (setAxisSize dir (axisSize dir left + d) left)) in *.
  assert (<[i := left']> ch !! S i = Some right) as Hr' by (rewrite list_lookup_insert_ne by lia; done).
  rewrite (updNth_insert _ (S i) _ right) by done. split.
  - eapply Forall2_keeps_insert; [|done|done]. eapply Forall2_keeps_insert; [by apply Forall2_keeps_refl|done|done].
  - rewrite (sum_insert _ _ right) by done. rewrite (sum_insert _ _ left) by done. lia.
Qed.

Lemma FindBorderNear_Some x y c h : FindBorderNear x y c = Some h -> exists x' y', FindBorderAt x' y' c = Some h.
Proof.
  unfold FindBorderNear. induction borderOffsets as [|o l IH]; [done|]. simpl.
  destruct (FindBorderAt _ _ c) eqn:E; [|done]. intros [= <-]. eauto.
Qed.

Lemma ResizeBorder_ok x y delta w :
  WindowInv w -> working (panes w) -> borderFits x y delta w -> resized w (ResizeBorder x y delta w).1.
Proof.
  intros Hi Hw Hf. pose proof Hi as [HU (Hwf & _) _ _ _]. unfold ResizeBorder, IsUltra. rewrite HU.
  destruct (FindBorderNear x y (Root w)) as [hit|] eqn:Eh; [|done]. destruct (delta =? 0); [done|].
  destruct (FindBorderNear_Some _ _ _ _ Eh) as (x' & y' & Hat).
  destruct (FindBorderAt_sound _ _ _ _ Hat) as (r & ch & left & right & Hc & Hl & Hr & _).
  assert (forall i c, ch !! i = Some c -> cellAt (hitParent hit ++ [i]) (Root w) = Some c) as Hchild.
  { intros i c Hi'. rewrite cellAt_app, Hc. simpl. by rewrite Hi'. }
  cbv zeta. rewrite (Hchild _ _ Hl), (Hchild _ _ Hr).
  pose proof (Hf hit r _ ch left right Eh Hc Hl Hr) as [Ml Mr].
  set (d := clampDelta _ _ delta) in *. destruct (d =? 0); [done|].
  pose proof (wf_cellAt _ _ _ Hwf Hc) as Hwc.
  destruct (moveBorder_spec _ _ d ch left right (wf_Children _ Hwc) Hl Hr Ml Mr) as [HK HS].
  destruct (resized_siblings r _ ch _ Hwc HK HS) as [Hw' Hsk].
  set (f := fun c => withChildren (moveBorder (hitDir hit) (hitLeft hit) d (Children c)) c).
  destruct (wf_updAt f (hitParent hit) (Root w) _ Hwf Hc) as [Hwf' _]; [done|done|].
  eapply skeleton_inv; [done|done|exact Hwf'| | |apply resizePTYs_pty].
  - by eapply cellRect_updAt.
  - by eapply sameSkeleton_updAt.
Qed.

(** ** Setting the lead *)

(** The rest of the layout has room beside the lead's column, which is the pane's
    width held between a fifth (at least 20 cells) and four fifths of the window. *)
Definition leadFits (id : Z) (w : Window) : Prop :=
  forall p, FindPane id (Root w) = Some p -> p <> [] ->
    let leadW := Z.max (Z.min (rW (rectAt p w)) (Z.quot (Width w * 4) 5)) (Z.max 20 (Z.quot (Width w) 5)) in
    minSubtreeSize SplitVertical (Root (closeCell p w).1) <= Width w - leadW - 1.

(** The lead changes and nothing else that is counted. *)
Definition leadSet (id : Z) (w w' : Window) (res : result WindowError unit) : Prop :=
  rearranged w w' /\ match res with Ok _ => LeadPaneID w' = id | Err _ => LeadPaneID w' = LeadPaneID w end.

Lemma setLeadID_inv id w : WindowInv w -> id ∈ treePanes (Root w) -> WindowInv (setLeadID id w).
Proof. intros [] Hid. constructor; simpl; auto. by right. Qed.

Lemma FindPane_in id c p : FindPane id c = Some p -> id ∈ treePanes c.
Proof. intros (r & d & Hc & Hd)%FindPane_Some. apply elem_of_treePanes. exists d. split; [by eapply cellAt_leaf_pane|done]. Qed.

(** A leaf as the lead's column beside the rest. *)
Lemma anchored_tree width height id leadW rest ids :
  wf rest -> cellPanes rest = map Some ids -> minSubtreeSize SplitHorizontal rest <= height ->
  20 <= leadW -> minSubtreeSize SplitVertical rest <= width - leadW - 1 ->
  let root := Node (mkRect 0 0 width height) SplitVertical
    [NewLeaf (Some id) 0 0 leadW height; ResizeSubtree rest (width - leadW - 1) height] in
  wf root /\ cellPanes root = map Some (id :: ids).
Proof.
  intros Hwf HP HH HL HW. destruct (resized_fit rest (width - leadW - 1) height Hwf HW HH) as (Hw' & EW & EH & Hsk).
  pose proof (minSubtreeSize_ge SplitHorizontal rest (wf_shaped _ Hwf)) as Hm. unfold PaneMinSize in Hm.
  cbv zeta. split.
  - constructor; [simpl; lia| | |].
    + apply Forall_cons. split; [constructor; simpl; unfold PaneMinSize; lia|by apply Forall_singleton].
    + apply Forall_cons. split; [done|]. apply Forall_singleton. exact EH.
    + unfold axisSize, cW in *. simpl in *. lsum.
  - rewrite cellPanes_node. simpl. rewrite app_nil_r, (same_skeleton_cellPanes _ _ Hsk), HP. done.
Qed.

Lemma anchorLead_ok id p r d w :
  WindowInv w -> working (panes w) -> p <> [] -> FindPane id (Root w) = Some p ->
  cellAt p (Root w) = Some (Leaf r d) -> Pane d = Some id -> leadFits id w ->
  leadSet id w (setLeadID id (resizePTYs (anchorLead id (rW r) (closeCell p (setLeadID 0 w)).1))) (Ok tt).
Proof.
  intros [HU Hok (a & Ha & Hain) HZ HL] Hw Hne HF Hc Hd Hfit. specialize (Hfit p HF Hne). cbv zeta in Hfit.
  unfold rectAt in Hfit. rewrite Hc in Hfit. simpl cellRect in Hfit.
  destruct (closeCell_ok p w id r d Hok Hne Hc Hd) as (rest & q & E & (Hwf & _ & Hr & HP & Hnd & Hpos) & HPerm).
  assert ((closeCell p (setLeadID 0 w)).1 = setRoot rest (setLeadID 0 w)) as ->.
  { unfold closeCell in *. simpl. destruct (Close (Root w) p) as [root' q']. by injection E as <- _. }
  rewrite E in Hfit. simpl in Hfit. unfold anchorLead. simpl Width. simpl Height. simpl Root.
  set (leadW := Z.max _ (Z.max 20 _)) in *.
  pose proof (minSubtreeSize_ge SplitVertical rest (wf_shaped _ Hwf)) as Hm. unfold PaneMinSize in Hm.
  rewrite (proj2 (Z.ltb_ge (Width w - leadW - 1) 1)) by lia.
  pose proof (wf_min_le SplitHorizontal rest Hwf) as HH. unfold axisSize in HH. rewrite Hr in HH. simpl in HH.
  destruct (anchored_tree (Width w) (Height w) id leadW rest (treePanes rest) Hwf HP HH ltac:(lia) Hfit) as [Hwf' HP'].
  set (root := Node _ _ _) in *. destruct Hok as (_ & _ & _ & _ & Hnd0 & Hpos0). rewrite HPerm in Hnd0, Hpos0.
  set (w3 := setRoot (FixOffsets root) _).
  destruct (resizePTYs_pty w3) as [E3 Hps3].
  destruct (finish_inv (resizePTYs w3) w3 root (id :: treePanes rest)) as [Hi Ht]; try done.
  - by rewrite HP'.
  - exists a. split; [done|]. by rewrite <- HPerm.
  - simpl. rewrite <- HPerm. exact HZ.
  - by left.
  - unfold leadSet, rearranged. split_and!; [|by apply Hps3| |simpl; by rewrite E3|done].
    + apply setLeadID_inv; [done|]. rewrite Ht. apply list_elem_of_here.
    + simpl. by rewrite Ht, HPerm.
Qed.

Lemma SetLead_ok id w :
  WindowInv w -> working (panes w) -> leadFits id w ->
  let '(w', res) := SetLead id w in leadSet id w w' res.
Proof.
  intros Hi Hw Hfit. unfold SetLead, bindM, get. destruct (Z.eqb_spec (LeadPaneID w) id) as [El|_]; [by split|].
  destruct (unzoomIf_ok true w Hw) as (ps & z & -> & Hps & Hz & _).
  set (w1 := setPanes ps (setZoomed z w)). assert (WindowInv w1) as Hi1 by (by apply unzoomed_inv).
  assert (IsUltra w1 = false) as -> by (unfold IsUltra; simpl; by rewrite (inv_noUltra w Hi)).
  assert (rearranged w w1) as Hun by done.
  destruct (FindPane id (Root w1)) as [p|] eqn:HF; [|by split].
  pose proof (FindPane_in _ _ _ HF) as Hid.
  assert (leadSet id w (setLeadID id w1) (Ok tt)) as Hset by (split; [split_and!; [by apply setLeadID_inv|done..]|done]).
  destruct (Root w1) as [rl dl|rn dir ch] eqn:ER; [exact Hset|].
  destruct (match dir, ch with SplitVertical, [Leaf _ d; _] => bool_decide (Pane d = Some id) | _, _ => false end); [exact Hset|].
  unfold modify. rewrite <- ER in HF. destruct (FindPane_Some _ _ _ HF) as (r & d & Hc & Hd).
  assert (rW (rectAt p w1) = rW r) as -> by (unfold rectAt; by rewrite Hc).
  assert (p <> []) as Hne by (intros ->; rewrite ER in Hc; done).
  refine (anchorLead_ok id p r d w1 Hi1 Hps Hne HF Hc Hd _). intros p' HF' Hne'. specialize (Hfit p' HF' Hne').
  unfold closeCell in *. simpl in *. by destruct (Close (Root w) p').
Qed.

(** ** Moving a pane: out of its place, then back in *)

Lemma restoreActive_ok a id w :
  WindowInv w -> working (panes w) -> a ∈ treePanes (Root w) -> id ∈ treePanes (Root w) ->
  refocused w (restoreActivePaneByID a id w) /\ ActivePane (restoreActivePaneByID a id w) = Some a.
Proof.
  intros Hi Hw Ha Hid. unfold restoreActivePaneByID. destruct (Z.eqb_spec a id) as [->|_].
  { destruct (setActive_ok id w Hi Hw Hid) as (? & ? & _). done. }
  destruct (FindPane_is_Some a _ Ha) as [p ->]. rewrite bool_decide_eq_true_2 by done.
  pose proof Hi as [_ (_ & _ & _ & _ & _ & Hpos) _ _ _]. rewrite Forall_forall in Hpos.
  specialize (Hpos a Ha). rewrite (proj2 (Z.eqb_neq a 0)) by lia. simpl.
  destruct (setActive_ok a w Hi Hw Ha) as (? & ? & _). done.
Qed.

(** The window without the pane that moves. *)
Definition takenOut (id : Z) (w : Window) : Window := (ClosePane id (unzoomIf true w).1).1.

Lemma takenOut_ok id w :
  WindowInv w -> working (panes w) -> id ∈ treePanes (Root w) -> closeFits id w ->
  exists w0, unzoomIf true w = (w0, Ok tt) /\ rearranged w w0 /\
    ((ClosePane id w0 = (w0, Err errLastPane)) \/
     (ClosePane id w0 = (takenOut id w, Ok tt) /\ WindowInv (takenOut id w) /\ working (panes (takenOut id w)) /\
      treePanes (Root w) ≡ₚ id :: treePanes (Root (takenOut id w)))).
Proof.
  intros Hi Hw Hid Hf. unfold takenOut. destruct (unzoomIf_ok true w Hw) as (ps & z & -> & Hps & Hz & _).
  set (w0 := setPanes ps (setZoomed z w)). exists w0. split; [done|].
  assert (WindowInv w0) as Hi0 by (by apply unzoomed_inv). split; [done|]. cbn [fst].
  assert (closeFits id w0) as Hf0 by (by apply (closeFits_same id w)).
  pose proof (ClosePane_ok id w0 Hi0 Hps Hid Hf0) as H. destruct (ClosePane id w0) as [w1 res]. cbn [fst].
  destruct H as (Hi1 & Hw1 & H). destruct (_ <=? 1); [left; by destruct H as [-> ->]|right].
  by destruct H as (-> & HP & _).
Qed.

(** Put back next to the rest, with the focus where it was. *)
Lemma putBack_ok id a w w2 :
  WindowInv w -> working (panes w) -> ActivePane w = Some a -> WindowInv w2 -> working (panes w2) ->
  treePanes (Root w2) ≡ₚ treePanes (Root w) -> id ∈ treePanes (Root w) ->
  rearranged w (restoreActivePaneByID (activeID w) id w2).
Proof.
  intros Hi Hw Ha Hi2 Hw2 HP Hid. destruct (inv_active w Hi) as (a' & Ha' & Hain).
  rewrite Ha in Ha'. injection Ha' as <-. destruct (restoreActive_ok a id w2 Hi2 Hw2) as ((Hi3 & Hw3 & HR) & HA); [by rewrite HP..|].
  assert (activeID w = a) as -> by (unfold activeID; by rewrite Ha).
  split_and!; [done|done|by rewrite HR|by rewrite HA].
Qed.

(** The root has room for the pane once it is taken out. *)
Definition edgeFits (id : Z) (dir : SplitDir) (first : bool) (w : Window) : Prop :=
  closeFits id w /\ let w1 := takenOut id w in
  splitRootRequiredSize (logicalRootCell w1) dir <= splitAvailable (logicalRootCell w1) dir /\
  splitAtFits (logicalRoot w1) dir id first w1.

Lemma MovePaneToRootEdge_ok id dir first w :
  WindowInv w -> working (panes w) -> edgeFits id dir first w ->
  rearranged w (MovePaneToRootEdge id dir first w).1.
Proof.
  intros Hi Hw (Hcf & Hreq & Hsf). unfold MovePaneToRootEdge, bindM, get, IsUltra. rewrite (inv_noUltra w Hi).
  destruct (IsLeadPane id w); [done|]. destruct (_ <? _); [done|].
  destruct (decide (id ∈ treePanes (Root w))) as [Hid|Hid]; [|by rewrite mustFindPane_out].
  destruct (mustFindPane_in id w Hid) as (p & _ & _ & -> & _).
  destruct (takenOut_ok id w Hi Hw Hid Hcf) as (w0 & -> & Hun & [->|(-> & Hi1 & Hw1 & HP)]); [done|].
  set (w1 := takenOut id w) in *. unfold splitSubtreeRootWithOptions, bindM. cbn [KeepFocus defaultSplitOptions negb].
  destruct (unzoomIf_ok true w1 Hw1) as (ps & z & -> & Hps & Hz & _). set (w2 := setPanes ps (setZoomed z w1)).
  assert (WindowInv w2) as Hi2 by (by apply unzoomed_inv). destruct (logicalRoot_cell w1) as (target & Ht).
  pose proof Hi as [_ (_ & _ & _ & _ & Hnd & Hpos) (a & Ha & _) _ _]. rewrite HP in Hnd, Hpos.
  apply NoDup_cons in Hnd as [Hn _]. apply Forall_cons in Hpos as [Hpos _].
  pose proof (splitRootAt_ok (logicalRoot w1) dir id first defaultSplitOptions target w2 Hi2 Hps Ht Hpos Hn Hsf) as H.
  destruct (splitRootAt _ _ _ _ _ w2) as [w3 res]. destruct H as (Hi3 & Hw3 & target' & Ht' & H). cbv zeta in H.
  change (Root w2) with (Root w1) in Ht'. assert (target' = target) as -> by congruence.
  unfold logicalRootCell in Hreq. rewrite Ht in Hreq. unfold splitRootRequiredSize, splitAvailable in Hreq.
  rewrite (proj2 (Z.leb_le _ _) Hreq) in H. destruct H as (-> & HP3 & _).
  apply (putBack_ok id a w w3); try done. by rewrite HP3, HP.
Qed.

(** The target has room for two panes once the pane is taken out. *)
Definition intoFits (id target : Z) (dir : SplitDir) (w : Window) : Prop :=
  closeFits id w /\ forall r, paneRect target (takenOut id w) = Some r -> 2 * PaneMinSize + 1 <= rAxis dir r.

Lemma MovePaneIntoSplit_ok id target dir first w :
  WindowInv w -> working (panes w) -> intoFits id target dir w ->
  rearranged w (MovePaneIntoSplit id target dir first w).1.
Proof.
  intros Hi Hw (Hcf & Hroom). unfold MovePaneIntoSplit, bindM, get. destruct (Z.eqb_spec id target) as [|Hne]; [done|].
  unfold IsUltra. rewrite (inv_noUltra w Hi). destruct (_ || _); [done|].
  destruct (decide (id ∈ treePanes (Root w))) as [Hid|Hid]; [|by rewrite mustFindPane_out].
  destruct (mustFindPane_in id w Hid) as (p & _ & _ & -> & _).
  destruct (decide (target ∈ treePanes (Root w))) as [Htg|Htg]; [|by rewrite mustFindPane_out].
  destruct (mustFindPane_in target w Htg) as (tp & r0 & d0 & -> & _ & -> & _).
  destruct (negb _); [done|].
  destruct (takenOut_ok id w Hi Hw Hid Hcf) as (w0 & -> & Hun & [->|(-> & Hi1 & Hw1 & HP)]); [done|].
  set (w1 := takenOut id w) in *.
  assert (target ∈ treePanes (Root w1)) as Htg1.
  { rewrite HP in Htg. apply elem_of_cons in Htg as [?|?]; [congruence|done]. }
  destruct (mustFindPane_in target w1 Htg1) as (tp1 & r & d & -> & HF & Hc & Hd).
  assert (2 * PaneMinSize + 1 <= rAxis dir r) as Hle.
  { apply Hroom. unfold paneRect. rewrite HF. simpl. unfold rectAt. by rewrite Hc. }
  pose proof Hi1 as [_ (Hwf1 & _) _ _ _].
  destruct (splitWithOrder_correct (Root w1) tp1 dir id first r d Hwf1 Hc Hle) as (root' & q & Hs & Hwf' & Hr' & HP' & _).
  destruct (splitCellCore_ok w1 tp1 dir id first (fun _ _ => false) root' q Hw1 Hs) as (ps & -> & Hps).
  pose proof Hi as [_ (_ & _ & _ & _ & Hnd & Hpos) (a & Ha & _) _ _]. rewrite HP in Hnd, Hpos.
  apply NoDup_cons in Hnd as [Hn _]. apply Forall_cons in Hpos as [Hpos _].
  set (w2 := setPanes ps (setRoot (FixOffsets root') w1)).
  destruct (split_finish w1 root' id true _ Hi1 Hpos Hn Hwf' Hr' HP' eq_refl w2) as [Hi2 HP2]; [done|].
  apply (putBack_ok id a w w2); try done. by rewrite HP2, HP.
Qed.

(** One operation on a window of the classic layout, with what its caller
    guarantees: new panes have fresh IDs and the focus is asked for a pane of the
    window; and what the code does not check: the terminal is not made smaller
    than the layout's minimum, columns made equal beside an anchored lead, the
    columns beside a new lead, the panes beside a dragged border and the place a
    pane is moved to have room for what they hold. *)
Inductive wstep : Window -> Window -> Prop :=
| step_split id dir new opts w :
    0 < new -> new ∉ treePanes (Root w) ->
    (IsLeadPane id w = true -> TreatLeadPaneAsWindowRef opts = true -> rootSplitFits dir new w) ->
    wstep w (SplitPaneWithOptions id dir new opts w).1
| step_splitRoot dir new opts w :
    0 < new -> new ∉ treePanes (Root w) -> rootSplitFits dir new w ->
    wstep w (SplitRootWithOptions dir new opts w).1
| step_close id w : closeFits id w -> wstep w (ClosePane id w).1
| step_swap id1 id2 w : wstep w (SwapPanes id1 id2 w).1
| step_rotate forward w : wstep w (RotatePanes forward w).1
| step_move id target before w : wstep w (MovePane id target before w).1
| step_moveInGroup id up w : wstep w (movePaneWithinSplitGroup id up w).1
| step_moveInto id target dir first w :
    intoFits id target dir w -> wstep w (MovePaneIntoSplit id target dir first w).1
| step_moveToEdge id dir first w :
    edgeFits id dir first w -> wstep w (MovePaneToRootEdge id dir first w).1
| step_swapTree id1 id2 w : wstep w (SwapTree id1 id2 w).1
| step_resizePane id direction delta w : wstep w (ResizePane id direction delta w).1
| step_resizeBorder x y delta w : borderFits x y delta w -> wstep w (ResizeBorder x y delta w).1
| step_resize width height w :
    minSubtreeSize SplitVertical (Root w) <= width ->
    minSubtreeSize SplitHorizontal (Root w) <= height ->
    wstep w (Resize width height w)
| step_equalize widths heights opts w :
    (widths = true -> leadColumnsFit w) -> wstep w (EqualizeWithOptions widths heights opts w).1
| step_zoom id w : wstep w (Zoom id w).1
| step_focusPane id w : id ∈ treePanes (Root w) -> wstep w (FocusPane id w)
| step_focus direction w : wstep w (Focus direction w)
| step_setLead id w : leadFits id w -> wstep w (SetLead id w).1
| step_unsetLead w : wstep w (UnsetLead w).1.

Definition good (w : Window) : Prop := WindowInv w /\ working (panes w).

Lemma resultOf_good r w w' : good w -> resultOf r w w' -> good w'.
Proof. intros [Hi Hw]. destruct r; simpl; [by intros (? & ? & _)|by intros ->]. Qed.

(** Reads an operation's outcome off the lemma about it. *)
Ltac outcome H :=
  let P := fresh in
  pose proof H as P;
  match type of P with context [let '(_, _) := ?op in _] => destruct op as [? ?]; cbn [fst] end.

(** What an operation does to the panes and the focus: a pane opens, a pane
    closes, the panes change places, or the focus moves. *)
Definition stepOutcome (w w' : Window) : Prop :=
  (exists new keep, new ∉ treePanes (Root w) /\ mayOpen new keep w w') \/
  (exists id, closeOutcome id w w' (Ok tt) /\ 1 < lenZ (treePanes (Root w))) \/
  rearranged w w' \/ refocused w w'.

Lemma outcome_opens new keep w w' : new ∉ treePanes (Root w) -> mayOpen new keep w w' -> stepOutcome w w'.
Proof. intros. left. by exists new, keep. Qed.
Lemma outcome_rearranged w w' : rearranged w w' -> stepOutcome w w'.
Proof. intros. by right; right; left. Qed.
Lemma outcome_refocused w w' : refocused w w' -> stepOutcome w w'.
Proof. intros. by right; right; right. Qed.
Lemma outcome_resized w w' : resized w w' -> stepOutcome w w'.
Proof.
  intros (? & ? & HS & ?). apply outcome_rearranged. split_and!; [done..| |done].
  by rewrite (same_skeleton_panes _ _ HS).
Qed.
Lemma outcome_resultOf r w w' : good w -> resultOf r w w' -> stepOutcome w w'.
Proof. intros [Hi Hw] H. apply outcome_rearranged. destruct r; simpl in H; [done|]. by subst. Qed.

Lemma wstep_outcome w w' : good w -> wstep w w' -> stepOutcome w w'.
Proof.
  intros Hg Hs. pose proof Hg as [Hi Hw]. destruct Hs as
    [id dir new opts w Hn Hni Hf|dir new opts w Hn Hni Hf|id w Hf|id1 id2 w|fwd w|id t b w|id up w|id t dir f w Hf
    |id dir f w Hf|id1 id2 w|id dr dl w|x y dl w Hf|wd ht w HW HH|ws hs opts w Hf|id w|id w Hid|dr w|id w Hf|w].
  - eapply outcome_opens; [done|by apply SplitPane_opens].
  - eapply outcome_opens; [done|by apply SplitRoot_opens].
  - destruct (ClosePane_any id w Hi Hw Hf) as [->|H]; [by apply outcome_rearranged|right; left; by exists id].
  - by apply outcome_rearranged, SwapPanes_any.
  - destruct (RotatePanes_ok fwd w Hi Hw) as (w' & l1 & l3 & -> & H & _). by apply outcome_rearranged.
  - outcome (MovePane_ok id t b w Hi Hw). by eapply outcome_resultOf.
  - outcome (movePaneWithinSplitGroup_ok id up w Hi Hw). by eapply outcome_resultOf.
  - by apply outcome_rearranged, MovePaneIntoSplit_ok.
  - by apply outcome_rearranged, MovePaneToRootEdge_ok.
  - outcome (SwapTree_ok id1 id2 w Hi Hw). by eapply outcome_resultOf.
  - outcome (ResizePane_ok id dr dl w Hi Hw). by apply outcome_resized.
  - by apply outcome_resized, ResizeBorder_ok.
  - destruct (Resize_ok wd ht w Hi Hw HW HH) as [H _]. by apply outcome_resized.
  - outcome (EqualizeWithOptions_ok ws hs opts w Hi Hw Hf). destruct H as [H _]. by apply outcome_resized.
  - outcome (Zoom_ok id w Hi Hw). destruct H as [H _]. by apply outcome_refocused.
  - destruct (FocusPane_ok id w Hi Hw Hid) as [H _]. by apply outcome_refocused.
  - by apply outcome_refocused, Focus_ok.
  - outcome (SetLead_ok id w Hi Hw Hf). destruct H as [H _]. by apply outcome_rearranged.
  - outcome (UnsetLead_ok w Hi). apply outcome_rearranged.
    destruct (LeadPaneID w =? 0); [by destruct H as [_ ->]|]. by destruct H as (_ & -> & ?).
Qed.

Lemma wstep_good w w' : good w -> wstep w w' -> good w'.
Proof.
  intros Hg Hs. destruct (wstep_outcome w w' Hg Hs) as [(n & k & _ & ? & ? & _)|[(id & (? & ? & _) & _)|[(? & ? & _)|(? & ? & _)]]];
    done.
Qed.

Lemma NewWindow_good pane width height ps n :
  0 < pane -> PaneMinSize <= width -> PaneMinSize <= height -> working ps ->
  good (NewWindow pane width height ps n).
Proof.
  intros Hp HW HH Hps. split; [|done]. constructor; simpl; [done| | |by left|by left].
  - unfold treeOk. split_and!; try done; [by constructor|apply NoDup_singleton|by apply Forall_singleton].
  - exists pane. split; [done|]. apply list_elem_of_here.
Qed.

Lemma reachable_good w w' : good w -> rtc wstep w w' -> good w'.
Proof. intros Hg. induction 1 as [|w1 w2 w3 Hs _ IH]; [done|]. apply IH. by eapply wstep_good. Qed.
