(* ===== verification/WindowProps.v ===== *)
(** * Properties of windows

    The reachable states of a window outside the ultra layout, the abstract
    view they refine, and what the single operations promise. *)

From stdpp Require Import gmap.
From S2P Require Import Prelude LayoutSizes LayoutTree LayoutFacts LayoutEdit LayoutTiling WindowState Ultra WindowOps WindowResize WindowFacts.
From S2P Require Import WindowMoves WindowSizing WindowSteps.

(** ** A concrete window *)

Definition sampleRoot : LayoutCell :=
  FixOffsets (Node (mkRect 0 0 40 13) SplitVertical
    [NewLeaf (Some 1) 0 0 19 13;
     Node (mkRect 0 0 20 13) SplitHorizontal [NewLeaf (Some 2) 0 0 20 6; NewLeaf (Some 3) 0 0 20 6]]).
Definition sample : Window := mkWindow sampleRoot (Some 1) 40 13 0 0 None None ∅ 0.

Lemma sample_inv : WindowInv sample.
Proof.
  constructor; [done| | |by left|by left].
  - split_and!; try done; [by apply wfb_sound| |by repeat constructor].
    apply (bool_decide_unpack _). by vm_compute.
  - exists 1. split; [done|]. apply (bool_decide_unpack _). by vm_compute.
Defined.

Lemma sample_working : working (panes sample).
Proof. apply map_Forall_empty. Defined.

Lemma sample_good : good sample.
Proof. split; [apply sample_inv|apply sample_working]. Defined.

Lemma in_sample id : id = 1 \/ id = 2 \/ id = 3 -> id ∈ treePanes (Root sample).
Proof. intros [->|[->| ->]]; apply (bool_decide_unpack _); by vm_compute. Defined.

(** ** The abstract view *)

(** What the user sees of a window: which panes there are and which has the
    focus. *)
Record View : Type := mkView { vPanes : gset Z; vFocus : option Z }.

Definition view (w : Window) : View := mkView (list_to_set (treePanes (Root w))) (ActivePane w).

(** The moves of the abstract window. *)
Inductive vstep : View -> View -> Prop :=
| v_open id v focus :
    id ∉ vPanes v -> focus = Some id \/ focus = vFocus v ->
    vstep v (mkView ({[id]} ∪ vPanes v) focus)
| v_close id v focus :
    id ∈ vPanes v -> focus ∈ vPanes v -> focus <> id ->
    (vFocus v <> Some id -> vFocus v = Some focus) ->
    vstep v (mkView (vPanes v ∖ {[id]}) (Some focus))
| v_focus id v : id ∈ vPanes v -> vstep v (mkView (vPanes v) (Some id))
| v_stay v : vstep v v.

Lemma view_same w w' :
  treePanes (Root w') ≡ₚ treePanes (Root w) -> ActivePane w' = ActivePane w -> view w' = view w.
Proof. intros HP HA. unfold view. rewrite HA. f_equal. apply leibniz_equiv. by rewrite HP. Qed.

Lemma view_stays w w' :
  treePanes (Root w') ≡ₚ treePanes (Root w) -> ActivePane w' = ActivePane w -> vstep (view w) (view w').
Proof. intros HP HA. rewrite (view_same w w' HP HA). apply v_stay. Qed.

Lemma view_refocused w w' : refocused w w' -> vstep (view w) (view w').
Proof.
  intros ([_ _ (a & Ha & Hin) _ _] & _ & HR).
  assert (view w' = mkView (vPanes (view w)) (Some a)) as -> by (unfold view; rewrite HR, Ha; done).
  apply v_focus. simpl. rewrite elem_of_list_to_set. by rewrite <- HR.
Qed.

Lemma view_rearranged w w' : rearranged w w' -> vstep (view w) (view w').
Proof. intros (_ & _ & HP & HA). rewrite (view_same w w' HP HA). apply v_stay. Qed.

Lemma view_resized w w' : resized w w' -> vstep (view w) (view w').
Proof.
  intros (_ & _ & HS & HA). rewrite (view_same w w'); [apply v_stay| |done].
  by rewrite (same_skeleton_panes _ _ HS).
Qed.

Lemma view_resultOf r w w' : resultOf r w w' -> vstep (view w) (view w').
Proof. destruct r; simpl; [apply view_rearranged|intros ->; apply v_stay]. Qed.

Lemma view_opened w w' id focus :
  id ∉ treePanes (Root w) -> treePanes (Root w') ≡ₚ id :: treePanes (Root w) ->
  ActivePane w' = focus -> focus = Some id \/ focus = ActivePane w -> vstep (view w) (view w').
Proof.
  intros Hn HP HA Hf.
  assert (view w' = mkView ({[id]} ∪ vPanes (view w)) focus) as ->.
  { unfold view. rewrite HA. f_equal. apply leibniz_equiv. rewrite HP. done. }
  apply v_open; [|done]. simpl. by rewrite elem_of_list_to_set.
Qed.

Lemma view_closed w w' id :
  NoDup (treePanes (Root w)) -> treePanes (Root w) ≡ₚ id :: treePanes (Root w') -> WindowInv w' ->
  (ActivePane w <> Some id -> ActivePane w' = ActivePane w) -> vstep (view w) (view w').
Proof.
  intros Hnd HP [_ _ (a & Ha & Hin) _ _] HA. rewrite HP in Hnd. apply NoDup_cons in Hnd as [Hn _].
  assert (view w' = mkView (vPanes (view w) ∖ {[id]}) (Some a)) as ->.
  { unfold view. rewrite Ha. f_equal. simpl. apply leibniz_equiv. rewrite HP. simpl.
    assert (id ∉@{gset Z} list_to_set (treePanes (Root w'))) by (by rewrite elem_of_list_to_set). set_solver. }
  apply v_close; simpl.
  - rewrite elem_of_list_to_set, HP. apply list_elem_of_here.
  - rewrite elem_of_list_to_set, HP. by apply list_elem_of_further.
  - by intros ->.
  - intros Hne. rewrite <- Ha. symmetry. by apply HA.
Qed.

(** ** Reachable states *)

(** C1. The invariant of every window of the classic layout: starting from a new
    window whose panes' terminals accept every resize, after any sequence of splits,
    root splits, closes, swaps, rotations, moves (among siblings, in a column, next
    to a pane, to an edge of the root), tree swaps, pane, border and terminal
    resizes, equalizations, zooms, focus changes and lead changes the layout is
    well-formed and positioned, fills the window exactly, holds every pane exactly
    once, and the focused, zoomed and lead panes are panes of the window.  Each
    operation is taken where its caller's duties hold (a new pane has a fresh ID, a
    pane that is focused by its ID is in the window) and where there is the room the
    code does not check for: the terminal is not smaller than the layout's minimum,
    columns made equal beside an anchored lead, the columns beside a new lead, the
    two sides of a dragged border and the place a pane moves to can hold their
    panes.  Without that room the operations do break the invariant
    ([ClosePane_stale_children], [anchored_equalize_overflow], [SetLead_overflow],
    [ResizeBorder_overflow], [MovePaneIntoSplit_loses_pane]).  Moves to another column, splicing and the
    ultra layout are not among these operations. *)
Theorem reachable_invariant pane width height ps n w :
  0 < pane -> PaneMinSize <= width -> PaneMinSize <= height -> working ps ->
  rtc wstep (NewWindow pane width height ps n) w ->
  wf (Root w) /\ positioned (Root w) /\ cellRect (Root w) = mkRect 0 0 (Width w) (Height w) /\
  cellPanes (Root w) = map Some (treePanes (Root w)) /\ NoDup (treePanes (Root w)) /\
  (exists id, ActivePane w = Some id /\ id ∈ treePanes (Root w)) /\
  (ZoomedPaneID w = 0 \/ ZoomedPaneID w ∈ treePanes (Root w)) /\
  (LeadPaneID w = 0 \/ LeadPaneID w ∈ treePanes (Root w)).
Proof.
  intros Hp HW HH Hps Hr.
  destruct (reachable_good _ _ (NewWindow_good pane width height ps n Hp HW HH Hps) Hr)
    as [[_ (? & ? & ? & ? & ? & _) ? ? ?] _]. split_and!; done.
Qed.

(** A pane split off, made the lead, and a third column beside it. *)
Definition leadRun0 : Window := NewWindow 1 60 9 ∅ 0.
Definition leadRun1 : Window := (SplitPaneWithOptions 1 SplitVertical 2 defaultSplitOptions leadRun0).1.
Definition leadRun2 : Window := (SetLead 2 leadRun1).1.
Definition leadRun3 : Window := (SplitRootWithOptions SplitVertical 3 defaultSplitOptions leadRun2).1.
Definition leadRun4 : Window := (ClosePane 1 leadRun3).1.

Lemma leadRun_steps : rtc wstep leadRun0 leadRun4.
Proof.
  apply (rtc_l _ _ leadRun1).
  { apply step_split; [lia|apply (bool_decide_unpack _); by vm_compute|done]. }
  apply (rtc_l _ _ leadRun2).
  { apply step_setLead. intros p Hp _. vm_compute in Hp. injection Hp as <-. apply Z.leb_le. by vm_compute. }
  apply (rtc_l _ _ leadRun3).
  { apply step_splitRoot; [lia|apply (bool_decide_unpack _); by vm_compute|].
    intros _ target cell Ht Hc. vm_compute in Ht. injection Ht as <-. vm_compute in Hc. injection Hc as <-.
    vm_compute. by repeat constructor. }
  apply (rtc_l _ _ leadRun4); [|apply rtc_refl].
  apply step_close. right. intros p Hp. vm_compute in Hp. injection Hp as <-. vm_compute. by repeat constructor.
Defined.

Lemma reachable_invariant_witness :
  treePanes (Root leadRun4) = [2; 3] /\ LeadPaneID leadRun4 = 2 /\
  map (fun e => rW e.2.1) (Walk (Root leadRun4)) = [29; 30] /\
  wf (Root leadRun4) /\ positioned (Root leadRun4) /\
  cellRect (Root leadRun4) = mkRect 0 0 (Width leadRun4) (Height leadRun4) /\
  cellPanes (Root leadRun4) = map Some (treePanes (Root leadRun4)) /\ NoDup (treePanes (Root leadRun4)) /\
  (exists id, ActivePane leadRun4 = Some id /\ id ∈ treePanes (Root leadRun4)) /\
  (ZoomedPaneID leadRun4 = 0 \/ ZoomedPaneID leadRun4 ∈ treePanes (Root leadRun4)) /\
  (LeadPaneID leadRun4 = 0 \/ LeadPaneID leadRun4 ∈ treePanes (Root leadRun4)).
Proof.
  split; [by vm_compute|]. split; [by vm_compute|]. split; [by vm_compute|].
  apply (reachable_invariant 1 60 9 ∅ 0); [lia|done|done|apply sample_working|exact leadRun_steps].
Defined.

(** C12. Refinement: on a window of the classic layout that is in order, with
    terminals that accept every resize, each of the operations [wstep] lists (all
    but moves to another column and splicing), where it has the room [wstep] asks
    for, is one move of the abstract window: a pane opens, a pane closes and the
    focus stays or falls on a remaining pane, the focus moves to an existing pane,
    or nothing the user counts changes. *)
Theorem steps_refine_view w w' :
  good w -> wstep w w' -> vstep (view w) (view w').
Proof.
  intros Hg Hs. pose proof Hg as [[_ (_ & _ & _ & _ & Hnd & _) _ _ _] _].
  destruct (wstep_outcome w w' Hg Hs) as [(new & keep & Hn & _ & _ & H)|[(id & (Hi' & _ & H) & Hl)|[H|H]]].
  - destruct H as [[HP HA]|[HP HA]]; [|apply view_stays; [by rewrite HP|done]].
    eapply (view_opened _ _ new); [done|done|done|]. destruct keep; auto.
  - rewrite (proj2 (Z.leb_gt _ _) Hl) in H. destruct H as (_ & HP & HA & _). by eapply view_closed.
  - by apply view_rearranged.
  - by apply view_refocused.
Qed.

Lemma steps_refine_view_witness :
  vstep (view sample) (view (ClosePane 2 sample).1).
Proof.
  apply steps_refine_view; [apply sample_good|]. apply step_close. left. by left.
Defined.

(** ** Splitting and closing *)



(** Splitting at the root (of the logical tree, or of the whole window while
    the lead waits for its column): it succeeds exactly when every pane keeps
    its minimum beside a new minimal one, and then no pane is lost. *)
Theorem SplitRoot_correct dir new opts w :
  WindowInv w -> working (panes w) -> 0 < new -> new ∉ treePanes (Root w) ->
  rootSplitFits dir new w ->
  let w' := (SplitRootWithOptions dir new opts w).1 in
  let res := (SplitRootWithOptions dir new opts w).2 in
  let dir' := if hasPendingLead w then SplitVertical else dir in
  WindowInv w' /\ working (panes w') /\
  exists target, cellAt (splitRootPath w) (Root w) = Some target /\
    let required := minSubtreeSize dir' target + 1 + PaneMinSize in
    if required <=? axisSize dir' target then
      res = Ok new /\ treePanes (Root w') ≡ₚ new :: treePanes (Root w) /\
      ActivePane w' = (if KeepFocus opts then ActivePane w else Some new)
    else res = Err (errRootNoSpace (axisSize dir' target) required) /\ Root w' = Root w /\
      ActivePane w' = ActivePane w.
Proof.
  intros Hi Hw Hn Hni Hd. pose proof (SplitRootWithOptions_ok dir new opts w Hi Hw Hn Hni Hd) as H.
  destruct (SplitRootWithOptions dir new opts w). exact H.
Qed.

Lemma SplitRoot_correct_witness :
  let w' := (SplitRootWithOptions SplitVertical 4 defaultSplitOptions sample).1 in
  let res := (SplitRootWithOptions SplitVertical 4 defaultSplitOptions sample).2 in
  let dir' := if hasPendingLead sample then SplitVertical else SplitVertical in
  WindowInv w' /\ working (panes w') /\
  exists target, cellAt (splitRootPath sample) (Root sample) = Some target /\
    let required := minSubtreeSize dir' target + 1 + PaneMinSize in
    if required <=? axisSize dir' target then
      res = Ok 4 /\ treePanes (Root w') ≡ₚ 4 :: treePanes (Root sample) /\
      ActivePane w' = (if KeepFocus defaultSplitOptions then ActivePane sample else Some 4)
    else res = Err (errRootNoSpace (axisSize dir' target) required) /\ Root w' = Root sample /\
      ActivePane w' = ActivePane sample.
Proof.
  apply SplitRoot_correct; [apply sample_inv|apply sample_working|lia| |by apply splitAtFits_intro; right].
  apply (bool_decide_unpack _). by vm_compute.
Defined.

(** C32. Closing a pane of a window of the classic layout that is in order, with
    terminals that accept every resize: the last pane is refused; otherwise exactly
    that pane leaves the layout, the focus moves only if it was on it, a zoom or a
    lead role on it ends, and the window stays in order.  When the close makes the
    columns beside an anchored lead equal again, each has to be wide enough for its
    panes: the code does not check it ([closeFits] is this condition; it holds of
    every window without an anchored lead, and of one whose columns were not equal
    before). *)
Theorem ClosePane_correct id w :
  WindowInv w -> working (panes w) -> id ∈ treePanes (Root w) -> closeFits id w ->
  let w' := (ClosePane id w).1 in
  let res := (ClosePane id w).2 in
  WindowInv w' /\ working (panes w') /\
  if lenZ (treePanes (Root w)) <=? 1 then res = Err errLastPane /\ w' = w
  else
    res = Ok tt /\ treePanes (Root w) ≡ₚ id :: treePanes (Root w') /\
    (ActivePane w <> Some id -> ActivePane w' = ActivePane w) /\
    ZoomedPaneID w' = (if ZoomedPaneID w =? id then 0 else ZoomedPaneID w) /\
    LeadPaneID w' = (if LeadPaneID w =? id then 0 else LeadPaneID w).
Proof.
  intros Hi Hw Hid Hl. pose proof (ClosePane_ok id w Hi Hw Hid Hl) as H.
  destruct (ClosePane id w). exact H.
Qed.

Lemma ClosePane_correct_witness :
  let w' := (ClosePane 1 sample).1 in
  let res := (ClosePane 1 sample).2 in
  WindowInv w' /\ working (panes w') /\
  if lenZ (treePanes (Root sample)) <=? 1 then res = Err errLastPane /\ w' = sample
  else
    res = Ok tt /\ treePanes (Root sample) ≡ₚ 1 :: treePanes (Root w') /\
    (ActivePane sample <> Some 1 -> ActivePane w' = ActivePane sample) /\
    ZoomedPaneID w' = (if ZoomedPaneID sample =? 1 then 0 else ZoomedPaneID sample) /\
    LeadPaneID w' = (if LeadPaneID sample =? 1 then 0 else LeadPaneID sample).
Proof.
  apply ClosePane_correct; [apply sample_inv|apply sample_working|apply in_sample; auto|left; by left].
Defined.

(** ** Moving panes *)

Lemma swapIds_involutive a b l : map (swapIds a b) (map (swapIds a b) l) = l.
Proof.
  rewrite map_map. apply map_id_on, Forall_forall. intros x _. unfold swapIds.
  destruct (Z.eqb_spec x a) as [->|]; [|destruct (Z.eqb_spec x b) as [->|]];
    repeat (match goal with |- context [?y =? ?z] => destruct (Z.eqb_spec y z) end); congruence.
Qed.

(** SwapPanes exchanges two panes and nothing else: the order of the panes
    is the old one with the two IDs exchanged, and swapping again restores it. *)
Theorem SwapPanes_correct id1 id2 w :
  WindowInv w -> working (panes w) -> id1 ∈ treePanes (Root w) -> id2 ∈ treePanes (Root w) ->
  id1 <> id2 -> IsLeadPane id1 w = false -> IsLeadPane id2 w = false ->
  exists w', SwapPanes id1 id2 w = (w', Ok tt) /\ rearranged w w' /\
    treePanes (Root w') = map (swapIds id1 id2) (treePanes (Root w)) /\
    map (swapIds id1 id2) (treePanes (Root w')) = treePanes (Root w).
Proof.
  intros Hi Hw H1 H2 Hne Hl1 Hl2.
  destruct (SwapPanes_ok id1 id2 w Hi Hw H1 H2 Hne Hl1 Hl2) as (w' & HS & Hr & HP).
  exists w'. split_and!; try done. by rewrite HP, swapIds_involutive.
Qed.

Lemma SwapPanes_correct_witness :
  exists w', SwapPanes 1 3 sample = (w', Ok tt) /\ rearranged sample w' /\
    treePanes (Root w') = map (swapIds 1 3) (treePanes (Root sample)) /\
    map (swapIds 1 3) (treePanes (Root w')) = treePanes (Root sample).
Proof.
  apply SwapPanes_correct; [apply sample_inv|apply sample_working|apply in_sample; auto|apply in_sample; auto
    |discriminate|reflexivity|reflexivity].
Defined.

Lemma rotated_inverse forward l : rotated (negb forward) (rotated forward l) = l.
Proof.
  destruct forward; simpl.
  - destruct (last l) as [x|] eqn:E; [|by apply last_None in E].
    apply last_Some in E as [l' ->]. by rewrite removelast_last.
  - destruct l as [|x l]; [done|]. rewrite last_snoc, removelast_last. done.
Qed.

(** RotatePanes moves every pane of the logical tree one cell on (or back),
    the one at the end to the other end, and leaves an anchored lead alone;
    rotating those panes the other way restores the order. *)
Theorem RotatePanes_correct forward w :
  WindowInv w -> working (panes w) ->
  let ids := treePanes (logicalRootCell w) in
  exists w' l1 l3, RotatePanes forward w = (w', Ok tt) /\ rearranged w w' /\
    treePanes (Root w) = l1 ++ ids ++ l3 /\
    treePanes (Root w') = l1 ++ rotated forward ids ++ l3 /\
    rotated (negb forward) (rotated forward ids) = ids.
Proof.
  intros Hi Hw ids. destruct (RotatePanes_ok forward w Hi Hw) as (w' & l1 & l3 & HR & Hr & H1 & H2).
  exists w', l1, l3. split_and!; try done. apply rotated_inverse.
Qed.

Lemma RotatePanes_correct_witness :
  let ids := treePanes (logicalRootCell sample) in
  exists w' l1 l3, RotatePanes true sample = (w', Ok tt) /\ rearranged sample w' /\
    treePanes (Root sample) = l1 ++ ids ++ l3 /\
    treePanes (Root w') = l1 ++ rotated true ids ++ l3 /\
    rotated (negb true) (rotated true ids) = ids.
Proof. apply RotatePanes_correct; [apply sample_inv|apply sample_working]. Defined.

Lemma insertAt_app {A} (x : A) l1 l2 : insertAt (length l1) x (l1 ++ l2) = l1 ++ x :: l2.
Proof. unfold insertAt. by rewrite take_app_length, drop_app_length. Qed.

Lemma insertAt_after {A} (x t : A) l1 l2 :
  insertAt (S (length l1)) x (l1 ++ t :: l2) = l1 ++ t :: x :: l2.
Proof.
  replace (S (length l1)) with (length (l1 ++ [t])) by (rewrite length_app; simpl; lia).
  rewrite (cons_middle t l1 l2), app_assoc, insertAt_app, <- app_assoc. done.
Qed.

Lemma split_two {A} (l : list A) i j a b :
  (i < j)%nat -> l !! i = Some a -> l !! j = Some b ->
  exists l1 l2 l3, l = l1 ++ a :: l2 ++ b :: l3 /\ i = length l1 /\ j = (length l1 + S (length l2))%nat.
Proof.
  intros Hij Ha Hb. apply list_elem_of_split_length in Ha as (l1 & r & -> & Hl1).
  rewrite lookup_app_r in Hb by lia. destruct (j - length l1)%nat as [|k] eqn:Ek; [lia|].
  simpl in Hb. apply list_elem_of_split_length in Hb as (l2 & l3 & -> & Hl2).
  exists l1, l2, l3. split_and!; [done|lia|lia].
Qed.

(** Reordering the children of a node (MovePane, MovePaneUp, MovePaneDown):
    the moved child ends up directly before, or directly after, the target, and
    all other children keep their order. *)
Theorem reorder_adjacent children i j before m t :
  i <> j -> children !! i = Some m -> children !! j = Some t ->
  exists l1 l2, delete i children = l1 ++ t :: l2 /\
    reorderLayoutChildren children i j before
      = if before then l1 ++ m :: t :: l2 else l1 ++ t :: m :: l2.
Proof.
  intros Hne Hi Hj. unfold reorderLayoutChildren. rewrite (proj2 (Nat.eqb_neq i j) Hne), Hi.
  destruct (Nat.ltb_spec i j) as [Hlt|Hge].
  - destruct (split_two children i j m t Hlt Hi Hj) as (l1 & l2 & l3 & -> & -> & ->).
    exists (l1 ++ l2), l3. rewrite delete_middle, app_assoc. split; [done|]. destruct before.
    + rewrite <- (insertAt_app m (l1 ++ l2) (t :: l3)). f_equal. rewrite length_app. lia.
    + rewrite <- insertAt_after. f_equal. rewrite length_app. lia.
  - destruct (split_two children j i t m ltac:(lia) Hj Hi) as (l1 & l2 & l3 & -> & -> & ->).
    exists l1, (l2 ++ l3).
    assert (delete (length l1 + S (length l2))%nat (l1 ++ t :: l2 ++ m :: l3) = l1 ++ t :: l2 ++ l3) as ->.
    { replace (length l1 + S (length l2))%nat with (length (l1 ++ t :: l2)) by (rewrite length_app; done).
      change (l1 ++ t :: l2 ++ m :: l3) with (l1 ++ (t :: l2) ++ m :: l3).
      rewrite app_assoc, delete_middle, <- app_assoc. done. }
    split; [done|]. destruct before.
    + by rewrite insertAt_app.
    + apply insertAt_after.
Qed.

Lemma reorder_adjacent_witness :
  let l := map (fun id => NewLeaf (Some id) 0 0 9 5) [1; 2; 3; 4] in
  exists l1 l2, delete 3%nat l = l1 ++ NewLeaf (Some 2) 0 0 9 5 :: l2 /\
    reorderLayoutChildren l 3 1 false
      = if false then l1 ++ NewLeaf (Some 4) 0 0 9 5 :: NewLeaf (Some 2) 0 0 9 5 :: l2
        else l1 ++ NewLeaf (Some 2) 0 0 9 5 :: NewLeaf (Some 4) 0 0 9 5 :: l2.
Proof. apply reorder_adjacent; [discriminate|reflexivity|reflexivity]. Defined.

(** ** Sizes *)

(** The child whose border moves: the last child moves the border before it. *)
Definition borderChild (idx n : nat) : nat := if (idx =? n - 1)%nat then (idx - 1)%nat else idx.

(** How far a border moves: exactly as far as asked or as the cells that give
    way have room for above their minimum sizes.  The cell that grows gains that
    much, the group keeps its total, and no cell changes across the axis. *)
Theorem resizeSiblings_exact axis idx change l :
  Forall wf l -> (2 <= length l)%nat -> (idx < length l)%nat -> change <> 0 ->
  let '(l', moved) := resizeSiblings axis idx change l in
  let g := borderChild idx (length l) in
  Forall2 (keeps axis) l l' /\ sumZ (map (axisSize axis) l') = sumZ (map (axisSize axis) l) /\
  if 0 <? change then
    moved = Z.min change (slack axis l (tailward (S g) (length l) ++ headward g)) /\
    forall c, l !! g = Some c -> exists c', l' !! g = Some c' /\ axisSize axis c' = axisSize axis c + moved
  else
    moved = Z.min (- change) (slack axis l (headward (S g))) /\
    forall c, l !! S g = Some c -> exists c', l' !! S g = Some c' /\ axisSize axis c' = axisSize axis c + moved.
Proof.
  intros HF Hn Hi Hc. unfold resizeSiblings. rewrite (proj2 (Nat.ltb_ge _ _) Hn).
  change (if (idx =? length l - 1)%nat then (idx - 1)%nat else idx) with (borderChild idx (length l)).
  assert (S (borderChild idx (length l)) < length l)%nat as Hg.
  { unfold borderChild. destruct (Nat.eqb_spec idx (length l - 1)); lia. }
  set (g := borderChild idx (length l)) in *. cbv zeta. destruct (Z.ltb_spec 0 change) as [H|H].
  - pose proof (resizePaneGrow_exact g axis change l HF ltac:(lia) ltac:(lia)) as He.
    pose proof (resizePaneGrow_spec g axis change l HF ltac:(lia)) as Hs.
    destruct (resizePaneGrow g axis change l). destruct Hs as [(? & ? & ?) _]. by split_and!.
  - pose proof (resizePaneShrink_exact g axis (- change) l HF Hg ltac:(lia)) as He.
    pose proof (resizePaneShrink_spec g axis (- change) l HF ltac:(lia)) as Hs.
    destruct (resizePaneShrink g axis (- change) l). destruct Hs as [(? & ? & ?) _]. by split_and!.
Qed.

Lemma resizeSiblings_exact_witness :
  let l := [NewLeaf (Some 1) 0 0 5 4; NewLeaf (Some 2) 6 0 3 4; NewLeaf (Some 3) 10 0 9 4] in
  let '(l', moved) := resizeSiblings SplitVertical 0 6 l in
  let g := borderChild 0 (length l) in
  Forall2 (keeps SplitVertical) l l' /\
  sumZ (map (axisSize SplitVertical) l') = sumZ (map (axisSize SplitVertical) l) /\
  if 0 <? 6 then
    moved = Z.min 6 (slack SplitVertical l (tailward (S g) (length l) ++ headward g)) /\
    forall c, l !! g = Some c -> exists c', l' !! g = Some c' /\
      axisSize SplitVertical c' = axisSize SplitVertical c + moved
  else
    moved = Z.min (- 6) (slack SplitVertical l (headward (S g))) /\
    forall c, l !! S g = Some c -> exists c', l' !! S g = Some c' /\
      axisSize SplitVertical c' = axisSize SplitVertical c + moved.
Proof.
  apply resizeSiblings_exact; [repeat (constructor; try (vm_compute; discriminate))|simpl; lia|simpl; lia|discriminate].
Defined.

(** ResizePane in a window: the layout stays in order and as large as the
    window, only sizes change, and an unchanged result means no cell moved. *)
Theorem ResizePane_correct id direction delta w :
  WindowInv w -> working (panes w) ->
  let w' := (ResizePane id direction delta w).1 in
  let ok := (ResizePane id direction delta w).2 in
  WindowInv w' /\ working (panes w') /\ skeleton (Root w') = skeleton (Root w) /\
  ActivePane w' = ActivePane w /\ Width w' = Width w /\ Height w' = Height w /\
  (ok = false -> Root w' = Root w) /\
  (ok = true -> 0 < delta /\ IsLeadPane id w = false /\ is_Some (directionChange direction delta)).
Proof.
  intros Hi Hw. pose proof (ResizePane_ok id direction delta w Hi Hw) as Hr.
  pose proof (ResizePane_frame id direction delta w Hi Hw) as Hf.
  destruct (ResizePane id direction delta w) as [w' ok]. destruct Hr as (? & ? & ? & ?).
  destruct Hf as (? & ? & ? & ?). by split_and!.
Qed.

Lemma ResizePane_correct_witness :
  let w' := (ResizePane 1 "right" 2 sample).1 in
  let ok := (ResizePane 1 "right" 2 sample).2 in
  WindowInv w' /\ working (panes w') /\ skeleton (Root w') = skeleton (Root sample) /\
  ActivePane w' = ActivePane sample /\ Width w' = Width sample /\ Height w' = Height sample /\
  (ok = false -> Root w' = Root sample) /\
  (ok = true -> 0 < 2 /\ IsLeadPane 1 sample = false /\ is_Some (directionChange "right" 2)).
Proof. apply ResizePane_correct; [apply sample_inv|apply sample_working]. Defined.

(** A terminal resize to a size the layout fits in gives exactly that window
    size, and keeps the panes, their order, the splits and the focus. *)
Theorem Resize_correct width height w :
  WindowInv w -> working (panes w) ->
  minSubtreeSize SplitVertical (Root w) <= width -> minSubtreeSize SplitHorizontal (Root w) <= height ->
  let w' := Resize width height w in
  WindowInv w' /\ working (panes w') /\ Width w' = width /\ Height w' = height /\
  cellRect (Root w') = mkRect 0 0 width height /\
  skeleton (Root w') = skeleton (Root w) /\ ActivePane w' = ActivePane w.
Proof.
  intros Hi Hw HW HH w'. destruct (Resize_ok width height w Hi Hw HW HH) as ((Hi' & ? & ? & ?) & HW' & HH').
  fold w' in Hi', HW', HH'. destruct (inv_treeOk w' Hi') as (_ & _ & Hr & _). rewrite HW', HH' in Hr. by split_and!.
Qed.

Lemma Resize_correct_witness :
  let w' := Resize 23 9 sample in
  WindowInv w' /\ working (panes w') /\ Width w' = 23 /\ Height w' = 9 /\
  cellRect (Root w') = mkRect 0 0 23 9 /\
  skeleton (Root w') = skeleton (Root sample) /\ ActivePane w' = ActivePane sample.
Proof.
  apply Resize_correct; [apply sample_inv|apply sample_working|vm_compute; discriminate|vm_compute; discriminate].
Defined.

(** Equalizing the heights of a column gives its leaves, from top to bottom,
    exactly the equal split of the column's height, and changes nothing else. *)
Theorem equalizeLeafHeights_correct c :
  wf c -> 1 < horizontalLeafCount c ->
  let c' := equalizeLeafHeights c in
  wf c' /\ cW c' = cW c /\ cH c' = cH c /\ skeleton c' = skeleton c /\
  leafHeights c' = equalSplitSizes (cH c) (horizontalLeafCount c).
Proof. intros Hwf Hn. exact (equalizeLeafHeights_spec c Hwf Hn). Qed.

Definition sampleColumn : LayoutCell :=
  Node (mkRect 0 0 20 20) SplitHorizontal
    [NewLeaf (Some 1) 0 0 20 4;
     Node (mkRect 0 5 20 15) SplitHorizontal [NewLeaf (Some 2) 0 5 20 9; NewLeaf (Some 3) 0 15 20 5]].

Lemma equalizeLeafHeights_correct_witness :
  let c' := equalizeLeafHeights sampleColumn in
  wf c' /\ cW c' = cW sampleColumn /\ cH c' = cH sampleColumn /\ skeleton c' = skeleton sampleColumn /\
  leafHeights c' = equalSplitSizes (cH sampleColumn) (horizontalLeafCount sampleColumn).
Proof. apply equalizeLeafHeights_correct; [by apply wfb_sound|reflexivity]. Defined.

(** Equalizing a window whose columns beside an anchored lead can be made equal
    keeps the layout in order, its panes and the focus, and reports no change only when nothing changed. *)
Theorem Equalize_correct widths heights opts w :
  WindowInv w -> working (panes w) -> (widths = true -> leadColumnsFit w) ->
  let w' := (EqualizeWithOptions widths heights opts w).1 in
  let changed := (EqualizeWithOptions widths heights opts w).2 in
  WindowInv w' /\ working (panes w') /\ skeleton (Root w') = skeleton (Root w) /\
  ActivePane w' = ActivePane w /\ (changed = false -> w' = w).
Proof.
  intros Hi Hw Hl. pose proof (EqualizeWithOptions_ok widths heights opts w Hi Hw Hl) as H.
  destruct (EqualizeWithOptions widths heights opts w). destruct H as ((? & ? & ? & ?) & ?). by split_and!.
Qed.

Lemma Equalize_correct_witness :
  let w' := (EqualizeWithOptions true true defaultSplitOptions sample).1 in
  let changed := (EqualizeWithOptions true true defaultSplitOptions sample).2 in
  WindowInv w' /\ working (panes w') /\ skeleton (Root w') = skeleton (Root sample) /\
  ActivePane w' = ActivePane sample /\ (changed = false -> w' = sample).
Proof. apply Equalize_correct; [apply sample_inv|apply sample_working|intros _; by apply leadColumnsFit_none]. Defined.

(** ** Zoom and focus *)

(** Zoom toggles: on the zoomed pane it ends the zoom, on another pane it
    zooms and focuses that pane; the layout is never changed, and on an error
    the focus stays. *)
Theorem Zoom_correct id w :
  WindowInv w -> working (panes w) ->
  let w' := (Zoom id w).1 in
  WindowInv w' /\ working (panes w') /\ Root w' = Root w /\
  match (Zoom id w).2 with
  | Ok _ =>
      if ZoomedPaneID w =? id then ZoomedPaneID w' = 0 /\ ActivePane w' = ActivePane w
      else ZoomedPaneID w' = id /\ ActivePane w' = Some id
  | Err _ => ActivePane w' = ActivePane w /\ (ZoomedPaneID w' = 0 \/ w' = w)
  end.
Proof.
  intros Hi Hw. pose proof (Zoom_ok id w Hi Hw) as H. destruct (Zoom id w).
  destruct H as ((? & ? & ?) & ?). by split_and!.
Qed.

Lemma Zoom_correct_witness :
  let w' := (Zoom 2 sample).1 in
  WindowInv w' /\ working (panes w') /\ Root w' = Root sample /\
  match (Zoom 2 sample).2 with
  | Ok _ =>
      if ZoomedPaneID sample =? 2 then ZoomedPaneID w' = 0 /\ ActivePane w' = ActivePane sample
      else ZoomedPaneID w' = 2 /\ ActivePane w' = Some 2
  | Err _ => ActivePane w' = ActivePane sample /\ (ZoomedPaneID w' = 0 \/ w' = sample)
  end.
Proof. apply Zoom_correct; [apply sample_inv|apply sample_working]. Defined.

(** Directional focus: the search finds nothing exactly when no other pane
    touches the search edge and overlaps the active pane; otherwise it takes the
    most recently active such pane, and the first in layout order among equals. *)
Theorem findDirectional_correct r direction wrap w :
  (forall id, id ∈ candidates r direction wrap w <->
     ActivePane w <> Some id /\
     exists p r' d, cellAt p (Root w) = Some (Leaf r' d) /\ Pane d = Some id /\
       isCandidate r r' direction wrap w = true) /\
  match findDirectional r direction wrap w with
  | None => candidates r direction wrap w = []
  | Some id =>
      exists l1 l2, candidates r direction wrap w = l1 ++ id :: l2 /\
        Forall (fun x => activePointOf x w < activePointOf id w) l1 /\
        Forall (fun x => activePointOf x w <= activePointOf id w) l2
  end.
Proof.
  split.
  - intros id. rewrite candidates_in. setoid_rewrite elem_of_Walk. done.
  - rewrite findDirectional_candidates.
    destruct (fold_left _ (candidates r direction wrap w) None) as [[id n]|] eqn:E; simpl.
    + by apply laterActive_first in E as (_ & ?).
    + by apply laterActive_none in E.
Qed.

(** ** Windows: inputs on which an operation leaves the layout out of order

    Each theorem runs an operation on a window in order and evaluates what it
    returns.  The sizes involved are small terminals or columns at their
    minimum size. *)

(** A window of the given size and tree, focused on pane 1. *)
Definition sampleWindow (width height lead : Z) (root : LayoutCell) : Window :=
  mkWindow (FixOffsets root) (Some 1) width height 0 lead None None ∅ 0.

Definition sampleLeaf (id w h : Z) : LayoutCell := NewLeaf (Some id) 0 0 w h.

(** The window's tree is well-formed and as large as the window. *)
Definition treeInOrder (w : Window) : bool :=
  wfb (Root w) && (cW (Root w) =? Width w) && (cH (Root w) =? Height w).

(** The width the children of the root need, separators included. *)
Definition usedWidth (w : Window) : Z :=
  sumZ (map cW (Children (Root w))) + (lenZ (Children (Root w)) - 1).

(** Pane 1 (6 wide) beside a column whose lower row is two panes of the
    minimum width (5 in all): the border cannot move right. *)
Definition borderWindow : Window := sampleWindow 12 7 0
  (Node (mkRect 0 0 12 7) SplitVertical
    [sampleLeaf 1 6 7;
     Node (mkRect 0 0 5 7) SplitHorizontal
       [sampleLeaf 2 5 3;
        Node (mkRect 0 0 5 3) SplitVertical [sampleLeaf 3 2 3; sampleLeaf 4 2 3]]]).

(** ResizeBorder clamps by the minimum of a single pane, not of the subtree:
    the columns then need 15 cells of the 12 there are. *)
Theorem ResizeBorder_overflow :
  treeInOrder borderWindow = true /\
  let '(w', ok) := ResizeBorder 6 0 3 borderWindow in
  ok = true /\ treeInOrder w' = false /\ usedWidth w' = 15 /\ Width w' = 12.
Proof. vm_compute. repeat split. Qed.

(** Four columns of a 14 wide window; pane 2 (5 wide) can be split. *)
Definition moveWindow : Window := sampleWindow 14 7 0
  (Node (mkRect 0 0 14 7) SplitVertical
    [sampleLeaf 1 2 7; sampleLeaf 2 5 7; sampleLeaf 3 2 7; sampleLeaf 4 2 7]).

(** MovePaneIntoSplit checks the target before it removes the source; removing
    the source re-divides the columns and the target no longer has room.  The
    call fails and the moved pane is gone from the layout. *)
Theorem MovePaneIntoSplit_loses_pane :
  treeInOrder moveWindow = true /\
  let '(w', res) := MovePaneIntoSplit 1 2 SplitVertical false moveWindow in
  res = Err (errLayout (errNoSpace 4 5)) /\ treePanes (Root w') = [2; 3; 4].
Proof. vm_compute. repeat split. Qed.

(** A column of two panes that is full (5 rows), and a third pane beside it. *)
Definition columnWindow : Window := sampleWindow 20 5 0
  (Node (mkRect 0 0 20 5) SplitVertical
    [sampleLeaf 1 9 5;
     Node (mkRect 0 0 10 5) SplitHorizontal [sampleLeaf 2 10 2; sampleLeaf 3 10 2]]).

(** MovePaneToColumn does not check the room of a column that is already
    stacked: the pane is appended with no size at all. *)
Theorem MovePaneToColumn_empty_cell :
  treeInOrder columnWindow = true /\
  let '(w', res) := MovePaneToColumn 1 2 columnWindow in
  res = Ok tt /\ treeInOrder w' = false /\
  map (fun e => (Pane e.2.2, rW e.2.1, rH e.2.1)) (Walk (Root w')) =
    [(Some 2, 20, 2); (Some 3, 20, 2); (Some 1, 0, 0)].
Proof. vm_compute. repeat split. Qed.

(** A lead column beside two columns, the left of which holds three panes side
    by side. *)
Definition leadWindow : Window := sampleWindow 26 7 1
  (Node (mkRect 0 0 26 7) SplitVertical
    [sampleLeaf 1 2 7;
     Node (mkRect 0 0 23 7) SplitVertical
       [Node (mkRect 0 0 17 7) SplitHorizontal
          [sampleLeaf 2 17 3;
           Node (mkRect 0 0 17 3) SplitVertical
             [sampleLeaf 3 5 3; sampleLeaf 4 2 3; sampleLeaf 5 2 3; sampleLeaf 6 2 3; sampleLeaf 7 2 3]];
        sampleLeaf 8 5 7]]).

(** Splitting the root beside an anchored lead gives every column an equal
    width, whatever its minimum: the tree overflows the window. *)
Theorem anchored_equalize_overflow :
  treeInOrder leadWindow = true /\
  let '(w', res) := SplitRoot SplitVertical 9 leadWindow in
  res = Ok 9 /\ treeInOrder w' = false.
Proof. vm_compute. repeat split. Qed.

(** SetLead keeps 20 columns for the lead where the window allows it, whatever
    the rest needs. *)
Definition setLeadWindow : Window := sampleWindow 26 5 0
  (Node (mkRect 0 0 26 5) SplitVertical
    [sampleLeaf 1 5 5; sampleLeaf 2 6 5; sampleLeaf 3 6 5; sampleLeaf 4 6 5]).

Theorem SetLead_overflow :
  treeInOrder setLeadWindow = true /\
  let '(w', res) := SetLead 2 setLeadWindow in
  res = Ok tt /\ treeInOrder w' = false /\ usedWidth w' = 29 /\ Width w' = 26.
Proof. vm_compute. repeat split. Qed.

(** A window smaller than its two panes need. *)
Definition tinyWindow : Window :=
  Resize 4 5 (sampleWindow 5 5 0
    (Node (mkRect 0 0 5 5) SplitVertical
      [sampleLeaf 1 2 5; Node (mkRect 0 0 2 5) SplitHorizontal [sampleLeaf 2 2 2; sampleLeaf 3 2 2]])).

(** When the root is larger than the window, a close that collapses the root
    sets its width to the window's but leaves the children at the old width. *)
Theorem ClosePane_stale_children :
  let '(w', res) := ClosePane 1 tinyWindow in
  res = Ok tt /\ wfb (Root tinyWindow) = true /\ wfb (Root w') = false /\
  cW (Root w') = 4 /\ map cW (Children (Root w')) = [5; 5].
Proof. vm_compute. repeat split. Qed.
