(* ===== verification/UltraFacts.v ===== *)
(** * The ultra layout: slot table, pages and the visible grid *)

From S2P Require Import Prelude LayoutSizes LayoutTree LayoutFacts LayoutEdit WindowState Ultra.
From S2P Require Import WindowOps WindowResize WindowFacts WindowMoves.

(** ** The slot table *)

Lemma insertSlot_spec pane k slots :
  let '(slots', i) := insertSlot pane k slots in
  exists l1 l2, i = (k + length l1)%nat /\ Forall is_Some l1 /\ slots' = l1 ++ Some pane :: l2 /\
    (slots = l1 ++ None :: l2 \/ slots = l1 /\ l2 = []).
Proof.
  revert k. induction slots as [|[p|] slots IH]; intros k; simpl.
  - exists [], []. split_and!; [simpl; lia|done|done|by right].
  - pose proof (IH (S k)) as H. destruct (insertSlot pane (S k) slots) as [slots' i].
    destruct H as (l1 & l2 & -> & HF & -> & H). exists (Some p :: l1), l2.
    split_and!; [simpl; lia|by constructor|done|]. destruct H as [->|[-> ->]]; [by left|by right].
  - exists [], slots. split_and!; [simpl; lia|done|done|by left].
Qed.

Lemma ultraSlotInsert_panes pane u :
  omap id (uSlots (ultraSlotInsert pane u).1) ≡ₚ pane :: omap id (uSlots u).
Proof.
  unfold ultraSlotInsert. pose proof (insertSlot_spec pane 0 (uSlots u)) as H.
  destruct (insertSlot pane 0 (uSlots u)) as [slots' i]. destruct H as (l1 & l2 & _ & _ & -> & H).
  simpl. rewrite omap_app. cbn. destruct H as [->|[-> ->]]; rewrite ?omap_app; cbn;
    rewrite ?app_nil_r; symmetry; apply Permutation_middle || apply Permutation_cons_append.
Qed.

Lemma slotIndex_Some id k slots i :
  slotIndex id k slots = Some i ->
  exists l1 l2, slots = l1 ++ Some id :: l2 /\ i = (k + length l1)%nat /\ Some id ∉ l1.
Proof.
  revert k. induction slots as [|s slots IH]; intros k; simpl; [done|]. case_bool_decide as Hs.
  - intros [= <-]. subst s. exists [], slots. split_and!; [done|simpl; lia|by intros ?%elem_of_nil].
  - intros H. destruct (IH _ H) as (l1 & l2 & -> & -> & Hn). exists (s :: l1), l2.
    split_and!; [done|simpl; lia|]. rewrite not_elem_of_cons. done.
Qed.

Lemma slotIndex_first id k l1 l2 :
  Some id ∉ l1 -> slotIndex id k (l1 ++ Some id :: l2) = Some (k + length l1)%nat.
Proof.
  revert k. induction l1 as [|s l1 IH]; intros k Hn; simpl.
  - rewrite bool_decide_true by done. apply f_equal. lia.
  - apply not_elem_of_cons in Hn as [Hs Hn]. rewrite bool_decide_false by congruence.
    rewrite (IH (S k) Hn). apply f_equal. lia.
Qed.

Lemma slotIndex_None id k slots : slotIndex id k slots = None <-> Some id ∉ slots.
Proof.
  revert k. induction slots as [|s slots IH]; intros k; simpl; [split; [by intros _ ?%elem_of_nil|done]|].
  case_bool_decide as Hs.
  - split; [done|]. intros H. exfalso. apply H. rewrite Hs. apply list_elem_of_here.
  - rewrite IH, not_elem_of_cons. naive_solver.
Qed.

Lemma elem_of_slots id (slots : list (option Z)) : id ∈ omap Datatypes.id slots <-> Some id ∈ slots.
Proof.
  rewrite list_elem_of_omap. split; [intros (x & ? & E); cbn in E; by subst x|by exists (Some id)].
Qed.

Lemma SlotOf_is_Some id u : is_Some (SlotOf id u) <-> id ∈ omap Datatypes.id (uSlots u).
Proof.
  rewrite elem_of_slots. unfold SlotOf. destruct (slotIndex id 0 (uSlots u)) as [i|] eqn:E.
  - split; [|by eexists]. intros _. apply slotIndex_Some in E as (l1 & l2 & -> & _).
    apply elem_of_app. right. apply list_elem_of_here.
  - apply slotIndex_None in E. split; [by intros []|done].
Qed.

(** ** Pages *)

Lemma AgentSlotsPerPage_pos u : 1 <= AgentSlotsPerPage u.
Proof. unfold AgentSlotsPerPage. zb; lia. Qed.

(** The pages cover the slots and no page is beyond them. *)
Lemma PageCount_spec u :
  1 <= PageCount u /\ lenZ (uSlots u) <= PageCount u * AgentSlotsPerPage u /\
  (PageCount u = 1 \/ (PageCount u - 1) * AgentSlotsPerPage u < lenZ (uSlots u)).
Proof.
  unfold PageCount. pose proof (AgentSlotsPerPage_pos u) as Hp. set (per := AgentSlotsPerPage u) in *.
  pose proof (lenZ_nonneg (uSlots u)) as Hn. set (n := lenZ (uSlots u)) in *.
  rewrite Z.quot_div_nonneg by lia.
  pose proof (Z.div_mod (n + per - 1) per ltac:(lia)). pose proof (Z.mod_pos_bound (n + per - 1) per ltac:(lia)).
  set (q := (n + per - 1) / per) in *. zb; nia.
Qed.

Definition pageInRange (u : UltraLayout) : Prop := 0 <= uPage u < PageCount u.

Lemma clampPage_inRange u : pageInRange (clampPage u).
Proof.
  unfold pageInRange, clampPage. pose proof (PageCount_spec u) as (H & _).
  destruct (Z.ltb_spec (uPage u) 0).
  - change (PageCount (withPage 0 u)) with (PageCount u). simpl.
    destruct (Z.ltb_spec (PageCount u - 1) 0); [lia|]. 
    change (PageCount (withPage 0 u)) with (PageCount u). simpl. lia.
  - destruct (Z.ltb_spec (PageCount u - 1) (uPage u)); [|lia].
    change (PageCount (withPage (PageCount u - 1) u)) with (PageCount u). simpl. lia.
Qed.

Lemma clampPage_id u : pageInRange u -> clampPage u = u.
Proof. unfold pageInRange, clampPage. intros H. destruct (Z.ltb_spec (uPage u) 0); [lia|]. zb; [lia|done]. Qed.

Lemma clampPage_slots u : uSlots (clampPage u) = uSlots u.
Proof. unfold clampPage. destruct (uPage u <? 0); case_match; done. Qed.

Lemma SlotOf_lt id u i : SlotOf id u = Some i -> Z.of_nat i < lenZ (uSlots u).
Proof.
  unfold SlotOf. intros (l1 & l2 & -> & -> & _)%slotIndex_Some. lsum.
  pose proof (lenZ_nonneg l2). unfold lenZ in *. lia.
Qed.

Lemma PageOfSlot_inRange slot u :
  0 <= slot < lenZ (uSlots u) -> 0 <= PageOfSlot slot u < PageCount u.
Proof.
  intros H. unfold PageOfSlot. pose proof (AgentSlotsPerPage_pos u) as Hp.
  pose proof (PageCount_spec u) as (H1 & H2 & _). rewrite Z.quot_div_nonneg by lia. split.
  - apply Z.div_pos; lia.
  - apply Z.div_lt_upper_bound; lia.
Qed.

(** ** Trimming *)

Lemma forallb_None (l : list (option Z)) :
  forallb (fun p => bool_decide (p = None)) l = true <-> omap id l = [].
Proof.
  induction l as [|[x|] l IH]; [done| |exact IH]. split; [intros H; by cbn in H|done].
Qed.

(** Trimming drops empty pages from the end, and only those. *)
Lemma trimLoop_spec fuel per slots :
  1 <= per -> (length slots <= fuel)%nat ->
  exists tail, slots = trimLoop fuel per slots ++ tail /\ omap id tail = [] /\
    (lenZ (trimLoop fuel per slots) <= per \/
     omap id (drop (Z.to_nat (Z.quot (lenZ (trimLoop fuel per slots) - 1) per * per))
       (trimLoop fuel per slots)) <> []).
Proof.
  intros Hp. revert slots. induction fuel as [|fuel IH]; intros slots Hf; simpl.
  { exists []. rewrite app_nil_r. split_and!; [done|done|left]. destruct slots; [|simpl in Hf; lia].
    rewrite lenZ_nil. lia. }
  destruct (Z.ltb_spec per (lenZ slots)) as [Hlt|Hge].
  2:{ exists []. rewrite app_nil_r. auto. }
  set (start := Z.quot (lenZ slots - 1) per * per).
  destruct (forallb _ (drop (Z.to_nat start) slots)) eqn:E.
  2:{ exists []. rewrite app_nil_r. split_and!; [done|done|right]. fold start. intros H.
      apply forallb_None in H. congruence. }
  apply forallb_None in E.
  assert (per <= start < lenZ slots) as Hst.
  { unfold start. rewrite Z.quot_div_nonneg by lia.
    pose proof (Z.div_mod (lenZ slots - 1) per ltac:(lia)).
    pose proof (Z.mod_pos_bound (lenZ slots - 1) per ltac:(lia)).
    assert (1 <= (lenZ slots - 1) / per) by (apply Z.div_le_lower_bound; lia). nia. }
  destruct (IH (take (Z.to_nat start) slots)) as (tail & E2 & E3 & E4).
  { rewrite length_take. unfold lenZ in *. lia. }
  exists (tail ++ drop (Z.to_nat start) slots). split_and!; [|by rewrite omap_app, E3, E|done].
  rewrite app_assoc, <- E2. by rewrite take_drop.
Qed.

Lemma trimEmptyPages_panes u : omap id (uSlots (trimEmptyPages u)) = omap id (uSlots u).
Proof.
  unfold trimEmptyPages. rewrite clampPage_slots. simpl.
  destruct (trimLoop_spec (length (uSlots u)) (AgentSlotsPerPage u) (uSlots u)) as (tail & E & H & _);
    [apply AgentSlotsPerPage_pos|done|].
  rewrite E at 3. by rewrite omap_app, H, app_nil_r.
Qed.

(** ** The visible grid *)

Lemma gridRow_panes u lead start k x y h colW :
  map leafPane (gridRow u lead start k x y h colW) = map (gridPane u lead start) (seqZ k (lenZ colW)) /\
  forallb IsLeaf (gridRow u lead start k x y h colW) = true.
Proof.
  revert k x. induction colW as [|cw colW IH]; intros k x; simpl; [done|].
  rewrite lenZ_cons, seqZ_cons by (pose proof (lenZ_nonneg colW); lia). simpl.
  replace (Z.pred (1 + lenZ colW)) with (lenZ colW) by lia.
  destruct (IH (k + 1) (x + cw + 1)) as [-> ->]. by rewrite Z.add_1_r.
Qed.

Lemma cellPanes_leaves r dir ch :
  forallb IsLeaf ch = true -> cellPanes (Node r dir ch) = map leafPane ch.
Proof.
  rewrite cellPanes_node. induction ch as [|c ch IH]; simpl; [done|].
  destruct c as [r' d|]; [|done]. simpl. intros H. by rewrite IH.
Qed.

Lemma gridRows_panes u lead start width r y colW rowH :
  1 <= uCols u -> lenZ colW = uCols u ->
  concat (map cellPanes (gridRows u lead start width r y colW rowH))
    = map (gridPane u lead start) (seqZ (r * uCols u) (lenZ rowH * uCols u)).
Proof.
  intros Hc Hl. revert r y. induction rowH as [|h rowH IH]; intros r y; cbn [gridRows map concat]; [done|].
  rewrite IH, lenZ_cons. pose proof (lenZ_nonneg rowH) as Hn.
  replace ((1 + lenZ rowH) * uCols u) with (uCols u + lenZ rowH * uCols u) by lia.
  rewrite seqZ_app, map_app by nia. replace ((r + 1) * uCols u) with (r * uCols u + uCols u) by lia.
  f_equal. destruct (Z.eqb_spec (uCols u) 1) as [E|E].
  - rewrite E, Z.mul_1_r. done.
  - destruct (gridRow_panes u lead start (r * uCols u) 0 y h colW) as [H1 H2].
    rewrite cellPanes_leaves, H1, Hl by done. done.
Qed.

(** A grid the user may ask for. *)
Definition gridOk (u : UltraLayout) : Prop :=
  1 <= uRows u <= MaxUltraRows /\ 1 <= uCols u <= MaxUltraCols /\ 2 <= uRows u * uCols u.

Lemma ValidateUltraGrid_ok rows cols :
  ValidateUltraGrid rows cols = Ok tt <->
  1 <= rows <= MaxUltraRows /\ 1 <= cols <= MaxUltraCols /\ 2 <= rows * cols.
Proof. unfold ValidateUltraGrid. zb; simpl; split; intros; (done || lia). Qed.

Lemma gridOk_per u : gridOk u -> AgentSlotsPerPage u = uRows u * uCols u - 1.
Proof. unfold gridOk, AgentSlotsPerPage. intros. zb; lia. Qed.

Definition gridSizes (total count : Z) : list Z := map (atLeast PaneMinSize) (equalSplitSizes total count).

Lemma length_gridSizes total count : 0 < count -> lenZ (gridSizes total count) = count.
Proof. intros. unfold gridSizes. rewrite lenZ_map. by apply length_equalSplitSizes. Qed.

Lemma gridRows_length u lead start width r y colW rowH :
  length (gridRows u lead start width r y colW rowH) = length rowH.
Proof. revert r y. induction rowH; intros r y; simpl; auto. Qed.

Lemma gridRoot_cellPanes u lead width height :
  gridOk u ->
  cellPanes (gridRoot u lead width height)
    = map (gridPane u lead (uPage u * AgentSlotsPerPage u)) (seqZ 0 (uRows u * uCols u)).
Proof.
  intros (Hr & Hc & Hn). unfold gridRoot.
  rewrite (same_skeleton_cellPanes _ _ (FixOffsets_skeleton _)).
  fold (gridSizes height (uRows u)). fold (gridSizes width (uCols u)).
  pose proof (length_gridSizes height (uRows u) ltac:(lia)) as Hlr.
  pose proof (length_gridSizes width (uCols u) ltac:(lia)) as Hlc.
  pose proof (gridRows_panes u lead (uPage u * AgentSlotsPerPage u) width 0 0 (gridSizes width (uCols u))
    (gridSizes height (uRows u)) ltac:(lia) Hlc) as H.
  rewrite Hlr, Z.mul_0_l in H. rewrite <- H.
  set (rows := gridRows _ _ _ _ _ _ _ _). destruct rows as [|row [|row2 rows]]; try done.
  - simpl. by rewrite app_nil_r.
  - by rewrite cellPanes_node.
Qed.

(** The slots a page shows. *)
Definition pageSlots (u : UltraLayout) : list (option Z) :=
  take (Z.to_nat (AgentSlotsPerPage u)) (drop (Z.to_nat (uPage u * AgentSlotsPerPage u)) (uSlots u)).

Lemma omap_id_cons (a : option Z) l : omap id (a :: l) = option_list a ++ omap id l.
Proof. by destruct a. Qed.

Lemma omap_slots (slots : list (option Z)) (s n : nat) :
  omap id (map (fun k => match slots !! Z.to_nat (Z.of_nat s + k - 1) with Some p => p | None => None end)
             (seqZ 1 (Z.of_nat n)))
  = omap id (take n (drop s slots)).
Proof.
  revert s. induction n as [|n IH]; intros s; [done|].
  rewrite seqZ_cons by lia. replace (Z.pred (Z.of_nat (S n))) with (Z.of_nat n) by lia.
  assert (seqZ (Z.succ 1) (Z.of_nat n) = map (Z.add 1) (seqZ 1 (Z.of_nat n))) as ->.
  { replace (Z.succ 1) with (1 + 1) by lia. by rewrite fmap_add_seqZ. }
  cbn [map]. rewrite map_map.
  assert (forall k, match slots !! Z.to_nat (Z.of_nat s + (1 + k) - 1) with Some p => p | None => None end
    = match slots !! Z.to_nat (Z.of_nat (S s) + k - 1) with Some p => p | None => None end) as Heq.
  { intros k. by replace (Z.of_nat s + (1 + k) - 1) with (Z.of_nat (S s) + k - 1) by lia. }
  rewrite (map_ext _ _ Heq). rewrite omap_id_cons.
  replace (Z.to_nat (Z.of_nat s + 1 - 1)) with s by lia.
  destruct (slots !! s) as [p|] eqn:E.
  - rewrite (drop_S slots p s E). cbn [take].
    by rewrite omap_id_cons, <- IH.
  - rewrite drop_ge by (by apply lookup_ge_None). rewrite take_nil. cbn. rewrite IH.
    rewrite drop_ge; [by rewrite take_nil|]. apply lookup_ge_None in E. lia.
Qed.

(** The grid shows the lead and the slots of the current page, in order. *)
Lemma gridRoot_panes u lead width height :
  gridOk u -> 0 <= uPage u ->
  treePanes (gridRoot u lead width height) = option_list lead ++ omap id (pageSlots u).
Proof.
  intros Hg Hp. rewrite treePanes_cellPanes, gridRoot_cellPanes by done.
  pose proof (gridOk_per u Hg) as Hper. pose proof (AgentSlotsPerPage_pos u) as Hpos.
  rewrite seqZ_cons by lia. cbn [map]. rewrite omap_id_cons. f_equal.
  replace (Z.pred (uRows u * uCols u)) with (Z.of_nat (Z.to_nat (AgentSlotsPerPage u))) by lia.
  unfold pageSlots. rewrite <- omap_slots. f_equal. apply map_ext_in. intros k Hk.
  apply list_elem_of_In, elem_of_seqZ in Hk. unfold gridPane. destruct (Z.eqb_spec k 0); [lia|].
  rewrite Z2Nat.id by nia. done.
Qed.

Lemma gridSizes_fit total count :
  0 < count -> PaneMinSize * count + (count - 1) <= total ->
  gridSizes total count = equalSplitSizes total count /\
  Forall (fun s => PaneMinSize <= s) (gridSizes total count) /\
  sumZ (gridSizes total count) + (count - 1) = total.
Proof.
  intros Hc Ht. pose proof (equalSplitSizes_min total count Hc Ht) as HF.
  assert (gridSizes total count = equalSplitSizes total count) as E.
  { unfold gridSizes. apply map_id_on. eapply Forall_impl; [exact HF|]. intros x Hx. unfold atLeast.
    simpl in Hx. zb; lia. }
  rewrite E. split_and!; [done|done|]. rewrite sum_equalSplitSizes by lia. lia.
Qed.

Lemma gridRow_wf u lead start k x y h colW :
  PaneMinSize <= h -> Forall (fun s => PaneMinSize <= s) colW ->
  Forall wf (gridRow u lead start k x y h colW) /\
  Forall (fun c => cH c = h) (gridRow u lead start k x y h colW) /\
  map cW (gridRow u lead start k x y h colW) = colW.
Proof.
  intros Hh HF. revert k x. induction HF as [|cw colW Hcw HF IH]; intros k x; simpl; [done|].
  destruct (IH (k + 1) (x + cw + 1)) as (H1 & H2 & H3).
  split_and!; [constructor; [by constructor|done]|by constructor|by f_equal].
Qed.

Lemma gridRows_wf u lead start width r y colW rowH :
  1 <= uCols u -> lenZ colW = uCols u -> Forall (fun s => PaneMinSize <= s) colW ->
  sumZ colW + (uCols u - 1) = width -> Forall (fun s => PaneMinSize <= s) rowH ->
  let rows := gridRows u lead start width r y colW rowH in
  Forall wf rows /\ Forall (fun c => cW c = width) rows /\ map cH rows = rowH.
Proof.
  intros Hc Hl HFc Hs HF. revert r y. induction HF as [|h rowH Hh HF IH]; intros r y; simpl; [done|].
  destruct (IH (r + 1) (y + h + 1)) as (H1 & H2 & H3).
  destruct (gridRow_wf u lead start (r * uCols u) 0 y h colW Hh HFc) as (G1 & G2 & G3).
  set (row := if uCols u =? 1 then _ else _).
  assert (wf row /\ cW row = width /\ cH row = h) as (? & ? & ?).
  2:{ split_and!; [by constructor|by constructor|by f_equal]. }
  unfold row. destruct (Z.eqb_spec (uCols u) 1) as [E1|E1].
  - split_and!; [|done|done]. destruct colW as [|cw [|cw2 colW]]; rewrite ?lenZ_cons in Hl;
      [rewrite lenZ_nil in Hl; lia| |pose proof (lenZ_nonneg colW); lia].
    apply Forall_cons in HFc as [Hcw _]. unfold sumZ in Hs. simpl in Hs. constructor; simpl; lia.
  - assert (length (gridRow u lead start (r * uCols u) 0 y h colW) = length colW) as Hlen
      by (rewrite <- (length_map cW), G3; done).
    split_and!; [|done|done]. constructor; [unfold lenZ in *; lia|done|done|].
    simpl. change (map (axisSize SplitVertical)) with (map cW). rewrite G3. unfold lenZ in *. lia.
Qed.

Lemma cellRect_placeAt x y c : cellRect (placeAt x y c) = setXY x y (cellRect c).
Proof. destruct c; [done|]. by rewrite placeAt_node. Qed.

(** With room for every cell the grid is a well-formed layout of the window. *)
Lemma gridRoot_wf u lead width height :
  gridOk u -> PaneMinSize * uCols u + (uCols u - 1) <= width ->
  PaneMinSize * uRows u + (uRows u - 1) <= height ->
  let root := gridRoot u lead width height in
  wf root /\ positioned root /\ cellRect root = mkRect 0 0 width height.
Proof.
  intros (Hr & Hc & Hn) HW HH. unfold gridRoot.
  fold (gridSizes height (uRows u)). fold (gridSizes width (uCols u)).
  destruct (gridSizes_fit width (uCols u)) as (_ & Hcf & Hcs); [lia|done|].
  destruct (gridSizes_fit height (uRows u)) as (_ & Hrf & Hrs); [lia|done|].
  pose proof (length_gridSizes height (uRows u) ltac:(lia)) as Hlr.
  pose proof (length_gridSizes width (uCols u) ltac:(lia)) as Hlc.
  destruct (gridRows_wf u lead (uPage u * AgentSlotsPerPage u) width 0 0 (gridSizes width (uCols u))
    (gridSizes height (uRows u)) ltac:(lia) Hlc Hcf Hcs Hrf) as (H1 & H2 & H3).
  set (rows := gridRows _ _ _ _ _ _ _ _) in *.
  set (root := match rows with [row] => row | _ => _ end).
  assert (length rows = length (gridSizes height (uRows u))) as Hl by (by rewrite <- H3, length_map).
  assert (wf root /\ cW root = width /\ cH root = height /\ cX root = 0 /\ cY root = 0)
    as (Hw & HW' & HH' & HX & HY).
  { unfold root. destruct rows as [|row [|row2 rows']] eqn:E.
    - unfold lenZ in Hlr. simpl in Hl. lia.
    - apply Forall_inv in H1, H2. rewrite <- H3 in Hlr, Hrs. unfold sumZ in Hrs. simpl in Hrs.
      unfold lenZ in Hlr. simpl in Hlr.
      assert (cX row = 0 /\ cY row = 0) as [? ?].
      { clear -E. unfold rows in E. destruct (gridSizes height (uRows u)); [done|]. simpl in E.
        injection E as <- _. by destruct (uCols u =? 1). }
      split_and!; auto. lia.
    - split_and!; try done. constructor; [simpl; lia|done|done|].
      change (map (axisSize SplitHorizontal)) with (map cH). rewrite H3. unfold lenZ in *. rewrite Hl.
      simpl. lia. }
  split_and!; [by apply FixOffsets_wf|apply FixOffsets_idem|].
  unfold FixOffsets. rewrite HX, HY, cellRect_placeAt. unfold setXY.
  change (rW (cellRect root)) with (cW root). change (rH (cellRect root)) with (cH root). congruence.
Qed.

(** ** The last page *)

Lemma PageCount_last u :
  1 < PageCount u -> AgentSlotsPerPage u < lenZ (uSlots u) /\
  Z.quot (lenZ (uSlots u) - 1) (AgentSlotsPerPage u) = PageCount u - 1.
Proof.
  intros H. pose proof (PageCount_spec u) as (_ & H2 & [H3|H3]); [lia|].
  pose proof (AgentSlotsPerPage_pos u) as Hp. split; [nia|]. rewrite Z.quot_div_nonneg by nia.
  symmetry. apply (Z.div_unique _ _ _ (lenZ (uSlots u) - 1 - AgentSlotsPerPage u * (PageCount u - 1))); nia.
Qed.

Lemma trimmed_last u :
  1 < PageCount u ->
  lenZ (uSlots u) <= AgentSlotsPerPage u \/
  omap id (drop (Z.to_nat (Z.quot (lenZ (uSlots u) - 1) (AgentSlotsPerPage u) * AgentSlotsPerPage u))
    (uSlots u)) <> [] ->
  omap id (pageSlots (withPage (PageCount u - 1) u)) <> [].
Proof.
  intros Hp. destruct (PageCount_last u Hp) as [Hl ->]. intros [H|H]; [lia|]. unfold pageSlots. simpl.
  change (AgentSlotsPerPage (withPage (PageCount u - 1) u)) with (AgentSlotsPerPage u).
  rewrite take_ge; [done|]. rewrite length_drop. pose proof (PageCount_spec u) as (_ & H2 & _).
  pose proof (AgentSlotsPerPage_pos u). unfold lenZ in *. nia.
Qed.
