(* ===== verification/UltraSteps.v ===== *)
(** * The ultra layout: the invariant and the operations that keep it *)

From S2P Require Import Prelude LayoutSizes LayoutTree LayoutFacts LayoutEdit WindowState Ultra.
From S2P Require Import WindowOps WindowResize WindowFacts WindowMoves UltraFacts.

(** The part of the invariant the slot operations keep: a legal grid, the lead
    recorded twice in agreement, every pane in one slot, at least one pane. *)
Record SlotsInv (w : Window) (u : UltraLayout) : Prop := mkSlotsInv {
  si_ultra : Ultra w = Some u;
  si_grid : gridOk u;
  si_lead : ultraLead w = (if LeadPaneID w =? 0 then None else Some (LeadPaneID w));
  si_nodup : NoDup (ultraPanes u w);
  si_ids : Forall (fun id => 0 < id) (ultraPanes u w);
  si_some : ultraPanes u w <> [];
  si_working : working (panes w) }.

(** The invariant between operations: the tree is the grid of the current page
    and the focus is on a pane, on a visible one if there is any. *)
Record UltraInv (w : Window) (u : UltraLayout) : Prop := mkUltraInv {
  ui_slots : SlotsInv w u;
  ui_page : pageInRange u;
  ui_root : Root w = gridRoot u (visibleLead w) (Width w) (Height w);
  ui_active : exists a, ActivePane w = Some a /\ a ∈ ultraPanes u w /\
    (treePanes (Root w) <> [] -> a ∈ treePanes (Root w)) }.

Lemma ultraPanes_eq u w : ultraPanes u w = option_list (visibleLead w) ++ omap id (uSlots u).
Proof. unfold ultraPanes, visibleLead. by destruct (LeadPaneID w =? 0). Qed.

Lemma visibleLead_eq w u : SlotsInv w u ->
  visibleLead w = (if LeadPaneID w =? 0 then None else Some (LeadPaneID w)).
Proof. intros Hs. unfold visibleLead. rewrite (si_lead w u Hs). by destruct (LeadPaneID w =? 0). Qed.

Lemma clampPage_fields u :
  uRows (clampPage u) = uRows u /\ uCols (clampPage u) = uCols u /\ AutoPromote (clampPage u) = AutoPromote u.
Proof. unfold clampPage. destruct (uPage u <? 0); case_match; done. Qed.

Lemma clampPage_gridOk u : gridOk u -> gridOk (clampPage u).
Proof. unfold gridOk. by destruct (clampPage_fields u) as (-> & -> & _). Qed.

(** The slots of the current page are slots. *)
Lemma pageSlots_sub u id : id ∈ omap Datatypes.id (pageSlots u) -> id ∈ omap Datatypes.id (uSlots u).
Proof.
  rewrite !elem_of_slots. unfold pageSlots. intros H. rewrite <- (take_drop (Z.to_nat (uPage u * AgentSlotsPerPage u)) (uSlots u)).
  apply elem_of_app. right.
  rewrite <- (take_drop (Z.to_nat (AgentSlotsPerPage u)) (drop _ (uSlots u))). apply elem_of_app. by left.
Qed.

(** A visible slot is a slot of the page. *)
Lemma slot_on_page u i id :
  0 <= uPage u -> slotIndex id 0 (uSlots u) = Some i -> PageOfSlot (Z.of_nat i) u = uPage u ->
  id ∈ omap Datatypes.id (pageSlots u).
Proof.
  intros Hp Hi Hpage. rewrite elem_of_slots. apply slotIndex_Some in Hi as (l1 & l2 & E & -> & _).
  unfold PageOfSlot in Hpage. pose proof (AgentSlotsPerPage_pos u) as Hpos. unfold pageSlots.
  set (per := AgentSlotsPerPage u) in *. simpl in Hpage. rewrite Z.quot_div_nonneg in Hpage by lia.
  pose proof (Z.div_mod (Z.of_nat (length l1)) per ltac:(lia)).
  pose proof (Z.mod_pos_bound (Z.of_nat (length l1)) per ltac:(lia)). rewrite Hpage in *.
  apply list_elem_of_lookup. exists (length l1 - Z.to_nat (uPage u * per))%nat.
  rewrite lookup_take_lt by nia. rewrite lookup_drop.
  replace (Z.to_nat (uPage u * per) + (length l1 - Z.to_nat (uPage u * per)))%nat with (length l1) by nia.
  rewrite E. by apply list_lookup_middle.
Qed.

Lemma visible_in_tree w u id :
  SlotsInv w u -> pageInRange u -> Root w = gridRoot u (visibleLead w) (Width w) (Height w) ->
  ultraVisible id w = true -> id ∈ treePanes (Root w) /\ id ∈ ultraPanes u w.
Proof.
  intros Hs [Hp _] HR Hv. pose proof (visibleLead_eq w u Hs) as Hvl. pose proof Hs as [HU Hg _ _ _ _ _].
  rewrite HR, gridRoot_panes, ultraPanes_eq by done. rewrite Hvl.
  unfold ultraVisible in Hv. rewrite HU in Hv. destruct (Z.eqb_spec (LeadPaneID w) 0) as [E|E]; simpl in *.
  2: destruct (Z.eqb_spec id (LeadPaneID w)) as [->|]; [split; apply list_elem_of_here|].
  all: destruct (SlotOf id u) as [i|] eqn:Ei; [|done]; apply Z.eqb_eq in Hv;
    pose proof (slot_on_page u i id Hp Ei Hv) as Hin; pose proof (pageSlots_sub u id Hin); split;
    try (by apply list_elem_of_further); done.
Qed.

Lemma ultraSizeHidden_pty u w : ptyOnly w (ultraSizeHidden u w).
Proof.
  unfold ultraSizeHidden. destruct (uRows u * uCols u <=? 1); [done|].
  match goal with |- context [match ?a with Some _ => _ | None => _ end] => destruct a end; [|done].
  apply fold_pty. intros w' e. destruct e.2; [|done]. destruct (_ && _); [done|]. apply paneResize_pty.
Qed.

Lemma ptyOnly_ultra w w' u : ptyOnly w w' -> UltraInv w u -> UltraInv w' u.
Proof.
  intros [E Hps] [Hs Hp HR Ha]. rewrite E. constructor; try done.
  destruct Hs. constructor; auto.
Qed.

(** Rebuilding keeps the slots, the lead, the zoom and a visible focus. *)
Definition rebuilt (w : Window) (u : UltraLayout) (w' : Window) : Prop :=
  UltraInv w' (clampPage u) /\ ultraPanes (clampPage u) w' = ultraPanes u w /\
  LeadPaneID w' = LeadPaneID w /\ ZoomedPaneID w' = ZoomedPaneID w /\
  Width w' = Width w /\ Height w' = Height w /\
  forall a, ActivePane w = Some a -> ultraVisible a (setUltra (Some (clampPage u)) w) = true ->
    ActivePane w' = Some a.

Lemma SlotsInv_clamp w u : SlotsInv w u -> SlotsInv (setUltra (Some (clampPage u)) w) (clampPage u).
Proof.
  intros [HU Hg Hl Hnd Hp Hs Hw]. rewrite ultraPanes_eq in *. constructor; auto using clampPage_gridOk;
    rewrite ultraPanes_eq, clampPage_slots; auto.
Qed.

Lemma SlotsInv_setRoot w u root : SlotsInv w u -> SlotsInv (setRoot root w) u.
Proof. intros []. by constructor. Qed.

(** Where ultraRefocus puts the focus. *)
Lemma ultraRefocus_ok u w :
  SlotsInv w u -> pageInRange u -> Root w = gridRoot u (visibleLead w) (Width w) (Height w) ->
  UltraInv (ultraRefocus u w) u /\
  (exists ps n a, ultraRefocus u w = setPanes ps (setCounter n (setActivePane a w))) /\
  forall a, ActivePane w = Some a -> ultraVisible a w = true -> ActivePane (ultraRefocus u w) = Some a.
Proof.
  intros Hs Hp HR. pose proof Hs as [HU Hg Hl Hnd Hpos Hne Hw].
  assert (forall a, a ∈ ultraPanes u w -> (treePanes (Root w) <> [] -> a ∈ treePanes (Root w)) ->
    UltraInv (setActive a w) u /\ exists ps n a', setActive a w = setPanes ps (setCounter n (setActivePane a' w)))
    as Hset.
  { intros a Ha Ht. destruct (setActive_state a w Hw) as (ps & n & -> & Hps). split; [|by eauto].
    constructor; [|done|done|by exists a]. destruct Hs. by constructor. }
  unfold ultraRefocus. destruct (match ActivePane w with Some id => ultraVisible id w | None => false end) eqn:Ev.
  - destruct (ActivePane w) as [a|] eqn:Ea; [|done]. destruct (visible_in_tree w u a Hs Hp HR Ev) as [? ?].
    split_and!; [|exists (panes w), (activePointCounter w), (Some a); destruct w; simpl in *; by subst|congruence].
    constructor; [done|done|done|]. by exists a.
  - assert (forall (P : Prop), (forall a, ActivePane w = Some a -> ultraVisible a w = true -> P)) as Habs.
    { intros P a Ea Hv. rewrite Ea in Ev. congruence. }
    assert (HR2 : treePanes (Root w) = option_list (visibleLead w) ++ omap id (pageSlots u)).
    { rewrite HR. by apply gridRoot_panes; [|apply Hp]. }
    rewrite ultraPanes_eq in Hset, Hne.
    destruct (visibleLead w) as [lead|] eqn:El.
    { destruct (Hset lead) as [? ?]; [apply list_elem_of_here|intros _; rewrite HR2; apply list_elem_of_here|].
      split_and!; [done|done|]. intros a Ha Hv. by eapply Habs. }
    simpl in *. unfold firstPaneInSubtree. rewrite panesOf_treePanes, HR2. clear Habs.
    assert (forall a, ActivePane w = Some a -> ultraVisible a w = true -> False) as Habs.
    { intros a Ea Hv. rewrite Ea in Ev. congruence. }
    destruct (omap id (pageSlots u)) as [|a l] eqn:Epage; simpl.
    + destruct (omap id (uSlots u)) as [|a l] eqn:Eslots; [done|].
      destruct (Hset a) as [? ?]; [apply list_elem_of_here|by rewrite HR2|].
      split_and!; [done|done|]. intros. exfalso. eauto.
    + destruct (Hset a) as [? ?].
      { apply pageSlots_sub. rewrite Epage. apply list_elem_of_here. }
      { intros _. rewrite HR2. apply list_elem_of_here. }
      split_and!; [done|done|]. intros. exfalso. eauto.
Qed.

Lemma rebuild_ok w u : SlotsInv w u -> rebuilt w u (rebuildUltraTree w).
Proof.
  intros Hs. unfold rebuildUltraTree. rewrite (si_ultra w u Hs). set (u' := clampPage u).
  set (w1 := setUltra (Some u') w). change (visibleLead w1) with (visibleLead w).
  set (w2 := setRoot (gridRoot u' (visibleLead w) (Width w1) (Height w1)) w1).
  assert (SlotsInv w2 u') as Hs2 by (by apply SlotsInv_setRoot, SlotsInv_clamp).
  destruct (ultraRefocus_ok u' w2 Hs2 (clampPage_inRange u) eq_refl) as (Hinv & (ps & n & a & E) & Hact).
  set (w3 := ultraRefocus u' w2) in *.
  assert (ptyOnly w3 (ultraSizeHidden u' (resizePTYsPreservingZoomedPaneSize w3))) as Hpty.
  { etrans; [apply resizePTYsPreserving_pty|apply ultraSizeHidden_pty]. }
  pose proof (ptyOnly_ultra _ _ _ Hpty Hinv) as Hinv'. destruct Hpty as [E4 _].
  unfold rebuilt. fold u'. set (w4 := ultraSizeHidden _ _) in *. split; [done|].
  split. { rewrite !ultraPanes_eq. unfold visibleLead. rewrite E4. simpl. rewrite E. simpl.
           unfold u'. by rewrite clampPage_slots. }
  split_and!; try (rewrite E4; simpl; by rewrite E).
  intros b Hb Hv. rewrite E4. simpl. by apply Hact.
Qed.

(** ** Operations on the slots *)

Definition leadOk (w : Window) : Prop :=
  ultraLead w = (if LeadPaneID w =? 0 then None else Some (LeadPaneID w)).

Lemma ultraPanes_lead u w : leadOk w -> ultraPanes u w = option_list (ultraLead w) ++ omap id (uSlots u).
Proof. unfold leadOk, ultraPanes. intros ->. by destruct (LeadPaneID w =? 0). Qed.

Lemma SlotsInv_of w u ids :
  Ultra w = Some u -> gridOk u -> leadOk w -> working (panes w) ->
  option_list (ultraLead w) ++ omap id (uSlots u) ≡ₚ ids ->
  NoDup ids -> Forall (fun id => 0 < id) ids -> ids <> [] -> SlotsInv w u.
Proof.
  intros HU Hg Hl Hw HP Hnd Hpos Hne.
  constructor; rewrite ?ultraPanes_lead by done; auto; [by rewrite HP|by rewrite HP|].
  intros E. rewrite E in HP. symmetry in HP. by apply Permutation_nil_r in HP.
Qed.

(** A rebuild after a change of the slot table or the lead; [ids] are the panes
    of the new state. *)
Lemma rebuild_slots w u ids :
  Ultra w = Some u -> gridOk u -> leadOk w -> working (panes w) ->
  option_list (ultraLead w) ++ omap id (uSlots u) ≡ₚ ids ->
  NoDup ids -> Forall (fun id => 0 < id) ids -> ids <> [] ->
  let w' := rebuildUltraTree w in
  UltraInv w' (clampPage u) /\ ultraPanes (clampPage u) w' ≡ₚ ids /\ LeadPaneID w' = LeadPaneID w /\
  ZoomedPaneID w' = ZoomedPaneID w.
Proof.
  intros HU Hg Hl Hw HP Hnd Hpos Hne.
  pose proof (SlotsInv_of w u ids HU Hg Hl Hw HP Hnd Hpos Hne) as Hs.
  destruct (rebuild_ok w u Hs) as (Hi & Hp & Hlp & Hz & _). split_and!; [done| |done|done].
  rewrite Hp, ultraPanes_lead by done. exact HP.
Qed.

(** Focusing a visible pane. *)
Lemma focus_visible pane w u :
  UltraInv w u -> ultraVisible pane w = true ->
  UltraInv (setActive pane w) u /\ ultraPanes u (setActive pane w) = ultraPanes u w /\
  ActivePane (setActive pane w) = Some pane /\ pane ∈ treePanes (Root (setActive pane w)).
Proof.
  intros [Hs Hp HR Ha] Hv. destruct (visible_in_tree w u pane Hs Hp HR Hv) as [Hin1 Hin2].
  destruct (setActive_state pane w (si_working _ _ Hs)) as (ps & n & -> & Hps).
  split_and!; [|done|done|done]. constructor; [destruct Hs; by constructor|done|done|]. by exists pane.
Qed.

(** Inserting one pane. *)
Lemma ultraInsert_ok pane opts w u :
  UltraInv w u -> 0 < pane -> pane ∉ ultraPanes u w ->
  exists u', UltraInv (ultraInsert pane opts w) u' /\
    ultraPanes u' (ultraInsert pane opts w) ≡ₚ pane :: ultraPanes u w /\
    (KeepFocus opts = false -> ActivePane (ultraInsert pane opts w) = Some pane /\
       pane ∈ treePanes (Root (ultraInsert pane opts w))).
Proof.
  intros [Hs Hp HR Ha] Hpane Hni. pose proof Hs as [HU Hg Hl Hnd Hpos Hne Hw].
  unfold ultraInsert. rewrite HU. pose proof (ultraSlotInsert_panes pane u) as HP.
  assert (exists u1 idx, ultraSlotInsert pane u = (u1, idx) /\ uRows u1 = uRows u /\ uCols u1 = uCols u /\
    SlotOf pane u1 = Some idx) as (u1 & idx & E1 & Hr & Hc & Hidx).
  { unfold ultraSlotInsert. pose proof (insertSlot_spec pane 0 (uSlots u)) as H.
    destruct (insertSlot pane 0 (uSlots u)) as [slots' i]. exists (withSlots slots' u), i.
    split_and!; [done..|]. destruct H as (l1 & l2 & -> & HF & -> & Hsl).
    assert (Some pane ∉ l1) as Hn1.
    { intros Hin. apply Hni. rewrite ultraPanes_eq. apply elem_of_app. right. apply elem_of_slots.
      destruct Hsl as [->|[-> _]]; [apply elem_of_app; by left|done]. }
    exact (slotIndex_first pane 0 l1 l2 Hn1). }
  rewrite E1 in *. simpl in HP.
  set (u2 := if KeepFocus opts then u1 else withPage (PageOfSlot (Z.of_nat idx) u1) u1).
  assert (uSlots u2 = uSlots u1 /\ uRows u2 = uRows u /\ uCols u2 = uCols u) as (Hs2 & Hr2 & Hc2)
    by (unfold u2; destruct (KeepFocus opts); simpl; auto).
  destruct (rebuild_slots (setUltra (Some u2) w) u2 (pane :: ultraPanes u w)) as (Hi & HPi & _); try done.
  { unfold gridOk in *. by rewrite Hr2, Hc2. }
  { simpl. rewrite Hs2, HP, ultraPanes_lead by done. symmetry. apply Permutation_middle. }
  { by constructor. } { by constructor. }
  destruct (KeepFocus opts) eqn:Ek; [by exists (clampPage u2)|].
  assert (clampPage u2 = u2) as Hcl.
  { apply clampPage_id. unfold pageInRange, u2. simpl.
    apply (PageOfSlot_inRange (Z.of_nat idx) u1). split; [lia|by eapply SlotOf_lt]. }
  rewrite Hcl in *.
  destruct (focus_visible pane _ u2 Hi) as (Hf1 & Hf2 & Hf3 & Hf4).
  { unfold ultraVisible. rewrite (si_ultra _ _ (ui_slots _ _ Hi)). destruct (_ && _); [done|].
    assert (SlotOf pane u2 = Some idx) as -> by (unfold SlotOf; rewrite Hs2; exact Hidx).
    unfold u2. simpl. apply Z.eqb_refl. }
  exists u2. rewrite Hf2. auto.
Qed.

Lemma splice_panes i (slots : list (option Z)) (s x : option Z) :
  slots !! i = Some s ->
  exists l, omap id slots ≡ₚ option_list s ++ l /\ omap id (<[i := x]> slots) ≡ₚ option_list x ++ l.
Proof.
  intros (l1 & l2 & -> & ->)%list_elem_of_split_length. exists (omap id l1 ++ omap id l2).
  rewrite insert_app_r_alt, Nat.sub_diag by lia. simpl.
  split; rewrite omap_app, omap_id_cons, !app_assoc; apply Permutation_app_tail, Permutation_app_comm.
Qed.

Lemma SlotOf_lookup id u i : SlotOf id u = Some i -> uSlots u !! i = Some (Some id).
Proof.
  unfold SlotOf. intros (l1 & l2 & -> & -> & _)%slotIndex_Some. simpl. by apply list_lookup_middle.
Qed.

Lemma lead_not_slot w u id :
  SlotsInv w u -> LeadPaneID w <> 0 -> id ∈ ultraPanes u w -> id <> LeadPaneID w ->
  exists i, SlotOf id u = Some i.
Proof.
  intros Hs Hl Hin Hne. rewrite ultraPanes_eq, (visibleLead_eq w u Hs) in Hin.
  destruct (Z.eqb_spec (LeadPaneID w) 0); [done|]. apply elem_of_cons in Hin as [|Hin]; [done|].
  by apply SlotOf_is_Some.
Qed.

Lemma slots_emptied (slots : list (option Z)) i id :
  slots !! i = Some (Some id) ->
  omap Datatypes.id slots ≡ₚ id :: omap Datatypes.id (<[i := None]> slots).
Proof. intros H. destruct (splice_panes i slots (Some id) None H) as (l & E1 & E2). by rewrite E1, E2. Qed.

(** Closing a pane of the ultra layout removes that pane only. *)
Lemma ultraClose_ok pane w u :
  UltraInv w u -> pane ∈ ultraPanes u w ->
  let '(w', res) := ultraClose pane w in
  if lenZ (ultraPanes u w) <=? 1 then res = Err errLastPane /\ w' = w
  else exists u', res = Ok tt /\ UltraInv w' u' /\ ultraPanes u w ≡ₚ pane :: ultraPanes u' w' /\
    LeadPaneID w' = (if LeadPaneID w =? pane then 0 else LeadPaneID w) /\
    ZoomedPaneID w' = (if ZoomedPaneID w =? pane then 0 else ZoomedPaneID w).
Proof.
  intros [Hs Hp HR Ha] Hin. pose proof Hs as [HU Hg Hl Hnd Hpos Hne Hw].
  unfold ultraClose. rewrite HU. unfold ultraPaneCount.
  destruct (Z.leb_spec (lenZ (ultraPanes u w)) 1) as [H1|H1]; [done|]. cbv zeta.
  set (z := if ZoomedPaneID w =? pane then 0 else ZoomedPaneID w).
  assert ((if ZoomedPaneID w =? pane then setZoomed 0 w else w) = setZoomed z w) as ->.
  { unfold z. destruct (ZoomedPaneID w =? pane); [done|]. by destruct w. }
  set (wasActive := isActive pane _).
  rewrite ultraPanes_lead in * by done. simpl LeadPaneID.
  assert (exists ids, option_list (ultraLead w) ++ omap id (uSlots u) ≡ₚ pane :: ids) as (ids & Hids).
  { apply list_elem_of_split in Hin as (l1 & l2 & ->). exists (l1 ++ l2). symmetry. apply Permutation_middle. }
  assert (NoDup (pane :: ids) /\ Forall (fun id => 0 < id) (pane :: ids) /\ lenZ (pane :: ids) = lenZ (option_list (ultraLead w) ++ omap id (uSlots u)))
    as (Hnd' & Hpos' & Hlen) by (unfold lenZ; rewrite <- Hids; done).
  apply NoDup_cons in Hnd' as [Hni Hnd']. apply Forall_cons in Hpos' as [Hpp Hpos'].
  assert (ids <> []) as Hne' by (intros ->; unfold lenZ in *; simpl in *; lia).
  assert (Hfin : forall w2 u2, Ultra w2 = Some u2 -> gridOk u2 -> leadOk w2 -> working (panes w2) ->
    option_list (ultraLead w2) ++ omap id (uSlots u2) ≡ₚ ids ->
    let w' := rebuildUltraTree (if wasActive then setActivePane None w2 else w2) in
    UltraInv w' (clampPage u2) /\ pane :: ids ≡ₚ pane :: ultraPanes (clampPage u2) w' /\
    LeadPaneID w' = LeadPaneID w2 /\ ZoomedPaneID w' = ZoomedPaneID w2).
  { intros w2 u2 HU2 Hg2 Hl2 Hw2 HP2 w'.
    destruct (rebuild_slots (if wasActive then setActivePane None w2 else w2) u2 ids) as (? & HP & ? & ?);
      try (by destruct wasActive). unfold w'.
    split_and!; [done|by rewrite HP|..]; by destruct wasActive. }
  destruct (Z.eqb_spec (LeadPaneID w) pane) as [El|El].
  - destruct (Hfin (setUltraLead None (setLeadID 0 (setZoomed z w))) u) as (Hi & HP & Hli & Hzi); try done.
    { simpl. rewrite Hl in Hids. destruct (Z.eqb_spec (LeadPaneID w) 0); [lia|]. simpl in Hids.
      rewrite El in Hids. by apply Permutation_cons_inv in Hids. }
    exists (clampPage u). rewrite Hids. split_and!; done.
  - destruct (SlotOf pane u) as [i|] eqn:Ei.
    2:{ exfalso. rewrite Hl in Hin. assert (pane ∈ omap id (uSlots u)) as Hsl.
        { destruct (LeadPaneID w =? 0); [done|]. by apply elem_of_cons in Hin as [|]. }
        apply SlotOf_is_Some in Hsl as [i Hi]. congruence. }
    set (u2 := trimEmptyPages (withSlots (<[i := None]> (uSlots u)) u)).
    destruct (Hfin (setUltra (Some u2) (setZoomed z w)) u2) as (Hi & HP & Hli & Hzi); try done.
    { unfold u2, trimEmptyPages. by apply clampPage_gridOk. }
    { simpl. unfold u2. rewrite trimEmptyPages_panes. simpl.
      rewrite (slots_emptied _ _ _ (SlotOf_lookup _ _ _ Ei)), <- Permutation_middle in Hids.
      by apply Permutation_cons_inv in Hids. }
    exists (clampPage u2). rewrite Hids. split_and!; done.
Qed.

(** The two operations on the lead keep the panes. *)
Lemma ultraSetLead_ok pane w u :
  UltraInv w u -> pane ∈ ultraPanes u w ->
  exists w' u', ultraSetLead pane w = (w', Ok tt) /\ UltraInv w' u' /\
    ultraPanes u' w' ≡ₚ ultraPanes u w /\ LeadPaneID w' = pane.
Proof.
  intros Hinv Hin. pose proof Hinv as [Hs Hp HR Ha]. pose proof Hs as [HU Hg Hl Hnd Hpos Hne Hw].
  unfold ultraSetLead. rewrite HU. destruct (Z.eqb_spec (LeadPaneID w) pane) as [El|El]; [by exists w, u|].
  rewrite ultraPanes_lead in * by done.
  assert (0 < pane) as Hpp by (rewrite Forall_forall in Hpos; auto).
  assert (exists i, SlotOf pane u = Some i) as [i Hi].
  { apply SlotOf_is_Some. rewrite Hl in Hin. destruct (LeadPaneID w =? 0); [done|].
    by apply elem_of_cons in Hin as [|]. }
  rewrite Hi. pose proof (SlotOf_lookup _ _ _ Hi) as Hlk. rewrite Hlk. simpl.
  pose proof (slots_emptied _ _ _ Hlk) as HP. set (u1 := withSlots (<[i := None]> (uSlots u)) u) in *.
  set (u2 := match ultraLead w with Some prev => _ | None => u1 end).
  assert (option_list (Some pane) ++ omap id (uSlots u2) ≡ₚ option_list (ultraLead w) ++ omap id (uSlots u)
    /\ gridOk u2) as [HP2 Hg2].
  { rewrite HP. unfold u2. rewrite Hl. destruct (Z.eqb_spec (LeadPaneID w) 0) as [E|E]; [done|].
    simpl. rewrite ultraSlotInsert_panes. split; [apply Permutation_swap|].
    unfold ultraSlotInsert. by destruct (insertSlot _ _ _). }
  destruct (rebuild_slots (setUltra (Some (trimEmptyPages u2)) (setUltraLead (Some pane) (setLeadID pane w)))
    (trimEmptyPages u2) (option_list (ultraLead w) ++ omap id (uSlots u))) as (Hi' & HP' & Hl' & _); try done.
  { unfold trimEmptyPages. by apply clampPage_gridOk. }
  { unfold leadOk. simpl. destruct (Z.eqb_spec pane 0); [lia|done]. }
  { simpl. by rewrite trimEmptyPages_panes. }
  eexists _, _. split; [done|]. split_and!; [exact Hi'|exact HP'|exact Hl'].
Qed.

Lemma ultraUnsetLead_ok w u :
  UltraInv w u -> LeadPaneID w <> 0 ->
  exists w' u', ultraUnsetLead w = (w', Ok tt) /\ UltraInv w' u' /\
    ultraPanes u' w' ≡ₚ ultraPanes u w /\ LeadPaneID w' = 0.
Proof.
  intros [Hs Hp HR Ha] Hne0. pose proof Hs as [HU Hg Hl Hnd Hpos Hne Hw].
  pose proof (ultraPanes_lead u w Hl) as Hup.
  unfold ultraUnsetLead. rewrite HU. destruct (Z.eqb_spec (LeadPaneID w) 0) as [|_]; [done|].
  rewrite Hl in Hup |- *. simpl in Hup. rewrite Hup in *. set (u2 := (ultraSlotInsert (LeadPaneID w) u).1).
  destruct (rebuild_slots (setUltra (Some u2) (setUltraLead None (setLeadID 0 w))) u2
    (LeadPaneID w :: omap id (uSlots u))) as (Hi' & HP' & Hl' & _); try done.
  { unfold u2, ultraSlotInsert. by destruct (insertSlot _ _ _). }
  { simpl. unfold u2. by rewrite ultraSlotInsert_panes. }
  eexists _, _. split; [done|]. split_and!; [exact Hi'|exact HP'|exact Hl'].
Qed.

(** ** Swapping, promoting and paging *)

Lemma swap_slots (slots : list (option Z)) i j a b :
  slots !! i = Some a -> slots !! j = Some b ->
  omap Datatypes.id (<[j := a]> (<[i := b]> slots)) ≡ₚ omap Datatypes.id slots.
Proof.
  intros Hi Hj. pose proof (swap_Permutation i j a b slots Hi Hj) as HP. by rewrite HP.
Qed.

Lemma ultraSwap_ok id1 id2 i j w u :
  UltraInv w u -> SlotOf id1 u = Some i -> SlotOf id2 u = Some j ->
  exists w' u', ultraSwap id1 id2 w = (w', Ok tt) /\ UltraInv w' u' /\
    ultraPanes u' w' ≡ₚ ultraPanes u w /\ LeadPaneID w' = LeadPaneID w /\
    uPage u' = uPage u /\ uSlots u' !! i = Some (Some id2) /\ (i <> j -> uSlots u' !! j = Some (Some id1)).
Proof.
  intros [Hs Hp HR Ha] Hi Hj. pose proof Hs as [HU Hg Hl Hnd Hpos Hne Hw].
  pose proof (ultraPanes_lead u w Hl) as Hup. rewrite Hup in *.
  unfold ultraSwap. rewrite HU, Hi, Hj.
  pose proof (SlotOf_lookup _ _ _ Hi) as Ei. pose proof (SlotOf_lookup _ _ _ Hj) as Ej.
  rewrite Ei, Ej. simpl. set (slots := <[j := Some id1]> (<[i := Some id2]> (uSlots u))).
  assert (omap Datatypes.id slots ≡ₚ omap Datatypes.id (uSlots u)) as HP by (by apply swap_slots).
  assert (length slots = length (uSlots u)) as Hlen by (unfold slots; by rewrite !length_insert).
  assert (clampPage (withSlots slots u) = withSlots slots u) as Hcl.
  { apply clampPage_id. unfold pageInRange, PageCount, lenZ, AgentSlotsPerPage in *. simpl. by rewrite Hlen. }
  destruct (rebuild_slots (setUltra (Some (withSlots slots u)) w) (withSlots slots u)
    (option_list (ultraLead w) ++ omap id (uSlots u))) as (Hi' & HP' & Hl' & _); try done.
  { simpl. by rewrite HP. }
  rewrite Hcl in *. eexists _, _. split; [done|].
  split_and!; [exact Hi'|exact HP'|exact Hl'|done|..]; simpl; unfold slots.
  - destruct (decide (i = j)) as [->|Hij].
    + rewrite list_lookup_insert_eq by (rewrite length_insert; by eapply lookup_lt_Some). congruence.
    + rewrite list_lookup_insert_ne by done. apply list_lookup_insert_eq. by eapply lookup_lt_Some.
  - intros _. apply list_lookup_insert_eq. rewrite length_insert. by eapply lookup_lt_Some.
Qed.

(** A page change: the page shown is the page asked for. *)
Lemma show_page w u page :
  SlotsInv w u -> 0 <= page < PageCount u ->
  let w' := rebuildUltraTree (setUltra (Some (withPage page u)) w) in
  UltraInv w' (withPage page u) /\ ultraPanes (withPage page u) w' = ultraPanes u w.
Proof.
  intros Hs Hp. assert (SlotsInv (setUltra (Some (withPage page u)) w) (withPage page u)) as Hs'.
  { destruct Hs. by constructor. }
  destruct (rebuild_ok _ _ Hs') as (Hi & HP & _).
  assert (clampPage (withPage page u) = withPage page u) as Hcl by (by apply clampPage_id).
  rewrite Hcl in *. done.
Qed.

Lemma unzoomIf_slots b w u :
  SlotsInv w u -> exists ps z, unzoomIf b w = (setPanes ps (setZoomed z w), Ok tt) /\
    SlotsInv (setPanes ps (setZoomed z w)) u.
Proof.
  intros [HU Hg Hl Hnd Hpos Hne Hw]. destruct (unzoomIf_ok b w Hw) as (ps & z & E & Hps & _).
  exists ps, z. split; [done|]. by constructor.
Qed.

Lemma UltraSetPage_ok page w u :
  UltraInv w u ->
  let '(w', res) := UltraSetPage page w in
  if (0 <=? page) && (page <? PageCount u) then
    res = Ok tt /\ UltraInv w' (withPage page u) /\ ultraPanes (withPage page u) w' = ultraPanes u w
  else res = Err (errPageRange (page + 1) (PageCount u)) /\ w' = w.
Proof.
  intros [Hs Hp HR Ha]. unfold UltraSetPage, bindM, get, throw, modify. rewrite (si_ultra w u Hs).
  destruct (Z.ltb_spec page 0); simpl; [zb; done || lia|].
  destruct (Z.leb_spec (PageCount u) page); [zb; done || lia|].
  destruct (unzoomIf_slots true w u Hs) as (ps & z & -> & Hs'). rewrite (si_ultra _ _ Hs').
  rewrite (proj2 (Z.leb_le 0 page)), (proj2 (Z.ltb_lt page _)) by lia. simpl.
  split; [done|]. by apply (show_page (setPanes ps (setZoomed z w)) u page).
Qed.

(** The page UltraStepPage goes to. *)
Lemma step_page_mod page delta n :
  0 < n -> Z.rem (Z.rem (page + delta) n + n) n = (page + delta) mod n.
Proof.
  intros Hn. pose proof (Z.rem_bound_abs (page + delta) n ltac:(lia)) as Hb.
  rewrite Z.rem_mod_nonneg by lia.
  replace (Z.rem (page + delta) n + n) with (Z.rem (page + delta) n + 1 * n) by lia.
  rewrite Z.mod_add by lia.
  pose proof (Z.quot_rem' (page + delta) n) as E.
  rewrite <- (Z.mod_add (Z.rem (page + delta) n) (Z.quot (page + delta) n) n) by lia. f_equal. lia.
Qed.

Lemma UltraStepPage_ok delta w u :
  UltraInv w u ->
  exists w', UltraStepPage delta w = (w', Ok tt) /\
    let page := (uPage u + delta) mod PageCount u in
    UltraInv w' (withPage page u) /\ ultraPanes (withPage page u) w' = ultraPanes u w.
Proof.
  intros Hinv. pose proof Hinv as [Hs Hp HR Ha]. pose proof (PageCount_spec u) as [Hc _].
  unfold UltraStepPage, bindM, get. rewrite (si_ultra w u Hs), step_page_mod by lia.
  pose proof (UltraSetPage_ok ((uPage u + delta) mod PageCount u) w u Hinv) as H.
  pose proof (Z.mod_pos_bound (uPage u + delta) (PageCount u) ltac:(lia)).
  destruct (UltraSetPage _ w) as [w' res].
  rewrite (proj2 (Z.leb_le 0 _)), (proj2 (Z.ltb_lt _ (PageCount u))) in H by lia. simpl in H.
  destruct H as (-> & ? & ?). by exists w'.
Qed.

Lemma visibleSlots_in u e :
  e ∈ visibleSlots u ->
  uSlots u !! e.1 = Some e.2 /\
  uPage u * AgentSlotsPerPage u <= Z.of_nat e.1 < uPage u * AgentSlotsPerPage u + AgentSlotsPerPage u.
Proof.
  unfold visibleSlots. rewrite list_elem_of_filter. intros [Hb Hin]. split; [|lia].
  apply list_elem_of_lookup in Hin as (k & Hk). rewrite list_lookup_imap in Hk.
  destruct (uSlots u !! k) as [s|] eqn:E; simplify_eq/=. done.
Qed.

Lemma PageOfSlot_visible u (i : nat) :
  0 <= uPage u ->
  uPage u * AgentSlotsPerPage u <= Z.of_nat i < uPage u * AgentSlotsPerPage u + AgentSlotsPerPage u ->
  PageOfSlot (Z.of_nat i) u = uPage u.
Proof.
  intros Hp Hi. unfold PageOfSlot. pose proof (AgentSlotsPerPage_pos u). rewrite Z.quot_div_nonneg by lia.
  symmetry. apply (Z.div_unique _ _ _ (Z.of_nat i - uPage u * AgentSlotsPerPage u)); lia.
Qed.

(** A table with the pane in a visible slot, trimmed, still shows it. *)
Lemma trimmed_page u (i : nat) id :
  0 <= uPage u -> uSlots u !! i = Some (Some id) -> PageOfSlot (Z.of_nat i) u = uPage u ->
  uPage (trimEmptyPages u) = uPage u /\ uSlots (trimEmptyPages u) !! i = Some (Some id) /\
  pageInRange (trimEmptyPages u).
Proof.
  intros Hp Hi Hpage. unfold trimEmptyPages. set (t := trimLoop _ _ _).
  destruct (trimLoop_spec (length (uSlots u)) (AgentSlotsPerPage u) (uSlots u)) as (tail & E & Ht & _);
    [apply AgentSlotsPerPage_pos|done|]. fold t in E.
  assert (t !! i = Some (Some id)) as Hti.
  { rewrite E in Hi. apply lookup_app_Some in Hi as [|[_ Hi]]; [done|]. exfalso.
    assert (id ∈ omap Datatypes.id tail) as H; [|rewrite Ht in H; by apply elem_of_nil in H].
    apply elem_of_slots. by eapply list_elem_of_lookup_2. }
  assert (pageInRange (withSlots t u)) as Hr.
  { unfold pageInRange. change (uPage (withSlots t u)) with (uPage u). rewrite <- Hpage.
    apply (PageOfSlot_inRange (Z.of_nat i) (withSlots t u)). simpl. split; [lia|].
    apply lookup_lt_Some in Hti. unfold lenZ. lia. }
  rewrite clampPage_id by done. done.
Qed.

Lemma trimEmptyPages_per u : AgentSlotsPerPage (trimEmptyPages u) = AgentSlotsPerPage u.
Proof.
  unfold AgentSlotsPerPage, trimEmptyPages.
  match goal with |- context [clampPage ?v] => by destruct (clampPage_fields v) as (-> & -> & _) end.
Qed.

Lemma SlotOf_unique w u i id :
  SlotsInv w u -> uSlots u !! i = Some (Some id) -> SlotOf id u = Some i.
Proof.
  intros [_ _ _ Hnd _ _ _] Hi. rewrite ultraPanes_eq in Hnd. apply NoDup_app in Hnd as (_ & _ & Hnd).
  apply list_elem_of_split_length in Hi as (l1 & l2 & E & ->). unfold SlotOf. rewrite E in *.
  rewrite slotIndex_first; [done|]. rewrite omap_app, omap_id_cons in Hnd. intros Hin.
  apply NoDup_app in Hnd as (_ & Hnd & _). apply (Hnd id); [by apply elem_of_slots|]. apply list_elem_of_here.
Qed.

Lemma rebuilt_visible w u i id :
  SlotsInv w u -> pageInRange u -> uSlots u !! i = Some (Some id) -> PageOfSlot (Z.of_nat i) u = uPage u ->
  id ∈ treePanes (Root (rebuildUltraTree w)).
Proof.
  intros Hs Hp Hi Hpage. destruct (rebuild_ok w u Hs) as ([Hs' Hp' HR' _] & _).
  rewrite clampPage_id in * by done.
  refine (proj1 (visible_in_tree _ u id Hs' Hp' HR' _)).
  unfold ultraVisible. rewrite (si_ultra _ _ Hs'). destruct (_ && _); [done|].
  rewrite (SlotOf_unique w u i id Hs Hi), Hpage. apply Z.eqb_refl.
Qed.

(** What a promotion does to the table: the pane moves to a slot of the page. *)
Lemma promoted w u u2 i id :
  UltraInv w u -> gridOk u2 -> omap Datatypes.id (uSlots u2) ≡ₚ omap Datatypes.id (uSlots u) ->
  pageInRange u2 -> uSlots u2 !! i = Some (Some id) -> PageOfSlot (Z.of_nat i) u2 = uPage u2 ->
  let w' := rebuildUltraTree (setUltra (Some u2) w) in
  UltraInv w' u2 /\ ultraPanes u2 w' ≡ₚ ultraPanes u w /\ id ∈ treePanes (Root w').
Proof.
  intros [Hs Hp HR Ha] Hg2 HP Hp2 Hi Hpage w'. pose proof Hs as [HU Hg Hl Hnd Hpos Hne Hw].
  pose proof (ultraPanes_lead u w Hl) as Hup. rewrite Hup in *.
  assert (option_list (ultraLead (setUltra (Some u2) w)) ++ omap Datatypes.id (uSlots u2)
    ≡ₚ option_list (ultraLead w) ++ omap Datatypes.id (uSlots u)) as HP2 by (simpl; by rewrite HP).
  destruct (rebuild_slots (setUltra (Some u2) w) u2 _ eq_refl Hg2 Hl Hw HP2 Hnd Hpos Hne) as (Hi' & HP' & _).
  rewrite clampPage_id in * by done. split_and!; [done|done|].
  eapply rebuilt_visible; [|exact Hp2|done|done]. by eapply SlotsInv_of.
Qed.

Lemma UltraPromote_ok pane busy w u :
  UltraInv w u ->
  let '(w', ok) := UltraPromote pane busy w in
  if ok then UltraPaneHidden pane w = true /\
    exists u', UltraInv w' u' /\ ultraPanes u' w' ≡ₚ ultraPanes u w /\ pane ∈ treePanes (Root w') /\
      uPage u' = uPage u
  else w' = w.
Proof.
  intros Hinv. pose proof Hinv as [Hs Hp HR Ha]. pose proof Hs as [HU Hg Hl Hnd Hpos Hne Hw].
  unfold UltraPromote. rewrite HU. destruct (UltraPaneHidden pane w) eqn:Hh; simpl; [|done].
  destruct (SlotOf pane u) as [from|] eqn:Ef; [|done]. pose proof (SlotOf_lookup _ _ _ Ef) as Hfrom.
  rewrite Hfrom. simpl.
  assert (PageOfSlot (Z.of_nat from) u <> uPage u) as Hhid.
  { unfold UltraPaneHidden, ultraVisible in Hh. rewrite HU in Hh. destruct (_ && (pane =? _)).
    - by rewrite andb_false_r in Hh.
    - rewrite Ef in Hh. apply andb_prop in Hh as [_ Hh]. apply negb_true_iff, Z.eqb_neq in Hh. done. }
  assert (Hne' : forall i s, (i, s) ∈ visibleSlots u -> i <> from).
  { intros i s Hin ->. apply visibleSlots_in in Hin as [_ Hr]. apply Hhid. by apply PageOfSlot_visible; [apply Hp|]. }
  assert (Hpg : forall i s, (i, s) ∈ visibleSlots u -> uSlots u !! i = Some s /\ PageOfSlot (Z.of_nat i) u = uPage u).
  { intros i s Hin. pose proof (visibleSlots_in u _ Hin) as [H1 H2]. split; [done|].
    by apply PageOfSlot_visible; [apply Hp|]. }
  assert (Hlt : (from < length (uSlots u))%nat) by (by eapply lookup_lt_Some).
  destruct (filter (fun e => e.2 = None) (visibleSlots u)) as [|[i s] rest] eqn:Ee.
  - destruct (stableSort _ _) as [|[to id] rest] eqn:Esort; [done|]. split; [done|].
    match type of Esort with stableSort ?le ?l = _ =>
      assert ((to, id) ∈ l) as Hin by (rewrite <- (stableSort_Permutation le l), Esort; apply list_elem_of_here) end.
    apply list_elem_of_omap in Hin as ([j s] & Hin & Hc). simpl in Hc. destruct s as [id'|]; [|done].
    destruct (_ || _); [done|]. simplify_eq.
    destruct (Hpg _ _ Hin) as [Hto Hpage]. pose proof (Hne' _ _ Hin). rewrite Hto. simpl.
    assert (to < length (uSlots u))%nat by (by eapply lookup_lt_Some).
    set (slots := <[from := Some id]> (<[to := Some pane]> (uSlots u))).
    assert (length slots = length (uSlots u)) as Hlen by (unfold slots; by rewrite !length_insert).
    exists (withSlots slots u).
    destruct (promoted w u (withSlots slots u) to pane) as (? & ? & ?); try done.
    + simpl. by apply swap_slots.
    + unfold pageInRange, PageCount, lenZ, AgentSlotsPerPage in *. simpl. by rewrite Hlen.
    + simpl. unfold slots. rewrite list_lookup_insert_ne by done. by apply list_lookup_insert_eq.
  - assert ((i, s) ∈ filter (fun e => e.2 = None) (visibleSlots u)) as Hin by (rewrite Ee; apply list_elem_of_here).
    apply list_elem_of_filter in Hin as [Hs0 Hin]. simpl in Hs0. subst s.
    destruct (Hpg _ _ Hin) as [Hi Hpage]. pose proof (Hne' _ _ Hin). split; [done|].
    assert (i < length (uSlots u))%nat by (by eapply lookup_lt_Some).
    set (slots := <[from := None]> (<[i := Some pane]> (uSlots u))).
    assert (slots !! i = Some (Some pane)) as Hsi.
    { unfold slots. rewrite list_lookup_insert_ne by done. by apply list_lookup_insert_eq. }
    destruct (trimmed_page (withSlots slots u) i pane) as (Ht1 & Ht2 & Ht3); [apply Hp|done|done|].
    exists (trimEmptyPages (withSlots slots u)).
    destruct (promoted w u (trimEmptyPages (withSlots slots u)) i pane) as (? & ? & ?); try done.
    + unfold trimEmptyPages. by apply clampPage_gridOk.
    + rewrite trimEmptyPages_panes. simpl. by apply swap_slots.
    + rewrite Ht1. unfold PageOfSlot in *. rewrite trimEmptyPages_per. done.
Qed.
