(* ===== verification/UltraProps.v ===== *)
(** * Properties of the ultra layout

    Entering and leaving the layout; the visible grid; the slot operations as a
    step relation with its reachable states. *)

From S2P Require Import Prelude LayoutSizes LayoutTree LayoutFacts LayoutEdit WindowState Ultra WindowOps WindowResize WindowFacts WindowMoves.
From S2P Require Import UltraFacts UltraSteps.

(** ** Entering and leaving the ultra layout *)

(** ** Entering *)

Lemma filter_not_lead (lead : Z) (l : list Z) :
  0 < lead -> NoDup l -> lead ∈ l ->
  lead :: filter (fun p => negb (lead =? 0) && (p =? lead) = false) l ≡ₚ l.
Proof.
  intros Hp Hnd Hin. apply list_elem_of_split in Hin as (l1 & l2 & ->).
  apply NoDup_app in Hnd as (_ & H1 & H2). apply NoDup_cons in H2 as [H2 _].
  assert (forall l : list Z, lead ∉ l -> filter (fun p => negb (lead =? 0) && (p =? lead) = false) l = l) as Hid.
  { clear -Hp. induction l as [|x l IH]; intros Hn; [done|]. apply not_elem_of_cons in Hn as [Hx Hn].
    rewrite filter_cons_True by (zb; simpl; done || lia). by rewrite IH. }
  rewrite filter_app, filter_cons_False by (zb; simpl; done || lia).
  rewrite (Hid l1), (Hid l2); [apply Permutation_middle|done|].
  intros Hin. apply (H1 lead Hin). apply list_elem_of_here.
Qed.

Lemma filter_no_lead (l : list Z) : filter (fun p => negb (0 =? 0) && (p =? 0) = false) l = l.
Proof. induction l as [|x l IH]; [done|]. rewrite filter_cons_True by done. by rewrite IH. Qed.

(** The page of the focused pane is shown, so the focus survives the rebuild. *)
Lemma show_active w u a :
  SlotsInv w u -> ActivePane w = Some a -> a ∈ ultraPanes u w -> pageInRange u ->
  exists u', ultraShowPaneIfActive w = setUltra (Some u') w /\ SlotsInv (setUltra (Some u') w) u' /\
    uSlots u' = uSlots u /\ uRows u' = uRows u /\ uCols u' = uCols u /\ pageInRange u' /\ ultraVisible a (setUltra (Some u') w) = true.
Proof.
  intros Hs Ha Hin Hp. pose proof Hs as [HU Hg Hl Hnd Hpos Hne Hw].
  pose proof (ultraPanes_lead u w Hl) as Hup. unfold ultraShowPaneIfActive. rewrite HU, Ha.
  destruct (SlotOf a u) as [i|] eqn:Ei.
  - set (u' := withPage (PageOfSlot (Z.of_nat i) u) u). exists u'.
    split_and!; [done|by constructor|done|done|done| |].
    + apply (PageOfSlot_inRange (Z.of_nat i) u). split; [lia|by eapply SlotOf_lt].
    + unfold ultraVisible. simpl. destruct (_ && _); [done|].
      change (SlotOf a u') with (SlotOf a u). rewrite Ei. apply Z.eqb_refl.
  - exists u. split_and!; [by destruct w; simpl in *; subst|by constructor|done|done|done|done|].
    unfold ultraVisible. simpl. rewrite Hup, Hl in Hin. destruct (Z.eqb_spec (LeadPaneID w) 0).
    + exfalso. assert (is_Some (SlotOf a u)) as [? ?] by (by apply SlotOf_is_Some). congruence.
    + apply elem_of_cons in Hin as [->|Hin]; [by rewrite Z.eqb_refl|].
      exfalso. assert (is_Some (SlotOf a u)) as [? ?] by (by apply SlotOf_is_Some). congruence.
Qed.

(** Entering the ultra layout keeps the panes, the lead and the focus. *)
Lemma EnableUltra_ok rows cols auto w :
  WindowInv w -> working (panes w) -> ValidateUltraGrid rows cols = Ok tt ->
  exists w' u', EnableUltra rows cols auto w = (w', Ok tt) /\ UltraInv w' u' /\
    uRows u' = rows /\ uCols u' = cols /\
    ultraPanes u' w' ≡ₚ treePanes (Root w) /\ ActivePane w' = ActivePane w /\
    LeadPaneID w' = LeadPaneID w /\ ZoomedPaneID w' = 0.
Proof.
  intros Hinv Hw Hv. unfold EnableUltra, lift, bindM, get, modify. rewrite Hv.
  apply ValidateUltraGrid_ok in Hv.
  destruct (unzoomIf_ok true w Hw) as (ps & z & -> & Hps & _ & Hz). rewrite (Hz eq_refl). clear Hz.
  pose proof Hinv as [HU (_ & _ & _ & _ & Hnd & Hpos) (a & Ha & Hain) _ HL]. simpl. rewrite HU.
  set (w1 := setPanes ps (setZoomed 0 w)).
  match goal with |- context [if LeadPaneID w1 =? 0 then ?A else ?B] =>
    set (wl := if LeadPaneID w1 =? 0 then A else B) in * end.
  assert (exists ul, wl = setUltraLead ul w1 /\
    ul = (if LeadPaneID w =? 0 then None else Some (LeadPaneID w))) as (ul & E & Hul).
  { unfold wl. simpl. destruct (Z.eqb_spec (LeadPaneID w) 0) as [|Hne]; [by eexists|].
    destruct HL as [|HL]; [done|]. destruct (FindPane_is_Some _ _ HL) as (p & Hp). rewrite Hp.
    destruct (FindPane_Some _ _ _ Hp) as (r & d & Hc & Hd). eexists. split; [done|].
    unfold paneAt. simpl. by rewrite Hc. }
  rewrite E. clear wl E. simpl. set (agents := filter _ _).
  assert (option_list ul ++ stableSort Z.leb agents ≡ₚ treePanes (Root w)) as HP.
  { rewrite stableSort_Permutation. unfold agents. rewrite panesOf_treePanes. clear agents.
    destruct HL as [HL|HL].
    - rewrite HL in Hul |- *. rewrite filter_no_lead. by rewrite Hul.
    - assert (0 < LeadPaneID w) as Hp0 by (rewrite Forall_forall in Hpos; auto).
      rewrite (proj2 (Z.eqb_neq (LeadPaneID w) 0)) in Hul by lia. rewrite Hul.
      by apply (filter_not_lead (LeadPaneID w)). }
  set (u1 := mkUltraLayout rows cols 0 (map Some (stableSort Z.leb agents)) auto).
  set (w2 := setUltra (Some u1) (setUltraLead ul w1)).
  assert (option_list (ultraLead w2) ++ omap id (uSlots u1) ≡ₚ treePanes (Root w)) as HP1.
  { simpl. by rewrite omap_map_Some. }
  assert (treePanes (Root w) <> []) as Hne by (intros E0; rewrite E0 in Hain; by apply elem_of_nil in Hain).
  assert (SlotsInv w2 u1) as Hs2 by (by eapply SlotsInv_of).
  assert (pageInRange u1) as Hr1.
  { unfold pageInRange. pose proof (PageCount_spec u1) as [? _]. simpl. lia. }
  assert (a ∈ ultraPanes u1 w2) as Ha2.
  { rewrite ultraPanes_lead by apply Hs2. by rewrite HP1. }
  destruct (show_active w2 u1 a Hs2 Ha Ha2 Hr1) as (u' & -> & Hs' & Hsl & Hrr & Hcc & Hr' & Hvis).
  destruct (rebuild_ok _ _ Hs') as (Hi & HPi & Hli & Hzi & _ & _ & Hact).
  rewrite clampPage_id in * by done. eexists _, u'. split; [done|].
  split_and!; [exact Hi|done|done| |by rewrite Ha; apply Hact|exact Hli|exact Hzi].
  rewrite HPi, ultraPanes_lead by apply Hs'. simpl. by rewrite Hsl.
Qed.

(** ** Leaving *)

Lemma buildGridRow_spec (ps : list (option Z)) colW x y h :
  length ps = length colW -> PaneMinSize <= h -> Forall (fun s => PaneMinSize <= s) colW ->
  let row := buildGridRow ps colW x y h in
  Forall wf row /\ Forall (fun c => cH c = h) row /\ map cW row = colW /\ concat (map cellPanes row) = ps.
Proof.
  intros Hl Hh HF. revert ps x Hl. induction HF as [|cw colW Hcw HF IH]; intros [|p ps] x Hl; simplify_eq/=;
    [done|]. destruct (IH ps (x + cw + 1) Hl) as (H1 & H2 & H3 & H4).
  split_and!; [constructor; [by constructor|done]|by constructor|by f_equal|by f_equal].
Qed.

(** One row of the grid fills its rectangle. *)
Lemma buildGridRowCell_spec (ps : list (option Z)) x y width h :
  ps <> [] -> PaneMinSize <= h -> PaneMinSize * lenZ ps + (lenZ ps - 1) <= width ->
  let c := buildGridRowCell ps x y width h in
  wf c /\ cellRect c = mkRect x y width h /\ cellPanes c = ps.
Proof.
  intros Hne Hh HW. pose proof (lenZ_pos ps Hne) as Hpos.
  destruct ps as [|p [|p2 ps]]; [done| |].
  { unfold lenZ in HW. simpl in *. split_and!; [constructor; simpl; unfold PaneMinSize in *; lia|done|done]. }
  set (l := p :: p2 :: ps) in *. unfold buildGridRowCell. fold l.
  assert (buildGridRowCell l x y width h = Node (mkRect x y width h) SplitVertical
    (buildGridRow l (equalSplitSizes width (lenZ l)) x y h)) as E by done.
  pose proof (length_equalSplitSizes width (lenZ l) Hpos) as Hl.
  destruct (buildGridRow_spec l (equalSplitSizes width (lenZ l)) x y h) as (H1 & H2 & H3 & H4).
  { unfold lenZ in *. lia. } { done. } { by apply equalSplitSizes_min. }
  unfold buildGridRowCell in E. rewrite E. split_and!; [|done|by rewrite cellPanes_node].
  set (row := buildGridRow _ _ _ _ _) in *.
  assert (length row = length l) as Hlr.
  { rewrite <- (length_map cW row), H3. unfold lenZ in *. lia. }
  constructor; [rewrite Hlr; simpl; lia|done|done|].
  simpl. change (map (axisSize SplitVertical)) with (map cW). rewrite H3, sum_equalSplitSizes by done.
  unfold lenZ in *. rewrite Hlr. lia.
Qed.

Lemma buildGridRows_spec (ps : list (option Z)) cols x y width rowH :
  1 <= cols -> (lenZ rowH - 1) * cols < lenZ ps <= lenZ rowH * cols -> rowH <> [] ->
  PaneMinSize * cols + (cols - 1) <= width -> Forall (fun h => PaneMinSize <= h) rowH ->
  let rows := buildGridRows ps cols x y width rowH in
  Forall wf rows /\ Forall (fun c => cW c = width) rows /\ map cH rows = rowH /\
  concat (map cellPanes rows) = ps.
Proof.
  intros Hc Hl Hne HW HF. revert ps y Hl Hne. induction HF as [|h rowH Hh HF IH]; intros ps y Hl Hne; [done|].
  cbn [buildGridRows]. rewrite lenZ_cons in Hl.
  set (row := take (Z.to_nat cols) ps). set (rest := drop (Z.to_nat cols) ps).
  assert (ps = row ++ rest) as Eps by (unfold row, rest; by rewrite take_drop).
  assert (0 < lenZ ps) as Hpos by (pose proof (lenZ_nonneg rowH); nia).
  assert (lenZ row = Z.min cols (lenZ ps)) as Hrow.
  { unfold row, lenZ in *. rewrite length_take. lia. }
  assert (lenZ rest = Z.max 0 (lenZ ps - cols)) as Hrest.
  { unfold rest, lenZ in *. rewrite length_drop. lia. }
  assert (row <> []) as Hrne by (intros E0; rewrite E0, lenZ_nil in Hrow; lia).
  destruct (buildGridRowCell_spec row x y width h Hrne Hh) as (Hw & Hr & HP).
  { unfold PaneMinSize in *. lia. }
  set (c := buildGridRowCell row x y width h) in *.
  destruct rowH as [|h2 rowH].
  { rewrite lenZ_nil in Hl. assert (rest = []) as E0.
    { destruct rest; [done|]. rewrite lenZ_cons in Hrest. pose proof (lenZ_nonneg rest). lia. }
    cbn [buildGridRows map concat]. rewrite HP, Eps, E0. unfold cW, cH.
    split_and!; [by repeat constructor|repeat constructor; by rewrite Hr|by rewrite Hr|done]. }
  destruct (IH rest (y + h + 1)) as (H1 & H2 & H3 & H4); [|done|].
  { rewrite lenZ_cons in *. pose proof (lenZ_nonneg rowH). lia. }
  cbn [map concat]. rewrite H3, H4, HP, Eps. unfold cW, cH in *.
  split_and!; [by constructor|constructor; [by rewrite Hr|done]|by rewrite Hr|done].
Qed.

Lemma ceil_rows n cols :
  0 < n -> 1 <= cols ->
  let rows := Z.quot (n + cols - 1) cols in 1 <= rows /\ (rows - 1) * cols < n <= rows * cols.
Proof.
  intros Hn Hc rows. unfold rows. rewrite Z.quot_div_nonneg by lia.
  pose proof (Z.div_mod (n + cols - 1) cols ltac:(lia)). pose proof (Z.mod_pos_bound (n + cols - 1) cols ltac:(lia)).
  set (q := (n + cols - 1) / cols) in *. nia.
Qed.

(** The grid a window gets when it leaves the ultra layout. *)
Lemma buildGridTree_spec (ps : list (option Z)) cols x y width height :
  ps <> [] -> 1 <= cols -> PaneMinSize * cols + (cols - 1) <= width ->
  (let rows := Z.quot (lenZ ps + cols - 1) cols in PaneMinSize * rows + (rows - 1) <= height) ->
  let c := buildGridTree ps cols x y width height in
  wf c /\ cellRect c = mkRect x y width height /\ cellPanes c = ps.
Proof.
  intros Hne Hc HW HH. pose proof (lenZ_pos ps Hne) as Hpos.
  pose proof (ceil_rows (lenZ ps) cols Hpos Hc) as [Hr1 Hr2]. cbv zeta in HH.
  unfold buildGridTree. destruct (Z.ltb_spec cols 1) as [|_]; [lia|].
  set (rows := Z.quot (lenZ ps + cols - 1) cols) in *.
  destruct (Z.ltb_spec rows 1) as [|_]; [lia|].
  assert (forall p, ps = [p] -> wf (NewLeaf p x y width height) /\
    cellRect (NewLeaf p x y width height) = mkRect x y width height /\
    cellPanes (NewLeaf p x y width height) = ps) as Hone.
  { intros p ->. split_and!; [constructor; simpl; unfold PaneMinSize in *; lia|done|done]. }
  assert (forall c, c = (if rows =? 1 then buildGridRowCell (take (Z.to_nat cols) ps) x y width height
      else Node (mkRect x y width height) SplitHorizontal
        (buildGridRows ps cols x y width (equalSplitSizes height rows))) ->
    wf c /\ cellRect c = mkRect x y width height /\ cellPanes c = ps) as Hmany.
  { intros c ->. destruct (Z.eqb_spec rows 1) as [E|E].
    - rewrite take_ge by (unfold lenZ in *; nia). apply buildGridRowCell_spec; [done|..];
        unfold PaneMinSize in *; lia.
    - pose proof (length_equalSplitSizes height rows ltac:(lia)) as Hl.
      destruct (buildGridRows_spec ps cols x y width (equalSplitSizes height rows)) as (H1 & H2 & H3 & H4).
      { done. } { rewrite Hl. lia. } { intros E0. rewrite E0, lenZ_nil in Hl. lia. } { done. }
      { apply equalSplitSizes_min; lia. }
      split_and!; [|done|by rewrite cellPanes_node].
      set (rs := buildGridRows _ _ _ _ _ _) in *.
      assert (lenZ rs = rows) as Hlr by (rewrite <- (lenZ_map cH rs), H3; done).
      constructor; [unfold lenZ in Hlr; lia|done|done|].
      change (map (axisSize SplitHorizontal)) with (map cH).
      rewrite H3, sum_equalSplitSizes, Hlr by lia. simpl. lia. }
  destruct ps as [|p [|p2 ps]]; [done|by apply Hone|by apply Hmany].
Qed.

Lemma filter_slots (slots : list (option Z)) :
  filter (fun p => p <> None) slots = map Some (omap id slots).
Proof.
  induction slots as [|[x|] l IH]; [done| |].
  - rewrite filter_cons_True by done. rewrite omap_id_cons. simpl. by f_equal.
  - rewrite filter_cons_False by naive_solver. exact IH.
Qed.

Definition disableLeadWidth (width : Z) : Z :=
  let leadW := Z.max 20 (Z.quot width 3) in
  if Z.quot (width * 4) 5 <? leadW then Z.quot (width * 4) 5 else leadW.

(** Room for the grid of agents a window of this size gets without the ultra
    layout. *)
Definition gridRoom (u : UltraLayout) (w : Window) : Prop :=
  let n := lenZ (omap id (uSlots u)) in
  let rows := Z.quot (n + uCols u - 1) (uCols u) in
  let width := if LeadPaneID w =? 0 then Width w else Width w - disableLeadWidth (Width w) - 1 in
  PaneMinSize <= Width w /\ PaneMinSize <= Height w /\
  (0 < n -> PaneMinSize * uCols u + (uCols u - 1) <= width /\
            PaneMinSize * rows + (rows - 1) <= Height w).

Lemma disableLeadWidth_min width :
  0 <= width -> PaneMinSize <= width - disableLeadWidth width - 1 -> PaneMinSize <= disableLeadWidth width.
Proof.
  unfold disableLeadWidth, PaneMinSize. intros H0 H. rewrite !Z.quot_div_nonneg in * by lia.
  pose proof (Z.div_mod (width * 4) 5 ltac:(lia)). pose proof (Z.mod_pos_bound (width * 4) 5 ltac:(lia)).
  zb; lia.
Qed.

(** The tree a window gets when it leaves the ultra layout. *)
Definition leftTree (u : UltraLayout) (w : Window) (root : LayoutCell) : Prop :=
  wf root /\ cellRect root = mkRect 0 0 (Width w) (Height w) /\
  cellPanes root = map Some (option_list (ultraLead w) ++ omap id (uSlots u)).

Lemma leftTree_grid u w :
  UltraInv w u -> gridRoom u w -> ultraLead w = None -> LeadPaneID w = 0 -> omap id (uSlots u) <> [] ->
  leftTree u w (buildGridTree (map Some (omap id (uSlots u))) (uCols u) 0 0 (Width w) (Height w)).
Proof.
  intros [Hs _ _ _] (HW & HH & Hroom) Hl H0 Hne. rewrite H0 in Hroom. simpl in Hroom.
  pose proof (lenZ_pos _ Hne) as Hpos. destruct (Hroom Hpos) as [H1 H2].
  destruct (buildGridTree_spec (map Some (omap id (uSlots u))) (uCols u) 0 0 (Width w) (Height w))
    as (? & ? & ?); [by destruct (omap id (uSlots u))|apply (si_grid _ _ Hs)|done|by rewrite lenZ_map|].
  unfold leftTree. rewrite Hl. done.
Qed.

Lemma leftTree_lead u w l :
  UltraInv w u -> gridRoom u w -> ultraLead w = Some l -> LeadPaneID w <> 0 -> omap id (uSlots u) <> [] ->
  let leadW := disableLeadWidth (Width w) in
  leftTree u w (Node (mkRect 0 0 (Width w) (Height w)) SplitVertical
    [NewLeaf (Some l) 0 0 leadW (Height w);
     buildGridTree (map Some (omap id (uSlots u))) (uCols u) (leadW + 1) 0 (Width w - leadW - 1) (Height w)]).
Proof.
  intros [Hs _ _ _] (HW & HH & Hroom) Hl H0 Hne leadW.
  rewrite (proj2 (Z.eqb_neq (LeadPaneID w) 0) H0) in Hroom. fold leadW in Hroom.
  pose proof (lenZ_pos _ Hne) as Hpos. destruct (Hroom Hpos) as [H1 H2].
  pose proof (si_grid _ _ Hs) as (_ & Hc & _).
  destruct (buildGridTree_spec (map Some (omap id (uSlots u))) (uCols u) (leadW + 1) 0
    (Width w - leadW - 1) (Height w)) as (Hw & Hr & HP);
    [by destruct (omap id (uSlots u))|lia|done|by rewrite lenZ_map|].
  set (grid := buildGridTree _ _ _ _ _ _) in *.
  assert (PaneMinSize <= leadW) by (apply disableLeadWidth_min; fold leadW; unfold PaneMinSize in *; lia).
  unfold leftTree. rewrite Hl. split_and!; [|done|].
  - constructor; [simpl; lia|repeat constructor; done| |].
    + constructor; [done|]. constructor; [|constructor]. unfold axisSize. by rewrite Hr.
    + simpl. unfold axisSize. rewrite Hr. simpl. lsum.
  - rewrite cellPanes_node. simpl. by rewrite HP, app_nil_r.
Qed.

Lemma DisableUltra_ok w u :
  UltraInv w u -> gridRoom u w -> ZoomedPaneID w = 0 \/ ZoomedPaneID w ∈ ultraPanes u w ->
  exists w', DisableUltra w = (w', Ok tt) /\ WindowInv w' /\
    treePanes (Root w') ≡ₚ ultraPanes u w /\ ActivePane w' = ActivePane w /\
    LeadPaneID w' = LeadPaneID w /\ (LeadPaneID w <> 0 -> omap id (uSlots u) <> [] -> hasAnchoredLead w' = true).
Proof.
  intros Hinv Hroom Hz. pose proof Hinv as [Hs Hp HR (a & Ha & Hain & _)].
  pose proof Hs as [HU Hg Hl Hnd Hpos Hne Hw]. pose proof (ultraPanes_lead u w Hl) as Hup.
  unfold DisableUltra. rewrite HU.
  assert (leadPane w = ultraLead w) as ->.
  { unfold leadPane. rewrite HU, Hl. by destruct (LeadPaneID w =? 0). }
  rewrite filter_slots.
  assert (Hinstall : forall root, leftTree u w root ->
    let w1 := setRoot (FixOffsets root) (setUltra None w) in
    WindowInv w1 /\ treePanes (Root w1) ≡ₚ ultraPanes u w /\
    bool_decide (FindPane a (FixOffsets root) = None) = false).
  { intros root (Hwf & Hr & HP) w1. rewrite <- Hup in HP.
    destruct (finish_inv w1 w1 root (ultraPanes u w)) as [Hi Ht]; try done.
    - by rewrite HP.
    - by exists a.
    - rewrite Hup, Hl. destruct (Z.eqb_spec (LeadPaneID w) 0); [by left|right]. apply list_elem_of_here.
    - split_and!; [done|done|]. apply bool_decide_eq_false. intros E. apply FindPane_None in E. apply E.
      simpl in Ht. by rewrite Ht. }
  assert (Hfin : forall root, leftTree u w root ->
    (LeadPaneID w <> 0 -> omap id (uSlots u) <> [] -> hasAnchoredLead (setRoot (FixOffsets root) (setUltra None w)) = true) ->
    let w1 := setRoot (FixOffsets root) (setUltra None w) in
    let lost := match ActivePane w1 with None => true
                | Some id => bool_decide (FindPane id (Root w1) = None) end in
    exists w', (resizePTYs (if lost then match firstPaneInSubtree (Root w1) with
        | Some p => setActive p w1 | None => w1 end else w1), Ok tt) = (w', @Ok WindowError unit tt) /\
      WindowInv w' /\ treePanes (Root w') ≡ₚ ultraPanes u w /\ ActivePane w' = ActivePane w /\
      LeadPaneID w' = LeadPaneID w /\
      (LeadPaneID w <> 0 -> omap id (uSlots u) <> [] -> hasAnchoredLead w' = true)).
  { intros root Hroot Han. destruct (Hinstall root Hroot) as (Hi & Ht & Hlost). cbv zeta.
    set (w1 := setRoot (FixOffsets root) (setUltra None w)) in *.
    change (ActivePane w1) with (ActivePane w). rewrite Ha.
    change (Root w1) with (FixOffsets root). rewrite Hlost. unfold w1. eexists. split; [done|].
    pose proof (ptyOnly_inv _ _ (resizePTYs_pty _) Hi) as Hi'.
    destruct (resizePTYs_pty (setRoot (FixOffsets root) (setUltra None w))) as [E _].
    split_and!; [exact Hi'|rewrite E; exact Ht|rewrite E; exact Ha|by rewrite E|].
    intros H1 H2. rewrite E. by apply Han. }
  destruct (ultraLead w) as [l|] eqn:El.
  - destruct (Z.eqb_spec (LeadPaneID w) 0) as [|Hl0]; [done|]. injection Hl as ->.
    destruct (omap id (uSlots u)) as [|b agents] eqn:Eag.
    + apply Hfin; [|done]. unfold leftTree. rewrite El, Eag. destruct Hroom as (HW & HH & _).
      split_and!; [by constructor|done|done].
    + change (map Some (b :: agents)) with (Some b :: map Some agents). rewrite <- Eag in Hfin |- *.
      pose proof (leftTree_lead u w (LeadPaneID w) Hinv Hroom El Hl0) as Htree. rewrite Eag in Htree.
      specialize (Htree ltac:(done)). apply (Hfin _ Htree). intros _ _. unfold hasAnchoredLead. simpl.
      rewrite (proj2 (Z.eqb_neq (LeadPaneID w) 0) Hl0). simpl. by rewrite bool_decide_true.
  - destruct (Z.eqb_spec (LeadPaneID w) 0) as [Hl0|]; [|done].
    destruct (omap id (uSlots u)) as [|b agents] eqn:Eag; [by rewrite Hup in Hne|].
    pose proof (leftTree_grid u w Hinv Hroom El Hl0) as Htree. rewrite Eag in Htree.
    apply (Hfin _ (Htree ltac:(done))). done.
Qed.

(** ** A concrete window with five panes *)

Definition ultraSource : Window :=
  mkWindow (FixOffsets (Node (mkRect 0 0 44 11) SplitVertical
    [NewLeaf (Some 1) 0 0 8 11; NewLeaf (Some 2) 0 0 8 11; NewLeaf (Some 3) 0 0 8 11;
     NewLeaf (Some 4) 0 0 8 11; NewLeaf (Some 5) 0 0 8 11])) (Some 5) 44 11 0 2 None None ∅ 0.

Lemma ultraSource_inv : WindowInv ultraSource.
Proof.
  constructor; [done| | |by left|].
  - split_and!; try done; [by apply wfb_sound| |by repeat constructor].
    apply (bool_decide_unpack _). by vm_compute.
  - exists 5. split; [done|]. apply (bool_decide_unpack _). by vm_compute.
  - right. apply (bool_decide_unpack _). by vm_compute.
Defined.

Lemma ultraSource_working : working (panes ultraSource).
Proof. apply map_Forall_empty. Defined.

(** The 2x2 layout on it: the lead 2 and pages [1; 3; 4] and [5]. *)
Definition ultraSample : Window := (EnableUltra 2 2 true ultraSource).1.
Definition ultraTable : UltraLayout := mkUltraLayout 2 2 1 [Some 1; Some 3; Some 4; Some 5] true.

Lemma ultraSample_entered : EnableUltra 2 2 true ultraSource = (ultraSample, Ok tt).
Proof. by vm_compute. Defined.
Lemma ultraSample_table : Ultra ultraSample = Some ultraTable.
Proof. by vm_compute. Defined.

Lemma ultraSample_inv : UltraInv ultraSample ultraTable.
Proof.
  constructor.
  - constructor; try by vm_compute.
    + apply (bool_decide_unpack _). by vm_compute.
    + repeat constructor.
  - done.
  - by vm_compute.
  - exists 5. split_and!; [by vm_compute| |intros _]; apply (bool_decide_unpack _); by vm_compute.
Defined.

Lemma in_ultraSample id : id = 1 \/ id = 2 \/ id = 3 \/ id = 4 \/ id = 5 -> id ∈ ultraPanes ultraTable ultraSample.
Proof. intros [->|[->|[->|[->| ->]]]]; apply (bool_decide_unpack _); by vm_compute. Defined.

(** ** The grid *)

(** The rebuilt grid shows the lead in its first cell and then the slots of
    the visible page in order, and nothing else; with the minimum size for every
    cell it is a well-formed layout that fills the window. *)
Theorem gridRoot_correct u lead width height :
  gridOk u -> 0 <= uPage u ->
  let root := gridRoot u lead width height in
  cellPanes root = map (gridPane u lead (uPage u * AgentSlotsPerPage u)) (seqZ 0 (uRows u * uCols u)) /\
  treePanes root = option_list lead ++ omap id (pageSlots u) /\
  (PaneMinSize * uCols u + (uCols u - 1) <= width -> PaneMinSize * uRows u + (uRows u - 1) <= height ->
     wf root /\ positioned root /\ cellRect root = mkRect 0 0 width height).
Proof.
  intros Hg Hp root. split_and!; [by apply gridRoot_cellPanes|by apply gridRoot_panes|].
  intros. by apply gridRoot_wf.
Qed.

Lemma gridRoot_correct_witness :
  let root := gridRoot ultraTable (Some 2) 44 11 in
  cellPanes root
    = map (gridPane ultraTable (Some 2) (uPage ultraTable * AgentSlotsPerPage ultraTable))
        (seqZ 0 (uRows ultraTable * uCols ultraTable)) /\
  treePanes root = option_list (Some 2) ++ omap id (pageSlots ultraTable) /\
  (PaneMinSize * uCols ultraTable + (uCols ultraTable - 1) <= 44 ->
   PaneMinSize * uRows ultraTable + (uRows ultraTable - 1) <= 11 ->
     wf root /\ positioned root /\ cellRect root = mkRect 0 0 44 11).
Proof. apply gridRoot_correct; [repeat split; discriminate|discriminate]. Defined.

(** A new pane takes the lowest empty slot, or a new slot at the end: the
    slots before it are full and no other slot changes. *)
Theorem ultraSlotInsert_lowest pane u :
  let '(u', idx) := ultraSlotInsert pane u in
  Forall is_Some (take idx (uSlots u)) /\
  (uSlots u !! idx = Some None \/ idx = length (uSlots u)) /\
  uSlots u' !! idx = Some (Some pane) /\
  (forall i, i <> idx -> uSlots u' !! i = uSlots u !! i) /\
  uRows u' = uRows u /\ uCols u' = uCols u /\ uPage u' = uPage u.
Proof.
  unfold ultraSlotInsert. pose proof (insertSlot_spec pane 0 (uSlots u)) as H.
  destruct (insertSlot pane 0 (uSlots u)) as [slots' i]. destruct H as (l1 & l2 & -> & HF & -> & H).
  simpl. assert (forall x (l l' : list (option Z)) j, j <> length l ->
    (l ++ x :: l') !! j = match l' with [] => l !! j | _ => (l ++ x :: l') !! j end) as Hend.
  { intros x l [|y l'] j Hj; [|done]. destruct (decide (j < length l)%nat); [by apply lookup_app_l|].
    rewrite !lookup_ge_None_2; [done| |]; rewrite ?length_app; simpl; lia. }
  assert (uSlots u !! length l1 = Some None \/ length l1 = length (uSlots u)) as Hidx.
  { destruct H as [->|[-> _]]; [left; by rewrite list_lookup_middle|by right]. }
  split_and!; [|done|by apply list_lookup_middle| |done|done|done].
  - destruct H as [->|[-> _]]; [by rewrite take_app_length|by rewrite firstn_all].
  - intros j Hj. destruct H as [->|[-> ->]].
    + destruct (decide (j < length l1)%nat); [by rewrite !lookup_app_l|].
      rewrite !lookup_app_r by lia. destruct (j - length l1)%nat as [|k] eqn:E; [lia|done].
    + by rewrite Hend.
Qed.

(** Trimming keeps every pane in its slot and drops only empty slots at the
    end; afterwards the last page, if it is not the only one, has a pane. *)
Theorem trimEmptyPages_correct u :
  let u' := trimEmptyPages u in
  (exists tail, uSlots u = uSlots u' ++ tail /\ omap id tail = []) /\
  omap id (uSlots u') = omap id (uSlots u) /\ pageInRange u' /\
  (1 < PageCount u' -> omap id (pageSlots (withPage (PageCount u' - 1) u')) <> []).
Proof.
  intros u'. destruct (trimLoop_spec (length (uSlots u)) (AgentSlotsPerPage u) (uSlots u))
    as (tail & E & Ht & Hl); [apply AgentSlotsPerPage_pos|done|].
  assert (uSlots u' = trimLoop (length (uSlots u)) (AgentSlotsPerPage u) (uSlots u)) as Hs.
  { unfold u', trimEmptyPages. by rewrite clampPage_slots. }
  split_and!; [exists tail; by rewrite Hs|apply trimEmptyPages_panes|apply clampPage_inRange|].
  pose proof (trimEmptyPages_per u) as Hper. fold u' in Hper.
  rewrite <- Hs, <- Hper in Hl. intros Hp. apply (trimmed_last u' Hp Hl).
Qed.

(** ** Slot operations *)

(** One operation on a window in the ultra layout, new panes with fresh IDs. *)
Inductive ustep : Window -> Window -> Prop :=
| ustep_insert pane opts w u :
    Ultra w = Some u -> 0 < pane -> pane ∉ ultraPanes u w -> ustep w (ultraInsert pane opts w)
| ustep_close pane w u : Ultra w = Some u -> pane ∈ ultraPanes u w -> ustep w (ultraClose pane w).1
| ustep_setLead pane w u : Ultra w = Some u -> pane ∈ ultraPanes u w -> ustep w (ultraSetLead pane w).1
| ustep_unsetLead w : LeadPaneID w <> 0 -> ustep w (ultraUnsetLead w).1
| ustep_swap id1 id2 w u :
    Ultra w = Some u -> is_Some (SlotOf id1 u) -> is_Some (SlotOf id2 u) -> ustep w (ultraSwap id1 id2 w).1
| ustep_setPage page w : ustep w (UltraSetPage page w).1
| ustep_stepPage delta w : ustep w (UltraStepPage delta w).1
| ustep_promote pane busy w : ustep w (UltraPromote pane busy w).1.

Definition ultraGood (w : Window) : Prop := exists u, UltraInv w u.

Lemma UltraInv_table w u u' : UltraInv w u -> Ultra w = Some u' -> u' = u.
Proof. intros [[HU _ _ _ _ _ _] _ _ _] H. congruence. Qed.

Lemma ustep_good w w' : ultraGood w -> ustep w w' -> ultraGood w'.
Proof.
  intros [u Hi] Hs. destruct Hs as
    [pane opts w u' Hu Hp Hn|pane w u' Hu Hin|pane w u' Hu Hin|w Hl|id1 id2 w u' Hu [i H1] [j H2]
    |page w|delta w|pane busy w]; try (pose proof (UltraInv_table _ _ _ Hi Hu); subst u').
  - destruct (ultraInsert_ok pane opts w u Hi Hp Hn) as (u' & ? & _). by exists u'.
  - pose proof (ultraClose_ok pane w u Hi Hin) as H. destruct (ultraClose pane w) as [w' res]. simpl.
    destruct (_ <=? 1); [destruct H as [_ ->]; by exists u|]. destruct H as (u' & _ & ? & _). by exists u'.
  - destruct (ultraSetLead_ok pane w u Hi Hin) as (w' & u' & -> & ? & _). by exists u'.
  - destruct (ultraUnsetLead_ok w u Hi Hl) as (w' & u' & -> & ? & _). by exists u'.
  - destruct (ultraSwap_ok id1 id2 i j w u Hi H1 H2) as (w' & u' & -> & ? & _). by exists u'.
  - pose proof (UltraSetPage_ok page w u Hi) as H. destruct (UltraSetPage page w) as [w' res]. simpl.
    destruct (_ && _); [destruct H as (_ & ? & _); by eexists|destruct H as [_ ->]; by exists u].
  - destruct (UltraStepPage_ok delta w u Hi) as (w' & -> & ? & _). by eexists.
  - pose proof (UltraPromote_ok pane busy w u Hi) as H. destruct (UltraPromote pane busy w) as [w' ok]. simpl.
    destruct ok; [destruct H as (_ & u' & ? & _); by exists u'|by subst; exists u].
Qed.

Lemma ultraSample_closed : rtc ustep ultraSample (ultraClose 3 ultraSample).1.
Proof.
  apply rtc_once. exact (ustep_close 3 ultraSample ultraTable ultraSample_table (in_ultraSample 3 ltac:(auto))).
Defined.

(** C19. The invariant of the ultra layout: after entering it and any sequence of
    inserts, closes, lead changes, swaps, page changes and promotions the tree
    is the grid of the current page, the page exists, no pane occurs twice, the
    lead cell holds the lead pane, and the focused pane is one of the panes and
    is shown whenever the page shows any. *)
Theorem reachable_ultra_invariant rows cols auto w0 w1 w :
  WindowInv w0 -> working (panes w0) -> ValidateUltraGrid rows cols = Ok tt ->
  EnableUltra rows cols auto w0 = (w1, Ok tt) -> rtc ustep w1 w ->
  exists u, Ultra w = Some u /\ 0 <= uPage u < PageCount u /\
    treePanes (Root w) = option_list (visibleLead w) ++ omap id (pageSlots u) /\
    NoDup (ultraPanes u w) /\ ultraLead w = (if LeadPaneID w =? 0 then None else Some (LeadPaneID w)) /\
    exists a, ActivePane w = Some a /\ a ∈ ultraPanes u w /\ (treePanes (Root w) <> [] -> a ∈ treePanes (Root w)).
Proof.
  intros Hi Hw Hv HE Hr. assert (ultraGood w1) as Hg.
  { destruct (EnableUltra_ok rows cols auto w0 Hi Hw Hv) as (w' & u' & E & ? & _).
    rewrite HE in E. injection E as ->. by exists u'. }
  assert (ultraGood w) as [u [Hs Hp HR Ha]].
  { revert Hg. clear HE. induction Hr as [|x y z Hs _ IH]; [done|]. intros. apply IH. by eapply ustep_good. }
  exists u. split_and!; [apply Hs|apply Hp|apply Hp| |apply Hs|apply Hs|done].
  rewrite HR. apply gridRoot_panes; [apply Hs|apply Hp].
Qed.

Lemma reachable_ultra_invariant_witness :
  let w := (ultraClose 3 ultraSample).1 in
  exists u, Ultra w = Some u /\ 0 <= uPage u < PageCount u /\
    treePanes (Root w) = option_list (visibleLead w) ++ omap id (pageSlots u) /\
    NoDup (ultraPanes u w) /\ ultraLead w = (if LeadPaneID w =? 0 then None else Some (LeadPaneID w)) /\
    exists a, ActivePane w = Some a /\ a ∈ ultraPanes u w /\ (treePanes (Root w) <> [] -> a ∈ treePanes (Root w)).
Proof.
  apply (reachable_ultra_invariant 2 2 true ultraSource ultraSample (ultraClose 3 ultraSample).1
    ultraSource_inv ultraSource_working eq_refl ultraSample_entered ultraSample_closed).
Defined.

(** Closing a pane of the ultra layout: the last pane is refused, otherwise
    exactly that pane goes, with its lead role or its zoom. *)
Theorem ultraClose_correct pane w u :
  UltraInv w u -> pane ∈ ultraPanes u w ->
  let w' := (ultraClose pane w).1 in
  let res := (ultraClose pane w).2 in
  if lenZ (ultraPanes u w) <=? 1 then res = Err errLastPane /\ w' = w
  else exists u', res = Ok tt /\ UltraInv w' u' /\ ultraPanes u w ≡ₚ pane :: ultraPanes u' w' /\
    LeadPaneID w' = (if LeadPaneID w =? pane then 0 else LeadPaneID w) /\
    ZoomedPaneID w' = (if ZoomedPaneID w =? pane then 0 else ZoomedPaneID w).
Proof.
  intros Hi Hin. pose proof (ultraClose_ok pane w u Hi Hin) as H. destruct (ultraClose pane w). exact H.
Qed.

Lemma ultraClose_correct_witness :
  let w' := (ultraClose 2 ultraSample).1 in
  let res := (ultraClose 2 ultraSample).2 in
  if lenZ (ultraPanes ultraTable ultraSample) <=? 1 then res = Err errLastPane /\ w' = ultraSample
  else exists u', res = Ok tt /\ UltraInv w' u' /\
    ultraPanes ultraTable ultraSample ≡ₚ 2 :: ultraPanes u' w' /\
    LeadPaneID w' = (if LeadPaneID ultraSample =? 2 then 0 else LeadPaneID ultraSample) /\
    ZoomedPaneID w' = (if ZoomedPaneID ultraSample =? 2 then 0 else ZoomedPaneID ultraSample).
Proof. exact (ultraClose_correct 2 ultraSample ultraTable ultraSample_inv (in_ultraSample 2 ltac:(auto))). Defined.

(** Making a slot pane the lead: it becomes the lead, the old lead returns to
    a slot and no pane is lost; giving the role up again loses none either. *)
Theorem ultraSetLead_correct pane w u :
  UltraInv w u -> pane ∈ ultraPanes u w ->
  exists w1 u1 w2 u2, ultraSetLead pane w = (w1, Ok tt) /\ UltraInv w1 u1 /\
    ultraPanes u1 w1 ≡ₚ ultraPanes u w /\ LeadPaneID w1 = pane /\
    ultraUnsetLead w1 = (w2, Ok tt) /\ UltraInv w2 u2 /\
    ultraPanes u2 w2 ≡ₚ ultraPanes u w /\ LeadPaneID w2 = 0.
Proof.
  intros Hi Hin. destruct (ultraSetLead_ok pane w u Hi Hin) as (w1 & u1 & E1 & Hi1 & HP1 & HL1).
  assert (0 < pane) as Hp.
  { pose proof (si_ids _ _ (ui_slots _ _ Hi)) as HF. rewrite Forall_forall in HF. by apply HF. }
  destruct (ultraUnsetLead_ok w1 u1 Hi1 ltac:(lia)) as (w2 & u2 & E2 & Hi2 & HP2 & HL2).
  exists w1, u1, w2, u2. split_and!; try done. by rewrite HP2.
Qed.

Lemma ultraSetLead_correct_witness :
  exists w1 u1 w2 u2, ultraSetLead 4 ultraSample = (w1, Ok tt) /\ UltraInv w1 u1 /\
    ultraPanes u1 w1 ≡ₚ ultraPanes ultraTable ultraSample /\ LeadPaneID w1 = 4 /\
    ultraUnsetLead w1 = (w2, Ok tt) /\ UltraInv w2 u2 /\
    ultraPanes u2 w2 ≡ₚ ultraPanes ultraTable ultraSample /\ LeadPaneID w2 = 0.
Proof. exact (ultraSetLead_correct 4 ultraSample ultraTable ultraSample_inv (in_ultraSample 4 ltac:(auto))). Defined.

(** Swapping two slots exchanges exactly the two panes and stays on the page. *)
Theorem ultraSwap_correct id1 id2 i j w u :
  UltraInv w u -> SlotOf id1 u = Some i -> SlotOf id2 u = Some j ->
  exists w' u', ultraSwap id1 id2 w = (w', Ok tt) /\ UltraInv w' u' /\
    ultraPanes u' w' ≡ₚ ultraPanes u w /\ LeadPaneID w' = LeadPaneID w /\
    uPage u' = uPage u /\ uSlots u' !! i = Some (Some id2) /\ (i <> j -> uSlots u' !! j = Some (Some id1)).
Proof. apply ultraSwap_ok. Qed.

Lemma ultraSwap_correct_witness :
  exists w' u', ultraSwap 1 5 ultraSample = (w', Ok tt) /\ UltraInv w' u' /\
    ultraPanes u' w' ≡ₚ ultraPanes ultraTable ultraSample /\ LeadPaneID w' = LeadPaneID ultraSample /\
    uPage u' = uPage ultraTable /\ uSlots u' !! 0%nat = Some (Some 5) /\
    (0%nat <> 3%nat -> uSlots u' !! 3%nat = Some (Some 1)).
Proof. exact (ultraSwap_correct 1 5 0 3 ultraSample ultraTable ultraSample_inv eq_refl eq_refl). Defined.

(** Paging: a page in range is shown and the slots stay as they are, another
    page is refused without a change; stepping never fails and wraps around. *)
Theorem paging_correct page delta w u :
  UltraInv w u ->
  (let w' := (UltraSetPage page w).1 in
   let res := (UltraSetPage page w).2 in
   if (0 <=? page) && (page <? PageCount u) then
     res = Ok tt /\ UltraInv w' (withPage page u) /\ ultraPanes (withPage page u) w' = ultraPanes u w
   else res = Err (errPageRange (page + 1) (PageCount u)) /\ w' = w) /\
  exists w', UltraStepPage delta w = (w', Ok tt) /\
    let page := (uPage u + delta) mod PageCount u in
    UltraInv w' (withPage page u) /\ ultraPanes (withPage page u) w' = ultraPanes u w.
Proof.
  intros Hi. split; [|by apply UltraStepPage_ok]. pose proof (UltraSetPage_ok page w u Hi) as H.
  destruct (UltraSetPage page w). exact H.
Qed.

Lemma paging_correct_witness :
  (let w' := (UltraSetPage 0 ultraSample).1 in
   let res := (UltraSetPage 0 ultraSample).2 in
   if (0 <=? 0) && (0 <? PageCount ultraTable) then
     res = Ok tt /\ UltraInv w' (withPage 0 ultraTable) /\
     ultraPanes (withPage 0 ultraTable) w' = ultraPanes ultraTable ultraSample
   else res = Err (errPageRange (0 + 1) (PageCount ultraTable)) /\ w' = ultraSample) /\
  exists w', UltraStepPage (-3) ultraSample = (w', Ok tt) /\
    let page := (uPage ultraTable + -3) mod PageCount ultraTable in
    UltraInv w' (withPage page ultraTable) /\
    ultraPanes (withPage page ultraTable) w' = ultraPanes ultraTable ultraSample.
Proof. exact (paging_correct 0 (-3) ultraSample ultraTable ultraSample_inv). Defined.

(** Promotion acts only on a hidden pane, brings it onto the visible page
    without leaving that page, and loses no pane; otherwise nothing changes. *)
Theorem UltraPromote_correct pane busy w u :
  UltraInv w u ->
  let w' := (UltraPromote pane busy w).1 in
  if (UltraPromote pane busy w).2 then UltraPaneHidden pane w = true /\
    exists u', UltraInv w' u' /\ ultraPanes u' w' ≡ₚ ultraPanes u w /\ pane ∈ treePanes (Root w') /\
      uPage u' = uPage u
  else w' = w.
Proof.
  intros Hi. pose proof (UltraPromote_ok pane busy w u Hi) as H. destruct (UltraPromote pane busy w). exact H.
Qed.

Lemma UltraPromote_correct_witness :
  let w' := (UltraPromote 1 None ultraSample).1 in
  if (UltraPromote 1 None ultraSample).2 then UltraPaneHidden 1 ultraSample = true /\
    exists u', UltraInv w' u' /\ ultraPanes u' w' ≡ₚ ultraPanes ultraTable ultraSample /\
      1 ∈ treePanes (Root w') /\ uPage u' = uPage ultraTable
  else w' = ultraSample.
Proof. exact (UltraPromote_correct 1 None ultraSample ultraTable ultraSample_inv). Defined.

(** ** Entering and leaving *)

(** Entering the ultra layout keeps every pane, the focus and the lead, and
    ends a zoom. *)
Theorem EnableUltra_correct rows cols auto w :
  WindowInv w -> working (panes w) -> ValidateUltraGrid rows cols = Ok tt ->
  exists w' u', EnableUltra rows cols auto w = (w', Ok tt) /\ UltraInv w' u' /\
    uRows u' = rows /\ uCols u' = cols /\
    ultraPanes u' w' ≡ₚ treePanes (Root w) /\ ActivePane w' = ActivePane w /\
    LeadPaneID w' = LeadPaneID w /\ ZoomedPaneID w' = 0.
Proof. apply EnableUltra_ok. Qed.

Lemma EnableUltra_correct_witness :
  exists w' u', EnableUltra 3 4 false ultraSource = (w', Ok tt) /\ UltraInv w' u' /\
    uRows u' = 3 /\ uCols u' = 4 /\
    ultraPanes u' w' ≡ₚ treePanes (Root ultraSource) /\ ActivePane w' = ActivePane ultraSource /\
    LeadPaneID w' = LeadPaneID ultraSource /\ ZoomedPaneID w' = 0.
Proof.
  apply EnableUltra_correct; [apply ultraSource_inv|apply ultraSource_working|reflexivity].
Defined.

(** Leaving the ultra layout, where its panes have room, gives a window in
    order with the same panes, the visible and the hidden ones, the same focus
    and the lead as the anchored left column. *)
Theorem DisableUltra_correct w u :
  UltraInv w u -> gridRoom u w -> ZoomedPaneID w = 0 \/ ZoomedPaneID w ∈ ultraPanes u w ->
  exists w', DisableUltra w = (w', Ok tt) /\ WindowInv w' /\
    treePanes (Root w') ≡ₚ ultraPanes u w /\ ActivePane w' = ActivePane w /\
    LeadPaneID w' = LeadPaneID w /\ (LeadPaneID w <> 0 -> omap id (uSlots u) <> [] -> hasAnchoredLead w' = true).
Proof. apply DisableUltra_ok. Qed.

Lemma ultraSample_room : gridRoom ultraTable ultraSample.
Proof. vm_compute. repeat split; discriminate. Defined.

Lemma DisableUltra_correct_witness :
  exists w', DisableUltra ultraSample = (w', Ok tt) /\ WindowInv w' /\
    treePanes (Root w') ≡ₚ ultraPanes ultraTable ultraSample /\ ActivePane w' = ActivePane ultraSample /\
    LeadPaneID w' = LeadPaneID ultraSample /\
    (LeadPaneID ultraSample <> 0 -> omap id (uSlots ultraTable) <> [] -> hasAnchoredLead w' = true).
Proof.
  exact (DisableUltra_correct ultraSample ultraTable ultraSample_inv ultraSample_room (or_introl eq_refl)).
Defined.
