(* ===== verification/GoText.v ===== *)
(** * Bytes, strings and decimal numbers of Go's standard library

    A [[]byte] is a list of integers, a Go [string] a Coq [string] of 8-bit
    characters.  Here are the functions of bytes, strconv, strings, unicode,
    utf8 and encoding/json that the modelled code calls. *)

From Stdlib Require Import Ascii.
From S2P Require Import Prelude.

Abbreviation bytes := (list Z).

(** ** Strings as bytes *)

Definition byteOf (c : ascii) : Z := Z.of_N (N_of_ascii c).
Definition charOf (b : Z) : ascii := ascii_of_N (Z.to_N b).

Fixpoint bytesOf (s : string) : bytes :=
  match s with EmptyString => [] | String c s => byteOf c :: bytesOf s end.
Fixpoint stringOf (l : bytes) : string :=
  match l with [] => EmptyString | b :: l => String (charOf b) (stringOf l) end.

Definition isByte (b : Z) : Prop := 0 <= b < 256.

Lemma charOf_byteOf c : charOf (byteOf c) = c.
Proof. unfold charOf, byteOf. by rewrite N2Z.id, ascii_N_embedding. Qed.
Lemma byteOf_charOf b : isByte b -> byteOf (charOf b) = b.
Proof.
  intros [H1 H2]. unfold charOf, byteOf. rewrite N_ascii_embedding; lia.
Qed.
Lemma stringOf_bytesOf s : stringOf (bytesOf s) = s.
Proof. induction s as [|c s IH]; simpl; [done|]. by rewrite charOf_byteOf, IH. Qed.
Lemma bytesOf_stringOf l : Forall isByte l -> bytesOf (stringOf l) = l.
Proof. induction 1 as [|b l Hb _ IH]; simpl; [done|]. by rewrite byteOf_charOf, IH. Qed.
Lemma stringOf_app l1 l2 : stringOf (l1 ++ l2) = (stringOf l1 +:+ stringOf l2)%string.
Proof. induction l1 as [|b l1 IH]; simpl; [done|]. by rewrite IH. Qed.
Lemma bytesOf_app s1 s2 : bytesOf (s1 +:+ s2)%string = bytesOf s1 ++ bytesOf s2.
Proof. induction s1 as [|c s1 IH]; simpl; [done|]. by rewrite <- IH. Qed.
Lemma bytesOf_isByte s : Forall isByte (bytesOf s).
Proof.
  induction s as [|c s IH]; simpl; constructor; [|done]. unfold isByte, byteOf.
  pose proof (N_ascii_bounded c). lia.
Qed.
#[export] Instance bytesOf_inj : Inj (=) (=) bytesOf.
Proof. intros s1 s2 H. by rewrite <- (stringOf_bytesOf s1), H, stringOf_bytesOf. Qed.

(** ** bytes.HasPrefix, bytes.Index, bytes.IndexByte *)

Fixpoint hasPrefix (p l : bytes) : bool :=
  match p, l with
  | [], _ => true
  | a :: p, b :: l => (a =? b) && hasPrefix p l
  | _ :: _, [] => false
  end.

Fixpoint bytesIndex (p l : bytes) : option nat :=
  if hasPrefix p l then Some O
  else match l with [] => None | _ :: l => S <$> bytesIndex p l end.

Fixpoint indexByte (b : Z) (l : bytes) : option nat :=
  match l with
  | [] => None
  | c :: l => if c =? b then Some O else S <$> indexByte b l
  end.

Lemma hasPrefix_spec p l : hasPrefix p l = true <-> exists r, l = p ++ r.
Proof.
  revert l. induction p as [|a p IH]; intros l; simpl; [by split; [eexists|]|].
  destruct l as [|b l]; [by split; [|intros (? & ?)]|]. rewrite andb_true_iff, Z.eqb_eq, IH. split.
  - intros [-> [r ->]]. by exists r.
  - intros [r [= -> ->]]. split; [done|by exists r].
Qed.

Lemma hasPrefix_length p l : hasPrefix p l = true -> (length p <= length l)%nat.
Proof. intros [r ->]%hasPrefix_spec. rewrite length_app. lia. Qed.

Lemma hasPrefix_app_l p a b : hasPrefix p a = true -> hasPrefix p (a ++ b) = true.
Proof. intros [r ->]%hasPrefix_spec. apply hasPrefix_spec. exists (r ++ b). by rewrite app_assoc. Qed.

(** [bytesIndex p l] is the position of the first occurrence. *)
Lemma bytesIndex_Some p l i :
  bytesIndex p l = Some i ->
  hasPrefix p (drop i l) = true /\ (i <= length l)%nat /\
  forall j, (j < i)%nat -> hasPrefix p (drop j l) = false.
Proof.
  revert i. induction l as [|b l IH]; intros i; cbn [bytesIndex].
  - destruct (hasPrefix p []) eqn:E; [|done]. intros [= <-]. split_and!; [done|simpl; lia|lia].
  - destruct (hasPrefix p (b :: l)) eqn:E; [intros [= <-]; split_and!; [done|lia|lia]|].
    intros (i' & Hi & ->)%fmap_Some. destruct (IH _ Hi) as (H1 & H2 & H3).
    split_and!; [done|simpl; lia|]. intros [|j] Hj; [done|]. apply H3. lia.
Qed.

Lemma bytesIndex_None p l :
  bytesIndex p l = None <-> forall j, hasPrefix p (drop j l) = false.
Proof.
  induction l as [|b l IH]; cbn [bytesIndex].
  - destruct (hasPrefix p []) eqn:E; split; try done.
    + intros H. specialize (H 0%nat). simpl in H. congruence.
    + intros _ [|j]; done.
  - destruct (hasPrefix p (b :: l)) eqn:E; split; try done.
    + intros H. specialize (H 0%nat). simpl in H. congruence.
    + intros H [|j]; [done|]. apply fmap_None in H. simpl. by apply IH.
    + intros H. apply fmap_None, IH. intros j. exact (H (S j)).
Qed.

(** ** The order of Go strings: bytewise *)

Fixpoint strLe (s1 s2 : string) : bool :=
  match s1, s2 with
  | EmptyString, _ => true
  | String _ _, EmptyString => false
  | String c1 s1, String c2 s2 =>
      if byteOf c1 <? byteOf c2 then true
      else if byteOf c2 <? byteOf c1 then false else strLe s1 s2
  end.

Lemma byteOf_inj c1 c2 : byteOf c1 = byteOf c2 -> c1 = c2.
Proof. intros H. by rewrite <- (charOf_byteOf c1), H, charOf_byteOf. Qed.

Lemma strLe_total s1 s2 : strLe s1 s2 = true \/ strLe s2 s1 = true.
Proof.
  revert s2. induction s1 as [|c1 s1 IH]; intros [|c2 s2]; simpl; auto.
  destruct (Z.ltb_spec (byteOf c1) (byteOf c2)), (Z.ltb_spec (byteOf c2) (byteOf c1)); auto.
Qed.
Lemma strLe_cons c1 c2 s1 s2 :
  strLe (String c1 s1) (String c2 s2) = true <->
  byteOf c1 < byteOf c2 \/ (c1 = c2 /\ strLe s1 s2 = true).
Proof.
  simpl. destruct (Z.ltb_spec (byteOf c1) (byteOf c2)); [by split; [left|]|].
  destruct (Z.ltb_spec (byteOf c2) (byteOf c1)); split; try done.
  - intros [?|[-> _]]; lia.
  - intros ?. right. split; [apply byteOf_inj; lia|done].
  - intros [?|[_ ?]]; [lia|done].
Qed.
Lemma strLe_trans s1 s2 s3 : strLe s1 s2 = true -> strLe s2 s3 = true -> strLe s1 s3 = true.
Proof.
  revert s2 s3. induction s1 as [|c1 s1 IH]; intros [|c2 s2] [|c3 s3]; try done.
  rewrite !strLe_cons. intros [H1|[-> H1]] [H2|[-> H2]]; [left; lia|left; lia|left; lia|right].
  split; [done|by eapply IH].
Qed.
Lemma strLe_antisym s1 s2 : strLe s1 s2 = true -> strLe s2 s1 = true -> s1 = s2.
Proof.
  revert s2. induction s1 as [|c1 s1 IH]; intros [|c2 s2]; try done. rewrite !strLe_cons.
  intros [H1|[-> H1]] [H2|[E H2]]; try lia; [subst; lia|]. f_equal. by apply IH.
Qed.
Lemma strLe_refl s : strLe s s = true.
Proof. by destruct (strLe_total s s). Qed.

(** sort.Slice by [ids[i] < ids[j]] on distinct strings. *)
Definition sortStrings (l : list string) : list string := stableSort strLe l.
Lemma sortStrings_Permutation l : sortStrings l ≡ₚ l.
Proof. apply stableSort_Permutation. Qed.
Lemma sortStrings_sorted l : StronglySorted (fun a b => strLe a b = true) (sortStrings l).
Proof. apply stableSort_sorted; [apply strLe_total|apply strLe_trans]. Qed.
(** A set of strings has one sorted list. *)
Lemma strLe_sorted_unique l l' :
  l ≡ₚ l' -> StronglySorted (fun a b => strLe a b = true) l ->
  StronglySorted (fun a b => strLe a b = true) l' -> l = l'.
Proof.
  intros HP H1 H2. assert (AntiSymm (=) (fun a b => strLe a b = true)) by (intros a b; apply strLe_antisym).
  by eapply StronglySorted_unique.
Qed.
(** So the result does not depend on the order in which a map was ranged over. *)
Lemma sortStrings_perm l1 l2 : l1 ≡ₚ l2 -> sortStrings l1 = sortStrings l2.
Proof.
  intros HP. apply strLe_sorted_unique; [by rewrite !sortStrings_Permutation| |]; apply sortStrings_sorted.
Qed.

(** ** Decimal numbers (fmt's %d and %0nd, strconv.ParseUint) *)

Fixpoint digits (fuel : nat) (n : Z) (acc : bytes) : bytes :=
  match fuel with
  | O => acc
  | S fuel =>
      let acc := (48 + n `rem` 10) :: acc in
      if n `quot` 10 =? 0 then acc else digits fuel (n `quot` 10) acc
  end.
(** A uint64 has at most 20 digits. *)
Definition formatDecimal (n : Z) : bytes := digits 20 n [].
Definition padZeros (width : nat) (l : bytes) : bytes := replicate (width - length l) 48 ++ l.

Definition isDigit (c : Z) : bool := (48 <=? c) && (c <=? 57).
Fixpoint parseDigits (acc : Z) (l : bytes) : option Z :=
  match l with
  | [] => Some acc
  | c :: l =>
      if isDigit c then
        let n := acc * 10 + (c - 48) in
        if 2 ^ 64 <=? n then None else parseDigits n l
      else None
  end.
(** strconv.ParseUint(s, 10, 64); any error is None. *)
Definition ParseUint (l : bytes) : option Z :=
  match l with [] => None | _ => parseDigits 0 l end.

(** strconv.Atoi: an optional sign and digits, in the range of int64. *)
Definition Atoi (l : bytes) : option Z :=
  match l with
  | c :: r =>
      if c =? 45 then n ← ParseUint r; if 2 ^ 63 <? n then None else Some (- n)
      else n ← ParseUint (if c =? 43 then r else l); if 2 ^ 63 <=? n then None else Some n
  | [] => None
  end.

Lemma parseDigits_digits fuel n acc l :
  0 <= n < 2 ^ 64 -> n < 10 ^ Z.of_nat fuel -> 0 <= acc -> (acc = 0 \/ l = []) ->
  parseDigits 0 (digits fuel n l) = parseDigits n l.
Proof.
  intros Hn Hf _ _. revert n l Hn Hf. induction fuel as [|fuel IH]; intros n l Hn Hf; cbn [digits].
  - simpl in Hf. replace n with 0 by lia. done.
  - rewrite Z.rem_mod_nonneg, Z.quot_div_nonneg by lia.
    pose proof (Z.mod_pos_bound n 10 ltac:(lia)) as Hm. pose proof (Z.div_mod n 10 ltac:(lia)) as Hd.
    rewrite Nat2Z.inj_succ, Z.pow_succ_r in Hf by lia.
    assert (0 <= n / 10) by (apply Z.div_pos; lia).
    assert (Hstep : forall m, 0 <= m < 2 ^ 64 -> m * 10 + n mod 10 = n ->
              parseDigits m ((48 + n mod 10) :: l) = parseDigits n l).
    { intros m Hm' E. cbn [parseDigits]. unfold isDigit.
      destruct (Z.leb_spec 48 (48 + n mod 10)), (Z.leb_spec (48 + n mod 10) 57); try lia. cbn [andb].
      replace (m * 10 + (48 + n mod 10 - 48)) with n by lia.
      destruct (Z.leb_spec (2 ^ 64) n); [lia|done]. }
    destruct (Z.eqb_spec (n / 10) 0) as [E|E]; [apply Hstep; lia|].
    rewrite IH by lia. apply Hstep; lia.
Qed.

Lemma digits_nonempty fuel n l : (0 < fuel)%nat -> digits fuel n l <> [].
Proof.
  intros Hf. destruct fuel as [|fuel]; [lia|]. clear Hf. revert n l.
  induction fuel as [|fuel IH]; intros n l; cbn [digits]; case_match; try done. apply IH.
Qed.

Lemma parseDigits_zeros k l : parseDigits 0 (replicate k 48 ++ l) = parseDigits 0 l.
Proof. induction k as [|k IH]; [done|]. simpl. done. Qed.

Lemma ParseUint_format width n : 0 <= n < 2 ^ 64 -> ParseUint (padZeros width (formatDecimal n)) = Some n.
Proof.
  intros Hn. unfold ParseUint, padZeros, formatDecimal.
  assert (replicate (width - length (digits 20 n [])) 48 ++ digits 20 n [] <> []) as Hne.
  { intros [_ H]%app_eq_nil. by apply digits_nonempty in H; [|lia]. }
  destruct (_ ++ _) as [|c r] eqn:E; [done|]. rewrite <- E, parseDigits_zeros.
  by rewrite (parseDigits_digits 20 n 0 []) by (auto; simpl; lia).
Qed.

Lemma digits_isByte fuel n l : 0 <= n -> Forall isByte l -> Forall isByte (digits fuel n l).
Proof.
  revert n l. induction fuel as [|fuel IH]; intros n l Hn Hl; cbn [digits]; [done|].
  rewrite Z.rem_mod_nonneg, Z.quot_div_nonneg by lia.
  pose proof (Z.mod_pos_bound n 10 ltac:(lia)).
  assert (Forall isByte ((48 + n mod 10) :: l)) as Hl' by (constructor; [unfold isByte; lia|done]).
  case_match; [done|]. apply IH; [apply Z.div_pos; lia|done].
Qed.
Lemma formatDecimal_isByte width n : 0 <= n -> Forall isByte (padZeros width (formatDecimal n)).
Proof.
  intros Hn. apply Forall_app. split; [apply Forall_replicate; unfold isByte; lia|by apply digits_isByte].
Qed.

(** What is written of a number: digits, as many as it has. *)
Lemma digits_isDigit fuel n l :
  0 <= n -> Forall (fun c => isDigit c = true) l -> Forall (fun c => isDigit c = true) (digits fuel n l).
Proof.
  revert n l. induction fuel as [|fuel IH]; intros n l Hn Hl; cbn [digits]; [done|].
  rewrite Z.rem_mod_nonneg, Z.quot_div_nonneg by lia. pose proof (Z.mod_pos_bound n 10 ltac:(lia)).
  assert (Forall (fun c => isDigit c = true) ((48 + n mod 10) :: l)) as Hl'.
  { constructor; [|done]. unfold isDigit. destruct (Z.leb_spec 48 (48 + n mod 10)), (Z.leb_spec (48 + n mod 10) 57); lia || done. }
  case_match; [done|]. apply IH; [apply Z.div_pos; lia|done].
Qed.
Lemma formatDecimal_isDigit n : 0 <= n -> Forall (fun c => isDigit c = true) (formatDecimal n).
Proof. intros Hn. by apply digits_isDigit. Qed.
Lemma digits_length fuel n l k :
  0 <= n < 10 ^ Z.of_nat k -> (0 < k)%nat -> (length (digits fuel n l) <= k + length l)%nat.
Proof.
  revert n l k. induction fuel as [|fuel IH]; intros n l k Hn Hk; cbn [digits]; [lia|].
  rewrite Z.quot_div_nonneg by lia. destruct (Z.eqb_spec (n / 10) 0) as [E|E]; [simpl; lia|].
  destruct k as [|[|k]]; [lia| |].
  - change (10 ^ Z.of_nat 1) with 10 in Hn. destruct E. apply Z.div_small. lia.
  - etransitivity; [apply (IH _ _ (S k))|simpl; lia]; [|lia].
    rewrite Nat2Z.inj_succ, Z.pow_succ_r in Hn by lia.
    split; [apply Z.div_pos; lia|apply Z.div_lt_upper_bound; lia].
Qed.

Lemma Atoi_format n : 0 <= n < 2 ^ 63 -> Atoi (formatDecimal n) = Some n.
Proof.
  intros Hn. pose proof (ParseUint_format 0 n ltac:(lia)) as H. unfold padZeros in H. simpl in H.
  pose proof (formatDecimal_isDigit n ltac:(lia)) as Hd.
  destruct (formatDecimal n) as [|c r] eqn:E; [done|]. inversion_clear Hd as [|? ? Hc _].
  unfold Atoi, isDigit in *. destruct (Z.eqb_spec c 45) as [->|_]; [done|]. destruct (Z.eqb_spec c 43) as [->|_]; [done|].
  rewrite H. simpl. by destruct (Z.leb_spec (2 ^ 63) n); [lia|].
Qed.
