(* ===== verification/Scanner.v ===== *)
(** * Escape sequences in pane output
    (internal/mux/osc52.go, internal/mux/meta_scanner.go)

    Two scanners pick escape sequences out of a stream of terminal output that
    arrives in chunks; a sequence may be split anywhere, so each keeps the
    unfinished part.  Both are the loop of [Scan] for their own prefix,
    terminator and size limit. *)

From S2P Require Import Prelude GoText.

(** What the loop needs to know of a terminator: a position that was found is
    still the one when more output arrives, and lies within the data. *)
Class Terminator (prefix : bytes) (findEnd : bytes -> option (nat * nat)) : Prop := {
  end_stable l l' e t : findEnd l = Some (e, t) -> findEnd (l ++ l') = Some (e, t);
  end_bounds l e t : hasPrefix prefix l = true -> findEnd l = Some (e, t) ->
    (length prefix <= e /\ 0 < t /\ e + t <= length l)%nat }.

Section Scan.
Context (prefix : bytes) (maxSize : Z) (findEnd : bytes -> option (nat * nat)).

(** The loop over the data: the sequences found, the data left where the loop
    ends, and the unterminated sequence it buffers ([[]] is nil).  Every round
    drops the prefix, so the length of the data is enough fuel. *)
Fixpoint scanLoop (fuel : nat) (data : bytes) : list bytes * bytes * bytes :=
  match fuel with
  | O => ([], data, [])
  | S fuel =>
      match data with
      | [] => ([], [], [])
      | _ =>
          match bytesIndex prefix data with
          | None => ([], data, [])
          | Some idx =>
              let rest := drop idx data in
              if maxSize <? lenZ rest then scanLoop fuel (drop (idx + length prefix) data)
              else match findEnd rest with
                   | None => ([], data, rest)
                   | Some (e, t) =>
                       let '(results, remaining, partial) := scanLoop fuel (drop (idx + e + t) data) in
                       (take (e + t) rest :: results, remaining, partial)
                   end
          end
      end
  end.

(** A trailing part of the data that starts the prefix. *)
Fixpoint firstPartial (n : nat) (data : bytes) : bytes :=
  match n, data with
  | S n, _ :: data' => if hasPrefix data prefix then data else firstPartial n data'
  | _, _ => []
  end.
Definition trailingPartial (data : bytes) : bytes :=
  let start := (length data - (length prefix - 1))%nat in
  firstPartial (length data - start) (drop start data).

(** Scan: the new buffered part and the complete sequences. *)
Definition scanData (data : bytes) : bytes * list bytes :=
  let '(results, remaining, partial) := scanLoop (S (length data)) data in
  (match partial with [] => trailingPartial remaining | _ => partial end, results).
Definition scan (partial data : bytes) : bytes * list bytes := scanData (partial ++ data).

(** Scan called for one chunk after the other. *)
Fixpoint scanAll (partial : bytes) (chunks : list bytes) : bytes * list bytes :=
  match chunks with
  | [] => (partial, [])
  | c :: chunks =>
      let '(partial, results) := scan partial c in
      let '(partial, results') := scanAll partial chunks in
      (partial, results ++ results')
  end.
End Scan.

(** ** OSC 52 clipboard sequences *)

(** ["\x1b]52;"] *)
Definition osc52Prefix : bytes := [27; 93; 53; 50; 59].
Definition maxOSC52Size : Z := 4 * 1024 * 1024.

(** The offset of the terminator (BEL or ST) and its length. *)
Definition findOSC52End (data : bytes) : option (nat * nat) :=
  let after := drop (Nat.min (length osc52Prefix) (length data)) data in
  let offset := length osc52Prefix in
  match indexByte 7 after, bytesIndex [27; 92] after with
  | Some belOff, Some stOff =>
      if (belOff <=? stOff)%nat then Some ((offset + belOff)%nat, 1%nat) else Some ((offset + stOff)%nat, 2%nat)
  | Some belOff, None => Some ((offset + belOff)%nat, 1%nat)
  | None, Some stOff => Some ((offset + stOff)%nat, 2%nat)
  | None, None => None
  end.

Definition OSC52Scan (partial data : bytes) : bytes * list bytes :=
  scan osc52Prefix maxOSC52Size findOSC52End partial data.

(** ** amux metadata sequences *)

(** ["\x1b]999;amux-meta;"] *)
Definition amuxMetaPrefix : bytes :=
  [27; 93; 57; 57; 57; 59; 97; 109; 117; 120; 45; 109; 101; 116; 97; 59].
Definition maxAmuxMetaSize : Z := 4 * 1024.

Definition findMetaEnd (data : bytes) : option nat :=
  let after := drop (Nat.min (length amuxMetaPrefix) (length data)) data in
  (fun belOff => (length amuxMetaPrefix + belOff)%nat) <$> indexByte 7 after.

(** The terminator BEL is one byte long. *)
Definition findMetaTerminator (data : bytes) : option (nat * nat) :=
  (fun e => (e, 1%nat)) <$> findMetaEnd data.

(** A nil pointer leaves the field unchanged. *)
Record MetaUpdate : Set := mkMetaUpdate {
  updTask : option string; updPR : option string; updBranch : option string }.

(** The JSON text between the prefix and the terminator. *)
Definition metaPayload (sequence : bytes) : bytes :=
  take (length sequence - length amuxMetaPrefix - 1) (drop (length amuxMetaPrefix) sequence).

Section Meta.
(** json.Unmarshal and json.Marshal for MetaUpdate. *)
Context (unmarshal : bytes -> option MetaUpdate) (marshal : MetaUpdate -> bytes).

Definition AmuxMetaScan (partial data : bytes) : bytes * list MetaUpdate :=
  let '(partial, sequences) :=
    scan amuxMetaPrefix maxAmuxMetaSize findMetaTerminator partial data in
  (partial, omap (fun s => unmarshal (metaPayload s)) sequences).

Definition FormatMetaSequence (update : MetaUpdate) : bytes :=
  amuxMetaPrefix ++ marshal update ++ [7].
End Meta.

(** ** The loop in steps

    The four cases of the data at a position: no sequence can start here, a
    complete sequence starts here, an unterminated one does, or the data ends
    within the prefix. *)
Section Facts.
Context {prefix : bytes} {findEnd : bytes -> option (nat * nat)} {T : Terminator prefix findEnd}.
Context (prefix_cons : (0 < length prefix)%nat).

Definition dead (u : bytes) : Prop := hasPrefix prefix u = false /\ hasPrefix u prefix = false.

Lemma scanLoop_fuel m f1 f2 d :
  (length d < f1)%nat -> (length d < f2)%nat ->
  scanLoop prefix m findEnd f1 d = scanLoop prefix m findEnd f2 d.
Proof.
  revert f2 d. induction f1 as [|f1 IH]; intros [|f2] d H1 H2; try lia. simpl.
  destruct d as [|c d]; [done|]. destruct (bytesIndex prefix (c :: d)) as [i|] eqn:Ei; [|done].
  destruct (bytesIndex_Some _ _ _ Ei) as (Hp & Hi & _).
  assert (Hlen : forall n, (0 < n)%nat -> (length (drop n (c :: d)) < S (length d))%nat)
    by (intros n Hn; rewrite length_drop; simpl; lia).
  simpl in H1, H2. destruct (m <? _).
  - apply IH; (eapply Nat.lt_le_trans; [apply Hlen|]); lia.
  - destruct (findEnd _) as [[e t]|] eqn:Ee; [|done].
    destruct (end_bounds _ _ _ Hp Ee) as (He & Ht & _).
    rewrite (IH f2 (drop (i + e + t) (c :: d))); [done| |]; (eapply Nat.lt_le_trans; [apply Hlen|]); lia.
Qed.

Lemma scanLoop_limit m m' f d :
  lenZ d <= m -> lenZ d <= m' ->
  scanLoop prefix m findEnd f d = scanLoop prefix m' findEnd f d.
Proof.
  revert d. induction f as [|f IH]; intros d H H'; simpl; [done|].
  destruct d as [|c d]; [done|]. destruct (bytesIndex prefix (c :: d)) as [i|]; [|done].
  assert (Hd : forall n, lenZ (drop n (c :: d)) <= lenZ (c :: d))
    by (intros n; unfold lenZ; rewrite length_drop; lia).
  pose proof (Hd i).
  destruct (Z.ltb_spec m (lenZ (drop i (c :: d)))), (Z.ltb_spec m' (lenZ (drop i (c :: d)))); try lia.
  destruct (findEnd _) as [[e t]|]; [|done].
  rewrite (IH (drop (i + e + t) (c :: d))); [done|etrans; [apply Hd|done]..].
Qed.

Lemma scanData_limit m m' d :
  lenZ d <= m -> lenZ d <= m' -> scanData prefix m findEnd d = scanData prefix m' findEnd d.
Proof. intros H H'. unfold scanData. by rewrite (scanLoop_limit m m'). Qed.

Lemma trailingPartial_skip c d : hasPrefix (c :: d) prefix = false ->
  trailingPartial prefix (c :: d) = trailingPartial prefix d.
Proof.
  intros Hd. unfold trailingPartial. cbn [length].
  destruct (decide (length d < length prefix - 1)%nat) as [Hl|Hl].
  - replace (S (length d) - (length prefix - 1))%nat with O by lia.
    replace (length d - (length prefix - 1))%nat with O by lia. rewrite !Nat.sub_0_r, !drop_0. cbn -[hasPrefix]. by rewrite Hd.
  - replace (S (length d) - (length prefix - 1))%nat with (S (length d - (length prefix - 1))) by lia.
    by rewrite Nat.sub_succ, skipn_cons.
Qed.

Lemma bytesIndex_skip c d : hasPrefix prefix (c :: d) = false ->
  bytesIndex prefix (c :: d) = S <$> bytesIndex prefix d.
Proof. intros H. cbn [bytesIndex]. by rewrite H. Qed.

Lemma scanData_skip m c d : dead (c :: d) ->
  scanData prefix m findEnd (c :: d) = scanData prefix m findEnd d.
Proof.
  intros [H1 H2]. unfold scanData.
  assert (E : let '(r, l, p) := scanLoop prefix m findEnd (S (length (c :: d))) (c :: d) in
              let '(r', l', p') := scanLoop prefix m findEnd (S (length d)) d in
              r = r' /\ p = p' /\ (l = l' \/ l = c :: d /\ l' = d)).
  { rewrite (scanLoop_fuel m (S (length d)) (S (length (c :: d))) d) by (simpl; lia).
    cbn [scanLoop]. rewrite bytesIndex_skip by done.
    destruct d as [|c' d'].
    - replace (bytesIndex prefix []) with (@None nat); [simpl; auto|].
      symmetry. apply bytesIndex_None. intros j. rewrite drop_nil. destruct prefix; simpl in *; [lia|done].
    - destruct (bytesIndex prefix (c' :: d')) as [i|] eqn:Ei; cbn [fmap option_fmap option_map]; [|auto].
      rewrite !Nat.add_succ_l, !skipn_cons. destruct (m <? _).
      + destruct (scanLoop _ _ _ _ _) as [[]]; auto.
      + destruct (findEnd _) as [[e t]|]; [|auto]. destruct (scanLoop _ _ _ _ _) as [[]]; auto. }
  destruct (scanLoop _ _ _ _ (c :: d)) as [[r l] p], (scanLoop _ _ _ _ d) as [[r' l'] p'].
  destruct E as (-> & -> & [->|[-> ->]]); [done|]. by rewrite trailingPartial_skip.
Qed.

Lemma scanData_hit m d e t : hasPrefix prefix d = true -> findEnd d = Some (e, t) -> lenZ d <= m ->
  scanData prefix m findEnd d =
  let '(p, r) := scanData prefix m findEnd (drop (e + t) d) in (p, take (e + t) d :: r).
Proof.
  intros Hp He Hm. destruct (end_bounds _ _ _ Hp He) as (H1 & H2 & H3). unfold scanData.
  rewrite (scanLoop_fuel m (S (length (drop (e + t) d))) (length d)) by (rewrite length_drop; lia).
  cbn [scanLoop]. destruct d as [|c d]; [simpl in *; lia|].
  replace (bytesIndex prefix (c :: d)) with (Some O) by (cbn [bytesIndex]; by rewrite Hp).
  rewrite drop_0. destruct (Z.ltb_spec m (lenZ (c :: d))); [lia|]. rewrite He. cbn [Nat.add].
  by destruct (scanLoop _ _ _ _ _) as [[r l] p].
Qed.

Lemma scanData_abandon m d : hasPrefix prefix d = true -> m < lenZ d ->
  scanData prefix m findEnd d = scanData prefix m findEnd (drop (length prefix) d).
Proof.
  intros Hp Hm. unfold scanData. destruct d as [|c d]; [by destruct prefix; simpl in *; [lia|]|].
  rewrite (scanLoop_fuel m (S (length (drop (length prefix) (c :: d)))) (length (c :: d)))
    by (rewrite length_drop; simpl; lia).
  cbn [scanLoop]. replace (bytesIndex prefix (c :: d)) with (Some O) by (cbn [bytesIndex]; by rewrite Hp).
  rewrite drop_0. by destruct (Z.ltb_spec m (lenZ (c :: d))); [|lia].
Qed.

Lemma scanData_open m d : hasPrefix prefix d = true -> findEnd d = None -> lenZ d <= m ->
  scanData prefix m findEnd d = (d, []).
Proof.
  intros Hp He Hm. unfold scanData. cbn [scanLoop].
  destruct d as [|c d]; [by destruct prefix; simpl in *; [lia|]|].
  replace (bytesIndex prefix (c :: d)) with (Some O) by (cbn [bytesIndex]; by rewrite Hp).
  rewrite drop_0, He. by destruct (Z.ltb_spec m (lenZ (c :: d))); [lia|].
Qed.

Lemma scanData_short m d : hasPrefix prefix d = false -> hasPrefix d prefix = true ->
  scanData prefix m findEnd d = (d, []).
Proof.
  intros Hn Hp. unfold scanData. destruct d as [|c d]; [done|]. cbn [scanLoop].
  pose proof (hasPrefix_length _ _ Hp) as Hl. cbn [length] in Hl.
  assert (length (c :: d) <> length prefix).
  { intros E. apply hasPrefix_spec in Hp as [r E2].
    assert (r = []) as -> by (apply length_zero_iff_nil; apply (f_equal length) in E2; rewrite length_app in E2; lia).
    rewrite app_nil_r in E2. rewrite E2 in Hn.
    assert (hasPrefix (c :: d) (c :: d) = true) by (apply hasPrefix_spec; exists []; by rewrite app_nil_r). congruence. }
  replace (bytesIndex prefix (c :: d)) with (@None nat).
  - unfold trailingPartial. cbn [length] in *.
    replace (S (length d) - (length prefix - 1))%nat with O by lia.
    rewrite Nat.sub_0_r, drop_0. cbn -[hasPrefix]. by rewrite Hp.
  - symmetry. apply bytesIndex_None. intros j. apply not_true_iff_false.
    intros Hj%hasPrefix_length. rewrite length_drop in Hj. cbn [length] in *. lia.
Qed.

Lemma hasPrefix_app_dead a b : hasPrefix prefix a = false -> hasPrefix a prefix = false ->
  dead (a ++ b).
Proof using prefix.
  unfold dead. clear. revert a. induction prefix as [|x p IH]; intros [|y a]; simpl; try done.
  rewrite (Z.eqb_sym y x). destruct (x =? y); simpl; [apply IH|done].
Qed.

(** Scanning [a ++ b] is scanning [a], then the part it buffers with [b]. *)
Lemma scanData_app n m m' a b :
  length a = n -> lenZ a <= m -> lenZ (a ++ b) <= m' ->
  scanData prefix m' findEnd (a ++ b) =
  let '(p, r) := scanData prefix m findEnd a in
  let '(p', r') := scanData prefix m' findEnd (p ++ b) in (p', r ++ r').
Proof.
  revert a. induction (lt_wf n) as [n _ IH]. intros a <- Hm Hm'.
  destruct (hasPrefix prefix a) eqn:E1.
  - destruct (findEnd a) as [[e t]|] eqn:Ee.
    + destruct (end_bounds _ _ _ E1 Ee) as (H1 & H2 & H3).
      rewrite (scanData_hit m a e t) by done.
      rewrite (scanData_hit m' (a ++ b) e t); [|by apply hasPrefix_app_l|by apply end_stable|done].
      rewrite drop_app_le, take_app_le by lia.
      assert (Hdrop : lenZ (drop (e + t) a) <= lenZ a) by (unfold lenZ; rewrite length_drop; lia).
      rewrite (IH (length (drop (e + t) a))); [|rewrite length_drop; lia|done|lia|].
      * destruct (scanData _ m _ _) as [p r]. by destruct (scanData _ m' _ _) as [p' r'].
      * rewrite !lenZ_app in *. lia.
    + rewrite (scanData_open m) by done. by destruct (scanData _ m' _ _).
  - destruct (hasPrefix a prefix) eqn:E2.
    + rewrite (scanData_short m) by done. by destruct (scanData _ m' _ _).
    + pose proof (hasPrefix_app_dead a b E1 E2) as Hd. destruct a as [|c a]; [done|].
      rewrite scanData_skip by done. cbn [app]. rewrite scanData_skip by done.
      rewrite lenZ_cons in Hm. cbn [app] in Hm'. rewrite lenZ_cons in Hm'. apply (IH (length a)); [simpl; lia|done|lia|lia].
Qed.

(** What is buffered is part of the data and bounded by the size limit. *)
Lemma scanLoop_partial m f d :
  let '(_, l, p) := scanLoop prefix m findEnd f d in
  lenZ l <= lenZ d /\ lenZ p <= lenZ d /\ lenZ p <= Z.max 0 m.
Proof using prefix findEnd.
  clear. revert d. induction f as [|f IH]; intros d; cbn [scanLoop]; pose proof (lenZ_nonneg d);
    rewrite ?lenZ_nil; [split_and!; lia|].
  destruct d as [|c d]; [rewrite lenZ_nil; split_and!; lia|].
  destruct (bytesIndex prefix (c :: d)) as [i|]; [|rewrite lenZ_nil; split_and!; lia].
  assert (Hd : forall n, lenZ (drop n (c :: d)) <= lenZ (c :: d))
    by (intros n; unfold lenZ; rewrite length_drop; lia).
  destruct (Z.ltb_spec m (lenZ (drop i (c :: d)))) as [Hm|Hm].
  - specialize (IH (drop (i + length prefix) (c :: d))). pose proof (Hd (i + length prefix)%nat).
    destruct (scanLoop _ _ _ _ _) as [[r l] p]. lia.
  - pose proof (Hd i). destruct (findEnd _) as [[e t]|]; [|split_and!; lia].
    specialize (IH (drop (i + e + t) (c :: d))). pose proof (Hd (i + e + t)%nat).
    destruct (scanLoop _ _ _ _ _) as [[r l] p]. lia.
Qed.

Lemma firstPartial_le n d : lenZ (firstPartial prefix n d) <= lenZ d.
Proof using prefix.
  clear. revert d. induction n as [|n IH]; intros [|c d]; cbn [firstPartial]; rewrite ?lenZ_nil; [lia|apply lenZ_nonneg|lia|].
  destruct (hasPrefix _ _); [lia|]. specialize (IH d). rewrite lenZ_cons. lia.
Qed.
Lemma trailingPartial_le d :
  lenZ (trailingPartial prefix d) <= lenZ d /\ lenZ (trailingPartial prefix d) <= lenZ prefix - 1.
Proof using prefix_cons.
  unfold trailingPartial.
  pose proof (firstPartial_le (length d - (length d - (length prefix - 1)))
    (drop (length d - (length prefix - 1)) d)) as H.
  unfold lenZ in *. rewrite length_drop in H. lia.
Qed.

Lemma scanData_partial_bound m d :
  lenZ (scanData prefix m findEnd d).1 <= lenZ d /\
  lenZ (scanData prefix m findEnd d).1 <= Z.max (lenZ prefix - 1) m.
Proof using prefix_cons.
  pose proof (scanLoop_partial m (S (length d)) d) as H. unfold scanData.
  destruct (scanLoop _ _ _ _ _) as [[r l] p]. pose proof (trailingPartial_le l).
  destruct p as [|b p]; cbn [fst]; [lia|]. unfold lenZ in *; lia.
Qed.
Lemma scanData_partial_le m d : lenZ (scanData prefix m findEnd d).1 <= lenZ d.
Proof. apply scanData_partial_bound. Qed.

(** Every call sees at most [m] bytes. *)
Fixpoint fits (m : Z) (partial : bytes) (chunks : list bytes) : Prop :=
  match chunks with
  | [] => True
  | c :: chunks => lenZ (partial ++ c) <= m /\ fits m (scan prefix m findEnd partial c).1 chunks
  end.

Lemma scanAll_concat_from m a chunks :
  lenZ a <= m -> fits m (scanData prefix m findEnd a).1 chunks ->
  forall m', lenZ (a ++ concat chunks) <= m' ->
  scanData prefix m' findEnd (a ++ concat chunks) =
  let '(p, r) := scanData prefix m findEnd a in
  let '(p', r') := scanAll prefix m findEnd p chunks in (p', r ++ r').
Proof.
  revert a. induction chunks as [|c chunks IH]; intros a Ha Hf m' Hm'; cbn [concat] in *.
  - rewrite app_nil_r in *. cbn [scanAll]. rewrite (scanData_limit m' m) by done.
    destruct (scanData _ _ _ _). by rewrite app_nil_r.
  - rewrite (scanData_app _ m m') by done. destruct (scanData prefix m findEnd a) as [p r] eqn:E.
    destruct Hf as [Hc Hf]. cbn [fst] in Hc. cbn [scanAll]. unfold scan in *.
    pose proof (scanData_partial_le m a) as Hp. rewrite E in Hp. cbn [fst] in Hp.
    rewrite app_assoc, (IH _ Hc Hf m') by (rewrite !lenZ_app in *; lia). destruct (scanData _ _ _ (p ++ c)) as [p1 r1]. destruct (scanAll _ _ _ _ _) as [p2 r2].
    by rewrite app_assoc.
Qed.
End Facts.

(** ** What a stream contains

    [Parse data seqs rest] reads the whole stream at once, without a size
    limit: [seqs] are its complete sequences and [rest] the unfinished end. *)
Inductive Parse (prefix : bytes) (findEnd : bytes -> option (nat * nat)) :
  bytes -> list bytes -> bytes -> Prop :=
| Parse_nil : Parse prefix findEnd [] [] []
| Parse_skip c d seqs rest :
    hasPrefix prefix (c :: d) = false -> hasPrefix (c :: d) prefix = false ->
    Parse prefix findEnd d seqs rest -> Parse prefix findEnd (c :: d) seqs rest
| Parse_sequence d e t seqs rest :
    hasPrefix prefix d = true -> findEnd d = Some (e, t) ->
    Parse prefix findEnd (drop (e + t) d) seqs rest ->
    Parse prefix findEnd d (take (e + t) d :: seqs) rest
| Parse_open d :
    hasPrefix prefix d = true -> findEnd d = None -> Parse prefix findEnd d [] d
| Parse_short d : d <> [] ->
    hasPrefix prefix d = false -> hasPrefix d prefix = true -> Parse prefix findEnd d [] d.

Section ParseFacts.
Context {prefix : bytes} {findEnd : bytes -> option (nat * nat)} {T : Terminator prefix findEnd}.
Context (prefix_cons : (0 < length prefix)%nat).

Lemma scanData_Parse n m d : length d = n -> lenZ d <= m ->
  Parse prefix findEnd d (scanData prefix m findEnd d).2 (scanData prefix m findEnd d).1.
Proof.
  revert d. induction (lt_wf n) as [n _ IH]. intros d <- Hm.
  destruct (hasPrefix prefix d) eqn:E1.
  - destruct (findEnd d) as [[e t]|] eqn:Ee.
    + rewrite (scanData_hit prefix_cons m d e t) by done.
      destruct (end_bounds _ _ _ E1 Ee) as (H1 & H2 & H3).
      specialize (IH (length (drop (e + t) d)) ltac:(rewrite length_drop; lia) _ eq_refl
        ltac:(unfold lenZ in *; rewrite length_drop; lia)).
      destruct (scanData _ _ _ (drop (e + t) d)) as [p r]. by apply Parse_sequence.
    + rewrite scanData_open by done. by apply Parse_open.
  - destruct d as [|c d]; [by apply Parse_nil|]. destruct (hasPrefix (c :: d) prefix) eqn:E2.
    + rewrite (scanData_short prefix_cons) by done. by apply Parse_short.
    + rewrite (scanData_skip prefix_cons) by done. apply Parse_skip; [done..|].
      apply (IH (length d)); [simpl; lia|done|]. rewrite lenZ_cons in Hm. lia.
Qed.

Lemma Parse_det d s1 p1 s2 p2 :
  Parse prefix findEnd d s1 p1 -> Parse prefix findEnd d s2 p2 -> s1 = s2 /\ p1 = p2.
Proof.
  intros H1. revert s2 p2. assert (hasPrefix prefix [] = false) by (by destruct prefix; simpl in *; [lia|]).
  induction H1; intros s2 p2 HP; inversion HP; subst; try congruence; auto.
  - assert (e0 = e /\ t0 = t) as [-> ->] by (split; congruence). edestruct IHParse as [-> ->]; eauto.
Qed.

Lemma scanAll_Parse m chunks : 0 <= m -> fits (findEnd := findEnd) (prefix := prefix) m [] chunks ->
  Parse prefix findEnd (concat chunks) (scanAll prefix m findEnd [] chunks).2
    (scanAll prefix m findEnd [] chunks).1.
Proof.
  intros Hm Hf.
  assert (E : scanData prefix m findEnd [] = ([], [])) by done.
  pose proof (scanAll_concat_from prefix_cons m [] chunks) as H. rewrite E in H.
  specialize (H Hm Hf _ (Z.le_refl _)). cbn [app] in H.
  pose proof (scanData_Parse _ (lenZ (concat chunks)) (concat chunks) eq_refl (Z.le_refl _)) as HP.
  rewrite H in HP. by destruct (scanAll _ _ _ _ _).
Qed.

Lemma scanAll_bound m p chunks :
  lenZ p <= Z.max (lenZ prefix - 1) m ->
  lenZ (scanAll prefix m findEnd p chunks).1 <= Z.max (lenZ prefix - 1) m.
Proof using prefix_cons.
  revert p. induction chunks as [|c chunks IH]; intros p Hp; cbn [scanAll]; [done|].
  pose proof (scanData_partial_bound prefix_cons (findEnd := findEnd) m (p ++ c)) as [_ H].
  unfold scan. destruct (scanData _ _ _ _) as [p1 r1]. cbn [fst] in H. specialize (IH p1 H).
  by destruct (scanAll _ _ _ _ _).
Qed.
End ParseFacts.

Lemma indexByte_Some b l i : indexByte b l = Some i -> (i < length l)%nat /\ l !! i = Some b.
Proof.
  revert i. induction l as [|c l IH]; intros i; simpl; [done|]. destruct (Z.eqb_spec c b) as [->|].
  - intros [= <-]. split; [lia|done].
  - intros (j & Hj & ->)%fmap_Some. destruct (IH _ Hj). split; [lia|done].
Qed.
Lemma indexByte_app b l l' i : indexByte b l = Some i -> indexByte b (l ++ l') = Some i.
Proof.
  revert i. induction l as [|c l IH]; intros i; simpl; [done|]. destruct (c =? b); [done|].
  intros (j & Hj & ->)%fmap_Some. by rewrite (IH _ Hj).
Qed.
Lemma indexByte_notin b l l' : b ∉ l -> indexByte b (l ++ b :: l') = Some (length l).
Proof.
  induction l as [|c l IH]; simpl; intros Hn; [by rewrite Z.eqb_refl|].
  apply not_elem_of_cons in Hn as [Hne Hn]. destruct (Z.eqb_spec c b); [congruence|]. by rewrite IH.
Qed.
Lemma bytesIndex_app p l l' i : bytesIndex p l = Some i -> bytesIndex p (l ++ l') = Some i.
Proof.
  revert i. induction l as [|c l IH]; intros i; cbn [bytesIndex].
  - destruct (hasPrefix p []) eqn:E; [|done]. intros [= <-]. destruct p; [|done]. by destruct l'.
  - cbn [app bytesIndex]. destruct (hasPrefix p (c :: l)) eqn:E.
    + intros [= <-]. by rewrite (hasPrefix_app_l p (c :: l) l' E : hasPrefix p (c :: l ++ l') = true).
    + intros (j & Hj & ->)%fmap_Some. rewrite (IH _ Hj).
      destruct (hasPrefix p (c :: l ++ l')) eqn:E2; [exfalso|done].
      destruct (bytesIndex_Some _ _ _ Hj) as (H1 & _ & _). apply hasPrefix_length in H1.
      rewrite length_drop in H1. apply hasPrefix_spec in E2 as [r E2].
      assert (E3 : take (length p) (c :: l ++ l') = p) by (rewrite E2; apply take_app_length).
      change (c :: l ++ l') with ((c :: l) ++ l') in E3. rewrite take_app_le in E3 by (simpl; lia).
      apply not_true_iff_false in E. apply E, hasPrefix_spec. exists (drop (length p) (c :: l)).
      rewrite <- E3 at 1. by rewrite take_drop.
Qed.
Lemma bytesIndex_bound p l i : bytesIndex p l = Some i -> (i + length p <= length l)%nat.
Proof.
  intros H. destruct (bytesIndex_Some _ _ _ H) as (H1 & H2 & _). apply hasPrefix_length in H1.
  rewrite length_drop in H1. lia.
Qed.
(** A first occurrence in [l ++ l'] that is not one of [l] reaches into [l']. *)
Lemma bytesIndex_app_None p l l' i :
  bytesIndex p l = None -> bytesIndex p (l ++ l') = Some i -> (length l < i + length p)%nat.
Proof.
  intros Hn H. destruct (bytesIndex_Some _ _ _ H) as (H1 & H2 & _).
  destruct (decide (i + length p <= length l)%nat) as [Hle|]; [exfalso|lia].
  rewrite bytesIndex_None in Hn. specialize (Hn i). apply not_true_iff_false in Hn. apply Hn.
  apply hasPrefix_spec in H1 as [r E]. rewrite drop_app_le in E by lia.
  apply hasPrefix_spec. exists (drop (length p) (drop i l)).
  rewrite <- (take_drop (length p) (drop i l)) at 1. f_equal.
  apply (f_equal (take (length p))) in E. rewrite take_app_length, take_app_le in E; [done|rewrite length_drop; lia].
Qed.

Lemma drop_min_app {A} n (l l' : list A) :
  drop (n `min` length l) l = [] \/
  drop (n `min` length (l ++ l')) (l ++ l') = drop (n `min` length l) l ++ l'.
Proof.
  destruct (decide (n <= length l)%nat).
  - right. rewrite !Nat.min_l by (rewrite ?length_app; lia). by rewrite drop_app_le.
  - left. rewrite Nat.min_r by lia. by rewrite drop_ge.
Qed.

#[export] Instance OSC52_Terminator : Terminator osc52Prefix findOSC52End.
Proof.
  split.
  - intros l l' e t. unfold findOSC52End.
    destruct (drop_min_app (length osc52Prefix) l l') as [->| ->]; [done|].
    set (after := drop _ l). intros H.
    destruct (indexByte 7 after) as [b|] eqn:Eb; destruct (bytesIndex _ after) as [st|] eqn:Es;
      rewrite ?(indexByte_app _ _ l' _ Eb), ?(bytesIndex_app _ _ l' _ Es); try done.
    + destruct (bytesIndex [27; 92] (after ++ l')) as [st|] eqn:Es'; [|done].
      pose proof (bytesIndex_app_None _ _ _ _ Es Es') as Hs. apply indexByte_Some in Eb as [Eb _].
      cbn [length] in Hs. destruct (Nat.leb_spec b st); [done|lia].
    + destruct (indexByte 7 (after ++ l')) as [b|] eqn:Eb'; [|done].
      destruct (indexByte_Some _ _ _ Eb') as [_ Hb]. apply bytesIndex_bound in Es. cbn [length] in Es.
      destruct (Nat.leb_spec b st) as [Hle|]; [exfalso|done].
      rewrite lookup_app_l in Hb by lia. clear -Eb Hb. revert b Hb.
      induction after as [|c after IH]; intros b; simpl in *; [done|].
      destruct (Z.eqb_spec c 7); [done|]. apply fmap_None in Eb. destruct b; simpl; [congruence|eauto].
  - intros l e t Hp%hasPrefix_length. unfold findOSC52End. rewrite Nat.min_l by lia.
    set (after := drop _ l). assert (Ha : length after = (length l - length osc52Prefix)%nat) by apply length_drop.
    intros H.
    assert (Hb : forall b, indexByte 7 after = Some b -> (b < length after)%nat)
      by (intros b Hb; by apply indexByte_Some in Hb as [? _]).
    assert (Hs : forall b, bytesIndex [27; 92] after = Some b -> (b + 2 <= length after)%nat)
      by (intros b ?%bytesIndex_bound; done).
    repeat case_match; simplify_eq; try specialize (Hb _ eq_refl); try specialize (Hs _ eq_refl); lia.
Qed.

#[export] Instance Meta_Terminator : Terminator amuxMetaPrefix findMetaTerminator.
Proof.
  unfold findMetaTerminator, findMetaEnd. split.
  - intros l l' e t. destruct (drop_min_app (length amuxMetaPrefix) l l') as [->| ->]; [done|].
    intros (e' & (b & Hb & ->)%fmap_Some & [= -> ->])%fmap_Some. by rewrite (indexByte_app _ _ _ _ Hb).
  - intros l e t Hp%hasPrefix_length. rewrite Nat.min_l by lia.
    intros (e' & (b & [Hb _]%indexByte_Some & ->)%fmap_Some & [= -> ->])%fmap_Some.
    rewrite length_drop in Hb. change (length amuxMetaPrefix) with 16%nat in *. lia.
Qed.

(** ** Properties *)

(** AmuxMetaScan for one chunk after the other. *)
Fixpoint AmuxMetaScanAll (unmarshal : bytes -> option MetaUpdate) (partial : bytes) (chunks : list bytes) :
  bytes * list MetaUpdate :=
  match chunks with
  | [] => (partial, [])
  | c :: chunks =>
      let '(partial, results) := AmuxMetaScan unmarshal partial c in
      let '(partial, results') := AmuxMetaScanAll unmarshal partial chunks in
      (partial, results ++ results')
  end.

Lemma AmuxMetaScanAll_scanAll unmarshal p chunks :
  AmuxMetaScanAll unmarshal p chunks =
  let '(p', seqs) := scanAll amuxMetaPrefix maxAmuxMetaSize findMetaTerminator p chunks in
  (p', omap (fun s => unmarshal (metaPayload s)) seqs).
Proof.
  revert p. induction chunks as [|c chunks IH]; intros p; cbn [scanAll AmuxMetaScanAll]; [done|].
  unfold AmuxMetaScan. destruct (scan _ _ _ p c) as [p1 r1]. rewrite IH.
  destruct (scanAll _ _ _ p1 chunks) as [p2 r2]. by rewrite omap_app.
Qed.

(** C17. However the output is cut into chunks, the sequences found and the part
    left in the buffer are those of the whole stream, as long as no call sees
    more than the size limit: for clipboard sequences ... *)
Theorem OSC52_chunks (chunks : list bytes) (seqs : list bytes) (rest : bytes) :
  fits (prefix := osc52Prefix) (findEnd := findOSC52End) maxOSC52Size [] chunks ->
  scanAll osc52Prefix maxOSC52Size findOSC52End [] chunks = (rest, seqs) <->
  Parse osc52Prefix findOSC52End (concat chunks) seqs rest.
Proof.
  intros Hf. assert (H := scanAll_Parse (T := OSC52_Terminator) ltac:(simpl; lia) maxOSC52Size chunks
    ltac:(unfold maxOSC52Size; lia) Hf).
  split.
  - intros E. by rewrite E in H.
  - intros H'. edestruct (Parse_det (T := OSC52_Terminator)) as [E1 E2]; [| exact H| exact H' |]; [simpl; lia|].
    rewrite (surjective_pairing (scanAll _ _ _ _ _)). by rewrite E1, E2.
Qed.

Lemma OSC52_chunks_witness :
  let chunks := [[65; 27; 93; 53]; [50; 59; 99; 59; 81; 7; 66]; [27; 93; 53; 50; 59; 99; 27]; [92; 27]] in
  Parse osc52Prefix findOSC52End (concat chunks)
    [[27; 93; 53; 50; 59; 99; 59; 81; 7]; [27; 93; 53; 50; 59; 99; 27; 92]] [27].
Proof.
  intros chunks. apply (OSC52_chunks chunks).
  - by vm_compute.
  - by vm_compute.
Defined.

(** ... and what a scanner keeps between reads never exceeds the limit, whatever
    the output. *)
Theorem scan_buffer_bound (unmarshal : bytes -> option MetaUpdate) (chunks : list bytes) :
  lenZ (scanAll osc52Prefix maxOSC52Size findOSC52End [] chunks).1 <= maxOSC52Size /\
  lenZ (AmuxMetaScanAll unmarshal [] chunks).1 <= maxAmuxMetaSize.
Proof.
  rewrite AmuxMetaScanAll_scanAll.
  pose proof (scanAll_bound (prefix := osc52Prefix) (findEnd := findOSC52End) ltac:(simpl; lia) maxOSC52Size [] chunks) as H1.
  pose proof (scanAll_bound (prefix := amuxMetaPrefix) (findEnd := findMetaTerminator) ltac:(simpl; lia) maxAmuxMetaSize [] chunks) as H2.
  destruct (scanAll amuxMetaPrefix _ _ _ _) as [p r]. cbn [fst] in *.
  assert (lenZ osc52Prefix = 5) as E1 by done. assert (lenZ amuxMetaPrefix = 16) as E2 by done.
  rewrite E1 in H1. rewrite E2 in H2. rewrite lenZ_nil in *. unfold maxOSC52Size, maxAmuxMetaSize in *. lia.
Qed.

Lemma dead_no_escape p' c d : c <> 27 ->
  hasPrefix (27 :: p') (c :: d) = false /\ hasPrefix (c :: d) (27 :: p') = false.
Proof.
  intros Hc. cbn [hasPrefix]. by destruct (Z.eqb_spec 27 c), (Z.eqb_spec c 27); [congruence..|].
Qed.
(** Plain output before or after a sequence is skipped. *)
Lemma Parse_plain p' findEnd pre d seqs rest : 27 ∉ pre ->
  Parse (27 :: p') findEnd d seqs rest -> Parse (27 :: p') findEnd (pre ++ d) seqs rest.
Proof.
  intros Hn H. induction pre as [|c pre IH]; [done|]. apply not_elem_of_cons in Hn as [Hne Hn].
  cbn [app]. destruct (dead_no_escape p' c (pre ++ d)); [congruence|]. apply Parse_skip; auto.
Qed.

Section MetaRoundtrip.
Context (unmarshal : bytes -> option MetaUpdate) (marshal : MetaUpdate -> bytes).

Lemma findMetaTerminator_Format u post : 7 ∉ marshal u ->
  findMetaTerminator (FormatMetaSequence marshal u ++ post) =
  Some ((length amuxMetaPrefix + length (marshal u))%nat, 1%nat).
Proof.
  intros Hn. unfold findMetaTerminator, findMetaEnd, FormatMetaSequence.
  rewrite Nat.min_l by (rewrite !length_app; simpl; lia).
  rewrite <- !app_assoc, drop_app_length. cbn [app]. by rewrite indexByte_notin.
Qed.

Lemma metaPayload_Format u : metaPayload (FormatMetaSequence marshal u) = marshal u.
Proof.
  unfold metaPayload, FormatMetaSequence. rewrite drop_app_length, !length_app.
  replace (_ - _ - 1)%nat with (length (marshal u)) by (simpl; lia). apply take_app_length.
Qed.

(** A metadata update that FormatMetaSequence writes into the output, between
    text without escape sequences, is read back as that update, however the
    output is cut into reads, and nothing stays in the buffer. *)
Theorem meta_roundtrip (u : MetaUpdate) (pre post : bytes) (chunks : list bytes) :
  unmarshal (marshal u) = Some u -> 7 ∉ marshal u -> 27 ∉ pre -> 27 ∉ post ->
  concat chunks = pre ++ FormatMetaSequence marshal u ++ post ->
  fits (prefix := amuxMetaPrefix) (findEnd := findMetaTerminator) maxAmuxMetaSize [] chunks ->
  AmuxMetaScanAll unmarshal [] chunks = ([], [u]).
Proof.
  intros Hj H7 Hpre Hpost Hc Hf. rewrite AmuxMetaScanAll_scanAll.
  assert (H := scanAll_Parse (T := Meta_Terminator) ltac:(simpl; lia) maxAmuxMetaSize chunks
    ltac:(unfold maxAmuxMetaSize; lia) Hf).
  assert (HP : Parse amuxMetaPrefix findMetaTerminator (concat chunks) [FormatMetaSequence marshal u] []).
  { rewrite Hc. apply Parse_plain; [done|].
    assert (E : take (length amuxMetaPrefix + length (marshal u) + 1) (FormatMetaSequence marshal u ++ post)
                = FormatMetaSequence marshal u).
    { replace (_ + _ + 1)%nat with (length (FormatMetaSequence marshal u));
        [apply take_app_length|unfold FormatMetaSequence; rewrite !length_app; simpl; lia]. }
    rewrite <- E at 2. apply Parse_sequence.
    - unfold FormatMetaSequence. rewrite <- app_assoc. apply hasPrefix_spec. by eexists.
    - by apply findMetaTerminator_Format.
    - replace (_ + _ + 1)%nat with (length (FormatMetaSequence marshal u));
        [|unfold FormatMetaSequence; rewrite !length_app; simpl; lia].
      rewrite drop_app_length, <- (app_nil_r post). apply Parse_plain; [done|apply Parse_nil]. }
  edestruct (Parse_det (T := Meta_Terminator)) as [E1 E2]; [|exact H|exact HP|]; [simpl; lia|].
  rewrite (surjective_pairing (scanAll _ _ _ _ _)), E1, E2. cbn [omap list_omap].
  by rewrite metaPayload_Format, Hj.
Qed.

(** The limit is applied to all of the data that follows the prefix, not to the
    sequence: a complete sequence at the start of a longer read is dropped. *)
Theorem long_read_drops_sequence (u : MetaUpdate) (post : bytes) :
  27 ∉ marshal u -> 27 ∉ post -> maxAmuxMetaSize < lenZ post ->
  AmuxMetaScan unmarshal [] (FormatMetaSequence marshal u ++ post) = ([], []).
Proof.
  intros Hm Hp Hl. assert (Hn : 27 ∉ marshal u ++ [7] ++ post).
  { rewrite !elem_of_app. intros [H|[H|H]]; [done| |done]. by apply list_elem_of_singleton in H. }
  assert (HP : forall l, 27 ∉ l -> scanData amuxMetaPrefix maxAmuxMetaSize findMetaTerminator l = ([], [])).
  { intros l Hl'. induction l as [|c l IH]; [done|]. apply not_elem_of_cons in Hl' as [Hc Hl'].
    rewrite (scanData_skip (T := Meta_Terminator)); [auto|simpl; lia|]. apply dead_no_escape. congruence. }
  unfold AmuxMetaScan, scan. cbn [app].
  unfold FormatMetaSequence. rewrite <- !app_assoc, (scanData_abandon (T := Meta_Terminator));
    [|simpl; lia|apply hasPrefix_spec; by eexists|rewrite !lenZ_app; pose proof (lenZ_nonneg (marshal u)); pose proof (lenZ_nonneg amuxMetaPrefix); lsum].
  rewrite drop_app_length, HP by done. done.
Qed.
End MetaRoundtrip.

(** A JSON codec for updates that set the branch only, for the witnesses. *)
Definition sampleMarshal (u : MetaUpdate) : bytes :=
  match updBranch u with
  | Some s => bytesOf "{'branch':" ++ bytesOf s ++ bytesOf "}"
  | None => bytesOf "{}"
  end.
Definition sampleUnmarshal (l : bytes) : option MetaUpdate :=
  if hasPrefix (bytesOf "{'branch':") l
  then Some (mkMetaUpdate None None (Some (stringOf (take (length l - 11) (drop 10 l)))))
  else Some (mkMetaUpdate None None None).
Definition sampleUpdate : MetaUpdate := mkMetaUpdate None None (Some "main"%string).

Lemma meta_roundtrip_witness :
  AmuxMetaScanAll sampleUnmarshal [] [[111; 107; 27; 93; 57]; [57; 57; 59; 97; 109; 117; 120; 45; 109];
    drop 12 (FormatMetaSequence sampleMarshal sampleUpdate) ++ [13; 10]] = ([], [sampleUpdate]).
Proof.
  apply (meta_roundtrip sampleUnmarshal sampleMarshal sampleUpdate [111; 107] [13; 10]);
    try (by vm_compute); try (apply (bool_decide_unpack _); by vm_compute).
Defined.

Lemma long_read_drops_sequence_witness :
  let d := FormatMetaSequence sampleMarshal sampleUpdate ++ replicate 4097 (46 : Z) in
  AmuxMetaScan sampleUnmarshal [] d = ([], []).
Proof.
  apply (long_read_drops_sequence sampleUnmarshal sampleMarshal sampleUpdate (replicate 4097 46));
    [apply (bool_decide_unpack _); by vm_compute| |by vm_compute].
  intros H. apply elem_of_replicate in H as [H _]. done.
Defined.

