(* ===== verification/Undo.v ===== *)
(** * Soft-closed panes (internal/server/undo_manager.go)

    The UndoManager of a session: the stack of closed panes that can still be
    restored, their grace-period timers, and the timers of panes that were told
    to exit.  A timer is a number; [armed] is the timers of the Go runtime that
    have neither fired nor been stopped, with the event each will enqueue. *)

From stdpp Require Import gmap.
From S2P Require Import Prelude.

(** The events of the session's queue that concern closed panes. *)
Inductive sessionEvent : Set :=
| undoExpiryEvent (paneID : Z)
| paneCleanupTimeoutEvent (paneID : Z)
| paneExitEvent (paneID : Z) (reason : string).

#[export] Instance sessionEvent_dec : EqDecision sessionEvent.
Proof. solve_decision. Defined.

Record UndoManager : Set := mkUndoManager {
  closedPanes : list Z;
  closedPaneTimers : gmap Z nat;
  pendingCleanupKills : gmap Z nat;
  armed : gmap nat sessionEvent;
  nextTimer : nat }.

Definition newUndoManager : UndoManager := mkUndoManager [] ∅ ∅ ∅ 0.

Definition setClosedPanes (l : list Z) (m : UndoManager) : UndoManager :=
  mkUndoManager l (closedPaneTimers m) (pendingCleanupKills m) (armed m) (nextTimer m).
Definition setClosedTimers (t : gmap Z nat) (m : UndoManager) : UndoManager :=
  mkUndoManager (closedPanes m) t (pendingCleanupKills m) (armed m) (nextTimer m).
Definition setCleanupKills (t : gmap Z nat) (m : UndoManager) : UndoManager :=
  mkUndoManager (closedPanes m) (closedPaneTimers m) t (armed m) (nextTimer m).
Definition setArmed (a : gmap nat sessionEvent) (m : UndoManager) : UndoManager :=
  mkUndoManager (closedPanes m) (closedPaneTimers m) (pendingCleanupKills m) a (nextTimer m).

(** time.AfterFunc: a new timer. *)
Definition afterFunc (ev : sessionEvent) (m : UndoManager) : UndoManager * nat :=
  (mkUndoManager (closedPanes m) (closedPaneTimers m) (pendingCleanupKills m)
     (<[nextTimer m := ev]> (armed m)) (S (nextTimer m)), nextTimer m).

(** Timer.Stop: a timer that has fired already is not affected. *)
Definition stopTimer (t : nat) (m : UndoManager) : UndoManager := setArmed (delete t (armed m)) m.

(** [if timer := timers[paneID]; timer != nil { timer.Stop(); delete(...) }] *)
Definition stopClosedTimer (paneID : Z) (m : UndoManager) : UndoManager :=
  match closedPaneTimers m !! paneID with
  | Some t => setClosedTimers (delete paneID (closedPaneTimers m)) (stopTimer t m)
  | None => m
  end.
Definition stopCleanupTimer (paneID : Z) (m : UndoManager) : UndoManager :=
  match pendingCleanupKills m !! paneID with
  | Some t => setCleanupKills (delete paneID (pendingCleanupKills m)) (stopTimer t m)
  | None => m
  end.

Definition undoRemovePane (paneID : Z) (m : UndoManager) : UndoManager :=
  stopClosedTimer paneID (stopCleanupTimer paneID m).

Inductive UndoError : Set :=
| errNoClosedPane                 (* no closed pane to undo *)
| errCleanupPending (id : Z)      (* %s cleanup already pending *)
| errSignal.

(** [signalOk]: whether the process group could be sent SIGTERM. *)
Definition beginPaneCleanupKill (signalOk : bool) (paneID : Z) : M UndoManager UndoError unit := fun m =>
  match pendingCleanupKills m !! paneID with
  | Some _ => (m, Err (errCleanupPending paneID))
  | None =>
      if signalOk then
        let '(m, t) := afterFunc (paneCleanupTimeoutEvent paneID) m in
        (setCleanupKills (<[paneID := t]> (pendingCleanupKills m)) m, Ok tt)
      else (m, Err errSignal)
  end.

Definition trackSoftClosedPane (paneID : Z) (m : UndoManager) : UndoManager :=
  let m := setClosedPanes (closedPanes m ++ [paneID]) m in
  let '(m, t) := afterFunc (undoExpiryEvent paneID) m in
  setClosedTimers (<[paneID := t]> (closedPaneTimers m)) m.

Definition popClosedPane : M UndoManager UndoError Z := fun m =>
  match last (closedPanes m) with
  | None => (m, Err errNoClosedPane)
  | Some paneID =>
      let m := setClosedPanes (take (length (closedPanes m) - 1) (closedPanes m)) m in
      (stopClosedTimer paneID m, Ok paneID)
  end.

(** Removes the first record of the pane; false when there is none. *)
Fixpoint removeFirst (paneID : Z) (l : list Z) : option (list Z) :=
  match l with
  | [] => None
  | id :: l => if id =? paneID then Some l else cons id <$> removeFirst paneID l
  end.
Definition finalizeClosedPane (paneID : Z) (m : UndoManager) : UndoManager * bool :=
  match removeFirst paneID (closedPanes m) with
  | Some l => (stopClosedTimer paneID (setClosedPanes l m), true)
  | None => (m, false)
  end.

(** A timer fires: its event goes to the queue. *)
Definition fireTimer (t : nat) (m : UndoManager) : option (UndoManager * sessionEvent) :=
  (fun ev => (stopTimer t m, ev)) <$> armed m !! t.

(** ** Invariant

    The closed panes are distinct, the timers in the map are exactly theirs,
    and every expiry is on its way: armed, or among the [queued] events. *)
Record UndoInv (queued : list sessionEvent) (m : UndoManager) : Prop := mkUndoInv {
  undo_nodup : NoDup (closedPanes m);
  undo_timers id : is_Some (closedPaneTimers m !! id) <-> id ∈ closedPanes m;
  undo_due id t : closedPaneTimers m !! id = Some t ->
    armed m !! t = Some (undoExpiryEvent id) \/ undoExpiryEvent id ∈ queued;
  undo_inj id1 id2 t : closedPaneTimers m !! id1 = Some t -> closedPaneTimers m !! id2 = Some t -> id1 = id2;
  undo_disjoint id1 id2 t : closedPaneTimers m !! id1 = Some t -> pendingCleanupKills m !! id2 <> Some t;
  undo_fresh t : (nextTimer m <= t)%nat ->
    (forall id, closedPaneTimers m !! id <> Some t) /\ (forall id, pendingCleanupKills m !! id <> Some t) }.

Lemma newUndoManager_inv : UndoInv [] newUndoManager.
Proof.
  constructor; simpl; try done; [constructor|].
  intros id. rewrite lookup_empty. split; [by intros [? ?]|by intros ?%elem_of_nil].
Qed.

(** More queued events do no harm. *)
Lemma UndoInv_queue q q' m :
  (forall id, undoExpiryEvent id ∈ q -> id ∈ closedPanes m -> undoExpiryEvent id ∈ q') ->
  UndoInv q m -> UndoInv q' m.
Proof.
  intros Hq [? Ht Hd ? ? ?]. constructor; auto. intros id t Hl. destruct (Hd id t Hl); [by left|right].
  apply Hq; [done|]. apply Ht. by eexists.
Qed.

(** A pane leaves the stack and its timer is stopped. *)
Lemma UndoInv_drop q m id l :
  UndoInv q m -> closedPanes m ≡ₚ id :: l -> UndoInv q (stopClosedTimer id (setClosedPanes l m)).
Proof.
  intros [Hn Ht Hd Hi Hdj Hf] HP. rewrite HP in Hn. apply NoDup_cons in Hn as [Hid Hn].
  assert (is_Some (closedPaneTimers m !! id)) as [t Et] by (apply Ht; rewrite HP; apply list_elem_of_here).
  unfold stopClosedTimer. simpl. rewrite Et. constructor; simpl; auto.
  - intros id'. rewrite lookup_delete_is_Some, Ht, HP, elem_of_cons. split; [intros [? [?|?]]; congruence|].
    intros Hin. split; [|by right]. intros ->. done.
  - intros id' t' [Hne Hl]%lookup_delete_Some. destruct (Hd id' t' Hl) as [H|H]; [left|by right].
    rewrite lookup_delete_ne; [done|]. intros ->. by apply Hne, (Hi _ _ t').
  - intros id1 id2 t' [_ H1]%lookup_delete_Some [_ H2]%lookup_delete_Some. eauto.
  - intros id1 id2 t' [_ H1]%lookup_delete_Some. eauto.
  - intros t' Ht'. destruct (Hf t' Ht') as [H1 H2]. split; [|done].
    intros id' [_ H]%lookup_delete_Some. by apply (H1 id').
Qed.

Lemma popClosedPane_snoc m l id : closedPanes m = l ++ [id] ->
  popClosedPane m = (stopClosedTimer id (setClosedPanes l m), Ok id).
Proof.
  intros E. unfold popClosedPane. rewrite E, last_snoc. do 3 f_equal.
  rewrite length_app. simpl. rewrite Nat.add_sub. apply take_app_length.
Qed.

Lemma removeFirst_Some id l l' : removeFirst id l = Some l' -> l ≡ₚ id :: l' /\ id ∈ l.
Proof.
  revert l'. induction l as [|x l IH]; intros l'; simpl; [done|].
  destruct (Z.eqb_spec x id) as [->|]; [intros [= ->]; split; [done|apply list_elem_of_here]|].
  intros (l1 & Hl & ->)%fmap_Some. destruct (IH _ Hl) as [IH1 IH2].
  split; [rewrite IH1; apply Permutation_swap|by apply list_elem_of_further].
Qed.
Lemma removeFirst_None id l : removeFirst id l = None <-> id ∉ l.
Proof.
  induction l as [|x l IH]; simpl; [split; [intros _ ?%elem_of_nil; done|done]|].
  destruct (Z.eqb_spec x id) as [->|Hne].
  - split; [done|]. intros H. destruct H. apply list_elem_of_here.
  - rewrite fmap_None, IH, not_elem_of_cons. naive_solver.
Qed.

Lemma finalizeClosedPane_ok q id m : UndoInv q m ->
  let '(m', found) := finalizeClosedPane id m in
  UndoInv q m' /\ (found = true <-> id ∈ closedPanes m) /\ (id ∉ closedPanes m') /\
  (forall id', id' <> id -> id' ∈ closedPanes m' <-> id' ∈ closedPanes m) /\
  (found = false -> m' = m).
Proof.
  intros Hi. unfold finalizeClosedPane. destruct (removeFirst id (closedPanes m)) as [l|] eqn:E.
  - destruct (removeFirst_Some _ _ _ E) as [HP Hin]. split; [by apply UndoInv_drop|].
    assert (closedPanes (stopClosedTimer id (setClosedPanes l m)) = l) as ->
      by (unfold stopClosedTimer; by case_match).
    pose proof (undo_nodup _ _ Hi) as Hn. rewrite HP in Hn. apply NoDup_cons in Hn as [Hn _].
    split_and!; [done|done| |done]. intros id' Hne. rewrite HP, elem_of_cons. naive_solver.
  - apply removeFirst_None in E. split_and!; naive_solver.
Qed.

Lemma trackSoftClosedPane_ok q id m : UndoInv q m -> id ∉ closedPanes m ->
  UndoInv q (trackSoftClosedPane id m) /\ closedPanes (trackSoftClosedPane id m) = closedPanes m ++ [id].
Proof.
  intros [Hn Ht Hd Hi Hdj Hf] Hid. split; [|done].
  destruct (Hf (nextTimer m)) as [Hf1 Hf2]; [lia|].
  unfold trackSoftClosedPane, afterFunc, setClosedTimers, setClosedPanes. constructor; simpl.
  - apply NoDup_app. split_and!; [done| |apply NoDup_singleton].
    intros x Hx ->%list_elem_of_singleton. done.
  - intros id'. rewrite lookup_insert_is_Some', Ht, elem_of_app, list_elem_of_singleton. naive_solver.
  - intros id' t [[<- <-]|[Hne Hl]]%lookup_insert_Some; [left; by rewrite lookup_insert_eq|].
    rewrite lookup_insert_ne; [by apply Hd|]. intros <-. by apply (Hf1 id').
  - intros id1 id2 t [[<- <-]|[Hne1 H1]]%lookup_insert_Some [[? ?]|[Hne2 H2]]%lookup_insert_Some;
      subst; try done; [by destruct (Hf1 id2)|by destruct (Hf1 id1)|eauto].
  - intros id1 id2 t [[<- <-]|[Hne1 H1]]%lookup_insert_Some; [apply Hf2|eauto].
  - intros t Hlt. destruct (Hf t) as [H1 H2]; [lia|]. split; [|done].
    intros id' [[_ Heq]|[_ H]]%lookup_insert_Some; [lia|by apply (H1 id')].
Qed.

Lemma stopCleanupTimer_ok q id m : UndoInv q m -> UndoInv q (stopCleanupTimer id m).
Proof.
  intros Hi. unfold stopCleanupTimer. destruct (pendingCleanupKills m !! id) as [t|] eqn:E; [|done].
  destruct Hi as [Hn Ht Hd Hi Hdj Hf]. constructor; simpl; auto.
  - intros id' t' Hl. destruct (Hd id' t' Hl) as [H|H]; [left|by right].
    rewrite lookup_delete_ne; [done|]. intros ->. by apply (Hdj _ _ _ Hl E).
  - intros id1 id2 t' Hl [_ H]%lookup_delete_Some. by apply (Hdj _ id2 _ Hl).
  - intros t' Ht'. destruct (Hf t' Ht') as [H1 H2]. split; [done|].
    intros id' [_ H]%lookup_delete_Some. by apply (H2 id').
Qed.

Lemma undoRemovePane_ok q id m : UndoInv q m -> id ∉ closedPanes m ->
  UndoInv q (undoRemovePane id m) /\ closedPanes (undoRemovePane id m) = closedPanes m.
Proof.
  intros Hi Hid. pose proof (stopCleanupTimer_ok q id m Hi) as Hi2.
  assert (closedPanes (stopCleanupTimer id m) = closedPanes m) as E
    by (unfold stopCleanupTimer; by case_match).
  unfold undoRemovePane, stopClosedTimer.
  destruct (closedPaneTimers (stopCleanupTimer id m) !! id) eqn:Et; [|done].
  destruct Hid. rewrite <- E. apply (undo_timers _ _ Hi2). by eexists.
Qed.

Lemma beginPaneCleanupKill_ok q ok id m : UndoInv q m ->
  UndoInv q (beginPaneCleanupKill ok id m).1 /\
  closedPanes (beginPaneCleanupKill ok id m).1 = closedPanes m.
Proof.
  intros Hi. unfold beginPaneCleanupKill, afterFunc, setCleanupKills.
  destruct (pendingCleanupKills m !! id) eqn:E; [done|]. destruct ok; [|done]. split; [|done]. simpl.
  destruct Hi as [Hn Ht Hd Hi Hdj Hf]. destruct (Hf (nextTimer m)) as [Hf1 Hf2]; [lia|]. constructor; simpl; auto.
  - intros id' t Hl. rewrite lookup_insert_ne; [by apply Hd|]. intros <-. by apply (Hf1 id').
  - intros id1 id2 t Hl [[_ <-]|[_ H]]%lookup_insert_Some; [by apply (Hf1 id1)|by apply (Hdj _ id2 _ Hl)].
  - intros t Hlt. destruct (Hf t) as [H1 H2]; [lia|]. split; [done|].
    intros id' [[_ Heq]|[_ H]]%lookup_insert_Some; [lia|by apply (H2 id')].
Qed.

(** A timer that fires moves its event to the queue. *)
Lemma fireTimer_ok q t m m' ev : UndoInv q m -> fireTimer t m = Some (m', ev) ->
  UndoInv (q ++ [ev]) m' /\ closedPanes m' = closedPanes m /\ armed m !! t = Some ev /\
  armed m' = delete t (armed m).
Proof.
  intros [Hn Ht Hd Hi Hdj Hf] (ev' & Et & [= -> ->])%fmap_Some. split_and!; [|done..].
  constructor; simpl; auto. intros id t' Hl. rewrite elem_of_app, list_elem_of_singleton.
  destruct (decide (t' = t)) as [->|Hne].
  - right. destruct (Hd id t Hl) as [H|H]; [right; congruence|by left].
  - rewrite lookup_delete_ne by done. destruct (Hd id t' Hl); auto.
Qed.
