(* ===== verification/Session.v ===== *)
(** * Sessions: windows, panes and soft-closed panes
    (internal/server/session_window.go, session_pane.go, session_events_pane.go,
    undo_manager.go, session_broadcast.go)

    A session owns the windows and the flat list of its panes.  Its methods run
    on the event loop, one at a time: a command or a queued event is one step.
    The panes' own state is the store that all windows share. *)

From stdpp Require Import gmap.
From S2P Require Import Prelude LayoutTree WindowState Ultra WindowOps WindowResize Undo.

(** Window with the fields of mux.Window that the session sets. *)
Record SWindow : Type := mkSWindow { wID : Z; wName : string; wWin : Window }.

(** The calls a session makes into its other parts (input router, waiters, idle
    tracker, subscriptions, mirror links, clients, logs), in order. *)
Inductive Call : Set :=
| InputRouterRemovePane (id : Z) | RefreshInputTarget
| WaitersRemovePane (id : Z) | DeleteTerminalState (id : Z) | IdleStopPane (id : Z)
| PrunePaneEventSubs (id : Z)
| MirrorDetach (id : Z) | MirrorResizeWindow (wid cols rows : Z)
| AppendPaneLogCreate (id : Z) | LogPaneCreate (id : Z)
| AppendPaneLogExit (id : Z) (reason : string) | EmitPaneExit (id : Z) (reason : string)
| LogPaneExit (id : Z) (reason : string) | WarnClosePane (id : Z)
| SignalKill (id : Z) | ClosePaneAsync (id : Z)
| BroadcastExit | CloseAllScopedPaneClients | CloseScopedPaneClients (id : Z) | BroadcastLayout.

Record Session : Type := mkSession {
  Windows : list SWindow;
  ActiveWindowID : Z; PreviousWindowID : Z; windowCounter : Z;
  PaneIDs : list Z;                       (* Session.Panes *)
  counter : Z;
  store : gmap Z PaneState; pointCounter : Z;
  undo : UndoManager;
  mirror : option (gmap Z bool);          (* nil, or the panes with a remote ref: can it be tracked? *)
  windowMirrorSigs : gset Z;
  effectiveSize : option (Z * Z);         (* effectiveLayoutSize *)
  queue : list sessionEvent;
  shutdown : bool; wantShutdown : bool;
  calls : list Call }.

Definition withWindows (ws : list SWindow) (s : Session) : Session :=
  mkSession ws (ActiveWindowID s) (PreviousWindowID s) (windowCounter s) (PaneIDs s) (counter s) (store s)
    (pointCounter s) (undo s) (mirror s) (windowMirrorSigs s) (effectiveSize s) (queue s) (shutdown s)
    (wantShutdown s) (calls s).
Definition withActive (id : Z) (s : Session) : Session :=
  mkSession (Windows s) id (PreviousWindowID s) (windowCounter s) (PaneIDs s) (counter s) (store s)
    (pointCounter s) (undo s) (mirror s) (windowMirrorSigs s) (effectiveSize s) (queue s) (shutdown s)
    (wantShutdown s) (calls s).
Definition withPrevious (id : Z) (s : Session) : Session :=
  mkSession (Windows s) (ActiveWindowID s) id (windowCounter s) (PaneIDs s) (counter s) (store s)
    (pointCounter s) (undo s) (mirror s) (windowMirrorSigs s) (effectiveSize s) (queue s) (shutdown s)
    (wantShutdown s) (calls s).
Definition withCounters (windowN paneN : Z) (s : Session) : Session :=
  mkSession (Windows s) (ActiveWindowID s) (PreviousWindowID s) windowN (PaneIDs s) paneN (store s)
    (pointCounter s) (undo s) (mirror s) (windowMirrorSigs s) (effectiveSize s) (queue s) (shutdown s)
    (wantShutdown s) (calls s).
Definition withPaneIDs (ids : list Z) (s : Session) : Session :=
  mkSession (Windows s) (ActiveWindowID s) (PreviousWindowID s) (windowCounter s) ids (counter s) (store s)
    (pointCounter s) (undo s) (mirror s) (windowMirrorSigs s) (effectiveSize s) (queue s) (shutdown s)
    (wantShutdown s) (calls s).
Definition withStore (ps : gmap Z PaneState) (n : Z) (s : Session) : Session :=
  mkSession (Windows s) (ActiveWindowID s) (PreviousWindowID s) (windowCounter s) (PaneIDs s) (counter s) ps
    n (undo s) (mirror s) (windowMirrorSigs s) (effectiveSize s) (queue s) (shutdown s)
    (wantShutdown s) (calls s).
Definition withUndo (m : UndoManager) (s : Session) : Session :=
  mkSession (Windows s) (ActiveWindowID s) (PreviousWindowID s) (windowCounter s) (PaneIDs s) (counter s) (store s)
    (pointCounter s) m (mirror s) (windowMirrorSigs s) (effectiveSize s) (queue s) (shutdown s)
    (wantShutdown s) (calls s).
Definition withQueue (q : list sessionEvent) (s : Session) : Session :=
  mkSession (Windows s) (ActiveWindowID s) (PreviousWindowID s) (windowCounter s) (PaneIDs s) (counter s) (store s)
    (pointCounter s) (undo s) (mirror s) (windowMirrorSigs s) (effectiveSize s) q (shutdown s)
    (wantShutdown s) (calls s).
Definition withWantShutdown (b : bool) (s : Session) : Session :=
  mkSession (Windows s) (ActiveWindowID s) (PreviousWindowID s) (windowCounter s) (PaneIDs s) (counter s) (store s)
    (pointCounter s) (undo s) (mirror s) (windowMirrorSigs s) (effectiveSize s) (queue s) (shutdown s) b (calls s).
Definition call (c : Call) (s : Session) : Session :=
  mkSession (Windows s) (ActiveWindowID s) (PreviousWindowID s) (windowCounter s) (PaneIDs s) (counter s) (store s)
    (pointCounter s) (undo s) (mirror s) (windowMirrorSigs s) (effectiveSize s) (queue s) (shutdown s)
    (wantShutdown s) (calls s ++ [c]).

Inductive SessionError : Set :=
| errWindow (e : WindowError)
| errUndo (e : UndoError)
| errNoActiveWindow                 (* no active window *)
| errNoWindow                       (* no window *)
| errTrackMirror
| errPaneMissing (id : Z)           (* pane %d not found *)
| errWindowMissing (id : Z).        (* window %d not found *)

Abbreviation MS := (M Session SessionError).

(** ** Finding windows (session_window.go) *)

Definition windowByID (windowID : Z) (s : Session) : option SWindow :=
  List.find (fun w => wID w =? windowID) (Windows s).
Definition activeWindow (s : Session) : option SWindow :=
  match windowByID (ActiveWindowID s) s with Some w => Some w | None => head (Windows s) end.
Definition findWindowByPaneID (paneID : Z) (s : Session) : option SWindow :=
  List.find (fun w => HasPane paneID (wWin w)) (Windows s).

(** previousWindow forgets a previous window that is gone. *)
Definition previousWindow (s : Session) : Session * option SWindow :=
  if (PreviousWindowID s =? 0) || (PreviousWindowID s =? ActiveWindowID s) then (s, None)
  else match windowByID (PreviousWindowID s) s with
       | Some w => (s, Some w)
       | None => (withPrevious 0 s, None)
       end.

(** ** A window's method, called through the session

    The window works on the shared panes; only its own part is kept in the
    list of windows. *)
Definition bare (w : Window) : Window := setCounter 0 (setPanes ∅ w).
Definition loaded (s : Session) (w : Window) : Window := setCounter (pointCounter s) (setPanes (store s) w).
Definition setWin (w : Window) (sw : SWindow) : SWindow := mkSWindow (wID sw) (wName sw) w.

Definition saveWindow (windowID : Z) (w : Window) (s : Session) : Session :=
  withStore (panes w) (activePointCounter w)
    (withWindows (map (fun sw => if wID sw =? windowID then setWin (bare w) sw else sw) (Windows s)) s).
Definition onWindow {A} (sw : SWindow) (m : M Window WindowError A) : MS A := fun s =>
  let '(w, r) := m (loaded s (wWin sw)) in
  (saveWindow (wID sw) w s, match r with Ok a => Ok a | Err e => Err (errWindow e) end).

(** ** Switching windows *)

Definition pushMirrorWindowSize (windowID cols rows : Z) (s : Session) : Session :=
  match mirror s with
  | Some _ => if bool_decide (windowID ∈ windowMirrorSigs s) then call (MirrorResizeWindow windowID cols rows) s else s
  | None => s
  end.

Definition syncWindowSizeToEffectiveClient (sw : SWindow) (s : Session) : Session :=
  match effectiveSize s with
  | None => s
  | Some (cols, layoutH) =>
      if (Width (wWin sw) =? cols) && (Height (wWin sw) =? layoutH) then s
      else pushMirrorWindowSize (wID sw) cols layoutH
             (saveWindow (wID sw) (Resize cols layoutH (loaded s (wWin sw))) s)
  end.

Definition activateWindow (sw : SWindow) (s : Session) : Session :=
  let current := ActiveWindowID s in
  let s :=
    if negb (current =? 0) && negb (current =? wID sw) then
      match windowByID current s with Some _ => withPrevious current s | None => withPrevious 0 s end
    else s in
  syncWindowSizeToEffectiveClient sw (withActive (wID sw) s).

(** The index of the active window in the list. *)
Fixpoint windowIndex (windowID : Z) (ws : list SWindow) : option nat :=
  match ws with
  | [] => None
  | w :: ws => if wID w =? windowID then Some O else S <$> windowIndex windowID ws
  end.
Definition stepWindow (offset : Z) (s : Session) : Session :=
  let n := lenZ (Windows s) in
  if n <=? 1 then s
  else match windowIndex (ActiveWindowID s) (Windows s) with
       | None => s
       | Some i =>
           match Windows s !! Z.to_nat (Z.rem (Z.of_nat i + offset) n) with
           | Some w => activateWindow w s
           | None => s
           end
       end.
(** [(i+1) % n] and [(i-1+n) % n] *)
Definition nextWindow (s : Session) : Session := stepWindow 1 s.
Definition prevWindow (s : Session) : Session := stepWindow (-1 + lenZ (Windows s)) s.
Definition lastWindow (s : Session) : Session * bool :=
  let '(s, prev) := previousWindow s in
  match prev with Some w => (activateWindow w s, true) | None => (s, false) end.

(** 1-based positions; the two copies shift the windows in between. *)
Definition reorderWindow (from to : Z) (s : Session) : Session * bool :=
  let n := lenZ (Windows s) in
  if (from <? 1) || (n <? from) || (to <? 1) || (n <? to) || (from =? to) then (s, false)
  else
    let ws := Windows s in
    let f := Z.to_nat from in let t := Z.to_nat to in
    match ws !! (f - 1)%nat with
    | None => (s, false)
    | Some window =>
        let shifted :=
          if from <? to then take (f - 1) ws ++ take (t - f) (drop f ws) ++ drop (t - 1) ws
          else take t ws ++ take (f - t) (drop (t - 1) ws) ++ drop f ws in
        (withWindows (<[(t - 1)%nat := window]> shifted) s, true)
    end.

(** ** Removing windows and panes *)

Fixpoint removeWindowFrom (windowID : Z) (ws : list SWindow) : option (list SWindow) :=
  match ws with
  | [] => None
  | w :: ws => if wID w =? windowID then Some ws else cons w <$> removeWindowFrom windowID ws
  end.

Definition removeWindow (windowID : Z) (s : Session) : Session :=
  match removeWindowFrom windowID (Windows s) with
  | None => s
  | Some ws =>
      let s := withWindows ws s in
      let s :=
        if ActiveWindowID s =? windowID then
          let '(s, prev) := previousWindow s in
          match prev with
          | Some p => if negb (wID p =? windowID) then withActive (wID p) s
                      else withActive (default 0 (wID <$> head (Windows s))) s
          | None => withActive (default 0 (wID <$> head (Windows s))) s
          end
        else s in
      let s := if PreviousWindowID s =? windowID then withPrevious 0 s else s in
      call RefreshInputTarget s
  end.

(** The name of the window that was closed with its last pane, if any. *)
Definition closePaneInWindow (paneID : Z) (s : Session) : Session * string :=
  match findWindowByPaneID paneID s with
  | None => (s, EmptyString)
  | Some w =>
      if PaneCount (wWin w) <=? 1 then
        let wasActive := wID w =? ActiveWindowID s in
        let s := removeWindow (wID w) s in
        let s := match Windows s with
                 | w0 :: _ => if wasActive then activateWindow w0 s else s
                 | [] => s
                 end in
        (s, wName w)
      else
        let '(s, r) := onWindow w (ClosePane paneID) s in
        (if is_ok r then s else call (WarnClosePane paneID) s, EmptyString)
  end.

Definition hasPane (id : Z) (s : Session) : bool := bool_decide (id ∈ PaneIDs s).

(** removePane: the pane leaves the session's list and everything that tracks it. *)
Definition sessionRemovePane (id : Z) (s : Session) : Session :=
  let found := hasPane id s in
  let s := match removeFirst id (PaneIDs s) with Some l => withPaneIDs l s | None => s end in
  let s := withUndo (undoRemovePane id (undo s)) s in
  let s := call (InputRouterRemovePane id) s in
  let s := call (WaitersRemovePane id) s in
  let s := call (DeleteTerminalState id) s in
  let s := call (IdleStopPane id) s in
  if found then call (PrunePaneEventSubs id) s else s.

Record paneRemovalResult : Set := mkRemoval {
  remPane : option Z; closedWindow : string; broadcastLayout : bool; sendExit : bool }.
Definition noRemoval : paneRemovalResult := mkRemoval None EmptyString false false.

Definition finalizePaneRemoval (paneID : Z) (s : Session) : Session * paneRemovalResult :=
  if hasPane paneID s then
    let exit := lenZ (PaneIDs s) <=? 1 in
    let s := sessionRemovePane paneID s in
    let '(s, closed) := closePaneInWindow paneID s in
    (s, mkRemoval (Some paneID) closed (negb exit) exit)
  else (s, noRemoval).

(** ** Closing with undo *)

Definition softClosePane (paneID : Z) (s : Session) : Session * paneRemovalResult :=
  if hasPane paneID s then
    if lenZ (PaneIDs s) <=? 1 then finalizePaneRemoval paneID s
    else
      let '(s, closed) := closePaneInWindow paneID s in
      let s := match removeFirst paneID (PaneIDs s) with Some l => withPaneIDs l s | None => s end in
      let s := call (WaitersRemovePane paneID) s in
      let s := call (DeleteTerminalState paneID) s in
      let s := call (IdleStopPane paneID) s in
      let s := call (PrunePaneEventSubs paneID) s in
      let s := match mirror s with Some _ => call (MirrorDetach paneID) s | None => s end in
      let s := withUndo (trackSoftClosedPane paneID (undo s)) s in
      (s, mkRemoval (Some paneID) closed true false)
  else (s, noRemoval).

Definition liftUndo {A} (m : M UndoManager UndoError A) : MS A := fun s =>
  let '(u, r) := m (undo s) in
  (withUndo u s, match r with Ok a => Ok a | Err e => Err (errUndo e) end).

(** [if s.mirror != nil && pane.IsProxy()], a remote ref is tracked again. *)
Definition retrackMirror (paneID : Z) : MS unit := fun s =>
  match mirror s with
  | Some refs =>
      if default false (isProxy <$> store s !! paneID) then
        match refs !! paneID with
        | Some false => (s, Err errTrackMirror)
        | _ => (s, Ok tt)
        end
      else (s, Ok tt)
  | None => (s, Ok tt)
  end.

Definition undoClosePane : MS Z :=
  do pane <- liftUndo popClosedPane;
  run modify (fun s => withPaneIDs (PaneIDs s ++ [pane]) s);
  run retrackMirror pane;
  do s <- get;
  match activeWindow s with
  | None => throw errNoActiveWindow
  | Some w =>
      run onWindow w (SplitWithOptions SplitVertical pane
                        (mkSplitOptions (negb (ZoomedPaneID (wWin w) =? 0)) false));
      ret pane
  end.

(** ** Panes that go away by themselves (session_events_pane.go, undo_manager.go) *)

Definition handleFinalizedPaneRemoval (paneID : Z) (closePane : bool) (reason : string) (s : Session) : Session :=
  let '(s, removed) := finalizePaneRemoval paneID s in
  match remPane removed with
  | None => s
  | Some pane =>
      let s := match mirror s with Some _ => call (MirrorDetach paneID) s | None => s end in
      let s := call (AppendPaneLogExit pane reason) s in
      let s := call (EmitPaneExit pane reason) s in
      let s := call (LogPaneExit pane reason) s in
      let s := if closePane then call (ClosePaneAsync pane) s else s in
      if sendExit removed then withWantShutdown true (call CloseAllScopedPaneClients (call BroadcastExit s))
      else
        let s := call (CloseScopedPaneClients paneID) s in
        if broadcastLayout removed then call BroadcastLayout s else s
  end.

(** closeFinalizedPane with closePaneAsync: true when the pane was soft-closed. *)
Definition closeFinalizedPane (paneID : Z) (s : Session) : Session * bool :=
  let '(u, found) := finalizeClosedPane paneID (undo s) in
  let s := withUndo u s in
  if found then (call (ClosePaneAsync paneID) s, true) else (s, false).

Definition handleUndoExpiry (paneID : Z) (s : Session) : Session := fst (closeFinalizedPane paneID s).
Definition handlePaneCleanupTimeout (paneID : Z) (s : Session) : Session :=
  if hasPane paneID s
  then handleFinalizedPaneRemoval paneID true "cleanup timeout" (call (SignalKill paneID) s)
  else s.
Definition handlePaneExit (paneID : Z) (reason : string) (s : Session) : Session :=
  let '(s, closed) := closeFinalizedPane paneID s in
  if closed then s else handleFinalizedPaneRemoval paneID false reason s.

(** The handlers of the queued events; none of them acts after the shutdown. *)
Definition handleEvent (ev : sessionEvent) (s : Session) : Session :=
  if shutdown s then s
  else match ev with
  | undoExpiryEvent paneID => handleUndoExpiry paneID s
  | paneCleanupTimeoutEvent paneID => handlePaneCleanupTimeout paneID s
  | paneExitEvent paneID reason => handlePaneExit paneID reason s
  end.

(** The event loop takes the first event of the queue. *)
Definition handleNext (s : Session) : Session :=
  match queue s with
  | [] => s
  | ev :: q => handleEvent ev (withQueue q s)
  end.

(** enqueueEvent, and a timer that fires. *)
Definition enqueueEvent (ev : sessionEvent) (s : Session) : Session := withQueue (queue s ++ [ev]) s.
Definition fire (t : nat) (s : Session) : Session :=
  match fireTimer t (undo s) with
  | Some (u, ev) => enqueueEvent ev (withUndo u s)
  | None => s
  end.

Definition sessionBeginCleanup (signalOk : bool) (paneID : Z) : MS unit :=
  liftUndo (beginPaneCleanupKill signalOk paneID).

(** ** New panes and windows, and moving panes between windows *)

(** preparePendingLocalPane: a fresh ID; [p] is the new pane. *)
Definition preparePane (p : PaneState) (s : Session) : Session * Z :=
  let id := (counter s + 1) mod 2 ^ 32 in
  let s := withCounters (windowCounter s) id s in
  let s := withStore (<[id := p]> (store s)) (pointCounter s) s in
  let s := withPaneIDs (PaneIDs s ++ [id]) s in
  (call (LogPaneCreate id) (call (AppendPaneLogCreate id) s), id).

(** The mutation of runNewWindow; [nameOf] is fmt.Sprintf(WindowNameFormat, _). *)
Definition newWindow (nameOf : Z -> string) (name : string) (p : PaneState) : MS Z := fun s =>
  match activeWindow s with
  | None => (s, Err errNoWindow)
  | Some w =>
      let '(s, pane) := preparePane p s in
      let winID := (windowCounter s + 1) mod 2 ^ 32 in
      let s := withCounters winID (counter s) s in
      let win := bare (setLeadID pane (NewWindow pane (Width (wWin w)) (Height (wWin w)) ∅ 0)) in
      let sw := mkSWindow winID (if decide (name = EmptyString) then nameOf winID else name) win in
      (activateWindow sw (withWindows (Windows s ++ [sw]) s), Ok winID)
  end.

(** insertPreparedPaneIntoActiveWindow *)
Definition insertPreparedPaneIntoActiveWindow (pane : Z) (dir : SplitDir) (rootLevel keepFocus : bool) : MS unit :=
  do s <- get;
  match activeWindow s with
  | None => throw errNoWindow
  | Some w =>
      run modify (fun s => call (LogPaneCreate pane) (withPaneIDs (PaneIDs s ++ [pane]) s));
      let opts := mkSplitOptions (keepFocus || negb (ZoomedPaneID (wWin w) =? 0)) false in
      fun s =>
        match onWindow w (if rootLevel then SplitRootWithOptions dir pane opts
                          else SplitWithOptions dir pane opts) s with
        | (s, Ok _) => (s, Ok tt)
        | (s, Err e) => (sessionRemovePane pane s, Err e)
        end
  end.

Definition movePaneToWindow (paneID targetWindowID : Z) : MS unit := fun s =>
  match findWindowByPaneID paneID s with
  | None => (s, Err (errPaneMissing paneID))
  | Some source =>
      match windowByID targetWindowID s with
      | None => (s, Err (errWindowMissing targetWindowID))
      | Some target =>
          if wID source =? wID target then (s, Ok tt)
          else if negb (hasPane paneID s) then (s, Err (errPaneMissing paneID))
          else
            let sourceWasActive := wID source =? ActiveWindowID s in
            let sourceRemoved := PaneCount (wWin source) <=? 1 in
            (run (if sourceRemoved then modify (removeWindow (wID source))
                  else onWindow source (ClosePane paneID));
             run onWindow target (SplitRootWithOptions SplitVertical paneID (mkSplitOptions true false));
             modify (fun s =>
               if sourceWasActive && sourceRemoved then
                 match windowByID (wID target) s with Some w => activateWindow w s | None => s end
               else s)) s
      end
  end.

(** ** The first window (session_events_layout.go) *)

(** NewWindow for the session; [id] is the pane it shows, which becomes the lead. *)
Definition GlobalBarHeight : Z := 1.

(** Splits the active pane of the new window for one orphan after the other. *)
Fixpoint splitAll (ids : list Z) : MW unit :=
  match ids with
  | [] => ret tt
  | id :: ids => run SplitActive SplitVertical id; splitAll ids
  end.

(** Panes that no window shows are put into a recovery window; [dormant]: the
    panes that are meant to be hidden. *)
Definition recoverInitialWindow (nameOf : Z -> string) (dormant : Z -> bool) (cols rows : Z) : MS bool := fun s =>
  match Windows s with
  | _ :: _ => (s, Ok false)
  | [] =>
      match filter (fun id => dormant id = false /\ findWindowByPaneID id s = None) (PaneIDs s) with
      | [] => (s, Ok false)
      | first :: rest =>
          let winID := (windowCounter s + 1) mod 2 ^ 32 in
          let s := withCounters winID (counter s) s in
          let w := NewWindow first cols (rows - GlobalBarHeight) (store s) (pointCounter s) in
          let '(w, r) := splitAll rest w in
          let s := withStore (panes w) (activePointCounter w) s in
          match r with
          | Err e => (s, Err (errWindow e))
          | Ok _ =>
              let sw := mkSWindow winID (nameOf winID) (bare (setLeadID first w)) in
              (withActive winID (withWindows (Windows s ++ [sw]) s), Ok true)
          end
      end
  end.

(** The first window with a new pane. *)
Definition firstWindow (nameOf : Z -> string) (p : PaneState) (cols rows : Z) (s : Session) : Session :=
  let '(s, pane) := preparePane p s in
  let winID := (windowCounter s + 1) mod 2 ^ 32 in
  let s := withCounters winID (counter s) s in
  let win := bare (setLeadID pane (NewWindow pane cols (rows - GlobalBarHeight) ∅ 0)) in
  withActive winID (withWindows (Windows s ++ [mkSWindow winID (nameOf winID) win]) s).

Definition ensureInitialWindow (nameOf : Z -> string) (dormant : Z -> bool) (p : PaneState) (cols rows : Z) : MS bool :=
  do s <- get;
  match Windows s with
  | _ :: _ => ret false
  | [] =>
      do recovered <- recoverInitialWindow nameOf dormant cols rows;
      if recovered : bool then ret true
      else fun s => (firstWindow nameOf p cols rows s, Ok true)
  end.

Definition newSession (effective : option (Z * Z)) : Session :=
  mkSession [] 0 0 0 [] 0 ∅ 0 newUndoManager None ∅ effective [] false false [].
