(* ===== verification/SessionFacts.v ===== *)
(** * Sessions: the invariant; panes, timers and events

    The pane part of the invariant ([PaneInv]) holds whatever the windows do, and
    with it the closed panes all go away. *)

From stdpp Require Import gmap.
From S2P Require Import Prelude LayoutSizes LayoutTree LayoutFacts LayoutEdit.
From S2P Require Import WindowState Ultra WindowOps WindowResize WindowFacts WindowMoves WindowSizing.
From S2P Require Import Undo Session.

(** ** Windows under a shared pane store *)

Lemma loaded_inv s w : WindowInv w -> WindowInv (loaded s w).
Proof. intros []. by constructor. Qed.
Lemma bare_inv w : WindowInv w -> WindowInv (bare w).
Proof. intros []. by constructor. Qed.

Lemma HasPane_spec id w : WindowInv w -> HasPane id w = bool_decide (id ∈ treePanes (Root w)).
Proof.
  intros Hi. unfold HasPane. rewrite (inv_noUltra w Hi). apply bool_decide_ext.
  split; [|apply FindPane_is_Some]. intros [p Hp]. destruct (decide (id ∈ treePanes (Root w))) as [|Hn]; [done|].
  apply FindPane_None in Hn. congruence.
Qed.
Lemma PaneCount_spec w : WindowInv w -> PaneCount w = lenZ (treePanes (Root w)).
Proof. intros Hi. unfold PaneCount, Panes. by rewrite (inv_noUltra w Hi), panesOf_treePanes. Qed.

Definition insertedBy (new : Z) (w w' : Window) (res : result WindowError Z) : Prop :=
  WindowInv w' /\ working (panes w') /\
  match res with
  | Ok id => id = new /\ treePanes (Root w') ≡ₚ new :: treePanes (Root w)
  | Err _ => treePanes (Root w') = treePanes (Root w)
  end.

Lemma SplitRoot_inserts dir new opts w :
  WindowInv w -> working (panes w) -> 0 < new -> new ∉ treePanes (Root w) ->
  rootSplitFits dir new w ->
  let '(w', res) := SplitRootWithOptions dir new opts w in insertedBy new w w' res.
Proof.
  intros Hi Hw Hn Hni Hd. pose proof (SplitRootWithOptions_ok dir new opts w Hi Hw Hn Hni Hd) as H.
  destruct (SplitRootWithOptions dir new opts w) as [w' res].
  destruct H as (Hi' & Hw' & target & _ & H). cbv zeta in H. split_and!; [done..|].
  destruct (_ <=? _); [by destruct H as (-> & ? & _)|by destruct H as (-> & -> & _)].
Qed.

(** Splitting at the focused pane, whichever it is: the focused pane may be the
    lead, which is not split. *)
Lemma SplitWithOptions_inserts dir new keep w :
  WindowInv w -> working (panes w) -> 0 < new -> new ∉ treePanes (Root w) ->
  let '(w', res) := SplitWithOptions dir new (mkSplitOptions keep false) w in insertedBy new w w' res.
Proof.
  intros Hi Hw Hn Hni. destruct (inv_active w Hi) as (a & Ha & Hain).
  assert (SplitWithOptions dir new (mkSplitOptions keep false) w =
          SplitPaneWithOptions a dir new (mkSplitOptions keep false) w) as ->
    by (unfold SplitWithOptions, bindM, get, activeID; by rewrite Ha).
  destruct (IsLeadPane a w) eqn:El.
  - destruct (hasPendingLead w) eqn:Ep.
    + assert (SplitPaneWithOptions a dir new (mkSplitOptions keep false) w =
              SplitRootWithOptions dir new (mkSplitOptions keep false) w) as ->.
      { unfold SplitPaneWithOptions, SplitRootWithOptions, bindM, get.
        destruct (unzoomIf_ok (negb keep) w Hw) as (ps & z & E & _). cbn [KeepFocus]. rewrite E.
        set (w1 := setPanes ps (setZoomed z w)).
        assert (IsUltra w1 = false) as -> by (unfold IsUltra; simpl; by rewrite (inv_noUltra w Hi)).
        change (hasPendingLead w1) with (hasPendingLead w). rewrite Ep.
        unfold IsLeadPane in El. apply andb_true_iff in El as [_ El]. rewrite Z.eqb_eq in El.
        change (LeadPaneID w1) with (LeadPaneID w). by rewrite El, Z.eqb_refl. }
      apply SplitRoot_inserts; auto. apply splitAtFits_intro. right. by apply hasPendingLead_anchored.
    + unfold SplitPaneWithOptions, bindM, get.
      destruct (unzoomIf_ok (negb keep) w Hw) as (ps & z & E & Hps & Hz & _). cbn [KeepFocus]. rewrite E.
      set (w1 := setPanes ps (setZoomed z w)).
      assert (IsUltra w1 = false) as -> by (unfold IsUltra; simpl; by rewrite (inv_noUltra w Hi)).
      change (hasPendingLead w1) with (hasPendingLead w). rewrite Ep. cbn [andb].
      change (IsLeadPane a w1) with (IsLeadPane a w). rewrite El. simpl. unfold throw.
      split_and!; [by apply unzoomed_inv|done|done].
  - pose proof (SplitPaneWithOptions_ok a dir new (mkSplitOptions keep false) w Hi Hw Hain El Hn Hni) as H.
    destruct (SplitPaneWithOptions _ _ _ _ w) as [w' res].
    destruct H as (Hi' & Hw' & r & _ & H). split_and!; [done..|].
    destruct (_ <=? _); [by destruct H as (-> & ? & _)|by destruct H as (-> & -> & _)].
Qed.

(** Splitting the root does not resize the window. *)
Lemma splitRootAt_size t dir new first opts w :
  Width (splitRootAt t dir new first opts w).1 = Width w /\
  Height (splitRootAt t dir new first opts w).1 = Height w.
Proof.
  unfold splitRootAt. destruct (cellAt t (Root w)) as [target|]; [|done].
  destruct (_ <? _); [done|]. destruct (splitRootCell _ _ _ _) as [cell|]; [|done]. cbn [fst].
  set (w1 := setRoot _ w). set (w2 := if shouldEqualizeAnchoredLeadAfterRootSplit _ _ _ then _ else w1).
  assert (Width w2 = Width w /\ Height w2 = Height w) as [<- <-].
  { unfold w2. destruct (shouldEqualizeAnchoredLeadAfterRootSplit _ _ _); [|done].
    unfold equalizeAnchoredLeadColumns. repeat case_match; done. }
  set (w3 := setRoot _ w2). destruct (resizePTYsPreserving_pty w3) as [E _].
  assert (forall w', Width (if KeepFocus opts then w' else setActive new w') = Width w' /\
            Height (if KeepFocus opts then w' else setActive new w') = Height w') as HA.
  { intros w'. destruct (KeepFocus opts); [done|]. unfold setActive. by case_match. }
  destruct (HA (resizePTYsPreservingZoomedPaneSize w3)) as [-> ->]. by rewrite E.
Qed.
Lemma SplitRoot_size dir new opts w : working (panes w) -> Ultra w = None ->
  Width (SplitRootWithOptions dir new opts w).1 = Width w /\
  Height (SplitRootWithOptions dir new opts w).1 = Height w.
Proof.
  intros Hw HU. unfold SplitRootWithOptions, bindM, get.
  destruct (unzoomIf_ok (negb (KeepFocus opts)) w Hw) as (ps & z & -> & _).
  set (w1 := setPanes ps (setZoomed z w)).
  assert (IsUltra w1 = false) as -> by (unfold IsUltra; simpl; by rewrite HU).
  destruct (hasPendingLead w1); apply (splitRootAt_size _ _ _ _ _ w1).
Qed.

(** ** The invariant *)

Definition winPanes (sw : SWindow) : list Z := treePanes (Root (wWin sw)).
Definition shownIn (ws : list SWindow) : list Z := concat (map winPanes ws).
Definition shown (s : Session) : list Z := shownIn (Windows s).

(** The part about panes, which holds whatever the windows do: a pane is in the
    session's list or on the stack of closed panes, once, and the timers of the
    closed panes are in order. *)
Record PaneInv (s : Session) : Prop := mkPaneInv {
  pi_nodup : NoDup (PaneIDs s ++ closedPanes (undo s));
  pi_known : Forall (fun id => 0 < id <= counter s) (PaneIDs s ++ closedPanes (undo s));
  pi_undo : UndoInv (queue s) (undo s) }.

(** The windows: distinct IDs, each in order, and no pane in two of them. *)
Record WindowsInv (n : Z) (ws : list SWindow) : Prop := mkWindowsInv {
  wi_ids : NoDup (map wID ws);
  wi_known : Forall (fun sw => 0 < wID sw <= n) ws;
  wi_inv : Forall (fun sw => WindowInv (wWin sw)) ws;
  wi_panes : NoDup (shownIn ws) }.

Record SessionInv (s : Session) : Prop := mkSessionInv {
  si_panes : PaneInv s;
  si_windows : WindowsInv (windowCounter s) (Windows s);
  si_active : Windows s = [] \/ ActiveWindowID s ∈ map wID (Windows s);
  si_working : working (store s);
  si_listed : forall id, id ∈ shown s -> id ∈ PaneIDs s }.

Lemma shownIn_app ws1 ws2 : shownIn (ws1 ++ ws2) = shownIn ws1 ++ shownIn ws2.
Proof. unfold shownIn. by rewrite map_app, concat_app. Qed.
Lemma shownIn_cons sw ws : shownIn (sw :: ws) = winPanes sw ++ shownIn ws.
Proof. done. Qed.
Lemma elem_of_shownIn id ws : id ∈ shownIn ws <-> exists sw, sw ∈ ws /\ id ∈ winPanes sw.
Proof.
  induction ws as [|sw ws IH]; [split; [intros ?%elem_of_nil; done|by intros (? & ?%elem_of_nil & _)]|].
  rewrite shownIn_cons, elem_of_app, IH. setoid_rewrite elem_of_cons. naive_solver.
Qed.

Lemma find_window (P : SWindow -> bool) ws sw :
  List.find P ws = Some sw -> P sw = true /\ exists ws1 ws2, ws = ws1 ++ sw :: ws2.
Proof.
  induction ws as [|w ws IH]; simpl; [done|]. destruct (P w) eqn:E.
  - intros [= ->]. split; [done|]. by exists [], ws.
  - intros H. destruct (IH H) as (? & ws1 & ws2 & ->). split; [done|]. by exists (w :: ws1), ws2.
Qed.

Lemma windowByID_Some id s sw : windowByID id s = Some sw ->
  wID sw = id /\ exists ws1 ws2, Windows s = ws1 ++ sw :: ws2.
Proof. intros [H ?]%find_window. by apply Z.eqb_eq in H. Qed.

Lemma findWindowByPaneID_Some n id s sw :
  WindowsInv n (Windows s) -> findWindowByPaneID id s = Some sw ->
  id ∈ winPanes sw /\ exists ws1 ws2, Windows s = ws1 ++ sw :: ws2.
Proof.
  intros [_ _ Hi _] (H & ws1 & ws2 & E)%find_window. split; [|eauto].
  rewrite E in Hi. apply Forall_app in Hi as [_ Hi]. apply Forall_cons in Hi as [Hi _].
  rewrite HasPane_spec in H by done. by apply bool_decide_eq_true in H.
Qed.
Lemma findWindowByPaneID_None n id s :
  WindowsInv n (Windows s) -> findWindowByPaneID id s = None -> id ∉ shown s.
Proof.
  intros [_ _ Hi _] H (sw & Hsw & Hid)%elem_of_shownIn.
  pose proof (List.find_none _ _ H sw ltac:(by apply list_elem_of_In)) as Hf. cbv beta in Hf.
  rewrite HasPane_spec in Hf by (by apply (proj1 (Forall_forall _ _) Hi)).
  by apply bool_decide_eq_false in Hf.
Qed.

Lemma NoDup_mid {A} (l1 l2 : list A) x : NoDup (l1 ++ x :: l2) -> (x ∉ l1) /\ (x ∉ l2) /\ NoDup (l1 ++ l2).
Proof.
  rewrite NoDup_app, NoDup_cons. setoid_rewrite elem_of_cons. intros (H1 & H2 & H3 & H4).
  split_and!; [naive_solver|done|]. apply NoDup_app. naive_solver.
Qed.

(** Windows with distinct IDs are updated one at a time. *)
Lemma map_window f ws1 sw ws2 :
  NoDup (map wID (ws1 ++ sw :: ws2)) ->
  map (fun w => if wID w =? wID sw then f w else w) (ws1 ++ sw :: ws2) = ws1 ++ f sw :: ws2.
Proof.
  rewrite map_app. cbn [map]. intros (H1 & H2 & _)%NoDup_mid.
  assert (forall ws, wID sw ∉ map wID ws ->
    map (fun w => if wID w =? wID sw then f w else w) ws = ws) as Hskip.
  { induction ws as [|w ws IH]; simpl; [done|]. intros [Hne Hn]%not_elem_of_cons.
    destruct (Z.eqb_spec (wID w) (wID sw)); [congruence|]. by rewrite IH. }
  rewrite map_app. cbn [map]. by rewrite Z.eqb_refl, !Hskip.
Qed.

Lemma saveWindow_Windows n w s ws1 sw ws2 :
  WindowsInv n (Windows s) -> Windows s = ws1 ++ sw :: ws2 ->
  Windows (saveWindow (wID sw) w s) = ws1 ++ setWin (bare w) sw :: ws2.
Proof. intros [Hd _ _ _] E. unfold saveWindow. simpl. rewrite E in *. by rewrite map_window. Qed.

Lemma WindowsInv_set n ws1 sw ws2 w :
  WindowsInv n (ws1 ++ sw :: ws2) -> WindowInv w ->
  NoDup (shownIn ws1 ++ treePanes (Root w) ++ shownIn ws2) ->
  WindowsInv n (ws1 ++ setWin (bare w) sw :: ws2).
Proof.
  intros [Hd Hk Hi _] Hw Hn. constructor.
  - by rewrite map_app in *.
  - by apply Forall_app; apply Forall_app in Hk as [? [? ?]%Forall_cons]; auto.
  - apply Forall_app in Hi as [? [? ?]%Forall_cons]. apply Forall_app. split; [done|].
    constructor; [by apply bare_inv|done].
  - by rewrite shownIn_app, shownIn_cons.
Qed.
Lemma WindowsInv_remove n ws1 sw ws2 : WindowsInv n (ws1 ++ sw :: ws2) -> WindowsInv n (ws1 ++ ws2).
Proof.
  intros [Hd Hk Hi Hp]. rewrite map_app in Hd. cbn [map] in Hd. apply NoDup_mid in Hd as (_ & _ & Hd).
  apply Forall_app in Hk as [? [_ ?]%Forall_cons]. apply Forall_app in Hi as [? [_ ?]%Forall_cons].
  constructor; [by rewrite map_app|by apply Forall_app|by apply Forall_app|].
  rewrite shownIn_app, shownIn_cons in *. apply NoDup_app in Hp as (Hp1 & Hp2 & Hp3).
  apply NoDup_app in Hp3 as (_ & _ & Hp3). apply NoDup_app. split_and!; [done| |done].
  intros x Hx Hx2. apply (Hp2 x Hx). apply elem_of_app. by right.
Qed.

(** ** What the window operations leave alone *)

Definition samePanes (s s' : Session) : Prop :=
  PaneIDs s' = PaneIDs s /\ undo s' = undo s /\ queue s' = queue s /\ counter s' = counter s /\
  windowCounter s' = windowCounter s /\ shutdown s' = shutdown s /\ mirror s' = mirror s /\
  effectiveSize s' = effectiveSize s.
#[export] Instance samePanes_refl : Reflexive samePanes.
Proof. done. Qed.
#[export] Instance samePanes_trans : Transitive samePanes.
Proof. unfold samePanes. intros s1 s2 s3 H1 H2. destruct_and!. split_and!; congruence. Qed.
Create HintDb session.
#[export] Hint Extern 1 (samePanes _ _) => reflexivity : session.

Lemma saveWindow_same wid w s : samePanes s (saveWindow wid w s).
Proof. done. Qed.
Lemma call_same c s : samePanes s (call c s).
Proof. done. Qed.
Lemma onWindow_same {A} sw (m : M Window WindowError A) s : samePanes s (onWindow sw m s).1.
Proof. unfold onWindow. by destruct (m _) as [w r]. Qed.
Lemma previousWindow_same s : samePanes s (previousWindow s).1.
Proof. unfold previousWindow. repeat case_match; done. Qed.
Lemma previousWindow_keeps s : Windows (previousWindow s).1 = Windows s /\
  ActiveWindowID (previousWindow s).1 = ActiveWindowID s /\ store (previousWindow s).1 = store s.
Proof. unfold previousWindow. repeat case_match; done. Qed.
Lemma sync_same sw s : samePanes s (syncWindowSizeToEffectiveClient sw s).
Proof.
  unfold syncWindowSizeToEffectiveClient, pushMirrorWindowSize. repeat (case_match; try done).
Qed.
Lemma activateWindow_same sw s : samePanes s (activateWindow sw s).
Proof.
  unfold activateWindow. etrans; [|apply sync_same]. repeat (case_match; try done).
Qed.
(** The window that becomes active when [wid] is removed. *)
Definition nextActive (wid : Z) (s : Session) : Session :=
  if ActiveWindowID s =? wid then
    let '(s, prev) := previousWindow s in
    match prev with
    | Some p => if negb (wID p =? wid) then withActive (wID p) s
                else withActive (default 0 (wID <$> head (Windows s))) s
    | None => withActive (default 0 (wID <$> head (Windows s))) s
    end
  else s.
Lemma removeWindow_unfold wid s ws : removeWindowFrom wid (Windows s) = Some ws ->
  removeWindow wid s =
  call RefreshInputTarget
    (let s := nextActive wid (withWindows ws s) in
     if PreviousWindowID s =? wid then withPrevious 0 s else s).
Proof. intros E. unfold removeWindow. by rewrite E. Qed.
Lemma nextActive_same wid s : samePanes s (nextActive wid s).
Proof.
  unfold nextActive. case_match; [|done]. pose proof (previousWindow_same s) as H1.
  destruct (previousWindow s) as [s1 p]. repeat case_match; done.
Qed.
Lemma nextActive_keeps wid s : Windows (nextActive wid s) = Windows s /\ store (nextActive wid s) = store s.
Proof.
  unfold nextActive. case_match; [|done]. pose proof (previousWindow_keeps s) as (? & ? & ?).
  destruct (previousWindow s) as [s1 p]. repeat case_match; done.
Qed.
Lemma removeWindow_same wid s : samePanes s (removeWindow wid s).
Proof.
  destruct (removeWindowFrom wid (Windows s)) as [ws|] eqn:E; [|unfold removeWindow; by rewrite E].
  rewrite (removeWindow_unfold _ _ _ E). cbv zeta. etrans; [|apply call_same].
  etrans; [apply (nextActive_same wid (withWindows ws s))|]. by case_match.
Qed.
Lemma closePaneInWindow_same id s : samePanes s (closePaneInWindow id s).1.
Proof.
  unfold closePaneInWindow. destruct (findWindowByPaneID id s) as [sw|]; [|done]. case_match.
  - cbn [fst]. etrans; [apply (removeWindow_same (wID sw))|]. destruct (Windows _); [done|].
    case_match; [apply activateWindow_same|done].
  - pose proof (onWindow_same sw (ClosePane id) s) as H1. destruct (onWindow _ _ _) as [s1 r]. simpl.
    etrans; [exact H1|]. by case_match.
Qed.

(** ** The panes of a session, in every operation *)

Lemma samePanes_inv s s' : samePanes s s' -> PaneInv s -> PaneInv s'.
Proof. intros (E1 & E2 & E3 & E4 & _) [H1 H2 H3]. constructor; by rewrite ?E1, ?E2, ?E3, ?E4. Qed.

Lemma hasPane_spec id s : hasPane id s = true <-> id ∈ PaneIDs s.
Proof. apply bool_decide_eq_true. Qed.

Lemma removeFirst_app_perm id l l' : removeFirst id l = Some l' -> l ≡ₚ id :: l'.
Proof. by intros [H _]%removeFirst_Some. Qed.

(** The pane list without one pane. *)
Definition dropID (id : Z) (s : Session) : Session :=
  match removeFirst id (PaneIDs s) with Some l => withPaneIDs l s | None => s end.
Lemma dropID_spec id s : id ∈ PaneIDs s -> exists l, PaneIDs s ≡ₚ id :: l /\ dropID id s = withPaneIDs l s.
Proof.
  intros Hin. unfold dropID. destruct (removeFirst id (PaneIDs s)) as [l|] eqn:E.
  - exists l. split; [by apply removeFirst_app_perm|done].
  - by apply removeFirst_None in E.
Qed.

Lemma sessionRemovePane_ok id s : PaneInv s -> id ∉ closedPanes (undo s) ->
  let s' := sessionRemovePane id s in
  PaneInv s' /\ queue s' = queue s /\ closedPanes (undo s') = closedPanes (undo s) /\
  Windows s' = Windows s /\ ActiveWindowID s' = ActiveWindowID s /\ store s' = store s /\
  effectiveSize s' = effectiveSize s /\ windowCounter s' = windowCounter s /\ counter s' = counter s /\
  shutdown s' = shutdown s /\
  (id ∈ PaneIDs s -> PaneIDs s ≡ₚ id :: PaneIDs s') /\ (id ∉ PaneIDs s -> PaneIDs s' = PaneIDs s).
Proof.
  intros [H1 H2 H3] Hc. destruct (undoRemovePane_ok (queue s) id (undo s) H3 Hc) as [Hu Eu].
  cbv zeta. unfold sessionRemovePane. fold (dropID id s).
  assert (exists l, dropID id s = withPaneIDs l s /\ (id ∈ PaneIDs s -> PaneIDs s ≡ₚ id :: l) /\
            (id ∉ PaneIDs s -> l = PaneIDs s)) as (l & -> & Hl1 & Hl2).
  { destruct (decide (id ∈ PaneIDs s)) as [Hin|Hn].
    - destruct (dropID_spec id s Hin) as (l & Hl & ->). by exists l.
    - exists (PaneIDs s). split_and!; [|done|done]. unfold dropID.
      apply removeFirst_None in Hn. rewrite Hn. by destruct s. }
  assert (PaneInv (withUndo (undoRemovePane id (undo s)) (withPaneIDs l s))) as Hi.
  { destruct (decide (id ∈ PaneIDs s)) as [Hin|Hn]; [|rewrite (Hl2 Hn) in *; constructor; simpl; by rewrite ?Eu].
    specialize (Hl1 Hin). rewrite Hl1 in H1, H2. apply NoDup_cons in H1 as [_ H1].
    apply Forall_cons in H2 as [_ H2]. constructor; simpl; by rewrite ?Eu. }
  destruct (hasPane id s); cbn [call withUndo withPaneIDs]; (split_and!; [|try done; exact Eu..]);
    (eapply samePanes_inv; [|exact Hi]); done.
Qed.

Lemma PaneInv_call c s : PaneInv s -> PaneInv (call c s).
Proof. by apply samePanes_inv. Qed.
Lemma PaneInv_queue q s : PaneInv s ->
  (forall id, undoExpiryEvent id ∈ queue s -> id ∈ closedPanes (undo s) -> undoExpiryEvent id ∈ q) ->
  PaneInv (withQueue q s).
Proof. intros [H1 H2 H3] Hq. constructor; [done..|]. simpl. by eapply UndoInv_queue. Qed.

Lemma live_not_closed id s : PaneInv s -> id ∈ PaneIDs s -> id ∉ closedPanes (undo s).
Proof. intros [H _ _] Hin Hc. apply NoDup_app in H as (_ & H & _). by apply (H id). Qed.

(** Whatever the windows do, [finalizePaneRemoval] takes the pane off the list. *)
Lemma finalizePaneRemoval_panes id s : PaneInv s ->
  let '(s', r) := finalizePaneRemoval id s in
  PaneInv s' /\ queue s' = queue s /\ closedPanes (undo s') = closedPanes (undo s) /\
  counter s' = counter s /\ shutdown s' = shutdown s /\
  if hasPane id s
  then PaneIDs s ≡ₚ id :: PaneIDs s' /\ remPane r = Some id /\ sendExit r = (lenZ (PaneIDs s) <=? 1)
  else s' = s /\ r = noRemoval.
Proof.
  intros Hi. unfold finalizePaneRemoval. destruct (hasPane id s) eqn:Eh; [|done].
  apply hasPane_spec in Eh. pose proof (sessionRemovePane_ok id s Hi (live_not_closed _ _ Hi Eh)) as H.
  cbv zeta in H. destruct H as (Hi' & Hq & Hc & _ & _ & _ & _ & _ & Hn & Hs & HP & _). specialize (HP Eh).
  pose proof (closePaneInWindow_same id (sessionRemovePane id s)) as Hsame.
  destruct (closePaneInWindow id (sessionRemovePane id s)) as [s2 c]. cbn [fst] in Hsame.
  pose proof Hsame as (E1 & E2 & E3 & E4 & _ & E6 & _). rewrite E1, E2, E3, E4, E6.
  split_and!; try done; by eapply samePanes_inv.
Qed.

Lemma softClosePane_panes id s : PaneInv s ->
  let '(s', r) := softClosePane id s in
  PaneInv s' /\ queue s' = queue s /\ counter s' = counter s /\ shutdown s' = shutdown s /\
  if hasPane id s then
    PaneIDs s ≡ₚ id :: PaneIDs s' /\ remPane r = Some id /\
    closedPanes (undo s') =
      (if lenZ (PaneIDs s) <=? 1 then closedPanes (undo s) else closedPanes (undo s) ++ [id])
  else s' = s /\ r = noRemoval.
Proof.
  intros Hi. unfold softClosePane. destruct (hasPane id s) eqn:Eh; [|done].
  destruct (lenZ (PaneIDs s) <=? 1) eqn:El.
  - pose proof (finalizePaneRemoval_panes id s Hi) as H. destruct (finalizePaneRemoval id s) as [s' r].
    rewrite Eh in H. destruct H as (? & ? & ? & ? & ? & ? & ? & ?). split_and!; done.
  - apply hasPane_spec in Eh. pose proof (closePaneInWindow_same id s) as Hsame.
    destruct (closePaneInWindow id s) as [s1 c]. cbn [fst] in Hsame.
    pose proof (samePanes_inv _ _ Hsame Hi) as Hi1. pose proof Hsame as (E1 & E2 & E3 & E4 & _ & E6 & _).
    fold (dropID id s1). rewrite <- E1 in Eh. destruct (dropID_spec id s1 Eh) as (l & Hl & ->).
    pose proof Hi1 as [H1 H2 H3].
    destruct (trackSoftClosedPane_ok _ id _ H3 (live_not_closed _ _ Hi1 Eh)) as [Hu Eu].
    assert (PaneInv (withUndo (trackSoftClosedPane id (undo s1)) (withPaneIDs l s1))) as Hi2.
    { assert (l ++ closedPanes (undo s1) ++ [id] ≡ₚ PaneIDs s1 ++ closedPanes (undo s1)) as HP.
      { rewrite Hl, (Permutation_app_comm (closedPanes _) [id]). symmetry. apply Permutation_middle. }
      constructor; simpl; rewrite ?Eu; [by rewrite HP|by rewrite HP|done]. }
    destruct (mirror _); (split_and!; [by eapply samePanes_inv; [|exact Hi2]|..]); simpl;
      rewrite <- ?E1, <- ?E2; try done.
Qed.

Lemma closeFinalizedPane_panes id s : PaneInv s ->
  let '(s', closed) := closeFinalizedPane id s in
  PaneInv s' /\ queue s' = queue s /\ PaneIDs s' = PaneIDs s /\ Windows s' = Windows s /\
  ActiveWindowID s' = ActiveWindowID s /\ store s' = store s /\ effectiveSize s' = effectiveSize s /\
  counter s' = counter s /\ windowCounter s' = windowCounter s /\ shutdown s' = shutdown s /\
  (closed = true <-> id ∈ closedPanes (undo s)) /\ (id ∉ closedPanes (undo s')) /\
  (forall id', id' <> id -> id' ∈ closedPanes (undo s') <-> id' ∈ closedPanes (undo s)).
Proof.
  intros [H1 H2 H3]. unfold closeFinalizedPane.
  pose proof (finalizeClosedPane_ok _ id _ H3) as H. destruct (finalizeClosedPane id (undo s)) as [u found].
  destruct H as (Hu & Hf & Hn & Hother & Hsame).
  assert (PaneInv (withUndo u s)) as Hi.
  { constructor; simpl; [| |done].
    - apply NoDup_app in H1 as (? & Hd & ?). apply NoDup_app. split_and!; [done| |apply Hu].
      intros x Hx Hc. apply (Hd x Hx). destruct (decide (x = id)) as [->|]; [done|]. by apply Hother.
    - apply Forall_app in H2 as [? H2]. apply Forall_app. split; [done|].
      rewrite Forall_forall in *. intros x Hc. apply H2.
      destruct (decide (x = id)) as [->|]; [done|]. by apply Hother. }
  destruct found; (split_and!; [|done..]); by eapply samePanes_inv; [|exact Hi].
Qed.

Lemma handleFinalizedPaneRemoval_panes id cp reason s : PaneInv s ->
  let s' := handleFinalizedPaneRemoval id cp reason s in
  PaneInv s' /\ queue s' = queue s /\ closedPanes (undo s') = closedPanes (undo s) /\
  shutdown s' = shutdown s /\ counter s' = counter s /\ PaneIDs s' ⊆ PaneIDs s.
Proof.
  intros Hi. cbv zeta. unfold handleFinalizedPaneRemoval. pose proof (finalizePaneRemoval_panes id s Hi) as H.
  destruct (finalizePaneRemoval id s) as [s1 r]. destruct H as (Hi1 & Hq & Hc & Hn & Hs & H).
  assert (PaneIDs s1 ⊆ PaneIDs s) as Hsub.
  { destruct (hasPane id s); [|by destruct H as [-> _]]. destruct H as [HP _].
    intros x Hx. rewrite HP. by apply list_elem_of_further. }
  destruct (remPane r) as [p|]; [|done]. cbv zeta.
  assert (forall s2, samePanes s1 s2 -> PaneInv s2 /\ queue s2 = queue s /\
    closedPanes (undo s2) = closedPanes (undo s) /\ shutdown s2 = shutdown s /\ counter s2 = counter s /\
    PaneIDs s2 ⊆ PaneIDs s) as Hgo.
  { intros s2 Hsame. pose proof (samePanes_inv _ _ Hsame Hi1). destruct Hsame as (-> & -> & -> & -> & _ & -> & _). done. }
  apply Hgo. destruct (mirror s1), cp, (sendExit r), (broadcastLayout r); done.
Qed.

Lemma handleEvent_panes ev q s : queue s = ev :: q -> shutdown s = false -> PaneInv s ->
  let s' := handleEvent ev (withQueue q s) in
  PaneInv s' /\ queue s' = q /\ shutdown s' = false /\ PaneIDs s' ⊆ PaneIDs s.
Proof.
  intros Eq Es Hi. cbv zeta. unfold handleEvent, handleUndoExpiry, handlePaneCleanupTimeout, handlePaneExit. cbn [shutdown withQueue]. rewrite Es.
  assert ((forall id, ev <> undoExpiryEvent id) -> PaneInv (withQueue q s)) as Hq.
  { intros Hne. apply PaneInv_queue; [done|]. intros id. rewrite Eq. intros [He|He]%elem_of_cons _; [|done].
    by destruct (Hne id). }
  assert (forall id, PaneInv (closeFinalizedPane id s).1 -> (closeFinalizedPane id (withQueue q s)).1 =
            withQueue q (closeFinalizedPane id s).1) as Hcomm.
  { intros id _. unfold closeFinalizedPane. simpl. destruct (finalizeClosedPane id (undo s)) as [u []]; done. }
  destruct ev as [id|id|id reason].
  - pose proof (closeFinalizedPane_panes id s Hi) as H. specialize (Hcomm id).
    destruct (closeFinalizedPane id s) as [s1 b]. cbn [fst] in Hcomm.
    destruct H as (Hi1 & Eq1 & EP & _ & _ & _ & _ & _ & _ & Es1 & _ & Hn & Ho). rewrite (Hcomm Hi1).
    split_and!; [|done|by simpl; rewrite Es1|by simpl; rewrite EP].
    apply PaneInv_queue; [done|]. intros id'. rewrite Eq1, Eq.
    intros [[= ->]|He]%elem_of_cons Hc; done.
  - specialize (Hq ltac:(done)). destruct (hasPane id (withQueue q s)) eqn:E; [|done].
    pose proof (handleFinalizedPaneRemoval_panes id true "cleanup timeout" _ (PaneInv_call (SignalKill id) _ Hq)) as H.
    cbv zeta in H. destruct H as (? & ? & ? & E2 & ? & ?). simpl in E2. rewrite Es in E2. done.
  - specialize (Hq ltac:(done)). pose proof (closeFinalizedPane_panes id _ Hq) as H.
    destruct (closeFinalizedPane id (withQueue q s)) as [s1 b].
    destruct H as (Hi1 & Eq1 & EP & _ & _ & _ & _ & _ & _ & Es1 & _). simpl in Eq1, EP, Es1. rewrite Es in Es1.
    destruct b; [by rewrite EP|].
    pose proof (handleFinalizedPaneRemoval_panes id false reason s1 Hi1) as H. cbv zeta in H.
    destruct H as (? & ? & ? & E2 & ? & ?). rewrite <- EP. split_and!; congruence || done.
Qed.

(** Stopping timers arms none. *)
Lemma stopTimer_armed t m : armed (stopTimer t m) ⊆ armed m.
Proof. apply delete_subseteq. Qed.
Lemma stopClosedTimer_armed id m : armed (stopClosedTimer id m) ⊆ armed m.
Proof. unfold stopClosedTimer. case_match; [apply (stopTimer_armed _ m)|done]. Qed.
Lemma undoRemovePane_armed id m : armed (undoRemovePane id m) ⊆ armed m.
Proof.
  unfold undoRemovePane. etrans; [apply stopClosedTimer_armed|]. unfold stopCleanupTimer.
  case_match; [apply (stopTimer_armed _ m)|done].
Qed.
Lemma finalizePaneRemoval_armed id s : armed (undo (finalizePaneRemoval id s).1) ⊆ armed (undo s).
Proof.
  unfold finalizePaneRemoval. destruct (hasPane id s); [|done].
  pose proof (closePaneInWindow_same id (sessionRemovePane id s)) as Hsame.
  destruct (closePaneInWindow _ _) as [s2 c]. cbn [fst] in *. destruct Hsame as (_ & -> & _).
  unfold sessionRemovePane. fold (dropID id s).
  assert (undo (dropID id s) = undo s) as <- by (unfold dropID; by case_match).
  destruct (hasPane id s); apply undoRemovePane_armed.
Qed.
Lemma handleFinalizedPaneRemoval_armed id cp reason s :
  armed (undo (handleFinalizedPaneRemoval id cp reason s)) ⊆ armed (undo s).
Proof.
  unfold handleFinalizedPaneRemoval. pose proof (finalizePaneRemoval_armed id s) as H.
  destruct (finalizePaneRemoval id s) as [s1 r]. cbn [fst] in H. destruct (remPane r); [|done].
  etrans; [|exact H]. cbv zeta. destruct (mirror s1), cp, (sendExit r), (broadcastLayout r); done.
Qed.
Lemma closeFinalizedPane_armed id s : armed (undo (closeFinalizedPane id s).1) ⊆ armed (undo s).
Proof.
  unfold closeFinalizedPane, finalizeClosedPane. destruct (removeFirst _ _); [|done].
  apply (stopClosedTimer_armed id (setClosedPanes _ (undo s))).
Qed.
Lemma handleEvent_armed ev s : armed (undo (handleEvent ev s)) ⊆ armed (undo s).
Proof.
  unfold handleEvent, handleUndoExpiry, handlePaneCleanupTimeout, handlePaneExit. destruct (shutdown s); [done|]. destruct ev as [id|id|id reason].
  - apply closeFinalizedPane_armed.
  - destruct (hasPane id s); [|done]. apply (handleFinalizedPaneRemoval_armed id true _ (call (SignalKill id) s)).
  - pose proof (closeFinalizedPane_armed id s) as H. destruct (closeFinalizedPane id s) as [s1 []]; [done|].
    etrans; [apply handleFinalizedPaneRemoval_armed|done].
Qed.

(** ** The session left to itself: timers fire and events are handled *)

Inductive tick : Session -> Session -> Prop :=
| tick_fire t s : is_Some (armed (undo s) !! t) -> tick s (fire t s)
| tick_event s : queue s <> [] -> tick s (handleNext s).

Lemma fire_panes t s : PaneInv s -> PaneInv (fire t s).
Proof.
  intros [H1 H2 H3]. unfold fire. destruct (fireTimer t (undo s)) as [[u ev]|] eqn:E; [|done].
  destruct (fireTimer_ok _ _ _ _ _ H3 E) as (Hu & Ec & _). constructor; simpl; by rewrite ?Ec.
Qed.

Lemma tick_inv s s' : PaneInv s -> shutdown s = false -> tick s s' -> PaneInv s' /\ shutdown s' = false.
Proof.
  intros Hi Hs Ht. inversion Ht as [t ? _|? Hq]; subst; [split; [by apply fire_panes|]|].
  - unfold fire. by destruct (fireTimer _ _) as [[]|].
  - unfold handleNext. destruct (queue s) as [|ev q] eqn:E; [done|].
    pose proof (handleEvent_panes ev q s E Hs Hi) as H. cbv zeta in H. by destruct H as (? & _ & ? & _).
Qed.

Lemma handleEvent_queue ev s : queue (handleEvent ev s) = queue s.
Proof.
  assert (forall id s, queue (finalizePaneRemoval id s).1 = queue s) as Hf.
  { clear. intros id s. unfold finalizePaneRemoval. destruct (hasPane id s); [|done].
    pose proof (closePaneInWindow_same id (sessionRemovePane id s)) as Hsame.
    destruct (closePaneInWindow _ _) as [s2 c]. cbn [fst] in *. destruct Hsame as (_ & _ & -> & _).
    unfold sessionRemovePane. by destruct (removeFirst _ _), (hasPane id s). }
  assert (forall id cp reason s, queue (handleFinalizedPaneRemoval id cp reason s) = queue s) as Hh.
  { clear -Hf. intros id cp reason s. unfold handleFinalizedPaneRemoval. rewrite <- (Hf id s).
    destruct (finalizePaneRemoval id s) as [s1 r]. destruct (remPane r); [|done].
    cbv zeta. destruct (mirror s1), cp, (sendExit r), (broadcastLayout r); done. }
  unfold handleEvent, handleUndoExpiry, handlePaneCleanupTimeout, handlePaneExit. destruct (shutdown s); [done|].
  destruct ev as [id|id|id reason]; [| |]; unfold closeFinalizedPane.
  - by destruct (finalizeClosedPane id (undo s)) as [u []].
  - destruct (hasPane id s); [|done]. by rewrite Hh.
  - destruct (finalizeClosedPane id (undo s)) as [u []]; [done|]. by rewrite Hh.
Qed.

(** Every tick uses up a timer or an event. *)
Definition pendingWork (s : Session) : nat := 2 * size (armed (undo s)) + length (queue s).
Lemma tick_measure s s' : tick s s' -> (pendingWork s' < pendingWork s)%nat.
Proof.
  unfold pendingWork. intros [t s0 Ht|s0 Hq].
  - unfold fire, fireTimer. destruct (armed (undo s0) !! t) as [ev|] eqn:E; [|by destruct Ht].
    simpl. rewrite (map_size_delete_Some t (armed (undo s0)) (ex_intro _ ev E)), length_app. simpl.
    assert (size (armed (undo s0)) <> 0%nat); [|lia].
    intros E0%map_size_empty_inv. rewrite E0 in E. by rewrite lookup_empty in E.
  - unfold handleNext. destruct (queue s0) as [|ev q] eqn:E; [done|]. simpl length.
    pose proof (map_subseteq_size _ _ (handleEvent_armed ev (withQueue q s0))) as H. simpl in H.
    rewrite handleEvent_queue. simpl. lia.
Qed.
Lemma nsteps_pendingWork n s s' : nsteps tick n s s' -> (n + pendingWork s' <= pendingWork s)%nat.
Proof. induction 1 as [|n s1 s2 s3 H _ IH]; [lia|]. apply tick_measure in H. lia. Qed.

Lemma tick_reach s s' : rtc tick s s' -> PaneInv s -> shutdown s = false -> PaneInv s' /\ shutdown s' = false.
Proof.
  induction 1 as [|s1 s2 s3 H _ IH]; [done|]. intros Hi Hs. destruct (tick_inv _ _ Hi Hs H). by apply IH.
Qed.

(** When nothing is left to do there is no closed pane. *)
Lemma settled_no_closed s : PaneInv s -> (forall s', ~ tick s s') -> closedPanes (undo s) = [].
Proof.
  intros [_ _ [_ Ht Hd _ _ _]] Hn. destruct (closedPanes (undo s)) as [|id l] eqn:E; [done|exfalso].
  assert (is_Some (closedPaneTimers (undo s) !! id)) as [t Et] by (apply Ht; apply list_elem_of_here).
  destruct (Hd id t Et) as [Ha|Hq].
  - apply (Hn (fire t s)), tick_fire. by eexists.
  - apply (Hn (handleNext s)), tick_event. intros E2. rewrite E2 in Hq. by apply elem_of_nil in Hq.
Qed.
