(* ===== verification/SessionSteps.v ===== *)
(** * Sessions: windows, and what every operation keeps

    Closing, restoring, moving and switching keep [SessionInv]; the steps of a
    session and its reachable states. *)

From stdpp Require Import gmap.
From S2P Require Import Prelude LayoutSizes LayoutTree LayoutFacts LayoutEdit.
From S2P Require Import WindowState Ultra WindowOps WindowResize WindowFacts WindowMoves WindowSizing WindowSteps.
From S2P Require Import Undo Session SessionFacts.

(** ** The windows of a session, in every operation *)

Record WinsOk (s : Session) : Prop := mkWinsOk {
  wo_wins : WindowsInv (windowCounter s) (Windows s);
  wo_working : working (store s);
  wo_active : Windows s = [] \/ ActiveWindowID s ∈ map wID (Windows s) }.

Lemma SessionInv_split s : SessionInv s <->
  PaneInv s /\ WinsOk s /\ (forall id, id ∈ shown s -> id ∈ PaneIDs s).
Proof. split; [intros []; split_and!; [done|by constructor|done]|]. intros (? & [] & ?). by constructor. Qed.

(** The terminal of the size-owning client is large enough for the layout. *)
Definition fitsClient (s : Session) (w : Window) : Prop :=
  forall cols h, effectiveSize s = Some (cols, h) ->
    minSubtreeSize SplitVertical (Root w) <= cols /\ minSubtreeSize SplitHorizontal (Root w) <= h.

(** A window in place of another with the same ID. *)
Lemma saveWindow_ok s ws1 sw ws2 w :
  WinsOk s -> Windows s = ws1 ++ sw :: ws2 -> WindowInv w -> working (panes w) ->
  NoDup (shownIn ws1 ++ treePanes (Root w) ++ shownIn ws2) ->
  WinsOk (saveWindow (wID sw) w s) /\
  Windows (saveWindow (wID sw) w s) = ws1 ++ setWin (bare w) sw :: ws2.
Proof.
  intros [Hw Hst Ha] E Hi Hp Hn. pose proof (saveWindow_Windows _ w s ws1 sw ws2 Hw E) as E2.
  split; [|done]. constructor.
  - change (windowCounter (saveWindow _ _ _)) with (windowCounter s). rewrite E2. rewrite E in Hw.
    by apply WindowsInv_set.
  - done.
  - right. rewrite E2, map_app. cbn [map wID setWin]. change (ActiveWindowID (saveWindow _ _ _)) with (ActiveWindowID s).
    destruct Ha as [Ha|Ha]; [rewrite E in Ha; by destruct ws1|]. by rewrite E, map_app in Ha.
Qed.

Lemma shown_mid s ws1 sw ws2 : Windows s = ws1 ++ sw :: ws2 ->
  shown s = shownIn ws1 ++ winPanes sw ++ shownIn ws2.
Proof. intros E. unfold shown. by rewrite E, shownIn_app, shownIn_cons. Qed.

Lemma WinsOk_mid s ws1 sw ws2 : WinsOk s -> Windows s = ws1 ++ sw :: ws2 ->
  WindowInv (wWin sw) /\ NoDup (shownIn ws1 ++ winPanes sw ++ shownIn ws2) /\ 0 < wID sw.
Proof.
  intros [[_ Hk Hi Hn] _ _] E. rewrite E in *. apply Forall_app in Hi as [_ [Hi _]%Forall_cons].
  apply Forall_app in Hk as [_ [Hk _]%Forall_cons]. rewrite shownIn_app, shownIn_cons in Hn. split_and!; [done|done|lia].
Qed.

Lemma sync_ok s ws1 sw ws2 :
  WinsOk s -> Windows s = ws1 ++ sw :: ws2 -> fitsClient s (wWin sw) ->
  let s' := syncWindowSizeToEffectiveClient sw s in
  WinsOk s' /\ ActiveWindowID s' = ActiveWindowID s /\
  exists w', Windows s' = ws1 ++ setWin w' sw :: ws2 /\ winPanes (setWin w' sw) = winPanes sw.
Proof.
  intros Hok E Hf. cbv zeta. destruct (WinsOk_mid _ _ _ _ Hok E) as (Hi & Hn & _).
  unfold syncWindowSizeToEffectiveClient. destruct (effectiveSize s) as [[cols h]|] eqn:Es;
    [|split_and!; [done..|exists (wWin sw); split; [by destruct sw|done]]].
  destruct (_ && _); [split_and!; [done..|exists (wWin sw); split; [by destruct sw|done]]|].
  destruct (Hf cols h Es) as [HW HH].
  destruct (Resize_ok cols h (loaded s (wWin sw)) (loaded_inv s _ Hi) (wo_working s Hok) HW HH)
    as ((Hi' & Hp' & Hsk & _) & _).
  pose proof (same_skeleton_panes _ _ Hsk) as HT. change (treePanes (Root (loaded s (wWin sw)))) with (winPanes sw) in HT.
  destruct (saveWindow_ok s ws1 sw ws2 _ Hok E Hi' Hp' ltac:(by rewrite HT)) as [Hok' E'].
  set (w' := Resize _ _ _) in *.
  assert (WinsOk (pushMirrorWindowSize (wID sw) cols h (saveWindow (wID sw) w' s)) /\
          Windows (pushMirrorWindowSize (wID sw) cols h (saveWindow (wID sw) w' s)) = ws1 ++ setWin (bare w') sw :: ws2 /\
          ActiveWindowID (pushMirrorWindowSize (wID sw) cols h (saveWindow (wID sw) w' s)) = ActiveWindowID s)
    as (H1 & H2 & H3).
  { unfold pushMirrorWindowSize. destruct (mirror _); [destruct (bool_decide _)|]; [|done..].
    split_and!; [|done..]. destruct Hok'. by constructor. }
  split_and!; [done..|]. exists (bare w'). split; [done|]. exact HT.
Qed.

Lemma activateWindow_ok s ws1 sw ws2 :
  WindowsInv (windowCounter s) (Windows s) -> working (store s) ->
  Windows s = ws1 ++ sw :: ws2 -> fitsClient s (wWin sw) ->
  let s' := activateWindow sw s in
  WinsOk s' /\ ActiveWindowID s' = wID sw /\
  exists w', Windows s' = ws1 ++ setWin w' sw :: ws2 /\ winPanes (setWin w' sw) = winPanes sw.
Proof.
  intros Hw Hst E Hf. cbv zeta. unfold activateWindow. cbv zeta.
  set (s1 := if negb (ActiveWindowID s =? 0) && negb (ActiveWindowID s =? wID sw) then _ else s).
  assert (samePanes s s1 /\ Windows s1 = Windows s /\ store s1 = store s) as (Hs & EW & ES)
    by (unfold s1; repeat case_match; done).
  assert (WinsOk (withActive (wID sw) s1)) as Hok.
  { constructor; simpl; rewrite ?EW, ?ES; [|done|].
    - by destruct Hs as (_ & _ & _ & _ & -> & _).
    - right. rewrite E, map_app. apply elem_of_app. right. apply list_elem_of_here. }
  apply (sync_ok (withActive (wID sw) s1) ws1 sw ws2); [done|simpl; by rewrite EW|].
  unfold fitsClient in *. simpl. by destruct Hs as (_ & _ & _ & _ & _ & _ & _ & ->).
Qed.

Lemma removeWindowFrom_mid ws1 sw ws2 : NoDup (map wID (ws1 ++ sw :: ws2)) ->
  removeWindowFrom (wID sw) (ws1 ++ sw :: ws2) = Some (ws1 ++ ws2).
Proof.
  induction ws1 as [|w ws1 IH]; simpl; [by rewrite Z.eqb_refl|]. intros [Hn Hd]%NoDup_cons.
  destruct (Z.eqb_spec (wID w) (wID sw)) as [E|]; [|by rewrite IH].
  destruct Hn. rewrite E, map_app. apply elem_of_app. right. apply list_elem_of_here.
Qed.

Lemma removeWindow_ok s ws1 sw ws2 :
  WinsOk s -> Windows s = ws1 ++ sw :: ws2 ->
  let s' := removeWindow (wID sw) s in
  WinsOk s' /\ Windows s' = ws1 ++ ws2 /\ store s' = store s.
Proof.
  intros [Hw Hst Ha] E. cbv zeta. pose proof (wi_ids _ _ Hw) as Hd. rewrite E in Hd.
  pose proof (removeWindowFrom_mid ws1 sw ws2 Hd) as Er. rewrite <- E in Er.
  pose proof (removeWindow_same (wID sw) s) as Hs. rewrite (removeWindow_unfold _ _ _ Er) in *. cbv zeta in *.
  set (s1 := withWindows (ws1 ++ ws2) s) in *. destruct (nextActive_keeps (wID sw) s1) as [EW ES].
  set (s2 := nextActive (wID sw) s1) in *.
  set (s3 := call _ _) in *.
  assert (Windows s3 = ws1 ++ ws2 /\ store s3 = store s /\ ActiveWindowID s3 = ActiveWindowID s2) as (E1 & E2 & E3)
    by (unfold s3; case_match; simpl; rewrite EW, ES; done).
  split_and!; [|done|done]. constructor; [|by rewrite E2|].
  - destruct Hs as (_ & _ & _ & _ & -> & _). rewrite E1. rewrite E in Hw. by eapply WindowsInv_remove.
  - rewrite E1, E3. unfold s2, nextActive.
    destruct (Z.eqb_spec (ActiveWindowID s1) (wID sw)) as [Eq|Hne].
    + assert (forall p, windowByID (PreviousWindowID s1) s1 = Some p -> wID p ∈ map wID (ws1 ++ ws2)) as Hprev.
      { intros p [_ (a & b & Eab)]%windowByID_Some. simpl in Eab. rewrite Eab, map_app.
        apply elem_of_app. right. apply list_elem_of_here. }
      assert (ws1 ++ ws2 = [] \/ default 0 (wID <$> head (ws1 ++ ws2)) ∈ map wID (ws1 ++ ws2)) as Hhead
        by (destruct (ws1 ++ ws2); [by left|right; apply list_elem_of_here]).
      unfold previousWindow. destruct (_ || _); [done|].
      destruct (windowByID (PreviousWindowID s1) s1) as [p|]; [|done].
      destruct (negb _); [right; by apply Hprev|done].
    + right. destruct Ha as [Ha|Ha]; [rewrite E in Ha; by destruct ws1|].
      change (ActiveWindowID s1) with (ActiveWindowID s) in *. rewrite E in Ha.
      rewrite map_app, elem_of_app in *. cbn [map] in Ha. rewrite elem_of_cons in Ha.
      destruct Ha as [?|[?|?]]; [by left|done|by right].
Qed.

(** Closing a pane leaves columns beside an anchored lead that can be made equal,
    and the layouts fit the terminal. *)
Definition calm (s : Session) : Prop :=
  Forall (fun sw => (forall id, closeFits id (wWin sw)) /\ fitsClient s (wWin sw)) (Windows s).

Lemma closeFits_loaded id s w : closeFits id w -> closeFits id (loaded s w).
Proof. by apply closeFits_same. Qed.

Lemma calm_mid s ws1 sw ws2 : calm s -> Windows s = ws1 ++ sw :: ws2 ->
  (forall id, closeFits id (wWin sw)) /\ fitsClient s (wWin sw).
Proof. unfold calm. intros H E. rewrite E in H. by apply Forall_app in H as [_ [? _]%Forall_cons]. Qed.

Lemma closePane_in s ws1 sw ws2 id :
  WinsOk s -> Windows s = ws1 ++ sw :: ws2 -> id ∈ winPanes sw -> closeFits id (wWin sw) ->
  1 < lenZ (winPanes sw) ->
  let '(s', r) := onWindow sw (ClosePane id) s in
  r = Ok tt /\ WinsOk s' /\ shown s ≡ₚ id :: shown s' /\
  exists w', Windows s' = ws1 ++ setWin w' sw :: ws2 /\ winPanes sw ≡ₚ id :: treePanes (Root w').
Proof.
  intros Hok E Hid Hl Hlen. destruct (WinsOk_mid _ _ _ _ Hok E) as (Hi & Hn & _).
  pose proof (ClosePane_ok id (loaded s (wWin sw)) (loaded_inv s _ Hi) (wo_working s Hok) Hid
    (closeFits_loaded id s _ Hl)) as H.
  unfold onWindow. destruct (ClosePane id (loaded s (wWin sw))) as [w' r].
  destruct H as (Hi' & Hp' & H). change (treePanes (Root (loaded s (wWin sw)))) with (winPanes sw) in H.
  destruct (Z.leb_spec (lenZ (winPanes sw)) 1); [lia|]. destruct H as (-> & HP & _).
  assert (NoDup (shownIn ws1 ++ treePanes (Root w') ++ shownIn ws2)) as Hn'.
  { rewrite HP in Hn. cbn [app] in Hn. by apply NoDup_mid in Hn as (_ & _ & ?). }
  destruct (saveWindow_ok s ws1 sw ws2 w' Hok E Hi' Hp' Hn') as [Hok' E'].
  split_and!; [done|done| |].
  - rewrite (shown_mid _ _ _ _ E), (shown_mid _ _ _ _ E'), HP. symmetry. apply Permutation_middle.
  - by exists (bare w').
Qed.


Lemma closePaneInWindow_ok id s : WinsOk s -> calm s ->
  let s' := (closePaneInWindow id s).1 in
  WinsOk s' /\ (id ∈ shown s -> shown s ≡ₚ id :: shown s') /\ (id ∉ shown s -> s' = s).
Proof.
  intros Hok Hc. cbv zeta. unfold closePaneInWindow.
  destruct (findWindowByPaneID id s) as [sw|] eqn:Ef.
  2:{ apply (findWindowByPaneID_None _ _ _ (wo_wins s Hok)) in Ef. by split_and!. }
  destruct (findWindowByPaneID_Some _ _ _ _ (wo_wins s Hok) Ef) as (Hid & ws1 & ws2 & E).
  destruct (WinsOk_mid _ _ _ _ Hok E) as (Hi & Hn & _). destruct (calm_mid _ _ _ _ Hc E) as [Hl _].
  assert (id ∈ shown s) as Hin by (rewrite (shown_mid _ _ _ _ E), !elem_of_app; auto).
  enough (forall s', (closePaneInWindow id s).1 = s' -> WinsOk s' /\ shown s ≡ₚ id :: shown s') as HH.
  { unfold closePaneInWindow in HH. rewrite Ef in HH. destruct (HH _ eq_refl). by split_and!. }
  intros s' <-. unfold closePaneInWindow. rewrite Ef.
  rewrite PaneCount_spec by done. fold (winPanes sw). destruct (Z.leb_spec (lenZ (winPanes sw)) 1) as [Hle|Hlt].
  - assert (winPanes sw = [id]) as Ew.
    { destruct (winPanes sw) as [|x [|y l]]; [by apply elem_of_nil in Hid|by apply list_elem_of_singleton in Hid as ->|].
      autorewrite with lsum in Hle. pose proof (lenZ_nonneg l). lia. }
    destruct (removeWindow_ok s ws1 sw ws2 Hok E) as (Hok1 & E1 & ES1). cbn [fst].
    pose proof (removeWindow_same (wID sw) s) as Hs. set (s1 := removeWindow (wID sw) s) in *.
    assert (shown s ≡ₚ id :: shown s1) as HP.
    { rewrite (shown_mid _ _ _ _ E), Ew. unfold shown. rewrite E1, shownIn_app. symmetry. apply Permutation_middle. }
    destruct (Windows s1) as [|w0 ws] eqn:E2; [done|]. destruct (wID sw =? ActiveWindowID s); [|done].
    assert (fitsClient s1 (wWin w0)) as Hf.
    { destruct Hs as (_ & _ & _ & _ & _ & _ & _ & Ee). unfold fitsClient. rewrite Ee.
      apply (proj1 (Forall_forall _ _) Hc w0). rewrite E.
      assert (w0 ∈ ws1 ++ ws2) as H0 by (rewrite <- E1; apply list_elem_of_here).
      apply elem_of_app in H0. apply elem_of_app. destruct H0; [by left|right; by apply list_elem_of_further]. }
    destruct (activateWindow_ok s1 [] w0 ws) as (Hok2 & _ & w' & EW & EP); [apply Hok1|apply Hok1|done|done|].
    split; [done|]. rewrite HP. unfold shown. rewrite EW, E2. cbn [app]. by rewrite !shownIn_cons, EP.
  - pose proof (closePane_in s ws1 sw ws2 id Hok E Hid (Hl id) Hlt) as H.
    destruct (onWindow sw (ClosePane id) s) as [s1 r]. by destruct H as (-> & Hok1 & HP & _).
Qed.

Lemma activeWindow_Some s sw : activeWindow s = Some sw -> exists ws1 ws2, Windows s = ws1 ++ sw :: ws2.
Proof.
  unfold activeWindow. destruct (windowByID _ s) as [w|] eqn:E.
  - intros [= ->]. by apply windowByID_Some in E as [_ ?].
  - destruct (Windows s) as [|w ws]; [done|]. intros [= ->]. by exists [], ws.
Qed.
Lemma activeWindow_None s : activeWindow s = None -> Windows s = [].
Proof. unfold activeWindow. destruct (windowByID _ s); [done|]. by destruct (Windows s). Qed.

(** A new pane in a window. *)
Lemma insert_in s ws1 sw ws2 new (m : M Window WindowError Z) :
  WinsOk s -> Windows s = ws1 ++ sw :: ws2 -> new ∉ shown s ->
  (let '(w', r) := m (loaded s (wWin sw)) in insertedBy new (loaded s (wWin sw)) w' r) ->
  let '(s', r) := onWindow sw m s in
  WinsOk s' /\ samePanes s s' /\ ActiveWindowID s' = ActiveWindowID s /\
  (exists w', Windows s' = ws1 ++ setWin (bare w') sw :: ws2 /\ w' = (m (loaded s (wWin sw))).1 /\ WindowInv w') /\
  match r with
  | Ok id => id = new /\ shown s' ≡ₚ new :: shown s
  | Err e => shown s' = shown s /\ exists e', e = errWindow e'
  end.
Proof.
  intros Hok E Hnew H. pose proof (onWindow_same sw m s) as Hs. unfold onWindow in *.
  destruct (WinsOk_mid _ _ _ _ Hok E) as (Hi & Hn & _).
  destruct (m (loaded s (wWin sw))) as [w' r]. destruct H as (Hi' & Hp' & H).
  change (treePanes (Root (loaded s (wWin sw)))) with (winPanes sw) in H.
  assert (NoDup (shownIn ws1 ++ treePanes (Root w') ++ shownIn ws2)) as Hn'.
  { destruct r; [destruct H as [-> ->]|by rewrite H]. cbn [app]. rewrite <- Permutation_middle. constructor; [|done].
    by rewrite <- (shown_mid _ _ _ _ E). }
  destruct (saveWindow_ok s ws1 sw ws2 w' Hok E Hi' Hp' Hn') as [Hok' E'].
  split_and!; [done|done|done|by exists w'|].
  pose proof (shown_mid _ _ _ _ E') as Esh. unfold winPanes in Esh at 1. cbn [wWin setWin bare setCounter setPanes Root] in Esh.
  destruct r as [id|e].
  - destruct H as [-> H]. split; [done|]. rewrite Esh, (shown_mid _ _ _ _ E), H. symmetry. apply Permutation_middle.
  - split; [|by eexists]. by rewrite Esh, H, (shown_mid _ _ _ _ E).
Qed.

(** *** Closing *)

(** What is shown stays listed when a pane leaves both lists. *)
Lemma listed_after id (sh sh' ids ids' : list Z) :
  NoDup sh -> (forall x, x ∈ sh -> x ∈ ids) -> ids ≡ₚ id :: ids' ->
  (id ∈ sh -> sh ≡ₚ id :: sh') -> (id ∉ sh -> sh' = sh) -> forall x, x ∈ sh' -> x ∈ ids'.
Proof.
  intros Hnd Hl HP H1 H2 x Hx. destruct (decide (id ∈ sh)) as [Hin|Hn].
  - specialize (H1 Hin). assert (x ∈ ids) as Hx2 by (apply Hl; rewrite H1; by right).
    rewrite HP in Hx2. apply elem_of_cons in Hx2 as [->|]; [|done].
    rewrite H1 in Hnd. by apply NoDup_cons in Hnd as [? _].
  - rewrite (H2 Hn) in Hx. pose proof (Hl x Hx) as Hx2. rewrite HP in Hx2.
    apply elem_of_cons in Hx2 as [->|]; done.
Qed.

Lemma finalizePaneRemoval_ok id s : SessionInv s -> calm s ->
  let '(s', r) := finalizePaneRemoval id s in
  SessionInv s' /\ effectiveSize s' = effectiveSize s /\
  (id ∈ PaneIDs s -> PaneIDs s ≡ₚ id :: PaneIDs s' /\ (id ∈ shown s -> shown s ≡ₚ id :: shown s')) /\
  (id ∉ PaneIDs s -> s' = s).
Proof.
  intros (Hp & Hw & Hl)%SessionInv_split Hc. pose proof (finalizePaneRemoval_panes id s Hp) as HP.
  unfold finalizePaneRemoval in *. destruct (hasPane id s) eqn:Eh.
  2:{ assert (id ∉ PaneIDs s) by (intros ?%hasPane_spec; congruence).
      split_and!; [by apply SessionInv_split|done|done|done]. }
  apply hasPane_spec in Eh. pose proof (sessionRemovePane_ok id s Hp (live_not_closed _ _ Hp Eh)) as H.
  cbv zeta in H. destruct H as (_ & _ & _ & EW & EA & ES & EE & EN & _).
  set (s1 := sessionRemovePane id s) in *.
  assert (WinsOk s1) as Hw1 by (destruct Hw; constructor; by rewrite ?EW, ?EA, ?ES, ?EN).
  assert (calm s1) as Hc1 by (unfold calm, fitsClient in *; by rewrite EW, EE).
  pose proof (closePaneInWindow_ok id s1 Hw1 Hc1) as H. cbv zeta in H.
  pose proof (closePaneInWindow_same id s1) as Hs.
  destruct (closePaneInWindow id s1) as [s2 c]. cbn [fst] in *. destruct H as (Hw2 & H1 & H2).
  destruct HP as (Hp2 & _ & _ & _ & _ & HP & _).
  assert (shown s1 = shown s) as Esh by (unfold shown; by rewrite EW). rewrite Esh in *.
  split_and!; [|by destruct Hs as (_ & _ & _ & _ & _ & _ & _ & ->)|done|done].
  apply SessionInv_split. split_and!; [done..|].
  apply (listed_after id (shown s) _ (PaneIDs s)); auto; [apply Hw|]. intros Hn. by rewrite (H2 Hn).
Qed.

Lemma call_inv c s : SessionInv s -> SessionInv (call c s).
Proof. intros [? ? ? ? ?]. constructor; try done. by apply PaneInv_call. Qed.

Lemma softClosePane_ok id s : SessionInv s -> calm s ->
  let '(s', r) := softClosePane id s in
  SessionInv s' /\
  (id ∈ PaneIDs s -> PaneIDs s ≡ₚ id :: PaneIDs s' /\ (id ∈ shown s -> shown s ≡ₚ id :: shown s') /\
     closedPanes (undo s') = (if lenZ (PaneIDs s) <=? 1 then closedPanes (undo s) else closedPanes (undo s) ++ [id])) /\
  (id ∉ PaneIDs s -> s' = s).
Proof.
  intros Hi Hc. pose proof Hi as (Hp & Hw & Hl)%SessionInv_split.
  pose proof (softClosePane_panes id s Hp) as HP.
  unfold softClosePane in *. destruct (hasPane id s) eqn:Eh.
  2:{ assert (id ∉ PaneIDs s) by (intros ?%hasPane_spec; congruence). split_and!; done. }
  apply hasPane_spec in Eh. destruct (lenZ (PaneIDs s) <=? 1).
  { pose proof (finalizePaneRemoval_ok id s Hi Hc) as H. destruct (finalizePaneRemoval id s) as [s1 r].
    destruct H as (? & _ & H & _). destruct (H Eh). destruct HP as (_ & _ & _ & _ & _ & _ & ?). split_and!; done. }
  pose proof (closePaneInWindow_ok id s Hw Hc) as H. cbv zeta in H.
  pose proof (closePaneInWindow_same id s) as Hs.
  destruct (closePaneInWindow id s) as [s1 c]. cbn [fst] in *. destruct H as (Hw1 & H1 & H2).
  destruct HP as (Hp' & _ & _ & _ & HP & _ & EC). cbv zeta in *.
  set (s' := withUndo _ _) in *.
  assert (Windows s' = Windows s1 /\ store s' = store s1 /\ ActiveWindowID s' = ActiveWindowID s1 /\
          windowCounter s' = windowCounter s1) as (EW & ES & EA & EN).
  { unfold s'. destruct (removeFirst _ _), (mirror _); done. }
  assert (shown s' = shown s1) as Esh by (unfold shown; by rewrite EW).
  split_and!; [|intros _; by rewrite Esh|done].
  apply SessionInv_split. split_and!; [done|destruct Hw1; constructor; by rewrite ?EW, ?EA, ?ES, ?EN|].
  rewrite Esh. apply (listed_after id (shown s) _ (PaneIDs s)); auto; [apply Hw|]. intros Hn. by rewrite (H2 Hn).
Qed.

(** *** Restoring *)

Lemma liftUndo_pop s l id : closedPanes (undo s) = l ++ [id] ->
  liftUndo popClosedPane s = (withUndo (stopClosedTimer id (setClosedPanes l (undo s))) s, Ok id).
Proof. intros E. unfold liftUndo. by rewrite (popClosedPane_snoc _ _ _ E). Qed.

Lemma retrackMirror_state id s : (retrackMirror id s).1 = s.
Proof. unfold retrackMirror. repeat (case_match; try done). Qed.

(** The pane on top of the stack goes back to the session's list. *)
Definition popped (s : Session) (l : list Z) (id : Z) : Session :=
  withPaneIDs (PaneIDs s ++ [id]) (withUndo (stopClosedTimer id (setClosedPanes l (undo s))) s).
Lemma popped_inv s l id : SessionInv s -> closedPanes (undo s) = l ++ [id] ->
  SessionInv (popped s l id) /\ (id ∉ shown s) /\ 0 < id /\ closedPanes (undo (popped s l id)) = l.
Proof.
  intros ([H1 H2 H3] & Hw & Hl)%SessionInv_split E. rewrite E in H1, H2.
  assert (closedPanes (stopClosedTimer id (setClosedPanes l (undo s))) = l) as Ec
    by (unfold stopClosedTimer; by case_match).
  assert (closedPanes (undo s) ≡ₚ id :: l) as HP by (rewrite E; symmetry; apply Permutation_cons_append).
  assert (id ∉ PaneIDs s) as Hn.
  { apply NoDup_app in H1 as (_ & Hd & _). intros Hin. apply (Hd id Hin), elem_of_app. right. apply list_elem_of_here. }
  split_and!; [|by intros ?%Hl| |done].
  - apply SessionInv_split. split_and!; [|by destruct Hw; constructor|intros x Hx; apply elem_of_app; left; by apply Hl].
    constructor; simpl; rewrite ?Ec; [| |by apply UndoInv_drop].
    + by rewrite <- app_assoc, (Permutation_app_comm [id] l).
    + by rewrite <- app_assoc, (Permutation_app_comm [id] l).
  - rewrite !Forall_app in H2. destruct H2 as (_ & _ & H2). inversion H2; subst. lia.
Qed.

Lemma undoClosePane_ok s : SessionInv s ->
  let '(s', r) := undoClosePane s in
  SessionInv s' /\
  match r with
  | Ok id => exists l, closedPanes (undo s) = l ++ [id] /\ closedPanes (undo s') = l /\
               PaneIDs s' = PaneIDs s ++ [id] /\ shown s' ≡ₚ id :: shown s
  | Err e => shown s' = shown s /\
      match e with
      | errUndo _ => closedPanes (undo s) = [] /\ s' = withUndo (undo s) s
      | _ => exists l id, closedPanes (undo s) = l ++ [id] /\ closedPanes (undo s') = l /\
               PaneIDs s' = PaneIDs s ++ [id]
      end
  end.
Proof.
  intros Hi. unfold undoClosePane, bindM.
  destruct (closedPanes (undo s)) as [|x l0] eqn:E0.
  { unfold liftUndo, popClosedPane. rewrite E0. simpl. split_and!; try done. by destruct s, Hi; constructor. }
  destruct (exists_last (l := x :: l0) ltac:(done)) as (l & id & E). rewrite E in *. clear E x l0. rename E0 into E.
  rewrite (liftUndo_pop s l id E). unfold modify. fold (popped s l id).
  destruct (popped_inv s l id Hi E) as (Hi1 & Hnew & Hpos & Ec).
  change (withPaneIDs (PaneIDs (withUndo _ s) ++ [id]) _) with (popped s l id).
  pose proof (retrackMirror_state id (popped s l id)) as Est.
  assert (PaneIDs (popped s l id) = PaneIDs s ++ [id] /\ shown (popped s l id) = shown s) as [EP Esh] by done.
  destruct (retrackMirror id (popped s l id)) as [s1 r1] eqn:Er. cbn [fst] in Est. subst s1.
  destruct r1 as [[]|e1].
  2:{ split; [done|]. split; [done|]. unfold retrackMirror in Er. repeat case_match; simplify_eq. eauto. }
  unfold get. destruct (activeWindow (popped s l id)) as [sw|] eqn:Ea.
  2:{ unfold throw. split_and!; [done..|eauto]. }
  destruct (activeWindow_Some _ _ Ea) as (ws1 & ws2 & EW).
  pose proof Hi1 as (Hp1 & Hw1 & Hl1)%SessionInv_split.
  set (keep := negb _). destruct (WinsOk_mid _ _ _ _ Hw1 EW) as (Hwi & Hnd & _).
  pose proof (insert_in (popped s l id) ws1 sw ws2 id (SplitWithOptions SplitVertical id (mkSplitOptions keep false))
                Hw1 EW ltac:(by rewrite Esh)) as H.
  specialize (H ltac:(apply SplitWithOptions_inserts;
    [by apply loaded_inv|apply Hw1|done|
     intros Hin; apply Hnew; rewrite <- Esh, (shown_mid _ _ _ _ EW), !elem_of_app; auto])).
  destruct (onWindow sw _ (popped s l id)) as [s2 r]. destruct H as (Hw2 & Hs & _ & _ & H).
  assert (PaneInv s2) as Hp2 by (by eapply samePanes_inv).
  assert (SessionInv s2) as Hi2.
  { apply SessionInv_split. split_and!; [done..|]. intros y Hy. destruct Hs as (-> & _).
    destruct r as [id'|e]; [destruct H as [_ H]; rewrite H in Hy; apply elem_of_cons in Hy as [->|Hy]|destruct H as [H _]; rewrite H in Hy];
      [apply elem_of_app; right; apply list_elem_of_here|by apply Hl1..]. }
  destruct Hs as (EP2 & Eu2 & _).
  destruct r as [id'|e]; simpl.
  - destruct H as [-> H]. split; [done|]. exists l. rewrite EP2, Eu2. rewrite Esh in H. done.
  - destruct H as [H [e' ->]]. split; [done|]. split; [by rewrite H|]. rewrite EP2, Eu2. eauto.
Qed.

Lemma undoClosePane_queue s : queue (undoClosePane s).1 = queue s.
Proof.
  unfold undoClosePane, bindM, modify, get, throw, ret. unfold liftUndo, popClosedPane.
  destruct (last (closedPanes (undo s))) as [id|]; [|done].
  set (s1 := withPaneIDs _ _). pose proof (retrackMirror_state id s1) as E.
  destruct (retrackMirror id s1) as [s2 [[]|e]]; cbn [fst] in E; subst s2; [|done].
  destruct (activeWindow s1) as [w|]; [|done].
  match goal with |- context [onWindow w ?m s1] => pose proof (onWindow_same w m s1) as Hs;
    destruct (onWindow w m s1) as [s2 [a|e]] end; by destruct Hs as (_ & _ & Hq & _).
Qed.

(** *** Events *)

(** Only the list of panes and what tracks them differ. *)
Lemma SessionInv_frame s s' : SessionInv s -> PaneInv s' -> Windows s' = Windows s ->
  ActiveWindowID s' = ActiveWindowID s -> store s' = store s -> windowCounter s' = windowCounter s ->
  (forall x, x ∈ shown s -> x ∈ PaneIDs s -> x ∈ PaneIDs s') -> SessionInv s'.
Proof.
  intros (Hp & [Hw1 Hw2 Hw3] & Hl)%SessionInv_split Hp' EW EA ES EN Hsub. apply SessionInv_split.
  split_and!; [done|constructor; by rewrite ?EW, ?EA, ?ES, ?EN|].
  unfold shown. rewrite EW. intros x Hx. apply Hsub; [done|]. by apply Hl.
Qed.

Lemma handleFinalizedPaneRemoval_ok id cp reason s : SessionInv s -> calm s ->
  let s' := handleFinalizedPaneRemoval id cp reason s in
  SessionInv s' /\ (id ∉ PaneIDs s') /\ (id ∈ PaneIDs s -> PaneIDs s ≡ₚ id :: PaneIDs s' /\
    (id ∈ shown s -> shown s ≡ₚ id :: shown s')).
Proof.
  intros Hi Hc. cbv zeta. unfold handleFinalizedPaneRemoval.
  pose proof (finalizePaneRemoval_ok id s Hi Hc) as H.
  pose proof (finalizePaneRemoval_panes id s (si_panes s Hi)) as HP.
  destruct (finalizePaneRemoval id s) as [s1 r]. destruct H as (Hi1 & _ & H1 & H2).
  destruct HP as (_ & _ & _ & _ & _ & HP).
  assert (id ∉ PaneIDs s1) as Hn.
  { destruct (decide (id ∈ PaneIDs s)) as [Hin|Hn]; [|by rewrite (H2 Hn)].
    pose proof (pi_nodup s (si_panes s Hi)) as Hnd. apply NoDup_app in Hnd as (Hnd & _).
    rewrite (proj1 (H1 Hin)) in Hnd. by apply NoDup_cons in Hnd as [? _]. }
  destruct (remPane r) as [p|] eqn:Er; [|done].
  assert (forall s2, samePanes s1 s2 -> Windows s2 = Windows s1 -> ActiveWindowID s2 = ActiveWindowID s1 ->
            store s2 = store s1 -> SessionInv s2 /\ (id ∉ PaneIDs s2) /\
            (id ∈ PaneIDs s -> PaneIDs s ≡ₚ id :: PaneIDs s2 /\ (id ∈ shown s -> shown s ≡ₚ id :: shown s2))) as Hgo.
  { intros s2 Hs EW EA ES. pose proof (samePanes_inv _ _ Hs (si_panes _ Hi1)) as Hp2.
    destruct Hs as (EP & _ & _ & _ & EN & _). unfold shown. rewrite EP, EW. split_and!; [|done..].
    apply (SessionInv_frame s1); auto. by rewrite EP. }
  cbv zeta. destruct (mirror s1), cp, (sendExit r), (broadcastLayout r); by apply Hgo.
Qed.

Lemma closeFinalizedPane_ok id s : SessionInv s ->
  let '(s', closed) := closeFinalizedPane id s in SessionInv s' /\ shown s' = shown s /\
    effectiveSize s' = effectiveSize s /\ Windows s' = Windows s.
Proof.
  intros Hi. pose proof (closeFinalizedPane_panes id s (si_panes s Hi)) as H.
  destruct (closeFinalizedPane id s) as [s1 b].
  destruct H as (Hp & _ & EP & EW & EA & ES & EE & _ & EN & _). split_and!; [|by unfold shown; rewrite EW|done|done].
  apply (SessionInv_frame s); auto. by rewrite EP.
Qed.

Lemma calm_frame s s' : Windows s' = Windows s -> effectiveSize s' = effectiveSize s -> calm s -> calm s'.
Proof. unfold calm, fitsClient. by intros -> ->. Qed.

Lemma handleNext_ok s : SessionInv s -> calm s -> shutdown s = false -> SessionInv (handleNext s).
Proof.
  intros Hi Hc Hsd. unfold handleNext. destruct (queue s) as [|ev q] eqn:Eq; [done|].
  pose proof (handleEvent_panes ev q s Eq Hsd (si_panes s Hi)) as H. cbv zeta in H. destruct H as (Hp & _ & _ & Hsub).
  pose proof Hi as (Hpi & Hw & Hl)%SessionInv_split.
  assert (forall ev', PaneInv (withQueue q s) -> ev' = ev -> SessionInv (withQueue q s)) as Hq
    by (intros; apply (SessionInv_frame s); auto).
  unfold handleEvent, handleUndoExpiry, handlePaneCleanupTimeout, handlePaneExit in *. cbn [shutdown withQueue] in *. rewrite Hsd in *. destruct ev as [id|id|id reason].
  - pose proof (closeFinalizedPane_panes id s Hpi) as H.
    assert ((closeFinalizedPane id (withQueue q s)).1 = withQueue q (closeFinalizedPane id s).1) as E.
    { unfold closeFinalizedPane. simpl. by destruct (finalizeClosedPane id (undo s)) as [u []]. }
    rewrite E in *. destruct (closeFinalizedPane id s) as [s1 b].
    destruct H as (_ & _ & EP & EW & EA & ES & _ & _ & EN & _).
    apply (SessionInv_frame s); auto. simpl. by rewrite EP.
  - assert (PaneInv (withQueue q s)) as Hpq.
    { apply PaneInv_queue; [done|]. intros id'. by rewrite Eq, elem_of_cons; intros [?|?]. }
    destruct (hasPane id (withQueue q s)); [|by eapply Hq].
    apply (handleFinalizedPaneRemoval_ok id true "cleanup timeout" (call (SignalKill id) (withQueue q s)));
      [apply call_inv; by eapply Hq|by apply (calm_frame s)].
  - assert (PaneInv (withQueue q s)) as Hpq.
    { apply PaneInv_queue; [done|]. intros id'. by rewrite Eq, elem_of_cons; intros [?|?]. }
    specialize (Hq _ Hpq eq_refl). pose proof (closeFinalizedPane_ok id _ Hq) as H.
    destruct (closeFinalizedPane id (withQueue q s)) as [s1 b]. destruct H as (Hi1 & _ & EE & EW).
    destruct b; [done|]. apply handleFinalizedPaneRemoval_ok; [done|by apply (calm_frame (withQueue q s))].
Qed.

(** *** Switching and reordering windows *)

Lemma WinsOk_SessionInv s s' : SessionInv s -> WinsOk s' -> samePanes s s' -> shown s' ≡ₚ shown s -> SessionInv s'.
Proof.
  intros (Hp & _ & Hl)%SessionInv_split Hw Hs HP. apply SessionInv_split. split_and!; [|done|].
  - by eapply samePanes_inv.
  - intros x. rewrite HP. destruct Hs as (-> & _). apply Hl.
Qed.

Lemma activateWindow_inv s sw : SessionInv s -> sw ∈ Windows s -> fitsClient s (wWin sw) ->
  let s' := activateWindow sw s in
  SessionInv s' /\ ActiveWindowID s' = wID sw /\ shown s' = shown s /\ map wID (Windows s') = map wID (Windows s).
Proof.
  intros Hi Hin Hf. cbv zeta. apply list_elem_of_split in Hin as (ws1 & ws2 & E).
  pose proof Hi as (_ & Hw & _)%SessionInv_split.
  destruct (activateWindow_ok s ws1 sw ws2 (wo_wins _ Hw) (wo_working _ Hw) E Hf) as (Hw' & EA & w' & EW & EP).
  assert (shown (activateWindow sw s) = shown s) as Esh.
  { unfold shown. rewrite EW, E, !shownIn_app, !shownIn_cons. by rewrite EP. }
  split_and!; [|done|done|].
  - eapply WinsOk_SessionInv; [done|done|apply activateWindow_same|by rewrite Esh].
  - by rewrite EW, E, !map_app.
Qed.

Definition allFit (s : Session) : Prop := Forall (fun sw => fitsClient s (wWin sw)) (Windows s).

Lemma windowIndex_Some id ws i : windowIndex id ws = Some i -> exists sw, ws !! i = Some sw /\ wID sw = id.
Proof.
  revert i. induction ws as [|w ws IH]; intros i; simpl; [done|].
  destruct (Z.eqb_spec (wID w) id); [intros [= <-]; eauto|]. intros (j & Hj & ->)%fmap_Some. by apply IH.
Qed.

Lemma stepWindow_inv k s : SessionInv s -> allFit s ->
  SessionInv (stepWindow k s) /\ shown (stepWindow k s) = shown s /\
  map wID (Windows (stepWindow k s)) = map wID (Windows s).
Proof.
  intros Hi Hf. unfold stepWindow. destruct (_ <=? _); [done|].
  destruct (windowIndex _ _) as [i|]; [|done]. destruct (Windows s !! Z.to_nat _) as [sw|] eqn:E; [|done].
  apply list_elem_of_lookup_2 in E. destruct (activateWindow_inv s sw Hi E) as (? & _ & ? & ?); [|done].
  by apply (proj1 (Forall_forall _ _) Hf).
Qed.

Lemma lastWindow_inv s : SessionInv s -> allFit s ->
  SessionInv (lastWindow s).1 /\ shown (lastWindow s).1 = shown s.
Proof.
  intros Hi Hf. unfold lastWindow. pose proof (previousWindow_same s) as Hs.
  pose proof (previousWindow_keeps s) as (EW & EA & ES).
  assert (forall sw, (previousWindow s).2 = Some sw -> sw ∈ Windows s) as Hin.
  { intros sw. unfold previousWindow. destruct (_ || _); [done|].
    destruct (windowByID _ s) as [w|] eqn:E; [|done]. intros [= ->].
    apply windowByID_Some in E as (_ & ws1 & ws2 & ->). apply elem_of_app. right. apply list_elem_of_here. }
  destruct (previousWindow s) as [s1 prev]. cbn [fst snd] in *.
  assert (SessionInv s1) as Hi1.
  { pose proof (samePanes_inv _ _ Hs (si_panes _ Hi)) as Hp. destruct Hs as (EP & _ & _ & _ & EN & _).
    apply (SessionInv_frame s); auto. by rewrite EP. }
  assert (shown s1 = shown s) as Esh by (unfold shown; by rewrite EW).
  destruct prev as [sw|]; [|done]. specialize (Hin sw eq_refl).
  destruct (activateWindow_inv s1 sw Hi1) as (? & _ & Hsh & _); [by rewrite EW| |split; [done|]; cbn [fst]; by rewrite Hsh].
  unfold fitsClient. destruct Hs as (_ & _ & _ & _ & _ & _ & _ & ->). by apply (proj1 (Forall_forall _ _) Hf).
Qed.

Lemma windowByID_in id s : id ∈ map wID (Windows s) -> exists w, windowByID id s = Some w /\ w ∈ Windows s.
Proof.
  intros Hin. destruct (windowByID id s) as [w|] eqn:E.
  - exists w. split; [done|]. destruct (windowByID_Some _ _ _ E) as (_ & ws1 & ws2 & ->).
    apply elem_of_app. right. apply list_elem_of_here.
  - apply list_elem_of_fmap in Hin as (w & -> & Hw). unfold windowByID in E.
    pose proof (List.find_none _ _ E w ltac:(by apply list_elem_of_In)) as H. cbv beta in H. by rewrite Z.eqb_refl in H.
Qed.

(** The window that was active becomes the previous one. *)
Lemma activateWindow_previous sw s :
  ActiveWindowID s <> 0 -> ActiveWindowID s <> wID sw -> ActiveWindowID s ∈ map wID (Windows s) ->
  PreviousWindowID (activateWindow sw s) = ActiveWindowID s.
Proof.
  intros H0 Hne Hin. unfold activateWindow. cbv zeta.
  destruct (Z.eqb_spec (ActiveWindowID s) 0), (Z.eqb_spec (ActiveWindowID s) (wID sw)); try done. simpl.
  destruct (windowByID_in _ _ Hin) as (w & -> & _).
  unfold syncWindowSizeToEffectiveClient, pushMirrorWindowSize. repeat (case_match; try done).
Qed.

(** *** Opening panes and windows *)

Lemma preparePane_ok p s : SessionInv s -> ptyFails p = false -> 0 <= counter s -> counter s + 1 < 2 ^ 32 ->
  let '(s', id) := preparePane p s in
  SessionInv s' /\ id = counter s + 1 /\ counter s' = counter s + 1 /\ PaneIDs s' = PaneIDs s ++ [id] /\
  Windows s' = Windows s /\ ActiveWindowID s' = ActiveWindowID s /\ windowCounter s' = windowCounter s /\
  (id ∉ PaneIDs s) /\ effectiveSize s' = effectiveSize s.
Proof.
  intros Hi Hpty H0 Hc. unfold preparePane. rewrite Z.mod_small by lia.
  pose proof Hi as ([H1 H2 H3] & [Hw1 Hw2 Hw3] & Hl)%SessionInv_split.
  assert (counter s + 1 ∉ PaneIDs s ++ closedPanes (undo s)) as Hn.
  { intros Hin. pose proof (proj1 (Forall_forall _ _) H2 _ Hin) as Hb. cbv beta in Hb. lia. }
  assert (PaneIDs s ++ [counter s + 1] ++ closedPanes (undo s) ≡ₚ (counter s + 1) :: PaneIDs s ++ closedPanes (undo s)) as HP
    by (symmetry; apply Permutation_middle).
  split_and!; try done; [|intros Hin; apply Hn, elem_of_app; by left].
  apply SessionInv_split. split_and!.
  - constructor; simpl; rewrite <- ?app_assoc, ?HP; [by constructor| |done].
    constructor; [lia|]. eapply Forall_impl; [exact H2|]. simpl. lia.
  - constructor; simpl; [done| |done]. apply map_Forall_insert_2; done.
  - intros x Hx. apply elem_of_app. left. by apply Hl.
Qed.

Lemma windowOk_min w : WindowInv w -> PaneMinSize <= Width w /\ PaneMinSize <= Height w.
Proof.
  intros [_ (Hwf & _ & Hr & _) _ _ _].
  pose proof (wf_min_le SplitVertical _ Hwf) as HV. pose proof (wf_min_le SplitHorizontal _ Hwf) as HH.
  pose proof (minSubtreeSize_ge SplitVertical _ (wf_shaped _ Hwf)).
  pose proof (minSubtreeSize_ge SplitHorizontal _ (wf_shaped _ Hwf)).
  unfold axisSize, cellRect in *. destruct (Root w); simpl in *; subst; simpl in *; lia.
Qed.

Lemma newWindow_ok nameOf name p s :
  SessionInv s -> ptyFails p = false -> 0 <= counter s -> counter s + 1 < 2 ^ 32 ->
  0 <= windowCounter s -> windowCounter s + 1 < 2 ^ 32 ->
  (forall cols h, effectiveSize s = Some (cols, h) -> PaneMinSize <= cols /\ PaneMinSize <= h) ->
  let '(s', r) := newWindow nameOf name p s in
  match r with
  | Ok id => SessionInv s' /\ id = windowCounter s + 1 /\ ActiveWindowID s' = id /\
      map wID (Windows s') = map wID (Windows s) ++ [id] /\ shown s' = shown s ++ [counter s + 1]
  | Err e => s' = s /\ Windows s = []
  end.
Proof.
  intros Hi Hpty H0 Hc Hw0 Hwc Hf. unfold newWindow. destruct (activeWindow s) as [sw|] eqn:Ea.
  2:{ split; [done|by apply activeWindow_None]. }
  destruct (activeWindow_Some _ _ Ea) as (ws1 & ws2 & E).
  pose proof (preparePane_ok p s Hi Hpty H0 Hc) as HP. destruct (preparePane p s) as [s1 id].
  destruct HP as (Hi1 & -> & EC & EP & EW & EA & EN & Hn & EE). rewrite EN, (Z.mod_small (windowCounter s + 1)) by lia.
  pose proof Hi1 as (Hp1 & Hw1 & Hl1)%SessionInv_split.
  destruct (WinsOk_mid _ _ _ _ Hw1 ltac:(by rewrite EW)) as (Hwi & _ & _).
  destruct (windowOk_min _ Hwi) as [HW HH].
  set (win := bare _). set (nw := mkSWindow _ _ win). set (s2 := withCounters _ _ s1).
  set (s3 := withWindows _ s2).
  assert (WindowInv win) as Hnew.
  { constructor; simpl; [done| | |by left|right; apply list_elem_of_here].
    - unfold treeOk. split_and!; try done; [by constructor|apply NoDup_singleton|apply Forall_singleton; simpl; lia].
    - exists (counter s + 1). split; [done|]. apply list_elem_of_here. }
  assert (shown s3 = shown s ++ [counter s + 1]) as Esh.
  { unfold shown, s3. simpl. rewrite EW, shownIn_app. done. }
  assert (WindowsInv (windowCounter s3) (Windows s3)) as Hwins.
  { destruct Hw1 as [[Hd Hk Hv Hnd] _ _]. unfold s3. simpl. constructor.
    - rewrite map_app. apply NoDup_app. split_and!; [done| |apply NoDup_singleton].
      intros x (y & Ex & Hy)%list_elem_of_fmap Hx%list_elem_of_singleton. simpl in Hx.
      pose proof (proj1 (Forall_forall _ _) Hk _ Hy) as Hb. cbv beta in Hb. rewrite EN in Hb. lia.
    - apply Forall_app. split; [|apply Forall_singleton; simpl; lia].
      eapply Forall_impl; [exact Hk|]. rewrite EN. simpl. lia.
    - apply Forall_app. split; [done|by apply Forall_singleton].
    - rewrite shownIn_app. apply NoDup_app. split_and!; [done| |apply NoDup_singleton].
      intros x Hx ->%list_elem_of_singleton. apply Hn.
      apply (si_listed s Hi). unfold shown. by rewrite <- EW. }
  assert (SessionInv s1 -> working (store s3)) as Hst by (intros [_ _ _ ? _]; done).
  destruct (activateWindow_ok s3 (Windows s) nw []) as (Hw' & EA' & w' & EW' & EP');
    [done|by apply Hst|unfold s3; simpl; by rewrite EW| |].
  { intros cols h Hs. change (effectiveSize s3) with (effectiveSize s1) in Hs. rewrite EE in Hs.
    by apply Hf in Hs. }
  pose proof (activateWindow_same nw s3) as Hsame.
  assert (shown (activateWindow nw s3) = shown s3) as Esh'.
  { unfold shown at 1. rewrite EW', shownIn_app, shownIn_cons, EP', Esh. done. }
  split_and!; [|done|done|by rewrite EW', map_app|by rewrite Esh'].
  apply SessionInv_split. split_and!; [|done|].
  - eapply samePanes_inv; [exact Hsame|]. destruct Hp1. by constructor.
  - intros x. rewrite Esh', Esh. destruct Hsame as (-> & _). change (PaneIDs s3) with (PaneIDs s1). rewrite EP.
    rewrite !elem_of_app. intros [Hx|Hx]; [left; by apply (si_listed s Hi)|by right].
Qed.

Lemma insertPrepared_ok pane dir rootLevel keepFocus s :
  SessionInv s -> 0 < pane <= counter s -> pane ∉ PaneIDs s ++ closedPanes (undo s) ->
  (rootLevel = true -> forall sw, activeWindow s = Some sw -> rootSplitFits dir pane (wWin sw)) ->
  let '(s', r) := insertPreparedPaneIntoActiveWindow pane dir rootLevel keepFocus s in
  SessionInv s' /\
  match r with
  | Ok _ => PaneIDs s' = PaneIDs s ++ [pane] /\ shown s' ≡ₚ pane :: shown s
  | Err _ => PaneIDs s' ≡ₚ PaneIDs s /\ shown s' = shown s
  end.
Proof.
  intros Hi Hpos Hnew Hlead. pose proof Hi as (Hp & Hw & Hl)%SessionInv_split.
  unfold insertPreparedPaneIntoActiveWindow, bindM, get, modify, throw.
  destruct (activeWindow s) as [sw|] eqn:Ea; [|by split].
  destruct (activeWindow_Some _ _ Ea) as (ws1 & ws2 & E). destruct (WinsOk_mid _ _ _ _ Hw E) as (Hwi & _ & _).
  set (s1 := call (LogPaneCreate pane) (withPaneIDs (PaneIDs s ++ [pane]) s)).
  assert (PaneIDs s ++ [pane] ++ closedPanes (undo s) ≡ₚ pane :: PaneIDs s ++ closedPanes (undo s)) as HPm
    by (symmetry; apply Permutation_middle).
  assert (PaneInv s1) as Hp1.
  { destruct Hp as [H1 H2 H3]. constructor; simpl; rewrite <- ?app_assoc, ?HPm; [by constructor|by constructor|done]. }
  assert (WinsOk s1) as Hw1 by (destruct Hw; by constructor).
  pose proof Hnew as [Hn1 Hn2]%not_elem_of_app.
  assert (pane ∉ shown s) as Hns by (intros ?%Hl; done).
  set (opts := mkSplitOptions _ false).
  pose proof (insert_in s1 ws1 sw ws2 pane
    (if rootLevel then SplitRootWithOptions dir pane opts else SplitWithOptions dir pane opts) Hw1 E Hns) as H.
  assert (pane ∉ treePanes (Root (loaded s1 (wWin sw)))) as Hnt.
  { intros Hin. apply Hns. rewrite (shown_mid _ _ _ _ E), !elem_of_app. auto. }
  specialize (H ltac:(destruct rootLevel;
    [apply SplitRoot_inserts; [by apply loaded_inv|apply Hw1|lia|done|]|
     apply SplitWithOptions_inserts; [by apply loaded_inv|apply Hw1|lia|done]];
    by apply Hlead)).
  destruct (onWindow sw _ s1) as [s2 r]. destruct H as (Hw2 & Hs2 & EA2 & _ & H).
  pose proof (samePanes_inv _ _ Hs2 Hp1) as Hp2. pose proof Hs2 as (EP2 & Eu2 & _ & _ & EN2 & _).
  destruct r as [id|e].
  - destruct H as [-> HP]. split; [|by rewrite EP2].
    apply SessionInv_split. split_and!; [done|done|]. intros x. rewrite HP, EP2. simpl.
    rewrite elem_of_cons, elem_of_app. intros [->|Hx]; [right; apply list_elem_of_here|left; by apply Hl].
  - destruct H as [HP _]. assert (pane ∉ closedPanes (undo s2)) as Hnc by (by rewrite Eu2).
    pose proof (sessionRemovePane_ok pane s2 Hp2 Hnc) as HR. cbv zeta in HR.
    destruct HR as (Hp3 & _ & _ & EW3 & EA3 & ES3 & _ & EN3 & _ & _ & HP3 & _).
    assert (PaneIDs (sessionRemovePane pane s2) ≡ₚ PaneIDs s) as HPP.
    { specialize (HP3 ltac:(rewrite EP2; apply elem_of_app; right; apply list_elem_of_here)).
      rewrite EP2 in HP3. simpl in HP3. apply (Permutation_cons_inv (a := pane)).
      rewrite <- HP3. symmetry. apply Permutation_cons_append. }
    assert (shown (sessionRemovePane pane s2) = shown s) as Esh by (unfold shown at 1; rewrite EW3; exact HP).
    split; [|done]. apply SessionInv_split. split_and!; [done| |].
    + destruct Hw2. constructor; by rewrite ?EW3, ?EA3, ?ES3, ?EN3.
    + intros x. rewrite Esh, HPP. apply Hl.
Qed.

(** *** Moving a pane to another window *)

Lemma windowByID_mid s ws1 sw ws2 : NoDup (map wID (Windows s)) -> Windows s = ws1 ++ sw :: ws2 ->
  windowByID (wID sw) s = Some sw.
Proof.
  unfold windowByID. intros Hd E. rewrite E in *. clear E. induction ws1 as [|w ws1 IH]; simpl in *; [by rewrite Z.eqb_refl|].
  apply NoDup_cons in Hd as [Hn Hd]. destruct (Z.eqb_spec (wID w) (wID sw)) as [E|]; [|by apply IH].
  destruct Hn. rewrite E, map_app. apply elem_of_app. right. apply list_elem_of_here.
Qed.

(** Taking the pane out of its window: the window goes with its last pane. *)
Lemma detach_ok s ws1 source ws2 id : SessionInv s -> Windows s = ws1 ++ source :: ws2 ->
  id ∈ winPanes source -> closeFits id (wWin source) ->
  exists s1, (if PaneCount (wWin source) <=? 1 then modify (removeWindow (wID source))
              else onWindow source (ClosePane id)) s = (s1, Ok tt) /\
    WinsOk s1 /\ samePanes s s1 /\ shown s ≡ₚ id :: shown s1 /\
    (forall sw, sw ∈ Windows s -> wID sw <> wID source -> sw ∈ Windows s1).
Proof.
  intros Hi E Hid Hl. pose proof Hi as (_ & Hw & _)%SessionInv_split.
  destruct (WinsOk_mid _ _ _ _ Hw E) as (Hwi & _ & _). rewrite PaneCount_spec by done. fold (winPanes source).
  destruct (Z.leb_spec (lenZ (winPanes source)) 1) as [Hle|Hlt].
  - destruct (removeWindow_ok s ws1 source ws2 Hw E) as (Hok1 & E1 & _).
    eexists. split; [reflexivity|]. split_and!; [done|apply removeWindow_same| |].
    + assert (winPanes source = [id]) as Ew.
      { destruct (winPanes source) as [|x [|y l]]; [by apply elem_of_nil in Hid|by apply list_elem_of_singleton in Hid as ->|].
        autorewrite with lsum in Hle. pose proof (lenZ_nonneg l). lia. }
      rewrite (shown_mid _ _ _ _ E), Ew. unfold shown. rewrite E1, shownIn_app. symmetry. apply Permutation_middle.
    + intros sw. rewrite E, E1, !elem_of_app, elem_of_cons. intros [?|[->|?]]; auto. done.
  - pose proof (closePane_in s ws1 source ws2 id Hw E Hid Hl Hlt) as H.
    pose proof (onWindow_same source (ClosePane id) s) as Hs.
    destruct (onWindow source (ClosePane id) s) as [s1 r].
    destruct H as (-> & Hok1 & HP & w' & E1 & _). exists s1. split_and!; auto.
    intros sw. rewrite E, E1, !elem_of_app, !elem_of_cons. intros [?|[->|?]]; auto. done.
Qed.

Lemma movePaneToWindow_ok id wid s :
  SessionInv s ->
  (forall sw, findWindowByPaneID id s = Some sw -> closeFits id (wWin sw)) ->
  (forall sw, windowByID wid s = Some sw -> rootSplitFits SplitVertical id (wWin sw) /\
     forall cols h, effectiveSize s = Some (cols, h) -> Width (wWin sw) <= cols /\ Height (wWin sw) <= h) ->
  let '(s', r) := movePaneToWindow id wid s in
  SessionInv s' /\ PaneIDs s' = PaneIDs s /\
  match r with
  | Ok _ => shown s' ≡ₚ shown s
  | Err (errWindow _) => shown s ≡ₚ id :: shown s'
  | Err _ => s' = s
  end.
Proof.
  intros Hi Hsrc Htgt. pose proof Hi as (Hp & Hw & Hl)%SessionInv_split. unfold movePaneToWindow.
  destruct (findWindowByPaneID id s) as [source|] eqn:Ef; [|done].
  destruct (windowByID wid s) as [target|] eqn:Et; [|done].
  destruct (findWindowByPaneID_Some _ _ _ _ (wo_wins s Hw) Ef) as (Hid & ws1 & ws2 & E).
  destruct (windowByID_Some _ _ _ Et) as (<- & tw1 & tw2 & E').
  destruct (Z.eqb_spec (wID source) (wID target)) as [|Hne]; [done|].
  destruct (hasPane id s) eqn:Eh; [|done]. apply hasPane_spec in Eh.
  destruct (Htgt target eq_refl) as [Hlead Hfit].
  destruct (detach_ok s ws1 source ws2 id Hi E Hid (Hsrc _ eq_refl)) as (s1 & E1 & Hw1 & Hs1 & HP1 & Hkeep).
  destruct (WinsOk_mid _ _ _ _ Hw E') as (Hti & _ & _).
  assert (target ∈ Windows s1) as Hin.
  { apply Hkeep; [|done]. rewrite E'. apply elem_of_app. right. apply list_elem_of_here. }
  apply list_elem_of_split in Hin as (c & d & E2).
  assert (id ∉ shown s1) as Hn1.
  { pose proof (wi_panes _ _ (wo_wins _ Hw)) as Hnd. fold (shown s) in Hnd. rewrite HP1 in Hnd.
    by apply NoDup_cons in Hnd as [? _]. }
  assert (0 < id) as Hpos.
  { destruct Hp as [_ H2 _]. apply Forall_app in H2 as [H2 _].
    pose proof (proj1 (Forall_forall _ _) H2 id Eh) as Hb. cbv beta in Hb. lia. }
  assert (shown s1 ⊆ PaneIDs s) as Hsub by (intros x Hx; apply Hl; rewrite HP1; by right).
  unfold bindM. cbv zeta. cbv beta. rewrite E1. cbv iota beta.
  pose proof (insert_in s1 c target d id (SplitRootWithOptions SplitVertical id (mkSplitOptions true false)) Hw1 E2 Hn1
    ltac:(apply SplitRoot_inserts; [by apply loaded_inv|apply Hw1|done| |exact Hlead];
          intros Hx; apply Hn1; rewrite (shown_mid _ _ _ _ E2), !elem_of_app; auto)) as H.
  destruct (onWindow target _ s1) as [s2 r]. destruct H as (Hw2 & Hs2 & _ & (w' & EW2 & Ew' & Hwi') & H).
  assert (samePanes s s2) as Hs by (by etrans).
  destruct r as [id'|e].
  2:{ destruct H as [HP [e' ->]]. assert (PaneIDs s2 = PaneIDs s) as EP by apply Hs.
      split_and!; [|done|by rewrite HP]. apply SessionInv_split. split_and!; [by eapply samePanes_inv|done|].
      intros x. rewrite HP, ?EP. apply Hsub. }
  destruct H as [-> HP]. assert (shown s2 ≡ₚ shown s) as HPs by (by rewrite HP, HP1).
  assert (SessionInv s2) as Hi2 by (by apply (WinsOk_SessionInv s)).
  unfold modify. destruct (_ && _); [|split_and!; [done|apply Hs|done]].
  set (nt := setWin (bare w') target) in *.
  assert (windowByID (wID target) s2 = Some nt) as ->
    by (apply (windowByID_mid s2 c nt d); [apply Hw2|done]).
  assert (nt ∈ Windows s2) as Hin2 by (rewrite EW2; apply elem_of_app; right; apply list_elem_of_here).
  destruct (activateWindow_inv s2 nt Hi2 Hin2) as (Hi3 & _ & Esh & _).
  - intros cols h Hsz. assert (effectiveSize s2 = effectiveSize s) as Ee by apply Hs. rewrite Ee in Hsz.
    destruct (Hfit cols h Hsz) as [HW HH].
    destruct (SplitRoot_size SplitVertical id (mkSplitOptions true false) (loaded s1 (wWin target)))
      as [EWd EHt]; [apply Hw1|by destruct Hti|].
    rewrite <- Ew' in EWd, EHt. destruct Hwi' as [_ (Hwf & _ & Hr & _) _ _ _].
    change (Root (wWin nt)) with (Root w').
    pose proof (wf_min_le SplitVertical _ Hwf) as HV. pose proof (wf_min_le SplitHorizontal _ Hwf) as HHz.
    unfold axisSize in HV, HHz. rewrite Hr in HV, HHz. cbn [rAxis rW rH] in HV, HHz.
    simpl in EWd, EHt. lia.
  - split_and!; [done| |by rewrite Esh].
    pose proof (activateWindow_same nt s2) as (-> & _). apply Hs.
Qed.

(** *** A command of one window *)

Lemma windowCommand_ok s ws1 sw ws2 w' :
  SessionInv s -> Windows s = ws1 ++ sw :: ws2 -> wstep (loaded s (wWin sw)) w' ->
  treePanes (Root w') ≡ₚ winPanes sw ->
  SessionInv (saveWindow (wID sw) w' s) /\ shown (saveWindow (wID sw) w' s) ≡ₚ shown s.
Proof.
  intros Hi E Hstep HP. pose proof Hi as (Hp & Hw & Hl)%SessionInv_split.
  destruct (WinsOk_mid _ _ _ _ Hw E) as (Hwi & Hnd & _).
  destruct (wstep_good (loaded s (wWin sw)) w') as [Hi' Hp']; [|done|].
  { split; [by apply loaded_inv|apply Hw]. }
  destruct (saveWindow_ok s ws1 sw ws2 w' Hw E Hi' Hp' ltac:(by rewrite HP)) as [Hw' E'].
  assert (shown (saveWindow (wID sw) w' s) ≡ₚ shown s) as Esh.
  { rewrite (shown_mid _ _ _ _ E), (shown_mid _ _ _ _ E'). unfold winPanes at 1. simpl. by rewrite HP. }
  split; [|done]. by apply (WinsOk_SessionInv s).
Qed.

(** ** Steps and reachable states *)

(** One command or event of a session whose windows are in the classic layout and
    whose terminals accept every resize.  New panes get the next ID and counters do
    not wrap; windows are resized where the layouts fit the terminal ([allFit]),
    panes are closed where that and the columns beside an anchored lead fit
    ([calm]); a command of one window is one of its steps that keeps its panes. *)
Inductive sstep : Session -> Session -> Prop :=
| ss_newWindow nameOf name p s :
    ptyFails p = false -> 0 <= counter s -> counter s + 1 < 2 ^ 32 ->
    0 <= windowCounter s -> windowCounter s + 1 < 2 ^ 32 ->
    (forall cols h, effectiveSize s = Some (cols, h) -> PaneMinSize <= cols /\ PaneMinSize <= h) ->
    Windows s <> [] -> sstep s (newWindow nameOf name p s).1
| ss_insert pane dir rootLevel keepFocus s :
    0 < pane <= counter s -> pane ∉ PaneIDs s ++ closedPanes (undo s) ->
    (rootLevel = true -> forall sw, activeWindow s = Some sw -> rootSplitFits dir pane (wWin sw)) ->
    sstep s (insertPreparedPaneIntoActiveWindow pane dir rootLevel keepFocus s).1
| ss_prepare p s :
    ptyFails p = false -> 0 <= counter s -> counter s + 1 < 2 ^ 32 -> sstep s (preparePane p s).1
| ss_softClose id s : calm s -> sstep s (softClosePane id s).1
| ss_undo s : sstep s (undoClosePane s).1
| ss_cleanup ok id s : sstep s (sessionBeginCleanup ok id s).1
| ss_paneExit id reason s : sstep s (enqueueEvent (paneExitEvent id reason) s)
| ss_fire t s : sstep s (fire t s)
| ss_event s : calm s -> shutdown s = false -> sstep s (handleNext s)
| ss_next s : allFit s -> sstep s (nextWindow s)
| ss_prev s : allFit s -> sstep s (prevWindow s)
| ss_last s : allFit s -> sstep s (lastWindow s).1
| ss_activate sw s : sw ∈ Windows s -> allFit s -> sstep s (activateWindow sw s)
| ss_reorder from to s : sstep s (reorderWindow from to s).1
| ss_move id wid s :
    (forall sw, findWindowByPaneID id s = Some sw -> closeFits id (wWin sw)) ->
    (forall sw, windowByID wid s = Some sw -> rootSplitFits SplitVertical id (wWin sw) /\
       forall cols h, effectiveSize s = Some (cols, h) -> Width (wWin sw) <= cols /\ Height (wWin sw) <= h) ->
    sstep s (movePaneToWindow id wid s).1
| ss_window sw w' s :
    sw ∈ Windows s -> wstep (loaded s (wWin sw)) w' -> treePanes (Root w') ≡ₚ winPanes sw ->
    sstep s (saveWindow (wID sw) w' s).

(** The list after the two copies and the last write of reorderWindow: the
    element moved, the others in order. *)
Definition moved {A} (f t : nat) (x : A) (l : list A) : list A :=
  let rest := take f l ++ drop (S f) l in take t rest ++ x :: drop t rest.

Lemma delete_moved {A} (l : list A) f t x : (f < length l)%nat -> (t < length l)%nat ->
  delete t (moved f t x l) = delete f l.
Proof.
  intros Hf Ht. rewrite (delete_take_drop l f). unfold moved. cbv zeta. set (rest := take f l ++ drop (S f) l).
  assert (length (take t rest) = t) as Hl
    by (unfold rest; rewrite length_take, length_app, length_take, length_drop; lia).
  rewrite <- Hl at 1. by rewrite delete_middle, take_drop.
Qed.

Lemma split_at {A} (l : list A) i : (i < length l)%nat ->
  exists a x b, l = a ++ x :: b /\ length a = i.
Proof.
  intros Hi. destruct (lookup_lt_is_Some_2 l i Hi) as [x Hx].
  exists (take i l), x, (drop (S i) l). rewrite length_take, Nat.min_l by lia.
  by rewrite take_drop_middle.
Qed.

Lemma reorder_down {A} (a b c : list A) x y f t :
  f = length a -> t = (length a + S (length b))%nat -> let l := a ++ x :: b ++ y :: c in
  <[t := x]> (take f l ++ take (t - f) (drop (S f) l) ++ drop t l) = moved f t x l.
Proof.
  intros Hf Ht. cbv zeta.
  assert (take f (a ++ x :: b ++ y :: c) = a) as Ea by (by apply take_app_length').
  assert (drop (S f) (a ++ x :: b ++ y :: c) = b ++ y :: c) as Ed.
  { replace (a ++ x :: b ++ y :: c) with ((a ++ [x]) ++ b ++ y :: c) by (by rewrite <- app_assoc).
    apply drop_app_length'. rewrite length_app. simpl. lia. }
  assert (drop t (a ++ x :: b ++ y :: c) = y :: c) as Et.
  { replace (a ++ x :: b ++ y :: c) with ((a ++ x :: b) ++ y :: c) by (by rewrite <- app_assoc).
    apply drop_app_length'. rewrite length_app. simpl. lia. }
  assert (take (t - f) (b ++ y :: c) = b ++ [y]) as Eb.
  { replace (b ++ y :: c) with ((b ++ [y]) ++ c) by (by rewrite <- app_assoc).
    apply take_app_length'. rewrite length_app. simpl. lia. }
  unfold moved. cbv zeta. rewrite Ea, Ed, Et, Eb.
  replace (a ++ (b ++ [y]) ++ y :: c) with ((a ++ b ++ [y]) ++ y :: c) by (by rewrite <- !app_assoc).
  replace (a ++ b ++ y :: c) with ((a ++ b ++ [y]) ++ c) by (by rewrite <- !app_assoc).
  assert (length (a ++ b ++ [y]) = t) as Hl by (rewrite !length_app; simpl; lia).
  rewrite insert_app_r_alt, Hl, Nat.sub_diag by lia. rewrite take_app_length', drop_app_length' by done. done.
Qed.

Lemma reorder_up {A} (a b c : list A) x y f t :
  t = length a -> f = (length a + S (length b))%nat -> let l := a ++ y :: b ++ x :: c in
  <[t := x]> (take (S t) l ++ take (f - t) (drop t l) ++ drop (S f) l) = moved f t x l.
Proof.
  intros Ht Hf. cbv zeta.
  assert (take (S t) (a ++ y :: b ++ x :: c) = a ++ [y]) as Ea.
  { replace (a ++ y :: b ++ x :: c) with ((a ++ [y]) ++ b ++ x :: c) by (by rewrite <- app_assoc).
    apply take_app_length'. rewrite length_app. simpl. lia. }
  assert (drop t (a ++ y :: b ++ x :: c) = y :: b ++ x :: c) as Et by (by apply drop_app_length').
  assert (take (f - t) (y :: b ++ x :: c) = y :: b) as Eb.
  { replace (y :: b ++ x :: c) with ((y :: b) ++ x :: c) by done. apply take_app_length'. simpl. lia. }
  assert (drop (S f) (a ++ y :: b ++ x :: c) = c) as Ec.
  { replace (a ++ y :: b ++ x :: c) with ((a ++ y :: b ++ [x]) ++ c)
      by (rewrite <- !app_assoc; simpl; by rewrite <- app_assoc).
    apply drop_app_length'. rewrite !length_app. simpl. rewrite length_app. simpl. lia. }
  assert (take f (a ++ y :: b ++ x :: c) = a ++ y :: b) as Ef.
  { replace (a ++ y :: b ++ x :: c) with ((a ++ y :: b) ++ x :: c) by (by rewrite <- app_assoc).
    apply take_app_length'. rewrite length_app. simpl. lia. }
  unfold moved. cbv zeta. rewrite Ea, Et, Eb, Ec, Ef, <- !app_assoc.
  rewrite insert_app_r_alt by lia. replace (t - length a)%nat with O by lia. rewrite take_app_length', drop_app_length' by done. done.
Qed.

Lemma reorderWindow_spec from to s :
  let n := lenZ (Windows s) in
  let '(s', ok) := reorderWindow from to s in
  if bool_decide (1 <= from <= n /\ 1 <= to <= n /\ from <> to) then
    ok = true /\ exists w, Windows s !! Z.to_nat (from - 1) = Some w /\
      s' = withWindows (moved (Z.to_nat (from - 1)) (Z.to_nat (to - 1)) w (Windows s)) s
  else ok = false /\ s' = s.
Proof.
  cbv zeta. unfold reorderWindow.
  destruct (bool_decide _) eqn:Eb; [apply bool_decide_eq_true in Eb|apply bool_decide_eq_false in Eb].
  2:{ assert ((from <? 1) || (lenZ (Windows s) <? from) || (to <? 1) || (lenZ (Windows s) <? to) || (from =? to) = true) as ->; [|done].
      destruct (Z.ltb_spec from 1), (Z.ltb_spec (lenZ (Windows s)) from), (Z.ltb_spec to 1),
        (Z.ltb_spec (lenZ (Windows s)) to), (Z.eqb_spec from to); try done. destruct Eb. lia. }
  assert ((from <? 1) || (lenZ (Windows s) <? from) || (to <? 1) || (lenZ (Windows s) <? to) || (from =? to) = false) as ->.
  { destruct (Z.ltb_spec from 1), (Z.ltb_spec (lenZ (Windows s)) from), (Z.ltb_spec to 1),
      (Z.ltb_spec (lenZ (Windows s)) to), (Z.eqb_spec from to); try done; lia. }
  unfold lenZ in Eb. replace (Z.to_nat from - 1)%nat with (Z.to_nat (from - 1)) by lia.
  replace (Z.to_nat to - 1)%nat with (Z.to_nat (to - 1)) by lia.
  set (f := Z.to_nat (from - 1)). set (t := Z.to_nat (to - 1)).
  replace (Z.to_nat from) with (S f) by lia. replace (Z.to_nat to) with (S t) by lia.
  destruct (lookup_lt_is_Some_2 (Windows s) f) as [w Hw]; [lia|]. rewrite Hw. split; [done|].
  exists w. split; [done|]. f_equal.
  destruct (Z.ltb_spec from to).
  - destruct (split_at (Windows s) f) as (a & x & r & E & Ha); [lia|].
    destruct (split_at r (t - S f)) as (b & y & c & -> & Hb);
      [apply (f_equal length) in E; rewrite length_app in E; simpl in E; lia|].
    rewrite E in *. rewrite lookup_app_r, Ha, Nat.sub_diag in Hw by lia. injection Hw as <-.
    replace (S t - S f)%nat with (t - f)%nat by lia. apply reorder_down; lia.
  - destruct (split_at (Windows s) t) as (a & y & r & E & Ha); [lia|].
    destruct (split_at r (f - S t)) as (b & x & c & -> & Hb);
      [apply (f_equal length) in E; rewrite length_app in E; simpl in E; lia|].
    rewrite E in *. rewrite lookup_app_r in Hw by lia.
    replace (f - length a)%nat with (S (length b)) in Hw by lia. simpl in Hw.
    rewrite lookup_app_r, Nat.sub_diag in Hw by lia. injection Hw as <-.
    replace (S f - S t)%nat with (f - t)%nat by lia. apply reorder_up; lia.
Qed.

Lemma moved_Permutation {A} (l : list A) f t x : l !! f = Some x -> moved f t x l ≡ₚ l.
Proof.
  intros Hx. unfold moved. cbv zeta. rewrite <- Permutation_middle, take_drop.
  rewrite <- (take_drop_middle l f x Hx) at 3. apply Permutation_middle.
Qed.

#[export] Instance shownIn_Proper : Proper ((≡ₚ) ==> (≡ₚ)) shownIn.
Proof.
  induction 1 as [|sw ws1 ws2 _ IH|sw1 sw2 ws|ws1 ws2 ws3 _ IH1 _ IH2]; [done|..]; rewrite ?shownIn_cons.
  - by rewrite IH.
  - rewrite !app_assoc. f_equiv. apply Permutation_app_comm.
  - by rewrite IH1.
Qed.

Lemma WindowsInv_perm n ws ws' : ws ≡ₚ ws' -> WindowsInv n ws -> WindowsInv n ws'.
Proof.
  intros HP [H1 H2 H3 H4].
  constructor; [|by rewrite <- HP|by rewrite <- HP|by rewrite <- HP]. by rewrite <- (Permutation_map _ HP).
Qed.

Lemma reorderWindow_inv from to s : SessionInv s -> SessionInv (reorderWindow from to s).1.
Proof.
  intros Hi. pose proof (reorderWindow_spec from to s) as H. cbv zeta in H.
  destruct (reorderWindow from to s) as [s' ok]. destruct (bool_decide _); [|by destruct H as [_ ->]].
  destruct H as (_ & w & Hw & ->). cbn [fst].
  pose proof (moved_Permutation _ _ (Z.to_nat (to - 1)) _ Hw) as HP.
  pose proof Hi as (Hp & [Hw1 Hw2 Hw3] & Hl)%SessionInv_split. apply SessionInv_split.
  assert (shown (withWindows (moved (Z.to_nat (from - 1)) (Z.to_nat (to - 1)) w (Windows s)) s) ≡ₚ shown s) as Hs.
  { unfold shown. cbn [Windows withWindows]. by rewrite HP. }
  split_and!; [by destruct Hp| |].
  - constructor; simpl; [by apply (WindowsInv_perm _ (Windows s))|done|].
    destruct Hw3 as [E|Hin]; [left; rewrite E in *; by destruct (Z.to_nat (from - 1))|right].
    rewrite (Permutation_map _ HP). done.
  - intros x. rewrite Hs. apply Hl.
Qed.

Lemma PaneInv_fire t s : SessionInv s -> SessionInv (fire t s).
Proof.
  intros Hi. pose proof (fire_panes t s (si_panes _ Hi)) as Hp. apply (SessionInv_frame s); auto;
    unfold fire; by destruct (fireTimer t (undo s)) as [[u ev]|].
Qed.

Lemma sessionBeginCleanup_inv ok id s : SessionInv s -> SessionInv (sessionBeginCleanup ok id s).1.
Proof.
  intros Hi. unfold sessionBeginCleanup, liftUndo.
  destruct (beginPaneCleanupKill_ok (queue s) ok id (undo s)) as [Hu Ec]; [apply Hi|].
  destruct (beginPaneCleanupKill ok id (undo s)) as [u r]. cbn [fst] in *.
  apply (SessionInv_frame s); auto. destruct (si_panes s Hi) as [H1 H2 _]. by constructor; simpl; rewrite ?Ec.
Qed.

Lemma enqueueEvent_inv ev s : SessionInv s -> SessionInv (enqueueEvent ev s).
Proof.
  intros Hi. apply (SessionInv_frame s); auto. apply PaneInv_queue; [apply Hi|].
  intros id Hq _. apply elem_of_app. by left.
Qed.

Lemma sstep_inv s s' : SessionInv s -> sstep s s' -> SessionInv s'.
Proof.
  intros Hi Hst. inversion Hst; subst; clear Hst.
  - match goal with H : Windows s <> [] |- _ => rename H into Hne end.
    pose proof (newWindow_ok nameOf name p s) as HO. destruct (newWindow nameOf name p s) as [s1 [id|e]]; cbn [fst].
    + by destruct HO as (? & _).
    + by destruct HO as [_ ?].
  - match goal with |- SessionInv (insertPreparedPaneIntoActiveWindow ?a ?b ?c ?d s).1 =>
      pose proof (insertPrepared_ok a b c d s) as HO; destruct (insertPreparedPaneIntoActiveWindow a b c d s) as [s1 r] end.
    by destruct HO as [? _].
  - pose proof (preparePane_ok p s) as HO. destruct (preparePane p s) as [s1 id]. by destruct HO as [? _].
  - pose proof (softClosePane_ok id s) as HO. destruct (softClosePane id s) as [s1 r]. by destruct HO as [? _].
  - pose proof (undoClosePane_ok s Hi) as HO. destruct (undoClosePane s) as [s1 r]. by destruct HO as [? _].
  - by apply sessionBeginCleanup_inv.
  - by apply enqueueEvent_inv.
  - by apply PaneInv_fire.
  - by apply handleNext_ok.
  - by apply stepWindow_inv.
  - by apply stepWindow_inv.
  - by apply lastWindow_inv.
  - match goal with H : sw ∈ Windows s |- _ => destruct (activateWindow_inv s sw Hi H) as [? _]; [|done] end.
    match goal with HF : allFit s |- _ => by apply (proj1 (Forall_forall _ _) HF) end.
  - by apply reorderWindow_inv.
  - pose proof (movePaneToWindow_ok id wid s) as HO. destruct (movePaneToWindow id wid s) as [s1 r].
    by destruct HO as [? _].
  - match goal with H : sw ∈ Windows s |- _ => apply list_elem_of_split in H as (ws1 & ws2 & E) end.
    by destruct (windowCommand_ok s ws1 sw ws2 w' Hi E) as [? _].
Qed.

Lemma sstep_reach s s' : SessionInv s -> rtc sstep s s' -> SessionInv s'.
Proof. intros Hi. induction 1 as [|s1 s2 s3 H _ IH]; [done|]. apply IH. by eapply sstep_inv. Qed.

(** A first window in a session that has none. *)
Lemma firstWindow_ok nameOf p cols rows s :
  SessionInv s -> Windows s = [] -> ptyFails p = false -> 0 <= counter s -> counter s + 1 < 2 ^ 32 ->
  0 <= windowCounter s -> windowCounter s + 1 < 2 ^ 32 ->
  PaneMinSize <= cols -> PaneMinSize <= rows - GlobalBarHeight ->
  let s' := firstWindow nameOf p cols rows s in
  SessionInv s' /\ shown s' = [counter s + 1] /\ PaneIDs s' = PaneIDs s ++ [counter s + 1].
Proof.
  intros Hi E Hp H0 Hc Hw0 Hwc HW HH. cbv zeta. unfold firstWindow.
  pose proof (preparePane_ok p s Hi Hp H0 Hc) as HO. destruct (preparePane p s) as [s1 id].
  destruct HO as (Hi1 & -> & EC & EP & EW & EA & EN & Hn & EE). rewrite EN, (Z.mod_small (windowCounter s + 1)) by lia.
  split_and!; [|unfold shown; simpl; by rewrite EW, E|done].
  pose proof Hi1 as (Hp1 & Hw1 & Hl1)%SessionInv_split. apply SessionInv_split. split_and!.
  - destruct Hp1. by constructor.
  - constructor; simpl; rewrite ?EW, ?E; simpl; [|apply Hw1|right; apply list_elem_of_here].
    constructor; [apply NoDup_singleton|apply Forall_singleton; simpl; lia| |apply NoDup_singleton].
    apply Forall_singleton. constructor; simpl; [done| | |by left|right; apply list_elem_of_here].
    + unfold treeOk. split_and!; try done; [by constructor|apply NoDup_singleton|apply Forall_singleton; simpl; lia].
    + exists (counter s + 1). split; [done|]. apply list_elem_of_here.
  - unfold shown. simpl. rewrite EW, E, EP. simpl. intros x ->%list_elem_of_singleton.
    apply elem_of_app. right. apply list_elem_of_here.
Qed.

Lemma newSession_inv eff : SessionInv (newSession eff).
Proof.
  constructor; simpl; [| |by left|apply map_Forall_empty|intros id Hid; by apply elem_of_nil in Hid].
  - constructor; simpl; [constructor|constructor|apply newUndoManager_inv].
  - constructor; simpl; constructor.
Qed.

(** The state after the first client attached to an empty session. *)
Lemma ensureInitialWindow_new nameOf dormant p cols rows eff :
  ensureInitialWindow nameOf dormant p cols rows (newSession eff) =
  (firstWindow nameOf p cols rows (newSession eff), Ok true).
Proof. reflexivity. Qed.
