(* ===== verification/SessionProps.v ===== *)
(** * Properties of sessions

    Where panes can be, that soft-closed panes come back or go away, and what
    happens when restoring or moving a pane fails. *)

From stdpp Require Import gmap.
From S2P Require Import Prelude LayoutSizes LayoutTree LayoutFacts LayoutEdit.
From S2P Require Import WindowState Ultra WindowOps WindowResize WindowFacts WindowMoves WindowSizing WindowSteps.
From S2P Require Import Undo Session SessionFacts SessionSteps.

(** ** Concrete sessions *)

Definition samplePane : PaneState := mkPaneState 80 22 0 false "local" false.
Definition sampleName (_ : Z) : string := "window"%string.
Definition startSession : Session := firstWindow sampleName samplePane 80 25 (newSession None).

Lemma startSession_inv : SessionInv startSession.
Proof. apply firstWindow_ok; try done; apply newSession_inv. Qed.

(** ** Where the panes are *)

(** C2. In every session whose windows are in the classic layout and whose
    terminals accept every resize, after its first window and any sequence of new
    windows and panes, insertions, soft closes and restores, kills with a grace
    period, pane exits, timers and the events they queue, window switches and
    reorderings, moves of a pane between windows, and operations inside one window
    that keep its panes (those of [wstep], lead changes included), a pane is in at
    most one place: in one cell of one window, in the session's list without a
    window, or on the stack of closed panes; every pane of a window is in the
    session's list, every window's layout is in order, windows have distinct IDs
    and the active window exists.  The steps ([sstep]) are taken where a resize
    finds a terminal at least as large as the layout's minimum and where columns
    that are made equal beside an anchored lead have room for their panes; ID
    counters do not wrap.  Windows mirrored from or spliced with another host and
    the ultra layout are not among these sessions. *)
Theorem session_reachable nameOf p cols rows eff s :
  ptyFails p = false -> PaneMinSize <= cols -> PaneMinSize <= rows - GlobalBarHeight ->
  rtc sstep (firstWindow nameOf p cols rows (newSession eff)) s ->
  NoDup (shown s ++ closedPanes (undo s)) /\ NoDup (PaneIDs s ++ closedPanes (undo s)) /\
  shown s ⊆ PaneIDs s /\ Forall (fun sw => WindowInv (wWin sw)) (Windows s) /\
  NoDup (map wID (Windows s)) /\
  (Windows s = [] \/ exists sw, activeWindow s = Some sw /\ wID sw = ActiveWindowID s).
Proof.
  intros Hp HW HH Hr.
  destruct (firstWindow_ok nameOf p cols rows (newSession eff)) as [Hi _]; try done; [apply newSession_inv|].
  destruct (sstep_reach _ _ Hi Hr) as [[H1 _ _] [Hd _ Hw Hn] Ha _ Hl]. split_and!; try done.
  - apply NoDup_app in H1 as (_ & H1 & H2). apply NoDup_app. split_and!; [done| |done].
    intros x Hx%Hl. by apply H1.
  - destruct Ha as [?|Ha]; [by left|right]. apply list_elem_of_fmap in Ha as (sw & E & Hin).
    apply list_elem_of_split in Hin as (ws1 & ws2 & EW). exists sw. split; [|done].
    unfold activeWindow. by rewrite E, (windowByID_mid s ws1 sw ws2 Hd EW).
Qed.

Definition calmb (s : Session) : bool :=
  forallb (fun sw => negb (hasAnchoredLead (wWin sw)) || anchoredLeadColumnsWidthChanged (wWin sw)) (Windows s).
Lemma calm_check s : effectiveSize s = None -> calmb s = true -> calm s.
Proof.
  intros Es H. apply Forall_forall. intros sw Hin. unfold calmb in H. rewrite forallb_forall in H.
  specialize (H sw ltac:(by apply list_elem_of_In)). split; [|unfold fitsClient; by rewrite Es].
  intros id. left. apply orb_true_iff in H as [H|H]; [left; by apply negb_true_iff|by right].
Qed.
Lemma preparePane_calm p s : calm s -> calm (preparePane p s).1.
Proof. by apply calm_frame. Qed.
Lemma firstWindow_calm nameOf p cols rows s : Windows s = [] -> effectiveSize s = None ->
  calm (firstWindow nameOf p cols rows s).
Proof.
  intros E Es. unfold calm, fitsClient, firstWindow, preparePane. cbn [Windows withActive withWindows withCounters
    call withPaneIDs withStore effectiveSize]. rewrite E, Es. apply Forall_singleton. split; [intros id; left; left|done].
  unfold hasAnchoredLead. apply andb_false_r.
Qed.

Lemma session_reachable_witness :
  let s := (softClosePane 1 (preparePane samplePane startSession).1).1 in
  NoDup (shown s ++ closedPanes (undo s)) /\ NoDup (PaneIDs s ++ closedPanes (undo s)) /\
  shown s ⊆ PaneIDs s /\ Forall (fun sw => WindowInv (wWin sw)) (Windows s) /\
  NoDup (map wID (Windows s)) /\
  (Windows s = [] \/ exists sw, activeWindow s = Some sw /\ wID sw = ActiveWindowID s).
Proof.
  apply (session_reachable sampleName samplePane 80 25 None); [done..|].
  eapply rtc_l; [apply (ss_prepare samplePane); done|]. eapply rtc_l; [|apply rtc_refl].
  apply ss_softClose. by apply preparePane_calm, firstWindow_calm.
Defined.

(** ** Soft-closed panes *)

(** C28. No soft-closed pane outlives its grace period: from every state that a
    session reaches by the steps of [sstep] (classic layout, terminals that accept
    every resize, closes and window switches where the layouts have room), with the
    event loop running, timers can fire and events be handled only finitely often
    (at most twice per armed timer and once per queued event), and whatever the
    order in which they are, when no timer is armed and no event queued the stack
    is empty. *)
Theorem closed_panes_drain nameOf p cols rows eff s :
  ptyFails p = false -> PaneMinSize <= cols -> PaneMinSize <= rows - GlobalBarHeight ->
  rtc sstep (firstWindow nameOf p cols rows (newSession eff)) s -> shutdown s = false ->
  (forall n s', nsteps tick n s s' -> (n <= pendingWork s)%nat) /\
  forall s', rtc tick s s' -> (forall s'', ~ tick s' s'') -> closedPanes (undo s') = [].
Proof.
  intros Hp HW HH Hr Hsd.
  destruct (firstWindow_ok nameOf p cols rows (newSession eff)) as [Hi _]; try done; [apply newSession_inv|].
  pose proof (si_panes _ (sstep_reach _ _ Hi Hr)) as Hpi. split.
  - intros n s' Hn. apply nsteps_pendingWork in Hn. lia.
  - intros s' Ht Hstuck. destruct (tick_reach _ _ Ht Hpi Hsd) as [Hp' _]. by apply settled_no_closed.
Qed.

Lemma closed_panes_drain_witness :
  let s := (softClosePane 1 (preparePane samplePane startSession).1).1 in
  closedPanes (undo s) = [1] /\ closedPanes (undo (handleNext (fire 0 s))) = [].
Proof.
  intros s. split; [by vm_compute|].
  destruct (closed_panes_drain sampleName samplePane 80 25 None s) as [_ H]; [done..| |by vm_compute|].
  { eapply rtc_l; [apply (ss_prepare samplePane); done|]. eapply rtc_l; [|apply rtc_refl].
    apply ss_softClose. by apply preparePane_calm, firstWindow_calm. }
  apply H.
  - eapply rtc_l; [apply (tick_fire 0); vm_compute; by eexists|].
    eapply rtc_l; [apply tick_event; by vm_compute|apply rtc_refl].
  - intros s'' Ht. inversion Ht as [t ? Hs|? Hq]; [|apply Hq; by vm_compute].
    assert (armed (undo (handleNext (fire 0 s))) = ∅) as E by (by vm_compute).
    rewrite E, lookup_empty in Hs. by destruct Hs.
Defined.

(** Closing a pane with undo and restoring it at once: when the active window
    takes the pane back, the session has the same panes as before, all of them
    shown again, and the same stack of closed panes. *)
Theorem soft_close_undo id s s' r :
  SessionInv s -> calm s -> id ∈ shown s -> 1 < lenZ (PaneIDs s) ->
  undoClosePane (softClosePane id s).1 = (s', Ok r) ->
  r = id /\ PaneIDs s' ≡ₚ PaneIDs s /\ shown s' ≡ₚ shown s /\ closedPanes (undo s') = closedPanes (undo s) /\
  queue s' = queue s /\ SessionInv s'.
Proof.
  intros Hi Hc Hid Hlen Hu. pose proof (si_listed s Hi id Hid) as Hl.
  pose proof (softClosePane_ok id s Hi Hc) as H. pose proof (softClosePane_panes id s (si_panes s Hi)) as HP.
  destruct (softClosePane id s) as [s1 r1]. cbn [fst] in Hu. destruct H as (Hi1 & H & _).
  destruct (H Hl) as (HPI & Hsh & EC). specialize (Hsh Hid). destruct HP as (_ & Eq & _).
  destruct (Z.leb_spec (lenZ (PaneIDs s)) 1); [lia|].
  pose proof (undoClosePane_ok s1 Hi1) as H'. pose proof (undoClosePane_queue s1) as Hq.
  rewrite Hu in *. cbn [fst] in Hq. destruct H' as (Hi' & l & E1 & E2 & E3 & E4).
  rewrite EC in E1. apply app_inj_tail in E1 as [<- <-].
  split_and!; try done; [|by rewrite E4, Hsh|congruence].
  rewrite E3, HPI. symmetry. apply Permutation_cons_append.
Qed.

(** Two panes side by side: pane 1 is the lead and pane 2 has the focus. *)
Definition sampleBase (n : Z) (s : Session) : Session :=
  withStore (<[n := samplePane]> (store s)) (pointCounter s) (withCounters (windowCounter s) n s).
Definition leadSession : Session :=
  (insertPreparedPaneIntoActiveWindow 2 SplitVertical false false (sampleBase 2 startSession)).1.

Lemma sampleBase_inv n s : SessionInv s -> counter s <= n -> SessionInv (sampleBase n s).
Proof.
  intros [[H1 H2 H3] Hw Ha Hst Hl] Hn. constructor; simpl; try done.
  - constructor; simpl; [done| |done]. eapply Forall_impl; [exact H2|]. simpl. lia.
  - by apply map_Forall_insert_2.
Qed.

Lemma insertPrepared_inv pane dir s : SessionInv s -> 0 < pane <= counter s ->
  pane ∉ PaneIDs s ++ closedPanes (undo s) ->
  SessionInv (insertPreparedPaneIntoActiveWindow pane dir false false s).1.
Proof.
  intros Hi H1 H2. pose proof (insertPrepared_ok pane dir false false s Hi H1 H2 ltac:(done)) as H.
  destruct (insertPreparedPaneIntoActiveWindow _ _ _ _ s). by destruct H.
Qed.

Lemma leadSession_inv : SessionInv leadSession.
Proof.
  apply insertPrepared_inv; [apply sampleBase_inv; [apply startSession_inv|by vm_compute]|by vm_compute|].
  apply (bool_decide_unpack _). by vm_compute.
Qed.

Lemma soft_close_undo_witness :
  SessionInv leadSession /\
  let s' := (undoClosePane (softClosePane 2 leadSession).1).1 in
  PaneIDs s' ≡ₚ PaneIDs leadSession /\ shown s' ≡ₚ shown leadSession /\ closedPanes (undo s') = [].
Proof.
  split; [apply leadSession_inv|]. intros s'.
  destruct (soft_close_undo 2 leadSession s' 2) as (_ & H1 & H2 & H3 & _).
  - apply leadSession_inv.
  - apply calm_check; by vm_compute.
  - apply (bool_decide_unpack _). by vm_compute.
  - by vm_compute.
  - assert ((undoClosePane (softClosePane 2 leadSession).1).2 = Ok 2) as <- by (by vm_compute).
    apply surjective_pairing.
  - split_and!; [exact H1|exact H2|]. rewrite H3. by vm_compute.
Defined.


(** Three panes: the lead, and two panes one above the other beside it; then the
    focus goes to the lead and the last pane is closed. *)
Definition threeSession : Session :=
  (insertPreparedPaneIntoActiveWindow 3 SplitHorizontal false false (sampleBase 3 leadSession)).1.
Definition focusIn (id : Z) (s : Session) : Session :=
  match activeWindow s with Some w => saveWindow (wID w) (FocusPane id (loaded s (wWin w))) s | None => s end.
Definition leadFocused : Session := focusIn 1 (softClosePane 3 threeSession).1.



(** An undo while the lead pane has the focus loses the pane. *)
Theorem undo_on_lead_loses_pane :
  closedPanes (undo leadFocused) = [3] /\
  (undoClosePane leadFocused).2 = Err (errWindow errLeadPane) /\
  closedPanes (undo (undoClosePane leadFocused).1) = [] /\
  PaneIDs (undoClosePane leadFocused).1 = [1; 2; 3] /\ shown (undoClosePane leadFocused).1 = [1; 2].
Proof. split_and!; by vm_compute. Qed.

(** An expiry that is still queued when its pane is restored and closed again
    ends the new grace period at once: its timer is armed when the pane is
    finally closed. *)
Theorem stale_expiry_closes_pane :
  let fired := fire 0 (softClosePane 2 leadSession).1 in
  let again := (softClosePane 2 (undoClosePane fired).1).1 in
  closedPanes (undo again) = [2] /\ armed (undo again) !! 1%nat = Some (undoExpiryEvent 2) /\
  closedPanes (undo (handleNext again)) = [] /\ last (calls (handleNext again)) = Some (ClosePaneAsync 2).
Proof. split_and!; by vm_compute. Qed.

(** ** Moving panes between windows *)

(** movePaneToWindow moves a pane and loses none, unless the target window
    refuses it: then the pane is gone from its own window and in no other.  The
    session's list of panes is the same on every outcome, and an unknown pane
    or window changes nothing. *)
Theorem movePaneToWindow_correct id wid s :
  SessionInv s ->
  (forall sw, findWindowByPaneID id s = Some sw -> closeFits id (wWin sw)) ->
  (forall sw, windowByID wid s = Some sw -> rootSplitFits SplitVertical id (wWin sw) /\
     forall cols h, effectiveSize s = Some (cols, h) -> Width (wWin sw) <= cols /\ Height (wWin sw) <= h) ->
  let '(s', r) := movePaneToWindow id wid s in
  SessionInv s' /\ PaneIDs s' = PaneIDs s /\
  match r with
  | Ok _ => shown s' ≡ₚ shown s
  | Err (errWindow _) => shown s ≡ₚ id :: shown s' /\ (id ∉ shown s')
  | Err _ => s' = s
  end.
Proof.
  intros Hi H1 H2. pose proof (movePaneToWindow_ok id wid s Hi H1 H2) as H.
  destruct (movePaneToWindow id wid s) as [s' r]. destruct H as (Hi' & EP & H). split_and!; [done|done|].
  destruct r as [|e]; [done|]. destruct e; try done. split; [done|].
  pose proof (wi_panes _ _ (si_windows s Hi)) as Hnd. fold (shown s) in Hnd. rewrite H in Hnd.
  by apply NoDup_cons in Hnd as [? _].
Qed.

(** A session with one more window, of one pane. *)
Definition addWindow (cols rows : Z) (s : Session) : Session :=
  let id := counter s + 1 in
  let win := bare (NewWindow id cols rows ∅ 0) in
  withWindows (Windows s ++ [mkSWindow (windowCounter s + 1) "narrow" win])
    (withPaneIDs (PaneIDs s ++ [id]) (withCounters (windowCounter s + 1) id s)).

Lemma addWindow_inv cols rows s : SessionInv s -> Windows s <> [] -> 0 <= counter s -> 0 <= windowCounter s ->
  PaneMinSize <= cols -> PaneMinSize <= rows -> SessionInv (addWindow cols rows s).
Proof.
  intros [[H1 H2 H3] [Hd Hk Hv Hn] Ha Hst Hl] Hne H0 Hw0 HW HH. unfold addWindow. cbv zeta.
  set (sw := mkSWindow _ _ _).
  assert (counter s + 1 ∉ PaneIDs s ++ closedPanes (undo s)) as Hnew.
  { intros Hin. pose proof (proj1 (Forall_forall _ _) H2 _ Hin) as Hb. cbv beta in Hb. lia. }
  assert ((PaneIDs s ++ [counter s + 1]) ++ closedPanes (undo s) ≡ₚ (counter s + 1) :: PaneIDs s ++ closedPanes (undo s)) as HP
    by (rewrite <- app_assoc; symmetry; apply Permutation_middle).
  constructor; cbn [PaneIDs undo withWindows withPaneIDs withCounters Windows ActiveWindowID windowCounter store].
  - constructor; cbn [PaneIDs undo withWindows withPaneIDs withCounters counter queue]; [rewrite HP; by constructor| |exact H3].
    rewrite HP. constructor; [lia|]. eapply Forall_impl; [exact H2|]. simpl. lia.
  - constructor.
    + rewrite map_app. apply NoDup_app. split_and!; [done| |apply NoDup_singleton].
      intros x (y & Ex & Hy)%list_elem_of_fmap Hx%list_elem_of_singleton. simpl in Hx.
      pose proof (proj1 (Forall_forall _ _) Hk _ Hy) as Hb. cbv beta in Hb. lia.
    + apply Forall_app. split; [|apply Forall_singleton; simpl; lia].
      eapply Forall_impl; [exact Hk|]. simpl. lia.
    + apply Forall_app. split; [done|]. apply Forall_singleton. constructor; simpl; [done| | |by left|by left].
      * unfold treeOk. split_and!; try done; [by constructor|apply NoDup_singleton|apply Forall_singleton; simpl; lia].
      * exists (counter s + 1). split; [done|]. apply list_elem_of_here.
    + rewrite shownIn_app. apply NoDup_app. split_and!; [done| |apply NoDup_singleton].
      intros x Hx%Hl ->%list_elem_of_singleton. apply Hnew, elem_of_app. by left.
  - right. rewrite map_app. apply elem_of_app. left. by destruct Ha.
  - done.
  - intros x. unfold shown. cbn [Windows withWindows]. rewrite shownIn_app, !elem_of_app.
    intros [Hx|Hx]; [left; by apply Hl|by right].
Qed.

(** Window 1 with panes 1 and 2, and a window 2 with pane 3. *)
Definition twoWindows (cols : Z) : Session := addWindow cols 4 leadSession.

Lemma twoWindows_inv cols : PaneMinSize <= cols -> SessionInv (twoWindows cols).
Proof. intros Hc. by apply addWindow_inv; [apply leadSession_inv|vm_compute..| |]. Qed.

Lemma twoWindows_noEqualize sw : findWindowByPaneID 2 (twoWindows 9) = Some sw -> closeFits 2 (wWin sw).
Proof.
  assert (calm (twoWindows 9)) as Hc by (apply calm_check; by vm_compute).
  intros Hf. destruct (findWindowByPaneID_Some _ _ _ _ (si_windows _ (twoWindows_inv 9 ltac:(done))) Hf)
    as (_ & ws1 & ws2 & E). exact (proj1 (calm_mid _ _ _ _ Hc E) 2).
Qed.
Lemma twoWindows_target sw : windowByID 2 (twoWindows 9) = Some sw -> rootSplitFits SplitVertical 2 (wWin sw) /\
  forall cols h, effectiveSize (twoWindows 9) = Some (cols, h) -> Width (wWin sw) <= cols /\ Height (wWin sw) <= h.
Proof.
  assert (hasAnchoredLead <$> (wWin <$> windowByID 2 (twoWindows 9)) = Some false) as Hl by (by vm_compute).
  assert (effectiveSize (twoWindows 9) = None) as Es by (by vm_compute).
  intros E. rewrite E in Hl. rewrite Es. simpl in Hl. split; [|done].
  apply splitAtFits_intro. right. congruence.
Qed.

Lemma movePaneToWindow_correct_witness :
  let '(s', r) := movePaneToWindow 2 2 (twoWindows 9) in
  SessionInv s' /\ PaneIDs s' = PaneIDs (twoWindows 9) /\
  match r with
  | Ok _ => shown s' ≡ₚ shown (twoWindows 9)
  | Err (errWindow _) => shown (twoWindows 9) ≡ₚ 2 :: shown s' /\ (2 ∉ shown s')
  | Err _ => s' = twoWindows 9
  end.
Proof.
  exact (movePaneToWindow_correct 2 2 (twoWindows 9) (twoWindows_inv 9 ltac:(done))
           twoWindows_noEqualize twoWindows_target).
Defined.

(** ** The list of windows *)

(** reorderWindow from to moves the window at the 1-based position [from] to
    the position [to] and keeps the order of the others; it reports false and
    changes nothing when a position is out of range or they are equal. *)
Theorem reorderWindow_correct from to s :
  let n := lenZ (Windows s) in
  let '(s', ok) := reorderWindow from to s in
  (ok = true <-> 1 <= from <= n /\ 1 <= to <= n /\ from <> to) /\
  (ok = false -> s' = s) /\
  (ok = true -> s' = withWindows (Windows s') s /\ Windows s' ≡ₚ Windows s /\
     Windows s' !! Z.to_nat (to - 1) = Windows s !! Z.to_nat (from - 1) /\
     delete (Z.to_nat (to - 1)) (Windows s') = delete (Z.to_nat (from - 1)) (Windows s)).
Proof.
  cbv zeta. pose proof (reorderWindow_spec from to s) as H. cbv zeta in H.
  destruct (reorderWindow from to s) as [s' ok].
  destruct (bool_decide _) eqn:Eb; [apply bool_decide_eq_true in Eb|apply bool_decide_eq_false in Eb].
  2:{ destruct H as [-> ->]. done. }
  destruct H as (-> & w & Hw & ->). split_and!; [done|done|]. intros _. cbn [Windows withWindows].
  split_and!; [done|by apply moved_Permutation|..].
  - rewrite Hw. unfold moved. cbv zeta. unfold lenZ in Eb.
    rewrite lookup_app_r by (rewrite length_take; lia).
    rewrite length_take, Nat.min_l by (rewrite length_app, length_take, length_drop; lia). by rewrite Nat.sub_diag.
  - unfold lenZ in Eb. apply delete_moved; lia.
Qed.

(** Switching to another window and back: lastWindow returns to the window that
    was active before, which then has the other as its previous window. *)
Theorem lastWindow_toggles sw s :
  SessionInv s -> allFit s -> sw ∈ Windows s -> wID sw <> ActiveWindowID s ->
  let s1 := activateWindow sw s in
  let '(s2, ok) := lastWindow s1 in
  ActiveWindowID s1 = wID sw /\ ok = true /\ ActiveWindowID s2 = ActiveWindowID s /\
  PreviousWindowID s2 = wID sw /\ shown s2 = shown s.
Proof.
  intros Hi Hf Hin Hne s1.
  pose proof Hi as (_ & [Hw _ Ha] & _)%SessionInv_split. pose proof Hw as [Hd Hk _ _].
  destruct Ha as [Ha|Ha]; [rewrite Ha in Hin; by apply elem_of_nil in Hin|].
  assert (0 < ActiveWindowID s) as Hpos.
  { apply list_elem_of_fmap in Ha as (w & -> & Hwin).
    pose proof (proj1 (Forall_forall _ _) Hk _ Hwin) as Hb. cbv beta in Hb. lia. }
  assert (0 < wID sw) as Hpos2 by (pose proof (proj1 (Forall_forall _ _) Hk _ Hin) as Hb; cbv beta in Hb; lia).
  apply list_elem_of_split in Hin as (ws1 & ws2 & E).
  pose proof (proj1 (Forall_forall _ _) Hf) as Hfit.
  assert (sw ∈ Windows s) as Hin by (rewrite E; apply elem_of_app; right; apply list_elem_of_here).
  destruct (activateWindow_ok s ws1 sw ws2 Hw) as (_ & _ & w' & EW & _); [apply Hi|done|by apply Hfit|].
  destruct (activateWindow_inv s sw Hi Hin) as (Hi1 & EA1 & Esh1 & Eids); [by apply Hfit|].
  pose proof (activateWindow_previous sw s) as EP. pose proof (activateWindow_same sw s) as Hs.
  fold s1 in EW, Hi1, EA1, Esh1, Eids, EP, Hs. specialize (EP ltac:(lia) ltac:(done) Ha).
  unfold lastWindow, previousWindow. rewrite EP, EA1.
  destruct (Z.eqb_spec (ActiveWindowID s) 0); [lia|]. destruct (Z.eqb_spec (ActiveWindowID s) (wID sw)); [congruence|]. simpl.
  destruct (windowByID_in (ActiveWindowID s) s1) as (w & Ew & Hwin); [by rewrite Eids|]. rewrite Ew.
  destruct (windowByID_Some _ _ _ Ew) as [Eid _].
  assert (w ∈ Windows s) as Hwin0.
  { rewrite EW in Hwin. rewrite E. apply elem_of_app in Hwin as [?|Hwin]; [apply elem_of_app; by left|].
    apply elem_of_cons in Hwin as [->|?]; [done|]. apply elem_of_app. right. by apply list_elem_of_further. }
  destruct (activateWindow_inv s1 w Hi1 Hwin) as (_ & EA2 & Esh2 & _).
  { unfold fitsClient. destruct Hs as (_ & _ & _ & _ & _ & _ & _ & ->). by apply Hfit. }
  pose proof (activateWindow_previous w s1) as EP2. rewrite EA1, Eid in EP2.
  split_and!; [done|done|congruence| |congruence].
  apply EP2; [lia|done|]. rewrite Eids. by apply list_elem_of_fmap_2.
Qed.

Lemma allFit_none s : effectiveSize s = None -> allFit s.
Proof. intros E. apply Forall_forall. intros sw _. unfold fitsClient. by rewrite E. Qed.

Lemma lastWindow_toggles_witness :
  exists sw, sw ∈ Windows (twoWindows 9) /\ wID sw = 2 /\
    let '(s2, ok) := lastWindow (activateWindow sw (twoWindows 9)) in
    ok = true /\ ActiveWindowID s2 = ActiveWindowID (twoWindows 9).
Proof.
  assert (bool_decide (2 ∈ map wID (Windows (twoWindows 9))) = true) as Hb by (by vm_compute).
  assert (ActiveWindowID (twoWindows 9) = 1) as Ha by (by vm_compute).
  assert (effectiveSize (twoWindows 9) = None) as Es by (by vm_compute).
  apply bool_decide_eq_true in Hb. destruct (windowByID_in _ _ Hb) as (sw & Ew & Hin).
  destruct (windowByID_Some _ _ _ Ew) as [E2 _]. exists sw. split; [exact Hin|]. split; [exact E2|].
  pose proof (lastWindow_toggles sw (twoWindows 9) (twoWindows_inv 9 ltac:(done)) (allFit_none _ Es) Hin
    ltac:(rewrite E2, Ha; done)) as H. cbv zeta in H.
  destruct (lastWindow _) as [s2 ok]. destruct H as (_ & H1 & H2 & _). exact (conj H1 H2).
Defined.

(** A move to a window without room: pane 2 leaves window 1 and is in no window. *)
Theorem move_to_full_window_loses_pane :
  (movePaneToWindow 2 2 (twoWindows 4)).2 = Err (errWindow (errRootNoSpace 4 5)) /\
  shown (twoWindows 4) = [1; 2; 3] /\ shown (movePaneToWindow 2 2 (twoWindows 4)).1 = [1; 3] /\
  closedPanes (undo (movePaneToWindow 2 2 (twoWindows 4)).1) = [].
Proof. split_and!; by vm_compute. Qed.

(** A pane that was told to exit and is then soft-closed and restored can not
    be told to exit again: the entry of the first attempt stays although its
    timer has fired. *)
Theorem cleanup_entry_stays :
  let told := (sessionBeginCleanup true 2 leadSession).1 in
  let timedOut := handleNext (fire 0 (softClosePane 2 told).1) in
  let restored := (undoClosePane timedOut).1 in
  shown restored = [1; 2] /\ armed (undo restored) = ∅ /\
  (sessionBeginCleanup true 2 restored).2 = Err (errUndo (errCleanupPending 2)).
Proof. split_and!; by vm_compute. Qed.
