(* ===== verification/GoCodec.v ===== *)
(** * UTF-8, JSON and SHA-256 of Go's standard library

    utf8.Valid and the runes of a string, unicode.IsControl, strings.TrimSpace,
    json.Valid and the size of what json.Marshal writes for a
    map[string]json.RawMessage, and sha256.Sum256, as the mailbox uses them. *)

From S2P Require Import Prelude GoText.

Definition between (lo c hi : Z) : bool := (lo <=? c) && (c <=? hi).

(** ** UTF-8 *)

Definition RuneError : Z := 0xFFFD.

(** utf8.DecodeRune: the rune and its width; [(RuneError, 1)] where the
    encoding is invalid (overlong, a surrogate, above U+10FFFF, truncated). *)
Definition DecodeRune (l : bytes) : Z * nat :=
  let cont c := between 0x80 c 0xBF in
  let bad := (RuneError, 1%nat) in
  match l with
  | [] => (RuneError, 0%nat)
  | b0 :: r =>
      if b0 <? 0x80 then (b0, 1%nat)
      else if between 0xC2 b0 0xDF then
        match r with
        | b1 :: _ => if cont b1 then (Z.lor (Z.shiftl (Z.land b0 0x1F) 6) (Z.land b1 0x3F), 2%nat) else bad
        | _ => bad
        end
      else if between 0xE0 b0 0xEF then
        let lo := if b0 =? 0xE0 then 0xA0 else 0x80 in
        let hi := if b0 =? 0xED then 0x9F else 0xBF in
        match r with
        | b1 :: b2 :: _ =>
            if between lo b1 hi && cont b2
            then (Z.lor (Z.shiftl (Z.land b0 0x0F) 12) (Z.lor (Z.shiftl (Z.land b1 0x3F) 6) (Z.land b2 0x3F)), 3%nat)
            else bad
        | _ => bad
        end
      else if between 0xF0 b0 0xF4 then
        let lo := if b0 =? 0xF0 then 0x90 else 0x80 in
        let hi := if b0 =? 0xF4 then 0x8F else 0xBF in
        match r with
        | b1 :: b2 :: b3 :: _ =>
            if between lo b1 hi && cont b2 && cont b3
            then (Z.lor (Z.shiftl (Z.land b0 0x07) 18) (Z.lor (Z.shiftl (Z.land b1 0x3F) 12)
                   (Z.lor (Z.shiftl (Z.land b2 0x3F) 6) (Z.land b3 0x3F))), 4%nat)
            else bad
        | _ => bad
        end
      else bad
  end.

(** The runes of [for _, r := range s] with their widths; every rune has at
    least one byte, so the length is enough fuel. *)
Fixpoint runesFrom (fuel : nat) (l : bytes) : list (Z * nat) :=
  match fuel, l with
  | S fuel, _ :: _ => DecodeRune l :: runesFrom fuel (drop (snd (DecodeRune l)) l)
  | _, _ => []
  end.
Definition runes (l : bytes) : list (Z * nat) := runesFrom (length l) l.

(** utf8.Valid, utf8.ValidString; a well-encoded U+FFFD has width 3. *)
Definition utf8Valid (l : bytes) : bool :=
  forallb (fun '(r, w) => negb ((r =? RuneError) && (w =? 1)%nat)) (runes l).

(** unicode.IsControl: category Cc. *)
Definition IsControl (r : Z) : bool := between 0 r 0x1F || between 0x7F r 0x9F.

(** The encodings of the runes with the property White_Space. *)
Definition spaceEncodings : list bytes :=
  map (fun c => [c]) [9; 10; 11; 12; 13; 32] ++
  [[0xC2; 0x85]; [0xC2; 0xA0]; [0xE1; 0x9A; 0x80]; [0xE2; 0x80; 0xA8]; [0xE2; 0x80; 0xA9];
   [0xE2; 0x80; 0xAF]; [0xE2; 0x81; 0x9F]; [0xE3; 0x80; 0x80]] ++
  map (fun c => [0xE2; 0x80; 0x80 + c]) (seqZ 0 11).

Fixpoint trimPrefixes (fuel : nat) (ps : list bytes) (l : bytes) : bytes :=
  match fuel with
  | O => l
  | S fuel =>
      match find (fun p => hasPrefix p l) ps with
      | Some p => trimPrefixes fuel ps (drop (length p) l)
      | None => l
      end
  end.
(** strings.TrimSpace: from the left, then from the right. *)
Definition TrimSpace (l : bytes) : bytes :=
  let l := trimPrefixes (length l) spaceEncodings l in
  rev (trimPrefixes (length l) (map (@rev Z) spaceEncodings) (rev l)).

Example TrimSpace_ex :
  TrimSpace ([32; 0xE2; 0x80; 0x83] ++ [97; 32; 98] ++ [0xC2; 0xA0; 10]) = [97; 32; 98].
Proof. reflexivity. Qed.

(** ** encoding/json: the validity of a value *)

(** The states of the scanner; [JU n] wants [n] more hexadecimal digits and
    [JLit l] the rest [l] of true, false or null. *)
Inductive jstate :=
| JBeginValue | JBeginValueOrEmpty | JBeginStringOrEmpty | JBeginString | JEndValue | JEndTop
| JInString | JInStringEsc | JU (n : nat) | JNeg | J0 | J1 | JDot | JDot0 | JE | JESign | JE0
| JLit (l : bytes).
(** What is open around the value: an object before a colon, an object before a
    comma or brace, or an array. *)
Inductive jparse := PObjectKey | PObjectValue | PArrayValue.

Definition maxNestingDepth : nat := Z.to_nat 10000.
Definition isSpace (c : Z) : bool := (c =? 32) || (c =? 9) || (c =? 13) || (c =? 10).
Definition isHex (c : Z) : bool := isDigit c || between 97 c 102 || between 65 c 70.

Definition jpush (p : jparse) (st : jstate) (stack : list jparse) : option (jstate * list jparse) :=
  if (length (p :: stack) <=? maxNestingDepth)%nat then Some (st, p :: stack) else None.
Definition jpop (stack : list jparse) : option (jstate * list jparse) :=
  Some (match stack with [] => JEndTop | _ => JEndValue end, stack).

Definition stateEndTop (c : Z) : option (jstate * list jparse) :=
  if isSpace c then Some (JEndTop, []) else None.
Definition stateEndValue (stack : list jparse) (c : Z) : option (jstate * list jparse) :=
  match stack with
  | [] => stateEndTop c
  | p :: rest =>
      if isSpace c then Some (JEndValue, stack)
      else match p with
           | PObjectKey => if c =? 58 then Some (JBeginValue, PObjectValue :: rest) else None
           | PObjectValue =>
               if c =? 44 then Some (JBeginString, PObjectKey :: rest)
               else if c =? 125 then jpop rest else None
           | PArrayValue =>
               if c =? 44 then Some (JBeginValue, stack)
               else if c =? 93 then jpop rest else None
           end
  end.
Definition stateBeginValue (stack : list jparse) (c : Z) : option (jstate * list jparse) :=
  if isSpace c then Some (JBeginValue, stack)
  else if c =? 123 then jpush PObjectKey JBeginStringOrEmpty stack
  else if c =? 91 then jpush PArrayValue JBeginValueOrEmpty stack
  else if c =? 34 then Some (JInString, stack)
  else if c =? 45 then Some (JNeg, stack)
  else if c =? 48 then Some (J0, stack)
  else if c =? 116 then Some (JLit [114; 117; 101], stack)
  else if c =? 102 then Some (JLit [97; 108; 115; 101], stack)
  else if c =? 110 then Some (JLit [117; 108; 108], stack)
  else if between 49 c 57 then Some (J1, stack) else None.
Definition stateBeginString (stack : list jparse) (c : Z) : option (jstate * list jparse) :=
  if isSpace c then Some (JBeginString, stack)
  else if c =? 34 then Some (JInString, stack) else None.
Definition state0 (stack : list jparse) (c : Z) : option (jstate * list jparse) :=
  if c =? 46 then Some (JDot, stack)
  else if (c =? 101) || (c =? 69) then Some (JE, stack) else stateEndValue stack c.

(** One step of the scanner; None is scanError. *)
Definition jstep (st : jstate) (stack : list jparse) (c : Z) : option (jstate * list jparse) :=
  match st with
  | JBeginValue => stateBeginValue stack c
  | JBeginValueOrEmpty =>
      if isSpace c then Some (JBeginValueOrEmpty, stack)
      else if c =? 93 then stateEndValue stack c else stateBeginValue stack c
  | JBeginStringOrEmpty =>
      if isSpace c then Some (JBeginStringOrEmpty, stack)
      else if c =? 125 then stateEndValue (PObjectValue :: tail stack) c else stateBeginString stack c
  | JBeginString => stateBeginString stack c
  | JEndValue => stateEndValue stack c
  | JEndTop => stateEndTop c
  | JInString =>
      if c =? 34 then Some (JEndValue, stack)
      else if c =? 92 then Some (JInStringEsc, stack)
      else if c <? 32 then None else Some (JInString, stack)
  | JInStringEsc =>
      if bool_decide (c ∈ [98; 102; 110; 114; 116; 92; 47; 34]) then Some (JInString, stack)
      else if c =? 117 then Some (JU 3, stack) else None
  | JU n =>
      if isHex c then Some (match n with O => JInString | S n => JU n end, stack) else None
  | JNeg =>
      if c =? 48 then Some (J0, stack) else if between 49 c 57 then Some (J1, stack) else None
  | J1 => if isDigit c then Some (J1, stack) else state0 stack c
  | J0 => state0 stack c
  | JDot => if isDigit c then Some (JDot0, stack) else None
  | JDot0 =>
      if isDigit c then Some (JDot0, stack)
      else if (c =? 101) || (c =? 69) then Some (JE, stack) else stateEndValue stack c
  | JE =>
      if (c =? 43) || (c =? 45) then Some (JESign, stack)
      else if isDigit c then Some (JE0, stack) else None
  | JESign => if isDigit c then Some (JE0, stack) else None
  | JE0 => if isDigit c then Some (JE0, stack) else stateEndValue stack c
  | JLit [] => None
  | JLit (x :: r) =>
      if c =? x then Some (match r with [] => JEndValue | _ => JLit r end, stack) else None
  end.

(** The scanner over a whole value; the end of the input is read as a space. *)
Fixpoint jscan (st : jstate) (stack : list jparse) (l : bytes) : bool :=
  match l with
  | [] => match jstep st stack 32 with Some (JEndTop, _) => true | _ => false end
  | c :: l => match jstep st stack c with Some (st', stack') => jscan st' stack' l | None => false end
  end.
Definition jsonValid (l : bytes) : bool := jscan JBeginValue [] l.

Example jsonValid_ex1 : jsonValid (bytesOf " {'a': [1, -2.5e+3, null], 'b\u00e9': {}} " ≫= fun c => [if c =? 39 then 34 else c]) = true.
Proof. vm_compute. reflexivity. Qed.
Example jsonValid_ex2 : map (fun s => jsonValid (bytesOf s)) [""; "01"; "[1,]"; "1 2"; "nul"; "{a:1}"]%string = repeat false 6.
Proof. vm_compute. reflexivity. Qed.

(** ** encoding/json: the size of an encoded map *)

Definition inString (st : jstate) : bool :=
  match st with JInString | JInStringEsc | JU _ => true | _ => false end.
Definition htmlEscaped (c : Z) : bool := (c =? 60) || (c =? 62) || (c =? 38).

(** What a byte of a raw value adds: 6 for an escaped [<], [>] or [&], and 6
    for the three bytes of U+2028 and U+2029, of which the first counts 4. *)
Definition compactCost (l : bytes) : Z :=
  match l with
  | c :: r =>
      if htmlEscaped c then 6
      else if hasPrefix [0xE2; 0x80; 0xA8] l || hasPrefix [0xE2; 0x80; 0xA9] l then 4 else 1
  | [] => 0
  end.
Fixpoint compactSize (st : jstate) (stack : list jparse) (l : bytes) : Z :=
  match l with
  | [] => 0
  | c :: r =>
      match jstep st stack c with
      | None => 0
      | Some (st', stack') =>
          (if isSpace c && negb (inString st) then 0 else compactCost l) + compactSize st' stack' r
      end
  end.

(** The bytes a rune of a key takes. *)
Definition keyRuneSize (rw : Z * nat) : Z :=
  let '(r, w) := rw in
  if r <? 0x80 then
    if bool_decide (r ∈ [92; 34; 8; 9; 10; 12; 13]) then 2
    else if (r <? 0x20) || htmlEscaped r then 6 else 1
  else if ((r =? RuneError) && (w =? 1)%nat) || (r =? 0x2028) || (r =? 0x2029) then 6
  else Z.of_nat w.
Definition keySize (k : string) : Z := 2 + sumZ (map keyRuneSize (runes (bytesOf k))).

(** A raw value; the nil value is written as [null]. *)
Definition rawSize (v : bytes) : option Z :=
  match v with
  | [] => Some 4
  | _ => if jsonValid v then Some (compactSize JBeginValue [] v) else None
  end.

(** len(json.Marshal(m)) of a map; None is an error. *)
Definition marshalSize (m : list (string * bytes)) : option Z :=
  sizes ← mapM (fun '(k, v) => (fun n => keySize k + 1 + n) <$> rawSize v) m;
  Some (2 + sumZ sizes + (lenZ m - 1)).

Example marshalSize_ex :
  marshalSize [("a<", bytesOf " [1, 2] "); ("b", bytesOf "null")]%string = Some 26.
Proof. vm_compute. reflexivity. Qed.

(** ** crypto/sha256 *)

Module Sha256.
Definition wrap32 (x : Z) : Z := Z.land x 0xFFFFFFFF.
Definition add32 (x y : Z) : Z := wrap32 (x + y).
Definition rotr (n x : Z) : Z := wrap32 (Z.lor (Z.shiftr x n) (Z.shiftl x (32 - n))).

(** The constants, as the standard defines them: the first 32 bits after the
    point of the cube roots of the first 64 primes, and of the square roots of
    the first 8. *)
Definition isPrime (n : Z) : bool := forallb (fun d => negb (n mod d =? 0)) (seqZ 2 (n - 2)).
Definition primes : list Z := List.filter isPrime (seqZ 2 310).
Definition cubeRoot (n : Z) : Z :=
  foldl (fun r b => let r' := r + Z.shiftl 1 b in if r' ^ 3 <=? n then r' else r) 0 (rev (seqZ 0 36)).
Definition roundConstants : list Z := map (fun p => wrap32 (cubeRoot (Z.shiftl p 96))) primes.
Definition initialHash : list Z := map (fun p => wrap32 (Z.sqrt (Z.shiftl p 64))) (take 8 primes).

Definition pad (l : bytes) : bytes :=
  let n := lenZ l in
  l ++ [0x80] ++ replicate (Z.to_nat ((55 - n) mod 64)) 0 ++
  map (fun k => Z.land (Z.shiftr (8 * n) (8 * (7 - k))) 0xFF) (seqZ 0 8).

Fixpoint words (l : bytes) : list Z :=
  match l with
  | a :: b :: c :: d :: r => Z.lor (Z.shiftl a 24) (Z.lor (Z.shiftl b 16) (Z.lor (Z.shiftl c 8) d)) :: words r
  | _ => []
  end.

(** The message schedule, newest word first. *)
Fixpoint schedule (n : nat) (w : list Z) : list Z :=
  match n with
  | O => w
  | S n =>
      let at_ k := nth k w 0 in
      let x := at_ 14%nat in let y := at_ 1%nat in
      let s0 := Z.lxor (rotr 7 x) (Z.lxor (rotr 18 x) (Z.shiftr x 3)) in
      let s1 := Z.lxor (rotr 17 y) (Z.lxor (rotr 19 y) (Z.shiftr y 10)) in
      schedule n (wrap32 (at_ 15%nat + s0 + at_ 6%nat + s1) :: w)
  end.

Definition round (h : list Z) (kw : Z * Z) : list Z :=
  match h with
  | [a; b; c; d; e; f; g; hh] =>
      let s1 := Z.lxor (rotr 6 e) (Z.lxor (rotr 11 e) (rotr 25 e)) in
      let ch := Z.lxor (Z.land e f) (Z.land (Z.lxor e 0xFFFFFFFF) g) in
      let t1 := wrap32 (hh + s1 + ch + fst kw + snd kw) in
      let s0 := Z.lxor (rotr 2 a) (Z.lxor (rotr 13 a) (rotr 22 a)) in
      let maj := Z.lxor (Z.land a b) (Z.lxor (Z.land a c) (Z.land b c)) in
      [wrap32 (t1 + s0 + maj); a; b; c; add32 d t1; e; f; g]
  | _ => h
  end.
Definition block (h : list Z) (w : list Z) : list Z :=
  map2 add32 h (foldl round h (combine roundConstants (rev (schedule 48 (rev w))))).

Fixpoint blocks (fuel : nat) (h : list Z) (w : list Z) : list Z :=
  match fuel, w with
  | S fuel, _ :: _ => blocks fuel (block h (take 16 w)) (drop 16 w)
  | _, _ => h
  end.
Definition sum256 (l : bytes) : bytes :=
  let w := words (pad l) in
  blocks (length w) initialHash w ≫= fun x => map (fun k => Z.land (Z.shiftr x (8 * (3 - k))) 0xFF) (seqZ 0 4).
End Sha256.

(** fmt's %x of a slice of bytes. *)
Definition hexDigit (n : Z) : Z := if n <? 10 then 48 + n else 87 + n.
Definition hex (l : bytes) : bytes := l ≫= fun b => [hexDigit (Z.shiftr b 4); hexDigit (Z.land b 15)].

Example sha256_abc :
  stringOf (hex (Sha256.sum256 (bytesOf "abc"))) =
  "ba7816bf8f01cfea414140de5dae2223b00361a396177a9cb410ff61f20015ad"%string.
Proof. vm_compute. reflexivity. Qed.
