(* ===== verification/Mailbox.v ===== *)
(** * The mailbox of a session (internal/mailbox/store.go)

    Messages between panes, the delivery of each message to each recipient, and
    the threads that group them.  The store's maps are finite maps.  Only the
    store keeps pointers to its messages and deliveries and every query hands
    out copies, so a pointer is the key it is found under.  An operation is a
    function of the store, [StoreOp]; it takes the reading of the clock, a number of
    nanoseconds that is 0 for the zero time.  The receiver is never nil. *)

From S2P Require Import Prelude GoText GoCodec.

(** ** Constants *)

Definition DefaultContentType : string := "text/plain; charset=utf-8".
Definition EncodingUTF8 : string := "utf-8".
Definition EncodingBase64 : string := "base64".

Definition defaultSubjectBytes : Z := 512.
Definition defaultPartBytes : Z := 64 * 1024.
Definition defaultTotalBodyBytes : Z := 256 * 1024.
Definition defaultMetadataBytes : Z := 16 * 1024.
Definition defaultAckNoteBytes : Z := 4 * 1024.
Definition defaultRecipientsPerMsg : Z := 128.
Definition defaultStoredMessages : Z := 10000.
Definition defaultStoredMailboxBytes : Z := 64 * 1024 * 1024.
Definition defaultDrainLatestLimit : Z := 5.

(** The label pattern: [A-Za-z0-9] and then at most 63 of [A-Za-z0-9._/-]. *)
Definition alnum (c : Z) : bool := isDigit c || between 65 c 90 || between 97 c 122.
Definition labelChar (c : Z) : bool := alnum c || bool_decide (c ∈ [46; 95; 47; 45]).
Definition labelRE (label : string) : bool :=
  match bytesOf label with
  | [] => false
  | c :: r => alnum c && forallb labelChar r && (length r <=? 63)%nat
  end.

(** ** Data *)

Record PaneAddress := { addrID : Z; addrName : string; addrHost : string }.

Record MessagePart := {
  partName : string; ContentType : string; Encoding : string; partBytes : bytes; partSize : Z }.

Record Message := {
  msgID : string;
  ThreadID : string;
  InReplyTo : string;
  Replies : list string;
  Sender : PaneAddress;
  Recipients : list PaneAddress;
  Topics : list string;
  Groups : list string;
  Subject : string;
  Parts : list MessagePart;
  Metadata : gmap string bytes;
  CreatedAt : Z;
  UpdatedAt : Z;
  ExpiresAt : Z }.

Record DeliveryState := {
  MessageID : string;
  Recipient : PaneAddress;
  DeliveredAt : Z;
  ReadAt : Z;
  AckedAt : Z;
  AckStatus : string;
  AckNote : string;
  LastEventSeq : Z }.

Record DeliverySummary := {
  sumMessageID : string; sumSender : PaneAddress; sumRecipient : PaneAddress;
  sumSubject : string; sumTopics : list string; sumGroups : list string;
  sumThreadID : string; sumInReplyTo : string;
  sumCreatedAt : Z; sumDeliveredAt : Z; sumReadAt : Z; sumAckedAt : Z;
  sumAckStatus : string; sumAckNote : string; sumLastEventSeq : Z;
  BodySize : Z; PartCount : Z }.

(** The metadata of a request in the order a range over it takes. *)
Record SendRequest := {
  reqSender : PaneAddress; reqRecipients : list PaneAddress;
  reqTopics : list string; reqGroups : list string;
  reqSubject : string; reqBody : bytes; reqParts : list MessagePart;
  reqMetadata : list (string * bytes);
  ReplyTo : string; reqThreadID : string; reqExpiresAt : Z }.

Record DrainStatus := {
  Unread : Z; Unacked : Z; Pending : Z;
  PendingFingerprint : bytes; PendingIDs : list string; Latest : list DeliverySummary }.

Record AckRequest := { Status : string; Note : string }.

Record Limits := {
  SubjectBytes : Z; PartBytes : Z; TotalBodyBytes : Z; MetadataBytes : Z;
  AckNoteBytes : Z; RecipientsPerMsg : Z; StoredMessages : Z; StoredMailboxBytes : Z }.

Definition DefaultLimits : Limits :=
  {| SubjectBytes := defaultSubjectBytes; PartBytes := defaultPartBytes;
     TotalBodyBytes := defaultTotalBodyBytes; MetadataBytes := defaultMetadataBytes;
     AckNoteBytes := defaultAckNoteBytes; RecipientsPerMsg := defaultRecipientsPerMsg;
     StoredMessages := defaultStoredMessages; StoredMailboxBytes := defaultStoredMailboxBytes |}.

Record Store := {
  nextSeq : Z;
  messages : gmap string Message;
  deliveries : gmap Z (gmap string DeliveryState);
  threads : gmap string (list string);
  limits : Limits }.

Record Snapshot := {
  NextSeq : Z; snapMessages : list Message; snapDeliveries : list DeliveryState }.

(** ** Errors and the monad of the operations *)

(** What an operation returns instead of a value, with what its text is
    formatted from; [NilDereference] is a panic of the Go runtime. *)
Inductive MailboxErr :=
| IDRequired (role : string)
| NameRequired (role : string)
| NoRecipients
| TooManyRecipients (n limit : Z)
| DuplicateRecipient (id : Z)
| SubjectTooLong (limit : Z)
| SubjectNotUTF8
| SubjectControl (r : Z)
| InvalidLabel (kind label : string)
| DuplicateLabel (kind label : string)
| BodyAndParts
| BodyRequired
| BodyTooLong (limit : Z)
| PartTooLong (name : string) (limit : Z)
| PartEmpty (name : string)
| PartNotUTF8 (name : string)
| PartControl (name : string) (b : Z)
| PartEncoding (name encoding : string)
| MetadataKeyRequired
| MetadataReserved (key : string)
| MetadataInvalid (key : string)
| MetadataTooLong (limit : Z)
| StoreFull (limit : Z)
| StoreBytes (total limit : Z)
| ParentNotFound (id : string)
| ThreadMismatch (requested thread : string)
| MessageNotFound (id : string)
| NotDelivered (id : string) (recipient : Z)
| AckNoteTooLong (limit : Z)
| ThreadRequired
| ThreadNotFound (ref : string)
| SnapMessageID
| SnapDuplicateMessage (id : string)
| SnapDeliveryID
| SnapDeliveryRecipient
| SnapDeliveryMessage (id : string)
| SnapDuplicateDelivery (id : string) (recipient : Z)
| NilDereference.

Definition res (A : Type) : Type := (MailboxErr + A)%type.
Definition fails {A} (e : MailboxErr) : res A := inl e.
#[export] Instance res_ret : MRet res := fun A x => inr x.
#[export] Instance res_bind : MBind res :=
  fun A B f m => match m with inl e => inl e | inr x => f x end.
Definition check (b : bool) (e : MailboxErr) : res unit := if b then mret tt else fails e.

Definition StoreOp (A : Type) : Type := Store -> Store * res A.
#[export] Instance op_ret : MRet StoreOp := fun A x s => (s, inr x).
#[export] Instance op_bind : MBind StoreOp :=
  fun A B f m s => match m s with (s, inl e) => (s, inl e) | (s, inr x) => f x s end.
Definition getStore : StoreOp Store := fun s => (s, inr s).
Definition putStore (s : Store) : StoreOp unit := fun _ => (s, inr tt).
Definition liftRes {A} (r : res A) : StoreOp A := fun s => (s, r).

(** ** Updates of the store *)

Definition setNextSeq n (s : Store) : Store :=
  {| nextSeq := n; messages := messages s; deliveries := deliveries s;
     threads := threads s; limits := limits s |}.
Definition setMessages ms (s : Store) : Store :=
  {| nextSeq := nextSeq s; messages := ms; deliveries := deliveries s;
     threads := threads s; limits := limits s |}.
Definition setDeliveries ds (s : Store) : Store :=
  {| nextSeq := nextSeq s; messages := messages s; deliveries := ds;
     threads := threads s; limits := limits s |}.
Definition setThreads ts (s : Store) : Store :=
  {| nextSeq := nextSeq s; messages := messages s; deliveries := deliveries s;
     threads := ts; limits := limits s |}.

Definition setReplies rs now (m : Message) : Message :=
  {| msgID := msgID m; ThreadID := ThreadID m; InReplyTo := InReplyTo m; Replies := rs;
     Sender := Sender m; Recipients := Recipients m; Topics := Topics m; Groups := Groups m;
     Subject := Subject m; Parts := Parts m; Metadata := Metadata m;
     CreatedAt := CreatedAt m; UpdatedAt := now; ExpiresAt := ExpiresAt m |}.
Definition setUpdatedAt now (m : Message) : Message := setReplies (Replies m) now m.

Definition setReadAt now (d : DeliveryState) : DeliveryState :=
  {| MessageID := MessageID d; Recipient := Recipient d; DeliveredAt := DeliveredAt d;
     ReadAt := now; AckedAt := AckedAt d; AckStatus := AckStatus d; AckNote := AckNote d;
     LastEventSeq := LastEventSeq d |}.
Definition setAcked now st note (d : DeliveryState) : DeliveryState :=
  {| MessageID := MessageID d; Recipient := Recipient d; DeliveredAt := DeliveredAt d;
     ReadAt := ReadAt d; AckedAt := now; AckStatus := st; AckNote := note;
     LastEventSeq := LastEventSeq d |}.
Definition setEventSeq seq (d : DeliveryState) : DeliveryState :=
  {| MessageID := MessageID d; Recipient := Recipient d; DeliveredAt := DeliveredAt d;
     ReadAt := ReadAt d; AckedAt := AckedAt d; AckStatus := AckStatus d; AckNote := AckNote d;
     LastEventSeq := seq |}.

(** ** Validation of a request *)

Definition validateAddress (role : string) (addr : PaneAddress) : res PaneAddress :=
  if addrID addr =? 0 then fails (IDRequired role)
  else match TrimSpace (bytesOf (addrName addr)) with
       | [] => fails (NameRequired role)
       | _ => mret addr
       end.

Fixpoint validateRecipientsLoop (seen : list Z) (src : list PaneAddress) : res (list PaneAddress) :=
  match src with
  | [] => mret []
  | addr :: src =>
      recipient ← validateAddress "recipient" addr;
      if bool_decide (addrID recipient ∈ seen) then fails (DuplicateRecipient (addrID recipient))
      else recipients ← validateRecipientsLoop (addrID recipient :: seen) src;
           mret (recipient :: recipients)
  end.
Definition validateRecipients (src : list PaneAddress) (limit : Z) : res (list PaneAddress) :=
  match src with
  | [] => fails NoRecipients
  | _ =>
      if (0 <? limit) && (limit <? lenZ src) then fails (TooManyRecipients (lenZ src) limit)
      else validateRecipientsLoop [] src
  end.

Definition validateSubject (subject : string) (limit : Z) : res unit :=
  let l := bytesOf subject in
  if limit <? lenZ l then fails (SubjectTooLong limit)
  else if negb (utf8Valid l) then fails SubjectNotUTF8
  else match find IsControl (map fst (runes l)) with
       | Some r => fails (SubjectControl r)
       | None => mret tt
       end.

Fixpoint validateLabelsLoop (kind : string) (seen : list string) (src : list string) : res (list string) :=
  match src with
  | [] => mret []
  | label :: src =>
      if negb (labelRE label) then fails (InvalidLabel kind label)
      else if bool_decide (label ∈ seen) then fails (DuplicateLabel kind label)
      else out ← validateLabelsLoop kind (label :: seen) src; mret (label :: out)
  end.
Definition validateLabels (kind : string) (src : list string) : res (list string) :=
  validateLabelsLoop kind [] src.

Definition orDefault (s d : string) : string := if String.eqb s "" then d else s.

Definition normalizePart (i : Z) (part : MessagePart) (limit : Z) : res MessagePart :=
  let name := orDefault (partName part) ("part-" +:+ stringOf (formatDecimal (i + 1))) in
  let part :=
    {| partName := name;
       ContentType := orDefault (ContentType part) DefaultContentType;
       Encoding := orDefault (Encoding part) EncodingUTF8;
       partBytes := partBytes part; partSize := lenZ (partBytes part) |} in
  if (0 <? limit) && (limit <? partSize part) then fails (PartTooLong name limit)
  else if partSize part =? 0 then fails (PartEmpty name)
  else if String.eqb (Encoding part) EncodingUTF8 then
    if negb (utf8Valid (partBytes part)) then fails (PartNotUTF8 name)
    else match find (fun b => (b <? 0x20) && negb (b =? 10) && negb (b =? 9)) (partBytes part) with
         | Some b => fails (PartControl name b)
         | None => mret part
         end
  else if String.eqb (Encoding part) EncodingBase64 then mret part
  else fails (PartEncoding name (Encoding part)).

Fixpoint normalizePartsLoop (i total : Z) (parts : list MessagePart) (partLimit totalLimit : Z)
  : res (list MessagePart * Z) :=
  match parts with
  | [] => mret ([], total)
  | part :: parts =>
      normalized ← normalizePart i part partLimit;
      let total := total + partSize normalized in
      if (0 <? totalLimit) && (totalLimit <? total) then fails (BodyTooLong totalLimit)
      else '(out, total) ← normalizePartsLoop (i + 1) total parts partLimit totalLimit;
           mret (normalized :: out, total)
  end.
Definition normalizeParts (body : bytes) (parts : list MessagePart) (partLimit totalLimit : Z)
  : res (list MessagePart * Z) :=
  match body, parts with
  | _ :: _, _ :: _ => fails BodyAndParts
  | [], [] => fails BodyRequired
  | _ :: _, [] =>
      normalizePartsLoop 0 0
        [{| partName := "body"; ContentType := DefaultContentType; Encoding := EncodingUTF8;
            partBytes := body; partSize := 0 |}] partLimit totalLimit
  | [], _ :: _ => normalizePartsLoop 0 0 parts partLimit totalLimit
  end.

(** The length of the encoded metadata, whatever the order of the keys. *)
Definition metadataByteSize (metadata : gmap string bytes) : Z :=
  match map_to_list metadata with
  | [] => 0
  | l => default 0 (marshalSize l)
  end.

Fixpoint validateMetadataLoop (out : gmap string bytes) (src : list (string * bytes))
  : res (gmap string bytes) :=
  match src with
  | [] => mret out
  | (key, value) :: src =>
      if String.eqb key "" then fails MetadataKeyRequired
      else if hasPrefix (bytesOf "amux.") (bytesOf key) then fails (MetadataReserved key)
      else if negb (jsonValid value) then fails (MetadataInvalid key)
      else validateMetadataLoop (<[key := value]> out) src
  end.
Definition validateMetadata (src : list (string * bytes)) (limit : Z) : res (gmap string bytes) :=
  match src with
  | [] => mret ∅
  | _ =>
      out ← validateMetadataLoop ∅ src;
      let size := metadataByteSize out in
      if (0 <? limit) && (limit <? size) then fails (MetadataTooLong limit) else mret out
  end.

Definition messageBodySize (msg : Message) : Z := sumZ (map partSize (Parts msg)).

Definition lenMessages (s : Store) : Z := Z.of_nat (size (messages s)).
Definition Len (s : Store) : Z := lenMessages s.

Definition validateCanStoreMessage (s : Store) : res unit :=
  if (0 <? StoredMessages (limits s)) && (StoredMessages (limits s) <=? lenMessages s)
  then fails (StoreFull (StoredMessages (limits s))) else mret tt.

Definition storedBytes (ms : gmap string Message) : Z :=
  sumZ (map (fun '(_, msg) => messageBodySize msg + metadataByteSize (Metadata msg)) (map_to_list ms)).
Definition validateMailboxByteLimit (s : Store) (bodyBytes metadataBytes : Z) : res unit :=
  let limit := StoredMailboxBytes (limits s) in
  if limit <=? 0 then mret tt
  else let total := bodyBytes + metadataBytes + storedBytes (messages s) in
       if limit <? total then fails (StoreBytes total limit) else mret tt.

(** The parent of a reply, if any, and the thread of the new message. *)
Definition resolveThread (s : Store) (replyTo requested : string) : res (option string * string) :=
  if String.eqb replyTo "" then mret (None, requested)
  else match messages s !! replyTo with
       | None => fails (ParentNotFound replyTo)
       | Some parent =>
           if negb (String.eqb requested "") && negb (String.eqb requested (ThreadID parent))
           then fails (ThreadMismatch requested (ThreadID parent))
           else mret (Some replyTo, ThreadID parent)
       end.

(** ** Message identifiers *)

Definition wrap64 (n : Z) : Z := n mod 2 ^ 64.
Definition messageIDOf (seq : Z) : string := "msg-" +:+ stringOf (padZeros 6 (formatDecimal seq)).

Definition allocateID : StoreOp string :=
  s ← getStore;
  putStore (setNextSeq (wrap64 (nextSeq s + 1)) s);;
  mret (messageIDOf (nextSeq s)).

Definition parseMessageSeq (id : string) : option Z :=
  let raw := bytesOf id in
  let prefix := bytesOf "msg-" in
  if hasPrefix prefix raw then ParseUint (drop (length prefix) raw) else None.

(** ** Send *)

Definition addDelivery (id : string) (now : Z)
    (ds : gmap Z (gmap string DeliveryState)) (recipient : PaneAddress) : gmap Z (gmap string DeliveryState) :=
  let byMessage := default ∅ (ds !! addrID recipient) in
  <[addrID recipient := <[id := {| MessageID := id; Recipient := recipient; DeliveredAt := now;
      ReadAt := 0; AckedAt := 0; AckStatus := ""; AckNote := ""; LastEventSeq := 0 |}]> byMessage]> ds.

(** The write through the parent's pointer; a message stored under the same
    key has replaced the parent by then. *)
Definition addReply (parent : option string) (id : string) (now : Z) (ms : gmap string Message)
  : gmap string Message :=
  match parent with
  | Some p => if String.eqb p id then ms else alter (fun m => setReplies (Replies m ++ [id]) now m) p ms
  | None => ms
  end.

Definition Send (req : SendRequest) (now : Z) : StoreOp Message :=
  s ← getStore;
  liftRes (validateCanStoreMessage s);;
  sender ← liftRes (validateAddress "sender" (reqSender req));
  recipients ← liftRes (validateRecipients (reqRecipients req) (RecipientsPerMsg (limits s)));
  liftRes (validateSubject (reqSubject req) (SubjectBytes (limits s)));;
  topics ← liftRes (validateLabels "topic" (reqTopics req));
  groups ← liftRes (validateLabels "group" (reqGroups req));
  '(parts, bodySize) ← liftRes (normalizeParts (reqBody req) (reqParts req)
                               (PartBytes (limits s)) (TotalBodyBytes (limits s)));
  metadata ← liftRes (validateMetadata (reqMetadata req) (MetadataBytes (limits s)));
  '(parent, threadID) ← liftRes (resolveThread s (ReplyTo req) (reqThreadID req));
  liftRes (validateMailboxByteLimit s bodySize (metadataByteSize metadata));;
  id ← allocateID;
  let threadID := orDefault threadID id in
  let msg :=
    {| msgID := id; ThreadID := threadID; InReplyTo := ReplyTo req; Replies := [];
       Sender := sender; Recipients := recipients; Topics := topics; Groups := groups;
       Subject := reqSubject req; Parts := parts; Metadata := metadata;
       CreatedAt := now; UpdatedAt := now; ExpiresAt := reqExpiresAt req |} in
  s ← getStore;
  let s := setMessages (<[id := msg]> (messages s)) s in
  let s := setThreads (<[threadID := default [] (threads s !! threadID) ++ [id]]> (threads s)) s in
  let s := setMessages (addReply parent id now (messages s)) s in
  let s := setDeliveries (foldl (addDelivery id now) (deliveries s) recipients) s in
  putStore s;;
  mret msg.

(** ** Queries *)

(** The messages of the given IDs that are stored, in that order. *)
Definition cloneMessagesByIDs (s : Store) (ids : list string) : list Message :=
  omap (fun id => messages s !! id) ids.

Definition messagesByThreadID (s : Store) (threadID : string) : res (list Message) :=
  match default [] (threads s !! threadID) with
  | [] => fails (ThreadNotFound threadID)
  | ids => mret (cloneMessagesByIDs s (sortStrings ids))
  end.

Definition messageHasTopic (msg : Message) (topic : string) : bool := bool_decide (topic ∈ Topics msg).

Definition messagesByTopic (s : Store) (topic : string) : list Message :=
  cloneMessagesByIDs s (sortStrings
    (map fst (filter (fun im => Is_true (messageHasTopic im.2 topic)) (map_to_list (messages s))))).

Definition messageByID (s : Store) (id : string) : option Message := messages s !! id.

Definition Thread (s : Store) (ref : string) : res (list Message) :=
  let ref := stringOf (TrimSpace (bytesOf ref)) in
  if String.eqb ref "" then fails ThreadRequired
  else match messages s !! ref with
       | Some msg => messagesByThreadID s (ThreadID msg)
       | None =>
           match messagesByTopic s ref with
           | [] => fails (ThreadNotFound ref)
           | ms => mret ms
           end
       end.

Definition summaryFor (msg : option Message) (delivery : DeliveryState) : res DeliverySummary :=
  match msg with
  | None => fails NilDereference
  | Some msg => mret
      {| sumMessageID := msgID msg; sumSender := Sender msg; sumRecipient := Recipient delivery;
         sumSubject := Subject msg; sumTopics := Topics msg; sumGroups := Groups msg;
         sumThreadID := ThreadID msg; sumInReplyTo := InReplyTo msg;
         sumCreatedAt := CreatedAt msg; sumDeliveredAt := DeliveredAt delivery;
         sumReadAt := ReadAt delivery; sumAckedAt := AckedAt delivery;
         sumAckStatus := AckStatus delivery; sumAckNote := AckNote delivery;
         sumLastEventSeq := LastEventSeq delivery;
         BodySize := messageBodySize msg; PartCount := lenZ (Parts msg) |}
  end.

(** [for _, id := range ids { f(byMessage[id]) }] of keys of the map. *)
Definition deliveriesOf (byMessage : gmap string DeliveryState) (ids : list string)
  : list (string * DeliveryState) :=
  omap (fun id => pair id <$> byMessage !! id) ids.

Fixpoint mapRes {A B} (f : A -> res B) (l : list A) : res (list B) :=
  match l with
  | [] => mret []
  | x :: l => y ← f x; ys ← mapRes f l; mret (y :: ys)
  end.

Definition List (s : Store) (recipientID : Z) (unreadOnly : bool) : res (list DeliverySummary) :=
  if recipientID =? 0 then fails (IDRequired "recipient")
  else
    let byMessage := default ∅ (deliveries s !! recipientID) in
    let skip (d : DeliveryState) := unreadOnly && (negb (ReadAt d =? 0) || negb (AckedAt d =? 0)) in
    let ids := sortStrings (map fst (filter (fun p => Is_true (negb (skip p.2))) (map_to_list byMessage))) in
    mapRes (fun p => summaryFor (messages s !! p.1) p.2) (deliveriesOf byMessage ids).
Definition ListUnread (s : Store) (recipientID : Z) : res (list DeliverySummary) :=
  List s recipientID true.

(** ** Drain status *)

Definition normalizedDrainLatestLimit (limit : Z) : Z :=
  if limit <=? 0 then defaultDrainLatestLimit else limit.

Definition drainSummaryNewer (left right : DeliverySummary) : bool :=
  if negb (sumDeliveredAt left =? sumDeliveredAt right)
  then sumDeliveredAt right <? sumDeliveredAt left
  else negb (strLe (sumMessageID left) (sumMessageID right)).

(** sort.Search: the binary search; the interval shrinks in every round. *)
Fixpoint searchLoop (fuel : nat) (f : nat -> bool) (i j : nat) : nat :=
  match fuel with
  | O => i
  | S fuel =>
      if (i <? j)%nat then
        let h := Nat.div2 (i + j) in
        if negb (f h) then searchLoop fuel f (S h) j else searchLoop fuel f i h
      else i
  end.
Definition sortSearch (n : nat) (f : nat -> bool) : nat := searchLoop n f 0 n.

Definition insertDrainLatest (latest : list DeliverySummary) (summary : DeliverySummary) (limit : Z)
  : list DeliverySummary :=
  let index := sortSearch (length latest)
    (fun i => match latest !! i with Some x => drainSummaryNewer summary x | None => false end) in
  if (index =? length latest)%nat && (limit <=? lenZ latest) then latest
  else
    let latest := take index latest ++ summary :: drop index latest in
    if limit <? lenZ latest then take (Z.to_nat limit) latest else latest.

Definition boolText (b : bool) : bytes := bytesOf (if b then "true" else "false").
(** What the digest is taken of: a line per pending delivery. *)
Definition drainLine (p : string * DeliveryState) : bytes :=
  bytesOf p.1 ++ [0] ++ boolText (ReadAt p.2 =? 0) ++ [0] ++ boolText (AckedAt p.2 =? 0) ++ [10].
Definition drainFingerprint (byMessage : gmap string DeliveryState) (ids : list string) : bytes :=
  hex (Sha256.sum256 (deliveriesOf byMessage ids ≫= drainLine)).

Definition emptyDrain : DrainStatus :=
  {| Unread := 0; Unacked := 0; Pending := 0; PendingFingerprint := []; PendingIDs := []; Latest := [] |}.

(** One round of the loop over the deliveries, in the order of their IDs. *)
Definition drainStep (s : Store) (latestLimit : Z) (st : DrainStatus) (p : string * DeliveryState)
  : res DrainStatus :=
  let needsRead := ReadAt p.2 =? 0 in
  let needsAck := AckedAt p.2 =? 0 in
  let unread := if needsRead then Unread st + 1 else Unread st in
  let unacked := if needsAck then Unacked st + 1 else Unacked st in
  if negb needsRead && negb needsAck then
    mret {| Unread := unread; Unacked := unacked; Pending := Pending st;
            PendingFingerprint := PendingFingerprint st; PendingIDs := PendingIDs st; Latest := Latest st |}
  else
    summary ← summaryFor (messages s !! p.1) p.2;
    mret {| Unread := unread; Unacked := unacked; Pending := Pending st + 1;
            PendingFingerprint := PendingFingerprint st; PendingIDs := PendingIDs st ++ [p.1];
            Latest := insertDrainLatest (Latest st) summary latestLimit |}.
Fixpoint drainDeliveries (s : Store) (latestLimit : Z) (st : DrainStatus) (l : list (string * DeliveryState))
  : res DrainStatus :=
  match l with
  | [] => mret st
  | p :: l => st ← drainStep s latestLimit st p; drainDeliveries s latestLimit st l
  end.

Definition drainStatus (s : Store) (recipientID : Z) (latestLimit : Z) : res DrainStatus :=
  if recipientID =? 0 then fails (IDRequired "recipient")
  else
    let byMessage := default ∅ (deliveries s !! recipientID) in
    let ids := sortStrings (map fst (map_to_list byMessage)) in
    status ← drainDeliveries s (normalizedDrainLatestLimit latestLimit) emptyDrain (deliveriesOf byMessage ids);
    if Pending status =? 0 then mret status
    else mret {| Unread := Unread status; Unacked := Unacked status; Pending := Pending status;
                 PendingFingerprint := drainFingerprint byMessage (PendingIDs status);
                 PendingIDs := PendingIDs status; Latest := Latest status |}.

(** ** Read, acknowledge, event sequence *)

Definition messageDelivery (s : Store) (id : string) (recipientID : Z) : res (Message * DeliveryState) :=
  if recipientID =? 0 then fails (IDRequired "recipient")
  else match messages s !! id with
       | None => fails (MessageNotFound id)
       | Some msg =>
           match default ∅ (deliveries s !! recipientID) !! id with
           | None => fails (NotDelivered id recipientID)
           | Some delivery => mret (msg, delivery)
           end
       end.

Definition deliverySummary (s : Store) (id : string) (recipientID : Z) : res DeliverySummary :=
  '(msg, delivery) ← messageDelivery s id recipientID;
  summaryFor (Some msg) delivery.

(** The writes through the pointers of a message and of a delivery. *)
Definition writeMessage (id : string) (msg : Message) (s : Store) : Store :=
  setMessages (<[id := msg]> (messages s)) s.
Definition writeDelivery (recipientID : Z) (id : string) (d : DeliveryState) (s : Store) : Store :=
  setDeliveries (alter (insert id d) recipientID (deliveries s)) s.

Definition SetLastEventSeq (id : string) (recipientID seq : Z) : StoreOp DeliverySummary :=
  s ← getStore;
  '(msg, delivery) ← liftRes (messageDelivery s id recipientID);
  let delivery := setEventSeq seq delivery in
  putStore (writeDelivery recipientID id delivery s);;
  liftRes (summaryFor (Some msg) delivery).

Definition Read (id : string) (recipientID : Z) (peek : bool) (now : Z) : StoreOp (Message * DeliveryState) :=
  s ← getStore;
  '(msg, delivery) ← liftRes (messageDelivery s id recipientID);
  if negb peek && (ReadAt delivery =? 0) then
    let delivery := setReadAt now delivery in
    let msg := setUpdatedAt now msg in
    putStore (writeMessage id msg (writeDelivery recipientID id delivery s));;
    mret (msg, delivery)
  else mret (msg, delivery).

Definition Ack (id : string) (recipientID : Z) (req : AckRequest) (now : Z) : StoreOp DeliveryState :=
  s ← getStore;
  liftRes (check (lenZ (bytesOf (Note req)) <=? AckNoteBytes (limits s)) (AckNoteTooLong (AckNoteBytes (limits s))));;
  '(msg, delivery) ← liftRes (messageDelivery s id recipientID);
  if (AckedAt delivery =? 0) || negb (String.eqb (AckStatus delivery) (Status req))
     || negb (String.eqb (AckNote delivery) (Note req)) then
    let delivery := setAcked now (Status req) (Note req) delivery in
    let msg := setUpdatedAt now msg in
    putStore (writeMessage id msg (writeDelivery recipientID id delivery s));;
    mret delivery
  else mret delivery.

Definition MaxLastEventSeq (s : Store) : Z :=
  foldl (fun maxSeq d => if maxSeq <? LastEventSeq d then LastEventSeq d else maxSeq) 0
    (map_to_list (deliveries s) ≫= fun '(_, byMessage) => map snd (map_to_list byMessage)).

(** ** Snapshots *)

Definition orLimit (n d : Z) : Z := if n =? 0 then d else n.
Definition normalizeLimits (l : Limits) : Limits :=
  let defaults := DefaultLimits in
  {| SubjectBytes := orLimit (SubjectBytes l) (SubjectBytes defaults);
     PartBytes := orLimit (PartBytes l) (PartBytes defaults);
     TotalBodyBytes := orLimit (TotalBodyBytes l) (TotalBodyBytes defaults);
     MetadataBytes := orLimit (MetadataBytes l) (MetadataBytes defaults);
     AckNoteBytes := orLimit (AckNoteBytes l) (AckNoteBytes defaults);
     RecipientsPerMsg := orLimit (RecipientsPerMsg l) (RecipientsPerMsg defaults);
     StoredMessages := orLimit (StoredMessages l) (StoredMessages defaults);
     StoredMailboxBytes := orLimit (StoredMailboxBytes l) (StoredMailboxBytes defaults) |}.

Definition NewStore (opts : Limits) : Store :=
  {| nextSeq := 1; messages := ∅; deliveries := ∅; threads := ∅; limits := normalizeLimits opts |}.

(** SnapshotSource: the lists in the order of the ranges over the maps. *)
Definition SnapshotSource (s : Store) : Snapshot :=
  {| NextSeq := nextSeq s;
     snapMessages := map snd (map_to_list (messages s));
     snapDeliveries := map_to_list (deliveries s) ≫= fun '(_, byMessage) => map snd (map_to_list byMessage) |}.
Definition snapEmpty (src : Snapshot) : bool :=
  match snapMessages src, snapDeliveries src with [], [] => true | _, _ => false end.

Definition messageLe (m1 m2 : Message) : bool := strLe (msgID m1) (msgID m2).
Definition deliveryLe (d1 d2 : DeliveryState) : bool :=
  if negb (addrID (Recipient d1) =? addrID (Recipient d2))
  then addrID (Recipient d1) <? addrID (Recipient d2)
  else strLe (MessageID d1) (MessageID d2).
Definition sourceSnapshot (src : Snapshot) : Snapshot :=
  if (NextSeq src =? 0) && snapEmpty src
  then {| NextSeq := 0; snapMessages := []; snapDeliveries := [] |}
  else {| NextSeq := NextSeq src;
          snapMessages := stableSort messageLe (snapMessages src);
          snapDeliveries := stableSort deliveryLe (snapDeliveries src) |}.
Definition storeSnapshot (s : Store) : Snapshot := sourceSnapshot (SnapshotSource s).

(** RestoreSnapshot: the loop over the messages, with the largest sequence
    number of an identifier, and the loop over the deliveries. *)
Fixpoint restoreMessages (maxSeq : Z) (s : Store) (l : list Message) : res (Z * Store) :=
  match l with
  | [] => mret (maxSeq, s)
  | msg :: l =>
      if String.eqb (msgID msg) "" then fails SnapMessageID
      else match messages s !! msgID msg with
           | Some _ => fails (SnapDuplicateMessage (msgID msg))
           | None =>
               let maxSeq := match parseMessageSeq (msgID msg) with
                             | Some seq => if maxSeq <? seq then seq else maxSeq
                             | None => maxSeq
                             end in
               let s := if negb (String.eqb (ThreadID msg) "")
                        then setThreads (<[ThreadID msg := default [] (threads s !! ThreadID msg) ++ [msgID msg]]> (threads s)) s
                        else s in
               restoreMessages maxSeq (setMessages (<[msgID msg := msg]> (messages s)) s) l
           end
  end.
Fixpoint restoreDeliveries (s : Store) (l : list DeliveryState) : res Store :=
  match l with
  | [] => mret s
  | d :: l =>
      if String.eqb (MessageID d) "" then fails SnapDeliveryID
      else if addrID (Recipient d) =? 0 then fails SnapDeliveryRecipient
      else match messages s !! MessageID d with
           | None => fails (SnapDeliveryMessage (MessageID d))
           | Some _ =>
               let byMessage := default ∅ (deliveries s !! addrID (Recipient d)) in
               match byMessage !! MessageID d with
               | Some _ => fails (SnapDuplicateDelivery (MessageID d) (addrID (Recipient d)))
               | None =>
                   restoreDeliveries
                     (setDeliveries (<[addrID (Recipient d) := <[MessageID d := d]> byMessage]> (deliveries s)) s) l
               end
           end
  end.
Definition RestoreSnapshot (snapshot : Snapshot) (opts : Limits) : res Store :=
  let store := NewStore opts in
  let store := if negb (NextSeq snapshot =? 0) then setNextSeq (NextSeq snapshot) store else store in
  '(maxSeq, store) ← restoreMessages 0 store (snapMessages snapshot);
  store ← restoreDeliveries store (snapDeliveries snapshot);
  let store := if nextSeq store =? 0 then setNextSeq 1 store else store in
  mret (if nextSeq store <=? maxSeq then setNextSeq (wrap64 (maxSeq + 1)) store else store).
