(* ===== verification/MailboxFacts.v ===== *)
(** * The mailbox: validation

    What each validation accepts, [Send] as a check of the request followed by
    one update of the store, and the invariant of a store. *)

From S2P Require Import Prelude GoText GoCodec Mailbox.

(** ** The error monad *)

Lemma res_bind_inr {A B} (m : res A) (f : A -> res B) y :
  (m ≫= f) = inr y <-> exists x, m = inr x /\ f x = inr y.
Proof.
  split; [destruct m as [e|x]; [done|intros H; by exists x]|]. by intros (x & -> & H).
Qed.
Lemma fails_inr {A} e (x : A) : fails e = inr x <-> False.
Proof. done. Qed.
Lemma mret_inr {A} (x y : A) : (mret x : res A) = inr y <-> x = y.
Proof. split; [by intros [= ->]|by intros ->]. Qed.
Lemma if_fails_inr {A} (b : bool) e (m : res A) y :
  (if b then fails e else m) = inr y <-> b = false /\ m = inr y.
Proof. destruct b; split; try done; by intros []. Qed.

Ltac res_iff :=
  repeat first [rewrite res_bind_inr | rewrite if_fails_inr | rewrite fails_inr | rewrite mret_inr].

(** ** What the validations accept *)

Definition validAddress (a : PaneAddress) : Prop :=
  addrID a <> 0 /\ TrimSpace (bytesOf (addrName a)) <> [].

Lemma validateAddress_ok role a b : validateAddress role a = inr b <-> b = a /\ validAddress a.
Proof.
  unfold validateAddress, validAddress. destruct (Z.eqb_spec (addrID a) 0) as [E|E].
  - split; [done|]. by intros (_ & H & _).
  - destruct (TrimSpace _); res_iff; naive_solver.
Qed.

Lemma validateRecipientsLoop_ok seen src rs :
  validateRecipientsLoop seen src = inr rs <->
  rs = src /\ Forall validAddress src /\ NoDup (map addrID src) /\ Forall (fun a => addrID a ∉ seen) src.
Proof.
  revert seen rs. induction src as [|a src IH]; intros seen rs; cbn [validateRecipientsLoop map].
  - res_iff. split; [intros <-|by intros (-> & _)]. split_and!; auto using NoDup_nil_2.
  - res_iff. rewrite NoDup_cons, !Forall_cons. split.
    + intros (b & (-> & Ha)%validateAddress_ok & H).
      apply if_fails_inr in H as [Hs%bool_decide_eq_false H].
      apply res_bind_inr in H as (rs' & (-> & H1 & H2 & H3)%IH & ->%mret_inr).
      split_and!; try done.
      * intros (x & E & Hx)%list_elem_of_fmap. apply (proj1 (Forall_forall _ _) H3) in Hx. set_solver.
      * eapply Forall_impl; [exact H3|]. set_solver.
    + intros (-> & (Ha & H1) & (Hn & H2) & (Hs & H3)). exists a. split; [by apply validateAddress_ok|].
      apply if_fails_inr. split; [by apply bool_decide_eq_false|].
      apply res_bind_inr. exists src. split; [|done]. apply IH. split_and!; try done.
      apply Forall_forall. intros x Hx. rewrite not_elem_of_cons. split.
      * intros E. apply Hn. rewrite <- E. by apply list_elem_of_fmap_2.
      * by apply (proj1 (Forall_forall _ _) H3).
Qed.

Definition validRecipients (limit : Z) (rs : list PaneAddress) : Prop :=
  rs <> [] /\ (0 < limit -> lenZ rs <= limit) /\ Forall validAddress rs /\ NoDup (map addrID rs).

(** A limit that is not positive is not checked. *)
Lemma limit_ok (limit n : Z) : (0 <? limit) && (limit <? n) = false <-> (0 < limit -> n <= limit).
Proof. destruct (Z.ltb_spec 0 limit), (Z.ltb_spec limit n); split; intros; try done; lia. Qed.

Lemma validateRecipients_ok src limit rs :
  validateRecipients src limit = inr rs <-> rs = src /\ validRecipients limit src.
Proof.
  unfold validateRecipients, validRecipients. destruct src as [|a src]; [split; [done|by intros (_ & H & _)]|].
  rewrite if_fails_inr, limit_ok, validateRecipientsLoop_ok.
  split; [intros (H & -> & H1 & H2 & H3)|intros (-> & _ & H & H1 & H2)]; split_and!; try done.
  apply Forall_forall. intros x _. apply not_elem_of_nil.
Qed.

Lemma find_None_Forall {A} (f : A -> bool) l : find f l = None <-> Forall (fun x => f x = false) l.
Proof.
  induction l as [|x l IH]; simpl; [by split|]. rewrite Forall_cons. destruct (f x); [|naive_solver].
  split; [done|]. by intros [].
Qed.

Definition validSubject (limit : Z) (subject : string) : Prop :=
  lenZ (bytesOf subject) <= limit /\ utf8Valid (bytesOf subject) = true /\
  Forall (fun r => IsControl r = false) (map fst (runes (bytesOf subject))).

Lemma validateSubject_ok subject limit u :
  validateSubject subject limit = inr u <-> validSubject limit subject.
Proof.
  unfold validateSubject, validSubject. rewrite !if_fails_inr, Z.ltb_ge, negb_false_iff, <- find_None_Forall.
  destruct (find _ _), u; naive_solver.
Qed.

Lemma validateLabelsLoop_ok kind seen src ls :
  validateLabelsLoop kind seen src = inr ls <->
  ls = src /\ Forall (fun l => labelRE l = true) src /\ NoDup src /\ Forall (fun l => l ∉ seen) src.
Proof.
  revert seen ls. induction src as [|a src IH]; intros seen ls; cbn [validateLabelsLoop].
  - res_iff. split; [intros <-|by intros (-> & _)]. split_and!; auto using NoDup_nil_2.
  - rewrite !if_fails_inr, negb_false_iff, bool_decide_eq_false, NoDup_cons, !Forall_cons, res_bind_inr. split.
    + intros (Ha & Hs & ls' & (-> & H1 & H2 & H3)%IH & ->%mret_inr). split_and!; try done.
      * intros Hx. apply (proj1 (Forall_forall _ _) H3) in Hx. set_solver.
      * eapply Forall_impl; [exact H3|]. set_solver.
    + intros (-> & (Ha & H1) & (Hn & H2) & (Hs & H3)). split_and!; try done. exists src. split; [|done].
      apply IH. split_and!; try done. apply Forall_forall. intros x Hx. rewrite not_elem_of_cons.
      split; [by intros ->|by apply (proj1 (Forall_forall _ _) H3)].
Qed.

Definition validLabels (ls : list string) : Prop := Forall (fun l => labelRE l = true) ls /\ NoDup ls.

Lemma validateLabels_ok kind src ls : validateLabels kind src = inr ls <-> ls = src /\ validLabels src.
Proof.
  unfold validateLabels, validLabels. rewrite validateLabelsLoop_ok. split; [naive_solver|].
  intros (-> & H1 & H2). split_and!; try done. apply Forall_forall. intros x _. apply not_elem_of_nil.
Qed.

(** A stored part: its recorded size, its encoding, and for text its bytes. *)
Definition textByte (b : Z) : bool := negb ((b <? 0x20) && negb (b =? 10) && negb (b =? 9)).
Definition validPart (limit : Z) (p : MessagePart) : Prop :=
  partSize p = lenZ (partBytes p) /\ 0 < partSize p /\ (0 < limit -> partSize p <= limit) /\
  ((Encoding p = EncodingUTF8 /\ utf8Valid (partBytes p) = true /\ forallb textByte (partBytes p) = true) \/
   Encoding p = EncodingBase64).

(** The defaults a part without a name, type or encoding gets. *)
Definition normalized (i : Z) (part : MessagePart) : MessagePart :=
  {| partName := orDefault (partName part) ("part-" +:+ stringOf (formatDecimal (i + 1)));
     ContentType := orDefault (ContentType part) DefaultContentType;
     Encoding := orDefault (Encoding part) EncodingUTF8;
     partBytes := partBytes part; partSize := lenZ (partBytes part) |}.

Lemma textByte_find l :
  find (fun b => (b <? 0x20) && negb (b =? 10) && negb (b =? 9)) l = None <-> forallb textByte l = true.
Proof.
  rewrite find_None_Forall, forallb_forall, Forall_forall. unfold textByte.
  split; intros H x Hx%list_elem_of_In; specialize (H x Hx); by destruct (_ && _).
Qed.

Lemma normalizePart_ok i part limit p :
  normalizePart i part limit = inr p <-> p = normalized i part /\ validPart limit p.
Proof.
  unfold normalizePart. fold (normalized i part). cbv zeta. rewrite !if_fails_inr, limit_ok, Z.eqb_neq.
  set (q := normalized i part). pose proof (lenZ_nonneg (partBytes part)) as Hn.
  assert (partSize q = lenZ (partBytes q)) as Hq by done. assert (0 <= partSize q) by done.
  unfold validPart. destruct (String.eqb_spec (Encoding q) EncodingUTF8) as [E|E].
  - rewrite if_fails_inr, negb_false_iff, <- textByte_find. split.
    + intros (H1 & H2 & H3 & H4). destruct (find _ _) eqn:Hf; [done|]. apply mret_inr in H4 as <-.
      split_and!; try done; [lia|]. left. by rewrite Hf.
    + intros (-> & _ & H1 & H2 & [(_ & H3 & H4)|H3]); [|by rewrite E in H3].
      split_and!; try done; [lia|]. by rewrite H4.
  - destruct (String.eqb_spec (Encoding q) EncodingBase64) as [E'|E'].
    + rewrite mret_inr. split; [intros (H1 & H2 & <-); split_and!; try done; [lia|by right]|].
      intros (-> & _ & H1 & H2 & _). split_and!; try done. lia.
    + split; [by intros (_ & _ & ?)|]. intros (-> & _ & _ & _ & [(? & _)|?]); done.
Qed.

Fixpoint normalizedFrom (i : Z) (parts : list MessagePart) : list MessagePart :=
  match parts with [] => [] | p :: parts => normalized i p :: normalizedFrom (i + 1) parts end.

Lemma normalizePartsLoop_ok i total parts pl tl out total' :
  (0 < tl -> total <= tl) ->
  normalizePartsLoop i total parts pl tl = inr (out, total') <->
  out = normalizedFrom i parts /\ Forall (validPart pl) out /\
  total' = total + sumZ (map partSize out) /\ (0 < tl -> total' <= tl).
Proof.
  revert i total out total'. induction parts as [|p parts IH]; intros i total out total' Ht;
    cbn [normalizePartsLoop normalizedFrom].
  - rewrite mret_inr. split; [intros [= <- <-]|intros (-> & _ & -> & _); by rewrite Z.add_0_r].
    split_and!; try done. cbn [map]. rewrite sumZ_nil. lia.
  - rewrite res_bind_inr. setoid_rewrite normalizePart_ok. split.
    + intros (q & (-> & Hq) & H). apply if_fails_inr in H as [Hl H]. rewrite limit_ok in Hl.
      apply res_bind_inr in H as ([out' t'] & H & [= <- <-]%mret_inr).
      apply IH in H as (-> & H1 & -> & H2); [|done].
      split_and!; [done|by constructor|cbn [map]; rewrite sumZ_cons; lia|done].
    + intros (-> & HF & -> & Htl). inversion_clear HF as [|? ? Hq HF'].
      cbn [map] in *. rewrite sumZ_cons in *. exists (normalized i p). split; [done|].
      assert (0 <= sumZ (map partSize (normalizedFrom (i + 1) parts))) as Hs.
      { pose proof (sumZ_lower (map partSize (normalizedFrom (i + 1) parts)) 0) as Hlow.
        rewrite Z.mul_0_r in Hlow. apply Hlow, Forall_map. eapply Forall_impl; [exact HF'|].
        intros x (_ & Hx & _). simpl. lia. }
      apply if_fails_inr. split; [apply limit_ok; lia|]. apply res_bind_inr.
      eexists (normalizedFrom (i + 1) parts, _). rewrite IH by lia.
      split_and!; try done; [lia|]. apply mret_inr. f_equal. lia.
Qed.

(** The parts a request is stored as. *)
Definition requestParts (req : SendRequest) : list MessagePart :=
  normalizedFrom 0
    (match reqBody req with
     | [] => reqParts req
     | body => [{| partName := "body"; ContentType := DefaultContentType; Encoding := EncodingUTF8;
                   partBytes := body; partSize := 0 |}]
     end).
Definition validBody (l : Limits) (req : SendRequest) : Prop :=
  (reqBody req = [] <-> reqParts req <> []) /\
  Forall (validPart (PartBytes l)) (requestParts req) /\
  (0 < TotalBodyBytes l -> sumZ (map partSize (requestParts req)) <= TotalBodyBytes l).

Lemma normalizeParts_ok req l out total :
  normalizeParts (reqBody req) (reqParts req) (PartBytes l) (TotalBodyBytes l) = inr (out, total) <->
  out = requestParts req /\ total = sumZ (map partSize out) /\ validBody l req.
Proof.
  unfold normalizeParts, validBody, requestParts.
  destruct (reqBody req) as [|b body] eqn:Eb, (reqParts req) as [|p parts] eqn:Ep;
    rewrite ?normalizePartsLoop_ok by lia; try (split; [done|naive_solver]); naive_solver.
Qed.

Definition validEntry (kv : string * bytes) : Prop :=
  kv.1 <> ""%string /\ hasPrefix (bytesOf "amux.") (bytesOf kv.1) = false /\ jsonValid kv.2 = true.
Definition metadataOf (src : list (string * bytes)) (out : gmap string bytes) : gmap string bytes :=
  foldl (fun m kv => <[kv.1 := kv.2]> m) out src.
Definition validMetadata (limit : Z) (src : list (string * bytes)) : Prop :=
  Forall validEntry src /\ (0 < limit -> metadataByteSize (metadataOf src ∅) <= limit).

Lemma validateMetadataLoop_ok out src m :
  validateMetadataLoop out src = inr m <-> m = metadataOf src out /\ Forall validEntry src.
Proof.
  revert out. induction src as [|[k v] src IH]; intros out; cbn [validateMetadataLoop].
  - rewrite mret_inr. simpl. naive_solver.
  - rewrite !if_fails_inr, IH, String.eqb_neq, negb_false_iff, Forall_cons. unfold validEntry. simpl. naive_solver.
Qed.

Lemma validateMetadata_ok src limit m :
  validateMetadata src limit = inr m <-> m = metadataOf src ∅ /\ validMetadata limit src.
Proof.
  unfold validateMetadata, validMetadata. destruct src as [|kv src].
  - rewrite mret_inr. simpl. split; [intros <-|naive_solver]. split_and!; [done|done|].
    unfold metadataByteSize. rewrite map_to_list_empty. lia.
  - rewrite res_bind_inr. setoid_rewrite validateMetadataLoop_ok. cbv zeta.
    split.
    + intros (x & (-> & H1) & [H2 <-%mret_inr]%if_fails_inr). by rewrite limit_ok in H2.
    + intros (-> & H1 & H2). eexists. split; [done|]. apply if_fails_inr. by rewrite limit_ok.
Qed.

(** ** Send: one check of the request, then one update *)

Definition replyParent (s : Store) (req : SendRequest) : option Message :=
  if String.eqb (ReplyTo req) "" then None else messages s !! ReplyTo req.
Definition validReply (s : Store) (req : SendRequest) : Prop :=
  ReplyTo req <> ""%string ->
  exists parent, messages s !! ReplyTo req = Some parent /\
    (reqThreadID req = ""%string \/ reqThreadID req = ThreadID parent).
Definition requestBytes (req : SendRequest) : Z :=
  sumZ (map partSize (requestParts req)) + metadataByteSize (metadataOf (reqMetadata req) ∅).

(** What the store asks of a request. *)
Definition acceptable (s : Store) (req : SendRequest) : Prop :=
  (0 < StoredMessages (limits s) -> lenMessages s < StoredMessages (limits s)) /\
  validAddress (reqSender req) /\
  validRecipients (RecipientsPerMsg (limits s)) (reqRecipients req) /\
  validSubject (SubjectBytes (limits s)) (reqSubject req) /\
  validLabels (reqTopics req) /\ validLabels (reqGroups req) /\
  validBody (limits s) req /\
  validMetadata (MetadataBytes (limits s)) (reqMetadata req) /\
  validReply s req /\
  (0 < StoredMailboxBytes (limits s) ->
   requestBytes req + storedBytes (messages s) <= StoredMailboxBytes (limits s)).

(** The message an accepted request is stored as. *)
Definition sentID (s : Store) : string := messageIDOf (nextSeq s).
Definition sentThread (s : Store) (req : SendRequest) : string :=
  orDefault (match replyParent s req with Some p => ThreadID p | None => reqThreadID req end) (sentID s).
Definition sentMessage (s : Store) (req : SendRequest) (now : Z) : Message :=
  {| msgID := sentID s; ThreadID := sentThread s req; InReplyTo := ReplyTo req; Replies := [];
     Sender := reqSender req; Recipients := reqRecipients req; Topics := reqTopics req;
     Groups := reqGroups req; Subject := reqSubject req; Parts := requestParts req;
     Metadata := metadataOf (reqMetadata req) ∅;
     CreatedAt := now; UpdatedAt := now; ExpiresAt := reqExpiresAt req |}.

Definition sentStore (s : Store) (req : SendRequest) (now : Z) : Store :=
  let id := sentID s in
  {| nextSeq := wrap64 (nextSeq s + 1);
     messages := addReply ((fun _ => ReplyTo req) <$> replyParent s req) id now
                   (<[id := sentMessage s req now]> (messages s));
     deliveries := foldl (addDelivery id now) (deliveries s) (reqRecipients req);
     threads := <[sentThread s req := default [] (threads s !! sentThread s req) ++ [id]]> (threads s);
     limits := limits s |}.

Lemma liftRes_bind {A B} (r : res A) (f : A -> StoreOp B) s :
  (liftRes r ≫= f) s = match r with inl e => (s, inl e) | inr x => f x s end.
Proof. by destruct r. Qed.
Lemma getStore_bind {B} (f : Store -> StoreOp B) s : (getStore ≫= f) s = f s s.
Proof. done. Qed.

Lemma resolveThread_ok s req r :
  resolveThread s (ReplyTo req) (reqThreadID req) = inr r <->
  validReply s req /\
  r = ((fun _ => ReplyTo req) <$> replyParent s req,
       match replyParent s req with Some p => ThreadID p | None => reqThreadID req end).
Proof.
  unfold resolveThread, replyParent, validReply. destruct (String.eqb_spec (ReplyTo req) "") as [E|E].
  - rewrite mret_inr. naive_solver.
  - destruct (messages s !! ReplyTo req) as [p|]; simpl; [|naive_solver].
    destruct (String.eqb_spec (reqThreadID req) ""), (String.eqb_spec (reqThreadID req) (ThreadID p)); simpl;
      rewrite ?mret_inr; naive_solver.
Qed.

Lemma validateCanStoreMessage_ok s u :
  validateCanStoreMessage s = inr u <->
  (0 < StoredMessages (limits s) -> lenMessages s < StoredMessages (limits s)).
Proof.
  unfold validateCanStoreMessage. rewrite if_fails_inr. destruct u.
  destruct (Z.ltb_spec 0 (StoredMessages (limits s))), (Z.leb_spec (StoredMessages (limits s)) (lenMessages s));
    simpl; naive_solver lia.
Qed.
Lemma validateMailboxByteLimit_ok s b m u :
  validateMailboxByteLimit s b m = inr u <->
  (0 < StoredMailboxBytes (limits s) -> b + m + storedBytes (messages s) <= StoredMailboxBytes (limits s)).
Proof.
  unfold validateMailboxByteLimit. destruct u.
  destruct (Z.leb_spec (StoredMailboxBytes (limits s)) 0); [naive_solver lia|].
  rewrite if_fails_inr, Z.ltb_ge. naive_solver lia.
Qed.

(** A check of the chain: it fails and with it the request, or it goes on. *)
Ltac send_check H :=
  rewrite liftRes_bind;
  match goal with
  | |- context [match ?r with inl _ => _ | inr _ => _ end] =>
      destruct r as [?e|?x] eqn:H;
      [right; split; [intros (?&?&?&?&?&?&?&?&?&?)|by eexists]|]
  end.

Lemma Send_cases s req now :
  (acceptable s req /\ Send req now s = (sentStore s req now, inr (sentMessage s req now))) \/
  (~ acceptable s req /\ exists e, Send req now s = (s, inl e)).
Proof.
  assert (Hno : forall A (r : res A) e x, r = inl e -> r = inr x -> False) by (intros; congruence).
  unfold Send. rewrite getStore_bind.
  send_check E1; [by eapply Hno, (validateCanStoreMessage_ok s tt)|]. rewrite validateCanStoreMessage_ok in E1.
  send_check E2; [by eapply Hno, (validateAddress_ok _ _ _)|]. apply validateAddress_ok in E2 as [-> E2].
  send_check E3; [by eapply Hno, (validateRecipients_ok _ _ _)|]. apply validateRecipients_ok in E3 as [-> E3].
  send_check E4; [by eapply Hno, (validateSubject_ok _ _ tt)|]. apply validateSubject_ok in E4.
  send_check E5; [by eapply Hno, (validateLabels_ok _ _ _)|]. apply validateLabels_ok in E5 as [-> E5].
  send_check E6; [by eapply Hno, (validateLabels_ok _ _ _)|]. apply validateLabels_ok in E6 as [-> E6].
  send_check E7; [by eapply Hno, (normalizeParts_ok _ _ _ _)|].
  match type of E7 with _ = inr ?x => destruct x as [parts total] end. apply normalizeParts_ok in E7 as (-> & -> & E7).
  send_check E8; [by eapply Hno, (validateMetadata_ok _ _ _)|]. apply validateMetadata_ok in E8 as [-> E8].
  send_check E9; [by eapply Hno, (resolveThread_ok _ _ _)|].
  apply resolveThread_ok in E9 as [E9 ->].
  send_check E10; [by eapply Hno, (validateMailboxByteLimit_ok _ _ _ tt)|].
  rewrite validateMailboxByteLimit_ok in E10.
  left. split; [done|]. reflexivity.
Qed.
