(* ===== verification/MailboxInv.v ===== *)
(** * The mailbox: the invariant of a store and the operations that keep it *)

From S2P Require Import Prelude GoText GoCodec Mailbox MailboxFacts.

(** ** Identifiers *)

Lemma drop_prefix (a b : bytes) : drop (length a) (a ++ b) = b.
Proof. by rewrite drop_app_length. Qed.

Lemma bytesOf_messageID n :
  0 <= n -> bytesOf (messageIDOf n) = bytesOf "msg-" ++ padZeros 6 (formatDecimal n).
Proof.
  intros Hn. unfold messageIDOf. by rewrite bytesOf_app, bytesOf_stringOf by by apply formatDecimal_isByte.
Qed.
Lemma parse_messageID n : 0 <= n < 2 ^ 64 -> parseMessageSeq (messageIDOf n) = Some n.
Proof.
  intros Hn. unfold parseMessageSeq. cbv zeta. rewrite bytesOf_messageID by lia.
  assert (hasPrefix (bytesOf "msg-") (bytesOf "msg-" ++ padZeros 6 (formatDecimal n)) = true) as ->
    by (apply hasPrefix_spec; by eexists).
  rewrite drop_prefix. by apply ParseUint_format.
Qed.
Lemma messageID_inj n k :
  0 <= n < 2 ^ 64 -> 0 <= k < 2 ^ 64 -> messageIDOf n = messageIDOf k -> n = k.
Proof.
  intros Hn Hk E. apply parse_messageID in Hn. apply parse_messageID in Hk. rewrite E in Hn. congruence.
Qed.
Lemma messageID_nonempty n : messageIDOf n <> ""%string.
Proof. done. Qed.
Lemma orDefault_nonempty s d : d <> ""%string -> orDefault s d <> ""%string.
Proof. unfold orDefault. by destruct (String.eqb_spec s ""). Qed.
Lemma wrap64_small n : 0 <= n < 2 ^ 64 -> wrap64 n = n.
Proof. intros H. by apply Z.mod_small. Qed.

(** ** Deliveries as a map of pairs *)

Definition look (ds : gmap Z (gmap string DeliveryState)) (r : Z) (id : string) : option DeliveryState :=
  default ∅ (ds !! r) !! id.
Definition deliveryOf (s : Store) (r : Z) (id : string) : option DeliveryState := look (deliveries s) r id.
Definition newDelivery (id : string) (now : Z) (a : PaneAddress) : DeliveryState :=
  {| MessageID := id; Recipient := a; DeliveredAt := now;
     ReadAt := 0; AckedAt := 0; AckStatus := ""; AckNote := ""; LastEventSeq := 0 |}.

Lemma look_addDelivery id now ds a r id' :
  look (addDelivery id now ds a) r id' =
  if bool_decide (r = addrID a /\ id' = id) then Some (newDelivery id now a) else look ds r id'.
Proof.
  unfold look, addDelivery. case_bool_decide as H.
  - destruct H as [-> ->]. rewrite lookup_insert_eq. simpl. by rewrite lookup_insert_eq.
  - destruct (decide (r = addrID a)) as [->|Hr].
    + rewrite lookup_insert_eq. simpl. rewrite lookup_insert_ne by naive_solver. done.
    + by rewrite lookup_insert_ne by done.
Qed.

Lemma look_foldl_other id now ds rs r id' :
  id' <> id \/ r ∉ map addrID rs -> look (foldl (addDelivery id now) ds rs) r id' = look ds r id'.
Proof.
  revert ds. induction rs as [|a rs IH]; intros ds H; simpl; [done|].
  rewrite IH by (simpl in H; set_solver). rewrite look_addDelivery, bool_decide_eq_false_2; [done|].
  simpl in H. set_solver.
Qed.
Lemma look_foldl_in id now ds rs a :
  NoDup (map addrID rs) -> a ∈ rs ->
  look (foldl (addDelivery id now) ds rs) (addrID a) id = Some (newDelivery id now a).
Proof.
  revert ds. induction rs as [|b rs IH]; intros ds Hn Ha; simpl; [by apply elem_of_nil in Ha|].
  simpl in Hn. apply NoDup_cons in Hn as [Hb Hn]. apply elem_of_cons in Ha as [->|Ha]; [|by apply IH].
  rewrite look_foldl_other by by right. rewrite look_addDelivery, bool_decide_eq_true_2; done.
Qed.
(** A delivery found after the loop is an old one or the one of a recipient. *)
Lemma look_foldl_Some id now ds rs r id' d :
  NoDup (map addrID rs) -> look (foldl (addDelivery id now) ds rs) r id' = Some d ->
  (look ds r id' = Some d /\ (id' <> id \/ r ∉ map addrID rs)) \/
  (id' = id /\ exists a, a ∈ rs /\ r = addrID a /\ d = newDelivery id now a).
Proof.
  intros Hn H. assert (Hd : (id' = id /\ r ∈ map addrID rs) \/ (id' <> id \/ r ∉ map addrID rs)).
  { destruct (decide (id' = id)), (decide (r ∈ map addrID rs)); auto. }
  destruct Hd as [[-> Hr]|Hr].
  - right. split; [done|]. apply list_elem_of_fmap in Hr as (a & -> & Ha). exists a.
    rewrite look_foldl_in in H by done. naive_solver.
  - left. split; [|done]. by rewrite look_foldl_other in H.
Qed.
Lemma addDelivery_nonempty id now ds rs :
  (forall r bm, ds !! r = Some bm -> bm <> ∅) ->
  forall r bm, foldl (addDelivery id now) ds rs !! r = Some bm -> bm <> ∅.
Proof.
  revert ds. induction rs as [|a rs IH]; intros ds H; simpl; [done|]. apply IH. intros r bm.
  unfold addDelivery. destruct (decide (r = addrID a)) as [->|Hr].
  - rewrite lookup_insert_eq. intros [= <-]. apply insert_non_empty.
  - rewrite lookup_insert_ne by done. apply H.
Qed.

(** ** The invariant of any store *)

Record StoreInv (s : Store) : Prop := {
  inv_seq : 0 < nextSeq s < 2 ^ 64;
  inv_key : forall id m, messages s !! id = Some m -> msgID m = id /\ id <> ""%string;
  inv_fresh : forall id m n, messages s !! id = Some m -> parseMessageSeq id = Some n -> n < nextSeq s;
  inv_delivery : forall r id d, deliveryOf s r id = Some d ->
    r <> 0 /\ MessageID d = id /\ addrID (Recipient d) = r /\ is_Some (messages s !! id);
  inv_inner : forall r bm, deliveries s !! r = Some bm -> bm <> ∅;
  inv_thread : forall t ids, threads s !! t = Some ids -> t <> ""%string /\ ids <> [] /\ NoDup ids /\
    forall id, id ∈ ids -> exists m, messages s !! id = Some m /\ ThreadID m = t;
  inv_threaded : forall id m, messages s !! id = Some m -> ThreadID m <> ""%string ->
    id ∈ default [] (threads s !! ThreadID m) }.

Lemma StoreInv_new opts : StoreInv (NewStore opts).
Proof.
  split; simpl; try by (intros * H; rewrite ?lookup_empty in H). lia.
Qed.

(** The identifier of the next message is not in use. *)
Lemma sentID_fresh s : StoreInv s -> messages s !! sentID s = None.
Proof.
  intros Hs. destruct (messages s !! sentID s) as [m|] eqn:E; [|done].
  pose proof (inv_seq s Hs). pose proof (inv_fresh s Hs _ _ (nextSeq s) E) as H'.
  unfold sentID in H'. rewrite parse_messageID in H' by lia. specialize (H' eq_refl). lia.
Qed.

(** What changes in a stored message: its replies and the time of its update. *)
Definition sameMessage (m m' : Message) : Prop := setReplies [] 0 m = setReplies [] 0 m'.
#[export] Instance sameMessage_equiv : Equivalence sameMessage.
Proof. unfold sameMessage. split; repeat intro; congruence. Qed.
Lemma sameMessage_setReplies rs now m : sameMessage m (setReplies rs now m).
Proof. done. Qed.
#[export] Instance msgID_proper : Proper (sameMessage ==> eq) msgID.
Proof. intros m m' H. by injection H. Qed.
#[export] Instance ThreadID_proper : Proper (sameMessage ==> eq) ThreadID.
Proof. intros m m' H. by injection H. Qed.
#[export] Instance InReplyTo_proper : Proper (sameMessage ==> eq) InReplyTo.
Proof. intros m m' H. by injection H. Qed.
#[export] Instance Recipients_proper : Proper (sameMessage ==> eq) Recipients.
Proof. intros m m' H. by injection H. Qed.

(** The messages after a send: the new one, and the others as they were but for
    the reply a parent gets. *)
Lemma lookup_sent s req now i :
  StoreInv s ->
  messages (sentStore s req now) !! i =
  if decide (i = sentID s) then Some (sentMessage s req now)
  else (fun m => match replyParent s req with
                 | Some _ => if decide (i = ReplyTo req) then setReplies (Replies m ++ [sentID s]) now m else m
                 | None => m
                 end) <$> messages s !! i.
Proof.
  intros Hs. pose proof (sentID_fresh s Hs) as Hf. simpl. unfold addReply.
  destruct (replyParent s req) as [p|] eqn:Ep; simpl.
  - assert (messages s !! ReplyTo req = Some p) as Hp by (unfold replyParent in Ep; by destruct (String.eqb _ _)).
    assert (ReplyTo req <> sentID s) as Hne by congruence.
    destruct (String.eqb_spec (ReplyTo req) (sentID s)) as [|_]; [done|].
    destruct (decide (i = sentID s)) as [->|Hi].
    + rewrite lookup_alter_ne by done. by rewrite lookup_insert_eq.
    + destruct (decide (i = ReplyTo req)) as [->|Hr].
      * rewrite lookup_alter_eq, lookup_insert_ne by done. done.
      * rewrite lookup_alter_ne, lookup_insert_ne by done. by rewrite option_fmap_id.
  - destruct (decide (i = sentID s)) as [->|Hi]; [by rewrite lookup_insert_eq|].
    rewrite lookup_insert_ne by done. by rewrite option_fmap_id.
Qed.

Lemma lookup_sent_new s req now :
  StoreInv s -> messages (sentStore s req now) !! sentID s = Some (sentMessage s req now).
Proof. intros Hs. rewrite lookup_sent by done. by rewrite decide_True. Qed.
Lemma lookup_sent_old s req now i m :
  StoreInv s -> messages s !! i = Some m ->
  i <> sentID s /\ exists m', messages (sentStore s req now) !! i = Some m' /\ sameMessage m m'.
Proof.
  intros Hs Hm. pose proof (sentID_fresh s Hs). assert (i <> sentID s) as Hi by congruence.
  split; [done|]. rewrite lookup_sent by done. rewrite decide_False, Hm by done. eexists. split; [done|].
  by repeat case_match.
Qed.
Lemma lookup_sent_inv s req now i m' :
  StoreInv s -> messages (sentStore s req now) !! i = Some m' ->
  (i = sentID s /\ m' = sentMessage s req now) \/
  (i <> sentID s /\ exists m, messages s !! i = Some m /\ sameMessage m m').
Proof.
  intros Hs. rewrite lookup_sent by done. destruct (decide (i = sentID s)) as [->|Hi].
  - intros [= <-]. by left.
  - intros (m & Hm & ->)%fmap_Some. right. split; [done|]. exists m. split; [done|].
    by repeat case_match.
Qed.

Lemma sentThread_nonempty s req : sentThread s req <> ""%string.
Proof. apply orDefault_nonempty. done. Qed.

Lemma StoreInv_send s req now :
  StoreInv s -> NoDup (map addrID (reqRecipients req)) -> Forall validAddress (reqRecipients req) ->
  nextSeq s + 1 < 2 ^ 64 -> StoreInv (sentStore s req now).
Proof.
  intros Hs Hn Ha Hw. pose proof (inv_seq s Hs) as Hseq. pose proof (sentID_fresh s Hs) as Hf.
  split.
  - simpl. rewrite wrap64_small; lia.
  - intros id m [[-> ->]|(_ & m0 & Hm & E)]%lookup_sent_inv; [done| |done].
    rewrite <- E. by apply (inv_key s Hs).
  - intros id m n [[-> ->]|(_ & m0 & Hm & _)]%lookup_sent_inv Hp; [| |done]; simpl; rewrite wrap64_small by lia.
    + unfold sentID in Hp. rewrite parse_messageID in Hp by lia. injection Hp as <-. lia.
    + pose proof (inv_fresh s Hs _ _ _ Hm Hp). lia.
  - intros r id d [[H _]|(-> & a & Hin & -> & ->)]%look_foldl_Some; [| |done].
    + apply (inv_delivery s Hs) in H as (H1 & H2 & H3 & [m Hm]). split_and!; try done.
      destruct (lookup_sent_old s req now id m Hs Hm) as (_ & m' & -> & _). by eexists.
    + apply (proj1 (Forall_forall _ _) Ha) in Hin as [H0 _]. split_and!; try done.
      rewrite lookup_sent_new by done. by eexists.
  - apply addDelivery_nonempty, (inv_inner s Hs).
  - intros t ids. simpl. destruct (decide (t = sentThread s req)) as [->|Ht].
    + rewrite lookup_insert_eq. intros [= <-].
      assert (Hold : forall id, id ∈ default [] (threads s !! sentThread s req) ->
                exists m, messages s !! id = Some m /\ ThreadID m = sentThread s req).
      { intros id. destruct (threads s !! sentThread s req) as [l|] eqn:El; simpl; [|by intros ?%elem_of_nil].
        by apply (inv_thread s Hs _ _ El). }
      split_and!; [apply sentThread_nonempty|by intros [_ ?]%app_eq_nil| |].
      * apply NoDup_app. split_and!; [|intros x Hx ->%list_elem_of_singleton|apply NoDup_singleton].
        { destruct (threads s !! _) eqn:El; simpl; [by apply (inv_thread s Hs _ _ El)|apply NoDup_nil_2]. }
        apply Hold in Hx as (m & Hm & _). congruence.
      * intros id [Hid| ->%list_elem_of_singleton]%elem_of_app.
        { apply Hold in Hid as (m & Hm & HT).
          destruct (lookup_sent_old s req now id m Hs Hm) as (_ & m' & Hm' & E). exists m'. split; [done|by rewrite <- E]. }
        eexists. split; [by apply lookup_sent_new|done].
    + rewrite lookup_insert_ne by done. intros El. destruct (inv_thread s Hs _ _ El) as (H1 & H2 & H3 & H4).
      split_and!; try done. intros id (m & Hm & HT)%H4.
      destruct (lookup_sent_old s req now id m Hs Hm) as (_ & m' & Hm' & E). exists m'. split; [done|by rewrite <- E].
  - intros id m [[-> ->]|(_ & m0 & Hm & E)]%lookup_sent_inv HT; [| |done].
    + simpl. rewrite lookup_insert_eq. simpl. set_solver.
    + rewrite <- E in *. pose proof (inv_threaded s Hs _ _ Hm HT) as Hin. simpl.
      destruct (decide (ThreadID m0 = sentThread s req)) as [Et|Et].
      * rewrite Et in *. rewrite lookup_insert_eq. simpl. set_solver.
      * by rewrite lookup_insert_ne.
Qed.

(** ** Read, Ack and SetLastEventSeq *)

Lemma messageDelivery_ok s id r m d :
  messageDelivery s id r = inr (m, d) <-> r <> 0 /\ messages s !! id = Some m /\ deliveryOf s r id = Some d.
Proof.
  unfold messageDelivery, deliveryOf, look. destruct (Z.eqb_spec r 0) as [E|E]; [naive_solver|].
  destruct (messages s !! id); [|by split; [|intros (_ & ? & _)]].
  destruct (default ∅ _ !! id); [|by split; [|intros (_ & _ & ?)]].
  split; [by intros [= <- <-]|by intros (_ & [= <-] & [= <-])].
Qed.

Definition sameDelivery (d d' : DeliveryState) : Prop :=
  MessageID d = MessageID d' /\ Recipient d = Recipient d' /\ DeliveredAt d = DeliveredAt d'.

Lemma deliveryOf_write r id d s r' id' :
  is_Some (deliveryOf s r id) ->
  deliveryOf (writeDelivery r id d s) r' id' =
  if decide (r' = r /\ id' = id) then Some d else deliveryOf s r' id'.
Proof.
  unfold deliveryOf, look. simpl. intros [d0 H]. destruct (deliveries s !! r) as [bm|] eqn:E; [|done].
  destruct (decide (r' = r /\ id' = id)) as [[-> ->]|Hn].
  - rewrite lookup_alter_eq, E. simpl. by rewrite lookup_insert_eq.
  - destruct (decide (r' = r)) as [->|Hr]; [|by rewrite lookup_alter_ne].
    rewrite lookup_alter_eq, E. simpl. rewrite lookup_insert_ne; [done|by intros ->; apply Hn].
Qed.

Lemma StoreInv_writeDelivery s r id d d' :
  StoreInv s -> deliveryOf s r id = Some d -> sameDelivery d d' -> StoreInv (writeDelivery r id d' s).
Proof.
  intros Hs Hd (E1 & E2 & _). split; try apply Hs.
  - intros r' id' d0. rewrite deliveryOf_write by by eexists. case_decide as Hc; [|apply Hs].
    destruct Hc as [-> ->]. intros [= <-]. rewrite <- E1, <- E2. by apply (inv_delivery s Hs).
  - intros r' bm. simpl. destruct (decide (r' = r)) as [->|Hr].
    + rewrite lookup_alter_eq. destruct (deliveries s !! r); [|done]. intros [= <-]. apply insert_non_empty.
    + rewrite lookup_alter_ne by done. apply Hs.
Qed.

(** Replacing a message by one that is related to it. *)
Lemma lookup_write (R : relation Message) `{!Reflexive R} id m m' s i :
  messages s !! id = Some m -> R m m' ->
  (forall x', messages (writeMessage id m' s) !! i = Some x' ->
   exists x, messages s !! i = Some x /\ R x x') /\
  (forall x, messages s !! i = Some x ->
   exists x', messages (writeMessage id m' s) !! i = Some x' /\ R x x').
Proof.
  intros Hm E. simpl. destruct (decide (i = id)) as [->|Hi].
  - rewrite lookup_insert_eq. split; [intros x' [= <-]; by exists m|]. intros x Hx. exists m'. naive_solver.
  - rewrite lookup_insert_ne by done. split; intros x Hx; by exists x.
Qed.

Lemma StoreInv_writeMessage s id m m' :
  StoreInv s -> messages s !! id = Some m -> sameMessage m m' -> StoreInv (writeMessage id m' s).
Proof.
  intros Hs Hm E. pose proof (fun i => proj1 (lookup_write sameMessage id m m' s i Hm E)) as Hback.
  pose proof (fun i => proj2 (lookup_write sameMessage id m m' s i Hm E)) as Hforth. split.
  - apply Hs.
  - intros i x' (x & Hx & Ex)%Hback. rewrite <- Ex. by apply (inv_key s Hs).
  - intros i x' n (x & Hx & Ex)%Hback. by apply (inv_fresh s Hs _ _ _ Hx).
  - intros r i d H. apply (inv_delivery s Hs) in H as (H1 & H2 & H3 & x & Hx). split_and!; try done.
    apply Hforth in Hx as (x' & -> & _). by eexists.
  - apply Hs.
  - intros t ids H. destruct (inv_thread s Hs t ids H) as (H1 & H2 & H3 & H4). split_and!; try done.
    intros i (x & Hx & Et)%H4. apply Hforth in Hx as (x' & Hx' & Ex). exists x'. split; [done|by rewrite <- Ex].
  - intros i x' (x & Hx & Ex)%Hback. rewrite <- Ex. by apply (inv_threaded s Hs _ _ Hx).
Qed.

(** What an operation on one delivery does to the store: nothing, or it writes
    the delivery and perhaps the time of the message. *)
Inductive touched (id : string) (r : Z) (s : Store) : Store -> Prop :=
| touched_none : touched id r s s
| touched_delivery d d' : deliveryOf s r id = Some d -> sameDelivery d d' ->
    touched id r s (writeDelivery r id d' s)
| touched_both m m' d d' : messages s !! id = Some m -> deliveryOf s r id = Some d ->
    m' = setReplies (Replies m) (UpdatedAt m') m -> sameDelivery d d' ->
    touched id r s (writeMessage id m' (writeDelivery r id d' s)).

Lemma StoreInv_touched id r s s' : StoreInv s -> touched id r s s' -> StoreInv s'.
Proof.
  intros Hs [|d d' Hd E|m m' d d' Hm Hd Em E]; [done|by eapply StoreInv_writeDelivery|].
  eapply StoreInv_writeMessage; [by eapply StoreInv_writeDelivery|exact Hm|rewrite Em; done].
Qed.

Lemma Read_cases s id r peek now :
  (exists m d, messageDelivery s id r = inr (m, d) /\
     Read id r peek now s =
     if negb peek && (ReadAt d =? 0)
     then (writeMessage id (setUpdatedAt now m) (writeDelivery r id (setReadAt now d) s),
           inr (setUpdatedAt now m, setReadAt now d))
     else (s, inr (m, d))) \/
  (exists e, messageDelivery s id r = inl e /\ Read id r peek now s = (s, inl e)).
Proof.
  unfold Read. rewrite getStore_bind, liftRes_bind. destruct (messageDelivery s id r) as [e|[m d]].
  - right. by exists e.
  - left. exists m, d. split; [done|]. by destruct (_ && _).
Qed.

Definition ackChanges (d : DeliveryState) (req : AckRequest) : bool :=
  (AckedAt d =? 0) || negb (String.eqb (AckStatus d) (Status req)) || negb (String.eqb (AckNote d) (Note req)).

Lemma Ack_cases s id r req now :
  (lenZ (bytesOf (Note req)) <= AckNoteBytes (limits s) /\
   exists m d, messageDelivery s id r = inr (m, d) /\
     Ack id r req now s =
     if ackChanges d req
     then (writeMessage id (setUpdatedAt now m) (writeDelivery r id (setAcked now (Status req) (Note req) d) s),
           inr (setAcked now (Status req) (Note req) d))
     else (s, inr d)) \/
  ((AckNoteBytes (limits s) < lenZ (bytesOf (Note req)) \/ exists e, messageDelivery s id r = inl e) /\
   exists e, Ack id r req now s = (s, inl e)).
Proof.
  unfold Ack, check. rewrite getStore_bind, liftRes_bind.
  destruct (Z.leb_spec (lenZ (bytesOf (Note req))) (AckNoteBytes (limits s))) as [Hl|Hl].
  - rewrite liftRes_bind. destruct (messageDelivery s id r) as [e|[m d]]; simpl.
    + right. split; [right|]; by exists e.
    + left. split; [done|]. exists m, d. split; [done|]. unfold ackChanges. by destruct (_ || _ || _).
  - right. split; [by left|]. by eexists.
Qed.

Lemma SetLastEventSeq_cases s id r seq :
  (exists m d, messageDelivery s id r = inr (m, d) /\
     SetLastEventSeq id r seq s = (writeDelivery r id (setEventSeq seq d) s, summaryFor (Some m) (setEventSeq seq d))) \/
  (exists e, messageDelivery s id r = inl e /\ SetLastEventSeq id r seq s = (s, inl e)).
Proof.
  unfold SetLastEventSeq. rewrite getStore_bind, liftRes_bind. destruct (messageDelivery s id r) as [e|[m d]].
  - right. by exists e.
  - left. by exists m, d.
Qed.

(** ** The operations as steps *)

Inductive mop :=
| OpSend (req : SendRequest)
| OpRead (id : string) (recipient : Z) (peek : bool)
| OpAck (id : string) (recipient : Z) (req : AckRequest)
| OpEventSeq (id : string) (recipient seq : Z).

Definition mrun (op : mop) (now : Z) (s : Store) : Store :=
  match op with
  | OpSend req => fst (Send req now s)
  | OpRead id r peek => fst (Read id r peek now s)
  | OpAck id r req => fst (Ack id r req now s)
  | OpEventSeq id r seq => fst (SetLastEventSeq id r seq s)
  end.

Lemma mrun_cases op now s :
  mrun op now s = s \/
  (exists req, op = OpSend req /\ acceptable s req /\ mrun op now s = sentStore s req now) \/
  (exists id r, touched id r s (mrun op now s)).
Proof.
  destruct op as [req|id r peek|id r req|id r seq]; simpl.
  - destruct (Send_cases s req now) as [[H ->]|[_ [e ->]]]; [|by left]. right. left. by exists req.
  - destruct (Read_cases s id r peek now) as [(m & d & Hd & ->)|(e & _ & ->)]; [|by left].
    destruct (_ && _); [|by left]. right. right. exists id, r. apply messageDelivery_ok in Hd as (_ & Hm & Hd).
    by eapply touched_both.
  - destruct (Ack_cases s id r req now) as [(_ & m & d & Hd & ->)|(_ & e & ->)]; [|by left].
    destruct (ackChanges _ _); [|by left]. right. right. exists id, r. apply messageDelivery_ok in Hd as (_ & Hm & Hd).
    by eapply touched_both.
  - destruct (SetLastEventSeq_cases s id r seq) as [(m & d & Hd & ->)|(e & _ & ->)]; [|by left].
    right. right. exists id, r. apply messageDelivery_ok in Hd as (_ & Hm & Hd). by eapply touched_delivery.
Qed.

Lemma acceptable_recipients s req :
  acceptable s req -> NoDup (map addrID (reqRecipients req)) /\ Forall validAddress (reqRecipients req).
Proof. intros (_ & _ & (_ & _ & ? & ?) & _). done. Qed.

Lemma StoreInv_mrun op now s : StoreInv s -> nextSeq s + 1 < 2 ^ 64 -> StoreInv (mrun op now s).
Proof.
  intros Hs Hw. destruct (mrun_cases op now s) as [->|[(req & _ & [? ?]%acceptable_recipients & ->)|(id & r & Ht)]].
  - done.
  - by apply StoreInv_send.
  - by eapply StoreInv_touched.
Qed.
