(* ===== verification/MailboxReach.v ===== *)
(** * The mailbox: the stores a session reaches

    The invariant of a store that started empty: its identifiers are the ones
    handed out, deliveries and recipients correspond, replies and parents
    correspond, and every message and the store as a whole respect the limits. *)

From S2P Require Import Prelude GoText GoCodec Mailbox MailboxFacts MailboxInv.

(** ** Sizes *)

Lemma sumZ_Permutation l1 l2 : l1 ≡ₚ l2 -> sumZ l1 = sumZ l2.
Proof. induction 1; rewrite ?sumZ_cons; lia. Qed.

Definition messageBytes (m : Message) : Z := messageBodySize m + metadataByteSize (Metadata m).

Lemma storedBytes_insert ms id m :
  ms !! id = None -> storedBytes (<[id := m]> ms) = messageBytes m + storedBytes ms.
Proof.
  intros H. unfold storedBytes. rewrite <- sumZ_cons. apply sumZ_Permutation.
  by rewrite map_to_list_insert.
Qed.
Lemma storedBytes_replace ms id m m' :
  ms !! id = Some m -> messageBytes m' = messageBytes m -> storedBytes (<[id := m']> ms) = storedBytes ms.
Proof.
  intros H E. rewrite <- (insert_id ms id m H) at 2. rewrite <- (insert_delete_eq ms id m), <- (insert_delete_eq ms id m').
  rewrite !storedBytes_insert by apply lookup_delete_eq. lia.
Qed.
Lemma alter_Some (f : Message -> Message) id (ms : gmap string Message) m : ms !! id = Some m -> alter f id ms = <[id := f m]> ms.
Proof.
  intros H. apply map_eq. intros i. destruct (decide (i = id)) as [->|Hi].
  - by rewrite lookup_alter_eq, lookup_insert_eq, H.
  - by rewrite lookup_alter_ne, lookup_insert_ne.
Qed.

Lemma replyParent_Some s req p :
  replyParent s req = Some p <-> ReplyTo req <> ""%string /\ messages s !! ReplyTo req = Some p.
Proof. unfold replyParent. destruct (String.eqb_spec (ReplyTo req) ""); naive_solver. Qed.

(** The messages after a send, as insertions. *)
Lemma messages_sent s req now :
  StoreInv s ->
  messages (sentStore s req now) =
  match replyParent s req with
  | Some p => <[ReplyTo req := setReplies (Replies p ++ [sentID s]) now p]>
                (<[sentID s := sentMessage s req now]> (messages s))
  | None => <[sentID s := sentMessage s req now]> (messages s)
  end.
Proof.
  intros Hs. pose proof (sentID_fresh s Hs) as Hf. simpl. unfold addReply.
  destruct (replyParent s req) as [p|] eqn:Ep; [|done]. apply replyParent_Some in Ep as [_ Hp]. simpl.
  assert (ReplyTo req <> sentID s) as Hne by congruence.
  destruct (String.eqb_spec (ReplyTo req) (sentID s)) as [|_]; [done|].
  apply (alter_Some (fun m => setReplies (Replies m ++ [sentID s]) now m)). by rewrite lookup_insert_ne.
Qed.

Lemma lenMessages_sent s req now : StoreInv s -> lenMessages (sentStore s req now) = lenMessages s + 1.
Proof.
  intros Hs. pose proof (sentID_fresh s Hs) as Hf. unfold lenMessages. rewrite messages_sent by done.
  destruct (replyParent s req) as [p|] eqn:Ep; [apply replyParent_Some in Ep as [_ Hp]|].
  - assert (ReplyTo req <> sentID s) by congruence.
    rewrite (map_size_insert_Some (ReplyTo req)) by by (eexists; rewrite lookup_insert_ne).
    rewrite map_size_insert_None by done. lia.
  - rewrite map_size_insert_None by done. lia.
Qed.
Lemma storedBytes_sent s req now :
  StoreInv s -> storedBytes (messages (sentStore s req now)) = requestBytes req + storedBytes (messages s).
Proof.
  intros Hs. pose proof (sentID_fresh s Hs) as Hf. rewrite messages_sent by done.
  destruct (replyParent s req) as [p|] eqn:Ep; [apply replyParent_Some in Ep as [_ Hp]|].
  - assert (ReplyTo req <> sentID s) by congruence.
    erewrite storedBytes_replace; [by apply storedBytes_insert|by rewrite lookup_insert_ne|done].
  - by apply storedBytes_insert.
Qed.

(** ** What a message contains *)

Definition goodMessage (l : Limits) (m : Message) : Prop :=
  validAddress (Sender m) /\ validRecipients (RecipientsPerMsg l) (Recipients m) /\
  validSubject (SubjectBytes l) (Subject m) /\ validLabels (Topics m) /\ validLabels (Groups m) /\
  Parts m <> [] /\ Forall (validPart (PartBytes l)) (Parts m) /\
  (0 < TotalBodyBytes l -> messageBodySize m <= TotalBodyBytes l) /\
  map_Forall (fun k v => validEntry (k, v)) (Metadata m) /\
  (0 < MetadataBytes l -> metadataByteSize (Metadata m) <= MetadataBytes l).

Lemma goodMessage_same l m m' : sameMessage m m' -> goodMessage l m -> goodMessage l m'.
Proof. intros E H. change (goodMessage l (setReplies [] 0 m')). by rewrite <- E. Qed.
Lemma messageBytes_same m m' : sameMessage m m' -> messageBytes m' = messageBytes m.
Proof. intros E. change (messageBytes (setReplies [] 0 m') = messageBytes m). by rewrite <- E. Qed.

Lemma metadataOf_valid src out :
  Forall validEntry src -> map_Forall (fun k v => validEntry (k, v)) out ->
  map_Forall (fun k v => validEntry (k, v)) (metadataOf src out).
Proof.
  intros H. revert out. induction H as [|[k v] src Hkv _ IH]; intros out Hout; simpl; [done|].
  apply IH. by apply map_Forall_insert_2.
Qed.

Lemma goodMessage_sent s req now : acceptable s req -> goodMessage (limits s) (sentMessage s req now).
Proof.
  intros (_ & H1 & H2 & H3 & H4 & H5 & (H6 & H7 & H8) & (H9 & H10) & _ & _).
  split_and!; try done.
  - simpl. unfold requestParts. destruct (reqBody req); [|done].
    assert (reqParts req <> []) by by apply H6. by destruct (reqParts req).
  - by apply metadataOf_valid.
Qed.

(** ** What an operation on a delivery leaves as it is *)

(** Equal but for the time of the update. *)
Definition sameButTime (m m' : Message) : Prop := setUpdatedAt 0 m = setUpdatedAt 0 m'.
#[export] Instance sameButTime_equiv : Equivalence sameButTime.
Proof. unfold sameButTime. split; repeat intro; congruence. Qed.
Lemma sameButTime_same m m' : sameButTime m m' -> sameMessage m m'.
Proof. intros E. unfold sameMessage. by apply (f_equal (setReplies [] 0)) in E. Qed.
Lemma sameButTime_Replies m m' : sameButTime m m' -> Replies m = Replies m'.
Proof. intros E. by apply (f_equal Replies) in E. Qed.

Lemma touched_parts id r s s' :
  touched id r s s' ->
  nextSeq s' = nextSeq s /\ limits s' = limits s /\ threads s' = threads s /\
  lenMessages s' = lenMessages s /\ storedBytes (messages s') = storedBytes (messages s).
Proof.
  intros [|d d' Hd E|m m' d d' Hm Hd Em E]; try done. split_and!; try done.
  - unfold lenMessages. simpl. by rewrite map_size_insert_Some by by eexists.
  - simpl. eapply storedBytes_replace; [exact Hm|]. apply messageBytes_same. by rewrite Em.
Qed.
Lemma touched_messages id r s s' i :
  touched id r s s' ->
  (forall x', messages s' !! i = Some x' -> exists x, messages s !! i = Some x /\ sameButTime x x') /\
  (forall x, messages s !! i = Some x -> exists x', messages s' !! i = Some x' /\ sameButTime x x').
Proof.
  intros [|d d' Hd E|m m' d d' Hm Hd Em E]; try by split; intros x Hx; exists x.
  apply (lookup_write sameButTime id m m' (writeDelivery r id d' s) i Hm). by rewrite Em.
Qed.
Lemma touched_deliveries id r s s' r' i :
  touched id r s s' ->
  (forall d', deliveryOf s' r' i = Some d' -> exists d, deliveryOf s r' i = Some d /\ sameDelivery d d') /\
  (is_Some (deliveryOf s r' i) -> is_Some (deliveryOf s' r' i)).
Proof.
  intros Ht. assert (Hw : forall d d', deliveryOf s r id = Some d -> sameDelivery d d' ->
    (forall x', deliveryOf (writeDelivery r id d' s) r' i = Some x' ->
       exists x, deliveryOf s r' i = Some x /\ sameDelivery x x') /\
    (is_Some (deliveryOf s r' i) -> is_Some (deliveryOf (writeDelivery r id d' s) r' i))).
  { intros d d' Hd E. rewrite deliveryOf_write by by eexists. case_decide as Hc; [|split; [|done]].
    - destruct Hc as [-> ->]. split; [intros x' [= <-]; by exists d|by eexists].
    - intros x Hx. by exists x. }
  destruct Ht as [|d d' Hd E|m m' d d' Hm Hd Em E]; [|by eapply Hw|by eapply Hw].
  split; [|done]. intros d Hd. by exists d.
Qed.

(** ** The invariant of a store that started empty *)

Record MailInv (s : Store) : Prop := {
  mi_store : StoreInv s;
  mi_count : nextSeq s = 1 + lenMessages s;
  mi_limited : 0 < StoredMessages (limits s) < 2 ^ 63;
  mi_id : forall id m, messages s !! id = Some m -> exists n, 0 < n < nextSeq s /\ id = messageIDOf n;
  mi_recipient : forall r id d, deliveryOf s r id = Some d ->
    exists m, messages s !! id = Some m /\ Recipient d ∈ Recipients m;
  mi_delivered : forall id m a, messages s !! id = Some m -> a ∈ Recipients m ->
    is_Some (deliveryOf s (addrID a) id);
  mi_thread : forall id m, messages s !! id = Some m -> ThreadID m <> ""%string;
  mi_parent : forall id m, messages s !! id = Some m -> InReplyTo m <> ""%string ->
    exists p, messages s !! InReplyTo m = Some p /\ ThreadID m = ThreadID p /\ id ∈ Replies p;
  mi_older : forall n m, 0 < n < nextSeq s -> messages s !! messageIDOf n = Some m -> InReplyTo m <> ""%string ->
    exists k, 0 < k < n /\ InReplyTo m = messageIDOf k;
  mi_replies : forall p mp, messages s !! p = Some mp ->
    NoDup (Replies mp) /\ forall id, id ∈ Replies mp -> exists m, messages s !! id = Some m /\ InReplyTo m = p;
  mi_content : forall id m, messages s !! id = Some m -> goodMessage (limits s) m;
  mi_messages : lenMessages s <= StoredMessages (limits s);
  mi_bytes : 0 < StoredMailboxBytes (limits s) -> storedBytes (messages s) <= StoredMailboxBytes (limits s) }.

(** Limits as a server sets them: a limit on the number of messages. *)
Definition limited (opts : Limits) : Prop := 0 <= StoredMessages opts < 2 ^ 63.

Lemma MailInv_new opts : limited opts -> MailInv (NewStore opts).
Proof.
  intros Hl. pose proof (StoreInv_new opts) as Hs. unfold limited in Hl.
  assert (0 < StoredMessages (normalizeLimits opts) < 2 ^ 63) as Hlim.
  { simpl. unfold orLimit, defaultStoredMessages. destruct (Z.eqb_spec (StoredMessages opts) 0); lia. }
  split; try done; simpl; try by (intros * H; rewrite ?lookup_empty in H).
  - by apply Z.lt_le_incl, Hlim.
  - intros H. by apply Z.lt_le_incl.
Qed.

Lemma MailInv_touched id r s s' : MailInv s -> touched id r s s' -> MailInv s'.
Proof.
  intros Hs Ht. destruct (touched_parts _ _ _ _ Ht) as (E1 & E2 & E3 & E4 & E5).
  pose proof (fun i => proj1 (touched_messages _ _ _ _ i Ht)) as Hback.
  pose proof (fun i => proj2 (touched_messages _ _ _ _ i Ht)) as Hforth.
  split; rewrite ?E1, ?E2, ?E4, ?E5; try apply Hs.
  - by eapply StoreInv_touched; [apply Hs|].
  - intros i x' (x & Hx & _)%Hback. by eapply mi_id.
  - intros r' i d' Hd. apply (proj1 (touched_deliveries _ _ _ _ r' i Ht)) in Hd as (d & Hd & _ & <- & _).
    apply (mi_recipient s Hs) in Hd as (x & Hx & Hr). apply Hforth in Hx as (x' & Hx' & E%sameButTime_same).
    exists x'. split; [done|by rewrite <- E].
  - intros i x' a (x & Hx & E%sameButTime_same)%Hback Ha. rewrite <- E in Ha.
    apply (proj2 (touched_deliveries _ _ _ _ (addrID a) i Ht)). by eapply mi_delivered.
  - intros i x' (x & Hx & E%sameButTime_same)%Hback. rewrite <- E. by eapply mi_thread.
  - intros i x' (x & Hx & E%sameButTime_same)%Hback Hr. rewrite <- E in *.
    destruct (mi_parent s Hs i x Hx Hr) as (p & Hp & HT & Hin). apply Hforth in Hp as (p' & Hp' & Ep).
    exists p'. rewrite <- (sameButTime_Replies _ _ Ep), <- E. split_and!; try done.
    by rewrite HT, (sameButTime_same _ _ Ep).
  - intros n x' Hn (x & Hx & E%sameButTime_same)%Hback.
    rewrite <- (InReplyTo_proper _ _ E). by apply (mi_older s Hs).
  - intros p mp' (mp & Hmp & E)%Hback. rewrite <- (sameButTime_Replies _ _ E).
    destruct (mi_replies s Hs p mp Hmp) as [Hn Hr]. split; [done|].
    intros i (x & Hx & Er)%Hr. apply Hforth in Hx as (x' & Hx' & Ex%sameButTime_same). exists x'. split; [done|by rewrite <- Ex].
  - intros i x' (x & Hx & E%sameButTime_same)%Hback. eapply goodMessage_same; [exact E|]. by eapply mi_content.
Qed.

(** The replies of a message after a send. *)
Lemma Replies_sent s req now i m m' :
  StoreInv s -> messages s !! i = Some m -> messages (sentStore s req now) !! i = Some m' ->
  Replies m' = Replies m \/ (Replies m' = Replies m ++ [sentID s] /\ i = ReplyTo req).
Proof.
  intros Hs Hm. destruct (lookup_sent_old s req now i m Hs Hm) as [Hi _].
  rewrite lookup_sent, decide_False, Hm by done. simpl. intros [= <-].
  destruct (replyParent s req); [|by left]. case_decide; [by right|by left].
Qed.
Lemma Replies_sent_mono s req now i m m' id :
  StoreInv s -> messages s !! i = Some m -> messages (sentStore s req now) !! i = Some m' ->
  id ∈ Replies m -> id ∈ Replies m'.
Proof.
  intros Hs Hm Hm' Hin. destruct (Replies_sent s req now i m m' Hs Hm Hm') as [->|[-> _]]; [done|].
  apply elem_of_app. by left.
Qed.

(** The parent of an accepted reply lists it. *)
Lemma sent_parent s req now :
  MailInv s -> acceptable s req -> ReplyTo req <> ""%string ->
  exists p p', messages s !! ReplyTo req = Some p /\ messages (sentStore s req now) !! ReplyTo req = Some p' /\
    sentThread s req = ThreadID p' /\ sentID s ∈ Replies p'.
Proof.
  intros Hinv Hacc Hr. pose proof (mi_store s Hinv) as Hs.
  destruct Hacc as (_ & _ & _ & _ & _ & _ & _ & _ & Hp & _).
  destruct (Hp Hr) as (p & Hm & _). assert (replyParent s req = Some p) as Ep by by apply replyParent_Some.
  assert (ReplyTo req <> sentID s) as Hi by (pose proof (sentID_fresh s Hs); congruence).
  exists p, (setReplies (Replies p ++ [sentID s]) now p). split; [done|].
  rewrite lookup_sent, decide_False, Hm, Ep by done. simpl. rewrite decide_True by done. split; [done|].
  split; [|apply elem_of_app; right; apply list_elem_of_here]. unfold sentThread. rewrite Ep.
  unfold orDefault. destruct (String.eqb_spec (ThreadID p) ""); [|done]. by apply (mi_thread s Hinv) in Hm.
Qed.

Lemma MailInv_send s req now : MailInv s -> acceptable s req -> MailInv (sentStore s req now).
Proof.
  intros Hinv Hacc. pose proof (mi_store s Hinv) as Hs. destruct (acceptable_recipients s req Hacc) as [Hn Ha].
  pose proof (mi_limited s Hinv) as Hlim. pose proof (mi_messages s Hinv) as Hmax.
  pose proof (mi_count s Hinv) as Hcount. pose proof (inv_seq s Hs) as Hseq.
  assert (lenMessages s < StoredMessages (limits s)) as Hlt by (apply Hacc; lia).
  assert (nextSeq (sentStore s req now) = nextSeq s + 1) as Eseq by (simpl; rewrite wrap64_small; lia).
  split; rewrite ?Eseq, ?lenMessages_sent, ?storedBytes_sent by done;
    try change (limits (sentStore s req now)) with (limits s); try lia.
  - apply StoreInv_send; try done. lia.
  - intros id m [[-> _]|(_ & m0 & Hm & _)]%lookup_sent_inv; [|apply (mi_id s Hinv) in Hm as (n & Hn' & ->)|done].
    + exists (nextSeq s). split; [lia|done].
    + exists n. split; [lia|done].
  - intros r id d [[H _]|(-> & a & Hin & -> & ->)]%look_foldl_Some; [| |done].
    + apply (mi_recipient s Hinv) in H as (m & Hm & Hr).
      destruct (lookup_sent_old s req now id m Hs Hm) as (_ & m' & Hm' & E). exists m'. split; [done|by rewrite <- E].
    + eexists. split; [by apply lookup_sent_new|done].
  - intros id m a [[-> ->]|(Hid & m0 & Hm & E)]%lookup_sent_inv Hin; [| |done].
    + unfold deliveryOf. simpl. rewrite look_foldl_in by done. by eexists.
    + unfold deliveryOf. simpl. rewrite look_foldl_other by by left. rewrite <- E in Hin. by eapply mi_delivered.
  - intros id m [[-> ->]|(Hid & m0 & Hm & E)]%lookup_sent_inv; [| |done]; [apply sentThread_nonempty|].
    rewrite <- E. by eapply mi_thread.
  - intros id m [[-> ->]|(Hid & m0 & Hm & E)]%lookup_sent_inv Hr; [| |done].
    + destruct (sent_parent s req now Hinv Hacc Hr) as (_ & p' & _ & Hp' & HT & Hin). by exists p'.
    + rewrite <- E in Hr. destruct (mi_parent s Hinv id m0 Hm Hr) as (p & Hp & HT & Hin).
      destruct (lookup_sent_old s req now _ _ Hs Hp) as (_ & p' & Hp' & Ep). exists p'.
      rewrite <- (InReplyTo_proper _ _ E), <- (ThreadID_proper _ _ E), <- (ThreadID_proper _ _ Ep).
      split_and!; try done. by eapply Replies_sent_mono.
  - intros n m Hn' [[En ->]|(Hid & m0 & Hm & E)]%lookup_sent_inv Hr; [| |done].
    + apply messageID_inj in En as ->; [|lia|lia]. destruct (sent_parent s req now Hinv Hacc Hr) as (p & _ & Hp & _).
      apply (mi_id s Hinv) in Hp as (k & Hk & Ek). by exists k.
    + rewrite <- (InReplyTo_proper _ _ E) in *. destruct (decide (n = nextSeq s)) as [->|Hne]; [by destruct Hid|].
      apply (mi_older s Hinv n m0); [lia|done|done].
  - intros p mp' Hmp'. pose proof Hmp' as [[-> ->]|(Hid & mp & Hmp & E)]%lookup_sent_inv; [| |done].
    + simpl. split; [apply NoDup_nil_2|]. intros id H%elem_of_nil. done.
    + destruct (mi_replies s Hinv p mp Hmp) as [Hnd Hr].
      assert (Hold : forall id, id ∈ Replies mp -> exists m, messages (sentStore s req now) !! id = Some m /\ InReplyTo m = p).
      { intros id (m & Hm & <-)%Hr. destruct (lookup_sent_old s req now id m Hs Hm) as (_ & m' & Hm' & Em).
        exists m'. split; [done|by rewrite <- Em]. }
      destruct (Replies_sent s req now p mp mp' Hs Hmp Hmp') as [->|[-> ->]]; [done|]. split.
      * apply NoDup_app. split_and!; [done| |apply NoDup_singleton].
        intros id (m & Hm & _)%Hr ->%list_elem_of_singleton. by rewrite sentID_fresh in Hm.
      * intros id [Hin| ->%list_elem_of_singleton]%elem_of_app; [by apply Hold|].
        eexists. split; [by apply lookup_sent_new|done].
  - intros id m [[_ ->]|(_ & m0 & Hm & E)]%lookup_sent_inv; [by apply goodMessage_sent| |done].
    eapply goodMessage_same; [exact E|]. by eapply mi_content.
  - apply Hacc.
Qed.

(** ** Reachable stores *)

Inductive mreach (opts : Limits) : Store -> Prop :=
| mreach_new : mreach opts (NewStore opts)
| mreach_step s op now : mreach opts s -> mreach opts (mrun op now s).

Lemma MailInv_mrun op now s : MailInv s -> MailInv (mrun op now s).
Proof.
  intros Hs. destruct (mrun_cases op now s) as [->|[(req & _ & Hacc & ->)|(id & r & Ht)]].
  - done.
  - by apply MailInv_send.
  - by eapply MailInv_touched.
Qed.
Lemma MailInv_reach opts s : limited opts -> mreach opts s -> MailInv s.
Proof.
  intros Hl. induction 1 as [|s op now _ IH]; [by apply MailInv_new|by apply MailInv_mrun].
Qed.
