(* ===== verification/MailboxDrain.v ===== *)
(** * The mailbox: the drain status

    The binary search and the bounded insertion of the newest summaries against
    a sorted list, and the status of a recipient as a function of the pending
    deliveries. *)

From S2P Require Import Prelude GoText GoCodec Mailbox MailboxFacts MailboxInv.

(** ** sort.Search *)

Lemma searchLoop_spec (f : nat -> bool) n fuel i j :
  (forall a b, (a <= b < n)%nat -> f a = true -> f b = true) ->
  (j - i <= fuel)%nat -> (i <= j <= n)%nat ->
  (forall a, (a < i)%nat -> f a = false) -> (forall a, (j <= a < n)%nat -> f a = true) ->
  let k := searchLoop fuel f i j in
  (k <= n)%nat /\ (forall a, (a < k)%nat -> f a = false) /\ (forall a, (k <= a < n)%nat -> f a = true).
Proof.
  intros Hmono. revert i j. induction fuel as [|fuel IH]; intros i j Hf Hij Hlo Hhi; cbn [searchLoop].
  - replace i with j in * by lia. split_and!; [lia|done|done].
  - destruct (Nat.ltb_spec i j) as [Hlt|Hge].
    + pose proof (Nat.div2_spec (i + j)) as Hd. pose proof (Nat.div2_odd (i + j)) as Ho.
      assert (i <= Nat.div2 (i + j) < j)%nat as Hh by (destruct (Nat.odd (i + j)); simpl in Ho; lia).
      destruct (f (Nat.div2 (i + j))) eqn:E; cbn [negb]; apply IH; try done; try lia.
      * intros a Ha. by eapply Hmono; [|exact E]; lia.
      * intros a Ha. destruct (f a) eqn:Ea; [|done]. rewrite (Hmono a (Nat.div2 (i + j))) in E; [done|lia|done].
    + replace i with j in * by lia. split_and!; [lia|done|done].
Qed.
Lemma sortSearch_spec n f :
  (forall a b, (a <= b < n)%nat -> f a = true -> f b = true) ->
  (sortSearch n f <= n)%nat /\ (forall a, (a < sortSearch n f)%nat -> f a = false) /\
  (forall a, (sortSearch n f <= a < n)%nat -> f a = true).
Proof. intros H. apply (searchLoop_spec f n n 0 n); [done|lia|lia|lia|lia]. Qed.

(** ** Newest first *)

Lemma newer_spec x y :
  drainSummaryNewer x y = true <->
  sumDeliveredAt y < sumDeliveredAt x \/
  (sumDeliveredAt x = sumDeliveredAt y /\ strLe (sumMessageID x) (sumMessageID y) = false).
Proof.
  unfold drainSummaryNewer. destruct (Z.eqb_spec (sumDeliveredAt x) (sumDeliveredAt y)) as [E|E]; simpl.
  - rewrite negb_true_iff. split; [by right|]. intros [|[_ ?]]; [lia|done].
  - rewrite Z.ltb_lt. split; [by left|]. intros [|[? _]]; done.
Qed.
Lemma strLe_false s1 s2 : strLe s1 s2 = false <-> strLe s2 s1 = true /\ s1 <> s2.
Proof.
  split.
  - intros H. destruct (strLe_total s1 s2) as [|H']; [congruence|]. split; [done|]. intros ->. by rewrite strLe_refl in H.
  - intros [H Hn]. destruct (strLe s1 s2) eqn:E; [|done]. destruct Hn. by apply strLe_antisym.
Qed.
Lemma newer_trans x y z :
  drainSummaryNewer x y = true -> drainSummaryNewer y z = true -> drainSummaryNewer x z = true.
Proof.
  rewrite !newer_spec, !strLe_false. intros [H1|(H1 & H2 & H2')] [H3|(H3 & H4 & H4')]; try (left; lia).
  right. split; [lia|]. split; [by eapply strLe_trans|]. intros E. destruct H4'. apply strLe_antisym; [|done].
  by rewrite <- E.
Qed.
Lemma newer_total x y :
  sumMessageID x <> sumMessageID y -> drainSummaryNewer x y = false -> drainSummaryNewer y x = true.
Proof.
  intros Hne Hf. apply newer_spec. rewrite strLe_false.
  destruct (Z.lt_trichotomy (sumDeliveredAt x) (sumDeliveredAt y)) as [H|[H|H]]; [by left| |].
  - right. split; [done|]. destruct (strLe (sumMessageID x) (sumMessageID y)) eqn:E; [done|].
    assert (drainSummaryNewer x y = true) by (apply newer_spec; by right). congruence.
  - assert (drainSummaryNewer x y = true) by (apply newer_spec; by left). congruence.
Qed.

Definition newestFirst (l : list DeliverySummary) : Prop :=
  StronglySorted (fun x y => drainSummaryNewer x y = true) l.

Lemma newestFirst_insert x l :
  newestFirst l -> sumMessageID x ∉ map sumMessageID l -> newestFirst (insertSorted drainSummaryNewer x l).
Proof.
  unfold newestFirst. induction 1 as [|y l Hl IH Hy]; simpl; intros Hx; [by repeat constructor|].
  apply not_elem_of_cons in Hx as [Hx Hx']. destruct (drainSummaryNewer x y) eqn:E.
  - constructor; [by constructor|]. constructor; [done|]. eapply Forall_impl; [exact Hy|]. intros z. by apply newer_trans.
  - constructor; [by apply IH|]. rewrite insertSorted_Permutation. constructor; [|done]. by apply newer_total.
Qed.

(** Insertion at the first older element is the insertion of a sort. *)
Lemma insertSorted_at (x : DeliverySummary) l k :
  (k <= length l)%nat ->
  (forall i y, (i < k)%nat -> l !! i = Some y -> drainSummaryNewer x y = false) ->
  (forall y, l !! k = Some y -> drainSummaryNewer x y = true) ->
  insertSorted drainSummaryNewer x l = take k l ++ x :: drop k l.
Proof.
  revert k. induction l as [|y l IH]; intros k Hk Hlo Hhi.
  - simpl in Hk. by replace k with 0%nat by lia.
  - destruct k as [|k]; simpl.
    + by rewrite (Hhi y eq_refl).
    + rewrite (Hlo 0%nat y) by (lia || done). f_equal. apply IH; [simpl in Hk; lia| |exact Hhi].
      intros i z Hi. apply (Hlo (S i)). lia.
Qed.

Lemma newestFirst_lookup l a b x y :
  newestFirst l -> l !! a = Some x -> l !! b = Some y -> (a < b)%nat -> drainSummaryNewer x y = true.
Proof.
  unfold newestFirst. intros Hs Hx Hy Hab. rewrite <- (take_drop (S a) l) in Hs.
  apply (StronglySorted_app_1_elem_of _ _ _ x y Hs).
  - apply list_elem_of_lookup. exists a. rewrite lookup_take_lt by lia. done.
  - apply list_elem_of_lookup. exists (b - S a)%nat. rewrite lookup_drop. by replace (S a + (b - S a))%nat with b by lia.
Qed.

Lemma insertDrainLatest_sorted latest x limit :
  newestFirst latest -> lenZ latest <= limit -> 0 < limit ->
  insertDrainLatest latest x limit = take (Z.to_nat limit) (insertSorted drainSummaryNewer x latest).
Proof.
  intros Hs Hl Hlim. unfold insertDrainLatest, lenZ in *. cbv zeta.
  set (f := fun i => match latest !! i with Some y => drainSummaryNewer x y | None => false end).
  destruct (sortSearch_spec (length latest) f) as (Hk & Hlo & Hhi).
  { intros a b [Hab Hb] Ha. unfold f in *.
    destruct (lookup_lt_is_Some_2 latest a) as [ya Hya]; [lia|]. destruct (lookup_lt_is_Some_2 latest b Hb) as [yb Hyb].
    rewrite Hya in Ha. rewrite Hyb. destruct (decide (a = b)) as [->|Hne]; [congruence|].
    eapply newer_trans; [exact Ha|].
    apply (newestFirst_lookup latest a b); [done|done|done|lia]. }
  rewrite (insertSorted_at x latest (sortSearch (length latest) f)); [|done| |].
  - destruct (Nat.eqb_spec (sortSearch (length latest) f) (length latest)) as [E|E].
    + rewrite E, take_ge, drop_ge by lia.
      destruct (Z.leb_spec limit (Z.of_nat (length latest))); simpl.
      * by rewrite take_app_le, take_ge by lia.
      * rewrite length_app. simpl. destruct (Z.ltb_spec limit (Z.of_nat (length latest + 1))); [lia|].
        by rewrite take_ge by (rewrite length_app; simpl; lia).
    + cbn [andb]. match goal with |- context [limit <? ?n] => destruct (Z.ltb_spec limit n) end; [done|].
      by rewrite (take_ge _ (Z.to_nat limit)) by lia.
  - intros i y Hi Hy. specialize (Hlo i Hi). unfold f in Hlo. by rewrite Hy in Hlo.
  - intros y Hy. pose proof (lookup_lt_Some _ _ _ Hy). specialize (Hhi (sortSearch (length latest) f)).
    unfold f in Hhi at 4. by rewrite Hy in Hhi; apply Hhi.
Qed.

Lemma take_insertSorted x l n :
  take n (insertSorted drainSummaryNewer x (take n l)) = take n (insertSorted drainSummaryNewer x l).
Proof.
  revert n. induction l as [|y l IH]; intros n; [by destruct n|]. destruct n as [|n]; [done|]. simpl.
  destruct (drainSummaryNewer x y); simpl; f_equal; [|apply IH]. destruct n as [|n]; [done|]. simpl. f_equal.
  by rewrite take_take, Nat.min_l by lia.
Qed.

(** All summaries in the order the loop gives them. *)
Definition ranked (l : list DeliverySummary) : list DeliverySummary :=
  foldl (fun acc x => insertSorted drainSummaryNewer x acc) [] l.
Lemma ranked_snoc l x : ranked (l ++ [x]) = insertSorted drainSummaryNewer x (ranked l).
Proof. unfold ranked. by rewrite foldl_app. Qed.
Lemma ranked_Permutation l : ranked l ≡ₚ l.
Proof.
  induction l as [|x l IH] using rev_ind; [done|]. rewrite ranked_snoc, insertSorted_Permutation, IH.
  by rewrite Permutation_cons_append.
Qed.
Lemma ranked_newestFirst l : NoDup (map sumMessageID l) -> newestFirst (ranked l).
Proof.
  induction l as [|x l IH] using rev_ind; intros Hn; [constructor|].
  rewrite map_app in Hn. apply NoDup_app in Hn as (Hn & Hx & _). rewrite ranked_snoc.
  apply newestFirst_insert; [by apply IH|]. rewrite ranked_Permutation. intros Hin.
  apply (Hx _ Hin). apply list_elem_of_here.
Qed.

(** The bounded list is the front of all summaries, newest first. *)
Lemma latest_ranked l limit :
  NoDup (map sumMessageID l) -> 0 < limit ->
  foldl (fun acc x => insertDrainLatest acc x limit) [] l = take (Z.to_nat limit) (ranked l).
Proof.
  intros Hn Hl. induction l as [|x l IH] using rev_ind; [by destruct (Z.to_nat limit)|].
  rewrite map_app in Hn. apply NoDup_app in Hn as (Hn & _ & _).
  rewrite foldl_app, ranked_snoc, IH by done. simpl. rewrite insertDrainLatest_sorted; [apply take_insertSorted| | |done].
  - pose proof (ranked_newestFirst l Hn) as Hs. rewrite <- (take_drop (Z.to_nat limit) (ranked l)) in Hs.
    by apply StronglySorted_app_1_l in Hs.
  - unfold lenZ. rewrite length_take. lia.
Qed.

(** ** The deliveries of a recipient, in the order of their IDs *)

Definition entries (byMessage : gmap string DeliveryState) : list (string * DeliveryState) :=
  deliveriesOf byMessage (sortStrings (map fst (map_to_list byMessage))).
Definition recipientEntries (s : Store) (r : Z) : list (string * DeliveryState) :=
  entries (default ∅ (deliveries s !! r)).

Lemma deliveriesOf_fst bm ids :
  (forall id, id ∈ ids -> is_Some (bm !! id)) -> map fst (deliveriesOf bm ids) = ids.
Proof.
  unfold deliveriesOf. induction ids as [|id ids IH]; intros H; simpl; [done|].
  destruct (H id) as [d ->]; [apply list_elem_of_here|]. simpl. f_equal. apply IH. intros i Hi. apply H. by right.
Qed.
Lemma deliveriesOf_elem bm ids id d :
  (id, d) ∈ deliveriesOf bm ids <-> id ∈ ids /\ bm !! id = Some d.
Proof.
  unfold deliveriesOf. rewrite list_elem_of_omap. split.
  - intros (i & Hi & (d' & Hd & [= -> ->])%fmap_Some). done.
  - intros [Hi Hd]. exists id. by rewrite Hd.
Qed.
Lemma deliveriesOf_map_fst bm l :
  (forall id d, (id, d) ∈ l -> bm !! id = Some d) -> deliveriesOf bm (map fst l) = l.
Proof.
  unfold deliveriesOf. induction l as [|[id d] l IH]; intros H; simpl; [done|].
  rewrite (H id d) by apply list_elem_of_here. simpl. f_equal. apply IH. intros i x Hx. apply H. by right.
Qed.

Lemma keys_elem (bm : gmap string DeliveryState) id :
  id ∈ sortStrings (map fst (map_to_list bm)) <-> is_Some (bm !! id).
Proof.
  rewrite sortStrings_Permutation, list_elem_of_fmap. split.
  - intros ([i d] & -> & H%elem_of_map_to_list). by exists d.
  - intros [d H]. exists (id, d). split; [done|]. by apply elem_of_map_to_list.
Qed.
Lemma entries_fst bm : map fst (entries bm) = sortStrings (map fst (map_to_list bm)).
Proof. apply deliveriesOf_fst. intros id. apply keys_elem. Qed.
Lemma entries_NoDup bm : NoDup (map fst (entries bm)).
Proof. rewrite entries_fst, sortStrings_Permutation. apply NoDup_fst_map_to_list. Qed.
Lemma recipientEntries_elem s r id d : (id, d) ∈ recipientEntries s r <-> deliveryOf s r id = Some d.
Proof.
  unfold recipientEntries, entries. rewrite deliveriesOf_elem, keys_elem. unfold deliveryOf, look.
  split; [by intros []|]. intros H. split; [by exists d|done].
Qed.

(** ** The status *)

Definition needsRead (p : string * DeliveryState) : Prop := ReadAt p.2 = 0.
Definition needsAck (p : string * DeliveryState) : Prop := AckedAt p.2 = 0.
Definition pending (p : string * DeliveryState) : Prop := needsRead p \/ needsAck p.
#[export] Instance needsRead_dec p : Decision (needsRead p).
Proof. unfold needsRead. apply _. Defined.
#[export] Instance needsAck_dec p : Decision (needsAck p).
Proof. unfold needsAck. apply _. Defined.
#[export] Instance pending_dec p : Decision (pending p).
Proof. unfold pending. apply _. Defined.

Definition summariesOf (s : Store) (l : list (string * DeliveryState)) : list DeliverySummary :=
  omap (fun p => match summaryFor (messages s !! p.1) p.2 with inr x => Some x | inl _ => None end) l.

Lemma drainDeliveries_spec s limit l st :
  (forall p, p ∈ l -> is_Some (messages s !! p.1)) ->
  drainDeliveries s limit st l = inr
    {| Unread := Unread st + lenZ (filter needsRead l);
       Unacked := Unacked st + lenZ (filter needsAck l);
       Pending := Pending st + lenZ (filter pending l);
       PendingFingerprint := PendingFingerprint st;
       PendingIDs := PendingIDs st ++ map fst (filter pending l);
       Latest := foldl (fun acc x => insertDrainLatest acc x limit) (Latest st) (summariesOf s (filter pending l)) |}.
Proof.
  revert st. induction l as [|p l IH]; intros st Hm.
  - simpl. rewrite !lenZ_nil, !Z.add_0_r, app_nil_r. by destruct st.
  - assert (forall q, q ∈ l -> is_Some (messages s !! q.1)) as Hm' by (intros q Hq; apply Hm; by right).
    destruct (Hm p) as [m Em]; [apply list_elem_of_here|]. cbn [drainDeliveries]. unfold drainStep.
    rewrite !filter_cons. rewrite Em. destruct (Z.eqb_spec (ReadAt p.2) 0) as [E1|E1], (Z.eqb_spec (AckedAt p.2) 0) as [E2|E2];
      cbn [negb andb mbind res_bind summaryFor mret res_ret]; rewrite IH by done; cbn [Unread Unacked Pending PendingFingerprint PendingIDs Latest].
    all: repeat match goal with |- context [decide ?P] => first
      [ rewrite (decide_True (P := P)) by (unfold pending, needsRead, needsAck; tauto)
      | rewrite (decide_False (P := P)) by (unfold pending, needsRead, needsAck; tauto)] end.
    all: rewrite ?lenZ_cons; cbn [map]; rewrite <- ?app_assoc.
    all: f_equal; f_equal; try lia.
    all: unfold summariesOf; simpl; by rewrite Em.
Qed.

Definition drainSpec (s : Store) (r limit : Z) : DrainStatus :=
  let l := recipientEntries s r in
  let p := filter pending l in
  {| Unread := lenZ (filter needsRead l); Unacked := lenZ (filter needsAck l); Pending := lenZ p;
     PendingFingerprint := match p with [] => [] | _ => hex (Sha256.sum256 (p ≫= drainLine)) end;
     PendingIDs := map fst p;
     Latest := foldl (fun acc x => insertDrainLatest acc x (normalizedDrainLatestLimit limit)) [] (summariesOf s p) |}.

Lemma drainStatus_eq s r limit : StoreInv s -> r <> 0 -> drainStatus s r limit = inr (drainSpec s r limit).
Proof.
  intros Hs Hr. unfold drainStatus. destruct (Z.eqb_spec r 0) as [|_]; [done|]. cbv zeta.
  fold (entries (default ∅ (deliveries s !! r))). fold (recipientEntries s r).
  rewrite drainDeliveries_spec.
  2: { intros [id d] Hin%recipientEntries_elem. by apply (inv_delivery s Hs) in Hin as (_ & _ & _ & ?). }
  cbn [mbind res_bind emptyDrain Unread Unacked Pending PendingFingerprint PendingIDs Latest]. unfold drainSpec.
  rewrite !Z.add_0_l, app_nil_l. cbv zeta. unfold drainFingerprint. rewrite deliveriesOf_map_fst.
  2: { intros id d [_ H]%list_elem_of_filter. by apply recipientEntries_elem in H. }
  destruct (filter pending (recipientEntries s r)) as [|p l]; [done|].
  destruct (Z.eqb_spec (lenZ (p :: l)) 0) as [E|_]; [|done]. rewrite lenZ_cons in E. pose proof (lenZ_nonneg l). lia.
Qed.

(** The summaries of pending deliveries, one for each. *)
Lemma summariesOf_ids s l :
  (forall id d, (id, d) ∈ l -> exists m, messages s !! id = Some m /\ msgID m = id) ->
  map sumMessageID (summariesOf s l) = map fst l.
Proof.
  unfold summariesOf. induction l as [|[id d] l IH]; intros H; simpl; [done|].
  destruct (H id d) as (m & -> & E); [apply list_elem_of_here|]. simpl. f_equal; [done|].
  apply IH. intros i x Hx. apply (H i x). by right.
Qed.
Lemma NoDup_map_fst_filter (P : string * DeliveryState -> Prop) `{!forall p, Decision (P p)} l :
  NoDup (map fst l) -> NoDup (map fst (filter P l)).
Proof. intros Hn. eapply sublist_NoDup; [exact Hn|]. apply (fmap_sublist fst), sublist_filter. Qed.
Lemma summaries_NoDup s r : StoreInv s -> NoDup (map sumMessageID (summariesOf s (filter pending (recipientEntries s r)))).
Proof.
  intros Hs. rewrite summariesOf_ids.
  - apply NoDup_map_fst_filter, entries_NoDup.
  - intros id d [_ H]%list_elem_of_filter. apply recipientEntries_elem, (inv_delivery s Hs) in H as (_ & _ & _ & m & Hm).
    exists m. split; [done|]. by apply (inv_key s Hs).
Qed.
