(* ===== verification/MailboxSnapshot.v ===== *)
(** * The mailbox: snapshots

    [RestoreSnapshot] as a check of the snapshot followed by the insertion of its
    messages and deliveries; what it restores of the snapshot of a store. *)

From S2P Require Import Prelude GoText GoCodec Mailbox MailboxFacts MailboxInv.

(** ** The loop over the messages *)

Definition restoreMessage (s : Store) (msg : Message) : Store :=
  let s := if negb (String.eqb (ThreadID msg) "")
           then setThreads (<[ThreadID msg := default [] (threads s !! ThreadID msg) ++ [msgID msg]]> (threads s)) s
           else s in
  setMessages (<[msgID msg := msg]> (messages s)) s.
Definition maxSeqOf (maxSeq : Z) (msg : Message) : Z :=
  match parseMessageSeq (msgID msg) with Some seq => if maxSeq <? seq then seq else maxSeq | None => maxSeq end.

Definition freshMessages (s : Store) (l : list Message) : Prop :=
  NoDup (map msgID l) /\ Forall (fun m => msgID m <> ""%string /\ messages s !! msgID m = None) l.

Lemma messages_restoreMessage s msg : messages (restoreMessage s msg) = <[msgID msg := msg]> (messages s).
Proof. unfold restoreMessage. by destruct (negb _). Qed.
Lemma parts_restoreMessage s msg :
  nextSeq (restoreMessage s msg) = nextSeq s /\ limits (restoreMessage s msg) = limits s /\
  deliveries (restoreMessage s msg) = deliveries s.
Proof. unfold restoreMessage. by destruct (negb _). Qed.

Lemma restoreMessages_ok maxSeq s l r :
  restoreMessages maxSeq s l = inr r <->
  freshMessages s l /\ r = (foldl maxSeqOf maxSeq l, foldl restoreMessage s l).
Proof.
  unfold freshMessages. revert maxSeq s. induction l as [|m l IH]; intros maxSeq s; cbn [restoreMessages map foldl].
  - rewrite mret_inr. split; [intros <-|by intros [_ ->]]. split; [split; [apply NoDup_nil_2|constructor]|done].
  - rewrite if_fails_inr, String.eqb_neq, NoDup_cons, Forall_cons. destruct (messages s !! msgID m) eqn:E; [naive_solver|].
    cbv zeta. fold (maxSeqOf maxSeq m). fold (restoreMessage s m). rewrite IH, messages_restoreMessage. split.
    + intros (Hm & (H1 & H2) & ->). split_and!; try done.
      * intros (x & Ex & Hx)%list_elem_of_fmap. apply (proj1 (Forall_forall _ _) H2) in Hx as [_ Hx].
        by rewrite <- Ex, lookup_insert_eq in Hx.
      * eapply Forall_impl; [exact H2|]. intros x [Hx1 Hx2]. split; [done|].
        destruct (decide (msgID m = msgID x)) as [Ex|Ex]; [by rewrite Ex, lookup_insert_eq in Hx2|].
        by rewrite lookup_insert_ne in Hx2.
    + intros (((Hm1 & H1) & (Hm2 & _) & H2) & ->). split_and!; try done.
      apply Forall_forall. intros x Hx. destruct (proj1 (Forall_forall _ _) H2 x Hx) as [Hx1 Hx2]. split; [done|].
      rewrite lookup_insert_ne; [done|]. intros Ex. apply Hm1. rewrite Ex. by apply list_elem_of_fmap_2.
Qed.

Lemma maxSeqOf_spec maxSeq l :
  maxSeq <= foldl maxSeqOf maxSeq l /\
  (foldl maxSeqOf maxSeq l = maxSeq \/ exists m, m ∈ l /\ parseMessageSeq (msgID m) = Some (foldl maxSeqOf maxSeq l)) /\
  (forall m n, m ∈ l -> parseMessageSeq (msgID m) = Some n -> n <= foldl maxSeqOf maxSeq l).
Proof.
  revert maxSeq. induction l as [|m l IH]; intros maxSeq; cbn [foldl].
  - split_and!; [lia|by left|]. intros m n H%elem_of_nil. done.
  - destruct (IH (maxSeqOf maxSeq m)) as (H1 & H2 & H3). set (k := foldl maxSeqOf (maxSeqOf maxSeq m) l) in *.
    assert (maxSeq <= maxSeqOf maxSeq m /\ (maxSeqOf maxSeq m = maxSeq \/ parseMessageSeq (msgID m) = Some (maxSeqOf maxSeq m)) /\
            forall n, parseMessageSeq (msgID m) = Some n -> n <= maxSeqOf maxSeq m) as (G1 & G2 & G3).
    { unfold maxSeqOf. destruct (parseMessageSeq (msgID m)) as [n|]; [|split_and!; [lia|by left|done]].
      destruct (Z.ltb_spec maxSeq n); split_and!; try lia; auto; intros n' [= <-]; lia. }
    split_and!; [lia| |].
    + destruct H2 as [->|(x & Hx & E)]; [destruct G2 as [->|G2]; [by left|right]|right].
      * exists m. split; [apply list_elem_of_here|done].
      * exists x. split; [by right|done].
    + intros x n [->|Hx]%elem_of_cons E; [specialize (G3 n E); lia|by apply (H3 x n)].
Qed.

Lemma lookup_restored s l i m :
  freshMessages s l ->
  messages (foldl restoreMessage s l) !! i = Some m <-> messages s !! i = Some m \/ (m ∈ l /\ msgID m = i).
Proof.
  intros [Hn HF]. induction l as [|x l IH] using rev_ind; [simpl; set_solver|].
  rewrite map_app in Hn. apply NoDup_app in Hn as (Hn & Hx & _). apply Forall_app in HF as [HF HFx].
  inversion_clear HFx as [|? ? [Hx1 Hx2] _]. rewrite foldl_app. cbn [foldl]. rewrite messages_restoreMessage.
  destruct (decide (i = msgID x)) as [->|Hi].
  - rewrite lookup_insert_eq. split; [intros [= <-]; right; set_solver|].
    intros [H|[[Hm|Hm]%elem_of_app E]]; [congruence| |set_solver].
    destruct (Hx (msgID m)); [by apply list_elem_of_fmap_2|rewrite E; apply list_elem_of_here].
  - rewrite lookup_insert_ne by done. rewrite IH by done. set_solver.
Qed.
Lemma restored_parts s l :
  nextSeq (foldl restoreMessage s l) = nextSeq s /\ limits (foldl restoreMessage s l) = limits s /\
  deliveries (foldl restoreMessage s l) = deliveries s.
Proof.
  induction l as [|x l IH] using rev_ind; [done|]. rewrite foldl_app. cbn [foldl].
  destruct (parts_restoreMessage (foldl restoreMessage s l) x) as (-> & -> & ->). done.
Qed.

(** The messages of a thread, in the order of the snapshot. *)
Definition inThread (t : string) (m : Message) : Prop := ThreadID m = t.
#[export] Instance inThread_dec t m : Decision (inThread t m).
Proof. unfold inThread. apply _. Defined.

Lemma threads_restored s l t :
  threads s = ∅ ->
  threads (foldl restoreMessage s l) !! t =
  if decide (t = ""%string) then None
  else match map msgID (filter (inThread t) l) with [] => None | ids => Some ids end.
Proof.
  intros Hs. induction l as [|x l IH] using rev_ind.
  - simpl. rewrite Hs, lookup_empty. by case_decide.
  - rewrite foldl_app, filter_app, map_app. cbn [foldl]. set (s' := foldl restoreMessage s l) in *.
    unfold restoreMessage. rewrite filter_cons. destruct (String.eqb_spec (ThreadID x) "") as [E|E]; simpl.
    + rewrite IH. destruct (decide (t = ""%string)) as [->|Ht]; [done|].
      rewrite decide_False by (unfold inThread; congruence). by rewrite app_nil_r.
    + destruct (decide (inThread t x)) as [Ex|Ex]; unfold inThread in Ex.
      * subst t. rewrite lookup_insert_eq, IH, !decide_False by done. simpl.
        by destruct (map msgID (filter (inThread (ThreadID x)) l)).
      * rewrite lookup_insert_ne, IH by done. by rewrite app_nil_r.
Qed.

(** ** The loop over the deliveries *)

Definition restoreDelivery (s : Store) (d : DeliveryState) : Store :=
  setDeliveries (<[addrID (Recipient d) := <[MessageID d := d]> (default ∅ (deliveries s !! addrID (Recipient d)))]> (deliveries s)) s.
Definition deliveryKey (d : DeliveryState) : Z * string := (addrID (Recipient d), MessageID d).

Definition freshDeliveries (s : Store) (l : list DeliveryState) : Prop :=
  NoDup (map deliveryKey l) /\
  Forall (fun d => MessageID d <> ""%string /\ addrID (Recipient d) <> 0 /\ is_Some (messages s !! MessageID d) /\
                   deliveryOf s (addrID (Recipient d)) (MessageID d) = None) l.

Lemma deliveryOf_restoreDelivery s d r id :
  deliveryOf (restoreDelivery s d) r id = if decide ((r, id) = deliveryKey d) then Some d else deliveryOf s r id.
Proof.
  unfold deliveryOf, look, restoreDelivery, deliveryKey. simpl. case_decide as Hc.
  - injection Hc as -> ->. rewrite lookup_insert_eq. simpl. by rewrite lookup_insert_eq.
  - destruct (decide (r = addrID (Recipient d))) as [->|Hr]; [|by rewrite lookup_insert_ne].
    rewrite lookup_insert_eq. simpl. rewrite lookup_insert_ne by congruence. done.
Qed.

Lemma restoreDeliveries_ok s l s' :
  restoreDeliveries s l = inr s' <-> freshDeliveries s l /\ s' = foldl restoreDelivery s l.
Proof.
  unfold freshDeliveries. revert s. induction l as [|d l IH]; intros s; cbn [restoreDeliveries map foldl].
  - rewrite mret_inr. split; [intros <-|by intros [_ ->]]. split; [split; [apply NoDup_nil_2|constructor]|done].
  - rewrite !if_fails_inr, String.eqb_neq, Z.eqb_neq, NoDup_cons, Forall_cons.
    destruct (messages s !! MessageID d) as [m|] eqn:E; [|split; [naive_solver|]; intros (((_ & _) & (_ & _ & [? ?] & _) & _) & _); done].
    fold (look (deliveries s) (addrID (Recipient d)) (MessageID d)).
    fold (deliveryOf s (addrID (Recipient d)) (MessageID d)).
    destruct (deliveryOf s (addrID (Recipient d)) (MessageID d)) eqn:Ed; [naive_solver|].
    fold (restoreDelivery s d). rewrite IH. split.
    + intros (Hm & Hr & (H1 & H2) & ->). split_and!; try done.
      * intros (x & Ex & Hx)%list_elem_of_fmap. apply (proj1 (Forall_forall _ _) H2) in Hx as (_ & _ & _ & Hx).
        rewrite deliveryOf_restoreDelivery in Hx. by rewrite decide_True in Hx.
      * eapply Forall_impl; [exact H2|]. intros x (Hx1 & Hx2 & Hx3 & Hx4). split_and!; try done.
        rewrite deliveryOf_restoreDelivery in Hx4. by case_decide.
    + intros (((Hm1 & H1) & (Hm2 & Hm3 & _) & H2) & ->). split_and!; try done.
      apply Forall_forall. intros x Hx. destruct (proj1 (Forall_forall _ _) H2 x Hx) as (Hx1 & Hx2 & Hx3 & Hx4).
      split_and!; try done. rewrite deliveryOf_restoreDelivery, decide_False; [done|].
      intros Ex. apply Hm1. rewrite <- Ex. by apply (list_elem_of_fmap_2 deliveryKey) in Hx.
Qed.

Lemma restoredDeliveries_parts s l :
  nextSeq (foldl restoreDelivery s l) = nextSeq s /\ limits (foldl restoreDelivery s l) = limits s /\
  messages (foldl restoreDelivery s l) = messages s /\ threads (foldl restoreDelivery s l) = threads s.
Proof. induction l as [|x l IH] using rev_ind; [done|]. by rewrite foldl_app. Qed.

Lemma deliveryOf_restored s l r id d :
  freshDeliveries s l ->
  deliveryOf (foldl restoreDelivery s l) r id = Some d <->
  deliveryOf s r id = Some d \/ (d ∈ l /\ deliveryKey d = (r, id)).
Proof.
  intros [Hn HF]. induction l as [|x l IH] using rev_ind; [simpl; set_solver|].
  rewrite map_app in Hn. apply NoDup_app in Hn as (Hn & Hx & _). apply Forall_app in HF as [HF HFx].
  inversion_clear HFx as [|? ? (_ & _ & _ & Hx2) _]. rewrite foldl_app. cbn [foldl]. rewrite deliveryOf_restoreDelivery.
  case_decide as Hc.
  - split; [intros [= <-]; right; set_solver|]. unfold deliveryKey in Hc at 1. injection Hc as -> ->.
    intros [H|[[Hm|Hm]%elem_of_app E]]; [congruence| |set_solver].
    destruct (Hx (deliveryKey d)); [by apply list_elem_of_fmap_2|]. rewrite E. apply list_elem_of_here.
  - rewrite IH by done. set_solver.
Qed.
Lemma restored_inner s l :
  (forall r bm, deliveries s !! r = Some bm -> bm <> ∅) ->
  forall r bm, deliveries (foldl restoreDelivery s l) !! r = Some bm -> bm <> ∅.
Proof.
  intros Hs. induction l as [|x l IH] using rev_ind; [done|]. intros r bm. rewrite foldl_app. simpl.
  destruct (decide (r = addrID (Recipient x))) as [->|Hr].
  - rewrite lookup_insert_eq. intros [= <-]. apply insert_non_empty.
  - rewrite lookup_insert_ne by done. apply IH.
Qed.

(** ** RestoreSnapshot *)

(** The store the loops start from. *)
Definition restoreBase (snap : Snapshot) (opts : Limits) : Store :=
  if negb (NextSeq snap =? 0) then setNextSeq (NextSeq snap) (NewStore opts) else NewStore opts.
Definition restoredSeq (n maxSeq : Z) : Z :=
  let n := if n =? 0 then 1 else n in if n <=? maxSeq then wrap64 (maxSeq + 1) else n.

(** What a snapshot must be to be restored. *)
Definition wellFormed (snap : Snapshot) : Prop :=
  NoDup (map msgID (snapMessages snap)) /\ Forall (fun m => msgID m <> ""%string) (snapMessages snap) /\
  NoDup (map deliveryKey (snapDeliveries snap)) /\
  Forall (fun d => MessageID d <> ""%string /\ addrID (Recipient d) <> 0 /\
                   MessageID d ∈ map msgID (snapMessages snap)) (snapDeliveries snap).

Definition maxSnapshotSeq (snap : Snapshot) : Z := foldl maxSeqOf 0 (snapMessages snap).
Definition restored (snap : Snapshot) (opts : Limits) : Store :=
  let s := foldl restoreDelivery (foldl restoreMessage (restoreBase snap opts) (snapMessages snap)) (snapDeliveries snap) in
  setNextSeq (restoredSeq (nextSeq s) (maxSnapshotSeq snap)) s.

Lemma restoreBase_empty snap opts :
  messages (restoreBase snap opts) = ∅ /\ deliveries (restoreBase snap opts) = ∅ /\
  threads (restoreBase snap opts) = ∅ /\ limits (restoreBase snap opts) = normalizeLimits opts.
Proof. unfold restoreBase. by destruct (negb _). Qed.
Lemma deliveryOf_empty s r id : deliveries s = ∅ -> deliveryOf s r id = None.
Proof. intros H. unfold deliveryOf, look. rewrite H, lookup_empty. apply lookup_empty. Qed.

Lemma freshMessages_base snap opts l :
  freshMessages (restoreBase snap opts) l <-> NoDup (map msgID l) /\ Forall (fun m => msgID m <> ""%string) l.
Proof.
  destruct (restoreBase_empty snap opts) as (E & _). unfold freshMessages. rewrite E.
  split; intros [H1 H2]; (split; [done|]); eapply Forall_impl; try exact H2; [by intros m []|].
  intros m Hm. split; [done|apply lookup_empty].
Qed.
Lemma freshDeliveries_base snap opts l :
  freshMessages (restoreBase snap opts) l ->
  freshDeliveries (foldl restoreMessage (restoreBase snap opts) l) (snapDeliveries snap) <->
  NoDup (map deliveryKey (snapDeliveries snap)) /\
  Forall (fun d => MessageID d <> ""%string /\ addrID (Recipient d) <> 0 /\ MessageID d ∈ map msgID l) (snapDeliveries snap).
Proof.
  intros Hf. destruct (restoreBase_empty snap opts) as (E1 & E2 & _).
  destruct (restored_parts (restoreBase snap opts) l) as (_ & _ & E3). unfold freshDeliveries.
  assert (Hiff : forall id, is_Some (messages (foldl restoreMessage (restoreBase snap opts) l) !! id) <-> id ∈ map msgID l).
  { intros id. rewrite list_elem_of_fmap. split.
    - intros [m [Hm|[Hm E]]%(lookup_restored _ _ _ _ Hf)]; [by rewrite E1, lookup_empty in Hm|by exists m].
    - intros (m & -> & Hm). exists m. apply lookup_restored; [done|]. by right. }
  split; intros [H1 H2]; (split; [done|]); (eapply Forall_impl; [exact H2|]); cbv beta.
  - intros d (G1 & G2 & G3%Hiff & _). done.
  - intros d (G1 & G2 & G3%Hiff). split_and!; try done. apply deliveryOf_empty. by rewrite E3.
Qed.

Lemma RestoreSnapshot_ok snap opts s :
  RestoreSnapshot snap opts = inr s <-> wellFormed snap /\ s = restored snap opts.
Proof.
  unfold RestoreSnapshot. cbv zeta. fold (restoreBase snap opts). rewrite res_bind_inr.
  setoid_rewrite restoreMessages_ok. unfold wellFormed, restored, maxSnapshotSeq, restoredSeq. cbv zeta.
  set (s1 := foldl restoreMessage (restoreBase snap opts) (snapMessages snap)).
  set (s2 := foldl restoreDelivery s1 (snapDeliveries snap)). set (k := foldl maxSeqOf 0 (snapMessages snap)).
  assert (Hseq : forall s0 : Store, (let s0 := if nextSeq s0 =? 0 then setNextSeq 1 s0 else s0 in
            if nextSeq s0 <=? k then setNextSeq (wrap64 (k + 1)) s0 else s0) =
          setNextSeq (let n := if nextSeq s0 =? 0 then 1 else nextSeq s0 in if n <=? k then wrap64 (k + 1) else n) s0).
  { intros s0. destruct s0; unfold setNextSeq; simpl; repeat (case_match; simpl in *); congruence. }
  cbv zeta in Hseq. split.
  - intros ([k' s1'] & (Hf & [= -> ->]) & (s2' & (Hd & ->)%restoreDeliveries_ok & <-%mret_inr)%res_bind_inr).
    fold s1 s2 k. rewrite Hseq. split; [|done]. pose proof Hf as Hd'. apply (freshDeliveries_base snap opts) in Hd'.
    apply Hd' in Hd as [? ?]. apply freshMessages_base in Hf as [? ?]. done.
  - intros ((H1 & H2 & H3) & ->). exists (k, s1).
    assert (freshMessages (restoreBase snap opts) (snapMessages snap)) as Hf by by apply freshMessages_base.
    split; [done|]. apply res_bind_inr. exists s2. split; [|by rewrite mret_inr, Hseq].
    apply restoreDeliveries_ok. split; [|done]. by apply freshDeliveries_base.
Qed.

Lemma parseDigits_bound l acc n : 0 <= acc < 2 ^ 64 -> parseDigits acc l = Some n -> 0 <= n < 2 ^ 64.
Proof.
  revert acc. induction l as [|c l IH]; intros acc Ha; simpl; [by intros [= <-]|].
  unfold isDigit. destruct (Z.leb_spec 48 c), (Z.leb_spec c 57); simpl; try done.
  destruct (Z.leb_spec (2 ^ 64) (acc * 10 + (c - 48))); [done|]. apply IH. lia.
Qed.
Lemma parseMessageSeq_bound id n : parseMessageSeq id = Some n -> 0 <= n < 2 ^ 64.
Proof.
  unfold parseMessageSeq. cbv zeta. destruct (hasPrefix _ _); [|done].
  unfold ParseUint. destruct (drop _ _); [done|]. apply parseDigits_bound. lia.
Qed.

(** The fields of a restored store. *)
Lemma restored_fields snap opts :
  wellFormed snap ->
  let s := restored snap opts in
  limits s = normalizeLimits opts /\
  (forall id m, messages s !! id = Some m <-> m ∈ snapMessages snap /\ msgID m = id) /\
  (forall r id d, deliveryOf s r id = Some d <-> d ∈ snapDeliveries snap /\ deliveryKey d = (r, id)) /\
  (forall r bm, deliveries s !! r = Some bm -> bm <> ∅) /\
  (forall t, threads s !! t =
     if decide (t = ""%string) then None
     else match map msgID (filter (inThread t) (snapMessages snap)) with [] => None | ids => Some ids end).
Proof.
  intros (H1 & H2 & H3 & H4). destruct (restoreBase_empty snap opts) as (E1 & E2 & E3 & E4).
  assert (freshMessages (restoreBase snap opts) (snapMessages snap)) as Hf by by apply freshMessages_base.
  assert (freshDeliveries (foldl restoreMessage (restoreBase snap opts) (snapMessages snap)) (snapDeliveries snap)) as Hd
    by by apply freshDeliveries_base.
  destruct (restored_parts (restoreBase snap opts) (snapMessages snap)) as (_ & L1 & L2).
  destruct (restoredDeliveries_parts (foldl restoreMessage (restoreBase snap opts) (snapMessages snap)) (snapDeliveries snap))
    as (_ & M1 & M2 & M3).
  unfold restored. cbn [setNextSeq limits messages deliveries threads]. split_and!.
  - by rewrite M1, L1.
  - intros id m. rewrite M2, lookup_restored, E1, lookup_empty by done. naive_solver.
  - intros r id d. change (deliveryOf (setNextSeq ?n ?s0) r id) with (deliveryOf s0 r id).
    rewrite deliveryOf_restored by done. rewrite deliveryOf_empty by by rewrite L2. naive_solver.
  - apply restored_inner. rewrite L2, E2. intros r bm H. by rewrite lookup_empty in H.
  - intros t. rewrite M3. by apply threads_restored.
Qed.

(** No message of the snapshot has the largest sequence number. *)
Definition seqRoom (snap : Snapshot) : Prop :=
  Forall (fun m => parseMessageSeq (msgID m) <> Some (2 ^ 64 - 1)) (snapMessages snap).

Lemma maxSnapshotSeq_bound snap : seqRoom snap -> 0 <= maxSnapshotSeq snap < 2 ^ 64 - 1.
Proof.
  intros Hr. destruct (maxSeqOf_spec 0 (snapMessages snap)) as (H1 & H2 & _).
  unfold maxSnapshotSeq. destruct H2 as [->|(m & Hm & E)]; [lia|].
  pose proof (parseMessageSeq_bound _ _ E) as Hb. pose proof (proj1 (Forall_forall _ _) Hr m Hm) as Hne. simpl in Hne.
  assert (foldl maxSeqOf 0 (snapMessages snap) <> 2 ^ 64 - 1) by (intros E'; rewrite E' in E; done). lia.
Qed.
Lemma restoredSeq_spec n k :
  0 <= n < 2 ^ 64 -> 0 <= k < 2 ^ 64 - 1 -> 0 < restoredSeq n k < 2 ^ 64 /\ k < restoredSeq n k /\
  (0 < n -> k < n -> restoredSeq n k = n).
Proof.
  intros Hn Hk. unfold restoredSeq. cbv zeta. destruct (Z.eqb_spec n 0) as [->|E].
  - destruct (Z.leb_spec 1 k); [rewrite wrap64_small by lia|]; lia.
  - destruct (Z.leb_spec n k); [rewrite wrap64_small by lia|]; lia.
Qed.
Lemma nextSeq_restored snap opts :
  nextSeq (restored snap opts) =
  restoredSeq (if NextSeq snap =? 0 then 1 else NextSeq snap) (maxSnapshotSeq snap).
Proof.
  unfold restored. cbn [setNextSeq nextSeq].
  destruct (restoredDeliveries_parts (foldl restoreMessage (restoreBase snap opts) (snapMessages snap)) (snapDeliveries snap)) as (-> & _).
  destruct (restored_parts (restoreBase snap opts) (snapMessages snap)) as (-> & _). f_equal.
  unfold restoreBase. by destruct (NextSeq snap =? 0).
Qed.

Lemma StoreInv_restored snap opts :
  wellFormed snap -> seqRoom snap -> 0 <= NextSeq snap < 2 ^ 64 -> StoreInv (restored snap opts).
Proof.
  intros Hw Hr Hn. destruct (restored_fields snap opts Hw) as (_ & Hm & Hd & Hi & Ht).
  pose proof (maxSnapshotSeq_bound snap Hr) as Hk.
  destruct (restoredSeq_spec (if NextSeq snap =? 0 then 1 else NextSeq snap) (maxSnapshotSeq snap)) as (S1 & S2 & _);
    [by destruct (NextSeq snap =? 0)|done|]. rewrite <- (nextSeq_restored snap opts) in S1, S2.
  destruct Hw as (H1 & H2 & H3 & H4). split.
  - done.
  - intros id m [Hin <-]%Hm. split; [done|]. by apply (proj1 (Forall_forall _ _) H2).
  - intros id m n [Hin <-]%Hm Hp. destruct (maxSeqOf_spec 0 (snapMessages snap)) as (_ & _ & H).
    specialize (H m n Hin Hp). unfold maxSnapshotSeq in S2. lia.
  - intros r id d [Hin [= <- <-]]%Hd. destruct (proj1 (Forall_forall _ _) H4 d Hin) as (_ & G2 & (m & E & Hin')%list_elem_of_fmap).
    split_and!; try done. exists m. by apply Hm.
  - done.
  - intros t ids. rewrite Ht. destruct (decide (t = ""%string)) as [|Hne]; [done|].
    destruct (map msgID (filter (inThread t) (snapMessages snap))) as [|i l] eqn:El; [done|]. intros [= <-].
    rewrite <- El. split_and!; [done|by rewrite El| |].
    + eapply sublist_NoDup; [exact H1|]. apply (fmap_sublist msgID), sublist_filter.
    + intros id (m & -> & [HT Hin]%list_elem_of_filter)%list_elem_of_fmap. exists m. split; [by apply Hm|done].
  - intros id m [Hin <-]%Hm Hne. rewrite Ht, decide_False by done.
    assert (msgID m ∈ map msgID (filter (inThread (ThreadID m)) (snapMessages snap))) as Hin'.
    { apply list_elem_of_fmap_2, list_elem_of_filter. done. }
    destruct (map msgID (filter _ _)); [by apply elem_of_nil in Hin'|done].
Qed.

(** ** The snapshot of a store *)

Lemma elem_of_values {A} (m : gmap string A) x : x ∈ map snd (map_to_list m) <-> exists k, m !! k = Some x.
Proof.
  rewrite list_elem_of_fmap. split.
  - intros ([k y] & -> & H%elem_of_map_to_list). by exists k.
  - intros [k H]. exists (k, x). split; [done|]. by apply elem_of_map_to_list.
Qed.

Lemma storeSnapshot_eq s :
  StoreInv s ->
  storeSnapshot s = {| NextSeq := nextSeq s;
    snapMessages := stableSort messageLe (snapMessages (SnapshotSource s));
    snapDeliveries := stableSort deliveryLe (snapDeliveries (SnapshotSource s)) |}.
Proof.
  intros Hs. pose proof (inv_seq s Hs). unfold storeSnapshot, sourceSnapshot.
  change (NextSeq (SnapshotSource s)) with (nextSeq s). by destruct (Z.eqb_spec (nextSeq s) 0); [lia|].
Qed.
Lemma elem_of_snapMessages s m :
  StoreInv s -> m ∈ snapMessages (storeSnapshot s) <-> messages s !! msgID m = Some m.
Proof.
  intros Hs. rewrite storeSnapshot_eq by done. cbn [snapMessages]. rewrite stableSort_Permutation. simpl.
  rewrite elem_of_values. split; [|by eexists]. intros [k Hk]. by destruct (inv_key s Hs k m Hk) as [-> _].
Qed.
Lemma elem_of_snapDeliveries s d :
  StoreInv s -> d ∈ snapDeliveries (storeSnapshot s) <-> deliveryOf s (addrID (Recipient d)) (MessageID d) = Some d.
Proof.
  intros Hs. rewrite storeSnapshot_eq by done. cbn [snapDeliveries]. rewrite stableSort_Permutation. simpl.
  rewrite list_elem_of_bind. split.
  - intros ([r bm] & [id Hid]%elem_of_values & Hr%elem_of_map_to_list).
    assert (deliveryOf s r id = Some d) as Hd by (unfold deliveryOf, look; by rewrite Hr).
    by destruct (inv_delivery s Hs r id d Hd) as (_ & -> & -> & _).
  - unfold deliveryOf, look. destruct (deliveries s !! addrID (Recipient d)) as [bm|] eqn:E; simpl.
    + intros H. exists (addrID (Recipient d), bm). split; [apply elem_of_values; by eexists|by apply elem_of_map_to_list].
    + by rewrite lookup_empty.
Qed.

Lemma NoDup_values_key {A} (f : A -> string) (m : gmap string A) :
  (forall k x, m !! k = Some x -> f x = k) -> NoDup (map f (map snd (map_to_list m))).
Proof.
  intros H. rewrite map_map. assert (map (fun p => f p.2) (map_to_list m) = map fst (map_to_list m)) as ->.
  { apply map_ext_in. intros [k x] Hin. simpl. by apply H, elem_of_map_to_list, list_elem_of_In. }
  apply NoDup_fst_map_to_list.
Qed.
Lemma NoDup_deliveryKeys s : StoreInv s -> NoDup (map deliveryKey (snapDeliveries (SnapshotSource s))).
Proof.
  intros Hs. simpl.
  assert (Hkey : forall r bm id d, (r, bm) ∈ map_to_list (deliveries s) -> bm !! id = Some d -> deliveryKey d = (r, id)).
  { intros r bm id d Hr%elem_of_map_to_list Hid.
    assert (deliveryOf s r id = Some d) as Hd by (unfold deliveryOf, look; by rewrite Hr).
    unfold deliveryKey. by destruct (inv_delivery s Hs r id d Hd) as (_ & -> & -> & _). }
  assert (Hn : NoDup (map fst (map_to_list (deliveries s)))) by apply NoDup_fst_map_to_list.
  induction (map_to_list (deliveries s)) as [|[r bm] l IH]; simpl; [apply NoDup_nil_2|].
  simpl in Hn. apply NoDup_cons in Hn as [Hr Hn]. rewrite map_app. apply NoDup_app. split_and!.
  - apply (NoDup_fmap_1 snd). rewrite <- list_fmap_compose. apply (NoDup_values_key MessageID). intros k x Hk.
    assert (deliveryKey x = (r, k)) as [= _ E] by (eapply Hkey; [apply list_elem_of_here|done]). done.
  - intros y (d1 & -> & [i1 H1]%elem_of_values)%list_elem_of_fmap
      (d2 & E & ([r2 bm2] & [i2 H2]%elem_of_values & H3)%list_elem_of_bind)%list_elem_of_fmap.
    rewrite (Hkey r bm i1 d1) in E; [|apply list_elem_of_here|done].
    rewrite (Hkey r2 bm2 i2 d2) in E; [|by right|done]. injection E as -> _.
    apply Hr. by apply (list_elem_of_fmap_2 fst) in H3.
  - apply IH; [|done]. intros r' bm' id d Hr'. apply Hkey. by right.
Qed.

Lemma wellFormed_snapshot s : StoreInv s -> wellFormed (storeSnapshot s).
Proof.
  intros Hs. unfold wellFormed. split_and!.
  - rewrite storeSnapshot_eq by done. cbn [snapMessages]. rewrite stableSort_Permutation. simpl.
    apply NoDup_values_key. intros k x Hk. by destruct (inv_key s Hs k x Hk).
  - apply Forall_forall. intros m Hm%elem_of_snapMessages; [|done]. by destruct (inv_key s Hs _ _ Hm).
  - rewrite storeSnapshot_eq by done. cbn [snapDeliveries]. rewrite stableSort_Permutation.
    by apply NoDup_deliveryKeys.
  - apply Forall_forall. intros d Hd%elem_of_snapDeliveries; [|done].
    destruct (inv_delivery s Hs _ _ _ Hd) as (H1 & _ & _ & m & Hm). pose proof (inv_key s Hs _ _ Hm) as [E Hne].
    split_and!; [done|done|]. apply list_elem_of_fmap. exists m. split; [done|]. apply elem_of_snapMessages; [done|].
    by rewrite E.
Qed.
Lemma maxSeq_snapshot s : StoreInv s -> maxSnapshotSeq (storeSnapshot s) < nextSeq s.
Proof.
  intros Hs. destruct (maxSeqOf_spec 0 (snapMessages (storeSnapshot s))) as (_ & [E|(m & Hm & E)] & _);
    unfold maxSnapshotSeq.
  - rewrite E. pose proof (inv_seq s Hs). lia.
  - apply elem_of_snapMessages in Hm; [|done]. by apply (inv_fresh s Hs (msgID m) m).
Qed.

Lemma sorted_msgIDs (P : Message -> Prop) `{!forall m, Decision (P m)} l :
  StronglySorted (fun m1 m2 => messageLe m1 m2 = true) l ->
  StronglySorted (fun a b => strLe a b = true) (map msgID (filter P l)).
Proof.
  induction 1 as [|m l Hl IH Hm]; [constructor|]. rewrite filter_cons. case_decide; [|done]. simpl.
  constructor; [done|]. apply Forall_forall. intros i (x & -> & [_ Hx]%list_elem_of_filter)%list_elem_of_fmap.
  by apply (proj1 (Forall_forall _ _) Hm) in Hx.
Qed.

(** The IDs of a thread as the snapshot lists them. *)
Lemma snapshot_thread s t ids :
  StoreInv s -> threads s !! t = Some ids ->
  map msgID (filter (inThread t) (snapMessages (storeSnapshot s))) = sortStrings ids.
Proof.
  intros Hs Ht. destruct (inv_thread s Hs t ids Ht) as (H1 & H2 & H3 & H4).
  apply strLe_sorted_unique.
  - rewrite sortStrings_Permutation. apply NoDup_Permutation.
    + eapply sublist_NoDup; [apply (wellFormed_snapshot s Hs)|]. apply (fmap_sublist msgID), sublist_filter.
    + done.
    + intros id. rewrite list_elem_of_fmap. split.
      * intros (m & -> & [HT Hm%elem_of_snapMessages]%list_elem_of_filter); [|done].
        pose proof (inv_threaded s Hs _ _ Hm) as Hin. unfold inThread in HT. rewrite HT, Ht in Hin. by apply Hin.
      * intros (m & Hm & HT)%H4. pose proof (inv_key s Hs _ _ Hm) as [E _]. exists m. split; [done|].
        apply list_elem_of_filter. split; [done|]. apply elem_of_snapMessages; [done|]. by rewrite E.
  - rewrite storeSnapshot_eq by done. cbn [snapMessages]. apply sorted_msgIDs, stableSort_sorted.
    + intros x y. apply strLe_total.
    + intros x y z. apply strLe_trans.
  - apply sortStrings_sorted.
Qed.

(** Restoring a snapshot gives the store back; a thread lists its messages in
    the order of their IDs, which is the order every query gives them. *)
Lemma restored_snapshot s opts :
  StoreInv s ->
  let s' := restored (storeSnapshot s) opts in
  nextSeq s' = nextSeq s /\ messages s' = messages s /\ deliveries s' = deliveries s /\
  (forall t, threads s' !! t = sortStrings <$> threads s !! t) /\ limits s' = normalizeLimits opts.
Proof.
  intros Hs. pose proof (wellFormed_snapshot s Hs) as Hw.
  destruct (restored_fields (storeSnapshot s) opts Hw) as (F1 & F2 & F3 & F4 & F5). cbv zeta. split_and!.
  - rewrite nextSeq_restored. pose proof (inv_seq s Hs) as Hseq. pose proof (maxSeq_snapshot s Hs) as Hmax.
    assert (NextSeq (storeSnapshot s) = nextSeq s) as -> by by rewrite storeSnapshot_eq.
    destruct (Z.eqb_spec (nextSeq s) 0); [lia|].
    assert (0 <= maxSnapshotSeq (storeSnapshot s)) by (unfold maxSnapshotSeq; apply maxSeqOf_spec).
    apply restoredSeq_spec; lia.
  - apply map_eq. intros id. apply option_eq. intros m. rewrite F2, elem_of_snapMessages by done. split.
    + by intros [H <-].
    + intros H. pose proof (inv_key s Hs _ _ H) as [E _]. by rewrite E.
  - assert (Hl : forall r id, deliveryOf (restored (storeSnapshot s) opts) r id = deliveryOf s r id).
    { intros r id. apply option_eq. intros d. rewrite F3, elem_of_snapDeliveries by done. unfold deliveryKey. split.
      - by intros [H [= <- <-]].
      - intros H. destruct (inv_delivery s Hs _ _ _ H) as (_ & E1 & E2 & _). by rewrite E1, E2. }
    unfold deliveryOf, look in Hl. apply map_eq. intros r.
    destruct (deliveries (restored _ _) !! r) as [bm|] eqn:E1, (deliveries s !! r) as [bm'|] eqn:E2; [| | |done].
    + f_equal. apply map_eq. intros id. specialize (Hl r id). by rewrite E1, E2 in Hl.
    + destruct (F4 r bm E1). apply map_eq. intros id. specialize (Hl r id). by rewrite E1, E2 in Hl.
    + destruct (inv_inner s Hs r bm' E2). apply map_eq. intros id. specialize (Hl r id). by rewrite E1, E2 in Hl.
  - intros t. rewrite F5. destruct (threads s !! t) as [ids|] eqn:Et.
    + destruct (inv_thread s Hs t ids Et) as (H1 & H2 & _). rewrite decide_False by done.
      rewrite (snapshot_thread s t ids Hs Et). simpl. destruct (sortStrings ids) eqn:E; [|done].
      pose proof (sortStrings_Permutation ids) as HP. rewrite E in HP. by apply Permutation_nil_l in HP.
    + case_decide as Hne; [done|].
      destruct (map msgID (filter (inThread t) (snapMessages (storeSnapshot s)))) as [|id l] eqn:E; [done|].
      assert (id ∈ map msgID (filter (inThread t) (snapMessages (storeSnapshot s)))) as Hin
        by (rewrite E; apply list_elem_of_here).
      apply list_elem_of_fmap in Hin as (m & -> & [HT Hm%elem_of_snapMessages]%list_elem_of_filter); [|done].
      unfold inThread in HT. subst t. pose proof (inv_threaded s Hs _ _ Hm Hne) as Hin. by rewrite Et in Hin; apply elem_of_nil in Hin.
  - done.
Qed.
