(* ===== verification/MailboxProps.v ===== *)
(** * The mailbox: the properties

    The life of a delivery, and what the store promises. *)

From S2P Require Import Prelude GoText GoCodec Mailbox MailboxFacts MailboxInv MailboxReach MailboxDrain MailboxSnapshot.

(** ** The mailbox: what the operations do to the deliveries, and draining

    Each operation as a change of one delivery; reading and acknowledging all
    pending deliveries; the text the fingerprint is taken of. *)

(** ** One delivery *)

Definition afterRead (peek : bool) (now : Z) (d : DeliveryState) : DeliveryState :=
  if negb peek && (ReadAt d =? 0) then setReadAt now d else d.
Definition afterAck (req : AckRequest) (now : Z) (d : DeliveryState) : DeliveryState :=
  if ackChanges d req then setAcked now (Status req) (Note req) d else d.
Definition noteFits (s : Store) (req : AckRequest) : Prop :=
  lenZ (bytesOf (Note req)) <= AckNoteBytes (limits s).
#[export] Instance noteFits_dec s req : Decision (noteFits s req).
Proof. unfold noteFits. apply _. Defined.

(** A delivery is one of a stored message to a pane. *)
Lemma messageDelivery_Some s r id d :
  StoreInv s -> deliveryOf s r id = Some d -> exists m, messages s !! id = Some m /\ messageDelivery s id r = inr (m, d).
Proof.
  intros Hs Hd. pose proof (inv_delivery s Hs _ _ _ Hd) as (Hr & _ & _ & m & Hm). exists m. split; [done|].
  by apply messageDelivery_ok.
Qed.
Lemma messageDelivery_None s r id e : StoreInv s -> messageDelivery s id r = inl e -> deliveryOf s r id = None.
Proof.
  intros Hs He. destruct (deliveryOf s r id) as [d|] eqn:Hd; [|done].
  destruct (messageDelivery_Some s r id d Hs Hd) as (m & _ & E). congruence.
Qed.

(** Writing [f d] for the delivery [d]. *)
Lemma deliveryOf_change s s' r id (f : DeliveryState -> DeliveryState) :
  (forall d, deliveryOf s r id = Some d -> s' = s /\ f d = d \/ exists m',
     s' = writeDelivery r id (f d) s \/ s' = writeMessage id m' (writeDelivery r id (f d) s)) ->
  (deliveryOf s r id = None -> s' = s) ->
  forall r' id', deliveryOf s' r' id' =
    if decide (r' = r /\ id' = id) then f <$> deliveryOf s r id else deliveryOf s r' id'.
Proof.
  intros HS HN r' id'. destruct (deliveryOf s r id) as [d|] eqn:Hd.
  - destruct (HS d eq_refl) as [[-> Hf]|(m' & Hs')].
    + case_decide as Hc; [|done]. destruct Hc as [-> ->]. by rewrite Hd; simpl; rewrite Hf.
    + assert (deliveryOf s' r' id' = deliveryOf (writeDelivery r id (f d) s) r' id') as -> by by destruct Hs' as [->| ->].
      by rewrite deliveryOf_write by by eexists.
  - rewrite HN by done. case_decide as Hc; [|done]. destruct Hc as [-> ->]. by rewrite Hd.
Qed.

Lemma deliveryOf_Read s id r peek now r' id' :
  StoreInv s ->
  deliveryOf (mrun (OpRead id r peek) now s) r' id' =
  if decide (r' = r /\ id' = id) then afterRead peek now <$> deliveryOf s r id else deliveryOf s r' id'.
Proof.
  intros Hs. apply deliveryOf_change; simpl.
  - intros d Hd. destruct (messageDelivery_Some s r id d Hs Hd) as (m & _ & E).
    destruct (Read_cases s id r peek now) as [(m0 & d0 & E0 & ->)|(e & E0 & _)]; rewrite E in E0; [|done].
    injection E0 as <- <-. unfold afterRead. destruct (_ && _); [right|by left]. eexists. by right.
  - intros HN. destruct (Read_cases s id r peek now) as [(m0 & d0 & E0 & ->)|(e & _ & ->)]; [|done].
    apply messageDelivery_ok in E0 as (_ & _ & ?). congruence.
Qed.

Lemma deliveryOf_Ack s id r req now r' id' :
  StoreInv s ->
  deliveryOf (mrun (OpAck id r req) now s) r' id' =
  if decide (r' = r /\ id' = id)
  then (if decide (noteFits s req) then afterAck req now else fun d => d) <$> deliveryOf s r id
  else deliveryOf s r' id'.
Proof.
  intros Hs. apply deliveryOf_change; simpl.
  - intros d Hd. destruct (messageDelivery_Some s r id d Hs Hd) as (m & _ & E).
    destruct (Ack_cases s id r req now) as [(Hn & m0 & d0 & E0 & ->)|([Hn|[e E0]] & e' & ->)].
    + rewrite E in E0. injection E0 as <- <-. rewrite decide_True by done. unfold afterAck.
      destruct (ackChanges d req); [right|by left]. eexists. by right.
    + rewrite decide_False by (unfold noteFits; lia). by left.
    + congruence.
  - intros HN. destruct (Ack_cases s id r req now) as [(_ & m0 & d0 & E0 & ->)|(_ & e & ->)]; [|done].
    apply messageDelivery_ok in E0 as (_ & _ & ?). congruence.
Qed.

Lemma deliveryOf_EventSeq s id r seq now r' id' :
  StoreInv s ->
  deliveryOf (mrun (OpEventSeq id r seq) now s) r' id' =
  if decide (r' = r /\ id' = id) then setEventSeq seq <$> deliveryOf s r id else deliveryOf s r' id'.
Proof.
  intros Hs. apply deliveryOf_change; simpl.
  - intros d Hd. destruct (messageDelivery_Some s r id d Hs Hd) as (m & _ & E).
    destruct (SetLastEventSeq_cases s id r seq) as [(m0 & d0 & E0 & ->)|(e & E0 & _)]; rewrite E in E0; [|done].
    injection E0 as <- <-. right. eexists m. by left.
  - intros HN. destruct (SetLastEventSeq_cases s id r seq) as [(m0 & d0 & E0 & ->)|(e & _ & ->)]; [|done].
    apply messageDelivery_ok in E0 as (_ & _ & ?). congruence.
Qed.

Lemma deliveryOf_Send s req now r id d :
  StoreInv s -> deliveryOf s r id = Some d -> deliveryOf (mrun (OpSend req) now s) r id = Some d.
Proof.
  intros Hs Hd. simpl. destruct (Send_cases s req now) as [[Hacc ->]|[_ [e ->]]]; [|done].
  pose proof (inv_delivery s Hs _ _ _ Hd) as (_ & _ & _ & m & Hm).
  destruct (lookup_sent_old s req now id m Hs Hm) as [Hid _].
  unfold deliveryOf in *. simpl. by rewrite look_foldl_other by by left.
Qed.

(** What is recorded of a delivery is never taken back. *)
Definition later (now : Z) (d d' : DeliveryState) : Prop :=
  sameDelivery d d' /\ (ReadAt d <> 0 -> ReadAt d' = ReadAt d) /\
  (AckedAt d <> 0 -> AckedAt d' = AckedAt d \/ AckedAt d' = now).

Lemma delivery_later s op now r id d :
  StoreInv s -> deliveryOf s r id = Some d ->
  exists d', deliveryOf (mrun op now s) r id = Some d' /\ later now d d'.
Proof.
  intros Hs Hd. assert (later now d d) as Hrefl by (unfold later, sameDelivery; auto).
  destruct op as [req|id' r' peek|id' r' req|id' r' seq].
  - exists d. by rewrite (deliveryOf_Send s req now r id d).
  - rewrite deliveryOf_Read by done. case_decide as Hc; [|by exists d]. destruct Hc as [<- <-]. rewrite Hd.
    eexists. split; [done|]. unfold afterRead. destruct (Z.eqb_spec (ReadAt d) 0), peek; try done.
    unfold later, sameDelivery. simpl. naive_solver.
  - rewrite deliveryOf_Ack by done. case_decide as Hc; [|by exists d]. destruct Hc as [<- <-]. rewrite Hd.
    eexists. split; [done|]. case_decide; [|done]. unfold afterAck. destruct (ackChanges d req); [|done].
    unfold later, sameDelivery. simpl. naive_solver.
  - rewrite deliveryOf_EventSeq by done. case_decide as Hc; [|by exists d]. destruct Hc as [<- <-]. rewrite Hd.
    eexists. split; [done|]. unfold later, sameDelivery. simpl. naive_solver.
Qed.

(** ** Draining: read and acknowledge *)

Definition drainOne (r : Z) (req : AckRequest) (now : Z) (s : Store) (id : string) : Store :=
  mrun (OpAck id r req) now (mrun (OpRead id r false) now s).
Definition drainRun (r : Z) (req : AckRequest) (now : Z) (ids : list string) (s : Store) : Store :=
  foldl (drainOne r req now) s ids.

Lemma limits_mrun op now s : limits (mrun op now s) = limits s.
Proof.
  destruct (mrun_cases op now s) as [->|[(req & _ & _ & ->)|(id & r & Ht)]]; [done|done|].
  by apply touched_parts in Ht as (_ & ? & _).
Qed.
Lemma StoreInv_read s id r peek now : StoreInv s -> StoreInv (mrun (OpRead id r peek) now s).
Proof.
  intros Hs. destruct (mrun_cases (OpRead id r peek) now s) as [->|[(req & E & _)|(i & r' & Ht)]]; [done|done|].
  by eapply StoreInv_touched.
Qed.
Lemma StoreInv_ack s id r req now : StoreInv s -> StoreInv (mrun (OpAck id r req) now s).
Proof.
  intros Hs. destruct (mrun_cases (OpAck id r req) now s) as [->|[(q & E & _)|(i & r' & Ht)]]; [done|done|].
  by eapply StoreInv_touched.
Qed.

Lemma afterRead_read now d : now <> 0 -> ReadAt (afterRead false now d) <> 0.
Proof. intros H. unfold afterRead. by destruct (Z.eqb_spec (ReadAt d) 0). Qed.
Lemma afterAck_ReadAt req now d : ReadAt (afterAck req now d) = ReadAt d.
Proof. unfold afterAck. by destruct (ackChanges d req). Qed.
Lemma afterAck_acked req now d : now <> 0 -> AckedAt (afterAck req now d) <> 0.
Proof.
  intros H. unfold afterAck. destruct (ackChanges d req) eqn:E; [done|].
  unfold ackChanges in E. destruct (Z.eqb_spec (AckedAt d) 0); done.
Qed.

Lemma drainOne_spec r req now s id :
  StoreInv s -> noteFits s req -> now <> 0 ->
  let s' := drainOne r req now s id in
  StoreInv s' /\ limits s' = limits s /\
  (forall id', id' <> id -> deliveryOf s' r id' = deliveryOf s r id') /\
  (forall d', deliveryOf s' r id = Some d' -> ReadAt d' <> 0 /\ AckedAt d' <> 0).
Proof.
  intros Hs Hn Hnow. unfold drainOne. pose proof (StoreInv_read s id r false now Hs) as Hs1.
  split_and!.
  - by apply StoreInv_ack.
  - by rewrite !limits_mrun.
  - intros id' Hid. rewrite deliveryOf_Ack, decide_False by naive_solver.
    by rewrite deliveryOf_Read, decide_False by naive_solver.
  - intros d'. rewrite deliveryOf_Ack, decide_True, deliveryOf_Read, (decide_True (P := r = r /\ id = id)) by done.
    rewrite decide_True by (unfold noteFits in *; by rewrite limits_mrun).
    intros (d1 & (d & _ & ->)%fmap_Some & ->)%fmap_Some. rewrite afterAck_ReadAt.
    split; [by apply afterRead_read|by apply afterAck_acked].
Qed.

Lemma drainRun_spec r req now ids s :
  StoreInv s -> noteFits s req -> now <> 0 ->
  let s' := drainRun r req now ids s in
  StoreInv s' /\
  (forall id, id ∉ ids -> deliveryOf s' r id = deliveryOf s r id) /\
  (forall id d', id ∈ ids -> deliveryOf s' r id = Some d' -> ReadAt d' <> 0 /\ AckedAt d' <> 0).
Proof.
  intros Hs Hn Hnow. revert s Hs Hn. induction ids as [|id ids IH]; intros s Hs Hn; simpl.
  - split_and!; [done|done|]. intros id d' H%elem_of_nil. done.
  - destruct (drainOne_spec r req now s id Hs Hn Hnow) as (H1 & H2 & H3 & H4).
    destruct (IH (drainOne r req now s id) H1) as (I1 & I2 & I3); [unfold noteFits in *; by rewrite H2|].
    split_and!; [done| |].
    + intros i [Hi Hi']%not_elem_of_cons. by rewrite I2, H3.
    + intros i d' Hi. destruct (decide (i ∈ ids)) as [Hi'|Hi']; [by apply I3|].
      apply elem_of_cons in Hi as [->|Hi]; [|done]. rewrite I2 by done. apply H4.
Qed.

Lemma filter_nil {A} (P : A -> Prop) `{!forall x, Decision (P x)} l : (forall x, x ∈ l -> ~ P x) -> filter P l = [].
Proof.
  induction l as [|x l IH]; intros Hn; [done|]. rewrite filter_cons, decide_False by (apply Hn, list_elem_of_here).
  apply IH. intros y Hy. apply Hn. by right.
Qed.

Lemma drained_nothing s r limit :
  (forall id d, deliveryOf s r id = Some d -> ReadAt d <> 0 /\ AckedAt d <> 0) -> drainSpec s r limit = emptyDrain.
Proof.
  intros H. assert (forall p, p ∈ recipientEntries s r -> ReadAt p.2 <> 0 /\ AckedAt p.2 <> 0) as Hp.
  { intros [id d] Hin%recipientEntries_elem. by apply (H id). }
  unfold drainSpec. rewrite !filter_nil; [done| | |]; intros p [H1 H2]%Hp; unfold pending, needsRead, needsAck; tauto.
Qed.

Lemma drainRun_drained s r limit limit' req now :
  StoreInv s -> noteFits s req -> now <> 0 ->
  drainSpec (drainRun r req now (PendingIDs (drainSpec s r limit)) s) r limit' = emptyDrain.
Proof.
  intros Hs Hn Hnow. apply drained_nothing. intros id d Hd.
  destruct (drainRun_spec r req now (PendingIDs (drainSpec s r limit)) s Hs Hn Hnow) as (_ & H2 & H3).
  destruct (decide (id ∈ PendingIDs (drainSpec s r limit))) as [Hin|Hin]; [by apply (H3 id)|].
  rewrite H2 in Hd by done. destruct (decide (pending (id, d))) as [Hp|Hp].
  - destruct Hin. simpl. apply list_elem_of_fmap. exists (id, d). split; [done|]. apply list_elem_of_filter.
    split; [done|]. by apply recipientEntries_elem.
  - unfold pending, needsRead, needsAck in Hp. simpl in Hp. tauto.
Qed.

(** ** The text of the fingerprint *)

(** What the fingerprint is meant to tell apart. *)
Definition drainKey (p : string * DeliveryState) : string * bool * bool :=
  (p.1, ReadAt p.2 =? 0, AckedAt p.2 =? 0).

Lemma split_zero (a b x y : bytes) :
  (0 ∉ a) -> (0 ∉ b) -> a ++ 0 :: x = b ++ 0 :: y -> a = b /\ x = y.
Proof.
  revert b. induction a as [|c a IH]; intros [|d b] Ha Hb E; simpl in E.
  - by injection E.
  - injection E as <- _. destruct Hb. apply list_elem_of_here.
  - injection E as -> _. destruct Ha. apply list_elem_of_here.
  - injection E as -> E. rewrite not_elem_of_cons in Ha, Hb. destruct (IH b) as [-> ->]; naive_solver.
Qed.
Lemma split_newline (b1 b2 : bool) x y : boolText b1 ++ 10 :: x = boolText b2 ++ 10 :: y -> b1 = b2 /\ x = y.
Proof. destruct b1, b2; vm_compute; intros E; split; try done; by injection E. Qed.
Lemma boolText_no_zero b : 0 ∉ boolText b.
Proof. destruct b; vm_compute; intros H; repeat (apply elem_of_cons in H as [H|H]; [done|]); by apply elem_of_nil in H. Qed.
Lemma boolText_inj b1 b2 : boolText b1 = boolText b2 -> b1 = b2.
Proof. by destruct b1, b2. Qed.

Lemma drainLines_inj l1 l2 :
  Forall (fun p => 0 ∉ bytesOf p.1) l1 -> Forall (fun p => 0 ∉ bytesOf p.1) l2 ->
  l1 ≫= drainLine = l2 ≫= drainLine -> map drainKey l1 = map drainKey l2.
Proof.
  revert l2. induction l1 as [|[i1 d1] l1 IH]; intros [|[i2 d2] l2] H1 H2 E; simpl in *; try done.
  - symmetry in E. by apply app_eq_nil in E as [[_ ?]%app_eq_nil _].
  - by apply app_eq_nil in E as [[_ ?]%app_eq_nil _].
  - inversion_clear H1. inversion_clear H2. unfold drainLine in E. simpl in E. rewrite <- !app_assoc in E. simpl in E.
    apply split_zero in E as [E1 E]; [|done|done]. rewrite <- !app_assoc in E. simpl in E.
    apply split_zero in E as [E2 E]; [|apply boolText_no_zero|apply boolText_no_zero]. rewrite <- !app_assoc in E.
    apply split_newline in E as [E3 E]. apply bytesOf_inj in E1 as ->. apply boolText_inj in E2.
    unfold drainKey at 1 3. simpl. rewrite E2, E3. f_equal. by apply IH.
Qed.

Lemma digits_no_zero fuel n l : 0 <= n -> (0 ∉ l) -> 0 ∉ digits fuel n l.
Proof.
  revert n l. induction fuel as [|fuel IH]; intros n l Hn Hl; cbn [digits]; [done|].
  rewrite Z.rem_mod_nonneg, Z.quot_div_nonneg by lia. pose proof (Z.mod_pos_bound n 10 ltac:(lia)).
  assert (0 ∉ (48 + n mod 10) :: l) by (rewrite not_elem_of_cons; split; [lia|done]).
  case_match; [done|]. apply IH; [by apply Z.div_pos; lia|done].
Qed.
Lemma messageID_no_zero n : 0 <= n -> 0 ∉ bytesOf (messageIDOf n).
Proof.
  intros Hn. rewrite bytesOf_messageID by done. rewrite not_elem_of_app. split.
  - vm_compute. intros H. repeat (apply elem_of_cons in H as [H|H]; [done|]). by apply elem_of_nil in H.
  - unfold padZeros. rewrite not_elem_of_app. split; [|apply digits_no_zero; [done|apply not_elem_of_nil]].
    intros [H _]%elem_of_replicate. done.
Qed.

(** ** Queries *)

Lemma mapRes_summaries s l :
  (forall p, p ∈ l -> is_Some (messages s !! p.1)) ->
  mapRes (fun p => summaryFor (messages s !! p.1) p.2) l = inr (summariesOf s l).
Proof.
  unfold summariesOf. induction l as [|p l IH]; intros H; simpl; [done|].
  destruct (H p) as [m Em]; [apply list_elem_of_here|]. rewrite Em. simpl.
  rewrite IH by (intros q Hq; apply H; by right). done.
Qed.

(** An entry of the inbox, and one that was neither read nor acknowledged. *)
Definition inInbox (unreadOnly : bool) (p : string * DeliveryState) : Prop :=
  unreadOnly = true -> needsRead p /\ needsAck p.

Lemma List_total s r unreadOnly :
  StoreInv s -> r <> 0 ->
  exists l, List s r unreadOnly = inr (summariesOf s l) /\
    (forall id d, (id, d) ∈ l <-> deliveryOf s r id = Some d /\ inInbox unreadOnly (id, d)) /\
    StronglySorted (fun a b => strLe a b = true) (map fst l).
Proof.
  intros Hs Hr. unfold List. destruct (Z.eqb_spec r 0) as [|_]; [done|]. cbv zeta.
  set (bm := default ∅ (deliveries s !! r)).
  match goal with |- context [deliveriesOf bm ?i] => set (ids := i) end.
  assert (Hids : forall id, id ∈ ids <-> exists d, bm !! id = Some d /\ inInbox unreadOnly (id, d)).
  { intros id. unfold ids. rewrite sortStrings_Permutation, list_elem_of_fmap. split.
    - intros ([i d] & -> & [Hf Hin%elem_of_map_to_list]%list_elem_of_filter). exists d. split; [done|].
      unfold inInbox, needsRead, needsAck. intros ->. simpl in *.
      destruct (Z.eqb_spec (ReadAt d) 0), (Z.eqb_spec (AckedAt d) 0); done.
    - intros (d & Hd & Hf). exists (id, d). split; [done|]. apply list_elem_of_filter.
      split; [|by apply elem_of_map_to_list]. unfold inInbox, needsRead, needsAck in Hf. simpl in *.
      destruct unreadOnly; [|done]. destruct (Hf eq_refl) as [-> ->]. done. }
  exists (deliveriesOf bm ids). split_and!.
  - apply mapRes_summaries. intros [id d] [_ Hd]%deliveriesOf_elem.
    assert (deliveryOf s r id = Some d) as Hd' by done. by apply (inv_delivery s Hs) in Hd' as (_ & _ & _ & ?).
  - intros id d. rewrite deliveriesOf_elem, Hids. fold bm. unfold deliveryOf, look. fold bm. naive_solver.
  - rewrite deliveriesOf_fst; [apply sortStrings_sorted|]. intros id Hid%Hids. destruct Hid as (d & -> & _). by eexists.
Qed.

Lemma cloneMessagesByIDs_all s ids :
  (forall id, id ∈ ids -> exists m, messages s !! id = Some m /\ msgID m = id) ->
  map msgID (cloneMessagesByIDs s ids) = ids /\
  forall m, m ∈ cloneMessagesByIDs s ids <-> msgID m ∈ ids /\ messages s !! msgID m = Some m.
Proof.
  unfold cloneMessagesByIDs. intros H. split.
  - induction ids as [|id ids IH]; simpl; [done|]. destruct (H id) as (m & -> & E); [apply list_elem_of_here|].
    simpl. f_equal; [done|]. apply IH. intros i Hi. apply H. by right.
  - intros m. rewrite list_elem_of_omap. split.
    + intros (id & Hid & Hm). destruct (H id Hid) as (m' & Hm' & E). rewrite Hm in Hm'. injection Hm' as <-. by rewrite E.
    + intros [Hin Hm]. by exists (msgID m).
Qed.

(** ** A sample *)

Definition noLimits : Limits :=
  {| SubjectBytes := 0; PartBytes := 0; TotalBodyBytes := 0; MetadataBytes := 0; AckNoteBytes := 0;
     RecipientsPerMsg := 0; StoredMessages := 0; StoredMailboxBytes := 0 |}.
Definition oneMessage : Limits :=
  {| SubjectBytes := 0; PartBytes := 0; TotalBodyBytes := 0; MetadataBytes := 0; AckNoteBytes := 0;
     RecipientsPerMsg := 0; StoredMessages := 1; StoredMailboxBytes := 0 |}.
Definition paneAddress (n : Z) : PaneAddress := {| addrID := n; addrName := "pane"; addrHost := "" |}.
Definition sampleRequest (replyTo : string) : SendRequest :=
  {| reqSender := paneAddress 1; reqRecipients := [paneAddress 2; paneAddress 3];
     reqTopics := ["review/1"%string]; reqGroups := []; reqSubject := "hello"; reqBody := bytesOf "look at this";
     reqParts := []; reqMetadata := [("k"%string, bytesOf "[1, 2]")]; ReplyTo := replyTo; reqThreadID := "";
     reqExpiresAt := 0 |}.
Definition sampleAck : AckRequest := {| Status := "ok"; Note := "done" |}.
(** Two messages, the second a reply, the first read by pane 2 and acknowledged by pane 3. *)
Definition sampleStore : Store :=
  mrun (OpAck (messageIDOf 1) 3 sampleAck) 130 (mrun (OpRead (messageIDOf 1) 2 false) 120
    (mrun (OpSend (sampleRequest (messageIDOf 1))) 110 (mrun (OpSend (sampleRequest "")) 100 (NewStore noLimits)))).

Lemma noLimits_limited : limited noLimits.
Proof. unfold limited. simpl. lia. Qed.
Lemma sampleStore_reach : mreach noLimits sampleStore.
Proof. unfold sampleStore. do 4 apply mreach_step. apply mreach_new. Qed.
Lemma sampleStore_inv : StoreInv sampleStore.
Proof. apply mi_store, (MailInv_reach noLimits); [apply noLimits_limited|apply sampleStore_reach]. Qed.

Example sample_drain :
  (fun r => match drainStatus sampleStore r 0 with
            | inr st => Some (Unread st, Unacked st, PendingIDs st, map sumMessageID (Latest st))
            | inl _ => None
            end) <$> [2; 3; 4] =
  [Some (1, 2, ["msg-000001"; "msg-000002"], ["msg-000002"; "msg-000001"]);
   Some (2, 1, ["msg-000001"; "msg-000002"], ["msg-000002"; "msg-000001"]);
   Some (0, 0, [], [])]%string.
Proof. vm_compute. reflexivity. Qed.

(** ** Reachable stores *)

(** C13. In every store a session reaches from an empty one by sending, reading,
    acknowledging and recording events, the identifiers are the ones handed out,
    every delivery belongs to a stored message and one of its recipients and every
    recipient has one, threads, replies and parents agree, a reply is younger than
    its parent and in its thread, and every message and the store respect the
    limits. *)
Theorem mailbox_reachable opts s : limited opts -> mreach opts s -> MailInv s.
Proof. apply MailInv_reach. Qed.
Lemma mailbox_reachable_witness : mreach noLimits sampleStore /\ MailInv sampleStore.
Proof.
  split; [apply sampleStore_reach|].
  exact (mailbox_reachable noLimits sampleStore noLimits_limited sampleStore_reach).
Defined.

(** ** Send *)

(** C30. A request is stored exactly if it is acceptable, under an identifier that no
    message has; its message holds what was requested, joins the thread of its
    parent, the requested one or its own, every recipient gets one unread and
    unacknowledged delivery, the parent gets one reply more, and every other
    message, delivery and thread is as before. *)
Theorem Send_correct s req now :
  StoreInv s ->
  (acceptable s req <-> exists s' m, Send req now s = (s', inr m)) /\
  forall s' m, Send req now s = (s', inr m) ->
    m = sentMessage s req now /\ messages s !! msgID m = None /\ messages s' !! msgID m = Some m /\
    (forall id x, messages s !! id = Some x ->
       messages s' !! id = Some (if bool_decide (id = ReplyTo req) then setReplies (Replies x ++ [msgID m]) now x else x)) /\
    (forall a, a ∈ reqRecipients req -> deliveryOf s' (addrID a) (msgID m) = Some (newDelivery (msgID m) now a)) /\
    (forall r id, id <> msgID m \/ r ∉ map addrID (reqRecipients req) -> deliveryOf s' r id = deliveryOf s r id) /\
    threads s' = <[ThreadID m := default [] (threads s !! ThreadID m) ++ [msgID m]]> (threads s).
Proof.
  intros Hs. destruct (Send_cases s req now) as [[Hacc E]|[Hacc [e E]]]; rewrite E.
  - split; [split; [by do 2 eexists|done]|]. intros s' m [= <- <-].
    destruct (acceptable_recipients s req Hacc) as [Hn _]. split_and!; try done.
    + by apply sentID_fresh.
    + by apply lookup_sent_new.
    + intros id x Hx. destruct (lookup_sent_old s req now id x Hs Hx) as [Hid _].
      rewrite lookup_sent, decide_False, Hx by done. simpl. f_equal.
      destruct (replyParent s req) as [p|] eqn:Ep; case_bool_decide as Hr; try done.
      * by rewrite decide_True.
      * by rewrite decide_False.
      * subst id. destruct (inv_key s Hs _ _ Hx) as [_ Hne].
        assert (replyParent s req = Some x) as Ep' by by apply replyParent_Some. congruence.
    + intros a Ha. by apply look_foldl_in.
    + intros r id H. by apply look_foldl_other.
  - split; [split; [done|by intros (? & ? & ?)]|done].
Qed.
Lemma Send_correct_witness :
  exists s' m, Send (sampleRequest "") 100 (NewStore noLimits) = (s', inr m) /\
    acceptable (NewStore noLimits) (sampleRequest "") /\ messages s' !! msgID m = Some m.
Proof.
  destruct (Send_correct (NewStore noLimits) (sampleRequest "") 100 (StoreInv_new noLimits)) as [H1 H2].
  destruct (Send (sampleRequest "") 100 (NewStore noLimits)) as [s' [e|m]] eqn:E; [vm_compute in E; discriminate|].
  exists s', m. split; [reflexivity|]. split; [apply H1; exists s', m; reflexivity|].
  apply (H2 s' m). reflexivity.
Defined.

(** ** Errors *)

Definition mfails (op : mop) (now : Z) (s : Store) : Prop :=
  match op with
  | OpSend req => exists e, snd (Send req now s) = inl e
  | OpRead id r peek => exists e, snd (Read id r peek now s) = inl e
  | OpAck id r req => exists e, snd (Ack id r req now s) = inl e
  | OpEventSeq id r seq => exists e, snd (SetLastEventSeq id r seq s) = inl e
  end.
(** What an operation needs. *)
Definition mallowed (op : mop) (s : Store) : Prop :=
  match op with
  | OpSend req => acceptable s req
  | OpRead id r _ | OpEventSeq id r _ => is_Some (deliveryOf s r id)
  | OpAck id r req => noteFits s req /\ is_Some (deliveryOf s r id)
  end.

(** C29. An operation fails exactly if what it needs is missing, and then it leaves
    the store as it was; and no operation or query on a recipient meets a
    delivery whose message is gone. *)
Theorem mailbox_errors s op now r unreadOnly limit :
  StoreInv s -> r <> 0 ->
  (mfails op now s <-> ~ mallowed op s) /\ (mfails op now s -> mrun op now s = s) /\
  (exists l, List s r unreadOnly = inr l) /\ (exists st, drainStatus s r limit = inr st).
Proof.
  intros Hs Hr. assert (Hop : (mfails op now s /\ ~ mallowed op s /\ mrun op now s = s) \/ (~ mfails op now s /\ mallowed op s)).
  { destruct op as [req|id q peek|id q req|id q seq]; simpl.
    - destruct (Send_cases s req now) as [[Hacc ->]|[Hacc [e ->]]]; [right|left]; split_and!; try done.
      + by intros [e ?].
      + by eexists.
    - destruct (Read_cases s id q peek now) as [(m & d & Hd & ->)|(e & He & ->)]; [right|left].
      + apply messageDelivery_ok in Hd as (_ & _ & ->). split; [|by eexists]. destruct (_ && _); by intros [e ?].
      + apply messageDelivery_None in He as ->; [|done]. split_and!; [by eexists|by intros [? ?]|done].
    - destruct (Ack_cases s id q req now) as [(Hn & m & d & Hd & ->)|(Hn & e & ->)]; [right|left].
      + apply messageDelivery_ok in Hd as (_ & _ & ->). split; [|split; [done|by eexists]].
        destruct (ackChanges _ _); by intros [e ?].
      + split_and!; [by eexists| |done]. intros [Hf [d Hd]].
        destruct Hn as [Hn|[e' He]]; [unfold noteFits in Hf; lia|].
        apply messageDelivery_None in He; [|done]. congruence.
    - destruct (SetLastEventSeq_cases s id q seq) as [(m & d & Hd & ->)|(e & He & ->)]; [right|left].
      + apply messageDelivery_ok in Hd as (_ & _ & ->). split; [by intros [e ?]|by eexists].
      + apply messageDelivery_None in He as ->; [|done]. split_and!; [by eexists|by intros [? ?]|done]. }
  split_and!; [tauto|tauto| |].
  - destruct (List_total s r unreadOnly Hs Hr) as (l & -> & _). by eexists.
  - rewrite drainStatus_eq by done. by eexists.
Qed.
Lemma mailbox_errors_witness :
  mrun (OpRead "msg-000009" 2 false) 140 sampleStore = sampleStore /\ exists st, drainStatus sampleStore 2 5 = inr st.
Proof.
  destruct (mailbox_errors sampleStore (OpRead "msg-000009" 2 false) 140 2 true 5 sampleStore_inv ltac:(discriminate))
    as (H1 & H2 & _ & H3).
  split; [|exact H3]. apply H2, H1. intros [d Hd]. vm_compute in Hd. discriminate.
Defined.

(** ** History *)

(** No operation removes a message or a delivery or changes what a message says:
    its replies are only added to, a time of reading stays, and a delivery that
    was acknowledged stays so. *)
Theorem mailbox_history s op now :
  StoreInv s ->
  (forall id m, messages s !! id = Some m ->
     exists m', messages (mrun op now s) !! id = Some m' /\ sameMessage m m' /\ Replies m `prefix_of` Replies m') /\
  (forall r id d, deliveryOf s r id = Some d ->
     exists d', deliveryOf (mrun op now s) r id = Some d' /\ later now d d').
Proof.
  intros Hs. split; [|intros r id d Hd; by apply delivery_later]. intros id m Hm.
  destruct (mrun_cases op now s) as [->|[(req & _ & _ & ->)|(i & r & Ht)]].
  - by exists m.
  - destruct (lookup_sent_old s req now id m Hs Hm) as (_ & m' & Hm' & E). exists m'. split_and!; [done|done|].
    destruct (Replies_sent s req now id m m' Hs Hm Hm') as [->|[-> _]]; [done|by apply prefix_app_r].
  - apply (proj2 (touched_messages _ _ _ _ id Ht)) in Hm as (m' & Hm' & E). exists m'.
    split_and!; [done|by apply sameButTime_same|by rewrite (sameButTime_Replies _ _ E)].
Qed.
Lemma mailbox_history_witness :
  exists m', messages (mrun (OpSend (sampleRequest "msg-000002")) 140 sampleStore) !! "msg-000002"%string = Some m'.
Proof.
  destruct (mailbox_history sampleStore (OpSend (sampleRequest "msg-000002")) 140 sampleStore_inv) as [H _].
  destruct (messages sampleStore !! "msg-000002"%string) as [m|] eqn:E; [|vm_compute in E; discriminate].
  destruct (H _ _ E) as (m' & Hm' & _). exists m'. exact Hm'.
Defined.

Definition mruns (ops : list (mop * Z)) (s : Store) : Store := foldl (fun s op => mrun op.1 op.2 s) s ops.

(** Nothing is ever removed: once the store holds as many messages as its limit
    allows, every later request to send fails, whatever was read, acknowledged or
    expired in between. *)
Theorem full_mailbox_stays_full opts s ops req now :
  limited opts -> mreach opts s -> lenMessages s = StoredMessages (limits s) ->
  snd (Send req now (mruns ops s)) = inl (StoreFull (StoredMessages (limits s))).
Proof.
  intros Hl Hr Hfull. assert (Hinv : MailInv (mruns ops s) /\ lenMessages (mruns ops s) = lenMessages s /\ limits (mruns ops s) = limits s).
  { pose proof (MailInv_reach opts s Hl Hr) as Hs. clear Hl Hr. induction ops as [|[op t] ops IH] using rev_ind; [done|].
    destruct IH as (I1 & I2 & I3). unfold mruns in *. rewrite foldl_app. simpl.
    split_and!; [by apply MailInv_mrun| |by rewrite limits_mrun]. rewrite <- I2.
    destruct (mrun_cases op t (foldl (fun s op => mrun op.1 op.2 s) s ops)) as [->|[(q & _ & Hacc & _)|(i & r & Ht)]]; [done| |].
    - destruct Hacc as [Hc _]. pose proof (mi_limited _ I1) as Hlim. rewrite I2, I3, Hfull in *. lia.
    - by apply touched_parts in Ht as (_ & _ & _ & ? & _). }
  destruct Hinv as (I1 & I2 & I3). unfold Send. rewrite getStore_bind, liftRes_bind. unfold validateCanStoreMessage.
  pose proof (mi_limited _ I1) as Hlim. rewrite I3 in Hlim. rewrite I2, I3, Hfull.
  destruct (Z.ltb_spec 0 (StoredMessages (limits s))), (Z.leb_spec (StoredMessages (limits s)) (StoredMessages (limits s))); try lia.
  done.
Qed.
Lemma full_mailbox_stays_full_witness :
  snd (Send (sampleRequest "") 200
    (mruns [(OpAck "msg-000001" 2 sampleAck, 150)] (mrun (OpSend (sampleRequest "")) 100 (NewStore oneMessage)))) =
  inl (StoreFull 1).
Proof.
  apply (full_mailbox_stays_full oneMessage (mrun (OpSend (sampleRequest "")) 100 (NewStore oneMessage))).
  - split; [discriminate|reflexivity].
  - apply mreach_step, mreach_new.
  - vm_compute. reflexivity.
Defined.

(** ** Snapshots *)

(** C15. Restoring the snapshot of a store gives back its messages, its deliveries and
    its next sequence number, and every thread with its messages in the order of
    their identifiers, under the limits of the new process. *)
Theorem snapshot_roundtrip s opts :
  StoreInv s ->
  exists s', RestoreSnapshot (storeSnapshot s) opts = inr s' /\ StoreInv s' /\
    nextSeq s' = nextSeq s /\ messages s' = messages s /\ deliveries s' = deliveries s /\
    (forall t, threads s' !! t = sortStrings <$> threads s !! t) /\ limits s' = normalizeLimits opts.
Proof.
  intros Hs. exists (restored (storeSnapshot s) opts). pose proof (wellFormed_snapshot s Hs) as Hw.
  pose proof (restored_snapshot s opts Hs) as H. split; [by apply RestoreSnapshot_ok|]. split; [|done].
  pose proof (inv_seq s Hs). apply StoreInv_restored; [done| |rewrite storeSnapshot_eq by done; simpl; lia].
  apply Forall_forall. intros m Hm%elem_of_snapMessages Hp; [|done]. pose proof (inv_fresh s Hs _ _ _ Hm Hp). lia.
Qed.
Lemma snapshot_roundtrip_witness :
  exists s', RestoreSnapshot (storeSnapshot sampleStore) noLimits = inr s' /\ messages s' = messages sampleStore.
Proof.
  destruct (snapshot_roundtrip sampleStore noLimits sampleStore_inv) as (s' & H1 & _ & _ & H2 & _).
  exists s'. split; [exact H1|exact H2].
Defined.

(** C36. A snapshot is restored exactly if its messages and deliveries are identified
    and distinct and every delivery is of a message of the snapshot; the store is
    then well formed, and every operation keeps it so while sequence numbers last. *)
Theorem RestoreSnapshot_correct snap opts :
  ((exists s, RestoreSnapshot snap opts = inr s) <-> wellFormed snap) /\
  forall s, RestoreSnapshot snap opts = inr s -> seqRoom snap -> 0 <= NextSeq snap < 2 ^ 64 ->
    StoreInv s /\ forall op now, nextSeq s + 1 < 2 ^ 64 -> StoreInv (mrun op now s).
Proof.
  split; [split; [by intros (s & [? _]%RestoreSnapshot_ok)|intros Hw; eexists; by apply RestoreSnapshot_ok]|].
  intros s [Hw ->]%RestoreSnapshot_ok Hr Hn. pose proof (StoreInv_restored snap opts Hw Hr Hn) as Hs.
  split; [done|]. intros op now Hseq. by apply StoreInv_mrun.
Qed.
Lemma RestoreSnapshot_correct_witness :
  exists s, RestoreSnapshot {| NextSeq := 0; snapMessages := []; snapDeliveries := [] |} noLimits = inr s /\ StoreInv s.
Proof.
  destruct (RestoreSnapshot_correct {| NextSeq := 0; snapMessages := []; snapDeliveries := [] |} noLimits) as [_ H].
  eexists. split; [reflexivity|]. apply (H _ eq_refl); [constructor|split; [discriminate|reflexivity]].
Defined.

(** ** Drain status *)

(** C31. The status of a recipient counts the deliveries that were not read, not
    acknowledged, and either; it lists the pending identifiers in order, and its
    latest summaries, found by binary search, are the first of all pending
    summaries ordered newest first. *)
Theorem DrainStatus_correct s r limit :
  StoreInv s -> r <> 0 ->
  exists st ordered, drainStatus s r limit = inr st /\
    let p := filter pending (recipientEntries s r) in
    Unread st = lenZ (filter needsRead (recipientEntries s r)) /\
    Unacked st = lenZ (filter needsAck (recipientEntries s r)) /\ Pending st = lenZ p /\
    PendingIDs st = map fst p /\
    (forall id, id ∈ PendingIDs st <-> exists d, deliveryOf s r id = Some d /\ (ReadAt d = 0 \/ AckedAt d = 0)) /\
    PendingFingerprint st = (if decide (p = []) then [] else hex (Sha256.sum256 (p ≫= drainLine))) /\
    ordered ≡ₚ summariesOf s p /\ StronglySorted (fun x y => drainSummaryNewer x y = true) ordered /\
    Latest st = take (Z.to_nat (if limit <=? 0 then 5 else limit)) ordered.
Proof.
  intros Hs Hr. exists (drainSpec s r limit), (ranked (summariesOf s (filter pending (recipientEntries s r)))).
  split; [by apply drainStatus_eq|]. cbv zeta. pose proof (summaries_NoDup s r Hs) as Hn. split_and!; try done.
  - intros id. simpl. rewrite list_elem_of_fmap. split.
    + intros ([i d] & -> & [Hp Hd%recipientEntries_elem]%list_elem_of_filter). by exists d.
    + intros (d & Hd & Hp). exists (id, d). split; [done|]. apply list_elem_of_filter. split; [done|].
      by apply recipientEntries_elem.
  - simpl. by destruct (filter pending (recipientEntries s r)).
  - apply ranked_Permutation.
  - by apply ranked_newestFirst.
  - simpl. apply latest_ranked; [done|]. unfold normalizedDrainLatestLimit, defaultDrainLatestLimit.
    destruct (Z.leb_spec limit 0); lia.
Qed.
Lemma DrainStatus_correct_witness :
  exists st, drainStatus sampleStore 2 0 = inr st /\
    Pending st = lenZ (filter pending (recipientEntries sampleStore 2)).
Proof.
  destruct (DrainStatus_correct sampleStore 2 0 sampleStore_inv ltac:(discriminate)) as (st & o & H & _ & _ & H' & _).
  exists st. split; [exact H|exact H'].
Defined.

(** Reading and acknowledging every pending message of a recipient, in the order
    the status lists them, leaves it nothing pending. *)
Theorem mailbox_drains s r limit limit' req now st :
  StoreInv s -> r <> 0 -> noteFits s req -> now <> 0 -> drainStatus s r limit = inr st ->
  drainStatus (drainRun r req now (PendingIDs st) s) r limit' = inr emptyDrain.
Proof.
  intros Hs Hr Hn Hnow. rewrite drainStatus_eq by done. intros [= <-].
  destruct (drainRun_spec r req now (PendingIDs (drainSpec s r limit)) s Hs Hn Hnow) as (Hs' & _).
  rewrite drainStatus_eq by done. f_equal. by apply drainRun_drained.
Qed.
Lemma mailbox_drains_witness :
  drainStatus (drainRun 2 sampleAck 140 (PendingIDs (drainSpec sampleStore 2 0)) sampleStore) 2 0 = inr emptyDrain.
Proof.
  apply (mailbox_drains sampleStore 2 0 0 sampleAck 140 (drainSpec sampleStore 2 0) sampleStore_inv).
  - discriminate.
  - vm_compute. discriminate.
  - discriminate.
  - apply (drainStatus_eq sampleStore 2 0 sampleStore_inv). discriminate.
Defined.

(** The text the fingerprint is the digest of tells apart any two pending sets of
    reachable stores: equal texts mean the same messages with the same read and
    acknowledgement needs. *)
Theorem fingerprint_text_injective opts s s' r r' :
  limited opts -> mreach opts s -> mreach opts s' ->
  filter pending (recipientEntries s r) ≫= drainLine = filter pending (recipientEntries s' r') ≫= drainLine ->
  map drainKey (filter pending (recipientEntries s r)) = map drainKey (filter pending (recipientEntries s' r')).
Proof.
  intros Hl H1 H2. assert (Hz : forall t q, mreach opts t -> Forall (fun p => 0 ∉ bytesOf p.1) (filter pending (recipientEntries t q))).
  { intros t q Ht. pose proof (MailInv_reach opts t Hl Ht) as Hinv. apply Forall_forall.
    intros [id d] [_ Hd%recipientEntries_elem]%list_elem_of_filter. simpl.
    destruct (mi_recipient t Hinv q id d Hd) as (m & Hm & _). destruct (mi_id t Hinv id m Hm) as (n & Hn & ->).
    apply messageID_no_zero. lia. }
  by apply drainLines_inj; apply Hz.
Qed.
Lemma fingerprint_text_injective_witness :
  map drainKey (filter pending (recipientEntries sampleStore 3)) = map drainKey (filter pending (recipientEntries sampleStore 3)).
Proof.
  exact (fingerprint_text_injective noLimits sampleStore sampleStore 3 3 noLimits_limited sampleStore_reach sampleStore_reach eq_refl).
Defined.

(** ** Threads *)

(** A reference to a message gives the messages of its thread, all of them and
    no others, in the order of their identifiers. *)
Theorem Thread_correct s ref m :
  StoreInv s -> messages s !! stringOf (TrimSpace (bytesOf ref)) = Some m -> ThreadID m <> ""%string ->
  exists ms, Thread s ref = inr ms /\
    (forall x, x ∈ ms <-> messages s !! msgID x = Some x /\ ThreadID x = ThreadID m) /\
    StronglySorted (fun a b => strLe a b = true) (map msgID ms).
Proof.
  intros Hs Hm HT. unfold Thread. cbv zeta. destruct (inv_key s Hs _ _ Hm) as [_ Hne].
  destruct (String.eqb_spec (stringOf (TrimSpace (bytesOf ref))) "") as [|_]; [done|]. rewrite Hm. unfold messagesByThreadID.
  pose proof (inv_threaded s Hs _ _ Hm HT) as Hin.
  destruct (threads s !! ThreadID m) as [ids|] eqn:Et; simpl in *; [|by apply elem_of_nil in Hin].
  destruct (inv_thread s Hs _ _ Et) as (_ & Hnil & _ & Hth).
  destruct ids as [|i0 ids0]; [done|]. set (ids := i0 :: ids0) in *.
  destruct (cloneMessagesByIDs_all s (sortStrings ids)) as [Hids Hel].
  { intros id. rewrite sortStrings_Permutation. intros (x & Hx & _)%Hth. exists x. split; [done|]. by destruct (inv_key s Hs id x Hx). }
  exists (cloneMessagesByIDs s (sortStrings ids)). split; [done|]. split; [|rewrite Hids; apply sortStrings_sorted].
  intros x. rewrite Hel, sortStrings_Permutation. split.
  - intros [(y & Hy & Ey)%Hth Hx]. rewrite Hx in Hy. injection Hy as <-. done.
  - intros [Hx Ex]. split; [|done]. pose proof (inv_threaded s Hs _ _ Hx) as Hin'. rewrite Ex, Et in Hin'. by apply Hin'.
Qed.
Lemma Thread_correct_witness : exists ms, Thread sampleStore " msg-000002 " = inr ms /\ ms <> [].
Proof.
  destruct (messages sampleStore !! stringOf (TrimSpace (bytesOf " msg-000002 "))) as [m|] eqn:E;
    [|vm_compute in E; discriminate].
  pose proof (Thread_correct sampleStore " msg-000002 " m sampleStore_inv E) as H.
  assert (ThreadID m = "msg-000001"%string) as HT.
  { pose proof (f_equal (fun o => ThreadID <$> o) E) as E'. vm_compute in E'. injection E' as E'. symmetry. exact E'. }
  destruct H as (ms & H1 & H2 & _); [rewrite HT; discriminate|]. exists ms. split; [exact H1|].
  intros ->. assert (In : m ∈ @nil Message).
  { apply H2. split; [|reflexivity]. destruct (inv_key sampleStore sampleStore_inv _ _ E) as [E2 _]. rewrite E2. exact E. }
  apply elem_of_nil in In. exact In.
Defined.

(** A body may hold the control character DEL, which a subject may not. *)
Theorem body_accepts_delete :
  validateSubject (stringOf [127]) 512 = inl (SubjectControl 127) /\
  (exists out, normalizeParts [127] [] 65536 262144 = inr (out, 1)).
Proof. split; [vm_compute; reflexivity|]. eexists. vm_compute. reflexivity. Qed.
