(* ===== verification/Mouse.v ===== *)
(** * Mouse sequences in terminal input (internal/mouse/mouse.go)

    The parser takes the input byte by byte and picks out SGR mouse sequences;
    everything else it hands back.  What it has of an unfinished sequence is a
    Go slice.  [Feed] is written against the operations on that buffer
    ([Buffer]); a plain list is one implementation, a slice of a shared array
    the other, because InputLooksLikeMouse works on a copy of the parser whose
    slice has the same array. *)

From S2P Require Import Prelude GoText.

(** ** Events *)

Inductive Button :=
| ButtonLeft | ButtonMiddle | ButtonRight | ButtonNone | ScrollUp | ScrollDown | ScrollLeft | ScrollRight.
Inductive Action := Press | Release | Motion.

Definition buttonString (b : Button) : string :=
  match b with
  | ButtonLeft => "left" | ButtonMiddle => "middle" | ButtonRight => "right" | ButtonNone => "none"
  | ScrollUp => "scroll-up" | ScrollDown => "scroll-down"
  | ScrollLeft => "scroll-left" | ScrollRight => "scroll-right"
  end.

Record Event := mkEvent {
  eButton : Button; eAction : Action; eX : Z; eY : Z; LastX : Z; LastY : Z;
  Shift : bool; Alt : bool; Ctrl : bool }.
Definition withLast (x y : Z) (e : Event) : Event :=
  mkEvent (eButton e) (eAction e) (eX e) (eY e) x y (Shift e) (Alt e) (Ctrl e).

(** ** The buffer *)

(** [append(b, x)], [b[:0]] and the bytes of [b]. *)
Class Buffer (B : Type) := {
  bnil : B;
  bpush : Z -> B -> B;
  bclear : B -> B;
  bbytes : B -> bytes }.

(** A list of its own. *)
#[export] Instance bytes_buffer : Buffer bytes :=
  { bnil := []; bpush := fun x b => b ++ [x]; bclear := fun _ => []; bbytes := fun b => b }.

(** A Go slice: the arrays of the memory, which array, and the length; the
    array's length is the capacity.  An append within the capacity writes the
    array, any other moves to a new array; the runtime gives a slice that grows
    byte by byte 8 bytes and then twice what it had. *)
Record slice := mkSlice { mem : list bytes; arr : nat; slen : nat }.
Definition array (s : slice) : bytes := default [] (mem s !! arr s).
Definition grow (cap : nat) : nat := if (cap =? 0)%nat then 8 else 2 * cap.
Definition sliceBytes (s : slice) : bytes := take (slen s) (array s).
Definition slicePush (x : Z) (s : slice) : slice :=
  if (slen s <? length (array s))%nat
  then mkSlice (<[arr s := <[slen s := x]> (array s)]> (mem s)) (arr s) (S (slen s))
  else
    let new := sliceBytes s ++ x :: replicate (grow (length (array s)) - S (slen s)) 0 in
    mkSlice (mem s ++ [new]) (length (mem s)) (S (slen s)).
#[export] Instance slice_buffer : Buffer slice :=
  { bnil := mkSlice [] 0 0; bpush := slicePush;
    bclear := fun s => mkSlice (mem s) (arr s) 0; bbytes := sliceBytes }.

(** ** Parsing the parameters *)

Fixpoint splitSemicolons (b : bytes) : list bytes :=
  match b with
  | [] => [[]]
  | c :: b =>
      if c =? 59 then [] :: splitSemicolons b
      else match splitSemicolons b with p :: ps => (c :: p) :: ps | [] => [[c]] end
  end.

Definition hasBit (cb bit : Z) : bool := negb (Z.land cb bit =? 0).
Definition buttonOf (btnBits : Z) : Button :=
  if btnBits =? 0 then ButtonLeft else if btnBits =? 1 then ButtonMiddle
  else if btnBits =? 2 then ButtonRight else if btnBits =? 3 then ButtonNone
  else if btnBits =? 64 then ScrollUp else if btnBits =? 65 then ScrollDown
  else if btnBits =? 66 then ScrollLeft else if btnBits =? 67 then ScrollRight else ButtonNone.

(** Coordinates are parsed from digits, so [cx - 1] and [cy - 1] are at least -1. *)
Definition parseParams (paramBytes : bytes) (isRelease : bool) : option Event :=
  match splitSemicolons paramBytes with
  | [p0; p1; p2] =>
      cb ← Atoi p0; cx ← Atoi p1; cy ← Atoi p2;
      let action := if isRelease then Release else if hasBit cb 32 then Motion else Press in
      let btnBits := Z.land cb (Z.lnot (Z.lor 4 (Z.lor 8 (Z.lor 16 32)))) in
      Some (mkEvent (buttonOf btnBits) action (cx - 1) (cy - 1) 0 0
              (hasBit cb 4) (hasBit cb 8) (hasBit cb 16))
  | _ => None
  end.

Definition isCSIParamByte (b : Z) : bool := (0x30 <=? b) && (b <=? 0x3f).
Definition isCSIIntermediateByte (b : Z) : bool := (0x20 <=? b) && (b <=? 0x2f).
Definition isCSIFinalByte (b : Z) : bool := (0x40 <=? b) && (b <=? 0x7e).

(** ** The parser *)

Inductive parseState := stateNone | stateEsc | stateBracket | stateLt | stateCSI | stateParams.

Record Parser (B : Type) := mkParser {
  buf : B; state : parseState; lastX : Z; lastY : Z; hasLast : bool }.
Arguments mkParser {B} _ _ _ _ _.
Arguments buf {B} _.
Arguments state {B} _.
Arguments lastX {B} _.
Arguments lastY {B} _.
Arguments hasLast {B} _.

Section Parser.
Context {B : Type} `{Buffer B}.

Definition newParser : Parser B := mkParser bnil stateNone 0 0 false.
Definition setState (st : parseState) (p : Parser B) : Parser B :=
  mkParser (buf p) st (lastX p) (lastY p) (hasLast p).
Definition setBuf (b : B) (p : Parser B) : Parser B :=
  mkParser b (state p) (lastX p) (lastY p) (hasLast p).
Definition push (b : Z) (p : Parser B) : Parser B := setBuf (bpush b (buf p)) p.

(** The result of [Feed]: an event, or bytes that are not a mouse sequence, or
    neither. *)
Definition Fed : Type := Parser B * option Event * bytes.
Definition consumed (p : Parser B) : Fed := (p, None, []).

(** flush returns a copy, so the bytes are taken before the buffer is reset; an
    extra byte of 0 stands for none. *)
Definition flush (extra : Z) (p : Parser B) : Parser B * bytes :=
  (setBuf (bclear (buf p)) (setState stateNone p),
   bbytes (buf p) ++ (if negb (extra =? 0) then [extra] else [])).
Definition flushed (extra : Z) (p : Parser B) : Fed :=
  let '(p, out) := flush extra p in (p, None, out).

Definition feedParams (b : Z) (p : Parser B) : Fed :=
  if (b =? 77) || (b =? 109) then
    let ev := parseParams (drop 3 (bbytes (buf p))) (b =? 109) in
    let p := setBuf (bclear (buf p)) (setState stateNone p) in
    match ev with
    | Some ev =>
        let ev := if hasLast p then withLast (lastX p) (lastY p) ev else withLast (eX ev) (eY ev) ev in
        (mkParser (buf p) (state p) (eX ev) (eY ev) true, Some ev, [])
    | None => consumed p
    end
  else if isDigit b || (b =? 59) then
    let p := push b p in
    if 32 <? lenZ (bbytes (buf p)) then flushed 0 p else consumed p
  else flushed b p.

Definition Feed (b : Z) (p : Parser B) : Fed :=
  match state p with
  | stateNone =>
      if b =? 0x1b then consumed (setBuf (bpush b (bclear (buf p))) (setState stateEsc p))
      else (p, None, [b])
  | stateEsc =>
      if b =? 91 then consumed (push b (setState stateBracket p)) else flushed b p
  | stateBracket =>
      if b =? 60 then consumed (push b (setState stateLt p))
      else if isCSIFinalByte b then flushed 0 (push b p)
      else if isCSIIntermediateByte b || isCSIParamByte b then consumed (push b (setState stateCSI p))
      else flushed b p
  | stateCSI =>
      let p := push b p in
      if 64 <? lenZ (bbytes (buf p)) then flushed 0 p
      else if isCSIFinalByte b then flushed 0 p
      else if isCSIIntermediateByte b || isCSIParamByte b then consumed p
      else flushed 0 p
  | stateLt => consumed (push b (setState stateParams p))
  | stateParams => feedParams b p
  end.

Definition FlushPending (p : Parser B) : Parser B * bytes :=
  match state p with
  | stateEsc => match bbytes (buf p) with [] => (p, []) | _ => flush 0 p end
  | _ => (p, [])
  end.

(** The bytes of a read, one after the other. *)
Fixpoint feedAll (raw : bytes) (p : Parser B) : Parser B * list (option Event * bytes) :=
  match raw with
  | [] => (p, [])
  | b :: raw =>
      let '(p, ev, out) := Feed b p in
      let '(p, outs) := feedAll raw p in (p, (ev, out) :: outs)
  end.

(** The loop of InputLooksLikeMouse on the copy: whether it saw a mouse event,
    None where it returned false, and the copy. *)
Fixpoint looksLoop (sawMouse : bool) (raw : bytes) (p : Parser B) : Parser B * option bool :=
  match raw with
  | [] => (p, Some sawMouse)
  | b :: raw =>
      let '(p, ev, out) := Feed b p in
      match ev, out with
      | Some _, _ => looksLoop true raw p
      | None, _ :: _ => (p, None)
      | None, [] => looksLoop sawMouse raw p
      end
  end.
Definition looksLikeMouse (raw : bytes) (p : Parser B) : Parser B * bool :=
  let '(p, r) := looksLoop false raw p in
  (p, match r with
      | None => false
      | Some true => true
      | Some false => match state p with stateLt | stateParams => true | _ => false end
      end).
End Parser.

(** InputLooksLikeMouse: the receiver is a copy of the parser, whose slice shares
    the array; afterwards the parser has its own slice in the changed memory. *)
Definition InputLooksLikeMouse (raw : bytes) (p : Parser slice) : Parser slice * bool :=
  let '(copy, r) := looksLikeMouse raw p in
  (setBuf (mkSlice (mem (buf copy)) (arr (buf p)) (slen (buf p))) p, r).

(** ** Reads that are queued (internal/client/attach.go)

    dispatchQueuedMouseInputChunks: what the handlers are given, in order.
    [coalesce] is the state of the drag after the dispatches so far. *)
Inductive dispatched := DMouse (e : Event) | DBytes (b : bytes).

Section Dispatch.
Context {B : Type} `{Buffer B} (coalesce : list dispatched -> bool).

Record queue := mkQueue { pendingMotion : option Event; pendingBytes : bytes; done : list dispatched }.

Definition flushPendingMotion (q : queue) : queue :=
  match pendingMotion q with
  | Some ev => mkQueue None (pendingBytes q) (done q ++ [DMouse ev])
  | None => q
  end.
Definition flushBufferedBytes (q : queue) : queue :=
  match pendingBytes q with
  | [] => q
  | b => mkQueue (pendingMotion q) [] (done q ++ [DBytes b])
  end.
Definition dispatchMouse (ev : Event) (q : queue) : queue :=
  if negb (match eAction ev with Motion => true | _ => false end) || negb (coalesce (done q)) then
    let q := flushPendingMotion q in mkQueue (pendingMotion q) (pendingBytes q) (done q ++ [DMouse ev])
  else match pendingMotion q with
       | None => mkQueue (Some ev) (pendingBytes q) (done q)
       | Some prev => mkQueue (Some (withLast (LastX prev) (LastY prev) ev)) (pendingBytes q) (done q)
       end.
Definition queueBytes (out : bytes) (q : queue) : queue :=
  match out with
  | [] => q
  | _ => let q := flushPendingMotion q in mkQueue (pendingMotion q) (pendingBytes q ++ out) (done q)
  end.
Definition dispatchFed (fed : option Event * bytes) (q : queue) : queue :=
  match fed with
  | (Some ev, _) => dispatchMouse ev (flushBufferedBytes q)
  | (None, out) => queueBytes out q
  end.

(** No handler asks to stop. *)
Fixpoint dispatchChunks (chunks : list bytes) (p : Parser B) (q : queue) : Parser B * queue :=
  match chunks with
  | [] => (p, flushPendingMotion (flushBufferedBytes q))
  | chunk :: chunks =>
      let '(p, outs) := feedAll chunk p in
      let q := foldl (fun q fed => dispatchFed fed q) q outs in
      let '(p, out) := FlushPending p in
      dispatchChunks chunks p (queueBytes out q)
  end.
Definition dispatchQueuedMouseInputChunks (chunks : list bytes) (p : Parser B) : Parser B * list dispatched :=
  let '(p, q) := dispatchChunks chunks p (mkQueue None [] []) in (p, done q).
End Dispatch.
