(* ===== verification/MouseProps.v ===== *)
(** * Mouse sequences: the properties

    The laws of a buffer and the steps of the parser; then: the parser does not depend on how its buffer is stored, what it is not a
    mouse sequence comes out as it went in, an encoded event is parsed back, and
    coalesced motion loses neither input nor distance; a look ahead on a copy of
    the parser can damage the sequence the parser is reading. *)

From S2P Require Import Prelude GoText Mouse.

(** ** Mouse sequences: the buffer laws and the steps of the parser *)

(** ** What the parser needs of its buffer *)

Class BufferLaws (B : Type) `{Buffer B} := {
  bvalid : B -> Prop;
  bnil_ok : bvalid bnil /\ bbytes bnil = [];
  bpush_ok x b : bvalid b -> bvalid (bpush x b) /\ bbytes (bpush x b) = bbytes b ++ [x];
  bclear_ok b : bvalid b -> bvalid (bclear b) /\ bbytes (bclear b) = [] }.

#[export] Program Instance bytes_laws : BufferLaws bytes := {| bvalid := fun _ => True |}.
Solve All Obligations with done.

Lemma array_Some s a : mem s !! arr s = Some a -> array s = a.
Proof. intros H. unfold array. by rewrite H. Qed.
Lemma slicePush_ok x s :
  (slen s <= length (array s))%nat ->
  (slen (slicePush x s) <= length (array (slicePush x s)))%nat /\ sliceBytes (slicePush x s) = sliceBytes s ++ [x].
Proof.
  intros Hv. unfold slicePush. destruct (Nat.ltb_spec (slen s) (length (array s))) as [Hlt|Hge].
  - assert (exists a, mem s !! arr s = Some a) as [a Ha].
    { unfold array in Hlt. destruct (mem s !! arr s); [by eexists|simpl in Hlt; lia]. }
    pose proof (array_Some s a Ha) as Ea. rewrite Ea in *.
    set (s' := mkSlice _ _ _). assert (array s' = <[slen s := x]> a) as Ea'.
    { apply array_Some. simpl. apply list_lookup_insert_eq. by eapply lookup_lt_Some. }
    unfold sliceBytes. rewrite Ea', Ea. subst s'. cbn [slen]. rewrite length_insert. split; [lia|].
    rewrite (take_S_r _ _ x) by by apply list_lookup_insert_eq. by rewrite take_insert_ge by lia.
  - set (s' := mkSlice _ _ _).
    assert (array s' = sliceBytes s ++ x :: replicate (grow (length (array s)) - S (slen s)) 0) as Ea'.
    { apply array_Some. simpl. rewrite lookup_app_r by lia. by rewrite Nat.sub_diag. }
    assert (length (sliceBytes s) = slen s) as El by (unfold sliceBytes; rewrite length_take; lia).
    unfold sliceBytes at 1. rewrite Ea'. subst s'. cbn [slen]. split.
    + rewrite length_app. simpl. lia.
    + rewrite take_app_ge by lia. rewrite El. by replace (S (slen s) - slen s)%nat with 1%nat by lia.
Qed.
#[export] Program Instance slice_laws : BufferLaws slice :=
  {| bvalid := fun s => (slen s <= length (array s))%nat |}.
Next Obligation. split; [simpl; lia|done]. Qed.
Next Obligation. intros x b Hb. by apply slicePush_ok. Qed.
Next Obligation. intros b _. split; [simpl; lia|done]. Qed.

(** ** The parser does the same with any buffer *)

Section Refinement.
Context {B : Type} `{BufferLaws B}.

(** The parser with its bytes in a list. *)
Definition view (p : Parser B) : Parser bytes :=
  mkParser (bbytes (buf p)) (state p) (lastX p) (lastY p) (hasLast p).
Definition pvalid (p : Parser B) : Prop := bvalid (buf p).

Definition simulates (r : Fed (B := B)) (r' : Fed (B := bytes)) : Prop :=
  pvalid r.1.1 /\ r' = (view r.1.1, r.1.2, r.2).

Lemma push_view b st p : pvalid p ->
  pvalid (push b (setState st p)) /\ push b (setState st (view p)) = view (push b (setState st p)).
Proof. intros Hp. destruct (bpush_ok b (buf p) Hp) as [H1 H2]. split; [done|]. unfold view, push, setBuf. simpl. by rewrite H2. Qed.
Lemma consumed_view b st p : pvalid p ->
  simulates (consumed (push b (setState st p))) (consumed (push b (setState st (view p)))).
Proof. intros Hp. destruct (push_view b st p Hp) as [H1 H2]. split; [done|]. unfold consumed. by rewrite H2. Qed.
Lemma flushed_view b p : pvalid p -> simulates (flushed b p) (flushed b (view p)).
Proof.
  intros Hp. destruct (bclear_ok (buf p) Hp) as [H1 H2]. unfold simulates, flushed, flush, view, setBuf, setState. simpl.
  split; [done|]. by rewrite H2.
Qed.
Lemma push_same_view b p : pvalid p -> push b (view p) = view (push b p).
Proof. intros Hp. destruct (bpush_ok b (buf p) Hp) as [_ P2]. unfold view, push, setBuf. simpl. by rewrite P2. Qed.

Lemma feedParams_view b p : pvalid p -> simulates (feedParams b p) (feedParams b (view p)).
Proof.
  intros Hp. destruct (bclear_ok (buf p) Hp) as [C1 C2]. destruct (bpush_ok b (buf p) Hp) as [P1 P2]. unfold feedParams.
  destruct ((b =? 77) || (b =? 109)).
  - simpl. destruct (parseParams _ _) as [ev|]; unfold simulates, view, pvalid, consumed; simpl; rewrite C2; [|done].
    by destruct (hasLast p).
  - destruct (isDigit b || (b =? 59)); [|by apply flushed_view].
    assert (pvalid (push b p)) as Hpp by done.
    cbv zeta. rewrite push_same_view by done. cbn [buf view]. pose proof (flushed_view 0 _ Hpp) as Hs.
    change (bbytes (bbytes (buf (push b p)))) with (bbytes (buf (push b p))).
    destruct (32 <? _); [exact Hs|by split].
Qed.

Lemma Feed_refines b p : pvalid p -> simulates (Feed b p) (Feed b (view p)).
Proof.
  intros Hp. destruct (bclear_ok (buf p) Hp) as [C1 C2]. unfold Feed. cbn [state view].
  destruct (state p) eqn:Es.
  - destruct (b =? 27); [|by split]. destruct (bpush_ok b (bclear (buf p)) C1) as [P1 P2].
    unfold simulates, consumed, view, pvalid, setBuf, setState. simpl. rewrite P2, C2. done.
  - destruct (b =? 91); [by apply consumed_view|by apply flushed_view].
  - destruct (b =? 60); [by apply consumed_view|]. destruct (bpush_ok b (buf p) Hp) as [P1 P2].
    destruct (isCSIFinalByte b).
    + rewrite push_same_view by done. by apply flushed_view.
    + destruct (_ || _); [by apply consumed_view|by apply flushed_view].
  - by apply consumed_view.
  - destruct (bpush_ok b (buf p) Hp) as [P1 P2]. assert (pvalid (push b p)) as Hpp by done.
    cbv zeta. rewrite push_same_view by done. cbn [buf view]. pose proof (flushed_view 0 _ Hpp) as Hs.
    change (bbytes (bbytes (buf (push b p)))) with (bbytes (buf (push b p))).
    destruct (64 <? _); [exact Hs|]. destruct (isCSIFinalByte b); [exact Hs|].
    destruct (isCSIIntermediateByte b || isCSIParamByte b); [by split|exact Hs].
  - by apply feedParams_view.
Qed.

Lemma feedAll_refines raw p : pvalid p ->
  pvalid (feedAll raw p).1 /\ feedAll raw (view p) = (view (feedAll raw p).1, (feedAll raw p).2).
Proof.
  revert p. induction raw as [|b raw IH]; intros p Hp; [done|]. cbn [feedAll].
  destruct (Feed_refines b p Hp) as [H1 H2]. destruct (Feed b p) as [[p' ev] out]. cbn [fst snd] in H1, H2.
  rewrite H2. destruct (IH p' H1) as [I1 I2]. destruct (feedAll raw p') as [p'' outs]. cbn [fst snd] in I1, I2.
  by rewrite I2.
Qed.
End Refinement.

(** ** The steps of the parser *)

(** What has been read in each state. *)
Definition shape (p : Parser bytes) : Prop :=
  match state p with
  | stateNone => buf p = []
  | stateEsc => buf p = [27]
  | stateBracket => buf p = [27; 91]
  | stateLt => buf p = [27; 91; 60]
  | stateCSI => exists r, buf p = 27 :: 91 :: r /\ (length (buf p) <= 64)%nat
  | stateParams => exists r, buf p = 27 :: 91 :: 60 :: r /\ r <> [] /\ (length (buf p) <= 32)%nat
  end.

(** The bytes of a mouse sequence, and the event they are for a parser. *)
Definition sgrSequence (l : bytes) : Prop :=
  exists r c, l = 27 :: 91 :: 60 :: r ++ [c] /\ (c = 77 \/ c = 109) /\ (length l <= 33)%nat.
Definition eventOf (p : Parser bytes) (l : bytes) : option Event :=
  (fun ev => if hasLast p then withLast (lastX p) (lastY p) ev else withLast (eX ev) (eY ev) ev) <$>
  parseParams (drop 3 (removelast l)) (bool_decide (last l = Some 109)).

(** A byte is kept, or everything so far is handed back, or it ends a mouse
    sequence. *)
Inductive stepped (b : Z) (p : Parser bytes) : Fed (B := bytes) -> Prop :=
| step_keep p' : buf p' = buf p ++ [b] -> (lastX p', lastY p', hasLast p') = (lastX p, lastY p, hasLast p) ->
    stepped b p (p', None, [])
| step_flush p' out : buf p' = [] -> (lastX p', lastY p', hasLast p') = (lastX p, lastY p, hasLast p) ->
    out = buf p ++ [b] \/ (b = 0 /\ out = buf p /\ out <> []) -> stepped b p (p', None, out)
| step_drop p' : buf p' = [] -> (lastX p', lastY p', hasLast p') = (lastX p, lastY p, hasLast p) ->
    sgrSequence (buf p ++ [b]) -> eventOf p (buf p ++ [b]) = None -> stepped b p (p', None, [])
| step_mouse p' ev : buf p' = [] -> (lastX p', lastY p', hasLast p') = (eX ev, eY ev, true) ->
    sgrSequence (buf p ++ [b]) -> eventOf p (buf p ++ [b]) = Some ev -> stepped b p (p', Some ev, []).

Lemma flushed_stepped b p :
  (b <> 0 \/ buf p <> []) -> stepped b p (flushed b p) /\ shape (flushed b p).1.1.
Proof.
  intros Hb. unfold flushed, flush. split; [|done]. apply step_flush; [done|done|]. simpl.
  destruct (Z.eqb_spec b 0) as [->|]; [|by left]. right. rewrite app_nil_r. destruct Hb as [?|?]; done.
Qed.
Lemma flushed_pushed b p : stepped b p (flushed 0 (push b p)) /\ shape (flushed 0 (push b p)).1.1.
Proof. unfold flushed, flush. split; [|done]. apply step_flush; [done|done|]. left. simpl. by rewrite app_nil_r. Qed.
Lemma consumed_stepped b p st : stepped b p (consumed (push b (setState st p))).
Proof. by apply step_keep. Qed.

Lemma eventOf_snoc p r c :
  eventOf p (27 :: 91 :: 60 :: r ++ [c]) =
  (fun ev => if hasLast p then withLast (lastX p) (lastY p) ev else withLast (eX ev) (eY ev) ev) <$>
  parseParams r (c =? 109).
Proof.
  unfold eventOf. change (27 :: 91 :: 60 :: r ++ [c]) with ((27 :: 91 :: 60 :: r) ++ [c]).
  rewrite removelast_last, last_snoc. simpl drop. do 2 f_equal.
  destruct (Z.eqb_spec c 109) as [->|Hc]; [done|]. apply bool_decide_eq_false. congruence.
Qed.

Lemma Feed_step b p : shape p -> stepped b p (Feed b p) /\ shape (Feed b p).1.1.
Proof.
  intros Hs. unfold Feed. unfold shape in Hs. destruct (state p) eqn:Es.
  - destruct (Z.eqb_spec b 27) as [->|Hb].
    + split; [|done]. apply step_keep; [simpl; by rewrite Hs|done].
    + split; [apply step_flush; [done|done|left; by rewrite Hs]|]. unfold shape. simpl. by rewrite Es.
  - destruct (Z.eqb_spec b 91) as [->|Hb].
    + split; [apply consumed_stepped|]. unfold shape. simpl. by rewrite Hs.
    + apply flushed_stepped. right. by rewrite Hs.
  - destruct (Z.eqb_spec b 60) as [->|Hb].
    + split; [apply consumed_stepped|]. unfold shape. simpl. by rewrite Hs.
    + destruct (isCSIFinalByte b); [apply flushed_pushed|].
      destruct (_ || _); [|apply flushed_stepped; right; by rewrite Hs].
      split; [apply consumed_stepped|]. unfold shape. simpl. rewrite Hs. exists [b]. simpl. split; [done|lia].
  - split; [apply consumed_stepped|]. unfold shape. simpl. rewrite Hs. exists [b]. split_and!; [done|done|simpl; lia].
  - destruct Hs as (r & Hr & Hl). cbv zeta.
    destruct (Z.ltb_spec 64 (lenZ (bbytes (buf (push b p))))) as [Hlong|Hshort]; [apply flushed_pushed|].
    destruct (isCSIFinalByte b); [apply flushed_pushed|].
    destruct (isCSIIntermediateByte b || isCSIParamByte b); [|apply flushed_pushed].
    split; [by apply step_keep|]. unfold shape, lenZ in *. simpl in *. rewrite Es. exists (r ++ [b]). rewrite Hr in *. simpl in *.
    split; [done|lia].
  - destruct Hs as (r & Hr & Hne & Hl). unfold feedParams.
    assert (H : b = 77 \/ b = 109 -> sgrSequence (buf p ++ [b]) /\
              eventOf p (buf p ++ [b]) =
              (fun ev => if hasLast p then withLast (lastX p) (lastY p) ev else withLast (eX ev) (eY ev) ev) <$>
              parseParams (drop 3 (buf p)) (b =? 109)).
    { intros Hb. split; [|rewrite Hr; simpl; apply eventOf_snoc].
      exists r, b. rewrite Hr in *. split_and!; [done|done|simpl in *; rewrite length_app; simpl; lia]. }
    destruct ((b =? 77) || (b =? 109)) eqn:Eb.
    + destruct H as [H1 H2]; [rewrite orb_true_iff, !Z.eqb_eq in Eb; done|]. cbv zeta. cbn [bbytes bytes_buffer].
      destruct (parseParams (drop 3 (buf p)) (b =? 109)) as [ev|]; simpl in H2; (split; [|done]).
      * by eapply step_mouse; try exact H2.
      * by apply step_drop.
    + destruct (isDigit b || (b =? 59)); [|apply flushed_stepped; right; by rewrite Hr]. cbv zeta.
      destruct (Z.ltb_spec 32 (lenZ (bbytes (buf (push b p))))) as [Hlong|Hshort]; [apply flushed_pushed|].
      split; [by apply step_keep|]. unfold shape, lenZ in *. simpl in *. rewrite Es. exists (r ++ [b]). rewrite Hr in *.
      simpl in *. split_and!; [done|by intros [? _]%app_eq_nil|lia].
Qed.

(** ** Refinement *)

(** A parser whose buffer is a slice does, byte for byte and for any input, what
    the parser with a list does; the slice stays within its array. *)
Theorem mouse_parser_refines raw (p : Parser slice) :
  pvalid p ->
  pvalid (feedAll raw p).1 /\ feedAll raw (view p) = (view (feedAll raw p).1, (feedAll raw p).2).
Proof. apply feedAll_refines. Qed.
Lemma mouse_parser_refines_witness :
  exists outs, feedAll (27 :: bytesOf "[<0;10;5M") (view (newParser (B := slice))) =
    (view (feedAll (27 :: bytesOf "[<0;10;5M") (newParser (B := slice))).1, outs).
Proof.
  destruct (mouse_parser_refines (27 :: bytesOf "[<0;10;5M") newParser) as [_ H]; [apply bnil_ok|].
  eexists. exact H.
Defined.

(** ** Conservation of the input *)

(** What the input is made of: bytes handed back, mouse sequences, and malformed
    mouse sequences, which are dropped. *)
Inductive piece := PText (b : bytes) | PMouse (ev : Event) (b : bytes) | PDropped (b : bytes).
Definition rawOf (x : piece) : bytes := match x with PText b | PMouse _ b | PDropped b => b end.
Definition shown (x : piece) : option (option Event * bytes) :=
  match x with PText b => Some (None, b) | PMouse ev _ => Some (Some ev, []) | PDropped _ => None end.
Definition visible (o : option Event * bytes) : option (option Event * bytes) :=
  match o with (None, []) => None | _ => Some o end.
Definition isPiece (x : piece) : Prop :=
  match x with
  | PText b => b <> []
  | PMouse ev b => sgrSequence b /\ exists p, eventOf p b = Some ev
  | PDropped b => sgrSequence b /\ parseParams (drop 3 (removelast b)) (bool_decide (last b = Some 109)) = None
  end.

Lemma eventOf_None p b :
  eventOf p b = None -> parseParams (drop 3 (removelast b)) (bool_decide (last b = Some 109)) = None.
Proof. unfold eventOf. by intros ?%fmap_None. Qed.

Lemma pieces_cons x pieces l : ((x :: pieces) ≫= rawOf) ++ l = rawOf x ++ ((pieces ≫= rawOf) ++ l).
Proof. simpl. by rewrite app_assoc. Qed.

Lemma feedAll_pieces raw p p' outs :
  shape p -> Forall (fun b => b <> 0) raw -> feedAll raw p = (p', outs) ->
  shape p' /\ exists pieces, buf p ++ raw = (pieces ≫= rawOf) ++ buf p' /\
    omap shown pieces = omap visible outs /\ Forall isPiece pieces.
Proof.
  revert p outs. induction raw as [|b raw IH]; intros p outs Hs Hz E; cbn [feedAll] in E.
  - injection E as <- <-. split; [done|]. exists []. simpl. by rewrite app_nil_r.
  - inversion_clear Hz as [|? ? Hb Hz']. destruct (Feed_step b p Hs) as [Hst Hs1].
    destruct (Feed b p) as [[p1 ev] out] eqn:Ef. cbn [fst] in Hs1. destruct (feedAll raw p1) as [p2 outs1] eqn:Ea.
    injection E as <- <-. destruct (IH p1 outs1 Hs1 Hz' Ea) as (Hs2 & pieces & H1 & H2 & H3). split; [done|].
    assert (Hsplit : buf p ++ b :: raw = (buf p ++ [b]) ++ raw) by by rewrite <- app_assoc.
    inversion Hst as [q Hq|q o Hq _ Ho|q Hq _ Hseq He|q e Hq _ Hseq He]; subst.
    + exists pieces. split_and!; [|done|done]. by rewrite Hsplit, <- Hq.
    + destruct Ho as [->|[? _]]; [|done]. exists (PText (buf p ++ [b]) :: pieces). split_and!.
      * by rewrite Hsplit, pieces_cons, <- H1, Hq.
      * cbn [omap list_omap shown visible]. rewrite <- H2. by destruct (buf p ++ [b]) eqn:En; [apply app_eq_nil in En as [_ ?]|].
      * constructor; [|done]. by intros [_ ?]%app_eq_nil.
    + exists (PDropped (buf p ++ [b]) :: pieces). split_and!.
      * by rewrite Hsplit, pieces_cons, <- H1, Hq.
      * simpl. done.
      * constructor; [|done]. split; [done|by eapply eventOf_None].
    + exists (PMouse e (buf p ++ [b]) :: pieces). split_and!.
      * by rewrite Hsplit, pieces_cons, <- H1, Hq.
      * cbn [omap list_omap shown visible]. by rewrite <- H2.
      * constructor; [|done]. split; [done|by eexists].
Qed.

(** C38. Input without NUL bytes is cut into pieces, in order and without a gap: bytes
    that are handed back, mouse sequences of at most 33 bytes with their event, and
    mouse sequences whose parameters do not parse, which are dropped; what is left
    at the end is in the buffer, which holds at most 64 bytes. *)
Theorem mouse_input_conserved raw p p' outs :
  shape p -> Forall (fun b => b <> 0) raw -> feedAll raw p = (p', outs) ->
  (length (buf p') <= 64)%nat /\
  exists pieces, buf p ++ raw = (pieces ≫= rawOf) ++ buf p' /\
    omap shown pieces = omap visible outs /\ Forall isPiece pieces.
Proof.
  intros Hs Hz E. destruct (feedAll_pieces raw p p' outs Hs Hz E) as [Hs' H]. split; [|exact H].
  unfold shape in Hs'. destruct (state p'); try (rewrite Hs'; simpl; lia).
  - by destruct Hs' as (r & _ & ?).
  - destruct Hs' as (r & _ & _ & ?). lia.
Qed.
Lemma mouse_input_conserved_witness :
  exists pieces, [97; 27; 91; 65] = (pieces ≫= rawOf) ++ [] /\
    omap shown pieces = [(None, [97]); (None, [27; 91; 65])].
Proof.
  destruct (mouse_input_conserved [97; 27; 91; 65] newParser newParser [(None, [97]); (None, []); (None, []); (None, [27; 91; 65])])
    as (_ & pieces & H1 & H2 & _).
  - reflexivity.
  - repeat constructor; discriminate.
  - vm_compute. reflexivity.
  - exists pieces. split; [exact H1|exact H2].
Defined.

(** A NUL after an escape is lost: Escape is handed back, the NUL is not. *)
Theorem nul_after_escape_lost : (feedAll [27; 0; 97] (newParser (B := bytes))).2 = [(None, []); (None, [27]); (None, [97])].
Proof. reflexivity. Qed.

(** ** Round trip *)

(** The SGR encoding of an event. *)
Definition buttonBits (b : Button) : Z :=
  match b with
  | ButtonLeft => 0 | ButtonMiddle => 1 | ButtonRight => 2 | ButtonNone => 3
  | ScrollUp => 64 | ScrollDown => 65 | ScrollLeft => 66 | ScrollRight => 67
  end.
Definition eventBits (e : Event) : Z :=
  buttonBits (eButton e) + (if Shift e then 4 else 0) + (if Alt e then 8 else 0) + (if Ctrl e then 16 else 0) +
  match eAction e with Motion => 32 | _ => 0 end.
Definition eventParams (e : Event) : bytes :=
  formatDecimal (eventBits e) ++ 59 :: formatDecimal (eX e + 1) ++ 59 :: formatDecimal (eY e + 1).
Definition encodeEvent (e : Event) : bytes :=
  27 :: 91 :: 60 :: eventParams e ++ [match eAction e with Release => 109 | _ => 77 end].

Lemma splitSemicolons_cons l r :
  Forall (fun c => isDigit c = true) l -> splitSemicolons (l ++ 59 :: r) = l :: splitSemicolons r.
Proof.
  induction 1 as [|c l Hc _ IH]; [done|]. cbn [app splitSemicolons].
  destruct (Z.eqb_spec c 59) as [->|_]; [done|]. by rewrite IH.
Qed.
Lemma splitSemicolons_digits l : Forall (fun c => isDigit c = true) l -> splitSemicolons l = [l].
Proof.
  induction 1 as [|c l Hc _ IH]; [done|]. cbn [splitSemicolons]. destruct (Z.eqb_spec c 59) as [->|_]; [done|]. by rewrite IH.
Qed.

Lemma eventBits_bound e : 0 <= eventBits e < 128.
Proof. unfold eventBits. destruct (eButton e), (eAction e), (Shift e), (Alt e), (Ctrl e); simpl; lia. Qed.

Definition inScreen (e : Event) : Prop := 0 <= eX e < 10 ^ 9 /\ 0 <= eY e < 10 ^ 9.

Lemma parse_eventParams e :
  inScreen e ->
  parseParams (eventParams e) (match eAction e with Release => true | _ => false end) = Some (withLast 0 0 e).
Proof.
  intros [HX HY]. pose proof (eventBits_bound e). unfold parseParams, eventParams.
  rewrite splitSemicolons_cons by (apply formatDecimal_isDigit; lia).
  rewrite splitSemicolons_cons by (apply formatDecimal_isDigit; lia).
  rewrite splitSemicolons_digits by (apply formatDecimal_isDigit; lia).
  rewrite !Atoi_format by lia. cbn [mbind option_bind]. rewrite !Z.add_simpl_r.
  unfold eventBits. destruct e as [[] [] x y lx ly [] [] []]; reflexivity.
Qed.

Lemma formatDecimal_length n k : 0 <= n < 10 ^ Z.of_nat k -> (0 < k)%nat -> (length (formatDecimal n) <= k)%nat.
Proof. intros Hn Hk. pose proof (digits_length 20 n [] k Hn Hk) as H. rewrite Nat.add_0_r in H. exact H. Qed.
Lemma eventParams_length e : inScreen e -> (length (eventParams e) <= 25)%nat.
Proof.
  intros [HX HY]. pose proof (eventBits_bound e). unfold eventParams.
  rewrite length_app. cbn [length]. rewrite length_app. cbn [length].
  pose proof (formatDecimal_length (eventBits e) 3 ltac:(simpl; lia) ltac:(lia)).
  pose proof (formatDecimal_length (eX e + 1) 10 ltac:(simpl in *; lia) ltac:(lia)).
  pose proof (formatDecimal_length (eY e + 1) 10 ltac:(simpl in *; lia) ltac:(lia)). lia.
Qed.

Lemma feedAll_app {B} `{Buffer B} r1 r2 (p : Parser B) :
  feedAll (r1 ++ r2) p =
  let '(p1, o1) := feedAll r1 p in let '(p2, o2) := feedAll r2 p1 in (p2, o1 ++ o2).
Proof.
  revert p. induction r1 as [|b r1 IH]; intros p; cbn [feedAll app].
  - by destruct (feedAll r2 p).
  - destruct (Feed b p) as [[p' ev] out]. rewrite IH. destruct (feedAll r1 p') as [p1 o1]. by destruct (feedAll r2 p1).
Qed.

(** Parameter bytes are kept while they fit. *)
Lemma feedAll_params l (p : Parser bytes) :
  state p = stateParams -> Forall (fun c => isDigit c || (c =? 59) = true) l -> (length (buf p ++ l) <= 32)%nat ->
  feedAll l p = (setBuf (buf p ++ l) p, map (fun _ => (None, [])) l).
Proof.
  revert p. induction l as [|c l IH]; intros p Hst Hl Hlen.
  - simpl. rewrite app_nil_r. by destruct p.
  - inversion_clear Hl as [|? ? Hc Hl']. cbn [feedAll]. rewrite length_app in Hlen. simpl in Hlen.
    assert (Feed c p = consumed (push c p)) as ->.
    { unfold Feed, feedParams. rewrite Hst. assert ((c =? 77) || (c =? 109) = false) as ->.
      { unfold isDigit in Hc. destruct (Z.leb_spec 48 c), (Z.leb_spec c 57), (Z.eqb_spec c 59); simpl in Hc;
          try done; destruct (Z.eqb_spec c 77), (Z.eqb_spec c 109); lia || done. }
      rewrite Hc. cbv zeta. destruct (Z.ltb_spec 32 (lenZ (bbytes (buf (push c p))))) as [Hlong|_]; [|done].
      unfold lenZ in Hlong. simpl in Hlong. rewrite length_app in Hlong. simpl in Hlong. lia. }
    unfold consumed. rewrite IH; [|done|done|simpl; rewrite !length_app; simpl; lia].
    simpl. rewrite <- app_assoc. done.
Qed.

Lemma feedAll_start c (p : Parser bytes) :
  state p = stateNone ->
  feedAll [27; 91; 60; c] p =
  (mkParser [27; 91; 60; c] stateParams (lastX p) (lastY p) (hasLast p), [(None, []); (None, []); (None, []); (None, [])]).
Proof. destruct p as [b st lx ly hl]. simpl. intros ->. reflexivity. Qed.
Lemma feedAll_end l e c (p : Parser bytes) :
  state p = stateParams -> buf p = 27 :: 91 :: 60 :: l -> (c = 77 \/ c = 109) -> parseParams l (c =? 109) = Some e ->
  feedAll [c] p =
  (mkParser [] stateNone (eX e) (eY e) true,
   [(Some (if hasLast p then withLast (lastX p) (lastY p) e else withLast (eX e) (eY e) e), [])]).
Proof.
  intros Hst Hb Hc He. cbn [feedAll]. unfold Feed, feedParams. rewrite Hst.
  assert ((c =? 77) || (c =? 109) = true) as -> by by destruct Hc as [->| ->].
  cbv zeta. rewrite Hb. cbn [bbytes bytes_buffer drop]. rewrite drop_0, He. cbn. by destruct (hasLast p).
Qed.
Lemma eventParams_chars e : inScreen e -> Forall (fun c => isDigit c || (c =? 59) = true) (eventParams e).
Proof.
  intros [HX HY]. pose proof (eventBits_bound e). unfold eventParams.
  rewrite !Forall_app, !Forall_cons, !Forall_app, !Forall_cons.
  assert (forall n, 0 <= n -> Forall (fun c => isDigit c || (c =? 59) = true) (formatDecimal n)) as Hf.
  { intros n Hn. eapply Forall_impl; [by apply formatDecimal_isDigit|]. intros c ->. done. }
  split_and!; try done; apply Hf; lia.
Qed.
Lemma eventParams_cons e : exists c l, eventParams e = c :: l.
Proof. destruct (eventParams e) as [|c l] eqn:E; [|by eexists _, _]. unfold eventParams in E. by apply app_eq_nil in E as [_ ?]. Qed.

(** An event written as an SGR sequence is parsed back by an idle parser: the
    last byte gives it, with the parser's previous position, and nothing is
    handed back. *)
Theorem mouse_roundtrip e (p : Parser bytes) :
  inScreen e -> state p = stateNone ->
  feedAll (encodeEvent e) p =
  (mkParser [] stateNone (eX e) (eY e) true,
   map (fun _ => (None, [])) (27 :: 91 :: 60 :: eventParams e) ++
   [(Some (if hasLast p then withLast (lastX p) (lastY p) e else withLast (eX e) (eY e) e), [])]).
Proof.
  intros He Hst. pose proof (parse_eventParams e He) as Hparse. pose proof (eventParams_chars e He) as Hd.
  pose proof (eventParams_length e He) as Hlen. unfold encodeEvent. destruct (eventParams_cons e) as (c & l & El).
  rewrite El in *. inversion_clear Hd as [|? ? Hc Hd'].
  set (fin := match eAction e with Release => 109 | _ => 77 end).
  change (27 :: 91 :: 60 :: (c :: l) ++ [fin]) with ([27; 91; 60; c] ++ l ++ [fin]).
  rewrite feedAll_app, feedAll_start by done. rewrite feedAll_app.
  rewrite feedAll_params by (try done; simpl in *; lia).
  rewrite (feedAll_end (c :: l) (withLast 0 0 e) fin) by
    (try done; subst fin; destruct (eAction e); simpl; auto). done.
Qed.
Lemma mouse_roundtrip_witness :
  (feedAll (encodeEvent (mkEvent ButtonRight Motion 119 39 0 0 true false true)) (newParser (B := bytes))).1 =
  mkParser [] stateNone 119 39 true.
Proof.
  rewrite (mouse_roundtrip (mkEvent ButtonRight Motion 119 39 0 0 true false true) newParser); [reflexivity| |reflexivity].
  split; split; simpl; lia.
Defined.

(** ** The look ahead *)

(** InputLooksLikeMouse is a question, but a parser that holds a part of a
    sequence is not the same afterwards: the copy appends to the array the
    parser's slice is in.  The drag's last report [ESC[<0;1] + [0;5M] was read in
    two parts; after the look ahead the press at (9, 4) is a motion at (-1, 4). *)
Definition splitPress : Parser slice := (feedAll (27 :: bytesOf "[<35;10;5M" ++ 27 :: bytesOf "[<0;1") newParser).1.
Definition pressRest : bytes := bytesOf "0;5M" ++ 27 :: bytesOf "[<35;7;9M".

(** A look ahead while a sequence is incomplete damages it: what was a press is a
    motion outside of the screen. *)
Theorem lookahead_damages :
  omap fst (feedAll (bytesOf "0;5M") splitPress).2 = [mkEvent ButtonLeft Press 9 4 9 4 false false false] /\
  (InputLooksLikeMouse pressRest splitPress).2 = true /\
  omap fst (feedAll (bytesOf "0;5M") (InputLooksLikeMouse pressRest splitPress).1).2 =
  [mkEvent ButtonNone Motion (-1) 4 9 4 false false false].
Proof. split_and!; vm_compute; reflexivity. Qed.

(** Otherwise the answer is that of the list parser, and a parser without a part
    of a sequence is as it was. *)
Lemma looksLoop_refines {B} `{BufferLaws B} raw saw (p : Parser B) :
  pvalid p -> pvalid (looksLoop saw raw p).1 /\ looksLoop saw raw (view p) = (view (looksLoop saw raw p).1, (looksLoop saw raw p).2).
Proof.
  revert saw p. induction raw as [|b raw IH]; intros saw p Hp; [done|]. cbn [looksLoop].
  destruct (Feed_refines b p Hp) as [H1 H2]. destruct (Feed b p) as [[p' ev] out]. cbn [fst snd] in H1, H2.
  rewrite H2. destruct ev, out; auto.
Qed.

(** The answer of a look ahead is the list parser's for any state of the memory,
    and asking an idle parser changes nothing that it reads later. *)
Theorem lookahead_correct raw (p : Parser slice) :
  pvalid p ->
  (InputLooksLikeMouse raw p).2 = (looksLikeMouse raw (view p)).2 /\
  (bbytes (buf p) = [] -> view (InputLooksLikeMouse raw p).1 = view p /\
     forall later, (feedAll later (view (InputLooksLikeMouse raw p).1)).2 = (feedAll later (view p)).2).
Proof.
  intros Hp. unfold InputLooksLikeMouse, looksLikeMouse. destruct (looksLoop_refines raw false p Hp) as [_ ->].
  destruct (looksLoop false raw p) as [c r]. cbn [fst snd]. split; [done|]. intros Hb.
  assert (slen (buf p) = 0)%nat as Hz.
  { unfold pvalid in Hp. simpl in Hp, Hb. unfold sliceBytes in Hb. apply (f_equal length) in Hb.
    rewrite length_take in Hb. simpl in Hb. lia. }
  assert (view (setBuf (mkSlice (mem (buf c)) (arr (buf p)) (slen (buf p))) p) = view p) as E.
  { unfold view, setBuf. simpl. simpl in Hb. rewrite Hb. unfold sliceBytes. simpl. by rewrite Hz. }
  rewrite E. done.
Qed.
Lemma lookahead_correct_witness :
  (InputLooksLikeMouse (27 :: bytesOf "[<0;10;5M") newParser).2 = true /\
  view (InputLooksLikeMouse (27 :: bytesOf "[<0;10;5M") newParser).1 = newParser.
Proof.
  destruct (lookahead_correct (27 :: bytesOf "[<0;10;5M") newParser) as [H1 H2]; [apply bnil_ok|].
  split; [rewrite H1; reflexivity|]. destruct (H2 eq_refl) as [H _]. rewrite H. reflexivity.
Defined.

(** ** Coalesced motion *)

(** What the parser gives for the chunks, a pending Escape handed back at the end
    of each. *)
Fixpoint feedChunks {B} `{Buffer B} (chunks : list bytes) (p : Parser B) : list (option Event * bytes) :=
  match chunks with
  | [] => []
  | chunk :: chunks =>
      let '(p, outs) := feedAll chunk p in
      let '(p, out) := FlushPending p in
      outs ++ (None, out) :: feedChunks chunks p
  end.

(** Input as a sequence of events and bytes. *)
Definition itemsOf (fed : option Event * bytes) : list (Event + Z) :=
  match fed with (Some ev, _) => [inl ev] | (None, out) => inr <$> out end.
Definition dispatchedItems (d : dispatched) : list (Event + Z) :=
  match d with DMouse ev => [inl ev] | DBytes b => inr <$> b end.
Definition queueItems (q : queue) : list (Event + Z) :=
  (done q ≫= dispatchedItems) ++ (inl <$> option_list (pendingMotion q)) ++ (inr <$> pendingBytes q).

(** Two motions in a row become one from the first's start to the second's end. *)
Inductive merge : list (Event + Z) -> list (Event + Z) -> Prop :=
| merge_motions l1 e1 e2 l2 :
    eAction e1 = Motion -> eAction e2 = Motion ->
    merge (l1 ++ inl e1 :: inl e2 :: l2) (l1 ++ inl (withLast (LastX e1) (LastY e1) e2) :: l2).

Lemma merge_app l l' r : rtc merge l l' -> rtc merge (l ++ r) (l' ++ r).
Proof.
  induction 1 as [|l l1 l' H _ IH]; [done|]. eapply rtc_l; [|exact IH]. destruct H.
  rewrite <- !app_assoc. by constructor.
Qed.

(** Motion and bytes do not wait at the same time; what waits is a motion. *)
Definition queueOk (q : queue) : Prop :=
  match pendingMotion q with Some ev => eAction ev = Motion /\ pendingBytes q = [] | None => True end.

Section Dispatch.
Context (coalesce : list dispatched -> bool).

Lemma flushPendingMotion_items q :
  queueOk q -> queueItems (flushPendingMotion q) = queueItems q /\ pendingMotion (flushPendingMotion q) = None.
Proof.
  destruct q as [[ev|] b d]; unfold queueOk, queueItems, flushPendingMotion; simpl; [|done]. intros [_ ->].
  split; [|done]. rewrite bind_app. simpl. by rewrite !app_nil_r.
Qed.
Lemma flushBufferedBytes_items q :
  queueOk q ->
  queueItems (flushBufferedBytes q) = queueItems q /\ pendingBytes (flushBufferedBytes q) = [] /\ queueOk (flushBufferedBytes q).
Proof.
  destruct q as [[ev|] [|b bs] d]; unfold queueOk, queueItems, flushBufferedBytes; simpl; try done.
  - by intros [? ?].
  - intros _. split; [|done]. rewrite bind_app. simpl. by rewrite !app_nil_r.
Qed.
Lemma dispatchMouse_items ev q :
  queueOk q -> pendingBytes q = [] ->
  queueOk (dispatchMouse coalesce ev q) /\
  rtc merge (queueItems q ++ [inl ev]) (queueItems (dispatchMouse coalesce ev q)) /\
  (coalesce (done q) = false -> pendingMotion q = None ->
   pendingMotion (dispatchMouse coalesce ev q) = None /\ queueItems (dispatchMouse coalesce ev q) = queueItems q ++ [inl ev]).
Proof.
  intros Hok Hb. unfold dispatchMouse. cbv zeta.
  destruct (flushPendingMotion_items q Hok) as [Hi Hn].
  assert (pendingBytes (flushPendingMotion q) = []) as Hb' by (unfold flushPendingMotion; by destruct (pendingMotion q)).
  destruct (_ || _) eqn:E.
  - set (q' := mkQueue _ _ _). assert (queueItems q' = queueItems q ++ [inl ev]) as Hq.
    { rewrite <- Hi. unfold queueItems, q'. simpl. rewrite Hn, Hb'. simpl. rewrite bind_app. simpl. by rewrite !app_nil_r. }
    rewrite Hq. split_and!; [unfold queueOk, q'; simpl; by rewrite Hn|done|done].
  - apply orb_false_iff in E as [E1 E2]. assert (eAction ev = Motion) as Hm by by destruct (eAction ev).
    assert (coalesce (done q) = true) as Hc by by destruct (coalesce (done q)).
    destruct q as [[prev|] b d]; simpl in *; subst b; unfold queueOk in *; simpl in *.
    + destruct Hok as [Hp _]. split_and!; [done..| |by rewrite Hc].
      unfold queueItems. simpl. rewrite <- app_assoc. apply rtc_once. by apply merge_motions.
    + split_and!; [done..| |by rewrite Hc]. unfold queueItems. simpl. by rewrite !app_nil_r.
Qed.
Lemma queueBytes_items out q :
  queueOk q ->
  queueOk (queueBytes out q) /\ queueItems (queueBytes out q) = queueItems q ++ (inr <$> out) /\
  (pendingMotion q = None -> pendingMotion (queueBytes out q) = None).
Proof.
  intros Hok. unfold queueBytes. destruct out as [|b out]; [by rewrite app_nil_r|]. cbv zeta.
  destruct (flushPendingMotion_items q Hok) as [<- Hn]. unfold queueOk, queueItems. simpl. rewrite Hn.
  split_and!; [done| |done]. by rewrite fmap_app, <- !app_assoc.
Qed.
Lemma dispatchFed_items fed q :
  queueOk q ->
  queueOk (dispatchFed coalesce fed q) /\
  rtc merge (queueItems q ++ itemsOf fed) (queueItems (dispatchFed coalesce fed q)) /\
  ((forall d, coalesce d = false) -> pendingMotion q = None ->
   pendingMotion (dispatchFed coalesce fed q) = None /\ queueItems (dispatchFed coalesce fed q) = queueItems q ++ itemsOf fed).
Proof.
  intros Hok. destruct fed as [[ev|] out]; cbn [dispatchFed itemsOf].
  - destruct (flushBufferedBytes_items q Hok) as (Hi & Hb & Hok'). rewrite <- Hi.
    destruct (dispatchMouse_items ev _ Hok' Hb) as (H1 & H2 & H3). split_and!; [done..|].
    intros Hc Hn. apply H3; [apply Hc|]. unfold flushBufferedBytes. by destruct (pendingBytes q).
  - destruct (queueBytes_items out q Hok) as (H1 & H2 & H3). rewrite H2. split_and!; [done..|]. auto.
Qed.
Lemma dispatchAll_items outs q :
  queueOk q ->
  queueOk (foldl (fun q fed => dispatchFed coalesce fed q) q outs) /\
  rtc merge (queueItems q ++ (outs ≫= itemsOf)) (queueItems (foldl (fun q fed => dispatchFed coalesce fed q) q outs)) /\
  ((forall d, coalesce d = false) -> pendingMotion q = None ->
   pendingMotion (foldl (fun q fed => dispatchFed coalesce fed q) q outs) = None /\
   queueItems (foldl (fun q fed => dispatchFed coalesce fed q) q outs) = queueItems q ++ (outs ≫= itemsOf)).
Proof.
  revert q. induction outs as [|fed outs IH]; intros q Hok; [simpl; by rewrite app_nil_r|].
  destruct (dispatchFed_items fed q Hok) as (H1 & H2 & H3). cbn [foldl]. destruct (IH _ H1) as (I1 & I2 & I3).
  assert (queueItems q ++ ((fed :: outs) ≫= itemsOf) = (queueItems q ++ itemsOf fed) ++ (outs ≫= itemsOf)) as ->
    by by rewrite <- app_assoc.
  split_and!; [done|by etransitivity; [apply merge_app|]|]. intros Hc Hn. destruct (H3 Hc Hn) as [E1 <-]. by apply I3.
Qed.

Lemma dispatchChunks_items {B} `{Buffer B} chunks (p : Parser B) q :
  queueOk q ->
  let q' := (dispatchChunks coalesce chunks p q).2 in
  pendingMotion q' = None /\ pendingBytes q' = [] /\
  rtc merge (queueItems q ++ (feedChunks chunks p ≫= itemsOf)) (queueItems q') /\
  ((forall d, coalesce d = false) -> pendingMotion q = None ->
   queueItems q' = queueItems q ++ (feedChunks chunks p ≫= itemsOf)).
Proof.
  revert p q. induction chunks as [|chunk chunks IH]; intros p q Hok; cbn [dispatchChunks feedChunks].
  - destruct (flushBufferedBytes_items q Hok) as (Hi & Hb & Hok'). cbn [snd].
    destruct (flushPendingMotion_items _ Hok') as [Hi' Hn]. simpl. rewrite app_nil_r, Hi', Hi.
    split_and!; [done| |done|done]. unfold flushPendingMotion. by destruct (pendingMotion (flushBufferedBytes q)).
  - destruct (feedAll chunk p) as [p1 outs]. destruct (FlushPending p1) as [p2 out].
    destruct (dispatchAll_items outs q Hok) as (H1 & H2 & H3).
    set (q1 := foldl _ q outs) in *. destruct (queueBytes_items out q1 H1) as (Q1 & Q2 & Q3).
    destruct (IH p2 _ Q1) as (I1 & I2 & I3 & I4). rewrite Q2 in I3, I4. rewrite bind_app. cbn [mbind list_bind itemsOf].
    split_and!; [done|done| |].
    + etransitivity; [|exact I3]. rewrite !app_assoc. do 2 apply merge_app. exact H2.
    + intros Hc Hn. destruct (H3 Hc Hn) as [E1 E2]. rewrite I4 by auto. rewrite E2, <- !app_assoc. done.
Qed.
End Dispatch.

(** The handlers get what the chunks hold, in order: bytes and events, where a
    motion may be merged with the motion right before it, the merged event going
    from the start of the first to the end of the last; when no drag coalesces,
    every event.  Nothing is left waiting. *)
Theorem dispatchQueued_correct {B} `{Buffer B} coalesce chunks (p : Parser B) :
  rtc merge (feedChunks chunks p ≫= itemsOf)
    ((dispatchQueuedMouseInputChunks coalesce chunks p).2 ≫= dispatchedItems) /\
  ((forall d, coalesce d = false) ->
   (dispatchQueuedMouseInputChunks coalesce chunks p).2 ≫= dispatchedItems = feedChunks chunks p ≫= itemsOf).
Proof.
  destruct (dispatchChunks_items coalesce chunks p (mkQueue None [] []) I) as (H1 & H2 & H3 & H4).
  unfold dispatchQueuedMouseInputChunks. destruct (dispatchChunks _ _ _ _) as [p' q]. cbn [snd] in *.
  unfold queueItems in H3, H4. rewrite H1, H2 in H3, H4. simpl in H3, H4. rewrite !app_nil_r in H3, H4. auto.
Qed.
Lemma dispatchQueued_correct_witness :
  (dispatchQueuedMouseInputChunks (fun _ => false) [97 :: 27 :: bytesOf "[<32;3;3M"; [27]] (newParser (B := bytes))).2 ≫= dispatchedItems =
  [inr 97; inl (mkEvent ButtonLeft Motion 2 2 2 2 false false false); inr 27].
Proof.
  destruct (dispatchQueued_correct (fun _ => false) [97 :: 27 :: bytesOf "[<32;3;3M"; [27]] (newParser (B := bytes))) as [_ H].
  rewrite H; [vm_compute; reflexivity|intros d; reflexivity].
Defined.
