(* ===== verification/GoWire.v ===== *)
(** * Bytes on the wire: what the codec uses of Go's standard library

    encoding/binary's big-endian integers and varints, io.LimitedReader under a
    bufio.Reader, io.ReadFull.  A bytes.Buffer that is only written to is the
    list of the bytes written, so a write is its bytes.  [reads] says that a
    reader reads back what was written; it composes. *)

From S2P Require Import Prelude GoText.

(** The errors of reading and writing messages; what the code adds to an error on
    the way up (fmt.Errorf with %w) is left out. *)
Inductive WireError :=
| EOF | ErrUnexpectedEOF | VarintOverflow
| CountTooLarge (n : Z) | RunTooLong (n : Z) | CountMismatch (history styled : Z)
| StyleIndexOutOfRange (index count : Z) | UnknownColor (kind : Z)
| TrailingBytes (n : Z) | MessageTooLarge (n : Z)
| NegativeWidth (w : Z) | InvalidChunkSize (n : Z) | EncodingFailed | DecodingFailed.

(** ** Integers *)

Definition wrapU (bits n : Z) : Z := n mod 2 ^ bits.
Definition shiftByte (n k : Z) : Z := wrapU 8 (Z.shiftr n (8 * k)).
Definition BigEndianPutUint16 (n : Z) : bytes := [shiftByte n 1; shiftByte n 0].
Definition BigEndianPutUint32 (n : Z) : bytes := [shiftByte n 3; shiftByte n 2; shiftByte n 1; shiftByte n 0].
Fixpoint bigEndian (acc : Z) (l : bytes) : Z :=
  match l with [] => acc | b :: l => bigEndian (256 * acc + b) l end.

(** binary.PutUvarint into a buffer of MaxVarintLen64 bytes. *)
Definition MaxVarintLen64 : nat := 10.
Fixpoint putUvarint (n : nat) (x : Z) : bytes :=
  match n with
  | O => []
  | S n => if x <? 0x80 then [x] else Z.lor (wrapU 8 x) 0x80 :: putUvarint n (Z.shiftr x 7)
  end.
Definition PutUvarint (x : Z) : bytes := putUvarint MaxVarintLen64 x.

(** ** The reader *)

(** What the source still gives and what the limit still allows. *)
Record reader := mkReader { avail : bytes; left : Z }.
Definition complete (l : bytes) : reader := mkReader l (lenZ l).

Abbreviation R := (M reader WireError).

Definition ReadByte : R Z := fun r =>
  match avail r with
  | [] => (r, Err EOF)
  | b :: l => (mkReader l (left r - 1), Ok b)
  end.
Definition ReadFull (n : nat) : R bytes := fun r =>
  if (n <=? length (avail r))%nat
  then (mkReader (drop n (avail r)) (left r - Z.of_nat n), Ok (take n (avail r)))
  else (mkReader [] (left r - lenZ (avail r)), Err (match avail r with [] => EOF | _ => ErrUnexpectedEOF end)).
Definition remaining : R Z := fun r => (r, Ok (left r)).

(** binary.ReadUvarint: [n] more bytes may follow. *)
Definition eofInside (first : bool) : R Z := fun r =>
  match ReadByte r with
  | (r, Err EOF) => (r, Err (if first then EOF else ErrUnexpectedEOF))
  | res => res
  end.
Fixpoint readUvarint (n : nat) (x s : Z) : R Z :=
  match n with
  | O => throw VarintOverflow
  | S n' =>
      do b <- eofInside (n =? MaxVarintLen64)%nat;
      if b <? 0x80 then
        if (n' =? 0)%nat && (1 <? b) then throw VarintOverflow
        else ret (Z.lor x (wrapU 64 (Z.shiftl b s)))
      else readUvarint n' (Z.lor x (wrapU 64 (Z.shiftl (Z.land b 0x7f) s))) (s + 7)
  end.
Definition ReadUvarint : R Z := readUvarint MaxVarintLen64 0 0.

(** A loop that reads [n] things. *)
Fixpoint readN {A} (n : nat) (m : R A) : R (list A) :=
  match n with
  | O => ret []
  | S n => do x <- m; do l <- readN n m; ret (x :: l)
  end.

(** ** Reading what was written *)

Definition reads {A} (m : R A) (l : bytes) (a : A) : Prop :=
  forall rest, m (complete (l ++ rest)) = (complete rest, Ok a).

Lemma reads_ret {A} (a : A) : reads (ret a) [] a.
Proof. done. Qed.
Lemma reads_bind {A B} (m : R A) (k : A -> R B) l1 l2 a b :
  reads m l1 a -> reads (k a) l2 b -> reads (bindM m k) (l1 ++ l2) b.
Proof. intros H1 H2 rest. unfold bindM. rewrite <- app_assoc, H1. apply H2. Qed.
Lemma reads_ret_bind {A B} (m : R A) (f : A -> B) l a :
  reads m l a -> reads (bindM m (fun x => ret (f x))) l (f a).
Proof. intros H rest. unfold bindM. by rewrite H. Qed.
Lemma reads_N {A B} (m : R A) (enc : B -> bytes) (f : B -> A) l :
  Forall (fun x => reads m (enc x) (f x)) l -> reads (readN (length l) m) (l ≫= enc) (f <$> l).
Proof.
  induction 1 as [|x l Hx _ IH]; [apply reads_ret|]. cbn [length readN mbind list_bind fmap list_fmap].
  eapply reads_bind; [exact Hx|]. apply (reads_ret_bind _ (fun r => f x :: r)). exact IH.
Qed.

Lemma reads_Byte b : reads ReadByte [b] b.
Proof. intros rest. unfold ReadByte, complete, lenZ. simpl. do 2 f_equal. lia. Qed.
Lemma reads_Full l : reads (ReadFull (length l)) l l.
Proof.
  intros rest. unfold ReadFull, complete, lenZ. cbn [avail left]. rewrite length_app.
  destruct (Nat.leb_spec (length l) (length l + length rest)); [|lia].
  rewrite drop_app_length, take_app_length. do 2 f_equal. lia.
Qed.

Lemma lor_shiftl x b s : 0 <= s -> 0 <= x < 2 ^ s -> 0 <= b -> Z.lor x (Z.shiftl b s) = x + b * 2 ^ s.
Proof.
  intros Hs Hx Hb. rewrite <- Z.shiftl_mul_pow2 by lia.
  assert (Z.land x (Z.shiftl b s) = 0) as Hl.
  { apply Z.bits_inj'. intros i Hi. rewrite Z.land_spec, Z.bits_0, Z.shiftl_spec by lia.
    destruct (Z.lt_ge_cases i s); [by rewrite (Z.testbit_neg_r b), andb_false_r by lia|].
    replace x with (x mod 2 ^ s) by (apply Z.mod_small; lia). by rewrite Z.mod_pow2_bits_high by lia. }
  rewrite <- Z.lxor_lor by done. symmetry. by apply Z.add_nocarry_lxor.
Qed.
Lemma lor_wrapU x b s :
  0 <= s -> 0 <= x < 2 ^ s -> 0 <= b -> b * 2 ^ s < 2 ^ 64 -> Z.lor x (wrapU 64 (Z.shiftl b s)) = x + b * 2 ^ s.
Proof.
  intros Hs Hx Hb Hlt. rewrite <- lor_shiftl by done. f_equal. unfold wrapU. apply Z.mod_small.
  rewrite Z.shiftl_mul_pow2 by done. split; [nia|done].
Qed.
Lemma lor_bit7 b : 0 <= b < 256 -> Z.land (Z.lor b 0x80) 0x7f = b mod 128 /\ 128 <= Z.lor b 0x80 < 256.
Proof.
  intros Hb. split.
  - change 0x7f with (Z.ones 7). rewrite Z.land_ones by lia.
    change (b mod 128) with (b mod 2 ^ 7). change 0x80 with (Z.shiftl 1 7). apply Z.bits_inj'. intros i Hi.
    destruct (Z.lt_ge_cases i 7).
    + rewrite !Z.mod_pow2_bits_low, Z.lor_spec, Z.shiftl_spec, (Z.testbit_neg_r 1), orb_false_r by lia. done.
    + by rewrite !Z.mod_pow2_bits_high by lia.
  - split.
    + destruct (Z.lt_ge_cases (Z.lor b 128) 128) as [H|]; [|done]. exfalso.
      assert (0 <= Z.lor b 128) by (apply Z.lor_nonneg; lia).
      assert (Z.testbit (Z.lor b 128) 7 = true) as Ht by by rewrite Z.lor_spec, (orb_comm _ (Z.testbit 128 7)).
      rewrite <- (Z.mod_small (Z.lor b 128) (2 ^ 7)) in Ht by (change (2 ^ 7) with 128; lia).
      by rewrite Z.mod_pow2_bits_high in Ht by lia.
    + assert (Z.lor b 128 mod 2 ^ 8 = Z.lor b 128) as <-; [|apply Z.mod_pos_bound; lia].
      apply Z.bits_inj'. intros i Hi. destruct (Z.lt_ge_cases i 8); [by rewrite Z.mod_pow2_bits_low by lia|].
      rewrite Z.mod_pow2_bits_high, Z.lor_spec by lia. rewrite <- (Z.mod_small b (2 ^ 8)), Z.mod_pow2_bits_high by lia.
      change 128 with (2 ^ 7). by rewrite Z.pow2_bits_false by lia.
Qed.

Lemma reads_uvarint n x v :
  (n <= 10)%nat -> let s := 7 * (10 - Z.of_nat n) in 0 <= x < 2 ^ s -> 0 <= v -> v * 2 ^ s < 2 ^ 64 -> (0 < n)%nat ->
  reads (readUvarint n x s) (putUvarint n v) (x + v * 2 ^ s).
Proof.
  revert x v. induction n as [|n IH]; intros x v Hn s Hx Hv Hlt Hpos; [lia|]. intros rest.
  assert (0 <= s) as Hs by (unfold s; lia). assert (0 < 2 ^ s) as Hp by (apply Z.pow_pos_nonneg; lia).
  assert (0 <= v < 2 ^ 64) as Hv64 by nia. assert (n = 0%nat -> s = 63) as Hlast by (unfold s; lia).
  cbn [putUvarint readUvarint]. destruct (Z.ltb_spec v 128) as [Hsmall|Hbig].
  - unfold bindM, eofInside. rewrite reads_Byte. destruct (Z.ltb_spec v 128); [|lia].
    assert ((n =? 0)%nat && (1 <? v) = false) as ->.
    { destruct (Nat.eqb_spec n 0) as [->|]; [|done]. destruct (Z.ltb_spec 1 v); [|done]. exfalso.
      rewrite (Hlast eq_refl) in Hlt. lia. }
    by rewrite lor_wrapU by (lia || nia).
  - change (wrapU 8 v) with (v mod 2 ^ 8). pose proof (lor_bit7 (v mod 2 ^ 8) ltac:(apply Z.mod_pos_bound; lia)) as [H1 H2].
    cbn [app]. unfold bindM at 1, eofInside.
    pose proof (reads_Byte (Z.lor (v mod 2 ^ 8) 128) (putUvarint n (Z.shiftr v 7) ++ rest)) as Hb. simpl in Hb. rewrite Hb. clear Hb.
    destruct (Z.ltb_spec (Z.lor (v mod 2 ^ 8) 128) 128); [lia|]. rewrite H1.
    assert ((v mod 2 ^ 8) mod 128 = v mod 128) as ->
      by (apply Z.mod_mod_divide; by exists 2).
    pose proof (Z.mod_pos_bound v 128 ltac:(lia)). pose proof (Z.div_mod v 128 ltac:(lia)) as Hdm.
    assert (0 <= v / 128) by (apply Z.div_pos; lia).
    rewrite lor_wrapU by (lia || nia).
    replace (s + 7) with (7 * (10 - Z.of_nat n)) by (unfold s; lia).
    assert (2 ^ (7 * (10 - Z.of_nat n)) = 128 * 2 ^ s) as Es.
    { replace (7 * (10 - Z.of_nat n)) with (7 + s) by (unfold s; lia). by rewrite Z.pow_add_r by lia. }
    rewrite Z.shiftr_div_pow2 by lia. change (2 ^ 7) with 128.
    assert (v * 2 ^ s = v mod 128 * 2 ^ s + v / 128 * (128 * 2 ^ s)) as Hsplit by (rewrite Hdm at 1; ring).
    assert (0 <= v mod 128 * 2 ^ s <= 127 * 2 ^ s) as Hm by (split; [apply Z.mul_nonneg_nonneg|apply Z.mul_le_mono_nonneg_r]; lia).
    rewrite (IH (x + v mod 128 * 2 ^ s) (v / 128)); rewrite ?Es; [|lia..|].
    + do 2 f_equal. lia.
    + destruct n; [|lia]. exfalso. rewrite (Hlast eq_refl) in Hlt. lia.
Qed.
Lemma reads_Uvarint v : 0 <= v < 2 ^ 64 -> reads ReadUvarint (PutUvarint v) v.
Proof.
  intros Hv. pose proof (reads_uvarint 10 0 v ltac:(lia)) as H. cbv zeta in H.
  change (7 * (10 - Z.of_nat 10)) with 0 in H. change (2 ^ 0) with 1 in H.
  rewrite Z.add_0_l, Z.mul_1_r in H. apply H; lia.
Qed.
Lemma PutUvarint_length v : (0 < length (PutUvarint v))%nat.
Proof.
  unfold PutUvarint, MaxVarintLen64. generalize 9%nat. intros n. cbn [putUvarint].
  destruct (v <? 128); cbn [length]; lia.
Qed.

Lemma shiftByte_mod n k : 0 <= k -> shiftByte n k = (n / 2 ^ (8 * k)) mod 256.
Proof. intros Hk. unfold shiftByte, wrapU. by rewrite Z.shiftr_div_pow2 by lia. Qed.
Lemma mod_step n k m : 0 <= k -> 0 < m ->
  256 * ((n / 2 ^ (8 * (k + 1))) mod m) + (n / 2 ^ (8 * k)) mod 256 = (n / 2 ^ (8 * k)) mod (256 * m).
Proof.
  intros Hk Hm. rewrite Z.rem_mul_r by lia. replace (8 * (k + 1)) with (8 * k + 8) by lia.
  rewrite Z.pow_add_r, <- Z.div_div by lia. change (2 ^ 8) with 256. lia.
Qed.
Lemma bigEndian16 n : bigEndian 0 (BigEndianPutUint16 n) = n mod 2 ^ 16.
Proof.
  unfold BigEndianPutUint16. cbn [bigEndian]. rewrite !shiftByte_mod, Z.mul_0_r, Z.add_0_l by lia.
  rewrite (mod_step n 0) by lia. simpl. by rewrite Z.div_1_r.
Qed.
Lemma bigEndian32 n : bigEndian 0 (BigEndianPutUint32 n) = n mod 2 ^ 32.
Proof.
  unfold BigEndianPutUint32. cbn [bigEndian]. rewrite !shiftByte_mod, Z.mul_0_r, Z.add_0_l by lia.
  rewrite (mod_step n 2), (mod_step n 1), (mod_step n 0) by lia. simpl. by rewrite Z.div_1_r.
Qed.

#[global] Arguments PutUvarint : simpl never.
#[global] Arguments ReadUvarint : simpl never.
#[global] Arguments BigEndianPutUint16 : simpl never.
#[global] Arguments BigEndianPutUint32 : simpl never.
