(* ===== verification/PaneHistory.v ===== *)
(** * The binary encoding of a pane's history (internal/proto/wire_pane_history.go)

    A history message carries lines of text and styled lines of cells.  Its
    payload has a table of the styles, and runs of equal cells.  The encoding
    of a version of a pane's content is cached. *)

From S2P Require Import Prelude GoText GoWire.

(** ** Colours, styles, cells *)

(** The types of colour that the encoding knows, nil, and any other, by what its
    RGBA method returns.  A value is a byte, 16 bits in RGBA64. *)
Inductive Color :=
| ColorNil | BasicColor (v : Z) | IndexedColor (v : Z) | RGBColor (r g b : Z)
| RGBA (r g b a : Z) | RGBA64 (r g b a : Z) | OtherColor (r g b a : Z).
Record Style := mkStyle { Fg : Color; Bg : Color; UnderlineColor : Color; Underline : Z; Attrs : Z }.
Record Cell := mkCell { Char : bytes; CellStyle : Style; Width : Z }.
Record StyledLine := mkLine { Text : bytes; Cells : list Cell }.
Definition StyledLineText (lines : list StyledLine) : list bytes := Text <$> lines.

#[export] Instance Color_eq_dec : EqDecision Color.
Proof. solve_decision. Defined.
#[export] Instance Style_eq_dec : EqDecision Style.
Proof. solve_decision. Defined.

#[export] Instance Cell_eq_dec : EqDecision Cell.
Proof. solve_decision. Defined.
#[export] Instance StyledLine_eq_dec : EqDecision StyledLine.
Proof. solve_decision. Defined.

(** A history message: which pane, the lines, the styled lines. *)
Record History := mkHistory { hPaneID : Z; hLines : list bytes; hStyled : list StyledLine }.

(** ** Keys of styles *)

Definition paneHistoryColorNil : Z := 0.
Definition paneHistoryColorBasic : Z := 1.
Definition paneHistoryColorIndexed : Z := 2.
Definition paneHistoryColorRGB : Z := 3.
Definition paneHistoryColorRGBA : Z := 4.
Definition paneHistoryColorRGBA64 : Z := 5.

(** The kind and the eight bytes of data. *)
Definition paneHistoryColorKey : Type := Z * bytes.
Definition paneHistoryStyleKey : Type := paneHistoryColorKey * paneHistoryColorKey * paneHistoryColorKey * Z * Z.

Definition pad8 (l : bytes) : bytes := l ++ replicate (8 - length l) 0.
Definition paneHistoryComparableRGBA64 (r g b a : Z) : paneHistoryColorKey :=
  (paneHistoryColorRGBA64,
   pad8 (BigEndianPutUint16 r ++ BigEndianPutUint16 g ++ BigEndianPutUint16 b ++ BigEndianPutUint16 a)).
Definition paneHistoryComparableColor (c : Color) : paneHistoryColorKey :=
  match c with
  | ColorNil => (paneHistoryColorNil, pad8 [])
  | BasicColor v => (paneHistoryColorBasic, pad8 [wrapU 8 v])
  | IndexedColor v => (paneHistoryColorIndexed, pad8 [wrapU 8 v])
  | RGBColor r g b => (paneHistoryColorRGB, pad8 [r; g; b])
  | RGBA r g b a => (paneHistoryColorRGBA, pad8 [r; g; b; a])
  | RGBA64 r g b a => paneHistoryComparableRGBA64 r g b a
  | OtherColor r g b a => paneHistoryComparableRGBA64 (wrapU 16 r) (wrapU 16 g) (wrapU 16 b) (wrapU 16 a)
  end.
Definition paneHistoryComparableStyle (s : Style) : paneHistoryStyleKey :=
  (paneHistoryComparableColor (Fg s), paneHistoryComparableColor (Bg s),
   paneHistoryComparableColor (UnderlineColor s), wrapU 8 (Underline s), Attrs s).

(** ** Writing *)

Definition writePaneHistoryUvarint (v : Z) : bytes := PutUvarint (wrapU 64 v).
Definition writePaneHistoryString (s : bytes) : bytes := writePaneHistoryUvarint (lenZ s) ++ s.
Definition writePaneHistoryUint16 (v : Z) : bytes := BigEndianPutUint16 v.

Definition writePaneHistoryRGBA64 (r g b a : Z) : bytes :=
  paneHistoryColorRGBA64 ::
  writePaneHistoryUint16 r ++ writePaneHistoryUint16 g ++ writePaneHistoryUint16 b ++ writePaneHistoryUint16 a.
Definition writePaneHistoryColor (c : Color) : bytes :=
  match c with
  | ColorNil => [paneHistoryColorNil]
  | BasicColor v => [paneHistoryColorBasic; wrapU 8 v]
  | IndexedColor v => [paneHistoryColorIndexed; wrapU 8 v]
  | RGBColor r g b => [paneHistoryColorRGB; r; g; b]
  | RGBA r g b a => [paneHistoryColorRGBA; r; g; b; a]
  | RGBA64 r g b a => writePaneHistoryRGBA64 r g b a
  | OtherColor r g b a => writePaneHistoryRGBA64 (wrapU 16 r) (wrapU 16 g) (wrapU 16 b) (wrapU 16 a)
  end.
Definition writePaneHistoryStyle (s : Style) : bytes :=
  writePaneHistoryColor (Fg s) ++ writePaneHistoryColor (Bg s) ++ writePaneHistoryColor (UnderlineColor s) ++
  [wrapU 8 (Underline s); Attrs s].

(** The table of the styles, in the order of their first cells, and the index of
    a key in it. *)
Definition styleTable : Type := list Style * gmap paneHistoryStyleKey Z.
Definition addStyle (t : styleTable) (c : Cell) : styleTable :=
  let '(styles, index) := t in
  let key := paneHistoryComparableStyle (CellStyle c) in
  match index !! key with
  | Some _ => t
  | None => (styles ++ [CellStyle c], <[key := lenZ styles]> index)
  end.
Definition paneHistoryStyleTable (lines : list StyledLine) : styleTable :=
  foldl (fun t line => foldl addStyle t (Cells line)) ([], ∅) lines.

(** Cells that are written as one. *)
Definition sameRun (cell current : Cell) (currentStyleKey : paneHistoryStyleKey) : bool :=
  bool_decide (Char cell = Char current) && (Width cell =? Width current) &&
  bool_decide (paneHistoryComparableStyle (CellStyle cell) = currentStyleKey).

Record paneHistoryCellRun := mkRun { count : Z; runCell : Cell }.
Fixpoint cellRuns (current : paneHistoryCellRun) (currentStyleKey : paneHistoryStyleKey) (cells : list Cell)
    : list paneHistoryCellRun :=
  match cells with
  | [] => [current]
  | cell :: cells =>
      let cellStyleKey := paneHistoryComparableStyle (CellStyle cell) in
      if sameRun cell (runCell current) currentStyleKey
      then cellRuns (mkRun (count current + 1) (runCell current)) currentStyleKey cells
      else current :: cellRuns (mkRun 1 cell) cellStyleKey cells
  end.
Definition paneHistoryCellRuns (cells : list Cell) : list paneHistoryCellRun :=
  match cells with
  | [] => []
  | c :: cells => cellRuns (mkRun 1 c) (paneHistoryComparableStyle (CellStyle c)) cells
  end.

Fixpoint cellRunCount (runCount : Z) (current : Cell) (currentStyleKey : paneHistoryStyleKey) (cells : list Cell) : Z :=
  match cells with
  | [] => runCount
  | cell :: cells =>
      if sameRun cell current currentStyleKey then cellRunCount runCount current currentStyleKey cells
      else cellRunCount (runCount + 1) cell (paneHistoryComparableStyle (CellStyle cell)) cells
  end.
Definition paneHistoryCellRunCount (cells : list Cell) : Z :=
  match cells with
  | [] => 0
  | c :: cells => cellRunCount 1 c (paneHistoryComparableStyle (CellStyle c)) cells
  end.

Definition writePaneHistoryCellRun (n : Z) (cell : Cell) (styleKey : paneHistoryStyleKey)
    (styleIndex : gmap paneHistoryStyleKey Z) : result WireError bytes :=
  if Width cell <? 0 then Err (NegativeWidth (Width cell))
  else Ok (writePaneHistoryUvarint n ++ writePaneHistoryString (Char cell) ++
           writePaneHistoryUvarint (Width cell) ++ writePaneHistoryUvarint (default 0 (styleIndex !! styleKey))).
Fixpoint writeCellRuns (n : Z) (current : Cell) (currentStyleKey : paneHistoryStyleKey) (cells : list Cell)
    (styleIndex : gmap paneHistoryStyleKey Z) : result WireError bytes :=
  match cells with
  | [] => writePaneHistoryCellRun n current currentStyleKey styleIndex
  | cell :: cells =>
      if sameRun cell current currentStyleKey then writeCellRuns (n + 1) current currentStyleKey cells styleIndex
      else
        try w <- writePaneHistoryCellRun n current currentStyleKey styleIndex;
        try runs <- writeCellRuns 1 cell (paneHistoryComparableStyle (CellStyle cell)) cells styleIndex;
        Ok (w ++ runs)
  end.
Definition writePaneHistoryCellRuns (cells : list Cell) (styleIndex : gmap paneHistoryStyleKey Z)
    : result WireError bytes :=
  let n := writePaneHistoryUvarint (paneHistoryCellRunCount cells) in
  match cells with
  | [] => Ok n
  | c :: cells =>
      try runs <- writeCellRuns 1 c (paneHistoryComparableStyle (CellStyle c)) cells styleIndex; Ok (n ++ runs)
  end.

Fixpoint cellsTextEqual (offset : nat) (text : bytes) (cells : list Cell) : bool :=
  match cells with
  | [] => (offset =? length text)%nat
  | cell :: cells =>
      if (length text <? offset)%nat then false
      else if hasPrefix (Char cell) (drop offset text) then cellsTextEqual (offset + length (Char cell)) text cells
      else false
  end.
Definition paneHistoryCellsTextEqual (text : bytes) (cells : list Cell) : bool := cellsTextEqual 0 text cells.
Definition paneHistoryCellsText (cells : list Cell) : bytes := cells ≫= Char.

Definition paneHistoryMatchesStyledText (history : list bytes) (styled : list StyledLine) : bool :=
  match history with
  | [] => false
  | _ => (length history =? length styled)%nat &&
         forallb (fun p => bool_decide (p.1 = Text p.2)) (zip history styled)
  end.

Definition paneHistoryFlagHistoryFromStyledText : Z := 1.
Definition paneHistoryLineFlagTextFromCells : Z := 1.
Definition paneHistoryLineFlagHasCells : Z := 2.

Definition lineFlagsOf (line : StyledLine) : Z :=
  match Cells line with
  | [] => 0
  | cells =>
      Z.lor paneHistoryLineFlagHasCells
        (if paneHistoryCellsTextEqual (Text line) cells then paneHistoryLineFlagTextFromCells else 0)
  end.
Definition hasFlag (flags flag : Z) : bool := negb (Z.land flags flag =? 0).
Definition writeStyledLine (styleIndex : gmap paneHistoryStyleKey Z) (line : StyledLine) : result WireError bytes :=
  let lineFlags := lineFlagsOf line in
  let text := if hasFlag lineFlags paneHistoryLineFlagTextFromCells then [] else writePaneHistoryString (Text line) in
  if hasFlag lineFlags paneHistoryLineFlagHasCells then
    try runs <- writePaneHistoryCellRuns (Cells line) styleIndex; Ok (lineFlags :: text ++ runs)
  else Ok (lineFlags :: text).
Fixpoint writeStyledLines (styleIndex : gmap paneHistoryStyleKey Z) (lines : list StyledLine) : result WireError bytes :=
  match lines with
  | [] => Ok []
  | line :: lines =>
      try b <- writeStyledLine styleIndex line; try bs <- writeStyledLines styleIndex lines; Ok (b ++ bs)
  end.

Definition encodePaneHistoryPayloadFresh (msg : History) : result WireError bytes :=
  let flags := if paneHistoryMatchesStyledText (hLines msg) (hStyled msg)
               then paneHistoryFlagHistoryFromStyledText else 0 in
  let '(styles, styleIndex) := paneHistoryStyleTable (hStyled msg) in
  try lines <- writeStyledLines styleIndex (hStyled msg);
  Ok (flags :: writePaneHistoryUvarint (lenZ (hLines msg)) ++ writePaneHistoryUvarint (lenZ (hStyled msg)) ++
      (if hasFlag flags paneHistoryFlagHistoryFromStyledText then [] else hLines msg ≫= writePaneHistoryString) ++
      writePaneHistoryUvarint (lenZ styles) ++ (styles ≫= writePaneHistoryStyle) ++ lines).

(** ** Reading *)

Definition maxPaneHistoryLineCells : Z := Z.shiftl 1 16.

Definition readPaneHistoryCount (payloadLen : Z) : R Z :=
  do n <- ReadUvarint; if payloadLen <? n then throw (CountTooLarge n) else ret n.
Definition readPaneHistoryRunLength (cellsRemaining : Z) : R Z :=
  do n <- ReadUvarint; if cellsRemaining <? n then throw (RunTooLong n) else ret n.
Definition readPaneHistoryString : R bytes :=
  do n <- ReadUvarint;
  do l <- remaining;
  if l <? n then throw ErrUnexpectedEOF else ReadFull (Z.to_nat n).

Definition readPaneHistoryColor : R Color :=
  do kind <- ReadByte;
  if kind =? paneHistoryColorNil then ret ColorNil
  else if kind =? paneHistoryColorBasic then (do v <- ReadByte; ret (BasicColor v))
  else if kind =? paneHistoryColorIndexed then (do v <- ReadByte; ret (IndexedColor v))
  else if kind =? paneHistoryColorRGB then
    (do l <- ReadFull 3; ret (RGBColor (nth 0 l 0) (nth 1 l 0) (nth 2 l 0)))
  else if kind =? paneHistoryColorRGBA then
    (do l <- ReadFull 4; ret (RGBA (nth 0 l 0) (nth 1 l 0) (nth 2 l 0) (nth 3 l 0)))
  else if kind =? paneHistoryColorRGBA64 then
    (do l <- ReadFull 8;
     ret (RGBA64 (bigEndian 0 (take 2 l)) (bigEndian 0 (take 2 (drop 2 l)))
            (bigEndian 0 (take 2 (drop 4 l))) (bigEndian 0 (take 2 (drop 6 l)))))
  else throw (UnknownColor kind).
Definition readPaneHistoryStyle : R Style :=
  do fg <- readPaneHistoryColor;
  do bg <- readPaneHistoryColor;
  do underlineColor <- readPaneHistoryColor;
  do underline <- ReadByte;
  do attrs <- ReadByte;
  ret (mkStyle fg bg underlineColor underline attrs).

(** One run of a line; the cells it stands for. *)
Definition readRun (styles : list Style) (payloadLen cellsRemaining : Z) : R (Z * list Cell) :=
  do runLen <- readPaneHistoryRunLength cellsRemaining;
  do char <- readPaneHistoryString;
  do width <- readPaneHistoryCount payloadLen;
  do styleIndex <- readPaneHistoryCount payloadLen;
  match styles !! Z.to_nat styleIndex with
  | None => throw (StyleIndexOutOfRange styleIndex (lenZ styles))
  | Some style => ret (cellsRemaining - runLen, replicate (Z.to_nat runLen) (mkCell char style width))
  end.
Fixpoint readRuns (styles : list Style) (payloadLen : Z) (runCount : nat) (cellsRemaining : Z) : R (list Cell) :=
  match runCount with
  | O => ret []
  | S runCount =>
      do '(cellsRemaining, cells) <- readRun styles payloadLen cellsRemaining;
      do rest <- readRuns styles payloadLen runCount cellsRemaining;
      ret (cells ++ rest)
  end.
Definition readStyledLine (styles : list Style) (payloadLen : Z) : R StyledLine :=
  do lineFlags <- ReadByte;
  do text <- (if hasFlag lineFlags paneHistoryLineFlagTextFromCells then ret [] else readPaneHistoryString);
  if hasFlag lineFlags paneHistoryLineFlagHasCells then
    do runCount <- readPaneHistoryCount payloadLen;
    do cells <- readRuns styles payloadLen (Z.to_nat runCount) maxPaneHistoryLineCells;
    ret (mkLine (if hasFlag lineFlags paneHistoryLineFlagTextFromCells then paneHistoryCellsText cells else text) cells)
  else ret (mkLine text []).

Definition decodePaneHistoryPayload (paneID payloadLen : Z) : R History :=
  do flags <- ReadByte;
  do historyCount <- readPaneHistoryCount payloadLen;
  do styledCount <- readPaneHistoryCount payloadLen;
  let fromStyled := hasFlag flags paneHistoryFlagHistoryFromStyledText in
  do history <-
    (if fromStyled then
       (if historyCount =? styledCount then ret [] else throw (CountMismatch historyCount styledCount))
     else readN (Z.to_nat historyCount) readPaneHistoryString);
  do styleCount <- readPaneHistoryCount payloadLen;
  do styles <- readN (Z.to_nat styleCount) readPaneHistoryStyle;
  do styledHistory <- readN (Z.to_nat styledCount) (readStyledLine styles payloadLen);
  ret (mkHistory paneID (if fromStyled then StyledLineText styledHistory else history) styledHistory).
