(* ===== verification/PaneHistoryFacts.v ===== *)
(** * The binary history encoding: what is read back *)

From S2P Require Import Prelude GoText GoWire PaneHistory.

(** ** Colours and styles *)

(** What is read back of a colour, a style, a cell, a line. *)
Definition normColor (c : Color) : Color :=
  match c with
  | BasicColor v => BasicColor (wrapU 8 v)
  | IndexedColor v => IndexedColor (wrapU 8 v)
  | RGBA64 r g b a | OtherColor r g b a => RGBA64 (wrapU 16 r) (wrapU 16 g) (wrapU 16 b) (wrapU 16 a)
  | c => c
  end.
Definition normStyle (s : Style) : Style :=
  mkStyle (normColor (Fg s)) (normColor (Bg s)) (normColor (UnderlineColor s)) (wrapU 8 (Underline s)) (Attrs s).
Definition normCell (c : Cell) : Cell := mkCell (Char c) (normStyle (CellStyle c)) (Width c).
Definition normLine (l : StyledLine) : StyledLine := mkLine (Text l) (normCell <$> Cells l).
Definition normHistory (h : History) : History := mkHistory (hPaneID h) (hLines h) (normLine <$> hStyled h).

Lemma wrapU_idem k n : wrapU k (wrapU k n) = wrapU k n.
Proof. unfold wrapU. destruct (decide (2 ^ k = 0)) as [->|]; [by rewrite !Z.mod_0_r|by apply Z.mod_mod]. Qed.
Lemma normColor_idem c : normColor (normColor c) = normColor c.
Proof. destruct c; simpl; by rewrite ?wrapU_idem. Qed.
Lemma normStyle_idem s : normStyle (normStyle s) = normStyle s.
Proof. unfold normStyle. simpl. by rewrite !normColor_idem, wrapU_idem. Qed.

(** The colour that a key stands for. *)
Definition keyColor (k : paneHistoryColorKey) : Color :=
  let '(kind, d) := k in let at16 i := bigEndian 0 (take 2 (drop i d)) in
  if kind =? 0 then ColorNil else if kind =? 1 then BasicColor (nth 0 d 0) else if kind =? 2 then IndexedColor (nth 0 d 0)
  else if kind =? 3 then RGBColor (nth 0 d 0) (nth 1 d 0) (nth 2 d 0)
  else if kind =? 4 then RGBA (nth 0 d 0) (nth 1 d 0) (nth 2 d 0) (nth 3 d 0)
  else RGBA64 (at16 0%nat) (at16 2%nat) (at16 4%nat) (at16 6%nat).
Definition keyStyle (k : paneHistoryStyleKey) : Style :=
  let '(fg, bg, uc, u, a) := k in mkStyle (keyColor fg) (keyColor bg) (keyColor uc) u a.

Lemma be16_fields r g b a :
  let l := BigEndianPutUint16 r ++ BigEndianPutUint16 g ++ BigEndianPutUint16 b ++ BigEndianPutUint16 a in
  RGBA64 (bigEndian 0 (take 2 l)) (bigEndian 0 (take 2 (drop 2 l))) (bigEndian 0 (take 2 (drop 4 l)))
    (bigEndian 0 (take 2 (drop 6 l))) =
  RGBA64 (wrapU 16 r) (wrapU 16 g) (wrapU 16 b) (wrapU 16 a) /\ pad8 l = l /\ length l = 8%nat.
Proof. split_and!; [|done..]. unfold wrapU. rewrite <- !bigEndian16. reflexivity. Qed.
Lemma keyColor_comparable c : keyColor (paneHistoryComparableColor c) = normColor c.
Proof.
  destruct c as [| | | | |r g b a|r g b a]; try reflexivity; cbn [paneHistoryComparableColor normColor];
    unfold paneHistoryComparableRGBA64, keyColor.
  - destruct (be16_fields r g b a) as (<- & -> & _). reflexivity.
  - destruct (be16_fields (wrapU 16 r) (wrapU 16 g) (wrapU 16 b) (wrapU 16 a)) as (H & -> & _).
    rewrite !wrapU_idem in H. rewrite <- H. reflexivity.
Qed.
Lemma keyStyle_comparable s : keyStyle (paneHistoryComparableStyle s) = normStyle s.
Proof. unfold keyStyle, paneHistoryComparableStyle, normStyle. by rewrite !keyColor_comparable. Qed.
Lemma comparable_norm s s' :
  paneHistoryComparableStyle s = paneHistoryComparableStyle s' -> normStyle s = normStyle s'.
Proof. intros H. by rewrite <- !keyStyle_comparable, H. Qed.

Lemma reads_Full' n l : n = length l -> reads (ReadFull n) l l.
Proof. intros ->. apply reads_Full. Qed.
Ltac color_kind :=
  eapply (reads_bind _ _ [_]); [apply reads_Byte|];
  cbv beta iota delta [paneHistoryColorNil paneHistoryColorBasic paneHistoryColorIndexed paneHistoryColorRGB
    paneHistoryColorRGBA paneHistoryColorRGBA64 Z.eqb Pos.eqb].

Lemma reads_RGBA64 r g b a :
  reads readPaneHistoryColor (writePaneHistoryRGBA64 r g b a) (RGBA64 (wrapU 16 r) (wrapU 16 g) (wrapU 16 b) (wrapU 16 a)).
Proof.
  color_kind. destruct (be16_fields r g b a) as (<- & _ & Hl).
  apply (reads_ret_bind _ (fun l => RGBA64 (bigEndian 0 (take 2 l)) (bigEndian 0 (take 2 (drop 2 l)))
           (bigEndian 0 (take 2 (drop 4 l))) (bigEndian 0 (take 2 (drop 6 l))))). by apply reads_Full'.
Qed.
Lemma reads_Color c : reads readPaneHistoryColor (writePaneHistoryColor c) (normColor c).
Proof.
  destruct c as [|v|v|r g b|r g b a|r g b a|r g b a]; cbn [writePaneHistoryColor normColor].
  - color_kind. apply reads_ret.
  - color_kind. apply (reads_ret_bind _ BasicColor). apply reads_Byte.
  - color_kind. apply (reads_ret_bind _ IndexedColor). apply reads_Byte.
  - color_kind. apply (reads_ret_bind _ (fun l => RGBColor (nth 0 l 0) (nth 1 l 0) (nth 2 l 0)) [r; g; b] [r; g; b]).
    by apply reads_Full'.
  - color_kind.
    apply (reads_ret_bind _ (fun l => RGBA (nth 0 l 0) (nth 1 l 0) (nth 2 l 0) (nth 3 l 0)) [r; g; b; a] [r; g; b; a]).
    by apply reads_Full'.
  - apply reads_RGBA64.
  - pose proof (reads_RGBA64 (wrapU 16 r) (wrapU 16 g) (wrapU 16 b) (wrapU 16 a)) as H. rewrite !wrapU_idem in H. exact H.
Qed.
Lemma reads_Style s : reads readPaneHistoryStyle (writePaneHistoryStyle s) (normStyle s).
Proof.
  unfold readPaneHistoryStyle, writePaneHistoryStyle.
  eapply reads_bind; [apply reads_Color|]. eapply reads_bind; [apply reads_Color|]. eapply reads_bind; [apply reads_Color|].
  eapply (reads_bind _ _ [_] [_]); [apply reads_Byte|].
  apply (reads_ret_bind _ (mkStyle (normColor (Fg s)) (normColor (Bg s)) (normColor (UnderlineColor s)) (wrapU 8 (Underline s)))).
  apply reads_Byte.
Qed.
Lemma writePaneHistoryColor_length c : (1 <= length (writePaneHistoryColor c))%nat.
Proof. destruct c; simpl; lia. Qed.
Lemma writePaneHistoryStyle_length s : (1 <= length (writePaneHistoryStyle s))%nat.
Proof. unfold writePaneHistoryStyle. rewrite length_app. pose proof (writePaneHistoryColor_length (Fg s)). lia. Qed.

(** ** The style table *)

(** An index points to a style with its key. *)
Definition tableOk (t : styleTable) : Prop :=
  forall key i, t.2 !! key = Some i ->
    0 <= i < lenZ t.1 /\ exists s, t.1 !! Z.to_nat i = Some s /\ paneHistoryComparableStyle s = key.
Definition keyOf (c : Cell) : paneHistoryStyleKey := paneHistoryComparableStyle (CellStyle c).
Definition inTable (t : styleTable) (c : Cell) : Prop := is_Some (t.2 !! keyOf c).

Lemma addStyle_ok t c :
  tableOk t -> tableOk (addStyle t c) /\ inTable (addStyle t c) c /\ forall c', inTable t c' -> inTable (addStyle t c) c'.
Proof.
  destruct t as [styles index]. intros Ht. unfold addStyle. fold (keyOf c).
  destruct (index !! keyOf c) as [i|] eqn:E; [split_and!; [done|by exists i|done]|]. split_and!.
  - intros key j. simpl. destruct (decide (key = keyOf c)) as [->|Hne].
    + rewrite lookup_insert_eq. intros [= <-]. unfold lenZ. rewrite length_app. simpl. split; [lia|].
      exists (CellStyle c). rewrite Nat2Z.id. split; [|done]. rewrite lookup_app_r by lia. by rewrite Nat.sub_diag.
    + rewrite lookup_insert_ne by done. intros Hj. destruct (Ht key j Hj) as (Hb & s & Hs & Hk). simpl in Hb, Hs.
      unfold lenZ in *. rewrite length_app. simpl. split; [lia|]. exists s. split; [|done]. by apply lookup_app_l_Some.
  - unfold inTable. simpl. rewrite lookup_insert_eq. by eexists.
  - intros c' [i Hi]. unfold inTable. simpl in *. destruct (decide (keyOf c' = keyOf c)) as [->|Hne].
    + rewrite lookup_insert_eq. by eexists.
    + rewrite lookup_insert_ne by done. by exists i.
Qed.
Lemma addStyles_ok t cells :
  tableOk t -> tableOk (foldl addStyle t cells) /\
  (forall c, c ∈ cells -> inTable (foldl addStyle t cells) c) /\
  forall c, inTable t c -> inTable (foldl addStyle t cells) c.
Proof.
  revert t. induction cells as [|c cells IH]; intros t Ht; cbn [foldl]; [set_solver|].
  destruct (addStyle_ok t c Ht) as (H1 & H2 & H3). destruct (IH _ H1) as (I1 & I2 & I3). split_and!; [done| |auto].
  intros c' [->|Hc']%elem_of_cons; auto.
Qed.
Lemma paneHistoryStyleTable_ok lines :
  let t := paneHistoryStyleTable lines in
  tableOk t /\ forall line c, line ∈ lines -> c ∈ Cells line -> inTable t c.
Proof.
  unfold paneHistoryStyleTable. assert (H0 : tableOk ([], ∅)) by (intros key i; simpl; by rewrite lookup_empty).
  revert H0. generalize (([], ∅) : styleTable).
  assert (H : forall t, tableOk t ->
            let t' := foldl (fun t line => foldl addStyle t (Cells line)) t lines in
            tableOk t' /\ (forall line c, line ∈ lines -> c ∈ Cells line -> inTable t' c) /\
            forall c, inTable t c -> inTable t' c).
  { induction lines as [|line lines IH]; intros t Ht; cbn [foldl]; [set_solver|].
    destruct (addStyles_ok t (Cells line) Ht) as (H1 & H2 & H3). destruct (IH _ H1) as (I1 & I2 & I3).
    split_and!; [done| |auto]. intros line' c [->|Hl]%elem_of_cons Hc; eauto. }
  intros t Ht. destruct (H t Ht) as (H1 & H2 & _). done.
Qed.

(** ** Runs *)

Lemma sameRun_norm cell current key :
  key = keyOf current -> sameRun cell current key = true -> normCell cell = normCell current.
Proof.
  unfold sameRun. intros ->. rewrite !andb_true_iff, !bool_decide_eq_true, Z.eqb_eq. intros [[Hc Hw] Hk].
  unfold normCell. by rewrite Hc, Hw, (comparable_norm _ _ Hk).
Qed.

(** The cells of runs, as they are read back. *)
Definition expandRuns (runs : list paneHistoryCellRun) : list Cell :=
  runs ≫= fun r => replicate (Z.to_nat (count r)) (normCell (runCell r)).

Lemma cellRuns_expand n current cells :
  0 <= n ->
  expandRuns (cellRuns (mkRun n current) (keyOf current) cells) =
  replicate (Z.to_nat n) (normCell current) ++ (normCell <$> cells).
Proof.
  revert n current. induction cells as [|cell cells IH]; intros n current Hn; cbn [cellRuns runCell count].
  - unfold expandRuns. simpl. by rewrite !app_nil_r.
  - fold (keyOf cell). destruct (sameRun cell current (keyOf current)) eqn:E.
    + rewrite IH by lia. rewrite fmap_cons, (sameRun_norm _ _ _ eq_refl E).
      replace (Z.to_nat (n + 1)) with (Z.to_nat n + 1)%nat by lia. rewrite replicate_add. by rewrite <- app_assoc.
    + unfold expandRuns in *. cbn [mbind list_bind count runCell]. f_equal. rewrite IH by lia. done.
Qed.
Lemma paneHistoryCellRuns_expand cells : expandRuns (paneHistoryCellRuns cells) = normCell <$> cells.
Proof. destruct cells as [|c cells]; [done|]. unfold paneHistoryCellRuns. by rewrite cellRuns_expand. Qed.

Lemma cellRuns_Forall (P : Cell -> Prop) n current key cells :
  1 <= n -> P current -> Forall P cells ->
  Forall (fun r => 1 <= count r /\ P (runCell r)) (cellRuns (mkRun n current) key cells).
Proof.
  revert n current key. induction cells as [|cell cells IH]; intros n current key Hn Hc Hf; cbn [cellRuns runCell count].
  - by repeat constructor.
  - inversion_clear Hf. destruct (sameRun cell current key); [apply IH; [lia|done..]|]. constructor; [done|].
    apply IH; [lia|done..].
Qed.
Lemma paneHistoryCellRuns_Forall (P : Cell -> Prop) cells :
  Forall P cells -> Forall (fun r => 1 <= count r /\ P (runCell r)) (paneHistoryCellRuns cells).
Proof. destruct 1 as [|c cells Hc Hf]; [done|]. apply cellRuns_Forall; [lia|done..]. Qed.

Lemma cellRunCount_spec k n current key cells :
  cellRunCount k current key cells = k - 1 + lenZ (cellRuns (mkRun n current) key cells).
Proof.
  revert k n current key. induction cells as [|cell cells IH]; intros k n current key; cbn [cellRuns cellRunCount runCell count].
  - unfold lenZ. simpl. lia.
  - destruct (sameRun cell current key); [apply IH|]. rewrite (IH _ 1). unfold lenZ. cbn [length]. lia.
Qed.
Lemma paneHistoryCellRunCount_spec cells : paneHistoryCellRunCount cells = lenZ (paneHistoryCellRuns cells).
Proof. destruct cells as [|c cells]; [done|]. unfold paneHistoryCellRunCount. rewrite (cellRunCount_spec 1 1). unfold paneHistoryCellRuns. lia. Qed.

(** A run as it is written. *)
Definition encRun (index : gmap paneHistoryStyleKey Z) (r : paneHistoryCellRun) : bytes :=
  writePaneHistoryUvarint (count r) ++ writePaneHistoryString (Char (runCell r)) ++
  writePaneHistoryUvarint (Width (runCell r)) ++ writePaneHistoryUvarint (default 0 (index !! keyOf (runCell r))).
Fixpoint negativeWidths (cells : list Cell) : list Z :=
  match cells with
  | [] => []
  | c :: cells => if Width c <? 0 then Width c :: negativeWidths cells else negativeWidths cells
  end.
Definition orNegative (w : list Z) (b : bytes) : result WireError bytes :=
  match w with [] => Ok b | w :: _ => Err (NegativeWidth w) end.

Lemma writeCellRuns_spec n current cells index :
  writeCellRuns n current (keyOf current) cells index =
  orNegative (negativeWidths (current :: cells)) (cellRuns (mkRun n current) (keyOf current) cells ≫= encRun index).
Proof.
  revert n current. induction cells as [|cell cells IH]; intros n current; cbn [writeCellRuns cellRuns runCell count].
  - unfold writePaneHistoryCellRun. simpl. destruct (Width current <? 0); simpl; [done|]. by rewrite app_nil_r.
  - destruct (sameRun cell current (keyOf current)) eqn:E.
    + rewrite IH. unfold sameRun in E. rewrite !andb_true_iff, Z.eqb_eq in E. destruct E as [[_ Ew] _].
      simpl. rewrite Ew. by destruct (Width current <? 0).
    + fold (keyOf cell). rewrite IH. unfold writePaneHistoryCellRun. cbn [negativeWidths].
      destruct (Width current <? 0); [done|]. simpl. by destruct (Width cell <? 0), (negativeWidths cells).
Qed.
Lemma writePaneHistoryCellRuns_spec cells index :
  writePaneHistoryCellRuns cells index =
  orNegative (negativeWidths cells)
    (writePaneHistoryUvarint (lenZ (paneHistoryCellRuns cells)) ++ (paneHistoryCellRuns cells ≫= encRun index)).
Proof.
  unfold writePaneHistoryCellRuns. cbv zeta. rewrite paneHistoryCellRunCount_spec. destruct cells as [|c cells].
  - done.
  - fold (keyOf c). rewrite writeCellRuns_spec. unfold paneHistoryCellRuns. fold (keyOf c). by destruct (negativeWidths _).
Qed.

(** ** Text *)

Lemma hasPrefix_app p l : hasPrefix p l = true -> l = p ++ drop (length p) l.
Proof.
  revert l. induction p as [|a p IH]; intros [|b l]; simpl; try done.
  rewrite andb_true_iff, Z.eqb_eq. intros [-> H]. by rewrite <- IH.
Qed.
Lemma cellsTextEqual_spec offset text cells :
  (offset <= length text)%nat -> cellsTextEqual offset text cells = true -> drop offset text = paneHistoryCellsText cells.
Proof.
  revert offset. induction cells as [|c cells IH]; intros offset Ho; cbn [cellsTextEqual].
  - rewrite Nat.eqb_eq. intros ->. by rewrite drop_all.
  - destruct (Nat.ltb_spec (length text) offset); [done|]. destruct (hasPrefix _ _) eqn:E; [|done]. intros Ht.
    apply hasPrefix_app in E. rewrite E. unfold paneHistoryCellsText. cbn [mbind list_bind]. f_equal.
    rewrite drop_drop. apply IH; [|done]. apply (f_equal length) in E. rewrite length_app, !length_drop in E. lia.
Qed.
Lemma hasPrefix_refl p l : hasPrefix p (p ++ l) = true.
Proof. induction p as [|a p IH]; simpl; [done|]. by rewrite Z.eqb_refl, IH. Qed.
Lemma cellsTextEqual_complete pre cells :
  cellsTextEqual (length pre) (pre ++ paneHistoryCellsText cells) cells = true.
Proof.
  revert pre. induction cells as [|c cells IH]; intros pre; cbn [cellsTextEqual].
  - unfold paneHistoryCellsText. simpl. by rewrite app_nil_r, Nat.eqb_refl.
  - rewrite length_app. destruct (Nat.ltb_spec (length pre + length (paneHistoryCellsText (c :: cells))) (length pre)); [lia|].
    rewrite drop_app_length. unfold paneHistoryCellsText. cbn [mbind list_bind]. rewrite hasPrefix_refl.
    specialize (IH (pre ++ Char c)). by rewrite length_app, <- app_assoc in IH.
Qed.
Lemma paneHistoryCellsTextEqual_spec text cells :
  paneHistoryCellsTextEqual text cells = true <-> text = paneHistoryCellsText cells.
Proof.
  split.
  - intros H. rewrite <- (cellsTextEqual_spec 0 text cells); [done|lia|done].
  - intros ->. apply (cellsTextEqual_complete []).
Qed.
Lemma cellsText_norm cells : paneHistoryCellsText (normCell <$> cells) = paneHistoryCellsText cells.
Proof. unfold paneHistoryCellsText. induction cells as [|c cells IH]; [done|]. cbn [fmap list_fmap mbind list_bind]. simpl in IH. by rewrite IH. Qed.
Lemma paneHistoryMatchesStyledText_spec history styled :
  paneHistoryMatchesStyledText history styled = true <-> history <> [] /\ history = StyledLineText styled.
Proof.
  assert (H : forall l styled, (length l =? length styled)%nat && forallb (fun p => bool_decide (p.1 = Text p.2)) (zip l styled) = true <->
            l = Text <$> styled).
  { clear. induction l as [|x l IH]; intros [|y styled]; simpl; try done. specialize (IH styled).
    rewrite !andb_true_iff in *. rewrite bool_decide_eq_true. naive_solver. }
  unfold paneHistoryMatchesStyledText, StyledLineText. destruct history as [|h history]; [naive_solver|].
  rewrite H. naive_solver.
Qed.

(** ** Reading a payload *)

Lemma lenZ_bind {A} (f : A -> bytes) l : Forall (fun x => 1 <= lenZ (f x)) l -> lenZ l <= lenZ (l ≫= f).
Proof.
  induction 1 as [|x l Hx _ IH]; [done|]. cbn [mbind list_bind]. rewrite lenZ_app. unfold lenZ in *. cbn [length]. lia.
Qed.
Lemma lenZ_uvarint v : 1 <= lenZ (writePaneHistoryUvarint v).
Proof. unfold writePaneHistoryUvarint, lenZ. pose proof (PutUvarint_length (wrapU 64 v)). lia. Qed.
Lemma lenZ_string s : 1 + lenZ s <= lenZ (writePaneHistoryString s).
Proof. unfold writePaneHistoryString. rewrite lenZ_app. pose proof (lenZ_uvarint (lenZ s)). lia. Qed.
Lemma lenZ_run index r : 4 + lenZ (Char (runCell r)) <= lenZ (encRun index r).
Proof.
  unfold encRun. rewrite !lenZ_app. pose proof (lenZ_string (Char (runCell r))).
  pose proof (lenZ_uvarint (count r)). pose proof (lenZ_uvarint (Width (runCell r))).
  pose proof (lenZ_uvarint (default 0 (index !! keyOf (runCell r)))). lia.
Qed.

Lemma reads_uvarint64 v : 0 <= v < 2 ^ 64 -> reads ReadUvarint (writePaneHistoryUvarint v) v.
Proof. intros Hv. unfold writePaneHistoryUvarint, wrapU. rewrite Z.mod_small by done. by apply reads_Uvarint. Qed.
Lemma reads_app_nil {A} (m : R A) l a : reads m (l ++ []) a -> reads m l a.
Proof. by rewrite app_nil_r. Qed.

Section Reading.
Context (pl : Z) (Hpl : 0 <= pl < 2 ^ 64).

Lemma reads_Count v : 0 <= v <= pl -> reads (readPaneHistoryCount pl) (writePaneHistoryUvarint v) v.
Proof.
  intros Hv. apply reads_app_nil. eapply reads_bind; [apply reads_uvarint64; lia|]. cbv beta.
  destruct (Z.ltb_spec pl v); [lia|apply reads_ret].
Qed.
Lemma reads_RunLength b v : 0 <= v < 2 ^ 64 -> v <= b -> reads (readPaneHistoryRunLength b) (writePaneHistoryUvarint v) v.
Proof.
  intros Hv Hb. apply reads_app_nil. eapply reads_bind; [by apply reads_uvarint64|]. cbv beta.
  destruct (Z.ltb_spec b v); [lia|apply reads_ret].
Qed.
Lemma reads_String s : lenZ s <= pl -> reads readPaneHistoryString (writePaneHistoryString s) s.
Proof.
  intros Hs. unfold readPaneHistoryString, writePaneHistoryString. pose proof (lenZ_nonneg s).
  eapply reads_bind; [apply reads_uvarint64; lia|]. intros rest. cbv beta. unfold bindM, remaining. cbn [left complete].
  rewrite lenZ_app. pose proof (lenZ_nonneg rest). destruct (Z.ltb_spec (lenZ s + lenZ rest) (lenZ s)); [lia|].
  unfold lenZ at 1. rewrite Nat2Z.id. apply reads_Full.
Qed.

Context (styles : list Style) (index : gmap paneHistoryStyleKey Z).
Hypothesis Htable : tableOk (styles, index).
Hypothesis Hstyles : lenZ styles <= pl.

(** A cell that can be read back. *)
Definition readable (c : Cell) : Prop := inTable (styles, index) c /\ 0 <= Width c <= pl.

Lemma reads_Run r b :
  readable (runCell r) -> 1 <= count r -> count r <= b < 2 ^ 64 -> lenZ (encRun index r) <= pl ->
  reads (readRun (normStyle <$> styles) pl b) (encRun index r)
    (b - count r, replicate (Z.to_nat (count r)) (normCell (runCell r))).
Proof.
  intros [[i Hi] Hw] Hc Hb Hl. pose proof (lenZ_run index r). pose proof (lenZ_nonneg (Char (runCell r))).
  unfold readRun, encRun. cbn [snd] in Hi. rewrite Hi. change (default 0 (Some i)) with i in *.
  destruct (Htable _ _ Hi) as (Hir & s & Hs & Hk). cbn [fst] in Hir, Hs.
  eapply reads_bind; [apply reads_RunLength; lia|]. eapply reads_bind; [apply reads_String; lia|].
  eapply reads_bind; [by apply reads_Count|]. apply reads_app_nil.
  eapply reads_bind; [apply reads_Count; lia|]. cbv beta. rewrite list_lookup_fmap, Hs. simpl.
  unfold normCell. rewrite <- (comparable_norm _ _ Hk). apply reads_ret.
Qed.

Definition totalCount (runs : list paneHistoryCellRun) : Z := sumZ (count <$> runs).
Lemma reads_Runs runs b :
  Forall (fun r => 1 <= count r /\ readable (runCell r)) runs -> totalCount runs <= b < 2 ^ 64 ->
  lenZ (runs ≫= encRun index) <= pl ->
  reads (readRuns (normStyle <$> styles) pl (length runs) b) (runs ≫= encRun index) (expandRuns runs).
Proof.
  intros Hf. revert b. induction Hf as [|r runs [Hc Hr] Hf IH]; intros b Hb Hl; [apply reads_ret|].
  cbn [length readRuns mbind list_bind]. cbn [mbind list_bind] in Hl. rewrite lenZ_app in Hl.
  pose proof (lenZ_nonneg (encRun index r)). pose proof (lenZ_nonneg (runs ≫= encRun index)).
  unfold totalCount in *. cbn [fmap list_fmap] in Hb. rewrite sumZ_cons in Hb.
  assert (0 <= sumZ (count <$> runs)).
  { clear -Hf. induction Hf as [|r runs [Hc _] _ IH]; [done|]. cbn [fmap list_fmap]. rewrite sumZ_cons. lia. }
  eapply reads_bind; [apply reads_Run; [done|lia..]|]. cbv beta iota.
  unfold expandRuns. cbn [mbind list_bind].
  apply (reads_ret_bind _ (fun rest => replicate (Z.to_nat (count r)) (normCell (runCell r)) ++ rest)). apply IH; lia.
Qed.

Lemma totalCount_cells cells :
  totalCount (paneHistoryCellRuns cells) = lenZ cells.
Proof.
  destruct cells as [|c cells]; [done|]. unfold paneHistoryCellRuns. change (paneHistoryComparableStyle (CellStyle c)) with (keyOf c).
  assert (H : forall n cur key, totalCount (cellRuns (mkRun n cur) key cells) = n + lenZ cells).
  { induction cells as [|x cells IH]; intros n cur key; cbn [cellRuns count runCell].
    - unfold totalCount, lenZ. simpl. rewrite sumZ_cons, sumZ_nil. simpl. lia.
    - destruct (sameRun _ _ _); [rewrite IH; unfold lenZ; cbn [length]; lia|].
      unfold totalCount in *. cbn [fmap list_fmap]. rewrite sumZ_cons, IH. unfold lenZ. cbn [length count]. lia. }
  rewrite H. unfold lenZ. cbn [length]. lia.
Qed.

Lemma negativeWidths_nil cells : negativeWidths cells = [] <-> Forall (fun c => 0 <= Width c) cells.
Proof.
  induction cells as [|c cells IH]; simpl; [by split|]. rewrite Forall_cons.
  destruct (Z.ltb_spec (Width c) 0); [|by rewrite IH; split; [|intros [_ ?]]]. split; [done|]. intros [? _]. lia.
Qed.

(** A line that can be read back. *)
Definition readableLine (line : StyledLine) : Prop :=
  lenZ (Cells line) <= maxPaneHistoryLineCells /\ Forall (fun c => Width c <= pl) (Cells line) /\
  Forall (inTable (styles, index)) (Cells line).

Lemma reads_StyledLine line w :
  readableLine line -> writeStyledLine index line = Ok w -> lenZ w <= pl ->
  reads (readStyledLine (normStyle <$> styles) pl) w (normLine line).
Proof.
  intros (Hn & Hw & Ht). unfold writeStyledLine, readStyledLine, lineFlagsOf. destruct (Cells line) as [|c cells] eqn:Ec.
  - cbv beta iota. simpl hasFlag. intros [= <-] Hl. change (0 :: writePaneHistoryString (Text line)) with ([0] ++ writePaneHistoryString (Text line)) in *.
    rewrite lenZ_app in Hl. pose proof (lenZ_string (Text line)). change (lenZ [0]) with 1 in Hl.
    eapply reads_bind; [apply reads_Byte|]. cbv beta. simpl hasFlag. cbv iota.
    unfold normLine. rewrite Ec. apply (reads_ret_bind _ (fun text => mkLine text [])). apply reads_String. lia.
  - rewrite <- Ec in *. set (flag := paneHistoryCellsTextEqual (Text line) (Cells line)).
    set (lf := Z.lor _ _). assert (hasFlag lf paneHistoryLineFlagHasCells = true) as H2 by (subst lf; by destruct flag).
    assert (hasFlag lf paneHistoryLineFlagTextFromCells = flag) as H1 by (subst lf; by destruct flag).
    cbv zeta. rewrite H1, H2, writePaneHistoryCellRuns_spec. destruct (negativeWidths (Cells line)) eqn:En; [|done].
    apply negativeWidths_nil in En. cbn [orNegative bindR]. intros [= <-].
    set (text := if flag then [] else writePaneHistoryString (Text line)). set (runs := paneHistoryCellRuns (Cells line)).
    change (lf :: ?l) with ([lf] ++ l). rewrite !lenZ_app. change (lenZ [lf]) with 1. intros Hl.
    pose proof (lenZ_nonneg text). pose proof (lenZ_uvarint (lenZ runs)). pose proof (lenZ_nonneg (runs ≫= encRun index)).
    assert (lenZ runs <= lenZ (runs ≫= encRun index)) as Hlr.
    { apply lenZ_bind. apply Forall_forall. intros r _. pose proof (lenZ_run index r).
      pose proof (lenZ_nonneg (Char (runCell r))). lia. }
    pose proof (lenZ_nonneg runs).
    eapply reads_bind; [apply reads_Byte|]. cbv beta. rewrite H1, H2.
    eapply (reads_bind _ _ text _ (if flag then [] else Text line)).
    { subst text. destruct flag; [apply reads_ret|]. apply reads_String. pose proof (lenZ_string (Text line)). lia. }
    eapply reads_bind; [apply reads_Count; lia|]. unfold lenZ at 1. rewrite Nat2Z.id.
    assert (mkLine (if flag then paneHistoryCellsText (expandRuns runs) else Text line) (expandRuns runs) = normLine line) as <-.
    { unfold normLine, runs. rewrite paneHistoryCellRuns_expand. f_equal. destruct flag eqn:Ef; [|done].
      subst flag. apply paneHistoryCellsTextEqual_spec in Ef. rewrite Ef. apply cellsText_norm. }
    assert (forall cs, mkLine (if flag then paneHistoryCellsText cs else if flag then [] else Text line) cs =
                  mkLine (if flag then paneHistoryCellsText cs else Text line) cs) as Hif by (by destruct flag).
    rewrite <- Hif. apply (reads_ret_bind _ (fun cs => mkLine (if flag then paneHistoryCellsText cs else if flag then [] else Text line) cs)).
    assert (totalCount runs = lenZ (Cells line)) as Htc by apply totalCount_cells.
    change maxPaneHistoryLineCells with 65536 in *. apply reads_Runs; [|lia|lia].
    apply paneHistoryCellRuns_Forall. rewrite Forall_forall in *. intros x Hx. split; [by apply Ht|]. split; [by apply En|by apply Hw].
Qed.
End Reading.

(** ** Payloads *)

(** The widths that are negative, in the order they are written. *)
Definition badWidths (lines : list StyledLine) : list Z := lines ≫= fun line => negativeWidths (Cells line).

Lemma writeStyledLine_spec index line :
  match negativeWidths (Cells line) with
  | [] => exists b, writeStyledLine index line = Ok b
  | w :: _ => writeStyledLine index line = Err (NegativeWidth w)
  end.
Proof.
  unfold writeStyledLine, lineFlagsOf. destruct (Cells line) as [|c cells] eqn:Ec; [by eexists|]. rewrite <- Ec.
  assert (hasFlag (Z.lor paneHistoryLineFlagHasCells (if paneHistoryCellsTextEqual (Text line) (Cells line) then paneHistoryLineFlagTextFromCells else 0))
            paneHistoryLineFlagHasCells = true) as H by by destruct (paneHistoryCellsTextEqual _ _).
  cbv zeta. rewrite H, writePaneHistoryCellRuns_spec. destruct (negativeWidths (Cells line)); [by eexists|done].
Qed.
Lemma writeStyledLines_spec index lines :
  match badWidths lines with
  | [] => exists b, writeStyledLines index lines = Ok b
  | w :: _ => writeStyledLines index lines = Err (NegativeWidth w)
  end.
Proof.
  induction lines as [|line lines IH]; [by eexists|]. unfold badWidths in *. cbn [mbind list_bind writeStyledLines].
  pose proof (writeStyledLine_spec index line) as H. destruct (negativeWidths (Cells line)) as [|w ws].
  - destruct H as [b ->]. cbn [app bindR]. destruct (lines ≫= _); [|by rewrite IH]. destruct IH as [bs ->]. by eexists.
  - by rewrite H.
Qed.

Lemma reads_StyledLines pl styles index lines w :
  0 <= pl < 2 ^ 64 -> tableOk (styles, index) -> lenZ styles <= pl ->
  Forall (readableLine pl styles index) lines -> writeStyledLines index lines = Ok w -> lenZ w <= pl ->
  reads (readN (length lines) (readStyledLine (normStyle <$> styles) pl)) w (normLine <$> lines) /\ lenZ lines <= lenZ w.
Proof.
  intros Hpl Ht Hs Hf. revert w. induction Hf as [|line lines Hline _ IH]; intros w; cbn [writeStyledLines].
  - intros [= <-] _. split; [apply reads_ret|done].
  - destruct (writeStyledLine index line) as [b|] eqn:Eb; [|done]. cbn [bindR].
    destruct (writeStyledLines index lines) as [bs|]; [|done]. cbn [bindR]. intros [= <-]. rewrite lenZ_app. intros Hl.
    pose proof (lenZ_nonneg b). pose proof (lenZ_nonneg bs). destruct (IH bs eq_refl ltac:(lia)) as [H1 H2]. split.
    + cbn [length readN fmap list_fmap]. eapply reads_bind; [eapply reads_StyledLine; eauto; lia|].
      apply (reads_ret_bind _ (fun r => normLine line :: r)). exact H1.
    + assert (1 <= lenZ b); [|rewrite lenZ_cons; lia]. unfold writeStyledLine in Eb.
      destruct (hasFlag (lineFlagsOf line) _); [destruct (writePaneHistoryCellRuns _ _); [|done]|];
        injection Eb as <-; rewrite lenZ_cons;
        match goal with |- 1 <= 1 + lenZ ?l => pose proof (lenZ_nonneg l) end; lia.
Qed.

Lemma reads_Strings pl l :
  0 <= pl < 2 ^ 64 -> lenZ (l ≫= writePaneHistoryString) <= pl ->
  reads (readN (length l) readPaneHistoryString) (l ≫= writePaneHistoryString) l.
Proof.
  intros Hpl. induction l as [|s l IH]; intros Hl; [apply reads_ret|].
  cbn [mbind list_bind length readN] in *. rewrite lenZ_app in Hl. pose proof (lenZ_string s).
  pose proof (lenZ_nonneg s). pose proof (lenZ_nonneg (l ≫= writePaneHistoryString)).
  eapply reads_bind; [apply (reads_String pl); lia|]. apply (reads_ret_bind _ (fun r => s :: r)). apply IH. simpl in *. lia.
Qed.
Lemma lenZ_strings l : lenZ l <= lenZ (l ≫= writePaneHistoryString).
Proof. apply lenZ_bind, Forall_forall. intros s _. pose proof (lenZ_string s). pose proof (lenZ_nonneg s). lia. Qed.
Lemma lenZ_styles l : lenZ l <= lenZ (l ≫= writePaneHistoryStyle).
Proof. apply lenZ_bind, Forall_forall. intros s _. pose proof (writePaneHistoryStyle_length s). unfold lenZ. lia. Qed.

(** A history that is read back: no line of more than 65536 cells, no width larger
    than the payload. *)
Definition wireable (payload : bytes) (lines : list StyledLine) : Prop :=
  Forall (fun line => lenZ (Cells line) <= maxPaneHistoryLineCells /\
                      Forall (fun c => Width c <= lenZ payload) (Cells line)) lines.

Lemma decode_encode paneID msg payload :
  encodePaneHistoryPayloadFresh msg = Ok payload -> lenZ payload < 2 ^ 64 -> wireable payload (hStyled msg) ->
  reads (decodePaneHistoryPayload paneID (lenZ payload)) payload (normHistory (mkHistory paneID (hLines msg) (hStyled msg))).
Proof.
  intros He Hlen Hw. unfold encodePaneHistoryPayloadFresh in He.
  pose proof (paneHistoryStyleTable_ok (hStyled msg)) as [Ht Hin].
  destruct (paneHistoryStyleTable (hStyled msg)) as [styles index].
  destruct (writeStyledLines index (hStyled msg)) as [w|] eqn:Ew; [|done]. cbn [bindR] in He. injection He as He.
  set (flag := paneHistoryMatchesStyledText (hLines msg) (hStyled msg)) in *.
  set (flags := if flag then paneHistoryFlagHistoryFromStyledText else 0) in *.
  assert (hasFlag flags paneHistoryFlagHistoryFromStyledText = flag) as Hflag by (subst flags; by destruct flag).
  rewrite Hflag in He. set (texts := if flag then [] else hLines msg ≫= writePaneHistoryString) in *.
  assert (Hl : lenZ payload = 1 + (lenZ (writePaneHistoryUvarint (lenZ (hLines msg))) + (lenZ (writePaneHistoryUvarint (lenZ (hStyled msg))) +
     (lenZ texts + (lenZ (writePaneHistoryUvarint (lenZ styles)) + (lenZ (styles ≫= writePaneHistoryStyle) + lenZ w)))))).
  { by rewrite <- He, lenZ_cons, !lenZ_app. }
  pose proof (lenZ_nonneg texts). pose proof (lenZ_uvarint (lenZ (hLines msg))). pose proof (lenZ_uvarint (lenZ (hStyled msg))).
  pose proof (lenZ_uvarint (lenZ styles)). pose proof (lenZ_nonneg (styles ≫= writePaneHistoryStyle)). pose proof (lenZ_nonneg w).
  pose proof (lenZ_nonneg (hLines msg)). pose proof (lenZ_nonneg (hStyled msg)). pose proof (lenZ_nonneg styles).
  pose proof (lenZ_styles styles) as Hst.
  destruct (reads_StyledLines (lenZ payload) styles index (hStyled msg) w) as [Hr Hn]; [lia|done|lia| |done|lia|].
  { unfold wireable in Hw. rewrite Forall_forall in *. intros line Hline. destruct (Hw line Hline) as [H1' H2'].
    split_and!; [done..|]. apply Forall_forall. intros c Hc. by eapply Hin. }
  assert (lenZ (hLines msg) <= lenZ payload) as Hh.
  { destruct flag eqn:Ef; subst flag.
    - apply paneHistoryMatchesStyledText_spec in Ef as [_ ->]. unfold StyledLineText, lenZ in *. rewrite length_fmap. lia.
    - pose proof (lenZ_strings (hLines msg)). subst texts. simpl in *. lia. }
  rewrite <- He at 2. unfold decodePaneHistoryPayload.
  change (flags :: ?l) with ([flags] ++ l). eapply reads_bind; [apply reads_Byte|]. cbv beta. rewrite Hflag. cbv zeta.
  eapply reads_bind; [apply reads_Count; lia|]. eapply reads_bind; [apply reads_Count; lia|].
  eapply (reads_bind _ _ texts _ (if flag then [] else hLines msg)).
  { destruct flag eqn:Ef; subst flag texts.
    - apply paneHistoryMatchesStyledText_spec in Ef as [_ ->]. unfold StyledLineText, lenZ.
      rewrite length_fmap, Z.eqb_refl. apply reads_ret.
    - unfold lenZ at 1. rewrite Nat2Z.id. apply (reads_Strings (lenZ payload)); lia. }
  cbv beta. eapply reads_bind; [apply reads_Count; lia|]. cbv beta. unfold lenZ at 1. rewrite Nat2Z.id.
  eapply reads_bind; [apply (reads_N _ writePaneHistoryStyle normStyle); apply Forall_forall; intros s _; apply reads_Style|].
  cbv beta. unfold lenZ at 1. rewrite Nat2Z.id.
  assert (normHistory (mkHistory paneID (hLines msg) (hStyled msg)) =
          mkHistory paneID (if flag then StyledLineText (normLine <$> hStyled msg) else if flag then [] else hLines msg) (normLine <$> hStyled msg)) as ->.
  { unfold normHistory. cbn [hPaneID hLines hStyled]. f_equal. destruct flag eqn:Ef; [|done]. subst flag.
    apply paneHistoryMatchesStyledText_spec in Ef as [_ ->]. unfold StyledLineText. by rewrite <- list_fmap_compose. }
  apply (reads_ret_bind _ (fun l => mkHistory paneID (if flag then StyledLineText l else if flag then [] else hLines msg) l)).
  exact Hr.
Qed.

Lemma encode_errors msg :
  match badWidths (hStyled msg) with
  | [] => exists payload, encodePaneHistoryPayloadFresh msg = Ok payload
  | w :: _ => encodePaneHistoryPayloadFresh msg = Err (NegativeWidth w)
  end.
Proof.
  unfold encodePaneHistoryPayloadFresh. destruct (paneHistoryStyleTable (hStyled msg)) as [styles index].
  pose proof (writeStyledLines_spec index (hStyled msg)) as H. destruct (badWidths (hStyled msg)).
  - destruct H as [b ->]. by eexists.
  - by rewrite H.
Qed.
