(* ===== verification/Wire.v ===== *)
(** * Messages on a connection (internal/proto/wire.go, wire_pane_history.go)

    A frame starts with a byte that says how the rest is encoded: a compact frame
    for a pane's output, one for its history (when both ends agreed on it), gob for
    everything else.  encoding/gob is an interface ([Gob]); what the code relies on
    is [GobLaws]. *)

From S2P Require Import Prelude GoText GoWire PaneHistory PaneHistoryFacts.

(** ** Messages *)

Definition MsgTypePaneOutput : Z := 15.
Definition MsgTypePaneHistory : Z := 25.

(** The fields that the compact frames carry; [others] are the rest. *)
Record Message (X : Type) := mkMessage {
  mType : Z; PaneID : Z; PaneData : bytes; SourceEpoch : Z;
  mHistory : list bytes; StyledHistory : list StyledLine; others : X }.
Arguments mkMessage {X} _ _ _ _ _ _ _.
Arguments mType {X} _.
Arguments PaneID {X} _.
Arguments PaneData {X} _.
Arguments SourceEpoch {X} _.
Arguments mHistory {X} _.
Arguments StyledHistory {X} _.
Arguments others {X} _.
#[export] Instance Message_eq_dec {X} `{EqDecision X} : EqDecision (Message X).
Proof. solve_decision. Defined.
Definition historyOf {X} (m : Message X) : History := mkHistory (PaneID m) (mHistory m) (StyledHistory m).

(** ** The cache of encoded histories *)

(** [valid] and [payload] are the option. *)
Record PaneHistoryPayloadCache := mkCache {
  version : Z; payload : option bytes;
  chunkPayloads : gmap (Z * Z) bytes; chunkPlans : gmap Z (list (Z * Z)) }.
Definition emptyCache : PaneHistoryPayloadCache := mkCache 0 None ∅ ∅.

(** The metadata of a message: the version of the content, and the range of lines
    that it has when it is a chunk.  A message without has no cache. *)
Definition cacheRef : Type := option (Z * option (Z * Z)).

Definition cacheGet (v : Z) (c : PaneHistoryPayloadCache) : option bytes :=
  if version c =? v then payload c else None.
Definition getChunkPayload (v : Z) (r : Z * Z) (c : PaneHistoryPayloadCache) : option bytes :=
  if version c =? v then chunkPayloads c !! r else None.
Definition PayloadLen (v : Z) (c : PaneHistoryPayloadCache) : option Z := lenZ <$> cacheGet v c.
Definition ChunkPlan (v maxChunkSize : Z) (c : PaneHistoryPayloadCache) : option (list (Z * Z)) :=
  if version c =? v then chunkPlans c !! maxChunkSize else None.
Definition resetForVersionLocked (v : Z) (c : PaneHistoryPayloadCache) : PaneHistoryPayloadCache :=
  if version c =? v then c else mkCache v None ∅ ∅.
Definition StoreChunkPlan (v maxChunkSize : Z) (chunks : list (Z * Z)) (c : PaneHistoryPayloadCache) : PaneHistoryPayloadCache :=
  let c := resetForVersionLocked v c in
  mkCache (version c) (payload c) (chunkPayloads c) (<[maxChunkSize := chunks]> (chunkPlans c)).
Definition cacheStore (v : Z) (p : bytes) (c : PaneHistoryPayloadCache) : PaneHistoryPayloadCache :=
  let c := resetForVersionLocked v c in mkCache (version c) (Some p) (chunkPayloads c) (chunkPlans c).
Definition storeChunkPayload (v : Z) (r : Z * Z) (p : bytes) (c : PaneHistoryPayloadCache) : PaneHistoryPayloadCache :=
  let c := resetForVersionLocked v c in
  mkCache (version c) (payload c) (<[r := p]> (chunkPayloads c)) (chunkPlans c).

Definition encodePaneHistoryPayload (ref : cacheRef) (msg : History) : M PaneHistoryPayloadCache WireError bytes :=
  match ref with
  | None => lift (encodePaneHistoryPayloadFresh msg)
  | Some (v, range) =>
      do c <- get;
      match (match range with Some r => getChunkPayload v r c | None => cacheGet v c end) with
      | Some p => ret p
      | None =>
          do p <- lift (encodePaneHistoryPayloadFresh msg);
          run modify (match range with Some r => storeChunkPayload v r p | None => cacheStore v p end);
          ret p
      end
  end.

(** ** encoding/gob *)

(** An encoder and a decoder have state (the types already sent).  Encode gives
    the bytes of a message or fails; Decode takes a message off what is buffered. *)
Class Gob (X : Type) := {
  Enc : Type; Dec : Type; newEnc : Enc; newDec : Dec;
  gobEncode : Enc -> Message X -> Enc * option bytes;
  gobDecode : Dec -> bytes -> Dec * bytes * option (Message X) }.

(** A decoder that is given what an encoder wrote, message by message, returns
    what the encoder was given. *)
Class GobLaws (X : Type) `{Gob X} := {
  paired : Enc -> Dec -> Prop;
  paired_new : paired newEnc newDec;
  paired_message e d m e' p : paired e d -> gobEncode e m = (e', Some p) ->
    exists d', gobDecode d p = (d', [], Some m) /\ paired e' d' }.

(** ** Frames *)

Definition maxMessageSize : Z := 16 * 1024 * 1024.
Definition wireFormatGob : Z := 0x00.
Definition wireFormatBinary : Z := 0x01.
Definition wireFormatPaneHistory : Z := 0x02.

Section Wire.
Context {X : Type} `{Gob X} (zero : X).

Record Writer := mkWriter { gobEnc : Enc; binaryPaneHistory : bool }.
Definition NewWriter : Writer := mkWriter newEnc false.
Definition SetBinaryPaneHistory (enabled : bool) (w : Writer) : Writer := mkWriter (gobEnc w) enabled.
Definition setGobEnc (e : Enc) (w : Writer) : Writer := mkWriter e (binaryPaneHistory w).

(** A writer's connection and the pane's cache. *)
Abbreviation W := (M (Writer * PaneHistoryPayloadCache) WireError).

Definition isCompactOutput (msg : Message X) : bool := (mType msg =? MsgTypePaneOutput) && (SourceEpoch msg =? 0).

Definition writePaneOutputBinary (msg : Message X) : bytes :=
  wireFormatBinary :: BigEndianPutUint32 (PaneID msg) ++ BigEndianPutUint32 (lenZ (PaneData msg)) ++ PaneData msg.
Definition writePaneHistoryBinary (paneID : Z) (payload : bytes) : bytes :=
  wireFormatPaneHistory :: BigEndianPutUint32 paneID ++ BigEndianPutUint32 (lenZ payload) ++ payload.
Definition writeGobFrame (payload : bytes) : bytes :=
  wireFormatGob :: BigEndianPutUint32 (lenZ payload) ++ payload.

(** The bytes of a message; the connection takes them. *)
Definition writerWriteMsg (ref : cacheRef) (msg : Message X) : W bytes := fun '(w, c) =>
  if isCompactOutput msg then ((w, c), Ok (writePaneOutputBinary msg))
  else if (mType msg =? MsgTypePaneHistory) && binaryPaneHistory w then
    match encodePaneHistoryPayload ref (historyOf msg) c with
    | (c, Ok p) => ((w, c), Ok (writePaneHistoryBinary (PaneID msg) p))
    | (c, Err e) => ((w, c), Err e)
    end
  else
    match gobEncode (gobEnc w) msg with
    | (e, Some p) => ((setGobEnc e w, c), Ok (writeGobFrame p))
    | (e, None) => ((setGobEnc e w, c), Err EncodingFailed)
    end.

(** WriteMsg without a Writer: a new encoder for each message. *)
Definition WriteMsg (msg : Message X) : result WireError bytes :=
  if isCompactOutput msg then Ok (writePaneOutputBinary msg)
  else match (gobEncode newEnc msg).2 with Some p => Ok (writeGobFrame p) | None => Err EncodingFailed end.

(** ** Reading frames *)

(** Reading a history goes through a bufio.Reader; how much it has taken from the
    connection when the payload is refused is [afterError]. *)
Context (afterError : bytes -> bytes).

Definition uint32Of (l : bytes) : Z := bigEndian 0 l.

Definition readPaneOutputBinary : R (Message X) :=
  do hdr <- ReadFull 8;
  let dataLen := uint32Of (drop 4 hdr) in
  if maxMessageSize <? dataLen then throw (MessageTooLarge dataLen)
  else
    do data <- ReadFull (Z.to_nat dataLen);
    ret (mkMessage MsgTypePaneOutput (uint32Of (take 4 hdr)) data 0 [] [] zero).

Definition historyMessage (h : History) : Message X :=
  mkMessage MsgTypePaneHistory (hPaneID h) [] 0 (hLines h) (hStyled h) zero.
Definition readPaneHistoryBinary : R (Message X) :=
  do hdr <- ReadFull 8;
  let payloadLen := uint32Of (drop 4 hdr) in
  if maxMessageSize <? payloadLen then throw (MessageTooLarge payloadLen)
  else fun src =>
    let n := Z.to_nat payloadLen in
    match decodePaneHistoryPayload (uint32Of (take 4 hdr)) payloadLen (mkReader (take n (avail src)) payloadLen) with
    | (pr, Ok h) =>
        let src := complete (drop n (avail src)) in
        if left pr =? 0 then (src, Ok (historyMessage h)) else (src, Err (TrailingBytes (left pr)))
    | (_, Err e) => (complete (afterError (avail src)), Err e)
    end.

Definition readGobPayload : R bytes :=
  do lenBuf <- ReadFull 4;
  let length := uint32Of lenBuf in
  if maxMessageSize <? length then throw (MessageTooLarge length) else ReadFull (Z.to_nat length).

Record Reader := mkRd { gobBuf : bytes; gobDec : Dec }.
Definition NewReader : Reader := mkRd [] newDec.

(** A reader and its connection. *)
Abbreviation Rd := (M (Reader * reader) WireError).
Definition onSource {A} (m : R A) : Rd A := fun '(r, src) => let '(src, a) := m src in ((r, src), a).

Definition readerReadMsgGob : Rd (Message X) :=
  do data <- onSource readGobPayload;
  fun '(r, src) =>
    let '(d, rest, msg) := gobDecode (gobDec r) (gobBuf r ++ data) in
    ((mkRd rest d, src), match msg with Some m => Ok m | None => Err DecodingFailed end).
Definition readerReadMsg : Rd (Message X) :=
  do disc <- onSource (ReadFull 1);
  let disc := nth 0 disc 0 in
  if disc =? wireFormatBinary then onSource readPaneOutputBinary
  else if disc =? wireFormatPaneHistory then onSource readPaneHistoryBinary
  else readerReadMsgGob.

(** ReadMsg without a Reader: a new decoder on at most [length] bytes of the
    connection, and what it leaves of them is discarded. *)
Definition readMsgGob : R (Message X) :=
  do lenBuf <- ReadFull 4;
  let length := uint32Of lenBuf in
  if maxMessageSize <? length then throw (MessageTooLarge length)
  else fun src =>
    let n := Z.to_nat length in
    let '(_, _, msg) := gobDecode newDec (take n (avail src)) in
    match msg with
    | Some m => (complete (drop n (avail src)), Ok m)
    | None => (complete (afterError (avail src)), Err DecodingFailed)
    end.
Definition ReadMsg : R (Message X) :=
  do disc <- ReadFull 1;
  let disc := nth 0 disc 0 in
  if disc =? wireFormatBinary then readPaneOutputBinary
  else if disc =? wireFormatPaneHistory then readPaneHistoryBinary
  else readMsgGob.

(** ** A connection's messages *)

Fixpoint writeAll (msgs : list (cacheRef * Message X)) : W (list bytes) :=
  match msgs with
  | [] => ret []
  | (ref, msg) :: msgs =>
      do frame <- writerWriteMsg ref msg;
      do frames <- writeAll msgs;
      ret (frame :: frames)
  end.
Fixpoint readAll (n : nat) : Rd (list (Message X)) :=
  match n with
  | O => ret []
  | S n => do msg <- readerReadMsg; do msgs <- readAll n; ret (msg :: msgs)
  end.
End Wire.
