(* ===== verification/WireFacts.v ===== *)
(** * Messages on a connection: the cache and the frames *)

From S2P Require Import Prelude GoText GoWire PaneHistory PaneHistoryFacts Wire.

(** ** The cache *)

(** The message for some lines, and the lines from [a] to [b]. *)
Definition ofLines (lines : list StyledLine) : History := mkHistory 0 (StyledLineText lines) lines.
Definition subslice {A} (a b : Z) (l : list A) : list A := take (Z.to_nat b - Z.to_nat a) (drop (Z.to_nat a) l).

Definition chunkFits (maxChunkSize : Z) (lines : list StyledLine) : Prop :=
  exists p, encodePaneHistoryPayloadFresh (ofLines lines) = Ok p /\ lenZ p + 9 <= maxChunkSize.
Fixpoint consecutive (start : Z) (chunks : list (Z * Z)) (stop : Z) : Prop :=
  match chunks with
  | [] => start = stop
  | (a, b) :: chunks => a = start /\ a < b /\ consecutive b chunks stop
  end.
(** A plan: all lines in order, and a chunk fits or is a single line. *)
Definition planOk (maxChunkSize : Z) (lines : list StyledLine) (chunks : list (Z * Z)) : Prop :=
  consecutive 0 chunks (lenZ lines) /\
  Forall (fun r => chunkFits maxChunkSize (subslice r.1 r.2 lines) \/ r.2 = r.1 + 1) chunks.

Section Cache.
(** The lines of the pane in each version of its content. *)
Context (contents : Z -> list StyledLine).

Definition cacheOk (c : PaneHistoryPayloadCache) : Prop :=
  (forall p, payload c = Some p -> encodePaneHistoryPayloadFresh (ofLines (contents (version c))) = Ok p) /\
  (forall a b p, chunkPayloads c !! (a, b) = Some p ->
     encodePaneHistoryPayloadFresh (ofLines (subslice a b (contents (version c)))) = Ok p) /\
  (forall n chunks, chunkPlans c !! n = Some chunks -> planOk n (contents (version c)) chunks).

(** The lines that a message's metadata stands for are the message's. *)
Definition refLines (ref : Z * option (Z * Z)) : list StyledLine :=
  match ref with (v, None) => contents v | (v, Some (a, b)) => subslice a b (contents v) end.
Definition agrees (ref : cacheRef) (msg : History) : Prop :=
  match ref with
  | None => True
  | Some r => hLines msg = StyledLineText (refLines r) /\ hStyled msg = refLines r
  end.

Lemma emptyCache_ok : cacheOk emptyCache.
Proof. unfold emptyCache. split_and!; simpl; [done| |]; intros *; by rewrite lookup_empty. Qed.
Lemma reset_ok v c : cacheOk c -> cacheOk (resetForVersionLocked v c) /\ version (resetForVersionLocked v c) = v.
Proof.
  intros Hc. unfold resetForVersionLocked. destruct (Z.eqb_spec (version c) v); [done|]. split; [|done].
  split_and!; simpl; [done| |]; intros *; by rewrite lookup_empty.
Qed.
Lemma encodeFresh_agrees r msg : agrees (Some r) msg ->
  encodePaneHistoryPayloadFresh msg = encodePaneHistoryPayloadFresh (ofLines (refLines r)).
Proof. intros [H1 H2]. unfold encodePaneHistoryPayloadFresh, ofLines. by rewrite H1, H2. Qed.

Lemma cacheStore_ok v p c :
  cacheOk c -> encodePaneHistoryPayloadFresh (ofLines (contents v)) = Ok p -> cacheOk (cacheStore v p c).
Proof.
  intros Hc He. destruct (reset_ok v c Hc) as [(H1 & H2 & H3) Hv]. unfold cacheStore. split_and!; simpl; [|done..].
  intros p' [= <-]. by rewrite Hv.
Qed.
Lemma storeChunkPayload_ok v a b p c :
  cacheOk c -> encodePaneHistoryPayloadFresh (ofLines (subslice a b (contents v))) = Ok p ->
  cacheOk (storeChunkPayload v (a, b) p c).
Proof.
  intros Hc He. destruct (reset_ok v c Hc) as [(H1 & H2 & H3) Hv]. unfold storeChunkPayload. split_and!; simpl; [done| |done].
  intros a' b' p'. destruct (decide ((a', b') = (a, b))) as [[= -> ->]|Hne].
  - rewrite lookup_insert_eq. intros [= <-]. by rewrite Hv.
  - rewrite lookup_insert_ne by done. apply H2.
Qed.
Lemma StoreChunkPlan_ok v n chunks c :
  cacheOk c -> planOk n (contents v) chunks -> cacheOk (StoreChunkPlan v n chunks c).
Proof.
  intros Hc Hp. destruct (reset_ok v c Hc) as [(H1 & H2 & H3) Hv]. unfold StoreChunkPlan. split_and!; simpl; [done..|].
  intros n' chunks'. destruct (decide (n' = n)) as [->|Hne].
  - rewrite lookup_insert_eq. intros [= <-]. by rewrite Hv.
  - rewrite lookup_insert_ne by done. apply H3.
Qed.

Lemma cached_lookup v range c p :
  cacheOk c -> (match range with Some r => getChunkPayload v r c | None => cacheGet v c end) = Some p ->
  encodePaneHistoryPayloadFresh (ofLines (refLines (v, range))) = Ok p.
Proof.
  intros (H1 & H2 & _). unfold getChunkPayload, cacheGet, refLines.
  destruct range as [[a b]|]; destruct (Z.eqb_spec (version c) v) as [<-|]; try done; auto.
Qed.
Lemma encode_cached ref msg c :
  cacheOk c -> agrees ref msg ->
  cacheOk (encodePaneHistoryPayload ref msg c).1 /\ (encodePaneHistoryPayload ref msg c).2 = encodePaneHistoryPayloadFresh msg.
Proof.
  intros Hc Ha. unfold encodePaneHistoryPayload. destruct ref as [[v range]|]; [|done].
  rewrite (encodeFresh_agrees _ _ Ha). unfold bindM, get, lift, modify, ret.
  destruct (match range with Some r => getChunkPayload v r c | None => cacheGet v c end) as [p|] eqn:E.
  - split; [done|]. by rewrite (cached_lookup _ _ _ _ Hc E).
  - destruct (encodePaneHistoryPayloadFresh (ofLines (refLines (v, range)))) as [p|e] eqn:Ep; [|done]. split; [|done].
    destruct range as [[a b]|]; simpl; [by apply storeChunkPayload_ok|by apply cacheStore_ok].
Qed.
End Cache.

(** ** Frames *)

Section Frames.
Context {X : Type} `{GobLaws X} (zero : X) (afterError : bytes -> bytes).

(** What the other end gets of a message: a compact frame carries its own fields. *)
Definition delivered (binary : bool) (msg : Message X) : Message X :=
  if isCompactOutput msg then mkMessage MsgTypePaneOutput (PaneID msg) (PaneData msg) 0 [] [] zero
  else if (mType msg =? MsgTypePaneHistory) && binary then historyMessage zero (normHistory (historyOf msg))
  else msg.

(** A message the other end can read: its pane ID is a uint32 and its lines are
    within the limits of the reader. *)
Definition sendable (msg : Message X) : Prop :=
  0 <= PaneID msg < 2 ^ 32 /\
  forall p, encodePaneHistoryPayloadFresh (historyOf msg) = Ok p -> wireable p (StyledHistory msg).

Lemma be32_length n : length (BigEndianPutUint32 n) = 4%nat.
Proof. done. Qed.
Lemma uint32Of_be n : 0 <= n < 2 ^ 32 -> uint32Of (BigEndianPutUint32 n) = n.
Proof. intros Hn. unfold uint32Of. by rewrite bigEndian32, Z.mod_small. Qed.
Lemma header_fields a b :
  0 <= a < 2 ^ 32 -> 0 <= b < 2 ^ 32 ->
  let hdr := BigEndianPutUint32 a ++ BigEndianPutUint32 b in
  length hdr = 8%nat /\ uint32Of (take 4 hdr) = a /\ uint32Of (drop 4 hdr) = b.
Proof.
  intros Ha Hb. cbv zeta. rewrite length_app, take_app_le, drop_app_ge by done.
  rewrite be32_length, Nat.sub_diag, drop_0. change (take 4 (BigEndianPutUint32 a)) with (BigEndianPutUint32 a).
  by rewrite !uint32Of_be.
Qed.

Lemma reads_PaneOutput msg :
  isCompactOutput msg = true -> 0 <= PaneID msg < 2 ^ 32 -> lenZ (PaneData msg) <= maxMessageSize ->
  reads (readPaneOutputBinary zero) (drop 1 (writePaneOutputBinary msg)) (delivered false msg).
Proof.
  intros Hc Hp Hl. unfold writePaneOutputBinary, readPaneOutputBinary. cbn [drop]. rewrite app_assoc. pose proof (lenZ_nonneg (PaneData msg)).
  destruct (header_fields (PaneID msg) (lenZ (PaneData msg)) Hp) as (H8 & H4 & Hd); [unfold maxMessageSize in Hl; lia|].
  eapply reads_bind; [by apply reads_Full'|]. cbv zeta. rewrite H4, Hd. destruct (Z.ltb_spec maxMessageSize (lenZ (PaneData msg))); [lia|].
  unfold delivered. rewrite Hc.
  apply (reads_ret_bind _ (fun data => mkMessage MsgTypePaneOutput (PaneID msg) data 0 [] [] zero)).
  apply reads_Full'. unfold lenZ. by rewrite Nat2Z.id.
Qed.

Lemma reads_PaneHistory msg p :
  sendable msg -> encodePaneHistoryPayloadFresh (historyOf msg) = Ok p -> lenZ p <= maxMessageSize ->
  reads (readPaneHistoryBinary zero afterError) (drop 1 (writePaneHistoryBinary (PaneID msg) p))
    (historyMessage zero (normHistory (historyOf msg))).
Proof.
  intros [Hp Hw] He Hl. unfold writePaneHistoryBinary, readPaneHistoryBinary. cbn [drop]. rewrite app_assoc. pose proof (lenZ_nonneg p).
  unfold maxMessageSize in *. destruct (header_fields (PaneID msg) (lenZ p) Hp) as (H8 & H4 & Hd); [lia|].
  eapply reads_bind; [by apply reads_Full'|]. cbv zeta. rewrite H4, Hd. destruct (Z.ltb_spec (16 * 1024 * 1024) (lenZ p)); [lia|].
  intros rest. assert (Z.to_nat (lenZ p) = length p) as -> by (unfold lenZ; lia). cbn [avail complete].
  rewrite take_app_length, drop_app_length. pose proof (decode_encode (PaneID msg) (historyOf msg) p He ltac:(lia) (Hw p He) []) as Hdec.
  rewrite app_nil_r in Hdec. unfold complete at 1 in Hdec. rewrite Hdec. done.
Qed.

Lemma reads_GobPayload p : lenZ p <= maxMessageSize -> reads readGobPayload (drop 1 (writeGobFrame p)) p.
Proof.
  intros Hl. unfold writeGobFrame, readGobPayload. cbn [drop]. pose proof (lenZ_nonneg p). unfold maxMessageSize in *.
  eapply reads_bind; [by apply reads_Full'|]. cbv zeta. rewrite uint32Of_be by lia.
  destruct (Z.ltb_spec (16 * 1024 * 1024) (lenZ p)); [lia|]. apply reads_Full'. unfold lenZ. by rewrite Nat2Z.id.
Qed.

(** The two ends agree: the decoder has read what the encoder wrote. *)
Definition inSync (w : Writer) (r : Reader) : Prop := gobBuf r = [] /\ paired (gobEnc w) (gobDec r).

Lemma onSource_reads {A} (m : R A) l a rest (r : Reader) :
  reads m l a -> onSource m (r, complete (l ++ rest)) = ((r, complete rest), Ok a).
Proof. intros Hm. unfold onSource. by rewrite Hm. Qed.
Lemma frame_disc (b : Z) l rest (r : Reader) :
  onSource (ReadFull 1) (r, complete ((b :: l) ++ rest)) = ((r, complete (l ++ rest)), Ok [b]).
Proof. by apply (onSource_reads (ReadFull 1) [b] [b]), reads_Full'. Qed.

Lemma frame_length b (l1 l2 l3 : bytes) n : lenZ (b :: l1 ++ l2 ++ l3) <= n -> lenZ l3 <= n.
Proof. rewrite lenZ_cons, !lenZ_app. pose proof (lenZ_nonneg l1). pose proof (lenZ_nonneg l2). lia. Qed.

Lemma write_read contents ref msg w c w' c' frame r rest :
  cacheOk contents c -> agrees contents ref (historyOf msg) -> inSync w r -> sendable msg ->
  writerWriteMsg ref msg (w, c) = ((w', c'), Ok frame) -> lenZ frame <= maxMessageSize ->
  cacheOk contents c' /\ binaryPaneHistory w' = binaryPaneHistory w /\
  exists r', inSync w' r' /\
    readerReadMsg zero afterError (r, complete (frame ++ rest)) =
    ((r', complete rest), Ok (delivered (binaryPaneHistory w) msg)).
Proof.
  intros Hc Ha Hs Hm Hw Hl. unfold writerWriteMsg in Hw. unfold readerReadMsg, delivered.
  destruct (isCompactOutput msg) eqn:Eo; [|destruct ((mType msg =? MsgTypePaneHistory) && binaryPaneHistory w)].
  - injection Hw as <- <- <-. split_and!; [done..|]. exists r. split; [done|]. unfold bindM.
    unfold writePaneOutputBinary in *. rewrite frame_disc. simpl nth. cbv zeta. cbn [Z.eqb Pos.eqb wireFormatBinary].
    pose proof (reads_PaneOutput msg Eo (proj1 Hm)) as Hr. unfold delivered in Hr. rewrite Eo in Hr.
    apply onSource_reads. apply Hr. by eapply frame_length.
  - destruct (encode_cached contents ref (historyOf msg) c Hc Ha) as [Hc' He].
    destruct (encodePaneHistoryPayload ref (historyOf msg) c) as [c1 [p|]]; [|done]. cbn [fst snd] in *.
    injection Hw as <- <- <-. split_and!; [done..|]. exists r. split; [done|]. unfold bindM.
    unfold writePaneHistoryBinary in *. rewrite frame_disc. simpl nth. cbv zeta.
    change (nth 0 [wireFormatPaneHistory] 0 =? wireFormatBinary) with false. change (nth 0 [wireFormatPaneHistory] 0 =? wireFormatPaneHistory) with true.
    cbv iota. apply onSource_reads. apply (reads_PaneHistory msg p Hm (eq_sym He)).
    by eapply frame_length.
  - destruct (gobEncode (gobEnc w) msg) as [e [p|]] eqn:Eg; [|done]. injection Hw as <- <- <-. split_and!; [done..|].
    destruct Hs as [Hb Hp]. destruct (paired_message _ _ _ _ _ Hp Eg) as (d' & Hd & Hp').
    exists (mkRd [] d'). split; [done|]. unfold bindM, writeGobFrame. rewrite frame_disc. simpl nth. cbv zeta.
    change (nth 0 [wireFormatGob] 0 =? wireFormatBinary) with false. change (nth 0 [wireFormatGob] 0 =? wireFormatPaneHistory) with false.
    cbv iota beta. unfold readerReadMsgGob, bindM.
    assert (lenZ p <= maxMessageSize) as Hlp by by apply (frame_length wireFormatGob (BigEndianPutUint32 (lenZ p)) []).
    pose proof (onSource_reads _ _ _ rest r (reads_GobPayload p Hlp)) as Hrp. unfold writeGobFrame in Hrp. cbn [drop] in Hrp. rewrite ?drop_0 in Hrp.
    rewrite Hrp.
    rewrite Hb, app_nil_l, Hd. done.
Qed.

Lemma writeAll_readAll contents msgs w c w' c' frames r rest :
  cacheOk contents c -> inSync w r ->
  Forall (fun m => agrees contents m.1 (historyOf m.2) /\ sendable m.2) msgs ->
  writeAll msgs (w, c) = ((w', c'), Ok frames) -> Forall (fun f => lenZ f <= maxMessageSize) frames ->
  cacheOk contents c' /\
  exists r', inSync w' r' /\
    readAll zero afterError (length msgs) (r, complete (concat frames ++ rest)) =
    ((r', complete rest), Ok (delivered (binaryPaneHistory w) ∘ snd <$> msgs)).
Proof.
  intros Hc Hs Hm. revert w c r frames Hc Hs. induction Hm as [|[ref msg] msgs [Ha Hsend] _ IH]; intros w c r frames Hc Hs.
  - intros [= <- <- <-] _. split; [done|]. by exists r.
  - cbn [writeAll]. unfold bindM at 1. destruct (writerWriteMsg ref msg (w, c)) as [[w1 c1] [frame|]] eqn:Ew; [|done].
    unfold bindM. destruct (writeAll msgs (w1, c1)) as [[w2 c2] [fs|]] eqn:Ew2; [|done]. intros [= <- <- <-] Hf.
    inversion_clear Hf as [|? ? Hf1 Hf2]. cbn [concat]. rewrite <- app_assoc.
    destruct (write_read contents ref msg w c w1 c1 frame r (concat fs ++ rest) Hc Ha Hs Hsend Ew Hf1) as (Hc1 & Hb & r1 & Hs1 & Hr).
    destruct (IH w1 c1 r1 fs Hc1 Hs1 Ew2 Hf2) as (Hc2 & r2 & Hs2 & Hr2). split; [done|]. exists r2. split; [done|].
    cbn [length readAll]. unfold bindM. rewrite Hr, Hr2, Hb. done.
Qed.
End Frames.
