(* ===== verification/HistoryChunks.v ===== *)
(** * A history in chunks (internal/server/pane_history_chunk.go)

    A retained history can be larger than a message may be; it is sent in chunks,
    each as many lines as fit, found by bisection on the size of the encoding. *)

From S2P Require Import Prelude GoText GoWire PaneHistory PaneHistoryFacts Wire WireFacts.

Definition paneHistoryBinaryFrameHeaderSize : Z := 9.
Definition paneHistoryChunkThreshold : Z := 4 * 1024 * 1024.

Section Chunks.
Context {X : Type} `{Gob X} (zero : X).

Definition newPaneHistoryMessage (paneID : Z) (history : list StyledLine) : Message X :=
  mkMessage MsgTypePaneHistory paneID [] 0 (StyledLineText history) history zero.

(** The size of the frame that a new writer makes. *)
Definition estimatePaneHistoryMessageSize (msg : Message X) (binary : bool) : result WireError Z :=
  match (writerWriteMsg None msg (SetBinaryPaneHistory binary NewWriter, emptyCache)).2 with
  | Ok frame => Ok (lenZ frame)
  | Err e => Err e
  end.

Section History.
Context (paneID : Z) (history : list StyledLine) (maxChunkSize : Z) (binary : bool).

Definition sizeOf (a b : Z) : result WireError Z :=
  estimatePaneHistoryMessageSize (newPaneHistoryMessage paneID (subslice a b history)) binary.

(** The loop halves [hi + 1 - lo], so that many rounds are enough. *)
Fixpoint bisectChunkEnd (fuel : nat) (start lo hi best : Z) : result WireError Z :=
  match fuel with
  | O => Ok best
  | S fuel =>
      if hi <? lo then Ok best
      else
        let mid := lo + Z.quot (hi - lo) 2 in
        try size <- sizeOf start mid;
        if size <=? maxChunkSize then bisectChunkEnd fuel start (mid + 1) hi mid
        else bisectChunkEnd fuel start lo (mid - 1) best
  end.
Definition findPaneHistoryChunkEnd (start : Z) : result WireError Z :=
  try best <- bisectChunkEnd (length history) start (start + 1) (lenZ history) start;
  if start <? best then Ok best else Ok (start + 1).

(** The rounds of the loop over the chunks; each takes at least a line. *)
Fixpoint chunkLoop (fuel : nat) (start : Z) : result WireError (list (Z * Z)) :=
  match fuel with
  | O => Ok []
  | S fuel =>
      if start <? lenZ history then
        try end_ <- findPaneHistoryChunkEnd start;
        try chunks <- chunkLoop fuel end_;
        Ok ((start, end_) :: chunks)
      else Ok []
  end.
Definition chunkRanges : result WireError (list (Z * Z)) := chunkLoop (length history) 0.
Definition rangeMessage (r : Z * Z) : Message X := newPaneHistoryMessage paneID (subslice r.1 r.2 history).

Definition chunkPaneHistoryMessages : result WireError (list (Message X)) :=
  match history with
  | [] => Ok []
  | _ =>
      if maxChunkSize <=? 0 then Err (InvalidChunkSize maxChunkSize)
      else try chunks <- chunkRanges; Ok (rangeMessage <$> chunks)
  end.

(** The chunks of a cached plan, unless a range is not one of the history. *)
Fixpoint paneHistoryMessagesFromCachedChunks (chunks : list (Z * Z)) (v : Z) : option (list (cacheRef * Message X)) :=
  match chunks with
  | [] => Some []
  | (start, end_) :: chunks =>
      if (start <? 0) || (end_ <=? start) || (lenZ history <? end_) then None
      else
        msgs ← paneHistoryMessagesFromCachedChunks chunks v;
        Some ((Some (v, Some (start, end_)), rangeMessage (start, end_)) :: msgs)
  end.

Definition useCachedPlan (v : Z) (c : PaneHistoryPayloadCache) : option (list (cacheRef * Message X)) :=
  chunks ← ChunkPlan v maxChunkSize c; paneHistoryMessagesFromCachedChunks chunks v.
Definition useCachedPayload (v : Z) (c : PaneHistoryPayloadCache) : option (list (cacheRef * Message X)) :=
  payloadLen ← PayloadLen v c;
  if payloadLen + paneHistoryBinaryFrameHeaderSize <=? maxChunkSize
  then Some [(Some (v, None), newPaneHistoryMessage paneID history)] else None.

(** [v] is None when there is no cache. *)
Definition newChunks (v : option Z) : M PaneHistoryPayloadCache WireError (list (cacheRef * Message X)) :=
  if maxChunkSize <=? 0 then throw (InvalidChunkSize maxChunkSize)
  else
    do chunks <- lift chunkRanges;
    match chunks, v with
    | [r], Some v => ret [(Some (v, None), rangeMessage r)]
    | _, Some v =>
        if binary then
          run modify (StoreChunkPlan v maxChunkSize chunks);
          ret ((fun r => (Some (v, Some r), rangeMessage r)) <$> chunks)
        else ret ((fun r => (None, rangeMessage r)) <$> chunks)
    | _, None => ret ((fun r => (None, rangeMessage r)) <$> chunks)
    end.
Definition chunkPaneHistoryMessagesWithCache (v : option Z)
    : M PaneHistoryPayloadCache WireError (list (cacheRef * Message X)) :=
  match history with
  | [] => ret []
  | _ =>
      do c <- get;
      match (if binary then v ≫= fun v => useCachedPlan v c else None) with
      | Some msgs => ret msgs
      | None =>
          match (if binary then v ≫= fun v => useCachedPayload v c else None) with
          | Some msgs => ret msgs
          | None => newChunks v
          end
      end
  end.
End History.
End Chunks.
