(* ===== verification/HistoryFacts.v ===== *)
(** * A history in chunks: sizes, bisection, plans *)

From S2P Require Import Prelude GoText GoWire PaneHistory PaneHistoryFacts Wire WireFacts HistoryChunks.

(** ** Sizes grow with the lines *)

Lemma putUvarint_mono n a b : 0 <= a <= b -> (length (putUvarint n a) <= length (putUvarint n b))%nat.
Proof.
  revert a b. induction n as [|n IH]; intros a b Hab; [done|]. cbn [putUvarint].
  destruct (Z.ltb_spec a 128), (Z.ltb_spec b 128); cbn [length]; try lia.
  apply le_n_S, IH. rewrite !Z.shiftr_div_pow2 by lia. split; [apply Z.div_pos; lia|apply Z.div_le_mono; lia].
Qed.
Lemma uvarint_mono a b : 0 <= a <= b -> b < 2 ^ 64 -> lenZ (writePaneHistoryUvarint a) <= lenZ (writePaneHistoryUvarint b).
Proof.
  intros Hab Hb. unfold writePaneHistoryUvarint, wrapU. rewrite !Z.mod_small by lia.
  unfold PutUvarint, lenZ. pose proof (putUvarint_mono MaxVarintLen64 a b Hab). lia.
Qed.

(** A table that grows keeps its styles and indices. *)
Definition extends (t t' : styleTable) : Prop := t.2 ⊆ t'.2 /\ exists l, t'.1 = t.1 ++ l.
#[export] Instance extends_preorder : PreOrder extends.
Proof.
  split; [intros t; split; [done|exists []; by rewrite app_nil_r]|].
  intros t1 t2 t3 [H1 [l1 E1]] [H2 [l2 E2]]. split; [by etransitivity|]. exists (l1 ++ l2). by rewrite E2, E1, app_assoc.
Qed.
Lemma addStyle_extends t c : extends t (addStyle t c).
Proof.
  destruct t as [styles index]. unfold addStyle. destruct (index !! _) eqn:E; [done|].
  split; simpl; [by apply insert_subseteq|by eexists].
Qed.
Lemma foldl_extends {A} (f : styleTable -> A -> styleTable) l t :
  (forall t x, extends t (f t x)) -> extends t (foldl f t l).
Proof. intros Hf. revert t. induction l as [|x l IH]; intros t; cbn [foldl]; [done|]. etransitivity; [apply Hf|apply IH]. Qed.
Lemma styleTable_extends l1 l2 : extends (paneHistoryStyleTable l1) (paneHistoryStyleTable (l1 ++ l2)).
Proof.
  unfold paneHistoryStyleTable. rewrite foldl_app. apply foldl_extends. intros t line. apply foldl_extends, addStyle_extends.
Qed.

Lemma writeStyledLine_extends t t' line :
  extends t t' -> Forall (inTable t) (Cells line) -> writeStyledLine t.2 line = writeStyledLine t'.2 line.
Proof.
  intros [Hsub _] Hin. unfold writeStyledLine. cbv zeta. destruct (hasFlag (lineFlagsOf line) paneHistoryLineFlagHasCells); [|done].
  assert (writePaneHistoryCellRuns (Cells line) t.2 = writePaneHistoryCellRuns (Cells line) t'.2) as ->; [|done].
  rewrite !writePaneHistoryCellRuns_spec. do 2 f_equal. pose proof (paneHistoryCellRuns_Forall _ _ Hin) as Hr.
  induction Hr as [|r runs [_ [i Hi]] _ IH]; [done|]. cbn [mbind list_bind]. f_equal; [|exact IH].
  unfold encRun. rewrite Hi. by rewrite (lookup_weaken _ _ _ _ Hi Hsub).
Qed.
Lemma writeStyledLines_extends t t' lines :
  extends t t' -> Forall (fun line => Forall (inTable t) (Cells line)) lines -> writeStyledLines t.2 lines = writeStyledLines t'.2 lines.
Proof.
  intros He. induction 1 as [|line lines Hl _ IH]; [done|]. cbn [writeStyledLines].
  by rewrite IH, (writeStyledLine_extends t t' line He Hl).
Qed.
Lemma writeStyledLines_app index l1 l2 :
  writeStyledLines index (l1 ++ l2) =
  bindR (writeStyledLines index l1) (fun w1 => bindR (writeStyledLines index l2) (fun w2 => Ok (w1 ++ w2))).
Proof.
  induction l1 as [|line l1 IH]; cbn [writeStyledLines app bindR]; [by destruct (writeStyledLines index l2)|].
  destruct (writeStyledLine index line); [|done]. cbn [bindR]. rewrite IH.
  destruct (writeStyledLines index l1); [|done]. cbn [bindR]. destruct (writeStyledLines index l2); [|done]. cbn [bindR].
  by rewrite app_assoc.
Qed.

(** The payload of lines, with its length. *)
Lemma encode_ofLines lines :
  match writeStyledLines (paneHistoryStyleTable lines).2 lines with
  | Ok w => exists p, encodePaneHistoryPayloadFresh (ofLines lines) = Ok p /\
      lenZ p = 1 + 2 * lenZ (writePaneHistoryUvarint (lenZ lines)) +
               lenZ (writePaneHistoryUvarint (lenZ (paneHistoryStyleTable lines).1)) +
               lenZ ((paneHistoryStyleTable lines).1 ≫= writePaneHistoryStyle) + lenZ w
  | Err e => encodePaneHistoryPayloadFresh (ofLines lines) = Err e
  end.
Proof.
  unfold encodePaneHistoryPayloadFresh, ofLines. cbn [hLines hStyled].
  destruct (paneHistoryStyleTable lines) as [styles index]. cbn [fst snd].
  destruct (writeStyledLines index lines) as [w|e]; [|done]. eexists. split; [done|].
  rewrite lenZ_cons, !lenZ_app. assert (lenZ (StyledLineText lines) = lenZ lines) as -> by (unfold StyledLineText, lenZ; by rewrite length_fmap).
  assert (forall flag : bool, flag = true \/ lines = [] ->
            lenZ (if hasFlag (if flag then paneHistoryFlagHistoryFromStyledText else 0) paneHistoryFlagHistoryFromStyledText then []
                  else StyledLineText lines ≫= writePaneHistoryString) = 0) as ->.
  { intros [] H; [done|]. destruct H as [?| ->]; done. }
  - lia.
  - destruct lines as [|line lines]; [by right|left]. by apply paneHistoryMatchesStyledText_spec.
Qed.

Lemma writeStyledLine_length index line b : writeStyledLine index line = Ok b -> 1 <= lenZ b.
Proof.
  unfold writeStyledLine. cbv zeta. destruct (hasFlag (lineFlagsOf line) _).
  - destruct (writePaneHistoryCellRuns _ _); [|done]. cbn [bindR]. intros [= <-]. rewrite lenZ_cons.
    match goal with |- 1 <= 1 + lenZ ?l => pose proof (lenZ_nonneg l) end. lia.
  - intros [= <-]. rewrite lenZ_cons. match goal with |- 1 <= 1 + lenZ ?l => pose proof (lenZ_nonneg l) end. lia.
Qed.
Lemma writeStyledLines_length index lines w : writeStyledLines index lines = Ok w -> lenZ lines <= lenZ w.
Proof.
  revert w. induction lines as [|line lines IH]; intros w; cbn [writeStyledLines]; [by intros [= <-]|].
  destruct (writeStyledLine index line) eqn:E; [|done]. cbn [bindR]. destruct (writeStyledLines index lines); [|done].
  cbn [bindR]. intros [= <-]. apply writeStyledLine_length in E. specialize (IH _ eq_refl). rewrite lenZ_cons, lenZ_app. lia.
Qed.

Lemma encode_prefix l1 l2 p :
  encodePaneHistoryPayloadFresh (ofLines (l1 ++ l2)) = Ok p -> lenZ p < 2 ^ 64 ->
  exists p1, encodePaneHistoryPayloadFresh (ofLines l1) = Ok p1 /\ lenZ p1 <= lenZ p.
Proof.
  intros He Hp. pose proof (encode_ofLines (l1 ++ l2)) as H12. pose proof (encode_ofLines l1) as H1.
  pose proof (styleTable_extends l1 l2) as Hx. destruct (paneHistoryStyleTable_ok l1) as [_ Hin].
  destruct (writeStyledLines (paneHistoryStyleTable (l1 ++ l2)).2 (l1 ++ l2)) as [w|e] eqn:Ew; [|congruence].
  pose proof (writeStyledLines_length _ _ _ Ew) as Hwl.
  rewrite writeStyledLines_app, <- (writeStyledLines_extends _ _ l1 Hx) in Ew
    by (apply Forall_forall; intros line Hl; apply Forall_forall; intros c Hc; by eapply Hin).
  destruct (writeStyledLines (paneHistoryStyleTable l1).2 l1) as [w1|e]; cbn [bindR] in Ew; [|congruence].
  destruct (writeStyledLines (paneHistoryStyleTable (l1 ++ l2)).2 l2) as [w2|e]; cbn [bindR] in Ew; [|congruence]. injection Ew as <-.
  destruct H12 as (p' & Hp' & Hlen). rewrite He in Hp'. injection Hp' as <-. destruct H1 as (p1 & Hp1 & Hlen1).
  exists p1. split; [done|]. rewrite Hlen1, Hlen in *. clear Hlen Hlen1. destruct Hx as [_ [extra Ex]]. rewrite Ex in *.
  pose proof (lenZ_styles ((paneHistoryStyleTable l1).1 ++ extra)) as Hst.
  pose proof (lenZ_uvarint (lenZ (l1 ++ l2))). pose proof (lenZ_uvarint (lenZ ((paneHistoryStyleTable l1).1 ++ extra))).
  pose proof (uvarint_mono (lenZ l1) (lenZ (l1 ++ l2))) as M1.
  pose proof (uvarint_mono (lenZ (paneHistoryStyleTable l1).1) (lenZ ((paneHistoryStyleTable l1).1 ++ extra))) as M2.
  rewrite bind_app in *. rewrite !(lenZ_app w1), !(lenZ_app (_ ≫= _)) in *.
  pose proof (lenZ_nonneg w1). pose proof (lenZ_nonneg w2). pose proof (lenZ_nonneg l1). pose proof (lenZ_nonneg l2).
  pose proof (lenZ_nonneg (paneHistoryStyleTable l1).1). pose proof (lenZ_nonneg extra).
  pose proof (lenZ_nonneg ((paneHistoryStyleTable l1).1 ≫= writePaneHistoryStyle)).
  pose proof (lenZ_nonneg (extra ≫= writePaneHistoryStyle)).
  rewrite !lenZ_app in *. lia.
Qed.

(** ** Bisection *)

Lemma subslice_extend {A} a m m' (l : list A) : a <= m <= m' -> exists r, subslice a m' l = subslice a m l ++ r.
Proof.
  intros Hm. unfold subslice. exists (take (Z.to_nat m' - Z.to_nat m) (drop (Z.to_nat m - Z.to_nat a) (drop (Z.to_nat a) l))).
  rewrite take_take_drop. f_equal. lia.
Qed.
Lemma subslice_full {A} (l : list A) : subslice 0 (lenZ l) l = l.
Proof. unfold subslice, lenZ. change (Z.to_nat 0) with 0%nat. rewrite Nat.sub_0_r, drop_0, Nat2Z.id. apply take_ge. lia. Qed.
Lemma subslice_length {A} a b (l : list A) : 0 <= a <= b -> b <= lenZ l -> lenZ (subslice a b l) = b - a.
Proof. intros Ha Hb. unfold subslice, lenZ in *. rewrite length_take, length_drop. lia. Qed.
Lemma subslice_split {A} a b c (l : list A) : 0 <= a <= b -> b <= c -> subslice a b l ++ subslice b c l = subslice a c l.
Proof.
  intros Hab Hbc. unfold subslice. replace (Z.to_nat c - Z.to_nat a)%nat with ((Z.to_nat b - Z.to_nat a) + (Z.to_nat c - Z.to_nat b))%nat by lia.
  rewrite <- (take_take_drop _ (Z.to_nat b - Z.to_nat a)), drop_drop. do 3 f_equal. lia.
Qed.
Lemma consecutive_concat {A} (l : list A) s chunks e :
  0 <= s -> consecutive s chunks e -> s <= e /\ concat ((fun r => subslice r.1 r.2 l) <$> chunks) = subslice s e l.
Proof.
  revert s. induction chunks as [|[a b] chunks IH]; intros s Hs; cbn [consecutive].
  - intros ->. split; [lia|]. unfold subslice. by rewrite Nat.sub_diag, take_0.
  - intros (-> & Hab & Hc). destruct (IH b ltac:(lia) Hc) as [H1 H2]. split; [lia|]. cbn [fmap list_fmap concat fst snd].
    rewrite H2. apply subslice_split; lia.
Qed.
Lemma consecutive_range s chunks e r : consecutive s chunks e -> r ∈ chunks -> s <= r.1 /\ r.1 < r.2 /\ r.2 <= e.
Proof.
  revert s. induction chunks as [|[a b] chunks IH]; intros s; cbn [consecutive]; [set_solver|].
  intros (-> & Hab & Hc) [->|Hr]%elem_of_cons; cbn [fst snd].
  - assert (b <= e); [|lia]. clear -Hc. revert b Hc. induction chunks as [|[a' b'] chunks IH]; intros b; cbn [consecutive]; [lia|].
    intros (-> & ? & H). specialize (IH _ H). lia.
  - destruct (IH b Hc Hr). lia.
Qed.

Section Bisection.
Context {X : Type} `{Gob X} (zero : X).
Context (paneID : Z) (history : list StyledLine) (maxChunkSize : Z) (binary : bool).

Definition sizeOk (a b : Z) : Prop :=
  exists s, sizeOf zero paneID history binary a b = Ok s /\ s <= maxChunkSize.
Definition monotone : Prop := forall a m m', 0 <= a -> a <= m <= m' -> m' <= lenZ history -> sizeOk a m' -> sizeOk a m.
Hypothesis Htotal : forall a b, 0 <= a <= b -> b <= lenZ history -> exists s, sizeOf zero paneID history binary a b = Ok s.

Lemma bisect_spec fuel start lo hi :
  0 <= start < lo -> lo - 1 <= hi <= lenZ history -> hi - lo + 1 <= Z.of_nat fuel ->
  (lo = start + 1 \/ sizeOk start (lo - 1)) ->
  (monotone -> forall m, hi < m <= lenZ history -> ~ sizeOk start m) ->
  exists e, bisectChunkEnd zero paneID history maxChunkSize binary fuel start lo hi (lo - 1) = Ok e /\
    start <= e <= lenZ history /\ (e = start \/ sizeOk start e) /\
    (monotone -> forall m, e < m <= lenZ history -> ~ sizeOk start m).
Proof.
  revert lo hi. induction fuel as [|fuel IH]; intros lo hi Hs Hb Hf Hok Hno; cbn [bisectChunkEnd].
  - exists (lo - 1). split_and!; [done|lia|lia| |].
    + destruct Hok as [->|]; [left; lia|by right].
    + intros Hm m Hmm. apply Hno; [done|lia].
  - destruct (Z.ltb_spec hi lo) as [Hlt|Hle].
    + exists (lo - 1). split_and!; [done|lia|lia| |].
      * destruct Hok as [->|]; [left; lia|by right].
      * intros Hm m Hmm. apply Hno; [done|lia].
    + cbv zeta. rewrite Z.quot_div_nonneg by lia. set (mid := lo + (hi - lo) / 2).
      assert (lo <= mid <= hi) as Hmid by (subst mid; Z.to_euclidean_division_equations; lia).
      destruct (Htotal start mid) as [size Hsize]; [lia|lia|]. rewrite Hsize. cbn [bindR].
      destruct (Z.leb_spec size maxChunkSize).
      * pose proof (IH (mid + 1) hi) as IH'. replace (mid + 1 - 1) with mid in IH' by lia.
        apply IH'; [lia|lia|subst mid; Z.to_euclidean_division_equations; lia| |done]. right. by exists size.
      * apply IH; [lia|lia|subst mid; Z.to_euclidean_division_equations; lia|done|].
        intros Hm m Hmm Hsz. assert (sizeOk start mid) as (s & Hs' & Hle').
        { destruct (decide (m <= hi)); [apply (Hm start mid m); try lia; done|]. exfalso. apply (Hno Hm m); [lia|done]. }
        rewrite Hsize in Hs'. injection Hs' as <-. lia.
Qed.
Lemma findEnd_spec start :
  0 <= start < lenZ history ->
  exists e, findPaneHistoryChunkEnd zero paneID history maxChunkSize binary start = Ok e /\ start < e <= lenZ history /\
    (sizeOk start e \/ e = start + 1) /\ (monotone -> forall m, e < m <= lenZ history -> ~ sizeOk start m).
Proof.
  intros Hs. unfold findPaneHistoryChunkEnd.
  destruct (bisect_spec (length history) start (start + 1) (lenZ history)) as (e & He & Hr & Hok & Hmax);
    [lia|lia|unfold lenZ; lia|by left|lia|]. replace (start + 1 - 1) with start in He by lia. rewrite He. cbn [bindR].
  destruct (Z.ltb_spec start e).
  - exists e. split_and!; [done|lia|lia| |done]. destruct Hok as [->|]; [lia|by left].
  - exists (start + 1). split_and!; [done|lia|lia|by right|]. intros Hm m Hmm. apply Hmax; [done|lia].
Qed.

(** A chunk fits or is one line, and with one more line it would not fit. *)
Definition goodChunk (r : Z * Z) : Prop :=
  (sizeOk r.1 r.2 \/ r.2 = r.1 + 1) /\ (monotone -> r.2 < lenZ history -> ~ sizeOk r.1 (r.2 + 1)).
Lemma chunkLoop_spec fuel start :
  0 <= start <= lenZ history -> lenZ history - start <= Z.of_nat fuel ->
  exists chunks, chunkLoop zero paneID history maxChunkSize binary fuel start = Ok chunks /\
    consecutive start chunks (lenZ history) /\ Forall goodChunk chunks.
Proof.
  revert start. induction fuel as [|fuel IH]; intros start Hs Hf; cbn [chunkLoop].
  - exists []. split_and!; [done|simpl; lia|done].
  - destruct (Z.ltb_spec start (lenZ history)); [|exists []; split_and!; [done|simpl; lia|done]].
    destruct (findEnd_spec start) as (e & -> & He & Hok & Hmax); [lia|]. cbn [bindR].
    destruct (IH e) as (chunks & -> & Hc & Hg); [lia|lia|]. cbn [bindR]. exists ((start, e) :: chunks).
    split_and!; [done|simpl; split_and!; [done|lia|done]|]. constructor; [|done]. split; [done|]. cbn [fst snd].
    intros Hm Hlt. apply Hmax; [done|lia].
Qed.
Lemma chunkRanges_spec :
  exists chunks, chunkRanges zero paneID history maxChunkSize binary = Ok chunks /\
    consecutive 0 chunks (lenZ history) /\ Forall goodChunk chunks.
Proof. pose proof (lenZ_nonneg history). apply chunkLoop_spec; unfold lenZ; lia. Qed.
End Bisection.
