(* ===== verification/WireProps.v ===== *)
(** * The wire: properties

    A history survives its encoding; what a connection writes the other end reads,
    in any sequence of messages; the cache does not change what is sent; chunks
    are the whole history and fit; what a reader accepts is bounded. *)

From S2P Require Import Prelude GoText GoWire PaneHistory PaneHistoryFacts Wire WireFacts HistoryChunks HistoryFacts.

(** ** A concrete history and gob for the witnesses *)

Definition plainStyle : Style := mkStyle ColorNil ColorNil ColorNil 0 0.
Definition redStyle : Style := mkStyle (OtherColor 65535 0 0 65535) (IndexedColor 7) ColorNil 2 1.
Definition sampleLines : list StyledLine :=
  [mkLine (bytesOf "aab") [mkCell [97] redStyle 1; mkCell [97] redStyle 1; mkCell [98] plainStyle 1];
   mkLine (bytesOf "plain") []].

(** gob with one message type without parameters. *)
#[local] Instance sampleGob : Gob unit := {
  Enc := unit; Dec := unit; newEnc := tt; newDec := tt;
  gobEncode := fun e m =>
    (e, if bool_decide (m = mkMessage (mType m) 0 [] 0 [] [] tt) then Some [mType m] else None);
  gobDecode := fun d b =>
    match b with
    | t :: b => (d, b, Some (mkMessage t 0 [] 0 [] [] tt))
    | [] => (d, [], None)
    end }.
#[local] Program Instance sampleGobLaws : GobLaws unit := {| paired := fun _ _ => True |}.
Next Obligation. done. Qed.
Next Obligation.
  intros e d m e' p _. simpl. case_bool_decide as Hm; [|done]. intros [= <- <-]. exists d. split; [|done]. simpl. by rewrite <- Hm.
Qed.

(** ** The payload of a history *)

(** C16. Decoding the payload of a history gives the history back, with its colours and
    underlines as the encoding has them, and reads the payload to its end, as long
    as no line has more than 65536 cells and no cell is wider than the payload is
    long. *)
Theorem payload_roundtrip paneID msg payload :
  encodePaneHistoryPayloadFresh msg = Ok payload -> lenZ payload < 2 ^ 64 -> wireable payload (hStyled msg) ->
  decodePaneHistoryPayload paneID (lenZ payload) (complete payload) =
  (complete [], Ok (mkHistory paneID (hLines msg) (normLine <$> hStyled msg))).
Proof.
  intros He Hl Hw. pose proof (decode_encode paneID msg payload He Hl Hw []) as H. rewrite app_nil_r in H. exact H.
Qed.
Lemma payload_roundtrip_witness :
  exists payload, encodePaneHistoryPayloadFresh (ofLines sampleLines) = Ok payload /\
    (decodePaneHistoryPayload 7 (lenZ payload) (complete payload)).2 =
    Ok (mkHistory 7 [bytesOf "aab"; bytesOf "plain"] (normLine <$> sampleLines)).
Proof.
  eexists. split; [vm_compute; reflexivity|].
  rewrite (payload_roundtrip 7 (ofLines sampleLines)); [reflexivity|vm_compute; reflexivity|vm_compute; reflexivity|].
  repeat constructor; vm_compute; discriminate.
Defined.

(** Encoding fails for exactly the histories with a cell of negative width, and
    reports the first. *)
Theorem payload_errors msg :
  match badWidths (hStyled msg) with
  | [] => exists payload, encodePaneHistoryPayloadFresh msg = Ok payload
  | w :: _ => encodePaneHistoryPayloadFresh msg = Err (NegativeWidth w)
  end.
Proof. apply encode_errors. Qed.

(** The runs written while the cells are read are those of paneHistoryCellRuns,
    their number is counted before, and they stand for the cells. *)
Theorem runs_equivalent cells index :
  Forall (fun c => 0 <= Width c) cells ->
  writePaneHistoryCellRuns cells index =
    Ok (writePaneHistoryUvarint (lenZ (paneHistoryCellRuns cells)) ++ (paneHistoryCellRuns cells ≫= encRun index)) /\
  paneHistoryCellRunCount cells = lenZ (paneHistoryCellRuns cells) /\
  expandRuns (paneHistoryCellRuns cells) = normCell <$> cells.
Proof.
  intros Hw. rewrite writePaneHistoryCellRuns_spec. apply negativeWidths_nil in Hw. rewrite Hw.
  split_and!; [done|apply paneHistoryCellRunCount_spec|apply paneHistoryCellRuns_expand].
Qed.
Lemma runs_equivalent_witness :
  paneHistoryCellRunCount [mkCell [97] redStyle 1; mkCell [97] redStyle 1; mkCell [98] plainStyle 1] = 2.
Proof.
  destruct (runs_equivalent [mkCell [97] redStyle 1; mkCell [97] redStyle 1; mkCell [98] plainStyle 1] ∅) as (_ & H & _);
    [repeat constructor; vm_compute; discriminate|]. rewrite H. reflexivity.
Defined.

(** ** What a decoder accepts *)

(** What holds of the results of a reader, whatever it reads. *)
Definition yields {A} (m : R A) (P : A -> Prop) : Prop := forall r r' a, m r = (r', Ok a) -> P a.
Lemma yields_ret {A} (a : A) (P : A -> Prop) : P a -> yields (ret a) P.
Proof. intros Ha r r' b [= _ <-]. exact Ha. Qed.
Lemma yields_throw {A} e (P : A -> Prop) : yields (throw e) P.
Proof. by intros r r' a. Qed.
Lemma yields_bind {A B} (m : R A) (k : A -> R B) P Q :
  yields m P -> (forall a, P a -> yields (k a) Q) -> yields (bindM m k) Q.
Proof.
  intros Hm Hk r r' b. unfold bindM. destruct (m r) as [r1 [a|e]] eqn:E; [|done]. intros H. by eapply Hk; [eapply Hm|].
Qed.
Lemma yields_any {A} (m : R A) : yields m (fun _ => True).
Proof. done. Qed.
Lemma yields_weaken {A} (m : R A) (P Q : A -> Prop) : yields m P -> (forall a, P a -> Q a) -> yields m Q.
Proof. intros Hm HPQ r r' a H. by eapply HPQ, Hm. Qed.

Lemma yields_Uvarint : yields ReadUvarint (fun n => 0 <= n).
Proof.
  assert (H : forall n x s, 0 <= x -> yields (readUvarint n x s) (fun v => 0 <= v)).
  { induction n as [|n IH]; intros x s Hx; cbn [readUvarint]; [apply yields_throw|].
    eapply yields_bind; [apply yields_any|]. intros b _. destruct (b <? 128).
    - destruct (_ && _); [apply yields_throw|]. apply yields_ret, Z.lor_nonneg. split; [done|]. apply Z.mod_pos_bound. lia.
    - apply IH, Z.lor_nonneg. split; [done|]. apply Z.mod_pos_bound. lia. }
  by apply H.
Qed.
Lemma yields_Count pl : yields (readPaneHistoryCount pl) (fun n => 0 <= n <= pl).
Proof.
  eapply yields_bind; [apply yields_Uvarint|]. intros n Hn. cbv beta. destruct (Z.ltb_spec pl n); [apply yields_throw|].
  apply yields_ret. cbv beta in *. lia.
Qed.
Lemma yields_RunLength b : yields (readPaneHistoryRunLength b) (fun n => 0 <= n <= b).
Proof.
  eapply yields_bind; [apply yields_Uvarint|]. intros n Hn. cbv beta. destruct (Z.ltb_spec b n); [apply yields_throw|].
  apply yields_ret. cbv beta in *. lia.
Qed.
Lemma yields_N {A} n (m : R A) P : yields m P -> yields (readN n m) (fun l => length l = n /\ Forall P l).
Proof.
  intros Hm. induction n as [|n IH]; cbn [readN]; [by apply yields_ret|].
  eapply yields_bind; [exact Hm|]. intros a Ha. eapply yields_bind; [exact IH|]. intros l [Hl HP].
  apply yields_ret. split; [by simpl; rewrite Hl|by constructor].
Qed.

Definition cellBound (pl : Z) (styles : list Style) (c : Cell) : Prop := 0 <= Width c <= pl /\ CellStyle c ∈ styles.
Lemma yields_Runs styles pl n b :
  0 <= b -> yields (readRuns styles pl n b) (fun cells => lenZ cells <= b /\ Forall (cellBound pl styles) cells).
Proof.
  revert b. induction n as [|n IH]; intros b Hb; cbn [readRuns]; [apply yields_ret; split; [done|constructor]|].
  apply (yields_bind _ _ (fun p => 0 <= p.1 /\ lenZ p.2 = b - p.1 /\ Forall (cellBound pl styles) p.2)).
  - unfold readRun. eapply yields_bind; [apply yields_RunLength|]. intros k Hk. eapply yields_bind; [apply yields_any|].
    intros char _. eapply yields_bind; [apply yields_Count|]. intros w Hw. eapply yields_bind; [apply yields_Count|].
    intros i Hi. destruct (styles !! Z.to_nat i) as [s|] eqn:Es; [|apply yields_throw]. apply yields_ret. cbv beta in *. cbn [fst snd].
    unfold lenZ. rewrite length_replicate. split_and!; [lia|lia|]. apply Forall_replicate. split; [done|].
    by eapply list_elem_of_lookup_2.
  - intros [b' cells] (Hb' & Hl & Hf). cbv beta in *. cbn [fst snd] in *. eapply yields_bind; [by apply IH|]. intros rest [Hlr Hfr].
    apply yields_ret. rewrite lenZ_app. split; [lia|]. by apply Forall_app.
Qed.
Definition lineBound (pl : Z) (styles : list Style) (line : StyledLine) : Prop :=
  lenZ (Cells line) <= maxPaneHistoryLineCells /\ Forall (cellBound pl styles) (Cells line).
Lemma yields_StyledLine styles pl : yields (readStyledLine styles pl) (lineBound pl styles).
Proof.
  unfold readStyledLine. eapply yields_bind; [apply yields_any|]. intros f _. eapply yields_bind; [apply yields_any|]. intros t _.
  destruct (hasFlag f paneHistoryLineFlagHasCells); [|by apply yields_ret].
  eapply yields_bind; [apply yields_any|]. intros n _. eapply yields_bind; [by apply yields_Runs|]. intros cells Hc.
  by apply yields_ret.
Qed.

(** C37. Whatever bytes it is given, a decoder that accepts them gives at most as many
    lines, styled lines and styles as the payload has bytes, lines of at most 65536
    cells, widths within the payload's length, and only styles of the table. *)
Theorem decode_bounds paneID pl r r' h :
  decodePaneHistoryPayload paneID pl r = (r', Ok h) ->
  lenZ (hLines h) <= pl /\ lenZ (hStyled h) <= pl /\
  exists styles, lenZ styles <= pl /\ Forall (lineBound pl styles) (hStyled h).
Proof.
  assert (H : yields (decodePaneHistoryPayload paneID pl)
            (fun h => lenZ (hLines h) <= pl /\ lenZ (hStyled h) <= pl /\
                      exists styles, lenZ styles <= pl /\ Forall (lineBound pl styles) (hStyled h))); [|apply H].
  unfold decodePaneHistoryPayload. eapply yields_bind; [apply yields_any|]. intros flags _.
  eapply yields_bind; [apply yields_Count|]. intros nh Hnh. eapply yields_bind; [apply yields_Count|]. intros ns Hns.
  cbv zeta. destruct (hasFlag flags paneHistoryFlagHistoryFromStyledText).
  - eapply yields_bind; [apply yields_any|]. intros hist _. eapply yields_bind; [apply yields_Count|]. intros k Hk.
    eapply yields_bind; [apply yields_N, yields_any|]. intros styles [Hst _]. eapply yields_bind; [apply yields_N, yields_StyledLine|].
    intros lines [Hlen Hf]. apply yields_ret. cbv beta in *. cbn [hLines hStyled]. unfold StyledLineText, lenZ in *. rewrite length_fmap.
    split_and!; [lia|lia|]. exists styles. split; [lia|done].
  - eapply yields_bind; [apply yields_N, yields_any|]. intros hist [Hh _]. eapply yields_bind; [apply yields_Count|]. intros k Hk.
    eapply yields_bind; [apply yields_N, yields_any|]. intros styles [Hst _]. eapply yields_bind; [apply yields_N, yields_StyledLine|].
    intros lines [Hlen Hf]. apply yields_ret. cbv beta in *. cbn [hLines hStyled]. unfold lenZ in *.
    split_and!; [lia|lia|]. exists styles. split; [lia|done].
Qed.
Lemma decode_bounds_witness : lenZ (hStyled (mkHistory 7 [bytesOf "aab"; bytesOf "plain"] (normLine <$> sampleLines))) <= 64.
Proof.
  destruct (decode_bounds 7 64 (complete [1; 2; 2; 2; 5; 255; 255; 0; 0; 0; 0; 255; 255; 2; 7; 0; 2; 1; 0; 0; 0; 0; 0;
    3; 2; 2; 1; 97; 1; 0; 1; 1; 98; 1; 1; 0; 5; 112; 108; 97; 105; 110]) (complete [])
    (mkHistory 7 [bytesOf "aab"; bytesOf "plain"] (normLine <$> sampleLines))) as (_ & H & _).
  - vm_compute. reflexivity.
  - exact H.
Defined.

(** ** The cache *)

(** Encoding through the cache gives what encoding without it gives, for a message
    whose lines are those its metadata names, and the cache stays right: also after
    the version went back, and between whole histories and chunks. *)
Theorem cached_encoding_correct contents ref msg c :
  cacheOk contents c -> agrees contents ref msg ->
  (encodePaneHistoryPayload ref msg c).2 = encodePaneHistoryPayloadFresh msg /\
  cacheOk contents (encodePaneHistoryPayload ref msg c).1.
Proof. intros Hc Ha. destruct (encode_cached contents ref msg c Hc Ha) as [H1 H2]. done. Qed.
Lemma cached_encoding_correct_witness :
  let c := (encodePaneHistoryPayload (Some (3, Some (0, 1))) (ofLines (subslice 0 1 sampleLines)) emptyCache).1 in
  (encodePaneHistoryPayload (Some (3, Some (0, 1))) (ofLines (subslice 0 1 sampleLines)) c).2 =
  encodePaneHistoryPayloadFresh (ofLines (subslice 0 1 sampleLines)).
Proof.
  intros c. apply (cached_encoding_correct (fun _ => sampleLines)); [|by split].
  apply (cached_encoding_correct (fun _ => sampleLines) (Some (3, Some (0, 1))) (ofLines (subslice 0 1 sampleLines)) emptyCache);
    [apply emptyCache_ok|by split].
Defined.

(** ** A connection *)

(** C18. Messages that were written one after the other, no frame of them longer than
    16 MiB (the limit of the reader: [oversized_refused] shows that a longer
    payload is written and then refused), are read one after the other, nothing
    between them is left, and writer and reader stay in step: outputs in compact
    frames, histories in compact frames when both ends agreed on it, through a
    cache or not, everything else with gob.  The identifier of each message's pane
    is of 32 bits; a history has no line of more than 65536 cells and no cell
    wider than its payload is long, which the reader would refuse, and one sent
    with a reference to the cache has the lines of the version and of the range
    that it names; what the cache holds at first is of the contents of its
    version. *)
Theorem connection_roundtrip {X} `{GobLaws X} zero afterError contents msgs w c w' c' frames r rest :
  cacheOk contents c -> inSync w r ->
  Forall (fun m => agrees contents m.1 (historyOf m.2) /\ sendable m.2) msgs ->
  writeAll msgs (w, c) = ((w', c'), Ok frames) -> Forall (fun f => lenZ f <= maxMessageSize) frames ->
  exists r', inSync w' r' /\ cacheOk contents c' /\
    readAll zero afterError (length msgs) (r, complete (concat frames ++ rest)) =
    ((r', complete rest), Ok (delivered zero (binaryPaneHistory w) ∘ snd <$> msgs)).
Proof.
  intros Hc Hs Hm Hw Hf. destruct (writeAll_readAll zero afterError contents msgs w c w' c' frames r rest Hc Hs Hm Hw Hf) as (H1 & r' & H2 & H3).
  by exists r'.
Qed.
Definition sampleMessages : list (cacheRef * Message unit) :=
  [(None, mkMessage 16 0 [] 0 [] [] tt); (Some (1, None), newPaneHistoryMessage tt 7 sampleLines);
   (None, mkMessage MsgTypePaneOutput 7 [104; 105] 0 [] [] tt)].
Lemma connection_roundtrip_witness :
  exists frames r', (writeAll sampleMessages (SetBinaryPaneHistory true NewWriter, emptyCache)).2 = Ok frames /\
    readAll tt id 3 (NewReader, complete (concat frames ++ [1])) =
    ((r', complete [1]), Ok (delivered tt true ∘ snd <$> sampleMessages)).
Proof.
  set (p := writeAll sampleMessages (SetBinaryPaneHistory true NewWriter, emptyCache)).
  assert (exists w' c' frames, p = ((w', c'), Ok frames) /\ Forall (fun f => lenZ f <= maxMessageSize) frames) as (w' & c' & frames & Hp & Hf).
  { do 3 eexists. split; [vm_compute; reflexivity|]. repeat constructor; vm_compute; discriminate. }
  exists frames. destruct (connection_roundtrip tt id (fun _ => sampleLines) sampleMessages
    (SetBinaryPaneHistory true NewWriter) emptyCache w' c' frames NewReader [1]) as (r' & _ & _ & Hr).
  - apply emptyCache_ok.
  - split; [reflexivity|exact I].
  - apply Forall_cons. split; [split; [exact I|split; [by split|intros q _; constructor]]|].
    apply Forall_cons. split; [split; [by split|split; [by split|]]|].
    + intros q Hq. vm_compute in Hq. injection Hq as <-. repeat constructor; vm_compute; discriminate.
    + apply Forall_singleton. split; [exact I|split; [by split|intros q _; constructor]].
  - exact Hp.
  - exact Hf.
  - exists r'. split; [by rewrite Hp|exact Hr].
Defined.

(** A payload that is too large is written, and refused by the reader: what is sent
    must be kept below the limit by the sender. *)
Theorem oversized_refused {X} `{Gob X} (zero : X) afterError paneID (payload rest : bytes) :
  maxMessageSize < lenZ payload < 2 ^ 32 -> 0 <= paneID < 2 ^ 32 ->
  (readPaneOutputBinary zero (complete (drop 1 (writePaneOutputBinary (mkMessage MsgTypePaneOutput paneID payload 0 [] [] zero)) ++ rest))).2 =
    Err (MessageTooLarge (lenZ payload)) /\
  (readPaneHistoryBinary zero afterError (complete (drop 1 (writePaneHistoryBinary paneID payload) ++ rest))).2 =
    Err (MessageTooLarge (lenZ payload)) /\
  (readGobPayload (complete (drop 1 (writeGobFrame payload) ++ rest))).2 = Err (MessageTooLarge (lenZ payload)).
Proof.
  intros Hl Hp. pose proof (lenZ_nonneg payload). destruct (header_fields paneID (lenZ payload) Hp) as (H8 & _ & Hd); [lia|]. split_and!.
  - unfold readPaneOutputBinary, writePaneOutputBinary. cbn [drop PaneID PaneData]. rewrite drop_0, <- !app_assoc, (app_assoc (BigEndianPutUint32 paneID)).
    unfold bindM at 1. rewrite (reads_Full' 8 _ (eq_sym H8)), Hd. cbv zeta. destruct (Z.ltb_spec maxMessageSize (lenZ payload)); [done|lia].
  - unfold readPaneHistoryBinary, writePaneHistoryBinary. cbn [drop]. rewrite drop_0, <- !app_assoc, (app_assoc (BigEndianPutUint32 paneID)).
    unfold bindM at 1. rewrite (reads_Full' 8 _ (eq_sym H8)), Hd. cbv zeta. destruct (Z.ltb_spec maxMessageSize (lenZ payload)); [done|lia].
  - unfold readGobPayload, writeGobFrame. cbn [drop]. rewrite drop_0. unfold bindM at 1. rewrite <- app_assoc, (reads_Full' 4) by done.
    cbv zeta. rewrite uint32Of_be by lia. destruct (Z.ltb_spec maxMessageSize (lenZ payload)); [done|lia].
Qed.
Lemma oversized_refused_witness :
  (readGobPayload (complete (drop 1 (writeGobFrame (replicate (Z.to_nat (2 ^ 24 + 1)) 0)) ++ []))).2 = Err (MessageTooLarge (2 ^ 24 + 1)).
Proof.
  assert (Hl : lenZ (replicate (Z.to_nat (2 ^ 24 + 1)) 0) = 2 ^ 24 + 1)
    by (unfold lenZ; rewrite length_replicate, Z2Nat.id by lia; reflexivity).
  destruct (oversized_refused tt id 0 (replicate (Z.to_nat (2 ^ 24 + 1)) 0) []) as (_ & _ & H).
  - rewrite Hl. split; reflexivity.
  - split; [discriminate|reflexivity].
  - rewrite H, Hl. reflexivity.
Defined.
