(* ===== verification/HistoryProps.v ===== *)
(** * A history in chunks: properties *)

From S2P Require Import Prelude GoText GoWire PaneHistory PaneHistoryFacts Wire WireFacts HistoryChunks HistoryFacts WireProps.

#[local] Existing Instance sampleGob.
#[local] Existing Instance sampleGobLaws.

(** ** Sizes of binary messages *)

Definition widthsOk (lines : list StyledLine) : Prop := Forall (fun l => Forall (fun c => 0 <= Width c) (Cells l)) lines.

Lemma badWidths_nil lines : badWidths lines = [] <-> widthsOk lines.
Proof.
  unfold badWidths, widthsOk. induction lines as [|l lines IH]; [by split|]. cbn [mbind list_bind].
  rewrite Forall_cons, <- negativeWidths_nil, <- IH. split; [by intros [? ?]%app_eq_nil|by intros [-> ->]].
Qed.
Lemma subslice_incl {A} a b (l : list A) : subslice a b l ⊆ l.
Proof. unfold subslice. intros x Hx. by apply (subseteq_drop (Z.to_nat a)), (subseteq_take (Z.to_nat b - Z.to_nat a)). Qed.
Lemma Forall_subslice {A} (P : A -> Prop) a b l : Forall P l -> Forall P (subslice a b l).
Proof. rewrite !Forall_forall. intros HP x Hx. by apply HP, (subslice_incl a b). Qed.
Lemma encode_widthsOk lines : widthsOk lines -> exists p, encodePaneHistoryPayloadFresh (ofLines lines) = Ok p.
Proof. intros Hw. apply badWidths_nil in Hw. pose proof (encode_errors (ofLines lines)) as H. simpl in H. by rewrite Hw in H. Qed.

Section Binary.
Context {X : Type} `{Gob X} (zero : X) (paneID : Z) (history : list StyledLine) (maxChunkSize : Z).

Lemma sizeOf_binary a b :
  sizeOf zero paneID history true a b =
  bindR (encodePaneHistoryPayloadFresh (ofLines (subslice a b history))) (fun p => Ok (lenZ p + 9)).
Proof.
  unfold sizeOf, estimatePaneHistoryMessageSize, newPaneHistoryMessage, writerWriteMsg. cbn [mType].
  change (isCompactOutput _) with false. cbv iota. cbn [binaryPaneHistory SetBinaryPaneHistory andb Z.eqb Pos.eqb MsgTypePaneHistory].
  unfold encodePaneHistoryPayload, lift.
  change (encodePaneHistoryPayloadFresh (historyOf _)) with (encodePaneHistoryPayloadFresh (ofLines (subslice a b history))).
  destruct (encodePaneHistoryPayloadFresh _) as [p|e]; [|done]. cbn [bindR snd]. unfold writePaneHistoryBinary.
  rewrite lenZ_cons, !lenZ_app. change (lenZ (BigEndianPutUint32 _)) with 4. f_equal. lia.
Qed.
Lemma sizeOk_fits a b :
  sizeOk zero paneID history maxChunkSize true a b <-> chunkFits maxChunkSize (subslice a b history).
Proof.
  unfold sizeOk, chunkFits. rewrite sizeOf_binary. destruct (encodePaneHistoryPayloadFresh _) as [p|e]; cbn [bindR]; [|naive_solver].
  split; [intros (s & [= <-] & Hs)|intros (q & [= <-] & Hs)]; eauto.
Qed.
Lemma sizeOf_total : widthsOk history ->
  forall a b, 0 <= a <= b -> b <= lenZ history -> exists s, sizeOf zero paneID history true a b = Ok s.
Proof.
  intros Hw a b _ _. rewrite sizeOf_binary. destruct (encode_widthsOk (subslice a b history)) as [p ->]; [by apply Forall_subslice|].
  by eexists.
Qed.
Lemma monotone_binary : maxChunkSize < 2 ^ 63 -> monotone zero paneID history maxChunkSize true.
Proof.
  intros Hmax a m m' Ha Hm Hm'. rewrite !sizeOk_fits. intros (p & Hp & Hle).
  destruct (subslice_extend a m m' history Hm) as [r Hr]. rewrite Hr in Hp.
  destruct (encode_prefix _ _ _ Hp) as (p1 & Hp1 & Hle1); [lia|]. exists p1. split; [done|lia].
Qed.

(** The chunks of a history, with their properties. *)
Lemma binary_chunks : maxChunkSize < 2 ^ 63 -> widthsOk history ->
  exists chunks, chunkRanges zero paneID history maxChunkSize true = Ok chunks /\ planOk maxChunkSize history chunks /\
    Forall (fun r => r.2 < lenZ history -> ~ chunkFits maxChunkSize (subslice r.1 (r.2 + 1) history)) chunks.
Proof.
  intros Hmax Hw. destruct (chunkRanges_spec zero paneID history maxChunkSize true (sizeOf_total Hw)) as (chunks & Hc & Hcons & Hg).
  exists chunks. split_and!; [done| |].
  - split; [done|]. eapply Forall_impl; [exact Hg|]. intros r [Hfit _]. by rewrite <- sizeOk_fits.
  - eapply Forall_impl; [exact Hg|]. intros r [_ Hmore] Hlt. rewrite <- sizeOk_fits. by apply Hmore; [apply monotone_binary|].
Qed.
Lemma plan_concat chunks :
  planOk maxChunkSize history chunks -> concat ((fun r => subslice r.1 r.2 history) <$> chunks) = history.
Proof. intros [Hc _]. destruct (consecutive_concat history 0 chunks (lenZ history)) as [_ ->]; [lia|done|apply subslice_full]. Qed.
Lemma rangeMessages_concat chunks :
  concat (StyledHistory <$> (rangeMessage zero paneID history <$> chunks)) = concat ((fun r => subslice r.1 r.2 history) <$> chunks).
Proof. by rewrite <- list_fmap_compose. Qed.
End Binary.

(** Chunking a history whose widths are not negative gives chunks that are together
    the history, in order; a chunk fits the limit or is a single line; and with the
    line after it a chunk would not fit: the bisection finds the largest chunks. *)
Theorem chunks_correct {X} `{Gob X} (zero : X) paneID history maxChunkSize :
  widthsOk history -> history <> [] -> 0 < maxChunkSize < 2 ^ 63 ->
  exists chunks,
    chunkPaneHistoryMessages zero paneID history maxChunkSize true = Ok (rangeMessage zero paneID history <$> chunks) /\
    concat (StyledHistory <$> (rangeMessage zero paneID history <$> chunks)) = history /\
    planOk maxChunkSize history chunks /\
    Forall (fun r => r.2 < lenZ history -> ~ chunkFits maxChunkSize (subslice r.1 (r.2 + 1) history)) chunks.
Proof.
  intros Hw Hne Hmax. destruct (binary_chunks zero paneID history maxChunkSize) as (chunks & Hc & Hp & Hm); [lia|done|].
  exists chunks. rewrite rangeMessages_concat, (plan_concat history maxChunkSize chunks Hp). split_and!; try done.
  unfold chunkPaneHistoryMessages. destruct history as [|l ls]; [done|]. destruct (Z.leb_spec maxChunkSize 0); [lia|].
  by rewrite Hc.
Qed.
Lemma chunks_correct_witness :
  exists msgs, chunkPaneHistoryMessages tt 7 sampleLines 45 true = Ok msgs /\ concat (StyledHistory <$> msgs) = sampleLines.
Proof.
  destruct (chunks_correct tt 7 sampleLines 45) as (chunks & H1 & H2 & _).
  - repeat constructor; vm_compute; discriminate.
  - discriminate.
  - split; reflexivity.
  - eexists. split; [exact H1|exact H2].
Defined.

(** ** From a server to a client *)

(** A line that any message can carry. *)
Definition plainLine (l : StyledLine) : Prop :=
  lenZ (Cells l) <= maxPaneHistoryLineCells /\ Forall (fun c => 0 <= Width c <= 4) (Cells l).
Lemma plain_widths lines : Forall plainLine lines -> widthsOk lines.
Proof. intros H. eapply Forall_impl; [exact H|]. intros l [_ Hl]. eapply Forall_impl; [exact Hl|]. intros c Hc. cbv beta in *. lia. Qed.
Lemma payload_min lines p : encodePaneHistoryPayloadFresh (ofLines lines) = Ok p -> 4 <= lenZ p.
Proof.
  intros He. pose proof (encode_ofLines lines) as H. destruct (writeStyledLines _ lines) as [w|e]; [|congruence].
  destruct H as (p' & Hp' & Hl). rewrite He in Hp'. injection Hp' as <-. rewrite Hl.
  pose proof (lenZ_uvarint (lenZ lines)). pose proof (lenZ_uvarint (lenZ (paneHistoryStyleTable lines).1)).
  pose proof (lenZ_nonneg ((paneHistoryStyleTable lines).1 ≫= writePaneHistoryStyle)). pose proof (lenZ_nonneg w). lia.
Qed.

Section Transfer.
Context {X : Type} `{GobLaws X} (zero : X) (afterError : bytes -> bytes).
Context (contents : Z -> list StyledLine) (paneID maxChunkSize v : Z).
Abbreviation history := (contents v).
Hypothesis Hpane : 0 <= paneID < 2 ^ 32.
Hypothesis Hmax : 0 < maxChunkSize <= maxMessageSize.
Hypothesis Hplain : Forall plainLine history.
(** A single line fits a message. *)
Hypothesis Hlines : Forall (fun l => chunkFits maxMessageSize [l]) history.

(** A message of some of the history that is ready to be sent. *)
Definition ready (m : cacheRef * Message X) : Prop :=
  agrees contents m.1 (historyOf m.2) /\
  exists a b, m.2 = rangeMessage zero paneID history (a, b) /\ chunkFits maxMessageSize (subslice a b history).

Lemma chunkFits_mono n n' lines : n <= n' -> chunkFits n lines -> chunkFits n' lines.
Proof. intros Hn (p & Hp & Hl). exists p. split; [done|lia]. Qed.
Lemma plan_fits chunks r : planOk maxChunkSize history chunks -> r ∈ chunks -> chunkFits maxMessageSize (subslice r.1 r.2 history).
Proof.
  intros [Hc Hf] Hr. rewrite Forall_forall in Hf. destruct (consecutive_range _ _ _ _ Hc Hr) as (H1 & H2 & H3).
  destruct (Hf r Hr) as [Hfit|Hone]; [eapply chunkFits_mono; [|exact Hfit]; lia|].
  pose proof (subslice_length r.1 r.2 history ltac:(lia) H3) as Hlen. pose proof (Forall_subslice _ r.1 r.2 _ Hlines) as Hl.
  rewrite Hone in *. destruct (subslice r.1 (r.1 + 1) history) as [|l [|l' ls]]; unfold lenZ in Hlen; simpl in Hlen; try lia.
  by inversion_clear Hl.
Qed.
Lemma ready_range chunks r : planOk maxChunkSize history chunks -> r ∈ chunks -> ready (Some (v, Some r), rangeMessage zero paneID history r).
Proof.
  intros Hp Hr. destruct r as [a b]. split; [by split|]. exists a, b. split; [done|]. by apply (plan_fits chunks (a, b)).
Qed.
Lemma ready_whole : chunkFits maxMessageSize history -> ready (Some (v, None), newPaneHistoryMessage zero paneID history).
Proof.
  intros Hf. split; [by split|]. exists 0, (lenZ history). unfold rangeMessage. cbn [fst snd]. by rewrite subslice_full.
Qed.

(** What the server sends is ready and is the whole history. *)
Definition sentOk (c' : PaneHistoryPayloadCache) (msgs : list (cacheRef * Message X)) : Prop :=
  cacheOk contents c' /\ Forall ready msgs /\ concat (StyledHistory ∘ snd <$> msgs) = history.

Lemma cachedChunks_spec chunks s :
  0 <= s -> consecutive s chunks (lenZ history) ->
  paneHistoryMessagesFromCachedChunks zero paneID history chunks v =
  Some ((fun r => (Some (v, Some r), rangeMessage zero paneID history r)) <$> chunks).
Proof.
  revert s. induction chunks as [|[a b] chunks IH]; intros s Hs Hc; [done|]. pose proof Hc as Hc0. destruct Hc as (-> & Hab & Hc).
  cbn [paneHistoryMessagesFromCachedChunks]. destruct (consecutive_range _ _ _ (s, b) Hc0) as (_ & _ & Hb); [by left|]. cbn [snd] in Hb.
  destruct (Z.ltb_spec s 0), (Z.leb_spec b s), (Z.ltb_spec (lenZ history) b); try lia. cbn [orb].
  by rewrite (IH b ltac:(lia) Hc).
Qed.
Lemma planned_sent c' chunks :
  cacheOk contents c' -> planOk maxChunkSize history chunks ->
  sentOk c' ((fun r => (Some (v, Some r), rangeMessage zero paneID history r)) <$> chunks).
Proof.
  intros Hc Hp. split_and!; [done| |].
  - apply Forall_fmap, Forall_forall. intros r Hr. by apply (ready_range chunks).
  - rewrite <- list_fmap_compose. by apply (plan_concat history maxChunkSize).
Qed.

Lemma newChunks_sent c : cacheOk contents c ->
  exists c' msgs, newChunks zero paneID history maxChunkSize true (Some v) c = (c', Ok msgs) /\ sentOk c' msgs.
Proof.
  intros Hc. unfold newChunks. destruct (Z.leb_spec maxChunkSize 0); [lia|].
  destruct (binary_chunks zero paneID history maxChunkSize) as (chunks & Hr & Hp & _);
    [unfold maxMessageSize in Hmax; lia|by apply plain_widths|].
  unfold bindM, lift. rewrite Hr.
  assert (Hplan : exists c' msgs, ((run modify (StoreChunkPlan v maxChunkSize chunks);
            ret ((fun r => (Some (v, Some r), rangeMessage zero paneID history r)) <$> chunks)) :
            M PaneHistoryPayloadCache WireError (list (cacheRef * Message X))) c = (c', Ok msgs) /\ sentOk c' msgs).
  { do 2 eexists. split; [reflexivity|]. apply planned_sent; [by apply StoreChunkPlan_ok|done]. }
  destruct chunks as [|r [|r' chunks]]; [exact Hplan| |exact Hplan]. do 2 eexists. split; [reflexivity|].
  assert (r = (0, lenZ history)) as ->. { destruct Hp as [Hcons _]. destruct r as [a b]. simpl in Hcons. by destruct Hcons as (-> & _ & ->). }
  pose proof (plan_fits _ _ Hp (list_elem_of_here _ _)) as Hf. cbn [fst snd] in Hf.
  unfold rangeMessage. cbn [fst snd]. rewrite subslice_full in *. split_and!; [done|apply Forall_singleton; by apply ready_whole|].
  simpl. by rewrite app_nil_r.
Qed.
Lemma chunksWithCache_sent c : cacheOk contents c -> history <> [] ->
  exists c' msgs, chunkPaneHistoryMessagesWithCache zero paneID history maxChunkSize true (Some v) c = (c', Ok msgs) /\ sentOk c' msgs.
Proof.
  intros Hc Hne. unfold chunkPaneHistoryMessagesWithCache.
  assert (forall {A} (x y : A), match history with [] => x | _ => y end = y) as Hmatch by (intros A x y; by destruct history).
  rewrite Hmatch. unfold bindM, get. cbn [mbind option_bind].
  destruct (useCachedPlan zero paneID history maxChunkSize v c) as [msgs|] eqn:Ep.
  - do 2 eexists. split; [reflexivity|]. unfold useCachedPlan, ChunkPlan in Ep. destruct (Z.eqb_spec (version c) v) as [Hv|]; [|done].
    destruct (chunkPlans c !! maxChunkSize) as [chunks|] eqn:El; [|done]. cbn [mbind option_bind] in Ep.
    pose proof Hc as (_ & _ & Hpl). specialize (Hpl _ _ El). rewrite Hv in Hpl.
    rewrite (cachedChunks_spec chunks 0) in Ep by (try lia; apply Hpl). injection Ep as <-. by apply planned_sent.
  - destruct (useCachedPayload zero paneID history maxChunkSize v c) as [msgs|] eqn:Eq; [|by apply newChunks_sent].
    do 2 eexists. split; [reflexivity|]. unfold useCachedPayload, PayloadLen, cacheGet in Eq.
    destruct (Z.eqb_spec (version c) v) as [Hv|]; [|done]. destruct (payload c) as [p|] eqn:Epl; [|done]. simpl in Eq.
    unfold paneHistoryBinaryFrameHeaderSize in Eq. destruct (Z.leb_spec (lenZ p + 9) maxChunkSize); [|done]. injection Eq as <-.
    pose proof Hc as (Hpl & _). specialize (Hpl p Epl). rewrite Hv in Hpl.
    split_and!; [done|apply Forall_singleton, ready_whole; exists p; split; [done|lia]|]. simpl. by rewrite app_nil_r.
Qed.

Lemma encode_range r :
  encodePaneHistoryPayloadFresh (historyOf (rangeMessage zero paneID history r)) =
  encodePaneHistoryPayloadFresh (ofLines (subslice r.1 r.2 history)).
Proof. reflexivity. Qed.
Lemma write_ready m w c : ready m -> cacheOk contents c -> binaryPaneHistory w = true ->
  exists c' frame, writerWriteMsg m.1 m.2 (w, c) = ((w, c'), Ok frame) /\ lenZ frame <= maxMessageSize /\ cacheOk contents c'.
Proof.
  destruct m as [ref msg]. intros [Ha (a & b & Em & p & Hp & Hl)] Hc Hb. cbn [fst snd] in *. subst msg.
  destruct (encode_cached contents ref _ c Hc Ha) as [Hc' He]. unfold writerWriteMsg. change (isCompactOutput _) with false. cbv iota.
  change (mType _ =? MsgTypePaneHistory) with true. rewrite Hb. cbn [andb].
  destruct (encodePaneHistoryPayload ref _ c) as [c1 res]. cbn [fst snd] in *.
  rewrite encode_range in He. cbn [fst snd] in He. rewrite Hp in He. subst res. do 2 eexists. split_and!; [reflexivity| |done].
  unfold writePaneHistoryBinary. rewrite lenZ_cons, !lenZ_app. change (lenZ (BigEndianPutUint32 _)) with 4. lia.
Qed.
Lemma writeAll_ready msgs w c : Forall ready msgs -> cacheOk contents c -> binaryPaneHistory w = true ->
  exists c' frames, writeAll msgs (w, c) = ((w, c'), Ok frames) /\ Forall (fun f => lenZ f <= maxMessageSize) frames.
Proof.
  intros Hr. revert c. induction Hr as [|[ref msg] msgs Hm _ IH]; intros c Hc Hb; [by do 2 eexists|].
  cbn [writeAll]. unfold bindM at 1. destruct (write_ready _ w c Hm Hc Hb) as (c1 & frame & Hw & Hl & Hc1). cbn [fst snd] in Hw.
  rewrite Hw. destruct (IH c1 Hc1 Hb) as (c2 & frames & Hws & Hf). unfold bindM. rewrite Hws. do 2 eexists. split; [reflexivity|].
  by constructor.
Qed.
Lemma ready_sendable m : ready m -> sendable m.2.
Proof.
  destruct m as [ref msg]. intros [_ (a & b & Em & _)]. cbn [snd] in *. subst msg. split; [exact Hpane|]. intros p Hp.
  rewrite encode_range in Hp. apply payload_min in Hp. eapply Forall_impl; [apply (Forall_subslice _ a b _ Hplain)|]. intros l [H1 H2]. split; [done|].
  eapply Forall_impl; [exact H2|]. intros c Hw. cbv beta in *. lia.
Qed.
Lemma ready_delivered m : ready m ->
  StyledHistory (delivered zero true m.2) = normLine <$> StyledHistory m.2 /\
  mHistory (delivered zero true m.2) = StyledLineText (StyledHistory m.2).
Proof. destruct m as [ref msg]. intros [_ (a & b & Em & _)]. cbn [snd] in *. by subst msg. Qed.
Lemma delivered_concat msgs : Forall ready msgs ->
  concat (StyledHistory <$> (delivered zero true ∘ snd <$> msgs)) = normLine <$> concat (StyledHistory ∘ snd <$> msgs) /\
  concat (mHistory <$> (delivered zero true ∘ snd <$> msgs)) = StyledLineText (concat (StyledHistory ∘ snd <$> msgs)).
Proof.
  induction 1 as [|m msgs Hm _ [IH1 IH2]]; [done|]. destruct (ready_delivered m Hm) as [H1 H2].
  cbn [fmap list_fmap concat]. unfold StyledLineText in *. rewrite !fmap_app, IH1, IH2.
  unfold compose in *. by rewrite H1, H2.
Qed.
End Transfer.

(** C14. Within the limits of the format, a pane's history arrives.  Let the history have
    a line at least, no line of more than 65536 cells, no cell that is not 0 to 4
    columns wide, and no line that encodes alone to a payload of more than 16 MiB
    (the limit of the reader), and let the size of a chunk be positive and at most
    16 MiB.  Then a server that chunks the history with its cache, when all that
    the cache holds is of the contents of its version, and writes the chunks to a
    client that agreed on the binary encoding and is in step with it, succeeds;
    the client reads as many messages, whose lines are together the history, in
    order, as text and as styled lines (with colours and underlines as the
    encoding has them); the two stay in step, and the cache as it was required.
    Beyond the limits [oversized_refused] shows what happens: the payload is
    written, and the reader refuses it. *)
Theorem history_transfer {X} `{GobLaws X} (zero : X) afterError contents paneID maxChunkSize v c w r rest :
  0 <= paneID < 2 ^ 32 -> 0 < maxChunkSize <= maxMessageSize ->
  Forall plainLine (contents v) -> Forall (fun l => chunkFits maxMessageSize [l]) (contents v) -> contents v <> [] ->
  cacheOk contents c -> binaryPaneHistory w = true -> inSync w r ->
  exists c1 msgs c2 frames r' got,
    chunkPaneHistoryMessagesWithCache zero paneID (contents v) maxChunkSize true (Some v) c = (c1, Ok msgs) /\
    writeAll msgs (w, c1) = ((w, c2), Ok frames) /\ cacheOk contents c2 /\
    readAll zero afterError (length msgs) (r, complete (concat frames ++ rest)) = ((r', complete rest), Ok got) /\ inSync w r' /\
    concat (StyledHistory <$> got) = normLine <$> contents v /\ concat (mHistory <$> got) = StyledLineText (contents v).
Proof.
  intros Hpane Hmax Hplain Hlines Hne Hc Hb Hs.
  destruct (chunksWithCache_sent zero contents paneID maxChunkSize v Hmax Hplain Hlines c Hc Hne) as (c1 & msgs & Hch & Hc1 & Hready & Hcat).
  destruct (writeAll_ready zero contents paneID v msgs w c1 Hready Hc1 Hb) as (c2 & frames & Hw & Hf).
  assert (Forall (fun m => agrees contents m.1 (historyOf m.2) /\ sendable m.2) msgs) as Hm.
  { eapply Forall_impl; [exact Hready|]. intros m Hr. split; [apply Hr|by eapply ready_sendable]. }
  destruct (writeAll_readAll zero afterError contents msgs w c1 w c2 frames r rest Hc1 Hs Hm Hw Hf) as (Hc2 & r' & Hs' & Hr).
  destruct (delivered_concat zero contents paneID v msgs Hready) as [H1 H2]. rewrite Hb in Hr. rewrite Hcat in H1, H2.
  by exists c1, msgs, c2, frames, r', (delivered zero true ∘ snd <$> msgs).
Qed.
Lemma history_transfer_witness :
  exists c1 msgs c2 frames r' got,
    chunkPaneHistoryMessagesWithCache tt 7 sampleLines 45 true (Some 1) emptyCache = (c1, Ok msgs) /\ length msgs = 2%nat /\
    writeAll msgs (SetBinaryPaneHistory true NewWriter, c1) = (SetBinaryPaneHistory true NewWriter, c2, Ok frames) /\
    readAll tt id 2 (NewReader, complete (concat frames ++ [])) = ((r', complete []), Ok got) /\
    concat (mHistory <$> got) = [bytesOf "aab"; bytesOf "plain"].
Proof.
  destruct (history_transfer tt id (fun _ => sampleLines) 7 45 1 emptyCache (SetBinaryPaneHistory true NewWriter) NewReader [])
    as (c1 & msgs & c2 & frames & r' & got & Hch & Hw & _ & Hr & _ & _ & Ht).
  - by split.
  - by split.
  - repeat constructor; vm_compute; discriminate.
  - repeat constructor; eexists; (split; [vm_compute; reflexivity|vm_compute; discriminate]).
  - discriminate.
  - apply emptyCache_ok.
  - reflexivity.
  - split; [reflexivity|exact I].
  - assert (length msgs = 2%nat) as Hlen by (vm_compute in Hch; injection Hch as <- <-; reflexivity).
    rewrite Hlen in Hr. exists c1, msgs, c2, frames, r', got. split_and!; [exact Hch|exact Hlen|exact Hw|exact Hr|exact Ht].
Defined.
