(* ===== verification/PaneMeta.v ===== *)
(** * Pane metadata (internal/mux/pane_meta_kv.go, meta_kv.go, pane.go,
    server/commands/meta/meta.go, server/session_mirror_meta.go,
    server/commands_layout.go, server/session_events_pane.go)

    A pane has metadata fields and a map of keys the user sets; five keys stand
    for fields.  The branch is also detected from the working directory, unless
    the user set it.  A map that is nil is the empty map: every write goes to a
    map that hydrateReservedKV or setForwardedMetaKV has made. *)

From S2P Require Import Prelude GoText GoCodec Scanner.

(** ** Data *)

Record TrackedPR : Set := mkTrackedPR {
  prNumber : Z; prStatus : string; prStale : bool; prCheckedAt : string }.
Record TrackedIssue : Set := mkTrackedIssue {
  issueID : string; issueStatus : string; issueStale : bool; issueCheckedAt : string }.

Record PaneMeta : Type := mkPaneMeta {
  metaName : string; metaHost : string; metaTask : string; metaKV : gmap string string;
  metaColor : string; metaDormant : bool; metaDir : string; metaGitBranch : string;
  metaPR : string; metaTrackedPRs : list TrackedPR; metaTrackedIssues : list TrackedIssue }.

Definition withKV (kv : gmap string string) (m : PaneMeta) : PaneMeta :=
  mkPaneMeta (metaName m) (metaHost m) (metaTask m) kv (metaColor m) (metaDormant m) (metaDir m)
    (metaGitBranch m) (metaPR m) (metaTrackedPRs m) (metaTrackedIssues m).
Definition withTexts (task branch pr : string) (m : PaneMeta) : PaneMeta :=
  mkPaneMeta (metaName m) (metaHost m) task (metaKV m) (metaColor m) (metaDormant m) (metaDir m)
    branch pr (metaTrackedPRs m) (metaTrackedIssues m).
Definition withTracked (prs : list TrackedPR) (issues : list TrackedIssue) (m : PaneMeta) : PaneMeta :=
  mkPaneMeta (metaName m) (metaHost m) (metaTask m) (metaKV m) (metaColor m) (metaDormant m) (metaDir m)
    (metaGitBranch m) (metaPR m) prs issues.

Definition PaneMetaKeyTask : string := "task".
Definition PaneMetaKeyBranch : string := "branch".
Definition PaneMetaKeyPR : string := "pr".
Definition PaneMetaKeyTrackedPRs : string := "tracked_prs".
Definition PaneMetaKeyTrackedIssues : string := "tracked_issues".

Inductive MetaError : Set :=
| errInvalidValue (key : string)        (* invalid %s value: ... *)
| errKVArg (raw : string)               (* invalid key=value: %q *)
| errMetaUsage
| errResolve (ref : string)             (* the pane reference does not resolve *)
| errPaneExists (name : string).        (* pane %q already exists *)

(** What a pane keeps: the metadata, whether the user pinned the branch, and the
    last working directory. *)
Record MetaPane : Type := mkMetaPane {
  paneMeta : PaneMeta; metaManualBranch : bool; liveCwd : string }.

(** encoding/json on a slice of tracked references. *)
Class JSONValues (A : Type) : Type := mkJSONValues {
  marshal : list A -> string;
  unmarshal : string -> option (list A);
  clean : A -> A }.
(** What is written is read back with every invalid UTF-8 sequence replaced by
    U+FFFD ([clean]); what is read is valid UTF-8; no value is written as the
    empty text. *)
Class JSONLaws (A : Type) `{JSONValues A} : Prop := mkJSONLaws {
  unmarshal_marshal : forall l, unmarshal (marshal l) = Some (map clean l);
  unmarshal_clean : forall s l, unmarshal s = Some l -> map clean l = l;
  marshal_text : forall l : list A, marshal l <> ""%string }.

Section PaneMeta.
Context `{JPR : JSONValues TrackedPR} `{JIS : JSONValues TrackedIssue}.

(** ** Reading and writing the reserved keys *)

Definition formatTrackedPRsValue (prs : list TrackedPR) : string :=
  match prs with [] => ""%string | _ => marshal prs end.
Definition formatTrackedIssuesValue (issues : list TrackedIssue) : string :=
  match issues with [] => ""%string | _ => marshal issues end.
Definition parseTrackedPRsValue (raw : string) : option (list TrackedPR) :=
  match raw with EmptyString => Some [] | _ => unmarshal raw end.
Definition parseTrackedIssuesValue (raw : string) : option (list TrackedIssue) :=
  match raw with EmptyString => Some [] | _ => unmarshal raw end.

(** [if text != "" { kv[key] = text }] *)
Definition putText (key text : string) (kv : gmap string string) : gmap string string :=
  match text with EmptyString => kv | _ => <[key := text]> kv end.

Definition hydratedKV (m : PaneMeta) : gmap string string :=
  let kv := putText PaneMetaKeyTask (metaTask m) (metaKV m) in
  let kv := putText PaneMetaKeyBranch (metaGitBranch m) kv in
  let kv := putText PaneMetaKeyPR (metaPR m) kv in
  let kv := match metaTrackedPRs m with
            | [] => kv
            | prs => <[PaneMetaKeyTrackedPRs := formatTrackedPRsValue prs]> kv end in
  match metaTrackedIssues m with
  | [] => kv
  | issues => <[PaneMetaKeyTrackedIssues := formatTrackedIssuesValue issues]> kv
  end.
Definition hydrateReservedKV (m : PaneMeta) : PaneMeta := withKV (hydratedKV m) m.

Abbreviation MM := (M PaneMeta MetaError).

Definition applyTexts (m : PaneMeta) : PaneMeta :=
  withTexts (default ""%string (metaKV m !! PaneMetaKeyTask))
    (default ""%string (metaKV m !! PaneMetaKeyBranch))
    (default ""%string (metaKV m !! PaneMetaKeyPR)) m.

Definition applyTrackedPRs : MM unit := fun m =>
  match metaKV m !! PaneMetaKeyTrackedPRs with
  | None => (withTracked [] (metaTrackedIssues m) m, Ok tt)
  | Some raw =>
      match parseTrackedPRsValue raw with
      | None => (m, Err (errInvalidValue PaneMetaKeyTrackedPRs))
      | Some prs =>
          let m := withTracked prs (metaTrackedIssues m) m in
          (withKV match prs with
                  | [] => delete PaneMetaKeyTrackedPRs (metaKV m)
                  | _ => <[PaneMetaKeyTrackedPRs := formatTrackedPRsValue prs]> (metaKV m)
                  end m, Ok tt)
      end
  end.

Definition applyTrackedIssues : MM unit := fun m =>
  match metaKV m !! PaneMetaKeyTrackedIssues with
  | None => (withTracked (metaTrackedPRs m) [] m, Ok tt)
  | Some raw =>
      match parseTrackedIssuesValue raw with
      | None => (m, Err (errInvalidValue PaneMetaKeyTrackedIssues))
      | Some issues =>
          let m := withTracked (metaTrackedPRs m) issues m in
          (withKV match issues with
                  | [] => delete PaneMetaKeyTrackedIssues (metaKV m)
                  | _ => <[PaneMetaKeyTrackedIssues := formatTrackedIssuesValue issues]> (metaKV m)
                  end m, Ok tt)
      end
  end.

(** The fields take the values of their keys; an error leaves the fields and
    keys of the earlier ones written. *)
Definition applyPaneMetaKV : MM unit :=
  run modify applyTexts;
  run applyTrackedPRs;
  applyTrackedIssues.

Definition hasManualBranchOverride (m : PaneMeta) : bool :=
  bool_decide (is_Some (metaKV m !! PaneMetaKeyBranch)).

Definition NormalizePaneMeta : MM bool :=
  do m <- get;
  run modify hydrateReservedKV;
  run applyPaneMetaKV;
  ret (hasManualBranchOverride m).

(** [next] is a copy: it is written back only on success. *)
Definition commitPaneMeta (next : PaneMeta) : MM bool := fun m =>
  match applyPaneMetaKV next with
  | (_, Err e) => (m, Err e)
  | (next, Ok _) => (next, Ok (hasManualBranchOverride next))
  end.

Definition SetPaneMetaKV (key value : string) : MM bool :=
  do m <- get;
  let next := hydrateReservedKV m in
  commitPaneMeta (withKV (<[key := value]> (metaKV next)) next).

Definition RemovePaneMetaKV (key : string) : MM bool :=
  do m <- get;
  let next := hydrateReservedKV m in
  commitPaneMeta (withKV (delete key (metaKV next)) next).

(** The map shown to the user. *)
Definition NormalizedMetaKV (m : PaneMeta) : gmap string string :=
  putText PaneMetaKeyPR (metaPR m)
    (putText PaneMetaKeyBranch (metaGitBranch m)
      (putText PaneMetaKeyTask (metaTask m) (metaKV m))).

(** ** The commands (server/commands/meta/meta.go) *)

Definition withMeta (m : PaneMeta) (p : MetaPane) : MetaPane :=
  mkMetaPane m (metaManualBranch p) (liveCwd p).
Definition SetMetaManualBranch (manual : bool) (p : MetaPane) : MetaPane :=
  mkMetaPane (paneMeta p) manual (liveCwd p).

Abbreviation MP := (M MetaPane MetaError).

(** The update of SetPaneKVValue and RemovePaneKVValue. *)
Definition updatePaneKV (key : string) (f : MM bool) : MP unit := fun p =>
  match f (paneMeta p) with
  | (m, Err e) => (withMeta m p, Err e)
  | (m, Ok manual) =>
      let p := withMeta m p in
      (if decide (key = PaneMetaKeyBranch) then SetMetaManualBranch manual p else p, Ok tt)
  end.
Definition SetPaneKVValue (key value : string) : MP unit := updatePaneKV key (SetPaneMetaKV key value).
Definition RemovePaneKVValue (key : string) : MP unit := updatePaneKV key (RemovePaneMetaKV key).

(** strings.Cut at the first '='. *)
Definition ParseKVArg (raw : string) : result MetaError (string * string) :=
  match indexByte 61 (bytesOf raw) with
  | None => Err (errKVArg raw)
  | Some i =>
      let key := take i (bytesOf raw) in
      match TrimSpace key with
      | [] => Err (errKVArg raw)
      | _ => Ok (stringOf key, stringOf (drop (S i) (bytesOf raw)))
      end
  end.

Fixpoint setPairs (kvPairs : list string) : MP unit :=
  match kvPairs with
  | [] => ret tt
  | raw :: rest =>
      do kv <- lift (ParseKVArg raw);
      run SetPaneKVValue kv.1 kv.2;
      setPairs rest
  end.
Fixpoint removeKeys (keys : list string) : MP unit :=
  match keys with
  | [] => ret tt
  | key :: rest => run RemovePaneKVValue key; removeKeys rest
  end.

(** The panes of the session, and the resolution of a pane reference. *)
Abbreviation MetaStore := (gmap Z MetaPane).
Context (resolve : string -> option Z).

Definition onPane (paneRef : string) (f : MP unit) : M MetaStore MetaError unit := fun st =>
  match resolve paneRef with
  | None => (st, Err (errResolve paneRef))
  | Some id =>
      match st !! id with
      | None => (st, Err (errResolve paneRef))
      | Some p => let '(p, r) := f p in (<[id := p]> st, r)
      end
  end.
Definition setKV (paneRef : string) (kvPairs : list string) : M MetaStore MetaError unit :=
  onPane paneRef (setPairs kvPairs).
Definition rmKV (paneRef : string) (keys : list string) : M MetaStore MetaError unit :=
  onPane paneRef (removeKeys keys).

Definition FormatPaneKV (m : PaneMeta) (requested : list string) : string :=
  let kv := NormalizedMetaKV m in
  if decide (kv = ∅) then ""%string
  else
    let keys := match requested with [] => sortStrings (map_to_list kv).*1 | _ => requested end in
    foldr String.append ""%string
      (omap (fun key =>
       (fun value => (key ++ "=" ++ value ++ String (charOf 10) "")%string) <$> kv !! key) keys).

Definition QueryPaneKV (paneRef : string) (requested : list string) : M MetaStore MetaError string := fun st =>
  match resolve paneRef ≫= (st !!.) with
  | None => (st, Err (errResolve paneRef))
  | Some p => (st, Ok (FormatPaneKV (paneMeta p) requested))
  end.

Definition MetaSet (args : list string) : M MetaStore MetaError unit :=
  match args with paneRef :: (_ :: _) as kvPairs => setKV paneRef kvPairs | _ => throw errMetaUsage end.
Definition MetaRm (args : list string) : M MetaStore MetaError unit :=
  match args with paneRef :: (_ :: _) as keys => rmKV paneRef keys | _ => throw errMetaUsage end.
Definition MetaGet (args : list string) : M MetaStore MetaError string :=
  match args with paneRef :: requested => QueryPaneKV paneRef requested | [] => throw errMetaUsage end.

(** Meta dispatches on the first argument; the output is empty but for get. *)
Definition MetaCommand (args : list string) : M MetaStore MetaError string :=
  match args with
  | [] => throw errMetaUsage
  | sub :: args =>
      if decide (sub = "set"%string) then run MetaSet args; ret ""%string
      else if decide (sub = "get"%string) then MetaGet args
      else if decide (sub = "rm"%string) then run MetaRm args; ret ""%string
      else throw errMetaUsage
  end.

(** ** Events that change a pane's metadata *)

(** ApplyCwdBranch (mux/pane.go): what was detected in the working directory. *)
Definition ApplyCwdBranch (cwd branch : string) (p : MetaPane) : MetaPane :=
  let m := paneMeta p in
  mkMetaPane (if metaManualBranch p then m else withTexts (metaTask m) branch (metaPR m) m)
    (metaManualBranch p) cwd.

Definition setOptional (key : string) (value : option string) (p : MetaPane) : MetaPane :=
  match value with Some v => fst (SetPaneKVValue key v p) | None => p end.
(** metaUpdateEvent: an escape sequence of the pane's program; errors are dropped. *)
Definition handleMetaUpdate (u : MetaUpdate) (p : MetaPane) : MetaPane :=
  setOptional PaneMetaKeyBranch (updBranch u)
    (setOptional PaneMetaKeyPR (updPR u) (setOptional PaneMetaKeyTask (updTask u) p)).

(** What the server of a remote pane tells its mirrors. *)
Record PaneMetaUpdate : Type := mkPaneMetaUpdate {
  fwdBranch : string; fwdPR : string; fwdPRs : list TrackedPR; fwdIssues : list TrackedIssue }.
Definition paneMetaUpdate (p : MetaPane) : PaneMetaUpdate :=
  mkPaneMetaUpdate (metaGitBranch (paneMeta p)) (metaPR (paneMeta p))
    (metaTrackedPRs (paneMeta p)) (metaTrackedIssues (paneMeta p)).

Definition setForwardedMetaKV (key value : string) (kv : gmap string string) : gmap string string :=
  match value with EmptyString => delete key kv | _ => <[key := value]> kv end.
Definition setForwardedMetaJSONKV {A} `{JSONValues A} (key : string) (values : list A)
    (kv : gmap string string) : gmap string string :=
  match values with [] => delete key kv | _ => setForwardedMetaKV key (marshal values) kv end.

Definition applyForwardedPaneMetaUpdate (u : PaneMetaUpdate) (p : MetaPane) : MetaPane :=
  let m := paneMeta p in
  let m := withTracked (fwdPRs u) (fwdIssues u) (withTexts (metaTask m) (fwdBranch u) (fwdPR u) m) in
  let kv := setForwardedMetaKV PaneMetaKeyBranch (fwdBranch u) (metaKV m) in
  let kv := setForwardedMetaKV PaneMetaKeyPR (fwdPR u) kv in
  let kv := setForwardedMetaJSONKV PaneMetaKeyTrackedPRs (fwdPRs u) kv in
  let kv := setForwardedMetaJSONKV PaneMetaKeyTrackedIssues (fwdIssues u) kv in
  withMeta (withKV kv m) p.

(** A new or restored pane: its metadata is normalized and the branch pinned if
    it has the key. *)
Definition newMetaPane (m : PaneMeta) : result MetaError MetaPane :=
  match NormalizePaneMeta m with
  | (m, Ok manual) => Ok (mkMetaPane m manual "")
  | (_, Err e) => Err e
  end.

(** ** Renaming a pane and replacing its process *)

Definition withName (name : string) (m : PaneMeta) : PaneMeta :=
  mkPaneMeta name (metaHost m) (metaTask m) (metaKV m) (metaColor m) (metaDormant m) (metaDir m)
    (metaGitBranch m) (metaPR m) (metaTrackedPRs m) (metaTrackedIssues m).
Definition withDir (dir : string) (m : PaneMeta) : PaneMeta :=
  mkPaneMeta (metaName m) (metaHost m) (metaTask m) (metaKV m) (metaColor m) (metaDormant m) dir
    (metaGitBranch m) (metaPR m) (metaTrackedPRs m) (metaTrackedIssues m).

(** [pane.Meta.Name = name] *)
Definition setName (name : string) (p : MetaPane) : MetaPane := withMeta (withName name (paneMeta p)) p.

(** The name of a pane is that of no other one. *)
Definition nameTaken (id : Z) (name : string) (st : MetaStore) : bool :=
  existsb (fun '(id', q) => bool_decide (id' <> id) && bool_decide (metaName (paneMeta q) = name)) (map_to_list st).

(** runRename (server/commands_layout.go). *)
Definition runRename (paneRef name : string) : M MetaStore MetaError string := fun st =>
  match resolve paneRef ≫= (fun id => pair id <$> st !! id) with
  | None => (st, Err (errResolve paneRef))
  | Some (id, p) =>
      let oldName := metaName (paneMeta p) in
      if decide (oldName = name) then (st, Ok ("Pane name unchanged" ++ String (charOf 10) "")%string)
      else if nameTaken id name st then (st, Err (errPaneExists name))
      else (<[id := setName name p]> st,
            Ok ("Renamed " ++ oldName ++ " to " ++ name ++ String (charOf 10) "")%string)
  end.

(** [if a == "" { a = b }] *)
Definition orText (a b : string) : string := match a with EmptyString => b | _ => a end.

(** Pane.Respawn, once the new shell has started. *)
Definition Respawn (dir : string) (p : MetaPane) : MetaPane :=
  let dir := orText (orText dir (liveCwd p)) (metaDir (paneMeta p)) in
  mkMetaPane (withDir dir (paneMeta p)) (metaManualBranch p) dir.

(** Pane.Replacement: a second pane, made like a new one in the directory, then
    given the metadata of the first. *)
Definition Replacement (startDir : string) (p : MetaPane) : result MetaError MetaPane :=
  let meta := paneMeta p in
  let launchMeta := match startDir with EmptyString => meta | _ => withDir startDir meta end in
  match newMetaPane launchMeta with
  | Err e => Err e
  | Ok pane =>
      let pane := SetMetaManualBranch (metaManualBranch p) (withMeta meta pane) in
      Ok match startDir with EmptyString => pane | _ => ApplyCwdBranch startDir (metaGitBranch meta) pane end
  end.

(** localPaneBuildResultEvent: the pane that was built takes the place of its
    placeholder and its metadata. *)
Definition installBuilt (built current : MetaPane) : MetaPane :=
  SetMetaManualBranch (metaManualBranch current) (withMeta (paneMeta current) built).

(** A pane restored from a checkpoint: None if it is skipped. *)
Definition restoredPane (p : MetaPane) : option MetaPane :=
  match newMetaPane (paneMeta p) with
  | Err _ => None
  | Ok pane => Some (SetMetaManualBranch (metaManualBranch p) pane)
  end.

(** What can happen to the metadata of the pane of an ID.  A respawn command
    builds the second pane outside the session's loop ([evBuild]) and has it
    take the place of the first one later ([evPublish], of one of the panes that
    are built), unless another one has done so before. *)
Inductive MetaEvent : Type :=
| evSet (kvPairs : list string)
| evRemove (keys : list string)
| evSequence (u : MetaUpdate)
| evCwd (cwd branch : string)
| evForwarded (u : PaneMetaUpdate)
| evRename (name : string)
| evRespawn (dir : string)
| evBuild (startDir : string)
| evPublish (i : nat)
| evInstall (built : MetaPane)
| evRestore.

(** The pane and the replacements that are built. *)
Definition onMetaEvent (st : MetaPane * list MetaPane) (ev : MetaEvent) : MetaPane * list MetaPane :=
  let '(p, built) := st in
  match ev with
  | evSet kvPairs => (fst (setPairs kvPairs p), built)
  | evRemove keys => (fst (removeKeys keys p), built)
  | evSequence u => (handleMetaUpdate u p, built)
  | evCwd cwd branch => (ApplyCwdBranch cwd branch p, built)
  | evForwarded u => (applyForwardedPaneMetaUpdate u p, built)
  | evRename name => (setName name p, built)
  | evRespawn dir => (Respawn dir p, built)
  | evBuild startDir => (p, built ++ match Replacement startDir p with Ok q => [q] | Err _ => [] end)
  | evPublish i => match built !! i with Some q => (q, []) | None => (p, built) end
  | evInstall q => (installBuilt q p, [])
  | evRestore => match restoredPane p with Some q => (q, []) | None => (p, built) end
  end.
End PaneMeta.
