(* ===== verification/PaneMetaFacts.v ===== *)
(** * Pane metadata: the invariant and what each operation does *)

From S2P Require Import Prelude GoText GoCodec Scanner PaneMeta.

Section Facts.
Context `{JPR : JSONValues TrackedPR} `{JIS : JSONValues TrackedIssue}.
Context `{!JSONLaws TrackedPR} `{!JSONLaws TrackedIssue}.

(** ** The invariant *)

(** The entry of a list of references: none for the empty list. *)
Definition listEntry {A} `{JSONValues A} (l : list A) : option string :=
  match l with [] => None | _ => Some (marshal l) end.

(** The fields are what the keys say, and no text has invalid UTF-8. *)
Record metaOk (m : PaneMeta) : Prop := mkMetaOk {
  mo_task : metaTask m = default ""%string (metaKV m !! PaneMetaKeyTask);
  mo_pr : metaPR m = default ""%string (metaKV m !! PaneMetaKeyPR);
  mo_prs : metaKV m !! PaneMetaKeyTrackedPRs = listEntry (metaTrackedPRs m);
  mo_issues : metaKV m !! PaneMetaKeyTrackedIssues = listEntry (metaTrackedIssues m);
  mo_cleanPRs : map clean (metaTrackedPRs m) = metaTrackedPRs m;
  mo_cleanIssues : map clean (metaTrackedIssues m) = metaTrackedIssues m }.
Definition branchOk (m : PaneMeta) : Prop :=
  metaGitBranch m = default ""%string (metaKV m !! PaneMetaKeyBranch).
(** The branch agrees with its key unless it is the detected one. *)
Definition paneOk (p : MetaPane) : Prop :=
  metaOk (paneMeta p) /\ (metaManualBranch p = true -> branchOk (paneMeta p)).

(** The fields that no operation on keys changes. *)
Definition sameIdentity (m m' : PaneMeta) : Prop :=
  metaName m' = metaName m /\ metaHost m' = metaHost m /\ metaColor m' = metaColor m /\
  metaDormant m' = metaDormant m /\ metaDir m' = metaDir m.
#[global] Instance sameIdentity_preorder : PreOrder sameIdentity.
Proof.
  split; [by intros m; split_and!|]. unfold sameIdentity. intros a b c (?&?&?&?&?) (?&?&?&?&?). by split_and!; congruence.
Qed.

Lemma putText_same key kv : putText key (default ""%string (kv !! key)) kv = kv.
Proof.
  destruct (kv !! key) as [[|c s]|] eqn:E; simpl; [done| |done]. by apply insert_id.
Qed.
Lemma putText_other key key' text kv : key <> key' -> putText key text kv !! key' = kv !! key'.
Proof. intros. destruct text; simpl; [done|]. by rewrite lookup_insert_ne. Qed.

(** Under the invariant only a detected branch is added. *)
Definition shownKV (m : PaneMeta) : gmap string string :=
  putText PaneMetaKeyBranch (metaGitBranch m) (metaKV m).

Lemma shownKV_other m key : key <> PaneMetaKeyBranch -> shownKV m !! key = metaKV m !! key.
Proof. intros. apply putText_other. congruence. Qed.

Lemma NormalizedMetaKV_shown m : metaOk m -> NormalizedMetaKV m = shownKV m.
Proof.
  intros []. unfold NormalizedMetaKV. rewrite mo_task0, putText_same, mo_pr0.
  rewrite <- (shownKV_other m PaneMetaKeyPR) by done. apply putText_same.
Qed.
Lemma hydratedKV_shown m : metaOk m -> hydratedKV m = shownKV m.
Proof.
  intros Hm. rewrite <- NormalizedMetaKV_shown by done. pose proof Hm as []. unfold hydratedKV.
  fold (NormalizedMetaKV m). rewrite (NormalizedMetaKV_shown m Hm).
  assert (match metaTrackedPRs m with
          | [] => shownKV m
          | prs => <[PaneMetaKeyTrackedPRs := formatTrackedPRsValue prs]> (shownKV m) end = shownKV m) as ->.
  { destruct (metaTrackedPRs m) eqn:E; [done|]. apply insert_id.
    rewrite shownKV_other, mo_prs0 by done. done. }
  destruct (metaTrackedIssues m) eqn:E; [done|]. apply insert_id.
  rewrite shownKV_other, mo_issues0 by done. done.
Qed.
Lemma shownKV_branchOk m : branchOk m -> shownKV m = metaKV m.
Proof. unfold branchOk, shownKV. intros ->. apply putText_same. Qed.

(** ** Applying the keys to the fields *)

Definition setEntry (key : string) (e : option string) (kv : gmap string string) : gmap string string :=
  partial_alter (fun _ => e) key kv.
Lemma lookup_setEntry key e kv : setEntry key e kv !! key = e.
Proof. apply lookup_partial_alter_eq. Qed.
Lemma lookup_setEntry_ne key key' e kv : key <> key' -> setEntry key e kv !! key' = kv !! key'.
Proof. apply lookup_partial_alter_ne. Qed.
Lemma setEntry_same key e kv : kv !! key = e -> setEntry key e kv = kv.
Proof. intros <-. apply map_eq. intros k. destruct (decide (key = k)) as [->|];
  [apply lookup_setEntry|by apply lookup_setEntry_ne]. Qed.
Lemma setEntry_twice key e1 e2 kv : setEntry key e2 (setEntry key e1 kv) = setEntry key e2 kv.
Proof.
  apply map_eq. intros k. destruct (decide (key = k)) as [->|];
    [by rewrite !lookup_setEntry|by rewrite !lookup_setEntry_ne].
Qed.

(** The references a key stands for; None if its text is no list. *)
Definition listAt {A} `{JSONValues A} (key : string) (kv : gmap string string) : option (list A) :=
  match kv !! key with None => Some [] | Some EmptyString => Some [] | Some raw => unmarshal raw end.

Lemma listAt_entry {A} `{JSONLaws A} key (l : list A) kv :
  map clean l = l -> kv !! key = listEntry l -> listAt key kv = Some l.
Proof.
  intros Hl E. unfold listAt. rewrite E. destruct l as [|a l]; [done|]. cbn [listEntry].
  pose proof (marshal_text (a :: l)) as Ht. destruct (marshal (a :: l)) eqn:Em; [done|].
  by rewrite <- Em, unmarshal_marshal, Hl.
Qed.
Lemma listAt_clean {A} `{JSONLaws A} key (l : list A) kv : listAt key kv = Some l -> map clean l = l.
Proof. unfold listAt. repeat case_match; try (by intros [= <-]). intros. by eapply unmarshal_clean. Qed.

Definition applied (m : PaneMeta) (prs : list TrackedPR) (issues : list TrackedIssue) : PaneMeta :=
  withKV (setEntry PaneMetaKeyTrackedIssues (listEntry issues)
           (setEntry PaneMetaKeyTrackedPRs (listEntry prs) (metaKV m)))
    (withTracked prs issues (applyTexts m)).

Lemma applyTrackedPRs_eq m :
  applyTrackedPRs m =
    match listAt PaneMetaKeyTrackedPRs (metaKV m) with
    | None => (m, Err (errInvalidValue PaneMetaKeyTrackedPRs))
    | Some prs => (withKV (setEntry PaneMetaKeyTrackedPRs (listEntry prs) (metaKV m))
                     (withTracked prs (metaTrackedIssues m) m), Ok tt)
    end.
Proof.
  unfold applyTrackedPRs, listAt. destruct (metaKV m !! _) as [raw|] eqn:E.
  - unfold parseTrackedPRsValue. destruct raw as [|c raw]; [done|]. destruct (unmarshal _) as [[|pr prs]|]; done.
  - rewrite setEntry_same by done. by destruct m.
Qed.
Lemma applyTrackedIssues_eq m :
  applyTrackedIssues m =
    match listAt PaneMetaKeyTrackedIssues (metaKV m) with
    | None => (m, Err (errInvalidValue PaneMetaKeyTrackedIssues))
    | Some issues => (withKV (setEntry PaneMetaKeyTrackedIssues (listEntry issues) (metaKV m))
                        (withTracked (metaTrackedPRs m) issues m), Ok tt)
    end.
Proof.
  unfold applyTrackedIssues, listAt. destruct (metaKV m !! _) as [raw|] eqn:E.
  - unfold parseTrackedIssuesValue. destruct raw as [|c raw]; [done|]. destruct (unmarshal _) as [[|i issues]|]; done.
  - rewrite setEntry_same by done. by destruct m.
Qed.

Lemma applyPaneMetaKV_spec m :
  match listAt PaneMetaKeyTrackedPRs (metaKV m), listAt PaneMetaKeyTrackedIssues (metaKV m) with
  | None, _ => snd (applyPaneMetaKV m) = Err (errInvalidValue PaneMetaKeyTrackedPRs)
  | _, None => snd (applyPaneMetaKV m) = Err (errInvalidValue PaneMetaKeyTrackedIssues)
  | Some prs, Some issues => applyPaneMetaKV m = (applied m prs issues, Ok tt)
  end.
Proof.
  unfold applyPaneMetaKV, bindM, modify. rewrite applyTrackedPRs_eq.
  change (metaKV (applyTexts m)) with (metaKV m).
  destruct (listAt PaneMetaKeyTrackedPRs (metaKV m)) as [prs|]; [|done]. rewrite applyTrackedIssues_eq.
  unfold listAt. cbn [metaKV withKV]. rewrite lookup_setEntry_ne by done.
  destruct (match metaKV m !! PaneMetaKeyTrackedIssues with None => _ | Some _ => _ end); done.
Qed.

Lemma applied_ok m prs issues :
  map clean prs = prs -> map clean issues = issues ->
  metaOk (applied m prs issues) /\ branchOk (applied m prs issues) /\ sameIdentity m (applied m prs issues).
Proof.
  intros Hp Hi. unfold applied, branchOk.
  split; [constructor|split; [|done]];
    cbn [metaTask metaPR metaGitBranch metaKV metaTrackedPRs metaTrackedIssues withKV withTracked applyTexts withTexts];
    rewrite ?lookup_setEntry_ne by done; rewrite ?lookup_setEntry; done.
Qed.

(** ** Updating a key *)

(** The value kept for a key: None if it is refused, [Some None] if the key is
    dropped. *)
Definition canonicalValue (key : string) (raw : option string) : option (option string) :=
  match raw with
  | None => Some None
  | Some v =>
      if decide (key = PaneMetaKeyTrackedPRs) then listEntry <$> parseTrackedPRsValue v
      else if decide (key = PaneMetaKeyTrackedIssues) then listEntry <$> parseTrackedIssuesValue v
      else Some (Some v)
  end.

(** What writing back does, from the lists the keys stand for. *)
Definition committed (m next : PaneMeta) (kv : gmap string string) : Prop :=
  let r := commitPaneMeta next m in
  metaKV (fst r) = kv /\ metaOk (fst r) /\ branchOk (fst r) /\
  sameIdentity m (fst r) /\ snd r = Ok (hasManualBranchOverride (fst r)).

Lemma commit_lists m next (prs : list TrackedPR) (issues : list TrackedIssue) kv :
  sameIdentity m next ->
  listAt PaneMetaKeyTrackedPRs (metaKV next) = Some prs ->
  listAt PaneMetaKeyTrackedIssues (metaKV next) = Some issues ->
  setEntry PaneMetaKeyTrackedIssues (listEntry issues)
    (setEntry PaneMetaKeyTrackedPRs (listEntry prs) (metaKV next)) = kv ->
  committed m next kv.
Proof.
  intros Hid Ep Ei Hkv. pose proof (applyPaneMetaKV_spec next) as Hs. rewrite Ep, Ei in Hs.
  unfold committed, commitPaneMeta. rewrite Hs. cbn [fst snd].
  destruct (applied_ok next prs issues) as (H1 & H2 & H3); [by eapply listAt_clean..|].
  split_and!; [exact Hkv|done|done|by etrans|done].
Qed.

Lemma commit_bad m next :
  match listAt (A:=TrackedPR) PaneMetaKeyTrackedPRs (metaKV next),
        listAt (A:=TrackedIssue) PaneMetaKeyTrackedIssues (metaKV next) with
  | None, _ => commitPaneMeta next m = (m, Err (errInvalidValue PaneMetaKeyTrackedPRs))
  | _, None => commitPaneMeta next m = (m, Err (errInvalidValue PaneMetaKeyTrackedIssues))
  | _, _ => True
  end.
Proof.
  pose proof (applyPaneMetaKV_spec next) as Hs. unfold commitPaneMeta.
  destruct (applyPaneMetaKV next) as [m' r]. cbn [snd] in Hs.
  destruct (listAt _ _) as [prs|]; [|by subst]. destruct (listAt _ _) as [issues|]; [done|by subst].
Qed.

Lemma commit_spec m key raw :
  metaOk m ->
  let next := withKV (setEntry key raw (shownKV m)) (hydrateReservedKV m) in
  match canonicalValue key raw with
  | None => commitPaneMeta next m = (m, Err (errInvalidValue key))
  | Some e => committed m next (setEntry key e (shownKV m))
  end.
Proof.
  intros Hm next. pose proof (commit_bad m next) as Hbad.
  pose proof (commit_lists m next) as Hgo. unfold canonicalValue. change (metaKV next) with (setEntry key raw (shownKV m)) in *.
  assert (sameIdentity m next) as Hid by done. clearbody next.
  assert (shownKV m !! PaneMetaKeyTrackedPRs = listEntry (metaTrackedPRs m)) as HP2
    by (rewrite shownKV_other by done; apply Hm).
  assert (shownKV m !! PaneMetaKeyTrackedIssues = listEntry (metaTrackedIssues m)) as HI2
    by (rewrite shownKV_other by done; apply Hm).
  assert (forall A (HA : JSONValues A) (HL : JSONLaws A) k (l : list A), map clean l = l -> shownKV m !! k = listEntry l ->
    k <> key -> listAt k (setEntry key raw (shownKV m)) = Some l) as Hkeep.
  { intros. apply listAt_entry; [done|]. by rewrite lookup_setEntry_ne. }
  assert (forall A (HA : JSONValues A), listAt key (setEntry key raw (shownKV m)) =
    match raw with None => Some [] | Some EmptyString => Some [] | Some v => unmarshal v end) as El.
  { intros. unfold listAt. by rewrite lookup_setEntry. }
  destruct (decide (key = PaneMetaKeyTrackedPRs)) as [->|NP]; [|destruct (decide (key = PaneMetaKeyTrackedIssues)) as [->|NI]].
  - rewrite El, (Hkeep _ _ _ PaneMetaKeyTrackedIssues (metaTrackedIssues m)) in * by (done || apply Hm).
    assert (forall e, setEntry PaneMetaKeyTrackedIssues (listEntry (metaTrackedIssues m))
      (setEntry PaneMetaKeyTrackedPRs e (setEntry PaneMetaKeyTrackedPRs raw (shownKV m))) = setEntry PaneMetaKeyTrackedPRs e (shownKV m)) as E.
    { intros e. rewrite setEntry_twice. apply setEntry_same. by rewrite lookup_setEntry_ne. }
    destruct raw as [[|c v]|]; [by eapply Hgo|simpl|by eapply Hgo].
    destruct (unmarshal (String c v)) as [prs|]; [by eapply Hgo|done].
  - rewrite El, (Hkeep _ _ _ PaneMetaKeyTrackedPRs (metaTrackedPRs m)) in * by (done || apply Hm).
    assert (forall e, setEntry PaneMetaKeyTrackedIssues e
      (setEntry PaneMetaKeyTrackedPRs (listEntry (metaTrackedPRs m)) (setEntry PaneMetaKeyTrackedIssues raw (shownKV m)))
      = setEntry PaneMetaKeyTrackedIssues e (shownKV m)) as E.
    { intros e. rewrite (setEntry_same PaneMetaKeyTrackedPRs) by by rewrite lookup_setEntry_ne. apply setEntry_twice. }
    destruct raw as [[|c v]|]; [by eapply Hgo|simpl|by eapply Hgo].
    destruct (unmarshal (String c v)) as [issues|]; [by eapply Hgo|done].
  - assert (match raw with None => Some None | Some v => Some (Some v) end = Some raw) as -> by by destruct raw.
    eapply Hgo; [done|apply (Hkeep _ _ _ _ (metaTrackedPRs m)); [apply Hm|done|done]|
      apply (Hkeep _ _ _ _ (metaTrackedIssues m)); [apply Hm|done|done]|].
    rewrite (setEntry_same PaneMetaKeyTrackedPRs) by by rewrite lookup_setEntry_ne.
    apply setEntry_same. by rewrite lookup_setEntry_ne.
Qed.
(** ** Panes *)

(** The effect of an update of a key on the map the user sees. *)
Definition specUpdate (key : string) (raw : option string) (kv : gmap string string) :
    gmap string string * result MetaError unit :=
  match canonicalValue key raw with
  | None => (kv, Err (errInvalidValue key))
  | Some e => (setEntry key e kv, Ok tt)
  end.
Definition shown (p : MetaPane) : gmap string string := NormalizedMetaKV (paneMeta p).

(** What the pane is after an operation that refines [spec]. *)
Definition refinesKV (p : MetaPane) (f : M MetaPane MetaError unit)
    (spec : gmap string string * result MetaError unit) : Prop :=
  paneOk (fst (f p)) /\ shown (fst (f p)) = fst spec /\ snd (f p) = snd spec /\
  sameIdentity (paneMeta p) (paneMeta (fst (f p))) /\ liveCwd (fst (f p)) = liveCwd p.

Lemma updatePaneKV_spec p key raw f :
  paneOk p ->
  (forall m, f m = commitPaneMeta (withKV (setEntry key raw (hydratedKV m)) (hydrateReservedKV m)) m) ->
  refinesKV p (updatePaneKV key f) (specUpdate key raw (shown p)) /\
  (is_ok (snd (updatePaneKV key f p)) = true ->
     branchOk (paneMeta (fst (updatePaneKV key f p))) /\
     metaManualBranch (fst (updatePaneKV key f p)) =
       if decide (key = PaneMetaKeyBranch) then bool_decide (is_Some raw) else metaManualBranch p) /\
  (is_ok (snd (updatePaneKV key f p)) = false -> fst (updatePaneKV key f p) = p).
Proof.
  intros [Hm Hb] Hf. pose proof (commit_spec (paneMeta p) key raw Hm) as Hc. unfold refinesKV, updatePaneKV, specUpdate.
  rewrite Hf, (hydratedKV_shown _ Hm). unfold committed in Hc. cbv zeta in Hc.
  assert (shown p = shownKV (paneMeta p)) as Es by by apply NormalizedMetaKV_shown. rewrite Es.
  destruct (commitPaneMeta _ _) as [m r]. destruct (canonicalValue key raw) as [e|] eqn:Ecan; cbn [fst snd] in *.
  - destruct Hc as (Hkv & Hok & Hbr & Hid & ->). cbn [fst snd is_ok].
    set (p' := if decide _ then _ else _).
    assert (paneMeta p' = m) as Em by (unfold p'; by case_decide). unfold paneOk, shown. rewrite Em.
    split_and!; try done.
    + by rewrite (NormalizedMetaKV_shown m Hok), (shownKV_branchOk m Hbr).
    + unfold p'. by case_decide.
    + intros _. split; [done|]. unfold p'. case_decide; [subst key|done]. cbn. unfold hasManualBranchOverride.
      rewrite Hkv, lookup_setEntry. destruct raw; injection Ecan as <-; done.
  - injection Hc as -> ->. cbn. destruct p. done.
Qed.

Lemma SetPaneKVValue_eq key value m :
  SetPaneMetaKV key value m = commitPaneMeta (withKV (setEntry key (Some value) (hydratedKV m)) (hydrateReservedKV m)) m.
Proof. done. Qed.
Lemma RemovePaneKVValue_eq key m :
  RemovePaneMetaKV key m = commitPaneMeta (withKV (setEntry key None (hydratedKV m)) (hydrateReservedKV m)) m.
Proof. done. Qed.

Lemma SetPaneKVValue_refines p key value :
  paneOk p -> refinesKV p (SetPaneKVValue key value) (specUpdate key (Some value) (shown p)).
Proof. intros Hp. by apply (updatePaneKV_spec p key (Some value) _ Hp (SetPaneKVValue_eq key value)). Qed.
Lemma RemovePaneKVValue_refines p key :
  paneOk p -> refinesKV p (RemovePaneKVValue key) (specUpdate key None (shown p)).
Proof. intros Hp. by apply (updatePaneKV_spec p key None _ Hp (RemovePaneKVValue_eq key)). Qed.

(** Refinements compose. *)
Lemma refinesKV_bind p f g spec (k : gmap string string -> gmap string string * result MetaError unit) :
  refinesKV p f spec ->
  (forall p', paneOk p' -> refinesKV p' g (k (shown p'))) ->
  refinesKV p (bindM f (fun _ => g))
    match snd spec with Ok _ => k (fst spec) | Err e => (fst spec, Err e) end.
Proof.
  intros (H1 & H2 & H3 & H4 & H5) Hg. unfold refinesKV, bindM. destruct (f p) as [p1 r1]. cbn [fst snd] in *.
  rewrite <- H3, <- H2. destruct r1 as [[]|e]; [|done]. destruct (Hg p1 H1) as (G1 & G2 & G3 & G4 & G5).
  split_and!; [done|done|done|by etrans|congruence].
Qed.

(** ** The commands *)

Fixpoint specPairs (kvPairs : list string) (kv : gmap string string) :
    gmap string string * result MetaError unit :=
  match kvPairs with
  | [] => (kv, Ok tt)
  | raw :: rest =>
      match ParseKVArg raw with
      | Err e => (kv, Err e)
      | Ok (key, value) =>
          match specUpdate key (Some value) kv with
          | (kv, Ok _) => specPairs rest kv
          | (kv, Err e) => (kv, Err e)
          end
      end
  end.
Fixpoint specRemove (keys : list string) (kv : gmap string string) :
    gmap string string * result MetaError unit :=
  match keys with
  | [] => (kv, Ok tt)
  | key :: rest => specRemove rest (delete key kv)
  end.

Lemma refinesKV_ret p e : paneOk p -> refinesKV p (fun q => (q, e)) (shown p, e).
Proof. intros Hp. by split_and!. Qed.

Lemma setPairs_refines kvPairs p :
  paneOk p -> refinesKV p (setPairs kvPairs) (specPairs kvPairs (shown p)).
Proof.
  revert p. induction kvPairs as [|raw rest IH]; intros p Hp; cbn [setPairs specPairs].
  - by apply refinesKV_ret.
  - destruct (ParseKVArg raw) as [[key value]|e] eqn:E; [|unfold lift, bindM; by apply refinesKV_ret].
    pose proof (refinesKV_bind p _ (setPairs rest) _ (specPairs rest) (SetPaneKVValue_refines p key value Hp) (fun q => IH q)) as H.
    by destruct (specUpdate key (Some value) (shown p)) as [kv [[]|e]].
Qed.

Lemma removeKeys_refines keys p :
  paneOk p -> refinesKV p (removeKeys keys) (specRemove keys (shown p)).
Proof.
  revert p. induction keys as [|key rest IH]; intros p Hp; cbn [removeKeys specRemove].
  - by apply refinesKV_ret.
  - apply (refinesKV_bind p _ (removeKeys rest) _ (specRemove rest) (RemovePaneKVValue_refines p key Hp) (fun q => IH q)).
Qed.

(** ** New panes and the other events *)

Lemma newMetaPane_ok m p :
  newMetaPane m = Ok p -> paneOk p /\ branchOk (paneMeta p) /\ sameIdentity m (paneMeta p).
Proof.
  unfold newMetaPane, NormalizePaneMeta, bindM, get, modify, ret.
  pose proof (applyPaneMetaKV_spec (hydrateReservedKV m)) as Hs.
  destruct (applyPaneMetaKV _) as [m' [[]|e]]; [|done]. intros [= <-]. cbn [paneMeta metaManualBranch].
  destruct (listAt _ _) as [prs|] eqn:Ep; [|done]. destruct (listAt (A:=TrackedIssue) _ _) as [issues|] eqn:Ei; [|done].
  injection Hs as ->. destruct (applied_ok (hydrateReservedKV m) prs issues) as (H1 & H2 & H3); [by eapply listAt_clean..|].
  by split.
Qed.

Lemma lookup_setForwarded key value kv :
  default ""%string (setForwardedMetaKV key value kv !! key) = value.
Proof. destruct value; simpl; [by rewrite lookup_delete_eq|by rewrite lookup_insert_eq]. Qed.
Lemma lookup_setForwarded_ne key key' value kv :
  key <> key' -> setForwardedMetaKV key value kv !! key' = kv !! key'.
Proof. intros. destruct value; simpl; [by rewrite lookup_delete_ne|by rewrite lookup_insert_ne]. Qed.
Lemma lookup_setForwardedJSON {A} `{JSONLaws A} key (l : list A) kv :
  setForwardedMetaJSONKV key l kv !! key = listEntry l.
Proof.
  destruct l as [|a l]; simpl; [by rewrite lookup_delete_eq|]. pose proof (marshal_text (a :: l)) as Ht.
  destruct (marshal (a :: l)) eqn:E; [done|]. simpl. by rewrite lookup_insert_eq.
Qed.
Lemma lookup_setForwardedJSON_ne {A} `{JSONValues A} key key' (l : list A) kv :
  key <> key' -> setForwardedMetaJSONKV key l kv !! key' = kv !! key'.
Proof. intros. destruct l; simpl; [by rewrite lookup_delete_ne|by apply lookup_setForwarded_ne]. Qed.

(** The texts of an update are valid UTF-8, as those of a pane are. *)
Definition cleanUpdate (u : PaneMetaUpdate) : Prop :=
  map clean (fwdPRs u) = fwdPRs u /\ map clean (fwdIssues u) = fwdIssues u.

Lemma forwarded_ok u p :
  paneOk p -> cleanUpdate u ->
  paneOk (applyForwardedPaneMetaUpdate u p) /\ branchOk (paneMeta (applyForwardedPaneMetaUpdate u p)) /\
  sameIdentity (paneMeta p) (paneMeta (applyForwardedPaneMetaUpdate u p)).
Proof.
  intros [Hm Hb] [Hp Hi]. unfold paneOk, applyForwardedPaneMetaUpdate. cbn [paneMeta withMeta metaManualBranch].
  set (m' := withKV _ _). assert (branchOk m') as Hbr.
  { unfold m', branchOk. cbn [metaGitBranch metaKV withKV withTracked withTexts].
    rewrite !lookup_setForwardedJSON_ne, lookup_setForwarded_ne by done. by rewrite lookup_setForwarded. }
  split_and!; [constructor|done..]; unfold m'; cbn [metaTask metaPR metaKV withKV withTracked withTexts metaTrackedPRs metaTrackedIssues]; try done.
  - rewrite !lookup_setForwardedJSON_ne, !lookup_setForwarded_ne by done. apply Hm.
  - by rewrite !lookup_setForwardedJSON_ne, lookup_setForwarded by done.
  - rewrite lookup_setForwardedJSON_ne by done. apply lookup_setForwardedJSON.
  - apply lookup_setForwardedJSON.
Qed.

Lemma ApplyCwdBranch_ok cwd branch p :
  paneOk p -> paneOk (ApplyCwdBranch cwd branch p) /\
  sameIdentity (paneMeta p) (paneMeta (ApplyCwdBranch cwd branch p)).
Proof.
  intros [Hm Hb]. unfold ApplyCwdBranch, paneOk. cbn [paneMeta metaManualBranch].
  destruct (metaManualBranch p) eqn:E; [by split_and!; auto|]. split_and!; [|done|done].
  destruct Hm. by constructor.
Qed.

Lemma setOptional_ok key value p :
  paneOk p -> paneOk (setOptional key value p) /\ sameIdentity (paneMeta p) (paneMeta (setOptional key value p)).
Proof.
  intros Hp. destruct value as [v|]; simpl; [|done].
  by destruct (SetPaneKVValue_refines p key v Hp) as (? & _ & _ & ? & _).
Qed.

(** ** The life of a pane's metadata *)

(** The host, the colour and the dormancy are those the pane was made with; the
    name and the directory too, unless one of the events gives another. *)
Record madeFrom (m : PaneMeta) (evs : list MetaEvent) (p : MetaPane) : Prop := mkMadeFrom {
  mf_ok : paneOk p;
  mf_host : metaHost (paneMeta p) = metaHost m;
  mf_color : metaColor (paneMeta p) = metaColor m;
  mf_dormant : metaDormant (paneMeta p) = metaDormant m;
  mf_name : metaName (paneMeta p) = metaName m \/ evRename (metaName (paneMeta p)) ∈ evs;
  mf_dir : metaDir (paneMeta p) = metaDir m \/ exists dir, evRespawn dir ∈ evs }.

Lemma madeFrom_kept m evs p q :
  madeFrom m evs p -> paneOk q -> sameIdentity (paneMeta p) (paneMeta q) -> madeFrom m evs q.
Proof. intros [] Hq (E1 & E2 & E3 & E4 & E5). constructor; rewrite ?E1, ?E2, ?E3, ?E4, ?E5; done. Qed.

(** The metadata and the pin carried to another pane. *)
Lemma paneOk_carried p q :
  paneOk p -> paneMeta q = paneMeta p -> metaManualBranch q = metaManualBranch p -> paneOk q.
Proof. intros Hp E1 E2. unfold paneOk. by rewrite E1, E2. Qed.

Lemma handleMetaUpdate_ok u p :
  paneOk p -> paneOk (handleMetaUpdate u p) /\ sameIdentity (paneMeta p) (paneMeta (handleMetaUpdate u p)).
Proof.
  intros Hp. unfold handleMetaUpdate.
  destruct (setOptional_ok PaneMetaKeyTask (updTask u) p Hp) as [H1 I1].
  destruct (setOptional_ok PaneMetaKeyPR (updPR u) _ H1) as [H2 I2].
  destruct (setOptional_ok PaneMetaKeyBranch (updBranch u) _ H2) as [H3 I3].
  split; [done|]. etrans; [exact I1|]. by etrans.
Qed.

Lemma Replacement_ok startDir p q :
  paneOk p -> Replacement startDir p = Ok q -> paneOk q /\ sameIdentity (paneMeta p) (paneMeta q).
Proof.
  intros Hp. unfold Replacement. destruct (newMetaPane _) as [pane|e]; [|done]. intros [= <-].
  set (pane' := SetMetaManualBranch _ _). assert (paneOk pane') as Hp' by by eapply paneOk_carried.
  destruct startDir as [|c s]; [by split|]. by apply (ApplyCwdBranch_ok (String c s) (metaGitBranch (paneMeta p)) pane').
Qed.

Lemma restoredPane_ok p q :
  restoredPane p = Some q -> paneOk q /\ sameIdentity (paneMeta p) (paneMeta q).
Proof.
  unfold restoredPane. destruct (newMetaPane (paneMeta p)) as [pane|] eqn:E; [|done]. intros [= <-].
  destruct (newMetaPane_ok _ _ E) as ((Hok & _) & Hbr & Hid). by split.
Qed.

(** The texts that another server sent are valid UTF-8. *)
Definition cleanEvent (ev : MetaEvent) : Prop :=
  match ev with evForwarded u => cleanUpdate u | _ => True end.

Lemma onMetaEvent_ok m evs ev p built :
  ev ∈ evs -> cleanEvent ev -> madeFrom m evs p -> Forall (madeFrom m evs) built ->
  let st := onMetaEvent (p, built) ev in madeFrom m evs (fst st) /\ Forall (madeFrom m evs) (snd st).
Proof.
  intros Hin Hc Hp Hb. pose proof (mf_ok _ _ _ Hp) as Hok. pose proof (madeFrom_kept m evs p) as Hkept. cbv zeta.
  destruct ev as [pairs|keys|u|cwd br|u|name|dir|dir|i|q|]; cbn [onMetaEvent].
  - split; [|done]. destruct (setPairs_refines pairs p Hok) as (? & _ & _ & ? & _). by apply Hkept.
  - split; [|done]. destruct (removeKeys_refines keys p Hok) as (? & _ & _ & ? & _). by apply Hkept.
  - split; [|done]. destruct (handleMetaUpdate_ok u p Hok). by apply Hkept.
  - split; [|done]. destruct (ApplyCwdBranch_ok cwd br p Hok). by apply Hkept.
  - split; [|done]. destruct (forwarded_ok u p Hok Hc) as (? & _ & ?). by apply Hkept.
  - split; [|done]. destruct Hp as [[[] ?] ? ? ? ? ?]. constructor; try done. by right.
  - split; [|done]. destruct Hp as [[[] ?] ? ? ? ? ?]. constructor; try done. right. by eexists.
  - split; [done|]. apply Forall_app_2; [done|]. destruct (Replacement dir p) as [q|] eqn:E; constructor; [|done].
    destruct (Replacement_ok dir p q Hok E). by apply Hkept.
  - destruct (built !! i) as [q|] eqn:E; [|done]. split; [|done]. by apply (Forall_lookup_1 _ _ _ _ Hb E).
  - split; [|done]. apply Hkept; [done| |done]. by apply (paneOk_carried p).
  - destruct (restoredPane p) as [q|] eqn:E; [|done]. split; [|done].
    destruct (restoredPane_ok p q E). by apply Hkept.
Qed.

(** Only renames and publications change the name of the pane. *)
Lemma onMetaEvent_name ev p built :
  paneOk p -> cleanEvent ev -> (forall i, ev <> evPublish i) ->
  metaName (paneMeta (fst (onMetaEvent (p, built) ev))) =
    match ev with evRename name => name | _ => metaName (paneMeta p) end.
Proof.
  intros Hok Hc Hn. destruct ev as [pairs|keys|u|cwd br|u|name|dir|dir|i|q|]; cbn [onMetaEvent fst]; try done.
  - by destruct (setPairs_refines pairs p Hok) as (_ & _ & _ & [? _] & _).
  - by destruct (removeKeys_refines keys p Hok) as (_ & _ & _ & [? _] & _).
  - by destruct (handleMetaUpdate_ok u p Hok) as [_ [? _]].
  - by destruct (ApplyCwdBranch_ok cwd br p Hok) as [_ [? _]].
  - by destruct (Hn i).
  - destruct (restoredPane p) as [q|] eqn:E; [|done]. by destruct (restoredPane_ok p q E) as [_ [? _]].
Qed.

(** The name that the last rename gave. *)
Definition lastName (name : string) (evs : list MetaEvent) : string :=
  foldl (fun name ev => match ev with evRename name => name | _ => name end) name evs.

Lemma events_madeFrom m evs p0 :
  Forall cleanEvent evs -> madeFrom m evs p0 ->
  let st := foldl onMetaEvent (p0, []) evs in
  madeFrom m evs (fst st) /\
  ((forall i, evPublish i ∉ evs) -> metaName (paneMeta (fst st)) = lastName (metaName (paneMeta p0)) evs).
Proof.
  intros Hc H0. cbv zeta. unfold lastName.
  assert (forall l, l ⊆ evs -> forall p built, madeFrom m evs p -> Forall (madeFrom m evs) built ->
    let st := foldl onMetaEvent (p, built) l in
    madeFrom m evs (fst st) /\
    ((forall i, evPublish i ∉ evs) -> metaName (paneMeta (fst st)) =
       foldl (fun name ev => match ev with evRename name => name | _ => name end) (metaName (paneMeta p)) l)) as H;
    [|by apply H].
  clear H0. induction l as [|ev l IH]; intros Hl p built Hp Hb; cbn [foldl]; [done|].
  assert (ev ∈ evs) as Hev by (apply Hl; left). assert (l ⊆ evs) as Hl' by (intros x Hx; apply Hl; by right).
  assert (cleanEvent ev) as Hce by (rewrite Forall_forall in Hc; by apply Hc).
  destruct (onMetaEvent_ok m evs ev p built Hev Hce Hp Hb) as [H1 H2].
  pose proof (onMetaEvent_name ev p built (mf_ok _ _ _ Hp) Hce) as Hname.
  destruct (onMetaEvent (p, built) ev) as [q built']. cbn [fst snd] in *.
  destruct (IH Hl' q built' H1 H2) as [I1 I2]. split; [done|]. intros Hn. rewrite (I2 Hn). f_equal. apply Hname.
  intros i ->. by apply (Hn i).
Qed.
End Facts.
