(* ===== verification/PaneMetaProps.v ===== *)
(** * Pane metadata: properties *)

From Stdlib Require Import Ascii.
From S2P Require Import Prelude GoText GoCodec Scanner PaneMeta PaneMetaFacts.

Section Props.
Context `{JPR : JSONValues TrackedPR} `{JIS : JSONValues TrackedIssue}.
Context `{!JSONLaws TrackedPR} `{!JSONLaws TrackedIssue}.

Lemma shown_branch p :
  paneOk p -> metaGitBranch (paneMeta p) <> ""%string ->
  shown p !! PaneMetaKeyBranch = Some (metaGitBranch (paneMeta p)).
Proof.
  intros [Hm _] Hb. unfold shown. rewrite NormalizedMetaKV_shown by done. unfold shownKV.
  destruct (metaGitBranch (paneMeta p)); [done|]. apply lookup_insert_eq.
Qed.
Lemma shown_other p key :
  paneOk p -> key <> PaneMetaKeyBranch -> shown p !! key = metaKV (paneMeta p) !! key.
Proof. intros [Hm _] Hk. unfold shown. rewrite NormalizedMetaKV_shown by done. by apply shownKV_other. Qed.


Lemma nameTaken_spec (id : Z) (name : string) (st : gmap Z MetaPane) :
  nameTaken id name st = true <-> exists id' q, st !! id' = Some q /\ id' <> id /\ metaName (paneMeta q) = name.
Proof.
  unfold nameTaken. rewrite existsb_exists. split.
  - intros ([id' q] & Hin & [H1%bool_decide_eq_true H2%bool_decide_eq_true]%andb_true_iff).
    exists id', q. split; [|done]. by apply elem_of_map_to_list, list_elem_of_In.
  - intros (id' & q & Hq & H1 & H2). exists (id', q). split; [by apply list_elem_of_In, elem_of_map_to_list|].
    by rewrite !bool_decide_eq_true_2.
Qed.

(** No two panes of a store have the same name. *)
Definition distinctNames (st : gmap Z MetaPane) : Prop :=
  forall id id' p p', st !! id = Some p -> st !! id' = Some p' ->
    metaName (paneMeta p) = metaName (paneMeta p') -> id = id'.

(** The command [rename] fails, and changes nothing, exactly when the reference
    does not resolve or another pane has the name; otherwise the pane has the
    name, nothing else of it and no other pane changes, and a store in which no
    two panes have the same name stays so. *)
Theorem rename_correct (resolve : string -> option Z) (paneRef name : string) (st : gmap Z MetaPane) :
  let '(st', r) := runRename resolve paneRef name st in
  match resolve paneRef ≫= (fun id => pair id <$> st !! id) with
  | None => st' = st /\ r = Err (errResolve paneRef)
  | Some (id, p) =>
      let taken := exists id' q, st !! id' = Some q /\ id' <> id /\ metaName (paneMeta q) = name in
      (is_ok r = false <-> metaName (paneMeta p) <> name /\ taken) /\
      (is_ok r = false -> st' = st /\ r = Err (errPaneExists name)) /\
      (is_ok r = true -> st' = <[id := setName name p]> st) /\
      shown (setName name p) = shown p
  end /\
  (distinctNames st -> distinctNames st').
Proof.
  unfold runRename. destruct (resolve paneRef) as [id|]; cbn [mbind option_bind]; [|by auto].
  destruct (st !! id) as [p|] eqn:E; cbn [fmap option_fmap option_map]; [|by auto].
  pose proof (nameTaken_spec id name st) as Ht.
  destruct (decide (metaName (paneMeta p) = name)) as [Hs|Hs].
  - split; [|done]. cbn [is_ok]. split_and!; [split; [done|by intros [? _]]|done| |done].
    intros _. symmetry. apply insert_id. rewrite E. f_equal. destruct p as [[] ? ?]. cbn in *. by subst.
  - destruct (nameTaken id name st).
    + split; [|done]. cbn [is_ok]. split_and!; [split; [|done]|done..]. intros _. split; [done|]. by apply Ht.
    + cbn [is_ok]. split; [split_and!; [split; [done|]|done..]; intros [_ H]; by apply Ht in H|].
      intros Hd a b q q'. destruct (decide (a = id)) as [->|Ha], (decide (b = id)) as [->|Hb];
        rewrite ?lookup_insert_eq, ?lookup_insert_ne by done; [done|..].
      * intros [= <-] Hq' Hname. cbn in Hname. exfalso. assert (false = true) as [=]. apply Ht. by exists b, q'.
      * intros Hq [= <-] Hname. cbn in Hname. exfalso. assert (false = true) as [=]. apply Ht. by exists a, q.
      * by apply Hd.
Qed.

(** A rename between the moment a respawn command builds the second pane and
    the moment it is published is lost, although it was reported as done. *)
Theorem respawn_loses_rename (name startDir : string) (p q : MetaPane) :
  Replacement startDir p = Ok q -> name <> metaName (paneMeta p) ->
  let p' := fst (foldl onMetaEvent (p, []) [evBuild startDir; evRename name; evPublish 0]) in
  metaName (paneMeta p') = metaName (paneMeta p) /\ metaName (paneMeta p') <> name.
Proof.
  intros E Hn. cbn [foldl onMetaEvent]. rewrite E. cbn [app lookup list_lookup fst].
  assert (metaName (paneMeta q) = metaName (paneMeta p)) as ->; [|done].
  revert E. unfold Replacement. destruct (newMetaPane _); [|done]. intros [= <-].
  destruct startDir; [done|]. unfold ApplyCwdBranch. cbn [paneMeta SetMetaManualBranch withMeta metaManualBranch].
  by destruct (metaManualBranch p).
Qed.

(** C27. The commands [meta set] and [meta rm] act on the map shown to the user as
    on a plain map: the pairs are set, or the keys deleted, one after the other up
    to the first pair that is malformed or whose value is refused; that error is
    returned, with the earlier pairs kept; no other pane changes, and no pane at
    all when the reference does not resolve. *)
Theorem meta_commands_refine (resolve : string -> option Z) (paneRef : string) (st : gmap Z MetaPane) (args : list string) :
  match resolve paneRef ≫= (fun id => pair id <$> st !! id) with
  | None =>
      setKV resolve paneRef args st = (st, Err (errResolve paneRef)) /\
      rmKV resolve paneRef args st = (st, Err (errResolve paneRef))
  | Some (id, p) =>
      paneOk p ->
      (exists p', setKV resolve paneRef args st = (<[id := p']> st, snd (specPairs args (shown p))) /\
         paneOk p' /\ shown p' = fst (specPairs args (shown p))) /\
      (exists p', rmKV resolve paneRef args st = (<[id := p']> st, Ok tt) /\
         paneOk p' /\ shown p' = foldl (fun kv key => delete key kv) (shown p) args)
  end.
Proof.
  unfold setKV, rmKV, onPane. destruct (resolve paneRef) as [id|]; cbn [mbind option_bind]; [|done].
  destruct (st !! id) as [p|]; cbn [fmap option_fmap option_map]; [|done]. intros Hp.
  destruct (setPairs_refines args p Hp) as (H1 & H2 & H3 & _).
  destruct (removeKeys_refines args p Hp) as (G1 & G2 & G3 & _).
  destruct (setPairs args p) as [p1 r1], (removeKeys args p) as [p2 r2]. cbn [fst snd] in *. split.
  - exists p1. by rewrite H3.
  - assert (forall kv, specRemove args kv = (foldl (fun kv key => delete key kv) kv args, Ok tt)) as E.
    { clear. induction args as [|a l IH]; intros kv; simpl; [done|]. apply IH. }
    rewrite E in *. exists p2. cbn [fst snd] in *. by rewrite G3.
Qed.
(** ** Printing and reading back *)

(** The lines of a text, without their line feeds. *)
Fixpoint linesFrom (cur l : bytes) : list bytes :=
  match l with
  | [] => match cur with [] => [] | _ => [cur] end
  | c :: l => if c =? 10 then cur :: linesFrom [] l else linesFrom (cur ++ [c]) l
  end.
Definition linesOf (s : string) : list string := map stringOf (linesFrom [] (bytesOf s)).

Lemma linesFrom_line cur a l : 10 ∉ a -> linesFrom cur (a ++ 10 :: l) = (cur ++ a) :: linesFrom [] l.
Proof.
  revert cur. induction a as [|c a IH]; intros cur Ha; simpl; [by rewrite app_nil_r|].
  apply not_elem_of_cons in Ha as [Hc Ha]. destruct (Z.eqb_spec c 10) as [->|]; [done|].
  rewrite IH by done. by rewrite <- app_assoc.
Qed.

(** A key and a value that the line format can carry. *)
Definition plainEntry (key value : string) : Prop :=
  (10 ∉ bytesOf key) /\ (61 ∉ bytesOf key) /\ TrimSpace (bytesOf key) <> [] /\ 10 ∉ bytesOf value.

Definition entryLine (key value : string) : string := (key ++ "=" ++ value)%string.
Definition printed (kv : gmap string string) (keys : list string) : string :=
  foldr String.append ""%string
    (omap (fun key =>
       (fun value => (key ++ "=" ++ value ++ String (charOf 10) "")%string) <$> kv !! key) keys).

Lemma printed_none kv key keys : kv !! key = None -> printed kv (key :: keys) = printed kv keys.
Proof. intros E. unfold printed. cbn [omap list_omap]. by rewrite E. Qed.
Lemma bytesOf_printed kv key keys value :
  kv !! key = Some value ->
  bytesOf (printed kv (key :: keys)) = bytesOf (entryLine key value) ++ 10 :: bytesOf (printed kv keys).
Proof.
  intros E. unfold printed. cbn [omap list_omap]. rewrite E. cbn [fmap option_fmap option_map foldr].
  unfold entryLine. rewrite !bytesOf_app. change (bytesOf (String (charOf 10) "")) with [10]. by rewrite <- !app_assoc.
Qed.

Lemma linesOf_printed kv keys :
  map_Forall plainEntry kv ->
  linesOf (printed kv keys) = omap (fun key => entryLine key <$> kv !! key) keys.
Proof.
  intros Hkv. unfold linesOf. induction keys as [|key keys IH]; [done|]. cbn [omap list_omap].
  destruct (kv !! key) as [value|] eqn:E; [|by rewrite printed_none].
  destruct (Hkv key value E) as (H1 & _ & _ & H2). rewrite (bytesOf_printed kv key keys value E), linesFrom_line;
    [cbn [map app fmap option_fmap option_map]; f_equal; [apply stringOf_bytesOf|exact IH]|].
  unfold entryLine. rewrite !bytesOf_app. rewrite !elem_of_app. intros [?|[[=]%list_elem_of_singleton|?]]; done.
Qed.

Lemma ParseKVArg_entry key value : plainEntry key value -> ParseKVArg (entryLine key value) = Ok (key, value).
Proof.
  intros (_ & H1 & H2 & _). unfold ParseKVArg, entryLine. rewrite !bytesOf_app. change (bytesOf "=") with [61].
  cbn [app]. rewrite indexByte_notin by done. rewrite take_app_length.
  assert (drop (S (length (bytesOf key))) (bytesOf key ++ 61 :: bytesOf value) = bytesOf value) as ->.
  { generalize (bytesOf key). intros l. by induction l. }
  rewrite !stringOf_bytesOf. by destruct (TrimSpace (bytesOf key)).
Qed.

(** A shown entry is accepted as it is. *)
Lemma shown_canonical p key value :
  paneOk p -> shown p !! key = Some value -> canonicalValue key (Some value) = Some (Some value).
Proof.
  intros Hp E. pose proof (proj1 Hp) as Hm. unfold canonicalValue. unfold parseTrackedPRsValue, parseTrackedIssuesValue.
  destruct (decide (key = PaneMetaKeyTrackedPRs)) as [->|]; [|destruct (decide (key = PaneMetaKeyTrackedIssues)) as [->|]; [|done]];
    rewrite shown_other in E by done.
  - rewrite (mo_prs _ Hm) in E. pose proof (mo_cleanPRs _ Hm) as Hc. destruct (metaTrackedPRs (paneMeta p)) as [|a l]; [done|].
    injection E as <-. pose proof (marshal_text (a :: l)) as Ht. destruct (marshal (a :: l)) eqn:Em; [done|].
    rewrite <- Em, unmarshal_marshal, Hc. simpl. by rewrite Em.
  - rewrite (mo_issues _ Hm) in E. pose proof (mo_cleanIssues _ Hm) as Hc. destruct (metaTrackedIssues (paneMeta p)) as [|a l]; [done|].
    injection E as <-. pose proof (marshal_text (a :: l)) as Ht. destruct (marshal (a :: l)) eqn:Em; [done|].
    rewrite <- Em, unmarshal_marshal, Hc. simpl. by rewrite Em.
Qed.

Lemma specPairs_entries p keys kv :
  paneOk p -> map_Forall plainEntry (shown p) -> (forall key, key ∈ keys -> is_Some (shown p !! key)) ->
  exists kv', specPairs (omap (fun key => entryLine key <$> shown p !! key) keys) kv = (kv', Ok tt) /\
    forall key, kv' !! key = (if bool_decide (key ∈ keys) then shown p !! key else kv !! key).
Proof.
  intros Hp Hpl. revert kv. induction keys as [|key keys IH]; intros kv Hin; simpl.
  - exists kv. by split.
  - destruct (Hin key) as [value E]; [left|]. rewrite E. cbn [fmap option_fmap option_map specPairs].
    rewrite ParseKVArg_entry by by apply Hpl. unfold specUpdate. rewrite (shown_canonical p) by done.
    destruct (IH (setEntry key (Some value) kv)) as (kv' & Hs & Hkv); [intros; apply Hin; by right|].
    exists kv'. split; [done|]. intros k. rewrite Hkv.
    destruct (decide (k ∈ keys)) as [Hk|Hk]; [by rewrite !bool_decide_eq_true_2 by (done || by right)|].
    rewrite (bool_decide_eq_false_2 (k ∈ keys)) by done. destruct (decide (k = key)) as [->|Hne].
    + rewrite bool_decide_eq_true_2 by left. by rewrite lookup_setEntry.
    + rewrite bool_decide_eq_false_2 by (rewrite elem_of_cons; by intros [?|?]). by apply lookup_setEntry_ne.
Qed.

(** Whatever [meta get] prints of a pane can be fed back line by line to
    [meta set]: every line is accepted, and a pane without metadata keys then
    shows exactly the same map, tracked references included, provided that no key
    contains an equals sign or is blank, and no key or value contains a line
    feed. *)
Theorem meta_print_set_roundtrip (p q : MetaPane) :
  paneOk p -> paneOk q -> shown q = ∅ -> map_Forall plainEntry (shown p) ->
  let '(q', r) := setPairs (linesOf (FormatPaneKV (paneMeta p) [])) q in
  r = Ok tt /\ paneOk q' /\ shown q' = shown p.
Proof.
  intros Hp Hq Eq Hpl. unfold FormatPaneKV. change (NormalizedMetaKV (paneMeta p)) with (shown p).
  destruct (decide (shown p = ∅)) as [E|E]; [cbn; by rewrite E|].
  set (keys := sortStrings (map_to_list (shown p)).*1). fold (printed (shown p) keys).
  rewrite linesOf_printed by done.
  assert (forall key, key ∈ keys <-> is_Some (shown p !! key)) as Hkeys.
  { intros key. unfold keys. rewrite sortStrings_Permutation, list_elem_of_fmap. split.
    - intros ([k v] & -> & Hv%elem_of_map_to_list). by exists v.
    - intros [v Hv]. exists (key, v). by rewrite elem_of_map_to_list. }
  destruct (specPairs_entries p keys (shown q) Hp Hpl) as (kv' & Hs & Hkv); [intros; by apply Hkeys|].
  destruct (setPairs_refines (omap (fun key => entryLine key <$> shown p !! key) keys) q Hq) as (H1 & H2 & H3 & _).
  rewrite Hs in H2, H3. destruct (setPairs _ q) as [q' r]. cbn [fst snd] in *. split_and!; [done|done|].
  rewrite H2. apply map_eq. intros k. rewrite Hkv, Eq. case_bool_decide as Hk; [done|].
  rewrite lookup_empty. destruct (shown p !! k) eqn:Ek; [|done]. destruct Hk. apply Hkeys. by rewrite Ek.
Qed.

(** ** Where metadata comes from *)

Definition orKeep (new : option string) (old : option string) : option string :=
  match new with Some v => Some v | None => old end.

Lemma setOptional_shown key value p :
  paneOk p -> key <> PaneMetaKeyTrackedPRs -> key <> PaneMetaKeyTrackedIssues ->
  let p' := setOptional key value p in
  paneOk p' /\ (forall k, shown p' !! k = if decide (k = key) then orKeep value (shown p !! k) else shown p !! k) /\
  metaManualBranch p' =
    (if decide (key = PaneMetaKeyBranch) then match value with Some _ => true | None => metaManualBranch p end
     else metaManualBranch p).
Proof.
  intros Hp N1 N2. cbv zeta. destruct value as [v|]; simpl; [|split_and!; [done| |by case_decide]; intros k; by case_decide].
  destruct (updatePaneKV_spec p key (Some v) _ Hp (SetPaneKVValue_eq key v)) as ((H1 & H2 & H3 & _) & H4 & _).
  unfold specUpdate, canonicalValue in *. rewrite !decide_False in H2, H3 by done. cbn [fst snd] in *.
  unfold SetPaneKVValue in *. rewrite H3 in H4. destruct (H4 eq_refl) as [_ Hman].
  split_and!; [done| |rewrite Hman; by case_decide].
  intros k. rewrite H2. destruct (decide (k = key)) as [->|]; [apply lookup_setEntry|by apply lookup_setEntry_ne].
Qed.

(** A metadata sequence in a pane's output, however the output is cut into
    reads, sets the task, the PR and the branch it names, pins the branch if it
    names one, and changes nothing else of what the user sees. *)
Theorem output_sets_metadata (unmarshalU : bytes -> option MetaUpdate) (marshalU : MetaUpdate -> bytes)
    (u : MetaUpdate) (pre post : bytes) (chunks : list bytes) (p : MetaPane) :
  unmarshalU (marshalU u) = Some u -> 7 ∉ marshalU u -> 27 ∉ pre -> 27 ∉ post ->
  concat chunks = pre ++ FormatMetaSequence marshalU u ++ post ->
  fits (prefix := amuxMetaPrefix) (findEnd := findMetaTerminator) maxAmuxMetaSize [] chunks ->
  paneOk p ->
  let p' := foldl (fun p u => handleMetaUpdate u p) p (snd (AmuxMetaScanAll unmarshalU [] chunks)) in
  paneOk p' /\
  (forall k, shown p' !! k =
     if decide (k = PaneMetaKeyTask) then orKeep (updTask u) (shown p !! k)
     else if decide (k = PaneMetaKeyPR) then orKeep (updPR u) (shown p !! k)
     else if decide (k = PaneMetaKeyBranch) then orKeep (updBranch u) (shown p !! k)
     else shown p !! k) /\
  metaManualBranch p' = match updBranch u with Some _ => true | None => metaManualBranch p end.
Proof.
  intros H1 H2 H3 H4 H5 H6 Hp. rewrite (meta_roundtrip unmarshalU marshalU u pre post chunks) by done.
  cbn [snd foldl]. unfold handleMetaUpdate.
  destruct (setOptional_shown PaneMetaKeyTask (updTask u) p Hp) as (P1 & S1 & M1); [done..|].
  destruct (setOptional_shown PaneMetaKeyPR (updPR u) _ P1) as (P2 & S2 & M2); [done..|].
  destruct (setOptional_shown PaneMetaKeyBranch (updBranch u) _ P2) as (P3 & S3 & M3); [done..|].
  split_and!; [done| |by rewrite M3, M2, M1].
  intros k. rewrite S3, S2, S1. repeat case_decide; subst; done.
Qed.

(** A mirror of a pane shows what the pane's own server holds: after the
    update is applied to the proxy pane, its branch, PR and tracked references are
    those of the remote pane and its keys say so, and the keys of the user's own
    are kept. *)
Theorem mirror_metadata (remote local : MetaPane) :
  paneOk remote -> paneOk local ->
  let r := paneMeta remote in
  let local' := applyForwardedPaneMetaUpdate (paneMetaUpdate remote) local in
  let l := paneMeta local' in
  paneOk local' /\
  metaGitBranch l = metaGitBranch r /\ metaPR l = metaPR r /\
  metaTrackedPRs l = metaTrackedPRs r /\ metaTrackedIssues l = metaTrackedIssues r /\
  shown local' !! PaneMetaKeyTrackedPRs = shown remote !! PaneMetaKeyTrackedPRs /\
  shown local' !! PaneMetaKeyTrackedIssues = shown remote !! PaneMetaKeyTrackedIssues /\
  default ""%string (shown local' !! PaneMetaKeyPR) = default ""%string (shown remote !! PaneMetaKeyPR) /\
  default ""%string (shown local' !! PaneMetaKeyBranch) = metaGitBranch r /\
  forall k, k <> PaneMetaKeyBranch -> k <> PaneMetaKeyPR -> k <> PaneMetaKeyTrackedPRs ->
    k <> PaneMetaKeyTrackedIssues -> shown local' !! k = shown local !! k.
Proof.
  intros Hr Hl. cbv zeta. pose proof (proj1 Hr) as Hm.
  destruct (forwarded_ok (paneMetaUpdate remote) local Hl) as (Hl' & Hb & _); [split; apply Hm|].
  set (local' := applyForwardedPaneMetaUpdate _ _) in *. pose proof (proj1 Hl') as Hm'.
  split_and!; try done.
  - rewrite !shown_other, (mo_prs _ Hm'), (mo_prs _ Hm) by done. done.
  - rewrite !shown_other, (mo_issues _ Hm'), (mo_issues _ Hm) by done. done.
  - rewrite !shown_other, <- (mo_pr _ Hm'), <- (mo_pr _ Hm) by done. done.
  - unfold shown. rewrite NormalizedMetaKV_shown, shownKV_branchOk by done. by rewrite <- Hb.
  - intros k K1 K2 K3 K4. rewrite !shown_other by done. unfold local', applyForwardedPaneMetaUpdate.
    cbn [paneMeta withMeta metaKV withKV withTracked withTexts].
    by rewrite !lookup_setForwardedJSON_ne, !lookup_setForwarded_ne by done.
Qed.

(** Setting an unrelated key makes the branch the one shown. *)
Lemma set_unrelated p k v :
  paneOk p -> k <> PaneMetaKeyBranch -> k <> PaneMetaKeyTrackedPRs -> k <> PaneMetaKeyTrackedIssues ->
  let p' := fst (SetPaneKVValue k v p) in
  paneOk p' /\ metaKV (paneMeta p') !! PaneMetaKeyBranch = shown p !! PaneMetaKeyBranch /\
  metaGitBranch (paneMeta p') = default ""%string (shown p !! PaneMetaKeyBranch) /\
  metaManualBranch p' = metaManualBranch p.
Proof.
  intros Hp N1 N2 N3. cbv zeta.
  destruct (updatePaneKV_spec p k (Some v) _ Hp (SetPaneKVValue_eq k v)) as ((H1 & H2 & H3 & _) & H4 & _).
  change (updatePaneKV k (SetPaneMetaKV k v) p) with (SetPaneKVValue k v p) in *.
  unfold specUpdate, canonicalValue in *. rewrite !decide_False in H2, H3 by done. cbn [fst snd] in *.
  rewrite H3 in H4. destruct (H4 eq_refl) as [Hb Hman]. rewrite decide_False in Hman by done.
  assert (metaKV (paneMeta (fst (SetPaneKVValue k v p))) !! PaneMetaKeyBranch = shown p !! PaneMetaKeyBranch) as Hk.
  { rewrite <- shownKV_branchOk, <- NormalizedMetaKV_shown by (done || apply H1). change (NormalizedMetaKV _) with (shown (fst (SetPaneKVValue k v p))).
    rewrite H2. by apply lookup_setEntry_ne. }
  split_and!; [done|done|by rewrite Hb, Hk|done].
Qed.

(** A branch that was detected and is gone can come back: once any key has been
    set while a branch was detected, leaving the repository empties the field but
    the map shown still has the old branch, and the next command on an unrelated
    key puts it back into the field, although the user never set a branch. *)
Theorem detected_branch_comes_back (p : MetaPane) (b k1 v1 k2 v2 cwd1 cwd2 : string) :
  paneOk p -> metaManualBranch p = false -> b <> ""%string ->
  Forall (fun k => k <> PaneMetaKeyBranch /\ k <> PaneMetaKeyTrackedPRs /\ k <> PaneMetaKeyTrackedIssues) [k1; k2] ->
  let p1 := fst (SetPaneKVValue k1 v1 (ApplyCwdBranch cwd1 b p)) in
  let p2 := ApplyCwdBranch cwd2 "" p1 in
  let p3 := fst (SetPaneKVValue k2 v2 p2) in
  metaGitBranch (paneMeta p2) = ""%string /\ shown p2 !! PaneMetaKeyBranch = Some b /\
  metaGitBranch (paneMeta p3) = b /\ metaManualBranch p3 = false.
Proof.
  intros Hp Hman Hb [(N1 & N2 & N3) [(N4 & N5 & N6) _]%Forall_cons]%Forall_cons. cbv zeta.
  destruct (ApplyCwdBranch_ok cwd1 b p Hp) as [Hp0 _].
  assert (metaManualBranch (ApplyCwdBranch cwd1 b p) = false) as M0 by done.
  assert (metaGitBranch (paneMeta (ApplyCwdBranch cwd1 b p)) = b) as G0.
  { unfold ApplyCwdBranch. by rewrite Hman. }
  set (p0 := ApplyCwdBranch cwd1 b p) in *.
  destruct (set_unrelated p0 k1 v1) as (P1 & K1 & _ & M1); [done..|]. rewrite shown_branch, G0 in K1 by by rewrite ?G0.
  set (p1 := fst (SetPaneKVValue k1 v1 p0)) in *. rewrite M0 in M1.
  destruct (ApplyCwdBranch_ok cwd2 "" p1 P1) as [Hp2 _].
  assert (metaGitBranch (paneMeta (ApplyCwdBranch cwd2 "" p1)) = ""%string /\
    metaKV (paneMeta (ApplyCwdBranch cwd2 "" p1)) = metaKV (paneMeta p1) /\
    metaManualBranch (ApplyCwdBranch cwd2 "" p1) = false) as (G2 & K2 & M2).
  { unfold ApplyCwdBranch. by rewrite M1. }
  set (p2 := ApplyCwdBranch cwd2 "" p1) in *.
  assert (shown p2 !! PaneMetaKeyBranch = Some b) as Sh2.
  { unfold shown. rewrite NormalizedMetaKV_shown by apply Hp2. unfold shownKV. rewrite G2. cbn [putText]. by rewrite K2. }
  destruct (set_unrelated p2 k2 v2) as (_ & _ & G3 & M3); [done..|].
  split_and!; [done|done|by rewrite G3, Sh2|by rewrite M3].
Qed.
End Props.

(** ** Concrete inputs *)

(** A codec for the witnesses: the bits of the encoding of the list. *)
Fixpoint textOf (p : positive) : string :=
  match p with xH => "1"%string | xO p => String "0"%char (textOf p) | xI p => String "1"%char (textOf p) end.
Fixpoint readText (s : string) : option positive :=
  match s with
  | EmptyString => None
  | String "0"%char s => xO <$> readText s
  | String _ EmptyString => Some xH
  | String _ s => xI <$> readText s
  end.
Lemma readText_textOf p : readText (textOf p) = Some p.
Proof. induction p as [p IH|p IH|]; simpl; [destruct p; simpl in *; try rewrite IH; done|by rewrite IH|done]. Qed.

#[local] Instance TrackedPR_eq_dec : EqDecision TrackedPR.
Proof. solve_decision. Defined.
#[local] Instance TrackedIssue_eq_dec : EqDecision TrackedIssue.
Proof. solve_decision. Defined.
#[local] Program Instance TrackedPR_countable : Countable TrackedPR :=
  inj_countable' (fun x => (prNumber x, prStatus x, prStale x, prCheckedAt x))
    (fun '(n, s, b, c) => mkTrackedPR n s b c) _.
Next Obligation. by intros []. Qed.
#[local] Program Instance TrackedIssue_countable : Countable TrackedIssue :=
  inj_countable' (fun x => (issueID x, issueStatus x, issueStale x, issueCheckedAt x))
    (fun '(n, s, b, c) => mkTrackedIssue n s b c) _.
Next Obligation. by intros []. Qed.

#[local] Instance sampleJSON `{Countable A} : JSONValues A :=
  mkJSONValues A (fun l => textOf (encode l)) (fun s => readText s ≫= decode) (fun x => x).
#[local] Instance sampleJSON_laws `{Countable A} : JSONLaws A.
Proof.
  split; simpl.
  - intros l. rewrite readText_textOf, map_id. apply decode_encode.
  - intros. apply map_id.
  - intros l. by destruct (encode l).
Qed.

Definition sampleMeta : PaneMeta :=
  mkPaneMeta "build" "" "fix" {["note" := "x=1"]}%string "red" false "" "" "12"
    [mkTrackedPR 12 "active" false ""] [].
Definition emptyMeta : PaneMeta := mkPaneMeta "p" "" "" ∅ "" false "" "" "" [] [].
Definition madePane (m : PaneMeta) : MetaPane :=
  match newMetaPane m with Ok p => p | Err _ => mkMetaPane m false "" end.
Lemma sample_made : newMetaPane sampleMeta = Ok (madePane sampleMeta).
Proof. by vm_compute. Qed.
Lemma empty_made : newMetaPane emptyMeta = Ok (madePane emptyMeta).
Proof. by vm_compute. Qed.



Lemma respawn_loses_rename_witness :
  metaName (paneMeta (fst (foldl onMetaEvent (madePane sampleMeta, []) [evBuild "/srv"; evRename "web"; evPublish 0]))) = "build"%string.
Proof.
  destruct (Replacement "/srv" (madePane sampleMeta)) as [q|] eqn:E; [|by vm_compute in E].
  destruct (respawn_loses_rename "web" "/srv" (madePane sampleMeta) q E) as [H _]; [by vm_compute|].
  rewrite H. by vm_compute.
Defined.

Lemma meta_print_set_roundtrip_witness :
  let '(q', r) := setPairs (linesOf (FormatPaneKV (paneMeta (madePane sampleMeta)) [])) (madePane emptyMeta) in
  r = Ok tt /\ paneOk q' /\ shown q' = shown (madePane sampleMeta).
Proof.
  apply (meta_print_set_roundtrip (madePane sampleMeta) (madePane emptyMeta)).
  - apply (newMetaPane_ok sampleMeta), sample_made.
  - apply (newMetaPane_ok emptyMeta), empty_made.
  - by vm_compute.
  - intros k v H. apply elem_of_map_to_list in H.
    assert (Forall (fun e => bool_decide (10 ∉ bytesOf e.1) && bool_decide (61 ∉ bytesOf e.1) &&
      bool_decide (TrimSpace (bytesOf e.1) <> []) && bool_decide (10 ∉ bytesOf e.2) = true)
      (map_to_list (shown (madePane sampleMeta)))) as HF.
    { apply Forall_forall. intros e He. revert e He. apply Forall_forall. apply (bool_decide_unpack _). by vm_compute. }
    rewrite Forall_forall in HF. specialize (HF _ H). cbn [fst snd] in HF.
    apply andb_true_iff in HF as [HF ?%bool_decide_eq_true]. apply andb_true_iff in HF as [HF ?%bool_decide_eq_true].
    by apply andb_true_iff in HF as [?%bool_decide_eq_true ?%bool_decide_eq_true].
Defined.

Lemma detected_branch_comes_back_witness :
  metaGitBranch (paneMeta (fst (SetPaneKVValue "note" "y" (ApplyCwdBranch "/tmp" ""
    (fst (SetPaneKVValue "task" "x" (ApplyCwdBranch "/repo" "main" (madePane emptyMeta)))))))) = "main"%string.
Proof.
  apply (detected_branch_comes_back (madePane emptyMeta) "main" "task" "x" "note" "y" "/repo" "/tmp");
    [|done|done|by repeat constructor].
  apply (newMetaPane_ok emptyMeta), empty_made.
Defined.

Lemma mirror_metadata_witness :
  metaPR (paneMeta (applyForwardedPaneMetaUpdate (paneMetaUpdate (madePane sampleMeta)) (madePane emptyMeta))) = "12"%string.
Proof.
  transitivity (metaPR (paneMeta (madePane sampleMeta))); [|by vm_compute].
  destruct (mirror_metadata (madePane sampleMeta) (madePane emptyMeta)) as (_ & _ & H & _); [..|exact H].
  - apply (newMetaPane_ok sampleMeta), sample_made.
  - apply (newMetaPane_ok emptyMeta), empty_made.
Defined.

Lemma output_sets_metadata_witness :
  let d := FormatMetaSequence sampleMarshal sampleUpdate in
  shown (foldl (fun p u => handleMetaUpdate u p) (madePane emptyMeta)
    (snd (AmuxMetaScanAll sampleUnmarshal [] [take 9 d; drop 9 d]))) !! PaneMetaKeyBranch = Some "main"%string.
Proof.
  cbv zeta.
  refine (proj1 (proj2 (output_sets_metadata sampleUnmarshal sampleMarshal sampleUpdate [] []
    [take 9 (FormatMetaSequence sampleMarshal sampleUpdate); drop 9 (FormatMetaSequence sampleMarshal sampleUpdate)]
    (madePane emptyMeta) _ _ _ _ _ _ _)) PaneMetaKeyBranch);
    try (by vm_compute); try (apply (bool_decide_unpack _); by vm_compute).
Defined.

Lemma meta_commands_refine_witness :
  exists p', setKV (fun _ => Some 1) "build" ["task=done"; "oops"; "note=z"]%string {[1 := madePane sampleMeta]}
      = (<[1 := p']> ({[1 := madePane sampleMeta]}), Err (errKVArg "oops")) /\
    shown p' = <["task" := "done"]>%string (shown (madePane sampleMeta)).
Proof.
  pose proof (meta_commands_refine (fun _ => Some 1) "build" {[1 := madePane sampleMeta]} ["task=done"; "oops"; "note=z"]%string) as H.
  cbn [mbind option_bind] in H. rewrite lookup_singleton_eq in H. cbn [fmap option_fmap option_map] in H.
  destruct H as [(p' & H1 & H2 & H3) _]; [apply (newMetaPane_ok sampleMeta), sample_made|].
  exists p'. split; [exact H1|exact H3].
Defined.
