(* ===== verification/LayoutSnapshot.v ===== *)
(** * Layout snapshots (internal/mux/snapshot.go, proto/types.go,
    server/session_broadcast.go, server/checkpoint.go)

    A window is written to clients and checkpoints as a snapshot: the tree with
    pane IDs in the leaves, the focus, the zoom, the lead, the slot table and the
    panes' metadata.  A server that starts again rebuilds its windows from it; a
    mirror builds a window of local panes that stand for remote ones, so the pane
    of an ID is looked up in a map [paneMap]. *)

From S2P Require Import Prelude LayoutSizes LayoutTree WindowState Ultra WindowOps PaneMeta.
From S2P Require Import Session.

(** ** Cells *)

Inductive CellSnapshot : Set :=
| mkCellSnapshot (r : Rect) (isLeaf : bool) (dir paneID slot : Z) (leadSlot : bool)
    (children : list CellSnapshot).

Definition dirCode (d : SplitDir) : Z := match d with SplitVertical => 0 | SplitHorizontal => 1 end.
Definition dirOfCode (n : Z) : option SplitDir :=
  if n =? 0 then Some SplitVertical else if n =? 1 then Some SplitHorizontal else None.

Fixpoint snapshotCell (c : LayoutCell) : CellSnapshot :=
  match c with
  | Leaf r d => mkCellSnapshot r true (-1) (default 0 (Pane d)) (Slot d) (LeadSlot d) []
  | Node r dir ch => mkCellSnapshot r false (dirCode dir) 0 0 false (map snapshotCell ch)
  end.

(** The tree has no leaf with children and no split in a third direction; a
    snapshot with such a cell has no tree here. *)
Fixpoint rebuildCell (paneOf : Z -> option Z) (cs : CellSnapshot) : option LayoutCell :=
  match cs with
  | mkCellSnapshot r true _ paneID slot leadSlot [] =>
      Some (Leaf r (mkLeafData (paneOf paneID) paneID slot leadSlot))
  | mkCellSnapshot _ true _ _ _ _ (_ :: _) => None
  | mkCellSnapshot r false dir _ _ _ children =>
      d ← dirOfCode dir;
      ch ← (fix go l := match l with
                        | [] => Some []
                        | c :: l => c ← rebuildCell paneOf c; l ← go l; Some (c :: l)
                        end) children;
      Some (Node r d ch)
  end.

(** RebuildLayout leaves the panes nil: the client looks its emulator up by ID. *)
Definition RebuildLayout (cs : CellSnapshot) : option LayoutCell := rebuildCell (fun _ => None) cs.
Definition rebuildCellWithPanes (paneMap : gmap Z Z) (cs : CellSnapshot) : option LayoutCell :=
  rebuildCell (paneMap !!.) cs.

Fixpoint CloneLayout (c : LayoutCell) : LayoutCell :=
  match c with
  | Leaf r d => Leaf r (mkLeafData (Pane d) (PaneID d) (Slot d) (LeadSlot d))
  | Node r dir ch => Node r dir (map CloneLayout ch)
  end.

(** ** Windows *)

Record PaneSnapshot : Type := mkPaneSnapshot {
  psID : Z; psMeta : PaneMeta; psKV : gmap string string;
  psColumnIndex : Z; psLead : bool; psSlot : Z; psHidden : bool }.

Record UltraSnapshot : Set := mkUltraSnapshot {
  usRows : Z; usCols : Z; usPage : Z; usPages : Z; usSlots : list Z; usAutoPromote : bool }.

Record WindowSnapshot : Type := mkWindowSnapshot {
  wsID : Z; wsName : string; wsIndex : Z; wsActivePaneID : Z; wsZoomed : bool; wsZoomedPaneID : Z;
  wsRemoteMirror : bool; wsLeadPaneID : Z; wsUltra : option UltraSnapshot;
  wsRoot : CellSnapshot; wsPanes : list PaneSnapshot }.

(** The legacy snapshot of the active window. *)
Record LayoutSnapshot : Type := mkLayoutSnapshot {
  lsSessionName : string; lsWidth : Z; lsHeight : Z;
  lsActivePaneID : Z; lsZoomedPaneID : Z; lsLeadPaneID : Z;
  lsRoot : CellSnapshot; lsPanes : list PaneSnapshot; lsUltra : option UltraSnapshot;
  lsWindows : list WindowSnapshot; lsActiveWindowID : Z; lsPreviousWindowID : Z }.

(** Pane.ToSnapshot: the metadata as it is, the map as the user sees it. *)
Definition ToSnapshot (id : Z) (m : PaneMeta) : PaneSnapshot :=
  mkPaneSnapshot id m (NormalizedMetaKV m) 0 false 0 false.

Definition snapshotUltra (w : Window) : option UltraSnapshot :=
  (fun u => mkUltraSnapshot (uRows u) (uCols u) (uPage u) (PageCount u) (SlotIDs u) (AutoPromote u))
    <$> Ultra w.

Section Panes.
(** The metadata of the panes. *)
Context (metaOf : Z -> PaneMeta).

Definition snapshotPane (w : Window) (id : Z) : PaneSnapshot :=
  let ps := ToSnapshot id (metaOf id) in
  let column := match snd (ColumnIndexForPaneID id w) with Ok i => i | Err _ => 0 end in
  let lead := negb (LeadPaneID w =? 0) && (id =? LeadPaneID w) in
  let '(slot, hidden) :=
    match Ultra w ≫= SlotOf id with
    | Some idx => (Z.of_nat idx + 1, negb (ultraVisible id w))
    | None => (0, false)
    end in
  mkPaneSnapshot (psID ps) (psMeta ps) (psKV ps) column lead slot hidden.

Definition snapshotCore (w : Window) : CellSnapshot * list PaneSnapshot * Z * Z * Z :=
  (snapshotCell (Root w), map (snapshotPane w) (Panes w), activeID w, ZoomedPaneID w, LeadPaneID w).

Definition SnapshotLayout (sessionName : string) (w : Window) : LayoutSnapshot :=
  let '(root, panes, activePaneID, zoomedPaneID, leadPaneID) := snapshotCore w in
  mkLayoutSnapshot sessionName (Width w) (Height w) activePaneID zoomedPaneID leadPaneID root panes
    (snapshotUltra w) [] 0 0.

Definition SnapshotWindow (index : Z) (sw : SWindow) : WindowSnapshot :=
  let w := wWin sw in
  let '(root, panes, activePaneID, zoomedPaneID, leadPaneID) := snapshotCore w in
  mkWindowSnapshot (wID sw) (wName sw) index activePaneID (negb (zoomedPaneID =? 0)) zoomedPaneID
    false leadPaneID (snapshotUltra w) root panes.

(** Session.snapshotLayout; the idle flags and the mailbox summaries it adds to
    the panes are left out. *)
Definition setRemoteMirror (mirrored : bool) (ws : WindowSnapshot) : WindowSnapshot :=
  mkWindowSnapshot (wsID ws) (wsName ws) (wsIndex ws) (wsActivePaneID ws) (wsZoomed ws) (wsZoomedPaneID ws)
    mirrored (wsLeadPaneID ws) (wsUltra ws) (wsRoot ws) (wsPanes ws).
Definition snapshotWindows (s : Session) : list WindowSnapshot :=
  imap (fun i win => setRemoteMirror (bool_decide (wID win ∈ windowMirrorSigs s))
                       (SnapshotWindow (Z.of_nat i + 1) win)) (Windows s).
Definition snapshotLayout (sessionName : string) (s : Session) : option LayoutSnapshot :=
  (fun win =>
     let snap := SnapshotLayout sessionName (wWin win) in
     mkLayoutSnapshot (lsSessionName snap) (lsWidth snap) (lsHeight snap) (lsActivePaneID snap)
       (lsZoomedPaneID snap) (lsLeadPaneID snap) (lsRoot snap) (lsPanes snap) (lsUltra snap)
       (snapshotWindows s) (ActiveWindowID s) (PreviousWindowID s))
    <$> activeWindow s.
End Panes.

(** ** Rebuilding *)

(** The slots of a snapshot as panes; an ID without a pane leaves its slot empty. *)
Definition restoredSlot (paneMap : gmap Z Z) (id : Z) : option Z :=
  if id =? 0 then None else paneMap !! id.

(** The IDs of the snapshot that have a pane. *)
Definition seenSlots (paneMap : gmap Z Z) (slots : list Z) : gset Z :=
  list_to_set (filter (fun id => is_Some (restoredSlot paneMap id)) slots).

(** The loop over the panes of the tree: the ones not seen get a slot. *)
Definition insertUnseen (seen : gset Z) (panes : list Z) (u : UltraLayout) : UltraLayout :=
  fold_left (fun u id => if decide (id ∈ seen) then u else fst (ultraSlotInsert id u)) panes u.

Definition restoreUltra (us : option UltraSnapshot) (paneMap : gmap Z Z) (w : Window) : Window :=
  match us with
  | None => w
  | Some us =>
      match ValidateUltraGrid (usRows us) (usCols us) with
      | Err _ => w
      | Ok _ =>
          let slots := map (restoredSlot paneMap) (usSlots us) in
          let seen := seenSlots paneMap (usSlots us) in
          let w := setUltraLead None w in
          let '(w, seen) :=
            if LeadPaneID w =? 0 then (w, seen)
            else match paneMap !! LeadPaneID w with
                 | Some p => (setUltraLead (Some p) w, {[LeadPaneID w]} ∪ seen)
                 | None => (setLeadID 0 w, seen)
                 end in
          let u := mkUltraLayout (usRows us) (usCols us) (usPage us) slots (usAutoPromote us) in
          let u := insertUnseen seen (Panes w) u in
          rebuildUltraTree (setUltra (Some (trimEmptyPages u)) w)
      end
  end.

Section Rebuild.
(** The panes of the server and its focus counter, and the order in which Go
    ranges over a map. *)
Context (ps : gmap Z PaneState) (counter : Z) (order : gmap Z Z -> list (Z * Z)).

(** RebuildFromSnapshot, for a legacy checkpoint of one window. *)
Definition RebuildFromSnapshot (snap : LayoutSnapshot) (paneMap : gmap Z Z) : option Window :=
  root ← rebuildCellWithPanes paneMap (lsRoot snap);
  let activePane := match paneMap !! lsActivePaneID snap with
                    | Some p => Some p
                    | None => snd <$> head (order paneMap)
                    end in
  Some (restoreUltra (lsUltra snap) paneMap
    (mkWindow root activePane (lsWidth snap) (lsHeight snap) (lsZoomedPaneID snap) (lsLeadPaneID snap)
       None None ps counter)).

(** RebuildWindowFromSnapshot: the size is the one of the restored root cell; the
    size passed is for a root without one. *)
Definition RebuildWindowFromSnapshot (ws : WindowSnapshot) (width height : Z) (paneMap : gmap Z Z) : option SWindow :=
  root ← rebuildCellWithPanes paneMap (wsRoot ws);
  let activePane := match paneMap !! wsActivePaneID ws with
                    | Some p => Some p
                    | None => firstPaneInSubtree root
                    end in
  let '(winW, winH) := if (cW root <=? 0) || (cH root <=? 0) then (width, height) else (cW root, cH root) in
  Some (mkSWindow (wsID ws) (wsName ws) (restoreUltra (wsUltra ws) paneMap
    (mkWindow root activePane winW winH (wsZoomedPaneID ws) (wsLeadPaneID ws) None None ps counter))).

End Rebuild.

(** The windows a server has after a reload or a crash (server/checkpoint.go,
    server.go); each rebuilt window works on the server's panes, and a checkpoint
    without windows is one window with the next number. *)
Section RestoreWindows.
Context (order : gmap Z Z -> list (Z * Z)) (nameOf : Z -> string).
Context (layout : LayoutSnapshot) (paneMap : gmap Z Z).

Fixpoint restoreWindowList (windows : list WindowSnapshot) (ps : gmap Z PaneState) (counter : Z) :
    option (list SWindow * gmap Z PaneState * Z) :=
  match windows with
  | [] => Some ([], ps, counter)
  | ws :: rest =>
      sw ← RebuildWindowFromSnapshot ps counter ws (lsWidth layout) (lsHeight layout) paneMap;
      let w := wWin sw in
      '(sws, ps, counter) ← restoreWindowList rest (panes w) (activePointCounter w);
      Some (mkSWindow (wID sw) (wName sw) (bare w) :: sws, ps, counter)
  end.

(** Windows, active and previous window of the restored session. *)
Definition restoreWindows (s : Session) : option Session :=
  match lsWindows layout with
  | [] =>
      w ← RebuildFromSnapshot (store s) (pointCounter s) order layout paneMap;
      let winID := (windowCounter s + 1) mod 2 ^ 32 in
      let s := withCounters winID (counter s) s in
      let s := withStore (panes w) (activePointCounter w) s in
      Some (withActive winID (withWindows (Windows s ++ [mkSWindow winID (nameOf winID) (bare w)]) s))
  | windows =>
      '(sws, ps, n) ← restoreWindowList windows (store s) (pointCounter s);
      let s := withStore ps n (withWindows (Windows s ++ sws) s) in
      Some (withPrevious (lsPreviousWindowID layout) (withActive (lsActiveWindowID layout) s))
  end.
End RestoreWindows.
