(* ===== verification/SnapshotProps.v ===== *)
(** * Layout snapshots: what is rebuilt from one, and properties *)

From S2P Require Import Prelude LayoutSizes LayoutTree LayoutFacts LayoutEdit WindowState Ultra WindowOps WindowFacts WindowMoves UltraFacts.
From S2P Require Import UltraSteps UltraProps Session SessionFacts SessionSteps SessionProps PaneMeta LayoutSnapshot.

(** ** Layout snapshots: what is rebuilt from one *)

(** ** Changing what the leaves hold *)

Fixpoint mapLeaves (f : LeafData -> LeafData) (c : LayoutCell) : LayoutCell :=
  match c with Leaf r d => Leaf r (f d) | Node r dir ch => Node r dir (map (mapLeaves f) ch) end.

Section MapLeaves.
Context (f : LeafData -> LeafData).

Lemma cellRect_mapLeaves c : cellRect (mapLeaves f c) = cellRect c.
Proof. by destruct c. Qed.
Lemma axisSize_mapLeaves axis c : axisSize axis (mapLeaves f c) = axisSize axis c.
Proof. unfold axisSize. by rewrite cellRect_mapLeaves. Qed.
Lemma map_mapLeaves {A} (g : LayoutCell -> A) ch :
  (forall c, g (mapLeaves f c) = g c) -> map g (map (mapLeaves f) ch) = map g ch.
Proof. intros H. rewrite map_map. apply map_ext. done. Qed.

Lemma wf_mapLeaves c : wf c -> wf (mapLeaves f c).
Proof.
  induction c as [r d|r dir ch IH] using LayoutCell_tree_ind; cbn [mapLeaves]; inversion_clear 1; constructor; try done.
  - by rewrite length_map.
  - rewrite Forall_map. eapply Forall_impl; [apply Forall_and; split; [exact IH|exact H1]|]. intros c [Hc ?]. by apply Hc.
  - rewrite Forall_map. eapply Forall_impl; [exact H2|]. intros c. by rewrite axisSize_mapLeaves.
  - rewrite map_mapLeaves by apply axisSize_mapLeaves. by rewrite lenZ_map.
Qed.

Lemma placeAt_mapLeaves x y c : placeAt x y (mapLeaves f c) = mapLeaves f (placeAt x y c).
Proof.
  revert x y. induction c as [r d|r dir ch IH] using LayoutCell_tree_ind; intros x y; [done|].
  cbn [mapLeaves]. rewrite !placeAt_node. cbn [mapLeaves]. f_equal.
  destruct dir; simpl; revert x y; induction IH as [|c ch Hc _ IH]; intros x y; simpl; [done| |done|];
    rewrite Hc, IH; unfold cW, cH; by rewrite cellRect_mapLeaves.
Qed.
Lemma positioned_mapLeaves c : positioned c -> positioned (mapLeaves f c).
Proof.
  unfold positioned, FixOffsets, cX, cY. intros H. by rewrite cellRect_mapLeaves, placeAt_mapLeaves, H.
Qed.

Lemma leaves_mapLeaves c : leaves (mapLeaves f c) = map f (leaves c).
Proof.
  induction c as [r d|r dir ch IH] using LayoutCell_tree_ind; simpl; [done|].
  rewrite concat_map, !map_map. f_equal. by apply Forall_map_eq.
Qed.

Lemma Walk_mapLeaves c : Walk (mapLeaves f c) = map (fun e => (e.1, (e.2.1, f e.2.2))) (Walk c).
Proof.
  induction c as [r d|r dir ch IH] using LayoutCell_tree_ind; [done|]. cbn [mapLeaves]. rewrite !Walk_node.
  generalize 0%nat. induction IH as [|c ch Hc _ IH]; intros i; simpl; [done|].
  rewrite map_app, IH, Hc, !map_map. done.
Qed.

Lemma FindLeafAt_mapLeaves x y c : FindLeafAt x y (mapLeaves f c) = FindLeafAt x y c.
Proof.
  induction c as [r d|r dir ch IH] using LayoutCell_tree_ind; simpl; [done|].
  generalize 0%nat. induction IH as [|c ch Hc _ IH]; intros i; simpl; [done|]. by rewrite Hc, IH.
Qed.
Lemma borderBetween_mapLeaves dir r x y i ch :
  borderBetween dir r x y i (map (mapLeaves f) ch) = borderBetween dir r x y i ch.
Proof.
  revert i. induction ch as [|c [|c' ch] IH]; intros i; [done..|]. cbn [map borderBetween] in *. rewrite IH.
  unfold onBorder, cX, cY, cW, cH. by rewrite cellRect_mapLeaves.
Qed.
Lemma FindBorderAt_mapLeaves x y c : FindBorderAt x y (mapLeaves f c) = FindBorderAt x y c.
Proof.
  induction c as [r d|r dir ch IH] using LayoutCell_tree_ind; simpl; [done|]. rewrite borderBetween_mapLeaves.
  destruct (borderBetween dir r x y 0 ch); [done|]. generalize 0%nat.
  induction IH as [|c ch Hc _ IH]; intros i; simpl; [done|]. by rewrite Hc, IH.
Qed.
Lemma findLast_mapLeaves test c : findLast test (mapLeaves f c) = findLast (fun d => test (f d)) c.
Proof.
  unfold findLast. rewrite Walk_mapLeaves. generalize (@None path).
  induction (Walk c) as [|e l IH]; intros found; simpl; [done|]. apply IH.
Qed.
End MapLeaves.

Lemma mapLeaves_id f c : Forall (fun d => f d = d) (leaves c) -> mapLeaves f c = c.
Proof.
  induction c as [r d|r dir ch IH] using LayoutCell_tree_ind; simpl.
  - rewrite Forall_singleton. by intros ->.
  - intros H. f_equal. induction IH as [|c ch Hc _ IH]; simpl in *; [done|].
    apply Forall_app in H as [H1 H2]. by rewrite Hc, IH.
Qed.
Lemma findLast_ext test test' c :
  Forall (fun d => test d = test' d) (leaves c) -> findLast test c = findLast test' c.
Proof.
  unfold findLast. rewrite <- Walk_leaves, Forall_map. generalize (@None path). induction (Walk c) as [|e l IH]; intros found; simpl; [done|].
  rewrite Forall_cons. intros [-> H]. by apply IH.
Qed.

(** ** A snapshot of a tree, read back *)

(** What a leaf becomes: its pane is looked up by the ID it was written with. *)
Definition restoredLeaf (paneOf : Z -> option Z) (d : LeafData) : LeafData :=
  mkLeafData (paneOf (default 0 (Pane d))) (default 0 (Pane d)) (Slot d) (LeadSlot d).

Lemma dirOfCode_dirCode d : dirOfCode (dirCode d) = Some d.
Proof. by destruct d. Qed.

Lemma rebuild_snapshotCell paneOf c :
  rebuildCell paneOf (snapshotCell c) = Some (mapLeaves (restoredLeaf paneOf) c).
Proof.
  induction c as [r d|r dir ch IH] using LayoutCell_tree_ind; [done|]. cbn [snapshotCell rebuildCell mapLeaves].
  rewrite dirOfCode_dirCode. cbn [mbind option_bind].
  match goal with |- (?go (map snapshotCell ch) ≫= _) = _ => assert (go (map snapshotCell ch) = Some (map (mapLeaves (restoredLeaf paneOf)) ch)) as -> end; [|done].
  induction IH as [|c ch Hc _ IH]; [done|]. cbn [map]. rewrite Hc. cbn [mbind option_bind]. by rewrite IH.
Qed.

(** The panes of a tree that is read back, each with its own map entry. *)
Definition covers (paneOf : Z -> option Z) (ids : list Z) : Prop := Forall (fun id => paneOf id = Some id) ids.

Lemma cellPanes_restored paneOf c :
  covers paneOf (treePanes c) -> paneOf 0 = None \/ cellPanes c = map Some (treePanes c) ->
  cellPanes (mapLeaves (restoredLeaf paneOf) c) = cellPanes c.
Proof.
  intros Hc H0. unfold cellPanes at 1. rewrite leaves_mapLeaves, map_map. unfold cellPanes in *.
  apply map_ext_in. intros d Hd%list_elem_of_In. simpl. destruct (Pane d) as [id|] eqn:E; simpl.
  - unfold covers in Hc. rewrite Forall_forall in Hc. apply Hc, elem_of_treePanes. by exists d.
  - destruct H0 as [->|H0]; [done|]. assert (None ∈ map Pane (leaves c)) as Hin.
    { rewrite <- E. by apply list_elem_of_fmap_2. }
    rewrite H0 in Hin. by apply list_elem_of_fmap in Hin as (? & ? & _).
Qed.

Lemma treeOk_restored paneOf width height c :
  treeOk width height c -> covers paneOf (treePanes c) ->
  treeOk width height (mapLeaves (restoredLeaf paneOf) c) /\
  treePanes (mapLeaves (restoredLeaf paneOf) c) = treePanes c.
Proof.
  intros (Hwf & Hpos & Hr & HP & Hnd & Hids) Hc.
  assert (cellPanes (mapLeaves (restoredLeaf paneOf) c) = cellPanes c) as E by (apply cellPanes_restored; auto).
  assert (treePanes (mapLeaves (restoredLeaf paneOf) c) = treePanes c) as Et by by rewrite !treePanes_cellPanes, E.
  split; [|done]. unfold treeOk. rewrite Et, E, cellRect_mapLeaves.
  split_and!; auto using wf_mapLeaves, positioned_mapLeaves.
Qed.

(** ** The slot table *)

Lemma restoredSlots paneMap slots :
  Forall (fun id => 0 < id) (omap id slots) -> covers (paneMap !!.) (omap id slots) ->
  map (restoredSlot paneMap) (map (default 0) slots) = slots.
Proof.
  intros Hpos Hc. induction slots as [|[i|] slots IH]; simpl in *; [done| |by f_equal; auto].
  apply Forall_cons in Hpos as [Hi Hpos]. apply Forall_cons in Hc as [Hl Hc].
  f_equal; [|by apply IH]. unfold restoredSlot. by destruct (Z.eqb_spec i 0); [lia|].
Qed.

Lemma elem_of_seenSlots paneMap slots i :
  i ∈ seenSlots paneMap slots <-> i ∈ slots /\ is_Some (restoredSlot paneMap i).
Proof. unfold seenSlots. rewrite elem_of_list_to_set, list_elem_of_filter. tauto. Qed.

Lemma insertUnseen_seen seen ids u : Forall (fun i => i ∈ seen) ids -> insertUnseen seen ids u = u.
Proof.
  unfold insertUnseen. revert u. induction ids as [|i ids IH]; intros u; simpl; [done|].
  rewrite Forall_cons. intros [Hi H]. rewrite decide_True by done. by apply IH.
Qed.

(** The table after the loop has the unseen panes besides. *)
Lemma insertUnseen_panes seen ids u :
  omap id (uSlots (insertUnseen seen ids u)) ≡ₚ omap id (uSlots u) ++ filter (fun i => i ∉ seen) ids.
Proof.
  unfold insertUnseen. revert u. induction ids as [|i ids IH]; intros u; cbn [fold_left].
  - by rewrite filter_nil, app_nil_r.
  - rewrite IH. destruct (decide (i ∈ seen)) as [Hi|Hi].
    + by rewrite filter_cons_False by by intros ?.
    + rewrite filter_cons_True by done. rewrite (ultraSlotInsert_panes i u).
      apply Permutation_middle.
Qed.

Lemma elem_of_panes_slot u i : i ∈ omap id (uSlots u) -> i ∈ SlotIDs u.
Proof.
  rewrite elem_of_slots. intros H. unfold SlotIDs. apply list_elem_of_fmap. by exists (Some i).
Qed.

(** A pane in the tree of an ultra window is visible. *)
Lemma in_tree_visible w u i : UltraInv w u -> i ∈ treePanes (Root w) -> ultraVisible i w = true.
Proof.
  intros [Hs [Hp _] HR _] Hi. rewrite HR, gridRoot_panes in Hi by (done || apply Hs).
  unfold ultraVisible. rewrite (si_ultra w u Hs). rewrite (visibleLead_eq w u Hs) in Hi.
  apply elem_of_app in Hi as [Hi|Hi].
  - destruct (Z.eqb_spec (LeadPaneID w) 0) as [|Hl]; [by apply elem_of_nil in Hi|].
    apply list_elem_of_singleton in Hi as ->. by rewrite Z.eqb_refl.
  - destruct (_ && _); [done|]. apply elem_of_slots in Hi. unfold pageSlots in Hi.
    apply list_elem_of_lookup in Hi as [k Hk]. apply lookup_take_Some in Hk as [Hk Hlt]. rewrite lookup_drop in Hk.
    rewrite (SlotOf_unique w u _ i Hs Hk). apply Z.eqb_eq. pose proof (AgentSlotsPerPage_pos u).
    apply PageOfSlot_visible; [done|]. nia.
Qed.

Lemma tree_in_panes w u : UltraInv w u -> treePanes (Root w) ⊆ ultraPanes u w.
Proof.
  intros Hi i Hin. pose proof Hi as [Hs Hp HR _].
  by destruct (visible_in_tree w u i Hs Hp HR (in_tree_visible w u i Hi Hin)).
Qed.

(** Reading the slot table back when every pane has its own entry. *)
Lemma restoreUltra_same paneMap w u w1 :
  UltraInv w u -> trimEmptyPages u = u -> covers (paneMap !!.) (ultraPanes u w) ->
  Ultra w1 = None -> treePanes (Root w1) = treePanes (Root w) -> LeadPaneID w1 = LeadPaneID w ->
  Width w1 = Width w -> Height w1 = Height w -> ActivePane w1 = ActivePane w ->
  ZoomedPaneID w1 = ZoomedPaneID w -> working (panes w1) ->
  let w' := restoreUltra (snapshotUltra w) paneMap w1 in
  UltraInv w' u /\ ultraPanes u w' = ultraPanes u w /\ Root w' = Root w /\
  LeadPaneID w' = LeadPaneID w /\ ZoomedPaneID w' = ZoomedPaneID w /\
  Width w' = Width w /\ Height w' = Height w /\
  (treePanes (Root w) <> [] -> ActivePane w' = ActivePane w).
Proof.
  intros Hi Ht Hc H1 H2 H3 H4 H5 H6 H7 Hw. pose proof Hi as [Hs Hp HR Ha]. pose proof Hs as [HU Hg Hl Hnd Hpos Hne _].
  cbv zeta. unfold restoreUltra, snapshotUltra. rewrite HU. cbn [fmap option_fmap option_map usRows usCols usPage usSlots usAutoPromote].
  rewrite (proj2 (ValidateUltraGrid_ok (uRows u) (uCols u)) Hg). rewrite ultraPanes_eq in Hc, Hpos, Hnd.
  apply Forall_app in Hc as [Hcl Hcs]. apply Forall_app in Hpos as [Hpl Hps].
  unfold SlotIDs. rewrite restoredSlots by done. fold (SlotIDs u).
  assert (forall i, i ∈ omap id (uSlots u) -> i ∈ seenSlots paneMap (SlotIDs u)) as Hseen.
  { intros i Hin. apply elem_of_seenSlots. split; [by apply elem_of_panes_slot|].
    rewrite Forall_forall in Hps, Hcs. specialize (Hps i Hin). unfold restoredSlot.
    destruct (Z.eqb_spec i 0); [lia|]. by rewrite (Hcs i Hin). }
  pose proof (tree_in_panes w u Hi) as Hsub. rewrite ultraPanes_eq, (visibleLead_eq w u Hs) in Hsub.
  rewrite (visibleLead_eq w u Hs) in Hcl.
  (* The lead, and the panes of the tree, are all seen. *)
  match goal with |- context [let '(_, _) := ?e in _] => set (p := e) end.
  assert (exists sn, p = (setUltraLead (ultraLead w) w1, sn) /\ Forall (fun i => i ∈ sn) (treePanes (Root w))) as (sn & -> & Hsn).
  { unfold p. clear p. rewrite Hl. change (LeadPaneID (setUltraLead None w1)) with (LeadPaneID w1). rewrite H3.
    revert Hcl Hsub. destruct (Z.eqb_spec (LeadPaneID w) 0) as [|Hn]; intros Hcl Hsub.
    - exists (seenSlots paneMap (SlotIDs u)). split; [done|]. apply Forall_forall. intros i Hin%Hsub. by apply Hseen.
    - assert (paneMap !! LeadPaneID w = Some (LeadPaneID w)) as -> by (inversion Hcl; done). eexists. split; [done|]. apply Forall_forall.
      intros i [->%list_elem_of_singleton|Hin]%Hsub%elem_of_app; [set_solver|]. apply elem_of_union_r. by apply Hseen. }
  assert (Panes (setUltraLead (ultraLead w) w1) = treePanes (Root w)) as ->.
  { unfold Panes. simpl. rewrite H1. by rewrite panesOf_treePanes. }
  rewrite insertUnseen_seen by done. replace (mkUltraLayout _ _ _ _ _) with u by by destruct u. rewrite Ht.
  set (w2 := setUltra (Some u) _).
  assert (SlotsInv w2 u) as Hs2.
  { constructor; try done; try (cbn; by rewrite H3); unfold ultraPanes in *; cbn; rewrite H3; try done.
    apply Hs. apply Hs. }
  destruct (rebuild_ok w2 u Hs2) as (Hi' & HP' & HL' & HZ' & HW' & HH' & HA').
  rewrite (clampPage_id u Hp) in *.
  split_and!; [done| | |by rewrite HL'|by rewrite HZ'|by rewrite HW'|by rewrite HH'|].
  - rewrite HP'. unfold ultraPanes. cbn. by rewrite H3.
  - rewrite (ui_root _ _ Hi'), HR, HW', HH'. unfold visibleLead. rewrite HL', (si_lead _ _ (ui_slots _ _ Hi')), HL', Hl.
    cbn. rewrite H3, H4, H5. done.
  - intros Hnt. destruct Ha as (a & Ea & _ & Hat). rewrite Ea. apply HA'; [by cbn; rewrite H6|].
    pose proof (in_tree_visible w u a Hi (Hat Hnt)) as Hv. unfold ultraVisible in *. cbn. rewrite HU in Hv. by rewrite H3.
Qed.

(** ** Windows *)

(** A window without the ultra layout, read back: only the leaves' own IDs, which
    the server leaves at 0, are filled in. *)
Definition restoredWindow (paneMap : gmap Z Z) (ps : gmap Z PaneState) (counter : Z) (w : Window) : Window :=
  mkWindow (mapLeaves (restoredLeaf (paneMap !!.)) (Root w)) (ActivePane w) (Width w) (Height w)
    (ZoomedPaneID w) (LeadPaneID w) None None ps counter.

Lemma wf_root_pos c : wf c -> 0 < cW c /\ 0 < cH c.
Proof.
  intros Hwf. pose proof (wf_min_le SplitVertical _ Hwf) as H1. pose proof (wf_min_le SplitHorizontal _ Hwf) as H2.
  pose proof (minSubtreeSize_ge SplitVertical _ (wf_shaped _ Hwf)). pose proof (minSubtreeSize_ge SplitHorizontal _ (wf_shaped _ Hwf)).
  unfold axisSize, PaneMinSize, cW, cH in *. simpl in *. lia.
Qed.

Lemma rebuild_window metaOf mirrored index ps counter width height paneMap sw :
  WindowInv (wWin sw) -> covers (paneMap !!.) (treePanes (Root (wWin sw))) ->
  RebuildWindowFromSnapshot ps counter (setRemoteMirror mirrored (SnapshotWindow metaOf index sw)) width height paneMap
  = Some (mkSWindow (wID sw) (wName sw) (restoredWindow paneMap ps counter (wWin sw))).
Proof.
  intros [HU Ht (a & Ea & Hin) _ _] Hc. unfold RebuildWindowFromSnapshot, rebuildCellWithPanes.
  cbn [wsRoot setRemoteMirror SnapshotWindow snapshotCore wsActivePaneID wsID wsName wsUltra wsZoomedPaneID wsLeadPaneID].
  rewrite rebuild_snapshotCell. cbn [mbind option_bind]. unfold cW, cH, snapshotUltra. rewrite cellRect_mapLeaves, HU.
  destruct Ht as (Hwf & _ & Hr & _). rewrite Hr. cbn [rW rH fmap option_fmap option_map restoreUltra].
  assert (0 < Width (wWin sw) /\ 0 < Height (wWin sw)) as [HW HH].
  { pose proof (wf_root_pos _ Hwf) as H. unfold cW, cH in H. by rewrite Hr in H. }
  rewrite !(proj2 (Z.leb_gt _ _)) by done. cbn [orb].
  unfold covers in Hc. rewrite Forall_forall in Hc. unfold activeID. rewrite Ea. change (default 0 (Some a)) with a. rewrite (Hc a Hin : paneMap !! a = Some a).
  unfold restoredWindow. by rewrite Ea.
Qed.

Lemma restoredWindow_inv paneMap ps counter w :
  WindowInv w -> covers (paneMap !!.) (treePanes (Root w)) ->
  WindowInv (restoredWindow paneMap ps counter w) /\
  treePanes (Root (restoredWindow paneMap ps counter w)) = treePanes (Root w).
Proof.
  intros [HU Ht (a & Ea & Hin) Hz Hl] Hc.
  destruct (treeOk_restored (paneMap !!.) _ _ _ Ht Hc) as [Ht' E]. split; [|exact E].
  constructor; unfold refers in *; cbn [Root ActivePane ZoomedPaneID LeadPaneID Width Height restoredWindow Ultra];
    rewrite ?E; try done. by exists a.
Qed.

(** ** Sessions *)

Lemma restoreWindowList_ok metaOf layout paneMap (mirrored : SWindow -> bool) (index : nat -> Z) ws ps counter :
  Forall (fun sw => WindowInv (wWin sw) /\ covers (paneMap !!.) (treePanes (Root (wWin sw)))) ws ->
  restoreWindowList layout paneMap
    (imap (fun i sw => setRemoteMirror (mirrored sw) (SnapshotWindow metaOf (index i) sw)) ws) ps counter
  = Some (map (fun sw => mkSWindow (wID sw) (wName sw) (restoredWindow paneMap ∅ 0 (wWin sw))) ws, ps, counter).
Proof.
  intros H. revert index. induction H as [|sw ws [Hi Hc] _ IH]; intros index; [done|].
  rewrite imap_cons. cbn [restoreWindowList]. rewrite rebuild_window by done. cbn [mbind option_bind].
  match goal with |- context [restoreWindowList layout paneMap ?l ?p ?n] =>
    change (restoreWindowList layout paneMap l p n) with (restoreWindowList layout paneMap
      (imap (fun i sw => setRemoteMirror (mirrored sw) (SnapshotWindow metaOf (index (S i)) sw)) ws) ps counter) end.
  rewrite (IH (fun i => index (S i))). done.
Qed.

(** The session a reloaded server starts from has no windows yet; the window
    numbers go on. *)
Lemma restoreWindows_ok metaOf order nameOf sessionName paneMap s s0 snap :
  SessionInv s -> Windows s <> [] -> Windows s0 = [] -> covers (paneMap !!.) (SessionFacts.shown s) ->
  snapshotLayout metaOf sessionName s = Some snap ->
  restoreWindows order nameOf snap paneMap s0 = Some (withPrevious (PreviousWindowID s) (withActive (ActiveWindowID s)
    (withWindows (map (fun sw => mkSWindow (wID sw) (wName sw) (restoredWindow paneMap ∅ 0 (wWin sw))) (Windows s)) s0))).
Proof.
  intros [_ [_ _ Hwi _] _ _ _] Hne H0 Hc. unfold snapshotLayout. destruct (activeWindow s) as [win|]; [|done].
  intros [= <-]. unfold restoreWindows. cbn [lsWindows lsActiveWindowID lsPreviousWindowID].
  assert (Forall (fun sw => WindowInv (wWin sw) /\ covers (paneMap !!.) (treePanes (Root (wWin sw)))) (Windows s)) as HF.
  { apply Forall_and. split; [done|]. apply Forall_forall. intros sw Hin. unfold covers in *. rewrite Forall_forall in *.
    intros i Hi. apply Hc. unfold SessionFacts.shown. rewrite elem_of_shownIn. by exists sw. }
  unfold snapshotWindows. destruct (imap _ (Windows s)) as [|x l] eqn:E.
  { apply (f_equal length) in E. rewrite length_imap in E. by destruct (Windows s). }
  rewrite <- E. rewrite (restoreWindowList_ok metaOf _ paneMap (fun win => bool_decide (wID win ∈ windowMirrorSigs s))
    (fun i => Z.of_nat i + 1)) by done.
  cbn [mbind option_bind]. rewrite H0. by destruct s0.
Qed.

(** ** The client's copy of the layout *)

(** The layout a client rebuilds from a snapshot is the server's for every
    look-up the client makes: the cell of a pane ID, the cell under a point, the
    border near a point, and the position and size of every cell; a snapshot of
    any tree can be read. *)
Theorem client_layout_agrees (c : LayoutCell) :
  exists c', RebuildLayout (snapshotCell c) = Some c' /\
    (forall id, id <> 0 -> FindByPaneID id c' = FindPane id c) /\
    (forall x y, FindLeafAt x y c' = FindLeafAt x y c /\ FindBorderNear x y c' = FindBorderNear x y c) /\
    map (fun e => (e.1, e.2.1)) (Walk c') = map (fun e => (e.1, e.2.1)) (Walk c) /\
    snapshotCell (CloneLayout c) = snapshotCell c.
Proof.
  eexists. split; [apply rebuild_snapshotCell|]. split_and!.
  - intros id Hid. unfold FindByPaneID, FindPane. rewrite findLast_mapLeaves. apply findLast_ext, Forall_forall.
    intros d _. unfold CellPaneID. cbn. destruct (Pane d) as [p|]; simpl.
    + destruct (Z.eqb_spec p id) as [->|]; [by rewrite bool_decide_eq_true_2|rewrite bool_decide_eq_false_2; congruence].
    + by destruct id.
  - intros x y. split; [apply FindLeafAt_mapLeaves|]. unfold FindBorderNear, borderOffsets. cbn [fold_right].
    by rewrite !FindBorderAt_mapLeaves.
  - rewrite Walk_mapLeaves, map_map. done.
  - f_equal. induction c as [r d|r dir ch IH] using LayoutCell_tree_ind; [by destruct d|]. cbn [CloneLayout]. f_equal.
    rewrite <- (map_id ch) at 2. apply map_ext_in. intros c Hc%list_elem_of_In. rewrite Forall_forall in IH. by apply IH.
Qed.

(** ** Windows *)

(** A window in the ultra layout comes back from its snapshot as it was: the
    same slots on the same pages, the same page shown, the lead, the zoom, the
    size and the tree, and the focus whenever the page shows a pane. *)
Theorem ultra_snapshot_roundtrip metaOf index ps counter width height paneMap (sw : SWindow) u :
  UltraInv (wWin sw) u -> trimEmptyPages u = u ->
  PaneMinSize * uCols u + (uCols u - 1) <= Width (wWin sw) ->
  PaneMinSize * uRows u + (uRows u - 1) <= Height (wWin sw) ->
  Forall (fun id => paneMap !! id = Some id) (ultraPanes u (wWin sw)) -> paneMap !! 0 = None -> working ps ->
  exists w', RebuildWindowFromSnapshot ps counter (SnapshotWindow metaOf index sw) width height paneMap
      = Some (mkSWindow (wID sw) (wName sw) w') /\
    UltraInv w' u /\ Root w' = Root (wWin sw) /\ LeadPaneID w' = LeadPaneID (wWin sw) /\
    ZoomedPaneID w' = ZoomedPaneID (wWin sw) /\ Width w' = Width (wWin sw) /\ Height w' = Height (wWin sw) /\
    (treePanes (Root (wWin sw)) <> [] -> ActivePane w' = ActivePane (wWin sw)).
Proof.
  intros Hi Ht HW HH Hc H0 Hw. set (w := wWin sw) in *. pose proof Hi as [Hs Hp HR (a & Ea & Hain & _)].
  pose proof (si_grid _ _ Hs) as Hg.
  destruct (gridRoot_wf u (visibleLead w) (Width w) (Height w) Hg HW HH) as (Hwf & _ & Hr). rewrite <- HR in Hwf, Hr.
  assert (0 < Width w /\ 0 < Height w) as [HW0 HH0].
  { destruct Hg as ((? & _) & (? & _) & _). unfold PaneMinSize in *. lia. }
  assert (covers (paneMap !!.) (ultraPanes u w)) as Hc' by done.
  assert (treePanes (mapLeaves (restoredLeaf (paneMap !!.)) (Root w)) = treePanes (Root w)) as Et.
  { rewrite !treePanes_cellPanes, cellPanes_restored; [done| |by left].
    unfold covers in *. rewrite Forall_forall in *. intros i Hin. by apply Hc', (tree_in_panes w u Hi). }
  unfold RebuildWindowFromSnapshot, rebuildCellWithPanes.
  cbn [wsRoot SnapshotWindow snapshotCore wsActivePaneID wsID wsName wsUltra wsZoomedPaneID wsLeadPaneID]. fold w.
  rewrite rebuild_snapshotCell. cbn [mbind option_bind]. unfold cW, cH. rewrite cellRect_mapLeaves, Hr. cbn [rW rH].
  rewrite !(proj2 (Z.leb_gt _ _)) by done. cbn [orb]. unfold activeID. rewrite Ea. change (default 0 (Some a)) with a.
  rewrite Forall_forall in Hc. rewrite (Hc a Hain).
  eexists. split; [reflexivity|].
  destruct (restoreUltra_same paneMap w u (mkWindow (mapLeaves (restoredLeaf (paneMap !!.)) (Root w)) (Some a) (Width w)
    (Height w) (ZoomedPaneID w) (LeadPaneID w) None None ps counter)) as (H1 & _ & H2 & H3 & H4 & H5 & H6 & H7); try done.
  rewrite Ea in H7. by split_and!.
Qed.

(** The panes of a window that is read back with any map: those of the panes that
    have an entry, in the order of their cells; the cells of the others stay,
    empty, and the focus falls on the first pane that is left. *)
Theorem restored_panes metaOf index ps counter width height paneMap (sw : SWindow) :
  WindowInv (wWin sw) ->
  exists w', RebuildWindowFromSnapshot ps counter (SnapshotWindow metaOf index sw) width height paneMap
      = Some (mkSWindow (wID sw) (wName sw) w') /\
    treePanes (Root w') = omap (paneMap !!.) (treePanes (Root (wWin sw))) /\
    ActivePane w' = match paneMap !! activeID (wWin sw) with
                    | Some p => Some p
                    | None => head (omap (paneMap !!.) (treePanes (Root (wWin sw)))) end /\
    map (fun e => (e.1, e.2.1)) (Walk (Root w')) = map (fun e => (e.1, e.2.1)) (Walk (Root (wWin sw))) /\
    wf (Root w') /\ Width w' = Width (wWin sw) /\ Height w' = Height (wWin sw) /\
    ZoomedPaneID w' = ZoomedPaneID (wWin sw) /\ LeadPaneID w' = LeadPaneID (wWin sw).
Proof.
  intros [HU Ht (a & Ea & Hin) _ _]. destruct Ht as (Hwf & _ & Hr & HP & _).
  unfold RebuildWindowFromSnapshot, rebuildCellWithPanes.
  cbn [wsRoot SnapshotWindow snapshotCore wsActivePaneID wsID wsName wsUltra wsZoomedPaneID wsLeadPaneID].
  rewrite rebuild_snapshotCell. cbn [mbind option_bind]. unfold cW, cH, snapshotUltra. rewrite cellRect_mapLeaves, HU, Hr.
  cbn [rW rH fmap option_fmap option_map restoreUltra].
  destruct (wf_root_pos (Root (wWin sw)) Hwf) as [HW HH]. unfold cW, cH in HW, HH. rewrite Hr in HW, HH. cbn in HW, HH.
  rewrite !(proj2 (Z.leb_gt _ _)) by done. cbn [orb].
  assert (treePanes (mapLeaves (restoredLeaf (paneMap !!.)) (Root (wWin sw))) = omap (paneMap !!.) (treePanes (Root (wWin sw)))) as Et.
  { rewrite treePanes_cellPanes. unfold cellPanes at 1. rewrite leaves_mapLeaves, map_map.
    assert (map (fun d => Pane (restoredLeaf (paneMap !!.) d)) (leaves (Root (wWin sw)))
      = map (fun o => paneMap !! default 0 o) (cellPanes (Root (wWin sw)))) as -> by (unfold cellPanes; by rewrite map_map).
    rewrite HP, map_map.
    generalize (treePanes (Root (wWin sw))). clear.
    induction l as [|i l IH]; [done|]. cbn [map]. rewrite omap_id_cons, IH. cbn.
    by destruct (paneMap !! i). }
  eexists. split; [reflexivity|]. cbn [Root ActivePane Width Height ZoomedPaneID LeadPaneID]. rewrite Et. split_and!; try done.
  - destruct (paneMap !! _); [done|]. unfold firstPaneInSubtree. by rewrite panesOf_treePanes, Et.
  - rewrite Walk_mapLeaves, map_map. done.
  - by apply wf_mapLeaves.
Qed.

(** A rebuild keeps the slot table and the lead, whatever the table holds. *)
Lemma rebuild_table w u :
  Ultra w = Some u ->
  Ultra (rebuildUltraTree w) = Some (clampPage u) /\ LeadPaneID (rebuildUltraTree w) = LeadPaneID w /\
  ultraLead (rebuildUltraTree w) = ultraLead w.
Proof.
  intros HU. unfold rebuildUltraTree. rewrite HU. set (w2 := setRoot _ _).
  assert (forall w', ptyOnly (ultraRefocus (clampPage u) w2) w' ->
    Ultra w' = Some (clampPage u) /\ LeadPaneID w' = LeadPaneID w /\ ultraLead w' = ultraLead w) as H.
  { intros w' [-> _]. cbn. unfold ultraRefocus, setActive. repeat case_match; done. }
  apply H. etrans; [apply resizePTYsPreserving_pty|apply ultraSizeHidden_pty].
Qed.

(** Mirroring a window that is in the ultra layout duplicates its panes: when
    the panes of the visible page are mapped to local panes whose IDs are none of
    the remote ones, every agent pane shown on the page has its local pane in two
    slots of the rebuilt window, because the table of panes already placed is kept
    by remote ID and looked up by local ID. *)
Theorem mirrored_ultra_duplicates metaOf index ps counter width height paneMap (sw sw' : SWindow) u id local :
  UltraInv (wWin sw) u -> id ∈ omap Datatypes.id (pageSlots u) -> paneMap !! id = Some local ->
  local ∉ (LeadPaneID (wWin sw) :: SlotIDs u) ->
  RebuildWindowFromSnapshot ps counter (SnapshotWindow metaOf index sw) width height paneMap = Some sw' ->
  exists u', Ultra (wWin sw') = Some u' /\ ~ NoDup (omap Datatypes.id (uSlots u')).
Proof.
  intros Hi Hid Hm [Hl Hs]%not_elem_of_cons. pose proof Hi as [Hsl Hp HR _]. pose proof Hsl as [HU Hg _ _ Hpos _ _].
  set (w := wWin sw) in *. unfold RebuildWindowFromSnapshot, rebuildCellWithPanes.
  cbn [wsRoot SnapshotWindow snapshotCore wsActivePaneID wsID wsName wsUltra wsZoomedPaneID wsLeadPaneID]. fold w.
  rewrite rebuild_snapshotCell. cbn [mbind option_bind]. destruct (if _ : bool then _ else _) as [winW winH].
  intros [= <-]. cbn [wWin]. unfold snapshotUltra. rewrite HU. cbn [fmap option_fmap option_map].
  unfold restoreUltra. cbn [usRows usCols usPage usSlots usAutoPromote].
  rewrite (proj2 (ValidateUltraGrid_ok (uRows u) (uCols u)) Hg). set (w1 := mkWindow _ _ _ _ _ _ _ _ _ _).
  set (seen := seenSlots paneMap (SlotIDs u)).
  set (p := if LeadPaneID (setUltraLead None w1) =? 0 then _ else _).
  assert (Ultra p.1 = None /\ Root p.1 = Root w1 /\ local ∉ p.2) as (Hp1 & Hp2 & Hp3).
  { assert (local ∉ seen) as Hns by (intros [? _]%elem_of_seenSlots; done).
    unfold p. repeat case_match; split_and!; cbn; try done. set_solver. }
  clearbody p. destruct p as [w2 seen2]. cbn [fst snd] in *. set (u1 := insertUnseen _ _ _).
  destruct (rebuild_table (setUltra (Some (trimEmptyPages u1)) w2) (trimEmptyPages u1) eq_refl) as (HU' & _).
  eexists. split; [exact HU'|]. rewrite clampPage_slots, trimEmptyPages_panes. unfold u1. rewrite insertUnseen_panes. cbn [uSlots].
  assert (0 < id /\ Some id ∈ uSlots u) as [Hid0 Hin].
  { apply pageSlots_sub in Hid. rewrite ultraPanes_eq, Forall_app, !Forall_forall in Hpos.
    split; [by apply (proj2 Hpos)|by apply elem_of_slots]. }
  assert (local ∈ omap Datatypes.id (map (restoredSlot paneMap) (SlotIDs u))) as H1.
  { apply elem_of_slots. unfold SlotIDs. rewrite map_map. apply list_elem_of_fmap. exists (Some id). split; [|done].
    unfold restoredSlot. simpl. by destruct (Z.eqb_spec id 0); [lia|]. }
  assert (local ∈ filter (fun i => i ∉ seen2) (Panes w2)) as H2.
  { apply list_elem_of_filter. split; [done|]. unfold Panes. rewrite Hp1, panesOf_treePanes, Hp2. cbn [Root w1].
    assert (id ∈ treePanes (Root w)) as Ht.
    { rewrite HR, gridRoot_panes by (done || apply Hp). apply elem_of_app. by right. }
    apply elem_of_treePanes in Ht as (d & Hd & Ed). apply elem_of_treePanes. rewrite leaves_mapLeaves.
    exists (restoredLeaf (paneMap !!.) d). split; [by apply list_elem_of_fmap_2|]. cbn. by rewrite Ed. }
  intros (_ & H & _)%NoDup_app. by apply (H local).
Qed.

(** ** Sessions *)

(** C11. A session survives a reload of its server: from any state with a window
    that a session reaches by the steps of [sstep] (windows in the classic layout,
    terminals that accept every resize, closes and window switches where the layouts
    have room, no mirrored or spliced window), the snapshot of its layout read by a
    new server without windows that has every listed pane again under its ID gives
    the same windows in the same order, with their IDs, names, sizes, trees, panes,
    focus, zoom and lead, each in order, and the same active and previous window;
    the new server's panes are not resized and none is added. *)
Theorem reload_restores_session metaOf order nameOf sessionName p cols rows eff s s0 paneMap :
  ptyFails p = false -> PaneMinSize <= cols -> PaneMinSize <= rows - GlobalBarHeight ->
  rtc sstep (firstWindow nameOf p cols rows (newSession eff)) s -> Windows s <> [] ->
  Windows s0 = [] -> (forall id, id ∈ PaneIDs s -> paneMap !! id = Some id) ->
  exists snap s', snapshotLayout metaOf sessionName s = Some snap /\
    restoreWindows order nameOf snap paneMap s0 = Some s' /\
    Forall2 (fun sw sw' =>
      wID sw' = wID sw /\ wName sw' = wName sw /\ WindowInv (wWin sw') /\
      treePanes (Root (wWin sw')) = treePanes (Root (wWin sw)) /\
      map (fun e => (e.1, e.2.1)) (Walk (Root (wWin sw'))) = map (fun e => (e.1, e.2.1)) (Walk (Root (wWin sw))) /\
      ActivePane (wWin sw') = ActivePane (wWin sw) /\ Width (wWin sw') = Width (wWin sw) /\
      Height (wWin sw') = Height (wWin sw) /\ ZoomedPaneID (wWin sw') = ZoomedPaneID (wWin sw) /\
      LeadPaneID (wWin sw') = LeadPaneID (wWin sw)) (Windows s) (Windows s') /\
    ActiveWindowID s' = ActiveWindowID s /\ PreviousWindowID s' = PreviousWindowID s /\
    store s' = store s0 /\ PaneIDs s' = PaneIDs s0.
Proof.
  intros Hf HW HH Hr Hne H0 Hc.
  destruct (firstWindow_ok nameOf p cols rows (newSession eff)) as [Hi _]; try done; [apply newSession_inv|].
  pose proof (sstep_reach _ _ Hi Hr) as Hs. pose proof Hs as [_ [_ _ Hwi _] _ _ Hlist].
  assert (covers (paneMap !!.) (SessionFacts.shown s)) as Hcov.
  { apply Forall_forall. intros i Hin. by apply Hc, Hlist. }
  destruct (snapshotLayout metaOf sessionName s) as [snap|] eqn:Es.
  2: { unfold snapshotLayout in Es. destruct (activeWindow s) eqn:Ea; [done|]. exfalso.
       unfold activeWindow in Ea. destruct (windowByID _ s); [done|]. by destruct (Windows s). }
  eexists _, _. split; [done|]. split; [by eapply restoreWindows_ok|].
  cbn [Windows ActiveWindowID PreviousWindowID store PaneIDs withPrevious withActive withWindows]. split_and!; try done.
  apply Forall2_fmap_r, Forall_Forall2_diag, Forall_forall. intros sw Hin. cbn [wID wName wWin].
  rewrite Forall_forall in Hwi. specialize (Hwi sw Hin).
  assert (covers (paneMap !!.) (treePanes (Root (wWin sw)))) as Hcs.
  { unfold covers in *. rewrite Forall_forall in *. intros i Hi'. apply Hcov. unfold SessionFacts.shown. rewrite elem_of_shownIn. by exists sw. }
  destruct (restoredWindow_inv paneMap ∅ 0 (wWin sw) Hwi Hcs) as [H1 H2].
  split_and!; try done. unfold restoredWindow. cbn [Root wWin]. by rewrite Walk_mapLeaves, map_map.
Qed.

(** ** Concrete inputs *)

(** Conversion compares the sample windows by name before unfolding them. *)
Strategy 100 [ultraSample ultraSource startSession].

Definition noMeta (_ : Z) : PaneMeta := mkPaneMeta "" "" "" ∅ "" false "" "" "" [] [].
Definition selfMap (ids : list Z) : gmap Z Z := list_to_map (map (fun i => (i, i)) ids).
Definition localMap (ids : list Z) : gmap Z Z := list_to_map (map (fun i => (i, i + 100)) ids).

Lemma ultra_snapshot_roundtrip_witness :
  exists w', RebuildWindowFromSnapshot ∅ 0 (SnapshotWindow noMeta 1 (mkSWindow 4 "w" ultraSample)) 10 10
      (selfMap (ultraPanes ultraTable ultraSample))
      = Some (mkSWindow 4 "w" w') /\ Root w' = Root ultraSample /\ UltraInv w' ultraTable.
Proof.
  destruct (ultra_snapshot_roundtrip noMeta 1 ∅ 0 10 10 (selfMap (ultraPanes ultraTable ultraSample))
    (mkSWindow 4 "w" ultraSample) ultraTable ultraSample_inv) as (w' & E & Hi & HR & _).
  - by vm_compute.
  - by vm_compute.
  - by vm_compute.
  - apply (bool_decide_unpack _). by vm_compute.
  - by vm_compute.
  - apply map_Forall_empty.
  - cbn [wWin] in HR, Hi. exists w'. split; [exact E|]. split; [exact HR|exact Hi].
Defined.

Lemma restored_panes_witness :
  exists w', RebuildWindowFromSnapshot ∅ 0 (SnapshotWindow noMeta 1 (mkSWindow 4 "w" ultraSource)) 10 10 {[2 := 12]}
      = Some (mkSWindow 4 "w" w') /\ treePanes (Root w') = [12] /\ ActivePane w' = Some 12.
Proof.
  destruct (restored_panes noMeta 1 ∅ 0 10 10 {[2 := 12]} (mkSWindow 4 "w" ultraSource) ultraSource_inv)
    as (w' & E & Ht & Ha & _).
  exists w'. split; [exact E|]. split; [rewrite Ht; by vm_compute|rewrite Ha; by vm_compute].
Defined.

Lemma mirrored_ultra_duplicates_witness :
  exists sw' u', RebuildWindowFromSnapshot ∅ 0 (SnapshotWindow noMeta 1 (mkSWindow 4 "w" ultraSample)) 10 10
      (localMap (ultraPanes ultraTable ultraSample)) = Some sw' /\
    Ultra (wWin sw') = Some u' /\ ~ NoDup (omap Datatypes.id (uSlots u')).
Proof.
  destruct (RebuildWindowFromSnapshot ∅ 0 (SnapshotWindow noMeta 1 (mkSWindow 4 "w" ultraSample)) 10 10
      (localMap (ultraPanes ultraTable ultraSample))) as [sw'|] eqn:E; [|by vm_compute in E].
  destruct (mirrored_ultra_duplicates noMeta 1 ∅ 0 10 10 (localMap (ultraPanes ultraTable ultraSample)) (mkSWindow 4 "w" ultraSample) sw' ultraTable 5 105
    ultraSample_inv) as (u' & H1 & H2).
  - apply (bool_decide_unpack _). by vm_compute.
  - by vm_compute.
  - apply (bool_decide_unpack _). by vm_compute.
  - exact E.
  - exists sw', u'. split; [done|]. split; [exact H1|exact H2].
Defined.

Lemma reload_restores_session_witness :
  exists snap s', snapshotLayout noMeta "main" startSession = Some snap /\
    restoreWindows (fun m => map_to_list m) sampleName snap {[1 := 1]} (newSession None) = Some s' /\
    map wID (Windows s') = map wID (Windows startSession).
Proof.
  destruct (reload_restores_session noMeta (fun m => map_to_list m) sampleName "main" samplePane 80 25 None startSession
    (newSession None) {[1 := 1]}) as (snap & s' & E1 & E2 & HF & _);
    [done|by vm_compute|by vm_compute|apply rtc_refl|by vm_compute|done| |].
  - intros i Hi. assert (PaneIDs startSession = [1]) as EP by by vm_compute.
    rewrite EP in Hi. by apply list_elem_of_singleton in Hi as ->.
  - exists snap, s'. split; [exact E1|]. split; [exact E2|].
    induction HF as [|sw sw' l l' H _ IH]; [done|]. simpl. f_equal; [apply H|exact IH].
Defined.
