(* ===== verification/GoRunes.v ===== *)
(** * Runes, signed machine integers and loops

    utf8.AppendRune and the conversions [[]rune(s)] and [string(rs)],
    unicode.IsSpace, the unicode tables as a class, int64 arithmetic, and the
    partiality monad in which Go's loops and slice expressions are written:
    [None] is a run-time panic or a loop out of fuel. *)

From S2P Require Import Prelude GoText GoCodec GoWire.

(** ** The integers of a 64-bit platform *)

Definition wrapInt (n : Z) : Z := (n + 2 ^ 63) mod 2 ^ 64 - 2 ^ 63.
Definition clamp (v lo hi : Z) : Z := Z.max lo (Z.min v hi).

Lemma wrapInt_small n : - 2 ^ 63 <= n < 2 ^ 63 -> wrapInt n = n.
Proof. intros. unfold wrapInt. rewrite Z.mod_small; lia. Qed.
Lemma wrapInt_range n : - 2 ^ 63 <= wrapInt n < 2 ^ 63.
Proof. unfold wrapInt. pose proof (Z.mod_pos_bound (n + 2 ^ 63) (2 ^ 64) ltac:(lia)). lia. Qed.

(** ** Slices: an index or a bound out of range panics *)

Definition index {A} (l : list A) (i : Z) : option A :=
  if i <? 0 then None else l !! Z.to_nat i.
Definition slice {A} (l : list A) (i j : Z) : option (list A) :=
  if (0 <=? i) && (i <=? j) && (j <=? lenZ l)
  then Some (take (Z.to_nat (j - i)) (drop (Z.to_nat i) l)) else None.

Lemma index_lt {A} (l : list A) i : 0 <= i < lenZ l -> exists x, index l i = Some x.
Proof.
  intros [H0 H1]. unfold index. destruct (Z.ltb_spec i 0); [lia|].
  apply lookup_lt_is_Some. unfold lenZ in H1. lia.
Qed.
Lemma index_Some {A} (l : list A) i x : index l i = Some x <-> 0 <= i < lenZ l /\ l !! Z.to_nat i = Some x.
Proof.
  unfold index. destruct (Z.ltb_spec i 0); [split; [done|lia]|]. split; [|tauto].
  intros H1. split; [|done]. apply lookup_lt_Some in H1. unfold lenZ. lia.
Qed.
Lemma index_None {A} (l : list A) i : index l i = None <-> i < 0 \/ lenZ l <= i.
Proof.
  unfold index. destruct (Z.ltb_spec i 0); [split; [lia|done]|].
  rewrite lookup_ge_None. unfold lenZ. lia.
Qed.
Lemma slice_ok {A} (l : list A) i j :
  0 <= i <= j -> j <= lenZ l -> slice l i j = Some (take (Z.to_nat (j - i)) (drop (Z.to_nat i) l)).
Proof.
  intros. unfold slice. destruct (Z.leb_spec 0 i), (Z.leb_spec i j), (Z.leb_spec j (lenZ l)); try lia. done.
Qed.

(** ** Loops: [step] continues with [inl] and leaves with [inr] *)

Fixpoint loop {A B} (fuel : nat) (step : A -> option (A + B)) (a : A) : option B :=
  match fuel with
  | O => None
  | S fuel => r ← step a; match r with inl a' => loop fuel step a' | inr b => Some b end
  end.

(** The rule of a loop with an invariant and a measure: it ends, with the
    postcondition, within any fuel above the measure. *)
Lemma loop_total {A B} (Inv : A -> Prop) (measure : A -> Z) (Post : B -> Prop) (step : A -> option (A + B)) :
  (forall a, Inv a -> exists r, step a = Some r /\
     match r with inl a' => Inv a' /\ 0 <= measure a' < measure a | inr b => Post b end) ->
  forall fuel a, Inv a -> 0 <= measure a < Z.of_nat fuel -> exists b, loop fuel step a = Some b /\ Post b.
Proof.
  intros Hstep fuel. induction fuel as [|fuel IH]; intros a Ha Hm; [lia|].
  destruct (Hstep a Ha) as (r & Hr & Hpost). cbn [loop]. rewrite Hr. cbn [mbind option_bind].
  destruct r as [a'|b]; [|by exists b]. apply IH; [tauto|lia].
Qed.

(** The result does not depend on the fuel, once there is enough. *)
Lemma loop_more {A B} (step : A -> option (A + B)) fuel fuel' a b :
  (fuel <= fuel')%nat -> loop fuel step a = Some b -> loop fuel' step a = Some b.
Proof.
  revert fuel' a. induction fuel as [|fuel IH]; intros [|fuel'] a Hle H; try done; [lia|].
  cbn [loop] in *. destruct (step a) as [[a'|b']|]; cbn [mbind option_bind] in *; try done.
  apply IH; [lia|done].
Qed.

(** ** Runes *)

Definition isRune (r : Z) : bool := (between 0 r 0x10FFFF) && negb (between 0xD800 r 0xDFFF).

(** utf8.AppendRune; what is no code point is written as U+FFFD. *)
Definition EncodeRune (r : Z) : bytes :=
  let r := if isRune r then r else RuneError in
  let cont k := Z.lor 0x80 (Z.land (Z.shiftr r k) 0x3F) in
  if r <=? 0x7F then [r]
  else if r <=? 0x7FF then [Z.lor 0xC0 (Z.shiftr r 6); cont 0]
  else if r <=? 0xFFFF then [Z.lor 0xE0 (Z.shiftr r 12); cont 6; cont 0]
  else [Z.lor 0xF0 (Z.shiftr r 18); cont 12; cont 6; cont 0].

(** [[]rune(s)] and [string(rs)]. *)
Definition toRunes (s : bytes) : list Z := map fst (runes s).
Definition fromRunes (rs : list Z) : bytes := rs ≫= EncodeRune.

Example runes_ex : toRunes (bytesOf "h" ++ [0xC3; 0xA9; 0xE2; 0x82; 0xAC; 0xFF; 0xF0; 0x9F; 0x98; 0x80])
  = [104; 0xE9; 0x20AC; RuneError; 0x1F600].
Proof. reflexivity. Qed.
Example fromRunes_ex : fromRunes [104; 0xE9; 0x20AC; RuneError; 0x1F600]
  = bytesOf "h" ++ [0xC3; 0xA9; 0xE2; 0x82; 0xAC; 0xEF; 0xBF; 0xBD; 0xF0; 0x9F; 0x98; 0x80].
Proof. reflexivity. Qed.

(** unicode.IsSpace: the Latin-1 spaces and the property White_Space. *)
Definition IsSpace (r : Z) : bool :=
  between 9 r 13 || (r =? 32) || (r =? 0x85) || (r =? 0xA0) || (r =? 0x1680) || between 0x2000 r 0x200A ||
  (r =? 0x2028) || (r =? 0x2029) || (r =? 0x202F) || (r =? 0x205F) || (r =? 0x3000).

(** The tables of the unicode package. *)
Class Unicode := {
  IsLetter : Z -> bool;
  IsNumber : Z -> bool;
  ToLower : Z -> Z;
}.
(** What the tables say of ASCII, and that a letter has a lower case among
    the code points. *)
Class UnicodeLaws (U : Unicode) : Prop := {
  IsLetter_ascii r : 0 <= r < 128 -> IsLetter r = between 65 r 90 || between 97 r 122;
  IsNumber_ascii r : 0 <= r < 128 -> IsNumber r = between 48 r 57;
  ToLower_ascii r : 0 <= r < 128 -> ToLower r = if between 65 r 90 then r + 32 else r;
  ToLower_rune r : isRune r = true -> isRune (ToLower r) = true;
}.
Definition asciiUnicode : Unicode := {|
  IsLetter r := between 65 r 90 || between 97 r 122;
  IsNumber r := between 48 r 57;
  ToLower r := if between 65 r 90 then r + 32 else r;
|}.
#[export] Instance asciiUnicode_laws : UnicodeLaws asciiUnicode.
Proof.
  split; try done. intros r H. cbn. unfold isRune, between in *.
  repeat match goal with |- context [(?a <=? ?b)] => destruct (Z.leb_spec a b) end; simpl; try done; zb; lia.
Qed.

(** [[]rune(strings.ToLower(s))]: strings.ToLower maps the runes one by one. *)
Definition lowerRunes `{Unicode} (s : bytes) : list Z := map ToLower (toRunes s).

(** ** Round trip of the encoding *)

Lemma isRune_spec r : isRune r = true <-> 0 <= r <= 0x10FFFF /\ ~ (0xD800 <= r <= 0xDFFF).
Proof. unfold isRune, between. rewrite !andb_true_iff, negb_true_iff, andb_false_iff, !Z.leb_le, !Z.leb_gt. lia. Qed.

Lemma land_low x k n : 0 <= k -> n = Z.ones k -> Z.land x n = x mod 2 ^ k.
Proof. intros H ->. by apply Z.land_ones. Qed.
Lemma lor_high b h k : 0 <= k -> 0 <= b < 2 ^ k -> 0 <= h -> Z.lor (Z.shiftl h k) b = b + h * 2 ^ k.
Proof. intros. rewrite Z.lor_comm. by apply lor_shiftl. Qed.

(** The bytes of an encoding in terms of quotients and remainders. *)
Lemma cont_eq r k : 0 <= k -> Z.lor 0x80 (Z.land (Z.shiftr r k) 0x3F) = r / 2 ^ k mod 64 + 128.
Proof.
  intros. rewrite (land_low _ 6) by done. rewrite Z.shiftr_div_pow2 by done.
  change 0x80 with (Z.shiftl 2 6). rewrite lor_high; [done|lia| |lia]. by apply Z.mod_pos_bound.
Qed.
Lemma head_eq r h k w c : 0 <= r -> 0 <= k -> 0 <= w -> 0 <= h -> c = Z.shiftl h w -> r < 2 ^ (k + w) ->
  Z.lor c (Z.shiftr r k) = r / 2 ^ k + h * 2 ^ w.
Proof.
  intros Hr Hk Hw Hh -> Hb. rewrite Z.shiftr_div_pow2 by done. apply lor_high; [done| |done].
  split; [apply Z.div_pos; lia|]. apply Z.div_lt_upper_bound; [lia|]. by rewrite <- Z.pow_add_r by lia.
Qed.

(** The value of a decoded sequence. *)
Lemma value2 a b : 0 <= a -> 0 <= b < 64 -> Z.lor (Z.shiftl a 6) b = a * 64 + b.
Proof. intros. rewrite lor_high by lia. lia. Qed.
Lemma value3 a b c : 0 <= a -> 0 <= b < 64 -> 0 <= c < 64 ->
  Z.lor (Z.shiftl a 12) (Z.lor (Z.shiftl b 6) c) = a * 4096 + b * 64 + c.
Proof. intros. rewrite value2, lor_high by lia. lia. Qed.
Lemma value4 a b c d : 0 <= a -> 0 <= b < 64 -> 0 <= c < 64 -> 0 <= d < 64 ->
  Z.lor (Z.shiftl a 18) (Z.lor (Z.shiftl b 12) (Z.lor (Z.shiftl c 6) d)) = a * 262144 + b * 4096 + c * 64 + d.
Proof. intros. rewrite value3, lor_high by lia. lia. Qed.

(** The payload of a continuation byte and of a leading byte. *)
Lemma cont_payload x : 0 <= x < 64 -> Z.land (x + 128) 0x3F = x.
Proof. intros. rewrite (land_low _ 6) by done. replace (x + 128) with (x + 2 * 2 ^ 6) by lia. rewrite Z_mod_plus_full. by apply Z.mod_small. Qed.
Lemma head_payload x h w n : 0 <= w -> n = Z.ones w -> 0 <= x < 2 ^ w -> Z.land (x + h * 2 ^ w) n = x.
Proof. intros Hw -> Hx. rewrite Z.land_ones by done. rewrite Z_mod_plus_full. by apply Z.mod_small. Qed.

Lemma between_true lo c hi : lo <= c <= hi -> between lo c hi = true.
Proof. intros. unfold between. rewrite andb_true_iff, !Z.leb_le. lia. Qed.
Lemma between_false lo c hi : c < lo \/ hi < c -> between lo c hi = false.
Proof. intros. unfold between. rewrite andb_false_iff, !Z.leb_gt. lia. Qed.

(** The base-64 digits of a rune. *)
Lemma digits64 r : 0 <= r ->
  0 <= r mod 64 < 64 /\ 0 <= r / 64 mod 64 < 64 /\ 0 <= r / 4096 mod 64 < 64 /\
  r = r / 64 * 64 + r mod 64 /\ r / 64 = r / 4096 * 64 + r / 64 mod 64 /\
  r / 4096 = r / 262144 * 64 + r / 4096 mod 64 /\ 0 <= r / 262144.
Proof.
  intros. change 4096 with (64 * 64). change 262144 with (64 * 64 * 64). rewrite <- !Z.div_div by lia.
  pose proof (Z.div_mod r 64 ltac:(lia)). pose proof (Z.div_mod (r / 64) 64 ltac:(lia)).
  pose proof (Z.div_mod (r / 64 / 64) 64 ltac:(lia)).
  pose proof (Z.mod_pos_bound r 64 ltac:(lia)). pose proof (Z.mod_pos_bound (r / 64) 64 ltac:(lia)).
  pose proof (Z.mod_pos_bound (r / 64 / 64) 64 ltac:(lia)).
  assert (0 <= r / 64 / 64 / 64) by (repeat apply Z.div_pos; lia). repeat split; lia.
Qed.

Ltac byteTests :=
  repeat first
    [ rewrite between_true by lia
    | rewrite between_false by lia
    | match goal with |- context [?a <? ?b] => destruct (Z.ltb_spec a b); [try lia|try lia] end ].

Ltac arith := first [reflexivity | lia | change (2 ^ 6) with 64; lia | cbn; lia].

Lemma DecodeRune_Encode r l : isRune r = true -> DecodeRune (EncodeRune r ++ l) = (r, length (EncodeRune r)).
Proof.
  intros Hr. pose proof Hr as Hs. apply isRune_spec in Hs. unfold EncodeRune. rewrite Hr.
  destruct (digits64 r ltac:(lia)) as (H0 & H1 & H2 & E0 & E1 & E2 & H3).
  destruct (Z.leb_spec r 0x7F) as [L0|L0]; [cbn; destruct (Z.ltb_spec r 128); [done|lia]|].
  destruct (Z.leb_spec r 0x7FF) as [L1|L1]; [|destruct (Z.leb_spec r 0xFFFF) as [L2|L2]].
  - rewrite (head_eq r 6 6 5 0xC0), (cont_eq r 0) by arith. change (2 ^ 0) with 1. change (2 ^ 6) with 64. rewrite Z.div_1_r.
    cbn [app DecodeRune length]. byteTests.
    rewrite cont_payload, (head_payload _ 6 5), value2 by arith. f_equal. lia.
  - rewrite (head_eq r 14 12 4 0xE0), (cont_eq r 0), (cont_eq r 6) by arith.
    change (2 ^ 0) with 1. change (2 ^ 6) with 64. change (2 ^ 12) with 4096. rewrite Z.div_1_r.
    cbn [app DecodeRune length]. byteTests.
    rewrite !cont_payload, (head_payload _ 14 4), value3 by arith.
    destruct (Z.eqb_spec (r / 4096 + 14 * 2 ^ 4) 0xE0), (Z.eqb_spec (r / 4096 + 14 * 2 ^ 4) 0xED); byteTests; cbn [andb]; f_equal; lia.
  - rewrite (head_eq r 30 18 3 0xF0), (cont_eq r 0), (cont_eq r 6), (cont_eq r 12) by arith.
    change (2 ^ 0) with 1. change (2 ^ 6) with 64. change (2 ^ 12) with 4096. change (2 ^ 18) with 262144. rewrite Z.div_1_r.
    cbn [app DecodeRune length]. byteTests.
    rewrite !cont_payload, (head_payload _ 30 3), value4 by arith.
    destruct (Z.eqb_spec (r / 262144 + 30 * 2 ^ 3) 0xF0), (Z.eqb_spec (r / 262144 + 30 * 2 ^ 3) 0xF4); byteTests; cbn [andb]; f_equal; lia.
Qed.

Lemma EncodeRune_pos r : (0 < length (EncodeRune r))%nat.
Proof. unfold EncodeRune. repeat case_match; simpl; lia. Qed.

(** [[]rune(string(rs))] is [rs], where every element is a code point. *)
Lemma toRunes_fromRunes rs : Forall (fun r => isRune r = true) rs -> toRunes (fromRunes rs) = rs.
Proof.
  unfold toRunes, runes. intros H.
  enough (forall fuel, (length (fromRunes rs) <= fuel)%nat -> map fst (runesFrom fuel (fromRunes rs)) = rs) by eauto.
  induction H as [|r rs Hr Hrs IH]; intros fuel Hf; [by destruct fuel|].
  assert (E0 : fromRunes (r :: rs) = EncodeRune r ++ fromRunes rs) by reflexivity. rewrite E0 in *. rewrite length_app in Hf. pose proof (EncodeRune_pos r).
  destruct fuel as [|fuel]; [lia|]. cbn [runesFrom].
  destruct (EncodeRune r ++ fromRunes rs) as [|b l] eqn:E; [apply (f_equal length) in E; rewrite length_app in E; simpl in E; lia|]. rewrite <- E.
  rewrite DecodeRune_Encode by done. cbn [map fst snd]. rewrite drop_app_length. f_equal. apply IH. lia.
Qed.

(** Every decoded rune is a code point: a byte [lo <= b <= hi] has the payload
    [b - 128] of a continuation byte or [b - h] of a leading one. *)
Lemma payload b h w n : 0 <= w -> n = Z.ones w -> h * 2 ^ w <= b < (h + 1) * 2 ^ w -> Z.land b n = b - h * 2 ^ w.
Proof. intros Hw Hn Hb. replace b with ((b - h * 2 ^ w) + h * 2 ^ w) at 1 by lia. apply head_payload; [done|done|lia]. Qed.
Lemma payload_cont b : between 0x80 b 0xBF = true -> Z.land b 0x3F = b - 128 /\ 0 <= b - 128 < 64.
Proof.
  unfold between. rewrite andb_true_iff, !Z.leb_le. intros. rewrite (payload _ 2 6) by arith. split; [reflexivity|lia].
Qed.

Lemma DecodeRune_isRune b l : 0 <= b -> isRune (fst (DecodeRune (b :: l))) = true.
Proof.
  intros Hb. unfold DecodeRune.
  destruct (Z.ltb_spec b 0x80) as [L|L]; [apply isRune_spec; cbn; lia|].
  destruct (between 0xC2 b 0xDF) eqn:E2; [|destruct (between 0xE0 b 0xEF) eqn:E3; [|destruct (between 0xF0 b 0xF4) eqn:E4; [|done]]].
  - destruct l as [|b1 l]; [done|]. destruct (between 0x80 b1 0xBF) eqn:C1; [|done]. cbn [fst].
    apply payload_cont in C1 as [-> R1]. unfold between in E2. rewrite andb_true_iff, !Z.leb_le in E2.
    rewrite (payload _ 6 5), value2 by arith. apply isRune_spec. lia.
  - destruct l as [|b1 [|b2 l]]; try done.
    destruct (between (if b =? 0xE0 then 0xA0 else 0x80) b1 (if b =? 0xED then 0x9F else 0xBF) && between 0x80 b2 0xBF) eqn:C; [|done].
    cbn [fst]. apply andb_true_iff in C as [C1 C2]. apply payload_cont in C2 as [-> R2].
    unfold between in E3, C1. rewrite andb_true_iff, !Z.leb_le in E3, C1.
    assert (C1' : between 0x80 b1 0xBF = true) by (apply between_true; destruct (b =? 0xE0), (b =? 0xED); lia).
    apply payload_cont in C1' as [-> R1]. rewrite (payload _ 14 4), value3 by arith. apply isRune_spec.
    destruct (Z.eqb_spec b 0xE0), (Z.eqb_spec b 0xED); lia.
  - destruct l as [|b1 [|b2 [|b3 l]]]; try done.
    destruct (between (if b =? 0xF0 then 0x90 else 0x80) b1 (if b =? 0xF4 then 0x8F else 0xBF) && between 0x80 b2 0xBF && between 0x80 b3 0xBF) eqn:C; [|done].
    cbn [fst]. apply andb_true_iff in C as [[C1 C2]%andb_true_iff C3]. apply payload_cont in C2 as [-> R2], C3 as [-> R3].
    unfold between in E4, C1. rewrite andb_true_iff, !Z.leb_le in E4, C1.
    assert (C1' : between 0x80 b1 0xBF = true) by (apply between_true; destruct (b =? 0xF0), (b =? 0xF4); lia).
    apply payload_cont in C1' as [-> R1]. rewrite (payload _ 30 3), value4 by arith. apply isRune_spec.
    destruct (Z.eqb_spec b 0xF0), (Z.eqb_spec b 0xF4); lia.
Qed.

Lemma toRunes_isRune s : Forall (fun b => 0 <= b) s -> Forall (fun r => isRune r = true) (toRunes s).
Proof.
  unfold toRunes, runes. generalize (length s) as fuel. intros fuel. revert s.
  induction fuel as [|fuel IH]; intros [|b s] H; try by constructor. cbn [runesFrom map]. constructor.
  - apply DecodeRune_isRune. by inversion H.
  - by apply IH, Forall_drop.
Qed.
