(* ===== verification/CopyMode.v ===== *)
(** * Copy mode: the state, the selection and the viewport

    internal/copymode/copymode.go without its key handling: the state machine
    of scrollback browsing over a frozen pane, its accessors, the scrolling by
    the wheel, the selections and the text they copy. A slice expression out
    of range is [None]. *)

From S2P Require Import Prelude GoText GoCodec GoWire GoRunes.

(** The text that copy mode asks of its emulator. *)
Record TerminalEmulator := mkEmulator {
  ScrollbackLen : Z;
  ScrollbackLineText : Z -> bytes;
  ScreenLineText : Z -> bytes;
}.
(** What the interface promises. *)
Definition emulatorOK (e : TerminalEmulator) : Prop := 0 <= ScrollbackLen e.

(** The frozen pane of the client that implements it. *)
Record paneBufferSnapshot := mkBuffer {
  bufWidth : Z; bufHeight : Z; bufCursorRow : Z; bufScrollback : list bytes; bufScreen : list bytes }.
Definition lineAt (lines : list bytes) (y : Z) : bytes :=
  if (y <? 0) || (lenZ lines <=? y) then [] else default [] (lines !! Z.to_nat y).
Definition bufferEmulator (p : paneBufferSnapshot) : TerminalEmulator := {|
  ScrollbackLen := lenZ (bufScrollback p);
  ScrollbackLineText := lineAt (bufScrollback p);
  ScreenLineText := lineAt (bufScreen p);
|}.

Record Match := mkMatch { LineIdx : Z; Col : Z; Len : Z }.
#[export] Instance Match_eq_dec : EqDecision Match.
Proof. solve_decision. Defined.

Inductive Action := ActionNone | ActionRedraw | ActionExit | ActionYank.
#[export] Instance Action_eq_dec : EqDecision Action.
Proof. solve_decision. Defined.
Inductive promptMode := promptNone | promptSearchForward | promptSearchBackward | promptGotoLine.
#[export] Instance promptMode_eq_dec : EqDecision promptMode.
Proof. solve_decision. Defined.

(** The state, in the groups of the struct's comments. *)
Record cursorState := mkCursor { cx : Z; cy : Z; oy : Z }.
Record promptState := mkPrompt { prompt : promptMode; promptBuf : bytes; promptCursor : Z }.
Record searchState := mkSearch {
  searchQuery : bytes; lastSearchForward : bool; matches : list Match; matchIdx : Z }.
Record selectionState := mkSelection {
  selecting : bool; lineSelect : bool; rectSelect : bool;
  selStartX : Z; selStartY : Z; selEndX : Z; selEndY : Z }.
Record charState := mkChars {
  pendingCharSearch : Z; pendingCharSearchCount : Z; lastCharSearch : Z; lastCharTarget : Z }.
Record copyState := mkCopied { copyText : bytes; appendCopy : bool }.
Record markState := mkMark { markSet : bool; markX : Z; markY : Z }.
Record CopyMode := mkCopyMode {
  emu : TerminalEmulator; width : Z; height : Z;
  cursor : cursorState;
  promptS : promptState;
  search : searchState;
  sel : selectionState;
  chars : charState;
  pendingCount : Z;
  copied : copyState;
  mark : markState;
  showPosition : bool;
  scrollExit : bool;
}.

(** The assignments to the fields. *)
Definition withSize (w h : Z) (cm : CopyMode) : CopyMode :=
  mkCopyMode (emu cm) w h (cursor cm) (promptS cm) (search cm) (sel cm) (chars cm) (pendingCount cm) (copied cm) (mark cm) (showPosition cm) (scrollExit cm).
Definition withCursor (c : cursorState) (cm : CopyMode) : CopyMode :=
  mkCopyMode (emu cm) (width cm) (height cm) c (promptS cm) (search cm) (sel cm) (chars cm) (pendingCount cm) (copied cm) (mark cm) (showPosition cm) (scrollExit cm).
Definition withPrompt (p : promptState) (cm : CopyMode) : CopyMode :=
  mkCopyMode (emu cm) (width cm) (height cm) (cursor cm) p (search cm) (sel cm) (chars cm) (pendingCount cm) (copied cm) (mark cm) (showPosition cm) (scrollExit cm).
Definition withSearch (s : searchState) (cm : CopyMode) : CopyMode :=
  mkCopyMode (emu cm) (width cm) (height cm) (cursor cm) (promptS cm) s (sel cm) (chars cm) (pendingCount cm) (copied cm) (mark cm) (showPosition cm) (scrollExit cm).
Definition withSel (s : selectionState) (cm : CopyMode) : CopyMode :=
  mkCopyMode (emu cm) (width cm) (height cm) (cursor cm) (promptS cm) (search cm) s (chars cm) (pendingCount cm) (copied cm) (mark cm) (showPosition cm) (scrollExit cm).
Definition withChars (c : charState) (cm : CopyMode) : CopyMode :=
  mkCopyMode (emu cm) (width cm) (height cm) (cursor cm) (promptS cm) (search cm) (sel cm) c (pendingCount cm) (copied cm) (mark cm) (showPosition cm) (scrollExit cm).
Definition withCount (n : Z) (cm : CopyMode) : CopyMode :=
  mkCopyMode (emu cm) (width cm) (height cm) (cursor cm) (promptS cm) (search cm) (sel cm) (chars cm) n (copied cm) (mark cm) (showPosition cm) (scrollExit cm).
Definition withCopied (c : copyState) (cm : CopyMode) : CopyMode :=
  mkCopyMode (emu cm) (width cm) (height cm) (cursor cm) (promptS cm) (search cm) (sel cm) (chars cm) (pendingCount cm) c (mark cm) (showPosition cm) (scrollExit cm).
Definition withMark (m : markState) (cm : CopyMode) : CopyMode :=
  mkCopyMode (emu cm) (width cm) (height cm) (cursor cm) (promptS cm) (search cm) (sel cm) (chars cm) (pendingCount cm) (copied cm) m (showPosition cm) (scrollExit cm).
Definition withShowPosition (b : bool) (cm : CopyMode) : CopyMode :=
  mkCopyMode (emu cm) (width cm) (height cm) (cursor cm) (promptS cm) (search cm) (sel cm) (chars cm) (pendingCount cm) (copied cm) (mark cm) b (scrollExit cm).
Definition SetScrollExit (b : bool) (cm : CopyMode) : CopyMode :=
  mkCopyMode (emu cm) (width cm) (height cm) (cursor cm) (promptS cm) (search cm) (sel cm) (chars cm) (pendingCount cm) (copied cm) (mark cm) (showPosition cm) b.
Definition setCx (x : Z) (cm : CopyMode) : CopyMode := withCursor (mkCursor x (cy (cursor cm)) (oy (cursor cm))) cm.
Definition setCy (y : Z) (cm : CopyMode) : CopyMode := withCursor (mkCursor (cx (cursor cm)) y (oy (cursor cm))) cm.
Definition setOy (o : Z) (cm : CopyMode) : CopyMode := withCursor (mkCursor (cx (cursor cm)) (cy (cursor cm)) o) cm.

(** New, with the fields at Go's zero values. *)
Definition New (emu : TerminalEmulator) (width height cursorRow : Z) : CopyMode :=
  mkCopyMode emu width height
    (mkCursor 0 (clamp cursorRow 0 (Z.max 0 (height - 1))) 0)
    (mkPrompt promptNone [] 0)
    (mkSearch [] true [] (-1))
    (mkSelection false false false 0 0 0 0)
    (mkChars 0 0 0 0) 0 (mkCopied [] false) (mkMark false 0 0) false false.

(** ** Lines *)

Definition TotalLines (cm : CopyMode) : Z := ScrollbackLen (emu cm) + height cm.
Definition maxOY (cm : CopyMode) : Z := ScrollbackLen (emu cm).
Definition cursorAbsLine (cm : CopyMode) : Z := TotalLines cm - height cm - oy (cursor cm) + cy (cursor cm).
Definition lineText (cm : CopyMode) (absIdx : Z) : bytes :=
  let sbLen := ScrollbackLen (emu cm) in
  if absIdx <? sbLen then ScrollbackLineText (emu cm) absIdx else ScreenLineText (emu cm) (absIdx - sbLen).
Definition FirstVisibleLine (cm : CopyMode) : Z := Z.max 0 (TotalLines cm - height cm - oy (cursor cm)).
Definition lineRunes (cm : CopyMode) (absIdx : Z) : list Z := toRunes (lineText cm absIdx).
Definition cursorLineRunes (cm : CopyMode) : list Z := lineRunes cm (cursorAbsLine cm).
Definition IsSearching (cm : CopyMode) : bool :=
  match prompt (promptS cm) with promptSearchForward | promptSearchBackward => true | _ => false end.

(** ** Selection *)

Definition updateSelection (cm : CopyMode) : CopyMode :=
  let s := sel cm in
  if selecting s
  then withSel (mkSelection (selecting s) (lineSelect s) (rectSelect s) (selStartX s) (selStartY s)
                  (if lineSelect s then width cm - 1 else cx (cursor cm)) (cursorAbsLine cm)) cm
  else cm.

Definition StartSelection (cm : CopyMode) : CopyMode * Action :=
  let absY := cursorAbsLine cm in let x := cx (cursor cm) in
  (withSel (mkSelection true false false x absY x absY) cm, ActionRedraw).
Definition ClearSelection (cm : CopyMode) : CopyMode * Action :=
  let s := sel cm in
  if negb (selecting s) && negb (lineSelect s) && negb (rectSelect s) then (cm, ActionNone)
  else (withSel (mkSelection false false false (selStartX s) (selStartY s) (selEndX s) (selEndY s)) cm, ActionRedraw).
Definition SelectLine (cm : CopyMode) : CopyMode * Action :=
  let absY := cursorAbsLine cm in
  (withSel (mkSelection true true false 0 absY (width cm - 1) absY) cm, ActionRedraw).
Definition ToggleRectangleSelection (cm : CopyMode) : CopyMode * Action :=
  let absY := cursorAbsLine cm in let x := cx (cursor cm) in let s := sel cm in
  let s := if selecting s then s else mkSelection true (lineSelect s) (rectSelect s) x absY x absY in
  (updateSelection (withSel (mkSelection (selecting s) false (negb (rectSelect s))
     (selStartX s) (selStartY s) (selEndX s) (selEndY s)) cm), ActionRedraw).

Definition scrollToAbsolute (absY col : Z) (cm : CopyMode) : CopyMode :=
  let cm := setOy (clamp (TotalLines cm - height cm - absY + cy (cursor cm)) 0 (maxOY cm)) cm in
  let firstVisible := FirstVisibleLine cm in
  let cm := setCy (clamp (absY - firstVisible) 0 (height cm - 1)) cm in
  setCx (clamp col 0 (width cm - 1)) cm.

Definition OtherEnd (cm : CopyMode) : CopyMode * Action :=
  let s := sel cm in
  if negb (selecting s) then (cm, ActionNone)
  else
    let cm := withSel (mkSelection (selecting s) (lineSelect s) (rectSelect s)
                         (selEndX s) (selEndY s) (selStartX s) (selStartY s)) cm in
    (updateSelection (scrollToAbsolute (selStartY s) (selStartX s) cm), ActionRedraw).

(** ((startY, startX), (endY, endX)) *)
Definition normalizedSelection (cm : CopyMode) : (Z * Z) * (Z * Z) :=
  let s := sel cm in
  let '(startY, startX, endY, endX) := (selStartY s, selStartX s, selEndY s, selEndX s) in
  if rectSelect s then
    (if endY <? startY then endY else startY, if endX <? startX then endX else startX,
     (if endY <? startY then startY else endY, if endX <? startX then startX else endX))
  else
    let swap := (endY <? startY) || ((startY =? endY) && (endX <? startX)) in
    let '(startY, startX, endY, endX) :=
      if swap then (endY, endX, startY, startX) else (startY, startX, endY, endX) in
    if lineSelect s then (startY, 0, (endY, width cm - 1)) else (startY, startX, (endY, endX)).

(** ** The text copied *)

(** [string(line[i:j])] of runes. *)
Definition runeSlice (line : list Z) (i j : Z) : option bytes := fromRunes <$> slice line i j.

Definition currentMatchText (cm : CopyMode) : option bytes :=
  let s := search cm in
  if (matchIdx s <? 0) || (lenZ (matches s) <=? matchIdx s) then Some []
  else
    m ← index (matches s) (matchIdx s);
    let x := cx (cursor cm) in
    if negb (LineIdx m =? cursorAbsLine cm) || (x <? Col m) || (Col m + Len m <=? x) then Some []
    else
      let line := lineRunes cm (LineIdx m) in
      if lenZ line <=? Col m then Some []
      else runeSlice line (Col m) (Z.min (Col m + Len m) (lenZ line)).

Definition endOfLineText (cm : CopyMode) : option bytes :=
  let line := cursorLineRunes cm in
  if lenZ line <=? cx (cursor cm) then Some [] else runeSlice line (cx (cursor cm)) (lenZ line).

Definition newline : bytes := [10].

(** What each mode writes for line [y] of the selection. *)
Definition rectRow (cm : CopyMode) (startX endX endY y : Z) : option bytes :=
  let line := lineRunes cm y in
  t ← (if startX <? lenZ line then runeSlice line startX (Z.min (endX + 1) (lenZ line)) else Some []);
  Some (t ++ if negb (y =? endY) then newline else []).
(** The lines of a character selection over several lines are cut by bytes. *)
Definition charRow (cm : CopyMode) (startY startX endY endX y : Z) : option bytes :=
  let line := lineText cm y in
  if y =? startY then
    t ← (if startX <? lenZ line then slice line startX (lenZ line) else Some []); Some (t ++ newline)
  else if y =? endY then
    let e := Z.min (endX + 1) (lenZ line) in if 0 <? e then slice line 0 e else Some []
  else Some (line ++ newline).

Definition SelectedText (cm : CopyMode) : option bytes :=
  if negb (selecting (sel cm)) then currentMatchText cm
  else
    let '((startY, startX), (endY, endX)) := normalizedSelection cm in
    let rows := seqZ startY (endY - startY + 1) in
    if lineSelect (sel cm) then Some (rows ≫= fun y => lineText cm y ++ newline)
    else if rectSelect (sel cm) then @concat Z <$> mapM (rectRow cm startX endX endY) rows
    else if startY =? endY then
      let line := lineRunes cm startY in
      if lenZ line <=? startX then Some [] else runeSlice line startX (Z.min (endX + 1) (lenZ line))
    else @concat Z <$> mapM (charRow cm startY startX endY endX) rows.

Definition queueCopyText (text : bytes) (append : bool) (cm : CopyMode) : CopyMode := withCopied (mkCopied text append) cm.
Definition ConsumeCopyText (cm : CopyMode) : CopyMode * (bytes * bool) :=
  (withCopied (mkCopied [] false) cm, (copyText (copied cm), appendCopy (copied cm))).

(** ** Scrolling and the cursor *)

Definition WheelScrollUp (lines : Z) (cm : CopyMode) : CopyMode * Action :=
  if lines <=? 0 then (cm, ActionNone)
  else
    let o := oy (cursor cm) in
    let next := clamp (wrapInt (o + lines)) 0 (maxOY cm) in
    if next =? o then (cm, ActionNone) else (updateSelection (setOy next cm), ActionRedraw).
Definition WheelScrollDown (lines : Z) (cm : CopyMode) : CopyMode * Action :=
  if lines <=? 0 then (cm, ActionNone)
  else
    let o := oy (cursor cm) in
    let next := clamp (wrapInt (o - lines)) 0 (maxOY cm) in
    if next =? o then (cm, if scrollExit cm && (o =? 0) then ActionExit else ActionNone)
    else (updateSelection (setOy next cm), if scrollExit cm && (next =? 0) then ActionExit else ActionRedraw).

Definition Resize (w h : Z) (cm : CopyMode) : CopyMode :=
  let cm := withSize w h cm in
  let cm := setOy (clamp (oy (cursor cm)) 0 (maxOY cm)) cm in
  let cm := setCy (clamp (cy (cursor cm)) 0 (height cm - 1)) cm in
  setCx (clamp (cx (cursor cm)) 0 (width cm - 1)) cm.

Definition SetCursor (col viewportRow : Z) (cm : CopyMode) : CopyMode * Action :=
  let row := clamp viewportRow 0 (height cm - 1) in
  let line := lineRunes cm (FirstVisibleLine cm + row) in
  let maxCol := if 0 <? lenZ line then Z.min (lenZ line - 1) (width cm - 1) else 0 in
  let col := clamp col 0 maxCol in
  if (cx (cursor cm) =? col) && (cy (cursor cm) =? row) then (cm, ActionNone)
  else (updateSelection (setCy row (setCx col cm)), ActionRedraw).

(** ** Words *)

(** [for pos < len(line) && p(line[pos]) { pos++ }] *)
Definition scanRight (p : Z -> bool) (line : list Z) (pos : Z) : option Z :=
  loop (S (length line)) (fun pos =>
    if pos <? lenZ line then r ← index line pos; Some (if p r then inl (pos + 1) else inr pos)
    else Some (inr pos)) pos.
(** [for start > 0 && p(line[start-1]) { start-- }] *)
Definition scanStart (p : Z -> bool) (line : list Z) (start : Z) : option Z :=
  loop (S (length line)) (fun start =>
    if 0 <? start then r ← index line (start - 1); Some (if p r then inl (start - 1) else inr start)
    else Some (inr start)) start.
(** [for end < len(line)-1 && p(line[end+1]) { end++ }] *)
Definition scanEnd (p : Z -> bool) (line : list Z) (e : Z) : option Z :=
  loop (S (length line)) (fun e =>
    if e <? lenZ line - 1 then r ← index line (e + 1); Some (if p r then inl (e + 1) else inr e)
    else Some (inr e)) e.

Inductive wordClass := wordClassWhitespace | wordClassWord | wordClassSeparator.
#[export] Instance wordClass_eq_dec : EqDecision wordClass.
Proof. solve_decision. Defined.
(** The characters of tmuxWordSeparators. *)
Definition tmuxWordSeparators : list Z :=
  [33; 34; 35; 36; 37; 38; 39; 40; 41; 42; 43; 44; 45; 46; 47; 58; 59; 60; 61; 62; 63; 64; 91; 92; 93; 94; 96; 123; 124; 125; 126].
Definition isClass (classify : Z -> wordClass) (c : wordClass) (r : Z) : bool := bool_decide (classify r = c).
Definition classifyWordRune (r : Z) : wordClass := if IsSpace r then wordClassWhitespace else wordClassWord.
(** unicode.MaxASCII is 0x7F. *)
Definition classifyViWordRune `{Unicode} (r : Z) : wordClass :=
  if IsSpace r then wordClassWhitespace
  else if (r =? 95) || IsLetter r || IsNumber r then wordClassWord
  else if (r <? 0x7F) && bool_decide (r ∈ tmuxWordSeparators) then wordClassSeparator
  else wordClassWord.

(** The bounds of the word at or after the cursor on its line. *)
Definition wordBounds `{Unicode} (cm : CopyMode) (line : list Z) : option (option (Z * Z)) :=
  if lenZ line =? 0 then Some None
  else
    let pos := clamp (cx (cursor cm)) 0 (lenZ line - 1) in
    r ← index line pos;
    pos ← (if isClass classifyViWordRune wordClassWhitespace r
           then scanRight (isClass classifyViWordRune wordClassWhitespace) line pos else Some pos);
    if lenZ line <=? pos then Some None
    else
      r ← index line pos;
      let same := isClass classifyViWordRune (classifyViWordRune r) in
      start ← scanStart same line pos;
      e ← scanEnd same line pos;
      Some (Some (start, e)).

Definition SelectWord `{Unicode} (cm : CopyMode) : option (CopyMode * Action) :=
  w ← wordBounds cm (cursorLineRunes cm);
  match w with
  | None => Some (cm, ActionNone)
  | Some (start, e) =>
      let absY := cursorAbsLine cm in
      Some (setCx e (withSel (mkSelection true false false start absY e absY) cm), ActionRedraw)
  end.
Definition wordUnderCursor `{Unicode} (cm : CopyMode) : option bytes :=
  let line := cursorLineRunes cm in
  w ← wordBounds cm line;
  match w with None => Some [] | Some (start, e) => runeSlice line start (e + 1) end.

Definition consumeCount (cm : CopyMode) : CopyMode * Z :=
  if pendingCount cm <=? 0 then (cm, 1) else (withCount 0 cm, pendingCount cm).
Definition consumePendingCharCount (cm : CopyMode) : CopyMode * Z :=
  let c := chars cm in
  if pendingCharSearchCount c <=? 0 then (cm, 1)
  else (withChars (mkChars (pendingCharSearch c) 0 (lastCharSearch c) (lastCharTarget c)) cm, pendingCharSearchCount c).
