(* ===== verification/CopyMotion.v ===== *)
(** * Copy mode: motions and search

    internal/copymode/motions.go, charsearch.go, structural_motions.go and the
    search of copymode_motions.go. A motion returns [None] where the code's
    slice index is out of range; its loops run with enough fuel (CopyFacts). *)

From S2P Require Import Prelude GoText GoCodec GoWire GoRunes CopyMode.

(** ** Lines *)

Definition moveDown (cm : CopyMode) : CopyMode * bool :=
  let c := cursor cm in
  if cy c <? height cm - 1 then (setCy (cy c + 1) cm, true)
  else if 0 <? oy c then (setOy (oy c - 1) cm, true)
  else (cm, false).
Definition moveUp (cm : CopyMode) : CopyMode * bool :=
  let c := cursor cm in
  if 0 <? cy c then (setCy (cy c - 1) cm, true)
  else if oy c <? maxOY cm then (setOy (oy c + 1) cm, true)
  else (cm, false).

(** [for end >= 0 && p(line[end]) { end-- }] *)
Definition scanBack (p : Z -> bool) (line : list Z) (e : Z) : option Z :=
  loop (S (Z.to_nat (e + 1))) (fun e =>
    if 0 <=? e then r ← index line e; Some (if p r then inl (e - 1) else inr e) else Some (inr e)) e.
Definition lineEndCol (cm : CopyMode) : option Z :=
  let line := cursorLineRunes cm in
  e ← scanBack IsSpace line (lenZ line - 1);
  Some (if e <? 0 then 0 else e).
(** The index of the first element with [p]. *)
Fixpoint firstIdx {A} (p : A -> bool) (l : list A) (i : Z) : option Z :=
  match l with [] => None | x :: l => if p x then Some i else firstIdx p l (i + 1) end.
Definition firstNonBlankCol (cm : CopyMode) : Z :=
  default 0 (firstIdx (fun r => negb (IsSpace r)) (cursorLineRunes cm) 0).

(** ** Words *)

Record motionCursor := mkMotion { mcm : CopyMode; mline : list Z; mpos : Z }.

Definition finishWordMotion (col : Z) (cm : CopyMode) : CopyMode * Action :=
  (updateSelection (setCx col cm), ActionRedraw).
Definition restoreCursor (saved : cursorState) (cm : CopyMode) : CopyMode := withCursor saved cm.
Definition restoreWordMotion (saved : cursorState) (col : Z) (cm : CopyMode) : CopyMode * Action :=
  finishWordMotion col (restoreCursor saved cm).
Definition failWordMotion (saved : cursorState) (cm : CopyMode) : CopyMode * Action :=
  (restoreCursor saved cm, ActionNone).

Definition newMotionCursor (cm : CopyMode) : motionCursor :=
  let line := cursorLineRunes cm in mkMotion cm line (Z.min (cx (cursor cm)) (lenZ line)).
Definition mcMoveDown (pos : Z) (mc : motionCursor) : motionCursor * bool :=
  let '(cm, moved) := moveDown (mcm mc) in
  if moved then (mkMotion cm (cursorLineRunes cm) pos, true) else (mkMotion cm (mline mc) (mpos mc), false).
Definition moveUpToEnd (mc : motionCursor) : motionCursor * bool :=
  let '(cm, moved) := moveUp (mcm mc) in
  if moved then let line := cursorLineRunes cm in (mkMotion cm line (lenZ line - 1), true)
  else (mkMotion cm (mline mc) (mpos mc), false).
Definition setPos (pos : Z) (mc : motionCursor) : motionCursor := mkMotion (mcm mc) (mline mc) pos.
Definition stepForward (mc : motionCursor) : motionCursor * bool :=
  if mpos mc <? lenZ (mline mc) - 1 then (setPos (mpos mc + 1) mc, true) else mcMoveDown 0 mc.
Definition skipForwardClass (classify : Z -> wordClass) (c : wordClass) (mc : motionCursor) : option motionCursor :=
  pos ← scanRight (isClass classify c) (mline mc) (mpos mc);
  Some (setPos pos mc).

(** Every row below, or above, is tried at most once. *)
Definition seekForwardNonWhitespace (classify : Z -> wordClass) (mc : motionCursor) : option (motionCursor * bool) :=
  loop (S (Z.to_nat (TotalLines (mcm mc)))) (fun mc =>
    mc ← skipForwardClass classify wordClassWhitespace mc;
    Some (if mpos mc <? lenZ (mline mc) then inr (mc, true)
          else let '(mc, moved) := mcMoveDown 0 mc in if moved then inl mc else inr (mc, false))) mc.
(** [for pos >= 0 && (pos >= len(line) || classify(line[pos]) == whitespace) { pos-- }] *)
Definition skipBackWhitespace (classify : Z -> wordClass) (mc : motionCursor) : option motionCursor :=
  pos ← loop (S (Z.to_nat (mpos mc + 1))) (fun pos =>
    if 0 <=? pos then
      if lenZ (mline mc) <=? pos then Some (inl (pos - 1))
      else r ← index (mline mc) pos;
           Some (if isClass classify wordClassWhitespace r then inl (pos - 1) else inr pos)
    else Some (inr pos)) (mpos mc);
  Some (setPos pos mc).
Definition seekBackwardNonWhitespace (classify : Z -> wordClass) (mc : motionCursor) : option (motionCursor * bool) :=
  loop (S (Z.to_nat (TotalLines (mcm mc)))) (fun mc =>
    mc ← skipBackWhitespace classify mc;
    Some (if 0 <=? mpos mc then inr (mc, true)
          else let '(mc, moved) := moveUpToEnd mc in if moved then inl mc else inr (mc, false))) mc.

Definition nextWordStart (classify : Z -> wordClass) (cm : CopyMode) : option (CopyMode * Action) :=
  let saved := cursor cm in
  let mc := newMotionCursor cm in
  mc ← (if mpos mc <? lenZ (mline mc) then
          r ← index (mline mc) (mpos mc);
          if isClass classify wordClassWhitespace r then Some mc else skipForwardClass classify (classify r) mc
        else Some mc);
  '(mc, found) ← seekForwardNonWhitespace classify mc;
  Some (if negb found then failWordMotion saved (mcm mc) else finishWordMotion (mpos mc) (mcm mc)).

Definition previousWordStart (classify : Z -> wordClass) (stickyTop : bool) (cm : CopyMode) : option (CopyMode * Action) :=
  let saved := cursor cm in
  let mc := newMotionCursor cm in
  '(mc, found) ← seekBackwardNonWhitespace classify (setPos (mpos mc - 1) mc);
  if negb found then Some (if stickyTop then restoreWordMotion saved 0 (mcm mc) else failWordMotion saved (mcm mc))
  else
    r ← index (mline mc) (mpos mc);
    pos ← scanStart (isClass classify (classify r)) (mline mc) (mpos mc);
    Some (finishWordMotion (Z.max 0 pos) (mcm mc)).

Definition nextWordEnd (classify : Z -> wordClass) (stickyEnd : bool) (cm : CopyMode) : option (CopyMode * Action) :=
  let saved := cursor cm in
  let mc := newMotionCursor cm in
  '(mc, stepped) ← (if mpos mc <? lenZ (mline mc) then
          r ← index (mline mc) (mpos mc);
          Some (if isClass classify wordClassWhitespace r then (mc, true) else stepForward mc)
        else Some (mc, true));
  if negb stepped then Some (failWordMotion saved (mcm mc))
  else
    '(mc, found) ← seekForwardNonWhitespace classify mc;
    if negb found then
      Some (if stickyEnd then restoreWordMotion saved (Z.max 0 (lenZ (mline mc) - 1)) (mcm mc)
            else failWordMotion saved (mcm mc))
    else
      r ← index (mline mc) (mpos mc);
      pos ← scanEnd (isClass classify (classify r)) (mline mc) (mpos mc);
      Some (finishWordMotion (clamp pos 0 (width (mcm mc) - 1)) (mcm mc)).

(** The keys of wordMotionSpecs: W, B, E, w, b, e. *)
Definition runWordMotion `{Unicode} (key : Z) (cm : CopyMode) : option (CopyMode * Action) :=
  if key =? 87 then nextWordStart classifyWordRune cm
  else if key =? 66 then previousWordStart classifyWordRune true cm
  else if key =? 69 then nextWordEnd classifyWordRune true cm
  else if key =? 119 then nextWordStart classifyViWordRune cm
  else if key =? 98 then previousWordStart classifyViWordRune false cm
  else if key =? 101 then nextWordEnd classifyViWordRune false cm
  else Some (cm, ActionNone).

(** ** Characters of the line: f, F, t, T *)

Definition isF (cmd : Z) : bool := cmd =? 102.
Definition isBigF (cmd : Z) : bool := cmd =? 70.
Definition isT (cmd : Z) : bool := cmd =? 116.
Definition isBigT (cmd : Z) : bool := cmd =? 84.

(** [for i := from; i < len(line); i++ { if line[i] == r ... }] *)
Definition findRight (line : list Z) (r from : Z) : option (option Z) :=
  loop (S (length line)) (fun i =>
    if i <? lenZ line then x ← index line i; Some (if x =? r then inr (Some i) else inl (i + 1))
    else Some (inr None)) from.
(** [for i := from; i >= 0; i-- { if line[i] == r ... }] *)
Definition findLeft (line : list Z) (r from : Z) : option (option Z) :=
  loop (S (Z.to_nat (from + 1))) (fun i =>
    if 0 <=? i then x ← index line i; Some (if x =? r then inr (Some i) else inl (i - 1))
    else Some (inr None)) from.

(** The inner option is the boolean of the code. *)
Definition findCharOnLine (cmd r : Z) (cm : CopyMode) : option (option Z) :=
  let line := cursorLineRunes cm in
  let x := cx (cursor cm) in
  if isF cmd then findRight line r (x + 1)
  else if isBigF cmd then findLeft line r (x - 1)
  else if isT cmd then
    i ← findRight line r (x + 1);
    Some (match i with Some i => if x <? i - 1 then Some (i - 1) else None | None => None end)
  else if isBigT cmd then
    i ← findLeft line r (x - 1);
    Some (match i with Some i => if i + 1 <? x then Some (i + 1) else None | None => None end)
  else Some None.

Fixpoint charSteps (n : nat) (cmd target : Z) (cm : CopyMode) : option (option CopyMode) :=
  match n with
  | O => Some (Some cm)
  | S n => col ← findCharOnLine cmd target cm;
           match col with Some col => charSteps n cmd target (setCx col cm) | None => Some None end
  end.
Definition executeCharSearch (cmd target count : Z) (cm : CopyMode) : option (CopyMode * Action) :=
  let count := if count <=? 0 then 1 else count in
  r ← charSteps (Z.to_nat count) cmd target cm;
  Some (match r with
        | None => (cm, ActionNone)
        | Some cm =>
            let c := chars cm in
            (updateSelection (withChars (mkChars (pendingCharSearch c) (pendingCharSearchCount c) cmd target) cm), ActionRedraw)
        end).
(** The command of a repetition, its direction flipped in reverse. *)
Definition repeatCommand (reverse : bool) (cmd : Z) : Z :=
  if negb reverse then cmd
  else if isF cmd then 70 else if isBigF cmd then 102 else if isT cmd then 84 else if isBigT cmd then 116 else cmd.
Definition repeatCharSearch (reverse : bool) (cm : CopyMode) : option (CopyMode * Action) :=
  let c := chars cm in
  if lastCharSearch c =? 0 then Some (cm, ActionNone)
  else
    let cmd := repeatCommand reverse (lastCharSearch c) in
    '(cm, result) ← executeCharSearch cmd (lastCharTarget c) 1 cm;
    let c' := chars cm in
    Some (withChars (mkChars (pendingCharSearch c') (pendingCharSearchCount c') (lastCharSearch c) (lastCharTarget c)) cm, result).

(** ** Paragraphs and brackets *)

Definition blankLine (cm : CopyMode) (y : Z) : bool := match TrimSpace (lineText cm y) with [] => true | _ => false end.
(** [for y > 0 && p(y) { y-- }] and [for y < maxY && p(y) { y++ }] *)
Definition linesUp (p : Z -> bool) (y : Z) : option Z :=
  loop (S (Z.to_nat y)) (fun y => Some (if (0 <? y) && p y then inl (y - 1) else inr y)) y.
Definition linesDown (p : Z -> bool) (maxY y : Z) : option Z :=
  loop (S (Z.to_nat (maxY - y))) (fun y => Some (if (y <? maxY) && p y then inl (y + 1) else inr y)) y.
Definition gotoParagraph (origY y : Z) (cm : CopyMode) : CopyMode * Action :=
  if y =? origY then (cm, ActionNone) else (updateSelection (scrollToAbsolute y 0 cm), ActionRedraw).
Definition previousParagraph (cm : CopyMode) : option (CopyMode * Action) :=
  let origY := cursorAbsLine cm in
  y ← linesUp (blankLine cm) origY;
  y ← linesUp (fun y => negb (blankLine cm y)) y;
  Some (gotoParagraph origY y cm).
Definition nextParagraph (cm : CopyMode) : option (CopyMode * Action) :=
  let origY := cursorAbsLine cm in
  let maxY := TotalLines cm - 1 in
  y ← linesDown (blankLine cm) maxY origY;
  y ← linesDown (fun y => negb (blankLine cm y)) maxY y;
  Some (gotoParagraph origY y cm).

(** A character with its line and column. *)
Definition place : Type := Z * Z * Z.
Fixpoint places (yy xx : Z) (line : list Z) : list place :=
  match line with [] => [] | r :: line => (yy, xx, r) :: places yy (xx + 1) line end.
(** [for yy := y; yy < total; yy++ { for xx := startX; xx < len(line); xx++ ...] with
    [startX] on the first line [y], then from the start of each line. *)
Definition placesFrom (cm : CopyMode) (y startX : Z) : list place :=
  seqZ y (TotalLines cm - y) ≫= fun yy =>
    let x := if yy =? y then startX else 0 in places yy x (drop (Z.to_nat x) (lineRunes cm yy)).
(** [for yy := y; yy >= 0; yy-- { for xx := startX; xx >= 0; xx-- ...] with
    [startX = min(x-1, len(line)-1)] on the line [y]. *)
Definition placesBack (cm : CopyMode) (y x : Z) : list place :=
  rev (seqZ 0 (y + 1)) ≫= fun yy =>
    let line := lineRunes cm yy in
    rev (places yy 0 (if yy =? y then take (Z.to_nat (Z.min (x - 1) (lenZ line - 1) + 1)) line else line)).

(** "()[]{}" *)
Definition brackets : list Z := [40; 41; 91; 93; 123; 125].
Definition pairs : list (Z * Z) := [(40, 41); (91, 93); (123, 125)].
Definition isBracket (r : Z) : bool := bool_decide (r ∈ brackets).

Definition findBracketCandidate (cm : CopyMode) : option (option place) :=
  let y := cursorAbsLine cm in
  let line := lineRunes cm y in
  let x := cx (cursor cm) in
  r ← (if x <? lenZ line then r ← index line x; Some (if isBracket r then Some (y, x, r) else None) else Some None);
  Some (match r with
        | Some p => Some p
        | None => find (fun '(_, _, r) => isBracket r) (placesFrom cm y (Z.min (x + 1) (lenZ line)))
        end).
(** The place where the depth, raised by [up] and lowered by [down], is 0. *)
Fixpoint scanDepth (up down depth : Z) (l : list place) : option (Z * Z) :=
  match l with
  | [] => None
  | (yy, xx, r) :: l =>
      if r =? up then scanDepth up down (depth + 1) l
      else if r =? down then
        if depth - 1 =? 0 then Some (yy, xx) else scanDepth up down (depth - 1) l
      else scanDepth up down depth l
  end.
Definition findMatchingForward (cm : CopyMode) (y x open close : Z) : option (Z * Z) :=
  scanDepth open close 1 (placesFrom cm y (x + 1)).
Definition findMatchingBackward (cm : CopyMode) (y x open close : Z) : option (Z * Z) :=
  scanDepth close open 1 (placesBack cm y x).
Definition matchingBracket (cm : CopyMode) : option (CopyMode * Action) :=
  cand ← findBracketCandidate cm;
  Some (match cand with
        | None => (cm, ActionNone)
        | Some (y, x, r) =>
            match find (fun '(o, c) => (r =? o) || (r =? c)) pairs with
            | None => (cm, ActionNone)
            | Some (o, c) =>
                match (if r =? o then findMatchingForward cm y x o c else findMatchingBackward cm y x o c) with
                | Some (my, mx) => (updateSelection (scrollToAbsolute my mx cm), ActionRedraw)
                | None => (cm, ActionNone)
                end
            end
        end).

(** ** Search *)

Fixpoint runeSliceHasPrefix (line query : list Z) : option bool :=
  match query with
  | [] => Some true
  | q :: query =>
      match line with
      | [] => None
      | r :: line => if r =? q then runeSliceHasPrefix line query else Some false
      end
  end.
(** The hits of a line: leftmost and without overlaps. *)
Definition lineMatches (query line : list Z) (i : Z) : option (list Match) :=
  let queryLen := lenZ query in
  loop (S (length line)) (fun '(idx, acc) =>
    if idx + queryLen <=? lenZ line then
      hit ← runeSliceHasPrefix (drop (Z.to_nat idx) line) query;
      Some (if negb hit then inl (idx + 1, acc)
            else inl (idx + (queryLen - 1) + 1, acc ++ [mkMatch i idx queryLen]))
    else Some (inr acc)) (0, []).

Definition withMatches (ms : list Match) (i : Z) (cm : CopyMode) : CopyMode :=
  let s := search cm in withSearch (mkSearch (searchQuery s) (lastSearchForward s) ms i) cm.
Definition setQuery (query : bytes) (forward : bool) (cm : CopyMode) : CopyMode :=
  let s := search cm in withSearch (mkSearch query forward (matches s) (matchIdx s)) cm.

Definition scrollToMatch (cm : CopyMode) : option CopyMode :=
  let s := search cm in
  if (matchIdx s <? 0) || (lenZ (matches s) <=? matchIdx s) then Some cm
  else
    m ← index (matches s) (matchIdx s);
    let center := Z.quot (height cm) 2 in
    let cm := setOy (clamp (TotalLines cm - height cm - LineIdx m + center) 0 (maxOY cm)) cm in
    let firstVisible := TotalLines cm - height cm - oy (cursor cm) in
    let cm := setCy (clamp (LineIdx m - firstVisible) 0 (height cm - 1)) cm in
    Some (setCx (Col m) cm).

(** The hit at or after the cursor, else the first; the one at or before it,
    else the last. *)
Definition atOrAfter (y x : Z) (m : Match) : bool := (y <? LineIdx m) || ((LineIdx m =? y) && (x <=? Col m)).
Definition atOrBefore (y x : Z) (m : Match) : bool := (LineIdx m <? y) || ((LineIdx m =? y) && (Col m <=? x)).
Definition pickMatch (forward : bool) (y x : Z) (ms : list Match) : Z :=
  if forward then default 0 (firstIdx (atOrAfter y x) ms 0)
  else lenZ ms - 1 - default 0 (firstIdx (atOrBefore y x) (reverse ms) 0).

Definition runSearch `{Unicode} (forward : bool) (cm : CopyMode) : option CopyMode :=
  let cm := withMatches [] (-1) cm in
  match searchQuery (search cm) with
  | [] => Some cm
  | query =>
      let queryRunes := lowerRunes query in
      found ← mapM (fun i => lineMatches queryRunes (lowerRunes (lineText cm i)) i) (seqZ 0 (TotalLines cm));
      match concat found with
      | [] => Some cm
      | ms =>
          let cm := withMatches ms (pickMatch forward (cursorAbsLine cm) (cx (cursor cm)) ms)
                      (setQuery query forward cm) in
          scrollToMatch cm
      end
  end.

Definition nextMatch (cm : CopyMode) : option CopyMode :=
  let s := search cm in
  if lenZ (matches s) =? 0 then Some cm
  else scrollToMatch (withMatches (matches s) (Z.rem (matchIdx s + 1) (lenZ (matches s))) cm).
Definition prevMatch (cm : CopyMode) : option CopyMode :=
  let s := search cm in
  if lenZ (matches s) =? 0 then Some cm
  else scrollToMatch (withMatches (matches s) (Z.rem (matchIdx s - 1 + lenZ (matches s)) (lenZ (matches s))) cm).
Definition searchAgain (reverse : bool) (cm : CopyMode) : option CopyMode :=
  let s := search cm in
  if lenZ (matches s) =? 0 then Some cm
  else if (if reverse then negb (lastSearchForward s) else lastSearchForward s) then nextMatch cm else prevMatch cm.
Definition searchWordUnderCursor `{Unicode} (forward : bool) (cm : CopyMode) : option (CopyMode * Action) :=
  query ← wordUnderCursor cm;
  match query with
  | [] => Some (cm, ActionNone)
  | _ => cm ← runSearch forward (setQuery query forward cm); Some (cm, ActionRedraw)
  end.

Definition jumpToMark (cm : CopyMode) : CopyMode * Action :=
  let m := mark cm in
  if negb (markSet m) then (cm, ActionNone)
  else
    let oldX := cx (cursor cm) in let oldY := cursorAbsLine cm in
    let cm := scrollToAbsolute (markY m) (markX m) cm in
    (updateSelection (withMark (mkMark (markSet m) oldX oldY) cm), ActionRedraw).

(** ** Scrolling *)

Definition scrollBy (delta : Z) (exit : bool) (cm : CopyMode) : CopyMode * Action :=
  let o := oy (cursor cm) in
  let next := clamp (wrapInt (o + delta)) 0 (maxOY cm) in
  if next =? o then (cm, if exit && scrollExit cm && (o =? 0) then ActionExit else ActionNone)
  else (updateSelection (setOy next cm), if exit && scrollExit cm && (next =? 0) then ActionExit else ActionRedraw).
Definition scrollCursorToRow (row : Z) (cm : CopyMode) : CopyMode * Action :=
  let absY := cursorAbsLine cm in
  let cm := setOy (clamp (TotalLines cm - height cm - absY + row) 0 (maxOY cm)) cm in
  (updateSelection (setCy (clamp row 0 (height cm - 1)) cm), ActionRedraw).

Fixpoint repeatMoves (n : nat) (move : CopyMode -> CopyMode * bool) (moved : bool) (cm : CopyMode) : CopyMode * bool :=
  match n with
  | O => (cm, moved)
  | S n => let '(cm, ok) := move cm in if ok then repeatMoves n move true cm else (cm, moved)
  end.
Definition repeatMotion (count : Z) (move : CopyMode -> CopyMode * bool) (cm : CopyMode) : CopyMode * Action :=
  let '(cm, moved) := repeatMoves (Z.to_nat count) move false cm in
  if negb moved then (cm, ActionNone) else (updateSelection cm, ActionRedraw).
Fixpoint repeatActions (n : nat) (fn : CopyMode -> option (CopyMode * Action)) (result : Action) (cm : CopyMode)
  : option (CopyMode * Action) :=
  match n with
  | O => Some (cm, result)
  | S n => '(cm, action) ← fn cm;
           match action with
           | ActionExit | ActionYank => Some (cm, action)
           | ActionRedraw => repeatActions n fn ActionRedraw cm
           | ActionNone => repeatActions n fn result cm
           end
  end.
Definition repeatAction (count : Z) (fn : CopyMode -> option (CopyMode * Action)) : CopyMode -> option (CopyMode * Action) :=
  repeatActions (Z.to_nat count) fn ActionNone.
