(* ===== verification/CopyInput.v ===== *)
(** * Copy mode: keys, prompts, overlay

    The key decoding and handling of internal/copymode/copymode.go and
    copymode_motions.go, DecodeKey of internal/bubblesutil/textinput.go,
    overlay.go and render.go. The text field of the Bubbles library is a
    parameter. *)

From S2P Require Import Prelude GoText GoCodec GoWire GoRunes CopyMode CopyMotion.

(** ** Keys *)

Definition keyUp : Z := 0x100.
Definition keyDown : Z := 0x101.
Definition keyLeft : Z := 0x102.
Definition keyRight : Z := 0x103.
Definition keyHome : Z := 0x104.
Definition keyEnd : Z := 0x105.
Definition keyPageUp : Z := 0x106.
Definition keyPageDown : Z := 0x107.
Definition keyCtrlUp : Z := 0x108.
Definition keyCtrlDown : Z := 0x109.
Definition keyAltX : Z := 0x10A.

(** The parameter bytes, digits and semicolons, of an escape sequence. *)
Fixpoint csiParams (l : bytes) : bytes * bytes :=
  match l with
  | c :: r => if between 48 c 57 || (c =? 59) then let '(p, rest) := csiParams r in (c :: p, rest) else ([], l)
  | [] => ([], [])
  end.
Definition isParam (params : bytes) (s : string) : bool := bool_decide (params = bytesOf s).

(** The key and the bytes consumed. *)
Definition decodeCopyModeKey (data : bytes) : Z * Z :=
  match data with
  | [] => (-1, 0)
  | b0 :: r =>
      if negb (b0 =? 0x1b) then (b0, 1)
      else match r with
           | [] => (0x1b, 1)
           | b1 :: r =>
               if negb (b1 =? 91) && negb (b1 =? 79) then
                 if (b1 =? 120) || (b1 =? 88) then (keyAltX, 2) else (0x1b, 1)
               else if b1 =? 79 then
                 match r with
                 | [] => (0x1b, 1)
                 | b2 :: _ => if b2 =? 72 then (keyHome, 3) else if b2 =? 70 then (keyEnd, 3) else (0x1b, 1)
                 end
               else match r with
                    | [] => (0x1b, 1)
                    | b2 :: _ =>
                        if b2 =? 65 then (keyUp, 3)
                        else if b2 =? 66 then (keyDown, 3)
                        else if b2 =? 67 then (keyRight, 3)
                        else if b2 =? 68 then (keyLeft, 3)
                        else if b2 =? 72 then (keyHome, 3)
                        else if b2 =? 70 then (keyEnd, 3)
                        else match csiParams r with
                             | (_, []) => (0x1b, 1)
                             | (params, final :: _) =>
                                 let used := 2 + lenZ params + 1 in
                                 let ctrl := isParam params "1;5" || isParam params "5" in
                                 if (final =? 126) && isParam params "5" then (keyPageUp, used)
                                 else if (final =? 126) && isParam params "6" then (keyPageDown, used)
                                 else if (final =? 65) && ctrl then (keyCtrlUp, used)
                                 else if (final =? 66) && ctrl then (keyCtrlDown, used)
                                 else (0x1b, 1)
                             end
                    end
           end
  end.

Definition isScrollKey (key : Z) : bool :=
  bool_decide (key ∈ [106; 107; 103; 71; 74; 75; keyUp; keyDown; keyPageUp; keyPageDown; keyCtrlUp; keyCtrlDown;
                      0x04; 0x15; 0x02; 0x06]).

(** The key messages of Bubble Tea that the decoder makes. *)
Inductive KeyType :=
  KeyEnter | KeyTab | KeyBackspace | KeyEsc | KeyRunes | KeyHome | KeyEnd | KeyUp | KeyDown | KeyLeft | KeyRight
| KeyDelete | KeyPgUp | KeyPgDown | KeyCtrlUp | KeyCtrlDown
| KeyCtrlA | KeyCtrlB | KeyCtrlD | KeyCtrlE | KeyCtrlF | KeyCtrlK | KeyCtrlN | KeyCtrlP | KeyCtrlU | KeyCtrlW.
#[export] Instance KeyType_eq_dec : EqDecision KeyType.
Proof. solve_decision. Defined.
Record KeyMsg := mkKey { Type_ : KeyType; Runes : list Z; Alt : bool }.
Definition plainKey (t : KeyType) : KeyMsg := mkKey t [] false.

Definition decodeControlOrRune (b : Z) : option KeyMsg :=
  if (b =? 13) || (b =? 10) then Some (plainKey KeyEnter)
  else if b =? 9 then Some (plainKey KeyTab)
  else if (b =? 0x7f) || (b =? 0x08) then Some (plainKey KeyBackspace)
  else if b =? 0x01 then Some (plainKey KeyCtrlA)
  else if b =? 0x02 then Some (plainKey KeyCtrlB)
  else if b =? 0x04 then Some (plainKey KeyCtrlD)
  else if b =? 0x05 then Some (plainKey KeyCtrlE)
  else if b =? 0x06 then Some (plainKey KeyCtrlF)
  else if b =? 0x0b then Some (plainKey KeyCtrlK)
  else if b =? 0x0e then Some (plainKey KeyCtrlN)
  else if b =? 0x10 then Some (plainKey KeyCtrlP)
  else if b =? 0x15 then Some (plainKey KeyCtrlU)
  else if b =? 0x17 then Some (plainKey KeyCtrlW)
  else if between 0x20 b 0x7e then Some (mkKey KeyRunes [b] false)
  else None.

(** The message, absent where the code answers false, and the bytes consumed. *)
Definition DecodeKey (data : bytes) : option KeyMsg * Z :=
  let esc := (Some (plainKey KeyEsc), 1) in
  match data with
  | [] => (None, 0)
  | b0 :: r =>
      if negb (b0 =? 0x1b) then (decodeControlOrRune b0, 1)
      else match r with
           | [] => esc
           | b1 :: r =>
               if negb (b1 =? 91) && negb (b1 =? 79) then
                 if between 0x20 b1 0x7e then (Some (mkKey KeyRunes [b1] true), 2) else esc
               else if b1 =? 79 then
                 match r with
                 | [] => esc
                 | b2 :: _ => if b2 =? 72 then (Some (plainKey KeyHome), 3)
                              else if b2 =? 70 then (Some (plainKey KeyEnd), 3) else esc
                 end
               else match r with
                    | [] => esc
                    | b2 :: _ =>
                        if b2 =? 65 then (Some (plainKey KeyUp), 3)
                        else if b2 =? 66 then (Some (plainKey KeyDown), 3)
                        else if b2 =? 67 then (Some (plainKey KeyRight), 3)
                        else if b2 =? 68 then (Some (plainKey KeyLeft), 3)
                        else if b2 =? 72 then (Some (plainKey KeyHome), 3)
                        else if b2 =? 70 then (Some (plainKey KeyEnd), 3)
                        else match csiParams r with
                             | (_, []) => esc
                             | (params, final :: _) =>
                                 let used := 2 + lenZ params + 1 in
                                 let ctrl := isParam params "1;5" || isParam params "5" in
                                 if (final =? 126) && isParam params "3" then (Some (plainKey KeyDelete), used)
                                 else if (final =? 126) && isParam params "5" then (Some (plainKey KeyPgUp), used)
                                 else if (final =? 126) && isParam params "6" then (Some (plainKey KeyPgDown), used)
                                 else if (final =? 65) && ctrl then (Some (plainKey KeyCtrlUp), used)
                                 else if (final =? 66) && ctrl then (Some (plainKey KeyCtrlDown), used)
                                 else if (final =? 67) && isParam params "1;3" then (Some (mkKey KeyRight [] true), used)
                                 else if (final =? 68) && isParam params "1;3" then (Some (mkKey KeyLeft [] true), used)
                                 else esc
                             end
                    end
           end
  end.

Definition IsInlineEditingKey (k : KeyType) : bool :=
  match k with
  | KeyLeft | KeyRight | KeyBackspace | KeyDelete | KeyCtrlA | KeyCtrlB | KeyCtrlD | KeyCtrlE | KeyCtrlF
  | KeyCtrlK | KeyCtrlN | KeyCtrlP | KeyCtrlU | KeyCtrlW => true
  | _ => false
  end.
Definition IsTextInputKey (k : KeyType) : bool :=
  match k with KeyRunes | KeyHome | KeyEnd => true | _ => IsInlineEditingKey k end.

(** The Bubbles text field: the value and the cursor after a message. *)
Class TextInput := { textInputUpdate : bytes * Z -> KeyMsg -> bytes * Z }.

(** ** Handling *)

Section Handling.
Context {U : Unicode} {TI : TextInput}.

Definition startPrompt (mode : promptMode) (cm : CopyMode) : CopyMode * Action :=
  (withPrompt (mkPrompt mode [] 0) cm, ActionRedraw).

Definition submitPrompt (cm : CopyMode) : option CopyMode :=
  let buf := promptBuf (promptS cm) in
  let mode := prompt (promptS cm) in
  let cm := withPrompt (mkPrompt promptNone [] 0) cm in
  match mode with
  | promptSearchForward => runSearch true (setQuery buf true cm)
  | promptSearchBackward => runSearch false (setQuery buf false cm)
  | promptGotoLine =>
      Some (match Atoi buf with
            | Some line => updateSelection (setOy (clamp line 0 (maxOY cm)) cm)
            | None => cm
            end)
  | promptNone => Some cm
  end.

(** A message that edits the prompt. *)
Definition editPrompt (msg : KeyMsg) (cm : CopyMode) : CopyMode * Action :=
  let p := promptS cm in
  let '(value, pos) := textInputUpdate (promptBuf p, promptCursor p) msg in
  (withPrompt (mkPrompt (prompt p) value pos) cm,
   if bool_decide ((value, pos) = (promptBuf p, promptCursor p)) then ActionNone else ActionRedraw).

Definition handlePromptInput (data : bytes) (cm : CopyMode) : option (CopyMode * Action * Z) :=
  match DecodeKey data with
  | (None, _) => Some (cm, ActionNone, 1)
  | (Some msg, consumed) =>
      if consumed <=? 0 then Some (cm, ActionNone, 1)
      else match Type_ msg with
           | KeyEnter => cm ← submitPrompt cm; Some (cm, ActionRedraw, consumed)
           | KeyEsc => Some (withPrompt (mkPrompt promptNone [] 0) cm, ActionRedraw, consumed)
           | KeyRunes =>
               if bool_decide (prompt (promptS cm) = promptGotoLine) && negb (forallb (fun r => between 48 r 57) (Runes msg))
               then Some (cm, ActionNone, consumed)
               else Some (editPrompt msg cm, consumed)
           | t => if negb (IsTextInputKey t) then Some (cm, ActionNone, consumed)
                  else Some (editPrompt msg cm, consumed)
           end
  end.

Definition stepLeft (cm : CopyMode) : option (CopyMode * Action) :=
  Some (if cx (cursor cm) =? 0 then (cm, ActionNone)
        else (updateSelection (setCx (cx (cursor cm) - 1) cm), ActionRedraw)).
Definition stepRight (cm : CopyMode) : option (CopyMode * Action) :=
  Some (if width cm - 1 <=? cx (cursor cm) then (cm, ActionNone)
        else (updateSelection (setCx (cx (cursor cm) + 1) cm), ActionRedraw)).
(** The motions that set the cursor and redraw. *)
Definition moveTo (x y o : Z) (cm : CopyMode) : CopyMode * Action :=
  (updateSelection (withCursor (mkCursor x y o) cm), ActionRedraw).
Definition keyIn (key : Z) (ks : list Z) : bool := bool_decide (key ∈ ks).
Definition half (h count : Z) : Z := wrapInt (Z.quot h 2 * count).

(** The outer option of the result is a panic, the inner one the boolean. *)
Definition handleLineMotionKey (key count : Z) (cm : CopyMode) : option (option (CopyMode * Action)) :=
  let c := cursor cm in
  if keyIn key [106; keyDown] then Some (Some (repeatMotion count moveDown cm))
  else if keyIn key [107; keyUp] then Some (Some (repeatMotion count moveUp cm))
  else if keyIn key [104; keyLeft; 0x08; 0x7f] then Some <$> repeatAction count stepLeft cm
  else if keyIn key [108; keyRight] then Some <$> repeatAction count stepRight cm
  else if key =? 0x04 then Some (Some (scrollBy (wrapInt (- Z.quot (height cm) 2 * count)) false cm))
  else if key =? 0x15 then Some (Some (scrollBy (half (height cm) count) false cm))
  else if key =? 103 then Some (Some (moveTo 0 0 (maxOY cm) cm))
  else if key =? 71 then Some (Some (moveTo 0 (height cm - 1) 0 cm))
  else if keyIn key [48; keyHome] then Some (Some (moveTo 0 (cy c) (oy c) cm))
  else if keyIn key [36; keyEnd] then e ← lineEndCol cm; Some (Some (moveTo e (cy c) (oy c) cm))
  else if key =? 94 then Some (Some (moveTo (firstNonBlankCol cm) (cy c) (oy c) cm))
  else if key =? 72 then Some (Some (moveTo 0 0 (oy c) cm))
  else if key =? 76 then Some (Some (moveTo 0 (height cm - 1) (oy c) cm))
  else if key =? 77 then Some (Some (moveTo 0 (Z.quot (height cm - 1) 2) (oy c) cm))
  else if key =? 122 then Some (Some (scrollCursorToRow (Z.quot (height cm - 1) 2) cm))
  else if keyIn key [74; 0x05; keyCtrlDown] then Some (Some (WheelScrollDown count cm))
  else if keyIn key [75; 0x19; keyCtrlUp] then Some (Some (WheelScrollUp count cm))
  else if keyIn key [0x06; keyPageDown] then Some (Some (scrollBy (wrapInt (- height cm * count)) false cm))
  else if keyIn key [0x02; keyPageUp] then Some (Some (scrollBy (wrapInt (height cm * count)) false cm))
  else Some None.

Definition handleWordMotionKey (key count : Z) (cm : CopyMode) : option (option (CopyMode * Action)) :=
  if keyIn key [87; 66; 69; 119; 98; 101] then Some <$> repeatAction count (runWordMotion key) cm else Some None.
Definition handleParagraphMotionKey (key count : Z) (cm : CopyMode) : option (option (CopyMode * Action)) :=
  if key =? 123 then Some <$> repeatAction count previousParagraph cm
  else if key =? 125 then Some <$> repeatAction count nextParagraph cm
  else Some None.

Definition redrawn (cm : CopyMode) : option (CopyMode * Action) := Some (cm, ActionRedraw).
Definition handleSearchJumpMotionKey (key count : Z) (cm : CopyMode) : option (option (CopyMode * Action)) :=
  if key =? 47 then Some (Some (startPrompt promptSearchForward cm))
  else if key =? 63 then Some (Some (startPrompt promptSearchBackward cm))
  else if key =? 58 then Some (Some (startPrompt promptGotoLine cm))
  else if key =? 110 then Some <$> (cm ← searchAgain false cm; redrawn cm)
  else if key =? 78 then Some <$> (cm ← searchAgain true cm; redrawn cm)
  else if key =? 42 then Some <$> searchWordUnderCursor true cm
  else if key =? 35 then Some <$> searchWordUnderCursor false cm
  else if key =? 114 then
    Some <$> (cm ← (match searchQuery (search cm) with [] => Some cm | _ => runSearch (lastSearchForward (search cm)) cm end);
              redrawn cm)
  else if key =? 88 then Some <$> redrawn (withMark (mkMark true (cx (cursor cm)) (cursorAbsLine cm)) cm)
  else if keyIn key [102; 70; 116; 84] then
    let c := chars cm in
    Some (Some (withChars (mkChars key count (lastCharSearch c) (lastCharTarget c)) cm, ActionNone))
  else if key =? 59 then Some <$> repeatAction count (repeatCharSearch false) cm
  else if key =? 44 then Some <$> repeatAction count (repeatCharSearch true) cm
  else if key =? 37 then Some <$> repeatAction count matchingBracket cm
  else if key =? keyAltX then Some (Some (if negb (markSet (mark cm)) then (cm, ActionNone) else jumpToMark cm))
  else Some None.

Definition handleMotionKey (key count : Z) (cm : CopyMode) : option (option (CopyMode * Action)) :=
  r ← handleLineMotionKey key count cm;
  match r with Some a => Some (Some a) | None =>
  r ← handleWordMotionKey key count cm;
  match r with Some a => Some (Some a) | None =>
  r ← handleParagraphMotionKey key count cm;
  match r with Some a => Some (Some a) | None =>
  handleSearchJumpMotionKey key count cm
  end end end.

Definition queueYank (text : option bytes) (append : bool) (cm : CopyMode) : option (CopyMode * Action) :=
  t ← text; Some (queueCopyText t append cm, ActionYank).
(** [V]: the line, then down for the rest of the count. *)
Definition selectLines (count : Z) (cm : CopyMode) : CopyMode * Action :=
  let '(cm, _) := SelectLine cm in
  let '(cm, _) := repeatMoves (Z.to_nat (count - 1)) moveDown false cm in
  (updateSelection cm, ActionRedraw).

Definition handleNormalKey (key : Z) (cm : CopyMode) : option (CopyMode * Action) :=
  if between 49 key 57 then Some (withCount (wrapInt (wrapInt (pendingCount cm * 10) + (key - 48))) cm, ActionRedraw)
  else if (key =? 48) && (0 <? pendingCount cm) then Some (withCount (wrapInt (pendingCount cm * 10)) cm, ActionRedraw)
  else
    let '(cm, count) := consumeCount cm in
    if keyIn key [113; 0x03] then Some (cm, ActionExit)
    else if key =? 0x1b then Some (ClearSelection (withCount 0 cm))
    else if key =? 32 then Some (StartSelection cm)
    else if keyIn key [118; 0x16] then Some (ToggleRectangleSelection cm)
    else if key =? 86 then Some (selectLines count cm)
    else if keyIn key [13; 10] then queueYank (SelectedText cm) false cm
    else if key =? 65 then queueYank (SelectedText cm) true cm
    else if key =? 68 then queueYank (endOfLineText cm) false cm
    else if key =? 111 then Some (if Z.rem count 2 =? 0 then (cm, ActionNone) else OtherEnd cm)
    else if key =? 80 then Some (withShowPosition (negb (showPosition cm)) cm, ActionRedraw)
    else if key =? 121 then queueYank (SelectedText cm) false cm
    else
      r ← handleMotionKey key count cm;
      Some (match r with Some a => a | None => (cm, ActionNone) end).

Definition clearPendingChar (cm : CopyMode) : CopyMode :=
  let c := chars cm in withChars (mkChars 0 0 (lastCharSearch c) (lastCharTarget c)) cm.
Definition handleInputChunk (data : bytes) (cm : CopyMode) : option (CopyMode * Action * Z) :=
  if negb (bool_decide (prompt (promptS cm) = promptNone)) then handlePromptInput data (SetScrollExit false cm)
  else if negb (pendingCharSearch (chars cm) =? 0) then
    let cm := SetScrollExit false cm in
    let '(key, consumed) := decodeCopyModeKey data in
    if (key =? 0x1b) || (key <? 0) || (0xff <? key) then Some (clearPendingChar cm, ActionNone, consumed)
    else
      let cmd := pendingCharSearch (chars cm) in
      let '(cm, count) := consumePendingCharCount cm in
      '(cm, action) ← executeCharSearch cmd key count cm;
      let c := chars cm in
      Some (withChars (mkChars 0 (pendingCharSearchCount c) (lastCharSearch c) (lastCharTarget c)) cm, action, consumed)
  else
    let '(key, consumed) := decodeCopyModeKey data in
    let cm := if negb (isScrollKey key) then SetScrollExit false cm else cm in
    '(cm, action) ← handleNormalKey key cm;
    Some (cm, action, consumed).

(** Every chunk consumes a byte: the length is enough fuel. *)
Fixpoint handleChunks (fuel : nat) (data : bytes) (result : Action) (cm : CopyMode) : option (CopyMode * Action) :=
  match data with
  | [] => Some (cm, result)
  | _ =>
      match fuel with
      | O => None
      | S fuel =>
          '(cm, action, consumed) ← handleInputChunk data cm;
          match action with
          | ActionExit | ActionYank => Some (cm, action)
          | ActionRedraw => handleChunks fuel (drop (Z.to_nat consumed) data) ActionRedraw cm
          | ActionNone => handleChunks fuel (drop (Z.to_nat consumed) data) result cm
          end
      end
  end.
Definition HandleInput (data : bytes) (cm : CopyMode) : option (CopyMode * Action) :=
  handleChunks (length data) data ActionNone cm.
End Handling.
