(* ===== verification/CopyOverlay.v ===== *)
(** * Copy mode: the overlay and the prompt line

    internal/copymode/overlay.go, render.go and the types of
    internal/proto/copymode_overlay.go: what the client draws on the frozen
    pane. *)

From S2P Require Import Prelude GoText GoCodec GoWire GoRunes CopyMode.

Inductive SelectionMode := SelectionModeCharacter | SelectionModeLine | SelectionModeRectangle.
Record SelectionRange := mkRange { StartLine : Z; StartCol : Z; EndLine : Z; EndCol : Z; Mode : SelectionMode }.
Inductive HighlightKind := HighlightSelection | HighlightSearchMatch | HighlightCurrentMatch.
Record HighlightSpan := mkSpan { spanStart : Z; spanEnd : Z; spanKind : HighlightKind }.
Record HighlightLine := mkLine { hlRow : Z; hlSpans : list HighlightSpan }.
Record ViewportOverlay := mkOverlay {
  overlayCursor : Z * Z; overlaySelection : option SelectionRange; HighlightedLines : list HighlightLine }.

(** The builder is its map from rows to spans. *)
Definition addSpan (row startCol endCol : Z) (kind : HighlightKind) (b : gmap Z (list HighlightSpan)) : gmap Z (list HighlightSpan) :=
  if endCol <=? startCol then b
  else <[row := default [] (b !! row) ++ [mkSpan startCol endCol kind]]> b.
(** sort.Ints over the keys of the map. *)
Definition sortedRows (b : gmap Z (list HighlightSpan)) : list Z := stableSort Z.leb (map fst (map_to_list b)).
Definition buildLines (b : gmap Z (list HighlightSpan)) : list HighlightLine :=
  map (fun row => mkLine row (default [] (b !! row))) (sortedRows b).

Definition selectionMode (cm : CopyMode) : SelectionMode :=
  if lineSelect (sel cm) then SelectionModeLine
  else if rectSelect (sel cm) then SelectionModeRectangle else SelectionModeCharacter.
(** The columns selected on a line of the selection. *)
Definition selectionCols (cm : CopyMode) (absIdx : Z) : Z * Z :=
  let '((startY, startX), (endY, endX)) := normalizedSelection cm in
  if rectSelect (sel cm) then (startX, endX + 1)
  else (if absIdx =? startY then startX else 0, if absIdx =? endY then endX + 1 else width cm).
Definition selectionRange (cm : CopyMode) (b : gmap Z (list HighlightSpan)) : option SelectionRange * gmap Z (list HighlightSpan) :=
  if negb (selecting (sel cm)) then (None, b)
  else
    let '((startY, startX), (endY, endX)) := normalizedSelection cm in
    let firstVisible := FirstVisibleLine cm in
    let lastVisible := firstVisible + height cm - 1 in
    let visibleStart := Z.max startY firstVisible in
    let visibleEnd := Z.min endY lastVisible in
    (Some (mkRange startY startX endY endX (selectionMode cm)),
     fold_left (fun b absIdx =>
       let '(colStart, colEnd) := selectionCols cm absIdx in
       addSpan (absIdx - firstVisible) colStart colEnd HighlightSelection b)
       (seqZ visibleStart (visibleEnd - visibleStart + 1)) b).
Fixpoint matchHighlights (cm : CopyMode) (i : Z) (ms : list Match) (b : gmap Z (list HighlightSpan)) : gmap Z (list HighlightSpan) :=
  match ms with
  | [] => b
  | m :: ms =>
      let firstVisible := FirstVisibleLine cm in
      let lastVisible := firstVisible + height cm - 1 in
      matchHighlights cm (i + 1) ms
        (if (LineIdx m <? firstVisible) || (lastVisible <? LineIdx m) then b
         else addSpan (LineIdx m - firstVisible) (Col m) (Col m + Len m)
                (if i =? matchIdx (search cm) then HighlightCurrentMatch else HighlightSearchMatch) b)
  end.
Definition addMatchHighlights (cm : CopyMode) (b : gmap Z (list HighlightSpan)) : gmap Z (list HighlightSpan) :=
  matchHighlights cm 0 (matches (search cm)) b.
Definition viewportOverlay (cm : CopyMode) : ViewportOverlay :=
  let '(selection, b) := selectionRange cm ∅ in
  mkOverlay (cx (cursor cm), cy (cursor cm)) selection (buildLines (addMatchHighlights cm b)).

(** strings.Join(parts, " ") *)
Fixpoint joinSpace (parts : list bytes) : bytes :=
  match parts with [] => [] | [p] => p | p :: parts => p ++ 32 :: joinSpace parts end.
Definition promptPart (cm : CopyMode) : list bytes :=
  let buf := promptBuf (promptS cm) in
  match prompt (promptS cm) with
  | promptSearchForward => [47 :: buf]
  | promptSearchBackward => [63 :: buf]
  | promptGotoLine => [58 :: buf]
  | promptNone => if 0 <? pendingCount cm then [formatDecimal (pendingCount cm)] else []
  end.
Definition SearchBarText (cm : CopyMode) : bytes :=
  joinSpace (promptPart cm ++
    if showPosition cm
    then [91 :: formatDecimal (oy (cursor cm)) ++ 47 :: formatDecimal (maxOY cm) ++ [93]] else []).
