(* ===== verification/CopyFacts.v ===== *)
(** * Copy mode: the invariant and the motions

    The well-formed states of copy mode, what a key that reports no change
    leaves alone, the loops of the motions with the bounds of their results,
    and the specification of every motion: it ends, keeps the state
    well-formed and changes nothing drawn without asking for a redraw. *)

From S2P Require Import Prelude GoText GoCodec GoWire GoRunes CopyMode CopyMotion.

(** ** Well-formed states *)

Definition matchOK (m : Match) : Prop := 0 <= LineIdx m /\ 0 <= Col m /\ 0 < Len m.
(** None, f, F, t, T. *)
Definition charCommands : list Z := [0; 102; 70; 116; 84].

Record CopyOK (cm : CopyMode) : Prop := mkCopyOK {
  ok_emu : emulatorOK (emu cm);
  ok_width : 1 <= width cm;
  ok_height : 1 <= height cm;
  ok_cx : 0 <= cx (cursor cm);
  ok_cy : 0 <= cy (cursor cm) < height cm;
  ok_oy : 0 <= oy (cursor cm) <= maxOY cm;
  ok_matches : Forall matchOK (matches (search cm));
  ok_matchIdx : (matches (search cm) = [] /\ matchIdx (search cm) = -1) \/
                0 <= matchIdx (search cm) < lenZ (matches (search cm));
  ok_selX : 0 <= selStartX (sel cm) /\ 0 <= selEndX (sel cm);
  ok_selY : 0 <= selStartY (sel cm) /\ 0 <= selEndY (sel cm);
  ok_mark : 0 <= markX (mark cm) /\ 0 <= markY (mark cm);
  ok_pending : pendingCharSearch (chars cm) ∈ charCommands;
  ok_last : lastCharSearch (chars cm) ∈ charCommands;
  ok_modes : lineSelect (sel cm) && rectSelect (sel cm) = false;
}.

(** What the client draws: the overlay, the offset and the prompt line, the
    repeat count apart. *)
Record quiet (cm cm' : CopyMode) : Prop := mkQuiet {
  q_emu : emu cm' = emu cm;
  q_width : width cm' = width cm;
  q_height : height cm' = height cm;
  q_cursor : cursor cm' = cursor cm;
  q_prompt : promptS cm' = promptS cm;
  q_search : search cm' = search cm;
  q_sel : sel cm' = sel cm;
  q_position : showPosition cm' = showPosition cm;
}.
#[export] Instance quiet_refl : Reflexive quiet.
Proof. by intros cm. Qed.
#[export] Instance quiet_trans : Transitive quiet.
Proof. intros a b c [] []. split; congruence. Qed.

(** Column [x] is on a character of some line; in the viewport or on one. *)
Definition onCharacter (cm : CopyMode) (x : Z) : Prop := exists y, x < lenZ (lineRunes cm y).
Definition columnOK (cm : CopyMode) (x : Z) : Prop := x < width cm \/ onCharacter cm x.
(** The cursor and the hits. *)
Definition columnsOK (cm : CopyMode) : Prop :=
  columnOK cm (cx (cursor cm)) /\ Forall (fun m => onCharacter cm (Col m)) (matches (search cm)).

(** The frozen pane, its size and the repeat count do not change in a motion,
    and the columns stay in range. *)
Record sameFrame (cm cm' : CopyMode) : Prop := mkFrame {
  f_emu : emu cm' = emu cm; f_width : width cm' = width cm; f_height : height cm' = height cm;
  f_count : pendingCount cm' = pendingCount cm;
  f_columns : columnsOK cm -> columnsOK cm' }.
#[export] Instance sameFrame_refl : Reflexive sameFrame.
Proof. by intros cm. Qed.
#[export] Instance sameFrame_trans : Transitive sameFrame.
Proof. intros a b c [] []. split; try congruence. auto. Qed.
(** What does not touch the cursor, the hits and the frame. *)
Lemma frame_same cm cm' : emu cm' = emu cm -> width cm' = width cm -> height cm' = height cm ->
  pendingCount cm' = pendingCount cm -> cx (cursor cm') = cx (cursor cm) -> search cm' = search cm -> sameFrame cm cm'.
Proof.
  intros E1 E2 E3 E4 E5 E6. split; try done. unfold columnsOK, columnOK, onCharacter, lineRunes, lineText. by rewrite E1, E2, E5, E6.
Qed.
(** A motion that keeps the hits and ends on a column in range. *)
Lemma frame_cursor cm cm' : emu cm' = emu cm -> width cm' = width cm -> height cm' = height cm ->
  pendingCount cm' = pendingCount cm -> matches (search cm') = matches (search cm) ->
  (columnOK cm (cx (cursor cm)) -> columnOK cm (cx (cursor cm'))) -> sameFrame cm cm'.
Proof.
  intros E1 E2 E3 E4 E5 Hx. split; try done. unfold columnsOK, columnOK, onCharacter, lineRunes, lineText in *. rewrite E1, E2, E5.
  intros [? ?]. split; [by apply Hx|done].
Qed.
Lemma frame_setCx cm x : columnOK cm x -> sameFrame cm (setCx x cm).
Proof. intros. by apply frame_cursor. Qed.
Lemma columnOK_line cm x y : x < lenZ (lineRunes cm y) -> columnOK cm x.
Proof. intros. right. by exists y. Qed.

Definition good (cm : CopyMode) (r : CopyMode * Action) : Prop :=
  CopyOK (fst r) /\ sameFrame cm (fst r) /\ (snd r = ActionNone -> quiet cm (fst r)).
(** An operation that does not panic. *)
Definition total (f : CopyMode -> option (CopyMode * Action)) : Prop :=
  forall cm, CopyOK cm -> exists r, f cm = Some r /\ good cm r.
Create HintDb copyok.

Lemma cursorAbsLine_eq cm : cursorAbsLine cm = maxOY cm - oy (cursor cm) + cy (cursor cm).
Proof. unfold cursorAbsLine, TotalLines, maxOY. lia. Qed.
Lemma cursorAbsLine_range cm : CopyOK cm -> 0 <= cursorAbsLine cm < TotalLines cm.
Proof. intros []. rewrite cursorAbsLine_eq. unfold TotalLines, maxOY in *. lia. Qed.
Lemma maxOY_nonneg cm : CopyOK cm -> 0 <= maxOY cm.
Proof. by intros []. Qed.
Lemma FirstVisibleLine_eq cm : CopyOK cm -> FirstVisibleLine cm = maxOY cm - oy (cursor cm).
Proof. intros []. unfold FirstVisibleLine, TotalLines, maxOY in *. lia. Qed.
Lemma clamp_range v lo hi : lo <= hi -> lo <= clamp v lo hi <= hi.
Proof. unfold clamp. lia. Qed.
Lemma clamp_lt v h : 1 <= h -> 0 <= clamp v 0 (h - 1) < h.
Proof. unfold clamp. lia. Qed.
Lemma clamp_id v lo hi : lo <= v <= hi -> clamp v lo hi = v.
Proof. unfold clamp. lia. Qed.

Lemma OK_cursor cm x y o :
  CopyOK cm -> 0 <= x -> 0 <= y < height cm -> 0 <= o <= maxOY cm -> CopyOK (withCursor (mkCursor x y o) cm).
Proof. intros [] ???. by split. Qed.
Lemma OK_setCx cm x : CopyOK cm -> 0 <= x -> CopyOK (setCx x cm).
Proof. intros H ?. apply OK_cursor; [done|done|apply H|apply H]. Qed.
Lemma OK_setCy cm y : CopyOK cm -> 0 <= y < height cm -> CopyOK (setCy y cm).
Proof. intros H ?. apply OK_cursor; [done|apply H|done|apply H]. Qed.
Lemma OK_setOy cm o : CopyOK cm -> 0 <= o <= maxOY cm -> CopyOK (setOy o cm).
Proof. intros H ?. apply OK_cursor; [done|apply H|apply H|done]. Qed.
Lemma OK_sel cm a b c x1 y1 x2 y2 :
  CopyOK cm -> b && c = false -> 0 <= x1 -> 0 <= y1 -> 0 <= x2 -> 0 <= y2 -> CopyOK (withSel (mkSelection a b c x1 y1 x2 y2) cm).
Proof. intros [] ?????. by split. Qed.
Lemma OK_updateSelection cm : CopyOK cm -> CopyOK (updateSelection cm).
Proof.
  intros H. unfold updateSelection. destruct (selecting (sel cm)); [|done].
  pose proof (cursorAbsLine_range cm H). destruct H as [? Hw ? Hx ? ? ? ? [] [] ? ? ? ?].
  apply OK_sel; [by split|done|done|done|destruct (lineSelect (sel cm)); lia|lia].
Qed.
Lemma OK_prompt cm p : CopyOK cm -> CopyOK (withPrompt p cm).
Proof. intros []. by split. Qed.
Lemma OK_count cm n : CopyOK cm -> CopyOK (withCount n cm).
Proof. intros []. by split. Qed.
Lemma OK_copied cm c : CopyOK cm -> CopyOK (withCopied c cm).
Proof. intros []. by split. Qed.
Lemma OK_position cm b : CopyOK cm -> CopyOK (withShowPosition b cm).
Proof. intros []. by split. Qed.
Lemma OK_scrollExit cm b : CopyOK cm -> CopyOK (SetScrollExit b cm).
Proof. intros []. by split. Qed.
Lemma OK_mark cm b x y : CopyOK cm -> 0 <= x -> 0 <= y -> CopyOK (withMark (mkMark b x y) cm).
Proof. intros [] ??. by split. Qed.
Lemma OK_chars cm p n l t :
  CopyOK cm -> p ∈ charCommands -> l ∈ charCommands -> CopyOK (withChars (mkChars p n l t) cm).
Proof. intros [] ??. by split. Qed.
Lemma OK_query cm q f : CopyOK cm -> CopyOK (setQuery q f cm).
Proof. intros []. by split. Qed.
Lemma OK_withMatches cm ms i :
  CopyOK cm -> Forall matchOK ms -> (ms = [] /\ i = -1) \/ 0 <= i < lenZ ms -> CopyOK (withMatches ms i cm).
Proof. intros [] ??. by split. Qed.
#[export] Hint Resolve OK_setCx OK_setCy OK_setOy OK_sel OK_updateSelection OK_prompt OK_count OK_copied OK_position
  OK_scrollExit OK_mark OK_chars OK_query OK_withMatches : copyok.

Lemma frame_updateSelection cm : sameFrame cm (updateSelection cm).
Proof. unfold updateSelection. by destruct (selecting (sel cm)). Qed.
Lemma updateSelection_cursor cm : cursor (updateSelection cm) = cursor cm.
Proof. unfold updateSelection. by destruct (selecting (sel cm)). Qed.
Lemma cursorAbsLine_updateSelection cm : cursorAbsLine (updateSelection cm) = cursorAbsLine cm.
Proof. unfold updateSelection. by destruct (selecting (sel cm)). Qed.
Lemma updateSelection_search cm : search (updateSelection cm) = search cm.
Proof. unfold updateSelection. by destruct (selecting (sel cm)). Qed.

(** An operation that asks for a redraw, or leaves. *)
Lemma good_redraw cm cm' a : CopyOK cm' -> sameFrame cm cm' -> a <> ActionNone -> good cm (cm', a).
Proof. intros ???. split; [done|]. by split. Qed.
Lemma good_none cm : CopyOK cm -> good cm (cm, ActionNone).
Proof. intros. by split. Qed.
Lemma good_updateSelection cm cm' a :
  CopyOK cm' -> sameFrame cm cm' -> a <> ActionNone -> good cm (updateSelection cm', a).
Proof. intros. apply good_redraw; [by apply OK_updateSelection| |done]. etrans; [done|apply frame_updateSelection]. Qed.
(** ** The loops of the motions *)

Section Scans.
Context (p : Z -> bool) (line : list Z).

Lemma scanRight_total pos : 0 <= pos ->
  exists q, scanRight p line pos = Some q /\ pos <= q /\ (q = pos \/ q <= lenZ line) /\
            (q < lenZ line -> exists r, index line q = Some r /\ p r = false).
Proof.
  intros Hp. unfold scanRight.
  apply (loop_total (fun q => pos <= q /\ (q = pos \/ q <= lenZ line)) (fun q => Z.max 0 (lenZ line - q))); [|lia|unfold lenZ; lia].
  intros q [Hq1 Hq2]. destruct (Z.ltb_spec q (lenZ line)).
  - destruct (index_lt line q) as [r Hr]; [lia|]. rewrite Hr. cbn [mbind option_bind].
    eexists. split; [done|]. destruct (p r) eqn:E; [lia|]. repeat split; [lia|lia|]. intros _. by exists r.
  - eexists. split; [done|]. cbn. repeat split; [lia|done|lia].
Qed.
Lemma scanStart_total s : 0 <= s <= lenZ line ->
  exists q, scanStart p line s = Some q /\ 0 <= q <= s.
Proof.
  intros Hp. unfold scanStart.
  apply (loop_total (fun q => 0 <= q <= s) (fun q => q)); [|lia|unfold lenZ in *; lia].
  intros q Hq. destruct (Z.ltb_spec 0 q).
  - destruct (index_lt line (q - 1)) as [r Hr]; [lia|]. rewrite Hr. cbn [mbind option_bind].
    eexists. split; [done|]. destruct (p r); lia.
  - eexists. split; [done|]. cbn. lia.
Qed.
Lemma scanEnd_total e : 0 <= e < lenZ line ->
  exists q, scanEnd p line e = Some q /\ e <= q < lenZ line.
Proof.
  intros Hp. unfold scanEnd.
  apply (loop_total (fun q => e <= q < lenZ line) (fun q => lenZ line - q)); [|lia|unfold lenZ in *; lia].
  intros q Hq. destruct (Z.ltb_spec q (lenZ line - 1)).
  - destruct (index_lt line (q + 1)) as [r Hr]; [lia|]. rewrite Hr. cbn [mbind option_bind].
    eexists. split; [done|]. destruct (p r); lia.
  - eexists. split; [done|]. cbn. lia.
Qed.
Lemma scanBack_total e : -1 <= e < lenZ line ->
  exists q, scanBack p line e = Some q /\ -1 <= q <= e.
Proof.
  intros Hp. unfold scanBack.
  apply (loop_total (fun q => -1 <= q <= e) (fun q => q + 1)); [|lia|lia].
  intros q Hq. destruct (Z.leb_spec 0 q).
  - destruct (index_lt line q) as [r Hr]; [lia|]. rewrite Hr. cbn [mbind option_bind].
    eexists. split; [done|]. destruct (p r); lia.
  - eexists. split; [done|]. cbn. lia.
Qed.
End Scans.

Lemma findRight_total line r from : 0 <= from ->
  exists q, findRight line r from = Some q /\ (forall i, q = Some i -> from <= i < lenZ line).
Proof.
  intros Hp. unfold findRight.
  apply (loop_total (fun q => from <= q) (fun q => Z.max 0 (lenZ line - q))); [|lia|unfold lenZ in *; lia].
  intros q Hq. destruct (Z.ltb_spec q (lenZ line)).
  - destruct (index_lt line q) as [x Hx]; [lia|]. rewrite Hx. cbn [mbind option_bind].
    eexists. split; [done|]. destruct (x =? r); [|lia]. intros i [= <-]. lia.
  - eexists. split; [done|]. by intros i.
Qed.
Lemma findLeft_total line r from : -1 <= from < lenZ line ->
  exists q, findLeft line r from = Some q /\ (forall i, q = Some i -> 0 <= i <= from).
Proof.
  intros Hp. unfold findLeft.
  apply (loop_total (fun q => -1 <= q <= from) (fun q => q + 1)); [|lia|lia].
  intros q Hq. destruct (Z.leb_spec 0 q).
  - destruct (index_lt line q) as [x Hx]; [lia|]. rewrite Hx. cbn [mbind option_bind].
    eexists. split; [done|]. destruct (x =? r); [|lia]. intros i [= <-]. lia.
  - eexists. split; [done|]. by intros i.
Qed.
(** From beyond the end of the line the first index panics. *)
Lemma findLeft_panics line r from : lenZ line <= from -> 0 <= from -> findLeft line r from = None.
Proof.
  intros H H0. unfold findLeft. cbn [loop]. destruct (Z.leb_spec 0 from); [|lia].
  rewrite (proj2 (index_None line from)) by lia. done.
Qed.

Lemma firstIdx_bounds {A} (p : A -> bool) l i j : firstIdx p l i = Some j -> i <= j < i + lenZ l.
Proof.
  revert i. induction l as [|x l IH]; intros i; cbn [firstIdx]; [done|]. rewrite lenZ_cons.
  pose proof (lenZ_nonneg l). destruct (p x); [intros [= <-]; lia|]. intros H1%IH. lia.
Qed.

Lemma lineEndCol_total cm : exists e, lineEndCol cm = Some e /\ 0 <= e /\ (e = 0 \/ e < lenZ (cursorLineRunes cm)).
Proof.
  unfold lineEndCol. pose proof (lenZ_nonneg (cursorLineRunes cm)).
  destruct (scanBack_total IsSpace (cursorLineRunes cm) (lenZ (cursorLineRunes cm) - 1)) as (q & -> & Hq); [lia|].
  cbn [mbind option_bind]. eexists. split; [done|]. destruct (Z.ltb_spec q 0); lia.
Qed.
Lemma firstNonBlankCol_nonneg cm : 0 <= firstNonBlankCol cm.
Proof. unfold firstNonBlankCol. destruct (firstIdx _ _ _) eqn:E; cbn; [apply firstIdx_bounds in E|]; lia. Qed.

Lemma firstNonBlankCol_onLine cm : firstNonBlankCol cm = 0 \/ firstNonBlankCol cm < lenZ (cursorLineRunes cm).
Proof. unfold firstNonBlankCol. destruct (firstIdx _ _ _) eqn:E; cbn; [apply firstIdx_bounds in E; lia|by left]. Qed.

Lemma linesUp_total p y : 0 <= y -> exists q, linesUp p y = Some q /\ 0 <= q <= y.
Proof.
  intros Hy. unfold linesUp. apply (loop_total (fun q => 0 <= q <= y) (fun q => q)); [|lia|lia].
  intros q Hq. eexists. split; [done|]. destruct (Z.ltb_spec 0 q), (p q); cbn; lia.
Qed.
Lemma linesDown_total p maxY y : y <= maxY -> exists q, linesDown p maxY y = Some q /\ y <= q <= maxY.
Proof.
  intros Hy. unfold linesDown. apply (loop_total (fun q => y <= q <= maxY) (fun q => maxY - q)); [|lia|lia].
  intros q Hq. eexists. split; [done|]. destruct (Z.ltb_spec q maxY), (p q); cbn; lia.
Qed.

(** ** Lines up and down *)

Lemma withCursor_self cm : withCursor (cursor cm) cm = cm.
Proof. by destruct cm. Qed.

Lemma moveDown_spec cm : CopyOK cm ->
  let '(cm', moved) := moveDown cm in
  CopyOK cm' /\ cm' = withCursor (cursor cm') cm /\ cx (cursor cm') = cx (cursor cm) /\
  (if moved then cursorAbsLine cm' = cursorAbsLine cm + 1 else cm' = cm /\ cursorAbsLine cm = TotalLines cm - 1).
Proof.
  intros H. pose proof (maxOY_nonneg cm H). pose proof (ok_cy cm H). pose proof (ok_oy cm H). unfold moveDown.
  destruct (Z.ltb_spec (cy (cursor cm)) (height cm - 1)); [|destruct (Z.ltb_spec 0 (oy (cursor cm)))].
  - split; [apply OK_setCy; [done|lia]|]. do 2 (split; [done|]). rewrite !cursorAbsLine_eq. cbn. unfold maxOY. cbn. lia.
  - split; [apply OK_setOy; [done|lia]|]. do 2 (split; [done|]). rewrite !cursorAbsLine_eq. cbn. unfold maxOY. cbn. lia.
  - split; [done|]. split; [by rewrite withCursor_self|]. do 2 (split; [done|]). rewrite cursorAbsLine_eq. unfold TotalLines, maxOY in *. lia.
Qed.
Lemma moveUp_spec cm : CopyOK cm ->
  let '(cm', moved) := moveUp cm in
  CopyOK cm' /\ cm' = withCursor (cursor cm') cm /\ cx (cursor cm') = cx (cursor cm) /\
  (if moved then cursorAbsLine cm' = cursorAbsLine cm - 1 else cm' = cm /\ cursorAbsLine cm = 0).
Proof.
  intros H. pose proof (maxOY_nonneg cm H). pose proof (ok_cy cm H). pose proof (ok_oy cm H). unfold moveUp.
  destruct (Z.ltb_spec 0 (cy (cursor cm))); [|destruct (Z.ltb_spec (oy (cursor cm)) (maxOY cm))].
  - split; [apply OK_setCy; [done|lia]|]. do 2 (split; [done|]). rewrite !cursorAbsLine_eq. cbn. unfold maxOY. cbn. lia.
  - split; [apply OK_setOy; [done|lia]|]. do 2 (split; [done|]). rewrite !cursorAbsLine_eq. cbn. unfold maxOY. cbn. lia.
  - split; [done|]. split; [by rewrite withCursor_self|]. do 2 (split; [done|]). rewrite cursorAbsLine_eq. unfold TotalLines, maxOY in *. lia.
Qed.

(** ** Word motions *)

(** The motion cursor has moved only the cursor of its pane, to a line of it. *)
Record mcOK (cm0 : CopyMode) (mc : motionCursor) : Prop := mkMcOK {
  mc_ok : CopyOK (mcm mc);
  mc_only : mcm mc = withCursor (cursor (mcm mc)) cm0;
  mc_line : exists y, mline mc = lineRunes cm0 y;
}.
Definition onText (mc : motionCursor) : Prop := 0 <= mpos mc < lenZ (mline mc).

Lemma mcOK_setPos cm0 mc p : mcOK cm0 mc -> mcOK cm0 (setPos p mc).
Proof. intros []. by split. Qed.
Lemma newMotionCursor_ok cm : CopyOK cm -> mcOK cm (newMotionCursor cm).
Proof. intros H. split; [done|cbn; by rewrite withCursor_self|]. by exists (cursorAbsLine cm). Qed.
Lemma newMotionCursor_pos cm : CopyOK cm -> 0 <= mpos (newMotionCursor cm) <= lenZ (mline (newMotionCursor cm)).
Proof. intros H. pose proof (ok_cx cm H). cbn. pose proof (lenZ_nonneg (cursorLineRunes cm)). lia. Qed.

Lemma mcMoveDown_spec cm0 p mc : mcOK cm0 mc ->
  let '(mc', moved) := mcMoveDown p mc in
  mcOK cm0 mc' /\ (if moved then mpos mc' = p /\ cursorAbsLine (mcm mc') = cursorAbsLine (mcm mc) + 1 else mc' = mc).
Proof.
  intros [H1 H2 H3]. unfold mcMoveDown. pose proof (moveDown_spec (mcm mc) H1) as Hs.
  destruct (moveDown (mcm mc)) as [cm' moved]. destruct Hs as (Hok & Honly & _ & Hm).
  assert (E : cm' = withCursor (cursor cm') cm0) by (rewrite Honly, H2; by destruct cm0).
  assert (El : cursorLineRunes cm' = lineRunes cm0 (cursorAbsLine cm')) by (unfold cursorLineRunes; by rewrite E).
  destruct moved; (split; [split; [done|done|by eauto]|]); [done|]. destruct Hm as [-> _]. by destruct mc.
Qed.
Lemma moveUpToEnd_spec cm0 mc : mcOK cm0 mc ->
  let '(mc', moved) := moveUpToEnd mc in
  mcOK cm0 mc' /\ (if moved then mpos mc' = lenZ (mline mc') - 1 /\ cursorAbsLine (mcm mc') = cursorAbsLine (mcm mc) - 1
                   else mc' = mc).
Proof.
  intros [H1 H2 H3]. unfold moveUpToEnd. pose proof (moveUp_spec (mcm mc) H1) as Hs.
  destruct (moveUp (mcm mc)) as [cm' moved]. destruct Hs as (Hok & Honly & _ & Hm).
  assert (E : cm' = withCursor (cursor cm') cm0) by (rewrite Honly, H2; by destruct cm0).
  assert (El : cursorLineRunes cm' = lineRunes cm0 (cursorAbsLine cm')) by (unfold cursorLineRunes; by rewrite E).
  destruct moved; (split; [split; [done|done|by eauto]|]); [done|]. destruct Hm as [-> _]. by destruct mc.
Qed.
Lemma stepForward_spec cm0 mc : mcOK cm0 mc -> 0 <= mpos mc ->
  let '(mc', moved) := stepForward mc in mcOK cm0 mc' /\ 0 <= mpos mc'.
Proof.
  intros H Hp. unfold stepForward. destruct (mpos mc <? _).
  - split; [by apply mcOK_setPos|]. cbn. lia.
  - pose proof (mcMoveDown_spec cm0 0 mc H). destruct (mcMoveDown 0 mc) as [mc' []]; destruct H0 as [? H1]; (split; [done|]).
    + destruct H1 as [-> _]. done.
    + by subst.
Qed.
Lemma skipForwardClass_spec cm0 classify c mc : mcOK cm0 mc -> 0 <= mpos mc ->
  exists mc', skipForwardClass classify c mc = Some mc' /\ mcOK cm0 mc' /\ 0 <= mpos mc' /\
              mline mc' = mline mc /\ mcm mc' = mcm mc.
Proof.
  intros H Hp. unfold skipForwardClass.
  destruct (scanRight_total (isClass classify c) (mline mc) (mpos mc) Hp) as (q & -> & Hq & _).
  cbn [mbind option_bind]. eexists. split; [done|]. split; [by apply mcOK_setPos|]. split; [cbn; lia|done].
Qed.
Lemma skipBackWhitespace_spec cm0 classify mc : mcOK cm0 mc -> -1 <= mpos mc ->
  exists mc', skipBackWhitespace classify mc = Some mc' /\ mcOK cm0 mc' /\ mpos mc' < lenZ (mline mc') /\
              mcm mc' = mcm mc /\ mline mc' = mline mc.
Proof.
  intros H Hp. unfold skipBackWhitespace.
  match goal with |- context [loop ?f ?s ?a] =>
    assert (exists q, loop f s a = Some q /\ q < lenZ (mline mc)) as (q & -> & Hq);
    [apply (loop_total (fun q => -1 <= q) (fun q => q + 1)); [|lia|lia]|] end.
  - intros q Hq. pose proof (lenZ_nonneg (mline mc)). destruct (Z.leb_spec 0 q).
    + destruct (Z.leb_spec (lenZ (mline mc)) q); [eexists; split; [done|]; cbn; lia|].
      destruct (index_lt (mline mc) q) as [r Hr]; [lia|]. rewrite Hr. cbn [mbind option_bind].
      eexists. split; [done|]. destruct (isClass _ _ r); cbn; lia.
    + eexists. split; [done|]. cbn. lia.
  - cbn [mbind option_bind]. eexists. split; [done|]. split; [by apply mcOK_setPos|]. done.
Qed.

Lemma seekForward_total cm0 classify mc : mcOK cm0 mc -> 0 <= mpos mc ->
  exists mc' found, seekForwardNonWhitespace classify mc = Some (mc', found) /\ mcOK cm0 mc' /\ 0 <= mpos mc' /\
                    (found = true -> onText mc').
Proof.
  intros H Hp. unfold seekForwardNonWhitespace.
  match goal with |- context [loop ?f ?s ?a] =>
    assert (exists q, loop f s a = Some q /\ mcOK cm0 (fst q) /\ 0 <= mpos (fst q) /\ (snd q = true -> onText (fst q)))
      as ([mc' b] & -> & Hq);
    [apply (loop_total (fun q => mcOK cm0 q /\ 0 <= mpos q) (fun q => TotalLines cm0 - cursorAbsLine (mcm q))); [|done|]
    |by exists mc', b] end.
  - intros q [Hq Hq0]. destruct (skipForwardClass_spec cm0 classify wordClassWhitespace q Hq Hq0) as (q' & -> & Hq' & Hp' & Hl & Hcm).
    cbn [mbind option_bind]. eexists. split; [done|].
    destruct (Z.ltb_spec (mpos q') (lenZ (mline q'))); [cbn; unfold onText; split; [done|]; lia|].
    pose proof (mcMoveDown_spec cm0 0 q' Hq') as Hm. destruct (mcMoveDown 0 q') as [q2 []]; destruct Hm as [Hok Hm].
    + destruct Hm as [E1 E2]. rewrite E1, E2, Hcm. split; [by split|].
      pose proof (cursorAbsLine_range _ (mc_ok _ _ Hok)) as Hr. rewrite E2, Hcm in Hr.
      rewrite (mc_only _ _ Hok) in Hr. change (TotalLines (withCursor _ cm0)) with (TotalLines cm0) in Hr. lia.
    + subst. done.
  - pose proof (cursorAbsLine_range _ (mc_ok _ _ H)) as Hr.
    assert (E : TotalLines (mcm mc) = TotalLines cm0) by (by rewrite (mc_only _ _ H)). rewrite E in *. lia.
Qed.
Lemma seekBackward_total cm0 classify mc : mcOK cm0 mc -> -1 <= mpos mc ->
  exists mc' found, seekBackwardNonWhitespace classify mc = Some (mc', found) /\ mcOK cm0 mc' /\
                    (found = true -> onText mc').
Proof.
  intros H Hp. unfold seekBackwardNonWhitespace.
  match goal with |- context [loop ?f ?s ?a] =>
    assert (exists q, loop f s a = Some q /\ mcOK cm0 (fst q) /\ (snd q = true -> onText (fst q))) as ([mc' b] & -> & Hq);
    [apply (loop_total (fun q => mcOK cm0 q /\ -1 <= mpos q) (fun q => cursorAbsLine (mcm q))); [|done|]
    |by exists mc', b] end.
  - intros q [Hq Hq0]. destruct (skipBackWhitespace_spec cm0 classify q Hq Hq0) as (q' & -> & Hq' & Hlt & Hcm & Hl).
    cbn [mbind option_bind]. eexists. split; [done|].
    destruct (Z.leb_spec 0 (mpos q')); [cbn; unfold onText; split; [done|]; lia|].
    pose proof (moveUpToEnd_spec cm0 q' Hq') as Hm. destruct (moveUpToEnd q') as [q2 []]; destruct Hm as [Hok Hm].
    + destruct Hm as [E1 E2]. rewrite E2, Hcm. pose proof (lenZ_nonneg (mline q2)).
      pose proof (cursorAbsLine_range _ (mc_ok _ _ Hok)) as Hr. rewrite E2, Hcm in Hr.
      split; [split; [done|lia]|lia].
    + done.
  - pose proof (cursorAbsLine_range _ (mc_ok _ _ H)) as Hr. lia.
Qed.

Lemma onText_column cm0 mc x : mcOK cm0 mc -> x < lenZ (mline mc) -> columnOK cm0 x.
Proof. intros [_ _ [y E]] Hx. rewrite E in Hx. by eapply columnOK_line. Qed.
Lemma finish_good cm0 mc col : mcOK cm0 mc -> 0 <= col -> columnOK cm0 col -> good cm0 (finishWordMotion col (mcm mc)).
Proof.
  intros H Hc Hx. apply good_updateSelection; [apply OK_setCx; [apply H|done]| |done].
  destruct H as [_ E _]. revert E. generalize (cursor (mcm mc)). intros c ->. by apply frame_cursor.
Qed.
Lemma restore_mc cm0 mc : mcOK cm0 mc -> restoreCursor (cursor cm0) (mcm mc) = cm0.
Proof. intros [_ -> _]. by destruct cm0. Qed.
Lemma restoreWord_good cm0 mc col : mcOK cm0 mc -> CopyOK cm0 -> 0 <= col -> columnOK cm0 col ->
  good cm0 (restoreWordMotion (cursor cm0) col (mcm mc)).
Proof.
  intros H H0 Hc Hx. unfold restoreWordMotion. rewrite (restore_mc cm0) by done.
  apply good_updateSelection; [by apply OK_setCx|by apply frame_setCx|done].
Qed.
Lemma fail_good cm0 mc : mcOK cm0 mc -> CopyOK cm0 -> good cm0 (failWordMotion (cursor cm0) (mcm mc)).
Proof. intros H H0. unfold failWordMotion. rewrite (restore_mc cm0) by done. by apply good_none. Qed.

Lemma nextWordStart_total classify : total (nextWordStart classify).
Proof.
  intros cm H. unfold nextWordStart. pose proof (newMotionCursor_ok cm H) as Hmc. pose proof (newMotionCursor_pos cm H) as Hp.
  set (mc0 := newMotionCursor cm) in *.
  assert (exists mc1, (if mpos mc0 <? lenZ (mline mc0) then
       r ← index (mline mc0) (mpos mc0);
       if isClass classify wordClassWhitespace r then Some mc0 else skipForwardClass classify (classify r) mc0
     else Some mc0) = Some mc1 /\ mcOK cm mc1 /\ 0 <= mpos mc1) as (mc1 & -> & H1 & Hp1).
  { destruct (Z.ltb_spec (mpos mc0) (lenZ (mline mc0))); [|exists mc0; split; [done|]; split; [done|lia]].
    destruct (index_lt (mline mc0) (mpos mc0)) as [r ->]; [lia|]. cbn [mbind option_bind].
    destruct (isClass _ _ r); [exists mc0; split; [done|]; split; [done|lia]|].
    destruct (skipForwardClass_spec cm classify (classify r) mc0 Hmc) as (mc1 & -> & ? & ? & _); [lia|]. by exists mc1. }
  cbn [mbind option_bind].
  destruct (seekForward_total cm classify mc1 H1 Hp1) as (mc2 & found & -> & H2 & Hp2 & Hf).
  cbn [mbind option_bind]. eexists. split; [done|].
  destruct found; cbn [negb]; [|by apply fail_good]. apply finish_good; [done|done|]. apply (onText_column _ mc2); [done|by apply Hf].
Qed.
Lemma previousWordStart_total classify sticky : total (previousWordStart classify sticky).
Proof.
  intros cm H. unfold previousWordStart. pose proof (newMotionCursor_ok cm H) as Hmc. pose proof (newMotionCursor_pos cm H) as Hp.
  destruct (seekBackward_total cm classify (setPos (mpos (newMotionCursor cm) - 1) (newMotionCursor cm))) as (mc & found & -> & H1 & Hf);
    [by apply mcOK_setPos|cbn; cbn in Hp; lia|].
  cbn [mbind option_bind]. destruct found; cbn [negb].
  - specialize (Hf eq_refl). destruct (index_lt (mline mc) (mpos mc) Hf) as [r ->]. cbn [mbind option_bind].
    destruct (scanStart_total (isClass classify (classify r)) (mline mc) (mpos mc)) as (q & -> & Hq); [unfold onText in Hf; lia|].
    cbn [mbind option_bind]. eexists. split; [done|]. unfold onText in Hf. apply finish_good; [done|lia|apply (onText_column _ mc); [done|lia]].
  - eexists. split; [done|]. destruct sticky; [|by apply fail_good]. apply restoreWord_good; [done|done|lia|]. left. pose proof (ok_width cm H). lia.
Qed.
Lemma nextWordEnd_total classify sticky : total (nextWordEnd classify sticky).
Proof.
  intros cm H. unfold nextWordEnd. pose proof (newMotionCursor_ok cm H) as Hmc. pose proof (newMotionCursor_pos cm H) as Hp.
  set (mc0 := newMotionCursor cm) in *.
  assert (exists mc1 b, (if mpos mc0 <? lenZ (mline mc0) then
       r ← index (mline mc0) (mpos mc0); Some (if isClass classify wordClassWhitespace r then (mc0, true) else stepForward mc0)
     else Some (mc0, true)) = Some (mc1, b) /\ mcOK cm mc1 /\ 0 <= mpos mc1) as (mc1 & b & -> & H1 & Hp1).
  { destruct (Z.ltb_spec (mpos mc0) (lenZ (mline mc0))); [|exists mc0, true; split; [done|]; split; [done|lia]].
    destruct (index_lt (mline mc0) (mpos mc0)) as [r ->]; [lia|]. cbn [mbind option_bind].
    destruct (isClass _ _ r); [exists mc0, true; split; [done|]; split; [done|lia]|].
    pose proof (stepForward_spec cm mc0 Hmc ltac:(lia)). destruct (stepForward mc0) as [mc1 b]. by exists mc1, b. }
  cbn [mbind option_bind]. destruct b; cbn [negb]; [|eexists; split; [done|]; by apply fail_good].
  destruct (seekForward_total cm classify mc1 H1 Hp1) as (mc2 & found & -> & H2 & Hp2 & Hf).
  cbn [mbind option_bind]. destruct found; cbn [negb].
  - specialize (Hf eq_refl). destruct (index_lt (mline mc2) (mpos mc2) Hf) as [r ->]. cbn [mbind option_bind].
    destruct (scanEnd_total (isClass classify (classify r)) (mline mc2) (mpos mc2) Hf) as (q & -> & Hq).
    cbn [mbind option_bind]. eexists. split; [done|]. pose proof (ok_width _ (mc_ok _ _ H2)).
    pose proof (clamp_range q 0 (width (mcm mc2) - 1) ltac:(lia)). apply finish_good; [done|lia|].
    assert (Ew : width (mcm mc2) = width cm) by (by rewrite (mc_only _ _ H2)). rewrite Ew in *. left. lia.
  - eexists. split; [done|]. destruct sticky; [|by apply fail_good]. pose proof (ok_width cm H).
    apply restoreWord_good; [done|done|lia|]. destruct (Z.leb_spec (lenZ (mline mc2)) 0); [left; lia|].
    apply (onText_column _ mc2); [done|lia].
Qed.
Lemma runWordMotion_total `{Unicode} key : total (runWordMotion key).
Proof.
  intros cm H0. unfold runWordMotion.
  repeat match goal with |- context [if ?b then _ else _] => destruct b end;
    first [by apply nextWordStart_total|by apply previousWordStart_total|by apply nextWordEnd_total|idtac].
  eauto using good_none.
Qed.

(** ** Jumps *)

Lemma OK_scrollToAbsolute cm y x : CopyOK cm -> CopyOK (scrollToAbsolute y x cm).
Proof.
  intros H. pose proof (ok_width cm H). pose proof (ok_height cm H). pose proof (maxOY_nonneg cm H).
  unfold scrollToAbsolute. apply OK_setCx; [|apply clamp_range; cbn; lia].
  apply OK_setCy; [|by apply (clamp_lt _ (height cm))].
  apply OK_setOy; [done|]. by apply clamp_range.
Qed.
Lemma frame_scrollToAbsolute cm y x : CopyOK cm -> sameFrame cm (scrollToAbsolute y x cm).
Proof.
  intros H. pose proof (ok_width cm H). apply frame_cursor; try done. intros _. left.
  pose proof (clamp_range x 0 (width cm - 1) ltac:(lia)). cbn. lia.
Qed.
(** The jump lands on its line, or on the last one where that is gone. *)
Lemma scrollToAbsolute_lands cm y x : CopyOK cm -> 0 <= y ->
  cursorAbsLine (scrollToAbsolute y x cm) = Z.min y (TotalLines cm - 1) /\
  cx (cursor (scrollToAbsolute y x cm)) = clamp x 0 (width cm - 1).
Proof.
  intros H Hy. split; [|done]. destruct H. rewrite cursorAbsLine_eq. unfold scrollToAbsolute.
  unfold setCx, setCy, setOy, FirstVisibleLine, TotalLines, maxOY, clamp in *. cbn in *. lia.
Qed.
#[export] Hint Resolve OK_scrollToAbsolute frame_scrollToAbsolute : copyok.

Lemma gotoParagraph_good cm o y : CopyOK cm -> good cm (gotoParagraph o y cm).
Proof.
  intros. unfold gotoParagraph. destruct (y =? o); [by apply good_none|].
  apply good_updateSelection; auto with copyok.
Qed.
Lemma previousParagraph_total : total previousParagraph.
Proof.
  intros cm H. pose proof (cursorAbsLine_range cm H). unfold previousParagraph.
  destruct (linesUp_total (blankLine cm) (cursorAbsLine cm)) as (y1 & -> & ?); [lia|]. cbn [mbind option_bind].
  destruct (linesUp_total (fun y => negb (blankLine cm y)) y1) as (y2 & -> & ?); [lia|]. cbn [mbind option_bind].
  eexists. split; [done|]. by apply gotoParagraph_good.
Qed.
Lemma nextParagraph_total : total nextParagraph.
Proof.
  intros cm H. pose proof (cursorAbsLine_range cm H). unfold nextParagraph.
  destruct (linesDown_total (blankLine cm) (TotalLines cm - 1) (cursorAbsLine cm)) as (y1 & -> & ?); [lia|]. cbn [mbind option_bind].
  destruct (linesDown_total (fun y => negb (blankLine cm y)) (TotalLines cm - 1) y1) as (y2 & -> & ?); [lia|]. cbn [mbind option_bind].
  eexists. split; [done|]. by apply gotoParagraph_good.
Qed.

Lemma findBracketCandidate_total cm : CopyOK cm -> exists c, findBracketCandidate cm = Some c.
Proof.
  intros H. pose proof (ok_cx cm H). unfold findBracketCandidate. set (line := lineRunes cm (cursorAbsLine cm)).
  destruct (Z.ltb_spec (cx (cursor cm)) (lenZ line)); [|eexists; reflexivity].
  destruct (index_lt line (cx (cursor cm))) as [r ->]; [lia|]. cbn [mbind option_bind]. by eexists.
Qed.
Lemma matchingBracket_total : total matchingBracket.
Proof.
  intros cm H. unfold matchingBracket. destruct (findBracketCandidate_total cm H) as [[[[y x] r]|] ->]; cbn [mbind option_bind];
    [|eauto using good_none].
  destruct (find _ _) as [[o c]|]; [|eauto using good_none].
  destruct (if r =? o then _ else _) as [[my mx]|]; [|eauto using good_none].
  eexists. split; [done|]. apply good_updateSelection; auto with copyok.
Qed.
Lemma jumpToMark_good cm : CopyOK cm -> good cm (jumpToMark cm).
Proof.
  intros H. unfold jumpToMark. destruct (negb (markSet (mark cm))); [by apply good_none|].
  apply good_updateSelection; [|etrans; [by apply frame_scrollToAbsolute|by apply frame_same]|done].
  pose proof (cursorAbsLine_range cm H). pose proof (ok_cx cm H). apply OK_mark; [by apply OK_scrollToAbsolute|lia|lia].
Qed.
