(* ===== verification/CopySearch.v ===== *)
(** * Copy mode: the search and matching brackets

    The hits of a search are the leftmost occurrences without overlaps of
    every line, in order, and none is missed; the search ends on the hit next
    to the cursor in its direction.  The bracket that matches another one. *)

From S2P Require Import Prelude GoText GoCodec GoWire GoRunes CopyMode CopyMotion CopyFacts.

(** [query] at column [c] of [line]. *)
Definition occurs (query line : list Z) (c : Z) : Prop :=
  0 <= c /\ take (length query) (drop (Z.to_nat c) line) = query.

Lemma occurs_bound query line c : query <> [] -> occurs query line c -> c + lenZ query <= lenZ line.
Proof.
  intros Hq [Hc Ht]. apply (f_equal length) in Ht. rewrite length_take, length_drop in Ht.
  destruct query as [|q query]; [done|]. unfold lenZ in *. cbn [length] in *. lia.
Qed.

Lemma runeSliceHasPrefix_spec query line : (length query <= length line)%nat ->
  runeSliceHasPrefix line query = Some (bool_decide (take (length query) line = query)).
Proof.
  revert line. induction query as [|q query IH]; intros [|r line] Hl; try done; [simpl in Hl; lia|].
  cbn [runeSliceHasPrefix length take]. destruct (Z.eqb_spec r q) as [->|Hn].
  - rewrite IH by (simpl in Hl; lia). f_equal. apply bool_decide_ext. split; [by intros ->|congruence].
  - f_equal. symmetry. apply bool_decide_eq_false. congruence.
Qed.

(** The hits of one line, up to column [idx]. *)
Record hitsUpTo (query line : list Z) (i idx : Z) (acc : list Match) : Prop := mkHits {
  h_sound : Forall (fun m => LineIdx m = i /\ Len m = lenZ query /\ occurs query line (Col m)) acc;
  h_sorted : StronglySorted (fun m m' => Col m + Len m <= Col m') acc;
  h_end : Forall (fun m => Col m + Len m <= idx) acc;
  h_complete : forall c, occurs query line c -> c < idx -> exists m, m ∈ acc /\ Col m <= c < Col m + Len m;
}.

Lemma StronglySorted_snoc {A} (R : A -> A -> Prop) l x :
  StronglySorted R l -> Forall (fun y => R y x) l -> StronglySorted R (l ++ [x]).
Proof.
  induction 1 as [|y l Hl IH Hy]; intros Hx; simpl; [by repeat constructor|].
  inversion Hx; subst. constructor; [by apply IH|]. apply Forall_app. split; [done|]. by constructor.
Qed.

Lemma hits_miss query line i idx acc : hitsUpTo query line i idx acc -> ~ occurs query line idx -> hitsUpTo query line i (idx + 1) acc.
Proof.
  intros [H1 H2 H3 H4] Hn. split; [done|done| |].
  - eapply Forall_impl; [exact H3|]. cbn. lia.
  - intros c Hc Hlt. apply H4; [done|]. destruct (decide (c = idx)) as [->|]; [done|lia].
Qed.
Lemma hits_hit query line i idx acc : query <> [] -> hitsUpTo query line i idx acc -> occurs query line idx ->
  hitsUpTo query line i (idx + lenZ query) (acc ++ [mkMatch i idx (lenZ query)]).
Proof.
  intros Hq [H1 H2 H3 H4] Ho. pose proof (lenZ_pos query Hq). split.
  - apply Forall_app. split; [done|]. by constructor.
  - apply StronglySorted_snoc; [done|]. exact H3.
  - apply Forall_app. split; [eapply Forall_impl; [exact H3|]; cbn; lia|]. constructor; [cbn; lia|done].
  - intros c Hc Hlt. destruct (decide (c < idx)) as [Hb|Hb].
    + destruct (H4 c Hc Hb) as (m & Hm & ?). exists m. split; [apply elem_of_app; by left|done].
    + exists (mkMatch i idx (lenZ query)). split; [apply elem_of_app; right; by apply list_elem_of_singleton|]. cbn. lia.
Qed.

Lemma lineMatches_spec query line i : query <> [] ->
  exists ms, lineMatches query line i = Some ms /\ hitsUpTo query line i (lenZ line) ms.
Proof.
  intros Hq. pose proof (lenZ_pos query Hq) as Hp. unfold lineMatches.
  apply (loop_total (fun '(idx, acc) => 0 <= idx <= lenZ line /\ hitsUpTo query line i idx acc) (fun '(idx, _) => lenZ line - idx)).
  - intros [idx acc] [Hi Hh]. destruct (Z.leb_spec (idx + lenZ query) (lenZ line)) as [Hle|Hgt].
    + rewrite runeSliceHasPrefix_spec by (rewrite length_drop; unfold lenZ in *; lia). cbn [mbind option_bind].
      eexists. split; [done|]. case_bool_decide as Ht; cbn [negb].
      * replace (idx + (lenZ query - 1) + 1) with (idx + lenZ query) by lia.
        split; [split; [lia|]|lia]. apply hits_hit; [done|done|split; [lia|done]].
      * split; [split; [lia|]|lia]. apply hits_miss; [done|]. by intros [_ ?].
    + eexists. split; [done|]. cbn. destruct Hh as [H1 H2 H3 H4]. split; [done|done| |].
      * eapply Forall_impl; [exact H3|]. cbn. lia.
      * intros c Hc Hlt. apply H4; [done|]. pose proof (occurs_bound _ _ _ Hq Hc). lia.
  - split; [pose proof (lenZ_nonneg line); lia|]. split; try by constructor. intros c [Hc _]. lia.
  - unfold lenZ. lia.
Qed.

(** The order of the hits of the whole buffer. *)
Definition before (m m' : Match) : Prop := LineIdx m < LineIdx m' \/ (LineIdx m = LineIdx m' /\ Col m + Len m <= Col m').

(** The hits of the lines [from, to). *)
Record hitsBetween (query : list Z) (lineOf : Z -> list Z) (from to : Z) (ms : list Match) : Prop := mkAllHits {
  a_sound : Forall (fun m => from <= LineIdx m < to /\ Len m = lenZ query /\ occurs query (lineOf (LineIdx m)) (Col m)) ms;
  a_sorted : StronglySorted before ms;
  a_complete : forall i c, from <= i < to -> occurs query (lineOf i) c ->
    exists m, m ∈ ms /\ LineIdx m = i /\ Col m <= c < Col m + Len m;
}.

Lemma StronglySorted_app_2 {A} (R : A -> A -> Prop) l1 l2 :
  StronglySorted R l1 -> StronglySorted R l2 -> Forall (fun x => Forall (R x) l2) l1 -> StronglySorted R (l1 ++ l2).
Proof.
  induction 1 as [|x l1 Hl IH Hx]; intros H2 H; simpl; [done|]. inversion H; subst.
  constructor; [by apply IH|]. by apply Forall_app.
Qed.
Lemma StronglySorted_weaken {A} (P : A -> Prop) (R R' : A -> A -> Prop) l :
  (forall x y, P x -> P y -> R x y -> R' x y) -> Forall P l -> StronglySorted R l -> StronglySorted R' l.
Proof.
  intros HR HP H. induction H as [|x l Hl IH Hx]; [constructor|]. inversion HP; subst. constructor; [by apply IH|].
  rewrite Forall_forall in *. auto.
Qed.

Lemma searchLines_spec query lineOf n from : query <> [] ->
  exists found, mapM (fun i => lineMatches query (lineOf i) i) (seqZ from (Z.of_nat n)) = Some found /\
    hitsBetween query lineOf from (from + Z.of_nat n) (concat found).
Proof.
  intros Hq. revert from. induction n as [|n IH]; intros from.
  - exists []. split; [done|]. split; [constructor|constructor|]. intros i c Hi. lia.
  - rewrite seqZ_cons by lia. replace (Z.pred (Z.of_nat (S n))) with (Z.of_nat n) by lia.
    destruct (lineMatches_spec query (lineOf from) from Hq) as (ms & Hms & [S1 S2 S3 S4]).
    destruct (IH (Z.succ from)) as (found & Hf & [A1 A2 A3]).
    exists (ms :: found). cbn [mapM]. rewrite Hms. cbn [mbind option_bind]. rewrite Hf. split; [done|]. cbn [concat]. split.
    + apply Forall_app. split.
      * eapply Forall_impl; [exact S1|]. intros m (E & ? & ?). rewrite E. split; [lia|done].
      * eapply Forall_impl; [exact A1|]. intros m (? & ?). split; [lia|done].
    + apply StronglySorted_app_2; [|done|].
      * eapply StronglySorted_weaken; [|exact S1|exact S2]. intros x y [E _] [E' _] ?. right. lia.
      * rewrite Forall_forall in *. intros m Hm. destruct (S1 m Hm) as [E _]. rewrite Forall_forall. intros m' Hm'.
        destruct (A1 m' Hm') as [? _]. left. lia.
    + intros i c Hi Ho. destruct (decide (i = from)) as [->|Hne].
      * destruct (S4 c Ho) as (m & Hm & Hc); [pose proof (occurs_bound _ _ _ Hq Ho); pose proof (lenZ_pos query Hq); lia|].
        exists m. rewrite elem_of_app. rewrite Forall_forall in S1. destruct (S1 m Hm). auto.
      * destruct (A3 i c ltac:(lia) Ho) as (m & Hm & ?). exists m. rewrite elem_of_app. auto.
Qed.

(** ** The hit that is picked *)

Lemma firstIdx_spec {A} (p : A -> bool) l i :
  match firstIdx p l i with
  | Some j => i <= j < i + lenZ l /\ (exists x, l !! Z.to_nat (j - i) = Some x /\ p x = true) /\
              Forall (fun x => p x = false) (take (Z.to_nat (j - i)) l)
  | None => Forall (fun x => p x = false) l
  end.
Proof.
  revert i. induction l as [|x l IH]; intros i; cbn [firstIdx]; [constructor|]. rewrite lenZ_cons. pose proof (lenZ_nonneg l).
  destruct (p x) eqn:E.
  - rewrite Z.sub_diag. split; [lia|]. split; [by exists x|constructor].
  - specialize (IH (i + 1)). destruct (firstIdx p l (i + 1)) as [j|]; [|by constructor].
    destruct IH as (? & (y & Hy & Hpy) & Hf). replace (Z.to_nat (j - i)) with (S (Z.to_nat (j - (i + 1)))) by lia.
    split; [lia|]. split; [by exists y|]. by constructor.
Qed.

(** Forward: the first hit at or after the place, or the first of all. *)
Definition pickedForward (y x : Z) (ms : list Match) (k : Z) : Prop :=
  0 <= k < lenZ ms /\
  ((exists m, ms !! Z.to_nat k = Some m /\ atOrAfter y x m = true /\ Forall (fun m => atOrAfter y x m = false) (take (Z.to_nat k) ms)) \/
   (k = 0 /\ Forall (fun m => atOrAfter y x m = false) ms)).
(** Backward: the last hit at or before the place, or the last of all. *)
Definition pickedBackward (y x : Z) (ms : list Match) (k : Z) : Prop :=
  0 <= k < lenZ ms /\
  ((exists m, ms !! Z.to_nat k = Some m /\ atOrBefore y x m = true /\ Forall (fun m => atOrBefore y x m = false) (drop (S (Z.to_nat k)) ms)) \/
   (k = lenZ ms - 1 /\ Forall (fun m => atOrBefore y x m = false) ms)).
Definition picked (forward : bool) (y x : Z) (ms : list Match) (k : Z) : Prop :=
  if forward then pickedForward y x ms k else pickedBackward y x ms k.

Lemma pickMatch_spec forward y x ms : ms <> [] -> picked forward y x ms (pickMatch forward y x ms).
Proof.
  intros Hne. pose proof (lenZ_pos ms Hne). unfold picked, pickMatch. destruct forward.
  - pose proof (firstIdx_spec (atOrAfter y x) ms 0) as Hs. destruct (firstIdx _ ms 0) as [j|]; cbn [default from_option id].
    + rewrite Z.sub_0_r in Hs. destruct Hs as (? & (m & ? & ?) & ?). split; [lia|]. left. by exists m.
    + split; [lia|]. by right.
  - pose proof (firstIdx_spec (atOrBefore y x) (reverse ms) 0) as Hs.
    assert (Hlen : lenZ (reverse ms) = lenZ ms) by (unfold lenZ; by rewrite length_reverse).
    destruct (firstIdx _ (reverse ms) 0) as [j|]; cbn [default from_option id].
    + rewrite Z.sub_0_r in Hs. destruct Hs as (Hj & (m & Hm & Hp) & Hf). split; [lia|]. left.
      assert (Hk : (Z.to_nat j < length ms)%nat) by (unfold lenZ in *; lia).
      replace (Z.to_nat (lenZ ms - 1 - j)) with (length ms - S (Z.to_nat j))%nat by (unfold lenZ in *; lia).
      exists m. rewrite <- reverse_lookup by done. split; [done|]. split; [done|].
      rewrite take_reverse, Forall_reverse in Hf.
      replace (S (length ms - S (Z.to_nat j))) with (length ms - Z.to_nat j)%nat by lia. done.
    + rewrite Forall_reverse in Hs. split; [lia|]. right. split; [lia|done].
Qed.

(** ** Going to a hit *)

Definition currentMatch (cm : CopyMode) : option Match := index (matches (search cm)) (matchIdx (search cm)).
(** The cursor is on the current hit. *)
Definition onMatch (cm : CopyMode) : Prop :=
  exists m, currentMatch cm = Some m /\ cursorAbsLine cm = LineIdx m /\ cx (cursor cm) = Col m.

Lemma scrollToMatch_spec cm : CopyOK cm ->
  exists cm', scrollToMatch cm = Some cm' /\ CopyOK cm' /\ sameFrame cm cm' /\ search cm' = search cm /\ sel cm' = sel cm /\
    match currentMatch cm with
    | Some m => cursorAbsLine cm' = Z.min (LineIdx m) (TotalLines cm - 1) /\ cx (cursor cm') = Col m
    | None => cm' = cm
    end.
Proof.
  intros H. pose proof H as [He Hw Hh Hcx Hcy Hoy Hm Hi _ _ _ _ _ _]. unfold scrollToMatch, currentMatch.
  set (s := search cm) in *.
  destruct ((matchIdx s <? 0) || (lenZ (matches s) <=? matchIdx s)) eqn:E.
  - exists cm. rewrite (proj2 (index_None _ _)); [done|]. apply orb_true_iff in E. rewrite Z.ltb_lt, Z.leb_le in E. lia.
  - apply orb_false_iff in E. rewrite Z.ltb_ge, Z.leb_gt in E. destruct (index_lt (matches s) (matchIdx s)) as [m Hidx]; [lia|].
    rewrite Hidx. cbn [mbind option_bind]. eexists. split; [done|].
    pose proof Hidx as Hidx0.
    apply index_Some in Hidx as [_ Hidx]. eapply Forall_lookup_1 in Hidx; [|exact Hm]. destruct Hidx as (Hl & Hc & _).
    assert (Hctr : 0 <= Z.quot (height cm) 2 <= height cm - 1).
    { rewrite Z.quot_div_nonneg by lia. split; [apply Z.div_pos; lia|]. pose proof (Z.div_lt (height cm) 2 ltac:(lia) ltac:(lia)). lia. }
    set (o := clamp _ 0 (maxOY cm)). assert (Ho : 0 <= o <= maxOY cm) by (apply clamp_range; lia).
    split; [|split; [|split; [done|split; [done|]]]].
    + apply OK_setCx; [|done]. apply OK_setCy; [by apply OK_setOy|]. by apply (clamp_lt _ (height cm)).
    + apply index_Some in Hidx0 as [_ Hidx0]. split; try done. intros [_ Hms]. split; [|exact Hms]. right.
      exact (Forall_lookup_1 _ _ _ _ Hms Hidx0).
    + split; [|done]. rewrite cursorAbsLine_eq. unfold o in *. unfold setCx, setCy, setOy, TotalLines, maxOY, clamp in *. cbn in *. lia.
Qed.

Lemma OK_matchesOf query lineOf to ms : query <> [] -> hitsBetween query lineOf 0 to ms -> Forall matchOK ms.
Proof.
  intros Hq [H _ _]. eapply Forall_impl; [exact H|]. intros m (? & E & [? _]). pose proof (lenZ_pos query Hq).
  unfold matchOK. rewrite E. lia.
Qed.

Section Search.
Context {U : Unicode}.

Lemma lowerRunes_nonempty s : s <> [] -> lowerRunes s <> [].
Proof.
  intros Hs E. apply (f_equal length) in E. unfold lowerRunes, toRunes, runes in E. rewrite !length_map in E.
  destruct s as [|b s]; [done|]. done.
Qed.

Lemma lenZ_lowerRunes cm i : lenZ (lowerRunes (lineText cm i)) = lenZ (lineRunes cm i).
Proof. unfold lowerRunes, lineRunes, lenZ. by rewrite length_map. Qed.
Lemma hits_columns cm query to ms : query <> [] ->
  hitsBetween query (fun i => lowerRunes (lineText cm i)) 0 to ms -> Forall (fun m => onCharacter cm (Col m)) ms.
Proof.
  intros Hq [H _ _]. eapply Forall_impl; [exact H|]. intros m (_ & _ & Ho). apply occurs_bound in Ho; [|done].
  rewrite lenZ_lowerRunes in Ho. pose proof (lenZ_pos query Hq). exists (LineIdx m). lia.
Qed.
(** The state of a search with its hits, before the cursor moves. *)
Lemma frame_hits cm ms k q forward : Forall (fun m => onCharacter cm (Col m)) ms ->
  sameFrame cm (withMatches ms k (setQuery q forward (withMatches [] (-1) cm))).
Proof. intros Hms. split; try done. intros [Hx _]. split; [exact Hx|exact Hms]. Qed.

(** Every search ends: with the hits of all lines, on the one picked from the
    place of the cursor. *)
Lemma runSearch_spec forward cm : CopyOK cm -> searchQuery (search cm) <> [] ->
  exists cm', runSearch forward cm = Some cm' /\ CopyOK cm' /\ sameFrame cm cm' /\ sel cm' = sel cm /\
    searchQuery (search cm') = searchQuery (search cm) /\
    hitsBetween (lowerRunes (searchQuery (search cm))) (fun i => lowerRunes (lineText cm i)) 0 (TotalLines cm) (matches (search cm')) /\
    (matches (search cm') = [] -> cursor cm' = cursor cm) /\
    (matches (search cm') <> [] -> lastSearchForward (search cm') = forward /\ onMatch cm' /\
       picked forward (cursorAbsLine cm) (cx (cursor cm)) (matches (search cm')) (matchIdx (search cm'))).
Proof.
  intros Hok Hq. unfold runSearch. cbn [withMatches search withSearch searchQuery].
  destruct (searchQuery (search cm)) as [|b q] eqn:Eq; [done|]. set (query := b :: q) in *.
  assert (Hqr : lowerRunes query <> []) by (by apply lowerRunes_nonempty).
  destruct (searchLines_spec (lowerRunes query) (fun i => lowerRunes (lineText cm i)) (Z.to_nat (TotalLines cm)) 0 Hqr)
    as (found & Hf & Hh).
  assert (Htot : 0 <= TotalLines cm) by (pose proof (cursorAbsLine_range cm Hok); lia). rewrite Z2Nat.id in Hf, Hh by done.
  change (TotalLines (withMatches [] (-1) cm)) with (TotalLines cm).
  change (fun i => lineMatches (lowerRunes query) (lowerRunes (lineText (withMatches [] (-1) cm) i)) i)
    with (fun i => lineMatches (lowerRunes query) (lowerRunes (lineText cm i)) i).
  rewrite Hf. cbn [mbind option_bind]. clear Hf. revert Hh. generalize (concat found) as ms. clear found. intros ms Hh.
  destruct ms as [|m ms0] eqn:Ems.
  - eexists. split; [done|]. split; [apply OK_withMatches; [done|constructor|by left]|].
    split; [split; try done; intros [? _]; by split|]. repeat split; try done; apply Hh.
  - rewrite <- Ems in *. assert (Hne : ms <> []) by (by subst).
    pose proof (pickMatch_spec forward (cursorAbsLine cm) (cx (cursor cm)) ms Hne) as Hp.
    assert (Hr : 0 <= pickMatch forward (cursorAbsLine cm) (cx (cursor cm)) ms < lenZ ms) by (unfold picked, pickedForward, pickedBackward in Hp; destruct forward; tauto).
    set (k := pickMatch _ _ _ _) in *.
    set (cm1 := withMatches ms k (setQuery query forward (withMatches [] (-1) cm))).
    assert (H1 : CopyOK cm1).
    { apply OK_withMatches; [|by eapply OK_matchesOf|by right]. apply OK_query, OK_withMatches; [done|constructor|by left]. }
    destruct (scrollToMatch_spec cm1 H1) as (cm2 & E2 & Hok2 & Hfr & Hs & Hsel & Hland).
    exists cm2. split; [exact E2|]. split; [done|]. split; [etrans; [|exact Hfr]; by eapply frame_hits, hits_columns|]. split; [rewrite Hsel; done|].
    rewrite Hs. split; [done|]. split; [exact Hh|]. split; [done|]. intros _. split; [done|]. split; [|exact Hp].
    unfold onMatch, currentMatch in *. rewrite Hs. destruct (index_lt ms k Hr) as [mk Hmk].
    change (matches (search cm1)) with ms in *. change (matchIdx (search cm1)) with k in *. rewrite Hmk in Hland |- *.
    exists mk. split; [done|]. destruct Hland as [-> ->]. split; [|done].
    apply index_Some in Hmk as [_ Hmk]. destruct Hh as [Hh _ _]. eapply Forall_lookup_1 in Hmk; [|exact Hh].
    destruct Hmk as [Hmk _]. change (TotalLines cm1) with (TotalLines cm). lia.
Qed.
End Search.

(** ** Copy mode: matching brackets

    The buffer as one sequence of places: the search for a bracket scans what
    follows a place, or what precedes it in reverse, and so the bracket found
    from a bracket finds it back. *)

(** ** Scanning with a depth *)

Section Depth.
Context (up down : Z) (Hud : up <> down).

Definition weight (p : place) : Z := if snd p =? down then 1 else if snd p =? up then -1 else 0.
Definition net (l : list place) : Z := sumZ (map weight l).
Lemma net_app l1 l2 : net (l1 ++ l2) = net l1 + net l2.
Proof. unfold net. by rewrite map_app, sumZ_app. Qed.
Lemma net_cons p l : net (p :: l) = weight p + net l.
Proof. unfold net. by rewrite map_cons, sumZ_cons. Qed.
Lemma net_rev l : net (rev l) = net l.
Proof. induction l as [|p l IH]; [done|]. cbn [rev]. rewrite net_app, !net_cons, IH. change (net []) with 0. lia. Qed.

(** One step of the scan: the depth falls by the weight. *)
Lemma scanDepth_cons d y x r l :
  scanDepth up down d ((y, x, r) :: l) =
  if (r =? down) && (d =? 1) then Some (y, x) else scanDepth up down (d - weight (y, x, r)) l.
Proof.
  cbn [scanDepth]. unfold weight. cbn [snd]. destruct (Z.eqb_spec r up) as [->|Hu].
  - destruct (Z.eqb_spec up down); [done|]. cbn [andb]. f_equal; lia.
  - destruct (Z.eqb_spec r down); cbn [andb]; [|f_equal; lia].
    destruct (Z.eqb_spec (d - 1) 0), (Z.eqb_spec d 1); try lia; done.
Qed.

(** What is scanned without reaching depth 0 only lowers the depth. *)
Lemma scanDepth_skip d l rest : (forall k, net (take k l) < d) ->
  scanDepth up down d (l ++ rest) = scanDepth up down (d - net l) rest.
Proof.
  revert d. induction l as [|[[y x] r] l IH]; intros d Hk.
  - cbn [app]. f_equal. change (net []) with 0. lia.
  - cbn [app]. rewrite scanDepth_cons, net_cons. pose proof (Hk 1%nat) as H1. cbn [take] in H1. rewrite net_cons in H1. change (net (take 0 l)) with 0 in H1.
    destruct (Z.eqb_spec r down) as [->|]; cbn [andb].
    + assert (weight (y, x, down) = 1) as Hw by (unfold weight; cbn; by rewrite Z.eqb_refl). rewrite Hw in *.
      destruct (Z.eqb_spec d 1); [lia|]. rewrite IH; [f_equal; lia|].
      intros k. pose proof (Hk (S k)) as H2. cbn [take] in H2. rewrite net_cons, Hw in H2. lia.
    + rewrite IH; [f_equal; lia|]. intros k. pose proof (Hk (S k)) as H2. cbn [take] in H2. rewrite net_cons in H2. lia.
Qed.
(** The place found closes what was scanned before it. *)
Lemma scanDepth_found d l y x : 1 <= d -> scanDepth up down d l = Some (y, x) ->
  exists mid post, l = mid ++ (y, x, down) :: post /\ net mid = d - 1 /\ (forall k, net (take k mid) < d).
Proof.
  revert d. induction l as [|[[y1 x1] r] l IH]; intros d Hd Hs; [done|]. rewrite scanDepth_cons in Hs.
  destruct ((r =? down) && (d =? 1)) eqn:E.
  - apply andb_true_iff in E as [->%Z.eqb_eq ->%Z.eqb_eq]. injection Hs as -> ->. exists [], l. split; [done|]. split; [done|].
    intros k. rewrite take_nil. change (net []) with 0. lia.
  - assert (Hw : 1 <= d - weight (y1, x1, r)).
    { unfold weight. cbn [snd]. destruct (r =? down); [|destruct (r =? up); lia].
      cbn [andb] in E. apply Z.eqb_neq in E. lia. }
    destruct (IH _ Hw Hs) as (mid & post & -> & Hn & Hk). exists ((y1, x1, r) :: mid), post.
    split; [done|]. rewrite net_cons. split; [lia|].
    intros [|k]; cbn [take]; [change (net []) with 0; lia|]. rewrite net_cons. specialize (Hk k). lia.
Qed.
End Depth.

Lemma net_swap up down l : up <> down -> net down up l = - net up down l.
Proof.
  intros Hn. unfold net. induction l as [|p l IH]; [done|]. cbn [map]. rewrite !sumZ_cons, IH. unfold weight.
  destruct (Z.eqb_spec (snd p) down), (Z.eqb_spec (snd p) up); lia.
Qed.

(** From the place found, the scan back over what lies between finds the
    bracket that opened it. *)
Lemma scanDepth_back up down mid y x rest : up <> down -> net up down mid = 0 -> (forall k, net up down (take k mid) < 1) ->
  scanDepth down up 1 (rev mid ++ (y, x, up) :: rest) = Some (y, x).
Proof.
  intros Hn Hm Hk. rewrite (scanDepth_skip down up (not_eq_sym Hn)).
  - rewrite (scanDepth_cons down up (not_eq_sym Hn)), Z.eqb_refl. rewrite net_rev, net_swap, Hm by done. done.
  - intros k. rewrite net_swap by done. change (take k (rev mid)) with (firstn k (rev mid)).
    rewrite firstn_rev, net_rev. specialize (Hk (length mid - k)%nat).
    pose proof (net_app up down (take (length mid - k) mid) (drop (length mid - k) mid)) as E. rewrite take_drop in E.
    change (skipn (length mid - k) mid) with (drop (length mid - k) mid). lia.
Qed.

(** ** The buffer as one sequence *)

Lemma places_app yy k l1 l2 : places yy k (l1 ++ l2) = places yy k l1 ++ places yy (k + lenZ l1) l2.
Proof.
  revert k. induction l1 as [|r l1 IH]; intros k; cbn [app places].
  - f_equal. rewrite lenZ_nil. lia.
  - f_equal. rewrite IH, lenZ_cons. do 2 f_equal. lia.
Qed.
Lemma places_split yy k line s1 y x r s2 : places yy k line = s1 ++ (y, x, r) :: s2 ->
  y = yy /\ exists l1 l2, line = l1 ++ r :: l2 /\ x = k + lenZ l1 /\ s1 = places yy k l1 /\ s2 = places yy (x + 1) l2.
Proof.
  revert k s1. induction line as [|r0 line IH]; intros k s1 E; cbn [places] in E; [by destruct s1|].
  destruct s1 as [|p s1]; cbn [app] in E.
  - injection E as <- <- <- <-. split; [done|]. exists [], line. rewrite lenZ_nil, Z.add_0_r. done.
  - injection E as <- E. destruct (IH _ _ E) as (-> & l1 & l2 & -> & -> & -> & ->). split; [done|].
    exists (r0 :: l1), l2. rewrite lenZ_cons. split; [done|]. split; [lia|]. done.
Qed.
Lemma bind_split {A B} (f : A -> list B) l pre p post : l ≫= f = pre ++ p :: post ->
  exists l1 a l2 s1 s2, l = l1 ++ a :: l2 /\ f a = s1 ++ p :: s2 /\ pre = (l1 ≫= f) ++ s1 /\ post = s2 ++ (l2 ≫= f).
Proof.
  revert pre. induction l as [|a l IH]; intros pre E; [by destruct pre|].
  rewrite bind_cons in E. apply app_eq_inv in E as [(k & E1 & E2)|(k & E1 & E2)].
  - destruct k as [|q k].
    + rewrite app_nil_r in E1. destruct (IH [] (eq_sym E2)) as (l1 & a1 & l2 & s1 & s2 & -> & ? & Hp & ->).
      exists (a :: l1), a1, l2, s1, s2. rewrite bind_cons, E1, <- app_assoc, <- Hp, app_nil_r. done.
    + injection E2 as <- ->. exists [], a, l, pre, k. done.
  - destruct (IH k E2) as (l1 & a1 & l2 & s1 & s2 & -> & ? & -> & ->).
    exists (a :: l1), a1, l2, s1, s2. rewrite bind_cons, E1, app_assoc. done.
Qed.

Lemma bind_ext_in {A B} (f g : A -> list B) l : Forall (fun a => f a = g a) l -> l ≫= f = l ≫= g.
Proof. induction 1 as [|a l Ha Hl IH]; [done|]. by rewrite !bind_cons, Ha, IH. Qed.
Lemma rev_bind {A B} (f : A -> list B) l : rev (l ≫= f) = rev l ≫= fun a => rev (f a).
Proof.
  induction l as [|a l IH]; [done|]. rewrite bind_cons, rev_app_distr, IH. cbn [rev]. rewrite bind_app, bind_singleton. done.
Qed.
Lemma seqZ_split n l1 a l2 : 0 <= n -> seqZ 0 n = l1 ++ a :: l2 -> 0 <= a < n /\ l1 = seqZ 0 a /\ l2 = seqZ (a + 1) (n - a - 1).
Proof.
  intros Hn E. assert (Ha : a = lenZ l1 /\ lenZ l1 < n).
  { assert (Hl : seqZ 0 n !! length l1 = Some a) by (rewrite E; by apply list_lookup_middle).
    apply lookup_seqZ in Hl as [-> ?]. unfold lenZ. lia. }
  destruct Ha as [Ha Hlt]. pose proof (lenZ_nonneg l1).
  replace n with (a + (1 + (n - a - 1))) in E at 1 by lia. rewrite seqZ_app, seqZ_app in E by lia.
  apply app_inj_1 in E as [<- E]; [|rewrite length_seqZ; unfold lenZ in *; lia].
  injection E as <-. split; [lia|]. split; [done|]. f_equal; lia.
Qed.

Definition lineMap (cm : CopyMode) (yy : Z) : list place := places yy 0 (lineRunes cm yy).
Definition allPlaces (cm : CopyMode) : list place := seqZ 0 (TotalLines cm) ≫= lineMap cm.
(** The rune [r] stands at line [y] and column [x] of the buffer. *)
Definition runeAt (cm : CopyMode) (y x r : Z) : Prop := 0 <= y < TotalLines cm /\ index (lineRunes cm y) x = Some r.

Lemma allPlaces_split cm y x r pre post : 0 <= TotalLines cm -> allPlaces cm = pre ++ (y, x, r) :: post ->
  runeAt cm y x r /\ placesFrom cm y (x + 1) = post /\ placesBack cm y x = rev pre.
Proof.
  intros Ht E. apply bind_split in E as (l1 & a & l2 & s1 & s2 & Hl & Ha & -> & ->).
  apply seqZ_split in Hl as (Hr & -> & ->); [|done].
  apply places_split in Ha as (-> & c1 & c2 & Hline & -> & -> & ->). rewrite Z.add_0_l.
  pose proof (lenZ_nonneg c1) as Hc1. pose proof (lenZ_nonneg c2) as Hc2.
  assert (Hn : Z.to_nat (lenZ c1 + 1) = length (c1 ++ [r])) by (rewrite length_app; unfold lenZ; cbn; lia).
  split; [split; [done|]|split].
  - apply index_Some. rewrite Hline, lenZ_app, lenZ_cons. split; [lia|].
    apply list_lookup_middle. unfold lenZ. lia.
  - assert (Es : seqZ a (TotalLines cm - a) = [a] ++ seqZ (a + 1) (TotalLines cm - a - 1)).
    { change [a] with (seqZ a 1). rewrite <- seqZ_app by lia. f_equal; lia. }
    unfold placesFrom. rewrite Es, bind_app, bind_singleton, Z.eqb_refl. f_equal.
    + rewrite Hline, Hn. replace (c1 ++ r :: c2) with ((c1 ++ [r]) ++ c2) by (by rewrite <- app_assoc). by rewrite drop_app_length.
    + apply bind_ext_in, Forall_forall. intros yy Hyy. apply elem_of_seqZ in Hyy.
      destruct (Z.eqb_spec yy a); [lia|]. done.
  - unfold placesBack. rewrite seqZ_app by lia. change (seqZ (0 + a) 1) with [0 + a]. rewrite Z.add_0_l.
    rewrite rev_app_distr. cbn [rev app]. rewrite bind_cons, Z.eqb_refl, rev_app_distr, rev_bind. f_equal.
    + rewrite Hline, lenZ_app, lenZ_cons.
      replace (Z.to_nat (Z.min (lenZ c1 - 1) (lenZ c1 + (1 + lenZ c2) - 1) + 1)) with (length c1) by (unfold lenZ in *; lia).
      by rewrite take_app_length.
    + apply bind_ext_in, Forall_forall. intros yy Hyy. apply list_elem_of_In, in_rev, list_elem_of_In, elem_of_seqZ in Hyy.
      destruct (Z.eqb_spec yy a); [lia|]. done.
Qed.
Lemma runeAt_split cm y x r : runeAt cm y x r -> exists pre post, allPlaces cm = pre ++ (y, x, r) :: post.
Proof.
  intros [Hy Hx]. apply index_Some in Hx as [Hx Hr]. unfold allPlaces.
  replace (TotalLines cm) with (y + (1 + (TotalLines cm - y - 1))) by lia. rewrite !seqZ_app by lia.
  change (seqZ (0 + y) 1) with [0 + y]. rewrite Z.add_0_l. rewrite !bind_app, bind_singleton. unfold lineMap at 2.
  rewrite <- (take_drop_middle _ _ _ Hr), places_app. cbn [places].
  assert (El : 0 + lenZ (take (Z.to_nat x) (lineRunes cm y)) = x) by (unfold lenZ in *; rewrite length_take; lia). rewrite El.
  rewrite <- app_assoc, app_assoc. cbn [app]. by eexists _, _.
Qed.

(** The bracket found from a bracket, in either direction, finds it back. *)
Lemma forward_back cm y x o c my mx : 0 <= TotalLines cm -> o <> c -> runeAt cm y x o ->
  findMatchingForward cm y x o c = Some (my, mx) ->
  runeAt cm my mx c /\ findMatchingBackward cm my mx o c = Some (y, x).
Proof.
  intros Ht Hoc (pre & post & Hall)%runeAt_split Hf. destruct (allPlaces_split _ _ _ _ _ _ Ht Hall) as (_ & Hpost & _).
  unfold findMatchingForward in Hf. rewrite Hpost in Hf. apply scanDepth_found in Hf as (mid & post' & E & Hn & Hk); [|done|done].
  assert (Hall' : allPlaces cm = (pre ++ (y, x, o) :: mid) ++ (my, mx, c) :: post') by (rewrite Hall, E, <- app_assoc; done).
  destruct (allPlaces_split _ _ _ _ _ _ Ht Hall') as (Hp & _ & Hback). split; [done|].
  unfold findMatchingBackward. rewrite Hback, rev_app_distr. cbn [rev]. rewrite <- app_assoc. cbn [app].
  by apply scanDepth_back.
Qed.
Lemma back_forward cm y x o c my mx : 0 <= TotalLines cm -> o <> c -> runeAt cm y x c ->
  findMatchingBackward cm y x o c = Some (my, mx) ->
  runeAt cm my mx o /\ findMatchingForward cm my mx o c = Some (y, x).
Proof.
  intros Ht Hoc (pre & post & Hall)%runeAt_split Hf. destruct (allPlaces_split _ _ _ _ _ _ Ht Hall) as (_ & _ & Hpre).
  unfold findMatchingBackward in Hf. rewrite Hpre in Hf. apply scanDepth_found in Hf as (mid & post' & E & Hn & Hk); [|done|done].
  apply (f_equal (@rev place)) in E. rewrite rev_involutive, rev_app_distr in E. cbn [rev] in E. rewrite <- app_assoc in E.
  assert (Hall' : allPlaces cm = rev post' ++ (my, mx, o) :: (rev mid ++ (y, x, c) :: post)) by (rewrite Hall, E, <- !app_assoc; done).
  destruct (allPlaces_split _ _ _ _ _ _ Ht Hall') as (Hp & Hfwd & _). split; [done|].
  unfold findMatchingForward. rewrite Hfwd. by apply scanDepth_back.
Qed.
