(* ===== verification/CopySteps.v ===== *)
(** * Copy mode: the keys

    The specification of the operations of the keys: searches along the line
    with the only panic of copy mode, scrolling, repetition, and from them the
    handling of a key, of a chunk of input and of all the input. *)

From S2P Require Import Prelude GoText GoCodec GoWire GoRunes CopyMode CopyMotion CopyInput CopyFacts CopySearch.

(** ** Characters of the line *)

(** F and T. *)
Definition backward (cmd : Z) : bool := isBigF cmd || isBigT cmd.
(** Where a search backward indexes beyond the line. *)
Definition pastLine (cm : CopyMode) : Prop := lenZ (cursorLineRunes cm) < cx (cursor cm).

Lemma findCharOnLine_panics cmd r cm : backward cmd = true -> pastLine cm -> findCharOnLine cmd r cm = None.
Proof.
  unfold backward, pastLine. intros Hb Hp. unfold findCharOnLine. pose proof (lenZ_nonneg (cursorLineRunes cm)).
  rewrite findLeft_panics by lia.
  unfold isF, isBigF, isT, isBigT in *. apply orb_true_iff in Hb as [Hb|Hb]; rewrite Hb; apply Z.eqb_eq in Hb as ->; reflexivity.
Qed.
Lemma findCharOnLine_total cmd r cm : CopyOK cm -> (backward cmd = true -> ~ pastLine cm) ->
  exists c, findCharOnLine cmd r cm = Some c /\ (forall x, c = Some x -> 0 <= x < lenZ (cursorLineRunes cm)).
Proof.
  unfold backward, pastLine. intros H Hb. pose proof (ok_cx cm H). unfold findCharOnLine. set (line := cursorLineRunes cm) in *.
  pose proof (lenZ_nonneg line).
  destruct (isF cmd); [destruct (findRight_total line r (cx (cursor cm) + 1)) as (q & Hq & Hr); [lia|]|].
  { exists q. split; [done|]. intros x Hx. apply Hr in Hx. lia. }
  destruct (isBigF cmd); [destruct (findLeft_total line r (cx (cursor cm) - 1)) as (q & Hq & Hr); [specialize (Hb eq_refl); lia|]|].
  { exists q. split; [done|]. intros x Hx. apply Hr in Hx. specialize (Hb eq_refl). lia. }
  destruct (isT cmd); [destruct (findRight_total line r (cx (cursor cm) + 1)) as (q & -> & Hr); [lia|]|].
  { cbn [mbind option_bind]. eexists. split; [done|]. destruct q as [i|]; [|done]. specialize (Hr i eq_refl).
    destruct (Z.ltb_spec (cx (cursor cm)) (i - 1)); [|done]. intros x [= <-]. lia. }
  destruct (isBigT cmd); [destruct (findLeft_total line r (cx (cursor cm) - 1)) as (q & -> & Hr); [specialize (Hb eq_refl); lia|]|by exists None].
  cbn [mbind option_bind]. eexists. split; [done|]. destruct q as [i|]; [|done]. specialize (Hr i eq_refl). specialize (Hb eq_refl).
  destruct (Z.ltb_spec (i + 1) (cx (cursor cm))); [|done]. intros x [= <-]. lia.
Qed.

Lemma charSteps_total n cmd t cm : CopyOK cm -> (backward cmd = true -> ~ pastLine cm) ->
  exists r, charSteps n cmd t cm = Some r /\ (forall cm', r = Some cm' -> CopyOK cm' /\ cm' = setCx (cx (cursor cm')) cm /\
    (~ pastLine cm -> ~ pastLine cm') /\ (n = O \/ ~ pastLine cm') /\
    (columnOK cm (cx (cursor cm)) -> columnOK cm (cx (cursor cm')))).
Proof.
  revert cm. induction n as [|n IH]; intros cm H Hb; cbn [charSteps].
  - eexists. split; [done|]. intros cm' [= <-]. split; [done|]. split; [by destruct cm as [???[]]|]. split; [done|]. by split; [left|].
  - destruct (findCharOnLine_total cmd t cm H Hb) as (c & -> & Hc). cbn [mbind option_bind].
    destruct c as [c|]; [|by exists None]. specialize (Hc c eq_refl).
    assert (H1 : ~ pastLine (setCx c cm)) by (unfold pastLine; change (cursorLineRunes (setCx c cm)) with (cursorLineRunes cm); cbn; lia).
    destruct (IH (setCx c cm)) as (r & -> & Hr); [apply OK_setCx; [done|lia]|done|].
    eexists. split; [done|]. intros cm' E. destruct (Hr cm' E) as (? & E' & Hn & _ & Hx). split; [done|]. split; [rewrite E'; by destruct cm|].
    split; [by auto|]. split; [by auto|]. intros _. apply Hx, (columnOK_line _ _ (cursorAbsLine cm)), Hc.
Qed.
Lemma charSteps_panics n cmd t cm : backward cmd = true -> pastLine cm -> charSteps (S n) cmd t cm = None.
Proof. intros. cbn [charSteps]. by rewrite findCharOnLine_panics. Qed.

(** The search along the line panics from beyond its end, and only then. *)
Lemma executeCharSearch_total cmd t n cm : CopyOK cm -> cmd ∈ charCommands -> (backward cmd = true -> ~ pastLine cm) ->
  exists r, executeCharSearch cmd t n cm = Some r /\ good cm r /\
    (snd r = ActionNone -> fst r = cm) /\ (snd r = ActionRedraw -> ~ pastLine (fst r)) /\ (snd r = ActionNone \/ snd r = ActionRedraw) /\
    pendingCharSearch (chars (fst r)) = pendingCharSearch (chars cm) /\
    pendingCharSearchCount (chars (fst r)) = pendingCharSearchCount (chars cm).
Proof.
  intros H Hcmd Hb. unfold executeCharSearch. set (k := Z.to_nat _).
  destruct (charSteps_total k cmd t cm H Hb) as (r & -> & Hr). cbn [mbind option_bind].
  eexists. split; [done|]. destruct r as [cm'|]; cbn [fst snd].
  - destruct (Hr cm' eq_refl) as (Hok & E & _ & Hn & Hx).
    assert (Hl : cursorLineRunes (updateSelection (withChars (mkChars (pendingCharSearch (chars cm')) (pendingCharSearchCount (chars cm')) cmd t) cm'))
                 = cursorLineRunes cm') by (unfold updateSelection; cbn; by destruct (selecting (sel cm'))).
    split; [|split; [done|split; [|split; [by right|]]]].
    + apply good_updateSelection; [apply OK_chars; [done|apply Hok|done]| |done].
      clear - E Hx. revert E Hx. generalize (cx (cursor cm')). intros x -> Hx. by apply frame_cursor.
    + intros _. unfold pastLine. rewrite Hl, updateSelection_cursor. change (cursor (withChars _ cm')) with (cursor cm').
      destruct Hn as [Hn|Hn]; [|exact Hn]. exfalso. unfold k in Hn. destruct (Z.leb_spec n 0); lia.
    + unfold updateSelection. cbn. rewrite E. by destruct (selecting _).
  - split; [by apply good_none|]. split; [done|]. split; [done|]. split; [by left|done].
Qed.
Lemma executeCharSearch_panics cmd t n cm : backward cmd = true -> pastLine cm -> executeCharSearch cmd t n cm = None.
Proof.
  intros Hb Hp. unfold executeCharSearch. destruct (Z.to_nat _) as [|k] eqn:E; [destruct (Z.leb_spec n 0); lia|].
  by rewrite charSteps_panics.
Qed.

Lemma repeatCommand_ok reverse cmd : cmd ∈ charCommands -> repeatCommand reverse cmd ∈ charCommands.
Proof.
  unfold charCommands. rewrite !elem_of_cons, elem_of_nil. intros H. unfold repeatCommand.
  destruct reverse; cbn [negb]; [|tauto]. destruct H as [->|[->|[->|[->|[->|[]]]]]]; cbn; tauto.
Qed.

(** A repetition with [reverse] from [cm] would panic. *)
Definition repeatPanics (reverse : bool) (cm : CopyMode) : Prop :=
  backward (repeatCommand reverse (lastCharSearch (chars cm))) = true /\ pastLine cm.

Lemma repeatCharSearch_total reverse cm : CopyOK cm -> ~ repeatPanics reverse cm ->
  exists r, repeatCharSearch reverse cm = Some r /\ good cm r /\ ~ repeatPanics reverse (fst r).
Proof.
  intros H Hn. unfold repeatCharSearch. destruct (Z.eqb_spec (lastCharSearch (chars cm)) 0).
  - eexists. split; [done|]. split; [by apply good_none|done].
  - set (cmd := repeatCommand reverse _).
    destruct (executeCharSearch_total cmd (lastCharTarget (chars cm)) 1 cm H) as ([cm' a] & -> & Hg & H0 & H1 & H2 & H3 & H4).
    { apply repeatCommand_ok, H. }
    { intros Hb Hp. by apply Hn. }
    cbn [mbind option_bind fst snd] in *. eexists. split; [done|]. rewrite H3, H4. destruct Hg as (G1 & G2 & G3). cbn [fst snd] in *. split.
    + split; [apply OK_chars; [done|apply H|apply H]|]. split; [by etrans|]. intros Ha. cbn. etrans; [by apply G3|done].
    + intros [Hb Hp]. cbn in Hb, Hp. destruct H2 as [->| ->].
      * rewrite H0 in Hp by done. apply Hn. by split.
      * by apply H1.
Qed.
Lemma repeatCharSearch_panics reverse cm : repeatPanics reverse cm -> repeatCharSearch reverse cm = None.
Proof.
  intros [Hb Hp]. unfold repeatCharSearch. destruct (Z.eqb_spec (lastCharSearch (chars cm)) 0) as [E|_].
  - rewrite E in Hb. by destruct reverse.
  - by rewrite executeCharSearch_panics.
Qed.

(** ** Repetition *)

Lemma repeatActions_total (Pre : CopyMode -> Prop) f :
  (forall cm, CopyOK cm -> Pre cm -> exists r, f cm = Some r /\ good cm r /\ Pre (fst r)) ->
  forall n result cm, CopyOK cm -> Pre cm -> exists r, repeatActions n f result cm = Some r /\
    CopyOK (fst r) /\ sameFrame cm (fst r) /\ (snd r = ActionNone -> result = ActionNone /\ quiet cm (fst r)).
Proof.
  intros Hf n. induction n as [|n IH]; intros result cm H HP; cbn [repeatActions].
  - eexists. split; [done|]. split; [done|]. split; [done|]. by intros.
  - destruct (Hf cm H HP) as ([cm' a] & -> & (G1 & G2 & G3) & HP'). cbn [mbind option_bind fst snd] in *.
    assert (Hexit : a <> ActionNone -> exists r, Some (cm', a) = Some r /\ CopyOK (fst r) /\ sameFrame cm (fst r) /\
              (snd r = ActionNone -> result = ActionNone /\ quiet cm (fst r))).
    { intros. eexists. split; [done|]. by repeat split; try apply G1; try apply G2. }
    destruct a; [| |by apply Hexit|by apply Hexit].
    + destruct (IH result cm' G1 HP') as (r & -> & R1 & R2 & R3). exists r. split; [done|]. split; [done|].
      split; [by etrans|]. intros Hr. destruct (R3 Hr). split; [done|]. etrans; [by apply G3|done].
    + destruct (IH ActionRedraw cm' G1 HP') as (r & -> & R1 & R2 & R3). exists r. split; [done|]. split; [done|].
      split; [by etrans|]. intros Hr. by destruct (R3 Hr).
Qed.
Lemma repeatAction_good (Pre : CopyMode -> Prop) f n cm :
  (forall cm, CopyOK cm -> Pre cm -> exists r, f cm = Some r /\ good cm r /\ Pre (fst r)) ->
  CopyOK cm -> Pre cm -> exists r, repeatAction n f cm = Some r /\ good cm r.
Proof.
  intros Hf H HP. destruct (repeatActions_total Pre f Hf (Z.to_nat n) ActionNone cm H HP) as (r & Hr & R1 & R2 & R3).
  exists r. split; [exact Hr|]. split; [done|]. split; [done|]. intros Ha. by apply R3.
Qed.
Lemma repeatAction_total f n : total f -> total (repeatAction n f).
Proof.
  intros Hf cm H. apply (repeatAction_good (fun _ => True)); [|done|done].
  intros cm' H' _. destruct (Hf cm' H') as (r & Hr & Hg). by exists r.
Qed.
Lemma repeatAction_panics f n cm : 1 <= n -> f cm = None -> repeatAction n f cm = None.
Proof.
  intros Hn Hf. unfold repeatAction. destruct (Z.to_nat n) as [|k] eqn:E; [lia|]. cbn [repeatActions]. by rewrite Hf.
Qed.

(** A step up or down, in the column of the cursor. *)
Definition moves (move : CopyMode -> CopyMode * bool) : Prop := forall cm, CopyOK cm ->
  CopyOK (fst (move cm)) /\ fst (move cm) = withCursor (cursor (fst (move cm))) cm /\
  cx (cursor (fst (move cm))) = cx (cursor cm) /\ (snd (move cm) = false -> fst (move cm) = cm).
Lemma frame_move cm cm' : cm' = withCursor (cursor cm') cm -> cx (cursor cm') = cx (cursor cm) -> sameFrame cm cm'.
Proof. generalize (cursor cm'). intros c -> E. apply frame_cursor; try done. cbn. by rewrite E. Qed.
Lemma repeatMoves_good n move moved cm :
  moves move ->
  CopyOK cm -> CopyOK (fst (repeatMoves n move moved cm)) /\
    fst (repeatMoves n move moved cm) = withCursor (cursor (fst (repeatMoves n move moved cm))) cm /\
    cx (cursor (fst (repeatMoves n move moved cm))) = cx (cursor cm) /\
    (snd (repeatMoves n move moved cm) = false -> fst (repeatMoves n move moved cm) = cm /\ moved = false).
Proof.
  intros Hm. revert moved cm. induction n as [|n IH]; intros moved cm H; cbn [repeatMoves].
  - split; [done|]. by rewrite withCursor_self.
  - destruct (Hm cm H) as (M1 & M2 & Mx & M3). destruct (move cm) as [cm' ok]. cbn [fst snd] in *. destruct ok.
    + destruct (IH true cm' M1) as (I1 & I2 & Ix & I3). split; [done|]. split; [|split; [congruence|]].
      * rewrite I2 at 1. rewrite M2. by destruct cm.
      * intros Hf. by destruct (I3 Hf).
    + rewrite M3 by done. split; [done|]. by rewrite withCursor_self.
Qed.
Lemma moveDown_moves : moves moveDown.
Proof.
  intros cm H. pose proof (moveDown_spec cm H) as Hs. destruct (moveDown cm) as [cm' moved]. cbn [fst snd].
  destruct Hs as (? & ? & ? & Hs). do 3 (split; [done|]). intros ->. tauto.
Qed.
Lemma moveUp_moves : moves moveUp.
Proof.
  intros cm H. pose proof (moveUp_spec cm H) as Hs. destruct (moveUp cm) as [cm' moved]. cbn [fst snd].
  destruct Hs as (? & ? & ? & Hs). do 3 (split; [done|]). intros ->. tauto.
Qed.
Lemma repeatMotion_good n move cm :
  moves move ->
  CopyOK cm -> good cm (repeatMotion n move cm).
Proof.
  intros Hm H. unfold repeatMotion. destruct (repeatMoves_good (Z.to_nat n) move false cm Hm H) as (R1 & R2 & Rx & R3).
  destruct (repeatMoves _ _ _ _) as [cm' moved]. cbn [fst snd] in *. destruct moved; cbn [negb].
  - apply good_updateSelection; [done|by apply frame_move|done].
  - destruct (R3 eq_refl) as [-> _]. by apply good_none.
Qed.

(** ** Scrolling and selecting *)

Lemma exit_not_none (b : bool) a : a <> ActionNone -> (if b then ActionExit else a) <> ActionNone.
Proof. by destruct b. Qed.
Lemma good_stay cm a : CopyOK cm -> good cm (cm, a).
Proof. intros. split; [done|]. by split. Qed.

Lemma scroll_good cm next a a' : CopyOK cm -> 0 <= next <= maxOY cm -> a' <> ActionNone ->
  good cm (if next =? oy (cursor cm) then (cm, a) else (updateSelection (setOy next cm), a')).
Proof.
  intros H Hn Ha. destruct (next =? _); [by apply good_stay|]. apply good_updateSelection; [by apply OK_setOy|done|done].
Qed.
Lemma scrollBy_good d e cm : CopyOK cm -> good cm (scrollBy d e cm).
Proof. intros H. apply scroll_good; [done|apply clamp_range, maxOY_nonneg, H|by apply exit_not_none]. Qed.
Lemma WheelScrollUp_good n cm : CopyOK cm -> good cm (WheelScrollUp n cm).
Proof.
  intros H. unfold WheelScrollUp. destruct (n <=? 0); [by apply good_stay|].
  apply scroll_good; [done|apply clamp_range, maxOY_nonneg, H|done].
Qed.
Lemma WheelScrollDown_good n cm : CopyOK cm -> good cm (WheelScrollDown n cm).
Proof.
  intros H. unfold WheelScrollDown. destruct (n <=? 0); [by apply good_stay|].
  apply scroll_good; [done|apply clamp_range, maxOY_nonneg, H|by apply exit_not_none].
Qed.
Lemma scrollCursorToRow_good r cm : CopyOK cm -> good cm (scrollCursorToRow r cm).
Proof.
  intros H. apply good_updateSelection; [|done|done].
  apply OK_setCy; [|apply (clamp_lt _ (height cm)), H]. apply OK_setOy; [done|]. apply clamp_range, maxOY_nonneg, H.
Qed.
Lemma moveTo_good x y o cm : CopyOK cm -> 0 <= x -> columnOK cm x -> 0 <= y < height cm -> 0 <= o <= maxOY cm -> good cm (moveTo x y o cm).
Proof. intros. apply good_updateSelection; [by apply OK_cursor|by apply frame_cursor|done]. Qed.
Lemma columnOK_0 cm : CopyOK cm -> columnOK cm 0.
Proof. intros H. left. pose proof (ok_width cm H). lia. Qed.
Lemma onLine_column cm x : CopyOK cm -> x = 0 \/ x < lenZ (cursorLineRunes cm) -> columnOK cm x.
Proof. intros H [->|Hx]; [by apply columnOK_0|by eapply columnOK_line]. Qed.
Lemma columnOK_le cm x y : x <= y -> columnOK cm y -> columnOK cm x.
Proof. intros ? [?|[z ?]]; [left; lia|right; exists z; lia]. Qed.
Lemma stepLeft_total : total stepLeft.
Proof.
  intros cm H. eexists. split; [done|]. pose proof (ok_cx cm H). destruct (Z.eqb_spec (cx (cursor cm)) 0); [by apply good_stay|].
  apply good_updateSelection; [apply OK_setCx; [done|lia]|apply frame_cursor; try done; apply columnOK_le; cbn; lia|done].
Qed.
Lemma stepRight_total : total stepRight.
Proof.
  intros cm H. eexists. split; [done|]. pose proof (ok_cx cm H). destruct (Z.leb_spec (width cm - 1) (cx (cursor cm))); [by apply good_stay|].
  apply good_updateSelection; [apply OK_setCx; [done|lia]|apply frame_setCx; left; lia|done].
Qed.

Lemma SetCursor_good c r cm : CopyOK cm -> good cm (SetCursor c r cm).
Proof.
  intros H. unfold SetCursor. pose proof (ok_width cm H). pose proof (ok_height cm H).
  destruct (_ && _); [by apply good_stay|]. set (maxCol := if 0 <? _ then _ else _).
  assert (Hm : 0 <= maxCol < width cm) by (unfold maxCol; match goal with |- context [0 <? ?n] => destruct (Z.ltb_spec 0 n) end; lia).
  pose proof (clamp_range c 0 maxCol ltac:(lia)). apply good_updateSelection; [|apply frame_cursor; try done; left; cbn; lia|done].
  apply OK_setCy; [apply OK_setCx; [done|lia]|by apply (clamp_lt _ (height cm))].
Qed.
Lemma StartSelection_good cm : CopyOK cm -> good cm (StartSelection cm).
Proof.
  intros H. pose proof (cursorAbsLine_range cm H). pose proof (ok_cx cm H).
  apply good_redraw; [apply OK_sel; [done|done|lia..]|done|done].
Qed.
Lemma ClearSelection_good cm : CopyOK cm -> good cm (ClearSelection cm).
Proof.
  intros H. unfold ClearSelection. destruct (_ && _); [by apply good_stay|].
  apply good_redraw; [apply OK_sel; [done|done|apply H..]|done|done].
Qed.
Lemma SelectLine_ok cm : CopyOK cm -> CopyOK (fst (SelectLine cm)).
Proof.
  intros H. pose proof (cursorAbsLine_range cm H). pose proof (ok_width cm H). apply OK_sel; [done|done|lia..].
Qed.
Lemma ToggleRectangle_good cm : CopyOK cm -> good cm (ToggleRectangleSelection cm).
Proof.
  intros H. unfold ToggleRectangleSelection. apply good_updateSelection; [|done|done].
  pose proof (cursorAbsLine_range cm H). pose proof (ok_cx cm H).
  apply OK_sel; [done|done|..]; destruct (selecting (sel cm)); cbn; first [apply H|lia].
Qed.
Lemma OtherEnd_good cm : CopyOK cm -> good cm (OtherEnd cm).
Proof.
  intros H. unfold OtherEnd. destruct (negb _); [by apply good_stay|]. set (cm1 := withSel _ cm).
  assert (H1 : CopyOK cm1) by (apply OK_sel; [done|apply H..]).
  apply good_updateSelection; [by apply OK_scrollToAbsolute|etrans; [|by apply frame_scrollToAbsolute]; by apply frame_same|done].
Qed.
Lemma selectLines_good n cm : CopyOK cm -> good cm (selectLines n cm).
Proof.
  intros H. unfold selectLines. cbn [SelectLine].
  set (cm1 := withSel _ cm). assert (H1 : CopyOK cm1) by (by apply SelectLine_ok).
  destruct (repeatMoves_good (Z.to_nat (n - 1)) moveDown false cm1 moveDown_moves H1) as (R1 & R2 & Rx & _).
  destruct (repeatMoves _ _ _ _) as [cm' b]. cbn [fst snd] in *. apply good_updateSelection; [done| |done].
  etrans; [|by apply (frame_move cm1)]. by apply frame_same.
Qed.

(** ** Words and texts *)

Lemma wordBounds_total `{Unicode} cm line : exists w, wordBounds cm line = Some w /\
  (forall s e, w = Some (s, e) -> 0 <= s <= e /\ e < lenZ line).
Proof.
  unfold wordBounds. destruct (Z.eqb_spec (lenZ line) 0); [by exists None|]. pose proof (lenZ_nonneg line).
  pose proof (clamp_range (cx (cursor cm)) 0 (lenZ line - 1)) as Hp. set (pos := clamp _ _ _) in *.
  destruct (index_lt line pos) as [r ->]; [lia|]. cbn [mbind option_bind].
  assert (exists pos', (if isClass classifyViWordRune wordClassWhitespace r
     then scanRight (isClass classifyViWordRune wordClassWhitespace) line pos else Some pos) = Some pos' /\ 0 <= pos') as (pos' & -> & Hp').
  { destruct (isClass _ _ r); [|exists pos; split; [done|lia]].
    destruct (scanRight_total (isClass classifyViWordRune wordClassWhitespace) line pos) as (q & -> & Hq & _); [lia|].
    exists q. split; [done|lia]. }
  cbn [mbind option_bind]. destruct (Z.leb_spec (lenZ line) pos'); [by exists None|].
  destruct (index_lt line pos') as [r' ->]; [lia|]. cbn [mbind option_bind].
  destruct (scanStart_total (isClass classifyViWordRune (classifyViWordRune r')) line pos') as (s & -> & Hs); [lia|].
  destruct (scanEnd_total (isClass classifyViWordRune (classifyViWordRune r')) line pos') as (e & -> & He); [lia|].
  cbn [mbind option_bind]. eexists. split; [done|]. intros ?? [= <- <-]. lia.
Qed.
Lemma SelectWord_total `{Unicode} : total SelectWord.
Proof.
  intros cm Hok. unfold SelectWord. destruct (wordBounds_total cm (cursorLineRunes cm)) as ([[s e]|] & -> & Hw); cbn [mbind option_bind].
  - destruct (Hw s e eq_refl) as [H1 H2]. pose proof (cursorAbsLine_range cm Hok). eexists. split; [done|].
    apply good_redraw; [apply OK_setCx; [apply OK_sel; [done|done|lia..]|lia]| |done].
    apply frame_cursor; try done. intros _. by apply (columnOK_line _ _ (cursorAbsLine cm)).
  - eexists. split; [done|]. by apply good_none.
Qed.
Lemma runeSlice_total line i j : 0 <= i <= j -> j <= lenZ line -> exists t, runeSlice line i j = Some t.
Proof. intros. unfold runeSlice. rewrite slice_ok by done. by eexists. Qed.
Lemma wordUnderCursor_total `{Unicode} cm : exists t, wordUnderCursor cm = Some t.
Proof.
  unfold wordUnderCursor. destruct (wordBounds_total cm (cursorLineRunes cm)) as ([[s e]|] & -> & Hw); cbn [mbind option_bind]; [|by eexists].
  destruct (Hw s e eq_refl). apply runeSlice_total; lia.
Qed.
Lemma endOfLineText_total cm : CopyOK cm -> exists t, endOfLineText cm = Some t.
Proof.
  intros H. pose proof (ok_cx cm H). unfold endOfLineText. destruct (Z.leb_spec (lenZ (cursorLineRunes cm)) (cx (cursor cm))); [by eexists|].
  apply runeSlice_total; lia.
Qed.
Lemma currentMatchText_total cm : CopyOK cm -> exists t, currentMatchText cm = Some t.
Proof.
  intros H. unfold currentMatchText. set (s := search cm).
  destruct ((matchIdx s <? 0) || (lenZ (matches s) <=? matchIdx s)) eqn:E; [by eexists|].
  apply orb_false_iff in E. rewrite Z.ltb_ge, Z.leb_gt in E. destruct (index_lt (matches s) (matchIdx s)) as [m Hm]; [lia|].
  rewrite Hm. cbn [mbind option_bind]. destruct (_ || _); [by eexists|].
  apply index_Some in Hm as [_ Hm]. eapply Forall_lookup_1 in Hm; [|apply (ok_matches cm H)]. destruct Hm as (? & ? & ?).
  destruct (Z.leb_spec (lenZ (lineRunes cm (LineIdx m))) (Col m)); [by eexists|]. apply runeSlice_total; lia.
Qed.

Lemma normalizedSelection_spec cm : CopyOK cm ->
  let '((startY, startX), (endY, endX)) := normalizedSelection cm in
  0 <= startX /\ 0 <= endX /\ startY <= endY /\ 0 <= startY /\
  (lineSelect (sel cm) = false -> rectSelect (sel cm) = true \/ startY = endY -> startX <= endX).
Proof.
  intros H. destruct (ok_selX cm H), (ok_selY cm H). pose proof (ok_width cm H). unfold normalizedSelection.
  destruct (rectSelect (sel cm)).
  - destruct (Z.ltb_spec (selEndY (sel cm)) (selStartY (sel cm))), (Z.ltb_spec (selEndX (sel cm)) (selStartX (sel cm))); lia.
  - destruct (Z.ltb_spec (selEndY (sel cm)) (selStartY (sel cm))), (Z.eqb_spec (selStartY (sel cm)) (selEndY (sel cm))),
      (Z.ltb_spec (selEndX (sel cm)) (selStartX (sel cm))); cbn [orb andb]; destruct (lineSelect (sel cm)); try lia; repeat split; try lia; intros; naive_solver lia.
Qed.

Lemma mapM_total {A B} (f : A -> option B) l : (forall x, x ∈ l -> exists y, f x = Some y) -> exists ys, mapM f l = Some ys.
Proof. intros H. apply mapM_is_Some_2, Forall_forall. intros x Hx. by apply H. Qed.

(** No selection makes the copy panic. *)
Lemma SelectedText_total cm : CopyOK cm -> exists t, SelectedText cm = Some t.
Proof.
  intros H. unfold SelectedText. destruct (negb _); [by apply currentMatchText_total|].
  pose proof (normalizedSelection_spec cm H) as Hn. destruct (normalizedSelection cm) as [[sy sx] [ey ex]].
  destruct Hn as (H1 & H2 & H3 & H4 & H5). destruct (lineSelect (sel cm)); [by eexists|]. specialize (H5 eq_refl).
  destruct (rectSelect (sel cm)).
  - specialize (H5 (or_introl eq_refl)).
    destruct (mapM_total (rectRow cm sx ex ey) (seqZ sy (ey - sy + 1))) as [ys ->]; [|by eexists].
    intros y _. unfold rectRow. destruct (Z.ltb_spec sx (lenZ (lineRunes cm y))); [|by eexists].
    destruct (runeSlice_total (lineRunes cm y) sx (Z.min (ex + 1) (lenZ (lineRunes cm y)))) as [t ->]; [lia|lia|]. by eexists.
  - destruct (Z.eqb_spec sy ey) as [E|].
    + destruct (Z.leb_spec (lenZ (lineRunes cm sy)) sx); [by eexists|]. specialize (H5 (or_intror E)). apply runeSlice_total; lia.
    + destruct (mapM_total (charRow cm sy sx ey ex) (seqZ sy (ey - sy + 1))) as [ys ->]; [|by eexists].
      intros y _. unfold charRow. destruct (y =? sy).
      * destruct (Z.ltb_spec sx (lenZ (lineText cm y))); [|by eexists]. rewrite slice_ok by lia. by eexists.
      * destruct (y =? ey); [|by eexists]. pose proof (lenZ_nonneg (lineText cm y)).
        destruct (Z.ltb_spec 0 (Z.min (ex + 1) (lenZ (lineText cm y)))); [|by eexists]. rewrite slice_ok by lia. by eexists.
Qed.

(** ** Hits *)

(** n and N: the next index in a direction, around the hits. *)
Lemma gotoMatch_spec k cm : CopyOK cm -> 0 <= k < lenZ (matches (search cm)) ->
  exists cm', scrollToMatch (withMatches (matches (search cm)) k cm) = Some cm' /\ CopyOK cm' /\ sameFrame cm cm' /\ sel cm' = sel cm /\
    matches (search cm') = matches (search cm) /\ matchIdx (search cm') = k /\ lastSearchForward (search cm') = lastSearchForward (search cm) /\
    (forall m, matches (search cm) !! Z.to_nat k = Some m ->
       cursorAbsLine cm' = Z.min (LineIdx m) (TotalLines cm - 1) /\ cx (cursor cm') = Col m).
Proof.
  intros H Hk. set (cm1 := withMatches _ k cm).
  assert (H1 : CopyOK cm1) by (apply OK_withMatches; [done|apply H|by right]).
  destruct (scrollToMatch_spec cm1 H1) as (cm2 & -> & Hok & Hf & Hs & Hsel & Hl). exists cm2.
  split; [done|]. split; [done|]. split; [etrans; [|exact Hf]; done|]. split; [by rewrite Hsel|]. rewrite Hs. do 3 (split; [done|]).
  intros m Hm. unfold currentMatch in Hl. change (matches (search cm1)) with (matches (search cm)) in Hl.
  change (matchIdx (search cm1)) with k in Hl. rewrite (proj2 (index_Some _ k m)) in Hl by done. done.
Qed.
Definition nextIdx (forward : bool) (s : searchState) : Z :=
  let n := lenZ (matches s) in
  if forward then Z.rem (matchIdx s + 1) n else Z.rem (matchIdx s - 1 + n) n.
Lemma nextIdx_range forward cm : CopyOK cm -> matches (search cm) <> [] -> 0 <= nextIdx forward (search cm) < lenZ (matches (search cm)).
Proof.
  intros H Hne. destruct (ok_matchIdx cm H) as [[? _]|Hi]; [done|]. unfold nextIdx.
  destruct forward; rewrite Z.rem_mod_nonneg by lia; apply Z.mod_pos_bound; lia.
Qed.
Lemma searchAgain_eq reverse cm : matches (search cm) <> [] ->
  searchAgain reverse cm = scrollToMatch (withMatches (matches (search cm))
    (nextIdx (if reverse then negb (lastSearchForward (search cm)) else lastSearchForward (search cm)) (search cm)) cm).
Proof.
  intros Hne. pose proof (lenZ_pos _ Hne). unfold searchAgain, nextMatch, prevMatch.
  destruct (Z.eqb_spec (lenZ (matches (search cm))) 0); [lia|]. unfold nextIdx. by destruct (if reverse then _ else _).
Qed.
Lemma searchAgain_total reverse cm : CopyOK cm -> exists cm', searchAgain reverse cm = Some cm' /\ CopyOK cm' /\ sameFrame cm cm'.
Proof.
  intros H. destruct (decide (matches (search cm) = [])) as [E|Hne].
  - exists cm. unfold searchAgain. by rewrite E.
  - rewrite searchAgain_eq by done. edestruct gotoMatch_spec as (cm' & Hs & Hok & Hf & _); [exact H|by apply nextIdx_range|]. by exists cm'.
Qed.
Lemma runSearch_total `{Unicode} forward cm : CopyOK cm -> exists cm', runSearch forward cm = Some cm' /\ CopyOK cm' /\ sameFrame cm cm'.
Proof.
  intros Hok. destruct (decide (searchQuery (search cm) = [])) as [E|Hne].
  - eexists. unfold runSearch. cbn [withMatches search withSearch searchQuery]. rewrite E. split; [done|].
    split; [apply OK_withMatches; [done|constructor|by left]|split; try done; intros [? _]; by split].
  - destruct (runSearch_spec forward cm Hok Hne) as (cm' & ? & ? & ? & _). by exists cm'.
Qed.
Lemma searchWord_total `{Unicode} forward : total (searchWordUnderCursor forward).
Proof.
  intros cm Hok. unfold searchWordUnderCursor. destruct (wordUnderCursor_total cm) as [t ->]. cbn [mbind option_bind].
  destruct t as [|b t]; [eexists; split; [done|by apply good_none]|].
  destruct (runSearch_total forward (setQuery (b :: t) forward cm)) as (cm' & -> & H1 & H2); [by apply OK_query|].
  cbn [mbind option_bind]. eexists. split; [done|]. apply good_redraw; [done| |done]. etrans; [|exact H2]. done.
Qed.

(** ** Keys *)

Section Keys.
Context {U : Unicode} {TI : TextInput}.

(** A handler that may decline the key. *)
Definition handles (cm : CopyMode) (r : option (option (CopyMode * Action))) : Prop :=
  exists o, r = Some o /\ forall r', o = Some r' -> good cm r'.
Lemma handles_some cm r : good cm r -> handles cm (Some (Some r)).
Proof. intros Hg. eexists. split; [done|]. by intros r' [= <-]. Qed.
Lemma handles_declined cm : handles cm (Some None).
Proof. by eexists. Qed.
Lemma handles_fmap cm o : (exists r, o = Some r /\ good cm r) -> handles cm (Some <$> o).
Proof. intros (r & -> & Hg). by apply handles_some. Qed.

Lemma handleLineMotionKey_total key n cm : CopyOK cm -> handles cm (handleLineMotionKey key n cm).
Proof.
  intros Hok. pose proof (ok_height cm Hok). pose proof (ok_cy cm Hok). pose proof (ok_oy cm Hok). pose proof (maxOY_nonneg cm Hok).
  unfold handleLineMotionKey.
  assert (Hmid : 0 <= Z.quot (height cm - 1) 2 < height cm).
  { rewrite Z.quot_div_nonneg by lia. split; [apply Z.div_pos; lia|]. apply Z.div_lt_upper_bound; lia. }
  repeat match goal with |- context [if ?b then _ else _] =>
    destruct b; [first
      [ by apply handles_some, repeatMotion_good; [apply moveDown_moves|]
      | by apply handles_some, repeatMotion_good; [apply moveUp_moves|]
      | by apply handles_fmap, (repeatAction_total _ _ stepLeft_total)
      | by apply handles_fmap, (repeatAction_total _ _ stepRight_total)
      | by apply handles_some, scrollBy_good
      | by apply handles_some, scrollCursorToRow_good
      | by apply handles_some, WheelScrollDown_good
      | by apply handles_some, WheelScrollUp_good
      | by apply handles_some, moveTo_good; [|apply firstNonBlankCol_nonneg|apply onLine_column, firstNonBlankCol_onLine|lia|lia]
      | by apply handles_some, moveTo_good; [|lia|apply columnOK_0|lia..]
      | destruct (lineEndCol_total cm) as (e & -> & He & Hl); cbn [mbind option_bind];
        by apply handles_some, moveTo_good; [|lia|apply onLine_column|lia..] ]|] end.
  apply handles_declined.
Qed.
Lemma handleWordMotionKey_total key n cm : CopyOK cm -> handles cm (handleWordMotionKey key n cm).
Proof.
  intros Hok. unfold handleWordMotionKey. destruct (keyIn _ _); [|apply handles_declined].
  by apply handles_fmap, (repeatAction_total _ _ (runWordMotion_total key)).
Qed.
Lemma handleParagraphMotionKey_total key n cm : CopyOK cm -> handles cm (handleParagraphMotionKey key n cm).
Proof.
  intros Hok. unfold handleParagraphMotionKey. destruct (key =? 123); [|destruct (key =? 125); [|apply handles_declined]];
    apply handles_fmap; by apply repeatAction_total; [first [apply previousParagraph_total|apply nextParagraph_total]|].
Qed.

(** The key repeats a search backward from beyond the line. *)
Definition keyPanics (key : Z) (cm : CopyMode) : Prop :=
  (key = 59 /\ repeatPanics false cm) \/ (key = 44 /\ repeatPanics true cm).

Lemma handles_redrawn cm o : (exists cm', o = Some cm' /\ CopyOK cm' /\ sameFrame cm cm') -> handles cm (Some <$> (cm ← o; redrawn cm)).
Proof. intros (cm' & -> & ? & ?). cbn [mbind option_bind]. apply handles_some. by apply good_redraw. Qed.
Lemma repeatChars_good reverse n cm : CopyOK cm -> ~ repeatPanics reverse cm -> exists r, repeatAction n (repeatCharSearch reverse) cm = Some r /\ good cm r.
Proof. intros Hok Hn. by apply (repeatAction_good (fun cm => ~ repeatPanics reverse cm)); [apply repeatCharSearch_total|..]. Qed.

Lemma charKey_ok key : keyIn key [102; 70; 116; 84] = true -> key ∈ charCommands.
Proof. unfold keyIn. intros E%bool_decide_eq_true. unfold charCommands. rewrite !elem_of_cons, elem_of_nil in *. tauto. Qed.

Lemma handleSearchJump_total key n cm : CopyOK cm -> ~ keyPanics key cm -> handles cm (handleSearchJumpMotionKey key n cm).
Proof.
  intros Hok Hp. unfold handleSearchJumpMotionKey, startPrompt.
  do 3 (match goal with |- context [if ?b then _ else _] => destruct b; [apply handles_some, good_redraw; [by apply OK_prompt|done|done]|] end).
  do 2 (match goal with |- context [if ?b then _ else _] => destruct b; [by apply handles_redrawn, searchAgain_total|] end).
  do 2 (match goal with |- context [if ?b then _ else _] => destruct b; [by apply handles_fmap, searchWord_total|] end).
  destruct (key =? 114).
  { apply handles_redrawn. destruct (searchQuery (search cm)); [by exists cm|]. by apply runSearch_total. }
  destruct (key =? 88).
  { apply handles_some, good_redraw; [|done|done]. pose proof (cursorAbsLine_range cm Hok). apply OK_mark; [done|apply Hok|lia]. }
  destruct (keyIn key [102; 70; 116; 84]) eqn:Ek.
  { apply handles_some. split; [apply OK_chars; [done|by apply charKey_ok|apply Hok]|]. by split. }
  destruct (Z.eqb_spec key 59); [apply handles_fmap, repeatChars_good; [done|]; intros ?; apply Hp; by left|].
  destruct (Z.eqb_spec key 44); [apply handles_fmap, repeatChars_good; [done|]; intros ?; apply Hp; by right|].
  destruct (key =? 37); [by apply handles_fmap, repeatAction_total; [apply matchingBracket_total|]|].
  destruct (key =? keyAltX); [|apply handles_declined].
  apply handles_some. destruct (negb _); [by apply good_none|by apply jumpToMark_good].
Qed.

Lemma handleMotionKey_total key n cm : CopyOK cm -> ~ keyPanics key cm -> handles cm (handleMotionKey key n cm).
Proof.
  intros Hok Hp. unfold handleMotionKey.
  destruct (handleLineMotionKey_total key n cm Hok) as (o & -> & Ho). cbn [mbind option_bind]. destruct o as [r|]; [by eexists|]. clear Ho.
  destruct (handleWordMotionKey_total key n cm Hok) as (o & -> & Ho). cbn [mbind option_bind]. destruct o as [r|]; [by eexists|]. clear Ho.
  destruct (handleParagraphMotionKey_total key n cm Hok) as (o & -> & Ho). cbn [mbind option_bind]. destruct o as [r|]; [by eexists|].
  by apply handleSearchJump_total.
Qed.
End Keys.

(** ** Input *)

Section Input.
Context {U : Unicode} {TI : TextInput}.

Lemma consumeCount_spec cm : CopyOK cm ->
  let '(cm', n) := consumeCount cm in
  CopyOK cm' /\ quiet cm cm' /\ chars cm' = chars cm /\ 1 <= n /\ (pendingCount cm <= 0 -> cm' = cm).
Proof.
  intros Hok. unfold consumeCount. destruct (Z.leb_spec (pendingCount cm) 0).
  - repeat (split; [done|]). by split.
  - split; [by apply OK_count|]. split; [done|]. split; [done|]. split; lia.
Qed.
Lemma queueYank_good text append cm : CopyOK cm -> (exists t, text = Some t) ->
  exists r, queueYank text append cm = Some r /\ good cm r.
Proof. intros Hok [t ->]. eexists. split; [done|]. by apply good_redraw; [apply OK_copied|..]. Qed.

Lemma keyPanics_quiet key cm cm' : quiet cm cm' -> chars cm' = chars cm -> keyPanics key cm' <-> keyPanics key cm.
Proof.
  intros [E1 E2 E3 E4 _ _ _ _] Ec. unfold keyPanics, repeatPanics, pastLine.
  assert (cursorLineRunes cm' = cursorLineRunes cm) as ->.
  { unfold cursorLineRunes, lineRunes, lineText, cursorAbsLine, TotalLines. by rewrite E1, E3, E4. }
  by rewrite E4, Ec.
Qed.

(** A key: as a motion, but it may change the repeat count, which shows only
    when it is positive. *)
Record keyed (cm : CopyMode) (r : CopyMode * Action) : Prop := mkKeyed {
  k_ok : CopyOK (fst r);
  k_emu : emu (fst r) = emu cm;
  k_width : width (fst r) = width cm;
  k_height : height (fst r) = height cm;
  k_columns : columnsOK cm -> columnsOK (fst r);
  k_quiet : snd r = ActionNone -> quiet cm (fst r);
  k_count : snd r = ActionNone -> pendingCount cm <= 0 -> pendingCount (fst r) <= 0;
}.
Lemma keyed_good cm r : good cm r -> keyed cm r.
Proof. intros (? & [] & ?). split; try done. lia. Qed.
Lemma quiet_columns cm cm' : quiet cm cm' -> columnsOK cm -> columnsOK cm'.
Proof. intros [E1 E2 _ E4 _ E6 _ _]. unfold columnsOK, columnOK, onCharacter, lineRunes, lineText. by rewrite E1, E2, E4, E6. Qed.
Lemma keyed_quiet cm cm' r :
  quiet cm cm' -> (pendingCount cm <= 0 -> pendingCount cm' <= 0) -> keyed cm' r -> keyed cm r.
Proof.
  intros Hq Hc [? ? ? ? Hx ? ?]. pose proof (quiet_columns _ _ Hq). destruct Hq as [] eqn:E. split; try done; try congruence.
  - auto.
  - intros. etrans; [done|auto].
  - auto.
Qed.
Lemma keyed_redraw cm cm' a : CopyOK cm' -> emu cm' = emu cm -> width cm' = width cm -> height cm' = height cm ->
  (columnsOK cm -> columnsOK cm') -> a <> ActionNone -> keyed cm (cm', a).
Proof. by split. Qed.

Lemma handleNormalKey_total key cm : CopyOK cm -> ~ keyPanics key cm -> exists r, handleNormalKey key cm = Some r /\ keyed cm r.
Proof.
  intros Hok Hp. unfold handleNormalKey.
  destruct (between 49 key 57); [eexists; split; [done|]; by apply keyed_redraw; [apply OK_count|..]|].
  destruct (_ && _); [eexists; split; [done|]; by apply keyed_redraw; [apply OK_count|..]|].
  pose proof (consumeCount_spec cm Hok) as Hc. destruct (consumeCount cm) as [cm1 n]. destruct Hc as (H1 & Hq & Hch & Hn & Hz).
  assert (Hp1 : ~ keyPanics key cm1) by (rewrite keyPanics_quiet; done).
  destruct (keyIn key [113; 0x03]).
  { eexists. split; [done|]. pose proof (quiet_columns _ _ Hq). destruct Hq. by apply keyed_redraw. }
  destruct (key =? 0x1b).
  { eexists. split; [done|]. apply (keyed_quiet _ (withCount 0 cm1)); [by etrans|done|].
    by apply keyed_good, ClearSelection_good, OK_count. }
  enough (exists r, (if key =? 32 then Some (StartSelection cm1)
    else if keyIn key [118; 0x16] then Some (ToggleRectangleSelection cm1)
    else if key =? 86 then Some (selectLines n cm1)
    else if keyIn key [13; 10] then queueYank (SelectedText cm1) false cm1
    else if key =? 65 then queueYank (SelectedText cm1) true cm1
    else if key =? 68 then queueYank (endOfLineText cm1) false cm1
    else if key =? 111 then Some (if Z.rem n 2 =? 0 then (cm1, ActionNone) else OtherEnd cm1)
    else if key =? 80 then Some (withShowPosition (negb (showPosition cm1)) cm1, ActionRedraw)
    else if key =? 121 then queueYank (SelectedText cm1) false cm1
    else r ← handleMotionKey key n cm1; Some (match r with Some a => a | None => (cm1, ActionNone) end)) = Some r /\ good cm1 r)
    as (r & -> & Hg).
  { exists r. split; [done|]. apply (keyed_quiet _ cm1); [done| |by apply keyed_good]. intros Hle. by rewrite Hz. }
  repeat match goal with |- context [if ?b then _ else _] =>
    destruct b; [first
      [ eexists; split; [done|]; by apply StartSelection_good
      | eexists; split; [done|]; by apply ToggleRectangle_good
      | eexists; split; [done|]; by apply selectLines_good
      | by apply queueYank_good; [|apply SelectedText_total]
      | by apply queueYank_good; [|apply endOfLineText_total]
      | eexists; split; [done|]; destruct (_ =? 0); [by apply good_stay|by apply OtherEnd_good]
      | eexists; split; [done|]; by apply good_redraw; [apply OK_position|..] ]|] end.
  destruct (handleMotionKey_total key n cm1 H1 Hp1) as (o & -> & Ho). cbn [mbind option_bind].
  eexists. split; [done|]. destruct o as [r|]; [by apply Ho|by apply good_none].
Qed.

Lemma handleNormalKey_panics key cm : CopyOK cm -> keyPanics key cm -> handleNormalKey key cm = None.
Proof.
  intros Hok Hp. pose proof (consumeCount_spec cm Hok) as Hc.
  assert (E : handleNormalKey key cm = let '(cm, count) := consumeCount cm in
     r ← handleMotionKey key count cm; Some (match r with Some a => a | None => (cm, ActionNone) end)).
  { destruct Hp as [[-> _]|[-> _]]; reflexivity. }
  rewrite E. destruct (consumeCount cm) as [cm1 n]. destruct Hc as (H1 & Hq & Hch & Hn & _).
  rewrite <- (keyPanics_quiet key cm cm1) in Hp by done.
  destruct Hp as [[-> Hr]|[-> Hr]].
  - change (handleMotionKey 59 n cm1) with (Some <$> repeatAction n (repeatCharSearch false) cm1).
    by rewrite repeatAction_panics by (done || by apply repeatCharSearch_panics).
  - change (handleMotionKey 44 n cm1) with (Some <$> repeatAction n (repeatCharSearch true) cm1).
    by rewrite repeatAction_panics by (done || by apply repeatCharSearch_panics).
Qed.

(** ** Chunks *)

Lemma csiParams_app l p rest : csiParams l = (p, rest) -> l = p ++ rest.
Proof.
  revert p rest. induction l as [|c l IH]; intros p rest; cbn [csiParams]; [by intros [= <- <-]|].
  destruct (_ || _); [|by intros [= <- <-]]. destruct (csiParams l) as [p' rest']. intros [= <- <-]. cbn. by rewrite <- (IH p' rest').
Qed.

(** A decoded key uses up at least one byte and at most all of them. *)
Definition consumes (data : bytes) (n : Z) : Prop := 1 <= n <= lenZ data.
Lemma consumes_one b r : consumes (b :: r) 1.
Proof. unfold consumes. rewrite lenZ_cons. pose proof (lenZ_nonneg r). lia. Qed.
Lemma consumes_two b c r : consumes (b :: c :: r) 2.
Proof. unfold consumes. rewrite !lenZ_cons. pose proof (lenZ_nonneg r). lia. Qed.
Lemma consumes_three b c d r : consumes (b :: c :: d :: r) 3.
Proof. unfold consumes. rewrite !lenZ_cons. pose proof (lenZ_nonneg r). lia. Qed.
Lemma consumes_csi b c r p f rest : csiParams r = (p, f :: rest) -> consumes (b :: c :: r) (2 + lenZ p + 1).
Proof.
  intros ->%csiParams_app. unfold consumes. rewrite !lenZ_cons, lenZ_app, lenZ_cons.
  pose proof (lenZ_nonneg p). pose proof (lenZ_nonneg rest). lia.
Qed.
Local Ltac decode_cases := repeat match goal with |- context [if ?b then _ else _] => destruct b end;
    cbn [fst snd]; eauto using consumes_one, consumes_two, consumes_three, consumes_csi.

Lemma decodeCopyModeKey_consumes data : data <> [] -> consumes data (snd (decodeCopyModeKey data)).
Proof.
  intros Hne. destruct data as [|b0 r0]; [done|]. unfold decodeCopyModeKey.
  destruct (negb (b0 =? 0x1b)); [apply consumes_one|]. destruct r0 as [|b1 r1]; [apply consumes_one|].
  destruct (negb (b1 =? 91) && _); [decode_cases|]. destruct (b1 =? 79); [destruct r1; decode_cases|].
  destruct r1 as [|b2 r2]; [decode_cases|].
  destruct (csiParams (b2 :: r2)) as [p [|f rest]] eqn:E; decode_cases.
Qed.
Lemma DecodeKey_consumes data msg n : DecodeKey data = (Some msg, n) -> consumes data n.
Proof.
  enough (data <> [] -> consumes data (snd (DecodeKey data))) as Hc.
  { intros E. rewrite E in Hc. apply Hc. by intros ->. }
  intros Hne. destruct data as [|b0 r0]; [done|]. unfold DecodeKey.
  destruct (negb (b0 =? 0x1b)); [apply consumes_one|]. destruct r0 as [|b1 r1]; [apply consumes_one|].
  destruct (negb (b1 =? 91) && _); [decode_cases|]. destruct (b1 =? 79); [destruct r1; decode_cases|].
  destruct r1 as [|b2 r2]; [decode_cases|].
  destruct (csiParams (b2 :: r2)) as [p [|f rest]] eqn:E; decode_cases.
Qed.

Lemma submitPrompt_total cm : CopyOK cm -> exists cm', submitPrompt cm = Some cm' /\ CopyOK cm' /\ sameFrame cm cm'.
Proof.
  intros Hok. unfold submitPrompt. set (cm1 := withPrompt _ cm). assert (H1 : CopyOK cm1) by (by apply OK_prompt).
  assert (Hs : forall forward, exists cm', runSearch forward (setQuery (promptBuf (promptS cm)) forward cm1) = Some cm' /\ CopyOK cm' /\ sameFrame cm cm').
  { intros forward. destruct (runSearch_total forward (setQuery (promptBuf (promptS cm)) forward cm1)) as (cm' & -> & H2 & H3); [by apply OK_query|].
    exists cm'. split; [done|]. split; [done|]. etrans; [|exact H3]. split; done. }
  destruct (prompt (promptS cm)); [by exists cm1|apply Hs..|].
  destruct (Atoi _) as [line|]; [|by exists cm1]. eexists. split; [done|].
  split; [apply OK_updateSelection, OK_setOy; [done|]; by apply clamp_range, maxOY_nonneg|].
  etrans; [|apply frame_updateSelection]. by apply frame_same.
Qed.
Lemma editPrompt_keyed msg cm : CopyOK cm -> keyed cm (editPrompt msg cm).
Proof.
  intros Hok. unfold editPrompt. destruct (textInputUpdate _ msg) as [v p] eqn:E. case_bool_decide as Heq.
  - injection Heq as -> ->. apply (keyed_quiet _ cm); [done|done|]. split; try done; [by apply OK_prompt|].
    intros _. split; try done. cbn. by destruct (promptS cm).
  - by apply keyed_redraw; [apply OK_prompt|..].
Qed.
Lemma keyed_stay cm a : CopyOK cm -> keyed cm (cm, a).
Proof. by split. Qed.

Lemma handlePromptInput_total data cm : CopyOK cm -> data <> [] ->
  exists r n, handlePromptInput data cm = Some (r, n) /\ keyed cm r /\ consumes data n.
Proof.
  intros Hok Hne. assert (H1 : consumes data 1) by (destruct data; [done|apply consumes_one]). unfold handlePromptInput.
  destruct (DecodeKey data) as [[msg|] n] eqn:E; [|eexists _, _; split; [done|]; by split; [apply keyed_stay|]].
  apply DecodeKey_consumes in E. destruct (Z.leb_spec n 0); [unfold consumes in E; lia|].
  assert (Hstay : exists r k, Some (cm, ActionNone, n) = Some (r, k) /\ keyed cm r /\ consumes data k).
  { eexists _, _. split; [done|]. by split; [apply keyed_stay|]. }
  assert (Hedit : exists r k, Some (editPrompt msg cm, n) = Some (r, k) /\ keyed cm r /\ consumes data k).
  { eexists _, _. split; [done|]. by split; [apply editPrompt_keyed|]. }
  destruct (Type_ msg); cbn [IsTextInputKey IsInlineEditingKey negb]; try done.
  - destruct (submitPrompt_total cm Hok) as (cm' & -> & ? & []). cbn [mbind option_bind].
    eexists _, _. split; [done|]. by split; [apply keyed_redraw|].
  - eexists _, _. split; [done|]. by split; [apply keyed_redraw; [apply OK_prompt|..]|].
  - destruct (_ && _); done.
Qed.

(** The only input that panics: a search backward along the line from beyond
    its end, by its target or by a repetition. *)
Definition chunkPanics (data : bytes) (cm : CopyMode) : Prop :=
  let key := fst (decodeCopyModeKey data) in
  prompt (promptS cm) = promptNone /\
  if pendingCharSearch (chars cm) =? 0 then keyPanics key cm
  else key <> 0x1b /\ 0 <= key <= 0xff /\ backward (pendingCharSearch (chars cm)) = true /\ pastLine cm.

Lemma quiet_scrollExit b cm : quiet cm (SetScrollExit b cm).
Proof. done. Qed.
Lemma consumePending_spec cm : CopyOK cm ->
  let '(cm', n) := consumePendingCharCount cm in
  CopyOK cm' /\ quiet cm cm' /\ pendingCount cm' = pendingCount cm /\ cursorLineRunes cm' = cursorLineRunes cm.
Proof.
  intros Hok. unfold consumePendingCharCount. destruct (_ <=? 0); [done|]. split; [|done]. apply OK_chars; [done|apply Hok|apply Hok].
Qed.

Lemma handleInputChunk_total data cm : CopyOK cm -> data <> [] -> ~ chunkPanics data cm ->
  exists r n, handleInputChunk data cm = Some (r, n) /\ keyed cm r /\ consumes data n.
Proof.
  intros Hok Hne Hp. unfold handleInputChunk. set (cm0 := SetScrollExit false cm).
  assert (Hok0 : CopyOK cm0) by (by apply OK_scrollExit).
  case_bool_decide as Hn; cbn [negb].
  - pose proof (decodeCopyModeKey_consumes data Hne) as Hc. unfold chunkPanics in Hp.
    destruct (decodeCopyModeKey data) as [key n]. cbn [fst snd] in *.
    destruct (Z.eqb_spec (pendingCharSearch (chars cm)) 0) as [Hz|Hz]; cbn [negb].
    + set (cm1 := if negb (isScrollKey key) then cm0 else cm).
      assert (Hq : quiet cm cm1 /\ CopyOK cm1 /\ chars cm1 = chars cm /\ pendingCount cm1 = pendingCount cm) by (unfold cm1; by destruct (negb _)).
      destruct Hq as (Hq & H1 & Hch & Hcnt).
      destruct (handleNormalKey_total key cm1 H1) as ([cm' a] & -> & Hk).
      { rewrite keyPanics_quiet by done. intros ?. by apply Hp. }
      cbn [mbind option_bind]. eexists _, _. split; [done|]. split; [|done].
      apply (keyed_quiet _ cm1); [done|by rewrite Hcnt|done].
    + destruct ((key =? 0x1b) || (key <? 0) || (0xff <? key)) eqn:Ek.
      * eexists _, _. split; [done|]. split; [|done]. apply (keyed_quiet _ (clearPendingChar cm0)); [done|done|].
        apply keyed_stay, OK_chars; [done|by left|apply Hok0].
      * apply orb_false_iff in Ek as [[Ek1 Ek2]%orb_false_iff Ek3]. apply Z.eqb_neq in Ek1. rewrite Z.ltb_ge in Ek2, Ek3.
        pose proof (consumePending_spec cm0 Hok0) as Hcp. destruct (consumePendingCharCount cm0) as [cm1 k].
        destruct Hcp as (H1 & Hq1 & Hcnt & Hl).
        change (chars cm0) with (chars cm). set (cmd := pendingCharSearch (chars cm)) in *.
        destruct (executeCharSearch_total cmd key k cm1 H1 (ok_pending cm Hok)) as ([cm' a] & -> & Hg & _).
        { intros Hb Hpl. apply Hp. split; [done|]. split; [done|]. split; [lia|]. split; [done|].
          unfold pastLine in *. rewrite Hl in Hpl. destruct Hq1 as [_ _ _ Hcu _ _ _ _]. rewrite Hcu in Hpl. done. }
        cbn [mbind option_bind]. eexists _, _. split; [done|]. split; [|done].
        apply (keyed_quiet _ cm1); [etrans; [apply quiet_scrollExit|exact Hq1]|rewrite Hcnt; done|].
        apply keyed_good in Hg. destruct Hg. cbn [fst snd] in *. split; cbn [fst snd]; try done; [apply OK_chars; [done|by left|by apply ok_last]|].
        intros Ha. etrans; [by apply k_quiet0|done].
  - destruct (handlePromptInput_total data cm0 Hok0 Hne) as (r & n & -> & Hk & Hc). eexists _, _. split; [done|]. split; [|done].
    by apply (keyed_quiet _ cm0).
Qed.
Lemma handleInputChunk_panics data cm : CopyOK cm -> chunkPanics data cm -> handleInputChunk data cm = None.
Proof.
  intros Hok [Hn Hp]. unfold handleInputChunk. rewrite bool_decide_true by done. cbn [negb].
  destruct (decodeCopyModeKey data) as [key n]. cbn [fst] in Hp.
  set (cm0 := SetScrollExit false cm) in *. assert (Hok0 : CopyOK cm0) by (by apply OK_scrollExit).
  destruct (Z.eqb_spec (pendingCharSearch (chars cm)) 0) as [Hz|Hz]; cbn [negb].
  - set (cm1 := if negb (isScrollKey key) then cm0 else cm).
    assert (Hq : quiet cm cm1 /\ CopyOK cm1 /\ chars cm1 = chars cm) by (unfold cm1; by destruct (negb _)). destruct Hq as (Hq & H1 & Hch).
    rewrite handleNormalKey_panics; [done|done|]. by rewrite keyPanics_quiet.
  - destruct Hp as (Hk & Hr & Hb & Hpl).
    destruct (Z.eqb_spec key 0x1b), (Z.ltb_spec key 0), (Z.ltb_spec 0xff key); try lia. cbn [orb].
    pose proof (consumePending_spec cm0 Hok0) as Hcp. destruct (consumePendingCharCount cm0) as [cm1 k].
    destruct Hcp as (H1 & Hq1 & Hcnt & Hl). rewrite executeCharSearch_panics; [done|done|].
    unfold pastLine in *. rewrite Hl. destruct Hq1 as [_ _ _ -> _ _ _ _]. done.
Qed.
End Input.
