(* ===== verification/CopyInputFacts.v ===== *)
(** * Copy mode: input

    The chunks of the input in sequence, the input that panics as an inductive
    predicate, the reachable states, and the lemmas on redraws, batches and
    lines that the properties use; a concrete copy mode. *)

From S2P Require Import Prelude GoText GoCodec GoWire GoRunes CopyMode CopyMotion CopyInput CopyOverlay CopyFacts CopySearch CopySteps.

Section InputFacts.
Context {U : Unicode} {TI : TextInput}.

(** Some chunk of the input panics. *)
Inductive inputPanics : bytes -> CopyMode -> Prop :=
| panics_now data cm : data <> [] -> chunkPanics data cm -> inputPanics data cm
| panics_later data cm cm' a n : data <> [] -> handleInputChunk data cm = Some (cm', a, n) ->
    (a = ActionNone \/ a = ActionRedraw) -> inputPanics (drop (Z.to_nat n) data) cm' -> inputPanics data cm.

#[local] Instance chunkPanics_dec data cm : Decision (chunkPanics data cm).
Proof. unfold chunkPanics, keyPanics, repeatPanics, pastLine. destruct (pendingCharSearch (chars cm) =? 0); apply _. Defined.

Lemma handleChunks_cons fuel data result cm : data <> [] -> handleChunks (S fuel) data result cm =
  ('(cm, action, consumed) ← handleInputChunk data cm;
   match action with
   | ActionExit | ActionYank => Some (cm, action)
   | ActionRedraw => handleChunks fuel (drop (Z.to_nat consumed) data) ActionRedraw cm
   | ActionNone => handleChunks fuel (drop (Z.to_nat consumed) data) result cm
   end).
Proof. by destruct data. Qed.

Lemma keyed_trans cm r r' : keyed cm (r, ActionNone) -> keyed r r' -> keyed cm r'.
Proof.
  intros [A1 A2 A3 A4 Ax A5 A6] [B1 B2 B3 B4 Bx B5 B6]. cbn [fst snd] in *. split; try done; try congruence.
  - auto.
  - intros. etrans; [by apply A5|auto].
  - auto.
Qed.
Lemma keyed_after cm cm1 a r : keyed cm (cm1, a) -> keyed cm1 r -> snd r <> ActionNone -> keyed cm r.
Proof.
  intros [A1 A2 A3 A4 Ax _ _] [B1 B2 B3 B4 Bx _ _] ?. cbn [fst snd] in *. split; try done; try congruence. auto.
Qed.

Lemma handleChunks_spec fuel data result cm : CopyOK cm -> (length data <= fuel)%nat ->
  (~ inputPanics data cm -> exists r, handleChunks fuel data result cm = Some r /\
     (result = ActionNone -> keyed cm r) /\ (result = ActionRedraw -> snd r <> ActionNone /\ (forall cm0 , keyed cm0 (cm, ActionRedraw) -> keyed cm0 r))) /\
  (inputPanics data cm -> handleChunks fuel data result cm = None).
Proof.
  revert data result cm. induction fuel as [|fuel IH]; intros data result cm Hok Hlen.
  { destruct data; [|simpl in Hlen; lia]. split; [|by intros Hp; inversion Hp].
    intros _. eexists. split; [done|]. split; [intros ->; by apply keyed_stay|]. intros ->. by split. }
  destruct (decide (data = [])) as [->|Hne].
  { split; [|by intros Hp; inversion Hp].
    intros _. eexists. split; [by destruct fuel|]. split; [intros ->; by apply keyed_stay|]. intros ->. by split. }
  rewrite handleChunks_cons by done. destruct (decide (chunkPanics data cm)) as [Hcp|Hcp].
  { split; [intros Hn; exfalso; by apply Hn, panics_now|]. intros _. by rewrite handleInputChunk_panics. }
  destruct (handleInputChunk_total data cm Hok Hne Hcp) as ([cm1 a] & n & E & Hk & Hc). rewrite E. cbn [mbind option_bind].
  assert (Hlen1 : (length (drop (Z.to_nat n) data) <= fuel)%nat) by (rewrite length_drop; unfold consumes, lenZ in *; lia).
  assert (Hok1 : CopyOK cm1) by (by destruct Hk).
  assert (Hinv : inputPanics data cm <-> (a = ActionNone \/ a = ActionRedraw) /\ inputPanics (drop (Z.to_nat n) data) cm1).
  { split; [|intros [? ?]; by eapply panics_later].
    intros Hp. inversion Hp as [|? ? cm2 a2 n2 ? E2 Ha Hp2]; subst; [done|]. rewrite E in E2. by injection E2 as <- <- <-. }
  destruct a.
  - destruct (IH (drop (Z.to_nat n) data) result cm1 Hok1 Hlen1) as [IH1 IH2]. split.
    + intros Hn. destruct IH1 as (r & Hr & Hr1 & Hr2); [tauto|]. exists r. split; [done|]. split.
      * intros Hres. eapply keyed_trans; [exact Hk|auto].
      * intros Hres. destruct (Hr2 Hres) as [Hne2 Hk2]. split; [done|]. intros cm0 H0. apply Hk2.
        apply (keyed_after _ cm ActionRedraw); [exact H0| |done]. destruct Hk. by split.
    + intros [_ Hp]%Hinv. auto.
  - destruct (IH (drop (Z.to_nat n) data) ActionRedraw cm1 Hok1 Hlen1) as [IH1 IH2]. split.
    + intros Hn. destruct IH1 as (r & Hr & _ & Hr2); [tauto|]. exists r. split; [done|]. destruct (Hr2 eq_refl) as [Hne2 Hk2].
      split; [intros _; by apply Hk2|]. intros _. split; [done|]. intros cm0 H0. apply Hk2. by apply (keyed_after _ cm ActionRedraw).
    + intros [_ Hp]%Hinv. auto.
  - split; [|intros [[?|?] _]%Hinv; done]. intros _. eexists. split; [done|]. split; [done|]. intros _. split; [done|].
    intros cm0 H0. by apply (keyed_after _ cm ActionRedraw).
  - split; [|intros [[?|?] _]%Hinv; done]. intros _. eexists. split; [done|]. split; [done|]. intros _. split; [done|].
    intros cm0 H0. by apply (keyed_after _ cm ActionRedraw).
Qed.
Lemma handleChunks_none fuel data result cm : CopyOK cm -> (length data <= fuel)%nat ->
  handleChunks fuel data result cm = None -> inputPanics data cm.
Proof.
  revert data result cm. induction fuel as [|fuel IH]; intros data result cm Hok Hlen Hn.
  { by destruct data; [|simpl in Hlen; lia]. }
  destruct (decide (data = [])) as [->|Hne]; [done|]. rewrite handleChunks_cons in Hn by done.
  destruct (decide (chunkPanics data cm)) as [Hcp|Hcp]; [by apply panics_now|].
  destruct (handleInputChunk_total data cm Hok Hne Hcp) as ([cm1 a] & n & E & [Hok1 _ _ _ _ _] & Hc). rewrite E in Hn. cbn [mbind option_bind] in Hn.
  assert (Hlen1 : (length (drop (Z.to_nat n) data) <= fuel)%nat) by (rewrite length_drop; unfold consumes, lenZ in *; lia).
  destruct a; try done; (eapply panics_later; [done|exact E|auto|by eapply IH]).
Qed.
Lemma HandleInput_spec data cm : CopyOK cm ->
  (~ inputPanics data cm -> exists r, HandleInput data cm = Some r /\ keyed cm r) /\
  (inputPanics data cm -> HandleInput data cm = None).
Proof.
  intros Hok. destruct (handleChunks_spec (length data) data ActionNone cm Hok) as [H1 H2]; [done|]. split; [|exact H2].
  intros Hn. destruct (H1 Hn) as (r & ? & Hk & _). exists r. split; [done|auto].
Qed.
End InputFacts.

(** ** Reachable states *)

Section Reachable.
Context {U : Unicode} {TI : TextInput}.

(** The calls of the client on a copy mode. *)
Inductive copyStep : CopyMode -> CopyMode -> Prop :=
| step_input data cm r : HandleInput data cm = Some r -> copyStep cm (fst r)
| step_resize w h cm : 1 <= w -> 1 <= h -> copyStep cm (Resize w h cm)
| step_cursor c r cm : copyStep cm (fst (SetCursor c r cm))
| step_start cm : copyStep cm (fst (StartSelection cm))
| step_clear cm : copyStep cm (fst (ClearSelection cm))
| step_line cm : copyStep cm (fst (SelectLine cm))
| step_word cm r : SelectWord cm = Some r -> copyStep cm (fst r)
| step_rect cm : copyStep cm (fst (ToggleRectangleSelection cm))
| step_other cm : copyStep cm (fst (OtherEnd cm))
| step_up n cm : copyStep cm (fst (WheelScrollUp n cm))
| step_down n cm : copyStep cm (fst (WheelScrollDown n cm))
| step_exit b cm : copyStep cm (SetScrollExit b cm)
| step_consume cm : copyStep cm (fst (ConsumeCopyText cm)).
Definition copyReachable (e : TerminalEmulator) (cm : CopyMode) : Prop :=
  exists w h row, 1 <= w /\ 1 <= h /\ rtc copyStep (New e w h row) cm.

Lemma New_ok e w h row : emulatorOK e -> 1 <= w -> 1 <= h -> CopyOK (New e w h row).
Proof.
  intros He Hw Hh. split; try done; cbn; try lia.
  - unfold clamp. lia.
  - by left.
  - by left.
  - by left.
Qed.
Lemma Resize_CopyOK w h cm : CopyOK cm -> 1 <= w -> 1 <= h -> CopyOK (Resize w h cm).
Proof.
  intros Hok Hw Hh. pose proof (maxOY_nonneg cm Hok). unfold Resize.
  set (o := clamp _ 0 (maxOY (withSize w h cm))). set (y := clamp _ 0 (height _ - 1)). set (x := clamp _ 0 (width _ - 1)).
  assert (0 <= o <= maxOY cm) by (by apply clamp_range). assert (0 <= y < h) by (by apply clamp_lt).
  assert (0 <= x) by (apply clamp_range; cbn; lia). clearbody o x y. destruct Hok. by split.
Qed.
(** What a call keeps. *)
Definition kept (cm cm' : CopyMode) : Prop := CopyOK cm' /\ emu cm' = emu cm /\ (columnsOK cm -> columnsOK cm').
Lemma good_kept cm r : good cm r -> kept cm (fst r).
Proof. by intros (? & [] & ?). Qed.
Lemma Resize_columns w h cm : 1 <= w -> columnsOK cm -> columnsOK (Resize w h cm).
Proof.
  intros Hw [_ Hm]. split; [|exact Hm].
  left. pose proof (clamp_range (cx (cursor cm)) 0 (w - 1) ltac:(lia)). cbn. lia.
Qed.
Lemma copyStep_ok cm cm' : copyStep cm cm' -> CopyOK cm -> kept cm cm'.
Proof.
  intros Hs Hok. destruct Hs as [data cm r Hr| | | | | |cm r Hr| | | | | |].
  - destruct (HandleInput_spec data cm Hok) as [H1 H2].
    destruct H1 as (r' & Hr' & []); [intros Hp; by rewrite H2 in Hr|]. by simplify_eq.
  - split; [by apply Resize_CopyOK|]. split; [done|by apply Resize_columns].
  - by apply good_kept, SetCursor_good.
  - by apply good_kept, StartSelection_good.
  - by apply good_kept, ClearSelection_good.
  - split; [by apply SelectLine_ok|done].
  - destruct (SelectWord_total cm Hok) as (r' & Hr' & Hg). simplify_eq. by apply good_kept.
  - by apply good_kept, ToggleRectangle_good.
  - by apply good_kept, OtherEnd_good.
  - by apply good_kept, WheelScrollUp_good.
  - by apply good_kept, WheelScrollDown_good.
  - split; [by apply OK_scrollExit|done].
  - split; [by apply OK_copied|done].
Qed.

End Reachable.

(** ** Redraws and batches *)

Section Redraws.
Context {U : Unicode} {TI : TextInput}.

Lemma quiet_overlay cm cm' : quiet cm cm' ->
  viewportOverlay cm' = viewportOverlay cm /\ FirstVisibleLine cm' = FirstVisibleLine cm /\ lineText cm' = lineText cm.
Proof.
  intros Hq. assert (Hm : forall ms i b, matchHighlights cm' i ms b = matchHighlights cm i ms b).
  { destruct cm, cm', Hq. cbn in *. subst. induction ms as [|m ms IH]; intros i b; [done|]. cbn [matchHighlights]. apply IH. }
  unfold viewportOverlay, addMatchHighlights. rewrite (q_search _ _ Hq).
  assert (Hs : selectionRange cm' ∅ = selectionRange cm ∅) by (destruct cm, cm', Hq; cbn in *; subst; reflexivity).
  rewrite Hs, (q_cursor _ _ Hq). destruct (selectionRange cm ∅) as [range b]. rewrite Hm. split; [done|].
  destruct cm, cm', Hq. cbn in *. subst. by split.
Qed.
Lemma quiet_bar cm cm' : quiet cm cm' -> pendingCount cm <= 0 -> pendingCount cm' <= 0 -> SearchBarText cm' = SearchBarText cm.
Proof.
  intros [E1 _ _ E2 E3 _ _ E4] Hc Hc'. unfold SearchBarText, promptPart, maxOY. rewrite E1, E2, E3, E4.
  destruct (Z.ltb_spec 0 (pendingCount cm)), (Z.ltb_spec 0 (pendingCount cm')); try lia. done.
Qed.

(** A chunk that does not start with an escape is its first byte. *)
Lemma chunk_head x l cm : x <> 27 -> handleInputChunk (x :: l) cm = handleInputChunk [x] cm.
Proof.
  intros Hx. apply Z.eqb_neq in Hx. unfold handleInputChunk, handlePromptInput, DecodeKey, decodeCopyModeKey.
  change 0x1b with 27. by rewrite Hx.
Qed.
Lemma chunk_head_consumed x l cm cm' a n : x <> 27 -> handleInputChunk (x :: l) cm = Some (cm', a, n) -> n = 1.
Proof.
  intros Hx. apply Z.eqb_neq in Hx. unfold handleInputChunk, handlePromptInput, DecodeKey, decodeCopyModeKey.
  change 0x1b with 27. rewrite Hx. cbn [negb Z.leb Z.compare].
  destruct (negb (bool_decide _)).
  - destruct (decodeControlOrRune x) as [msg|]; [|by intros [= <- <- <-]].
    destruct (Type_ msg); cbn [IsTextInputKey IsInlineEditingKey negb]; repeat case_match; intros; simplify_option_eq; done.
  - destruct (negb _).
    + destruct (_ || _); [by intros [= <- <- <-]|]. destruct (consumePendingCharCount _) as [cm1 k].
      destruct (executeCharSearch _ _ _ _) as [[cm2 a2]|]; cbn [mbind option_bind]; [|done]. by intros [= <- <- <-].
    + destruct (handleNormalKey _ _) as [[cm2 a2]|]; cbn [mbind option_bind]; [|done]. by intros [= <- <- <-].
Qed.

(** Actions accumulate: a redraw stays one. *)
Definition accumulate (result a : Action) : Action := match a with ActionNone => result | _ => a end.
Lemma handleChunks_accumulate fuel data result cm :
  handleChunks fuel data result cm = '(cm', a) ← handleChunks fuel data ActionNone cm; Some (cm', accumulate result a).
Proof.
  revert data result cm. induction fuel as [|fuel IH]; intros [|x l] result cm; try done. cbn [handleChunks].
  destruct (handleInputChunk (x :: l) cm) as [[[cm1 a] n]|]; cbn [mbind option_bind]; [|done].
  destruct a; [apply IH| |done|done]. rewrite (IH _ ActionRedraw). destruct (handleChunks _ _ _ _) as [[cm2 a2]|]; [|done].
  cbn [mbind option_bind]. by destruct a2.
Qed.

Definition stops (a : Action) : bool := match a with ActionExit | ActionYank => true | _ => false end.
Lemma handleChunks_app fuel a b result cm : (27 ∉ a) -> stops result = false ->
  handleChunks (length a + fuel) (a ++ b) result cm =
  ('(cm', r) ← handleChunks (length a) a result cm; if stops r then Some (cm', r) else handleChunks fuel b r cm').
Proof.
  revert result cm. induction a as [|x a IH]; intros result cm Ha Hs.
  - cbn. rewrite Hs. by destruct fuel.
  - apply not_elem_of_cons in Ha as [Hx Ha]. cbn [length Nat.add app handleChunks].
    rewrite (chunk_head x (a ++ b)), (chunk_head x a) by congruence.
    destruct (handleInputChunk [x] cm) as [[[cm1 r] n]|] eqn:E; cbn [mbind option_bind]; [|done].
    apply chunk_head_consumed in E as ->; [|congruence]. change (drop (Z.to_nat 1) (x :: a ++ b)) with (a ++ b).
    change (drop (Z.to_nat 1) (x :: a)) with a. destruct r; try done; by apply IH.
Qed.

End Redraws.

(** ** Lines *)

Lemma repeatDown n moved cm : CopyOK cm ->
  let '(cm', moved') := repeatMoves n moveDown moved cm in
  CopyOK cm' /\ cm' = withCursor (cursor cm') cm /\ cx (cursor cm') = cx (cursor cm) /\
  cursorAbsLine cm' = Z.min (cursorAbsLine cm + Z.of_nat n) (TotalLines cm - 1) /\
  (moved' = false <-> moved = false /\ cursorAbsLine cm' = cursorAbsLine cm).
Proof.
  revert moved cm. induction n as [|n IH]; intros moved cm Hok; cbn [repeatMoves]; pose proof (cursorAbsLine_range cm Hok).
  - split; [done|]. split; [by rewrite withCursor_self|]. split; [done|]. split; [lia|]. tauto.
  - pose proof (moveDown_spec cm Hok) as Hm. destruct (moveDown cm) as [cm1 ok]. destruct Hm as (H1 & E1 & X1 & Hm). destruct ok.
    + specialize (IH true cm1 H1). destruct (repeatMoves n moveDown true cm1) as [cm' moved']. destruct IH as (I1 & I2 & I3 & I4 & I5).
      assert (ET : TotalLines cm1 = TotalLines cm) by (by rewrite E1). rewrite ET, Hm in I4.
      split; [done|]. split; [rewrite I2 at 1; rewrite E1; by destruct cm|]. split; [congruence|]. split; [lia|].
      split; [intros E; apply I5 in E; by destruct E|]. intros [_ ?].
      pose proof (cursorAbsLine_range cm1 H1). lia.
    + destruct Hm as [-> Hm]. split; [done|]. split; [by rewrite withCursor_self|]. split; [done|]. split; [lia|]. tauto.
Qed.
Lemma repeatUp n moved cm : CopyOK cm ->
  let '(cm', moved') := repeatMoves n moveUp moved cm in
  CopyOK cm' /\ cm' = withCursor (cursor cm') cm /\ cx (cursor cm') = cx (cursor cm) /\
  cursorAbsLine cm' = Z.max (cursorAbsLine cm - Z.of_nat n) 0 /\
  (moved' = false <-> moved = false /\ cursorAbsLine cm' = cursorAbsLine cm).
Proof.
  revert moved cm. induction n as [|n IH]; intros moved cm Hok; cbn [repeatMoves]; pose proof (cursorAbsLine_range cm Hok).
  - split; [done|]. split; [by rewrite withCursor_self|]. split; [done|]. split; [lia|]. tauto.
  - pose proof (moveUp_spec cm Hok) as Hm. destruct (moveUp cm) as [cm1 ok]. destruct Hm as (H1 & E1 & X1 & Hm). destruct ok.
    + specialize (IH true cm1 H1). destruct (repeatMoves n moveUp true cm1) as [cm' moved']. destruct IH as (I1 & I2 & I3 & I4 & I5).
      rewrite Hm in I4. pose proof (cursorAbsLine_range cm1 H1).
      split; [done|]. split; [rewrite I2 at 1; rewrite E1; by destruct cm|]. split; [congruence|]. split; [lia|].
      split; [intros E; apply I5 in E; by destruct E|]. intros [_ ?]. lia.
    + destruct Hm as [-> Hm]. split; [done|]. split; [by rewrite withCursor_self|]. split; [done|]. split; [lia|]. tauto.
Qed.

(** ** Copy mode: a sample pane

    A frozen pane, the interfaces instantiated for ASCII, and the states that
    keys reach from it: the inputs of the witnesses. *)

(** A text field that appends what is typed and deletes the last byte. *)
Definition appendInput : TextInput := {|
  textInputUpdate '(v, p) msg :=
    match Type_ msg with
    | KeyRunes => (v ++ fromRunes (Runes msg), p + lenZ (Runes msg))
    | KeyBackspace => (take (length v - 1) v, Z.max 0 (p - 1))
    | _ => (v, p)
    end
|}.
#[export] Existing Instance appendInput.
#[export] Existing Instance asciiUnicode.

Definition sampleBuffer : paneBufferSnapshot :=
  mkBuffer 12 3 2 [bytesOf "f(a[0], {"; bytesOf "x = foo"] [bytesOf "} (foo"; bytesOf "q)"; bytesOf "foo bar)"].
Definition sampleMode : CopyMode := New (bufferEmulator sampleBuffer) 12 3 2.
(** The state after some input. *)
Definition sampleAfter (data : bytes) : CopyMode :=
  match HandleInput data sampleMode with Some (cm, _) => cm | None => sampleMode end.

Lemma sampleMode_ok : CopyOK sampleMode.
Proof. apply New_ok; [|done..]. unfold emulatorOK. cbn. done. Qed.
Lemma sampleAfter_ok data : CopyOK (sampleAfter data).
Proof.
  unfold sampleAfter. destruct (HandleInput data sampleMode) as [[cm a]|] eqn:E; [|apply sampleMode_ok].
  destruct (HandleInput_spec data sampleMode sampleMode_ok) as [H1 H2].
  destruct H1 as (r & Hr & []); [intros Hp; by rewrite H2 in E|]. by simplify_eq.
Qed.

(** The cursor: column, row and offset. *)
Definition place3 (cm : CopyMode) : Z * Z * Z := (cx (cursor cm), cy (cursor cm), oy (cursor cm)).
Example sample_motions :
  map (fun keys => place3 (sampleAfter (bytesOf keys))) ["w"; "e"; "kk"; "3k$"; "gl%"; "gl%%"; "2lvk"; "H5l"]%string =
  [(4, 2, 0); (2, 2, 0); (0, 0, 0); (6, 0, 1); (7, 2, 0); (1, 0, 2); (2, 1, 0); (5, 0, 0)].
Proof. vm_compute. reflexivity. Qed.
