(* ===== verification/CopyProps.v ===== *)
(** * Copy mode: properties of its states and its input

    The invariant of every reachable state, the exact inputs that panic, the
    completeness of the redraw requests, batching, and the lines the cursor
    moves over; then inputs on which the code does what it should not. *)

From S2P Require Import Prelude GoText GoCodec GoWire GoRunes CopyMode CopyMotion CopyInput CopyOverlay CopyFacts CopySearch CopySteps CopyInputFacts.

Section Properties.
Context {U : Unicode} {TI : TextInput}.

(** C3. In every state the calls of the client reach from [New], the sizes
    positive, the row of the cursor is inside the viewport and on a line of the
    buffer and the offset within the scrollback.  The column is never negative
    and lies within the width of the viewport or on a character of some line of
    the frozen pane: an end of line and a hit beyond the right edge are the
    columns that leave the viewport, and [k] and [j] keep the column.  The
    current hit is one of the hits, every hit starts on a character, and no
    selection makes the copy panic. *)
Theorem copy_reachable e cm : emulatorOK e -> copyReachable e cm ->
  CopyOK cm /\ emu cm = e /\
  (0 <= cx (cursor cm) /\ 0 <= cy (cursor cm) < height cm /\ 0 <= oy (cursor cm) <= ScrollbackLen e) /\
  (cx (cursor cm) < width cm \/ exists y, cx (cursor cm) < lenZ (lineRunes cm y)) /\
  Forall (fun m => exists y, Col m < lenZ (lineRunes cm y)) (matches (search cm)) /\
  (0 <= cursorAbsLine cm < TotalLines cm /\ FirstVisibleLine cm + cy (cursor cm) = cursorAbsLine cm) /\
  (matches (search cm) <> [] -> exists m, currentMatch cm = Some m) /\
  (exists t, SelectedText cm = Some t).
Proof.
  intros He (w & h & row & Hw & Hh & Hr).
  assert (Hok : CopyOK cm /\ emu cm = e /\ columnsOK cm).
  { assert (H0 : CopyOK (New e w h row) /\ emu (New e w h row) = e /\ columnsOK (New e w h row))
      by (split; [by apply New_ok|]; split; [done|]; split; [left; cbn; lia|constructor]).
    induction Hr as [|x y z Hs Hr IH]; [done|]. apply IH. destruct H0 as (H0 & E & Hx).
    destruct (copyStep_ok x y Hs H0) as (? & -> & ?). auto. }
  destruct Hok as (Hok & E & Hx & Hm). split; [done|]. split; [done|]. pose proof (ok_oy cm Hok) as Ho. unfold maxOY in Ho. rewrite E in Ho.
  split; [split; [apply Hok|]; split; [apply Hok|exact Ho]|]. split; [exact Hx|]. split; [exact Hm|]. split.
  { split; [by apply cursorAbsLine_range|]. rewrite FirstVisibleLine_eq, cursorAbsLine_eq by done. done. }
  split; [|by apply SelectedText_total]. intros Hne. apply index_lt. destruct (ok_matchIdx cm Hok) as [[? _]|Hi]; [done|exact Hi].
Qed.

(** C4. HandleInput always ends: it panics exactly when some chunk searches
    backward along the line (F, T, or a repetition of one) from beyond the end
    of the line, and otherwise returns with a well-formed state. *)
Theorem input_panics_exactly data cm : CopyOK cm ->
  (HandleInput data cm = None <-> inputPanics data cm) /\
  (~ inputPanics data cm -> exists cm' a, HandleInput data cm = Some (cm', a) /\ CopyOK cm').
Proof.
  intros Hok. destruct (HandleInput_spec data cm Hok) as [H1 H2]. split.
  - split; [|exact H2]. by apply handleChunks_none.
  - intros Hp. destruct (H1 Hp) as ([cm' a] & ? & []). by exists cm', a.
Qed.

(** C39. Input that does not ask for a redraw has changed nothing that is
    drawn: the overlay, the lines in view and, unless a repeat count was
    typed before, the prompt line. *)
Theorem redraw_complete data cm cm' : CopyOK cm -> HandleInput data cm = Some (cm', ActionNone) ->
  viewportOverlay cm' = viewportOverlay cm /\ FirstVisibleLine cm' = FirstVisibleLine cm /\ lineText cm' = lineText cm /\
  (pendingCount cm <= 0 -> SearchBarText cm' = SearchBarText cm).
Proof.
  intros Hok Hr. destruct (HandleInput_spec data cm Hok) as [H1 H2].
  destruct H1 as (r & Hr' & Hk); [intros Hp; by rewrite H2 in Hr|]. rewrite Hr in Hr'. injection Hr' as <-.
  destruct Hk as [_ _ _ _ _ Hq Hc]. cbn [fst snd] in *. specialize (Hq eq_refl). destruct (quiet_overlay _ _ Hq) as (? & ? & ?).
  do 3 (split; [done|]). intros Hle. apply quiet_bar; auto.
Qed.

(** Keystrokes that arrive in one read are handled as if they had arrived
    one read after the other: input without escape bytes followed by any input
    gives the state of the two calls, unless the first leaves copy mode. *)
Theorem batched_input a b cm : (27 ∉ a) ->
  HandleInput (a ++ b) cm =
  ('(cm', r) ← HandleInput a cm;
   if stops r then Some (cm', r) else '(cm'', r') ← HandleInput b cm'; Some (cm'', accumulate r r')).
Proof.
  intros Ha. unfold HandleInput. rewrite length_app, handleChunks_app by done.
  destruct (handleChunks (length a) a _ _) as [[cm' r]|]; cbn [mbind option_bind]; [|done].
  destruct (stops r); [done|]. apply handleChunks_accumulate.
Qed.

(** [j] and [k] with a count move the cursor over exactly that many lines
    of the buffer, scrolling where it leaves the viewport, and stop at the
    first and the last line; the column stays, and only a move asks for a
    redraw. *)
Theorem moved_lines n cm : CopyOK cm -> 0 <= n ->
  (let '(cm', a) := repeatMotion n moveDown cm in
   CopyOK cm' /\ cursorAbsLine cm' = Z.min (cursorAbsLine cm + n) (TotalLines cm - 1) /\ cx (cursor cm') = cx (cursor cm) /\
   (a = ActionNone <-> cursorAbsLine cm' = cursorAbsLine cm)) /\
  (let '(cm', a) := repeatMotion n moveUp cm in
   CopyOK cm' /\ cursorAbsLine cm' = Z.max (cursorAbsLine cm - n) 0 /\ cx (cursor cm') = cx (cursor cm) /\
   (a = ActionNone <-> cursorAbsLine cm' = cursorAbsLine cm)).
Proof.
  intros Hok Hn. unfold repeatMotion. split.
  - pose proof (repeatDown (Z.to_nat n) false cm Hok) as Hd. destruct (repeatMoves _ moveDown _ _) as [cm' moved].
    destruct Hd as (D1 & D2 & D3 & D4 & D5). rewrite Z2Nat.id in D4 by done. destruct moved; cbn [negb].
    + rewrite cursorAbsLine_updateSelection, updateSelection_cursor. split; [by apply OK_updateSelection|].
      do 2 (split; [done|]). split; [done|]. intros E. destruct D5 as [_ D5]. by discriminate D5.
    + destruct D5 as [D5 _]. destruct (D5 eq_refl) as [_ E]. pose proof (cursorAbsLine_range cm Hok).
      split; [done|]. split; [lia|]. split; [done|]. by split.
  - pose proof (repeatUp (Z.to_nat n) false cm Hok) as Hd. destruct (repeatMoves _ moveUp _ _) as [cm' moved].
    destruct Hd as (D1 & D2 & D3 & D4 & D5). rewrite Z2Nat.id in D4 by done. destruct moved; cbn [negb].
    + rewrite cursorAbsLine_updateSelection, updateSelection_cursor. split; [by apply OK_updateSelection|].
      do 2 (split; [done|]). split; [done|]. intros E. destruct D5 as [_ D5]. by discriminate D5.
    + destruct D5 as [D5 _]. destruct (D5 eq_refl) as [_ E]. pose proof (cursorAbsLine_range cm Hok).
      split; [done|]. split; [lia|]. split; [done|]. by split.
Qed.
End Properties.

(** ** Witnesses *)

Strategy 100 [sampleMode sampleAfter HandleInput].

Lemma sampleAfter_reachable data : HandleInput data sampleMode <> None -> copyReachable (bufferEmulator sampleBuffer) (sampleAfter data).
Proof.
  intros Hn. exists 12, 3, 2. split; [lia|]. split; [lia|]. unfold sampleAfter.
  destruct (HandleInput data sampleMode) as [[cm a]|] eqn:E; [|done].
  eapply rtc_l; [exact (step_input data sampleMode (cm, a) E)|]. apply rtc_refl.
Qed.
Definition foundKeys : bytes := bytesOf "k/FOO" ++ [13] ++ bytesOf "vl".
Lemma copy_reachable_witness :
  copyReachable (bufferEmulator sampleBuffer) (sampleAfter foundKeys) /\
  (cx (cursor (sampleAfter foundKeys)) < width (sampleAfter foundKeys) \/
   exists y, cx (cursor (sampleAfter foundKeys)) < lenZ (lineRunes (sampleAfter foundKeys) y)) /\
  0 <= cursorAbsLine (sampleAfter foundKeys) < TotalLines (sampleAfter foundKeys) /\
  (exists t, SelectedText (sampleAfter foundKeys) = Some t).
Proof.
  assert (Hr : copyReachable (bufferEmulator sampleBuffer) (sampleAfter foundKeys)) by (apply sampleAfter_reachable; by vm_compute).
  assert (He : emulatorOK (bufferEmulator sampleBuffer)) by by vm_compute.
  destruct (copy_reachable _ _ He Hr) as (_ & _ & _ & Hx & _ & (Hl & _) & _ & Ht).
  split; [exact Hr|]. split; [exact Hx|]. split; [exact Hl|exact Ht].
Defined.

Lemma input_panics_exactly_witness :
  inputPanics (bytesOf "Fo") (sampleAfter (bytesOf "10l")) /\ ~ inputPanics (bytesOf "fo") (sampleAfter (bytesOf "10l")).
Proof.
  destruct (input_panics_exactly (bytesOf "Fo") (sampleAfter (bytesOf "10l")) (sampleAfter_ok _)) as [H1 _].
  destruct (input_panics_exactly (bytesOf "fo") (sampleAfter (bytesOf "10l")) (sampleAfter_ok _)) as [H2 _].
  split; [apply H1; by vm_compute|]. intros Hp. apply H2 in Hp. by vm_compute in Hp.
Defined.

Lemma redraw_complete_witness :
  HandleInput (bytesOf "uh") sampleMode = Some (sampleAfter (bytesOf "uh"), ActionNone) /\
  viewportOverlay (sampleAfter (bytesOf "uh")) = viewportOverlay sampleMode.
Proof.
  assert (E : HandleInput (bytesOf "uh") sampleMode = Some (sampleAfter (bytesOf "uh"), ActionNone)) by reflexivity.
  split; [exact E|]. exact (proj1 (redraw_complete _ _ _ sampleMode_ok E)).
Defined.

Lemma batched_input_witness : place3 (sampleAfter (bytesOf "k" ++ bytesOf "3l")) = (3, 1, 0) /\
  HandleInput (bytesOf "k" ++ bytesOf "3l") sampleMode =
  ('(cm', r) ← HandleInput (bytesOf "k") sampleMode;
   if stops r then Some (cm', r) else '(cm'', r') ← HandleInput (bytesOf "3l") cm'; Some (cm'', accumulate r r')).
Proof.
  split; [by vm_compute|]. apply batched_input. intros H. apply list_elem_of_singleton in H. by vm_compute in H.
Defined.

Lemma moved_lines_witness :
  cursorAbsLine (fst (repeatMotion 9 moveUp sampleMode)) = 0 /\ cursorAbsLine sampleMode = 4.
Proof.
  split; [|by vm_compute]. destruct (moved_lines 9 sampleMode sampleMode_ok ltac:(lia)) as [_ H].
  destruct (repeatMotion 9 moveUp sampleMode) as [cm' a]. destruct H as (_ & H & _). exact H.
Defined.

(** ** Copy mode: where the code falls short

    Concrete states that show what the theorems leave open: a search backward
    from beyond the line panics, a selection over several lines is cut by
    bytes, [E] above blank lines moves back, a repeat count stays drawn after
    an unknown key, and a large one overflows. *)

(** The action of some input and what a state shows of it. *)
Definition outcome {A} (f : CopyMode -> A) (data : bytes) (cm : CopyMode) : option (Action * A) :=
  match HandleInput data cm with Some (cm', a) => Some (a, f cm') | None => None end.

(** On "foo bar)" with the cursor two columns past the end, F panics, whatever
    the character. *)
Theorem F_past_line_panics :
  CopyOK (sampleAfter (bytesOf "10l")) /\ outcome place3 (bytesOf "10l") sampleMode = Some (ActionRedraw, (10, 2, 0)) /\
  outcome place3 (bytesOf "Fo") (sampleAfter (bytesOf "10l")) = None /\
  outcome place3 (bytesOf "fo") (sampleAfter (bytesOf "10l")) = Some (ActionNone, (10, 2, 0)).
Proof. split; [apply sampleAfter_ok|]. by vm_compute. Qed.

(** The selection from the second character of "é1" down to the next line
    copies the second byte of é. *)
Definition accented : CopyMode :=
  New (bufferEmulator (mkBuffer 12 2 0 [] [[0xC3; 0xA9; 49]; bytesOf "ab"])) 12 2 0.
Theorem multiline_copy_cuts_runes :
  (forall y, utf8Valid (lineText accented y) = true) /\
  outcome (fun cm => copyText (copied cm)) (bytesOf "l jy") accented = Some (ActionYank, [0xA9; 49; 10; 97; 98]) /\
  utf8Valid [0xA9; 49; 10; 97; 98] = false.
Proof.
  split; [|by vm_compute].
  assert (Hline : forall lines y, Forall (fun l => utf8Valid l = true) lines -> utf8Valid (lineAt lines y) = true).
  { intros lines y H. unfold lineAt. destruct (_ || _); [done|]. destruct (lines !! Z.to_nat y) as [l|] eqn:E; [|done].
    exact (proj1 (Forall_lookup _ _) H _ _ E). }
  intros y. unfold lineText. destruct (y <? _); apply Hline; by repeat constructor.
Qed.

(** [E] from inside the last word, above blank lines, goes back to the first
    column; [e] stays. *)
Definition blankBelow : CopyMode := New (bufferEmulator (mkBuffer 12 3 0 [] [bytesOf "foo bar"; []; []])) 12 3 0.
Theorem bigE_moves_back :
  outcome place3 (bytesOf "EE") blankBelow = Some (ActionRedraw, (6, 0, 0)) /\
  outcome place3 (bytesOf "EEE") blankBelow = Some (ActionRedraw, (0, 0, 0)) /\
  outcome place3 (bytesOf "EEe") blankBelow = Some (ActionRedraw, (6, 0, 0)).
Proof. by vm_compute. Qed.

(** A count followed by a key without a meaning is dropped without a redraw. *)
Theorem count_stays_drawn :
  SearchBarText (sampleAfter (bytesOf "5")) = bytesOf "5" /\
  outcome SearchBarText (bytesOf "u") (sampleAfter (bytesOf "5")) = Some (ActionNone, []).
Proof. by vm_compute. Qed.

(** The largest count scrolls up to the bottom, and one more wraps to a
    negative count that no key consumes. *)
Theorem count_overflows :
  outcome place3 (bytesOf "K9223372036854775807K") sampleMode = Some (ActionRedraw, (0, 2, 0)) /\
  outcome place3 (bytesOf "K9K") sampleMode = Some (ActionRedraw, (0, 2, 2)) /\
  outcome pendingCount (bytesOf "9223372036854775808jjj") sampleMode = Some (ActionRedraw, - 2 ^ 63).
Proof. by vm_compute. Qed.
