(* ===== verification/CopySearchProps.v ===== *)
(** * Copy mode: properties of its searches and jumps

    The hits of a search and where it stops, the cycle of n and N, and the
    jumps that lead back: the matching bracket and the mark. *)

From S2P Require Import Prelude GoText GoCodec GoWire GoRunes CopyMode CopyMotion CopyFacts CopySearch CopySteps CopyInputFacts.

Section Searches.
Context {U : Unicode}.

(** C10. A search ends with the leftmost occurrences, without overlaps and in
    order, of the lower-cased query in every line of the buffer, none missed;
    the cursor stays where there is none and otherwise is on the hit at or
    after it (forward, else the first) or at or before it (backward, else the
    last). *)
Theorem search_correct forward cm : CopyOK cm -> searchQuery (search cm) <> [] ->
  let query := lowerRunes (searchQuery (search cm)) in
  let line i := lowerRunes (lineText cm i) in
  exists cm', runSearch forward cm = Some cm' /\ CopyOK cm' /\
    hitsBetween query line 0 (TotalLines cm) (matches (search cm')) /\
    ((forall i c, 0 <= i < TotalLines cm -> ~ occurs query (line i) c) ->
       matches (search cm') = [] /\ cursor cm' = cursor cm) /\
    ((exists i c, 0 <= i < TotalLines cm /\ occurs query (line i) c) ->
       onMatch cm' /\ picked forward (cursorAbsLine cm) (cx (cursor cm)) (matches (search cm')) (matchIdx (search cm'))).
Proof.
  intros Hok Hq query line. destruct (runSearch_spec forward cm Hok Hq) as (cm' & Hr & H1 & _ & _ & _ & Hh & He & Hne).
  exists cm'. split; [done|]. split; [done|]. split; [exact Hh|]. destruct Hh as [Hs _ Hc]. split.
  - intros Hno. assert (Hnil : matches (search cm') = []); [|by auto].
    destruct (matches (search cm')) as [|m ms]; [done|]. apply Forall_cons in Hs as [(Hi & _ & Ho) _]. exfalso. by eapply Hno.
  - intros (i & c & Hi & Ho). destruct (Hc i c Hi Ho) as (m & Hm & _).
    destruct Hne as (_ & ? & ?); [intros E; rewrite E in Hm; by apply elem_of_nil in Hm|]. done.
Qed.

Lemma nextIdx_inverse forward s ms i : ms <> [] -> 0 <= i < lenZ ms ->
  let k := nextIdx forward (mkSearch (searchQuery s) (lastSearchForward s) ms i) in
  nextIdx (negb forward) (mkSearch (searchQuery s) (lastSearchForward s) ms k) = i.
Proof.
  intros Hne Hi. unfold nextIdx. cbn [matches matchIdx]. set (n := lenZ ms) in *. destruct forward; cbn [negb].
  - rewrite (Z.rem_mod_nonneg (i + 1)) by lia. destruct (Z.eq_dec (i + 1) n) as [E|].
    + rewrite E, Z_mod_same_full. rewrite Z.rem_mod_nonneg by lia. rewrite Z.mod_small; lia.
    + rewrite (Z.mod_small (i + 1)) by lia. rewrite Z.rem_mod_nonneg by lia.
      replace (i + 1 - 1 + n) with (i + 1 * n) by lia. rewrite Z_mod_plus_full, Z.mod_small; lia.
  - rewrite (Z.rem_mod_nonneg (i - 1 + n)) by lia. destruct (Z.eq_dec i 0) as [->|].
    + rewrite (Z.mod_small (0 - 1 + n)) by lia. rewrite Z.rem_mod_nonneg by lia.
      replace (0 - 1 + n + 1) with (0 + 1 * n) by lia. by rewrite Z_mod_plus_full.
    + replace (i - 1 + n) with (i - 1 + 1 * n) by lia. rewrite Z_mod_plus_full, (Z.mod_small (i - 1)) by lia.
      rewrite Z.rem_mod_nonneg by lia. rewrite Z.mod_small; lia.
Qed.
Lemma nextIdx_eq forward s s' : matches s = matches s' -> matchIdx s = matchIdx s' -> nextIdx forward s = nextIdx forward s'.
Proof. unfold nextIdx. by intros -> ->. Qed.

(** n and N go around the hits in opposite directions: one after the other
    leads back to the hit, and to its place, and with two hits or more every
    step changes the hit. *)
Theorem search_cycle reverse cm : CopyOK cm -> onMatch cm ->
  exists cm1 cm2, searchAgain reverse cm = Some cm1 /\ searchAgain (negb reverse) cm1 = Some cm2 /\
    matches (search cm1) = matches (search cm) /\ matches (search cm2) = matches (search cm) /\
    matchIdx (search cm2) = matchIdx (search cm) /\
    cursorAbsLine cm2 = cursorAbsLine cm /\ cx (cursor cm2) = cx (cursor cm) /\
    (2 <= lenZ (matches (search cm)) -> matchIdx (search cm1) <> matchIdx (search cm)).
Proof.
  intros Hok (m & Hm & Hy & Hx). pose proof Hm as Hi. apply index_Some in Hi as [Hi Hmi].
  assert (Hne : matches (search cm) <> []) by (intros E; rewrite E, lenZ_nil in Hi; lia).
  set (dir := if reverse then negb (lastSearchForward (search cm)) else lastSearchForward (search cm)).
  destruct (gotoMatch_spec (nextIdx dir (search cm)) cm Hok (nextIdx_range dir cm Hok Hne)) as (cm1 & E1 & Hok1 & Hf1 & _ & M1 & I1 & D1 & _).
  assert (Hne1 : matches (search cm1) <> []) by (by rewrite M1).
  set (dir1 := if negb reverse then negb (lastSearchForward (search cm1)) else lastSearchForward (search cm1)).
  assert (Hdir : dir1 = negb dir) by (unfold dir1, dir; rewrite D1; by destruct reverse, (lastSearchForward (search cm))).
  assert (Hback : nextIdx dir1 (search cm1) = matchIdx (search cm)).
  { rewrite Hdir. pose proof (nextIdx_inverse dir (search cm) (matches (search cm)) (matchIdx (search cm)) Hne Hi) as Hinv. cbn zeta in Hinv.
    rewrite <- Hinv. apply nextIdx_eq; [done|]. rewrite I1. by apply nextIdx_eq. }
  destruct (gotoMatch_spec (nextIdx dir1 (search cm1)) cm1 Hok1 (nextIdx_range dir1 cm1 Hok1 Hne1)) as (cm2 & E2 & Hok2 & Hf2 & _ & M2 & I2 & D2 & L2).
  exists cm1, cm2. rewrite searchAgain_eq by done. split; [exact E1|]. rewrite searchAgain_eq by done. split; [exact E2|].
  split; [done|]. split; [congruence|]. split; [congruence|].
  rewrite Hback, M1 in L2. destruct (L2 m Hmi) as [LY LX]. rewrite LX, Hx.
  assert (HT : TotalLines cm1 = TotalLines cm) by (destruct Hf1 as [F1 F2 F3 _]; unfold TotalLines; congruence).
  pose proof (cursorAbsLine_range cm Hok). split; [rewrite LY, HT; lia|]. split; [done|].
  intros H2 E. rewrite I1 in E. unfold nextIdx in E.
  assert (Hrem : forall k, 0 <= k -> Z.rem k (lenZ (matches (search cm))) = k mod lenZ (matches (search cm))) by (intros; apply Z.rem_mod_nonneg; lia).
  destruct dir; rewrite Hrem in E by lia.
  - destruct (Z.eq_dec (matchIdx (search cm) + 1) (lenZ (matches (search cm)))) as [E'|];
      [rewrite E', Z_mod_same_full in E|rewrite Z.mod_small in E]; lia.
  - destruct (Z.eq_dec (matchIdx (search cm)) 0) as [E'|]; [rewrite E' in E; rewrite Z.mod_small in E; lia|].
    replace (matchIdx (search cm) - 1 + lenZ (matches (search cm))) with (matchIdx (search cm) - 1 + 1 * lenZ (matches (search cm))) in E by lia.
    rewrite Z_mod_plus_full, Z.mod_small in E; lia.
Qed.
End Searches.

(** ** Jumps that lead back *)

Lemma updateSelection_is cm : exists s, updateSelection cm = withSel s cm.
Proof. unfold updateSelection. destruct (selecting (sel cm)); [by eexists|]. exists (sel cm). by destruct cm. Qed.

(** The places of the buffer do not depend on the cursor. *)
Lemma jump_places y x cm : forall a b,
  placesFrom (updateSelection (scrollToAbsolute y x cm)) a b = placesFrom cm a b /\
  placesBack (updateSelection (scrollToAbsolute y x cm)) a b = placesBack cm a b /\
  lineRunes (updateSelection (scrollToAbsolute y x cm)) a = lineRunes cm a.
Proof. intros a b. destruct (updateSelection_is (scrollToAbsolute y x cm)) as [s ->]. by repeat split. Qed.

Lemma candidate_at cm r : index (cursorLineRunes cm) (cx (cursor cm)) = Some r -> isBracket r = true ->
  findBracketCandidate cm = Some (Some (cursorAbsLine cm, cx (cursor cm), r)).
Proof.
  intros Hr Hb. pose proof Hr as [Hx _]%index_Some. unfold findBracketCandidate, cursorLineRunes in *.
  destruct (Z.ltb_spec (cx (cursor cm)) (lenZ (lineRunes cm (cursorAbsLine cm)))); [|lia].
  rewrite Hr. cbn [mbind option_bind]. by rewrite Hb.
Qed.
(** The bracket is one of a pair. *)
Lemma bracket_pair r : isBracket r = true -> exists o c, find (fun '(o, c) => (r =? o) || (r =? c)) pairs = Some (o, c) /\ o <> c /\
  isBracket o = true /\ isBracket c = true /\ (r = o \/ r = c) /\
  find (fun '(o', c') => (o =? o') || (o =? c')) pairs = Some (o, c) /\ find (fun '(o', c') => (c =? o') || (c =? c')) pairs = Some (o, c).
Proof.
  intros Hb%bool_decide_eq_true. unfold brackets in Hb. rewrite !elem_of_cons, elem_of_nil in Hb.
  destruct Hb as [->|[->|[->|[->|[->|[->|[]]]]]]]; eexists _, _; (split; [reflexivity|]); repeat split; try done; auto.
Qed.
(** The jump of [%] from a bracket. *)
Definition bracketTarget (cm : CopyMode) (r o c : Z) : option (Z * Z) :=
  if r =? o then findMatchingForward cm (cursorAbsLine cm) (cx (cursor cm)) o c
  else findMatchingBackward cm (cursorAbsLine cm) (cx (cursor cm)) o c.
Lemma matchingBracket_at cm r o c : index (cursorLineRunes cm) (cx (cursor cm)) = Some r -> isBracket r = true ->
  find (fun '(o, c) => (r =? o) || (r =? c)) pairs = Some (o, c) ->
  matchingBracket cm = Some (match bracketTarget cm r o c with
    | Some (my, mx) => (updateSelection (scrollToAbsolute my mx cm), ActionRedraw)
    | None => (cm, ActionNone) end).
Proof. intros Hr Hb Hf. unfold matchingBracket. rewrite (candidate_at cm r) by done. cbn [mbind option_bind]. by rewrite Hf. Qed.
(** The jump stops on the other bracket of the pair, whose jump leads back. *)
Definition otherBracket (r o c : Z) : Z := if r =? o then c else o.
Lemma bracketTarget_back cm r o c my mx : CopyOK cm -> index (cursorLineRunes cm) (cx (cursor cm)) = Some r ->
  o <> c -> (r = o \/ r = c) -> bracketTarget cm r o c = Some (my, mx) ->
  runeAt cm my mx (otherBracket r o c) /\
  (if otherBracket r o c =? o then findMatchingForward cm my mx o c else findMatchingBackward cm my mx o c)
  = Some (cursorAbsLine cm, cx (cursor cm)).
Proof.
  intros Hok Hr Hoc Hrr Ht. pose proof (cursorAbsLine_range cm Hok). unfold bracketTarget, otherBracket in *.
  assert (Hp : runeAt cm (cursorAbsLine cm) (cx (cursor cm)) r) by (by split).
  destruct (Z.eqb_spec r o) as [->|Hn].
  - destruct (Z.eqb_spec c o); [by subst|]. apply forward_back; [lia|done|done|done].
  - destruct Hrr as [->| ->]; [done|]. rewrite Z.eqb_refl. apply back_forward; [lia|done|done|done].
Qed.
(** Where the cursor stands after a jump to a place of the buffer. *)
Lemma jump_lands cm y x r : CopyOK cm -> (forall y, lenZ (lineRunes cm y) <= width cm) -> runeAt cm y x r ->
  let cm' := updateSelection (scrollToAbsolute y x cm) in
  CopyOK cm' /\ cursorAbsLine cm' = y /\ cx (cursor cm') = x /\ index (cursorLineRunes cm') (cx (cursor cm')) = Some r.
Proof.
  intros Hok Hw [Hy Hx]. cbn zeta. pose proof Hx as [Hxr _]%index_Some. specialize (Hw y).
  destruct (scrollToAbsolute_lands cm y x Hok ltac:(lia)) as [HL HX].
  split; [by apply OK_updateSelection, OK_scrollToAbsolute|]. unfold cursorLineRunes.
  destruct (jump_places y x cm (cursorAbsLine (updateSelection (scrollToAbsolute y x cm))) 0) as (_ & _ & ->).
  rewrite cursorAbsLine_updateSelection, updateSelection_cursor, HL, HX, clamp_id by lia.
  replace (Z.min y (TotalLines cm - 1)) with y by lia. done.
Qed.

(** [%] twice leads back: on a bracket, where no line is wider than the
    viewport, the first jump either finds nothing or stops on a bracket from
    which the second jump returns to the line and the column. *)
Theorem bracket_roundtrip cm r : CopyOK cm -> index (cursorLineRunes cm) (cx (cursor cm)) = Some r -> isBracket r = true ->
  (forall y, lenZ (lineRunes cm y) <= width cm) ->
  exists cm1 a, matchingBracket cm = Some (cm1, a) /\
    ((a = ActionNone /\ cm1 = cm) \/
     (a = ActionRedraw /\ exists cm2, matchingBracket cm1 = Some (cm2, ActionRedraw) /\
        cursorAbsLine cm2 = cursorAbsLine cm /\ cx (cursor cm2) = cx (cursor cm))).
Proof.
  intros Hok Hr Hb Hw. destruct (bracket_pair r Hb) as (o & c & Hp & Hoc & Hbo & Hbc & Hrr & Hpo & Hpc).
  rewrite (matchingBracket_at cm r o c) by done.
  destruct (bracketTarget cm r o c) as [[my mx]|] eqn:Et; [|eexists _, _; split; [done|by left]].
  eexists _, _. split; [done|]. right. split; [done|].
  destruct (bracketTarget_back cm r o c my mx Hok Hr Hoc Hrr Et) as [Hpl Hback].
  destruct (jump_lands cm my mx _ Hok Hw Hpl) as (Hok1 & HL & HX & Hr1). set (cm1 := updateSelection _) in *.
  set (r' := otherBracket r o c) in *. pose proof (jump_places my mx cm) as Hjp. fold cm1 in Hjp.
  assert (Hr' : isBracket r' = true /\ find (fun '(o, c) => (r' =? o) || (r' =? c)) pairs = Some (o, c)).
  { unfold r', otherBracket. by destruct (r =? o). }
  rewrite (matchingBracket_at cm1 r' o c) by (done || tauto).
  assert (Ht1 : bracketTarget cm1 r' o c = Some (cursorAbsLine cm, cx (cursor cm))).
  { unfold bracketTarget. rewrite HL, HX. unfold findMatchingForward, findMatchingBackward in *.
    destruct (Hjp my (mx + 1)) as (-> & _ & _). destruct (Hjp my mx) as (_ & -> & _). exact Hback. }
  rewrite Ht1. eexists. split; [done|].
  assert (Hw1 : forall y, lenZ (lineRunes cm1 y) <= width cm1).
  { intros y. destruct (Hjp y 0) as (_ & _ & ->).
    replace (width cm1) with (width cm); [done|]. unfold cm1. destruct (updateSelection_is (scrollToAbsolute my mx cm)) as [s ->]. done. }
  assert (Hpl1 : runeAt cm1 (cursorAbsLine cm) (cx (cursor cm)) r).
  { split; [|by destruct (Hjp (cursorAbsLine cm) 0) as (_ & _ & ->)].
    replace (TotalLines cm1) with (TotalLines cm); [by apply cursorAbsLine_range|].
    unfold cm1. destruct (updateSelection_is (scrollToAbsolute my mx cm)) as [s ->]. done. }
  destruct (jump_lands cm1 _ _ _ Hok1 Hw1 Hpl1) as (_ & ? & ? & _). done.
Qed.

Lemma withMark_kept s m cm : cursorAbsLine (withSel s (withMark m cm)) = cursorAbsLine cm /\
  cursor (withSel s (withMark m cm)) = cursor cm /\ mark (withSel s (withMark m cm)) = m /\
  TotalLines (withSel s (withMark m cm)) = TotalLines cm /\ width (withSel s (withMark m cm)) = width cm.
Proof. done. Qed.

(** The jump to the mark leaves the mark where the cursor was: two jumps
    lead back to the line, and to the column where it is inside the viewport. *)
Theorem mark_roundtrip cm : CopyOK cm -> markSet (mark cm) = true ->
  markX (mark cm) < width cm -> markY (mark cm) < TotalLines cm -> cx (cursor cm) < width cm ->
  let cm1 := fst (jumpToMark cm) in
  let cm2 := fst (jumpToMark cm1) in
  cursorAbsLine cm1 = markY (mark cm) /\ cx (cursor cm1) = markX (mark cm) /\
  mark cm1 = mkMark true (cx (cursor cm)) (cursorAbsLine cm) /\
  cursorAbsLine cm2 = cursorAbsLine cm /\ cx (cursor cm2) = cx (cursor cm) /\ mark cm2 = mark cm.
Proof.
  intros Hok Hm Hx Hy Hc. pose proof (cursorAbsLine_range cm Hok) as Hr. destruct (ok_mark cm Hok) as [Mx My]. pose proof (ok_cx cm Hok).
  assert (Hjump : forall c, CopyOK c -> markSet (mark c) = true -> 0 <= markY (mark c) < TotalLines c -> 0 <= markX (mark c) < width c ->
    let c' := fst (jumpToMark c) in CopyOK c' /\ cursorAbsLine c' = markY (mark c) /\ cx (cursor c') = markX (mark c) /\
      mark c' = mkMark true (cx (cursor c)) (cursorAbsLine c) /\ TotalLines c' = TotalLines c /\ width c' = width c).
  { intros c Hc1 Hs Hy1 Hx1 c'. pose proof (jumpToMark_good c Hc1) as (G & _ & _). split; [exact G|].
    unfold c', jumpToMark. rewrite Hs. cbn [negb fst]. destruct (scrollToAbsolute_lands c (markY (mark c)) (markX (mark c)) Hc1 ltac:(lia)) as [HL HX].
    match goal with |- context [updateSelection ?a] => destruct (updateSelection_is a) as [s ->] end.
    destruct (withMark_kept s (mkMark true (cx (cursor c)) (cursorAbsLine c)) (scrollToAbsolute (markY (mark c)) (markX (mark c)) c)) as (-> & -> & -> & -> & ->).
    rewrite HL, HX, clamp_id by lia. split; [lia|]. by repeat split. }
  destruct (Hjump cm Hok Hm) as (H1 & L1 & X1 & M1 & T1 & W1); [lia|lia|]. intros cm1 cm2. fold cm1 in H1, L1, X1, M1, T1, W1.
  destruct (Hjump cm1 H1) as (_ & L2 & X2 & M2 & _ & _); [by rewrite M1|rewrite M1, T1; cbn; lia|rewrite M1, W1; cbn; lia|].
  fold cm2 in L2, X2, M2. rewrite M1 in L2, X2. cbn in L2, X2. do 3 (split; [done|]). split; [done|]. split; [done|].
  rewrite M2, L1, X1. destruct (mark cm) as [b mx my]. cbn in *. by subst.
Qed.

(** ** Witnesses *)

Strategy 100 [sampleMode sampleAfter].

(** The query "FOO", from the sample's cursor on the last line. *)
Definition queried : CopyMode := setQuery (bytesOf "FOO") true sampleMode.
Lemma queried_ok : CopyOK queried.
Proof. apply OK_query, sampleMode_ok. Qed.
Lemma search_correct_witness :
  (exists i c, 0 <= i < TotalLines queried /\ occurs (lowerRunes (bytesOf "FOO")) (lowerRunes (lineText queried i)) c) /\
  exists cm', runSearch true queried = Some cm' /\ onMatch cm'.
Proof.
  assert (Ho : exists i c, 0 <= i < TotalLines queried /\ occurs (lowerRunes (bytesOf "FOO")) (lowerRunes (lineText queried i)) c).
  { exists 1, 4. split; [by vm_compute|]. split; [done|]. by vm_compute. }
  split; [exact Ho|].
  destruct (search_correct true queried queried_ok ltac:(done)) as (cm' & Hr & _ & _ & _ & H). exists cm'. split; [exact Hr|]. exact (proj1 (H Ho)).
Defined.

Lemma search_cycle_witness : exists cm1 cm2,
  searchAgain false (sampleAfter (bytesOf "k/foo" ++ [13])) = Some cm1 /\ searchAgain true cm1 = Some cm2 /\
  cursorAbsLine cm2 = cursorAbsLine (sampleAfter (bytesOf "k/foo" ++ [13])).
Proof.
  assert (Hon : onMatch (sampleAfter (bytesOf "k/foo" ++ [13]))).
  { exists (mkMatch 4 0 3). split; [by vm_compute|]. split; by vm_compute. }
  destruct (search_cycle false _ (sampleAfter_ok _) Hon) as (cm1 & cm2 & H1 & H2 & _ & _ & _ & H3 & _).
  exists cm1, cm2. split; [exact H1|]. split; [exact H2|exact H3].
Defined.

Lemma bracket_roundtrip_witness : exists cm1 cm2,
  matchingBracket (sampleAfter (bytesOf "gl")) = Some (cm1, ActionRedraw) /\ matchingBracket cm1 = Some (cm2, ActionRedraw) /\
  cursorAbsLine cm2 = 0 /\ cx (cursor cm2) = 1.
Proof.
  assert (Hw : forall y, lenZ (lineRunes (sampleAfter (bytesOf "gl")) y) <= width (sampleAfter (bytesOf "gl"))).
  { assert (Hline : forall lines y, Forall (fun l => lenZ (toRunes l) <= 12) lines -> lenZ (toRunes (lineAt lines y)) <= 12).
    { intros lines y H. unfold lineAt. destruct (_ || _); [done|]. destruct (lines !! Z.to_nat y) as [l|] eqn:E; [|done].
      exact (proj1 (Forall_lookup _ _) H _ _ E). }
    intros y. assert (E : emu (sampleAfter (bytesOf "gl")) = bufferEmulator sampleBuffer) by reflexivity.
    assert (E2 : width (sampleAfter (bytesOf "gl")) = 12) by by vm_compute.
    unfold lineRunes, lineText. rewrite E, E2. destruct (y <? _); apply Hline; repeat constructor; by vm_compute. }
  destruct (bracket_roundtrip (sampleAfter (bytesOf "gl")) 40 (sampleAfter_ok _)) as (cm1 & a & H1 & [[Ha _]|[Ha (cm2 & H2 & H3 & H4)]]);
    [by vm_compute|by vm_compute|exact Hw|exfalso|].
  - subst a. by vm_compute in H1.
  - subst a. exists cm1, cm2. split; [exact H1|]. split; [exact H2|]. rewrite H3, H4. clear. split; vm_compute; reflexivity.
Defined.

Lemma mark_roundtrip_witness :
  let cm := sampleAfter (bytesOf "3lXgg") in
  markSet (mark cm) = true /\ cursorAbsLine (fst (jumpToMark cm)) = 4 /\ cx (cursor (fst (jumpToMark cm))) = 3.
Proof.
  intros cm. split; [by vm_compute|].
  destruct (mark_roundtrip cm (sampleAfter_ok _)) as (H1 & H2 & _); [by vm_compute..|].
  split; [rewrite H1; by vm_compute|rewrite H2; by vm_compute].
Defined.
