(* ===== verification/CopyTextProps.v ===== *)
(** * Copy mode: properties of what is drawn and copied

    The overlay against its row-wise description, and the text a selection
    copies against what the overlay highlights. *)

From S2P Require Import Prelude GoText GoCodec GoWire GoRunes CopyMode CopyMotion CopyOverlay CopyFacts CopySteps CopyInputFacts.

(** ** The overlay *)

(** The spans of a viewport row: the selected columns, then the hits. *)
Definition selectedRow (cm : CopyMode) (row : Z) : bool :=
  let '((startY, _), (endY, _)) := normalizedSelection cm in
  let y := FirstVisibleLine cm + row in
  selecting (sel cm) && (startY <=? y) && (y <=? endY).
Definition selectionSpans (cm : CopyMode) (row : Z) : list HighlightSpan :=
  let '(a, b) := selectionCols cm (FirstVisibleLine cm + row) in
  if selectedRow cm row && (a <? b) then [mkSpan a b HighlightSelection] else [].
Fixpoint hitSpans (cm : CopyMode) (row i : Z) (ms : list Match) : list HighlightSpan :=
  match ms with
  | [] => []
  | m :: ms =>
      (if (LineIdx m =? FirstVisibleLine cm + row) && (0 <? Len m)
       then [mkSpan (Col m) (Col m + Len m) (if i =? matchIdx (search cm) then HighlightCurrentMatch else HighlightSearchMatch)]
       else []) ++ hitSpans cm row (i + 1) ms
  end.
Definition rowSpans (cm : CopyMode) (row : Z) : list HighlightSpan :=
  selectionSpans cm row ++ hitSpans cm row 0 (matches (search cm)).

Definition spansAt (b : gmap Z (list HighlightSpan)) (row : Z) : list HighlightSpan := default [] (b !! row).
(** A builder with no empty row and none outside the viewport. *)
Definition builderOK (cm : CopyMode) (b : gmap Z (list HighlightSpan)) : Prop :=
  map_Forall (fun row spans => 0 <= row < height cm /\ spans <> []) b.

Lemma addSpan_ok cm row a b k bld : builderOK cm bld -> 0 <= row < height cm -> builderOK cm (addSpan row a b k bld).
Proof.
  intros Hb Hr. unfold addSpan. destruct (b <=? a); [done|]. apply map_Forall_insert_2; [|done]. split; [done|].
  by destruct (default [] (bld !! row)).
Qed.
Lemma spansAt_addSpan row a b k bld row' : spansAt (addSpan row a b k bld) row' =
  spansAt bld row' ++ (if (row' =? row) && (a <? b) then [mkSpan a b k] else []).
Proof.
  unfold addSpan, spansAt. destruct (Z.leb_spec b a), (Z.ltb_spec a b); try lia.
  - by rewrite andb_false_r, app_nil_r.
  - destruct (Z.eqb_spec row' row) as [->|]; cbn [andb].
    + by rewrite lookup_insert_eq.
    + by rewrite lookup_insert_ne, app_nil_r.
Qed.

Lemma selection_fold cm f n s bld : builderOK cm bld ->
  (forall y, s <= y < s + Z.of_nat n -> 0 <= y - FirstVisibleLine cm < height cm) ->
  let res := fold_left (fun b absIdx => let '(x, x') := f absIdx in addSpan (absIdx - FirstVisibleLine cm) x x' HighlightSelection b)
               (seqZ s (Z.of_nat n)) bld in
  builderOK cm res /\
  forall row, spansAt res row = spansAt bld row ++
    (let y := FirstVisibleLine cm + row in
     let '(x, x') := f y in
     if (s <=? y) && (y <? s + Z.of_nat n) && (x <? x') then [mkSpan x x' HighlightSelection] else []).
Proof.
  revert s bld. induction n as [|n IH]; intros s bld Hb Hv res.
  - split; [done|]. intros row. cbn zeta. destruct (f (FirstVisibleLine cm + row)) as [x x']. destruct (Z.leb_spec s (FirstVisibleLine cm + row)), (Z.ltb_spec (FirstVisibleLine cm + row) (s + Z.of_nat 0)); try lia; by rewrite app_nil_r.
  - unfold res. rewrite seqZ_cons by lia. replace (Z.pred (Z.of_nat (S n))) with (Z.of_nat n) by lia. cbn [fold_left].
    destruct (f s) as [x x'] eqn:Ef.
    destruct (IH (Z.succ s) (addSpan (s - FirstVisibleLine cm) x x' HighlightSelection bld)) as [I1 I2].
    { apply addSpan_ok; [done|]. apply Hv. lia. }
    { intros y Hy. apply Hv. lia. }
    split; [exact I1|]. intros row. cbn zeta in I2 |- *. rewrite I2, spansAt_addSpan, <- app_assoc. f_equal.
    destruct (Z.eqb_spec row (s - FirstVisibleLine cm)) as [E|E].
    + replace (FirstVisibleLine cm + row) with s by lia. rewrite Ef.
      destruct (Z.leb_spec (Z.succ s) s), (Z.leb_spec s s), (Z.ltb_spec s (s + Z.of_nat (S n))); try lia. cbn [andb]. by rewrite app_nil_r.
    + cbn [andb app]. destruct (f (FirstVisibleLine cm + row)) as [z z'].
      destruct (Z.leb_spec (Z.succ s) (FirstVisibleLine cm + row)), (Z.leb_spec s (FirstVisibleLine cm + row)),
        (Z.ltb_spec (FirstVisibleLine cm + row) (Z.succ s + Z.of_nat n)), (Z.ltb_spec (FirstVisibleLine cm + row) (s + Z.of_nat (S n))); try lia; done.
Qed.

Lemma matchHighlights_spec cm ms : forall i bld, builderOK cm bld ->
  let res := matchHighlights cm i ms bld in
  builderOK cm res /\ forall row, 0 <= row < height cm -> spansAt res row = spansAt bld row ++ hitSpans cm row i ms.
Proof.
  induction ms as [|m ms IH]; intros i bld Hb; cbn [matchHighlights hitSpans].
  - split; [done|]. intros. by rewrite app_nil_r.
  - set (first := FirstVisibleLine cm) in *.
    destruct (Z.ltb_spec (LineIdx m) first), (Z.ltb_spec (first + height cm - 1) (LineIdx m)); cbn [orb];
      try (destruct (IH (i + 1) bld Hb) as [I1 I2]; split; [done|]; intros row Hr; rewrite I2 by done; f_equal;
           destruct (Z.eqb_spec (LineIdx m) (first + row)); [lia|done]).
    destruct (IH (i + 1) (addSpan (LineIdx m - first) (Col m) (Col m + Len m)
      (if i =? matchIdx (search cm) then HighlightCurrentMatch else HighlightSearchMatch) bld)) as [I1 I2].
    { apply addSpan_ok; [done|lia]. }
    split; [done|]. intros row Hr. rewrite I2, spansAt_addSpan, <- app_assoc by done. do 2 f_equal.
    destruct (Z.eqb_spec row (LineIdx m - first)), (Z.eqb_spec (LineIdx m) (first + row)); try lia; cbn [andb]; [|done].
    destruct (Z.ltb_spec (Col m) (Col m + Len m)), (Z.ltb_spec 0 (Len m)); try lia; done.
Qed.

Lemma selectionRange_spec cm : CopyOK cm ->
  let b := snd (selectionRange cm ∅) in
  builderOK cm b /\ forall row, 0 <= row < height cm -> spansAt b row = selectionSpans cm row.
Proof.
  intros Hok. pose proof (ok_height cm Hok) as Hh. unfold selectionRange, selectionSpans, selectedRow.
  destruct (selecting (sel cm)) eqn:Es; cbn [negb].
  2: { split; [apply map_Forall_empty|]. intros row _. destruct (selectionCols _ _), (normalizedSelection cm) as [[] []]. done. }
  destruct (normalizedSelection cm) as [[sy sx] [ey ex]] eqn:En. cbn [snd]. set (first := FirstVisibleLine cm).
  set (vs := Z.max sy first). set (ve := Z.min ey (first + height cm - 1)).
  destruct (decide (vs <= ve)) as [Hle|Hgt].
  - replace (ve - vs + 1) with (Z.of_nat (Z.to_nat (ve - vs + 1))) by lia.
    destruct (selection_fold cm (selectionCols cm) (Z.to_nat (ve - vs + 1)) vs ∅) as [S1 S2]; [apply map_Forall_empty|unfold first in *; lia|].
    split; [exact S1|]. intros row Hr. cbn zeta in S2. rewrite S2. fold first.
    unfold spansAt. rewrite lookup_empty. cbn [default from_option app]. destruct (selectionCols cm (first + row)) as [a b]. cbn [andb].
    destruct (Z.leb_spec vs (first + row)), (Z.leb_spec sy (first + row)), (Z.ltb_spec (first + row) (vs + Z.of_nat (Z.to_nat (ve - vs + 1)))),
      (Z.leb_spec (first + row) ey); try lia; done.
  - replace (seqZ vs (ve - vs + 1)) with (@nil Z) by (rewrite seqZ_nil; [done|lia]). cbn [fold_left]. split; [apply map_Forall_empty|].
    intros row Hr. unfold spansAt. rewrite lookup_empty. cbn. destruct (selectionCols cm (first + row)) as [a b].
    destruct (Z.leb_spec sy (first + row)), (Z.leb_spec (first + row) ey); cbn [andb]; try lia; done.
Qed.

Lemma sortedRows_spec (b : gmap Z (list HighlightSpan)) :
  StronglySorted Z.lt (sortedRows b) /\ forall row, row ∈ sortedRows b <-> is_Some (b !! row).
Proof.
  unfold sortedRows. set (keys := map fst (map_to_list b)).
  assert (Hp : stableSort Z.leb keys ≡ₚ keys) by apply stableSort_Permutation.
  assert (Hd : NoDup (stableSort Z.leb keys)) by (rewrite Hp; apply NoDup_fst_map_to_list).
  split.
  - assert (Hs : StronglySorted (fun x y => Z.leb x y = true) (stableSort Z.leb keys)).
    { apply stableSort_sorted; [intros x y|intros x y z]; rewrite !Z.leb_le; lia. }
    clear Hp. revert Hd. induction Hs as [|x l Hl IH Hx]; intros Hd; [constructor|]. apply NoDup_cons in Hd as [Hn Hd].
    constructor; [by apply IH|]. rewrite Forall_forall in *. intros y Hy. specialize (Hx y Hy). apply Z.leb_le in Hx.
    destruct (Z.eq_dec x y); [by subst|lia].
  - intros row. rewrite Hp. unfold keys. split.
    + intros ([r l] & -> & Hin)%list_elem_of_fmap. apply elem_of_map_to_list in Hin. by exists l.
    + intros [l Hl]. apply list_elem_of_fmap. exists (row, l). split; [done|]. by apply elem_of_map_to_list.
Qed.

(** C9. The overlay lists, in increasing order and inside the viewport,
    exactly the rows with something to highlight, each with the columns of the
    selection first and then a span for every hit on the line, the current one
    marked; its cursor is the one of copy mode. *)
Theorem overlay_exact cm : CopyOK cm ->
  let lines := HighlightedLines (viewportOverlay cm) in
  overlayCursor (viewportOverlay cm) = (cx (cursor cm), cy (cursor cm)) /\
  StronglySorted (fun l l' => hlRow l < hlRow l') lines /\
  Forall (fun l => 0 <= hlRow l < height cm /\ hlSpans l = rowSpans cm (hlRow l) /\ rowSpans cm (hlRow l) <> []) lines /\
  (forall row, 0 <= row < height cm -> rowSpans cm row <> [] -> exists l, l ∈ lines /\ hlRow l = row).
Proof.
  intros Hok. pose proof (selectionRange_spec cm Hok) as [S1 S2]. cbn zeta. unfold viewportOverlay, addMatchHighlights.
  destruct (selectionRange cm ∅) as [range b0]. cbn [snd overlayCursor HighlightedLines] in *.
  destruct (matchHighlights_spec cm (matches (search cm)) 0 b0 S1) as [M1 M2]. set (b := matchHighlights cm 0 _ b0) in *.
  assert (Hrow : forall row, 0 <= row < height cm -> spansAt b row = rowSpans cm row).
  { intros row Hr. rewrite M2, S2 by done. done. }
  destruct (sortedRows_spec b) as [Hsort Hin]. split; [done|]. unfold buildLines. split; [|split].
  - revert Hsort. generalize (sortedRows b) as rows. clear. induction 1 as [|x l Hl IH Hx]; [constructor|]. cbn [map]. constructor; [done|].
    apply Forall_fmap. eapply Forall_impl; [exact Hx|]. done.
  - apply Forall_fmap, Forall_forall. intros row [spans Hs]%Hin. cbn. destruct (M1 row spans Hs) as [Hr Hne].
    change (default [] (b !! row)) with (spansAt b row). rewrite <- Hrow by done. split; [done|]. split; [done|].
    unfold spansAt. by rewrite Hs.
  - intros row Hr Hne. exists (mkLine row (default [] (b !! row))). split; [|done]. apply list_elem_of_fmap. exists row. split; [done|].
    apply Hin. rewrite <- Hrow in Hne by done. unfold spansAt in Hne. by destruct (b !! row) as [l|]; [exists l|].
Qed.

(** ** The text *)

Definition asciiLine (l : bytes) : Prop := Forall (fun b => 0 <= b < 128) l.
Lemma toRunes_ascii l : asciiLine l -> toRunes l = l.
Proof.
  unfold toRunes, runes. intros H. enough (forall fuel, (length l <= fuel)%nat -> map fst (runesFrom fuel l) = l) by eauto.
  induction H as [|b l Hb Hl IH]; intros fuel Hf; [by destruct fuel|]. cbn [length] in Hf. destruct fuel as [|fuel]; [lia|].
  cbn [runesFrom DecodeRune]. destruct (Z.ltb_spec b 0x80); [|lia]. cbn [map fst snd drop]. f_equal. apply IH. lia.
Qed.
Lemma fromRunes_ascii l : asciiLine l -> fromRunes l = l.
Proof.
  induction 1 as [|b l Hb Hl IH]; [done|]. unfold fromRunes in *. rewrite bind_cons, IH. unfold EncodeRune.
  rewrite (proj2 (isRune_spec b)) by lia. destruct (Z.leb_spec b 0x7F); [done|lia].
Qed.

(** The columns [a, b) of a line, as far as it goes. *)
Definition clip (cols : Z * Z) (line : bytes) : bytes := take (Z.to_nat (snd cols - fst cols)) (drop (Z.to_nat (fst cols)) line).
(** strings.Join(lines, newline) *)
Fixpoint joinLines (ls : list bytes) : bytes :=
  match ls with [] => [] | [l] => l | l :: ls => l ++ newline ++ joinLines ls end.

Lemma slice_clip line a b : 0 <= a <= b -> a < lenZ line -> slice line a (Z.min b (lenZ line)) = Some (clip (a, b) line).
Proof.
  intros Ha Hlt. rewrite slice_ok by lia. unfold clip. cbn [fst snd]. f_equal.
  destruct (Z.min_spec b (lenZ line)) as [[? ->]|[? ->]]; [done|].
  rewrite !take_ge; [done|rewrite length_drop; unfold lenZ in *; lia..].
Qed.
Lemma clip_past line a b : lenZ line <= a -> clip (a, b) line = [].
Proof. intros H. unfold clip. cbn [fst snd]. rewrite drop_ge by (unfold lenZ in *; lia). by rewrite take_nil. Qed.
Lemma runeSlice_clip line a b : asciiLine line -> 0 <= a <= b -> a < lenZ line ->
  runeSlice line a (Z.min b (lenZ line)) = Some (clip (a, b) line).
Proof.
  intros Hl Ha Hlt. unfold runeSlice. rewrite slice_clip by done. cbn. f_equal. apply fromRunes_ascii.
  unfold clip, asciiLine. by apply Forall_take, Forall_drop.
Qed.

Lemma mapM_join f g s n : (0 < n)%nat ->
  (forall y, s <= y < s + Z.of_nat n -> f y = Some (g y ++ if y =? s + Z.of_nat n - 1 then [] else newline)) ->
  @concat Z <$> mapM f (seqZ s (Z.of_nat n)) = Some (joinLines (map g (seqZ s (Z.of_nat n)))).
Proof.
  revert s. induction n as [|n IH]; intros s Hn Hf; [lia|].
  rewrite seqZ_cons by lia. replace (Z.pred (Z.of_nat (S n))) with (Z.of_nat n) by lia. cbn [mapM map].
  rewrite (Hf s) by lia. cbn [mbind option_bind]. destruct n as [|n].
  - destruct (Z.eqb_spec s (s + Z.of_nat 1 - 1)); [|lia]. change (seqZ (Z.succ s) (Z.of_nat 0)) with (@nil Z). cbn. by rewrite !app_nil_r.
  - destruct (Z.eqb_spec s (s + Z.of_nat (S (S n)) - 1)); [lia|].
    assert (Hf' : forall y, Z.succ s <= y < Z.succ s + Z.of_nat (S n) ->
              f y = Some (g y ++ if y =? Z.succ s + Z.of_nat (S n) - 1 then [] else newline)).
    { intros y Hy. rewrite Hf by lia.
      by replace (s + Z.of_nat (S (S n)) - 1) with (Z.succ s + Z.of_nat (S n) - 1) by lia. }
    specialize (IH (Z.succ s) ltac:(lia) Hf'). destruct (mapM f (seqZ (Z.succ s) (Z.of_nat (S n)))) as [rows|]; [|done].
    injection IH as IH. cbn [mbind option_bind mret option_ret fmap option_fmap option_map concat]. rewrite IH, <- app_assoc.
    rewrite seqZ_cons by lia. done.
Qed.

Section Copied.
Context (cm : CopyMode) (Hok : CopyOK cm) (Hs : selecting (sel cm) = true).
Context (Hl : forall y, asciiLine (lineText cm y) /\ lenZ (lineText cm y) <= width cm).

(** What a selected line gives: its highlighted columns. *)
Definition selectedCols (y : Z) : bytes := clip (selectionCols cm y) (lineText cm y).

Lemma lineRunes_ascii y : lineRunes cm y = lineText cm y.
Proof. apply toRunes_ascii, Hl. Qed.

Lemma rectRow_clip sy sx ey ex y : normalizedSelection cm = ((sy, sx), (ey, ex)) -> rectSelect (sel cm) = true ->
  0 <= sx <= ex -> rectRow cm sx ex ey y = Some (selectedCols y ++ if y =? ey then [] else newline).
Proof.
  intros En Hr Hx. unfold rectRow, selectedCols, selectionCols. rewrite En, Hr, lineRunes_ascii.
  destruct (Z.ltb_spec sx (lenZ (lineText cm y))).
  - rewrite runeSlice_clip by (lia || apply Hl). cbn [mbind option_bind]. by destruct (y =? ey).
  - rewrite clip_past by done. cbn [mbind option_bind]. by destruct (y =? ey).
Qed.
Lemma charRow_clip sy sx ey ex y : normalizedSelection cm = ((sy, sx), (ey, ex)) -> rectSelect (sel cm) = false ->
  0 <= sx -> 0 <= ex -> sy < ey -> sy <= y <= ey ->
  charRow cm sy sx ey ex y = Some (selectedCols y ++ if y =? ey then [] else newline).
Proof.
  intros En Hr Hx Hx2 Hlt Hy. destruct (Hl y) as [_ Hw]. pose proof (lenZ_nonneg (lineText cm y)).
  unfold charRow, selectedCols, selectionCols. rewrite En, Hr.
  assert (Hall : forall a, 0 <= a -> clip (a, width cm) (lineText cm y) = drop (Z.to_nat a) (lineText cm y)).
  { intros a Ha. unfold clip. cbn [fst snd]. apply take_ge. rewrite length_drop. unfold lenZ in *. lia. }
  destruct (Z.eqb_spec y sy) as [->|].
  - destruct (Z.eqb_spec sy ey); [lia|]. rewrite Hall by done. destruct (Z.ltb_spec sx (lenZ (lineText cm sy))).
    + rewrite slice_ok by lia. cbn [mbind option_bind]. do 2 f_equal. apply take_ge. rewrite length_drop. unfold lenZ in *. lia.
    + cbn [mbind option_bind]. rewrite drop_ge by (unfold lenZ in *; lia). done.
  - destruct (Z.eqb_spec y ey) as [->|]; [|rewrite Hall by done; done]. rewrite app_nil_r.
    destruct (Z.ltb_spec 0 (Z.min (ex + 1) (lenZ (lineText cm ey)))).
    + apply slice_clip; lia.
    + rewrite clip_past by lia. done.
Qed.
End Copied.

(** C40. In a buffer of ASCII lines no wider than the viewport the text copied
    is the text highlighted: in character and rectangle mode the highlighted
    columns of the selected lines, joined by newlines, and in line mode the
    selected lines, each with its newline. *)
Theorem copied_is_highlighted cm : CopyOK cm -> selecting (sel cm) = true ->
  (forall y, asciiLine (lineText cm y) /\ lenZ (lineText cm y) <= width cm) ->
  let '((startY, _), (endY, _)) := normalizedSelection cm in
  let rows := map (fun y => clip (selectionCols cm y) (lineText cm y)) (seqZ startY (endY - startY + 1)) in
  SelectedText cm = Some (if lineSelect (sel cm) then rows ≫= fun row => row ++ newline else joinLines rows).
Proof.
  intros Hok Hs Hl. pose proof (normalizedSelection_spec cm Hok) as Hn. pose proof (ok_modes cm Hok) as Hmode.
  unfold SelectedText. rewrite Hs. cbn [negb].
  destruct (normalizedSelection cm) as [[sy sx] [ey ex]] eqn:En. destruct Hn as (Hsx & Hex & Hy & Hsy & Hx).
  cbn zeta. set (n := Z.to_nat (ey - sy + 1)). assert (Hnn : ey - sy + 1 = Z.of_nat n) by lia. rewrite Hnn.
  destruct (lineSelect (sel cm)) eqn:El.
  - cbn [andb] in Hmode. assert (Hcols : forall y, clip (selectionCols cm y) (lineText cm y) = lineText cm y).
    { intros y. unfold selectionCols. rewrite En, Hmode. destruct (Hl y) as [_ Hw].
      assert (sx = 0 /\ ex = width cm - 1) as [-> ->].
      { unfold normalizedSelection in En. rewrite Hmode, El in En.
        destruct ((selEndY (sel cm) <? selStartY (sel cm)) || _); by injection En as _ <- _ <-. }
      unfold clip. destruct (y =? sy), (y =? ey); cbn [fst snd Z.to_nat drop]; apply take_ge; unfold lenZ in *; lia. }
    f_equal. clear -Hcols. induction (seqZ sy (Z.of_nat n)) as [|y l IH]; [done|]. cbn [map]. by rewrite !bind_cons, Hcols, IH.
  - specialize (Hx eq_refl). destruct (rectSelect (sel cm)) eqn:Er.
    + specialize (Hx (or_introl eq_refl)). apply (mapM_join _ (selectedCols cm)); [lia|]. intros y Hyr.
      rewrite (rectRow_clip cm Hl sy) by done. by replace (sy + Z.of_nat n - 1) with ey by lia.
    + destruct (Z.eqb_spec sy ey) as [E|Hne].
      * specialize (Hx (or_intror E)). assert (n = 1%nat) as -> by lia. assert (Es : seqZ sy (Z.of_nat 1) = [sy]) by (rewrite seqZ_cons by lia; done). rewrite Es. cbn [map joinLines].
        unfold selectionCols. rewrite En, Er, Z.eqb_refl, <- E, Z.eqb_refl, (lineRunes_ascii cm Hl).
        destruct (Z.leb_spec (lenZ (lineText cm sy)) sx); [by rewrite clip_past|]. apply runeSlice_clip; [apply Hl|lia|done].
      * apply (mapM_join _ (selectedCols cm)); [lia|]. intros y Hyr.
        rewrite (charRow_clip cm Hl sy sx ey ex) by (done || lia). by replace (sy + Z.of_nat n - 1) with ey by lia.
Qed.

(** ** Witnesses *)

Strategy 100 [sampleMode sampleAfter].

Lemma overlay_exact_witness :
  let cm := sampleAfter (bytesOf "k/foo" ++ [13] ++ bytesOf "vl") in
  rowSpans cm 2 = [mkSpan 0 2 HighlightSelection; mkSpan 0 3 HighlightCurrentMatch] /\
  exists l, l ∈ HighlightedLines (viewportOverlay cm) /\ hlRow l = 2.
Proof.
  intros cm. split; [by vm_compute|].
  destruct (overlay_exact cm (sampleAfter_ok _)) as (_ & _ & _ & H). apply H; by vm_compute.
Defined.

Lemma copied_is_highlighted_witness :
  SelectedText (sampleAfter (bytesOf "k vjll")) = Some (bytesOf "q)" ++ newline ++ bytesOf "foo").
Proof.
  assert (Hl : forall y, asciiLine (lineText (sampleAfter (bytesOf "k vjll")) y) /\
                 lenZ (lineText (sampleAfter (bytesOf "k vjll")) y) <= width (sampleAfter (bytesOf "k vjll"))).
  { assert (Hline : forall lines y, Forall (fun l => asciiLine l /\ lenZ l <= 12) lines -> asciiLine (lineAt lines y) /\ lenZ (lineAt lines y) <= 12).
    { intros lines y H. unfold lineAt. destruct (_ || _); [split; [constructor|done]|].
      destruct (lines !! Z.to_nat y) as [l|] eqn:E; [|split; [constructor|done]]. exact (proj1 (Forall_lookup _ _) H _ _ E). }
    intros y. assert (E : emu (sampleAfter (bytesOf "k vjll")) = bufferEmulator sampleBuffer) by reflexivity.
    assert (E2 : width (sampleAfter (bytesOf "k vjll")) = 12) by by vm_compute.
    unfold lineText. rewrite E, E2. destruct (y <? _); apply Hline; repeat constructor; by vm_compute. }
  pose proof (copied_is_highlighted _ (sampleAfter_ok (bytesOf "k vjll")) ltac:(by vm_compute) Hl) as H.
  destruct (normalizedSelection (sampleAfter (bytesOf "k vjll"))) as [[a b] [c d]] eqn:En.
  etransitivity; [exact H|]. vm_compute in En. injection En as <- <- <- <-. by vm_compute.
Defined.
