(* ===== verification/ScreenGrid.v ===== *)
(** * Screen grids and what changed between two of them

    internal/render/screen.go: the grid of cells the client composes a frame
    in, copies of it that share the rows a frame leaves alone, and the
    difference between two frames.  The rows of a grid are parts of arrays of
    a heap, since a copy shares arrays with the grid it was made from and
    compares rows by their address. *)

From S2P Require Import Prelude GoText GoCodec GoRunes.

(** What the code uses of a color: color.Color of Go's image/color, an interface
    with its red, green, blue and alpha values. *)
Class Colors := { Color : Type; RGBA : Color -> Z * Z * Z * Z }.

(** uv.Style and uv.Link, structs of the ultraviolet package. *)
Record Style `{Colors} := mkStyle {
  Fg : option Color; Bg : option Color; UnderlineColor : option Color; Underline : Z; Attrs : Z }.
Arguments mkStyle {_}.
Record Link := mkUVLink { URL : bytes; Params : bytes }.
#[export] Instance Link_dec : EqDecision Link.
Proof. solve_decision. Defined.

Definition zeroStyle `{Colors} : Style := mkStyle None None None 0 0.
Definition zeroLink : Link := mkUVLink [] [].
Definition linkEqual (a b : Link) : bool := bool_decide (a = b).

Definition underlineColorEqual `{Colors} (a b : option Color) : bool :=
  match a, b with
  | None, None => true
  | Some a, Some b => bool_decide (RGBA a = RGBA b)
  | _, _ => false
  end.
(** Style.Equal of the package: the same fields, colors with the same values. *)
Definition styleEqual `{Colors} (a b : Style) : bool :=
  underlineColorEqual (Fg a) (Fg b) && underlineColorEqual (Bg a) (Bg b) &&
  underlineColorEqual (UnderlineColor a) (UnderlineColor b) && (Underline a =? Underline b) && (Attrs a =? Attrs b).

Record ScreenCell `{Colors} := mkCell { Char : bytes; cLink : Link; cStyle : Style; cWidth : Z }.
Arguments mkCell {_}.
Definition Equal `{Colors} (c o : ScreenCell) : bool :=
  bool_decide (Char c = Char o) && (cWidth c =? cWidth o) && styleEqual (cStyle c) (cStyle o) && linkEqual (cLink c) (cLink o).

Definition space : bytes := [32].
Definition blankScreenCell `{Colors} : ScreenCell := mkCell space zeroLink zeroStyle 1.
Definition writeContinuationCell `{Colors} (base : ScreenCell) : ScreenCell := mkCell [] (cLink base) (cStyle base) 0.
Definition normalizeScreenCellInPlace `{Colors} (c : ScreenCell) : ScreenCell :=
  mkCell (match Char c with [] => space | s => s end) (cLink c) (cStyle c) (if cWidth c <? 0 then 1 else cWidth c).

(** ** Grids

    An array is its place in the heap, a row a slice of one. *)
Abbreviation heap := (list (list ScreenCell)).
Record rowSlice := mkRow { rowArray : nat; rowStart : Z; rowLen : Z }.
Record ScreenGrid := mkGrid {
  gWidth : Z; gHeight : Z; gCells : option rowSlice; gRows : option (list rowSlice); ownedRows : option (list bool);
  gDebug : bool; oobWrites : list (Z * Z) }.

Definition makeRow `{Colors} (cells : list ScreenCell) (h : heap) : heap * rowSlice :=
  (h ++ [cells], mkRow (length h) 0 (lenZ cells)).
Definition readRow `{Colors} (h : heap) (r : option rowSlice) : list ScreenCell :=
  match r with
  | None => []
  | Some r => take (Z.to_nat (rowLen r)) (drop (Z.to_nat (rowStart r)) (default [] (h !! rowArray r)))
  end.

(** None is the panic of make with a negative size. *)
Definition NewScreenGrid `{Colors} (width height : Z) (h : heap) : option (heap * ScreenGrid) :=
  if width * height <? 0 then None
  else let '(h, cells) := makeRow (repeat blankScreenCell (Z.to_nat (width * height))) h in
       Some (h, mkGrid width height (Some cells) None None false []).

Definition rowForRead (g : ScreenGrid) (y : Z) : option rowSlice :=
  if (y <? 0) || (gHeight g <=? y) then None
  else match gRows g with
       | Some rows => rows !! Z.to_nat y
       | None =>
           let start := y * gWidth g in
           let end' := start + gWidth g in
           match gCells g with
           | None => None
           | Some cells => if (start <? 0) || (rowLen cells <? end') then None
                           else Some (mkRow (rowArray cells) (rowStart cells + start) (gWidth g))
           end
       end.
Definition screenCellFromRow `{Colors} (row : list ScreenCell) (x : Z) : ScreenCell :=
  default blankScreenCell (if 0 <=? x then row !! Z.to_nat x else None).
(** Go's copy into a fresh row of the width of the grid. *)
Definition copyRow `{Colors} (width : Z) (src : list ScreenCell) : list ScreenCell :=
  take (Z.to_nat width) (src ++ repeat (mkCell [] zeroLink zeroStyle 0) (Z.to_nat width)).
(** The row of a grid, as a list of cells. *)
Definition rowCells `{Colors} (h : heap) (g : ScreenGrid) (y : Z) : list ScreenCell := readRow h (rowForRead g y).
Definition Get `{Colors} (h : heap) (g : ScreenGrid) (x y : Z) : ScreenCell :=
  if (0 <=? x) && (x <? gWidth g) && (0 <=? y) && (y <? gHeight g) then screenCellFromRow (rowCells h g y) x
  else blankScreenCell.

(** A row of a copy is replaced by an array of its own before it is written. *)
Definition rowForWrite `{Colors} (y : Z) (h : heap) (g : ScreenGrid) : heap * ScreenGrid * option rowSlice :=
  match gRows g with
  | None => (h, g, rowForRead g y)
  | Some rows =>
      match ownedRows g with
      | Some owned =>
          if negb (default true (owned !! Z.to_nat y)) then
            let old := readRow h (rows !! Z.to_nat y) in
            let '(h, row) := makeRow (copyRow (gWidth g) old) h in
            (h, mkGrid (gWidth g) (gHeight g) (gCells g) (Some (<[Z.to_nat y := row]> rows)) (Some (<[Z.to_nat y := true]> owned))
                  (gDebug g) (oobWrites g), Some row)
          else (h, g, rows !! Z.to_nat y)
      | None => (h, g, rows !! Z.to_nat y)
      end
  end.
(** The address of a cell: None where x and y are outside of the grid; the
    outer None is the panic of an index beyond the row. *)
Definition cellForWrite `{Colors} (x y : Z) (h : heap) (g : ScreenGrid) : option (heap * ScreenGrid * option (nat * nat)) :=
  if (0 <=? x) && (x <? gWidth g) && (0 <=? y) && (y <? gHeight g) then
    let '(h, g, row) := rowForWrite y h g in
    match row with
    | Some r => if x <? rowLen r then Some (h, g, Some (rowArray r, Z.to_nat (rowStart r + x))) else None
    | None => None
    end
  else Some (h, g, None).
Definition updateCell `{Colors} (a : nat * nat) (f : ScreenCell -> ScreenCell) (h : heap) : heap :=
  alter (alter f a.2) a.1 h.
Definition noteOOB (x y : Z) (g : ScreenGrid) : ScreenGrid :=
  if gDebug g then mkGrid (gWidth g) (gHeight g) (gCells g) (gRows g) (ownedRows g) true (oobWrites g ++ [(x, y)]) else g.
Definition SetCell `{Colors} (x y : Z) (cell : ScreenCell) (h : heap) (g : ScreenGrid) : option (heap * ScreenGrid) :=
  '(h, g, dst) ← cellForWrite x y h g;
  Some (match dst with Some a => (updateCell a (fun _ => cell) h, g) | None => (h, noteOOB x y g) end).
Definition setBlank `{Colors} (x y : Z) (h : heap) (g : ScreenGrid) : option (heap * ScreenGrid) :=
  SetCell x y blankScreenCell h g.

(** ** Copies *)
Definition Clone `{Colors} (g : ScreenGrid) (h : heap) : heap * ScreenGrid :=
  let '(h, cells) := makeRow (seqZ 0 (gHeight g) ≫= fun y => copyRow (gWidth g) (rowCells h g y)) h in
  (h, mkGrid (gWidth g) (gHeight g) (Some cells) None None (gDebug g) []).
(** The rows of a copy: those that are not dirty are shared. *)
Fixpoint copyRows `{Colors} (g : ScreenGrid) (y : Z) (dirty : list bool) (h : heap) : heap * list rowSlice :=
  match dirty with
  | [] => (h, [])
  | d :: dirty =>
      let src := default (mkRow 0 0 0) (rowForRead g y) in
      let '(h, row) :=
        if d then makeRow (copyRow (gWidth g) (rowCells h g y)) h
        else (h, src) in
      let '(h, rows) := copyRows g (y + 1) dirty h in (h, row :: rows)
  end.
Definition cloneDirtyRows `{Colors} (dirtyRows : list bool) (g : ScreenGrid) (h : heap) : heap * ScreenGrid :=
  if negb (lenZ dirtyRows =? gHeight g) then Clone g h
  else let '(h, rows) := copyRows g 0 dirtyRows h in
       (h, mkGrid (gWidth g) (gHeight g) None (Some rows) (Some dirtyRows) (gDebug g) []).

(** ** Differences *)
Record CellChange `{Colors} := mkChange { chX : Z; chY : Z; chCell : ScreenCell }.
Arguments mkChange {_}.

(** The same array at the same place: the comparison of &a[0] and &b[0]. *)
Definition sameScreenCellRow (a b : option rowSlice) (width : Z) : bool :=
  if width =? 0 then true
  else match a, b with
       | Some a, Some b => (width <=? rowLen a) && (width <=? rowLen b) &&
                           Nat.eqb (rowArray a) (rowArray b) && (rowStart a =? rowStart b)
       | _, _ => false
       end.

Definition isChar (c : Z) (s : bytes) : bool := bool_decide (s = [c]).
Definition rowHasPaneStatusHeader `{Colors} (h : heap) (g : ScreenGrid) (y : Z) : bool :=
  if (y <? 0) || (gHeight g <=? y) then false
  else
    let cells := map (fun x => Get h g x y) (seqZ 0 (gWidth g)) in
    existsb (fun c => bool_decide (is_Some (Bg (cStyle c)))) cells &&
    existsb (fun c => isChar 91 (Char c)) cells && existsb (fun c => isChar 93 (Char c)) cells.
Definition extendChangedStatusSpan `{Colors} (h : heap) (next : ScreenGrid) (y first last : Z) : Z * Z :=
  if negb (rowHasPaneStatusHeader h next y) then (first, last) else (0, gWidth next - 1).

(** The first and the last column where two rows differ, -1 where they do not. *)
Definition changedSpan `{Colors} (prevRow nextRow : list ScreenCell) (width : Z) : Z * Z :=
  fold_left (fun '(first, last) x =>
    if negb (Equal (screenCellFromRow nextRow x) (screenCellFromRow prevRow x)) then (if first <? 0 then x else first, x)
    else (first, last)) (seqZ 0 width) (-1, -1).
Definition rowChanges `{Colors} (nextRow : list ScreenCell) (y first last : Z) : list CellChange :=
  map (fun x => mkChange x y (screenCellFromRow nextRow x)) (seqZ first (last - first + 1)).
Definition diffRow `{Colors} (h : heap) (prev next : ScreenGrid) (y : Z) : list CellChange :=
  if sameScreenCellRow (rowForRead prev y) (rowForRead next y) (gWidth next) then []
  else
    let '(first, last) := changedSpan (rowCells h prev y) (rowCells h next y) (gWidth next) in
    if first <? 0 then []
    else let '(first, last) := extendChangedStatusSpan h next y first last in
         rowChanges (rowCells h next y) y first last.
Definition DiffGrid `{Colors} (h : heap) (prev : option ScreenGrid) (next : ScreenGrid) : list CellChange :=
  seqZ 0 (gHeight next) ≫= fun y =>
    match prev with
    | None => rowChanges (rowCells h next y) y 0 (gWidth next - 1)
    | Some prev => diffRow h prev next y
    end.

(** ** Colors *)
(** The constructor of colors of the package ansi. *)
Class Palette `{Colors} := { RGBColor : Z -> Z -> Z -> Color }.
Definition hexValue (c : Z) : option Z :=
  if isDigit c then Some (c - 48) else if between 97 c 102 then Some (c - 87) else if between 65 c 70 then Some (c - 55) else None.
(** strconv.ParseUint of two hexadecimal digits; 0 where it fails. *)
Definition hexByte (hex : bytes) (i : nat) : Z :=
  match hex !! i ≫= hexValue, hex !! S i ≫= hexValue with Some a, Some b => 16 * a + b | _, _ => 0 end.
Definition hexToColor `{Palette} (hex : bytes) : option Color :=
  if lenZ hex <? 6 then None else Some (RGBColor (hexByte hex 0) (hexByte hex 2) (hexByte hex 4)).
