(* ===== verification/ScreenEmit.v ===== *)
(** * What a frame writes to the terminal

    internal/render/screen.go, color_profile.go and compositor.go: changed cells
    become cursor movements, style changes, hyperlinks and text, and the
    compositor keeps the frame, the cursor and the style it left the terminal
    with.  The pieces written to the builder are the constructors of [Out],
    named as the functions of the ansi package that make their bytes. *)

From S2P Require Import Prelude GoText GoCodec GoRunes ScreenGrid.

Inductive TermProfile := TrueColor | ANSI256 | ANSI | Ascii | otherProfile (n : Z).
Inductive ColorProfile := cpTrueColor | cpANSI256 | cpANSI | cpASCII.
#[export] Instance TermProfile_dec : EqDecision TermProfile.
Proof. solve_decision. Defined.
Definition uvColorProfile (profile : TermProfile) : ColorProfile :=
  match profile with
  | TrueColor => cpTrueColor | ANSI256 => cpANSI256 | ANSI => cpANSI | Ascii => cpASCII | otherProfile _ => cpTrueColor
  end.

(** What the code uses of the packages uv and ansi on styles: the colors a
    profile can show, the bytes that change one style into another, the bytes of
    a list of underline attributes, and those that reset the style. *)
Inductive UnderlineAttr `{Colors} := UnderlineStyle (u : Z) | UnderlineColored (c : option Color).
Class UV `{Colors} := {
  ConvertStyle : Style -> ColorProfile -> Style;
  StyleDiff : option Style -> Style -> bytes;
  attrsString : list UnderlineAttr -> bytes;
  ResetStyle : bytes }.

Inductive Out := SGR (s : bytes) | CursorPosition (col row : Z) | ResetHyperlink | SetHyperlink (url : bytes) (params : option bytes)
| Text (s : bytes) | HideCursor | ShowCursor.

(** ** Styles *)
Definition baseStyle `{Colors} (s : Style) : Style := mkStyle (Fg s) (Bg s) None 0 (Attrs s).
Definition underlineDiffSequence `{UV} (from : option Style) (to : Style) (baseReset : bool) : bytes :=
  let '(currentUnderline, currentUnderlineColor) :=
    match from with
    | Some from => if negb baseReset then (Underline from, UnderlineColor from) else (0, None)
    | None => (0, None)
    end in
  let seq := (if negb (currentUnderline =? Underline to) then [UnderlineStyle (Underline to)] else []) ++
             (if negb (underlineColorEqual currentUnderlineColor (UnderlineColor to)) then [UnderlineColored (UnderlineColor to)] else []) in
  match seq with [] => [] | _ => attrsString seq end.
Definition styleDiffWithProfile `{UV} (from : option Style) (to : Style) (profile : TermProfile) : bytes :=
  let convertedTo := ConvertStyle to (uvColorProfile profile) in
  let baseTo := baseStyle convertedTo in
  match from with
  | None =>
      let baseDiff := StyleDiff None baseTo in
      baseDiff ++ underlineDiffSequence None convertedTo (bool_decide (baseDiff = ResetStyle))
  | Some from =>
      let convertedFrom := ConvertStyle from (uvColorProfile profile) in
      let baseDiff := StyleDiff (Some (baseStyle convertedFrom)) baseTo in
      baseDiff ++ underlineDiffSequence (Some convertedFrom) convertedTo (bool_decide (baseDiff = ResetStyle))
  end.

Record emittedCellState `{Colors} := mkEmitted { hasStyle : bool; eStyle : Style; eLink : Link }.
Arguments mkEmitted {_}.
Definition zeroEmittedCellState `{Colors} : emittedCellState := mkEmitted false zeroStyle zeroLink.
Definition defaultEmittedCellState `{Colors} : emittedCellState := mkEmitted true zeroStyle zeroLink.
Definition stylePtr `{Colors} (s : emittedCellState) : option Style := if hasStyle s then Some (eStyle s) else None.

Definition linkIsZero (link : Link) : bool := bool_decide (URL link = []) && bool_decide (Params link = []).
Definition hyperlinkSequence (link : Link) : Out :=
  match Params link with [] => SetHyperlink (URL link) None | params => SetHyperlink (URL link) (Some params) end.
Definition transition `{UV} (s : emittedCellState) (cell : ScreenCell) (profile : TermProfile) : list Out * emittedCellState :=
  let diff := styleDiffWithProfile (stylePtr s) (cStyle cell) profile in
  ((match diff with [] => [] | _ => [SGR diff] end) ++
   (if negb (linkEqual (cLink cell) (eLink s)) then
      (if negb (linkIsZero (eLink s)) then [ResetHyperlink] else []) ++
      (if negb (linkIsZero (cLink cell)) then [hyperlinkSequence (cLink cell)] else [])
    else []),
   mkEmitted true (cStyle cell) (cLink cell)).
Definition closeHyperlink `{Colors} (s : emittedCellState) : list Out * emittedCellState :=
  if negb (linkIsZero (eLink s)) then ([ResetHyperlink], mkEmitted (hasStyle s) (eStyle s) zeroLink) else ([], s).

(** ** Changes *)
Definition charText (char : bytes) : bytes := match char with [] => space | _ => char end.
Record emitter `{Colors} := mkEmitter { buf : list Out; expectX : Z; expectY : Z; emitted : emittedCellState }.
Arguments mkEmitter {_}.
Definition emitChange `{UV} (profile : TermProfile) (e : emitter) (ch : CellChange) : emitter :=
  if cWidth (chCell ch) =? 0 then e
  else
    let move := if negb (chY ch =? expectY e) || negb (chX ch =? expectX e) then [CursorPosition (chX ch + 1) (chY ch + 1)] else [] in
    let '(pieces, state) := transition (emitted e) (chCell ch) profile in
    let w := if cWidth (chCell ch) <=? 0 then 1 else cWidth (chCell ch) in
    mkEmitter (buf e ++ move ++ pieces ++ [Text (charText (Char (chCell ch)))]) (chX ch + w) (chY ch) state.
Definition emitDiffWithProfileState `{UV} (changes : list CellChange) (profile : TermProfile) (state : emittedCellState) (close : bool)
  : list Out * emittedCellState :=
  match changes with
  | [] => ([], state)
  | _ =>
      let e := fold_left (emitChange profile) changes (mkEmitter [] (-1) (-1) state) in
      if close then let '(out, state) := closeHyperlink (emitted e) in (buf e ++ out, state) else (buf e, emitted e)
  end.
Definition emitDiffWithProfile `{UV} (changes : list CellChange) (profile : TermProfile) : list Out :=
  fst (emitDiffWithProfileState changes profile zeroEmittedCellState true).

(** ** Frames *)
Record cursorRenderState := mkCursor { visible : bool; curPositioned : bool; col : Z; row : Z }.
#[export] Instance cursorRenderState_dec : EqDecision cursorRenderState.
Proof. solve_decision. Defined.
Definition noCursor : cursorRenderState := mkCursor false false 0 0.

(** The compositor's sizes, its last frame and what it knows of the terminal. *)
Record Compositor `{Colors} := mkCompositor {
  compWidth : Z; compHeight : Z; prevGrid : option ScreenGrid; prevGridSnap : option ScreenGrid; prevCursor : cursorRenderState;
  lastEmittedCell : emittedCellState; preciseSGR : bool; colorProfile : TermProfile }.
Arguments mkCompositor {_}.
Definition withFrame `{Colors} (prev snap : option ScreenGrid) (cursor : cursorRenderState) (last : emittedCellState) (c : Compositor) : Compositor :=
  mkCompositor (compWidth c) (compHeight c) prev snap cursor last (preciseSGR c) (colorProfile c).

Definition NewCompositor `{Colors} (width height : Z) (precise : bool) : Compositor :=
  mkCompositor width height None None noCursor defaultEmittedCellState precise TrueColor.
Definition clearPrevGrid `{Colors} (c : Compositor) : Compositor := withFrame None None noCursor defaultEmittedCellState c.
Definition Resize `{Colors} (width height : Z) (c : Compositor) : Compositor :=
  clearPrevGrid (mkCompositor width height (prevGrid c) (prevGridSnap c) (prevCursor c) (lastEmittedCell c) (preciseSGR c) (colorProfile c)).
Definition SetColorProfile `{Colors} (profile : TermProfile) (c : Compositor) : Compositor :=
  if bool_decide (colorProfile c = profile) then c
  else clearPrevGrid (mkCompositor (compWidth c) (compHeight c) (prevGrid c) (prevGridSnap c) (prevCursor c) (lastEmittedCell c) (preciseSGR c) profile).
Definition resetLastEmittedStyle `{Colors} (s : emittedCellState) : emittedCellState := mkEmitted true zeroStyle (eLink s).

Definition renderCursorTransition `{UV} (state : cursorRenderState) (hiddenCursorWritten : bool) : list Out :=
  if negb (visible state) then (if negb hiddenCursorWritten then [HideCursor] else [])
  else if negb (curPositioned state) then [ShowCursor]
  else [SGR ResetStyle; CursorPosition (col state) (row state); ShowCursor].

(** RenderDiffWithOverlayDirtyStats from the composed grid on: the output, the
    number of changed cells, and the compositor afterwards. *)
Definition renderGrid `{UV} (h : heap) (newGrid : ScreenGrid) (nextCursor : cursorRenderState) (c : Compositor) : list Out * Z * Compositor :=
  let firstFrame := bool_decide (prevGrid c = None) in
  let last := if firstFrame then defaultEmittedCellState else lastEmittedCell c in
  let changes := DiffGrid h (prevGrid c) newGrid in
  let cursorChanged := negb (bool_decide (prevCursor c = nextCursor)) in
  let some := negb (bool_decide (lenZ changes = 0)) in
  if negb some && negb cursorChanged then ([], 0, withFrame (Some newGrid) (Some newGrid) nextCursor last c)
  else
    let hide := if some || negb (visible nextCursor) then [HideCursor] else [] in
    let '(out, last) :=
      if preciseSGR c then emitDiffWithProfileState changes (colorProfile c) last false
      else ((if some then [SGR ResetStyle] else []) ++ emitDiffWithProfile changes (colorProfile c), last) in
    let last' := if preciseSGR c && visible nextCursor && curPositioned nextCursor then resetLastEmittedStyle last else last in
    (hide ++ out ++ renderCursorTransition nextCursor some, lenZ changes, withFrame (Some newGrid) (Some newGrid) nextCursor last' c).
