(* ===== verification/ScreenTerm.v ===== *)
(** * The terminal a frame is written to

    What a terminal does with the pieces a frame writes, and what it means that
    it shows a grid.  The bytes of styles and the width of a character are the
    terminal's ([Terminal]); [TerminalLaws] says how the bytes of the packages uv
    and ansi are read. *)

From Stdlib Require Import Setoid Morphisms.
From S2P Require Import Prelude GoText GoCodec GoRunes ScreenGrid ScreenEmit.

Class Terminal `{Colors} := { sgr : bytes -> Style -> Style; termWidth : bytes -> Z }.

(** A character over its columns, the columns after its first, and half of a
    wide character that was overwritten. *)
Inductive TCell `{Colors} := TChar (s : bytes) (style : Style) (link : Link) (w : Z) | TCont | TLost.
Record Term `{Colors} := mkTerm {
  tCols : Z; tRows : Z; tCell : Z -> Z -> TCell; tX : Z; tY : Z; tStyle : Style; tLink : Link; tVisible : bool }.
Arguments mkTerm {_}.

Definition isCont `{Colors} (c : TCell) : bool := match c with TCont => true | _ => false end.
(** The cells of a row after a character of width [w] is written at [x]. *)
Definition putRow `{Colors} (row : Z -> TCell) (x w : Z) (c : TCell) : Z -> TCell := fun i =>
  if i =? x then c
  else if (x <? i) && (i <? x + w) then TCont
  else if (i =? x - 1) && isCont (row x) then TLost
  else if (i =? x + w) && isCont (row i) then TLost
  else row i.
Definition withPen `{Colors} (style : Style) (link : Link) (t : Term) : Term :=
  mkTerm (tCols t) (tRows t) (tCell t) (tX t) (tY t) style link (tVisible t).
(** None where what happens depends on the terminal: text over the right
    margin, or of no width. *)
Definition termStep `{Terminal} (o : Out) (t : Term) : option Term :=
  match o with
  | SGR s => Some (withPen (sgr s (tStyle t)) (tLink t) t)
  | CursorPosition col row =>
      Some (mkTerm (tCols t) (tRows t) (tCell t) (clamp (col - 1) 0 (tCols t - 1)) (clamp (row - 1) 0 (tRows t - 1)) (tStyle t) (tLink t) (tVisible t))
  | ResetHyperlink => Some (withPen (tStyle t) zeroLink t)
  | SetHyperlink url params =>
      Some (withPen (tStyle t) (match url with [] => zeroLink | _ => mkUVLink url (default [] params) end) t)
  | Text s =>
      let w := termWidth s in
      if (w <=? 0) || (tCols t <? tX t + w) then None
      else Some (mkTerm (tCols t) (tRows t)
             (fun y => if y =? tY t then putRow (tCell t y) (tX t) w (TChar s (tStyle t) (tLink t) w) else tCell t y)
             (tX t + w) (tY t) (tStyle t) (tLink t) (tVisible t))
  | HideCursor => Some (mkTerm (tCols t) (tRows t) (tCell t) (tX t) (tY t) (tStyle t) (tLink t) false)
  | ShowCursor => Some (mkTerm (tCols t) (tRows t) (tCell t) (tX t) (tY t) (tStyle t) (tLink t) true)
  end.
Fixpoint termRun `{Terminal} (out : list Out) (t : Term) : option Term :=
  match out with [] => Some t | o :: out => t' ← termStep o t; termRun out t' end.

Lemma termRun_app `{Terminal} a b t : termRun (a ++ b) t = (t' ← termRun a t; termRun b t').
Proof. revert t. induction a as [|o a IH]; intros t; [done|]. cbn [app termRun]. destruct (termStep o t); cbn; [apply IH|done]. Qed.

(** ** Styles that look the same *)
Definition sameColor `{Colors} (a b : option Color) : Prop := underlineColorEqual a b = true.
Definition sameStyle `{Colors} (a b : Style) : Prop := styleEqual a b = true.
Definition sameCell `{Colors} (a b : ScreenCell) : Prop := Equal a b = true.

Section Same.
Context `{Colors}.
#[export] Instance sameColor_equiv : Equivalence sameColor.
Proof.
  unfold sameColor, underlineColorEqual. split.
  - intros [a|]; [by apply bool_decide_eq_true|done].
  - intros [a|] [b|]; try done. rewrite !bool_decide_eq_true. done.
  - intros [a|] [b|] [c|]; try done. rewrite !bool_decide_eq_true. intros. congruence.
Qed.
Lemma sameStyle_iff a b : sameStyle a b <->
  sameColor (Fg a) (Fg b) /\ sameColor (Bg a) (Bg b) /\ sameColor (UnderlineColor a) (UnderlineColor b) /\ Underline a = Underline b /\ Attrs a = Attrs b.
Proof. unfold sameStyle, styleEqual, sameColor. rewrite !andb_true_iff, !Z.eqb_eq. tauto. Qed.
#[export] Instance sameStyle_equiv : Equivalence sameStyle.
Proof.
  split.
  - intros a. apply sameStyle_iff. by split_and!.
  - intros a b (H1 & H2 & H3 & H4 & H5)%sameStyle_iff. apply sameStyle_iff. split_and!; try (by symmetry); congruence.
  - intros a b c (A1 & A2 & A3 & A4 & A5)%sameStyle_iff (B1 & B2 & B3 & B4 & B5)%sameStyle_iff.
    apply sameStyle_iff. split_and!; first [by etransitivity|congruence].
Qed.
#[export] Instance baseStyle_proper : Proper (sameStyle ==> sameStyle) baseStyle.
Proof. intros a b (H1 & H2 & H3 & H4 & H5)%sameStyle_iff. by apply sameStyle_iff. Qed.
#[export] Instance underlineColorEqual_proper : Proper (sameColor ==> sameColor ==> eq) underlineColorEqual.
Proof.
  intros a a' Ha b b' Hb. destruct (underlineColorEqual a b) eqn:E, (underlineColorEqual a' b') eqn:E'; try done; exfalso.
  - assert (sameColor a' b') as Hs by (rewrite <- Ha, <- Hb; exact E). unfold sameColor in Hs. congruence.
  - assert (sameColor a b) as Hs by (rewrite Ha, Hb; exact E'). unfold sameColor in Hs. congruence.
Qed.
Lemma sameCell_iff a b : sameCell a b <->
  Char a = Char b /\ cWidth a = cWidth b /\ sameStyle (cStyle a) (cStyle b) /\ cLink a = cLink b.
Proof. unfold sameCell, Equal, linkEqual, sameStyle. rewrite !andb_true_iff, !bool_decide_eq_true, Z.eqb_eq. tauto. Qed.
#[export] Instance sameCell_equiv : Equivalence sameCell.
Proof.
  split.
  - intros a. apply sameCell_iff. by split_and!.
  - intros a b (H1 & H2 & H3 & H4)%sameCell_iff. apply sameCell_iff. split_and!; by symmetry.
  - intros a b c (A1 & A2 & A3 & A4)%sameCell_iff (B1 & B2 & B3 & B4)%sameCell_iff.
    apply sameCell_iff. split_and!; first [by etransitivity|congruence].
Qed.
End Same.

(** ** How the bytes of the packages are read *)
Definition applyAttr `{Colors} (s : Style) (a : UnderlineAttr) : Style :=
  match a with
  | UnderlineStyle u => mkStyle (Fg s) (Bg s) (UnderlineColor s) u (Attrs s)
  | UnderlineColored c => mkStyle (Fg s) (Bg s) c (Underline s) (Attrs s)
  end.
(** Styles without underline go through StyleDiff; where its bytes are not the
    reset of all styles, the underline stays.  A list of no attributes, whose
    bytes are a reset, is never written: [sgr_attrs] is about the others. *)
Class TerminalLaws `{UV} `{!Terminal} := {
  convert_proper p :: Proper (sameStyle ==> sameStyle) (fun s => ConvertStyle s p);
  convert_zero p : sameStyle (ConvertStyle zeroStyle p) zeroStyle;
  sgr_nil s : sgr [] s = s;
  sgr_app from to l s : sgr (StyleDiff from to ++ attrsString l) s = sgr (attrsString l) (sgr (StyleDiff from to) s);
  sgr_reset s : sgr ResetStyle s = zeroStyle;
  sgr_attrs l s : l <> [] -> sgr (attrsString l) s = fold_left applyAttr l s;
  sgr_diff from to s :
    sameStyle (baseStyle s) (default zeroStyle from) -> from ≫= (fun f => Some (baseStyle f)) = from -> baseStyle to = to ->
    sameStyle (baseStyle (sgr (StyleDiff from to) s)) to /\
    (StyleDiff from to = ResetStyle \/
     (Underline (sgr (StyleDiff from to) s) = Underline s /\ sameColor (UnderlineColor (sgr (StyleDiff from to) s)) (UnderlineColor s))) }.

Lemma sameStyle_base `{Colors} a b : sameStyle a b <->
  sameStyle (baseStyle a) (baseStyle b) /\ sameColor (UnderlineColor a) (UnderlineColor b) /\ Underline a = Underline b.
Proof. rewrite !sameStyle_iff. cbn. split; intros; destruct_and!; split_and!; done. Qed.

(** The sequence between two styles changes one into the other. *)
Lemma styleDiff_correct `{TerminalLaws} from to p s :
  sameStyle s (match from with Some f => ConvertStyle f (uvColorProfile p) | None => zeroStyle end) ->
  sameStyle (sgr (styleDiffWithProfile from to p) s) (ConvertStyle to (uvColorProfile p)).
Proof.
  intros Hs. unfold styleDiffWithProfile. set (t := ConvertStyle to _). set (cf := fun f => ConvertStyle f (uvColorProfile p)).
  set (from' := fmap (fun f => baseStyle (cf f)) from). set (base := StyleDiff from' (baseStyle t)).
  assert (Hb : sameStyle (baseStyle s) (default zeroStyle from')).
  { unfold from'. destruct from as [f|]; cbn; [fold (cf f) in Hs; by rewrite Hs|]. rewrite Hs. done. }
  destruct (sgr_diff from' (baseStyle t) s Hb) as [D1 D2]; [by destruct from|done|]. fold base in D1, D2.
  assert (Hend : forall cur curc, Underline (sgr base s) = cur -> sameColor (UnderlineColor (sgr base s)) curc ->
    forall seq, seq = (if negb (cur =? Underline t) then [UnderlineStyle (Underline t)] else []) ++
      (if negb (underlineColorEqual curc (UnderlineColor t)) then [UnderlineColored (UnderlineColor t)] else []) ->
    sameStyle (sgr (base ++ match seq with [] => [] | _ => attrsString seq end) s) t).
  { intros cur curc Hu Hc seq ->.
    assert (Hq : forall l, sgr (base ++ match l with [] => [] | _ => attrsString l end) s = fold_left applyAttr l (sgr base s))
      by (intros [|x l]; [by rewrite app_nil_r|unfold base; rewrite sgr_app; by apply sgr_attrs]). rewrite Hq.
    apply sameStyle_iff in D1 as (B1 & B2 & _ & _ & B5). cbn in B1, B2, B5. apply sameStyle_iff.
    destruct (Z.eqb_spec cur (Underline t)) as [->|Hne], (underlineColorEqual curc (UnderlineColor t)) eqn:Ec; cbn; split_and!; try done;
      by (etransitivity; [exact Hc|exact Ec]). }
  destruct from as [f|]; cbv zeta.
  - change (StyleDiff (Some (baseStyle (ConvertStyle f (uvColorProfile p)))) (baseStyle t)) with base.
    unfold underlineDiffSequence. case_bool_decide as Er; cbn [negb].
    + apply (Hend 0 None); [by rewrite Er, sgr_reset| |done]. by rewrite Er, sgr_reset.
    + destruct D2 as [?|[U1 U2]]; [done|]. apply sameStyle_iff in Hs as (_ & _ & S3 & S4 & _).
      apply (Hend (Underline (ConvertStyle f (uvColorProfile p))) (UnderlineColor (ConvertStyle f (uvColorProfile p)))); [congruence| |done]. etransitivity; [exact U2|exact S3].
  - change (StyleDiff None (baseStyle t)) with base. unfold underlineDiffSequence. apply (Hend 0 None); [| |done].
    + destruct D2 as [->|[-> _]]; [by rewrite sgr_reset|]. by apply sameStyle_iff in Hs as (_ & _ & _ & -> & _).
    + destruct D2 as [->|[_ U2]]; [by rewrite sgr_reset|]. etransitivity; [exact U2|]. by apply sameStyle_iff in Hs as (_ & _ & ? & _).
Qed.
