(* ===== verification/ScreenFacts.v ===== *)
(** * Painting a row, a grid and a frame

    What the output for some changes does to a terminal that shows the frame
    before them: [RowInv] is kept from column to column, and a painted row shows
    the next frame. *)

From Stdlib Require Import Setoid Morphisms.
From S2P Require Import Prelude GoText GoCodec GoRunes ScreenGrid ScreenEmit ScreenTerm.

(** What a cell looks like on the terminal, and grids a terminal can show: a
    wide cell is followed by the cell it continues in, and only such a cell has
    no width. *)
Definition drawn `{UV} (p : TermProfile) (c : ScreenCell) (tc : TCell) : Prop :=
  if cWidth c =? 0 then tc = TCont
  else exists st, tc = TChar (charText (Char c)) st (cLink c) (cWidth c) /\ sameStyle st (ConvertStyle (cStyle c) (uvColorProfile p)).
Definition wfCell `{Terminal} (c : ScreenCell) : Prop :=
  cWidth c = 0 \/ ((cWidth c = 1 \/ cWidth c = 2) /\ termWidth (charText (Char c)) = cWidth c /\ (cLink c = zeroLink \/ URL (cLink c) <> [])).
Definition wfRow `{Terminal} (W : Z) (N : Z -> ScreenCell) : Prop := forall x, 0 <= x < W ->
  wfCell (N x) /\ (cWidth (N x) = 0 <-> 0 < x /\ cWidth (N (x - 1)) = 2) /\ (cWidth (N x) = 2 -> x + 1 < W).
Definition gridCell `{Colors} (h : heap) (g : ScreenGrid) (y x : Z) : ScreenCell := screenCellFromRow (rowCells h g y) x.
Definition wfGrid `{Terminal} (h : heap) (g : ScreenGrid) : Prop :=
  0 < gWidth g /\ 0 < gHeight g /\ forall y, 0 <= y < gHeight g -> wfRow (gWidth g) (gridCell h g y).
Definition shows `{UV} (p : TermProfile) (h : heap) (g : ScreenGrid) (t : Term) : Prop :=
  tCols t = gWidth g /\ tRows t = gHeight g /\
  forall y x, 0 <= y < gHeight g -> 0 <= x < gWidth g -> drawn p (gridCell h g y x) (tCell t y x).
(** What the emitter takes the terminal's style and hyperlink to be. *)
Definition pen `{UV} (p : TermProfile) (e : emittedCellState) (t : Term) : Prop :=
  sameStyle (tStyle t) (match stylePtr e with Some s => ConvertStyle s (uvColorProfile p) | None => zeroStyle end) /\ tLink t = eLink e.

Section Emit.
Context `{TerminalLaws}.
Implicit Types (t : Term) (c : ScreenCell) (e : emitter).

#[export] Instance drawn_proper p : Proper (sameCell ==> eq ==> iff) (drawn p).
Proof.
  assert (Hd : forall a b tc, sameCell a b -> drawn p a tc -> drawn p b tc).
  { intros a b tc (H3 & H4 & H5 & H6)%sameCell_iff. unfold drawn. rewrite H3, H4, H6.
    destruct (cWidth b =? 0); [done|]. intros (st & -> & Hst). exists st. split; [done|]. rewrite Hst. by apply convert_proper. }
  intros a b Hab tc ? <-. split; apply Hd; [done|by symmetry].
Qed.
Lemma drawn_cont p c tc : drawn p c tc -> cWidth c = 0 <-> tc = TCont.
Proof. unfold drawn. destruct (Z.eqb_spec (cWidth c) 0); [by intros ->|]. intros (st & -> & _). done. Qed.

Lemma linkIsZero_iff l : linkIsZero l = true <-> l = zeroLink.
Proof. unfold linkIsZero. rewrite andb_true_iff, !bool_decide_eq_true. destruct l; cbn. split; [by intros [-> ->]|by intros [= -> ->]]. Qed.

(** The bytes before a character leave the terminal with its style and link. *)
Lemma transition_run p s c t : pen p s t -> (cLink c = zeroLink \/ URL (cLink c) <> []) ->
  exists st, termRun (fst (transition s c p)) t = Some (withPen st (cLink c) t) /\
    sameStyle st (ConvertStyle (cStyle c) (uvColorProfile p)).
Proof.
  intros [Hst Hl] Hlink. pose proof (styleDiff_correct (stylePtr s) (cStyle c) p (tStyle t) Hst) as Hd.
  unfold transition. cbn [fst]. set (diff := styleDiffWithProfile _ _ _) in *. exists (sgr diff (tStyle t)). split; [|done].
  assert (H1' : termRun (match diff with [] => [] | _ :: _ => [SGR diff] end) t = Some (withPen (sgr diff (tStyle t)) (tLink t) t)).
  { destruct diff as [|z l]; [|done]. cbn. rewrite sgr_nil. by destruct t. }
  rewrite termRun_app, H1'. cbn [mbind option_bind]. clear H1' Hd. unfold linkEqual.
  case_bool_decide as He; [cbn; by rewrite Hl, He|]. cbn [negb]. rewrite termRun_app.
  assert (H2' : termRun (if negb (linkIsZero (eLink s)) then [ResetHyperlink] else []) (withPen (sgr diff (tStyle t)) (tLink t) t) =
    Some (withPen (sgr diff (tStyle t)) zeroLink t)).
  { destruct (linkIsZero (eLink s)) eqn:Ez; cbn; [|done]. apply linkIsZero_iff in Ez. by rewrite Hl, Ez. }
  rewrite H2'. cbn [mbind option_bind]. destruct (linkIsZero (cLink c)) eqn:Ez.
  - apply linkIsZero_iff in Ez. by rewrite Ez.
  - destruct Hlink as [Hz|Hu]; [by apply linkIsZero_iff in Hz; congruence|]. cbn [negb]. destruct (cLink c) as [u ps]. cbn in Hu.
    unfold hyperlinkSequence. cbn. destruct ps, u; try done.
Qed.

(** ** One character *)
Definition cursorKnown e t : Prop := expectY e = -1 \/ (tX t = expectX e /\ tY t = expectY e).
Lemma emitChange_skip p e ch : cWidth (chCell ch) = 0 -> emitChange p e ch = e.
Proof. intros E. unfold emitChange. by rewrite E. Qed.
Lemma emitChange_run p e x y c t0 t :
  termRun (buf e) t0 = Some t -> pen p (emitted e) t -> cursorKnown e t ->
  wfCell c -> cWidth c <> 0 -> 0 <= y < tRows t -> 0 <= x -> x + cWidth c <= tCols t ->
  let e' := emitChange p e (mkChange x y c) in
  exists t' tc, termRun (buf e') t0 = Some t' /\ pen p (emitted e') t' /\ cursorKnown e' t' /\
    tCols t' = tCols t /\ tRows t' = tRows t /\ drawn p c tc /\ tVisible t' = tVisible t /\
    (forall i j, tCell t' i j = if i =? y then putRow (tCell t y) x (cWidth c) tc j else tCell t i j).
Proof.
  intros Hb Hp Hc Hwf Hw Hy Hx Hr. destruct Hwf as [?|(Hw12 & Htw & Hlk)]; [done|]. cbv zeta. unfold emitChange.
  cbn [chCell chX chY]. rewrite (proj2 (Z.eqb_neq _ _) Hw).
  set (move := if negb (y =? expectY e) || negb (x =? expectX e) then _ else _).
  assert (Hm : exists t1, termRun move t = Some t1 /\ tX t1 = x /\ tY t1 = y /\ tCols t1 = tCols t /\ tRows t1 = tRows t /\
    tCell t1 = tCell t /\ tStyle t1 = tStyle t /\ tLink t1 = tLink t /\ tVisible t1 = tVisible t).
  { unfold move. destruct (negb (y =? expectY e) || negb (x =? expectX e)) eqn:E.
    - eexists. split; [done|]. cbn. split_and!; try done; unfold clamp; lia.
    - apply orb_false_iff in E as [E1%negb_false_iff%Z.eqb_eq E2%negb_false_iff%Z.eqb_eq]. exists t. split; [done|].
      destruct Hc as [?|[-> ->]]; [lia|]. by rewrite E1, E2. }
  destruct Hm as (t1 & Hm & X1 & Y1 & C1 & R1 & K1 & S1 & L1 & V1).
  destruct (transition_run p (emitted e) c t1) as (st & Ht & Hst); [by unfold pen in *; rewrite S1, L1|done|].
  destruct (transition (emitted e) c p) as [pieces state] eqn:Etr. cbn [fst] in Ht.
  assert (Hs : state = mkEmitted true (cStyle c) (cLink c)) by (unfold transition in Etr; by inversion Etr). clear Etr. subst state.
  assert (Hw1 : (cWidth c <=? 0) = false) by lia. rewrite Hw1.
  eexists _, (TChar (charText (Char c)) st (cLink c) (cWidth c)). cbn [buf emitted expectX expectY].
  rewrite termRun_app, Hb. cbn [mbind option_bind]. rewrite termRun_app, Hm. cbn [mbind option_bind]. rewrite termRun_app, Ht.
  cbn [mbind option_bind termRun termStep withPen tCols tX]. rewrite Htw, Hw1, C1, X1, (proj2 (Z.ltb_ge _ _)) by lia. cbn [orb].
  split; [done|]. unfold pen, cursorKnown. cbn [tStyle tLink stylePtr hasStyle eStyle eLink tX tY tCols tRows tCell withPen expectX expectY tVisible].
  split; [done|]. split; [right; by rewrite Y1|]. split; [done|]. split; [done|]. split.
  { unfold drawn. rewrite (proj2 (Z.eqb_neq _ _) Hw). by exists st. }
  split; [done|]. intros i j. rewrite Y1, K1. destruct (Z.eqb_spec i y) as [->|]; done.
Qed.
End Emit.

(** ** Rows *)
Section Rows.
Context `{TerminalLaws}.
Implicit Types (t : Term) (c : ScreenCell) (e : emitter).

(** The row while the columns from [a] to [b] are painted and [x] is next. *)
Record RowInv (p : TermProfile) (W b : Z) (N : Z -> ScreenCell) (R : Z -> TCell) (x : Z) : Prop := {
  ri_left i : 0 <= i < x -> drawn p (N i) (R i);
  ri_right i : b < i < W -> drawn p (N i) (R i);
  ri_cont : x <= b -> cWidth (N x) = 0 -> R x = TCont /\ (x + 1 < W -> cWidth (N (x + 1)) <> 0 -> R (x + 1) <> TCont);
  ri_char : x <= b -> 0 < x -> cWidth (N x) <> 0 -> R x <> TCont }.

Lemma RowInv_skip p W b N R x : wfRow W N -> 0 <= x <= b -> b < W -> cWidth (N x) = 0 -> RowInv p W b N R x -> RowInv p W b N R (x + 1).
Proof.
  intros Hwf Hx Hb Hw [Hl Hr Hc Hch]. destruct (Hc ltac:(lia) Hw) as [E1 E2]. split.
  - intros i Hi. destruct (Z.eq_dec i x) as [->|]; [|apply Hl; lia]. unfold drawn. by rewrite Hw.
  - done.
  - intros Hx1 Hw1. exfalso. destruct (Hwf (x + 1) ltac:(lia)) as (_ & [Hz _] & _). destruct (Hz Hw1) as [_ Hz2].
    replace (x + 1 - 1) with x in Hz2 by lia. lia.
  - intros Hx1 _ Hw1. apply E2; [lia|done].
Qed.

Lemma putRow_at R x w tc : putRow R x w tc x = tc.
Proof. unfold putRow. by rewrite Z.eqb_refl. Qed.
Lemma putRow_cont R x w tc i : x < i < x + w -> putRow R x w tc i = TCont.
Proof. intros Hi. unfold putRow. rewrite (proj2 (Z.eqb_neq i x)) by lia. destruct ((x <? i) && (i <? x + w)) eqn:E; [done|lia]. Qed.
Lemma putRow_left R x w tc i : 0 <= w -> i < x -> R x <> TCont -> putRow R x w tc i = R i.
Proof.
  intros Hw Hi Hc. unfold putRow. rewrite (proj2 (Z.eqb_neq i x)) by lia. destruct ((x <? i) && (i <? x + w)) eqn:E; [lia|].
  destruct ((i =? x - 1) && isCont (R x)) eqn:E1; [apply andb_true_iff in E1 as [_ E1]; by destruct (R x)|].
  destruct ((i =? x + w) && isCont (R i)) eqn:E2; [lia|done].
Qed.
Lemma putRow_right R x w tc i : 0 < w -> x + w <= i -> putRow R x w tc i = R i \/ (i = x + w /\ R i = TCont).
Proof.
  intros Hw Hi. unfold putRow. rewrite (proj2 (Z.eqb_neq i x)) by lia. destruct ((x <? i) && (i <? x + w)) eqn:E; [lia|].
  destruct ((i =? x - 1) && isCont (R x)) eqn:E1; [lia|].
  destruct ((i =? x + w) && isCont (R i)) eqn:E2; [|by left]. right. apply andb_true_iff in E2 as [E2 E3]. split; [lia|by destruct (R i)].
Qed.
Lemma putRow_end R x w tc : 0 < w -> putRow R x w tc (x + w) <> TCont.
Proof.
  intros Hw. unfold putRow. rewrite (proj2 (Z.eqb_neq (x + w) x)) by lia. destruct ((x <? x + w) && (x + w <? x + w)) eqn:E; [lia|].
  destruct ((x + w =? x - 1) && isCont (R x)) eqn:E1; [done|]. rewrite Z.eqb_refl. cbn [andb]. by destruct (R (x + w)).
Qed.

Lemma wfRow_wide W N x : wfRow W N -> 0 <= x < W -> cWidth (N x) = 2 -> x + 1 < W /\ cWidth (N (x + 1)) = 0.
Proof.
  intros Hwf Hx Hw. destruct (Hwf x Hx) as (_ & _ & Hr). specialize (Hr Hw). split; [done|].
  destruct (Hwf (x + 1) ltac:(lia)) as (_ & [_ Hz] & _). apply Hz. split; [lia|]. by replace (x + 1 - 1) with x by lia.
Qed.
Lemma wfRow_zero W N x : wfRow W N -> 0 <= x -> x + 1 < W -> cWidth (N (x + 1)) = 0 -> cWidth (N x) = 2.
Proof.
  intros Hwf Hx Hx1 Hw. destruct (Hwf (x + 1) ltac:(lia)) as (_ & [Hz _] & _). destruct (Hz Hw) as [_ E].
  by replace (x + 1 - 1) with x in E by lia.
Qed.
Lemma wfRow_width W N x : wfRow W N -> 0 <= x < W -> cWidth (N x) = 0 \/ cWidth (N x) = 1 \/ cWidth (N x) = 2.
Proof. intros Hwf Hx. destruct (Hwf x Hx) as ([?|([?|?] & _)] & _); auto. Qed.
Lemma wfRow_next W N x : wfRow W N -> 0 <= x < W -> cWidth (N x) <> 0 -> x + cWidth (N x) < W -> cWidth (N (x + cWidth (N x))) <> 0.
Proof.
  intros Hwf Hx Hw Hr Hz. destruct (wfRow_width W N x Hwf Hx) as [?|[E|E]]; [done| |]; rewrite E in *.
  - pose proof (wfRow_zero W N x Hwf ltac:(lia) Hr Hz). lia.
  - destruct (wfRow_wide W N x Hwf) as [? E1]; [lia|done|]. replace (x + 2) with (x + 1 + 1) in Hz by lia.
    pose proof (wfRow_zero W N (x + 1) Hwf ltac:(lia) ltac:(lia) Hz). lia.
Qed.

Lemma RowInv_put p W b N R R' tc x : wfRow W N -> 0 <= x <= b -> b < W -> cWidth (N x) <> 0 -> drawn p (N x) tc ->
  (forall i, R' i = putRow R x (cWidth (N x)) tc i) -> RowInv p W b N R x -> RowInv p W b N R' (x + 1).
Proof.
  intros Hwf Hx Hb Hw Htc HR [Hl Hr Hc Hch]. pose proof (wfRow_width W N x Hwf ltac:(lia)) as Hw3.
  split.
  - intros i Hi. rewrite HR. destruct (Z.eq_dec i x) as [->|]; [by rewrite putRow_at|].
    rewrite putRow_left; [apply Hl; lia|lia|lia|]. apply Hch; [lia|lia|done].
  - intros i Hi. rewrite HR. destruct (decide (i < x + cWidth (N x))).
    + rewrite putRow_cont by lia. assert (i = x + 1 /\ cWidth (N x) = 2) as [-> E] by lia.
      destruct (wfRow_wide W N x Hwf) as [_ E1]; [lia|done|]. unfold drawn. by rewrite E1.
    + destruct (putRow_right R x (cWidth (N x)) tc i) as [->|[Ei Ec]]; [lia|lia|by apply Hr|].
      specialize (Hr i Hi). rewrite Ec in Hr. apply drawn_cont in Hr as [_ Hz]. exfalso. subst i.
      apply (wfRow_next W N x); [done|lia|done|lia|by apply Hz].
  - intros Hx1 Hz. pose proof (wfRow_zero W N x Hwf ltac:(lia) ltac:(lia) Hz) as E. rewrite !HR, E. split.
    + apply putRow_cont. lia.
    + intros _ _. replace (x + 1 + 1) with (x + 2) by lia. apply putRow_end. lia.
  - intros Hx1 _ Hz. rewrite HR. assert (E : cWidth (N x) = 1).
    { destruct Hw3 as [?|[?|E]]; [done|done|]. destruct (wfRow_wide W N x Hwf) as [_ ?]; [lia|done|done]. }
    rewrite E. apply putRow_end. lia.
Qed.

(** The output so far has left the terminal in [t], and the emitter knows it. *)
Definition painting (p : TermProfile) (t0 : Term) (e : emitter) (t : Term) : Prop :=
  termRun (buf e) t0 = Some t /\ pen p (emitted e) t /\ cursorKnown e t.
Definition sameScreen (t t' : Term) : Prop := tCols t' = tCols t /\ tRows t' = tRows t /\ tVisible t' = tVisible t.
#[export] Instance sameScreen_preorder : PreOrder sameScreen.
Proof. split; [done|]. intros a b c (?&?&?) (?&?&?). unfold sameScreen. split_and!; congruence. Qed.

Lemma paint_columns p t0 N y W b n x e t : wfRow W N -> 0 <= x -> x + Z.of_nat n = b + 1 -> b < W -> tCols t = W -> 0 <= y < tRows t ->
  painting p t0 e t -> RowInv p W b N (tCell t y) x ->
  exists t', painting p t0 (fold_left (emitChange p) (map (fun x => mkChange x y (N x)) (seqZ x (Z.of_nat n))) e) t' /\ sameScreen t t' /\
    (forall i, 0 <= i < W -> drawn p (N i) (tCell t' y i)) /\ (forall i j, i <> y -> tCell t' i j = tCell t i j).
Proof.
  intros Hwf. revert x e t. induction n as [|n IH]; intros x e t Hx Hn Hb Hcols Hy (Hr & Hp & Hc) Hinv.
  - exists t. split; [done|]. split; [done|]. split; [|done]. intros i Hi. destruct Hinv as [Hl Hrr _ _].
    destruct (decide (i < x)); [apply Hl; lia|apply Hrr; lia].
  - replace (Z.of_nat (S n)) with (Z.succ (Z.of_nat n)) by lia. rewrite seqZ_cons by lia. cbn [map fold_left].
    replace (Z.pred (Z.succ (Z.of_nat n))) with (Z.of_nat n) by lia. replace (Z.succ x) with (x + 1) by lia.
    destruct (decide (cWidth (N x) = 0)) as [Ez|Ez].
    + rewrite emitChange_skip by done. apply IH; [lia|lia|done|done|done|done|]. apply RowInv_skip; [done|lia|lia|done|done].
    + destruct (Hwf x) as (Hcell & _ & _); [lia|]. assert (Hfit : x + cWidth (N x) <= W).
      { destruct (wfRow_width W N x Hwf) as [?|[?|E2]]; [lia|lia|lia|]. destruct (wfRow_wide W N x Hwf) as [? _]; [lia|done|lia]. }
      destruct (emitChange_run p e x y (N x) t0 t) as (t1 & tc & R1 & P1 & C1 & Hc1 & Hr1 & D1 & V1 & K1); [done..|lia|].
      set (e1 := emitChange p e _) in *.
      destruct (IH (x + 1) e1 t1) as (t' & Hp' & Hs' & Hd' & Ho'); [lia|lia|done|lia|lia|done| |].
      { eapply (RowInv_put p W b N (tCell t y) _ tc x); [done|lia|lia|done|done| |done]. intros i. rewrite K1, Z.eqb_refl. done. }
      exists t'. split; [done|]. split; [etransitivity; [|exact Hs']; done|]. split; [done|]. intros i j Hi. rewrite Ho' by done.
      rewrite K1, (proj2 (Z.eqb_neq i y)) by done. done.
Qed.
End Rows.

(** ** Differences *)
Section Diff.
Context `{TerminalLaws}.
Implicit Types (t : Term) (h : heap).

Definition sameAt (P N : list ScreenCell) (i : Z) : Prop := sameCell (screenCellFromRow N i) (screenCellFromRow P i).
Lemma changedSpan_spec P N W : 0 <= W ->
  let '(first, last) := changedSpan P N W in
  (first = -1 /\ forall i, 0 <= i < W -> sameAt P N i) \/
  (0 <= first <= last /\ last < W /\ forall i, 0 <= i < W -> i < first \/ last < i -> sameAt P N i).
Proof.
  intros HW. unfold changedSpan. set (f := fun '(first, last) x => _).
  assert (Hgen : forall n : nat, let '(first, last) := fold_left f (seqZ 0 (Z.of_nat n)) (-1, -1) in
    (first = -1 /\ forall i, 0 <= i < Z.of_nat n -> sameAt P N i) \/
    (0 <= first <= last /\ last < Z.of_nat n /\ forall i, 0 <= i < Z.of_nat n -> i < first \/ last < i -> sameAt P N i)).
  { induction n as [|n IH]; [left; split; [done|lia]|]. rewrite seqZ_S, Nat2Z.inj_succ, fold_left_app.
    destruct (fold_left f (seqZ 0 (Z.of_nat n)) (-1, -1)) as [first last]. cbn [fold_left].
    unfold f. replace (0 + Z.of_nat n) with (Z.of_nat n) by lia.
    destruct (Equal (screenCellFromRow N (Z.of_nat n)) (screenCellFromRow P (Z.of_nat n))) eqn:E; cbn [negb].
    - assert (Hs : sameAt P N (Z.of_nat n)) by exact E.
      destruct IH as [[-> IH]|(I1 & I2 & IH)]; [left|right].
      + split; [done|]. intros i Hi. destruct (decide (i = Z.of_nat n)) as [->|]; [done|apply IH; lia].
      + split; [done|]. split; [lia|]. intros i Hi Ho. destruct (decide (i = Z.of_nat n)) as [->|]; [done|apply IH; lia].
    - right. destruct IH as [[-> IH]|(I1 & I2 & IH)].
      + replace (-1 <? 0) with true by done. split; [lia|]. split; [lia|]. intros i Hi Ho. apply IH. lia.
      + rewrite (proj2 (Z.ltb_ge first 0)) by lia. split; [lia|]. split; [lia|]. intros i Hi Ho. apply IH; lia. }
  specialize (Hgen (Z.to_nat W)). rewrite Z2Nat.id in Hgen by done. exact Hgen.
Qed.

(** A row in the same place of the same array holds the same cells. *)
Lemma sameScreenCellRow_same h P N W : 0 < W -> sameScreenCellRow P N W = true ->
  forall i, 0 <= i < W -> sameAt (readRow h P) (readRow h N) i.
Proof.
  intros HW Hs i Hi. unfold sameScreenCellRow in Hs. rewrite (proj2 (Z.eqb_neq W 0)) in Hs by lia.
  destruct P as [P|], N as [N|]; [|done..]. apply andb_true_iff in Hs as [[[H3 H4]%andb_true_iff H5]%andb_true_iff H6].
  apply Nat.eqb_eq in H5. unfold sameAt, screenCellFromRow, readRow. rewrite (proj2 (Z.leb_le 0 i)) by lia.
  rewrite H5, !lookup_take_lt, !lookup_drop by lia. replace (rowStart P) with (rowStart N) by lia. done.
Qed.

(** One row: painting what changed in it. *)
Lemma paint_row p t0 N y W e t :
  wfRow W N -> tCols t = W -> 0 <= y < tRows t -> painting p t0 e t ->
  forall a b, 0 <= a <= b -> b < W -> RowInv p W b N (tCell t y) a ->
  exists t', painting p t0 (fold_left (emitChange p) (map (fun x => mkChange x y (N x)) (seqZ a (b - a + 1))) e) t' /\ sameScreen t t' /\
    (forall i, 0 <= i < W -> drawn p (N i) (tCell t' y i)) /\ (forall i j, i <> y -> tCell t' i j = tCell t i j).
Proof.
  intros Hwf Hc Hy Hp a b Hab Hb Hinv. replace (b - a + 1) with (Z.of_nat (Z.to_nat (b - a + 1))) by lia.
  apply (paint_columns p t0 N y W b _ a e t); try done; lia.
Qed.

(** Where the row before is shown, painting can start at any column before
    which nothing changed. *)
Lemma RowInv_start p W a b P N R : wfRow W P -> wfRow W N -> 0 <= a <= b -> b < W ->
  (forall i, 0 <= i < W -> drawn p (P i) (R i)) -> (forall i, 0 <= i < W -> i < a \/ b < i -> sameCell (N i) (P i)) ->
  RowInv p W b N R a.
Proof.
  intros HP HN Hab Hb Hd Hs.
  assert (Hin : forall i, 0 <= i < W -> i < a \/ b < i -> drawn p (N i) (R i)) by (intros i Hi Ho; rewrite (Hs i Hi Ho); by apply Hd).
  assert (Hbefore : 0 < a -> cWidth (N (a - 1)) = cWidth (P (a - 1))).
  { intros Ha. pose proof (Hs (a - 1) ltac:(lia) ltac:(lia)) as (_ & ? & _)%sameCell_iff. done. }
  split.
  - intros i Hi. apply Hin; lia.
  - intros i Hi. apply Hin; lia.
  - intros _ Hz. assert (Ha : 0 < a) by (destruct (HN a ltac:(lia)) as (_ & [Hq _] & _); by apply Hq).
    assert (HPa : cWidth (P (a - 1)) = 2).
    { rewrite <- Hbefore by done. apply (wfRow_zero W N); [done|lia|lia|]. by replace (a - 1 + 1) with a by lia. }
    destruct (wfRow_wide W P (a - 1) HP ltac:(lia) HPa) as [_ E]. replace (a - 1 + 1) with a in E by lia. split.
    + apply (drawn_cont p (P a)); [apply Hd; lia|done].
    + intros Hw _ Hc. pose proof (drawn_cont p (P (a + 1)) (R (a + 1)) (Hd (a + 1) ltac:(lia))) as [_ Hq]. specialize (Hq Hc).
      pose proof (wfRow_zero W P a HP ltac:(lia) ltac:(lia) Hq). lia.
  - intros _ Ha Hnz Hc. pose proof (drawn_cont p (P a) (R a) (Hd a ltac:(lia))) as [_ Hq]. specialize (Hq Hc).
    apply Hnz. destruct (HN a ltac:(lia)) as (_ & [_ Hq'] & _). apply Hq'. split; [done|]. rewrite Hbefore by done.
    apply (wfRow_zero W P); [done|lia|lia|]. by replace (a - 1 + 1) with a by lia.
Qed.
End Diff.

(** ** Grids and frames *)
Section Frames.
Context `{TerminalLaws}.
Implicit Types (t : Term) (h : heap).

(** A terminal on which the next frame can be painted: it shows the frame
    before, or every cell is written. *)
Definition paintable (p : TermProfile) (h : heap) (prev : option ScreenGrid) (next : ScreenGrid) (t : Term) : Prop :=
  tCols t = gWidth next /\ tRows t = gHeight next /\
  match prev with
  | Some prev => wfGrid h prev /\ gWidth prev = gWidth next /\ gHeight prev = gHeight next /\ shows p h prev t
  | None => True
  end.
Definition rowDiff (h : heap) (prev : option ScreenGrid) (next : ScreenGrid) (y : Z) : list CellChange :=
  match prev with None => rowChanges (rowCells h next y) y 0 (gWidth next - 1) | Some prev => diffRow h prev next y end.

Lemma paint_row_diff p t0 h prev next y e t : wfGrid h next -> 0 <= y < gHeight next -> painting p t0 e t ->
  tCols t = gWidth next -> tRows t = gHeight next ->
  match prev with
  | Some prev => wfGrid h prev /\ gWidth prev = gWidth next /\ gHeight prev = gHeight next /\
                 (forall x, 0 <= x < gWidth next -> drawn p (gridCell h prev y x) (tCell t y x))
  | None => True
  end ->
  exists t', painting p t0 (fold_left (emitChange p) (rowDiff h prev next y) e) t' /\ sameScreen t t' /\
    (forall i, 0 <= i < gWidth next -> drawn p (gridCell h next y i) (tCell t' y i)) /\ (forall i j, i <> y -> tCell t' i j = tCell t i j).
Proof.
  intros (HW & HH & Hwf) Hy Hp Hc Hr Hprev. specialize (Hwf y Hy). unfold rowDiff.
  assert (Hpaint : forall a b, 0 <= a <= b -> b < gWidth next -> RowInv p (gWidth next) b (gridCell h next y) (tCell t y) a ->
    exists t', painting p t0 (fold_left (emitChange p) (rowChanges (rowCells h next y) y a b) e) t' /\ sameScreen t t' /\
      (forall i, 0 <= i < gWidth next -> drawn p (gridCell h next y i) (tCell t' y i)) /\ (forall i j, i <> y -> tCell t' i j = tCell t i j)).
  { intros a b Hab Hb Hi. eapply (paint_row p t0 (gridCell h next y)); try done; lia. }
  destruct prev as [prev|].
  2: { apply Hpaint; [lia|lia|]. split; [lia|lia| |lia]. intros _ Hz. destruct (Hwf 0 ltac:(lia)) as (_ & [Hq _] & _). specialize (Hq Hz). lia. }
  destruct Hprev as ((_ & _ & Hpwf) & EW & EH & Hd). specialize (Hpwf y ltac:(lia)). rewrite EW in Hpwf.
  assert (Hsame : (forall i, 0 <= i < gWidth next -> sameAt (rowCells h prev y) (rowCells h next y) i) ->
    exists t', painting p t0 e t' /\ sameScreen t t' /\
      (forall i, 0 <= i < gWidth next -> drawn p (gridCell h next y i) (tCell t' y i)) /\ (forall i j, i <> y -> tCell t' i j = tCell t i j)).
  { intros Hs. exists t. split; [done|]. split; [done|]. split; [|done]. intros i Hi.
    assert (Hq : sameCell (gridCell h next y i) (gridCell h prev y i)) by (by apply Hs). rewrite Hq. by apply Hd. }
  unfold diffRow. destruct (sameScreenCellRow _ _ _) eqn:Es; [apply Hsame; by apply sameScreenCellRow_same|].
  pose proof (changedSpan_spec (rowCells h prev y) (rowCells h next y) (gWidth next) ltac:(lia)) as Hspan.
  destruct (changedSpan _ _ _) as [first last]. destruct Hspan as [[-> Hs]|(S1 & S2 & Hs)]; [by apply Hsame|].
  rewrite (proj2 (Z.ltb_ge first 0)) by lia. unfold extendChangedStatusSpan.
  destruct (rowHasPaneStatusHeader h next y); cbn [negb]; apply Hpaint; try lia;
    eapply (RowInv_start p (gWidth next) _ _ (gridCell h prev y)); try done; try lia; intros i Hi Ho; apply Hs; lia.
Qed.

Lemma paint_diff p t0 h prev next e t : wfGrid h next -> paintable p h prev next t -> painting p t0 e t ->
  exists t', painting p t0 (fold_left (emitChange p) (DiffGrid h prev next) e) t' /\ sameScreen t t' /\ shows p h next t'.
Proof.
  intros Hwf (Hc & Hr & Hprev) Hp.
  assert (Hrows : forall n : nat, Z.of_nat n <= gHeight next ->
    exists t', painting p t0 (fold_left (emitChange p) (seqZ 0 (Z.of_nat n) ≫= rowDiff h prev next) e) t' /\ sameScreen t t' /\
      (forall y x, 0 <= y < Z.of_nat n -> 0 <= x < gWidth next -> drawn p (gridCell h next y x) (tCell t' y x)) /\
      (forall y x, Z.of_nat n <= y -> tCell t' y x = tCell t y x)).
  { induction n as [|n IH]; intros Hn; [exists t; split; [done|]; split; [done|]; split; [lia|done]|].
    destruct IH as (t1 & P1 & (C1 & R1 & V1) & D1 & K1); [lia|]. rewrite seqZ_S, bind_app, fold_left_app. cbn [mbind list_bind].
    rewrite app_nil_r, Z.add_0_l. set (y := Z.of_nat n) in *.
    destruct (paint_row_diff p t0 h prev next y (fold_left (emitChange p) (seqZ 0 y ≫= rowDiff h prev next) e) t1 Hwf) as (t2 & P2 & S2 & D2 & K2); [lia|exact P1|lia|lia| |].
    { destruct prev as [prev|]; [|done]. destruct Hprev as (Hpw & EW & EH & _ & _ & Hd). do 3 (split; [done|]).
      intros x Hx. rewrite K1 by lia. apply Hd; lia. }
    exists t2. split; [done|]. split; [etransitivity; [|exact S2]; done|]. split.
    - intros y' x Hy Hx. destruct (decide (y' = y)) as [->|]; [by apply D2|]. rewrite K2 by done. apply D1; [lia|done].
    - intros y' x Hy. rewrite K2 by lia. apply K1. lia. }
  pose proof Hwf as (_ & HH & _). destruct (Hrows (Z.to_nat (gHeight next))) as (t' & P' & S' & D' & _); [lia|].
  rewrite Z2Nat.id in * by lia. exists t'. split; [exact P'|]. split; [done|]. destruct S' as (C' & R' & _).
  split; [congruence|]. split; [congruence|]. done.
Qed.

(** The output for the changes of a frame paints it, and the emitter still
    knows the terminal. *)
Lemma emitDiff_run p h prev next state close t : wfGrid h next -> paintable p h prev next t -> pen p state t ->
  let '(out, state') := emitDiffWithProfileState (DiffGrid h prev next) p state close in
  exists t', termRun out t = Some t' /\ sameScreen t t' /\ shows p h next t' /\ pen p state' t' /\
    (close = true -> DiffGrid h prev next <> [] -> tLink t' = zeroLink).
Proof.
  intros Hwf Hpt Hpen. destruct (paint_diff p t h prev next (mkEmitter [] (-1) (-1) state) t Hwf Hpt) as (t1 & (R1 & P1 & _) & S1 & D1).
  { split; [done|]. split; [done|]. by left. }
  unfold emitDiffWithProfileState. destruct (DiffGrid h prev next) as [|ch changes] eqn:Ed.
  - cbn in R1. injection R1 as <-. exists t. done.
  - set (e := fold_left _ _ _) in *. destruct close; [|exists t1; done].
    unfold closeHyperlink. destruct (linkIsZero (eLink (emitted e))) eqn:Ez; cbn [negb].
    + exists t1. rewrite app_nil_r. do 4 (split; [done|]). intros _ _. apply linkIsZero_iff in Ez. destruct P1 as [_ ->]. done.
    + eexists. rewrite termRun_app, R1. cbn. split; [done|]. split; [done|]. split; [exact D1|]. split; [|done].
      destruct P1 as [Hs _]. by split.
Qed.
End Frames.
