(* ===== verification/ScreenHeap.v ===== *)
(** * Grids in the heap

    [GridInv n h g]: the rows of [g] are parts of arrays of [h], those it may
    write are not shared and not among the first [n] arrays, which hold what was
    published before.  Writing keeps it, and acts on the cells of [g] as an
    update at one place. *)

From S2P Require Import Prelude GoText GoCodec GoRunes ScreenGrid ScreenEmit ScreenTerm ScreenFacts.

Section Heap.
Context `{Colors}.
Implicit Types (h : heap) (g : ScreenGrid) (r : rowSlice).

Definition rowIn (h : heap) (W : Z) (r : rowSlice) : Prop :=
  0 <= rowStart r /\ rowLen r = W /\ exists l, h !! rowArray r = Some l /\ rowStart r + W <= lenZ l.
Definition writable (g : ScreenGrid) (y : Z) : Prop :=
  gRows g = None \/ (exists owned, ownedRows g = Some owned /\ owned !! Z.to_nat y = Some true).
Definition apart (W : Z) (r r' : rowSlice) : Prop :=
  rowArray r <> rowArray r' \/ rowStart r + W <= rowStart r' \/ rowStart r' + W <= rowStart r.
Definition inGrid (g : ScreenGrid) (y : Z) : Prop := 0 <= y < gHeight g.

Record GridInv (n : nat) (h : heap) (g : ScreenGrid) : Prop := {
  gi_width : 0 <= gWidth g;
  gi_fresh : (n <= length h)%nat;
  gi_shape : match gRows g with
             | Some rows => lenZ rows = gHeight g /\ exists owned, ownedRows g = Some owned /\ lenZ owned = gHeight g
             | None => True
             end;
  gi_rows y : inGrid g y -> exists r, rowForRead g y = Some r /\ rowIn h (gWidth g) r;
  gi_own y r : inGrid g y -> writable g y -> rowForRead g y = Some r -> (n <= rowArray r)%nat;
  gi_apart y y' r r' : inGrid g y -> inGrid g y' -> y <> y' -> writable g y ->
    rowForRead g y = Some r -> rowForRead g y' = Some r' -> apart (gWidth g) r r' }.

(** ** Reading *)
Lemma readRow_at h r i : 0 <= i < rowLen r -> 0 <= rowStart r ->
  screenCellFromRow (readRow h (Some r)) i = default blankScreenCell (default [] (h !! rowArray r) !! Z.to_nat (rowStart r + i)).
Proof.
  intros Hi Hs. unfold screenCellFromRow, readRow. rewrite (proj2 (Z.leb_le 0 i)), lookup_take_lt, lookup_drop by lia.
  by rewrite <- Z2Nat.inj_add by lia.
Qed.
Lemma gridCell_at h g y r x : rowForRead g y = Some r -> rowIn h (gWidth g) r -> 0 <= x < gWidth g ->
  gridCell h g y x = default blankScreenCell (default [] (h !! rowArray r) !! Z.to_nat (rowStart r + x)).
Proof. intros Hr (Hs & Hl & _) Hx. unfold gridCell, rowCells. rewrite Hr. apply readRow_at; lia. Qed.

Lemma rowIn_grow h h' W r : rowIn h W r -> (forall i l, h !! i = Some l -> exists l', h' !! i = Some l' /\ lenZ l' = lenZ l) -> rowIn h' W r.
Proof. intros (Hs & Hl & l & Hh & Hle) Hg. destruct (Hg _ _ Hh) as (l' & Hh' & E). split; [done|]. split; [done|]. exists l'. by rewrite E. Qed.
Lemma heap_app_len h l : forall i k, h !! i = Some k -> exists k', (h ++ [l]) !! i = Some k' /\ lenZ k' = lenZ k.
Proof. intros i k Hi. exists k. split; [|done]. by apply lookup_app_l_Some. Qed.

Lemma copyRow_len (W : Z) (src : list ScreenCell) : 0 <= W -> lenZ (copyRow W src) = W.
Proof. intros HW. unfold copyRow, lenZ. rewrite length_take, length_app, repeat_length. lia. Qed.
Lemma copyRow_at (W : Z) (src : list ScreenCell) i : 0 <= i < W -> W <= lenZ src -> copyRow W src !! Z.to_nat i = src !! Z.to_nat i.
Proof. intros Hi Hl. unfold copyRow, lenZ in *. rewrite lookup_take_lt by lia. rewrite lookup_app_l by lia. done. Qed.
Lemma readRow_len h W r : 0 <= W -> rowIn h W r -> lenZ (readRow h (Some r)) = W.
Proof.
  intros HW (Hs & Hl & l & Hh & Hle). unfold readRow, lenZ in *. rewrite Hh. cbn [from_option id]. rewrite length_take, length_drop.
  lia.
Qed.

(** ** Writing in place *)
Lemma updateCell_len h a f : forall i k, h !! i = Some k -> exists k', updateCell a f h !! i = Some k' /\ lenZ k' = lenZ k.
Proof.
  intros i k Hi. unfold updateCell. rewrite list_lookup_alter. destruct (decide (a.1 = i)) as [E|E].
  - rewrite E, Hi. eexists. split; [done|]. unfold lenZ. by rewrite length_alter.
  - by exists k.
Qed.
Lemma updateCell_at h a f i k j : h !! i = Some k ->
  default [] (updateCell a f h !! i) !! j = (if decide (a.1 = i /\ a.2 = j) then f <$> k !! j else k !! j).
Proof.
  intros Hi. unfold updateCell. rewrite list_lookup_alter. destruct (decide (a.1 = i)) as [E|E]; rewrite ?E, Hi; cbn [fmap option_fmap option_map from_option id].
  - rewrite list_lookup_alter. repeat case_decide; try done; subst; tauto.
  - case_decide; [tauto|done].
Qed.

Lemma GridInv_update n h g y r x f : GridInv n h g -> inGrid g y -> writable g y -> rowForRead g y = Some r -> 0 <= x < gWidth g ->
  let h' := updateCell (rowArray r, Z.to_nat (rowStart r + x)) f h in
  GridInv n h' g /\ length h' = length h /\ (forall i, (i < n)%nat -> h' !! i = h !! i) /\
  (forall y' x', inGrid g y' -> 0 <= x' < gWidth g ->
     gridCell h' g y' x' = if decide (y' = y /\ x' = x) then f (gridCell h g y x) else gridCell h g y' x').
Proof.
  intros [Hw Hf Hs Hr Ho Ha] Hy Hwr Hry Hx h'. set (a := (rowArray r, Z.to_nat (rowStart r + x))) in *.
  assert (Hlen : length h' = length h) by (unfold h', updateCell; by rewrite length_alter).
  assert (Hin : forall y', inGrid g y' -> exists r', rowForRead g y' = Some r' /\ rowIn h (gWidth g) r' /\ rowIn h' (gWidth g) r').
  { intros y' Hy'. destruct (Hr y' Hy') as (r' & E1 & E2). exists r'. split; [done|]. split; [done|].
    eapply rowIn_grow; [done|]. apply updateCell_len. }
  split; [|split; [done|split]].
  - split; [done|by rewrite Hlen|done| |done|done]. intros y' Hy'. destruct (Hin y' Hy') as (r' & ? & _ & ?). by exists r'.
  - intros i Hi. unfold h', updateCell. rewrite list_lookup_alter. rewrite decide_False; [done|].
    pose proof (Ho y r Hy Hwr Hry). cbn. lia.
  - intros y' x' Hy' Hx'. destruct (Hin y' Hy') as (r' & E1 & E2 & E3).
    rewrite (gridCell_at h' g y' r' x' E1 E3 Hx'), (gridCell_at h g y' r' x' E1 E2 Hx').
    destruct E2 as (S2 & L2 & l' & Hl' & Hle'). rewrite Hl'. unfold h'. rewrite (updateCell_at _ _ _ _ _ _ Hl'). cbn [from_option id a fst snd].
    destruct (Hin y Hy) as (ry & Ey & (S1 & L1 & l1 & Hl1 & Hle1) & _). assert (ry = r) as -> by congruence.
    destruct (decide (y' = y)) as [->|Hne].
    + assert (r' = r) as -> by congruence. destruct (decide (x' = x)) as [->|Hnx].
      * rewrite decide_True by done. rewrite decide_True by done. rewrite (gridCell_at h g y r x Ey) by (try done; split_and!; try done; by exists l1).
        rewrite Hl1. cbn [from_option id]. assert (l' = l1) as -> by congruence.
        destruct (lookup_lt_is_Some_2 l1 (Z.to_nat (rowStart r + x))) as [c ->]; [unfold lenZ in *; lia|done].
      * rewrite (decide_False (P := _ /\ x' = x)) by tauto. rewrite decide_False; [done|]. intros [_ E]. lia.
    + rewrite (decide_False (P := y' = y /\ _)) by tauto. rewrite decide_False; [done|]. intros [E5 E6].
      destruct (Ha y y' r r' Hy Hy' (not_eq_sym Hne) Hwr Hry E1) as [?|[?|?]]; [done|lia|lia].
Qed.

(** ** A row of its own *)
Lemma rowIn_bound h W r : rowIn h W r -> (rowArray r < length h)%nat.
Proof. intros (_ & _ & l & Hh & _). by apply lookup_lt_Some in Hh. Qed.
Lemma rowForRead_rows g rows y : gRows g = Some rows -> inGrid g y -> rowForRead g y = rows !! Z.to_nat y.
Proof. intros E Hy. unfold rowForRead, inGrid in *. rewrite E. by destruct ((y <? 0) || (gHeight g <=? y)) eqn:Eb; [lia|]. Qed.
Lemma makeRow_in h W cells : lenZ cells = W -> rowIn (h ++ [cells]) W (mkRow (length h) 0 W).
Proof. intros <-. split; [done|]. split; [done|]. exists cells. split; [by apply list_lookup_middle|cbn; lia]. Qed.
Lemma copied_cell h g y r x : 0 <= gWidth g -> rowForRead g y = Some r -> rowIn h (gWidth g) r -> 0 <= x < gWidth g ->
  copyRow (gWidth g) (rowCells h g y) !! Z.to_nat x = Some (gridCell h g y x).
Proof.
  intros Hw Hr Hin Hx. unfold rowCells. rewrite Hr. pose proof (readRow_len h (gWidth g) r Hw Hin) as Hl.
  rewrite copyRow_at by lia. unfold gridCell, rowCells, screenCellFromRow. rewrite Hr, (proj2 (Z.leb_le 0 x)) by lia.
  destruct (lookup_lt_is_Some_2 (readRow h (Some r)) (Z.to_nat x)) as [c ->]; [unfold lenZ in *; lia|done].
Qed.

Lemma rowForWrite_spec n h g y : GridInv n h g -> inGrid g y ->
  exists h' g' r, rowForWrite y h g = (h', g', Some r) /\ GridInv n h' g' /\ (length h <= length h')%nat /\
    (forall i, (i < n)%nat -> h' !! i = h !! i) /\ gWidth g' = gWidth g /\ gHeight g' = gHeight g /\
    writable g' y /\ rowForRead g' y = Some r /\ rowLen r = gWidth g /\
    (forall y' x', inGrid g y' -> 0 <= x' < gWidth g -> gridCell h' g' y' x' = gridCell h g y' x').
Proof.
  intros Hinv Hy. pose proof Hinv as [Hw Hf Hs Hr Ho Ha]. unfold rowForWrite.
  assert (Hdone : writable g y -> exists h' g' r, (h, g, rowForRead g y) = (h', g', Some r) /\ GridInv n h' g' /\ (length h <= length h')%nat /\
    (forall i, (i < n)%nat -> h' !! i = h !! i) /\ gWidth g' = gWidth g /\ gHeight g' = gHeight g /\
    writable g' y /\ rowForRead g' y = Some r /\ rowLen r = gWidth g /\
    (forall y' x', inGrid g y' -> 0 <= x' < gWidth g -> gridCell h' g' y' x' = gridCell h g y' x')).
  { intros Hwr. destruct (Hr y Hy) as (r & E & _ & El & _). exists h, g, r. rewrite E. by split_and!. }
  destruct (gRows g) as [rows|] eqn:Erows; [|apply Hdone; by left].
  destruct Hs as (Hlr & owned & Eow & Hlo). rewrite Eow. rewrite <- (rowForRead_rows g rows y Erows Hy).
  assert (Hyl : (Z.to_nat y < length owned)%nat) by (unfold inGrid, lenZ in *; lia).
  destruct (lookup_lt_is_Some_2 owned (Z.to_nat y) Hyl) as [b Eb]. rewrite Eb. destruct b; cbn [default from_option id negb].
  { apply Hdone. right. by exists owned. }
  clear Hdone. destruct (Hr y Hy) as (ro & Ero & Hro). rewrite Ero. fold (rowCells h g y). unfold makeRow.
  replace (readRow h (Some ro)) with (rowCells h g y) by (unfold rowCells; by rewrite Ero).
  set (cells := copyRow (gWidth g) (rowCells h g y)). assert (Hcl : lenZ cells = gWidth g) by (by apply copyRow_len).
  rewrite Hcl. set (r := mkRow (length h) 0 (gWidth g)). set (h' := h ++ [cells]).
  set (g' := mkGrid _ _ _ _ _ _ _). exists h', g', r.
  assert (Hread : forall y', inGrid g y' -> rowForRead g' y' = if decide (y' = y) then Some r else rowForRead g y').
  { intros y' Hy'. rewrite (rowForRead_rows g' (<[Z.to_nat y:=r]> rows)) by done. rewrite (rowForRead_rows g rows) by done.
    destruct (decide (y' = y)) as [->|Hne].
    - apply list_lookup_insert_eq. unfold inGrid, lenZ in *. lia.
    - apply list_lookup_insert_ne. unfold inGrid in *. lia. }
  assert (Hgrow : forall r', rowIn h (gWidth g) r' -> rowIn h' (gWidth g) r') by (intros r' Hin; eapply rowIn_grow; [done|]; apply heap_app_len).
  assert (Hnew : rowIn h' (gWidth g) r) by (by apply makeRow_in).
  assert (Hwr' : forall y', inGrid g y' -> y' <> y -> writable g' y' -> writable g y').
  { intros y' Hy' Hne [Hq|(o & Eo & Ho')]; [done|]. right. exists owned. split; [done|]. cbn in Eo. injection Eo as <-.
    rewrite list_lookup_insert_ne in Ho' by (unfold inGrid in *; lia). done. }
  split; [done|]. split; [|split; [unfold h'; rewrite length_app; lia|split; [intros i Hi; unfold h'; by rewrite lookup_app_l by lia|]]].
  - split.
    + done.
    + unfold h'. rewrite length_app. lia.
    + cbn. split; [unfold lenZ in *; by rewrite length_insert|]. eexists. split; [done|]. unfold lenZ in *. by rewrite length_insert.
    + intros y' Hy'. rewrite Hread by done. destruct (decide (y' = y)); [by exists r|]. destruct (Hr y' Hy') as (r' & ? & ?). exists r'. auto.
    + intros y' r' Hy' Hwr Hq. rewrite Hread in Hq by done. destruct (decide (y' = y)) as [->|Hne]; [injection Hq as <-; cbn; lia|].
      apply (Ho y'); [done| |done]. by apply Hwr'.
    + intros y1 y2 r1 r2 Hy1 Hy2 Hne Hwr Hq1 Hq2. rewrite Hread in Hq1, Hq2 by done.
      assert (Hold : forall y' r', inGrid g y' -> rowForRead g y' = Some r' -> rowArray r' <> length h).
      { intros y' r' Hy' Hq. destruct (Hr y' Hy') as (r0 & E0 & Hin). pose proof (rowIn_bound _ _ _ Hin). assert (r0 = r') by congruence. subst. lia. }
      destruct (decide (y1 = y)) as [->|H1], (decide (y2 = y)) as [->|H2]; [done| | |].
      * injection Hq1 as <-. left. cbn. intros E. by apply (Hold y2 r2).
      * injection Hq2 as <-. left. cbn. by apply (Hold y1 r1).
      * apply (Ha y1 y2); try done. by apply Hwr'.
  - split; [done|]. split; [done|]. split.
    { right. eexists. split; [done|]. by apply list_lookup_insert_eq. }
    split; [rewrite Hread by done; by rewrite decide_True|]. split; [done|]. intros y' x' Hy' Hx'. destruct (decide (y' = y)) as [->|Hne].
    + rewrite (gridCell_at h' g' y r x') by (try done; rewrite Hread by done; by rewrite decide_True). unfold h'. cbn [rowArray r rowStart].
      rewrite list_lookup_middle by done. cbn [from_option id]. rewrite Z.add_0_l. unfold cells. by rewrite (copied_cell h g y ro x').
    + destruct (Hr y' Hy') as (r' & E & Hin). rewrite (gridCell_at h' g' y' r' x'), (gridCell_at h g y' r' x'); [|done..| | |done].
      * unfold h'. rewrite lookup_app_l by (by apply (rowIn_bound h (gWidth g))). done.
      * rewrite Hread by done. by rewrite decide_False.
      * by apply Hgrow.
Qed.

(** Writing a cell changes that cell of the grid, and nothing published. *)
Lemma SetCell_spec n h g x y c : GridInv n h g ->
  exists h' g', SetCell x y c h g = Some (h', g') /\ GridInv n h' g' /\ (length h <= length h')%nat /\
    (forall i, (i < n)%nat -> h' !! i = h !! i) /\ gWidth g' = gWidth g /\ gHeight g' = gHeight g /\
    (forall y' x', inGrid g y' -> 0 <= x' < gWidth g -> gridCell h' g' y' x' = if decide (y' = y /\ x' = x) then c else gridCell h g y' x').
Proof.
  intros Hinv. unfold SetCell, cellForWrite.
  destruct ((0 <=? x) && (x <? gWidth g) && (0 <=? y) && (y <? gHeight g)) eqn:Ein.
  - apply andb_true_iff in Ein as [[[E1 E2]%andb_true_iff E3]%andb_true_iff E4]. assert (Hy : inGrid g y) by (unfold inGrid; lia).
    destruct (rowForWrite_spec n h g y Hinv Hy) as (h1 & g1 & r & -> & Hinv1 & Hl1 & Hp1 & W1 & H1 & Hwr & Hr1 & Hrl & Hc1).
    rewrite (proj2 (Z.ltb_lt x (rowLen r))) by lia. cbn [mbind option_bind].
    destruct (GridInv_update n h1 g1 y r x (fun _ => c) Hinv1) as (Hinv2 & L2 & P2 & C2); [unfold inGrid in *; lia|done|done|lia|].
    eexists _, _. split; [done|]. split; [done|]. split; [lia|]. split; [intros i Hi; rewrite P2 by done; by apply Hp1|].
    split; [done|]. split; [done|]. intros y' x' Hy' Hx'. rewrite C2 by (unfold inGrid in *; lia).
    destruct (decide _); [done|]. by apply Hc1.
  - cbn. eexists _, _. split; [done|].
    assert (Hg : forall P : ScreenGrid -> Prop, P g -> P (mkGrid (gWidth g) (gHeight g) (gCells g) (gRows g) (ownedRows g) true (oobWrites g ++ [(x, y)])) -> P (noteOOB x y g)).
    { intros P ? ?. unfold noteOOB. by destruct (gDebug g). }
    apply Hg; (split; [by destruct Hinv|]); (split; [done|]); (split; [done|]); (split; [done|]); (split; [done|]);
      intros y' x' Hy' Hx'; rewrite decide_False; try done; unfold inGrid in *; intros [-> ->]; lia.
Qed.
End Heap.

(** ** New grids and copies *)
Section Copies.
Context `{Colors}.
Implicit Types (h : heap) (g : ScreenGrid) (r : rowSlice).

(** What a published grid keeps: its rows can be read. *)
Definition readable (h : heap) (g : ScreenGrid) : Prop :=
  0 <= gWidth g /\ forall y, inGrid g y -> exists r, rowForRead g y = Some r /\ rowIn h (gWidth g) r.
Lemma GridInv_readable n h g : GridInv n h g -> readable h g.
Proof. intros [Hw _ _ Hr _ _]. by split. Qed.
Definition keeps (n : nat) (h h' : heap) : Prop := (n <= length h')%nat /\ forall i, (i < n)%nat -> h' !! i = h !! i.

Lemma readable_keeps h h' g : readable h g -> keeps (length h) h h' ->
  readable h' g /\ (forall y, inGrid g y -> rowCells h' g y = rowCells h g y) /\ (forall y x, inGrid g y -> gridCell h' g y x = gridCell h g y x).
Proof.
  intros [Hw Hr] [Hl Hk].
  assert (Hrows : forall y, inGrid g y -> rowCells h' g y = rowCells h g y).
  { intros y Hy. destruct (Hr y Hy) as (r & E & Hin). pose proof (rowIn_bound _ _ _ Hin). unfold rowCells, readRow. rewrite E, Hk by done. done. }
  split; [|split; [done|]].
  - split; [done|]. intros y Hy. destruct (Hr y Hy) as (r & E & Hin). exists r. split; [done|]. pose proof (rowIn_bound _ _ _ Hin) as Hb.
    destruct Hin as (S1 & L1 & l & Hh & Hle). split; [done|]. split; [done|]. exists l. by rewrite Hk.
  - intros y x Hy. unfold gridCell. by rewrite Hrows.
Qed.

(** A grid whose cells are one array. *)
Lemma GridInv_cells h W H' cells debug : 0 <= W -> 0 <= H' -> lenZ cells = W * H' ->
  let h' := h ++ [cells] in let g := mkGrid W H' (Some (mkRow (length h) 0 (lenZ cells))) None None debug [] in
  GridInv (length h) h' g /\ forall y x, inGrid g y -> 0 <= x < W -> gridCell h' g y x = default blankScreenCell (cells !! Z.to_nat (y * W + x)).
Proof.
  intros HW HH Hlen h' g.
  assert (Hread : forall y, inGrid g y -> rowForRead g y = Some (mkRow (length h) (y * W) W)).
  { intros y Hy. unfold rowForRead, inGrid in *. cbn [gHeight gRows gCells gWidth g] in *. destruct ((y <? 0) || (H' <=? y)) eqn:E; [lia|]. cbn [rowLen].
    destruct ((y * W <? 0) || (lenZ cells <? y * W + W)) eqn:E2; [|done]. rewrite Hlen in E2. nia. }
  assert (Hin : forall y, inGrid g y -> rowIn h' W (mkRow (length h) (y * W) W)).
  { intros y Hy. unfold inGrid in Hy. cbn in Hy. split; [cbn; nia|]. split; [done|]. exists cells. split; [by apply list_lookup_middle|]. cbn [rowStart]. nia. }
  split.
  - split; [done|unfold h'; rewrite length_app; lia|done| | |].
    + intros y Hy. eexists. split; [by apply Hread|by apply Hin].
    + intros y r Hy _ E. rewrite Hread in E by done. injection E as <-. cbn. lia.
    + intros y y' r r' Hy Hy' Hne _ E E'. rewrite Hread in E, E' by done. injection E as <-. injection E' as <-.
      right. cbn [rowStart gWidth g]. unfold inGrid in *. cbn in Hy, Hy'. destruct (decide (y < y')); [left|right]; nia.
  - intros y x Hy Hx. rewrite (gridCell_at h' g y (mkRow (length h) (y * W) W) x); [|by apply Hread|by apply Hin|done].
    unfold h'. cbn [rowArray rowStart]. by rewrite list_lookup_middle.
Qed.

Lemma NewScreenGrid_spec h W H' : 0 <= W -> 0 <= H' ->
  exists h' g, NewScreenGrid W H' h = Some (h', g) /\ GridInv (length h) h' g /\ keeps (length h) h h' /\ gWidth g = W /\ gHeight g = H' /\
    forall y x, inGrid g y -> 0 <= x < W -> gridCell h' g y x = blankScreenCell.
Proof.
  intros HW HH. unfold NewScreenGrid, makeRow. rewrite (proj2 (Z.ltb_ge (W * H') 0)) by nia.
  set (cells := repeat blankScreenCell (Z.to_nat (W * H'))).
  assert (Hl : lenZ cells = W * H') by (unfold cells, lenZ; rewrite repeat_length; nia).
  destruct (GridInv_cells h W H' cells false HW HH Hl) as [G1 G2]. eexists _, _. split; [done|]. split; [exact G1|].
  split; [split; [rewrite length_app; lia|intros i Hi; by rewrite lookup_app_l by lia]|]. split; [done|]. split; [done|].
  intros y x Hy Hx. rewrite G2 by done. unfold inGrid in Hy. cbn in Hy. unfold cells.
  destruct (repeat blankScreenCell (Z.to_nat (W * H')) !! Z.to_nat (y * W + x)) as [c|] eqn:E; [|done].
  apply list_elem_of_lookup_2, list_elem_of_In, repeat_spec in E. by rewrite E.
Qed.

Lemma concat_at (f : Z -> list ScreenCell) (W H' y x : Z) : (forall y, 0 <= y < H' -> lenZ (f y) = W) -> 0 <= y < H' -> 0 <= x < W ->
  (seqZ 0 H' ≫= f) !! Z.to_nat (y * W + x) = f y !! Z.to_nat x.
Proof.
  intros Hf Hy Hx. assert (Hgen : forall n a : nat, Z.of_nat a + Z.of_nat n <= H' -> Z.of_nat a <= y < Z.of_nat a + Z.of_nat n ->
    (seqZ (Z.of_nat a) (Z.of_nat n) ≫= f) !! Z.to_nat ((y - Z.of_nat a) * W + x) = f y !! Z.to_nat x).
  { induction n as [|n IH]; intros a Ha Hya; [lia|]. rewrite seqZ_cons by lia. cbn [mbind list_bind].
    replace (Z.succ (Z.of_nat a)) with (Z.of_nat (S a)) by lia. replace (Z.pred (Z.of_nat (S n))) with (Z.of_nat n) by lia.
    pose proof (Hf (Z.of_nat a) ltac:(lia)) as Hl. unfold lenZ in Hl. destruct (decide (y = Z.of_nat a)) as [E|E].
    - rewrite E, Z.sub_diag. rewrite lookup_app_l by lia. by rewrite Z.add_0_l.
    - rewrite lookup_app_r by nia. rewrite <- (IH (S a)) by lia. f_equal. nia. }
  specialize (Hgen (Z.to_nat H') 0%nat). rewrite Z2Nat.id, Z.sub_0_r in Hgen by lia. apply Hgen; lia.
Qed.
Lemma concat_len (f : Z -> list ScreenCell) (W H' : Z) : 0 <= H' -> (forall y, 0 <= y < H' -> lenZ (f y) = W) -> lenZ (seqZ 0 H' ≫= f) = W * H'.
Proof.
  intros HH Hf. assert (Hgen : forall n a : nat, Z.of_nat a + Z.of_nat n <= H' -> lenZ (seqZ (Z.of_nat a) (Z.of_nat n) ≫= f) = W * Z.of_nat n).
  { induction n as [|n IH]; intros a Ha; [rewrite seqZ_nil by lia; cbn [mbind list_bind]; unfold lenZ; cbn [length]; lia|]. rewrite seqZ_cons by lia. cbn [mbind list_bind]. unfold lenZ in *.
    replace (Z.succ (Z.of_nat a)) with (Z.of_nat (S a)) by lia. replace (Z.pred (Z.of_nat (S n))) with (Z.of_nat n) by lia.
    rewrite length_app, Nat2Z.inj_add, IH, Hf by lia. lia. }
  specialize (Hgen (Z.to_nat H') 0%nat). rewrite Z2Nat.id in Hgen by lia. by apply Hgen.
Qed.

(** A copy holds the cells of its source in arrays of its own, or shares rows
    it does not own. *)
Definition copies (h h' : heap) (g g' : ScreenGrid) : Prop :=
  GridInv (length h) h' g' /\ keeps (length h) h h' /\ gWidth g' = gWidth g /\ gHeight g' = gHeight g /\
  forall y x, inGrid g y -> 0 <= x < gWidth g -> gridCell h' g' y x = gridCell h g y x.

Lemma Clone_spec h g : readable h g -> 0 <= gHeight g -> let '(h', g') := Clone g h in copies h h' g g'.
Proof.
  intros [Hw Hr] HH. unfold Clone, makeRow. set (f := fun y => copyRow (gWidth g) (rowCells h g y)). fold f.
  assert (Hf : forall y, 0 <= y < gHeight g -> lenZ (f y) = gWidth g) by (intros; by apply copyRow_len).
  pose proof (concat_len f (gWidth g) (gHeight g) HH Hf) as Hl.
  destruct (GridInv_cells h (gWidth g) (gHeight g) (seqZ 0 (gHeight g) ≫= f) (gDebug g) Hw HH Hl) as [G1 G2].
  split; [exact G1|]. split; [split; [rewrite length_app; lia|intros i Hi; by rewrite lookup_app_l by lia]|]. split; [done|]. split; [done|].
  intros y x Hy Hx. rewrite G2 by done. rewrite (concat_at f (gWidth g) (gHeight g)) by done. unfold f.
  destruct (Hr y Hy) as (r & E & Hin). by rewrite (copied_cell h g y r x).
Qed.

Lemma copyRows_spec g dirty : forall y h, readable h g -> 0 <= y -> y + lenZ dirty <= gHeight g ->
  let '(h', rows) := copyRows g y dirty h in
  keeps (length h) h h' /\ length rows = length dirty /\
  (forall k r d, rows !! k = Some r -> dirty !! k = Some d ->
     if (d : bool) then (length h <= rowArray r < length h')%nat /\ rowStart r = 0 /\ rowLen r = gWidth g /\
                        h' !! rowArray r = Some (copyRow (gWidth g) (rowCells h g (y + Z.of_nat k)))
     else rowForRead g (y + Z.of_nat k) = Some r) /\
  (forall k k' r r', (k < k')%nat -> rows !! k = Some r -> rows !! k' = Some r' -> dirty !! k = Some true -> dirty !! k' = Some true ->
     (rowArray r < rowArray r')%nat).
Proof.
  induction dirty as [|d dirty IH]; intros y h Hr Hy Hb; cbn [copyRows].
  { split; [by split|]. split; [done|]. split; intros *; by rewrite lookup_nil. }
  unfold lenZ in Hb. cbn [length] in Hb. pose proof Hr as [Hw Hrows]. destruct (Hrows y ltac:(unfold inGrid; lia)) as (ro & Ero & Hro).
  set (h1 := if d then h ++ [copyRow (gWidth g) (rowCells h g y)] else h).
  set (row := if d then mkRow (length h) 0 (gWidth g) else ro).
  assert (Hk1 : keeps (length h) h h1).
  { unfold h1. destruct d; split; [rewrite length_app; lia|intros i Hi; by rewrite lookup_app_l by lia|done|done]. }
  destruct (readable_keeps h h1 g Hr Hk1) as (Hr1 & Hrow1 & _).
  specialize (IH (y + 1) h1 Hr1 ltac:(lia) ltac:(unfold lenZ; lia)).
  destruct (copyRows g (y + 1) dirty h1) as [h2 rows] eqn:E2. destruct IH as ((L2 & K2) & Hlen & Hcells & Hinc).
  assert (Hgoal : forall res, res = (h2, row :: rows) -> let '(h', rows) := res in
    keeps (length h) h h' /\ length rows = length (d :: dirty) /\
    (forall k r d', rows !! k = Some r -> (d :: dirty) !! k = Some d' ->
     if (d' : bool) then (length h <= rowArray r < length h')%nat /\ rowStart r = 0 /\ rowLen r = gWidth g /\
                        h' !! rowArray r = Some (copyRow (gWidth g) (rowCells h g (y + Z.of_nat k)))
     else rowForRead g (y + Z.of_nat k) = Some r) /\
    (forall k k' r r', (k < k')%nat -> rows !! k = Some r -> rows !! k' = Some r' -> (d :: dirty) !! k = Some true -> (d :: dirty) !! k' = Some true ->
     (rowArray r < rowArray r')%nat)).
  { intros res ->. destruct Hk1 as [L1 K1]. split; [split; [lia|intros i Hi; rewrite K2, K1 by lia; done]|].
    split; [cbn; by rewrite Hlen|]. split.
    - intros [|k] r d' Hrk Hdk; cbn in Hrk, Hdk.
      + injection Hrk as <-. injection Hdk as <-. rewrite Z.add_0_r. unfold row. destruct d; [|done]. cbn [rowArray rowStart rowLen].
        unfold h1 in *. rewrite length_app in L2. cbn in L2. split; [lia|]. split; [done|]. split; [done|].
        rewrite K2 by (rewrite length_app; cbn; lia). by apply list_lookup_middle.
      + specialize (Hcells k r d' Hrk Hdk). replace (y + 1 + Z.of_nat k) with (y + Z.of_nat (S k)) in Hcells by lia. destruct d'; [|done].
        destruct Hcells as (C1 & C2 & C3 & C4). split; [lia|]. split; [done|]. split; [done|]. rewrite C4. do 2 f_equal. apply Hrow1.
        apply lookup_lt_Some in Hdk. unfold inGrid. lia.
    - intros [|k] [|k'] r r' Hkk Hrk Hrk' Hdk Hdk'; [lia| |lia|].
      + cbn in Hrk, Hdk, Hrk', Hdk'. injection Hrk as <-. injection Hdk as ->. unfold row. cbn [rowArray].
        destruct (Hcells k' r' true Hrk' Hdk') as (C1 & _). unfold h1 in C1. rewrite length_app in C1. cbn in C1. lia.
      + cbn in *. apply (Hinc k k'); [lia|done..]. }
  unfold row, h1, makeRow in *. rewrite Ero. destruct d; cbn [default from_option id].
  - rewrite copyRow_len by done. rewrite E2. exact (Hgoal _ eq_refl).
  - rewrite E2. exact (Hgoal _ eq_refl).
Qed.

Lemma cloneDirtyRows_spec h g dirty : readable h g -> 0 <= gHeight g -> let '(h', g') := cloneDirtyRows dirty g h in copies h h' g g'.
Proof.
  intros Hr HH. unfold cloneDirtyRows. destruct (Z.eqb_spec (lenZ dirty) (gHeight g)) as [El|]; cbn [negb]; [|by apply Clone_spec].
  pose proof (copyRows_spec g dirty 0 h Hr ltac:(lia) ltac:(lia)) as Hs. destruct (copyRows g 0 dirty h) as [h' rows].
  destruct Hs as (Hk & Hlen & Hcells & Hinc). set (g' := mkGrid _ _ _ _ _ _ _). pose proof Hr as [Hw Hrows].
  assert (Hrow : forall y, inGrid g y -> exists r d, rows !! Z.to_nat y = Some r /\ dirty !! Z.to_nat y = Some d /\ rowForRead g' y = Some r).
  { intros y Hy. unfold inGrid, lenZ in *. destruct (lookup_lt_is_Some_2 rows (Z.to_nat y)) as [r Er]; [lia|].
    destruct (lookup_lt_is_Some_2 dirty (Z.to_nat y)) as [d Ed]; [lia|]. exists r, d. split; [done|]. split; [done|].
    rewrite (rowForRead_rows g' rows y) by done. done. }
  assert (Hget : forall y r, inGrid g y -> rowForRead g' y = Some r -> exists d, rows !! Z.to_nat y = Some r /\ dirty !! Z.to_nat y = Some d /\
    if (d : bool) then (length h <= rowArray r < length h')%nat /\ rowStart r = 0 /\ rowLen r = gWidth g /\
                       h' !! rowArray r = Some (copyRow (gWidth g) (rowCells h g y))
    else rowForRead g y = Some r).
  { intros y r Hy Hq. destruct (Hrow y Hy) as (r0 & d & E1 & E2 & E3). assert (r0 = r) as -> by congruence. exists d. split; [done|]. split; [done|].
    specialize (Hcells _ _ _ E1 E2). unfold inGrid in Hy. rewrite Z2Nat.id, Z.add_0_l in Hcells by lia. exact Hcells. }
  assert (Hdirty : forall y r, inGrid g y -> writable g' y -> rowForRead g' y = Some r -> dirty !! Z.to_nat y = Some true).
  { intros y r Hy [Hq|(o & Eo & Ho)] _; [done|]. cbn in Eo. by injection Eo as <-. }
  assert (Hin : forall y r, inGrid g y -> rowForRead g' y = Some r -> rowIn h' (gWidth g) r).
  { intros y r Hy Hq. destruct (Hget y r Hy Hq) as ([] & _ & _ & Hd).
    - destruct Hd as (_ & S1 & L1 & Hh). split; [lia|]. split; [done|]. eexists. split; [exact Hh|]. rewrite copyRow_len by done. lia.
    - destruct (Hrows y Hy) as (r0 & E0 & Hi). assert (r0 = r) as -> by congruence. pose proof (rowIn_bound _ _ _ Hi) as Hb.
      destruct Hi as (S1 & L1 & l & Hh & Hle). split; [done|]. split; [done|]. exists l. split; [|done]. by rewrite (proj2 Hk). }
  split; [split|split; [exact Hk|split; [done|split; [done|]]]].
  - done.
  - apply Hk.
  - cbn. split; [unfold lenZ in *; lia|]. by exists dirty.
  - intros y Hy. destruct (Hrow y Hy) as (r & d & _ & _ & E). exists r. split; [done|]. by apply (Hin y).
  - intros y r Hy Hwr Hq. pose proof (Hdirty y r Hy Hwr Hq) as Hd. destruct (Hget y r Hy Hq) as (d & _ & Ed & Hc). rewrite Hd in Ed. injection Ed as <-. lia.
  - intros y1 y2 r1 r2 Hy1 Hy2 Hne Hwr Hq1 Hq2. left. pose proof (Hdirty y1 r1 Hy1 Hwr Hq1) as Hd1.
    destruct (Hget y1 r1 Hy1 Hq1) as (d1 & R1 & D1 & Hc1). rewrite Hd1 in D1. injection D1 as <-.
    destruct (Hget y2 r2 Hy2 Hq2) as ([] & R2 & D2 & Hc2).
    + unfold inGrid in *. destruct (decide (y1 < y2)).
      * pose proof (Hinc (Z.to_nat y1) (Z.to_nat y2) r1 r2 ltac:(lia) R1 R2 Hd1 D2). lia.
      * pose proof (Hinc (Z.to_nat y2) (Z.to_nat y1) r2 r1 ltac:(lia) R2 R1 D2 Hd1). lia.
    + destruct (Hrows y2 Hy2) as (r0 & E0 & Hi). assert (r0 = r2) as -> by congruence. pose proof (rowIn_bound _ _ _ Hi). lia.
  - intros y x Hy Hx. destruct (Hrow y Hy) as (r & d & _ & _ & E). rewrite (gridCell_at h' g' y r x E (Hin y r Hy E) Hx).
    destruct (Hrows y Hy) as (r0 & E0 & Hi). destruct (Hget y r Hy E) as ([] & _ & _ & Hd).
    + destruct Hd as (_ & -> & _ & ->). cbn [from_option id]. by rewrite Z.add_0_l, (copied_cell h g y r0 x).
    + assert (r0 = r) as -> by congruence. rewrite (gridCell_at h g y r x) by done. by rewrite (proj2 Hk) by (by apply (rowIn_bound h (gWidth g))).
Qed.

(** ** Drawing *)
Definition write := (Z * Z * ScreenCell)%type.
(** The cells a list of writes leaves, over those there were. *)
Definition drawnOver (ws : list write) (f : Z -> Z -> ScreenCell) : Z -> Z -> ScreenCell :=
  fold_left (fun f '(x, y, c) => fun y' x' => if decide (y' = y /\ x' = x) then c else f y' x') ws f.
Fixpoint draw (ws : list write) (h : heap) (g : ScreenGrid) : option (heap * ScreenGrid) :=
  match ws with [] => Some (h, g) | (x, y, c) :: ws => '(h, g) ← SetCell x y c h g; draw ws h g end.

Lemma drawnOver_ext ws f f' y x : f y x = f' y x -> drawnOver ws f y x = drawnOver ws f' y x.
Proof. revert f f'. induction ws as [|[[a b] c] ws IH]; intros f f' E; [done|]. cbn. apply IH. by destruct (decide _). Qed.
Lemma draw_spec n ws h g : GridInv n h g -> exists h' g', draw ws h g = Some (h', g') /\ GridInv n h' g' /\ (length h <= length h')%nat /\
  (forall i, (i < n)%nat -> h' !! i = h !! i) /\ gWidth g' = gWidth g /\ gHeight g' = gHeight g /\
  forall y x, inGrid g y -> 0 <= x < gWidth g -> gridCell h' g' y x = drawnOver ws (gridCell h g) y x.
Proof.
  revert h g. induction ws as [|[[x y] c] ws IH]; intros h g Hinv; cbn [draw].
  - exists h, g. by split_and!.
  - destruct (SetCell_spec n h g x y c Hinv) as (h1 & g1 & -> & Hinv1 & L1 & P1 & W1 & H1 & C1). cbn [mbind option_bind].
    destruct (IH h1 g1 Hinv1) as (h2 & g2 & -> & Hinv2 & L2 & P2 & W2 & H2 & C2). exists h2, g2. split; [done|]. split; [done|].
    split; [lia|]. split; [intros i Hi; by rewrite P2, P1|]. split; [congruence|]. split; [congruence|].
    intros y' x' Hy' Hx'. rewrite C2 by (unfold inGrid in *; lia). cbn [drawnOver fold_left]. apply drawnOver_ext. by apply C1.
Qed.
End Copies.
