(* ===== verification/ScreenFrame.v ===== *)
(** * Frames one after the other

    [renderGrid_run]: the output of one frame shows it.  [screenStep]: a frame
    composed in a new grid or in a copy of the last one, whatever is drawn in it;
    clearing, resizing and changing the colors between frames.  [ScreenInv] is
    kept: the terminal shows the last frame and the compositor knows it. *)

From Stdlib Require Import Setoid Morphisms.
From S2P Require Import Prelude GoText GoCodec GoRunes ScreenGrid ScreenEmit ScreenTerm ScreenFacts ScreenHeap.

Definition cursorShown `{Colors} (cur : cursorRenderState) (t : Term) : Prop :=
  tVisible t = visible cur /\
  (visible cur = true -> curPositioned cur = true ->
   tX t = clamp (col cur - 1) 0 (tCols t - 1) /\ tY t = clamp (row cur - 1) 0 (tRows t - 1)).
(** What the compositor takes for granted of the terminal's style and link:
    without the precise mode, only that no hyperlink is open. *)
Definition penKnown `{UV} (c : Compositor) (s : emittedCellState) (t : Term) : Prop :=
  if preciseSGR c then pen (colorProfile c) s t else tLink t = zeroLink.

Section Frame.
Context `{TerminalLaws}.

Lemma DiffGrid_first h g : wfGrid h g -> DiffGrid h None g <> [].
Proof.
  intros (HW & HH & _). unfold DiffGrid. rewrite seqZ_cons by done. cbn [mbind list_bind]. unfold rowChanges.
  replace (gWidth g - 1 - 0 + 1) with (gWidth g) by lia. by rewrite seqZ_cons by done.
Qed.

(** The cursor at the end of a frame, and what is left of the style. *)
Lemma renderCursorTransition_run p cur some t : (some = true -> tVisible t = false) ->
  exists t', termRun (renderCursorTransition cur some) t = Some t' /\ tCell t' = tCell t /\ tCols t' = tCols t /\ tRows t' = tRows t /\
    tLink t' = tLink t /\ cursorShown cur t' /\
    (forall s, pen p s t -> pen p (if visible cur && curPositioned cur then resetLastEmittedStyle s else s) t').
Proof.
  intros Hhid. unfold renderCursorTransition, cursorShown. destruct (visible cur); cbn [negb andb].
  - destruct (curPositioned cur); cbn [negb].
    + eexists. split; [done|]. cbn. do 4 (split; [done|]). split; [done|]. intros s [_ Hl]. split; [|done]. cbn.
      rewrite sgr_reset. symmetry. apply convert_zero.
    + eexists. split; [done|]. cbn. do 4 (split; [done|]). split; [done|]. intros s [? ?]; by split.
  - destruct some; cbn [negb]; eexists; (split; [done|]); cbn; (do 4 (split; [done|])); (split; [split; [auto|done]|]); intros s [? ?]; by split.
Qed.

Lemma paintable_same p h prev g t t' : paintable p h prev g t -> tCols t' = tCols t -> tRows t' = tRows t -> tCell t' = tCell t ->
  paintable p h prev g t'.
Proof. intros (H3 & H4 & H5) E1 E2 E3. unfold paintable, shows in *. by rewrite E1, E2, E3. Qed.
Lemma shows_same p h g t t' : shows p h g t -> tCols t' = tCols t -> tRows t' = tRows t -> tCell t' = tCell t -> shows p h g t'.
Proof. intros (H3 & H4 & H5) E1 E2 E3. unfold shows in *. by rewrite E1, E2, E3. Qed.
Lemma pen_zero p t : tStyle t = zeroStyle -> tLink t = zeroLink -> pen p zeroEmittedCellState t.
Proof. intros E1 E2. split; [cbn; by rewrite E1|done]. Qed.

(** A frame in which nothing changed is shown already. *)
Lemma unchanged_shown p h prev g t : wfGrid h g -> paintable p h prev g t -> DiffGrid h prev g = [] -> shows p h g t.
Proof.
  intros Hwf Hpt Hnil. set (t0 := withPen zeroStyle zeroLink t).
  pose proof (emitDiff_run p h prev g zeroEmittedCellState true t0 Hwf) as He. rewrite Hnil in He. cbn in He.
  destruct He as (t' & [= <-] & _ & Hs & _); [by eapply paintable_same|by apply pen_zero|]. by eapply shows_same.
Qed.

(** The cells of a frame, in both modes. *)
Definition frameCells (h : heap) (g : ScreenGrid) (last : emittedCellState) (c : Compositor) : list Out * emittedCellState :=
  let changes := DiffGrid h (prevGrid c) g in
  if preciseSGR c then emitDiffWithProfileState changes (colorProfile c) last false
  else ((if negb (bool_decide (lenZ changes = 0)) then [SGR ResetStyle] else []) ++ emitDiffWithProfile changes (colorProfile c), last).
Lemma frameCells_run h g last c t : wfGrid h g -> paintable (colorProfile c) h (prevGrid c) g t -> penKnown c last t ->
  let '(out, last') := frameCells h g last c in
  exists t', termRun out t = Some t' /\ sameScreen t t' /\ shows (colorProfile c) h g t' /\ penKnown c last' t'.
Proof.
  intros Hwf Hpt Hpen. unfold frameCells, penKnown in *. destruct (preciseSGR c).
  - pose proof (emitDiff_run (colorProfile c) h (prevGrid c) g last false t Hwf Hpt Hpen) as He.
    destruct (emitDiffWithProfileState _ _ _ _) as [out last']. destruct He as (t' & ? & ? & ? & ? & _). by exists t'.
  - destruct (decide (DiffGrid h (prevGrid c) g = [])) as [E|E].
    { rewrite E. cbn. exists t. split; [done|]. split; [done|]. split; [|done]. by eapply unchanged_shown. }
    assert (Hne : bool_decide (lenZ (DiffGrid h (prevGrid c) g) = 0) = false).
    { apply bool_decide_eq_false. unfold lenZ. destruct (DiffGrid h (prevGrid c) g); [done|cbn; lia]. }
    rewrite Hne. cbn [negb]. set (t0 := withPen zeroStyle (tLink t) t).
    assert (Hres : termRun [SGR ResetStyle] t = Some t0) by (cbn; by rewrite sgr_reset).
    pose proof (emitDiff_run (colorProfile c) h (prevGrid c) g zeroEmittedCellState true t0 Hwf) as He. unfold emitDiffWithProfile.
    destruct (emitDiffWithProfileState _ _ _ _) as [out last']. destruct He as (t' & ? & ? & ? & ? & Hl); [by eapply paintable_same|by apply pen_zero|].
    exists t'. cbn [fst]. rewrite termRun_app, Hres. split; [done|]. split; [done|]. split; [done|]. by apply Hl.
Qed.

Lemma renderGrid_run h g cur c t :
  wfGrid h g -> paintable (colorProfile c) h (prevGrid c) g t ->
  penKnown c (if bool_decide (prevGrid c = None) then defaultEmittedCellState else lastEmittedCell c) t ->
  (prevGrid c <> None -> cursorShown (prevCursor c) t) ->
  let '(out, n, c') := renderGrid h g cur c in
  exists t', termRun out t = Some t' /\ shows (colorProfile c) h g t' /\ cursorShown cur t' /\ penKnown c' (lastEmittedCell c') t' /\
    tCols t' = tCols t /\ tRows t' = tRows t /\
    exists s, c' = withFrame (Some g) (Some g) cur s c.
Proof.
  intros Hwf Hpt Hpen Hcur. unfold renderGrid. set (last := if bool_decide (prevGrid c = None) then _ else _) in *. cbv zeta.
  set (changes := DiffGrid h (prevGrid c) g). set (some := negb (bool_decide (lenZ changes = 0))).
  destruct (negb some && negb (negb (bool_decide (prevCursor c = cur)))) eqn:Equiet.
  - apply andb_true_iff in Equiet as [E1%negb_true_iff E2]. rewrite negb_involutive, bool_decide_eq_true in E2.
    unfold some in E1. apply negb_false_iff, bool_decide_eq_true in E1.
    assert (Hnil : DiffGrid h (prevGrid c) g = []) by (fold changes; unfold lenZ in E1; destruct changes; [done|cbn in E1; lia]).
    exists t. split; [done|]. split; [by eapply unchanged_shown|]. split; [|by eauto].
    rewrite <- E2. apply Hcur. intros E. rewrite E in Hnil. by apply (DiffGrid_first h g Hwf).
  - set (hide := if some || negb (visible cur) then [HideCursor] else []).
    assert (Hhide : exists t1, termRun hide t = Some t1 /\ tCols t1 = tCols t /\ tRows t1 = tRows t /\ tCell t1 = tCell t /\
      tStyle t1 = tStyle t /\ tLink t1 = tLink t /\ (some = true -> tVisible t1 = false)).
    { unfold hide. destruct some; cbn [orb]; [|destruct (visible cur); cbn [negb]]; eexists; by (split; [done|]). }
    destruct Hhide as (t1 & R1 & C1 & W1 & K1 & S1 & L1 & V1).
    pose proof (frameCells_run h g last c t1 Hwf) as Hcells. unfold frameCells in Hcells. fold changes some in Hcells.
    destruct (if preciseSGR c then _ else _) as [out last'].
    destruct Hcells as (t2 & R2 & (C2 & W2 & V2) & Sh2 & P2); [by eapply paintable_same|unfold penKnown, pen in *; by rewrite S1, L1|].
    destruct (renderCursorTransition_run (colorProfile c) cur some t2) as (t3 & R3 & K3 & C3 & W3 & L3 & Cu3 & P3); [intros E; rewrite V2; auto|].
    exists t3. rewrite !termRun_app, R1. cbn [mbind option_bind]. rewrite termRun_app, R2. cbn [mbind option_bind]. split; [done|].
    split; [by eapply shows_same|]. split; [done|]. split; [|split; [congruence|split; [congruence|by eauto]]].
    unfold penKnown in *. cbn [preciseSGR withFrame colorProfile lastEmittedCell]. destruct (preciseSGR c); [|congruence]. cbn [andb].
    specialize (P3 last' P2). by destruct (visible cur && curPositioned cur).
Qed.
End Frame.

(** ** Runs *)
Record Screen `{Colors} := mkScreen { scHeap : heap; scComp : Compositor; scTerm : Term }.
Arguments mkScreen {_}.

(** The grid of the next frame: new, or a copy of the last one with some rows
    shared, with whatever the panes, borders and overlays write. *)
Definition newFrame `{Colors} (ws : list write) (h : heap) (c : Compositor) : option (heap * ScreenGrid) :=
  '(h, g) ← NewScreenGrid (compWidth c) (compHeight c) h; draw ws h g.
Definition dirtyFrame `{Colors} (dirty : list bool) (ws : list write) (prev : ScreenGrid) (h : heap) : option (heap * ScreenGrid) :=
  let '(h, g) := cloneDirtyRows dirty prev h in draw ws h g.
Inductive composed `{Colors} (h : heap) (c : Compositor) (h' : heap) (g : ScreenGrid) : Prop :=
| composed_new ws : newFrame ws h c = Some (h', g) -> composed h c h' g
| composed_dirty dirty ws prev : prevGrid c = Some prev -> dirtyFrame dirty ws prev h = Some (h', g) -> composed h c h' g.

(** In the precise mode the compositor takes a terminal after clearing to have
    the default style: the steps that clear ask for it there. *)
Definition defaultPen `{UV} (c : Compositor) (p : TermProfile) (t : Term) : Prop :=
  preciseSGR c = true -> pen p defaultEmittedCellState t.
Inductive screenStep `{UV} `{!Terminal} : Screen -> Screen -> Prop :=
| FrameStep h c t h' g cur out n c' t' : composed h c h' g -> wfGrid h' g -> renderGrid h' g cur c = (out, n, c') ->
    termRun out t = Some t' -> screenStep (mkScreen h c t) (mkScreen h' c' t')
| ClearStep h c t : defaultPen c (colorProfile c) t -> screenStep (mkScreen h c t) (mkScreen h (clearPrevGrid c) t)
| ProfileStep p h c t : defaultPen c p t -> screenStep (mkScreen h c t) (mkScreen h (SetColorProfile p c) t)
| ResizeStep w h' h c t t' : defaultPen c (colorProfile c) t -> 0 < w -> 0 < h' -> tCols t' = w -> tRows t' = h' ->
    tStyle t' = tStyle t -> tLink t' = tLink t -> screenStep (mkScreen h c t) (mkScreen h (Resize w h' c) t').
Definition screenStart `{Terminal} (s : Screen) : Prop :=
  exists w h precise, 0 < w /\ 0 < h /\ scComp s = NewCompositor w h precise /\ tCols (scTerm s) = w /\ tRows (scTerm s) = h /\
    tLink (scTerm s) = zeroLink /\ (precise = true -> tStyle (scTerm s) = zeroStyle).
Definition screenReachable `{UV} `{!Terminal} (s : Screen) : Prop := exists s0, screenStart s0 /\ rtc screenStep s0 s.

Section Runs.
Context `{TerminalLaws}.

Record ScreenInv (s : Screen) : Prop := {
  si_cols : 0 < compWidth (scComp s) /\ tCols (scTerm s) = compWidth (scComp s);
  si_rows : 0 < compHeight (scComp s) /\ tRows (scTerm s) = compHeight (scComp s);
  si_pen : penKnown (scComp s) (if bool_decide (prevGrid (scComp s) = None) then defaultEmittedCellState else lastEmittedCell (scComp s)) (scTerm s);
  si_snap : prevGridSnap (scComp s) = prevGrid (scComp s);
  si_prev g : prevGrid (scComp s) = Some g ->
    readable (scHeap s) g /\ wfGrid (scHeap s) g /\ gWidth g = compWidth (scComp s) /\ gHeight g = compHeight (scComp s) /\
    shows (colorProfile (scComp s)) (scHeap s) g (scTerm s) /\ cursorShown (prevCursor (scComp s)) (scTerm s) }.

Lemma keeps_grow n h h1 h2 : keeps n h h1 -> (length h1 <= length h2)%nat -> (forall i, (i < n)%nat -> h2 !! i = h1 !! i) -> keeps n h h2.
Proof. intros [L K] L2 K2. split; [lia|]. intros i Hi. by rewrite K2, K. Qed.

(** Composing a frame succeeds, draws what was written and keeps what was
    published. *)
Lemma newFrame_spec ws h c : 0 <= compWidth c -> 0 <= compHeight c ->
  exists h' g, newFrame ws h c = Some (h', g) /\ GridInv (length h) h' g /\ keeps (length h) h h' /\ gWidth g = compWidth c /\ gHeight g = compHeight c /\
    forall y x, inGrid g y -> 0 <= x < gWidth g -> gridCell h' g y x = drawnOver ws (fun _ _ => blankScreenCell) y x.
Proof.
  intros HW HH. unfold newFrame. destruct (NewScreenGrid_spec h (compWidth c) (compHeight c) HW HH) as (h1 & g1 & -> & Hi & Hk & W1 & H1' & C1).
  cbn [mbind option_bind]. destruct (draw_spec (length h) ws h1 g1 Hi) as (h2 & g2 & E & Hi2 & L2 & K2 & W2 & H2' & C2).
  exists h2, g2. split; [done|]. split; [done|]. split; [by eapply keeps_grow|]. split; [congruence|]. split; [congruence|].
  intros y x Hy Hx. rewrite C2 by (unfold inGrid in *; lia). apply drawnOver_ext. apply C1; unfold inGrid in *; lia.
Qed.
Lemma dirtyFrame_spec dirty ws prev h : readable h prev -> 0 <= gHeight prev ->
  exists h' g, dirtyFrame dirty ws prev h = Some (h', g) /\ GridInv (length h) h' g /\ keeps (length h) h h' /\ gWidth g = gWidth prev /\ gHeight g = gHeight prev /\
    forall y x, inGrid g y -> 0 <= x < gWidth g -> gridCell h' g y x = drawnOver ws (gridCell h prev) y x.
Proof.
  intros Hr HH. unfold dirtyFrame. pose proof (cloneDirtyRows_spec h prev dirty Hr HH) as Hc. destruct (cloneDirtyRows dirty prev h) as [h1 g1].
  destruct Hc as (Hi & Hk & W1 & H1' & C1). destruct (draw_spec (length h) ws h1 g1 Hi) as (h2 & g2 & E & Hi2 & L2 & K2 & W2 & H2' & C2).
  exists h2, g2. split; [done|]. split; [done|]. split; [by eapply keeps_grow|]. split; [congruence|]. split; [congruence|].
  intros y x Hy Hx. rewrite C2 by (unfold inGrid in *; lia). apply drawnOver_ext. apply C1; unfold inGrid in *; lia.
Qed.

Lemma composed_spec s h' g : ScreenInv s -> composed (scHeap s) (scComp s) h' g ->
  GridInv (length (scHeap s)) h' g /\ keeps (length (scHeap s)) (scHeap s) h' /\ gWidth g = compWidth (scComp s) /\ gHeight g = compHeight (scComp s).
Proof.
  intros [[HW _] [HH _] _ _ Hp] [ws E|dirty ws prev Ep E].
  - destruct (newFrame_spec ws (scHeap s) (scComp s)) as (h1 & g1 & E1 & ?); [lia|lia|]. rewrite E in E1. injection E1 as <- <-. tauto.
  - destruct (Hp prev Ep) as (Hr & _ & EW & EH & _). destruct (dirtyFrame_spec dirty ws prev (scHeap s) Hr) as (h1 & g1 & E1 & ? & ? & ? & ? & _); [lia|].
    rewrite E in E1. injection E1 as <- <-. split_and!; try done; congruence.
Qed.

Lemma wfGrid_keeps h h' g : readable h g -> keeps (length h) h h' -> wfGrid h g -> wfGrid h' g.
Proof.
  intros Hr Hk (HW & HH & Hwf). split; [done|]. split; [done|]. intros y Hy. destruct (readable_keeps h h' g Hr Hk) as (_ & _ & Hc).
  intros x Hx. rewrite !Hc by done. by apply (Hwf y Hy).
Qed.
Lemma shows_keeps p h h' g t : readable h g -> keeps (length h) h h' -> shows p h g t -> shows p h' g t.
Proof.
  intros Hr Hk (HW & HH & Hs). split; [done|]. split; [done|]. intros y x Hy Hx. destruct (readable_keeps h h' g Hr Hk) as (_ & _ & Hc).
  rewrite Hc by done. by apply Hs.
Qed.

Lemma frame_runs s h' g cur : ScreenInv s -> composed (scHeap s) (scComp s) h' g -> wfGrid h' g ->
  let '(out, n, c') := renderGrid h' g cur (scComp s) in
  exists t', termRun out (scTerm s) = Some t' /\ ScreenInv (mkScreen h' c' t') /\ prevGrid c' = Some g /\ prevCursor c' = cur.
Proof.
  intros Hinv Hc Hwf. destruct (composed_spec s h' g Hinv Hc) as (Hi & Hk & EW & EH). destruct Hinv as [[HW TW] [HH TH] Hpen Hsnap Hp].
  pose proof (renderGrid_run h' g cur (scComp s) (scTerm s) Hwf) as Hr. destruct (renderGrid h' g cur (scComp s)) as [[out n] c'].
  destruct Hr as (t' & R & Sh & Cu & Pk & TW' & TH' & st & ->).
  - split; [congruence|]. split; [congruence|]. destruct (prevGrid (scComp s)) as [pg|] eqn:E; [|done].
    destruct (Hp pg eq_refl) as (Hrd & Hwp & PW & PH & Hs & _). split; [by eapply wfGrid_keeps|]. split; [congruence|]. split; [congruence|].
    by eapply shows_keeps.
  - exact Hpen.
  - intros Hne. destruct (prevGrid (scComp s)) as [pg|] eqn:E; [|done]. by destruct (Hp pg eq_refl) as (_ & _ & _ & _ & _ & ?).
  - exists t'. split; [done|]. split; [|done]. split; cbn; [split; [done|congruence]|split; [done|congruence]|exact Pk|done|].
    intros g' [= <-]. split; [by eapply GridInv_readable|]. by split_and!.
Qed.

Lemma penKnown_default c p t s' : defaultPen c p t -> penKnown c s' t ->
  if preciseSGR c then pen p defaultEmittedCellState t else tLink t = zeroLink.
Proof. unfold defaultPen, penKnown. destruct (preciseSGR c); auto. Qed.
Lemma screenStep_inv s s' : ScreenInv s -> screenStep s s' -> ScreenInv s' /\ keeps (length (scHeap s)) (scHeap s) (scHeap s').
Proof.
  intros Hinv Hs. destruct Hs as [h c t h' g cur out n c' t' Hc Hwf E R|h c t Hd|p h c t Hd|w h' h c t t' Hd HW HH EW EH ES EL].
  - pose proof (frame_runs _ h' g cur Hinv Hc Hwf) as Hf. cbn [scHeap scComp scTerm] in Hf. rewrite E in Hf. destruct Hf as (t1 & R1 & Hi & _).
    rewrite R in R1. injection R1 as <-. split; [done|]. by apply (composed_spec _ h' g Hinv Hc).
  - destruct Hinv as [? ? Hpen ? ?]. split; [|by split]. split; cbn in *; try done. exact (penKnown_default c _ t _ Hd Hpen).
  - split; [|by split]. unfold SetColorProfile. cbn. case_bool_decide; [done|]. destruct Hinv as [? ? Hpen ? ?]. split; cbn in *; try done.
    exact (penKnown_default c _ t _ Hd Hpen).
  - split; [|by split]. destruct Hinv as [? ? Hpen ? ?]. split; cbn in *; try done. pose proof (penKnown_default c _ t _ Hd Hpen) as Hk.
    unfold penKnown, pen in *. cbn. by rewrite ES, EL.
Qed.
Lemma screenStart_inv s : screenStart s -> ScreenInv s.
Proof.
  intros (w & h & precise & HW & HH & E & EW & EH & EL & ES). split; rewrite E; cbn; try done. unfold penKnown. cbn. destruct precise; [|done].
  split; [cbn; rewrite ES by done; symmetry; apply convert_zero|done].
Qed.
Lemma screenReachable_inv s : screenReachable s -> ScreenInv s.
Proof. intros (s0 & H0' & Hr). apply screenStart_inv in H0'. induction Hr as [|a b d Hs Hr IH]; [done|]. apply IH. by eapply screenStep_inv. Qed.
End Runs.
