(* ===== verification/ScreenProps.v ===== *)
(** * What the screen shows

    A concrete terminal and screens on it, and the properties of frames. *)

From Stdlib Require Import Setoid Morphisms.
From S2P Require Import Prelude GoText GoCodec GoRunes ScreenGrid ScreenEmit ScreenTerm ScreenFacts ScreenHeap ScreenFrame.

(** ** A terminal that satisfies the assumptions

    Colors are numbers, the bytes of styles are lists that [sampleSgr] reads
    back, a character of one byte is one column wide and any other two. *)

#[export] Instance numberColors : Colors := { Color := Z; RGBA c := (c, 0, 0, 255) }.
#[export] Instance numberPalette : Palette := { RGBColor r g b := r }.

Definition optColor (k c : Z) : option Color := if k =? 0 then None else Some c.
Definition colorBytes (c : option Color) : bytes := match c with None => [0; 0] | Some c => [1; c] end.
Fixpoint sampleSgr (s : bytes) (st : Style) : Style :=
  match s with
  | 0 :: s => sampleSgr s zeroStyle
  | 1 :: fk :: f :: bk :: b :: a :: s => sampleSgr s (mkStyle (optColor fk f) (optColor bk b) (UnderlineColor st) (Underline st) a)
  | 2 :: u :: s => sampleSgr s (mkStyle (Fg st) (Bg st) (UnderlineColor st) u (Attrs st))
  | 3 :: k :: c :: s => sampleSgr s (mkStyle (Fg st) (Bg st) (optColor k c) (Underline st) (Attrs st))
  | _ => st
  end.
Definition attrBytes (a : UnderlineAttr) : bytes := match a with UnderlineStyle u => [2; u] | UnderlineColored c => 3 :: colorBytes c end.

#[export] Instance sampleUV : UV := {
  ConvertStyle s p := match p with cpASCII => mkStyle None None None (Underline s) (Attrs s) | _ => s end;
  StyleDiff from to := if styleEqual (default zeroStyle from) to then []
                       else if styleEqual to zeroStyle then [0] else 1 :: colorBytes (Fg to) ++ colorBytes (Bg to) ++ [Attrs to];
  attrsString l := match l with [] => [0] | _ => l ≫= attrBytes end;
  ResetStyle := [0] }.
#[export] Instance sampleTerminal : Terminal := { sgr := sampleSgr; termWidth s := if lenZ s =? 1 then 1 else 2 }.

Lemma optColor_bytes (c : option Color) : match colorBytes c with [k; v] => optColor k v | _ => None end = c.
Proof. by destruct c. Qed.
Lemma sampleSgr_attrs l st : sampleSgr (l ≫= attrBytes) st = fold_left applyAttr l st.
Proof. revert st. induction l as [|[u|[c|]] l IH]; intros st; [done| | |]; cbn; apply IH. Qed.
Lemma sampleSgr_base to st rest : sampleSgr (1 :: colorBytes (Fg to) ++ colorBytes (Bg to) ++ [Attrs to] ++ rest) st =
  sampleSgr rest (mkStyle (Fg to) (Bg to) (UnderlineColor st) (Underline st) (Attrs to)).
Proof. destruct to as [[f|] [b|] uc u a]; done. Qed.

#[export] Instance sampleLaws : TerminalLaws.
Proof.
  split.
  - intros [] a b Hab; try done. apply sameStyle_iff in Hab. apply sameStyle_iff. cbn. destruct_and!. by split_and!.
  - intros []; done.
  - done.
  - intros from to l s. cbn [StyleDiff sampleUV attrsString sgr sampleTerminal]. destruct (styleEqual (default zeroStyle from) to); [done|].
    destruct (styleEqual to zeroStyle); [done|]. rewrite <- !app_comm_cons, <- !app_assoc, sampleSgr_base.
    rewrite <- (app_nil_r [Attrs to]), (sampleSgr_base to s []). done.
  - done.
  - intros [|a l] s Hl; [done|]. apply sampleSgr_attrs.
  - intros from to s Hs _ Hto. cbn [StyleDiff sampleUV sgr sampleTerminal ResetStyle].
    destruct (styleEqual (default zeroStyle from) to) eqn:E1; [split; [|by right]; cbn [sampleSgr]; by rewrite Hs|].
    destruct (styleEqual to zeroStyle) eqn:E2; [split; [|by left]; cbn [sampleSgr]; symmetry; exact E2|].
    rewrite <- (app_nil_r [Attrs to]), (sampleSgr_base to s []). cbn [sampleSgr]. split; [|by right].
    rewrite <- Hto. done.
Qed.

(** ** Decidable versions of the assumptions, for concrete grids *)
Definition wfCellb `{Terminal} (c : ScreenCell) : bool :=
  (cWidth c =? 0) || (((cWidth c =? 1) || (cWidth c =? 2)) && (termWidth (charText (Char c)) =? cWidth c) &&
                      (linkIsZero (cLink c) || negb (bool_decide (URL (cLink c) = [])))).
Definition wfGridb `{Terminal} (h : heap) (g : ScreenGrid) : bool :=
  (0 <? gWidth g) && (0 <? gHeight g) &&
  forallb (fun y => forallb (fun x =>
    let w i := cWidth (gridCell h g y i) in
    wfCellb (gridCell h g y x) && Bool.eqb (w x =? 0) ((0 <? x) && (w (x - 1) =? 2)) && implb (w x =? 2) (x + 1 <? gWidth g))
    (seqZ 0 (gWidth g))) (seqZ 0 (gHeight g)).
Lemma wfGridb_ok h g : wfGridb h g = true -> wfGrid h g.
Proof.
  unfold wfGridb. rewrite !andb_true_iff, forallb_forall, !Z.ltb_lt. intros ((HW & HH) & Hall). split; [done|]. split; [done|].
  intros y Hy x Hx. specialize (Hall y). rewrite <- list_elem_of_In, elem_of_seqZ, forallb_forall in Hall. specialize (Hall ltac:(lia) x).
  rewrite <- list_elem_of_In, elem_of_seqZ in Hall. specialize (Hall ltac:(lia)). apply andb_true_iff in Hall as [[Hc Hz]%andb_true_iff Hw].
  split; [|split].
  - unfold wfCellb in Hc. unfold wfCell. apply orb_true_iff in Hc as [Hc|Hc]; [left; lia|right].
    apply andb_true_iff in Hc as [[H1 H2]%andb_true_iff H3]. split; [lia|]. split; [lia|].
    apply orb_true_iff in H3 as [H3|H3]; [left; by apply linkIsZero_iff|right]. apply negb_true_iff, bool_decide_eq_false in H3. done.
  - apply Bool.eqb_prop in Hz. rewrite <- Z.eqb_eq, Hz, andb_true_iff, Z.ltb_lt, Z.eqb_eq. done.
  - intros E. rewrite E in Hw. cbn in Hw. lia.
Qed.

(** ** A screen of 4 by 2 *)
Definition plain (s : bytes) : ScreenCell := mkCell s zeroLink zeroStyle 1.
Definition colored (fg : Z) (s : bytes) (w : Z) : ScreenCell := mkCell s zeroLink (mkStyle (Some fg) None None 0 0) w.
Definition wide : ScreenCell := mkCell [0xE4; 0xB8; 0x96] (mkUVLink (bytesOf "u") []) zeroStyle 2.
(** Something red at the end of the first row, and a wide character with a
    hyperlink in the second. *)
Definition sampleWrites : list write :=
  [(0, 0, plain (bytesOf "a")); (3, 0, colored 7 (bytesOf "b") 1); (1, 1, wide); (2, 1, writeContinuationCell wide)].
(** The next frame: a narrow character over the first half of the wide one. *)
Definition nextWrites : list write := [(1, 1, plain (bytesOf "c")); (2, 1, plain (bytesOf "d"))].

(** Red at the end of the last row. *)
Definition redWrites : list write := [(3, 1, colored 7 (bytesOf "b") 1)].

Definition blankTerm (w h : Z) : Term := mkTerm w h (fun _ _ => TLost) 0 0 zeroStyle zeroLink true.
Definition startScreen (precise : bool) : Screen := mkScreen [] (NewCompositor 4 2 precise) (blankTerm 4 2).
(** One frame on a screen: None where composing or the terminal fail. *)
Definition frameOn (compose : heap -> Compositor -> option (heap * ScreenGrid)) (cur : cursorRenderState) (s : Screen) : option Screen :=
  '(h, g) ← compose (scHeap s) (scComp s);
  if wfGridb h g then
    let '(out, _, c) := renderGrid h g cur (scComp s) in t ← termRun out (scTerm s); Some (mkScreen h c t)
  else None.
Definition freshly (ws : list write) (h : heap) (c : Compositor) := newFrame ws h c.
Definition dirtily (dirty : list bool) (ws : list write) (h : heap) (c : Compositor) :=
  match prevGrid c with Some prev => dirtyFrame dirty ws prev h | None => None end.

Lemma frameOn_step compose cur s s' :
  (forall h g, compose (scHeap s) (scComp s) = Some (h, g) -> composed (scHeap s) (scComp s) h g) ->
  frameOn compose cur s = Some s' -> screenStep s s'.
Proof.
  intros Hc E. unfold frameOn in E. destruct (compose _ _) as [[h g]|]; [|done]. cbn [mbind option_bind] in E.
  destruct (wfGridb h g) eqn:Ew; [|done]. destruct (renderGrid h g cur (scComp s)) as [[out n] c] eqn:Er.
  destruct (termRun out (scTerm s)) as [t|] eqn:Et; [|done]. cbn in E. injection E as <-. destruct s as [h0 c0 t0]. cbn in *.
  eapply FrameStep; [by apply Hc|by apply wfGridb_ok|done|done].
Qed.
Lemma freshly_composed ws h c h' g : freshly ws h c = Some (h', g) -> composed h c h' g.
Proof. apply composed_new. Qed.
Lemma dirtily_composed dirty ws h c h' g : dirtily dirty ws h c = Some (h', g) -> composed h c h' g.
Proof. unfold dirtily. destruct (prevGrid c) as [prev|] eqn:E; [|done]. intros Hd. by eapply composed_dirty. Qed.

Definition sampleCursor : cursorRenderState := mkCursor true true 2 1.
Definition firstScreen (precise : bool) (cur : cursorRenderState) : Screen :=
  default (startScreen precise) (frameOn (freshly sampleWrites) cur (startScreen precise)).
Definition secondScreen (precise : bool) : Screen :=
  default (startScreen precise) (frameOn (dirtily [false; true] nextWrites) sampleCursor (firstScreen precise sampleCursor)).

Definition isSomeb {A} (o : option A) : bool := match o with Some _ => true | None => false end.
Lemma frameOn_default compose cur s d : isSomeb (frameOn compose cur s) = true ->
  (forall h g, compose (scHeap s) (scComp s) = Some (h, g) -> composed (scHeap s) (scComp s) h g) ->
  screenStep s (default d (frameOn compose cur s)).
Proof. intros Hs Hc. destruct (frameOn compose cur s) as [s'|] eqn:E; [|done]. by eapply frameOn_step. Qed.
Lemma firstScreen_step precise : screenStep (startScreen precise) (firstScreen precise sampleCursor).
Proof. unfold firstScreen. apply frameOn_default; [destruct precise; vm_compute; reflexivity|apply freshly_composed]. Qed.
Lemma secondScreen_step precise : screenStep (firstScreen precise sampleCursor) (secondScreen precise).
Proof. unfold secondScreen. apply frameOn_default; [destruct precise; vm_compute; reflexivity|apply dirtily_composed]. Qed.
Lemma firstScreen_reachable precise : screenReachable (firstScreen precise sampleCursor).
Proof.
  exists (startScreen precise). split; [|apply rtc_once, firstScreen_step]. exists 4, 2, precise. by split_and!.
Qed.
Lemma secondScreen_reachable precise : screenReachable (secondScreen precise).
Proof.
  destruct (firstScreen_reachable precise) as (s0 & H0 & Hr). exists s0. split; [done|]. eapply rtc_r; [done|apply secondScreen_step].
Qed.

(** The grid published after the first frame. *)
Definition firstGrid : ScreenGrid := default (mkGrid 0 0 None None None false []) (prevGridSnap (scComp (firstScreen false sampleCursor))).
Lemma firstGrid_published : prevGridSnap (scComp (firstScreen false sampleCursor)) = Some firstGrid.
Proof. vm_compute. reflexivity. Qed.

(** C5. In every reachable state the terminal shows the last frame, its cursor
    included, and the published frame is that one; the output of the next
    frame, composed anew or in a copy of the last one, never runs over the
    margin and makes the terminal show that frame.  Frames are drawn by any
    writes that leave a well-formed grid ([wfGrid]): every wide cell has its
    continuation beside it, so none is cut by the last column, and the widths
    are those of the terminal.  With precise style changes the frame is cleared,
    by a resize or a change of the color profile too, only while the terminal
    has the default style ([defaultPen]; [precise_clear_forgets_style] is what
    happens otherwise).  The bytes of styles are read as [TerminalLaws] says. *)
Theorem frames_shown `{TerminalLaws} s : screenReachable s ->
  prevGridSnap (scComp s) = prevGrid (scComp s) /\
  (forall g, prevGrid (scComp s) = Some g ->
     shows (colorProfile (scComp s)) (scHeap s) g (scTerm s) /\ cursorShown (prevCursor (scComp s)) (scTerm s)) /\
  (forall h g cur, composed (scHeap s) (scComp s) h g -> wfGrid h g ->
     let '(out, n, c) := renderGrid h g cur (scComp s) in
     exists t, termRun out (scTerm s) = Some t /\ shows (colorProfile c) h g t /\ cursorShown cur t /\ prevGrid c = Some g).
Proof.
  intros Hs. apply screenReachable_inv in Hs. split; [apply Hs|]. split.
  - intros g E. by destruct (si_prev s Hs g E) as (_ & _ & _ & _ & ? & ?).
  - intros h g cur Hc Hwf. pose proof (frame_runs s h g cur Hs Hc Hwf) as Hf. destruct (renderGrid h g cur (scComp s)) as [[out n] c].
    destruct Hf as (t & R & Hi & Eg & Ec). destruct (si_prev _ Hi g Eg) as (_ & _ & _ & _ & Hsh & Hcu). cbn in *. exists t. by rewrite Ec in Hcu.
Qed.

Lemma frames_shown_witness : screenReachable (secondScreen false) /\
  prevGridSnap (scComp (secondScreen false)) = prevGrid (scComp (secondScreen false)) /\
  (forall g, prevGrid (scComp (secondScreen false)) = Some g ->
     shows (colorProfile (scComp (secondScreen false))) (scHeap (secondScreen false)) g (scTerm (secondScreen false)) /\
     cursorShown (prevCursor (scComp (secondScreen false))) (scTerm (secondScreen false))).
Proof.
  split; [apply secondScreen_reachable|]. destruct (frames_shown (secondScreen false) (secondScreen_reachable false)) as (H1 & H2 & _).
  split; [exact H1|exact H2].
Defined.

(** C23. A published frame never changes: not while the next one is drawn in a
    copy that shares its rows, whatever is drawn, and not in any later state;
    the copy has the cells drawn over those of the frame. *)
Theorem published_frame_kept `{TerminalLaws} s g : screenReachable s -> prevGridSnap (scComp s) = Some g ->
  (forall dirty ws, exists h' g', dirtyFrame dirty ws g (scHeap s) = Some (h', g') /\ gWidth g' = gWidth g /\ gHeight g' = gHeight g /\
     (forall y x, inGrid g y -> 0 <= x < gWidth g -> gridCell h' g' y x = drawnOver ws (gridCell (scHeap s) g) y x) /\
     (forall y x, inGrid g y -> gridCell h' g y x = gridCell (scHeap s) g y x)) /\
  (forall s', rtc screenStep s s' -> forall y x, inGrid g y -> gridCell (scHeap s') g y x = gridCell (scHeap s) g y x).
Proof.
  intros Hs Eg. apply screenReachable_inv in Hs. rewrite (si_snap s Hs) in Eg. destruct (si_prev s Hs g Eg) as (Hr & (_ & HH & _) & _). split.
  - intros dirty ws. destruct (dirtyFrame_spec dirty ws g (scHeap s) Hr) as (h' & g' & E & _ & Hk & W' & H' & C'); [lia|].
    exists h', g'. split; [done|]. split; [done|]. split; [done|]. split.
    + intros y x Hy Hx. apply C'; unfold inGrid in *; lia.
    + by apply (readable_keeps (scHeap s) h' g Hr Hk).
  - intros s' Hrun. clear Eg HH. induction Hrun as [|a b c Hab Hbc IH]; [done|]. destruct (screenStep_inv a b Hs Hab) as [Hb Hk].
    destruct (readable_keeps (scHeap a) (scHeap b) g Hr Hk) as (Hrb & _ & Hc). intros y x Hy. rewrite (IH Hb Hrb y x Hy). by apply Hc.
Qed.

Lemma published_frame_kept_witness :
  prevGridSnap (scComp (firstScreen false sampleCursor)) = Some firstGrid /\
  (forall s', rtc screenStep (firstScreen false sampleCursor) s' -> forall y x, inGrid firstGrid y ->
     gridCell (scHeap s') firstGrid y x = gridCell (scHeap (firstScreen false sampleCursor)) firstGrid y x).
Proof.
  split; [exact firstGrid_published|].
  exact (proj2 (published_frame_kept _ firstGrid (firstScreen_reachable false) firstGrid_published)).
Defined.

(** With precise style changes, clearing the last frame takes the terminal to
    have the default style: after a frame that ends in red and leaves the
    cursor hidden, a blank frame is painted in red. *)
Definition redScreen : Screen := default (startScreen true) (frameOn (freshly redWrites) noCursor (startScreen true)).
Definition clearedScreen : Screen :=
  default redScreen (frameOn (freshly []) noCursor (mkScreen (scHeap redScreen) (clearPrevGrid (scComp redScreen)) (scTerm redScreen))).
Theorem precise_clear_forgets_style :
  option_map (fun g => gridCell (scHeap clearedScreen) g 0 0) (prevGrid (scComp clearedScreen)) = Some blankScreenCell /\
  tCell (scTerm clearedScreen) 0 0 = TChar space (mkStyle (Some 7) None None 0 0) zeroLink 1.
Proof. vm_compute. by split. Qed.
