(* ===== verification/PaneRows.v ===== *)
(** * The content of a pane on the grid

    internal/render/screen.go, copymode_overlay.go and attention.go: a row of a
    pane's cells with the highlights of copy mode, its cells packed into
    graphemes, and what composing a pane writes into the grid.  A pane gives its
    cells either as values or, on the fast path, field by field into a cell that
    is there already. *)

From S2P Require Import Prelude GoText GoCodec GoRunes LayoutSizes LayoutTree WindowState CopyMode CopyOverlay ScreenGrid.

(** What the code uses of the packages uv and ansi here. *)
Class Glyphs `{Colors} := {
  FirstGraphemeCluster : bytes -> bytes * Z;
  BasicColor : Z -> Color;
  AttrBold : Z;
  AttrReverse : Z }.

(** PaneData and PaneCellReader, as far as rows need them. *)
Record PaneData `{Colors} := mkPaneData {
  CellAt : Z -> Z -> bool -> ScreenCell;
  CellFieldsAt : option (Z -> Z -> bool -> bytes * Link * Style * Z);
  CopyModeOverlay : option ViewportOverlay }.
Arguments mkPaneData {_}.

(** ** Highlights *)
Definition highlightPriority (kind : option HighlightKind) : Z :=
  match kind with Some HighlightCurrentMatch => 3 | Some HighlightSearchMatch => 2 | Some HighlightSelection => 1 | None => 0 end.
Definition copyModeHighlightAt (overlay : ViewportOverlay) (row col : Z) : option HighlightKind :=
  fold_left (fun best line =>
    if negb (hlRow line =? row) then best
    else fold_left (fun best span =>
      if (col <? spanStart span) || (spanEnd span <=? col) then best
      else if highlightPriority best <? highlightPriority (Some (spanKind span)) then Some (spanKind span) else best)
      (hlSpans line) best) (HighlightedLines overlay) None.

Definition setBg `{Colors} (bg : option Color) (s : Style) : Style := mkStyle (Fg s) bg (UnderlineColor s) (Underline s) (Attrs s).
Definition addAttrs `{Colors} (a : Z) (s : Style) : Style := mkStyle (Fg s) (Bg s) (UnderlineColor s) (Underline s) (Z.lor (Attrs s) a).
Definition onStyle `{Colors} (f : Style -> Style) (c : ScreenCell) : ScreenCell := mkCell (Char c) (cLink c) (f (cStyle c)) (cWidth c).
Definition applyCopyModeOverlay `{Glyphs} (base : ScreenCell) (overlay : option ViewportOverlay) (col row : Z) : ScreenCell :=
  let base := normalizeScreenCellInPlace base in
  match overlay with
  | None => base
  | Some overlay =>
      let base := match copyModeHighlightAt overlay row col with
                  | Some HighlightSelection => onStyle (setBg (Some (BasicColor 4))) base
                  | Some HighlightSearchMatch => onStyle (setBg (Some (BasicColor 3))) base
                  | Some HighlightCurrentMatch => onStyle (fun s => addAttrs AttrBold (setBg (Some (BasicColor 11)) s)) base
                  | None => base
                  end in
      if bool_decide (overlayCursor overlay = (col, row)) then onStyle (addAttrs AttrReverse) base else base
  end.

Definition paneContentCellAt `{Glyphs} (row : Z) (active : bool) (pd : PaneData) (overlay : option ViewportOverlay) (col : Z) : ScreenCell :=
  applyCopyModeOverlay (CellAt pd col row active) overlay col row.
Definition paneContentCellAtInto `{Glyphs} (row : Z) (active : bool) (reader : Z -> Z -> bool -> bytes * Link * Style * Z)
    (overlay : option ViewportOverlay) (col : Z) : ScreenCell :=
  let '(char, link, style, width) := reader col row active in
  applyCopyModeOverlay (normalizeScreenCellInPlace (mkCell char link style width)) overlay col row.

(** ** Packing

    The functions work on any source of the cells of a row.  The lookahead is
    the cell that ended the last cluster, with its column. *)
Definition cellWithLookahead `{Colors} (at' : Z -> ScreenCell) (col : Z) (la : option (Z * ScreenCell)) : ScreenCell * option (Z * ScreenCell) :=
  match la with
  | Some (c, cell) => if c =? col then (cell, None) else (at' col, la)
  | None => (at' col, None)
  end.
Definition skipped `{Colors} (c : ScreenCell) : bool := (cWidth c =? 0) && bool_decide (Char c = space).
Definition atLeastOne (w : Z) : Z := if w <=? 0 then 1 else w.
Definition oneASCII (s : bytes) : bool := match s with [c] => c <? 0x80 | _ => false end.
Definition asciiCellsCannotMerge (candidate next : bytes) : bool := oneASCII candidate && oneASCII next.
Definition zeroWidthJoiner : bytes := [0xE2; 0x80; 0x8D].

Record merging `{Colors} := mkMerging { mCell : ScreenCell; mWidth : Z; mNext : Z; mLook : option (Z * ScreenCell) }.
Arguments mkMerging {_}.
(** The cluster of a candidate and the next character, with a joiner between
    them where that makes one. *)
Definition joined `{Glyphs} (candidate next : bytes) : option (bytes * Z) :=
  let concat := candidate ++ next in
  let '(cluster, w) := FirstGraphemeCluster concat in
  if bool_decide (cluster = concat) then Some (concat, w)
  else
    let zwjConcat := candidate ++ zeroWidthJoiner ++ next in
    let '(cluster, w) := FirstGraphemeCluster zwjConcat in
    if bool_decide (cluster = zwjConcat) then Some (zwjConcat, w) else None.
Definition compactStep `{Glyphs} (width : Z) (at' : Z -> ScreenCell) (m : merging) : option (merging + merging) :=
  Some (if mNext m <? width then
    let next := at' (mNext m) in
    let stop := inr (mkMerging (mCell m) (mWidth m) (mNext m) (Some (mNext m, next))) in
    if skipped next then inl (mkMerging (mCell m) (mWidth m) (mNext m + 1) (mLook m))
    else if bool_decide (Char next = space) || negb (styleEqual (cStyle (mCell m)) (cStyle next)) || negb (linkEqual (cLink (mCell m)) (cLink next)) then stop
    else if asciiCellsCannotMerge (Char (mCell m)) (Char next) then stop
    else match joined (Char (mCell m)) (Char next) with
         | None => stop
         | Some (text, w) => inl (mkMerging (mkCell text (cLink (mCell m)) (cStyle (mCell m)) w) w (mNext m + atLeastOne (cWidth next)) (mLook m))
         end
  else inr m).
Definition compactRowCell `{Glyphs} (width : Z) (at' : Z -> ScreenCell) (srcCol : Z) (base : ScreenCell) (la : option (Z * ScreenCell)) : option merging :=
  loop (S (Z.to_nat (width - srcCol))) (compactStep width at') (mkMerging base (atLeastOne (cWidth base)) (srcCol + atLeastOne (cWidth base)) la).

(** ** Rows

    What is written into a row, by column: a packed cell with its
    continuations.  On the fast path a cell that does not fit has been written
    in place and is blanked again. *)
Record rowState `{Colors} := mkRowState { srcCol : Z; dstCol : Z; look : option (Z * ScreenCell); puts : list (Z * ScreenCell) }.
Arguments mkRowState {_}.
Definition continuations `{Colors} (width dst w : Z) (cell : ScreenCell) : list (Z * ScreenCell) :=
  map (fun i => (dst + i, writeContinuationCell cell)) (filter (fun i => dst + i < width) (seqZ 1 (w - 1))).
Definition rowStep `{Glyphs} (into : bool) (width : Z) (at' : Z -> ScreenCell) (s : rowState) : option (rowState + list (Z * ScreenCell)) :=
  if (srcCol s <? width) && (dstCol s <? width) then
    let '(sc, la) := cellWithLookahead at' (srcCol s) (look s) in
    if skipped sc then Some (inl (mkRowState (srcCol s + 1) (dstCol s) la (puts s)))
    else
      m ← compactRowCell width at' (srcCol s) sc la;
      let w := atLeastOne (mWidth m) in
      Some (if width - dstCol s <? w then inr (puts s ++ (if into then [(dstCol s, mCell m); (dstCol s, blankScreenCell)] else []))
            else inl (mkRowState (mNext m) (dstCol s + w) (mLook m) (puts s ++ (dstCol s, mCell m) :: continuations width (dstCol s) w (mCell m))))
  else Some (inr (puts s)).
Definition contentPuts `{Glyphs} (into : bool) (width : Z) (at' : Z -> ScreenCell) : option (list (Z * ScreenCell)) :=
  loop (S (Z.to_nat width)) (rowStep into width at') (mkRowState 0 0 None []).

(** The puts of a row of a pane, on the path its data offers. *)
Definition panePuts `{Glyphs} (width row : Z) (active : bool) (pd : PaneData) (overlay : option ViewportOverlay) : option (list (Z * ScreenCell)) :=
  match CellFieldsAt pd with
  | Some reader => contentPuts true width (paneContentCellAtInto row active reader overlay)
  | None => contentPuts false width (paneContentCellAt row active pd overlay)
  end.
Definition paneContentRowCells `{Glyphs} (width row : Z) (active : bool) (pd : PaneData) (overlay : option ViewportOverlay) : option (list ScreenCell) :=
  ps ← panePuts width row active pd overlay;
  Some (fold_left (fun row '(i, c) => <[Z.to_nat i := c]> row) ps (repeat blankScreenCell (Z.to_nat width))).

(** ** Composing a pane

    Every step changes one cell of the grid, which the cell's address is taken
    for: a column, a row and the change. *)
Definition cellOp `{Colors} := (Z * Z * (ScreenCell -> ScreenCell))%type.
Definition put `{Colors} (x y : Z) (c : ScreenCell) : cellOp := (x, y, fun _ => c).
Definition buildPaneContentCells `{Glyphs} (r : Rect) (row : Z) (active : bool) (pd : PaneData) (overlay : option ViewportOverlay) : option (list cellOp) :=
  let y := rY r + StatusLineRows + row in
  ps ← panePuts (rW r) row active pd overlay;
  Some (map (fun col => put (rX r + col) y blankScreenCell) (seqZ 0 (rW r)) ++ map (fun '(i, c) => put (rX r + i) y c) ps).
Definition applyPaneContentBackground `{Colors} (r : Rect) (contentH : Z) (bg : option Color) : list cellOp :=
  match bg with
  | None => []
  | Some bg =>
      seqZ 0 contentH ≫= fun row => map (fun col => (rX r + col, rY r + StatusLineRows + row,
        fun c => match Bg (cStyle c) with None => onStyle (setBg (Some bg)) c | Some _ => c end)) (seqZ 0 (rW r))
  end.
Definition clearPaneContentRows `{Colors} (gridHeight : Z) (r : Rect) (startRow endRow : Z) : list cellOp :=
  seqZ startRow (endRow - startRow) ≫= fun row =>
    let y := rY r + StatusLineRows + row in
    if (y <? 0) || (gridHeight <=? y) then [] else map (fun col => put (rX r + col) y blankScreenCell) (seqZ 0 (rW r)).
Definition visibleContentHeight (r : Rect) (layoutHeight : Z) : Z :=
  let contentH := PaneContentHeight (rH r) in
  let maxVisible := layoutHeight - rY r - StatusLineRows in
  if maxVisible <? 0 then 0 else if maxVisible <? contentH then maxVisible else contentH.

(** A pane to compose: its rectangle, its data, the cells of its status line
    and their filler, the tint of its background. *)
Record paneComposite `{Colors} := mkComposite {
  pcRect : Rect; pcData : PaneData; pcActive : bool; pcOverlay : option ViewportOverlay;
  pcStatus : list ScreenCell; pcFill : ScreenCell; pcTint : option Color }.
Arguments mkComposite {_}.
Definition buildStatusCells `{Colors} (p : paneComposite) : list cellOp :=
  map (fun i => put (rX (pcRect p) + i) (rY (pcRect p)) (default (pcFill p) (pcStatus p !! Z.to_nat i))) (seqZ 0 (rW (pcRect p))).
Definition composePane `{Glyphs} (gridHeight layoutHeight : Z) (p : paneComposite) : option (list cellOp) :=
  let r := pcRect p in
  let contentH := visibleContentHeight r layoutHeight in
  content ← mapM (fun row => buildPaneContentCells r row (pcActive p) (pcData p) (pcOverlay p)) (seqZ 0 contentH);
  Some (buildStatusCells p ++ concat content ++ applyPaneContentBackground r contentH (pcTint p) ++
        clearPaneContentRows gridHeight r contentH (PaneContentHeight (rH r))).

(** One step on the grid, and a run of steps; the notes a debug grid takes of
    cells outside of it are left out. *)
Definition doOp `{Colors} (op : cellOp) (h : heap) (g : ScreenGrid) : option (heap * ScreenGrid) :=
  let '(x, y, f) := op in
  '(h, g, dst) ← cellForWrite x y h g;
  Some (match dst with Some a => updateCell a f h | None => h end, g).
Fixpoint doOps `{Colors} (ops : list cellOp) (h : heap) (g : ScreenGrid) : option (heap * ScreenGrid) :=
  match ops with [] => Some (h, g) | op :: ops => '(h, g) ← doOp op h g; doOps ops h g end.
