(* ===== verification/PaneRowFacts.v ===== *)
(** * Packed rows and composed panes

    Packing ends on any source of cells; on cells a terminal can show, it gives a
    row that a terminal can show, the same one on both paths.  Steps of several
    programs, interleaved, and their effect on a grid. *)

From S2P Require Import Prelude LayoutSizes LayoutTree LayoutFacts LayoutEdit LayoutTiling WindowState GoText GoCodec GoRunes CopyMode CopyOverlay.
From S2P Require Import ScreenGrid ScreenEmit ScreenTerm ScreenFacts ScreenHeap PaneRows.

(** A cell a pane may give: a cell without width is the continuation of a wide
    one and holds a space. *)
Definition goodCell `{Terminal} (c : ScreenCell) : Prop :=
  Char c <> [] /\ (cLink c = zeroLink \/ URL (cLink c) <> []) /\
  ((cWidth c = 0 /\ Char c = space) \/ ((cWidth c = 1 \/ cWidth c = 2) /\ termWidth (Char c) = cWidth c)).
(** A blank fills its column. *)
Class GlyphLaws `{Glyphs} `{!Terminal} := { space_width : termWidth space = 1 }.
(** The texts that joining the characters of some cells can give, and that the
    clusters among them fill one or two columns, as the terminal counts them.
    A cluster of another width (a lone combining mark has none) is kept as it is
    by the code and not shown by a terminal that counts so. *)
Inductive madeOf `{Colors} (at' : Z -> ScreenCell) : bytes -> Prop :=
| made_char col : madeOf at' (Char (at' col))
| made_next s col : madeOf at' s -> madeOf at' (s ++ Char (at' col))
| made_joined s col : madeOf at' s -> madeOf at' (s ++ zeroWidthJoiner ++ Char (at' col)).
Definition clustersOK `{Glyphs} `{!Terminal} (at' : Z -> ScreenCell) : Prop :=
  forall s w, madeOf at' s -> FirstGraphemeCluster s = (s, w) -> s <> [] -> termWidth s = w /\ (w = 1 \/ w = 2).
Lemma madeOf_ext `{Colors} a b s : (forall col, Char (a col) = Char (b col)) -> madeOf a s -> madeOf b s.
Proof. intros E. induction 1; rewrite ?E; by constructor. Qed.

(** A row as a function, with puts over it. *)
Definition putsOver `{Colors} (ps : list (Z * ScreenCell)) (f : Z -> ScreenCell) : Z -> ScreenCell :=
  fold_left (fun f '(i, c) => fun x => if x =? i then c else f x) ps f.
Definition blankRow `{Colors} : Z -> ScreenCell := fun _ => blankScreenCell.

Lemma putsOver_app `{Colors} a b f : putsOver (a ++ b) f = putsOver b (putsOver a f).
Proof. apply fold_left_app. Qed.

Section Packing.
Context `{GlyphLaws}.
Context (width : Z) (at' : Z -> ScreenCell).

Definition lookOK (la : option (Z * ScreenCell)) : Prop := forall c cell, la = Some (c, cell) -> cell = at' c.
Lemma cellWithLookahead_at col la : lookOK la -> fst (cellWithLookahead at' col la) = at' col /\ lookOK (snd (cellWithLookahead at' col la)).
Proof.
  intros Hla. unfold cellWithLookahead. destruct la as [[c cell]|]; [|by split].
  destruct (Z.eqb_spec c col) as [->|]; cbn; [|done]. split; [by apply Hla|done].
Qed.

Definition packed (c : ScreenCell) (w : Z) : Prop := cWidth c = w /\ (w = 1 \/ w = 2) /\ termWidth (Char c) = w /\ Char c <> [] /\
  (cLink c = zeroLink \/ URL (cLink c) <> []).
Lemma joined_width a col s w : clustersOK at' -> madeOf at' a -> joined a (Char (at' col)) = Some (s, w) -> a <> [] ->
  termWidth s = w /\ (w = 1 \/ w = 2) /\ s <> [] /\ madeOf at' s.
Proof.
  intros Hok Hm Hj Ha. set (b := Char (at' col)) in *. assert (Hne : forall x : bytes, a ++ x <> []) by (destruct a; done). unfold joined in Hj.
  destruct (FirstGraphemeCluster (a ++ b)) as [c1 w1] eqn:E1. case_bool_decide as Hc1.
  - injection Hj as <- <-. subst c1. assert (Hs : madeOf at' (a ++ b)) by (by constructor). destruct (Hok _ _ Hs E1 (Hne b)) as [? ?]. by split_and!.
  - destruct (FirstGraphemeCluster (a ++ zeroWidthJoiner ++ b)) as [c2 w2] eqn:E2. case_bool_decide as Hc2; [|done].
    injection Hj as <- <-. subst c2. assert (Hs : madeOf at' (a ++ zeroWidthJoiner ++ b)) by (by constructor).
    destruct (Hok _ _ Hs E2 (Hne _)) as [? ?]. by split_and!.
Qed.

(** A cluster ends after the column it started in. *)
Lemma compactRowCell_total srcCol la : lookOK la -> let base := at' srcCol in
  exists m, compactRowCell width at' srcCol base la = Some m /\ srcCol < mNext m /\ lookOK (mLook m) /\
    (clustersOK at' -> packed base (cWidth base) -> packed (mCell m) (mWidth m)).
Proof.
  intros Hla base. unfold compactRowCell. assert (Hone : forall w, 1 <= atLeastOne w) by (intros w; unfold atLeastOne; destruct (w <=? 0) eqn:E; lia).
  set (Inv := fun m : merging => srcCol < mNext m /\ lookOK (mLook m) /\ 
    (clustersOK at' -> packed base (cWidth base) -> packed (mCell m) (mWidth m) /\ madeOf at' (Char (mCell m)))).
  set (m0 := mkMerging _ _ _ _).
  assert (H0' : Inv m0).
  { split; [cbn; pose proof (Hone (cWidth base)); lia|]. split; [done|]. intros _ Hp. split; [|constructor]. cbn. unfold atLeastOne.
    destruct Hp as (E1 & E2 & E3). rewrite (proj2 (Z.leb_gt (cWidth base) 0)) by lia. by split. }
  destruct (loop_total Inv (fun m => Z.max 0 (width - mNext m)) Inv (compactStep width at')) with (fuel := S (Z.to_nat (width - srcCol))) (a := m0)
    as (b & E & Hb1 & Hb2 & Hb3); [|done| |exists b; by split_and!; [..|intros ? ?; apply Hb3]].
  - intros m (M1 & M2 & M3). unfold compactStep. eexists. split; [done|]. destruct (mNext m <? width) eqn:En; [|done].
    assert (Hstop : Inv (mkMerging (mCell m) (mWidth m) (mNext m) (Some (mNext m, at' (mNext m))))) by (split; [done|split; [intros ? ? [= <- <-]; done|done]]).
    destruct (skipped (at' (mNext m))); [split; [split; [cbn; lia|by split]|cbn; lia]|].
    destruct (_ || _); [done|]. destruct (asciiCellsCannotMerge _ _); [done|]. destruct (joined _ _) as [[text w]|] eqn:Ej; [|done].
    pose proof (Hone (cWidth (at' (mNext m)))). split; [split; [cbn; lia|split; [done|]]|cbn; lia].
    intros Hok Hp. destruct (M3 Hok Hp) as ((P1 & P2 & P3 & P4 & P5) & P6).
    destruct (joined_width _ _ _ _ Hok P6 Ej P4) as (J1 & J2 & J3 & J4). cbn. by split_and!.
  - cbn. pose proof (Hone (cWidth base)). lia.
Qed.

(** ** The loop over a row *)
Definition rowInv (s : rowState) : Prop :=
  0 <= srcCol s /\ 0 <= dstCol s /\ lookOK (look s) /\ (forall x, dstCol s <= x -> putsOver (puts s) blankRow x = blankScreenCell).
Lemma continuations_over dst w c f x : dst + w <= width -> 1 <= w ->
  putsOver (continuations width dst w c) f x = if (dst <? x) && (x <? dst + w) then writeContinuationCell c else f x.
Proof.
  intros Hw Hw1. unfold continuations.
  assert (Hall : forall n, (0 <= n < w) -> putsOver (map (fun i => (dst + i, writeContinuationCell c)) (filter (fun i => dst + i < width) (seqZ 1 n))) f x =
    if (dst <? x) && (x <? dst + 1 + n) then writeContinuationCell c else f x).
  { intros n Hn. replace n with (Z.of_nat (Z.to_nat n)) by lia. assert (Hk : Z.of_nat (Z.to_nat n) < w) by lia. revert Hk.
    generalize (Z.to_nat n) as k. clear n Hn. induction k as [|k IH]; intros Hk.
    - rewrite seqZ_nil by lia. cbn. destruct (dst <? x) eqn:E1, (x <? dst + 1 + 0) eqn:E2; try done; zb; try done; lia.
    - rewrite seqZ_S, filter_app, map_app, putsOver_app. cbn [filter list_filter]. rewrite decide_True by lia. cbn [map putsOver fold_left].
      rewrite IH by lia. rewrite Nat2Z.inj_succ.
      destruct (Z.eqb_spec x (dst + (1 + Z.of_nat k))) as [->|Hne];
        [rewrite (proj2 (Z.ltb_lt dst _)), (proj2 (Z.ltb_lt (dst + (1 + Z.of_nat k)) (dst + 1 + Z.succ (Z.of_nat k)))) by lia; done|].
      replace (x <? dst + 1 + Z.succ (Z.of_nat k)) with (x <? dst + 1 + Z.of_nat k); [done|].
      destruct (x <? dst + 1 + Z.of_nat k) eqn:E1, (x <? dst + 1 + Z.succ (Z.of_nat k)) eqn:E2; try done; zb; lia. }
  rewrite Hall by lia. replace (dst + 1 + (w - 1)) with (dst + w) by lia. done.
Qed.
(** A cell and its continuations. *)
Lemma put_over dst w c f x : dst + w <= width -> 1 <= w ->
  putsOver ((dst, c) :: continuations width dst w c) f x =
  if x =? dst then c else if (dst <? x) && (x <? dst + w) then writeContinuationCell c else f x.
Proof.
  intros Hw H1'. change (putsOver ((dst, c) :: _) f x) with (putsOver (continuations width dst w c) (fun x => if x =? dst then c else f x) x).
  rewrite continuations_over by done. destruct (Z.eqb_spec x dst) as [->|]; [|done]. by rewrite Z.ltb_irrefl.
Qed.

Lemma rowStep_next into s : rowInv s -> srcCol s < width -> dstCol s < width ->
  (exists s', rowStep into width at' s = Some (inl s') /\ rowInv s' /\ srcCol s < srcCol s' /\
     ((dstCol s' = dstCol s /\ puts s' = puts s) \/
      (exists c w, skipped (at' (srcCol s)) = false /\ (clustersOK at' -> packed (at' (srcCol s)) (cWidth (at' (srcCol s))) -> packed c w) /\
         dstCol s' = dstCol s + atLeastOne w /\ dstCol s' <= width /\
         puts s' = puts s ++ (dstCol s, c) :: continuations width (dstCol s) (atLeastOne w) c))) \/
  (exists c, rowStep into width at' s = Some (inr (puts s ++ if into then [(dstCol s, c); (dstCol s, blankScreenCell)] else []))).
Proof.
  intros (S1 & S2 & S3 & S4) Hs Hd. unfold rowStep. rewrite (proj2 (Z.ltb_lt _ _) Hs), (proj2 (Z.ltb_lt _ _) Hd). cbn [andb].
  destruct (cellWithLookahead_at (srcCol s) (look s) S3) as [E Hla]. destruct (cellWithLookahead at' (srcCol s) (look s)) as [sc la]. cbn in E, Hla. subst sc.
  destruct (skipped (at' (srcCol s))) eqn:Esk.
  - left. eexists. split; [done|]. split; [by split_and!; cbn; try lia|]. split; [cbn; lia|]. by left.
  - destruct (compactRowCell_total (srcCol s) la Hla) as (m & -> & M1 & M2 & M3). cbn [mbind option_bind].
    assert (Hone : 1 <= atLeastOne (mWidth m)) by (unfold atLeastOne; destruct (mWidth m <=? 0) eqn:E; lia).
    destruct (width - dstCol s <? atLeastOne (mWidth m)) eqn:Ew; [right; by exists (mCell m)|left]. eexists. split; [done|].
    split; [|split; [done|right; exists (mCell m), (mWidth m); split_and!; try done; cbn; lia]].
    split; [cbn; lia|]. split; [cbn; lia|]. split; [done|]. cbn [puts dstCol]. intros x Hx. rewrite putsOver_app, put_over by lia.
    rewrite (proj2 (Z.eqb_neq x _)) by lia. destruct ((_ <? x) && (x <? _)) eqn:Ein; [lia|]. apply S4. lia.
Qed.

Lemma rowStep_end into s : ~ (srcCol s < width /\ dstCol s < width) -> rowStep into width at' s = Some (inr (puts s)).
Proof. intros Hn. unfold rowStep. destruct ((srcCol s <? width) && (dstCol s <? width)) eqn:E; [lia|done]. Qed.

(** The columns written so far are a row of their own. *)
Definition wfPrefix (s : rowState) : Prop := dstCol s <= width /\ forall x, 0 <= x < dstCol s ->
  let R := putsOver (puts s) blankRow in
  wfCell (R x) /\ (cWidth (R x) = 0 <-> 0 < x /\ cWidth (R (x - 1)) = 2) /\ (cWidth (R x) = 2 -> x + 1 < dstCol s).
Lemma packed_wf c w : packed c w -> wfCell c.
Proof.
  intros (E & Hw & Ht & Hne & Hl). right. rewrite E. split; [done|]. split; [|done].
  unfold charText. destruct (Char c) eqn:Ec; [done|]. by rewrite <- Ec in Ht |- *.
Qed.
Lemma blank_wf : wfCell blankScreenCell.
Proof. right. split; [by left|]. split; [apply space_width|by left]. Qed.

Lemma wfPrefix_next s c w : rowInv s -> wfPrefix s -> packed c w -> dstCol s + atLeastOne w <= width ->
  wfPrefix (mkRowState 0 (dstCol s + atLeastOne w) None (puts s ++ (dstCol s, c) :: continuations width (dstCol s) (atLeastOne w) c)).
Proof.
  intros (_ & Hd & _ & Hb) [Hle Hp] Hc Hfit. pose proof (packed_wf c w Hc) as Hcw. destruct Hc as (Ew & Hw & _).
  assert (Ha : atLeastOne w = w) by (unfold atLeastOne; by rewrite (proj2 (Z.leb_gt w 0)) by lia). rewrite Ha in *.
  split; [done|]. cbn [dstCol puts]. intros x Hx. cbn zeta. set (d := dstCol s) in *.
  assert (HR : forall i, putsOver (puts s ++ (d, c) :: continuations width d w c) blankRow i =
    if i =? d then c else if (d <? i) && (i <? d + w) then writeContinuationCell c else putsOver (puts s) blankRow i).
  { intros i. rewrite putsOver_app. apply put_over; lia. }
  rewrite !HR. destruct (Z.lt_trichotomy x d) as [Hlt|[->|Hgt]].
  - rewrite (proj2 (Z.eqb_neq x d)), (proj2 (Z.eqb_neq (x - 1) d)), (proj2 (Z.ltb_ge d x)), (proj2 (Z.ltb_ge d (x - 1))) by lia. cbn [andb].
    destruct (Hp x ltac:(lia)) as (P1 & P2 & P3). split_and!; [done|done|intros E; specialize (P3 E); lia].
  - rewrite Z.eqb_refl, (proj2 (Z.eqb_neq (d - 1) d)), (proj2 (Z.ltb_ge d (d - 1))) by lia. cbn [andb]. split; [done|]. split; [|lia].
    split; [lia|]. intros [Hd0 E]. destruct (Hp (d - 1) ltac:(lia)) as (_ & _ & P3). specialize (P3 E). lia.
  - assert (x = d + 1 /\ w = 2) as [-> ->] by lia. rewrite (proj2 (Z.eqb_neq (d + 1) d)), (proj2 (Z.ltb_lt d (d + 1))), (proj2 (Z.ltb_lt (d + 1) (d + 2))) by lia.
    replace (d + 1 - 1) with d by lia. rewrite Z.eqb_refl. cbn [andb writeContinuationCell cWidth]. split; [by left|]. split; [|lia]. split; [lia|done].
Qed.
Lemma wfPrefix_end s : rowInv s -> wfPrefix s -> wfRow width (putsOver (puts s) blankRow).
Proof.
  intros (_ & Hd & _ & Hb) [Hle Hp] x Hx. destruct (decide (x < dstCol s)).
  - destruct (Hp x ltac:(lia)) as (P1 & P2 & P3). split; [done|]. split; [done|]. intros E. specialize (P3 E). lia.
  - rewrite (Hb x) by lia. split; [apply blank_wf|]. split; [|done]. split; [done|]. intros [H0x E]. exfalso.
    destruct (decide (x - 1 < dstCol s)); [destruct (Hp (x - 1) ltac:(lia)) as (_ & _ & P3); specialize (P3 E); lia|].
    rewrite Hb in E by lia. done.
Qed.

Lemma rowStep_paths s : 
  match rowStep true width at' s, rowStep false width at' s with
  | Some (inl a), Some (inl b) => a = b
  | Some (inr a), Some (inr b) => b = puts s /\ (a = b \/ exists c, a = b ++ [(dstCol s, c); (dstCol s, blankScreenCell)])
  | None, None => True
  | _, _ => False
  end.
Proof.
  unfold rowStep. destruct ((srcCol s <? width) && (dstCol s <? width)); [|by auto].
  destruct (cellWithLookahead at' (srcCol s) (look s)) as [sc la]. destruct (skipped sc); [done|].
  destruct (compactRowCell width at' (srcCol s) sc la) as [m|]; cbn [mbind option_bind]; [|done].
  destruct (width - dstCol s <? atLeastOne (mWidth m)); [|done]. rewrite app_nil_r. split; [done|]. right. by exists (mCell m).
Qed.

Definition goodSource : Prop := (forall c, goodCell (at' c)) /\ clustersOK at'.
Lemma goodCell_packed c : goodCell c -> skipped c = false -> packed c (cWidth c).
Proof.
  intros (Hne & Hl & [[E1 E2]|[Hw Ht]]) Hs; [|by split_and!].
  unfold skipped in Hs. by rewrite E1, E2 in Hs.
Qed.

(** Both paths end with the same row, and on good cells it can be shown. *)
Lemma contentPuts_spec : exists pt pf, contentPuts true width at' = Some pt /\ contentPuts false width at' = Some pf /\
  (forall x, putsOver pt blankRow x = putsOver pf blankRow x) /\ (goodSource -> 0 <= width -> wfRow width (putsOver pf blankRow)).
Proof.
  assert (Hgen : forall fuel s, rowInv s -> Z.max 0 (width - srcCol s) < Z.of_nat fuel -> (goodSource -> 0 <= width -> wfPrefix s) ->
    exists pt pf, loop fuel (rowStep true width at') s = Some pt /\ loop fuel (rowStep false width at') s = Some pf /\
      (forall x, putsOver pt blankRow x = putsOver pf blankRow x) /\ (goodSource -> 0 <= width -> wfRow width (putsOver pf blankRow))).
  { induction fuel as [|fuel IH]; intros s Hinv Hm Hwf; [lia|]. cbn [loop]. pose proof (rowStep_paths s) as Hpaths.
    assert (Hend : forall a b, b = puts s /\ (a = b \/ exists c, a = b ++ [(dstCol s, c); (dstCol s, blankScreenCell)]) ->
      (forall x, putsOver a blankRow x = putsOver b blankRow x) /\ (goodSource -> 0 <= width -> wfRow width (putsOver b blankRow))).
    { intros a b [-> Hab]. split; [|intros Hg Hw; apply wfPrefix_end; auto]. intros x. destruct Hab as [->|[c ->]]; [done|].
      rewrite putsOver_app. cbn. destruct (Z.eqb_spec x (dstCol s)) as [->|]; [|done]. symmetry. apply Hinv. lia. }
    destruct (decide (srcCol s < width /\ dstCol s < width)) as [[Hs Hd]|Hn].
    - destruct (rowStep_next true s Hinv Hs Hd) as [(s' & E & Hi & Hlt & Hput)|[c E]]; rewrite E in Hpaths |- *;
        destruct (rowStep false width at' s) as [[b|b]|]; try done; cbn [mbind option_bind].
      + subst b. apply IH; [done|lia|]. intros Hg Hw. destruct Hput as [[E1 E2]|(c & w & Hsk & Hpk & E1 & E2 & E3)].
        * specialize (Hwf Hg Hw). unfold wfPrefix in *. by rewrite E1, E2.
        * pose proof (wfPrefix_next s c w Hinv (Hwf Hg Hw) (Hpk (proj2 Hg) (goodCell_packed _ (proj1 Hg _) Hsk)) ltac:(lia)) as Hnx.
          unfold wfPrefix in *. cbn [dstCol puts] in Hnx. by rewrite E1, E3.
      + eexists _, _. split; [done|]. split; [done|]. by apply Hend.
    - rewrite !rowStep_end by done. cbn [mbind option_bind]. eexists _, _. split; [done|]. split; [done|]. by apply Hend; auto. }
  unfold contentPuts. apply Hgen; [|cbn; lia|].
  - split; [done|]. split; [done|]. split; [done|]. done.
  - intros _ Hw. split; [done|]. cbn. lia.
Qed.

(** Puts stay inside the row. *)
Lemma contentPuts_inside into ps : contentPuts into width at' = Some ps -> Forall (fun e => 0 <= e.1 < width) ps.
Proof.
  unfold contentPuts. assert (Hgen : forall fuel s, rowInv s -> Forall (fun e => 0 <= e.1 < width) (puts s) ->
    loop fuel (rowStep into width at') s = Some ps -> Forall (fun e => 0 <= e.1 < width) ps).
  { induction fuel as [|fuel IH]; intros s Hinv Hf E; [done|]. cbn [loop] in E.
    destruct (decide (srcCol s < width /\ dstCol s < width)) as [[Hs Hd]|Hn]; [|rewrite rowStep_end in E by done; cbn in E; by injection E as <-].
    pose proof Hinv as (_ & Hd0 & _). destruct (rowStep_next into s Hinv Hs Hd) as [(s' & Es & Hi & _ & Hput)|[c Es]]; rewrite Es in E; cbn [mbind option_bind] in E.
    - apply (IH s' Hi); [|done]. destruct Hput as [[_ ->]|(c & w & _ & _ & E1 & E2 & ->)]; [done|]. apply Forall_app. split; [done|].
      constructor; [cbn; lia|]. unfold continuations. apply Forall_fmap, Forall_forall. intros i [Hi1 Hi2%elem_of_seqZ]%list_elem_of_filter. cbn. lia.
    - injection E as <-. apply Forall_app. split; [done|]. destruct into; repeat constructor; cbn; lia. }
  apply Hgen; [|by constructor]. split; [done|]. split; [done|]. by split.
Qed.
End Packing.

(** ** Composing the panes of a frame

    The panes of a frame are composed one after the other, or by goroutines
    that run at the same time.  Every pane's steps stay inside its rectangle and
    the leaves of a layout do not overlap, so the steps can be interleaved in any
    way. *)

(** The schedules of some programs: the next step is that of any of them. *)
Inductive interleaved {A} : list (list A) -> list A -> Prop :=
| interleaved_done ls : Forall (fun l => l = []) ls -> interleaved ls []
| interleaved_step ls i a l sched : ls !! i = Some (a :: l) -> interleaved (<[i := l]> ls) sched -> interleaved ls (a :: sched).

Lemma interleaved_filter {A} (P : A -> Prop) `{!forall a, Decision (P a)} ls sched k : interleaved ls sched ->
  (forall i l, ls !! i = Some l -> i <> k -> Forall (fun a => ~ P a) l) ->
  filter P sched = filter P (default [] (ls !! k)).
Proof.
  induction 1 as [ls Hnil|ls i a l sched Hi Hr IH]; intros Hk.
  - destruct (ls !! k) as [l|] eqn:E; [|done]. apply (Forall_lookup_1 _ _ _ _ Hnil) in E. cbn in E. by subst.
  - assert (Hsub : forall j l', <[i := l]> ls !! j = Some l' -> j <> k -> Forall (fun a => ~ P a) l').
    { intros j l' Hj Hne. destruct (decide (i = j)) as [->|Hij].
      - rewrite list_lookup_insert_eq in Hj by (by apply lookup_lt_Some in Hi). injection Hj as <-.
        specialize (Hk j (a :: l) Hi Hne). by apply Forall_cons in Hk as [_ ?].
      - rewrite list_lookup_insert_ne in Hj by done. eauto. }
    rewrite filter_cons, (IH Hsub). destruct (decide (i = k)) as [->|Hne].
    + rewrite list_lookup_insert_eq by (by apply lookup_lt_Some in Hi). rewrite Hi. cbn [default from_option id]. rewrite filter_cons. done.
    + rewrite list_lookup_insert_ne by done. specialize (Hk i (a :: l) Hi Hne). apply Forall_cons in Hk as [Hna _]. by rewrite decide_False.
Qed.
Lemma interleaved_Forall {A} (P : A -> Prop) ls sched : interleaved ls sched -> Forall (Forall P) ls -> Forall P sched.
Proof.
  induction 1 as [|ls i a l sched Hi Hr IH]; intros Hf; [constructor|]. pose proof (Forall_lookup_1 _ _ _ _ Hf Hi) as Hal. apply Forall_cons in Hal as [Ha Hl].
  constructor; [done|]. apply IH. by apply Forall_insert.
Qed.
(** Where no two programs have steps of a kind, every schedule has them in the
    same order. *)
Lemma interleaved_agree {A} (P : A -> Prop) `{!forall a, Decision (P a)} ls s s' : interleaved ls s -> interleaved ls s' ->
  (forall i j l l', ls !! i = Some l -> ls !! j = Some l' -> Exists P l -> Exists P l' -> i = j) -> filter P s = filter P s'.
Proof.
  intros Hs Hs' Hone.
  assert (Hk : exists k, forall i l, ls !! i = Some l -> i <> k -> Forall (fun a => ~ P a) l).
  { destruct (decide (Exists (Exists P) ls)) as [Hex|Hex].
    - apply Exists_exists in Hex as (l & Hin & Hl). apply list_elem_of_lookup in Hin as [k Hkl]. exists k.
      intros i l' Hi Hne. apply not_Exists_Forall; [apply _|]. intros Hl'. apply Hne. by apply (Hone i k l' l).
    - exists (length ls). intros i l Hi _. apply not_Exists_Forall; [apply _|]. intros Hl. apply Hex, Exists_exists. exists l.
      split; [by eapply list_elem_of_lookup_2|done]. }
  destruct Hk as [k Hk]. by rewrite (interleaved_filter P ls s k Hs Hk), (interleaved_filter P ls s' k Hs' Hk).
Qed.
(** One after the other is a schedule. *)
Lemma interleaved_concat {A} (ls : list (list A)) : interleaved ls (concat ls).
Proof.
  assert (Hgen : forall (n : nat) pre (ls : list (list A)), Forall (fun l => l = []) pre -> length (concat ls) = n -> interleaved (pre ++ ls) (concat ls)).
  { clear ls. induction n as [|n IH]; intros pre ls Hpre Hn.
    - assert (Hls : Forall (fun l : list A => l = []) ls).
      { clear -Hn. induction ls as [|l ls IH]; [done|]. cbn in Hn. rewrite length_app in Hn. destruct l; [|cbn in Hn; lia]. constructor; auto. }
      replace (concat ls) with (@nil A) by (by apply length_zero_iff_nil in Hn). apply interleaved_done. by apply Forall_app.
    - revert pre Hpre Hn. induction ls as [|l ls IHl]; intros pre Hpre Hn; [done|]. destruct l as [|a l].
      + cbn in *. replace (pre ++ [] :: ls) with ((pre ++ [[]]) ++ ls) by (by rewrite <- app_assoc). apply IHl; [|done].
        apply Forall_app. split; [done|by repeat constructor].
      + cbn. eapply (interleaved_step _ (length pre)); [by apply list_lookup_middle|].
        rewrite insert_app_r_alt, Nat.sub_diag by lia. cbn. apply (IH pre (l :: ls)); [done|]. cbn in *. lia. }
  apply (Hgen (length (concat ls)) []); done.
Qed.

(** ** Steps on the grid *)
Section Steps.
Context `{Colors}.
Definition opAt (op : cellOp) (x y : Z) : Prop := op.1.1 = x /\ op.1.2 = y.
#[export] Instance opAt_dec op x y : Decision (opAt op x y).
Proof. unfold opAt. apply _. Defined.
Definition opsOver (ops : list cellOp) (f : Z -> Z -> ScreenCell) : Z -> Z -> ScreenCell := fun y x =>
  fold_left (fun c op => if decide (opAt op x y) then op.2 c else c) ops (f y x).
Lemma opsOver_filter ops f y x : opsOver ops f y x = opsOver (filter (fun op => opAt op x y) ops) f y x.
Proof.
  unfold opsOver. generalize (f y x) as c. induction ops as [|op ops IH]; intros c; [done|]. rewrite filter_cons.
  destruct (decide (opAt op x y)) as [Ho|Ho]; cbn [fold_left]; [rewrite !decide_True by done|rewrite !decide_False by done]; apply IH.
Qed.

Lemma rowForWrite_own h g y : inGrid g y -> writable g y -> rowForWrite y h g = (h, g, rowForRead g y).
Proof.
  intros Hy Hw. unfold rowForWrite. destruct (gRows g) as [rows|] eqn:E; [|done].
  destruct Hw as [?|(owned & -> & Ho)]; [congruence|]. rewrite Ho. cbn. by rewrite (rowForRead_rows g rows).
Qed.
(** A step on a row the grid owns: one cell changes and nothing is copied. *)
Lemma doOp_spec n h g op : GridInv n h g -> (inGrid g op.1.2 -> writable g op.1.2) ->
  exists h', doOp op h g = Some (h', g) /\ GridInv n h' g /\ (forall i, (i < n)%nat -> h' !! i = h !! i) /\
    forall y x, inGrid g y -> 0 <= x < gWidth g -> gridCell h' g y x = opsOver [op] (gridCell h g) y x.
Proof.
  destruct op as [[x y] u]. cbn [fst snd]. intros Hinv Hw. unfold doOp, cellForWrite.
  assert (Hov : forall f y' x', opsOver [(x, y, u)] f y' x' = if decide (y' = y /\ x' = x) then u (f y' x') else f y' x').
  { intros f y' x'. unfold opsOver, opAt. cbn. destruct (decide (x = x' /\ y = y')) as [[-> ->]|Hn]; [by rewrite decide_True|].
    rewrite decide_False; [done|]. intros [-> ->]. by apply Hn. }
  destruct ((0 <=? x) && (x <? gWidth g) && (0 <=? y) && (y <? gHeight g)) eqn:Ein.
  - apply andb_true_iff in Ein as [[[E1 E2]%andb_true_iff E3]%andb_true_iff E4]. assert (Hy : inGrid g y) by (unfold inGrid; lia).
    specialize (Hw Hy). rewrite rowForWrite_own by done. destruct (gi_rows n h g Hinv y Hy) as (r & Er & Hr). rewrite Er.
    destruct Hr as (R1 & R2 & _). rewrite R2, E2. cbn [mbind option_bind].
    destruct (GridInv_update n h g y r x u Hinv Hy Hw Er) as (I1 & _ & I3 & I4); [lia|]. eexists. split; [done|]. split; [exact I1|]. split; [exact I3|].
    intros y' x' Hy' Hx'. rewrite Hov, I4 by done. destruct (decide _) as [[-> ->]|]; done.
  - eexists. split; [done|]. split; [done|]. split; [done|]. intros y' x' Hy' Hx'. rewrite Hov, decide_False; [done|].
    unfold inGrid in *. intros [-> ->]. lia.
Qed.
Lemma doOps_spec n ops h g : GridInv n h g -> Forall (fun op => inGrid g op.1.2 -> writable g op.1.2) ops ->
  exists h', doOps ops h g = Some (h', g) /\ GridInv n h' g /\ (forall i, (i < n)%nat -> h' !! i = h !! i) /\
    forall y x, inGrid g y -> 0 <= x < gWidth g -> gridCell h' g y x = opsOver ops (gridCell h g) y x.
Proof.
  revert h. induction ops as [|op ops IH]; intros h Hinv Hw; cbn [doOps]; [by exists h|].
  apply Forall_cons in Hw as [Hw Hws]. destruct (doOp_spec n h g op Hinv Hw) as (h1 & -> & I1 & K1 & C1). cbn [mbind option_bind].
  destruct (IH h1 I1 Hws) as (h2 & -> & I2 & K2 & C2). exists h2. split; [done|]. split; [done|]. split; [intros i Hi; by rewrite K2, K1|].
  intros y x Hy Hx. rewrite C2 by done. specialize (C1 y x Hy Hx). unfold opsOver in *. cbn [fold_left] in *. by rewrite C1.
Qed.
End Steps.
