(* ===== verification/PaneComposeProps.v ===== *)
(** * Properties of composed panes *)

From S2P Require Import Prelude LayoutSizes LayoutTree LayoutFacts LayoutEdit LayoutTiling WindowState GoText GoCodec GoRunes CopyMode CopyOverlay.
From S2P Require Import ScreenGrid ScreenEmit ScreenTerm ScreenFacts ScreenHeap ScreenFrame ScreenProps PaneRows PaneRowFacts.

Section Inside.
Context `{GlyphLaws}.

Definition opInside (r : Rect) (op : cellOp) : Prop := inRect op.1.1 op.1.2 r = true.
Lemma rowOps_inside r y l : (forall e, e ∈ l -> exists i c, e = (rX r + i, y, c) /\ 0 <= i < rW r) -> rY r <= y < rY r + rH r -> Forall (opInside r) l.
Proof. intros Hl Hy. apply Forall_forall. intros e (i & c & -> & Hi)%Hl. unfold opInside, inRect. cbn. lia. Qed.
Lemma blankOps_inside r y (f : Z -> ScreenCell -> ScreenCell) : rY r <= y < rY r + rH r ->
  Forall (opInside r) (map (fun col => (rX r + col, y, f col)) (seqZ 0 (rW r))).
Proof. intros Hy. apply (rowOps_inside r y); [|done]. intros e (i & -> & Hi%elem_of_seqZ)%list_elem_of_fmap. exists i, (f i). split; [done|lia]. Qed.

Lemma panePuts_spec width row active pd overlay : exists ps, panePuts width row active pd overlay = Some ps /\ Forall (fun e => 0 <= e.1 < width) ps.
Proof.
  unfold panePuts. destruct (CellFieldsAt pd) as [reader|].
  - destruct (contentPuts_spec width (paneContentCellAtInto row active reader overlay)) as (pt & _ & E & _). exists pt. split; [done|]. by apply contentPuts_inside in E.
  - destruct (contentPuts_spec width (paneContentCellAt row active pd overlay)) as (_ & pf & _ & E & _). exists pf. split; [done|]. by apply contentPuts_inside in E.
Qed.

Lemma mapM_all {A B} (f : A -> option B) (P : B -> Prop) l : (forall a, a ∈ l -> exists b, f a = Some b /\ P b) -> exists bs, mapM f l = Some bs /\ Forall P bs.
Proof.
  intros Hf. induction l as [|a l IH]; [by exists []|]. destruct (Hf a) as (b & Eb & Hb); [left|]. destruct IH as (bs & Ebs & Hbs); [intros; apply Hf; by right|].
  exists (b :: bs). cbn. rewrite Eb. cbn. rewrite Ebs. split; [done|by constructor].
Qed.
Lemma visible_le r layoutHeight : PaneMinSize <= rH r -> visibleContentHeight r layoutHeight <= rH r - 1 /\ PaneContentHeight (rH r) = rH r - 1.
Proof.
  unfold visibleContentHeight, PaneContentHeight, PaneMinSize, StatusLineRows. intros Hr. cbv zeta.
  rewrite (proj2 (Z.ltb_ge (rH r - 1) 1)) by lia. split; [|done].
  destruct (layoutHeight - rY r - 1 <? 0) eqn:E2; [lia|]. destruct (layoutHeight - rY r - 1 <? rH r - 1) eqn:E3; lia.
Qed.

Lemma visible_nonneg r layoutHeight : 0 <= visibleContentHeight r layoutHeight.
Proof.
  unfold visibleContentHeight, PaneContentHeight. cbv zeta. destruct (rH r - StatusLineRows <? 1) eqn:E1.
  all: destruct (layoutHeight - rY r - StatusLineRows <? 0) eqn:E2; [lia|].
  1: destruct (layoutHeight - rY r - StatusLineRows <? 1) eqn:E3; lia.
  destruct (layoutHeight - rY r - StatusLineRows <? rH r - StatusLineRows) eqn:E3; lia.
Qed.

(** The steps of a pane stay inside its rectangle. *)
Lemma composePane_inside gridHeight layoutHeight p : PaneMinSize <= rH (pcRect p) ->
  exists ops, composePane gridHeight layoutHeight p = Some ops /\ Forall (opInside (pcRect p)) ops.
Proof.
  intros Hr. destruct (visible_le (pcRect p) layoutHeight Hr) as [Hv Hc]. unfold PaneMinSize in Hr. unfold composePane.
  set (r := pcRect p) in *. set (contentH := visibleContentHeight r layoutHeight) in *.
  destruct (mapM_all (fun row => buildPaneContentCells r row (pcActive p) (pcData p) (pcOverlay p)) (Forall (opInside r)) (seqZ 0 contentH)) as (cs & E & Hcs).
  { intros row Hrow%elem_of_seqZ. unfold buildPaneContentCells. destruct (panePuts_spec (rW r) row (pcActive p) (pcData p) (pcOverlay p)) as (ps & -> & Hps).
    cbn [mbind option_bind]. eexists. split; [done|]. apply Forall_app. unfold StatusLineRows. split; [apply blankOps_inside; lia|].
    apply (rowOps_inside r (rY r + 1 + row)); [|lia]. intros e ([i c] & -> & Hin)%list_elem_of_fmap. exists i, (fun _ => c). split; [done|].
    exact (proj1 (Forall_forall _ _) Hps _ Hin). }
  rewrite E. cbn [mbind option_bind]. eexists. split; [done|]. apply Forall_app. split; [|apply Forall_app; split; [|apply Forall_app; split]].
  - unfold buildStatusCells. fold r. apply (blankOps_inside r (rY r) (fun col _ => default (pcFill p) (pcStatus p !! Z.to_nat col))). lia.
  - by apply Forall_concat.
  - unfold applyPaneContentBackground. destruct (pcTint p) as [bg|]; [|done]. apply Forall_bind, Forall_forall. intros row Hrow%elem_of_seqZ.
    unfold StatusLineRows. fold r. apply (blankOps_inside r (rY r + 1 + row) (fun _ c => match Bg (cStyle c) with None => onStyle (setBg (Some bg)) c | Some _ => c end)). lia.
  - unfold clearPaneContentRows. apply Forall_bind, Forall_forall. intros row Hrow%elem_of_seqZ. unfold StatusLineRows, compose. fold r. cbv beta zeta.
    case_match; [by constructor|]. apply blankOps_inside. rewrite Hc in Hrow.
    pose proof (visible_nonneg r layoutHeight) as Hn. fold contentH in Hn. lia.
Qed.

(** Panes of distinct leaves of a layout. *)
Definition leafPanes (root : LayoutCell) (panes : list paneComposite) : Prop :=
  exists paths, NoDup paths /\ Forall2 (fun p path => exists d, cellAt path root = Some (Leaf (pcRect p) d)) panes paths.
Lemma leafPanes_disjoint root panes i j p q x y : wf root -> positioned root -> leafPanes root panes ->
  panes !! i = Some p -> panes !! j = Some q -> inRect x y (pcRect p) = true -> inRect x y (pcRect q) = true -> i = j.
Proof.
  intros Hwf Hpos (paths & Hnd & Hf) Hi Hj Hx Hy.
  destruct (Forall2_lookup_l _ _ _ _ _ Hf Hi) as (pi & Ei & di & Ci). destruct (Forall2_lookup_l _ _ _ _ _ Hf Hj) as (pj & Ej & dj & Cj).
  pose proof (FindLeafAt_complete x y root pi _ _ Hwf Hpos Ci Hx). pose proof (FindLeafAt_complete x y root pj _ _ Hwf Hpos Cj Hy).
  apply (NoDup_lookup paths i j pi Hnd Ei). congruence.
Qed.
End Inside.

Section Rows.
Context `{GlyphLaws}.

Definition rowList (width : Z) (f : Z -> ScreenCell) : list ScreenCell := map f (seqZ 0 width).
Lemma rowList_at width f i : 0 <= i < width -> rowList width f !! Z.to_nat i = Some (f i).
Proof. intros Hi. unfold rowList. rewrite list_lookup_fmap, lookup_seqZ_lt by lia. cbn. do 2 f_equal. lia. Qed.
Lemma rowList_ext width f g : (forall i, 0 <= i < width -> f i = g i) -> rowList width f = rowList width g.
Proof. intros Hf. apply map_ext_in. intros i Hi%list_elem_of_In%elem_of_seqZ. apply Hf. lia. Qed.
Lemma puts_rowList width ps f : Forall (fun e => 0 <= e.1 < width) ps ->
  fold_left (fun row '(i, c) => <[Z.to_nat i := c]> row) ps (rowList width f) = rowList width (putsOver ps f).
Proof.
  revert f. induction ps as [|[i c] ps IH]; intros f Hps; [done|]. apply Forall_cons in Hps as [Hi Hps]. cbn in Hi. cbn [fold_left putsOver].
  etransitivity; [|by apply IH]. f_equal. apply list_eq. intros k. destruct (decide (Z.of_nat k < width)) as [Hk|Hk].
  - replace k with (Z.to_nat (Z.of_nat k)) by lia. rewrite rowList_at by lia. destruct (Z.eqb_spec (Z.of_nat k) i) as [->|Hne].
    + apply list_lookup_insert_eq. unfold rowList. rewrite length_fmap, length_seqZ. lia.
    + rewrite list_lookup_insert_ne by lia. by rewrite rowList_at by lia.
  - rewrite !lookup_ge_None_2; [done| |]; rewrite ?length_insert; unfold rowList; rewrite length_fmap, length_seqZ; lia.
Qed.
Lemma blank_rowList width : repeat blankScreenCell (Z.to_nat width) = rowList width blankRow.
Proof.
  unfold rowList. apply list_eq. intros k. rewrite list_lookup_fmap. destruct (decide (k < Z.to_nat width)%nat) as [Hk|Hk].
  - rewrite lookup_seqZ_lt by lia. cbn. unfold blankRow. assert (Hl : (k < length (repeat blankScreenCell (Z.to_nat width)))%nat) by (by rewrite repeat_length).
    destruct (lookup_lt_is_Some_2 _ _ Hl) as [c E]. rewrite E. by apply list_elem_of_lookup_2, list_elem_of_In, repeat_spec in E as ->.
  - rewrite lookup_seqZ_ge by lia. apply lookup_ge_None_2. rewrite repeat_length. lia.
Qed.
Lemma wfRow_ext W f g : (forall i, 0 <= i < W -> f i = g i) -> wfRow W f -> wfRow W g.
Proof.
  intros E Hf x Hx. rewrite <- (E x Hx). destruct (Hf x Hx) as (H1' & H2' & H3'). split; [done|]. split; [|done].
  destruct (decide (0 < x)); [rewrite <- (E (x - 1)) by lia; done|]. split; [intros Ez; apply H2' in Ez; lia|intros [? _]; lia].
Qed.

Lemma normalize_idem c : normalizeScreenCellInPlace (normalizeScreenCellInPlace c) = normalizeScreenCellInPlace c.
Proof. destruct c as [[|z s] l st w]; unfold normalizeScreenCellInPlace; cbn; destruct (w <? 0) eqn:E; rewrite ?E; done. Qed.
Lemma overlay_good c overlay col row : goodCell (normalizeScreenCellInPlace c) -> goodCell (applyCopyModeOverlay c overlay col row).
Proof.
  intros Hg. unfold applyCopyModeOverlay. destruct overlay as [o|]; [|done].
  assert (Hs : forall f c, goodCell c -> goodCell (onStyle f c)) by (intros f [ch l st w]; done).
  case_bool_decide; [apply Hs|]; destruct (copyModeHighlightAt o row col) as [[]|]; auto.
Qed.

Lemma overlay_char c overlay col row : Char (applyCopyModeOverlay c overlay col row) = Char (normalizeScreenCellInPlace c).
Proof.
  unfold applyCopyModeOverlay. destruct overlay as [o|]; [|done]. case_bool_decide; by destruct (copyModeHighlightAt o row col) as [[]|].
Qed.

(** The steps that write a row leave its puts over blanks. *)
Lemma row_ops x y width ps f i : 0 <= i < width ->
  opsOver (map (fun col => put (x + col) y blankScreenCell) (seqZ 0 width) ++ map (fun '(i, c) => put (x + i) y c) ps) f y (x + i) = putsOver ps blankRow i.
Proof.
  intros Hi. unfold opsOver. rewrite fold_left_app.
  assert (Hblank : forall c, fold_left (fun c op => if decide (opAt op (x + i) y) then op.2 c else c) (map (fun col => put (x + col) y blankScreenCell) (seqZ 0 width)) c = blankScreenCell).
  { intros c. assert (Hin : i ∈ seqZ 0 width) by (apply elem_of_seqZ; lia). revert c Hin. generalize (seqZ 0 width) as l.
    assert (Hst : forall l c, c = blankScreenCell -> fold_left (fun c op => if decide (opAt op (x + i) y) then op.2 c else c) (map (fun col => put (x + col) y blankScreenCell) l) c = blankScreenCell).
    { induction l as [|a l IH]; intros c Hc; [done|]. cbn. apply IH. by case_match. }
    induction l as [|a l IH]; intros c Hin; [by apply elem_of_nil in Hin|]. cbn. destruct (decide (a = i)) as [->|Hne].
    - apply Hst. rewrite decide_True; [done|]. by split.
    - apply IH. apply elem_of_cons in Hin as [->|?]; done. }
  rewrite Hblank. change blankScreenCell with (blankRow i) at 1. generalize blankRow as r. induction ps as [|[k c] ps IH]; intros r; [done|].
  cbn [map fold_left]. etransitivity; [|apply (IH (fun x => if x =? k then c else r x))]. f_equal. unfold opAt, put. cbn. destruct (Z.eqb_spec i k) as [->|Hne]; [by rewrite decide_True|].
  rewrite decide_False; [done|]. intros [E _]. lia.
Qed.

(** Packing only looks at the cells. *)
Lemma loop_ext {A B} (f g : A -> option (A + B)) fuel a : (forall a, f a = g a) -> loop fuel f a = loop fuel g a.
Proof. intros E. revert a. induction fuel as [|fuel IH]; intros a; [done|]. cbn [loop]. rewrite E. destruct (g a) as [[a'|b]|]; cbn; auto. Qed.
Lemma contentPuts_ext into width a b : (forall c, a c = b c) -> contentPuts into width a = contentPuts into width b.
Proof.
  intros E. apply loop_ext. intros s. unfold rowStep, cellWithLookahead.
  assert (Ec : forall src base la, compactRowCell width a src base la = compactRowCell width b src base la).
  { intros. apply loop_ext. intros m. unfold compactStep. by rewrite E. }
  destruct (_ && _); [|done]. destruct (look s) as [[c cell]|]; [destruct (c =? srcCol s)|]; rewrite ?E, ?Ec; done.
Qed.

(** C21. A row of a pane is the same on both paths that give its cells, in the
    row that is captured and in the grid, and it is exactly as wide as the pane.
    On cells a terminal can show ([goodCell]) whose characters join to clusters
    of one or two columns only ([clustersOK]: not where a join gives a cluster
    without width, which the code keeps) it is a row a terminal can show: wide
    characters are whole and followed by their continuation. *)
Theorem pane_rows_agree pd reader width row active overlay :
  0 <= width -> CellFieldsAt pd = Some reader ->
  (forall col, let c := CellAt pd col row active in reader col row active = (Char c, cLink c, cStyle c, cWidth c)) ->
  exists cells,
    paneContentRowCells width row active pd overlay = Some cells /\
    paneContentRowCells width row active (mkPaneData (CellAt pd) None (CopyModeOverlay pd)) overlay = Some cells /\
    lenZ cells = width /\
    (forall x y h f, exists ops, buildPaneContentCells (mkRect x y width h) row active pd overlay = Some ops /\
       forall i, 0 <= i < width -> opsOver ops f (y + StatusLineRows + row) (x + i) = screenCellFromRow cells i) /\
    (let given col := normalizeScreenCellInPlace (CellAt pd col row active) in
     (forall col, goodCell (given col)) -> clustersOK given -> wfRow width (screenCellFromRow cells)).
Proof.
  intros Hw Hrd Hread. set (at' := paneContentCellAt row active pd overlay).
  assert (Hsame : forall col, paneContentCellAtInto row active reader overlay col = at' col).
  { intros col. unfold paneContentCellAtInto, at', paneContentCellAt. rewrite Hread. unfold applyCopyModeOverlay.
    replace (mkCell _ _ _ _) with (CellAt pd col row active) by (by destruct (CellAt pd col row active)). by rewrite normalize_idem. }
  destruct (contentPuts_spec width at') as (pt & pf & Et & Ef & Heq & Hwf).
  assert (Ep : panePuts width row active pd overlay = Some pt) by (unfold panePuts; rewrite Hrd, (contentPuts_ext true width _ at' Hsame); done).
  pose proof (contentPuts_inside width at' true pt Et) as Hpt. pose proof (contentPuts_inside width at' false pf Ef) as Hpf.
  set (R := putsOver pf blankRow) in *.
  assert (Hrow : forall ps, Forall (fun e => 0 <= e.1 < width) ps -> (forall x, putsOver ps blankRow x = R x) ->
    fold_left (fun row '(i, c) => <[Z.to_nat i := c]> row) ps (repeat blankScreenCell (Z.to_nat width)) = rowList width R).
  { intros ps Hps He. rewrite blank_rowList, puts_rowList by done. apply rowList_ext. auto. }
  assert (Hcell : forall i, 0 <= i < width -> screenCellFromRow (rowList width R) i = R i).
  { intros i Hi. unfold screenCellFromRow. rewrite (proj2 (Z.leb_le 0 i)) by lia. by rewrite rowList_at. }
  exists (rowList width R). split; [|split; [|split; [|split]]].
  - unfold paneContentRowCells. rewrite Ep. cbn [mbind option_bind]. by rewrite Hrow.
  - unfold paneContentRowCells, panePuts. cbn [CellFieldsAt]. change (paneContentCellAt row active (mkPaneData (CellAt pd) None (CopyModeOverlay pd)) overlay) with at'.
    rewrite Ef. cbn [mbind option_bind]. by rewrite Hrow.
  - unfold lenZ, rowList. rewrite length_fmap, length_seqZ. lia.
  - intros x y h f. unfold buildPaneContentCells. cbn [rW rX rY]. rewrite Ep. cbn [mbind option_bind]. eexists. split; [done|].
    intros i Hi. rewrite Hcell by done. rewrite row_ops by lia. apply Heq.
  - intros given Hg Hc. apply (wfRow_ext width R); [intros i Hi; symmetry; by apply Hcell|]. apply Hwf; [|done].
    split; [intros col; apply overlay_good, Hg|]. intros s w Hs. apply Hc. eapply madeOf_ext; [|exact Hs]. intros col. apply overlay_char.
Qed.
End Rows.

(** The programs of the panes, each inside of its rectangle. *)
Lemma panes_programs `{GlyphLaws} root panes gridHeight layoutHeight : wf root -> leafPanes root panes ->
  exists progs, mapM (composePane gridHeight layoutHeight) panes = Some progs /\ Forall2 (fun p ops => Forall (opInside (pcRect p)) ops) panes progs.
Proof.
  intros Hwf (paths & _ & Hf). revert paths Hf. induction panes as [|p panes IH]; intros paths Hf; [by exists []|].
  inversion Hf as [|? path ? paths' (d & Hc) Hf' E1 E2]; subst. pose proof (wf_cellAt _ _ _ Hwf Hc) as Hw.
  destruct (composePane_inside gridHeight layoutHeight p) as (ops & E & Hops); [by inversion Hw|]. destruct (IH paths' Hf') as (progs & Es & Hfs).
  exists (ops :: progs). cbn. rewrite E. cbn. rewrite Es. split; [done|by constructor].
Qed.
Lemma programs_disjoint `{Colors} root panes progs i j ops ops' x y : wf root -> positioned root -> leafPanes root panes ->
  Forall2 (fun p ops => Forall (opInside (pcRect p)) ops) panes progs -> progs !! i = Some ops -> progs !! j = Some ops' ->
  Exists (fun op => opAt op x y) ops -> Exists (fun op => opAt op x y) ops' -> i = j.
Proof.
  intros Hwf Hpos Hleaf Hf Hi Hj (op & Hop & <- & <-)%Exists_exists (op' & Hop' & E1 & E2)%Exists_exists.
  destruct (Forall2_lookup_r _ _ _ _ _ Hf Hi) as (p & Hp & Fi). destruct (Forall2_lookup_r _ _ _ _ _ Hf Hj) as (q & Hq & Fj).
  apply (leafPanes_disjoint root panes i j p q op.1.1 op.1.2 Hwf Hpos Hleaf Hp Hq).
  - exact (proj1 (Forall_forall _ _) Fi _ Hop).
  - pose proof (proj1 (Forall_forall _ _) Fj _ Hop') as Hin. unfold opInside in Hin. by rewrite E1, E2 in Hin.
Qed.

(** C8. The panes of a frame can be composed at the same time: no two of them
    touch the same cell, no step copies a row, where the grid owns the rows of
    the panes, and every interleaving of their steps leaves the cells that
    composing them one after the other does. *)
Theorem compose_any_order `{GlyphLaws} root panes layoutHeight n h g :
  wf root -> positioned root -> leafPanes root panes -> GridInv n h g ->
  (forall p y, p ∈ panes -> inGrid g y -> rY (pcRect p) <= y < rY (pcRect p) + rH (pcRect p) -> writable g y) ->
  exists progs, mapM (composePane (gHeight g) layoutHeight) panes = Some progs /\
    (forall i j ops ops' op op', i <> j -> progs !! i = Some ops -> progs !! j = Some ops' -> op ∈ ops -> op' ∈ ops' -> op.1 <> op'.1) /\
    (forall sched, interleaved progs sched -> exists h1 h2,
       doOps sched h g = Some (h1, g) /\ doOps (concat progs) h g = Some (h2, g) /\
       (forall i, (i < n)%nat -> h1 !! i = h !! i) /\
       forall y x, inGrid g y -> 0 <= x < gWidth g -> gridCell h1 g y x = gridCell h2 g y x).
Proof.
  intros Hwf Hpos Hleaf Hinv Hown. destruct (panes_programs root panes (gHeight g) layoutHeight Hwf Hleaf) as (progs & Ep & Hf). exists progs. split; [done|].
  assert (Hdis : forall x y i j ops ops', progs !! i = Some ops -> progs !! j = Some ops' ->
    Exists (fun op => opAt op x y) ops -> Exists (fun op => opAt op x y) ops' -> i = j) by (intros; by eapply programs_disjoint).
  split.
  { intros i j ops ops' op op' Hne Hi Hj Hop Hop' E. apply Hne. apply (Hdis op.1.1 op.1.2 i j ops ops' Hi Hj); apply Exists_exists; [by exists op|].
    exists op'. split; [done|]. unfold opAt. by rewrite <- E. }
  assert (Hall : Forall (Forall (fun op => inGrid g op.1.2 -> writable g op.1.2)) progs).
  { apply Forall_forall. intros ops (i & Hi)%list_elem_of_lookup. destruct (Forall2_lookup_r _ _ _ _ _ Hf Hi) as (p & Hp & Fi).
    eapply Forall_impl; [exact Fi|]. intros op Hin Hg. unfold opInside, inRect in Hin. apply (Hown p); [by eapply list_elem_of_lookup_2|done|lia]. }
  intros sched Hs. pose proof (interleaved_concat progs) as Hseq.
  destruct (doOps_spec n sched h g Hinv (interleaved_Forall _ _ _ Hs Hall)) as (h1 & E1 & _ & K1 & C1).
  destruct (doOps_spec n (concat progs) h g Hinv (interleaved_Forall _ _ _ Hseq Hall)) as (h2 & E2 & _ & _ & C2).
  exists h1, h2. do 3 (split; [done|]). intros y x Hy Hx. rewrite C1, C2 by done.
  by rewrite (opsOver_filter sched), (opsOver_filter (concat progs)), (interleaved_agree (fun op => opAt op x y) progs _ _ Hs Hseq (Hdis x y)).
Qed.

(** ** Witnesses *)
#[export] Instance sampleGlyphs : Glyphs := {
  FirstGraphemeCluster s := match s with c :: _ => if c <? 0x80 then ([c], 1) else (s, termWidth s) | [] => ([], 0) end;
  BasicColor c := c; AttrBold := 1; AttrReverse := 32 }.
#[export] Instance sampleGlyphLaws : GlyphLaws.
Proof. by split. Qed.
Lemma sample_clusters at' : clustersOK at'.
Proof.
  intros [|c s] w _ E Hne; [done|]. cbn [FirstGraphemeCluster sampleGlyphs] in E. destruct (c <? 0x80); simplify_eq.
  - split; [done|by left].
  - split; [done|]. cbn [termWidth sampleTerminal]. destruct (_ =? 1); auto.
Qed.

(** A row that starts with a wide character. *)
Definition sampleCells (col row : Z) (active : bool) : ScreenCell :=
  if col =? 0 then wide else if col =? 1 then mkCell space zeroLink zeroStyle 0 else plain (bytesOf "x").
Definition samplePane : PaneData :=
  mkPaneData sampleCells (Some (fun col row active => let c := sampleCells col row active in (Char c, cLink c, cStyle c, cWidth c))) None.
Lemma sampleCells_good col row active : goodCell (normalizeScreenCellInPlace (sampleCells col row active)).
Proof.
  unfold sampleCells. destruct (col =? 0); [|destruct (col =? 1)]; (split; [done|]); (split; [by first [by left|by right]|]);
    first [by left|right; split; [by first [by left|by right]|done]].
Qed.

Lemma pane_rows_agree_witness : exists cells, paneContentRowCells 4 0 true samplePane None = Some cells /\ lenZ cells = 4 /\ wfRow 4 (screenCellFromRow cells).
Proof.
  destruct (pane_rows_agree samplePane _ 4 0 true None ltac:(lia) eq_refl (fun _ => eq_refl)) as (cells & E & _ & L & _ & Hwf).
  exists cells. split; [exact E|]. split; [exact L|]. apply Hwf; [intros col; apply sampleCells_good|apply sample_clusters].
Defined.

(** Two panes side by side. *)
Definition sampleRoot : LayoutCell :=
  Node (mkRect 0 0 9 4) SplitVertical [NewLeaf (Some 1) 0 0 4 4; NewLeaf (Some 2) 5 0 4 4].
Definition paneAt (x : Z) : paneComposite := mkComposite (mkRect x 0 4 4) samplePane true None [] (plain (bytesOf "=")) (Some 3).
Lemma sampleRoot_leaves : leafPanes sampleRoot [paneAt 0; paneAt 5].
Proof.
  exists [[0%nat]; [1%nat]]. split; [apply (bool_decide_unpack _); by vm_compute|]. repeat constructor; by eexists.
Qed.
Definition sampleGrid : ScreenGrid := mkGrid 9 5 (Some (mkRow 0 0 45)) None None false [].
Lemma sampleGrid_inv : GridInv 0 [repeat blankScreenCell 45] sampleGrid.
Proof.
  destruct (NewScreenGrid_spec [] 9 5) as (h & g & E & Hi & _); [lia|lia|]. vm_compute in E. injection E as <- <-. exact Hi.
Qed.
Lemma compose_any_order_witness : leafPanes sampleRoot [paneAt 0; paneAt 5] /\ GridInv 0 [repeat blankScreenCell 45] sampleGrid /\
  exists progs, mapM (composePane 5 4) [paneAt 0; paneAt 5] = Some progs /\
    forall i j ops ops' op op', i <> j -> progs !! i = Some ops -> progs !! j = Some ops' -> op ∈ ops -> op' ∈ ops' -> op.1 <> op'.1.
Proof.
  split; [exact sampleRoot_leaves|]. split; [exact sampleGrid_inv|].
  destruct (compose_any_order sampleRoot [paneAt 0; paneAt 5] 4 0 [repeat blankScreenCell 45] sampleGrid (wfb_sound sampleRoot eq_refl) eq_refl
    sampleRoot_leaves sampleGrid_inv ltac:(intros; by left)) as (progs & E & Hd & _).
  exists progs. split; [exact E|exact Hd].
Defined.
