(* ===== verification/BorderMap.v ===== *)
(** * Borders between panes

    internal/render/border.go and the border cells of screen.go: the map of the
    border cells of a layout, the characters where borders meet, and the panes a
    border cell is colored for. *)

From S2P Require Import Prelude GoText GoCodec GoRunes LayoutSizes LayoutTree ScreenGrid.

(** A map of [w] by [h] cells; the two arrays of the code, of border flags and
    of the cells at both sides, are one map from their index. *)
Record borderMap := mkBorderMap {
  bmWidth : Z; bmHeight : Z; bmCells : gmap Z (LayoutCell * LayoutCell); positions : list (Z * Z) }.
Definition newBorderMap (w h : Z) : option borderMap :=
  if w * h <? 0 then None else Some (mkBorderMap w h ∅ []).
Definition inMap (x y : Z) (bm : borderMap) : bool := (0 <=? x) && (x <? bmWidth bm) && (0 <=? y) && (y <? bmHeight bm).
Definition bmSet (x y : Z) (before after : LayoutCell) (bm : borderMap) : borderMap :=
  if inMap x y bm then
    let idx := y * bmWidth bm + x in
    mkBorderMap (bmWidth bm) (bmHeight bm) (<[idx := (before, after)]> (bmCells bm))
      (if bool_decide (is_Some (bmCells bm !! idx)) then positions bm else positions bm ++ [(x, y)])
  else bm.
Definition bmHas (x y : Z) (bm : borderMap) : bool :=
  if negb (inMap x y bm) then false else bool_decide (is_Some (bmCells bm !! (y * bmWidth bm + x))).
Definition bmGet (x y : Z) (bm : borderMap) : option (LayoutCell * LayoutCell) := bmCells bm !! (y * bmWidth bm + x).

Definition junctionChar (up down left right : bool) : string :=
  if up && down && left && right then "┼" else if up && down && right then "├" else if up && down && left then "┤"
  else if down && left && right then "┬" else if up && left && right then "┴" else if down && right then "┌"
  else if down && left then "┐" else if up && right then "└" else if up && left then "┘" else if up && down then "│"
  else if left && right then "─" else if up then "│" else if down then "│" else if left then "─" else if right then "─" else "+".

(** The border between two neighbouring children, over the whole split. *)
Definition markLine (dir : SplitDir) (r : Rect) (before after : LayoutCell) (bm : borderMap) : borderMap :=
  match dir with
  | SplitVertical => fold_left (fun bm y => bmSet (cX before + cW before) y before after bm) (seqZ (rY r) (rH r)) bm
  | SplitHorizontal => fold_left (fun bm x => bmSet x (cY before + cH before) before after bm) (seqZ (rX r) (rW r)) bm
  end.
Fixpoint markPairs (dir : SplitDir) (r : Rect) (children : list LayoutCell) (bm : borderMap) : borderMap :=
  match children with
  | before :: ((after :: _) as rest) => markPairs dir r rest (markLine dir r before after bm)
  | _ => bm
  end.
Fixpoint markBorders (cell : LayoutCell) (bm : borderMap) : borderMap :=
  match cell with
  | Leaf _ _ => bm
  | Node r dir children => fold_left (fun bm child => markBorders child bm) children (markPairs dir r children bm)
  end.
Definition buildBorderMap (root : LayoutCell) (w h : Z) : option borderMap :=
  bm ← newBorderMap w h; Some (markBorders root bm).

(** ** The panes next to a border cell *)
Definition upTo (v lo size : Z) : bool := (lo <=? v) && (v <=? lo + size).
Fixpoint findLeafByAxis (cell : LayoutCell) (x y : Z) : option LeafData :=
  match cell with
  | Leaf r d => if upTo y (rY r) (rH r) && upTo x (rX r) (rW r) then Some d else None
  | Node _ dir children =>
      (fix go (l : list LayoutCell) :=
         match l with
         | [] => None
         | child :: rest =>
             if (match dir with SplitHorizontal => upTo y (cY child) (cH child) | SplitVertical => upTo x (cX child) (cW child) end) then
               match findLeafByAxis child x y with Some found => Some found | None => go rest end
             else go rest
         end) children
  end.
Definition junctionOffsets : list (Z * Z) := [(-1, -1); (1, -1); (-1, 1); (1, 1)].
Definition verticalOffsets : list (Z * Z) := [(-1, 0); (1, 0)].
Definition horizontalOffsets : list (Z * Z) := [(0, -1); (0, 1)].
Definition probeLeaf (a b : LayoutCell) (x y : Z) : option LeafData :=
  match findLeafByAxis a x y with Some leaf => Some leaf | None => findLeafByAxis b x y end.
(** The pane at the first probe that matches. *)
Definition borderAdjacentPane (a b : LayoutCell) (x y : Z) (junction : bool) (matches : Z -> bool) : option Z :=
  let offsets := if junction then junctionOffsets else if x =? cX a + cW a then verticalOffsets else horizontalOffsets in
  fold_right (fun off next =>
    match probeLeaf a b (x + off.1) (y + off.2) with
    | Some leaf => if matches (CellPaneID leaf) then Some (CellPaneID leaf) else next
    | None => next
    end) None offsets.
Definition borderAdjacentToActive (a b : LayoutCell) (x y : Z) (junction : bool) (activePaneID : Z) : bool :=
  if activePaneID =? 0 then false else bool_decide (is_Some (borderAdjacentPane a b x y junction (fun id => id =? activePaneID))).
(** A pane without a tint is not in the map, or there with none. *)
Definition borderAdjacentTintColorHex (a b : LayoutCell) (x y : Z) (junction : bool) (paneTints : gmap Z bytes) : bytes :=
  match borderAdjacentPane a b x y junction (fun id => negb (bool_decide (default [] (paneTints !! id) = []))) with
  | Some id => default [] (paneTints !! id)
  | None => []
  end.

(** ** The border cells of a frame *)
Definition borderGlyph (bm : borderMap) (x y : Z) : string :=
  junctionChar (bmHas x (y - 1) bm) (bmHas x (y + 1) bm) (bmHas (x - 1) y bm) (bmHas (x + 1) y bm).
Definition isJunction (bm : borderMap) (x y : Z) : bool :=
  (bmHas x (y - 1) bm || bmHas x (y + 1) bm) && (bmHas (x - 1) y bm || bmHas (x + 1) y bm).
Definition borderCellAt `{Palette} (bm : borderMap) (activePaneID : Z) (activeFg dimFg : option Color) (paneTints : gmap Z bytes) (x y : Z) : ScreenCell :=
  let fg := match bmGet x y bm with
            | Some (a, b) =>
                let fg := if borderAdjacentToActive a b x y (isJunction bm x y) activePaneID then activeFg else dimFg in
                match borderAdjacentTintColorHex a b x y (isJunction bm x y) paneTints with [] => fg | tint => hexToColor tint end
            | None => dimFg
            end in
  mkCell (bytesOf (borderGlyph bm x y)) zeroLink (mkStyle fg None None 0 0) 1.
Definition buildBorderCellsWithTints `{Palette} (bm : borderMap) (activePaneID : Z) (activeFg dimFg : option Color) (paneTints : gmap Z bytes)
  : list (Z * Z * ScreenCell) :=
  map (fun '(x, y) => (x, y, borderCellAt bm activePaneID activeFg dimFg paneTints x y)) (positions bm).
