(* ===== verification/BorderProps.v ===== *)
(** * Borders between panes: properties

    What marking a layout adds to the map; the border cells are the cells of the window in no pane, and a straight
    border cell has the color of the panes it touches. *)

From S2P Require Import Prelude LayoutSizes LayoutTree LayoutFacts LayoutEdit LayoutTiling LayoutProps GoText GoCodec GoRunes ScreenGrid ScreenProps.
From S2P Require Import BorderMap.

(** ** The border map: what marking a layout adds

    The cells on a border of a split, as a relation; the map after a split and
    after a whole layout is marked; leaves found by the probes next to a
    border. *)

(** [pairAt x y c a b]: the cell at [x], [y] is on the border between the
    neighbouring children [a] and [b] of a split of [c]. *)
Inductive pairAt (x y : Z) : LayoutCell -> LayoutCell -> LayoutCell -> Prop :=
| pair_here r dir ch i a b :
    ch !! i = Some a -> ch !! S i = Some b -> onBorder dir r x y a = true -> pairAt x y (Node r dir ch) a b
| pair_below r dir ch c a b : c ∈ ch -> pairAt x y c a b -> pairAt x y (Node r dir ch) a b.

(** ** Maps *)

(** The positions list every border cell once. *)
Definition listed (bm : borderMap) : Prop :=
  NoDup (positions bm) /\ forall x y, (x, y) ∈ positions bm <-> bmHas x y bm = true.

(** [bm'] is [bm] with the cells of [S] marked. *)
Definition marks (S : Z -> Z -> LayoutCell -> LayoutCell -> Prop) (bm bm' : borderMap) : Prop :=
  bmWidth bm' = bmWidth bm /\ bmHeight bm' = bmHeight bm /\ (listed bm -> listed bm') /\
  forall x y, inMap x y bm = true ->
    (exists a b, S x y a b /\ bmGet x y bm' = Some (a, b)) \/
    ((forall a b, ~ S x y a b) /\ bmGet x y bm' = bmGet x y bm).

Lemma inMap_marks S bm bm' x y : marks S bm bm' -> inMap x y bm' = inMap x y bm.
Proof. intros (Hw & Hh & _). unfold inMap. by rewrite Hw, Hh. Qed.

Lemma bmHas_get x y bm : bmHas x y bm = true <-> inMap x y bm = true /\ is_Some (bmGet x y bm).
Proof.
  unfold bmHas, bmGet. destruct (inMap x y bm); simpl; [|naive_solver].
  by rewrite bool_decide_eq_true; naive_solver.
Qed.

Lemma inMap_index x y x' y' bm :
  inMap x y bm = true -> inMap x' y' bm = true -> y * bmWidth bm + x = y' * bmWidth bm + x' -> x = x' /\ y = y'.
Proof. unfold inMap. rewrite !andb_true_iff, !Z.leb_le, !Z.ltb_lt. intros Ha Hb He.
  assert (y = y') by nia. subst. split; [lia|done].
Qed.

Lemma marks_ext S S' bm bm' : (forall x y a b, S x y a b <-> S' x y a b) -> marks S bm bm' -> marks S' bm bm'.
Proof. intros He (? & ? & ? & Hm). split_and!; try done. intros x y Hin. setoid_rewrite <- He. auto. Qed.

Lemma marks_refl bm : marks (fun _ _ _ _ => False) bm bm.
Proof. split_and!; try done. intros. right. split; [by intros ? ? []|done]. Qed.

Lemma marks_trans S1 S2 bm bm1 bm2 :
  marks S1 bm bm1 -> marks S2 bm1 bm2 -> marks (fun x y a b => S1 x y a b \/ S2 x y a b) bm bm2.
Proof.
  intros H1m H2m. pose proof H1m as (Hw1 & Hh1 & Hl1 & Hg1). pose proof H2m as (Hw2 & Hh2 & Hl2 & Hg2).
  split_and!; [congruence|congruence|auto|]. intros x y Hin.
  rewrite <- (inMap_marks _ _ _ x y H1m) in Hin. pose proof (Hg2 _ _ Hin) as Hc2.
  rewrite (inMap_marks _ _ _ x y H1m) in Hin. pose proof (Hg1 _ _ Hin) as Hc1.
  destruct Hc2 as [(a & b & Hs & Hg)|[Hn Hg]]; [left; eauto|]. rewrite Hg.
  destruct Hc1 as [(a & b & Hs & Hg')|[Hn' Hg']]; [left; eauto|]. right. split; [|done].
  intros a b [?|?]; [by eapply Hn'|by eapply Hn].
Qed.

Lemma marks_fold {A} (S : A -> Z -> Z -> LayoutCell -> LayoutCell -> Prop) (f : borderMap -> A -> borderMap) l :
  (forall v bm, v ∈ l -> marks (S v) bm (f bm v)) ->
  forall bm, marks (fun x y a b => exists v, v ∈ l /\ S v x y a b) bm (fold_left f l bm).
Proof.
  induction l as [|v l IH]; intros Hf bm; simpl.
  - eapply marks_ext; [|apply marks_refl]. intros. split; [done|]. by intros (? & ?%elem_of_nil & _).
  - eapply marks_ext; [|eapply marks_trans; [apply Hf; left|apply IH; intros; apply Hf; by right]].
    intros. cbn. setoid_rewrite elem_of_cons. naive_solver.
Qed.

Lemma bmSet_marks x y a b bm : marks (fun x' y' a' b' => x' = x /\ y' = y /\ a' = a /\ b' = b) bm (bmSet x y a b bm).
Proof.
  unfold bmSet. destruct (inMap x y bm) eqn:Hin.
  2: { split_and!; try done. intros x' y' Hin'. right. split; [|done]. intros a' b' (-> & -> & _). congruence. }
  set (idx := y * bmWidth bm + x).
  assert (forall x' y', inMap x' y' bm = true ->
    <[idx := (a, b)]> (bmCells bm) !! (y' * bmWidth bm + x') = if decide (x' = x /\ y' = y) then Some (a, b) else bmGet x' y' bm) as Hget.
  { intros x' y' Hin'. case_decide as Hd; [destruct Hd as [-> ->]; apply lookup_insert_eq|].
    apply lookup_insert_ne. intros He. apply Hd. eapply inMap_index; eauto. }
  split_and!; try done.
  - intros [Hnd Hl]. split; simpl.
    + case_bool_decide as Hs; [done|]. apply NoDup_app. split_and!; [done| |apply NoDup_singleton].
      intros [x' y'] Hp. rewrite list_elem_of_singleton. intros [= -> ->]. apply Hl, bmHas_get in Hp as [_ Hp].
      by apply Hs.
    + intros x' y'. rewrite bmHas_get. unfold bmGet. simpl.
      change (inMap x' y' (mkBorderMap (bmWidth bm) (bmHeight bm) (<[idx:=(a, b)]> (bmCells bm)) _)) with (inMap x' y' bm).
      assert ((x', y') ∈ positions bm <-> inMap x' y' bm = true /\ is_Some (bmGet x' y' bm)) as Hl' by (rewrite Hl; apply bmHas_get).
      destruct (inMap x' y' bm) eqn:Hin'.
      * rewrite Hget by done. case_decide as Hd.
        -- destruct Hd as [-> ->]. split; [eauto|]. intros _. case_bool_decide as Hs; [by apply Hl'|].
           rewrite elem_of_app, list_elem_of_singleton. by right.
        -- case_bool_decide; [done|]. rewrite elem_of_app, list_elem_of_singleton, Hl'. naive_solver.
      * split; [|naive_solver]. case_bool_decide; [naive_solver|].
        rewrite elem_of_app, list_elem_of_singleton. intros [?|[= -> ->]]; [naive_solver|congruence].
  - intros x' y' Hin'. unfold bmGet at 1 2. simpl. rewrite Hget by done. case_decide as Hd.
    + left. exists a, b. naive_solver.
    + right. split; [|done]. intros ? ? (? & ? & _). naive_solver.
Qed.

(** ** Splits and layouts *)

Lemma markLine_marks dir r a b bm :
  marks (fun x y a' b' => onBorder dir r x y a = true /\ a' = a /\ b' = b) bm (markLine dir r a b bm).
Proof.
  destruct dir; simpl; (eapply marks_ext; [|apply marks_fold; intros v bm' _; apply bmSet_marks]);
    intros x y a' b'; cbn; setoid_rewrite elem_of_seqZ; rewrite ?andb_true_iff, ?Z.leb_le, ?Z.ltb_lt, ?Z.eqb_eq; split.
  - intros (v & ? & -> & -> & -> & ->). split; [lia|done].
  - intros (Ho & -> & ->). exists y. split_and!; try done; lia.
  - intros (v & ? & -> & -> & -> & ->). split; [lia|done].
  - intros (Ho & -> & ->). exists x. split_and!; try done; lia.
Qed.

Lemma markPairs_marks dir r ch bm :
  marks (fun x y a b => exists i, ch !! i = Some a /\ ch !! S i = Some b /\ onBorder dir r x y a = true) bm
    (markPairs dir r ch bm).
Proof.
  revert bm. induction ch as [|c ch IH]; intros bm; [|destruct ch as [|c' ch]].
  - eapply marks_ext; [|apply marks_refl]. cbn. naive_solver.
  - eapply marks_ext; [|apply marks_refl]. cbn. intros. split; [done|]. by intros (? & _ & ? & _).
  - cbn [markPairs]. eapply marks_ext; [|eapply marks_trans; [apply markLine_marks|apply IH]].
    intros x y a b. cbn. split.
    + intros [(? & -> & ->)|(i & ? & ? & ?)]; [by exists 0%nat|by exists (S i)].
    + intros ([|i] & Ha & Hb & Ho); [left|right; by exists i]. naive_solver.
Qed.

Lemma markBorders_marks c bm : marks (fun x y a b => pairAt x y c a b) bm (markBorders c bm).
Proof.
  revert bm. induction c as [r d|r dir ch IH] using LayoutCell_tree_ind; intros bm.
  - eapply marks_ext; [|apply marks_refl]. intros. split; [done|inversion 1].
  - cbn [markBorders]. rewrite Forall_forall in IH.
    eapply marks_ext; [|eapply marks_trans; [apply markPairs_marks|apply marks_fold; intros v bm' Hv; by apply IH]].
    intros x y a b. cbn. split.
    + intros [(i & ? & ? & ?)|(v & ? & ?)]; [by eapply pair_here|by eapply pair_below].
    + inversion 1; subst; [left|right]; eauto.
Qed.

(** The border hit test finds the cells of [pairAt]. *)
Lemma FindBorderAt_pair x y c : is_Some (FindBorderAt x y c) <-> exists a b, pairAt x y c a b.
Proof.
  split.
  - induction c as [r d|r dir ch IH] using LayoutCell_tree_ind; [by intros []|].
    rewrite FindBorderAt_node. destruct (borderBetween dir r x y 0 ch) as [j|] eqn:E.
    + intros _. apply borderBetween_Some in E as (k & a & b & _ & ? & ? & ?). exists a, b. by eapply pair_here.
    + clear E. intros Hs. cut (exists c, c ∈ ch /\ is_Some (FindBorderAt x y c)).
      { intros (c & Hc & Hf). rewrite Forall_forall in IH. destruct (IH _ Hc Hf) as (a & b & ?).
        exists a, b. by eapply pair_below. }
      clear IH. revert Hs. generalize 0%nat. induction ch as [|c ch IH]; intros i; simpl; [by intros []|].
      destruct (FindBorderAt x y c) eqn:E.
      * intros _. exists c. rewrite E. split; [by left|by eexists].
      * intros (c' & ? & ?)%IH. exists c'. split; [by right|done].
  - intros (a & b & Hp). induction Hp as [r dir ch i a b Ha Hb Ho|r dir ch c a b Hc _ IH]; rewrite FindBorderAt_node.
    + enough (forall k, is_Some (borderBetween dir r x y k ch)) as He.
      { destruct (He 0%nat) as [j ->]. by eexists. }
      revert i Ha Hb. induction ch as [|c ch IH]; intros i Ha Hb k; [done|]. simpl.
      destruct ch as [|c' ch]; [by destruct i|]. destruct (onBorder dir r x y c) eqn:E; [by eexists|].
      destruct i as [|i]; simpl in *; [congruence|]. by eapply IH.
    + destruct (borderBetween _ _ _ _ _ _); [by eexists|]. generalize 0%nat.
      induction Hc as [c ch|c c' ch _ IHc]; intros k; simpl.
      * destruct IH as [h ->]. by eexists.
      * destruct (FindBorderAt x y c') eqn:E; [by eexists|auto].
Qed.

Lemma buildBorderMap_spec root w h :
  0 <= w -> 0 <= h ->
  exists bm, buildBorderMap root w h = Some bm /\ bmWidth bm = w /\ bmHeight bm = h /\ listed bm /\
    forall x y, inMap x y bm = true ->
      (exists a b, pairAt x y root a b /\ bmGet x y bm = Some (a, b)) \/
      ((forall a b, ~ pairAt x y root a b) /\ bmGet x y bm = None).
Proof.
  intros Hw Hh. unfold buildBorderMap, newBorderMap. destruct (Z.ltb_spec (w * h) 0); [nia|]. cbn.
  eexists. split; [done|]. set (bm0 := mkBorderMap w h ∅ []).
  destruct (markBorders_marks root bm0) as (Hbw & Hbh & Hl & Hg). split_and!; try done.
  - apply Hl. split; [constructor|]. intros x y. rewrite bmHas_get. unfold bmGet. simpl. rewrite lookup_empty.
    split; [by intros ?%elem_of_nil|]. by intros [_ []].
  - intros x y Hin. rewrite (inMap_marks (fun x y a b => pairAt x y root a b) bm0) in Hin by (by split_and!).
    specialize (Hg x y Hin). unfold bmGet at 3 in Hg. simpl in Hg. by rewrite lookup_empty in Hg.
Qed.

(** ** Around a border cell *)

(** The point [k] cells further along [dir]. *)
Definition shiftX (dir : SplitDir) (k x : Z) : Z := match dir with SplitVertical => x + k | SplitHorizontal => x end.
Definition shiftY (dir : SplitDir) (k y : Z) : Z := match dir with SplitVertical => y | SplitHorizontal => y + k end.

Lemma along_shift dir k x y : along dir (shiftX dir k x) (shiftY dir k y) = along dir x y + k.
Proof. by destruct dir. Qed.
Lemma along_shift_other dir k x y : along dir (shiftX (other dir) k x) (shiftY (other dir) k y) = along dir x y.
Proof. by destruct dir. Qed.
Lemma along_other_shift dir k x y : along (other dir) (shiftX dir k x) (shiftY dir k y) = along (other dir) x y.
Proof. by destruct dir. Qed.

(** Where a child lies in its parent. *)
Lemma child_place r dir ch j c :
  wf (Node r dir ch) -> positioned (Node r dir ch) -> ch !! j = Some c ->
  wf c /\ positioned c /\ cPos (other dir) c = rPos (other dir) r /\ axisSize (other dir) c = rAxis (other dir) r /\
  rPos dir r <= cPos dir c /\ cPos dir c + axisSize dir c <= rPos dir r + rAxis dir r.
Proof.
  intros Hwf Hpos Ej. pose proof (positioned_node _ _ _ Hpos) as Hst.
  inversion_clear Hwf as [|? ? ? _ HF Hcross Hsum]. fold (extent dir ch) in Hsum.
  destruct (stacked_inside _ _ _ _ _ _ Hst HF Ej) as (? & ? & ?).
  pose proof (Forall_lookup_1 _ _ _ _ Hcross Ej) as Hcr. simpl in Hcr.
  split_and!; try lia; [by eapply Forall_lookup_1|].
  eapply Forall_lookup_1; [eapply stacked_positioned; exact Hst|done].
Qed.

(** A child is followed by the border and the next child, or ends its parent;
    the first child starts it. *)
Lemma stacked_next dir m k l j c :
  stacked dir m k l -> l !! j = Some c ->
  (forall c', l !! S j = Some c' -> cPos dir c' = cPos dir c + axisSize dir c + 1) /\
  (l !! S j = None -> cPos dir c + axisSize dir c = m + extent dir l) /\
  (j = 0%nat -> cPos dir c = m).
Proof.
  revert m j. induction l as [|c0 l IH]; intros m [|j]; simpl; try done.
  - intros (Hm & _ & _ & Hst) [= ->]. split_and!; [| |done].
    + destruct l as [|c1 l]; [done|]. destruct Hst as (Hm1 & _). intros c' [= <-]. lia.
    + destruct l; [|done]. intros _. unfold extent. simpl. lsum.
  - intros (Hm & _ & _ & Hst) Hj. destruct (IH _ _ Hst Hj) as (Hn & Hl & _). split_and!; [done| |done].
    intros Hj'. rewrite (Hl Hj'). destruct l; [done|]. rewrite extent_cons. lia.
Qed.

(** One step out of a child leads onto a border or out of its parent. *)
Lemma leave_child r dir ch j c x y ax k :
  wf (Node r dir ch) -> positioned (Node r dir ch) -> ch !! j = Some c -> (k = 1 \/ k = -1) ->
  inRect x y (cellRect c) = true -> inRect (shiftX ax k x) (shiftY ax k y) (cellRect c) = false ->
  (exists a b, pairAt (shiftX ax k x) (shiftY ax k y) (Node r dir ch) a b) \/
  inRect (shiftX ax k x) (shiftY ax k y) r = false.
Proof.
  intros Hwf Hpos Ej Hk Hin Hout. destruct (child_place _ _ _ _ _ Hwf Hpos Ej) as (Hw & _ & Ho & Hs & Hlo & Hhi).
  apply (inRect_spans dir) in Hin as [Ha Hc]. apply (inRect_false dir) in Hout.
  rewrite (inRect_false dir). unfold inSpan in *. fold (cPos dir c) in *. fold (cPos (other dir) c) in *.
  fold (axisSize dir c) in *. fold (axisSize (other dir) c) in *. rewrite Ho, Hs in *.
  assert (ax = dir \/ ax = other dir) as [->| ->] by (destruct ax, dir; auto).
  2: { right. rewrite along_shift_other, along_shift in *. lia. }
  rewrite along_other_shift, along_shift in *.
  destruct (stacked_next _ _ _ _ _ _ (positioned_node _ _ _ Hpos) Ej) as (Hn & Hl & Hf).
  inversion_clear Hwf as [|? ? ? _ HF _ Hsum]. fold (extent dir ch) in Hsum.
  destruct Hk as [->| ->].
  - destruct (ch !! S j) as [c'|] eqn:Ej'; [left|right; rewrite Hl in * by done; lia].
    exists c, c'. eapply pair_here; [done|done|]. apply onBorder_spec. unfold inSpan.
    rewrite along_shift, along_other_shift. lia.
  - destruct j as [|j]; [right; rewrite Hf in * by done; lia|left].
    destruct (lookup_lt_is_Some_2 ch j) as [c0 Ej0]; [apply lookup_lt_Some in Ej; lia|].
    destruct (stacked_next _ _ _ _ _ _ (positioned_node _ _ _ Hpos) Ej0) as (Hn0 & _).
    specialize (Hn0 _ Ej). exists c0, c. eapply pair_here; [done|done|]. apply onBorder_spec. unfold inSpan.
    rewrite along_shift, along_other_shift. lia.
Qed.

(** ** Leaves *)

Lemma pair_hit x y c a b : wf c -> positioned c -> pairAt x y c a b ->
  inRect x y (cellRect c) = true /\ FindLeafAt x y c = None.
Proof.
  intros Hwf Hpos Hp. pose proof (wf_tiled x y c Hwf Hpos) as Ht. unfold tiled in Ht.
  assert (is_Some (FindBorderAt x y c)) as [h Hh] by (apply FindBorderAt_pair; eauto). rewrite Hh in Ht.
  destruct (inRect x y (cellRect c)); [split; [done|]|by destruct Ht].
  by destruct Ht as [[_ ?]|[? _]].
Qed.

(** No border: a leaf. *)
Lemma leaf_or_pair x y c : wf c -> positioned c -> inRect x y (cellRect c) = true ->
  (exists p r d, cellAt p c = Some (Leaf r d) /\ inRect x y r = true) \/ exists a b, pairAt x y c a b.
Proof.
  intros Hwf Hpos Hin. pose proof (wf_tiled x y c Hwf Hpos) as Ht. unfold tiled in Ht. rewrite Hin in Ht.
  destruct Ht as [[[p Hp] _]|[_ Hb]]; [left|right; by apply FindBorderAt_pair].
  apply FindLeafAt_sound in Hp as (r & d & ? & ?). eauto.
Qed.

Fixpoint axisLoop (dir : SplitDir) (x y : Z) (l : list LayoutCell) : option LeafData :=
  match l with
  | [] => None
  | child :: rest =>
      if upTo (along dir x y) (cPos dir child) (axisSize dir child) then
        match findLeafByAxis child x y with Some found => Some found | None => axisLoop dir x y rest end
      else axisLoop dir x y rest
  end.
Lemma findLeafByAxis_node r dir ch x y : findLeafByAxis (Node r dir ch) x y = axisLoop dir x y ch.
Proof.
  destruct dir; simpl; (induction ch as [|c ch IH]; [done|]); cbn [axisLoop along];
    unfold cPos, axisSize; cbn [rPos rAxis]; by rewrite <- IH.
Qed.

(** In a leaf, the search by axis finds it. *)
Lemma findLeafByAxis_leaf x y c p r d :
  wf c -> positioned c -> cellAt p c = Some (Leaf r d) -> inRect x y r = true -> findLeafByAxis c x y = Some d.
Proof.
  revert p. induction c as [r0 d0|r0 dir ch IH] using LayoutCell_tree_ind; intros p Hwf Hpos Hp Hin.
  { destruct p; simpl in Hp; [|by destruct n]. simplify_eq/=. unfold inRect in Hin. unfold upTo.
    destruct (Z.leb_spec (rY r) y), (Z.leb_spec y (rY r + rH r)), (Z.leb_spec (rX r) x), (Z.leb_spec x (rX r + rW r));
      simpl in *; zb; done || lia. }
  destruct p as [|j p]; [done|]. simpl in Hp. destruct (ch !! j) as [c|] eqn:Ej; [|done].
  destruct (child_place _ _ _ _ _ Hwf Hpos Ej) as (Hwc & Hpc & _).
  pose proof (Forall_lookup_1 _ _ _ _ IH Ej p Hwc Hpc Hp Hin) as Hf. simpl in Hf.
  pose proof (leaf_inside x y c p r d Hwc Hpc Hp Hin) as Hic.
  apply (inRect_spans dir) in Hic as [Ha _]. unfold inSpan in Ha. fold (cPos dir c) (axisSize dir c) in Ha.
  pose proof (wf_Children _ Hwf) as HW. simpl in HW.
  destruct (stacked_before _ _ _ _ _ _ (positioned_node _ _ _ Hpos) HW Ej) as [HB _].
  rewrite findLeafByAxis_node. clear IH Hwf Hpos HW Hp. revert j Ej HB. induction ch as [|c0 ch IHc]; intros [|j] Ej HB; try done; simpl in *.
  - injection Ej as ->. unfold upTo. rewrite Hf. destruct (Z.leb_spec (cPos dir c) (along dir x y)); [|lia].
    destruct (Z.leb_spec (along dir x y) (cPos dir c + axisSize dir c)); [done|lia].
  - inversion_clear HB as [|? ? Hlt HB']. rewrite (IHc j Ej HB').
    unfold upTo. destruct (Z.leb_spec (along dir x y) (cPos dir c0 + axisSize dir c0)); [lia|]. by rewrite andb_false_r.
Qed.

(** What the search finds is within one cell of the subtree. *)
Lemma findLeafByAxis_near x y c d ax :
  wf c -> positioned c -> findLeafByAxis c x y = Some d ->
  cPos ax c <= along ax x y <= cPos ax c + axisSize ax c.
Proof.
  revert d. induction c as [r0 d0|r0 dir ch IH] using LayoutCell_tree_ind; intros d Hwf Hpos.
  - simpl. destruct (_ && _) eqn:E; [|done]. apply andb_prop in E as [E1 E2]. unfold upTo in *.
    destruct ax; unfold cPos; simpl in *; zb; done || lia.
  - rewrite findLeafByAxis_node. intros Hf.
    assert (exists j c d', ch !! j = Some c /\ findLeafByAxis c x y = Some d') as (j & c & d' & Ej & Hc).
    { clear IH Hwf Hpos. induction ch as [|c ch IHc]; simpl in Hf; [done|].
      destruct (findLeafByAxis c x y) as [d'|] eqn:E; [by exists 0%nat, c, d'|].
      destruct IHc as (j & ? & ? & ? & ?); [by destruct (upTo _ _ _)|]. by exists (S j), x0, x1. }
    destruct (child_place _ _ _ _ _ Hwf Hpos Ej) as (Hw & Hp & Ho & Hs & Hlo & Hhi).
    pose proof (Forall_lookup_1 _ _ _ _ IH Ej d' Hw Hp Hc) as Hn. simpl in Hn.
    change (cPos ax (Node r0 dir ch)) with (rPos ax r0). change (axisSize ax (Node r0 dir ch)) with (rAxis ax r0).
    assert (ax = dir \/ ax = other dir) as [->| ->] by (destruct ax, dir; auto); [lia|]. rewrite Ho, Hs in Hn. done.
Qed.

(** ** The split a border cell belongs to *)

(** [s] is a subtree of [c]. *)
Definition within (s c : LayoutCell) : Prop :=
  (forall x y a b, pairAt x y s a b -> exists a' b', pairAt x y c a' b') /\
  (forall p r d, cellAt p s = Some (Leaf r d) -> exists p', cellAt p' c = Some (Leaf r d)).

Lemma within_child r dir ch j c : ch !! j = Some c -> within c (Node r dir ch).
Proof.
  intros Ej. split.
  - intros x y a b Hp. exists a, b. eapply pair_below; [|done]. by eapply list_elem_of_lookup_2.
  - intros p r' d Hp. exists (j :: p). simpl. by rewrite Ej.
Qed.
Lemma within_trans s c c' : within s c -> within c c' -> within s c'.
Proof.
  intros [Hp Hl] [Hp' Hl']. split.
  - intros x y a b (? & ? & ?)%Hp. eauto.
  - intros p r d (? & ?)%Hl. eauto.
Qed.

(** The border cell between [a] and [b], on a split along [dir]: the two share
    the span of the border, and its ends run into other borders. *)
Record splitAt (dir : SplitDir) (x y : Z) (c a b : LayoutCell) : Prop := {
  split_wf : wf a /\ positioned a /\ wf b /\ positioned b;
  split_in : within a c /\ within b c;
  split_at : along dir x y = cPos dir a + axisSize dir a /\ cPos dir b = along dir x y + 1;
  split_span : inSpan (other dir) x y (cellRect a) /\ inSpan (other dir) x y (cellRect b);
  split_ends k : k = 1 \/ k = -1 ->
    (exists a' b', pairAt (shiftX (other dir) k x) (shiftY (other dir) k y) c a' b') \/
    inRect (shiftX (other dir) k x) (shiftY (other dir) k y) (cellRect c) = false;
  split_long : exists k a' b', (k = 1 \/ k = -1) /\ pairAt (shiftX (other dir) k x) (shiftY (other dir) k y) c a' b' }.

Lemma wf_axis_ge axis c : wf c -> PaneMinSize <= axisSize axis c.
Proof.
  intros Hwf. pose proof (wf_min_le axis c Hwf). pose proof (minSubtreeSize_ge axis c (wf_shaped _ Hwf)). lia.
Qed.

Lemma split_here r dir ch i a b x y :
  wf (Node r dir ch) -> positioned (Node r dir ch) ->
  ch !! i = Some a -> ch !! S i = Some b -> onBorder dir r x y a = true -> splitAt dir x y (Node r dir ch) a b.
Proof.
  intros Hwf Hpos Ha Hb Ho. pose proof Ho as [H1 H2]%onBorder_spec.
  destruct (child_place _ _ _ _ _ Hwf Hpos Ha) as (Hwa & Hpa & Hoa & Hsa & _).
  destruct (child_place _ _ _ _ _ Hwf Hpos Hb) as (Hwb & Hpb & Hob & Hsb & _).
  destruct (stacked_next _ _ _ _ _ _ (positioned_node _ _ _ Hpos) Ha) as (Hn & _). specialize (Hn _ Hb).
  assert (forall k, inSpan (other dir) (shiftX (other dir) k x) (shiftY (other dir) k y) r ->
    pairAt (shiftX (other dir) k x) (shiftY (other dir) k y) (Node r dir ch) a b) as Hline.
  { intros k Hk. eapply pair_here; [done|done|]. apply onBorder_spec. by rewrite along_shift_other. }
  constructor.
  - done.
  - split; eapply within_child; done.
  - lia.
  - unfold inSpan in *. fold (cPos (other dir) a) (axisSize (other dir) a) (cPos (other dir) b) (axisSize (other dir) b).
    rewrite Hoa, Hsa, Hob, Hsb. done.
  - intros k _. cbn [cellRect]. destruct (inRect (shiftX (other dir) k x) (shiftY (other dir) k y) r) eqn:E; [|by right].
    apply (inRect_spans dir) in E as [_ E]. left. exists a, b. auto.
  - pose proof (wf_axis_ge (other dir) a Hwa). unfold PaneMinSize in *. unfold inSpan in *.
    destruct (Z.lt_ge_cases (along (other dir) x y + 1) (rPos (other dir) r + rAxis (other dir) r));
      [exists 1|exists (-1)]; exists a, b; (split; [auto|]); apply Hline; rewrite along_shift; lia.
Qed.

Lemma pair_split x y c a b : wf c -> positioned c -> pairAt x y c a b -> exists dir, splitAt dir x y c a b.
Proof.
  intros Hwf Hpos Hp. revert Hwf Hpos. induction Hp as [r dir ch i a b Ha Hb Ho|r dir ch c a b Hc Hp IH]; intros Hwf Hpos.
  { exists dir. by eapply split_here. }
  apply list_elem_of_lookup in Hc as [j Ej]. destruct (child_place _ _ _ _ _ Hwf Hpos Ej) as (Hwc & Hpc & _).
  destruct (IH Hwc Hpc) as [dir' [Hw [Hia Hib] Hat Hsp He Hl]]. exists dir'.
  pose proof (within_child r dir ch j c Ej) as Hin. constructor; try done.
  - split; by eapply within_trans.
  - intros k Hk. destruct (He k Hk) as [(a' & b' & Hp')|Hout]; [left; by apply Hin in Hp'|].
    eapply leave_child; try done. by eapply pair_hit.
  - destruct Hl as (k & a' & b' & Hk & Hp'). apply Hin in Hp' as (? & ? & ?). exists k. eauto.
Qed.

(** C22. The map of a well-formed, positioned layout that fills the window lists,
    once each, exactly the cells of the window that are in no pane: the ones
    drawn as border. *)
Theorem borders_exact root w h :
  wf root -> positioned root -> cellRect root = mkRect 0 0 w h ->
  exists bm, buildBorderMap root w h = Some bm /\ NoDup (positions bm) /\
    forall x y, (x, y) ∈ positions bm <->
      inRect x y (cellRect root) = true /\ forall p r d, cellAt p root = Some (Leaf r d) -> inRect x y r = false.
Proof.
  intros Hwf Hpos Hr. pose proof (wf_axis_nonneg SplitVertical _ Hwf) as Hw0.
  pose proof (wf_axis_nonneg SplitHorizontal _ Hwf) as Hh0. unfold axisSize in *. rewrite Hr in *. simpl in *.
  destruct (buildBorderMap_spec root w h Hw0 Hh0) as (bm & Hb & Hbw & Hbh & [Hnd Hl] & Hg).
  exists bm. split_and!; [done|done|]. intros x y. rewrite Hl, bmHas_get.
  assert (inMap x y bm = inRect x y (cellRect root)) as Hin by (rewrite Hr; unfold inMap, inRect; by rewrite Hbw, Hbh).
  rewrite <- Hr, <- Hin. split.
  - intros [Hm Hs]. split; [done|]. intros p r d Hp. destruct (inRect x y r) eqn:E; [|done].
    destruct (Hg x y Hm) as [(a & b & Hpair & _)|[_ Hn]]; [|rewrite Hn in Hs; by destruct Hs].
    pose proof (FindLeafAt_complete x y root p r d Hwf Hpos Hp E).
    destruct (pair_hit _ _ _ _ _ Hwf Hpos Hpair). congruence.
  - intros [Hm Hno]. split; [done|]. rewrite Hin in Hm.
    destruct (leaf_or_pair x y root Hwf Hpos Hm) as [(p & r & d & Hp & Hi)|(a & b & Hpair)].
    { by rewrite (Hno _ _ _ Hp) in Hi. }
    rewrite <- Hin in Hm. destruct (Hg x y Hm) as [(a' & b' & _ & ->)|[Hn _]]; [by eexists|by destruct (Hn a b)].
Qed.

Lemma borders_exact_witness :
  wf sampleTree /\ exists bm, buildBorderMap sampleTree 20 9 = Some bm /\ NoDup (positions bm) /\
    forall x y, (x, y) ∈ positions bm <->
      inRect x y (cellRect sampleTree) = true /\
      forall p r d, cellAt p sampleTree = Some (Leaf r d) -> inRect x y r = false.
Proof. split; [apply sampleTree_wf|]. apply borders_exact; [apply sampleTree_wf|reflexivity|reflexivity]. Defined.

(** On a straight cell the two probes are the neighbours across the border,
    each in a pane. *)
Lemma straight_probes dir x y root a b :
  wf root -> positioned root -> splitAt dir x y root a b ->
  (forall k, k = 1 \/ k = -1 -> forall a' b', ~ pairAt (shiftX dir k x) (shiftY dir k y) root a' b') ->
  exists p1 r1 d1 p2 r2 d2,
    cellAt p1 root = Some (Leaf r1 d1) /\ inRect (shiftX dir (-1) x) (shiftY dir (-1) y) r1 = true /\
    cellAt p2 root = Some (Leaf r2 d2) /\ inRect (shiftX dir 1 x) (shiftY dir 1 y) r2 = true /\
    forall m, borderAdjacentPane a b x y false m =
      if m (CellPaneID d1) then Some (CellPaneID d1) else if m (CellPaneID d2) then Some (CellPaneID d2) else None.
Proof.
  intros Hwf Hpos [(Hwa & Hpa & Hwb & Hpb) [Ha Hb] [H1 H2] [Hsa Hsb] _ _] Hno.
  pose proof (wf_axis_ge dir a Hwa). pose proof (wf_axis_ge dir b Hwb). unfold PaneMinSize in *.
  assert (inRect (shiftX dir (-1) x) (shiftY dir (-1) y) (cellRect a) = true) as Hia.
  { apply (inRect_spans dir). unfold inSpan. rewrite along_shift, along_other_shift. split; [|done].
    fold (cPos dir a) (axisSize dir a). lia. }
  assert (inRect (shiftX dir 1 x) (shiftY dir 1 y) (cellRect b) = true) as Hib.
  { apply (inRect_spans dir). unfold inSpan. rewrite along_shift, along_other_shift. split; [|done].
    fold (cPos dir b) (axisSize dir b). lia. }
  destruct (leaf_or_pair _ _ _ Hwa Hpa Hia) as [(p1 & r1 & d1 & Hp1 & Hi1)|(? & ? & (? & ? & ?)%Ha)]; [|by exfalso; eapply Hno; [right|]].
  destruct (leaf_or_pair _ _ _ Hwb Hpb Hib) as [(p2 & r2 & d2 & Hp2 & Hi2)|(? & ? & (? & ? & ?)%Hb)]; [|by exfalso; eapply Hno; [left|]].
  pose proof (findLeafByAxis_leaf _ _ _ _ _ _ Hwa Hpa Hp1 Hi1) as Hf1.
  pose proof (findLeafByAxis_leaf _ _ _ _ _ _ Hwb Hpb Hp2 Hi2) as Hf2.
  assert (findLeafByAxis a (shiftX dir 1 x) (shiftY dir 1 y) = None) as Hf3.
  { destruct (findLeafByAxis a (shiftX dir 1 x) (shiftY dir 1 y)) eqn:E; [|done].
    apply (findLeafByAxis_near _ _ _ _ dir Hwa Hpa) in E. rewrite along_shift in E. lia. }
  apply Ha in Hp1 as [p1' Hp1]. apply Hb in Hp2 as [p2' Hp2].
  exists p1', r1, d1, p2', r2, d2. split_and!; try done. intros m. unfold borderAdjacentPane, probeLeaf.
  assert ((if x =? cX a + cW a then verticalOffsets else horizontalOffsets) =
    match dir with SplitVertical => verticalOffsets | SplitHorizontal => horizontalOffsets end) as ->.
  { destruct (Z.eqb_spec x (cX a + cW a)) as [He|He]; destruct dir; try done; simpl in *;
      unfold inSpan, cPos, axisSize, cX, cW in *; simpl in *; lia. }
  destruct dir; simpl in *; rewrite ?Z.add_0_r, Hf1, Hf3, Hf2; done.
Qed.

(** The pane [id] has a cell next to [x], [y]. *)
Definition touches (x y : Z) (root : LayoutCell) (id : Z) : Prop :=
  exists p r d dir k, cellAt p root = Some (Leaf r d) /\ CellPaneID d = id /\ (k = 1 \/ k = -1) /\
    inRect (shiftX dir k x) (shiftY dir k y) r = true.

Lemma straight_pane x y root w h bm a b m :
  wf root -> positioned root -> cellRect root = mkRect 0 0 w h -> buildBorderMap root w h = Some bm ->
  inMap x y bm = true -> bmGet x y bm = Some (a, b) -> isJunction bm x y = false ->
  match borderAdjacentPane a b x y false m with
  | Some id => touches x y root id /\ m id = true
  | None => forall id, touches x y root id -> m id = false
  end.
Proof.
  intros Hwf Hpos Hr Hbuild Hm Hget Hj. pose proof (wf_axis_nonneg SplitVertical _ Hwf) as Hw0.
  pose proof (wf_axis_nonneg SplitHorizontal _ Hwf) as Hh0. unfold axisSize in Hw0, Hh0. rewrite Hr in Hw0, Hh0. simpl in Hw0, Hh0.
  destruct (buildBorderMap_spec root w h Hw0 Hh0) as (bm' & Hb & Hbw & Hbh & _ & Hg).
  rewrite Hbuild in Hb. injection Hb as <-.
  destruct (Hg x y Hm) as [(a0 & b0 & Hpair & Hget')|[_ Hn]]; [|congruence]. rewrite Hget in Hget'. injection Hget' as <- <-.
  assert (forall x y, bmHas x y bm = true <-> exists a b, pairAt x y root a b) as Hhas.
  { intros x' y'. rewrite bmHas_get. split.
    - intros [Hi [ab Hs]]. destruct (Hg _ _ Hi) as [(? & ? & ? & _)|[_ ?]]; [eauto|congruence].
    - intros (a' & b' & Hp). destruct (pair_hit _ _ _ _ _ Hwf Hpos Hp) as [Hi _].
      assert (inMap x' y' bm = true) as Hi'.
      { rewrite Hr in Hi. unfold inRect, inMap in *. by rewrite Hbw, Hbh. }
      split; [done|]. destruct (Hg _ _ Hi') as [(? & ? & _ & ->)|[Hn _]]; [by eexists|by destruct (Hn a' b')]. }
  destruct (pair_split _ _ _ _ _ Hwf Hpos Hpair) as [dir Hsp].
  assert (forall k, k = 1 \/ k = -1 -> forall a' b', ~ pairAt (shiftX dir k x) (shiftY dir k y) root a' b') as Hno.
  { intros k Hk a' b' Hp. destruct (split_long _ _ _ _ _ _ Hsp) as (k' & a1 & b1 & Hk' & Hp').
    assert (bmHas (shiftX dir k x) (shiftY dir k y) bm = true) as Hh by (apply Hhas; eauto).
    assert (bmHas (shiftX (other dir) k' x) (shiftY (other dir) k' y) bm = true) as Hh' by (apply Hhas; eauto).
    unfold isJunction in Hj. change (bmHas x (y - 1) bm) with (bmHas x (y + -1) bm) in Hj.
    change (bmHas (x - 1) y bm) with (bmHas (x + -1) y bm) in Hj. clear Hg Hhas. destruct dir; cbn [shiftX shiftY other] in *; destruct Hk as [->| ->], Hk' as [->| ->];
      rewrite Hh, Hh', ?orb_true_r in Hj; done. }
  destruct (straight_probes _ _ _ _ _ _ Hwf Hpos Hsp Hno) as (p1 & r1 & d1 & p2 & r2 & d2 & Hp1 & Hi1 & Hp2 & Hi2 & ->).
  destruct (m (CellPaneID d1)) eqn:E1; [split; [|done]; exists p1, r1, d1, dir, (-1); auto|].
  destruct (m (CellPaneID d2)) eqn:E2; [split; [|done]; exists p2, r2, d2, dir, 1; auto|].
  intros id (p & r & d & dir' & k & Hp & <- & Hk & Hi).
  pose proof (FindLeafAt_complete _ _ _ _ _ _ Hwf Hpos Hp Hi) as Hf.
  assert (dir' = dir \/ dir' = other dir) as [->| ->] by (destruct dir, dir'; auto).
  - destruct Hk as [->| ->].
    + rewrite (FindLeafAt_complete _ _ _ _ _ _ Hwf Hpos Hp2 Hi2) in Hf. injection Hf as <-. by simplify_eq.
    + rewrite (FindLeafAt_complete _ _ _ _ _ _ Hwf Hpos Hp1 Hi1) in Hf. injection Hf as <-. by simplify_eq.
  - destruct (split_ends _ _ _ _ _ _ Hsp k Hk) as [(a' & b' & Hp')|Hout].
    + destruct (pair_hit _ _ _ _ _ Hwf Hpos Hp'). congruence.
    + by rewrite (leaf_inside _ _ _ _ _ _ Hwf Hpos Hp Hi) in Hout.
Qed.

(** C26. The color of a straight border cell (one that is not where borders
    meet): the tint of a pane that touches the cell when one has a tint,
    else the color of the active pane exactly when the active pane touches
    the cell, else the dim color. *)
Theorem straight_border_color `{Palette} root w h bm active activeFg dimFg paneTints x y :
  wf root -> positioned root -> cellRect root = mkRect 0 0 w h -> buildBorderMap root w h = Some bm ->
  (x, y) ∈ positions bm -> isJunction bm x y = false -> active <> 0 ->
  let fg := Fg (cStyle (borderCellAt bm active activeFg dimFg paneTints x y)) in
  (exists id tint, touches x y root id /\ paneTints !! id = Some tint /\ tint <> [] /\ fg = hexToColor tint) \/
  ((forall id, touches x y root id -> default [] (paneTints !! id) = []) /\
   ((touches x y root active /\ fg = activeFg) \/ (~ touches x y root active /\ fg = dimFg))).
Proof.
  intros Hwf Hpos Hr Hbuild Hin Hj Hact fg.
  assert (bmHas x y bm = true) as [Hm [[a b] Hget]]%bmHas_get.
  { pose proof (wf_axis_nonneg SplitVertical _ Hwf) as Hw0. pose proof (wf_axis_nonneg SplitHorizontal _ Hwf) as Hh0.
    unfold axisSize in Hw0, Hh0. rewrite Hr in Hw0, Hh0. simpl in Hw0, Hh0.
    destruct (buildBorderMap_spec root w h Hw0 Hh0) as (bm' & Hb & _ & _ & [_ Hl] & _).
    rewrite Hbuild in Hb. injection Hb as <-. by apply Hl. }
  pose proof (fun m => straight_pane x y root w h bm a b m Hwf Hpos Hr Hbuild Hm Hget Hj) as Hp.
  subst fg. unfold borderCellAt. rewrite Hget, Hj. cbn [cStyle Fg].
  unfold borderAdjacentTintColorHex, borderAdjacentToActive. destruct (Z.eqb_spec active 0); [done|].
  pose proof (Hp (fun id => negb (bool_decide (default [] (paneTints !! id) = [])))) as Ht.
  destruct (borderAdjacentPane a b x y false (fun id => negb _)) as [id|].
  { left. destruct Ht as [Ht Hs%negb_true_iff%bool_decide_eq_false]. destruct (paneTints !! id) as [tint|] eqn:E; [|done].
    cbn in Hs |- *. exists id, tint. destruct tint; done. }
  right. split; [intros id Hid%Ht; by apply negb_false_iff, bool_decide_eq_true in Hid|].
  pose proof (Hp (fun id => id =? active)) as Ha.
  destruct (borderAdjacentPane a b x y false (fun id => id =? active)) as [id|]; simpl.
  - left. destruct Ha as [Ha ->%Z.eqb_eq]. done.
  - right. split; [|done]. intros Hid%Ha. by rewrite Z.eqb_refl in Hid.
Qed.

Lemma straight_border_color_witness :
  exists bm, buildBorderMap sampleTree 20 9 = Some bm /\
    let fg := Fg (cStyle (borderCellAt bm 1 (Some 7) None ∅ 9 2)) in
    ((exists id tint, touches 9 2 sampleTree id /\ (∅ : gmap Z bytes) !! id = Some tint /\ tint <> [] /\ fg = hexToColor tint) \/
     ((forall id, touches 9 2 sampleTree id -> default [] ((∅ : gmap Z bytes) !! id) = []) /\
      ((touches 9 2 sampleTree 1 /\ fg = Some 7) \/ (~ touches 9 2 sampleTree 1 /\ fg = None)))).
Proof.
  eexists. split; [reflexivity|].
  refine (straight_border_color sampleTree 20 9 _ 1 (Some 7) None ∅ 9 2 sampleTree_wf eq_refl eq_refl eq_refl _ eq_refl _); [|done].
  apply list_elem_of_In. vm_compute. tauto.
Defined.

(** Where the border of a column of panes meets the border of the next column
    one row below, the diagonal probe above reaches the border of the first
    column, and the search takes the pane above that border: the cell gets the
    color of pane 1 although pane 1 ends two rows above it, and its diagonal
    neighbour is in no pane. *)
Definition steppedTree : LayoutCell :=
  FixOffsets (Node (mkRect 0 0 21 10) SplitVertical
    [Node (mkRect 0 0 10 10) SplitHorizontal [NewLeaf (Some 1) 0 0 10 4; NewLeaf (Some 2) 0 0 10 5];
     Node (mkRect 11 0 10 10) SplitHorizontal [NewLeaf (Some 3) 0 0 10 5; NewLeaf (Some 4) 0 0 10 4]]).

Theorem junction_shows_distant_pane :
  wf steppedTree /\ positioned steppedTree /\
  exists bm, buildBorderMap steppedTree 21 10 = Some bm /\ isJunction bm 10 5 = true /\
    Fg (cStyle (borderCellAt bm 1 (Some 7) None ∅ 10 5)) = Some 7 /\
    FindLeafAt 9 4 steppedTree = None /\
    (forall r, cellAt [0%nat; 0%nat] steppedTree = Some r -> cellRect r = mkRect 0 0 10 4).
Proof.
  split; [by apply wfb_sound|]. split; [reflexivity|]. eexists. split; [reflexivity|].
  split_and!; [reflexivity..|]. intros r [= <-]. reflexivity.
Qed.
