(* ===== verification/FrameGrid.v ===== *)
(** * Composing a frame

    internal/render/screen.go, compositor.go, attention.go, ultra.go,
    dragoverlay.go, paneoverlay.go, helpbar.go and window_drag_overlay.go: the
    grid of a frame, with the panes, the labels of empty slots, the borders, the
    overlays and the global bar; the grid of a frame in which only some panes
    changed, made in a copy of the last one; and the key that tells whether the
    layout is still the same. *)

From S2P Require Import Prelude GoText GoCodec GoRunes LayoutSizes LayoutTree WindowState CopyMode CopyOverlay.
From S2P Require Import ScreenGrid ScreenEmit PaneRows BorderMap.

(** ** What is drawn *)

(** The colors of the theme: variables of the package config. *)
Record Theme := mkTheme { DimColorHex : bytes; Surface0Hex : bytes; TextColorHex : bytes; BlueHex : bytes }.

Definition truncateRunes (s : bytes) (max : Z) : bytes :=
  if max <=? 0 then []
  else let runes := toRunes s in
       if lenZ runes <=? max then s
       else if max =? 1 then fromRunes (take 1 runes)
       else fromRunes (take (Z.to_nat (max - 1)) runes) ++ bytesOf "…".

(** A pane as the compositor sees it.  The text of its status line is an
    input: the cells for a width, by whether the pane is active and pressed,
    and the cell that fills the line. *)
Record PaneView `{Colors} := mkPaneView {
  pvData : PaneData; pvColor : bytes; pvAccent : bytes; pvBorderTint : bytes;
  pvStatus : Z -> bool -> bool -> list ScreenCell * ScreenCell;
  pvCursorHidden : bool; pvCursorBlock : bool; pvCursor : Z * Z }.
Arguments mkPaneView {_}.

Record OverlayState `{Colors} := mkOverlays {
  PaneLabels : list (Z * bytes); DropIndicator : option Rect; WindowDropIndicator : option Z;
  HelpRows : list (list ScreenCell); PressedPaneID : Z; modals : list (Z * Z * ScreenCell) }.
Arguments mkOverlays {_}.

(** A frame to draw: the layout, the panes by their ID, the overlays (of the
    chooser and the text input, the cells they set), and the cells of the
    global bar by the number of panes. *)
Record FrameInput `{Colors} := mkFrameInput {
  fiRoot : LayoutCell; fiActive : Z; fiLookup : Z -> option PaneView; fiOverlay : OverlayState; fiBar : Z -> list ScreenCell; fiTheme : Theme }.
Arguments mkFrameInput {_}.

(** The compositor with the key of the last layout and the tint of every other pane. *)
Record FrameComp `{Colors} := mkFrameComp { fcComp : Compositor; prevGridLayoutKey : bytes; altTintBg : bytes }.
Arguments mkFrameComp {_}.

Definition GlobalBarHeight : Z := 1.
Definition IsPanePressed `{Colors} (o : OverlayState) (paneID : Z) : bool := negb (PressedPaneID o =? 0) && (paneID =? PressedPaneID o).
Definition layoutHeightForHelpBar `{Colors} (c : FrameComp) (o : OverlayState) : Z :=
  let layoutHeight := compHeight (fcComp c) - GlobalBarHeight - lenZ (HelpRows o) in
  if layoutHeight <? 0 then 0 else layoutHeight.

(** ** Every other pane *)
Definition leafLe (a b : Z * (Z * Z)) : bool := if negb (a.2.1 =? b.2.1) then a.2.1 <? b.2.1 else a.2.2 <=? b.2.2.
Fixpoint indexOf (x : Z) (l : list Z) : Z := match l with [] => 0 | y :: l => if x =? y then 0 else 1 + indexOf x l end.
Definition paneLeaves (root : LayoutCell) : list (Rect * LeafData) := map snd (Walk root).
(** The panes with odd parity, counting columns by their left edge and rows in
    each. *)
Definition paneTintParity (root : LayoutCell) : list Z :=
  let leaves := map (fun e => (CellPaneID e.2, (rX e.1, rY e.1))) (filter (fun e => CellPaneID e.2 <> 0) (paneLeaves root)) in
  if lenZ leaves <? 2 then []
  else
    let xs := stableSort Z.leb (remove_dups (map (fun l => l.2.1) leaves)) in
    (fold_left (fun '(odd, rowRank, lastX) l =>
      let rowRank := if negb (l.2.1 =? lastX) then 0 else rowRank in
      (if Z.rem (indexOf l.2.1 xs + rowRank) 2 =? 1 then l.1 :: odd else odd, rowRank + 1, l.2.1))
      (stableSort leafLe leaves) ([], 0, -1)).1.1.
Definition paneAltTintBg `{Colors} (c : FrameComp) (root : LayoutCell) (paneID : Z) : bytes :=
  match altTintBg c with [] => [] | bg => if bool_decide (paneID ∈ paneTintParity root) then bg else [] end.

(** ** The panes *)
Definition compositeFor `{Palette} (c : FrameComp) (inp : FrameInput) (r : Rect) (pid : Z) (pd : PaneView) : paneComposite :=
  let isActive := pid =? fiActive inp in
  let '(status, fill) := pvStatus pd (rW r) isActive (IsPanePressed (fiOverlay inp) pid) in
  mkComposite r (pvData pd) isActive (CopyModeOverlay (pvData pd)) status fill (hexToColor (paneAltTintBg c (fiRoot inp) pid)).
(** The leaves with a pane that has data. *)
Definition visiblePanes `{Colors} (inp : FrameInput) : list (Rect * Z * PaneView) :=
  omap (fun '(r, d) => if CellPaneID d =? 0 then None else pd ← fiLookup inp (CellPaneID d); Some (r, CellPaneID d, pd)) (paneLeaves (fiRoot inp)).
Definition composePanes `{Palette} `{!Glyphs} (c : FrameComp) (layoutHeight : Z) (inp : FrameInput) (panes : list (Rect * Z * PaneView)) : option (list cellOp) :=
  progs ← mapM (fun '(r, pid, pd) => composePane (compHeight (fcComp c)) layoutHeight (compositeFor c inp r pid pd)) panes;
  Some (concat progs).

(** ** Empty slots *)
Definition emptySlotLabel (d : LeafData) : bytes :=
  if LeadSlot d then bytesOf "lead · empty (amux lead <pane>)"
  else if 0 <? Slot d then bytesOf "slot " ++ formatDecimal (Slot d) ++ bytesOf " · empty" else [].
Definition emptySlotOps `{Palette} (theme : Theme) (layoutHeight : Z) (r : Rect) (d : LeafData) : list cellOp :=
  if negb (CellPaneID d =? 0) then []
  else
    let label := emptySlotLabel d in
    if bool_decide (label = []) || (rW r <? 2) || (rH r <? 1) then []
    else
      let label := if rW r <? lenZ (toRunes label) then truncateRunes label (rW r) else label in
      let y := rY r + Z.quot (rH r) 2 in
      if (layoutHeight <=? y) || (rY r + rH r <=? y) then []
      else
        let x := rX r + Z.quot (rW r - lenZ (toRunes label)) 2 in
        omap (fun '(i, rune) => if rX r + rW r <=? x + Z.of_nat i then None
          else Some (put (x + Z.of_nat i) y (mkCell (EncodeRune rune) zeroLink (mkStyle (hexToColor (DimColorHex theme)) None None 0 0) 1)))
          (imap pair (toRunes label)).
Definition buildEmptySlotCells `{Palette} (theme : Theme) (root : LayoutCell) (layoutHeight : Z) : list cellOp :=
  paneLeaves root ≫= fun '(r, d) => emptySlotOps theme layoutHeight r d.

(** ** Borders *)
Definition activeColorHex `{Colors} (inp : FrameInput) : bytes :=
  match fiLookup inp (fiActive inp) with Some pd => match pvColor pd with [] => [] | _ => pvAccent pd end | None => [] end.
Definition paneBorderTintMap `{Colors} (panes : list (Rect * Z * PaneView)) : gmap Z bytes :=
  fold_left (fun m '(r, pid, pd) => match pvBorderTint pd with [] => m | tint => <[pid := tint]> m end) panes ∅.
Definition borderOps `{Palette} (inp : FrameInput) (bm : borderMap) : list cellOp :=
  map (fun '(x, y, cell) => put x y cell)
    (buildBorderCellsWithTints bm (fiActive inp) (hexToColor (activeColorHex inp)) (hexToColor (DimColorHex (fiTheme inp))) (paneBorderTintMap (visiblePanes inp))).

(** ** Overlays *)
Definition overlayStyle `{Palette} `{!Glyphs} (fg bg : bytes) (attrs : Z) : Style := mkStyle (hexToColor fg) (hexToColor bg) None 0 attrs.
Definition buildDropIndicatorCells `{Palette} `{!Glyphs} (theme : Theme) (o : Rect) : list cellOp :=
  if (rW o <=? 0) || (rH o <=? 0) then []
  else seqZ 0 (rH o) ≫= fun dy => map (fun dx => put (rX o + dx) (rY o + dy)
         (mkCell (bytesOf "░") zeroLink (overlayStyle (DimColorHex theme) (Surface0Hex theme) 0) 1)) (seqZ 0 (rW o)).
(** The badge of a label with its place; the loop over its runes counts bytes. *)
Definition paneOverlayPlacement (r : Rect) (label : bytes) : bytes * Z * Z :=
  if bool_decide (label = []) || (rW r <=? 0) || (rH r <=? 0) then ([], 0, 0)
  else
    let badge := if 3 <=? rW r then [91] ++ label ++ [93] else take 1 label in
    let x := rX r + Z.quot (rW r - lenZ badge) 2 in
    let x := if x <? rX r then rX r else x in
    let maxX := rX r + rW r - lenZ badge in
    let maxX := if maxX <? rX r then rX r else maxX in
    let x := if maxX <? x then maxX else x in
    let contentH := PaneContentHeight (rH r) in
    (badge, x, if 0 <? contentH then rY r + StatusLineRows + Z.quot contentH 2 else rY r).
Fixpoint runeOffsets (i : Z) (rs : list (Z * nat)) : list (Z * Z) :=
  match rs with [] => [] | (rune, n) :: rs => (i, rune) :: runeOffsets (i + Z.of_nat n) rs end.
Definition buildPaneOverlayCells `{Palette} `{!Glyphs} (inp : FrameInput) : list cellOp :=
  PaneLabels (fiOverlay inp) ≫= fun '(pid, label) =>
    match FindByPaneID pid (fiRoot inp) ≫= fun p => cellAt p (fiRoot inp) with
    | None => []
    | Some cell =>
        if bool_decide (label = []) then []
        else
          let '(badge, x, y) := paneOverlayPlacement (cellRect cell) label in
          let fg := match fiLookup inp pid with Some pd => match pvColor pd with [] => TextColorHex (fiTheme inp) | hex => hex end | None => TextColorHex (fiTheme inp) end in
          map (fun '(i, rune) => put (x + i) y (mkCell (EncodeRune rune) zeroLink (overlayStyle fg (Surface0Hex (fiTheme inp)) AttrBold) 1)) (runeOffsets 0 (runes badge))
    end.
(** Cells from the left of a row, as many as fit. *)
Definition rowCellsOps `{Colors} (width y : Z) (cells : list ScreenCell) : list cellOp :=
  imap (fun i cell => put (Z.of_nat i) y cell) (take (Z.to_nat width) cells).
Definition buildWindowDropIndicatorCell `{Palette} `{!Glyphs} (theme : Theme) (y : Z) (column : option Z) : list cellOp :=
  match column with
  | Some column => if (column <? 0) || (y <? 0) then []
                   else [put column y (mkCell (bytesOf "│") zeroLink (overlayStyle (BlueHex theme) (Surface0Hex theme) 0) 1)]
  | None => []
  end.
Definition buildHelpBarCells `{Colors} (width height : Z) (rows : list (list ScreenCell)) : list cellOp :=
  if height <? 2 then []
  else
    let rows := if height - 1 <? lenZ rows then drop (Z.to_nat (lenZ rows - (height - 1))) rows else rows in
    concat (imap (fun i cells => rowCellsOps width (height - 1 - lenZ rows + Z.of_nat i) cells) rows).

(** What is drawn over panes and borders. *)
Definition overlayOps `{Palette} `{!Glyphs} (c : FrameComp) (inp : FrameInput) (paneCount : Z) : list cellOp :=
  let o := fiOverlay inp in
  let width := compWidth (fcComp c) in
  let height := compHeight (fcComp c) in
  default [] (option_map (buildDropIndicatorCells (fiTheme inp)) (DropIndicator o)) ++
  buildPaneOverlayCells inp ++
  rowCellsOps width (height - 1) (fiBar inp paneCount) ++
  buildWindowDropIndicatorCell (fiTheme inp) (height - 1) (WindowDropIndicator o) ++
  buildHelpBarCells width height (HelpRows o) ++
  map (fun '(x, y, cell) => put x y cell) (modals o).

(** ** Frames

    A whole frame: the grid and the number of panes.  None is a panic. *)
Definition frameOps `{Palette} `{!Glyphs} (c : FrameComp) (inp : FrameInput) : option (list cellOp) :=
  let layoutHeight := layoutHeightForHelpBar c (fiOverlay inp) in
  let panes := visiblePanes inp in
  panesOps ← composePanes c layoutHeight inp panes;
  bm ← buildBorderMap (fiRoot inp) (compWidth (fcComp c)) layoutHeight;
  Some (panesOps ++ buildEmptySlotCells (fiTheme inp) (fiRoot inp) layoutHeight ++ borderOps inp bm ++ overlayOps c inp (lenZ panes)).
Definition buildGridWithOverlay `{Palette} `{!Glyphs} (c : FrameComp) (inp : FrameInput) (h : heap) : option (heap * ScreenGrid * Z) :=
  '(h, g) ← NewScreenGrid (compWidth (fcComp c)) (compHeight (fcComp c)) h;
  ops ← frameOps c inp;
  '(h, g) ← doOps ops h g;
  Some (h, g, lenZ (visiblePanes inp)).

Definition markDirtyRow (y : Z) (rows : list bool) : list bool := if (0 <=? y) && (y <? lenZ rows) then <[Z.to_nat y := true]> rows else rows.
Definition markDirtyRows (startY endY : Z) (rows : list bool) : list bool :=
  fold_left (fun rows y => <[Z.to_nat y := true]> rows) (seqZ (Z.max 0 startY) (Z.min (lenZ rows) endY - Z.max 0 startY)) rows.

Definition itoa (n : Z) : bytes := if n <? 0 then 45 :: formatDecimal (- n) else formatDecimal n.
Definition appendLayoutKeyInt (v : Z) (b : bytes) : bytes := b ++ itoa v ++ [59].
(** A leaf has the direction -1 and no children. *)
Definition layoutReuseKey `{Colors} (c : FrameComp) (inp : FrameInput) (layoutHeight : Z) : bytes :=
  fold_left (fun b v => appendLayoutKeyInt v b)
    ([compWidth (fcComp c); compHeight (fcComp c); layoutHeight; fiActive inp] ++
     (paneLeaves (fiRoot inp) ≫= fun '(r, d) => [1; -1; 0; CellPaneID d; rX r; rY r; rW r; rH r])) [].

Definition dirtyPanesOf `{Colors} (inp : FrameInput) (dirty : gset Z) : list (Rect * Z * PaneView) :=
  List.filter (fun e => bool_decide (e.1.2 ∈ dirty)) (visiblePanes inp).
Definition dirtyRowsOf `{Colors} (c : FrameComp) (panes : list (Rect * Z * PaneView)) : list bool :=
  fold_left (fun rows e => markDirtyRows (rY e.1.1) (rY e.1.1 + rH e.1.1) rows) panes
    (markDirtyRow (compHeight (fcComp c) - 1) (repeat false (Z.to_nat (compHeight (fcComp c))))).
Definition buildGridWithOverlayDirty `{Palette} `{!Glyphs} (c : FrameComp) (inp : FrameInput) (dirty : gset Z) (fullRedraw : bool) (h : heap)
  : option (heap * ScreenGrid * Z) :=
  let layoutHeight := layoutHeightForHelpBar c (fiOverlay inp) in
  let layoutKey := layoutReuseKey c inp layoutHeight in
  let layoutChanged := negb (bool_decide (prevGridLayoutKey c = [])) && negb (bool_decide (prevGridLayoutKey c = layoutKey)) in
  match prevGrid (fcComp c) with
  | Some prev =>
      if fullRedraw || layoutChanged then buildGridWithOverlay c inp h
      else
        if compHeight (fcComp c) <? 0 then None
        else
          let panes := dirtyPanesOf inp dirty in
          let '(h, g) := cloneDirtyRows (dirtyRowsOf c panes) prev h in
          panesOps ← composePanes c layoutHeight inp panes;
          '(h, g) ← doOps (panesOps ++ overlayOps c inp (lenZ (visiblePanes inp))) h g;
          Some (h, g, lenZ panes)
  | None => buildGridWithOverlay c inp h
  end.

(** ** The cursor *)
Definition cursorRenderStateForLayoutHeight `{Colors} (inp : FrameInput) (layoutHeight : Z) : cursorRenderState :=
  let shown := mkCursor true false 0 0 in
  if fiActive inp =? 0 then shown
  else match FindByPaneID (fiActive inp) (fiRoot inp) ≫= fun p => cellAt p (fiRoot inp), fiLookup inp (fiActive inp) with
       | Some cell, Some pd =>
           if pvCursorHidden pd || pvCursorBlock pd then noCursor
           else let '(col, row) := pvCursor pd in
                if (row <? 0) || (visibleContentHeight (cellRect cell) layoutHeight <=? row) then noCursor
                else mkCursor true true (cX cell + col + 1) (cY cell + StatusLineRows + row + 1)
       | _, _ => shown
       end.

Definition RenderDiffWithOverlayDirtyStats `{UV} `{!Palette} `{!Glyphs} (inp : FrameInput) (dirty : gset Z) (fullRedraw : bool) (h : heap) (c : FrameComp)
  : option (list Out * (Z * Z) * heap * FrameComp) :=
  let layoutHeight := layoutHeightForHelpBar c (fiOverlay inp) in
  '(h, newGrid, panesComposited) ← buildGridWithOverlayDirty c inp dirty fullRedraw h;
  let '(out, cellsDiffed, comp) := renderGrid h newGrid (cursorRenderStateForLayoutHeight inp layoutHeight) (fcComp c) in
  Some (out, (cellsDiffed, panesComposited), h, mkFrameComp comp (layoutReuseKey c inp layoutHeight) (altTintBg c)).
Definition ClearPrevGrid `{Colors} (c : FrameComp) : FrameComp := mkFrameComp (clearPrevGrid (fcComp c)) [] (altTintBg c).
(** The compositor's Resize and the other settings forget the last frame too. *)
Definition resizeFrame `{Colors} (width height : Z) (c : FrameComp) : FrameComp := mkFrameComp (Resize width height (fcComp c)) [] (altTintBg c).
Definition SetAlternateTintBg `{Colors} (hex : bytes) (c : FrameComp) : FrameComp :=
  if bool_decide (altTintBg c = hex) then c else mkFrameComp (clearPrevGrid (fcComp c)) [] hex.
