(* ===== verification/FrameFacts.v ===== *)
(** * Frames: what their steps leave in the grid

    Every part of a frame decides the cells it draws or misses them: panes
    decide the cells of their rectangle, the rest draws fixed cells.  So the cells
    of a whole frame, and those of a frame in which some panes are drawn again,
    can be compared cell by cell. *)

From S2P Require Import Prelude GoText GoCodec GoRunes LayoutSizes LayoutTree LayoutFacts LayoutEdit LayoutTiling WindowState CopyMode CopyOverlay.
From S2P Require Import ScreenGrid ScreenEmit ScreenTerm ScreenFacts ScreenHeap ScreenFrame ScreenProps PaneRows PaneRowFacts PaneComposeProps BorderMap BorderProps FrameGrid.

(** ** Steps on any grid *)
Section Steps.
Context `{Colors}.

Lemma opsOver_app a b f y x : opsOver (a ++ b) f y x = opsOver b (opsOver a f) y x.
Proof. unfold opsOver. by rewrite fold_left_app. Qed.
Lemma opsOver_one (op : cellOp) f y x : opsOver [op] f y x = if decide (y = op.1.2 /\ x = op.1.1) then op.2 (f y x) else f y x.
Proof.
  unfold opsOver, opAt. cbn. destruct (decide (op.1.1 = x /\ op.1.2 = y)) as [[-> ->]|Hn]; [by rewrite decide_True|].
  rewrite decide_False; [done|]. intros [-> ->]. by apply Hn.
Qed.

(** A step anywhere: the row is copied first where it is shared. *)
Lemma doOp_any n h g op : GridInv n h g -> exists h' g', doOp op h g = Some (h', g') /\ GridInv n h' g' /\ (length h <= length h')%nat /\
  (forall i, (i < n)%nat -> h' !! i = h !! i) /\ gWidth g' = gWidth g /\ gHeight g' = gHeight g /\
  forall y x, inGrid g y -> 0 <= x < gWidth g -> gridCell h' g' y x = opsOver [op] (gridCell h g) y x.
Proof.
  intros Hinv. pose proof (opsOver_one op) as Hone. destruct op as [[x y] u]. cbn [fst snd] in Hone. unfold doOp, cellForWrite.
  destruct ((0 <=? x) && (x <? gWidth g) && (0 <=? y) && (y <? gHeight g)) eqn:Ein.
  - apply andb_true_iff in Ein as [[[E1 E2]%andb_true_iff E3]%andb_true_iff E4]. assert (Hy : inGrid g y) by (unfold inGrid; lia).
    destruct (rowForWrite_spec n h g y Hinv Hy) as (h1 & g1 & r & -> & Hinv1 & Hl1 & Hp1 & W1 & G1 & Hwr & Hr1 & Hrl & Hc1).
    rewrite (proj2 (Z.ltb_lt x (rowLen r))) by lia. cbn [mbind option_bind].
    destruct (GridInv_update n h1 g1 y r x u Hinv1) as (Hinv2 & L2 & P2 & C2); [unfold inGrid in *; lia|done|done|lia|].
    eexists _, _. split; [done|]. split; [done|]. split; [lia|]. split; [intros i Hi; rewrite P2 by done; by apply Hp1|].
    split; [done|]. split; [done|]. intros y' x' Hy' Hx'. rewrite Hone, C2 by (unfold inGrid in *; lia).
    destruct (decide _) as [[-> ->]|]; by rewrite Hc1 by (unfold inGrid in *; lia).
  - cbn [mbind option_bind]. eexists _, _. split; [done|]. do 5 (split; [done|]). intros y' x' Hy' Hx'. rewrite Hone, decide_False; [done|].
    unfold inGrid in *. intros [-> ->]. lia.
Qed.
Lemma opsOver_ext ops f f' y x : f y x = f' y x -> opsOver ops f y x = opsOver ops f' y x.
Proof. unfold opsOver. by intros ->. Qed.
Lemma doOps_any n ops h g : GridInv n h g -> exists h' g', doOps ops h g = Some (h', g') /\ GridInv n h' g' /\ (length h <= length h')%nat /\
  (forall i, (i < n)%nat -> h' !! i = h !! i) /\ gWidth g' = gWidth g /\ gHeight g' = gHeight g /\
  forall y x, inGrid g y -> 0 <= x < gWidth g -> gridCell h' g' y x = opsOver ops (gridCell h g) y x.
Proof.
  revert h g. induction ops as [|op ops IH]; intros h g Hinv; cbn [doOps].
  - exists h, g. by split_and!.
  - destruct (doOp_any n h g op Hinv) as (h1 & g1 & -> & Hinv1 & L1 & P1 & W1 & G1 & C1). cbn [mbind option_bind].
    destruct (IH h1 g1 Hinv1) as (h2 & g2 & -> & Hinv2 & L2 & P2 & W2 & G2 & C2). exists h2, g2. split; [done|]. split; [done|].
    split; [lia|]. split; [intros i Hi; by rewrite P2, P1|]. split; [congruence|]. split; [congruence|].
    intros y x Hy Hx. rewrite C2 by (unfold inGrid in *; lia). change (op :: ops) with ([op] ++ ops). rewrite opsOver_app.
    apply opsOver_ext. by apply C1.
Qed.

(** ** Deciding and missing a cell *)
Definition fixes (ops : list cellOp) (x y : Z) (v : ScreenCell) : Prop := forall f, opsOver ops f y x = v.
Definition misses (ops : list cellOp) (x y : Z) : Prop := forall f, opsOver ops f y x = f y x.

Lemma fixes_app_r a b x y v : fixes b x y v -> fixes (a ++ b) x y v.
Proof. intros Hb f. by rewrite opsOver_app. Qed.
Lemma fixes_app_l a b x y v : fixes a x y v -> misses b x y -> fixes (a ++ b) x y v.
Proof. intros Ha Hb f. by rewrite opsOver_app, Hb. Qed.
Lemma misses_app a b x y : misses a x y -> misses b x y -> misses (a ++ b) x y.
Proof. intros Ha Hb f. by rewrite opsOver_app, Hb. Qed.
Lemma misses_none ops x y : Forall (fun op => ~ opAt op x y) ops -> misses ops x y.
Proof.
  intros Hn f. unfold opsOver. generalize (f y x) as c. induction Hn as [|op ops Ho _ IH]; intros c; [done|].
  cbn. by rewrite decide_False.
Qed.
Lemma misses_concat progs x y : Forall (fun p => misses p x y) progs -> misses (concat progs) x y.
Proof. induction 1 as [|p progs Hp _ IH]; [by intros f|]. cbn. by apply misses_app. Qed.
Lemma concat_dich progs x y v : Forall (fun p => fixes p x y v \/ misses p x y) progs ->
  fixes (concat progs) x y v \/ Forall (fun p => misses p x y) progs.
Proof.
  induction 1 as [|p progs Hp _ IH]; [by right|]. cbn. destruct IH as [IH|IH]; [left; by apply fixes_app_r|].
  destruct Hp as [Hp|Hp]; [left|right; by constructor]. apply fixes_app_l; [done|by apply misses_concat].
Qed.
Lemma fixes_concat progs x y v : Forall (fun p => fixes p x y v \/ misses p x y) progs -> Exists (fun p => fixes p x y v) progs ->
  fixes (concat progs) x y v.
Proof.
  intros Hd Hex. destruct (concat_dich progs x y v Hd) as [?|Hm]; [done|]. intros f. rewrite misses_concat by done.
  apply Exists_exists in Hex as (p & Hp & Hv). by rewrite <- (Hv f), (proj1 (Forall_forall _ _) Hm p Hp).
Qed.

(** Steps that set a cell whatever it was. *)
Definition isPut (op : cellOp) : Prop := exists c, forall c', op.2 c' = c.
Lemma put_isPut x y c : isPut (put x y c).
Proof. by exists c. Qed.
Lemma put_covers ops x y : Exists (fun op => opAt op x y /\ isPut op) ops -> fixes ops x y (opsOver ops (fun _ _ => blankScreenCell) y x).
Proof.
  induction ops as [|op ops IH]; intros Hex f; [by apply Exists_nil in Hex|]. change (op :: ops) with ([op] ++ ops).
  rewrite !opsOver_app. apply Exists_cons in Hex as [[Ho [c Hc]]|Hex].
  - apply opsOver_ext. unfold opsOver. cbn. rewrite !decide_True by done. by rewrite !Hc.
  - by rewrite (IH Hex), <- (IH Hex (opsOver [op] (fun _ _ => blankScreenCell))).
Qed.
Lemma puts_dich ops x y : Forall isPut ops ->
  fixes ops x y (opsOver ops (fun _ _ => blankScreenCell) y x) \/ Forall (fun op => ~ opAt op x y) ops.
Proof.
  intros Hp. destruct (decide (Exists (fun op => opAt op x y) ops)) as [He|He].
  - left. apply put_covers. apply Exists_exists in He as (op & Hop & Ho). apply Exists_exists. exists op.
    split; [done|]. split; [done|]. by apply (proj1 (Forall_forall _ _) Hp).
  - right. apply not_Exists_Forall in He; [done|apply _].
Qed.
End Steps.

Lemma places_miss `{Colors} (a b : list cellOp) x y : map fst a = map fst b -> Forall (fun op => ~ opAt op x y) b -> Forall (fun op => ~ opAt op x y) a.
Proof.
  intros E Hb. apply Forall_forall. intros op Hop Ho. assert (Hin : op.1 ∈ map fst b) by (rewrite <- E; by apply list_elem_of_fmap_2).
  apply list_elem_of_fmap in Hin as (op' & Eo & Hin). apply (proj1 (Forall_forall _ _) Hb op' Hin). unfold opAt in *. by rewrite <- Eo.
Qed.

(** ** Panes *)
Section Panes.
Context `{GlyphLaws}.

Lemma elem_of_concat {A} (a : A) l ls : a ∈ l -> l ∈ ls -> a ∈ concat ls.
Proof. intros Ha Hl. apply list_elem_of_In, in_concat. exists l. by split; apply list_elem_of_In. Qed.
Lemma elem_of_rowPuts x y width (f : Z -> ScreenCell) i : 0 <= i < width -> put (x + i) y (f i) ∈ map (fun col => put (x + col) y (f col)) (seqZ 0 width).
Proof. intros Hi. apply list_elem_of_fmap. exists i. split; [done|]. apply elem_of_seqZ. lia. Qed.

(** A pane draws every cell of its rectangle in the grid, over whatever there
    was. *)
Lemma composePane_fixes gridHeight layoutHeight p ops x y : PaneMinSize <= rH (pcRect p) -> composePane gridHeight layoutHeight p = Some ops ->
  inRect x y (pcRect p) = true -> 0 <= y < gridHeight -> fixes ops x y (opsOver ops (fun _ _ => blankScreenCell) y x).
Proof.
  intros Hmin E Hin Hy. destruct (visible_le (pcRect p) layoutHeight Hmin) as [Hv Hc]. pose proof (visible_nonneg (pcRect p) layoutHeight) as Hn.
  unfold composePane in E. set (r := pcRect p) in *. set (contentH := visibleContentHeight r layoutHeight) in *.
  destruct (mapM _ (seqZ 0 contentH)) as [content|] eqn:Em; [|done]. cbn [mbind option_bind] in E. injection E as <-.
  apply mapM_Some in Em. unfold inRect in Hin. set (i := x - rX r).
  assert (Hi : 0 <= i < rW r) by lia. assert (Hx : rX r + i = x) by lia.
  apply put_covers, Exists_exists. destruct (decide (y = rY r)) as [->|Hne]; [|destruct (decide (y - rY r - 1 < contentH)) as [Hrow|Hrow]].
  - eexists. split; [apply elem_of_app; left; unfold buildStatusCells; fold r;
      apply (elem_of_rowPuts (rX r) (rY r) (rW r) (fun i => default (pcFill p) (pcStatus p !! Z.to_nat i)) i Hi)|].
    split; [by split|apply put_isPut].
  - set (row := y - rY r - 1) in *. destruct (Forall2_lookup_l _ _ _ (Z.to_nat row) (0 + row) Em) as (cells & Ec & Hb).
    { rewrite lookup_seqZ_lt by lia. f_equal. lia. }
    rewrite Z.add_0_l in Hb. unfold buildPaneContentCells in Hb. destruct (panePuts _ _ _ _ _) as [ps|]; [|done]. cbn [mbind option_bind] in Hb. injection Hb as <-.
    eexists. split.
    { apply elem_of_app. right. apply elem_of_app. left. eapply elem_of_concat; [|by eapply list_elem_of_lookup_2].
      apply elem_of_app. left. apply (elem_of_rowPuts (rX r) (rY r + StatusLineRows + row) (rW r) (fun _ => blankScreenCell) i Hi). }
    split; [split; cbn; unfold StatusLineRows; lia|apply put_isPut].
  - set (row := y - rY r - 1) in *. eexists. split.
    { apply elem_of_app. right. apply elem_of_app. right. apply elem_of_app. right. unfold clearPaneContentRows. apply list_elem_of_bind. exists row. split; [|apply elem_of_seqZ; lia].
      cbv zeta. rewrite (proj2 (orb_false_iff _ _)).
      - apply (elem_of_rowPuts (rX r) (rY r + StatusLineRows + row) (rW r) (fun _ => blankScreenCell) i Hi).
      - unfold StatusLineRows. split; [apply Z.ltb_ge|apply Z.leb_gt]; lia. }
    split; [split; cbn; unfold StatusLineRows; lia|apply put_isPut].
Qed.
Lemma composePane_misses gridHeight layoutHeight p ops x y : PaneMinSize <= rH (pcRect p) -> composePane gridHeight layoutHeight p = Some ops ->
  inRect x y (pcRect p) = false -> misses ops x y.
Proof.
  intros Hmin E Hout. destruct (composePane_inside gridHeight layoutHeight p Hmin) as (ops' & E' & Hin). rewrite E in E'. injection E' as <-.
  apply misses_none. eapply Forall_impl; [exact Hin|]. intros op Ho [<- <-]. unfold opInside in Ho. congruence.
Qed.
End Panes.

(** ** The leaves of the layout *)
Lemma elem_of_paneLeaves root r d : (r, d) ∈ paneLeaves root <-> exists p, cellAt p root = Some (Leaf r d).
Proof.
  unfold paneLeaves. rewrite list_elem_of_fmap. split.
  - intros ([p [r' d']] & [= -> ->] & Hp). apply elem_of_Walk in Hp. by exists p.
  - intros [p Hp]. exists (p, (r, d)). split; [done|]. by apply elem_of_Walk.
Qed.
Lemma leaf_at_unique root x y r d r' d' : wf root -> positioned root -> (r, d) ∈ paneLeaves root -> (r', d') ∈ paneLeaves root ->
  inRect x y r = true -> inRect x y r' = true -> r = r' /\ d = d'.
Proof.
  intros Hwf Hpos [p Hp]%elem_of_paneLeaves [p' Hp']%elem_of_paneLeaves Hi Hi'.
  pose proof (FindLeafAt_complete x y root p r d Hwf Hpos Hp Hi). pose proof (FindLeafAt_complete x y root p' r' d' Hwf Hpos Hp' Hi').
  assert (p = p') by congruence. subst. by simplify_eq.
Qed.
Lemma leaf_height root r d : wf root -> (r, d) ∈ paneLeaves root -> PaneMinSize <= rH r.
Proof. intros Hwf [p Hp]%elem_of_paneLeaves. pose proof (wf_cellAt _ _ _ Hwf Hp) as Hw. by inversion Hw. Qed.

Lemma elem_of_visiblePanes `{Colors} inp r pid pd : (r, pid, pd) ∈ visiblePanes inp <->
  exists d, (r, d) ∈ paneLeaves (fiRoot inp) /\ CellPaneID d = pid /\ pid <> 0 /\ fiLookup inp pid = Some pd.
Proof.
  unfold visiblePanes. rewrite list_elem_of_omap. split.
  - intros ([r' d] & Hin & E). destruct (Z.eqb_spec (CellPaneID d) 0); [done|]. destruct (fiLookup inp (CellPaneID d)) as [v|] eqn:El; [|done].
    cbn in E. injection E as <- <- <-. by exists d.
  - intros (d & Hin & <- & Hne & El). exists (r, d). split; [done|]. destruct (Z.eqb_spec (CellPaneID d) 0); [done|]. by rewrite El.
Qed.

(** ** The parts of a frame *)
Section Parts.
Context `{GlyphLaws} `{!Palette}.
Implicit Types (c : FrameComp) (inp : FrameInput).

Definition paneProg c (layoutHeight : Z) inp (e : Rect * Z * PaneView) : option (list cellOp) :=
  let '(r, pid, pd) := e in composePane (compHeight (fcComp c)) layoutHeight (compositeFor c inp r pid pd).
Definition paneCell c (layoutHeight : Z) inp (e : Rect * Z * PaneView) (x y : Z) : ScreenCell :=
  opsOver (default [] (paneProg c layoutHeight inp e)) (fun _ _ => blankScreenCell) y x.
Lemma compositeFor_rect c inp r pid pd : pcRect (compositeFor c inp r pid pd) = r.
Proof. unfold compositeFor. by destruct (pvStatus _ _ _ _). Qed.

Lemma composePanes_spec c layoutHeight inp panes : wf (fiRoot inp) -> (forall e, e ∈ panes -> e ∈ visiblePanes inp) ->
  exists progs, composePanes c layoutHeight inp panes = Some (concat progs) /\ Forall2 (fun e prog => paneProg c layoutHeight inp e = Some prog) panes progs.
Proof.
  intros Hwf Hsub. unfold composePanes.
  assert (Htot : exists progs, mapM (paneProg c layoutHeight inp) panes = Some progs).
  { induction panes as [|[[r pid] pd] panes IH]; [by exists []|]. destruct IH as [progs E]; [intros; apply Hsub; by right|].
    assert (Hin : (r, pid, pd) ∈ visiblePanes inp) by (apply Hsub; left). apply elem_of_visiblePanes in Hin as (d & Hd & _).
    destruct (composePane_inside (compHeight (fcComp c)) layoutHeight (compositeFor c inp r pid pd)) as (ops & Ep & _).
    { rewrite compositeFor_rect. by eapply leaf_height. }
    exists (ops :: progs). change (mapM (paneProg c layoutHeight inp) ((r, pid, pd) :: panes)) with
      (prog ← composePane (compHeight (fcComp c)) layoutHeight (compositeFor c inp r pid pd); progs ← mapM (paneProg c layoutHeight inp) panes; Some (prog :: progs)).
    by rewrite Ep, E. }
  destruct Htot as [progs E]. exists progs. pose proof E as Hf. apply mapM_Some in Hf.
  change (mapM _ panes) with (mapM (paneProg c layoutHeight inp) panes). by rewrite E.
Qed.

Lemma panes_over c layoutHeight inp panes ops x y : wf (fiRoot inp) -> positioned (fiRoot inp) -> (forall e, e ∈ panes -> e ∈ visiblePanes inp) ->
  composePanes c layoutHeight inp panes = Some ops -> 0 <= y < compHeight (fcComp c) ->
  (forall e, e ∈ panes -> inRect x y e.1.1 = true -> fixes ops x y (paneCell c layoutHeight inp e x y)) /\
  ((forall e, e ∈ panes -> inRect x y e.1.1 = false) -> misses ops x y).
Proof.
  intros Hwf Hpos Hsub E Hy. destruct (composePanes_spec c layoutHeight inp panes Hwf Hsub) as (progs & E' & Hf). rewrite E in E'. injection E' as ->.
  assert (Hmiss : forall e prog, e ∈ panes -> paneProg c layoutHeight inp e = Some prog -> inRect x y e.1.1 = false -> misses prog x y).
  { intros [[r pid] pd] prog He%Hsub Ep Ho. apply elem_of_visiblePanes in He as (d & Hd & _).
    eapply composePane_misses; [|exact Ep|]; rewrite compositeFor_rect; [by eapply leaf_height|done]. }
  assert (Hfix : forall e prog, e ∈ panes -> paneProg c layoutHeight inp e = Some prog -> inRect x y e.1.1 = true -> fixes prog x y (paneCell c layoutHeight inp e x y)).
  { intros [[r pid] pd] prog He%Hsub Ep Hi. apply elem_of_visiblePanes in He as (d & Hd & _). unfold paneCell. rewrite Ep. cbn [default].
    eapply composePane_fixes; [|exact Ep| |done]; rewrite compositeFor_rect; [by eapply leaf_height|done]. }
  split.
  - intros e He Hi. apply fixes_concat.
    + apply Forall_forall. intros prog (k & Hk)%list_elem_of_lookup. destruct (Forall2_lookup_r _ _ _ _ _ Hf Hk) as (e' & Hk' & Ep).
      assert (He' : e' ∈ panes) by (by eapply list_elem_of_lookup_2). destruct (inRect x y e'.1.1) eqn:Hi'; [left|right; by eapply Hmiss].
      replace e with e'; [by eapply Hfix|]. destruct e as [[r pid] pd], e' as [[r' pid'] pd']. cbn in *.
      apply Hsub, elem_of_visiblePanes in He as (d & Hd & <- & _ & El). apply Hsub, elem_of_visiblePanes in He' as (d' & Hd' & <- & _ & El').
      destruct (leaf_at_unique _ x y _ _ _ _ Hwf Hpos Hd Hd' Hi Hi') as [-> ->]. congruence.
    + apply list_elem_of_lookup in He as [k Hk]. destruct (Forall2_lookup_l _ _ _ _ _ Hf Hk) as (prog & Hk' & Ep). apply Exists_exists.
      exists prog. split; [by eapply list_elem_of_lookup_2|]. eapply Hfix; [by eapply list_elem_of_lookup_2|done|done].
  - intros Hout. apply misses_concat, Forall_forall. intros prog (k & Hk)%list_elem_of_lookup.
    destruct (Forall2_lookup_r _ _ _ _ _ Hf Hk) as (e' & Hk' & Ep). assert (He' : e' ∈ panes) by (by eapply list_elem_of_lookup_2).
    apply (Hmiss e' prog He' Ep). by apply Hout.
Qed.


(** Labels of empty slots stay inside of them. *)
Lemma truncateRunes_len s max : Forall isByte s -> 0 < max -> lenZ (toRunes (truncateRunes s max)) <= max.
Proof.
  intros Hs Hmax. unfold truncateRunes. destruct (Z.leb_spec max 0); [lia|]. cbv zeta. destruct (Z.leb_spec (lenZ (toRunes s)) max); [done|].
  assert (Hr : Forall (fun r => isRune r = true) (toRunes s)).
  { apply toRunes_isRune. eapply Forall_impl; [exact Hs|]. unfold isByte. cbn. lia. }
  destruct (Z.eqb_spec max 1) as [->|Hne].
  - rewrite toRunes_fromRunes by (by apply Forall_take). unfold lenZ. rewrite length_take. lia.
  - change (bytesOf "…") with (fromRunes [0x2026]). unfold fromRunes. rewrite <- bind_app. fold (fromRunes (take (Z.to_nat (max - 1)) (toRunes s) ++ [0x2026])).
    rewrite toRunes_fromRunes by (apply Forall_app; split; [by apply Forall_take|by repeat constructor]).
    rewrite lenZ_app. unfold lenZ. rewrite length_take. cbn. lia.
Qed.
Lemma emptySlotLabel_bytes d : Forall isByte (emptySlotLabel d).
Proof.
  unfold emptySlotLabel. destruct (LeadSlot d); [apply bytesOf_isByte|]. destruct (Z.ltb_spec 0 (Slot d)); [|constructor].
  apply Forall_app. split; [apply bytesOf_isByte|]. apply Forall_app. split; [|apply bytesOf_isByte]. unfold formatDecimal. apply digits_isByte; [lia|constructor].
Qed.
Lemma emptySlotOps_inside theme layoutHeight r d : Forall (fun op => inRect op.1.1 op.1.2 r = true) (emptySlotOps theme layoutHeight r d).
Proof.
  unfold emptySlotOps. destruct (negb _); [constructor|]. cbv zeta.
  destruct (bool_decide _ || (rW r <? 2) || (rH r <? 1)) eqn:E1; [constructor|]. apply orb_false_iff in E1 as [[_ E1]%orb_false_iff E2].
  set (label := if rW r <? lenZ (toRunes (emptySlotLabel d)) then truncateRunes (emptySlotLabel d) (rW r) else emptySlotLabel d).
  assert (Hl : lenZ (toRunes label) <= rW r).
  { subst label. destruct (Z.ltb_spec (rW r) (lenZ (toRunes (emptySlotLabel d)))); [|done]. apply truncateRunes_len; [apply emptySlotLabel_bytes|lia]. }
  destruct (_ || _) eqn:E3; [constructor|]. apply orb_false_iff in E3 as [_ E3].
  apply Forall_forall. intros op Hop. apply list_elem_of_omap in Hop as ([i rune] & Hir & Ho).
  destruct (Z.leb_spec (rX r + rW r) (rX r + Z.quot (rW r - lenZ (toRunes label)) 2 + Z.of_nat i)); [done|].
  injection Ho as <-. cbn. pose proof (Z.quot_pos (rH r) 2 ltac:(lia) ltac:(lia)). pose proof (Z.quot_pos (rW r - lenZ (toRunes label)) 2 ltac:(lia) ltac:(lia)).
  unfold inRect. lia.
Qed.
Lemma emptySlots_miss theme root layoutHeight x y r d : wf root -> positioned root -> (r, d) ∈ paneLeaves root -> inRect x y r = true -> CellPaneID d <> 0 ->
  misses (buildEmptySlotCells theme root layoutHeight) x y.
Proof.
  intros Hwf Hpos Hin Hi Hne. apply misses_none, Forall_forall. intros op Hop. unfold buildEmptySlotCells in Hop.
  apply list_elem_of_bind in Hop as ([r' d'] & Hop & Hin'). intros [<- <-].
  pose proof (proj1 (Forall_forall _ _) (emptySlotOps_inside theme layoutHeight r' d') op Hop) as Hi'. cbn in Hi'.
  destruct (leaf_at_unique root _ _ _ _ _ _ Hwf Hpos Hin Hin' Hi Hi') as [-> ->].
  unfold emptySlotOps in Hop. destruct (Z.eqb_spec (CellPaneID d') 0); [done|]. by apply elem_of_nil in Hop.
Qed.

(** Borders are drawn in no pane. *)
Lemma borders_miss inp bm w h x y r d : wf (fiRoot inp) -> positioned (fiRoot inp) -> 0 <= w -> 0 <= h -> buildBorderMap (fiRoot inp) w h = Some bm ->
  (r, d) ∈ paneLeaves (fiRoot inp) -> inRect x y r = true -> misses (borderOps inp bm) x y.
Proof.
  intros Hwf Hpos Hw Hh Hb [p Hp]%elem_of_paneLeaves Hi. destruct (buildBorderMap_spec (fiRoot inp) w h Hw Hh) as (bm' & Hb' & _ & _ & [_ Hl] & Hg).
  rewrite Hb in Hb'. injection Hb' as <-. apply misses_none, Forall_forall. intros op Hop [<- <-]. unfold borderOps, buildBorderCellsWithTints in Hop.
  apply list_elem_of_fmap in Hop as ([[x y] cell] & -> & Hop). apply list_elem_of_fmap in Hop as ([x' y'] & [= -> -> ->] & Hop). cbn in Hi.
  apply Hl, bmHas_get in Hop as [Hm Hs]. destruct (Hg _ _ Hm) as [(a & b & Hpair & _)|[_ Hn]]; [|rewrite Hn in Hs; by destruct Hs].
  destruct (pair_hit _ _ _ _ _ Hwf Hpos Hpair) as [_ Hno]. pose proof (FindLeafAt_complete _ _ _ _ _ _ Hwf Hpos Hp Hi). congruence.
Qed.

(** Overlays set cells, at places that only depend on the overlays. *)
Lemma Forall_bind_all {A B} (P : B -> Prop) (f : A -> list B) l : (forall a, Forall P (f a)) -> Forall P (l ≫= f).
Proof. intros Hf. apply Forall_bind, Forall_forall. intros a _. apply Hf. Qed.
Lemma rowCellsOps_puts width y cells : Forall isPut (rowCellsOps width y cells).
Proof. unfold rowCellsOps. apply Forall_forall. intros op (i & cell & -> & _)%elem_of_lookup_imap. apply put_isPut. Qed.
Lemma overlayOps_puts c inp n : Forall isPut (overlayOps c inp n).
Proof.
  assert (Hm : forall {A} (f : A -> cellOp) l, (forall a, isPut (f a)) -> Forall isPut (map f l)).
  { intros A f l Hf. apply Forall_forall. intros op (a & -> & _)%list_elem_of_fmap. apply Hf. }
  unfold overlayOps. repeat apply Forall_app_2.
  - destruct (DropIndicator _) as [r|]; [|constructor]. cbn. unfold buildDropIndicatorCells. destruct (_ || _); [constructor|].
    apply Forall_bind_all. intros dy. apply Hm. intros dx. apply put_isPut.
  - unfold buildPaneOverlayCells. apply Forall_bind_all. intros [pid label]. destruct (_ ≫= _); [|constructor]. destruct (bool_decide _); [constructor|].
    destruct (paneOverlayPlacement _ _) as [[badge x] y]. apply Hm. intros [i rune]. apply put_isPut.
  - apply rowCellsOps_puts.
  - unfold buildWindowDropIndicatorCell. destruct (WindowDropIndicator _); [|constructor]. destruct (_ || _); [constructor|]. constructor; [apply put_isPut|constructor].
  - unfold buildHelpBarCells. destruct (_ <? _); [constructor|]. apply Forall_concat, Forall_forall. intros l (i & cells & -> & _)%elem_of_lookup_imap. apply rowCellsOps_puts.
  - apply Hm. intros [[x y] cell]. apply put_isPut.
Qed.
Lemma rowCellsOps_places width y a b : width <= lenZ a -> width <= lenZ b -> map fst (rowCellsOps width y a) = map fst (rowCellsOps width y b).
Proof.
  intros Ha Hb. unfold rowCellsOps, lenZ in *. apply list_eq. intros i. rewrite !list_lookup_fmap, !list_lookup_imap.
  destruct (decide (i < Z.to_nat width)%nat) as [Hi|Hi].
  - destruct (lookup_lt_is_Some_2 (take (Z.to_nat width) a) i) as [u ->]; [rewrite length_take; lia|].
    destruct (lookup_lt_is_Some_2 (take (Z.to_nat width) b) i) as [v ->]; [rewrite length_take; lia|]. done.
  - rewrite !lookup_ge_None_2; [done|rewrite length_take; lia|rewrite length_take; lia].
Qed.
Lemma bind_places {A} (f f' : A -> list cellOp) l : (forall a, map fst (f a) = map fst (f' a)) -> map fst (l ≫= f) = map fst (l ≫= f').
Proof. intros Hf. induction l as [|a l IH]; [done|]. rewrite !bind_cons, !map_app, IH. by f_equal. Qed.
Lemma overlayOps_places c inp0 inp1 n m : fiRoot inp0 = fiRoot inp1 -> fiOverlay inp0 = fiOverlay inp1 ->
  compWidth (fcComp c) <= lenZ (fiBar inp0 n) -> compWidth (fcComp c) <= lenZ (fiBar inp1 m) -> map fst (overlayOps c inp0 n) = map fst (overlayOps c inp1 m).
Proof.
  intros Er Eo H0' H1'. unfold overlayOps. rewrite !map_app, Eo. f_equal; [|f_equal; [|f_equal; [by apply rowCellsOps_places|f_equal]]].
  - destruct (DropIndicator _) as [r|]; [|done]. cbn. unfold buildDropIndicatorCells. destruct (_ || _); [done|].
    apply bind_places. intros dy. by rewrite !map_map.
  - unfold buildPaneOverlayCells. rewrite Eo, Er. apply bind_places. intros [pid label].
    destruct (_ ≫= _); [|done]. destruct (bool_decide _); [done|]. destruct (paneOverlayPlacement _ _) as [[badge x] y]. rewrite !map_map. apply map_ext. by intros [i rune].
  - unfold buildWindowDropIndicatorCell. destruct (WindowDropIndicator _); [|done]. by destruct (_ || _).
Qed.
End Parts.
