(* ===== verification/FrameProps.v ===== *)
(** * Properties of frames *)

From S2P Require Import Prelude GoText GoCodec GoRunes LayoutSizes LayoutTree LayoutFacts LayoutEdit LayoutTiling WindowState CopyMode CopyOverlay.
From S2P Require Import ScreenGrid ScreenEmit ScreenTerm ScreenFacts ScreenHeap ScreenFrame ScreenProps PaneRows PaneRowFacts PaneComposeProps BorderMap BorderProps FrameGrid FrameFacts.

(** Grids with the same cells. *)
Definition sameCells `{Colors} (h : heap) (g : ScreenGrid) (h' : heap) (g' : ScreenGrid) : Prop :=
  gWidth g = gWidth g' /\ gHeight g = gHeight g' /\ forall y x, inGrid g y -> 0 <= x < gWidth g -> gridCell h g y x = gridCell h' g' y x.

(** What is drawn of a pane: not its cursor, which is placed when the frame is
    written. *)
Definition drawnOf `{Colors} (pd : PaneView) : PaneData * bytes * bytes * bytes * (Z -> bool -> bool -> list ScreenCell * ScreenCell) :=
  (pvData pd, pvColor pd, pvAccent pd, pvBorderTint pd, pvStatus pd).
Definition hasPane (root : LayoutCell) (pid : Z) : Prop := pid <> 0 /\ exists r d, (r, d) ∈ paneLeaves root /\ CellPaneID d = pid.
(** What may change between frames without a full one: the panes in [dirty],
    cursors, and panes that are not in the layout, but not which panes there
    are, the colors of borders, and the text of the bar. *)
Record FrameChange `{Colors} (width : Z) (dirty : gset Z) (inp0 inp1 : FrameInput) : Prop := {
  fch_root : fiRoot inp0 = fiRoot inp1;
  fch_active : fiActive inp0 = fiActive inp1;
  fch_overlay : fiOverlay inp0 = fiOverlay inp1;
  fch_theme : fiTheme inp0 = fiTheme inp1;
  fch_clean pid : pid ∉ dirty -> hasPane (fiRoot inp1) pid -> option_map drawnOf (fiLookup inp0 pid) = option_map drawnOf (fiLookup inp1 pid);
  fch_tints pid : option_map pvBorderTint (fiLookup inp0 pid) = option_map pvBorderTint (fiLookup inp1 pid);
  fch_color : activeColorHex inp0 = activeColorHex inp1;
  fch_bars n : width <= lenZ (fiBar inp0 n) /\ width <= lenZ (fiBar inp1 n) }.

Section Partial.
Context `{GlyphLaws} `{!Palette}.
Implicit Types (c : FrameComp) (inp : FrameInput).

Lemma change_visible width dirty inp0 inp1 : FrameChange width dirty inp0 inp1 ->
  map (fun e => (e.1, pvBorderTint e.2)) (visiblePanes inp0) = map (fun e => (e.1, pvBorderTint e.2)) (visiblePanes inp1).
Proof.
  intros Hc. unfold visiblePanes. rewrite (fch_root _ _ _ _ Hc). induction (paneLeaves (fiRoot inp1)) as [|[r d] l IH]; [done|]. cbn [omap list_omap].
  destruct (CellPaneID d =? 0); [done|]. pose proof (fch_tints _ _ _ _ Hc (CellPaneID d)) as Ht.
  destruct (fiLookup inp0 (CellPaneID d)) as [pd0|], (fiLookup inp1 (CellPaneID d)) as [pd1|]; cbn in *; [|done|done|done].
  injection Ht as Ht. cbn. by rewrite Ht, IH.
Qed.
Lemma tintMap_of panes : paneBorderTintMap panes = fold_left (fun m '(e, tint) => match tint with [] => m | _ => <[e.2 := tint]> m end)
  (map (fun e : Rect * Z * PaneView => (e.1, pvBorderTint e.2)) panes) ∅.
Proof.
  unfold paneBorderTintMap. generalize (∅ : gmap Z bytes). induction panes as [|[[r pid] pd] panes IH]; intros m; [done|]. cbn. destruct (pvBorderTint pd); apply IH.
Qed.
Lemma change_borders width dirty inp0 inp1 bm : FrameChange width dirty inp0 inp1 -> borderOps inp0 bm = borderOps inp1 bm.
Proof.
  intros Hc. unfold borderOps. rewrite !tintMap_of, (change_visible _ _ _ _ Hc). by rewrite (fch_active _ _ _ _ Hc), (fch_color _ _ _ _ Hc), (fch_theme _ _ _ _ Hc).
Qed.
Lemma change_pane width dirty inp0 inp1 e : FrameChange width dirty inp0 inp1 -> e ∈ visiblePanes inp1 ->
  exists pd0, (e.1, pd0) ∈ visiblePanes inp0 /\ (e.1.2 ∉ dirty -> drawnOf pd0 = drawnOf e.2).
Proof.
  intros Hc He. destruct e as [[r pid] pd]. apply elem_of_visiblePanes in He as (d & Hd & Ed & Hne & El). cbn.
  pose proof (fch_tints _ _ _ _ Hc pid) as Ht. rewrite El in Ht. destruct (fiLookup inp0 pid) as [pd0|] eqn:E0; [|done]. exists pd0. split.
  - apply elem_of_visiblePanes. exists d. rewrite (fch_root _ _ _ _ Hc). done.
  - intros Hn. assert (Hp : hasPane (fiRoot inp1) pid) by (split; [congruence|by exists r, d]).
    pose proof (fch_clean _ _ _ _ Hc pid Hn Hp) as E. rewrite E0, El in E. cbn in E. congruence.
Qed.
Lemma change_sym width dirty inp0 inp1 : FrameChange width dirty inp0 inp1 -> FrameChange width dirty inp1 inp0.
Proof. intros []. split; [done|done|done|done|by intros; symmetry; apply fch_clean0; [|rewrite <- fch_root0]|done|done|]. intros n. by destruct (fch_bars0 n). Qed.
Lemma change_paneCell width dirty inp0 inp1 c layoutHeight e pd0 x y : FrameChange width dirty inp0 inp1 -> drawnOf pd0 = drawnOf e.2 ->
  paneCell c layoutHeight inp0 (e.1, pd0) x y = paneCell c layoutHeight inp1 e x y.
Proof.
  intros Hc. destruct e as [[r pid] pd]. unfold drawnOf. cbn [fst snd]. intros [= Ed _ _ _ Es]. unfold paneCell, paneProg, compositeFor.
  by rewrite Ed, Es, (fch_root _ _ _ _ Hc), (fch_active _ _ _ _ Hc), (fch_overlay _ _ _ _ Hc).
Qed.

Lemma layoutHeight_nonneg c o : 0 <= layoutHeightForHelpBar c o.
Proof. unfold layoutHeightForHelpBar. cbv zeta. destruct (Z.ltb_spec (compHeight (fcComp c) - GlobalBarHeight - lenZ (HelpRows o)) 0); lia. Qed.

(** The parts of a whole frame. *)
Lemma frameOps_parts c inp : wf (fiRoot inp) -> 0 <= compWidth (fcComp c) ->
  let lh := layoutHeightForHelpBar c (fiOverlay inp) in
  exists ops bm, composePanes c lh inp (visiblePanes inp) = Some ops /\ buildBorderMap (fiRoot inp) (compWidth (fcComp c)) lh = Some bm /\
    frameOps c inp = Some (ops ++ buildEmptySlotCells (fiTheme inp) (fiRoot inp) lh ++ borderOps inp bm ++ overlayOps c inp (lenZ (visiblePanes inp))).
Proof.
  intros Hwf HW lh. destruct (composePanes_spec c lh inp (visiblePanes inp) Hwf ltac:(done)) as (progs & E & _).
  destruct (buildBorderMap_spec (fiRoot inp) (compWidth (fcComp c)) lh HW (layoutHeight_nonneg c _)) as (bm & Eb & _).
  exists (concat progs), bm. unfold frameOps. fold lh. by rewrite E, Eb.
Qed.
Lemma fullFrame_spec c inp h : wf (fiRoot inp) -> 0 <= compWidth (fcComp c) -> 0 <= compHeight (fcComp c) ->
  exists ops h' g, frameOps c inp = Some ops /\ buildGridWithOverlay c inp h = Some (h', g, lenZ (visiblePanes inp)) /\ keeps (length h) h h' /\
    GridInv (length h) h' g /\ gWidth g = compWidth (fcComp c) /\ gHeight g = compHeight (fcComp c) /\
    forall y x, inGrid g y -> 0 <= x < gWidth g -> gridCell h' g y x = opsOver ops (fun _ _ => blankScreenCell) y x.
Proof.
  intros Hwf HW HH. destruct (frameOps_parts c inp Hwf HW) as (pops & bm & _ & _ & E). eexists _. unfold buildGridWithOverlay.
  destruct (NewScreenGrid_spec h _ _ HW HH) as (h1 & g1 & -> & Hi & Hk & W1 & G1 & C1). cbn [mbind option_bind]. rewrite E. cbn [mbind option_bind].
  destruct (doOps_any _ (pops ++ buildEmptySlotCells (fiTheme inp) (fiRoot inp) (layoutHeightForHelpBar c (fiOverlay inp)) ++ borderOps inp bm ++
    overlayOps c inp (lenZ (visiblePanes inp))) h1 g1 Hi) as (h2 & g2 & E2 & Hi2 & L2 & K2 & W2 & G2 & C2). rewrite E2. cbn [mbind option_bind].
  exists h2, g2. split; [done|]. split; [done|]. split; [by eapply keeps_grow|]. split; [done|]. split; [congruence|]. split; [congruence|].
  intros y x Hy Hx. rewrite C2 by (unfold inGrid in *; lia). apply opsOver_ext. apply C1; unfold inGrid in *; lia.
Qed.

(** One cell of a partial frame. *)
Lemma partial_cell c inp0 inp1 dirty lh pops0 pops1 dops bm x y :
  FrameChange (compWidth (fcComp c)) dirty inp0 inp1 -> wf (fiRoot inp1) -> positioned (fiRoot inp1) -> 0 <= compWidth (fcComp c) ->
  0 <= lh -> 0 <= y < compHeight (fcComp c) ->
  composePanes c lh inp0 (visiblePanes inp0) = Some pops0 -> composePanes c lh inp1 (visiblePanes inp1) = Some pops1 ->
  composePanes c lh inp1 (dirtyPanesOf inp1 dirty) = Some dops -> buildBorderMap (fiRoot inp1) (compWidth (fcComp c)) lh = Some bm ->
  let rest inp := buildEmptySlotCells (fiTheme inp) (fiRoot inp) lh ++ borderOps inp bm ++ overlayOps c inp (lenZ (visiblePanes inp)) in
  let blank := fun _ _ => blankScreenCell in
  opsOver (dops ++ overlayOps c inp1 (lenZ (visiblePanes inp1))) (opsOver (pops0 ++ rest inp0) blank) y x = opsOver (pops1 ++ rest inp1) blank y x.
Proof.
  intros Hc Hwf Hpos HW Hlh Hy E0 E1 Ed Eb rest blank. assert (Hwf0 : wf (fiRoot inp0)) by (by rewrite (fch_root _ _ _ _ Hc)).
  assert (Hpos0 : positioned (fiRoot inp0)) by (by rewrite (fch_root _ _ _ _ Hc)).
  assert (Hdirty : forall e, e ∈ dirtyPanesOf inp1 dirty <-> e ∈ visiblePanes inp1 /\ e.1.2 ∈ dirty).
  { intros e. unfold dirtyPanesOf. rewrite !list_elem_of_In, filter_In, bool_decide_eq_true. done. }
  unfold rest. rewrite !opsOver_app.
  pose proof (overlayOps_places c inp0 inp1 (lenZ (visiblePanes inp0)) (lenZ (visiblePanes inp1)) (fch_root _ _ _ _ Hc) (fch_overlay _ _ _ _ Hc)
    (proj1 (fch_bars _ _ _ _ Hc _)) (proj2 (fch_bars _ _ _ _ Hc _))) as Hplaces.
  destruct (puts_dich _ x y (overlayOps_puts c inp1 (lenZ (visiblePanes inp1)))) as [Hf|Hm]; [by rewrite !Hf|].
  assert (Hm0 : misses (overlayOps c inp0 (lenZ (visiblePanes inp0))) x y) by (apply misses_none; by eapply places_miss).
  rewrite !(misses_none _ _ _ Hm). 
  pose proof (panes_over c lh inp0 _ _ x y Hwf0 Hpos0 ltac:(done) E0 Hy) as [F0 M0].
  pose proof (panes_over c lh inp1 _ _ x y Hwf Hpos ltac:(done) E1 Hy) as [F1 M1].
  pose proof (panes_over c lh inp1 _ _ x y Hwf Hpos ltac:(intros; by apply Hdirty) Ed Hy) as [FD MD].
  destruct (decide (Exists (fun e => inRect x y e.1.1 = true) (visiblePanes inp1))) as [He|He].
  - apply Exists_exists in He as (e & He & Hi). destruct (change_pane _ _ _ _ _ Hc He) as (pd0 & He0 & Hpd).
    assert (Hleaf : exists d, (e.1.1, d) ∈ paneLeaves (fiRoot inp1) /\ CellPaneID d <> 0).
    { destruct e as [[r pid] pd]. apply elem_of_visiblePanes in He as (d & Hd & <- & Hne & _). by exists d. }
    destruct Hleaf as (d & Hd & Hne).
    assert (HE : forall f, opsOver (borderOps inp1 bm) (opsOver (buildEmptySlotCells (fiTheme inp1) (fiRoot inp1) lh) f) y x = f y x).
    { intros f. rewrite (borders_miss inp1 bm _ _ x y _ _ Hwf Hpos HW Hlh Eb Hd Hi). by apply (emptySlots_miss _ _ _ _ _ _ _ Hwf Hpos Hd Hi). }
    destruct (decide (e.1.2 ∈ dirty)) as [Hin|Hout].
    + rewrite (FD e) by (by try apply Hdirty). by rewrite HE, (F1 e).
    + assert (Hsame : forall e', e' ∈ dirtyPanesOf inp1 dirty -> inRect x y e'.1.1 = false).
      { intros e' [He' Hd']%Hdirty. destruct (inRect x y e'.1.1) eqn:Hi'; [|done]. exfalso. apply Hout.
        destruct e as [[r pid] pd], e' as [[r' pid'] pd']. apply elem_of_visiblePanes in He as (a & Ha & <- & _). apply elem_of_visiblePanes in He' as (b & Hb & <- & _).
        by destruct (leaf_at_unique _ x y _ _ _ _ Hwf Hpos Ha Hb Hi Hi') as [_ ->]. }
      rewrite (MD Hsame), !opsOver_app, Hm0, HE, (F1 e He Hi), (change_borders _ _ _ _ bm Hc), (fch_root _ _ _ _ Hc), (fch_theme _ _ _ _ Hc), HE.
      rewrite (F0 (e.1, pd0) He0 Hi). by apply (change_paneCell _ _ _ _ _ _ _ _ _ _ Hc), Hpd.
  - assert (Hno : forall inp e, map (fun e => e.1) (visiblePanes inp) = map (fun e => e.1) (visiblePanes inp1) -> e ∈ visiblePanes inp -> inRect x y e.1.1 = false).
    { intros inp e Em Hin. destruct (inRect x y e.1.1) eqn:Hi; [|done]. exfalso. apply He.
      assert (H' : e.1 ∈ map (fun e => e.1) (visiblePanes inp1)) by (rewrite <- Em; by apply list_elem_of_fmap_2).
      apply list_elem_of_fmap in H' as (e' & Ee & He'). apply Exists_exists. exists e'. by rewrite <- Ee. }
    assert (Em : map (fun e => e.1) (visiblePanes inp0) = map (fun e => e.1) (visiblePanes inp1)).
    { pose proof (f_equal (map fst) (change_visible _ _ _ _ Hc)) as E. by rewrite !map_map in E. }
    rewrite MD by (intros e Hin; apply (Hno inp1); [done|by apply Hdirty in Hin as [? _]]).
    rewrite !opsOver_app, Hm0, (change_borders _ _ _ _ bm Hc), (fch_root _ _ _ _ Hc), (fch_theme _ _ _ _ Hc).
    do 2 apply opsOver_ext. rewrite (M0 ltac:(intros e; by apply Hno)). by rewrite (M1 ltac:(intros e; by apply Hno)).
Qed.

(** What the last grid holds: the cells of a whole frame. *)
Definition holdsWhole c inp (h : heap) (g : ScreenGrid) : Prop :=
  readable h g /\ exists h' g' n, buildGridWithOverlay c inp [] = Some (h', g', n) /\ sameCells h g h' g'.
Lemma holdsWhole_ops c inp h g : wf (fiRoot inp) -> 0 <= compWidth (fcComp c) -> 0 <= compHeight (fcComp c) ->
  holdsWhole c inp h g <-> readable h g /\ gWidth g = compWidth (fcComp c) /\ gHeight g = compHeight (fcComp c) /\
    exists ops, frameOps c inp = Some ops /\ forall y x, inGrid g y -> 0 <= x < gWidth g -> gridCell h g y x = opsOver ops (fun _ _ => blankScreenCell) y x.
Proof.
  intros Hwf HW HH. destruct (fullFrame_spec c inp [] Hwf HW HH) as (ops & h' & g' & Eo & Ef & _ & _ & W1 & G1 & C1). unfold holdsWhole. split.
  - intros [Hr (h2 & g2 & n & E & W2 & G2 & C2)]. rewrite Ef in E. injection E as <- <- <-. split; [done|]. split; [congruence|]. split; [congruence|].
    exists ops. split; [done|]. intros y x Hy Hx. rewrite C2, C1 by (unfold inGrid in *; lia). done.
  - intros (Hr & W2 & G2 & ops' & Eo' & C2). assert (ops' = ops) as -> by congruence. split; [done|]. exists h', g', (lenZ (visiblePanes inp)).
    split; [done|]. split; [congruence|]. split; [congruence|]. intros y x Hy Hx. rewrite C1, C2 by (unfold inGrid in *; lia). done.
Qed.

(** A frame, whole or in part, holds the cells of a whole one. *)
Lemma frame_whole c inp0 inp1 dirty full h : wf (fiRoot inp1) -> positioned (fiRoot inp1) -> 0 <= compWidth (fcComp c) -> 0 <= compHeight (fcComp c) ->
  (full = true \/ forall prev, prevGrid (fcComp c) = Some prev -> holdsWhole c inp0 h prev /\ FrameChange (compWidth (fcComp c)) dirty inp0 inp1) ->
  exists h' g n, buildGridWithOverlayDirty c inp1 dirty full h = Some (h', g, n) /\ holdsWhole c inp1 h' g /\ keeps (length h) h h'.
Proof.
  intros Hwf Hpos HW HH Hprev. destruct (fullFrame_spec c inp1 h Hwf HW HH) as (ops & h1 & g1 & Eo & Ef & Hk & Hi & W1 & G1 & C1).
  assert (Hfull : exists h' g n, buildGridWithOverlay c inp1 h = Some (h', g, n) /\ holdsWhole c inp1 h' g /\ keeps (length h) h h').
  { exists h1, g1, (lenZ (visiblePanes inp1)). split; [done|]. split; [|done]. apply holdsWhole_ops; [done|done|done|]. split; [by eapply GridInv_readable|].
    split; [done|]. split; [done|]. by exists ops. }
  unfold buildGridWithOverlayDirty. cbv zeta. destruct (prevGrid (fcComp c)) as [prev|] eqn:Ep; [|done].
  destruct full; [done|]. destruct (_ && _); [done|]. cbn [orb]. destruct Hprev as [?|Hprev]; [done|]. destruct (Hprev prev eq_refl) as [Hw Hc].
  rewrite (proj2 (Z.ltb_ge _ _) HH). assert (Hwf0 : wf (fiRoot inp0)) by (by rewrite (fch_root _ _ _ _ Hc)).
  apply holdsWhole_ops in Hw as (Hr & PW & PH & ops0 & E0 & C0); [|done|done|done].
  set (lh := layoutHeightForHelpBar c (fiOverlay inp1)).
  destruct (frameOps_parts c inp0 Hwf0 HW) as (p0 & bm0 & P0 & B0 & F0). destruct (frameOps_parts c inp1 Hwf HW) as (p1 & bm & P1 & B1 & F1).
  rewrite (fch_overlay _ _ _ _ Hc) in P0, B0, F0. rewrite (fch_root _ _ _ _ Hc) in B0. fold lh in P0, B0, F0, P1, B1, F1. assert (bm0 = bm) as -> by congruence.
  destruct (composePanes_spec c lh inp1 (dirtyPanesOf inp1 dirty) Hwf) as (dps & D1 & _).
  { intros e He. unfold dirtyPanesOf in He. apply list_elem_of_In, filter_In in He as [He _]. by apply list_elem_of_In. }
  pose proof (cloneDirtyRows_spec h prev (dirtyRowsOf c (dirtyPanesOf inp1 dirty)) Hr ltac:(lia)) as Hcl.
  destruct (cloneDirtyRows _ prev h) as [h2 g2]. destruct Hcl as (Hi2 & Hk2 & W2 & G2 & C2). rewrite D1. cbn [mbind option_bind].
  destruct (doOps_any _ (concat dps ++ overlayOps c inp1 (lenZ (visiblePanes inp1))) h2 g2 Hi2) as (h3 & g3 & E3 & Hi3 & L3 & K3 & W3 & G3 & C3).
  rewrite E3. cbn [mbind option_bind]. exists h3, g3, (lenZ (dirtyPanesOf inp1 dirty)). split; [done|]. split; [|by eapply keeps_grow].
  apply holdsWhole_ops; [done|done|done|]. split; [by eapply GridInv_readable|]. split; [congruence|]. split; [congruence|].
  eexists. split; [exact F1|]. intros y x Hy Hx. rewrite C3 by (unfold inGrid in *; lia). rewrite F0 in E0. injection E0 as <-.
  rewrite <- (partial_cell c inp0 inp1 dirty lh p0 p1 (concat dps) bm x y Hc Hwf Hpos HW (layoutHeight_nonneg c _)); [|unfold inGrid in *; lia|done|done|done|done].
  apply opsOver_ext. rewrite C2 by (unfold inGrid in *; lia). rewrite C0 by (unfold inGrid in *; lia).
  by rewrite (fch_root _ _ _ _ Hc), (fch_theme _ _ _ _ Hc).
Qed.

(** C7. Redrawing only the panes that changed gives the same screen as drawing
    everything: where the last grid holds a whole frame, and since then the text
    of the bar and the panes in [dirty] changed but neither the layout nor the
    overlays nor the colors of borders, the grid of the partial frame has, cell
    for cell, the content of a whole one, and the rows it shares with
    the last grid leave that grid as it was. *)
Theorem partial_frame_complete c inp0 inp1 dirty prev h :
  wf (fiRoot inp1) -> positioned (fiRoot inp1) -> 0 <= compWidth (fcComp c) -> 0 <= compHeight (fcComp c) ->
  prevGrid (fcComp c) = Some prev -> holdsWhole c inp0 h prev -> FrameChange (compWidth (fcComp c)) dirty inp0 inp1 ->
  exists h1 g1 n1 h2 g2 n2, buildGridWithOverlayDirty c inp1 dirty false h = Some (h1, g1, n1) /\ buildGridWithOverlay c inp1 h = Some (h2, g2, n2) /\
    sameCells h1 g1 h2 g2 /\ (forall y, inGrid prev y -> rowCells h1 prev y = rowCells h prev y).
Proof.
  intros Hwf Hpos HW HH Ep Hw Hc. destruct (frame_whole c inp0 inp1 dirty false h Hwf Hpos HW HH) as (h1 & g1 & n1 & E1 & Hw1 & K1).
  { right. intros prev' E'. rewrite Ep in E'. by injection E' as <-. }
  destruct (fullFrame_spec c inp1 h Hwf HW HH) as (ops & h2 & g2 & Eo & E2 & _ & _ & W2 & G2 & C2).
  exists h1, g1, n1, h2, g2, (lenZ (visiblePanes inp1)). split; [done|]. split; [done|]. destruct Hw as [Hr _]. split; [|by apply (readable_keeps h h1 prev Hr K1)].
  apply holdsWhole_ops in Hw1 as (_ & W1 & G1 & ops' & Eo' & C1); [|done|done|done]. assert (ops' = ops) as -> by congruence.
  split; [congruence|]. split; [congruence|]. intros y x Hy Hx. rewrite C1, C2 by (unfold inGrid in *; lia). done.
Qed.

(** Runs of the compositor: frames, each whole or with a change that allows to
    redraw some panes, and the settings that forget the last frame. *)
Definition mayDraw c inp0 inp1 (dirty : gset Z) (full : bool) : Prop :=
  wf (fiRoot inp1) /\ positioned (fiRoot inp1) /\ (full = true \/ prevGrid (fcComp c) = None \/ FrameChange (compWidth (fcComp c)) dirty inp0 inp1).
Inductive frameRun `{!UV} : FrameInput -> heap -> FrameComp -> Prop :=
| RunStart inp w h precise bg : 0 <= w -> 0 <= h -> frameRun inp [] (mkFrameComp (NewCompositor w h precise) [] bg)
| RunFrame inp0 inp1 dirty full h c out n h' c' : frameRun inp0 h c -> mayDraw c inp0 inp1 dirty full ->
    RenderDiffWithOverlayDirtyStats inp1 dirty full h c = Some (out, n, h', c') -> frameRun inp1 h' c'
| RunClear inp h c : frameRun inp h c -> frameRun inp h (ClearPrevGrid c)
| RunTint inp h c hex : frameRun inp h c -> frameRun inp h (SetAlternateTintBg hex c)
| RunResize inp h c w h' : frameRun inp h c -> 0 <= w -> 0 <= h' -> frameRun inp h (resizeFrame w h' c).

Lemma holdsWhole_ext c c' inp h g : compWidth (fcComp c) = compWidth (fcComp c') -> compHeight (fcComp c) = compHeight (fcComp c') -> altTintBg c = altTintBg c' ->
  holdsWhole c inp h g -> holdsWhole c' inp h g.
Proof.
  intros EW EH Et. unfold holdsWhole, buildGridWithOverlay, frameOps, composePanes, compositeFor, paneAltTintBg, layoutHeightForHelpBar, overlayOps.
  by rewrite EW, EH, Et.
Qed.
Lemma drawn_whole `{!UV} c inp0 inp1 dirty full h : 0 <= compWidth (fcComp c) -> 0 <= compHeight (fcComp c) -> mayDraw c inp0 inp1 dirty full ->
  (forall prev, prevGrid (fcComp c) = Some prev -> holdsWhole c inp0 h prev) ->
  exists out n h' c' g, RenderDiffWithOverlayDirtyStats inp1 dirty full h c = Some (out, n, h', c') /\ prevGrid (fcComp c') = Some g /\ holdsWhole c' inp1 h' g /\
    compWidth (fcComp c') = compWidth (fcComp c) /\ compHeight (fcComp c') = compHeight (fcComp c).
Proof.
  intros HW HH (Hwf & Hpos & Hd) Hprev. destruct (frame_whole c inp0 inp1 dirty full h Hwf Hpos HW HH) as (h' & g & n & E & Hw & _).
  { destruct Hd as [->|[Hn|Hc]]; [by left|right; by rewrite Hn|right; intros prev Ep; split; [by apply Hprev|done]]. }
  unfold RenderDiffWithOverlayDirtyStats. cbv zeta. rewrite E. cbn [mbind option_bind]. unfold renderGrid. cbv zeta.
  destruct (_ && negb _); [|destruct (if preciseSGR _ then _ else _) as [o l]]; eexists _, _, _, _, g; (split; [done|]); split; [done| |done|];
    (split; [|done]); by eapply holdsWhole_ext; [..|exact Hw].
Qed.

(** In every run of the compositor, however whole and partial frames and the
    settings that forget the last one are interleaved, a frame can always be drawn and
    the grid it leaves for the next holds the whole frame of the last input. *)
Theorem frames_stay_whole `{!UV} inp h c : frameRun inp h c ->
  (forall prev, prevGrid (fcComp c) = Some prev -> holdsWhole c inp h prev) /\
  forall inp1 dirty full, mayDraw c inp inp1 dirty full -> exists out n h' c' g,
    RenderDiffWithOverlayDirtyStats inp1 dirty full h c = Some (out, n, h', c') /\ prevGrid (fcComp c') = Some g /\ holdsWhole c' inp1 h' g.
Proof.
  intros Hrun. assert (Hinv : 0 <= compWidth (fcComp c) /\ 0 <= compHeight (fcComp c) /\ forall prev, prevGrid (fcComp c) = Some prev -> holdsWhole c inp h prev).
  { induction Hrun as [inp w h precise bg|inp0 inp1 dirty full h c out n h' c' _ (HW & HH & IH) Hd E|inp h c _ IH|inp h c hex _ IH|inp h c w h' _ IH]; [done| | | |done].
    - destruct (drawn_whole c inp0 inp1 dirty full h HW HH Hd IH) as (? & ? & ? & ? & g & E' & Ep & Hw & EW & EH). rewrite E in E'. injection E' as <- <- <- <-.
      rewrite EW, EH. split; [done|]. split; [done|]. intros prev Ep'. rewrite Ep in Ep'. by injection Ep' as <-.
    - by destruct IH as (? & ? & _).
    - unfold SetAlternateTintBg. case_bool_decide; [done|]. by destruct IH as (? & ? & _). }
  destruct Hinv as (HW & HH & Hinv). split; [done|]. intros inp1 dirty full Hd.
  destruct (drawn_whole c inp inp1 dirty full h HW HH Hd Hinv) as (? & ? & ? & ? & ? & ? & ? & ? & _). by do 5 eexists.
Qed.
End Partial.

(** ** Witnesses

    Two panes side by side; the text of the first changes. *)
Definition sampleView (text : bytes) : PaneView :=
  mkPaneView (mkPaneData (fun col row active => plain text) None None) (bytesOf "f38ba8") (bytesOf "f38ba8") []
    (fun w active pressed => ([plain (bytesOf "=")], plain (bytesOf "="))) false false (0, 0).
Definition sampleInput (text : bytes) : FrameInput :=
  mkFrameInput sampleRoot 1 (fun pid => if pid =? 1 then Some (sampleView text) else if pid =? 2 then Some (sampleView (bytesOf "z")) else None)
    (mkOverlays [(2, bytesOf "b")] None None [] 0 []) (fun n => repeat (plain (formatDecimal n)) 9) (mkTheme (bytesOf "585b70") (bytesOf "313244") (bytesOf "cdd6f4") (bytesOf "89b4fa")).
Definition sampleStart : FrameComp := mkFrameComp (NewCompositor 9 5 false) [] [].
Definition sampleDrawn : heap * ScreenGrid * Z := default ([], sampleGrid, 0) (buildGridWithOverlay sampleStart (sampleInput (bytesOf "x")) []).
Definition sampleComp : FrameComp := mkFrameComp (withFrame (Some sampleDrawn.1.2) (Some sampleDrawn.1.2) noCursor defaultEmittedCellState (NewCompositor 9 5 false)) [] [].
Lemma sampleDrawn_whole : holdsWhole sampleComp (sampleInput (bytesOf "x")) sampleDrawn.1.1 sampleDrawn.1.2.
Proof.
  apply (holdsWhole_ext sampleStart); [done|done|done|].
  destruct (fullFrame_spec sampleStart (sampleInput (bytesOf "x")) [] (wfb_sound sampleRoot eq_refl) ltac:(done) ltac:(done)) as (ops & h & g & Eo & E & _ & Hi & W1 & G1 & C1).
  unfold sampleDrawn. rewrite E. cbn [default fst snd]. apply holdsWhole_ops; [exact (wfb_sound sampleRoot eq_refl)|done|done|].
  split; [by eapply GridInv_readable|]. split; [done|]. split; [done|]. exists ops. split; [exact Eo|exact C1].
Qed.
Lemma sampleChange : FrameChange 9 {[1]} (sampleInput (bytesOf "x")) (sampleInput (bytesOf "y")).
Proof.
  split; [done|done|done|done| | |done|done].
  - intros pid Hpid. cbn. destruct (Z.eqb_spec pid 1) as [->|]; [|done]. set_solver.
  - intros pid. cbn. by destruct (pid =? 1), (pid =? 2).
Qed.

Lemma partial_frame_complete_witness : exists h1 g1 n1 h2 g2 n2,
  buildGridWithOverlayDirty sampleComp (sampleInput (bytesOf "y")) {[1]} false sampleDrawn.1.1 = Some (h1, g1, n1) /\
  buildGridWithOverlay sampleComp (sampleInput (bytesOf "y")) sampleDrawn.1.1 = Some (h2, g2, n2) /\ sameCells h1 g1 h2 g2.
Proof.
  destruct (partial_frame_complete sampleComp (sampleInput (bytesOf "x")) (sampleInput (bytesOf "y")) {[1]} sampleDrawn.1.2 sampleDrawn.1.1)
    as (h1 & g1 & n1 & h2 & g2 & n2 & E1 & E2 & Hs & _).
  - exact (wfb_sound sampleRoot eq_refl).
  - reflexivity.
  - vm_compute; discriminate.
  - vm_compute; discriminate.
  - reflexivity.
  - exact sampleDrawn_whole.
  - exact sampleChange.
  - exists h1, g1, n1, h2, g2, n2. split; [exact E1|]. split; [exact E2|exact Hs].
Defined.

(** The first frame, and after it one in which only the first pane is drawn. *)
Lemma sampleRun : exists h c g, frameRun (sampleInput (bytesOf "x")) h c /\ compWidth (fcComp c) = 9 /\ prevGrid (fcComp c) = Some g.
Proof.
  destruct (drawn_whole sampleStart (sampleInput (bytesOf "x")) (sampleInput (bytesOf "x")) ∅ true []) as (out & n & h & c & g & E & Ep & _ & EW & _); [done|done| |done|].
  - split; [exact (wfb_sound sampleRoot eq_refl)|]. split; [done|by left].
  - exists h, c, g. split; [|split; [exact EW|exact Ep]]. eapply RunFrame; [exact (RunStart (sampleInput (bytesOf "x")) 9 5 false [] ltac:(lia) ltac:(lia))| |exact E].
    split; [exact (wfb_sound sampleRoot eq_refl)|]. split; [reflexivity|left; reflexivity].
Qed.
Lemma frames_stay_whole_witness : exists h c out n h' c' g, prevGrid (fcComp c) <> None /\
  RenderDiffWithOverlayDirtyStats (sampleInput (bytesOf "y")) {[1]} false h c = Some (out, n, h', c') /\
  prevGrid (fcComp c') = Some g /\ holdsWhole c' (sampleInput (bytesOf "y")) h' g.
Proof.
  destruct sampleRun as (h & c & g & Hrun & EW & Ep). destruct (frames_stay_whole (sampleInput (bytesOf "x")) h c Hrun) as [_ Hnext].
  destruct (Hnext (sampleInput (bytesOf "y")) {[1]} false) as (out & n & h' & c' & g' & E & Ep' & Hw).
  - split; [exact (wfb_sound sampleRoot eq_refl)|]. split; [reflexivity|]. right. right. rewrite EW. exact sampleChange.
  - exists h, c, out, n, h', c', g'. split; [rewrite Ep; discriminate|]. split; [exact E|]. split; [exact Ep'|exact Hw].
Defined.
