(* ===== verification/ClientUI.v ===== *)
(** * The client's interface state and its render loop

    internal/client/ui_state.go, client_state.go, display_panes.go, pane_drag.go,
    window_tab_drag.go, the prompts, the modes of chooser.go, and of client.go the
    copy mode, the request for the next frame and the loop that draws it.

    The emulators of the panes and the layout from the server are what the renderer
    shows, a [ClientView]; the rows of the chooser and of the help bar and the cells of
    the boxes they are drawn in are parameters. *)

From S2P Require Import Prelude LayoutSizes LayoutTree PaneMeta LayoutSnapshot WindowState GoText GoCodec GoRunes CopyMode CopyOverlay CopyInput.
From S2P Require Import ScreenGrid ScreenEmit PaneRows BorderMap FrameGrid.

(** ** The state *)

Inductive chooserMode := chooserModeTree | chooserModeWindow | chooserModeRemote.
#[export] Instance chooserMode_eq_dec : EqDecision chooserMode.
Proof. solve_decision. Defined.
Inductive chooserSource :=
| localChooserSource (windows : list WindowSnapshot) (activeWinID : Z)
| remoteChooserSource (host : bytes) (layout : LayoutSnapshot).
(** The rows of a source. *)
Class ChooserRows := { chooserItem : Type; buildItems : chooserSource -> chooserMode -> list chooserItem }.

Record TextInputState := mkInput { Value : bytes; Cursor : Z }.
Record chooserState `{ChooserRows} := mkChooser {
  chMode : chooserMode; query : TextInputState; source : option chooserSource; items : list chooserItem; selected : Z }.
Arguments mkChooser {_}.
Record displayPanesState := mkDisplayPanes { labels : list (Z * bytes); targets : gmap Z Z }.
Record paneDragOverlayState := mkPaneDrag { sourcePaneID : Z; indicator : option Rect }.
Record windowTabDragOverlayState := mkTabDrag { tabIndicator : option Z }.
Record paneRenamePromptState := mkPanePrompt { paneRef : bytes; paneInput : TextInputState }.
Record windowRenamePromptState := mkWindowPrompt { windowInput : TextInputState }.
Record helpBarState := mkHelpBar { helpItems : list (bytes * bytes) }.

Record clientUIState `{ChooserRows} := mkUI {
  dirty : bool; dirtyPanes : gset Z; fullRedraw : bool; copyModes : gmap Z CopyMode;
  displayPanes : option displayPanesState; paneDrag : option paneDragOverlayState; windowTabDrag : option windowTabDragOverlayState;
  chooser : option chooserState; windowRenamePrompt : option windowRenamePromptState; paneRenamePrompt : option paneRenamePromptState;
  helpBar : option helpBarState; message : bytes; inputIdle : bool }.
Arguments mkUI {_}.
Definition newClientUIState `{ChooserRows} : clientUIState := mkUI false ∅ false ∅ None None None None None None None [] true.

(** Assignments to the fields. *)
Section Fields.
Context `{ChooserRows}.
Implicit Types (st : clientUIState).
Definition setDirty (dirty fullRedraw : bool) (dirtyPanes : gset Z) st : clientUIState :=
  mkUI dirty dirtyPanes fullRedraw (copyModes st) (displayPanes st) (paneDrag st) (windowTabDrag st) (chooser st) (windowRenamePrompt st) (paneRenamePrompt st) (helpBar st) (message st) (inputIdle st).
Definition nowDirty st : clientUIState := setDirty true (fullRedraw st) (dirtyPanes st) st.
Definition setCopyModes (m : gmap Z CopyMode) st : clientUIState :=
  mkUI (dirty st) (dirtyPanes st) (fullRedraw st) m (displayPanes st) (paneDrag st) (windowTabDrag st) (chooser st) (windowRenamePrompt st) (paneRenamePrompt st) (helpBar st) (message st) (inputIdle st).
Definition setDisplayPanes d st : clientUIState :=
  mkUI (dirty st) (dirtyPanes st) (fullRedraw st) (copyModes st) d (paneDrag st) (windowTabDrag st) (chooser st) (windowRenamePrompt st) (paneRenamePrompt st) (helpBar st) (message st) (inputIdle st).
Definition setPaneDrag d st : clientUIState :=
  mkUI (dirty st) (dirtyPanes st) (fullRedraw st) (copyModes st) (displayPanes st) d (windowTabDrag st) (chooser st) (windowRenamePrompt st) (paneRenamePrompt st) (helpBar st) (message st) (inputIdle st).
Definition setTabDrag d st : clientUIState :=
  mkUI (dirty st) (dirtyPanes st) (fullRedraw st) (copyModes st) (displayPanes st) (paneDrag st) d (chooser st) (windowRenamePrompt st) (paneRenamePrompt st) (helpBar st) (message st) (inputIdle st).
Definition setChooser c st : clientUIState :=
  mkUI (dirty st) (dirtyPanes st) (fullRedraw st) (copyModes st) (displayPanes st) (paneDrag st) (windowTabDrag st) c (windowRenamePrompt st) (paneRenamePrompt st) (helpBar st) (message st) (inputIdle st).
Definition setPrompts w p st : clientUIState :=
  mkUI (dirty st) (dirtyPanes st) (fullRedraw st) (copyModes st) (displayPanes st) (paneDrag st) (windowTabDrag st) (chooser st) w p (helpBar st) (message st) (inputIdle st).
Definition setHelpBar b st : clientUIState :=
  mkUI (dirty st) (dirtyPanes st) (fullRedraw st) (copyModes st) (displayPanes st) (paneDrag st) (windowTabDrag st) (chooser st) (windowRenamePrompt st) (paneRenamePrompt st) b (message st) (inputIdle st).
Definition setMessage m st : clientUIState :=
  mkUI (dirty st) (dirtyPanes st) (fullRedraw st) (copyModes st) (displayPanes st) (paneDrag st) (windowTabDrag st) (chooser st) (windowRenamePrompt st) (paneRenamePrompt st) (helpBar st) m (inputIdle st).
Definition setInputIdle i st : clientUIState :=
  mkUI (dirty st) (dirtyPanes st) (fullRedraw st) (copyModes st) (displayPanes st) (paneDrag st) (windowTabDrag st) (chooser st) (windowRenamePrompt st) (paneRenamePrompt st) (helpBar st) (message st) i.
End Fields.

(** ** Events and actions *)
Definition UIEventDisplayPanesShown : string := "display-panes-shown".
Definition UIEventDisplayPanesHidden : string := "display-panes-hidden".
Definition UIEventPrefixMessageShown : string := "prefix-message-shown".
Definition UIEventPrefixMessageHidden : string := "prefix-message-hidden".
Definition UIEventCopyModeShown : string := "copy-mode-shown".
Definition UIEventCopyModeHidden : string := "copy-mode-hidden".
Definition UIEventInputBusy : string := "input-busy".
Definition UIEventInputIdle : string := "input-idle".
Definition shownEvent (m : chooserMode) : string :=
  match m with chooserModeTree => "choose-tree-shown" | chooserModeWindow => "choose-window-shown" | chooserModeRemote => "" end.
Definition hiddenEvent (m : chooserMode) : string :=
  match m with chooserModeTree => "choose-tree-hidden" | chooserModeWindow => "choose-window-hidden" | chooserModeRemote => "" end.

Inductive uiAction `{ChooserRows} :=
| uiActionHandleLayout (structureChanged : bool) | uiActionSetInputIdle (idle : bool) | uiActionPaneOutput (paneID : Z)
| uiActionSetMessage (message : bytes) | uiActionClearMessage
| uiActionShowDisplayPanes (d : displayPanesState) | uiActionHideDisplayPanes
| uiActionShowChooser (c : chooserState) | uiActionHideChooser
| uiActionShowPaneDrag (d : paneDragOverlayState) | uiActionHidePaneDrag
| uiActionShowWindowTabDrag (d : windowTabDragOverlayState) | uiActionHideWindowTabDrag
| uiActionShowWindowRenamePrompt (p : windowRenamePromptState) | uiActionHideWindowRenamePrompt
| uiActionShowPaneRenamePrompt (p : paneRenamePromptState) | uiActionHidePaneRenamePrompt
| uiActionShowHelpBar (b : helpBarState) | uiActionHideHelpBar
| uiActionEnterCopyMode (paneID : Z) (mode : CopyMode) | uiActionExitCopyMode (paneID : Z).

Section Reduce.
Context `{ChooserRows}.
Implicit Types (st : clientUIState).

Definition markRendered st : clientUIState := setDirty false false ∅ st.
Definition markPaneDirty (paneID : Z) st : clientUIState :=
  if paneID =? 0 then nowDirty st else setDirty true (fullRedraw st) ({[paneID]} ∪ dirtyPanes st) st.

(** The events of what is hidden to make room. *)
Definition displayPanesHidden st : list string := match displayPanes st with Some _ => [UIEventDisplayPanesHidden] | None => [] end.
Definition chooserHidden st : list string := match chooser st with Some c => [hiddenEvent (chMode c)] | None => [] end.

Definition reduceHandleLayout (structureChanged : bool) st : clientUIState * list string :=
  if structureChanged then
    (nowDirty (setMessage [] (setHelpBar None (setPrompts None None (setChooser None (setTabDrag None (setPaneDrag None (setDisplayPanes None st))))))),
     displayPanesHidden st ++ chooserHidden st ++ match message st with [] => [] | _ => [UIEventPrefixMessageHidden] end)
  else (nowDirty st, []).
Definition reduceSetInputIdle (idle : bool) st : clientUIState * list string :=
  if Bool.eqb (inputIdle st) idle then (st, []) else (setInputIdle idle st, [if idle then UIEventInputIdle else UIEventInputBusy]).
Definition reduceShowChooser (c : chooserState) st : clientUIState * list string :=
  (nowDirty (setChooser (Some c) (setHelpBar None (setPrompts None None (setPaneDrag None (setDisplayPanes None st))))),
   displayPanesHidden st ++
   match chooser st with
   | Some previous => if bool_decide (chMode previous = chMode c) then [] else [hiddenEvent (chMode previous); shownEvent (chMode c)]
   | None => [shownEvent (chMode c)]
   end).
Definition reduceShowWindowRenamePrompt (p : windowRenamePromptState) st : clientUIState * list string :=
  (nowDirty (setPrompts (Some p) None (setHelpBar None (setChooser None (setPaneDrag None (setDisplayPanes None st))))), displayPanesHidden st ++ chooserHidden st).
Definition reduceShowPaneRenamePrompt (p : paneRenamePromptState) st : clientUIState * list string :=
  (nowDirty (setPrompts None (Some p) (setHelpBar None (setChooser None (setPaneDrag None (setDisplayPanes None st))))), displayPanesHidden st ++ chooserHidden st).
Definition reduceShowHelpBar (b : helpBarState) st : clientUIState * list string :=
  (nowDirty (setHelpBar (Some b) (setPaneDrag None (setPrompts None None (setChooser None (setDisplayPanes None st))))), displayPanesHidden st ++ chooserHidden st).

Definition reduce (action : uiAction) st : clientUIState * list string :=
  match action with
  | uiActionHandleLayout changed => reduceHandleLayout changed st
  | uiActionSetInputIdle idle => reduceSetInputIdle idle st
  | uiActionPaneOutput paneID => (markPaneDirty paneID st, [])
  | uiActionSetMessage m =>
      (nowDirty (setMessage m st),
       match message st, m with [], [] => [] | [], _ => [UIEventPrefixMessageShown] | _, [] => [UIEventPrefixMessageHidden] | _, _ => [] end)
  | uiActionClearMessage => match message st with [] => (st, []) | _ => (nowDirty (setMessage [] st), [UIEventPrefixMessageHidden]) end
  | uiActionShowDisplayPanes d => (nowDirty (setDisplayPanes (Some d) st), match displayPanes st with Some _ => [] | None => [UIEventDisplayPanesShown] end)
  | uiActionHideDisplayPanes => match displayPanes st with None => (st, []) | Some _ => (nowDirty (setDisplayPanes None st), [UIEventDisplayPanesHidden]) end
  | uiActionShowChooser c => reduceShowChooser c st
  | uiActionHideChooser => match chooser st with None => (st, []) | Some c => (nowDirty (setChooser None st), [hiddenEvent (chMode c)]) end
  | uiActionShowPaneDrag d => (nowDirty (setPaneDrag (Some d) st), [])
  | uiActionHidePaneDrag => match paneDrag st with None => (st, []) | Some _ => (nowDirty (setPaneDrag None st), []) end
  | uiActionShowWindowTabDrag d => (nowDirty (setTabDrag (Some d) st), [])
  | uiActionHideWindowTabDrag => match windowTabDrag st with None => (st, []) | Some _ => (nowDirty (setTabDrag None st), []) end
  | uiActionShowWindowRenamePrompt p => reduceShowWindowRenamePrompt p st
  | uiActionHideWindowRenamePrompt => match windowRenamePrompt st with None => (st, []) | Some _ => (nowDirty (setPrompts None (paneRenamePrompt st) st), []) end
  | uiActionShowPaneRenamePrompt p => reduceShowPaneRenamePrompt p st
  | uiActionHidePaneRenamePrompt => match paneRenamePrompt st with None => (st, []) | Some _ => (nowDirty (setPrompts (windowRenamePrompt st) None st), []) end
  | uiActionShowHelpBar b => reduceShowHelpBar b st
  | uiActionHideHelpBar => match helpBar st with None => (st, []) | Some _ => (nowDirty (setHelpBar None st), []) end
  | uiActionEnterCopyMode paneID mode =>
      match copyModes st !! paneID with
      | Some _ => (st, [])
      | None => (nowDirty (setCopyModes (<[paneID := mode]> (copyModes st)) st), if bool_decide (copyModes st = ∅) then [UIEventCopyModeShown] else [])
      end
  | uiActionExitCopyMode paneID =>
      let m := delete paneID (copyModes st) in
      (nowDirty (setCopyModes m st), if negb (bool_decide (copyModes st = ∅)) && bool_decide (m = ∅) then [UIEventCopyModeHidden] else [])
  end.
Definition emitUIEvents (names : list string) : list string := List.filter (fun name => negb (bool_decide (name = ""%string))) names.

(** Tab in the chooser: the other mode, in place. *)
Definition toggleMode (s : chooserSource) (mode : chooserMode) : chooserMode :=
  match s with
  | localChooserSource _ _ => if bool_decide (mode = chooserModeWindow) then chooserModeTree else chooserModeWindow
  | remoteChooserSource _ _ => mode
  end.
Definition rebuild (c : chooserState) : chooserState :=
  mkChooser (chMode c) (query c) (source c) (match source c with Some s => buildItems s (chMode c) | None => [] end) 0.
Definition toggleChooserMode st : clientUIState :=
  match chooser st with
  | Some c =>
      match source c with
      | Some s =>
          let next := toggleMode s (chMode c) in
          if bool_decide (next = chMode c) then st
          else nowDirty (setChooser (Some (rebuild (mkChooser next (query c) (source c) (items c) (selected c)))) st)
      | None => st
      end
  | None => st
  end.
Definition ShowChooser (mode : chooserMode) (windows : list WindowSnapshot) (activeWinID : Z) st : clientUIState * list string * bool :=
  match windows with
  | [] => (st, [], false)
  | _ => (reduce (uiActionShowChooser (rebuild (mkChooser mode (mkInput [] 0) (Some (localChooserSource windows activeWinID)) [] 0))) st, true)
  end.
Definition ShowRemoteChooser (host : bytes) (layout : option LayoutSnapshot) st : clientUIState * list string * bool :=
  match TrimSpace host, layout with
  | _ :: _, Some layout =>
      let c := rebuild (mkChooser chooserModeRemote (mkInput [] 0) (Some (remoteChooserSource host layout)) [] 0) in
      match items c with [] => (st, [], false) | _ => (reduce (uiActionShowChooser c) st, true) end
  | _, _ => (st, [], false)
  end.

Definition ShowPrefixMessage (msg : bytes) st : clientUIState * list string := reduce (uiActionSetMessage msg) st.
Definition ClearPrefixMessage st : clientUIState * list string * bool :=
  match message st with [] => (st, [], false) | _ => (reduce uiActionClearMessage st, true) end.
Definition ShowCommandError (text : bytes) st : clientUIState * list string * bool :=
  match TrimSpace text with [] => (st, [], false) | text => (reduce (uiActionSetMessage text) st, true) end.
Definition RequestFullRedraw st : clientUIState := setDirty true true (dirtyPanes st) st.
Definition markDirty st : clientUIState := nowDirty st.

Record CaptureUI := mkCaptureUI { cuCopyMode : bool; cuDisplayPanes : bool; cuChooser : string; cuPrompt : string; cuInputIdle : bool }.
Definition modeName (m : chooserMode) : string :=
  match m with chooserModeTree => "tree" | chooserModeWindow => "window" | chooserModeRemote => "remote" end.
Definition captureUI st : CaptureUI :=
  mkCaptureUI (negb (bool_decide (copyModes st = ∅))) (bool_decide (is_Some (displayPanes st)))
    (match chooser st with Some c => modeName (chMode c) | None => "" end)
    (match windowRenamePrompt st, paneRenamePrompt st with Some _, _ => "rename-window" | None, Some _ => "rename-pane" | None, None => "" end)
    (inputIdle st).
End Reduce.

(** ** Pane labels and drags *)
Definition displayPaneLabelAlphabet : bytes := bytesOf "123456789abcdefghijklmnopqrstuvwxyz".
Section Labels.
Context `{ChooserRows}.
Implicit Types (st : clientUIState).

Definition labelPanes (paneIDs : list Z) : displayPanesState :=
  let keyed := zip displayPaneLabelAlphabet paneIDs in
  mkDisplayPanes (map (fun '(key, paneID) => (paneID, [key])) keyed) (fold_left (fun m '(key, paneID) => <[key := paneID]> m) keyed ∅).
Definition ShowDisplayPanes (layout : option LayoutCell) st : clientUIState * list string * bool :=
  match layout with
  | None => (st, [], false)
  | Some layout =>
      let paneIDs := map (fun e => CellPaneID e.2) (paneLeaves layout) in
      if (lenZ paneIDs =? 0) || (lenZ displayPaneLabelAlphabet <? lenZ paneIDs) then (st, [], false)
      else (reduce (uiActionShowDisplayPanes (labelPanes paneIDs)) st, true)
  end.
Definition HideDisplayPanes st : clientUIState * list string * bool := (reduce uiActionHideDisplayPanes st, bool_decide (is_Some (displayPanes st))).
Definition ResolveDisplayPaneKey (b : Z) st : option Z :=
  let b := if between 65 b 90 then b - 65 + 97 else b in
  displayPanes st ≫= fun d => targets d !! b.
Definition paneDragSourcePaneID st : Z := match paneDrag st with Some drag => sourcePaneID drag | None => 0 end.
Definition paneDragLabels st : list (Z * bytes) := match paneDrag st with Some drag => [(sourcePaneID drag, bytesOf "drag")] | None => [] end.
Definition overlayLabels st : list (Z * bytes) := match displayPanes st with Some d => labels d | None => [] end ++ paneDragLabels st.
Definition paneDragHidesCursor st (activePaneID paneID : Z) : bool := bool_decide (is_Some (paneDrag st)) && negb (activePaneID =? 0) && (paneID =? activePaneID).
End Labels.

(** ** Prompts *)
Record promptCommand := mkPromptCommand { command : string; args : list bytes; bell : bool }.
Definition noCommand : promptCommand := mkPromptCommand "" [] false.
Definition ringBell : promptCommand := mkPromptCommand "" [] true.
Definition isSpaceRune (r : Z) : bool := bool_decide (EncodeRune r ∈ spaceEncodings).
Definition validPaneRenamePromptName (name : bytes) : bool :=
  negb (bool_decide (name = [])) && negb (bool_decide (47 ∈ name)) && forallb (fun r => negb (isSpaceRune r)) (toRunes name).

Section Prompts.
Context `{ChooserRows} `{TI : !TextInput}.
Implicit Types (st : clientUIState).

Definition UpdateInput (msg : KeyMsg) (i : TextInputState) : TextInputState :=
  let '(value, cursor) := textInputUpdate (Value i, Cursor i) msg in mkInput value cursor.
Definition applyPaneRenamePromptKey (msg : KeyMsg) st : clientUIState :=
  match paneRenamePrompt st with
  | Some p => nowDirty (setPrompts (windowRenamePrompt st) (Some (mkPanePrompt (paneRef p) (UpdateInput msg (paneInput p)))) st)
  | None => st
  end.
Definition submitPaneRenamePrompt st : clientUIState * list string * promptCommand :=
  match paneRenamePrompt st with
  | None => (st, [], noCommand)
  | Some p =>
      if negb (validPaneRenamePromptName (Value (paneInput p))) then (st, [], ringBell)
      else (reduce uiActionHidePaneRenamePrompt st, mkPromptCommand "rename" [paneRef p; Value (paneInput p)] false)
  end.
Definition applyWindowRenamePromptKey (msg : KeyMsg) st : clientUIState :=
  match windowRenamePrompt st with
  | Some p => nowDirty (setPrompts (Some (mkWindowPrompt (UpdateInput msg (windowInput p)))) (paneRenamePrompt st) st)
  | None => st
  end.
Definition submitWindowRenamePrompt st : clientUIState * list string * promptCommand :=
  match windowRenamePrompt st with
  | None => (st, [], noCommand)
  | Some p =>
      match Value (windowInput p) with
      | [] => (st, [], ringBell)
      | value => (reduce uiActionHideWindowRenamePrompt st, mkPromptCommand "rename-window" [value] false)
      end
  end.

(** The bytes for a prompt: keys are typed until one closes or submits it. *)
Fixpoint promptInput (fuel : nat) (hide : uiAction) (key : KeyMsg -> clientUIState -> clientUIState)
  (submit : clientUIState -> clientUIState * list string * promptCommand) (raw : bytes) (result : promptCommand) st : clientUIState * list string * promptCommand :=
  match fuel, raw with
  | S fuel, _ :: rest =>
      match DecodeKey raw with
      | (Some msg, consumed) =>
          if consumed <=? 0 then promptInput fuel hide key submit rest ringBell st
          else
            let rest := drop (Z.to_nat consumed) raw in
            match Type_ msg with
            | KeyEsc => (reduce hide st, noCommand)
            | KeyEnter => submit st
            | t => if IsTextInputKey t then promptInput fuel hide key submit rest result (key msg st)
                   else promptInput fuel hide key submit rest ringBell st
            end
      | (None, _) => promptInput fuel hide key submit rest ringBell st
      end
  | _, _ => (st, [], result)
  end.
Definition HandlePaneRenamePromptInput (raw : bytes) st : clientUIState * list string * promptCommand :=
  match paneRenamePrompt st with
  | None => (st, [], noCommand)
  | Some _ => promptInput (length raw) uiActionHidePaneRenamePrompt applyPaneRenamePromptKey submitPaneRenamePrompt raw noCommand st
  end.
Definition HandleWindowRenamePromptInput (raw : bytes) st : clientUIState * list string * promptCommand :=
  match windowRenamePrompt st with
  | None => (st, [], noCommand)
  | Some _ => promptInput (length raw) uiActionHideWindowRenamePrompt applyWindowRenamePromptKey submitWindowRenamePrompt raw noCommand st
  end.
Definition ShowPaneRenamePrompt (paneID : Z) (name : option bytes) st : clientUIState * list string * bool :=
  if paneID =? 0 then (st, [], false)
  else match name with
       | None => (st, [], false)
       | Some name =>
           let ref := match name with [] => formatDecimal paneID | _ => name end in
           (reduce (uiActionShowPaneRenamePrompt (mkPanePrompt ref (mkInput [] 0))) st, true)
       end.
Definition ShowWindowRenamePrompt (windows : list WindowSnapshot) (activeWindowID : Z) st : clientUIState * list string * bool :=
  if existsb (fun ws => wsID ws =? activeWindowID) windows then (reduce (uiActionShowWindowRenamePrompt (mkWindowPrompt (mkInput [] 0))) st, true)
  else (st, [], false).
End Prompts.

(** ** Frames

    What the renderer shows: the visible layout, the active pane, a pane by its ID with
    its copy mode and whether its cursor is hidden, the cells of the bar by its
    message, and the sizes of panes. *)
Record ClientView `{Colors} := mkView {
  cvRoot : LayoutCell; cvActive : Z; cvPane : Z -> option CopyMode -> bool -> option PaneView; cvBar : bytes -> Z -> list ScreenCell;
  sessionNotice : bytes; cvTheme : Theme; cvPaneSize : Z -> option (Z * Z); cvBuffer : Z -> option paneBufferSnapshot }.
Arguments mkView {_}.
(** The cells of the chooser, of a prompt by its title and value, and of the rows of the help bar. *)
Class OverlayText `{Colors} `{ChooserRows} := {
  chooserCells : chooserState -> list (Z * Z * ScreenCell); textInputCells : bytes -> bytes -> list (Z * Z * ScreenCell);
  layoutHelpBarRows : list (bytes * bytes) -> Z -> list (list ScreenCell) }.

Section Frames.
Context `{OverlayText}.
Implicit Types (st : clientUIState) (v : ClientView).

Definition textInputOverlay st : list (Z * Z * ScreenCell) :=
  match windowRenamePrompt st, paneRenamePrompt st with
  | Some p, _ => textInputCells (bytesOf "rename-window") (Value (windowInput p))
  | None, Some p => textInputCells (bytesOf "rename-pane") (Value (paneInput p))
  | None, None => []
  end.
Definition overlayState (width : Z) st : OverlayState :=
  mkOverlays (overlayLabels st) (paneDrag st ≫= indicator) (windowTabDrag st ≫= tabIndicator)
    (match helpBar st with Some b => layoutHelpBarRows (helpItems b) width | None => [] end) (paneDragSourcePaneID st)
    (match chooser st with Some c => chooserCells c | None => [] end ++ textInputOverlay st).
(** The session's notice shows where the client has no message. *)
Definition frameInput (width : Z) st v : FrameInput :=
  mkFrameInput (cvRoot v) (cvActive v) (fun paneID => cvPane v paneID (copyModes st !! paneID) (paneDragHidesCursor st (cvActive v) paneID))
    (overlayState width st) (cvBar v (match message st with [] => sessionNotice v | m => m end)) (cvTheme v).

(** The panes to draw again, and whether to draw everything. *)
Definition renderRequest st : gset Z * bool := (dirtyPanes st, fullRedraw st || bool_decide (dirtyPanes st = ∅)).
End Frames.

(** ** The render loop

    The loop owns the renderer; times are integers. *)
Record renderLoopState := mkLoop { renderTimer : option Z; lastRender : option Z; renderFrameInterval : Z; pendingOutputBytes : Z; forceFullRedraw : bool }.
Definition stopScheduledRender (l : renderLoopState) : renderLoopState := mkLoop None (lastRender l) (renderFrameInterval l) (pendingOutputBytes l) (forceFullRedraw l).
Definition shouldRenderNow (now : Z) (l : renderLoopState) : bool :=
  match renderTimer l with
  | Some _ => false
  | None => match lastRender l with None => true | Some last => renderFrameInterval l <=? now - last end
  end.
Definition recordPaneOutput (n threshold : Z) (l : renderLoopState) : renderLoopState * bool :=
  let pending := if 0 <? n then pendingOutputBytes l + n else pendingOutputBytes l in
  let force := ((0 <? threshold) && (threshold <? pending)) || forceFullRedraw l in
  (mkLoop (renderTimer l) (lastRender l) (renderFrameInterval l) pending force, force).
Definition scheduleRender (now : Z) (l : renderLoopState) : renderLoopState :=
  match renderTimer l with
  | Some _ => l
  | None =>
      let delay := match lastRender l with None => renderFrameInterval l | Some last => Z.max 0 (renderFrameInterval l - (now - last)) end in
      mkLoop (Some (now + delay)) (lastRender l) (renderFrameInterval l) (pendingOutputBytes l) (forceFullRedraw l)
  end.
Definition renderedAt (now : Z) (l : renderLoopState) : renderLoopState := mkLoop None (Some now) (renderFrameInterval l) 0 false.

Inductive clientEffect :=
| clientEffectEmitUIEvents (uiEvents : list string) | clientEffectClearPrevGrid | clientEffectStopScheduledRender | clientEffectScheduleRender
| clientEffectRenderNow | clientEffectBell | clientEffectWriteText (text : bytes) | clientEffectExit.
Definition appendUIEventEffect (effects : list clientEffect) (uiEvents : list string) : list clientEffect :=
  match uiEvents with [] => effects | _ => effects ++ [clientEffectEmitUIEvents uiEvents] end.
Definition appendStopAndRenderNow (effects : list clientEffect) : list clientEffect := effects ++ [clientEffectStopScheduledRender; clientEffectRenderNow].
Definition renderNowResult : list clientEffect := appendStopAndRenderNow [].
Definition overlayRenderNowResult : list clientEffect := clientEffectClearPrevGrid :: appendStopAndRenderNow [].

Record Client `{Colors} `{ChooserRows} := mkClient {
  clUI : clientUIState; clView : ClientView; clFrame : FrameComp; clHeap : heap; clLoop : renderLoopState; copyBuffer : bytes }.
Arguments mkClient {_ _}.
(** What the loop writes and reports. *)
Inductive ClientOut `{Colors} := OutFrame (frame : list Out) | OutEvents (names : list string) | OutBell | OutText (text : bytes) | OutClipboard (text : bytes).

Section Loop.
Context `{OverlayText} `{!UV} `{!Palette} `{!Glyphs} `{U : !Unicode} `{TI : !TextInput}.
Implicit Types (cl : Client).

Definition withUI (st : clientUIState) cl : Client := mkClient st (clView cl) (clFrame cl) (clHeap cl) (clLoop cl) (copyBuffer cl).
Definition withView (v : ClientView) cl : Client := mkClient (clUI cl) v (clFrame cl) (clHeap cl) (clLoop cl) (copyBuffer cl).
Definition withFrameComp (c : FrameComp) cl : Client := mkClient (clUI cl) (clView cl) c (clHeap cl) (clLoop cl) (copyBuffer cl).
Definition withLoop (l : renderLoopState) cl : Client := mkClient (clUI cl) (clView cl) (clFrame cl) (clHeap cl) l (copyBuffer cl).
Definition clientInput cl : FrameInput := frameInput (compWidth (fcComp (clFrame cl))) (clUI cl) (clView cl).

Definition renderDiff cl : option (Client * list Out) :=
  let '(dirty, full) := renderRequest (clUI cl) in
  '(out, _, h, c) ← RenderDiffWithOverlayDirtyStats (clientInput cl) dirty full (clHeap cl) (clFrame cl);
  Some (mkClient (markRendered (clUI cl)) (clView cl) c h (clLoop cl) (copyBuffer cl), out).
Definition renderNow (now : Z) cl : option (Client * list ClientOut) :=
  '(cl, out) ← renderDiff cl;
  Some (withLoop (renderedAt now (clLoop cl)) cl, match out with [] => [] | _ => [OutFrame out] end).

(** The effects in order; the flag tells to leave the loop. *)
Fixpoint executeRenderEffects (now : Z) (effects : list clientEffect) cl : option (Client * list ClientOut * bool) :=
  match effects with
  | [] => Some (cl, [], false)
  | e :: effects =>
      match e with
      | clientEffectExit => Some (cl, [], true)
      | _ =>
          '(cl, out) ← match e with
            | clientEffectEmitUIEvents names => Some (cl, [OutEvents (emitUIEvents names)])
            | clientEffectClearPrevGrid => Some (withFrameComp (ClearPrevGrid (clFrame cl)) cl, [])
            | clientEffectStopScheduledRender => Some (withLoop (stopScheduledRender (clLoop cl)) cl, [])
            | clientEffectScheduleRender =>
                if shouldRenderNow now (clLoop cl) then renderNow now cl else Some (withLoop (scheduleRender now (clLoop cl)) cl, [])
            | clientEffectRenderNow => renderNow now cl
            | clientEffectBell => Some (cl, [OutBell])
            | clientEffectWriteText text => Some (cl, [OutText text])
            | clientEffectExit => Some (cl, [])
            end;
          '(cl, rest, leave) ← executeRenderEffects now effects cl;
          Some (cl, out ++ rest, leave)
      end
  end.

(** *** Copy mode *)
Definition syncCopyModeSizes (v : ClientView) (st : clientUIState) : clientUIState :=
  setCopyModes (map_imap (fun paneID cm => Some (match cvPaneSize v paneID with Some (w, h) => CopyMode.Resize w h cm | None => cm end)) (copyModes st)) st.
Definition enterCopyModeResult (paneID : Z) (v : ClientView) (st : clientUIState) : clientUIState * list string :=
  match copyModes st !! paneID with
  | Some _ => (st, [])
  | None =>
      match cvBuffer v paneID with
      | Some b => reduce (uiActionEnterCopyMode paneID (New (bufferEmulator b) (bufWidth b) (bufHeight b) (bufCursorRow b))) st
      | None => (st, [])
      end
  end.
(** A copy mode is changed in place. *)
Definition putCopyMode (paneID : Z) (cm : CopyMode) cl : Client := withUI (setCopyModes (<[paneID := cm]> (copyModes (clUI cl))) (clUI cl)) cl.
Definition exitCopyMode (paneID : Z) cl : Client * list ClientOut :=
  let '(st, events) := reduce (uiActionExitCopyMode paneID) (clUI cl) in (withUI st cl, [OutEvents (emitUIEvents events)]).
Definition copyModeCopy (paneID : Z) (cm : CopyMode) cl : option (Client * list ClientOut) :=
  let '(cm, (text, append)) := ConsumeCopyText cm in
  let cl := putCopyMode paneID cm cl in
  text ← match text with [] => SelectedText cm | _ => Some text end;
  match text with
  | [] => Some (cl, [])
  | _ => let text := if append then copyBuffer cl ++ text else text in
         Some (mkClient (clUI cl) (clView cl) (clFrame cl) (clHeap cl) (clLoop cl) text, [OutClipboard text])
  end.
Definition CopyModeCopySelection (paneID : Z) cl : option (Client * list ClientOut) :=
  match copyModes (clUI cl) !! paneID with
  | None => Some (cl, [])
  | Some cm => '(cl, out) ← copyModeCopy paneID cm cl; let '(cl, out') := exitCopyMode paneID cl in Some (cl, out ++ out')
  end.
Definition WheelScrollCopyMode (paneID lines : Z) (up : bool) cl : option (Client * list ClientOut * Action) :=
  match copyModes (clUI cl) !! paneID with
  | None => Some (cl, [], ActionNone)
  | Some cm =>
      let '(cm, action) := if up then WheelScrollUp lines cm else WheelScrollDown lines cm in
      let cl := putCopyMode paneID cm cl in
      Some (match action with
            | ActionExit => (exitCopyMode paneID cl, action)
            | ActionRedraw => (withUI (markDirty (clUI cl)) cl, [], action)
            | _ => (cl, [], action)
            end)
  end.
Definition CopyModeSetCursor (paneID col row : Z) cl : Client * Action :=
  match copyModes (clUI cl) !! paneID with
  | None => (cl, ActionNone)
  | Some cm =>
      let '(cm, action) := SetCursor col row cm in
      let cl := putCopyMode paneID cm cl in
      (if bool_decide (action = ActionRedraw) then withUI (markDirty (clUI cl)) cl else cl, action)
  end.
(** Input for the copy mode of the active pane, on the render loop. *)
Definition flushCopyInput (now : Z) (input : bytes) cl : option (Client * list ClientOut) :=
  let paneID := cvActive (clView cl) in
  match copyModes (clUI cl) !! paneID with
  | None => Some (cl, [])
  | Some cm =>
      '(cm, action) ← HandleInput input cm;
      let cl := putCopyMode paneID cm cl in
      '(cl, out) ← match action with
        | ActionExit => Some (exitCopyMode paneID cl)
        | ActionYank => CopyModeCopySelection paneID cl
        | _ => Some (cl, [])
        end;
      '(cl, out', _) ← executeRenderEffects now renderNowResult cl;
      Some (cl, out ++ out')
  end.

(** *** Messages

    What came from the server and what the renderer made of it: the view with the
    new layout and whether its structure changed; the view with the output of a
    pane, the size of the output, what it changed, and whether its pane was typed
    in just now. *)
Inductive RenderMsg :=
| RenderMsgLayout (v : ClientView) (structureChanged : bool)
| RenderMsgPaneOutput (v : ClientView) (paneID size : Z) (screenChanged cursorChanged paneVisible prioritized : bool)
| RenderMsgBell | RenderMsgClipboard (data : bytes) | RenderMsgExit | RenderMsgCopyMode (paneID : Z) | RenderMsgCmdError (text : bytes).

Definition paneOutputNeedsRender (screenChanged cursorChanged paneVisible copyModeVisible : bool) : bool :=
  cursorChanged || (paneVisible && negb copyModeVisible && screenChanged).
Definition handleLayoutResult (v : ClientView) (structureChanged : bool) cl : Client * list string :=
  let '(st, events) := reduce (uiActionHandleLayout structureChanged) (syncCopyModeSizes v (clUI cl)) in (withView v (withUI st cl), events).
Definition handleRenderMsg (msg : RenderMsg) cl : Client * list clientEffect :=
  match msg with
  | RenderMsgLayout v structureChanged =>
      let '(cl, events) := handleLayoutResult v structureChanged cl in
      let effects := appendUIEventEffect [] events in
      if structureChanged then (cl, appendStopAndRenderNow (effects ++ [clientEffectClearPrevGrid]))
      else (withUI (RequestFullRedraw (clUI cl)) cl, appendStopAndRenderNow effects)
  | RenderMsgPaneOutput v paneID _ screenChanged cursorChanged paneVisible prioritized =>
      let copyModeVisible := bool_decide (is_Some (copyModes (clUI cl) !! paneID)) in
      let cl := withView v cl in
      let cl := if paneOutputNeedsRender screenChanged cursorChanged paneVisible copyModeVisible then withUI (fst (reduce (uiActionPaneOutput paneID) (clUI cl))) cl else cl in
      if negb (screenChanged || cursorChanged) then (cl, [])
      else (cl, if prioritized then appendStopAndRenderNow [] else [clientEffectScheduleRender])
  | RenderMsgCopyMode paneID =>
      let '(st, events) := enterCopyModeResult paneID (clView cl) (clUI cl) in
      (withUI st cl, appendStopAndRenderNow (appendUIEventEffect [] events))
  | RenderMsgBell => (cl, [clientEffectBell])
  | RenderMsgClipboard data => (cl, [clientEffectWriteText data])
  | RenderMsgCmdError text =>
      let '(st, events, shown) := ShowCommandError text (clUI cl) in
      (withUI st cl, if (shown : bool) then appendUIEventEffect [] events ++ [clientEffectStopScheduledRender; clientEffectBell; clientEffectRenderNow] else [])
  | RenderMsgExit => (cl, (if dirty (clUI cl) then [clientEffectRenderNow] else []) ++ [clientEffectExit])
  end.
(** The output of several panes at once: the view with all of it, and for each pane in
    order whether its screen or the cursor changed and whether it is visible. *)
Definition handlePaneOutputBatch (v : ClientView) (infos : list (Z * (bool * bool * bool))) (prioritized : Z -> bool) cl : Client * list clientEffect :=
  let dirtyPaneIDs := map fst (List.filter (fun '(paneID, (screenChanged, cursorChanged, paneVisible)) =>
    paneOutputNeedsRender screenChanged cursorChanged paneVisible (bool_decide (is_Some (copyModes (clUI cl) !! paneID)))) infos) in
  let cl := withView v cl in
  match dirtyPaneIDs with
  | [] => (cl, [])
  | _ =>
      (withUI (fold_left (fun st paneID => fst (reduce (uiActionPaneOutput paneID) st)) dirtyPaneIDs (clUI cl)) cl,
       if existsb prioritized dirtyPaneIDs then appendStopAndRenderNow [] else [clientEffectScheduleRender])
  end.
Definition renderOverflowThreshold cl : Z :=
  let area := compWidth (fcComp (clFrame cl)) * compHeight (fcComp (clFrame cl)) in (if area <? 1 then 1 else area) * 4.
(** A flood of output asks for a whole frame. *)
Definition executePaneOutputBatch (now n : Z) (handled : Client * list clientEffect) : option (Client * list ClientOut * bool) :=
  let '(cl, effects) := handled in
  match effects with
  | [] => executeRenderEffects now effects cl
  | _ =>
      let '(l, force) := recordPaneOutput n (renderOverflowThreshold cl) (clLoop cl) in
      let cl := withLoop l cl in
      executeRenderEffects now effects (if (force : bool) then withUI (RequestFullRedraw (clUI cl)) cl else cl)
  end.

Definition loopMsg (now : Z) (msg : RenderMsg) cl : option (Client * list ClientOut * bool) :=
  match msg with
  | RenderMsgPaneOutput _ _ size _ _ _ _ => executePaneOutputBatch now size (handleRenderMsg msg cl)
  | _ => let '(cl, effects) := handleRenderMsg msg cl in executeRenderEffects now effects cl
  end.

(** The timers: of a scheduled frame and of the tints of panes that ask for attention. *)
Definition timerFired (now : Z) cl : option (Client * list ClientOut) := renderNow now cl.
Definition attentionFired (now : Z) cl : option (Client * list ClientOut) :=
  renderNow now (withLoop (stopScheduledRender (clLoop cl)) (withUI (RequestFullRedraw (clUI cl)) cl)).
(** An overlay is shown, changed or hidden on the loop. *)
Definition overlayChanged (now : Z) (step : clientUIState -> clientUIState * list string) cl : option (Client * list ClientOut) :=
  let '(st, events) := step (clUI cl) in
  '(cl, out, _) ← executeRenderEffects now overlayRenderNowResult (withUI st cl);
  Some (cl, OutEvents (emitUIEvents events) :: out).
(** The terminal is resized: the renderer lays its panes out again. *)
Definition resizeClient (width height : Z) (v : ClientView) cl : Client :=
  let cl := withFrameComp (resizeFrame width height (clFrame cl)) (withView v cl) in withUI (syncCopyModeSizes v (clUI cl)) cl.
End Loop.
