(* ===== verification/ClientUIProps.v ===== *)
(** * Properties of the client's interface and its frames *)

From S2P Require Import Prelude LayoutSizes LayoutTree LayoutFacts LayoutEdit LayoutTiling PaneMeta LayoutSnapshot WindowState GoText GoCodec GoRunes CopyMode CopyOverlay CopyInput.
From S2P Require Import ScreenGrid ScreenEmit ScreenTerm ScreenFacts ScreenHeap ScreenFrame ScreenProps PaneRows PaneRowFacts PaneComposeProps BorderMap BorderProps.
From S2P Require Import FrameGrid FrameFacts FrameProps ClientUI.

(** ** Events

    What someone who only hears the events believes: what is shown, and whether the
    input is idle. *)
Record Shown := mkShown { shMessage : bool; shDisplayPanes : bool; shTree : bool; shWindow : bool; shCopyMode : bool; shIdle : bool }.
#[export] Instance Shown_eq_dec : EqDecision Shown.
Proof. solve_decision. Defined.
(** An event that says what was already so makes no sense. *)
Definition hear (name : string) (s : Shown) : option Shown :=
  let flip (field : Shown -> bool) (to : bool) (set : Shown) := if Bool.eqb (field s) to then None else Some set in
  let '(mkShown m d t w c i) := s in
  if bool_decide (name = UIEventPrefixMessageShown) then flip shMessage true (mkShown true d t w c i)
  else if bool_decide (name = UIEventPrefixMessageHidden) then flip shMessage false (mkShown false d t w c i)
  else if bool_decide (name = UIEventDisplayPanesShown) then flip shDisplayPanes true (mkShown m true t w c i)
  else if bool_decide (name = UIEventDisplayPanesHidden) then flip shDisplayPanes false (mkShown m false t w c i)
  else if bool_decide (name = shownEvent chooserModeTree) then flip shTree true (mkShown m d true w c i)
  else if bool_decide (name = hiddenEvent chooserModeTree) then flip shTree false (mkShown m d false w c i)
  else if bool_decide (name = shownEvent chooserModeWindow) then flip shWindow true (mkShown m d t true c i)
  else if bool_decide (name = hiddenEvent chooserModeWindow) then flip shWindow false (mkShown m d t false c i)
  else if bool_decide (name = UIEventCopyModeShown) then flip shCopyMode true (mkShown m d t w true i)
  else if bool_decide (name = UIEventCopyModeHidden) then flip shCopyMode false (mkShown m d t w false i)
  else if bool_decide (name = UIEventInputIdle) then flip shIdle true (mkShown m d t w c true)
  else if bool_decide (name = UIEventInputBusy) then flip shIdle false (mkShown m d t w c false)
  else None.
Definition hearAll (names : list string) (s : Shown) : option Shown := foldl (fun s name => s ≫= hear name) (Some s) names.

Section Events.
Context `{ChooserRows}.
Implicit Types (st : clientUIState).

Definition shown st : Shown :=
  mkShown (negb (bool_decide (message st = []))) (bool_decide (is_Some (displayPanes st)))
    (bool_decide (chMode <$> chooser st = Some chooserModeTree)) (bool_decide (chMode <$> chooser st = Some chooserModeWindow))
    (negb (bool_decide (copyModes st = ∅))) (inputIdle st).
(** At most one box that takes the keyboard. *)
Definition boxes st : nat :=
  let count {A} (o : option A) : nat := match o with Some _ => 1%nat | None => 0%nat end in
  (count (chooser st) + count (windowRenamePrompt st) + count (paneRenamePrompt st) + count (helpBar st))%nat.
Fixpoint reduceAll (actions : list uiAction) st : clientUIState * list string :=
  match actions with
  | [] => (st, [])
  | a :: actions => let '(st, events) := reduce a st in let '(st, events') := reduceAll actions st in (st, emitUIEvents events ++ events')
  end.

Lemma hearAll_app a b s : hearAll (a ++ b) s = hearAll a s ≫= hearAll b.
Proof.
  unfold hearAll. rewrite foldl_app. destruct (foldl _ (Some s) a) as [s'|]; [done|]. cbn. induction b as [|n b IH]; [done|exact IH].
Qed.
(** The cases of an action, by the fields it looks at. *)
Ltac ui_cases := cbv [boxes reduce reduceHandleLayout reduceSetInputIdle reduceShowChooser reduceShowWindowRenamePrompt reduceShowPaneRenamePrompt reduceShowHelpBar
    displayPanesHidden chooserHidden markPaneDirty setDirty nowDirty]; cbn;
  repeat (match goal with
          | |- context [match ?x with _ => _ end] => is_var x; destruct x
          | |- context [Bool.eqb ?a ?b] => destruct (Bool.eqb a b) eqn:?
          | |- context [?a =? 0] => destruct (a =? 0)
          | |- context [copyModes ?st !! ?a] => destruct (copyModes st !! a)
          | |- context [?m !! ?a] => is_var m; destruct (m !! a)
          end; cbn).
Lemma reduce_boxes action st : (boxes st <= 1 -> boxes (fst (reduce action st)) <= 1)%nat.
Proof.
  destruct st as [d dp f cm dis pd td ch wp pp hb m i]. destruct action; ui_cases; lia.
Qed.
Lemma reduce_copy_heard st paneID :
  (forall mode, hearAll (emitUIEvents (snd (reduce (uiActionEnterCopyMode paneID mode) st))) (shown st) = Some (shown (fst (reduce (uiActionEnterCopyMode paneID mode) st)))) /\
  hearAll (emitUIEvents (snd (reduce (uiActionExitCopyMode paneID) st))) (shown st) = Some (shown (fst (reduce (uiActionExitCopyMode paneID) st))).
Proof.
  assert (Hcopy : forall b1 b2 b3 b4 i before after : bool, before <> after ->
    hearAll [if after then UIEventCopyModeShown else UIEventCopyModeHidden] (mkShown b1 b2 b3 b4 before i) = Some (mkShown b1 b2 b3 b4 after i)).
  { intros b1 b2 b3 b4 i [] []; done. }
  destruct st as [d dp f cm dis pd td ch wp pp hb m i]. unfold shown. cbn [reduce copyModes]. split.
  - intros mode. destruct (cm !! paneID) as [x|]; cbn [fst snd setCopyModes nowDirty setDirty copyModes displayPanes message chooser inputIdle]; [reflexivity|].
    rewrite (bool_decide_eq_false_2 (<[paneID := mode]> cm = ∅)) by apply insert_non_empty. destruct (bool_decide (cm = ∅)); [|reflexivity]. by apply (Hcopy _ _ _ _ _ false true).
  - cbn [fst snd setCopyModes nowDirty setDirty copyModes displayPanes message chooser inputIdle].
    destruct (bool_decide (cm = ∅)) eqn:E1, (bool_decide (delete paneID cm = ∅)) eqn:E2; [reflexivity| |by apply (Hcopy _ _ _ _ _ true false)|reflexivity].
    apply bool_decide_eq_true in E1 as ->. apply bool_decide_eq_false in E2. by rewrite delete_empty in E2.
Qed.
Lemma reduce_heard action st : hearAll (emitUIEvents (snd (reduce action st))) (shown st) = Some (shown (fst (reduce action st))).
Proof.
  destruct st as [d dp f cm dis pd td ch wp pp hb m i].
  destruct action as [changed|idle|paneID|m'| |dis'| |c'| |pd'| |td'| |wp'| |pp'| |hb'| |paneID mode|paneID]; try apply reduce_copy_heard; try done.
  all: unfold shown; ui_cases; repeat match goal with c : chooserState |- _ => destruct c as [[] ? ? ? ?]; cbn end.
  all: generalize (negb (bool_decide (cm = ∅))).
  all: intros []; try reflexivity.
  all: destruct i; first [discriminate|reflexivity].
Qed.

Lemma reduceAll_heard actions st : let '(st', events) := reduceAll actions st in
  hearAll events (shown st) = Some (shown st') /\ (boxes st <= 1 -> boxes st' <= 1)%nat.
Proof.
  revert st. induction actions as [|a actions IH]; intros st; [done|]. cbn [reduceAll].
  pose proof (reduce_heard a st) as Hh. pose proof (reduce_boxes a st) as Hb. destruct (reduce a st) as [st1 ev1].
  specialize (IH st1). destruct (reduceAll actions st1) as [st2 ev2]. cbn [fst snd] in *. destruct IH as [IH1 IH2]. split; [|auto].
  rewrite hearAll_app, Hh. exact IH1.
Qed.

(** C24. What is heard is what is shown: after any sequence of the actions of the reducer
    ([reduce], the only place that makes events), the events it emitted, in order, lead
    from the start to exactly what is shown now (a message, the labels of panes, the
    chooser by its mode, copy mode, whether input is idle), no event repeats what was
    already so, and at most one of the boxes that take the keyboard is open.  Tab in the
    chooser, which changes its mode in place and is no action of the reducer, is not in
    these sequences: after it the events no longer match ([toggle_loses_events]). *)
Theorem ui_events_match actions : let '(st, events) := reduceAll actions newClientUIState in
  hearAll events (mkShown false false false false false true) = Some (shown st) /\ (boxes st <= 1)%nat.
Proof.
  pose proof (reduceAll_heard actions newClientUIState) as Hh. destruct (reduceAll actions newClientUIState) as [st events].
  destruct Hh as [Hh Hb]. split; [exact Hh|]. apply Hb. cbn. lia.
Qed.

(** Tab in the chooser changes its mode with no event: the chooser whose showing was
    heard is never heard to be hidden. *)
Theorem toggle_loses_events windows activeWinID : windows <> [] ->
  let '(st, events, _) := ShowChooser chooserModeTree windows activeWinID newClientUIState in
  let '(st, events') := reduce uiActionHideChooser (toggleChooserMode st) in
  events = ["choose-tree-shown"%string] /\ events' = ["choose-window-hidden"%string] /\ hearAll (events ++ events') (shown newClientUIState) = None.
Proof. destruct windows as [|w windows]; [done|]. intros _. split_and!; reflexivity. Qed.

(** ** Labels of panes *)
Lemma zip_insert_lookup {B} (keys : list Z) (vals : list B) m : NoDup keys ->
  forall k, fold_left (fun m '(key, v) => <[key := v]> m) (zip keys vals) m !! k =
  match list_find (fun kv => kv.1 = k) (zip keys vals) with Some (_, kv) => Some kv.2 | None => (m : gmap Z B) !! k end.
Proof.
  intros Hnd. revert vals m. induction keys as [|key keys IH]; intros [|v vals] m k; [done|done|done|]. apply NoDup_cons in Hnd as [Hni Hnd].
  cbn [zip zip_with fold_left list_find]. rewrite (IH Hnd). cbn [fst]. destruct (decide (key = k)) as [->|Hne]; cbn.
  - destruct (list_find _ (zip keys vals)) as [[i kv]|] eqn:E; cbn; [|by rewrite lookup_insert_eq].
    apply list_find_Some in E as (E & <- & _). exfalso. apply Hni. apply list_elem_of_lookup_2 in E. destruct kv as [k v']. by apply elem_of_zip_l in E.
  - destruct (list_find _ (zip keys vals)) as [[i kv]|]; cbn; [done|]. by rewrite lookup_insert_ne.
Qed.
Lemma alphabet_nodup : NoDup displayPaneLabelAlphabet.
Proof. apply (bool_decide_unpack _). by vm_compute. Qed.
Lemma labelPanes_targets paneIDs i key paneID : displayPaneLabelAlphabet !! i = Some key -> paneIDs !! i = Some paneID ->
  targets (labelPanes paneIDs) !! key = Some paneID.
Proof.
  intros Hk Hp. unfold labelPanes. cbn [targets]. rewrite (zip_insert_lookup _ _ _ alphabet_nodup).
  assert (Hz : zip displayPaneLabelAlphabet paneIDs !! i = Some (key, paneID)) by (apply lookup_zip_with_Some; by exists key, paneID).
  destruct (list_find _ _) as [[j [k p]]|] eqn:E.
  - apply list_find_Some in E as (E & Ek & _). cbn in Ek. subst k. apply lookup_zip_with_Some in E as (k & p' & [= <- <-] & Ek & Ep).
    rewrite (NoDup_lookup _ _ _ _ alphabet_nodup Ek Hk) in Ep. cbn. congruence.
  - apply list_find_None in E. exfalso. apply (proj1 (Forall_forall _ _) E (key, paneID)); [by eapply list_elem_of_lookup_2|done].
Qed.
Lemma labelPanes_only paneIDs key paneID : targets (labelPanes paneIDs) !! key = Some paneID ->
  exists i, displayPaneLabelAlphabet !! i = Some key /\ paneIDs !! i = Some paneID.
Proof.
  unfold labelPanes. cbn [targets]. rewrite (zip_insert_lookup _ _ _ alphabet_nodup). destruct (list_find _ _) as [[j [k p]]|] eqn:E; [|done].
  apply list_find_Some in E as (E & Ek & _). cbn in Ek. subst k. cbn. intros [= <-]. apply lookup_zip_with_Some in E as (k & p' & [= <- <-] & Ek & Ep). by exists j.
Qed.
Lemma alphabet_case i key : displayPaneLabelAlphabet !! i = Some key -> between 65 key 90 = false /\ (97 <= key -> between 65 (key - 32) 90 = true).
Proof.
  intros Hk. apply list_elem_of_lookup_2 in Hk. assert (Hall : Forall (fun key => between 65 key 90 = false /\ (97 <= key -> between 65 (key - 32) 90 = true)) displayPaneLabelAlphabet).
  { change displayPaneLabelAlphabet with (seqZ 49 9 ++ seqZ 97 26). apply Forall_app. split; apply Forall_seqZ; intros k Hr; unfold between; lia. }
  exact (proj1 (Forall_forall _ _) Hall _ Hk).
Qed.

(** C25. The labels of panes: with as many panes as there are labels or fewer, each
    pane gets its own label, in the order of the layout, a key or its capital picks
    the pane it labels, and no other key picks any; with no panes or too many
    nothing is shown. *)
Theorem display_pane_keys layout st :
  let paneIDs := map (fun e => CellPaneID e.2) (paneLeaves layout) in
  let '(st', events, ok) := ShowDisplayPanes (Some layout) st in
  if (0 <? lenZ paneIDs) && (lenZ paneIDs <=? 35) then
    ok = true /\ (forall i key paneID, displayPaneLabelAlphabet !! i = Some key -> paneIDs !! i = Some paneID ->
      ResolveDisplayPaneKey key st' = Some paneID /\ (97 <= key -> ResolveDisplayPaneKey (key - 32) st' = Some paneID) /\
      option_map labels (displayPanes st') ≫= (fun l => l !! i) = Some (paneID, [key])) /\
    (forall b paneID, ResolveDisplayPaneKey b st' = Some paneID -> exists i key,
      displayPaneLabelAlphabet !! i = Some key /\ paneIDs !! i = Some paneID /\ (b = key \/ 97 <= key /\ b = key - 32))
  else ok = false /\ st' = st /\ events = [].
Proof.
  intros paneIDs. unfold ShowDisplayPanes. fold paneIDs. change (lenZ displayPaneLabelAlphabet) with 35.
  assert (Hn : 0 <= lenZ paneIDs) by (unfold lenZ; lia).
  destruct (Z.eqb_spec (lenZ paneIDs) 0) as [->|Hne]; [done|]. rewrite (proj2 (Z.ltb_lt 0 _)) by lia. rewrite Z.leb_antisym.
  destruct (35 <? lenZ paneIDs); [done|]. cbn [orb andb negb reduce]. split; [done|].
  assert (Hres : forall b, ResolveDisplayPaneKey b (nowDirty (setDisplayPanes (Some (labelPanes paneIDs)) st)) =
    targets (labelPanes paneIDs) !! (if between 65 b 90 then b - 65 + 97 else b)) by done. split.
  - intros i key paneID Hk Hp. destruct (alphabet_case i key Hk) as [H1' H2']. pose proof (labelPanes_targets paneIDs i key paneID Hk Hp) as Ht.
    rewrite !Hres, H1'. split; [done|]. split.
    + intros Hc. rewrite (H2' Hc). by replace (key - 32 - 65 + 97) with key by lia.
    + cbn. rewrite list_lookup_fmap. replace (zip displayPaneLabelAlphabet paneIDs !! i) with (Some (key, paneID)); [done|].
      symmetry. apply lookup_zip_with_Some. by exists key, paneID.
  - intros b paneID. rewrite Hres. intros (i & Hk & Hp)%labelPanes_only. eexists i, _. split; [exact Hk|]. split; [done|].
    destruct (between 65 b 90) eqn:Eb; [right|by left]. unfold between in Eb. lia.
Qed.
End Events.

(** ** Frames of the client *)

(** What the renderer promises of a view: a layout that is positioned, bars as wide
    as the screen, and borders that do not depend on copy modes and cursors. *)
Record viewOK `{Colors} (width : Z) (v : ClientView) : Prop := {
  vo_wf : wf (cvRoot v);
  vo_positioned : positioned (cvRoot v);
  vo_bars m n : width <= lenZ (cvBar v m n);
  vo_borders paneID cm cm' hide hide' :
    option_map (fun pd => (pvBorderTint pd, pvColor pd, pvAccent pd)) (cvPane v paneID cm hide) =
    option_map (fun pd => (pvBorderTint pd, pvColor pd, pvAccent pd)) (cvPane v paneID cm' hide') }.
Definition drawnPane `{Colors} (v : ClientView) (paneID : Z) (cm : option CopyMode) (hide : bool) := option_map drawnOf (cvPane v paneID cm hide).
(** What the flags of the output of some panes mean, for each its screen changed,
    its cursor changed, and it is visible: the output changes no layout and no
    status line, nothing of a pane without output, nothing where neither the screen
    nor the cursor changed, and no pane in copy mode, which shows what it froze; a
    pane that is not visible is not in the layout.  The cursor of a pane that is
    not active is not compared: the cursor block that is stripped from such a pane
    is taken to change only with its screen. *)
Record outputView `{Colors} (infos : list (Z * (bool * bool * bool))) (v v' : ClientView) : Prop := {
  ov_root : cvRoot v' = cvRoot v;
  ov_active : cvActive v' = cvActive v;
  ov_theme : cvTheme v' = cvTheme v;
  ov_silent paneID cm hide : paneID ∉ map fst infos -> drawnPane v' paneID cm hide = drawnPane v paneID cm hide;
  ov_unchanged paneID vis hide : (paneID, (false, false, vis)) ∈ infos -> drawnPane v' paneID None hide = drawnPane v paneID None hide;
  ov_frozen paneID cm hide : drawnPane v' paneID (Some cm) hide = drawnPane v paneID (Some cm) hide;
  ov_hidden paneID sc cc : (paneID, (sc, cc, false)) ∈ infos -> ~ hasPane (cvRoot v) paneID;
  ov_borders paneID cm hide :
    option_map (fun pd => (pvBorderTint pd, pvColor pd, pvAccent pd)) (cvPane v' paneID cm hide) =
    option_map (fun pd => (pvBorderTint pd, pvColor pd, pvAccent pd)) (cvPane v paneID cm hide) }.

Section Runs.
Context `{GlyphLaws} `{!Palette} `{!UV} `{!ChooserRows} `{!OverlayText} `{U : !Unicode} `{TI : !TextInput}.
Implicit Types (cl : Client) (v : ClientView).

Definition clWidth cl : Z := compWidth (fcComp (clFrame cl)).
Definition clPrev cl : option ScreenGrid := prevGrid (fcComp (clFrame cl)).
Definition viewed cl : Prop := 0 <= clWidth cl /\ 0 <= compHeight (fcComp (clFrame cl)) /\ viewOK (clWidth cl) (clView cl).
(** The last frame was whole and nothing but what is marked changed since then; for
    a frame that is drawn now it is enough that nothing is marked. *)
Definition settled (now : bool) cl : Prop := viewed cl /\ exists inp0, (forall prev, clPrev cl = Some prev -> holdsWhole (clFrame cl) inp0 (clHeap cl) prev) /\
  (clPrev cl = None \/ fullRedraw (clUI cl) = true \/ (now = true /\ dirtyPanes (clUI cl) = ∅) \/
   FrameChange (clWidth cl) (dirtyPanes (clUI cl)) inp0 (clientInput cl)).

Lemma settled_weaken cl : settled false cl -> settled true cl.
Proof. intros [Hv (inp0 & Hp & [?|[?|[[? _]|?]]])]; [..|done|]; (split; [done|exists inp0; split; [done|]]); auto. Qed.
Lemma change_trans width D0 D1 a b c : FrameChange width D0 a b -> FrameChange width D1 b c -> FrameChange width (D0 ∪ D1) a c.
Proof.
  intros [R0 A0 O0 T0 C0 B0 L0 W0] [R1 A1 O1 T1 C1 B1 L1 W1]. split; try congruence.
  - intros pid [Hn0 Hn1]%not_elem_of_union Hp. rewrite C0, C1 by (rewrite ?R1; done). done.
  - intros n. destruct (W0 n), (W1 n). done.
Qed.
Lemma change_refl cl D : viewed cl -> FrameChange (clWidth cl) D (clientInput cl) (clientInput cl).
Proof. intros (_ & _ & Hv). split; try done. intros n. split; apply (vo_bars _ _ Hv). Qed.

(** Drawing now draws everything. *)
Lemma renderNow_settled now cl : settled true cl -> exists cl' out g, renderNow now cl = Some (cl', out) /\ clPrev cl' = Some g /\
  holdsWhole (clFrame cl') (clientInput cl) (clHeap cl') g /\ settled false cl'.
Proof.
  intros [(HW & HH & Hv) (inp0 & Hp & Hd)]. unfold renderNow, renderDiff, renderRequest.
  destruct (drawn_whole (clFrame cl) inp0 (clientInput cl) (dirtyPanes (clUI cl)) (fullRedraw (clUI cl) || bool_decide (dirtyPanes (clUI cl) = ∅)) (clHeap cl))
    as (out & n & h' & c' & g & -> & Eg & Hw & EW & EH); [done|done| |done|].
  { split; [apply (vo_wf _ _ Hv)|]. split; [apply (vo_positioned _ _ Hv)|]. destruct Hd as [Hn|[->|[[_ ->]|Hc]]]; [right; left; exact Hn|by left|left; by destruct (fullRedraw _)|right; right; exact Hc]. }
  cbn [mbind option_bind]. eexists _, _, g. split; [done|]. split; [done|]. split; [done|].
  assert (Hv' : viewed (withLoop (renderedAt now (clLoop cl)) (mkClient (markRendered (clUI cl)) (clView cl) c' h' (clLoop cl) (copyBuffer cl)))).
  { unfold viewed, clWidth in *. cbn. rewrite EW, EH. done. }
  split; [exact Hv'|]. exists (clientInput cl). split.
  - intros prev Ep. unfold clPrev in Ep. cbn in Ep. rewrite Eg in Ep. by injection Ep as <-.
  - right. right. right. pose proof (change_refl _ ∅ Hv') as Hr. replace (clientInput cl) with
      (clientInput (withLoop (renderedAt now (clLoop cl)) (mkClient (markRendered (clUI cl)) (clView cl) c' h' (clLoop cl) (copyBuffer cl)))) at 1; [exact Hr|].
    unfold clientInput. cbn. by rewrite EW.
Qed.
Lemma renderNow_keeps now cl cl' out : renderNow now cl = Some (cl', out) ->
  clWidth cl' = clWidth cl /\ clView cl' = clView cl /\ copyModes (clUI cl') = copyModes (clUI cl).
Proof.
  unfold renderNow, renderDiff. destruct (renderRequest _) as [d f]. destruct (RenderDiffWithOverlayDirtyStats _ _ _ _ _) as [[[[o n] h] c]|] eqn:Er; [|done].
  cbn [mbind option_bind]. intros [= <- _]. split; [|done]. unfold clWidth. cbn. unfold RenderDiffWithOverlayDirtyStats in Er. cbv zeta in Er.
  destruct (buildGridWithOverlayDirty _ _ _ _ _) as [[[h1 g1] n1]|]; [|done]. cbn [mbind option_bind] in Er. unfold renderGrid in Er. cbv zeta in Er.
  destruct (_ && negb _); [by injection Er as _ _ _ <-|]. destruct (if preciseSGR _ then _ else _) as [o' l]. by injection Er as _ _ _ <-.
Qed.
Lemma cleared_settled cl : viewed cl -> settled false (withFrameComp (ClearPrevGrid (clFrame cl)) cl).
Proof. intros Hv. split; [done|]. exists (clientInput cl). split; [done|by left]. Qed.

(** What has to hold before effects. *)
Fixpoint ready (effects : list clientEffect) cl : Prop :=
  match effects with
  | clientEffectClearPrevGrid :: _ => viewed cl
  | clientEffectRenderNow :: _ => settled true cl
  | (clientEffectEmitUIEvents _ | clientEffectStopScheduledRender | clientEffectBell | clientEffectWriteText _) :: effects => ready effects cl
  | _ => settled false cl
  end.
Lemma settled_ready effects cl : settled false cl -> ready effects cl.
Proof. induction effects as [|[] effects IH]; cbn; auto using settled_weaken. by intros []. Qed.
Lemma effects_settled now effects cl : ready effects cl -> exists cl' out leave, executeRenderEffects now effects cl = Some (cl', out, leave) /\ settled false cl'.
Proof.
  revert cl. induction effects as [|e effects IH]; intros cl Hr; [by eexists _, _, _|].
  assert (Hgo : forall cl1 out, ready effects cl1 -> exists cl' out' leave,
    ('(cl, rest, leave) ← executeRenderEffects now effects cl1; Some (cl, out ++ rest, leave)) = Some (cl', out', leave) /\ settled false cl').
  { intros cl1 out Hr1. destruct (IH cl1 Hr1) as (cl' & out' & leave & -> & Hs). by eexists _, _, _. }
  destruct e; cbn [executeRenderEffects ready] in *.
  - apply Hgo, Hr.
  - apply Hgo, settled_ready, cleared_settled, Hr.
  - apply Hgo. clear -Hr. induction effects as [|[] effects IH]; try exact Hr; by apply IH.
  - destruct (shouldRenderNow now (clLoop cl)).
    + destruct (renderNow_settled now cl (settled_weaken _ Hr)) as (cl1 & out & g & -> & _ & _ & Hs). apply Hgo, settled_ready, Hs.
    + apply Hgo, settled_ready. exact Hr.
  - destruct (renderNow_settled now cl Hr) as (cl1 & out & g & -> & _ & _ & Hs). apply Hgo, settled_ready, Hs.
  - apply Hgo, Hr.
  - apply Hgo, Hr.
  - by eexists _, _, _.
Qed.

(** What changed between two frames of the client. *)
Lemma input_change width needs (st st' : clientUIState) v v' : viewOK width v -> viewOK width v' ->
  cvRoot v' = cvRoot v -> cvActive v' = cvActive v -> cvTheme v' = cvTheme v -> overlayState width st' = overlayState width st -> paneDrag st' = paneDrag st ->
  (forall paneID hide, paneID ∉ needs -> hasPane (cvRoot v) paneID ->
     drawnPane v' paneID (copyModes st' !! paneID) hide = drawnPane v paneID (copyModes st !! paneID) hide) ->
  (forall paneID cm hide, option_map (fun pd => (pvBorderTint pd, pvColor pd, pvAccent pd)) (cvPane v' paneID cm hide) =
    option_map (fun pd => (pvBorderTint pd, pvColor pd, pvAccent pd)) (cvPane v paneID cm hide)) ->
  FrameChange width needs (frameInput width st v) (frameInput width st' v').
Proof.
  intros Hv Hv' Er Ea Et Eo Ed Hp Hb.
  assert (Hh : forall paneID, paneDragHidesCursor st' (cvActive v') paneID = paneDragHidesCursor st (cvActive v) paneID) by (intros; unfold paneDragHidesCursor; by rewrite Ed, Ea).
  assert (Hpd : forall paneID, option_map (fun pd => (pvBorderTint pd, pvColor pd, pvAccent pd)) (fiLookup (frameInput width st v) paneID) =
    option_map (fun pd => (pvBorderTint pd, pvColor pd, pvAccent pd)) (fiLookup (frameInput width st' v') paneID)).
  { intros paneID. cbn. rewrite Hb. apply (vo_borders _ _ Hv). }
  split; try done.
  - intros paneID Hn Hi. cbn in Hi. rewrite Er in Hi. cbn. rewrite Hh. symmetry. by apply Hp.
  - intros paneID. specialize (Hpd paneID). destruct (fiLookup _ paneID), (fiLookup _ paneID); cbn in *; congruence.
  - unfold activeColorHex. specialize (Hpd (cvActive v)). cbn [fiActive frameInput]. rewrite Ea. cbn [frameInput fiLookup] in *.
    destruct (cvPane v _ _ _), (cvPane v' _ _ _); cbn in Hpd; [|done|done|done]. injection Hpd as _ -> ->. done.
  - intros n. split; [apply (vo_bars _ _ Hv)|apply (vo_bars _ _ Hv')].
Qed.

(** Steps that keep the last frame, the request for a whole one and the marks. *)
Record keepsFrame (needs : gset Z) cl cl' : Prop := {
  kf_frame : clFrame cl' = clFrame cl;
  kf_heap : clHeap cl' = clHeap cl;
  kf_full : fullRedraw (clUI cl') = fullRedraw (clUI cl);
  kf_dirty : dirtyPanes (clUI cl') = needs ∪ dirtyPanes (clUI cl);
  kf_viewed : viewed cl' }.
Lemma settled_change needs cl cl' : settled false cl -> keepsFrame needs cl cl' -> FrameChange (clWidth cl) needs (clientInput cl) (clientInput cl') -> settled false cl'.
Proof.
  intros [Hv (inp0 & Hp & Hd)] [Ef Eh Eu Ed Hv'] Hc. split; [done|]. exists inp0. unfold clPrev, clWidth in *. rewrite Ef, Eh, Eu, Ed. split; [done|].
  destruct Hd as [?|[?|[[? _]|?]]]; [by left|by right; left|done|]. right. right. right. rewrite union_comm_L. by eapply change_trans.
Qed.
(** A change of one pane that is drawn now: where something else is marked, the
    pane has to be marked too. *)
Definition quiet cl (paneID : Z) : Prop := dirtyPanes (clUI cl) = ∅ \/ paneID ∈ dirtyPanes (clUI cl).
Lemma settled_quiet paneID cl cl' : settled false cl -> quiet cl paneID -> keepsFrame ∅ cl cl' ->
  FrameChange (clWidth cl) {[paneID]} (clientInput cl) (clientInput cl') -> settled true cl'.
Proof.
  intros Hs Hq Hk Hc. pose proof Hk as [Ef Eh Eu Ed Hv']. destruct Hq as [Hq|Hq].
  - destruct Hs as [Hv (inp0 & Hp & Hd)]. split; [done|]. exists inp0. unfold clPrev in *. rewrite Ef, Eh. split; [done|]. right. right. left.
    split; [done|]. rewrite Ed, Hq. set_solver.
  - apply settled_weaken, (settled_change {[paneID]} cl); [done| |done]. split; [done|done|done|set_solver|done].
Qed.

(** Operations of copy mode change the copy mode of one pane. *)
Record copyOnly (paneID : Z) cl cl' : Prop := {
  co_frame : clFrame cl' = clFrame cl;
  co_heap : clHeap cl' = clHeap cl;
  co_view : clView cl' = clView cl;
  co_full : fullRedraw (clUI cl') = fullRedraw (clUI cl);
  co_dirty : dirtyPanes (clUI cl') = dirtyPanes (clUI cl);
  co_overlay width : overlayState width (clUI cl') = overlayState width (clUI cl);
  co_drag : paneDrag (clUI cl') = paneDrag (clUI cl);
  co_others paneID' : paneID' <> paneID -> copyModes (clUI cl') !! paneID' = copyModes (clUI cl) !! paneID' }.
Lemma copyOnly_refl paneID cl : copyOnly paneID cl cl.
Proof. by split. Qed.
Lemma copyOnly_trans paneID a b c : copyOnly paneID a b -> copyOnly paneID b c -> copyOnly paneID a c.
Proof. intros [A1 A2 A3 A4 A5 A6 A7 A8] [B1 B2 B3 B4 B5 B6 B7 B8]. split; try congruence. intros other Hp. by rewrite B8, A8. Qed.
Lemma copyOnly_settled paneID cl cl' : settled false cl -> quiet cl paneID -> copyOnly paneID cl cl' -> settled true cl'.
Proof.
  intros Hs Hq [Ef Eh Ev Eu Ed Eo Eg Ho]. pose proof Hs as [(HW & HH & Hv) _]. assert (Hv' : viewed cl') by (unfold viewed, clWidth in *; by rewrite Ef, Ev).
  apply (settled_quiet paneID cl); [done|done| |].
  - split; [done|done|done|rewrite Ed; set_solver|done].
  - unfold clientInput. rewrite Ef, Ev. apply input_change; try done. intros paneID' hide Hn _. rewrite Ho; [done|]. set_solver.
Qed.
Lemma copyOnly_put paneID cm cl : copyOnly paneID cl (putCopyMode paneID cm cl).
Proof. split; try done. intros other Hp. cbn. by rewrite lookup_insert_ne. Qed.
Lemma copyOnly_exit paneID cl : copyOnly paneID cl (fst (exitCopyMode paneID cl)).
Proof. split; try done. intros other Hp. cbn. by rewrite lookup_delete_ne. Qed.
Lemma copyOnly_enter paneID cl : copyOnly paneID cl (withUI (fst (enterCopyModeResult paneID (clView cl) (clUI cl))) cl).
Proof.
  unfold enterCopyModeResult. destruct (copyModes (clUI cl) !! paneID) eqn:E; [by split|]. destruct (cvBuffer _ _); [|by split]. cbn [reduce]. rewrite E.
  split; try done. intros other Hp. cbn. by rewrite lookup_insert_ne.
Qed.
Lemma copyOnly_copy paneID cm cl cl' out : copyModeCopy paneID cm cl = Some (cl', out) -> copyOnly paneID cl cl'.
Proof.
  unfold copyModeCopy. destruct (ConsumeCopyText cm) as [cm' [text append]]. destruct (match text with [] => SelectedText cm' | _ => Some text end) as [text'|]; [|done].
  cbn [mbind option_bind]. pose proof (copyOnly_put paneID cm' cl) as [P1 P2 P3 P4 P5 P6 P7 P8]. destruct text'; intros [= <- <-]; by split.
Qed.
Lemma copyOnly_selection paneID cl cl' out : CopyModeCopySelection paneID cl = Some (cl', out) -> copyOnly paneID cl cl'.
Proof.
  unfold CopyModeCopySelection. destruct (copyModes (clUI cl) !! paneID) as [cm|]; [|intros [= <- <-]; apply copyOnly_refl].
  destruct (copyModeCopy paneID cm cl) as [[cl1 out1]|] eqn:E; [|done]. apply copyOnly_copy in E. cbn [mbind option_bind].
  pose proof (copyOnly_exit paneID cl1) as Hx. destruct (exitCopyMode paneID cl1) as [cl2 out2]. intros [= <- <-]. by eapply copyOnly_trans.
Qed.

(** *** Steps of the loop *)

(** The panes whose output shows. *)
Definition batchNeeds cl (infos : list (Z * (bool * bool * bool))) : list Z :=
  map fst (List.filter (fun '(paneID, (screenChanged, cursorChanged, paneVisible)) =>
    paneOutputNeedsRender screenChanged cursorChanged paneVisible (bool_decide (is_Some (copyModes (clUI cl) !! paneID)))) infos).
(** What a message does is what the renderer promises; copy mode is entered while
    nothing else is marked. *)
Definition outputOK cl (infos : list (Z * (bool * bool * bool))) v : Prop := viewOK (clWidth cl) v /\ outputView infos (clView cl) v.
Definition msgOK (msg : RenderMsg) cl : Prop :=
  match msg with
  | RenderMsgLayout v _ => viewOK (clWidth cl) v
  | RenderMsgPaneOutput v paneID _ screenChanged cursorChanged paneVisible _ => outputOK cl [(paneID, (screenChanged, cursorChanged, paneVisible))] v
  | RenderMsgCopyMode paneID => quiet cl paneID
  | _ => True
  end.
Inductive clientStep : Client -> Client -> Prop :=
| StepMsg now msg cl cl' out leave : msgOK msg cl -> loopMsg now msg cl = Some (cl', out, leave) -> clientStep cl cl'
| StepBatch now n v infos prioritized cl cl' out leave : outputOK cl infos v ->
    executePaneOutputBatch now n (handlePaneOutputBatch v infos prioritized cl) = Some (cl', out, leave) -> clientStep cl cl'
| StepTimer now cl cl' out : timerFired now cl = Some (cl', out) -> clientStep cl cl'
| StepAttention now v cl cl' out : viewOK (clWidth cl) v -> attentionFired now (withView v cl) = Some (cl', out) -> clientStep cl cl'
| StepOverlay now step cl cl' out : overlayChanged now step cl = Some (cl', out) -> clientStep cl cl'
| StepCopyInput now input cl cl' out : quiet cl (cvActive (clView cl)) -> flushCopyInput now input cl = Some (cl', out) -> clientStep cl cl'
| StepResize w h v cl : 0 <= w -> 0 <= h -> viewOK w v -> clientStep cl (resizeClient w h v cl).
Definition clientStart cl : Prop :=
  clUI cl = newClientUIState /\ viewed cl /\ exists w h precise bg, clFrame cl = mkFrameComp (NewCompositor w h precise) [] bg.
Definition clientReachable cl : Prop := exists cl0, clientStart cl0 /\ rtc clientStep cl0 cl.

Lemma marked_fields l (st : clientUIState) : let st' := fold_left (fun st paneID => fst (reduce (uiActionPaneOutput paneID) st)) l st in
  copyModes st' = copyModes st /\ fullRedraw st' = fullRedraw st /\ dirtyPanes st' = (list_to_set l ∖ {[0]}) ∪ dirtyPanes st /\ paneDrag st' = paneDrag st /\
  (forall width, overlayState width st' = overlayState width st).
Proof.
  revert st. induction l as [|p l IH]; intros st; cbn [fold_left]; [split_and!; try done; set_solver|].
  destruct (IH (fst (reduce (uiActionPaneOutput p) st))) as (-> & -> & -> & -> & Ho). cbn in Ho |- *. unfold markPaneDirty in *.
  destruct (Z.eqb_spec p 0) as [->|Hp]; split_and!; try done; cbn; set_solver.
Qed.
(** A pane that is not marked is drawn as before. *)
Lemma unmarked_drawn cl infos v paneID hide : outputView infos (clView cl) v -> paneID ∉ batchNeeds cl infos -> hasPane (cvRoot (clView cl)) paneID ->
  drawnPane v paneID (copyModes (clUI cl) !! paneID) hide = drawnPane (clView cl) paneID (copyModes (clUI cl) !! paneID) hide.
Proof.
  intros Ho Hn Hp. destruct (decide (paneID ∈ map fst infos)) as [Hin|Hin]; [|by apply (ov_silent _ _ _ Ho)].
  apply list_elem_of_fmap in Hin as ([p [[sc cc] vis]] & Ep & Hin). cbn in Ep. subst p.
  assert (Hneeds : paneOutputNeedsRender sc cc vis (bool_decide (is_Some (copyModes (clUI cl) !! paneID))) = false).
  { apply not_true_iff_false. intros Hm. apply Hn. unfold batchNeeds. apply list_elem_of_fmap. exists (paneID, (sc, cc, vis)).
    split; [done|]. apply list_elem_of_In, filter_In. split; [by apply list_elem_of_In|done]. }
  destruct vis; [|by destruct (ov_hidden _ _ _ Ho _ _ _ Hin)]. unfold paneOutputNeedsRender in Hneeds. apply orb_false_iff in Hneeds as [-> Hneeds].
  destruct (copyModes (clUI cl) !! paneID) as [cm|] eqn:E; [apply (ov_frozen _ _ _ Ho)|].
  rewrite bool_decide_false in Hneeds by (by intros [? ?]). cbn in Hneeds. subst sc. by apply (ov_unchanged _ _ _ Ho _ true).
Qed.
Lemma output_settled cl infos v : settled false cl -> outputOK cl infos v ->
  settled false (withUI (fold_left (fun st paneID => fst (reduce (uiActionPaneOutput paneID) st)) (batchNeeds cl infos) (clUI cl)) (withView v cl)).
Proof.
  intros Hs [Hv' Ho]. set (needs := batchNeeds cl infos). pose proof Hs as [(HW & HH & Hv) _]. destruct (marked_fields needs (clUI cl)) as (Mc & Mf & Md & Mg & Mo).
  apply (settled_change (list_to_set needs ∖ {[0]}) cl); [done|by split|].
  apply input_change; try done; [apply (ov_root _ _ _ Ho)|apply (ov_active _ _ _ Ho)|apply (ov_theme _ _ _ Ho)| |apply (ov_borders _ _ _ Ho)].
  intros p hide Hn Hp. cbn [withUI withView clUI clView]. rewrite Mc. apply (unmarked_drawn cl infos); [done| |done]. destruct Hp as [Hp _].
  intros Hin. apply Hn. set_solver.
Qed.

Lemma ready_events effects events cl : ready effects cl -> ready (appendUIEventEffect [] events ++ effects) cl.
Proof. by destruct events. Qed.
Lemma outputMsg_settled cl v paneID size sc cc vis prio : settled false cl -> msgOK (RenderMsgPaneOutput v paneID size sc cc vis prio) cl ->
  settled false (fst (handleRenderMsg (RenderMsgPaneOutput v paneID size sc cc vis prio) cl)).
Proof.
  intros Hs Hok. pose proof (output_settled cl _ v Hs Hok) as Ho. unfold batchNeeds in Ho. cbn in Ho |- *.
  destruct (paneOutputNeedsRender _ _ _ _); destruct (negb (sc || cc)); exact Ho.
Qed.
Lemma handleRenderMsg_ready msg cl : settled false cl -> msgOK msg cl -> ready (snd (handleRenderMsg msg cl)) (fst (handleRenderMsg msg cl)).
Proof.
  intros Hs Hok. pose proof Hs as [(HW & HH & Hv) (inp0 & Hp & Hd)]. destruct msg as [v changed|v paneID size sc cc vis prio| | | |paneID|text];
    [|by apply settled_ready, outputMsg_settled|..]; cbn [handleRenderMsg msgOK] in *.
  - destruct (handleLayoutResult v changed cl) as [cl1 events] eqn:E. unfold handleLayoutResult in E. destruct (reduce _ _) as [st ev] eqn:Er. injection E as <- <-.
    destruct changed; cbn [fst snd]; unfold appendStopAndRenderNow.
    + rewrite <- app_assoc. apply ready_events. by split_and!.
    + apply ready_events. apply settled_weaken. split; [by split_and!|]. exists inp0. split; [done|]. right. by left.
  - apply settled_ready, Hs.
  - apply settled_ready, Hs.
  - apply settled_ready, Hs.
  - pose proof (copyOnly_settled paneID cl _ Hs Hok (copyOnly_enter paneID cl)) as Hc.
    destruct (enterCopyModeResult paneID (clView cl) (clUI cl)) as [st events]. cbn [fst snd] in *. unfold appendStopAndRenderNow. apply ready_events. exact Hc.
  - unfold ShowCommandError. destruct (TrimSpace text) as [|t text'] eqn:Et; cbn [fst snd reduce]; [apply settled_ready; destruct cl; exact Hs|].
    apply ready_events, settled_ready, (settled_change ∅ cl); [done| |].
    + split; try done. cbn. by rewrite union_empty_l_L.
    + by apply input_change.
Qed.

Lemma batch_settled now n cl1 effects cl' out leave : settled false cl1 -> executePaneOutputBatch now n (cl1, effects) = Some (cl', out, leave) -> settled false cl'.
Proof.
  intros Hh E. unfold executePaneOutputBatch in E.
  assert (Hgo : forall cl2, settled false cl2 -> executeRenderEffects now effects cl2 = Some (cl', out, leave) -> settled false cl').
  { intros cl2 Hs2 E'. destruct (effects_settled now effects cl2 (settled_ready _ _ Hs2)) as (cl3 & out3 & leave3 & E3 & Hs3). rewrite E' in E3. by injection E3 as <- _ _. }
  destruct effects as [|e effects]; [by apply (Hgo cl1)|]. destruct (recordPaneOutput _ _ _) as [l force]. destruct force; (eapply Hgo; [|exact E]); [|exact Hh].
  destruct Hh as [Hv (inp0 & Hp & _)]. split; [exact Hv|]. exists inp0. split; [exact Hp|]. right. by left.
Qed.

Lemma clientStep_settled cl cl' : settled false cl -> clientStep cl cl' -> settled false cl'.
Proof.
  intros Hs Hstep. destruct Hstep as [now msg cl cl' out leave Hok E|now n v infos prio cl cl' out leave Hok E|now cl cl' out E|now v cl cl' out Hok E|now step cl cl' out E|now input cl cl' out Hq E|w h v cl Hw Hh Hv].
  - assert (Hmsg : forall effects cl1, handleRenderMsg msg cl = (cl1, effects) -> executeRenderEffects now effects cl1 = Some (cl', out, leave) -> settled false cl').
    { intros effects cl1 Em E'. pose proof (handleRenderMsg_ready msg cl Hs Hok) as Hr. rewrite Em in Hr.
      destruct (effects_settled now effects cl1 Hr) as (cl2 & out2 & leave2 & E2 & Hs2). rewrite E' in E2. by injection E2 as <- _ _. }
    destruct msg as [v changed|v paneID size sc cc vis prio| | | |paneID|text]; cbn [loopMsg] in E; [by destruct (handleRenderMsg _ cl); eauto| |by destruct (handleRenderMsg _ cl); eauto..].
    pose proof (outputMsg_settled cl v paneID size sc cc vis prio Hs Hok) as Hh. destruct (handleRenderMsg _ cl) as [cl1 effects]. by eapply batch_settled.
  - assert (Hh : settled false (fst (handlePaneOutputBatch v infos prio cl))).
    { pose proof (output_settled cl _ v Hs Hok) as Ho. unfold handlePaneOutputBatch. fold (batchNeeds cl infos). destruct (batchNeeds cl infos); exact Ho. }
    destruct (handlePaneOutputBatch v infos prio cl) as [cl1 effects]. by eapply batch_settled.
  - destruct (renderNow_settled now cl (settled_weaken _ Hs)) as (cl1 & out1 & g & E1 & _ & _ & Hs1). unfold timerFired in E. rewrite E in E1. by injection E1 as <- _.
  - destruct Hs as [(HW & HH & Hv) (inp0 & Hp & _)]. unfold attentionFired in E.
    edestruct (renderNow_settled now) as (cl1 & out1 & g & E1 & _ & _ & Hs1); [|rewrite E in E1; injection E1 as <- _; exact Hs1].
    split; [by split_and!|]. exists inp0. split; [exact Hp|]. right. by left.
  - unfold overlayChanged in E. destruct (step (clUI cl)) as [st events]. destruct Hs as [Hv _].
    destruct (effects_settled now overlayRenderNowResult (withUI st cl) Hv) as (cl2 & out2 & leave2 & E2 & Hs2). rewrite E2 in E. by injection E as <- _.
  - unfold flushCopyInput in E. destruct (copyModes (clUI cl) !! cvActive (clView cl)) as [cm|]; [|by injection E as <- _].
    destruct (HandleInput input cm) as [[cm' action]|]; [|done]. cbn [mbind option_bind] in E. pose proof (copyOnly_put (cvActive (clView cl)) cm' cl) as Hput.
    set (paneID := cvActive (clView cl)) in *. set (mid := match action with ActionExit => _ | ActionYank => _ | _ => _ end) in E.
    assert (Hmid : forall cl1 o, mid = Some (cl1, o) -> copyOnly paneID cl cl1).
    { intros cl1 o Em. subst mid. destruct action.
      - by injection Em as <- _.
      - by injection Em as <- _.
      - pose proof (copyOnly_exit paneID (putCopyMode paneID cm' cl)) as Hx. destruct (exitCopyMode paneID (putCopyMode paneID cm' cl)) as [cl2 o2].
        injection Em as <- _. by eapply copyOnly_trans.
      - eapply copyOnly_trans; [exact Hput|by eapply copyOnly_selection]. }
    destruct mid as [[cl1 o]|]; [|done]. specialize (Hmid cl1 o eq_refl). cbn [mbind option_bind] in E.
    pose proof (copyOnly_settled paneID cl cl1 Hs Hq Hmid) as Hc. destruct (effects_settled now renderNowResult cl1 Hc) as (cl2 & out2 & leave2 & E2 & Hs2).
    rewrite E2 in E. by injection E as <- _.
  - split; [by split_and!|]. exists (clientInput (resizeClient w h v cl)). split; [done|by left].
Qed.

(** C6. The screen of the client is never stale: in every state its loop can reach, by
    layouts, output of one or many panes, commands, overlays shown and hidden, resizes,
    timers, and copy mode as long as no other pane waits to be redrawn ([quiet];
    [copy_mode_change_missed] is what happens otherwise), a frame that is
    drawn now, whether it draws all panes or only the marked ones, succeeds and holds,
    cell for cell, the whole frame of the current panes, overlays and messages.
    The panes marked for output ([paneOutputNeedsRender]) are shown to be enough,
    from what the renderer promises of the views it gives: each has a positioned
    layout, bars as wide as the screen and borders that copy modes and cursors do not
    change ([viewOK]), and its flags of output mean what they say ([outputView]):
    what is drawn of a pane whose screen and cursor did not change is the same, and
    so is what is drawn in copy mode. *)
Theorem client_frames_whole now cl : clientReachable cl ->
  exists cl' out g, renderNow now cl = Some (cl', out) /\ clPrev cl' = Some g /\ holdsWhole (clFrame cl') (clientInput cl) (clHeap cl') g.
Proof.
  intros (cl0 & (Hu & Hv & w & h & precise & bg & Ef) & Hrun). assert (Hs : settled false cl).
  { assert (Hs0 : settled false cl0) by (split; [done|]; exists (clientInput cl0); unfold clPrev; rewrite Ef; split; [done|by left]).
    clear Hu Hv Ef. induction Hrun as [|a b c Hab _ IH]; [done|]. apply IH. by eapply clientStep_settled. }
  destruct (renderNow_settled now cl (settled_weaken _ Hs)) as (cl' & out & g & E & Eg & Hw & _). by exists cl', out, g.
Qed.
End Runs.

(** ** Witnesses

    Two panes side by side; a pane shows other text in copy mode. *)
#[export] Instance sampleRows : ChooserRows := { chooserItem := bytes; buildItems s mode := [[120]] }.
#[export] Instance sampleOverlayText : OverlayText := {
  chooserCells c := [(2, 2, plain (bytesOf "#"))]; textInputCells title value := [(2, 2, plain (bytesOf "?"))]; layoutHelpBarRows items width := [] }.
#[export] Instance sampleTextInput : TextInput := { textInputUpdate i msg := (fst i ++ Runes msg, snd i + lenZ (Runes msg)) }.
#[export] Existing Instance asciiUnicode.
Definition sampleClientView (text : bytes) : ClientView :=
  mkView sampleRoot 1 (fun paneID cm hide =>
      let shown := match cm with Some _ => bytesOf "c" | None => if paneID =? 1 then bytesOf "x" else text end in
      if (paneID =? 1) || (paneID =? 2) then Some (sampleView shown) else None)
    (fun message n => repeat (plain (formatDecimal n)) 9) [] (mkTheme (bytesOf "585b70") (bytesOf "313244") (bytesOf "cdd6f4") (bytesOf "89b4fa"))
    (fun paneID => Some (4, 3)) (fun paneID => Some (mkBuffer 4 3 0 [] [bytesOf "abc"])).
Definition sampleClient : Client :=
  mkClient newClientUIState (sampleClientView (bytesOf "y")) (mkFrameComp (NewCompositor 9 5 false) [] []) [] (mkLoop None None 16 0 false) [].
Definition sampleOutput : RenderMsg := RenderMsgPaneOutput (sampleClientView (bytesOf "z")) 2 1 true false true false.

Lemma sampleView_ok text : viewOK 9 (sampleClientView text).
Proof. split; [exact (wfb_sound sampleRoot eq_refl)|reflexivity|reflexivity|]. intros paneID cm cm' hide hide'. cbn. by destruct (paneID =? 1), (paneID =? 2). Qed.
Lemma sample_start : clientStart sampleClient.
Proof.
  split; [reflexivity|]. split; [|by exists 9, 5, false, []]. split; [vm_compute; discriminate|]. split; [vm_compute; discriminate|]. exact (sampleView_ok _).
Qed.
Lemma sample_output_ok cl : clWidth cl = 9 -> clView cl = sampleClientView (bytesOf "y") -> msgOK sampleOutput cl.
Proof.
  intros EW Ev. unfold msgOK, sampleOutput, outputOK. rewrite EW, Ev. split; [exact (sampleView_ok _)|]. split; try done.
  - intros paneID cm hide Hn. unfold drawnPane. cbn in *. destruct (Z.eqb_spec paneID 2) as [->|]; [set_solver|]. by destruct (paneID =? 1).
  - intros paneID vis hide Hin. apply list_elem_of_singleton in Hin. discriminate Hin.
  - intros paneID sc cc Hin. apply list_elem_of_singleton in Hin. discriminate Hin.
  - intros paneID cm hide. cbn. by destruct (paneID =? 1), (paneID =? 2).
Qed.

(** The first frame is drawn, then the second pane waits to be redrawn. *)
Definition sampleDrawnClient : option Client := option_map fst (timerFired 0 sampleClient).
Definition sampleWaiting : option Client := cl ← sampleDrawnClient; '(cl, _, _) ← loopMsg 1 sampleOutput cl; Some cl.
Lemma sampleWaiting_reachable cl : sampleWaiting = Some cl -> clientReachable cl.
Proof.
  unfold sampleWaiting, sampleDrawnClient. intros E. exists sampleClient. split; [exact sample_start|].
  destruct (timerFired 0 sampleClient) as [[cl1 out1]|] eqn:E1; [|discriminate E]. cbn [option_map mbind option_bind fst] in E.
  destruct (loopMsg 1 sampleOutput cl1) as [[[cl2 out2] leave]|] eqn:E2; [|discriminate E]. cbn [mbind option_bind] in E. injection E as <-.
  destruct (renderNow_keeps _ _ _ _ E1) as (EW & Ev & _).
  apply (rtc_l _ _ cl1); [exact (StepTimer _ _ _ _ E1)|]. apply rtc_once. refine (StepMsg _ _ _ _ _ _ _ E2).
  apply sample_output_ok; [exact EW|exact Ev].
Qed.
Lemma sampleWaiting_some : exists cl, sampleWaiting = Some cl /\ dirtyPanes (clUI cl) = {[2]} /\ fullRedraw (clUI cl) = false.
Proof.
  assert (Ht : match sampleWaiting with Some cl => bool_decide (dirtyPanes (clUI cl) = {[2]}) && negb (fullRedraw (clUI cl)) | None => false end = true) by (vm_compute; reflexivity).
  destruct sampleWaiting as [cl|]; [|discriminate]. apply andb_true_iff in Ht as [Hd Hf]. exists cl. split; [reflexivity|].
  split; [exact (bool_decide_eq_true_1 _ Hd)|by apply negb_true_iff in Hf].
Qed.
Lemma client_frames_whole_witness : exists cl cl' out g, clientReachable cl /\ dirtyPanes (clUI cl) = {[2]} /\
  renderNow 20 cl = Some (cl', out) /\ clPrev cl' = Some g /\ holdsWhole (clFrame cl') (clientInput cl) (clHeap cl') g.
Proof.
  destruct sampleWaiting_some as (cl & E & Hd & _). pose proof (sampleWaiting_reachable cl E) as Hr.
  destruct (client_frames_whole 20 cl Hr) as (cl' & out & g & Hn). exists cl, cl', out, g. split; [exact Hr|]. split; [exact Hd|exact Hn].
Defined.
Lemma display_pane_keys_sample : let '(st, _, ok) := ShowDisplayPanes (Some sampleRoot) newClientUIState in
  ok = true /\ ResolveDisplayPaneKey 49 st = Some 1 /\ ResolveDisplayPaneKey 50 st = Some 2 /\ ResolveDisplayPaneKey 51 st = None.
Proof. by vm_compute. Qed.

(** Entering copy mode while another pane waits to be redrawn: only that pane is
    drawn, and what copy mode shows is missing from the frame. *)
Theorem copy_mode_change_missed : exists cl cl' out g, clientReachable cl /\ loopMsg 2 (RenderMsgCopyMode 1) cl = Some (cl', out, false) /\
  is_Some (copyModes (clUI cl') !! 1) /\ dirty (clUI cl') = false /\ clPrev cl' = Some g /\ ~ holdsWhole (clFrame cl') (clientInput cl') (clHeap cl') g.
Proof.
  assert (Ht : match sampleWaiting ≫= loopMsg 2 (RenderMsgCopyMode 1) with
    | Some (cl', _, leave) =>
        match clPrev cl', buildGridWithOverlay (clFrame cl') (clientInput cl') [] with
        | Some g, Some (h, g', _) =>
            bool_decide (Char (gridCell (clHeap cl') g 1 0) = bytesOf "x") && bool_decide (Char (gridCell h g' 1 0) = bytesOf "c") &&
            (0 <? gWidth g) && (1 <? gHeight g) && negb leave && negb (dirty (clUI cl')) && bool_decide (is_Some (copyModes (clUI cl') !! 1))
        | _, _ => false
        end
    | None => false
    end = true) by (vm_compute; reflexivity).
  destruct sampleWaiting as [cl|] eqn:Ew; [|discriminate]. pose proof (sampleWaiting_reachable cl Ew) as Hr. cbn [mbind option_bind] in Ht.
  destruct (loopMsg 2 (RenderMsgCopyMode 1) cl) as [[[cl' out] leave]|] eqn:E; [|discriminate]. destruct (clPrev cl') as [g|] eqn:Eg; [|discriminate].
  destruct (buildGridWithOverlay (clFrame cl') (clientInput cl') []) as [[[h g'] n]|] eqn:Ef; [|discriminate].
  rewrite !andb_true_iff in Ht. destruct Ht as ((((((Hx & Hc) & HW) & HH) & Hl) & Hd) & Hm). apply bool_decide_eq_true in Hx, Hc, Hm.
  apply negb_true_iff in Hl, Hd. subst leave. exists cl, cl', out, g.
  split; [exact Hr|]. split; [exact E|]. split; [exact Hm|]. split; [exact Hd|]. split; [exact Eg|].
  intros [_ (h2 & g2 & n2 & E2 & _ & _ & C)]. rewrite Ef in E2. injection E2 as <- <- _.
  specialize (C 1 0 ltac:(unfold inGrid; lia) ltac:(lia)). rewrite C in Hx. rewrite Hc in Hx. discriminate.
Qed.
